(* ===== verification/_CoqProject ===== *)
-Q . S2P
Prelude.v
BTree.v
RangeMap.v
Aslr.v
Paging.v
PageTree.v
PageUnmap.v
PageMap.v
Ksc.v
TrapFrame.v
Signal.v
SignalQueue.v
Ktime.v
FatTime.v
Bytes.v
FatRaw.v
FatTable.v
FatAlloc.v
FatFs.v
FatDirent.v
FatName.v
FatShort.v
Path.v
Umio.v
Umifs.v
FatFile.v
FatFileSpec.v
FatFileWrite.v
FatFileOpen.v
FatDir.v
FatDirSpec.v
FatDirWrite.v
FatDirOpen.v
Conc.v
Event.v
Mutex.v
MutexSpec.v
RwLock.v
RwLockSpec.v
RwLockUse.v
Semaphore.v
Channel.v
ChannelSpec.v
ChannelUse.v
Oneshot.v
Broadcast.v
Phys.v
PhysInv.v
PhysCommit.v
PhysClone.v
PhysWrite.v
PhysDrop.v
PhysUse.v
Lru.v
LruUse.v
LruRef.v
LruEquiv.v
Virt.v
VirtSpec.v
VirtOps.v
VirtUnmap.v
VirtMap.v
VirtFork.v
Tlb.v
Mem.v
VirtUse.v
MemSpec.v
Arena.v
Fd.v
Pipe.v
Futex.v
User.v
WorkQueue.v
WorkQueueSpec.v
