(* ===== verification/Prelude.v ===== *)
(** * umi: a verification development of the UMI kernel's core libraries

    UMI (src/mizu) is a RISC-V kernel written as asynchronous Rust.  The kernel proper
    (src/mizu/kernel) is a set of tasks over libraries (src/mizu/lib) that hold most of
    its state machines: the maps of address ranges and the Sv39 page tables of an
    address space, memory objects, signals, timers, the FAT32 file system with the
    stream and path interfaces above it, the locks and channels the tasks share, the
    executor that runs them, and the values that cross the system-call boundary.  These
    libraries are what is modelled here, and of the kernel the memory, the descriptors,
    the pipes and the futexes of a task.

    ** How code is modelled

    A machine integer is a [Z] with its wrap-around written out ([wadd], [wsub],
    [wmul], [wshl] at a width); the build is a release build, so arithmetic wraps and
    [debug_assert!] is not checked.  A fallible function returns [res]: [Ok], [Err] or
    [Panic], where [Panic] is a failed [assert!], an [unwrap] of nothing or an index
    out of bounds.  Stateful code is in the state monad [ST], or in [PT] where a loop
    has fuel: there [None] is a loop that has not ended, and the theorems give the fuel
    that is enough.  An asynchronous function that holds its locks is one step.  Where
    the point is what happens between the steps of several tasks, code is a [prog] of
    Conc.v: a tree of atomic steps on a shared memory, which may panic, take the clock
    as an input, or suspend and be polled again or dropped.  Threads run lists of
    commands in any interleaving; memory is sequentially consistent, so the orderings
    the code asks of its atomics are not examined.  Code
    of other crates is a class with its operations and a second class with its
    documented behaviour, and has a concrete instance: the bounded queues of crossbeam
    and heapless, wakers, the parsers of nom, Unicode upper case, page frames, the
    clock, event listeners, the queues of channels, and byte and block devices.

    ** Files

    A file has the definitions of a component and, where they are not long, what is
    shown of them; longer proofs are in files of their own.

    - Prelude.v: outcomes, monads, machine integers, lists; this header.
    - BTree.v, RangeMap.v, Aslr.v: lib/range-map.  [RM] is the map from disjoint ranges to
      values over the standard library's ordered map; the theorems give each operation
      by the value at an address, and show that the randomised search ends in two rounds
      and finds a free aligned range whenever there is one.
    - Paging.v, PageTree.v, PageUnmap.v, PageMap.v: lib/paging.  Entries and walks at the
      width of the hardware, page tables as pages in a memory; the invariant is that
      every table page is owned by one position of the tree.  mappages, reprotect, unmap
      and la2pa change and read the mapping as they should.
    - Ksc.v, TrapFrame.v: lib/ksc-core and lib/co-trap.  Error numbers, results in
      registers, the trap frame.
    - Signal.v, SignalQueue.v: lib/sygnal.  Sets, actions and the pending queues,
      sequentially and with the atomic steps of a push and a pop interleaved.
    - Ktime.v: lib/ktime-core and lib/ktime.  Instants, the timer queue and timers; a
      timer that waits is woken by the first tick after its deadline.
    - Umio.v: lib/umio and the block devices of lib/devices as streams.  The loops on
      whole buffers end on every object that makes progress.
    - Path.v, Umifs.v: lib/umifs.  Paths as strings against the list of their components,
      flags and types, the null and zero devices.
    - FatTime.v, Bytes.v, FatRaw.v: lib/afat32, encodings on disk.
    - FatTable.v, FatAlloc.v, FatFs.v: the allocation table and the mounted volume;
      chains, allocation, the free count.
    - FatFile.v, FatFileSpec.v, FatFileWrite.v, FatFileOpen.v: files.  [file_ok] ties a
      file to its chain; opening, reading, writing and truncating keep it and act on the
      bytes of the file.
    - FatDirent.v, FatName.v, FatShort.v: directory entries, long and short names.
    - FatDir.v, FatDirSpec.v, FatDirWrite.v, FatDirOpen.v: directories.  The
      operations on entries are proved against the interface [DirSpec] of a file of
      records, which FatDirOpen.v shows the files of a volume to keep; the list of
      entries of a directory is the reference.
    - Conc.v: programs of atomic steps, threads, schedules, and a logic: [wp] keeps an
      invariant that ties the memory to what each thread owns, at every step.
    - Event.v: event-listener's interface, and the invariant of a user of it under which
      no wake-up is lost.
    - Mutex.v, MutexSpec.v, RwLock.v, RwLockSpec.v, RwLockUse.v, Semaphore.v: the locks of
      lib/ksync, with futures polled and dropped at any point: exclusion, and that a task
      that could go on has been notified.
    - Channel.v, ChannelSpec.v, ChannelUse.v: channels of many senders and receivers; all
      uses together are those of one queue.
    - Oneshot.v, Broadcast.v: one-shot channels, which deliver once, and broadcasts over
      channels.
    - Phys.v, PhysInv.v, PhysCommit.v, PhysClone.v, PhysWrite.v, PhysDrop.v, PhysUse.v:
      lib/kmem, the memory objects.  Objects are a heap of linked page lists; [sees] is
      what an object shows of a page, the reference for all operations.  The invariant is
      for links that show the whole parent, which is what forks make; other links and
      flushing are run.
    - Lru.v, LruUse.v, LruRef.v, LruEquiv.v: the cache of lib/kmem as a heap of linked
      nodes, and its equivalence with a capacity and a list.
    - Virt.v, VirtSpec.v, VirtOps.v, VirtUnmap.v, VirtMap.v, VirtFork.v, VirtUse.v: address
      spaces, over the range map, the page tables and the memory objects.  [good] ties
      the page table to the map: every page a user address has is a frame with the rights
      of the mapping there.  It is kept by all calls but those [regular] leaves out, which
      the examples of VirtUse.v show to break it; forks and unmaps are specified in full
      for spaces of anonymous memory.
    - Tlb.v: the loading of address spaces into harts and the shootdown of their TLBs, by
      single accesses.
    - Mem.v, MemSpec.v: the kernel's page tables and the system calls on the memory of a
      task (kernel/src/mem.rs, mem/syscall.rs, mem/shm.rs).
    - Arena.v: the arena of page frames, which is shown to be an allocator as the page
      tables ask for ([PageAllocSpec]).
    - Fd.v, Pipe.v, Futex.v, User.v: the kernel's file descriptors, pipes, futexes and
      pointers of programs, over loads, stores and commits of an address space that are
      parameters.
    - WorkQueue.v, WorkQueueSpec.v: lib/art, the work-stealing queues and the scheduler,
      by their atomic accesses: every task is handed out once, as long as no thief takes
      a head that has gone round for the one it has loaded ([fresh_run]).

    ** Fuel

    Loops over tables, chains and directories have as much fuel as there are entries,
    which the theorems name; chains of memory objects as much as there were operations;
    transfer loops one unit per byte, as each round moves at
    least one; the randomised search two rounds.  The loops of the locks and channels
    retry for as long as others interfere: their bound is a parameter, a thread that
    has used it up stays where it is, and the theorems hold for every bound.

    ** What is shown not to hold

    Where the code does not do what it means to, a theorem or an evaluated example
    says what it does: a mount is not possible after a flush ([flush_breaks_mount]),
    a race between a push and a pop loses a signal ([push_pop_race]), a read behind
    the end of a file returns other data ([read_past_end]), writes behind a gap land in
    the wrong cluster, truncation leaks clusters, directory operations on longer paths
    change the wrong directory, entries are flushed to the wrong place (the examples of
    FatFileOpen.v and FatDirOpen.v), a name that ends in U+FFFF is cut and records behind
    the end of a directory come back ([name_cut], [records_back]), wake-ups are lost by a downgrade of a writer,
    by a semaphore ([downgrade_to_upgradable_lost_wakeup], [semaphore_lost_wakeup]),
    and by the loss of a one-shot sender ([oneshot_lost_wakeup]), [acquire_arc] spins
    ([acquire_sleeps_arc_spins]), and a broadcast forgets subscriptions
    ([subscription_lost]).  Memory objects lose a page when memory is used up, show the
    wrong pages after a merge, read behind their end, and are not flushed or cut as
    they should be (the examples of PhysUse.v).  Unmapping and reprotecting a range
    inside a mapping touches other pages, and mapping nothing puts an empty range into the
    map (VirtUse.v), a hart can keep a page that was
    unmapped ([decommit_race]), the break cannot grow again after it has shrunk and
    fixed mappings lose their neighbours (MemSpec.v), two owners can be given one frame
    ([twice_given]), a descriptor can be given out twice ([dup_ahead]), a reader of a
    pipe sees an early end ([early_eof]), the first wait on a futex does not wait and
    requeued and forked waiters are lost (Futex.v), a hidden file is opened under
    another name ([dot_file]), a fault at the null pointer is not noticed
    ([null_string]), a full work queue whose head goes round forgets half of its tasks
    ([batch_lost]), and a thief that was held up for that long hands a task out again
    ([stale_steal]).

    ** Not modelled

    The device drivers, the network stack, boot, traps and context switches access
    hardware or are assembly; macros and trait conversions have no state; epoch and
    RCU reclamation are raw pointers.  Cancellation of a future in the middle of an
    operation is modelled for the locks and channels; elsewhere an operation runs to
    its end.  Of the kernel proper the caches and special file systems and the life of
    a task are not modelled. *)

From stdpp Require Export base list numbers option gmap.
From Stdlib Require Export ZArith Lia Bool.
From Stdlib Require Import Sorting.Sorted.

#[global] Open Scope Z_scope.

(** ** Outcomes

    A Rust function returns [Ok], returns [Err], or panics (an [assert!], an
    [unwrap], an index out of bounds, [unreachable!]). *)
Inductive res (E A : Type) : Type :=
| Ok (a : A)
| Err (e : E)
| Panic.
Arguments Ok {E A} a.
Arguments Err {E A} e.
Arguments Panic {E A}.

#[export] Instance res_ret E : MRet (res E) := fun A a => Ok a.
#[export] Instance res_bind E : MBind (res E) := fun A B f r =>
  match r with Ok a => f a | Err e => Err e | Panic => Panic end.
#[export] Instance res_fmap E : FMap (res E) := fun A B f r =>
  match r with Ok a => Ok (f a) | Err e => Err e | Panic => Panic end.

(** [Option::ok_or] and [Option::unwrap]. *)
Definition ok_or {E A} (o : option A) (e : E) : res E A :=
  match o with Some a => Ok a | None => Err e end.

Definition unwrap {E A} (o : option A) : res E A :=
  match o with Some a => Ok a | None => Panic end.

(** [Result::map_err]. *)
Definition map_err {E F A} (f : E -> F) (r : res E A) : res F A :=
  match r with Ok a => Ok a | Err e => Err (f e) | Panic => Panic end.

Definition is_ok {E A} (r : res E A) : bool :=
  match r with Ok _ => true | _ => false end.

(** ** Machine integers

    Unsigned integers of width [w] are elements of [Z] between [0] and
    [2 ^ w]; the kernel is built in release mode, where [+], [-], [*] and [<<]
    wrap around. *)
Declare Scope mach_scope.
Delimit Scope mach_scope with M.

Definition wrap (w x : Z) : Z := x mod 2 ^ w.
Definition fits (w x : Z) : Prop := 0 <= x < 2 ^ w.

Definition wadd (w x y : Z) : Z := wrap w (x + y).
Definition wsub (w x y : Z) : Z := wrap w (x - y).
Definition wmul (w x y : Z) : Z := wrap w (x * y).
Definition wshl (w x n : Z) : Z := wrap w (Z.shiftl x n).
Definition wnot (w x : Z) : Z := 2 ^ w - 1 - x.

Definition checked_add (w x y : Z) : option Z :=
  if x + y <? 2 ^ w then Some (x + y) else None.
Definition checked_sub (x y : Z) : option Z :=
  if y <=? x then Some (x - y) else None.
Definition saturating_sub (x y : Z) : Z := Z.max 0 (x - y).

(** Reading a [w]-bit word as a two's complement signed integer. *)
Definition to_signed (w x : Z) : Z :=
  if x <? 2 ^ (w - 1) then x else x - 2 ^ w.

Infix "+64" := (wadd 64) (at level 50, left associativity) : mach_scope.
Infix "-64" := (wsub 64) (at level 50, left associativity) : mach_scope.
Infix "*64" := (wmul 64) (at level 40, left associativity) : mach_scope.

(** [u32::trailing_zeros] and its siblings, on a word known to be non-zero. *)
Fixpoint ctz_pos (p : positive) : Z :=
  match p with xO p => 1 + ctz_pos p | _ => 0 end.
Definition trailing_zeros (w x : Z) : Z :=
  match x with Zpos p => ctz_pos p | _ => w end.

(** ** Shared facts *)
Create HintDb umi.

Lemma pow2_pos (k : Z) : 0 <= k -> 0 < 2 ^ k.
Proof. intros. apply Z.pow_pos_nonneg; lia. Qed.
#[export] Hint Resolve pow2_pos : umi.

Lemma wrap_small (w x : Z) : fits w x -> wrap w x = x.
Proof. intros. by apply Z.mod_small. Qed.

Lemma wrap_fits (w x : Z) : 0 <= w -> fits w (wrap w x).
Proof. intros. apply Z.mod_pos_bound; auto with umi. Qed.
#[export] Hint Resolve wrap_fits : umi.

Lemma wadd_small (w x y : Z) : fits w (x + y) -> wadd w x y = x + y.
Proof. apply wrap_small. Qed.

Lemma wsub_small (w x y : Z) : fits w (x - y) -> wsub w x y = x - y.
Proof. apply wrap_small. Qed.

Lemma wmul_small (w x y : Z) : fits w (x * y) -> wmul w x y = x * y.
Proof. apply wrap_small. Qed.

Lemma wshl_small (w x n : Z) : 0 <= n -> fits w (x * 2 ^ n) -> wshl w x n = x * 2 ^ n.
Proof. intros Hn H. unfold wshl. rewrite Z.shiftl_mul_pow2 by done. by apply wrap_small. Qed.

(** [x & (2^k - 1)] is a remainder, [x & !(2^k - 1)] rounds down. *)
Lemma land_mask (x k : Z) : 0 <= k -> Z.land x (2 ^ k - 1) = x mod 2 ^ k.
Proof. intros. replace (2 ^ k - 1) with (Z.ones k) by (rewrite Z.ones_equiv; lia). by apply Z.land_ones. Qed.

Lemma fits_testbit_high (w x i : Z) : fits w x -> w <= i -> Z.testbit x i = false.
Proof.
  intros Hx Hi. destruct (Z.eq_dec x 0) as [->|]; [apply Z.bits_0|].
  unfold fits in Hx. apply Z.bits_above_log2; [lia|].
  apply Z.log2_lt_pow2; [lia|]. apply Z.lt_le_trans with (2 ^ w); [lia|].
  apply Z.pow_le_mono_r; lia.
Qed.

Lemma testbit_wnot (w x i : Z) :
  0 <= w -> fits w x -> Z.testbit (wnot w x) i = (0 <=? i) && (i <? w) && negb (Z.testbit x i).
Proof.
  intros Hw Hx. unfold wnot.
  replace (2 ^ w - 1 - x) with (Z.ldiff (Z.ones w) x).
  2:{ rewrite <- Z.sub_nocarry_ldiff.
      - rewrite Z.ones_equiv. lia.
      - apply Z.bits_inj'. intros j Hj. rewrite Z.ldiff_spec, Z.bits_0.
        destruct (Z.ltb_spec j w).
        + rewrite Z.ones_spec_low by lia. by destruct (Z.testbit x j).
        + rewrite (fits_testbit_high w x j) by (done || lia). by destruct (Z.testbit (Z.ones w) j). }
  rewrite Z.ldiff_spec, Z.testbit_ones by lia. done.
Qed.

Lemma land_not_mask (w x k : Z) :
  0 <= k <= w -> fits w x -> Z.land x (wnot w (2 ^ k - 1)) = x / 2 ^ k * 2 ^ k.
Proof.
  intros Hk Hx. rewrite <- Z.shiftr_div_pow2, <- Z.shiftl_mul_pow2 by lia.
  assert (fits w (2 ^ k - 1)).
  { unfold fits. pose proof (pow2_pos k). pose proof (Z.pow_le_mono_r 2 k w). lia. }
  apply Z.bits_inj'. intros i Hi.
  rewrite Z.land_spec, testbit_wnot, Z.shiftl_spec by (done || lia).
  replace (2 ^ k - 1) with (Z.ones k) by (rewrite Z.ones_equiv; lia).
  rewrite Z.testbit_ones by lia.
  destruct (Z.ltb_spec i k).
  - rewrite (Z.testbit_neg_r _ (i - k)) by lia.
    rewrite (proj2 (Z.leb_le 0 i)) by lia. simpl. by rewrite !andb_false_r.
  - rewrite Z.shiftr_spec by lia. replace (i - k + k) with i by lia.
    rewrite (proj2 (Z.leb_le 0 i)) by lia. simpl.
    destruct (Z.ltb_spec i w); [by rewrite andb_true_r|].
    by rewrite (fits_testbit_high w x i).
Qed.

Lemma testbit_pow2 (k i : Z) : 0 <= k -> Z.testbit (2 ^ k) i = (i =? k).
Proof.
  intros Hk. rewrite Z.pow2_bits_eqb by done. rewrite Z.eqb_sym. done.
Qed.

Lemma fits_bits (w x : Z) : 0 <= w -> 0 <= x -> (forall i, w <= i -> Z.testbit x i = false) -> fits w x.
Proof.
  intros Hw Hx Hb. unfold fits. split; [done|]. destruct (Z.eq_dec x 0) as [->|]; [by apply pow2_pos|].
  apply Z.log2_lt_pow2; [lia|]. apply Z.nle_gt. intros Hle. specialize (Hb _ Hle).
  rewrite Z.bit_log2 in Hb by lia. done.
Qed.

Lemma fits_land (w x y : Z) : 0 <= w -> fits w x -> fits w (Z.land x y).
Proof.
  intros Hw Hx. apply fits_bits; [done|apply Z.land_nonneg; left; apply Hx|].
  intros i Hi. rewrite Z.land_spec, (fits_testbit_high w x) by done. done.
Qed.

Lemma fits_lor (w x y : Z) : 0 <= w -> fits w x -> fits w y -> fits w (Z.lor x y).
Proof.
  intros Hw Hx Hy. apply fits_bits; [done|apply Z.lor_nonneg; split; [apply Hx|apply Hy]|].
  intros i Hi. by rewrite Z.lor_spec, !(fits_testbit_high w).
Qed.

Lemma fits_pow2 (w k : Z) : 0 <= k < w -> fits w (2 ^ k).
Proof. intros Hk. unfold fits. pose proof (pow2_pos k). pose proof (Z.pow_lt_mono_r 2 k w). lia. Qed.

Lemma ctz_pos_spec (p : positive) :
  Z.testbit (Zpos p) (ctz_pos p) = true /\ 0 <= ctz_pos p
  /\ forall j, 0 <= j < ctz_pos p -> Z.testbit (Zpos p) j = false.
Proof.
  induction p as [p IH|p IH|]; cbn [ctz_pos].
  - split_and!; [done|lia|lia].
  - destruct IH as (Hb & Hn & Hlow). change (Zpos (xO p)) with (2 * Zpos p). split_and!; [|lia|].
    + replace (1 + ctz_pos p) with (Z.succ (ctz_pos p)) by lia. by rewrite Z.testbit_even_succ.
    + intros j Hj. destruct (Z.eq_dec j 0) as [->|]; [apply Z.testbit_even_0|].
      replace j with (Z.succ (j - 1)) by lia. rewrite Z.testbit_even_succ by lia. apply Hlow. lia.
  - split_and!; [done|lia|lia].
Qed.

(** The lowest bit of a word is where [trailing_zeros] finds it. *)
Lemma trailing_zeros_lowest (w x k : Z) :
  0 < x -> 0 <= k -> Z.testbit x k = true -> (forall j, 0 <= j < k -> Z.testbit x j = false) ->
  trailing_zeros w x = k.
Proof.
  intros Hx Hk Hb Hlow. destruct x as [|p|p]; try lia. simpl. destruct (ctz_pos_spec p) as (Hp & Hn & Hplow).
  destruct (Z.lt_trichotomy (ctz_pos p) k) as [Hlt|[|Hgt]]; [|done|].
  - rewrite Hlow in Hp by lia. done.
  - rewrite Hplow in Hb by lia. done.
Qed.

Lemma ctz_pow2 (w k : Z) : 0 <= k -> trailing_zeros w (2 ^ k) = k.
Proof.
  intros Hk. rewrite <- (Z2Nat.id k Hk). generalize (Z.to_nat k) as n. clear.
  induction n as [|n IH]; [done|].
  rewrite Nat2Z.inj_succ, Z.pow_succ_r by lia.
  pose proof (pow2_pos (Z.of_nat n)).
  destruct (2 ^ Z.of_nat n) eqn:E; try lia. change (1 + ctz_pos p = Z.succ (Z.of_nat n)). simpl in IH. lia.
Qed.

(** Two's complement. *)
Lemma to_signed_mod (w x : Z) : 0 < w -> exists k, to_signed w x = x + k * 2 ^ w.
Proof. intros Hw. unfold to_signed. destruct (x <? _); [exists 0|exists (-1)]; lia. Qed.

Lemma wrap_add_mul (w x k : Z) : 0 <= w -> wrap w (x + k * 2 ^ w) = wrap w x.
Proof. intros Hw. unfold wrap. apply Z.mod_add. pose proof (pow2_pos w Hw). lia. Qed.

Lemma wrap_to_signed (w x : Z) : 0 < w -> wrap w (to_signed w x) = wrap w x.
Proof. intros Hw. destruct (to_signed_mod w x Hw) as [k ->]. apply wrap_add_mul. lia. Qed.

Lemma wrap_opp_to_signed (w x : Z) : 0 < w -> wrap w (- to_signed w x) = wrap w (- x).
Proof.
  intros Hw. destruct (to_signed_mod w x Hw) as [k ->].
  replace (- (x + k * 2 ^ w)) with (- x + (- k) * 2 ^ w) by lia. apply wrap_add_mul. lia.
Qed.

Lemma wrap_opp_wrap (w x : Z) : 0 <= w -> wrap w (- wrap w x) = wrap w (- x).
Proof.
  intros Hw. unfold wrap. pose proof (pow2_pos w Hw). pose proof (Z.div_mod x (2 ^ w)).
  replace (- (x mod 2 ^ w)) with (- x + x / 2 ^ w * 2 ^ w) by lia. apply Z.mod_add. lia.
Qed.

Lemma to_signed_range (w x : Z) : 0 < w -> fits w x -> - 2 ^ (w - 1) <= to_signed w x < 2 ^ (w - 1).
Proof.
  intros Hw Hx. unfold fits, to_signed in *. replace (2 ^ w) with (2 * 2 ^ (w - 1)) in *
    by (rewrite <- Z.pow_succ_r by lia; f_equal; lia). destruct (Z.ltb_spec x (2 ^ (w - 1))); lia.
Qed.

(** A signed value is recovered from its bits. *)
Lemma to_signed_wrap (w v : Z) : 0 < w -> - 2 ^ (w - 1) <= v < 2 ^ (w - 1) -> to_signed w (wrap w v) = v.
Proof.
  intros Hw Hv. unfold to_signed, wrap.
  assert (E : 2 ^ w = 2 * 2 ^ (w - 1)) by (rewrite <- Z.pow_succ_r by lia; f_equal; lia).
  destruct (Z.le_gt_cases 0 v).
  - rewrite Z.mod_small by lia. rewrite (proj2 (Z.ltb_lt _ _)) by lia. done.
  - replace (v mod 2 ^ w) with (v + 2 ^ w) by (apply (Z.mod_unique _ _ (-1)); lia).
    rewrite (proj2 (Z.ltb_ge _ _)) by lia. lia.
Qed.

(** A list is empty or has a last element. *)
Lemma last_spec {A} (l : list A) :
  match last l with Some x => exists l', l = l' ++ [x] | None => l = [] end.
Proof. destruct (last l) eqn:E; [by apply last_Some|by apply last_None]. Qed.

(** ** Lists *)
Fixpoint take_while {A} (f : A -> bool) (l : list A) : list A :=
  match l with [] => [] | x :: l => if f x then x :: take_while f l else [] end.

Lemma take_while_filter {A} (f : A -> bool) (xs : list A) :
  StronglySorted (fun a b => f b = true -> f a = true) xs -> take_while f xs = List.filter f xs.
Proof.
  induction 1 as [|a xs _ IH HF]; simpl; [done|]. destruct (f a) eqn:E; [by rewrite IH|].
  clear IH. induction HF as [|b xs Hb _ IH]; simpl; [done|].
  destruct (f b) eqn:E'; [|done]. by specialize (Hb eq_refl).
Qed.

Lemma StronglySorted_rev {A} (R : A -> A -> Prop) (xs : list A) :
  StronglySorted R xs -> StronglySorted (fun a b => R b a) (rev xs).
Proof.
  induction 1 as [|a xs _ IH HF]; simpl; [constructor|].
  assert (forall ys, StronglySorted (fun a b => R b a) ys -> Forall (fun y => R a y) ys ->
    StronglySorted (fun a b => R b a) (ys ++ [a])) as Hsnoc.
  { induction 1 as [|b ys _ IH' HF']; simpl; [by repeat constructor|].
    intros [? ?]%Forall_cons. constructor; [by apply IH'|]. apply Forall_app. split; [done|by constructor]. }
  apply Hsnoc; [done|]. by apply Forall_rev.
Qed.

Lemma StronglySorted_weaken {A} (R R' : A -> A -> Prop) (P : A -> Prop) (xs : list A) :
  (forall a b, P a -> P b -> R a b -> R' a b) -> Forall P xs -> StronglySorted R xs -> StronglySorted R' xs.
Proof.
  intros HR HP Hs. induction Hs as [|a xs _ IH HF]; [constructor|].
  apply Forall_cons in HP as [Ha HP]. constructor; [by apply IH|].
  rewrite Forall_forall in *. intros b Hb. apply HR; auto.
Qed.

Lemma filter_filter {A} (f g : A -> bool) (xs : list A) :
  List.filter f (List.filter g xs) = List.filter (fun x => g x && f x) xs.
Proof.
  induction xs as [|x xs IH]; simpl; [done|].
  destruct (g x); simpl; [|done]. by destruct (f x); rewrite IH.
Qed.

Lemma filter_rev {A} (f : A -> bool) (xs : list A) : List.filter f (rev xs) = rev (List.filter f xs).
Proof.
  induction xs as [|x xs IH]; simpl; [done|]. rewrite List.filter_app, IH. simpl.
  destruct (f x); simpl; [done|]. by rewrite app_nil_r.
Qed.

Lemma filter_all {A} (f : A -> bool) (xs : list A) :
  Forall (fun x => f x = true) xs -> List.filter f xs = xs.
Proof. induction 1 as [|x xs E _ IH]; simpl; [done|]. by rewrite E, IH. Qed.

Lemma filter_none {A} (f : A -> bool) (xs : list A) :
  Forall (fun x => f x = false) xs -> List.filter f xs = [].
Proof. induction 1 as [|x xs E _ IH]; simpl; [done|]. by rewrite E, IH. Qed.

(** [l[i]] for a machine-word index: nothing when it is out of bounds. *)
Definition lookup_z {A} (l : list A) (i : Z) : option A :=
  if (0 <=? i) && (i <? Z.of_nat (length l)) then l !! Z.to_nat i else None.

Lemma lookup_z_nat {A} (l : list A) (i : nat) : lookup_z l (Z.of_nat i) = l !! i.
Proof.
  unfold lookup_z. rewrite (proj2 (Z.leb_le 0 _)) by lia. simpl. rewrite Nat2Z.id.
  destruct (Z.ltb_spec (Z.of_nat i) (Z.of_nat (length l))); [done|].
  symmetry. apply lookup_ge_None_2. lia.
Qed.

Lemma lookup_z_Some {A} (l : list A) (i : Z) (x : A) :
  lookup_z l i = Some x -> 0 <= i < Z.of_nat (length l) /\ l !! Z.to_nat i = Some x.
Proof.
  unfold lookup_z. destruct (Z.leb_spec 0 i), (Z.ltb_spec i (Z.of_nat (length l))); simpl; (done || lia).
Qed.

Lemma lookup_z_in {A} (l : list A) (i : Z) :
  0 <= i < Z.of_nat (length l) -> exists x, lookup_z l i = Some x.
Proof.
  intros Hi. unfold lookup_z. rewrite (proj2 (Z.leb_le _ _)), (proj2 (Z.ltb_lt _ _)) by lia. simpl.
  apply lookup_lt_is_Some. lia.
Qed.

Lemma lookup_z_insert {A} (l : list A) (i j : Z) (x : A) :
  0 <= i < Z.of_nat (length l) ->
  lookup_z (<[Z.to_nat i := x]> l) j = if j =? i then Some x else lookup_z l j.
Proof.
  intros Hi. unfold lookup_z. rewrite length_insert.
  destruct (Z.eqb_spec j i) as [->|Hne].
  - rewrite (proj2 (Z.leb_le _ _)), (proj2 (Z.ltb_lt _ _)) by lia. simpl. apply list_lookup_insert_eq. lia.
  - destruct (Z.leb_spec 0 j), (Z.ltb_spec j (Z.of_nat (length l))); simpl; try done.
    apply list_lookup_insert_ne. lia.
Qed.

(** ** Stateful operations

    A method that takes [&mut self] or works on shared memory, and may fail:
    the state after the call is kept on the error path too. *)
Definition ST (S E A : Type) : Type := S -> res E A * S.

#[export] Instance ST_ret S E : MRet (ST S E) := fun A a s => (Ok a, s).
#[export] Instance ST_bind S E : MBind (ST S E) := fun A B f c s =>
  match c s with
  | (Ok a, s') => f a s'
  | (Err e, s') => (Err e, s')
  | (Panic, s') => (Panic, s')
  end.

Definition get_st {S E} : ST S E S := fun s => (Ok s, s).
Definition put_st {S E} (s : S) : ST S E unit := fun _ => (Ok tt, s).
Definition throw {S E A} (e : E) : ST S E A := fun s => (Err e, s).
Definition panic {S E A} : ST S E A := fun s => (Panic, s).
Definition lift_res {S E A} (r : res E A) : ST S E A := fun s => (r, s).
Definition lift_opt {S E A} (o : option A) : ST S E A := lift_res (unwrap o).

(** Running the first step of a sequence. *)
Lemma ST_bind_Ok {S E A B} (c : ST S E A) (f : A -> ST S E B) s a s' :
  c s = (Ok a, s') -> (c ≫= f) s = f a s'.
Proof. intros Hc. unfold mbind, ST_bind. by rewrite Hc. Qed.
Lemma ST_bind_Err {S E A B} (c : ST S E A) (f : A -> ST S E B) s e s' :
  c s = (Err e, s') -> (c ≫= f) s = (Err e, s').
Proof. intros Hc. unfold mbind, ST_bind. by rewrite Hc. Qed.
Lemma ST_bind_inv {S E A B} (c : ST S E A) (f : A -> ST S E B) s b s' :
  (c ≫= f) s = (Ok b, s') -> exists a s1, c s = (Ok a, s1) /\ f a s1 = (Ok b, s').
Proof.
  unfold mbind, ST_bind. destruct (c s) as [[a|e|] s1]; intros Hf; [eauto|discriminate..].
Qed.

(** [st_step H] runs the first step of the goal's sequence with its outcome [H]. *)
Tactic Notation "st_step" uconstr(H) :=
  first [ erewrite ST_bind_Ok by (eapply H; eauto) | erewrite ST_bind_Err by (eapply H; eauto) ].

(** ** Stateful operations that may not end

    [None] is an operation that has not ended within its fuel. *)
Definition PT (S E A : Type) : Type := S -> option (res E A * S).

#[export] Instance PT_ret S E : MRet (PT S E) := fun A a s => Some (Ok a, s).
#[export] Instance PT_bind S E : MBind (PT S E) := fun A B f c s =>
  match c s with
  | Some (Ok a, s') => f a s'
  | Some (Err e, s') => Some (Err e, s')
  | Some (Panic, s') => Some (Panic, s')
  | None => None
  end.

Definition pt_none {S E A} : PT S E A := fun _ => None.
Definition pt_res {S E A} (r : res E A) : PT S E A := fun s => Some (r, s).
Definition pt_throw {S E A} (e : E) : PT S E A := pt_res (Err e).
Definition pt_opt {S E A} (o : option A) : PT S E A := pt_res (unwrap o).
(** An operation that returns [None] when its fuel is spent. *)
Definition pt_run {S E A} (m : ST S E (option A)) : PT S E A := fun s =>
  match m s with
  | (Ok (Some a), s) => Some (Ok a, s)
  | (Ok None, _) => None
  | (Err e, s) => Some (Err e, s)
  | (Panic, s) => Some (Panic, s)
  end.
Definition pt_st {S E A} (m : ST S E A) : PT S E A := fun s => Some (m s).

Lemma PT_bind_Ok {S E A B} (c : PT S E A) (f : A -> PT S E B) s a s' :
  c s = Some (Ok a, s') -> (c ≫= f) s = f a s'.
Proof. intros Hc. unfold mbind, PT_bind. by rewrite Hc. Qed.
Lemma PT_bind_Err {S E A B} (c : PT S E A) (f : A -> PT S E B) s e s' :
  c s = Some (Err e, s') -> (c ≫= f) s = Some (Err e, s').
Proof. intros Hc. unfold mbind, PT_bind. by rewrite Hc. Qed.

(** ** Packing fields into words *)
Lemma lor_low (a b n : Z) : 0 <= n -> a mod 2 ^ n = 0 -> 0 <= b < 2 ^ n -> Z.lor a b = a + b.
Proof.
  intros Hn Ha Hb. symmetry. apply Z.add_nocarry_lor. apply Z.bits_inj'. intros i Hi.
  rewrite Z.land_spec, Z.bits_0. destruct (Z.ltb_spec i n).
  - rewrite <- (Z.mod_pow2_bits_low a n) by lia. by rewrite Ha, Z.bits_0.
  - rewrite (fits_testbit_high n b) by done. apply andb_false_r.
Qed.

Lemma mod_0_div_mul (a m : Z) : m <> 0 -> a mod m = 0 -> a / m * m = a.
Proof. intros Hm Ha. pose proof (Z.div_mod a m Hm). lia. Qed.
