(* ===== verification/BTree.v ===== *)
(** * Ordered maps

    The standard library's [BTreeMap], as the strictly sorted association list
    that its iterators enumerate.  [RangeMap] (range-map) and [TimerQueue]
    (ktime) are built on it. *)

From S2P Require Import Prelude.
From Stdlib Require Import Sorting.Sorted.

(** Rust's [Ord], as a decidable strict total order. *)
Class KeyOrd (K : Type) := {
  kltb : K -> K -> bool;
  kltb_irrefl : forall k, kltb k k = false;
  kltb_trans : forall a b c, kltb a b = true -> kltb b c = true -> kltb a c = true;
  kltb_total : forall a b, kltb a b = false -> kltb b a = false -> a = b;
}.

#[export] Program Instance Z_ord : KeyOrd Z := {| kltb := Z.ltb |}.
Next Obligation. intros. apply Z.ltb_irrefl. Qed.
Next Obligation. simpl. intros. lia. Qed.
Next Obligation. simpl. intros. lia. Qed.

(** The derived [Ord] of a pair is lexicographic. *)
#[export] Program Instance pair_ord {A B} `{KeyOrd A, KeyOrd B} : KeyOrd (A * B) :=
  {| kltb p q := kltb p.1 q.1 || (negb (kltb q.1 p.1) && kltb p.2 q.2) |}.
Next Obligation. intros. simpl. by rewrite !kltb_irrefl. Qed.
Next Obligation.
  intros A B HA HB [a1 a2] [b1 b2] [c1 c2]; simpl; intros E1 E2.
  apply orb_true_iff in E1, E2. rewrite !andb_true_iff, !negb_true_iff in *.
  destruct E1 as [E1|[E1 F1]], E2 as [E2|[E2 F2]].
  - by rewrite (kltb_trans _ _ _ E1 E2).
  - destruct (kltb b1 c1) eqn:E; [by rewrite (kltb_trans _ _ _ E1 E)|].
    by rewrite <- (kltb_total _ _ E E2), E1.
  - destruct (kltb a1 b1) eqn:E; [by rewrite (kltb_trans _ _ _ E E2)|].
    by rewrite (kltb_total _ _ E E1), E2.
  - destruct (kltb a1 b1) eqn:Ea, (kltb b1 c1) eqn:Eb.
    + by rewrite (kltb_trans _ _ _ Ea Eb).
    + by rewrite <- (kltb_total _ _ Eb E2), Ea.
    + by rewrite (kltb_total _ _ Ea E1), Eb.
    + pose proof (kltb_total _ _ Ea E1); pose proof (kltb_total _ _ Eb E2); subst.
      rewrite kltb_irrefl, (kltb_trans _ _ _ F1 F2). done.
Qed.
Next Obligation.
  intros A B HA HB [a1 a2] [b1 b2]; simpl; intros E1 E2.
  apply orb_false_iff in E1 as [E1 F1], E2 as [E2 F2].
  rewrite E1, E2 in *. simpl in *. f_equal; by apply kltb_total.
Qed.

Section BTreeMap.
Context {K V : Type} `{KeyOrd K}.
Implicit Types (m : list (K * V)) (k : K) (v : V).

Definition keqb (a b : K) : bool := negb (kltb a b) && negb (kltb b a).

Fixpoint bt_get (m : list (K * V)) (k : K) : option V :=
  match m with
  | [] => None
  | (k', v) :: m => if keqb k k' then Some v else bt_get m k
  end.

(** [BTreeMap::insert]: the map after the call; the value it returns is
    [bt_get m k]. *)
Fixpoint bt_insert (m : list (K * V)) (k : K) (v : V) : list (K * V) :=
  match m with
  | [] => [(k, v)]
  | (k', v') :: m' =>
      if kltb k k' then (k, v) :: m
      else if kltb k' k then (k', v') :: bt_insert m' k v
      else (k', v) :: m'
  end.

(** [BTreeMap::remove]: the map after the call. *)
Fixpoint bt_remove (m : list (K * V)) (k : K) : list (K * V) :=
  match m with
  | [] => []
  | (k', v') :: m' => if keqb k k' then m' else (k', v') :: bt_remove m' k
  end.

(** [range(..k)] and [range(k..)]. *)
Definition bt_below m k : list (K * V) := List.filter (fun p => kltb p.1 k) m.
Definition bt_from m k : list (K * V) := List.filter (fun p => negb (kltb p.1 k)) m.

(** [split_off(k)] leaves the keys below [k] and returns the others. *)
Definition bt_split_off m k : list (K * V) * list (K * V) := (bt_below m k, bt_from m k).

(** [append] moves every entry of the second map into the first. *)
Definition bt_append (m1 m2 : list (K * V)) : list (K * V) :=
  fold_left (fun m p => bt_insert m p.1 p.2) m2 m1.

(** [range(..).last()] and [last_entry]. *)
Definition bt_last m : option (K * V) := last m.

Definition key_lt (p q : K * V) : Prop := kltb p.1 q.1 = true.
Definition bt_wf m : Prop := StronglySorted key_lt m.

Lemma keqb_eq a b : keqb a b = true <-> a = b.
Proof.
  unfold keqb. rewrite andb_true_iff, !negb_true_iff. split.
  - intros [? ?]. by apply kltb_total.
  - intros ->. by rewrite kltb_irrefl.
Qed.

Lemma keqb_refl a : keqb a a = true.
Proof. by apply keqb_eq. Qed.

Lemma keqb_neq a b : keqb a b = false <-> a <> b.
Proof. rewrite <- keqb_eq. by destruct (keqb a b). Qed.

Lemma kltb_keqb a b : kltb a b = true -> keqb a b = false.
Proof. intros E. unfold keqb. by rewrite E. Qed.

Lemma kltb_asym a b : kltb a b = true -> kltb b a = false.
Proof.
  intros E. destruct (kltb b a) eqn:F; [|done].
  by rewrite <- (kltb_irrefl a), (kltb_trans _ _ _ E F).
Qed.

Lemma bt_wf_inv p m : bt_wf (p :: m) -> bt_wf m /\ Forall (key_lt p) m.
Proof. by inversion 1. Qed.

Lemma bt_get_None_lt m k : Forall (fun p => kltb k p.1 = true) m -> bt_get m k = None.
Proof.
  induction 1 as [|[k' v'] m E _ IH]; simpl in *; [done|]. by rewrite kltb_keqb.
Qed.

Lemma bt_get_In m k v : bt_wf m -> bt_get m k = Some v <-> In (k, v) m.
Proof.
  induction m as [|[k' v'] m IH]; simpl; [naive_solver|].
  intros [Hwf HF]%bt_wf_inv. specialize (IH Hwf).
  destruct (keqb k k') eqn:E.
  - apply keqb_eq in E as ->. split; [intros [= ->]; auto|].
    intros [[= <-]|Hin]; [done|]. rewrite Forall_forall in HF.
    apply list_elem_of_In, HF in Hin. unfold key_lt in Hin; simpl in Hin.
    by rewrite kltb_irrefl in Hin.
  - apply keqb_neq in E. rewrite IH. naive_solver.
Qed.

Lemma Forall_bt_insert (P : K * V -> Prop) m k v :
  P (k, v) -> Forall P m -> Forall P (bt_insert m k v).
Proof.
  intros Hk HF. induction HF as [|[k' v'] m Hp HF IH]; simpl; [by repeat constructor|].
  destruct (kltb k k') eqn:E1; [repeat constructor; done|].
  destruct (kltb k' k) eqn:E2; [by constructor|].
  rewrite <- (kltb_total _ _ E1 E2). by constructor.
Qed.

Lemma bt_insert_wf m k v : bt_wf m -> bt_wf (bt_insert m k v).
Proof.
  induction m as [|[k' v'] m IH]; simpl; [repeat constructor|].
  intros Hwf. destruct (bt_wf_inv _ _ Hwf) as [Hm HF].
  destruct (kltb k k') eqn:E1.
  - constructor; [done|]. constructor; [done|].
    eapply Forall_impl; [exact HF|]. intros p Hp. by apply (kltb_trans _ k').
  - destruct (kltb k' k) eqn:E2.
    + constructor; [by apply IH|]. by apply Forall_bt_insert.
    + by constructor.
Qed.

Lemma bt_get_insert m k v k' :
  bt_wf m -> bt_get (bt_insert m k v) k' = if keqb k' k then Some v else bt_get m k'.
Proof.
  induction m as [|[k0 v0] m IH]; simpl; [done|].
  intros [Hm HF]%bt_wf_inv.
  destruct (kltb k k0) eqn:E1; simpl; [by destruct (keqb k' k)|].
  destruct (kltb k0 k) eqn:E2; simpl.
  - rewrite IH by done. destruct (keqb k' k0) eqn:E; [|done].
    apply keqb_eq in E as ->. by rewrite kltb_keqb.
  - rewrite (kltb_total _ _ E1 E2). by destruct (keqb k' k0).
Qed.

Lemma bt_remove_sub m k p : In p (bt_remove m k) -> In p m.
Proof.
  induction m as [|[k' v'] m IH]; simpl; [done|].
  destruct (keqb k k'); simpl; naive_solver.
Qed.

Lemma bt_remove_wf m k : bt_wf m -> bt_wf (bt_remove m k).
Proof.
  induction m as [|[k' v'] m IH]; simpl; [done|].
  intros [Hm HF]%bt_wf_inv. destruct (keqb k k'); [done|].
  constructor; [by apply IH|]. rewrite Forall_forall in *. intros p Hp.
  apply HF, list_elem_of_In, (bt_remove_sub _ k), list_elem_of_In, Hp.
Qed.

Lemma bt_get_remove m k k' :
  bt_wf m -> bt_get (bt_remove m k) k' = if keqb k' k then None else bt_get m k'.
Proof.
  induction m as [|[k0 v0] m IH]; simpl; [by destruct (keqb k' k)|].
  intros [Hm HF]%bt_wf_inv. destruct (keqb k k0) eqn:E; simpl.
  - apply keqb_eq in E as ->. destruct (keqb k' k0) eqn:E; [|done].
    apply keqb_eq in E as ->. by apply bt_get_None_lt.
  - rewrite IH by done. destruct (keqb k' k0) eqn:E'; [|done].
    apply keqb_eq in E' as ->. destruct (keqb k0 k) eqn:E''; [|done].
    apply keqb_eq in E'' as ->. by rewrite keqb_refl in E.
Qed.

Lemma bt_filter_wf (f : K * V -> bool) m : bt_wf m -> bt_wf (List.filter f m).
Proof.
  induction m as [|p m IH]; simpl; [done|]. intros [Hm HF]%bt_wf_inv.
  destruct (f p); [|by apply IH]. constructor; [by apply IH|].
  rewrite Forall_forall in *. intros q Hq. apply HF, list_elem_of_In.
  apply list_elem_of_In, filter_In in Hq. naive_solver.
Qed.

(** A key separates a sorted map into a prefix and a suffix. *)
Lemma bt_below_from m k : bt_wf m -> m = bt_below m k ++ bt_from m k.
Proof.
  unfold bt_below, bt_from. induction m as [|p m IH]; simpl; [done|].
  intros [Hm HF]%bt_wf_inv. destruct (kltb p.1 k) eqn:E; simpl.
  - f_equal. by apply IH.
  - assert (Hnil : List.filter (fun q => kltb q.1 k) m = []).
    { clear IH Hm. induction HF as [|q m Hq _ IH]; simpl; [done|].
      destruct (kltb q.1 k) eqn:E'; [|done].
      by rewrite (kltb_trans _ _ _ Hq E') in E. }
    rewrite Hnil in *. simpl. f_equal. by apply IH.
Qed.

Lemma bt_insert_snoc m k v : Forall (fun p => kltb p.1 k = true) m -> bt_insert m k v = m ++ [(k, v)].
Proof.
  induction 1 as [|[k' v'] m E _ IH]; simpl in *; [done|].
  by rewrite (kltb_asym _ _ E), E, IH.
Qed.

(** Appending a map whose keys are all greater is concatenation. *)
Lemma bt_append_app m1 m2 : bt_wf (m1 ++ m2) -> bt_append m1 m2 = m1 ++ m2.
Proof.
  unfold bt_append. revert m1. induction m2 as [|[k v] m2 IH]; intros m1 Hwf; simpl.
  - by rewrite app_nil_r.
  - rewrite bt_insert_snoc.
    + rewrite IH, <- app_assoc; [done|]. by rewrite <- app_assoc.
    + clear IH. induction m1 as [|p m1 IH]; [constructor|].
      apply bt_wf_inv in Hwf as [Hwf HF]. constructor; [|by apply IH].
      rewrite Forall_app, Forall_cons in HF. apply HF.
Qed.

Lemma bt_append_wf m1 m2 : bt_wf m1 -> bt_wf (bt_append m1 m2).
Proof.
  unfold bt_append. revert m1. induction m2 as [|p m2 IH]; intros m1 Hwf; simpl; [done|].
  by apply IH, bt_insert_wf.
Qed.

Lemma bt_insert_split m k v :
  bt_wf m -> bt_get m k = None -> bt_insert m k v = bt_below m k ++ (k, v) :: bt_from m k.
Proof.
  unfold bt_below, bt_from. induction m as [|[k' v'] m IH]; simpl; [done|].
  intros [Hm HF]%bt_wf_inv Hget. destruct (kltb k k') eqn:E1.
  - rewrite (kltb_asym _ _ E1). simpl.
    assert (HF' : Forall (fun p => kltb p.1 k = false) m).
    { eapply Forall_impl; [exact HF|]. intros p Hp. apply kltb_asym. by apply (kltb_trans _ k'). }
    clear -HF'. assert (List.filter (fun p : K * V => kltb p.1 k) m = []
      /\ List.filter (fun p : K * V => negb (kltb p.1 k)) m = m) as [-> ->]; [|done].
    induction HF' as [|p m Hp _ [IH1 IH2]]; simpl; [done|]. by rewrite Hp, IH1; simpl; rewrite IH2.
  - destruct (kltb k' k) eqn:E2; simpl.
    + rewrite IH; [done..|]. destruct (keqb k k'); [done|]. done.
    + rewrite (kltb_total _ _ E1 E2), keqb_refl in Hget. done.
Qed.

Lemma bt_remove_snoc m k v : bt_wf (m ++ [(k, v)]) -> bt_remove (m ++ [(k, v)]) k = m.
Proof.
  induction m as [|[k' v'] m IH]; simpl; [by rewrite keqb_refl|].
  intros [Hm HF]%bt_wf_inv. rewrite Forall_app, Forall_singleton in HF.
  destruct HF as [_ Hlt]. unfold key_lt in Hlt; simpl in Hlt.
  rewrite (proj2 (keqb_neq k k')); [by rewrite IH|]. intros ->. by rewrite kltb_irrefl in Hlt.
Qed.

(** Two sorted maps with the same lookups are the same list. *)
Lemma bt_ext m1 m2 :
  bt_wf m1 -> bt_wf m2 -> (forall k, bt_get m1 k = bt_get m2 k) -> m1 = m2.
Proof.
  revert m2. induction m1 as [|[k1 v1] m1 IH]; intros m2 H1 H2 Hget.
  - destruct m2 as [|[k2 v2] m2]; [done|]. specialize (Hget k2). simpl in Hget.
    by rewrite keqb_refl in Hget.
  - destruct m2 as [|[k2 v2] m2].
    { specialize (Hget k1). simpl in Hget. by rewrite keqb_refl in Hget. }
    apply bt_wf_inv in H1 as [H1 F1], H2 as [H2 F2].
    assert (k1 = k2) as <-.
    { apply kltb_total.
      - destruct (kltb k1 k2) eqn:E; [|done]. specialize (Hget k1). simpl in Hget.
        rewrite keqb_refl, (kltb_keqb _ _ E), bt_get_None_lt in Hget; [done|].
        eapply Forall_impl; [exact F2|]. intros p. by apply kltb_trans.
      - destruct (kltb k2 k1) eqn:E; [|done]. specialize (Hget k2). simpl in Hget.
        rewrite keqb_refl, (kltb_keqb _ _ E), bt_get_None_lt in Hget; [done|].
        eapply Forall_impl; [exact F1|]. intros p. by apply kltb_trans. }
    pose proof (Hget k1) as Hk. simpl in Hk. rewrite !keqb_refl in Hk. injection Hk as <-.
    f_equal. apply IH; [done..|]. intros k. specialize (Hget k). simpl in Hget.
    destruct (keqb k k1) eqn:E; [|done]. apply keqb_eq in E as ->.
    by rewrite !bt_get_None_lt.
Qed.

End BTreeMap.

#[export] Hint Resolve bt_insert_wf bt_remove_wf bt_filter_wf bt_append_wf : umi.
