(* ===== verification/RangeMap.v ===== *)
(** * range-map: maps keyed by disjoint ranges

    [RangeMap] keeps a [BTreeMap] from the start of each range to its end and
    value.  The kernel instantiates it at [LAddr], whose order is that of the
    underlying [usize], so keys are integers here.  [AslrKey] is the predicate
    that picks a random aligned free range. *)

From S2P Require Import Prelude BTree.
From Stdlib Require Import Sorting.Sorted.

Module RM.

(** ** Data *)
Record Range := mk_range { rstart : Z; rend : Z }.

Record RangeMap (V : Type) := mk_rm {
  range : Range;
  map : list (Z * (Z * V));
}.
Arguments mk_rm {V} _ _.
Arguments range {V} _.
Arguments map {V} _.

(** An entry of the underlying [BTreeMap]. *)
Notation item V := (Z * (Z * V))%type (only parsing).

Inductive FindResult :=
| Found (r : Range)
| Next
| NotFound.

(** A vacant entry of the map, with the end of the range it will hold. *)
Record Entry := mk_entry { entry_key : Z; entry_end : Z }.

Record SplitEntry (V : Type) := mk_split {
  split_key : Z;
  split_range : Range;
  new_values : option V * option V;
}.
Arguments mk_split {V} _ _ _.
Arguments split_key {V} _.
Arguments split_range {V} _.
Arguments new_values {V} _.

Record Layout := mk_layout { layout_size : Z; layout_align : Z }.

Record AslrKey (R : Type) := mk_aslr {
  rng : R;
  retried : bool;
  entropy : Z;
  count : Z;
  layout : Layout;
}.
Arguments mk_aslr {R} _ _ _ _ _.
Arguments rng {R} _.
Arguments retried {R} _.
Arguments entropy {R} _.
Arguments count {R} _.
Arguments layout {R} _.

Section Operations.
Context {V : Type}.
Implicit Types (rm : RangeMap V) (key r : Range) (v : V).

(** The view of an entry that the iterators give out. *)
Definition entry_view (p : item V) : Range * V := (mk_range p.1 p.2.1, p.2.2).

Definition new r : RangeMap V := mk_rm r [].
Definition root_range rm : Range := range rm.
Definition len rm : nat := length (map rm).
Definition is_empty rm : bool := match map rm with [] => true | _ => false end.

(** The guards shared by [try_insert] and [try_entry]. *)
Definition key_vacant rm key : bool :=
  if rend key <=? rstart key then false
  else if negb ((rstart (range rm) <=? rstart key) && (rend key <=? rend (range rm))) then false
  else match bt_last (bt_below (map rm) (rend key)) with
       | Some (_, (prev_end, _)) => negb (rstart key <? prev_end)
       | None => true
       end.

Definition try_insert rm key v : res V (RangeMap V) :=
  if key_vacant rm key
  then Ok (mk_rm (range rm) (bt_insert (map rm) (rstart key) (rend key, v)))
  else Err v.

(** [BTreeMap::entry]: [Occupied] is the [unreachable!] arm. *)
Definition vacant_entry rm key : res unit Entry :=
  match bt_get (map rm) (rstart key) with
  | None => Ok (mk_entry (rstart key) (rend key))
  | Some _ => Panic
  end.

Definition try_entry rm key : res unit (option Entry) :=
  if key_vacant rm key then Some <$> vacant_entry rm key else Ok None.

Definition FindResult_map (f : Z -> Z) (fr : FindResult) : FindResult :=
  match fr with
  | Found r => Found (mk_range (f (rstart r)) (f (rend r)))
  | Next => Next
  | NotFound => NotFound
  end.

Definition Entry_key (e : Entry) : Range := mk_range (entry_key e) (entry_end e).
Definition Entry_insert rm (e : Entry) v : RangeMap V :=
  mk_rm (range rm) (bt_insert (map rm) (entry_key e) (entry_end e, v)).

(** ** Searching for a gap

    The predicate is an [FnMut]: it threads a state [S]. *)
Section Find.
Context {S : Type} (predicate : S -> option Range -> FindResult * S).

(** The [for] loop of [find_gap]: an early return, or the value of [start]
    after the last entry. *)
Fixpoint find_gap_loop (st : S) (start : Z) (m : list (item V)) : (FindResult * S) + (Z * S) :=
  match m with
  | [] => inr (start, st)
  | (base, (end_, _)) :: m =>
      if start <? base then
        match predicate st (Some (mk_range start base)) with
        | (Next, st) => find_gap_loop st end_ m
        | ret => inl ret
        end
      else find_gap_loop st end_ m
  end.

Definition find_gap rm (st : S) : FindResult * S :=
  match find_gap_loop st (rstart (range rm)) (map rm) with
  | inl ret => ret
  | inr (start, st) =>
      if start <? rend (range rm) then
        match predicate st (Some (mk_range start (rend (range rm)))) with
        | (Next, st) => predicate st None
        | ret => ret
        end
      else predicate st None
  end.

(** The [loop] of [find_free]; [None] is running out of fuel. *)
Fixpoint find_free (fuel : nat) rm (st : S) : option (option Range * S) :=
  match fuel with
  | O => None
  | Datatypes.S fuel =>
      match find_gap rm st with
      | (Found key, st) => Some (Some key, st)
      | (Next, st) => find_free fuel rm st
      | (NotFound, st) => Some (None, st)
      end
  end.

(** [allocate_with]: the vacant entry, or [None]. *)
Definition allocate_with (fuel : nat) rm (st : S) : option (res unit (option Entry)) :=
  match find_free fuel rm st with
  | None => None
  | Some (None, _) => Some (Ok None)
  | Some (Some key, _) => Some (Some <$> vacant_entry rm key)
  end.
End Find.

(** ** Lookup, iteration and removal *)
Definition get rm (start : Z) : option V := snd <$> bt_get (map rm) start.
Definition get_key_value rm (start : Z) : option (Range * V) :=
  (fun p => (mk_range start p.1, p.2)) <$> bt_get (map rm) start.

Definition remove rm (start : Z) : option V * RangeMap V :=
  (snd <$> bt_get (map rm) start, mk_rm (range rm) (bt_remove (map rm) start)).

Definition remove_entry rm (start : Z) : option (Range * V) * RangeMap V :=
  (get_key_value rm start, mk_rm (range rm) (bt_remove (map rm) start)).

Definition iter rm : list (Range * V) := List.map entry_view (map rm).
Definition into_iter rm : list (Range * V) := iter rm.

Definition range_iter rm r : list (Range * V) :=
  List.map entry_view (take_while (fun p : item V => p.2.1 <=? rend r) (bt_from (map rm) (rstart r))).

Definition intersection rm r : list (Range * V) :=
  List.map entry_view
    (take_while (fun p : item V => rstart r <? p.2.1) (rev (bt_below (map rm) (rend r)))).

Definition intersects rm r : bool :=
  match intersection rm r with [] => false | _ => true end.

(** A write through the [&mut V] that [get_mut], [iter_mut], [range_mut] and
    [intersection_mut] give out: the entry with this start keeps its range. *)
Definition write_value rm (start : Z) v : RangeMap V :=
  match bt_get (map rm) start with
  | Some (end_, _) => mk_rm (range rm) (bt_insert (map rm) start (end_, v))
  | None => rm
  end.

Definition drain rm r : list (Range * V) * RangeMap V :=
  let '(low, ret) := bt_split_off (map rm) (rstart r) in
  let '(ret, suffix) := bt_split_off ret (rend r) in
  let '(low, ret) :=
    match bt_last ret with
    | Some (k, (end_, v)) =>
        if rend r <? end_ then (bt_insert low k (end_, v), bt_remove ret k) else (low, ret)
    | None => (low, ret)
    end in
  (List.map entry_view ret, mk_rm (range rm) (bt_append low suffix)).

Definition split_entry rm (key : Z) : option (V * SplitEntry V) * RangeMap V :=
  let '(low, suffix) := bt_split_off (map rm) key in
  match bt_last low with
  | Some (start, (end_, value)) =>
      if (start <? key) && (key <? end_) then
        (Some (value, mk_split key (mk_range start end_) (None, None)),
         mk_rm (range rm) (bt_append (bt_remove low start) suffix))
      else (None, mk_rm (range rm) (bt_append low suffix))
  | None => (None, mk_rm (range rm) (bt_append low suffix))
  end.

Definition old_key (e : SplitEntry V) : Range := split_range e.
Definition set_former (e : SplitEntry V) v : SplitEntry V :=
  mk_split (split_key e) (split_range e) (Some v, (new_values e).2).
Definition set_latter (e : SplitEntry V) v : SplitEntry V :=
  mk_split (split_key e) (split_range e) ((new_values e).1, Some v).

(** [Drop for SplitEntry]. *)
Definition split_drop rm (e : SplitEntry V) : RangeMap V :=
  let m := map rm in
  let m := match (new_values e).1 with
           | Some v0 => bt_insert m (rstart (split_range e)) (split_key e, v0)
           | None => m
           end in
  let m := match (new_values e).2 with
           | Some v1 => bt_insert m (split_key e) (rend (split_range e), v1)
           | None => m
           end in
  mk_rm (range rm) m.
End Operations.

(** ** AslrKey *)
Section Aslr.
Context {R : Type} (next_u64 : R -> Z * R).

Definition AslrKey_new (aslr_bit : Z) (g : R) (l : Layout) : AslrKey R :=
  let mask := wsub 64 (wshl 64 1 aslr_bit) 1 in
  let '(x, g) := next_u64 g in
  mk_aslr g false (Z.land x mask) 0 l.

Definition find_key_usize (a : AslrKey R) (key : option Range) : FindResult * AslrKey R :=
  match key with
  | None =>
      if retried a || (count a =? 0) then (NotFound, a)
      else let '(x, g) := next_u64 (rng a) in
           (Next, mk_aslr g true (x mod count a) 0 (layout a))
  | Some key =>
      let shift := trailing_zeros 64 (layout_align (layout a)) in
      let mask := wsub 64 (layout_align (layout a)) 1 in
      let base := Z.land (wadd 64 (rstart key) mask) (wnot 64 mask) in
      let end_ := Z.land (rend key) (wnot 64 mask) in
      let size := layout_size (layout a) in
      if size <=? saturating_sub end_ base then
        let nr_positions := wadd 64 (Z.shiftr (wsub 64 (wsub 64 end_ base) size) shift) 1 in
        let count' := wadd 64 (count a) nr_positions in
        if entropy a <? nr_positions then
          let base := wadd 64 base (wshl 64 (entropy a) shift) in
          (Found (mk_range base (wadd 64 base size)),
           mk_aslr (rng a) (retried a) (entropy a) count' (layout a))
        else
          (Next, mk_aslr (rng a) (retried a) (wsub 64 (entropy a) nr_positions) count' (layout a))
      else (Next, a)
  end.

(** [find_free_with_aslr] and [allocate_with_aslr] at the identity conversion
    ([LAddr::val]). *)
Definition find_free_with_aslr {V} (fuel : nat) (rm : RangeMap V) (a : AslrKey R)
  : option (option Range) :=
  fst <$> find_free find_key_usize fuel rm a.

Definition allocate_with_aslr {V} (fuel : nat) (rm : RangeMap V) (a : AslrKey R)
  : option (res unit (option Entry)) :=
  allocate_with find_key_usize fuel rm a.
End Aslr.

(** ** The invariant

    Entries are non-empty, lie in the root range, and each one ends before the
    next one starts. *)
Section Invariant.
Context {V : Type}.
Implicit Types (rm : RangeMap V) (l : list (item V)) (p q : item V) (r : Range).

Definition item_ok r p : Prop := rstart r <= p.1 /\ p.1 < p.2.1 /\ p.2.1 <= rend r.
Definition before p q : Prop := p.2.1 <= q.1.
Definition seg_wf r l : Prop := StronglySorted before l /\ Forall (item_ok r) l.
Definition wf rm : Prop := seg_wf (range rm) (map rm).

(** The abstract view: which value a single address is mapped to. *)
Definition covers (x : Z) p : bool := (p.1 <=? x) && (x <? p.2.1).
Definition at_ rm (x : Z) : option V := (fun p : item V => p.2.2) <$> List.find (covers x) (map rm).
Definition contained r p : bool := (rstart r <=? p.1) && (p.2.1 <=? rend r).
Definition overlaps r p : bool := (p.1 <? rend r) && (rstart r <? p.2.1).

Lemma seg_wf_nil r : seg_wf r [].
Proof. repeat constructor. Qed.

Lemma seg_wf_cons r p l : seg_wf r (p :: l) <-> item_ok r p /\ Forall (before p) l /\ seg_wf r l.
Proof.
  unfold seg_wf. rewrite Forall_cons. split.
  - intros [Hs [? ?]]. inversion Hs; subst. done.
  - intros (? & ? & ? & ?). split; [by constructor|done].
Qed.

Lemma seg_wf_app r l1 l2 :
  seg_wf r (l1 ++ l2) <->
  seg_wf r l1 /\ seg_wf r l2 /\ Forall (fun p => Forall (before p) l2) l1.
Proof.
  induction l1 as [|p l1 IH]; simpl.
  - split; [|naive_solver]. intros. split_and!; [apply seg_wf_nil|done|constructor].
  - rewrite !seg_wf_cons, Forall_app, Forall_cons, IH. naive_solver.
Qed.

Lemma seg_wf_item r l p : seg_wf r l -> In p l -> item_ok r p.
Proof. intros [_ HF] Hin. rewrite Forall_forall in HF. by apply HF, list_elem_of_In. Qed.

Lemma seg_wf_bt r l : seg_wf r l -> bt_wf l.
Proof.
  induction l as [|p l IH]; [constructor|]. intros (Hp & HF & Hl)%seg_wf_cons.
  constructor; [by apply IH|]. eapply Forall_impl; [exact HF|].
  unfold before, key_lt, item_ok in *. simpl. intros. lia.
Qed.

Lemma seg_wf_filter r l (f : item V -> bool) : seg_wf r l -> seg_wf r (List.filter f l).
Proof.
  induction l as [|p l IH]; simpl; [done|]. intros (Hp & HF & Hl)%seg_wf_cons.
  destruct (f p); [|by apply IH]. apply seg_wf_cons. split_and!; [done| |by apply IH].
  rewrite Forall_forall in *. intros q Hq. apply HF, list_elem_of_In.
  apply list_elem_of_In, filter_In in Hq. naive_solver.
Qed.

(** Two entries that share an address are the same entry. *)
Lemma seg_wf_disjoint r l p q x :
  seg_wf r l -> In p l -> In q l -> covers x p = true -> covers x q = true -> p = q.
Proof.
  unfold covers. induction l as [|a l IH]; [done|].
  intros (Ha & HF & Hl)%seg_wf_cons. rewrite Forall_forall in HF.
  intros [->|Hp] [->|Hq] Cp Cq; try done; [| |by apply IH].
  - apply list_elem_of_In, HF in Hq. unfold before in Hq. lia.
  - apply list_elem_of_In, HF in Hp. unfold before in Hp. lia.
Qed.

Lemma at_Some rm x v :
  wf rm -> at_ rm x = Some v <-> exists p, In p (map rm) /\ covers x p = true /\ p.2.2 = v.
Proof.
  intros Hwf. unfold at_. split.
  - destruct (List.find _ _) as [p|] eqn:E; simpl; [|done].
    intros [= <-]. apply find_some in E as [? ?]. eauto.
  - intros (p & Hp & Hc & <-). destruct (List.find _ _) as [q|] eqn:E; simpl.
    + apply find_some in E as [Hq Hc']. by rewrite (seg_wf_disjoint _ _ p q x Hwf).
    + by rewrite (find_none _ _ E p Hp) in Hc.
Qed.

Lemma at_None rm x : at_ rm x = None <-> forall p, In p (map rm) -> covers x p = false.
Proof.
  unfold at_. split.
  - destruct (List.find _ _) eqn:E; [done|]. intros _. by apply find_none.
  - intros Hn. destruct (List.find _ _) as [q|] eqn:E; [|done].
    apply find_some in E as [Hq Hc]. by rewrite Hn in Hc.
Qed.
End Invariant.

End RM.

(** * range-map: what the operations do

    Every operation of [RangeMap] against its abstract view, a finite set of
    disjoint ranges with a value each ([RM.at_] gives the value at an address). *)
Import RM.

Section Ops.
Context {V : Type}.
Implicit Types (rm : RangeMap V) (l : list (item V)) (p q : item V) (r key : Range).

Lemma Forall_before_last r l p q :
  seg_wf r (l ++ [q]) -> In p l -> p.2.1 <= q.1.
Proof.
  intros (_ & _ & HF)%seg_wf_app Hp. rewrite Forall_forall in HF.
  apply list_elem_of_In, HF in Hp. by inversion Hp.
Qed.

Lemma key_vacant_spec rm key :
  wf rm ->
  key_vacant rm key = true <->
  rstart key < rend key /\ rstart (range rm) <= rstart key /\ rend key <= rend (range rm)
  /\ forall p, In p (map rm) -> overlaps key p = false.
Proof.
  intros Hwf. unfold key_vacant, overlaps.
  destruct (Z.leb_spec (rend key) (rstart key)); [split; [done|lia]|].
  destruct (Z.leb_spec (rstart (range rm)) (rstart key)); simpl; [|split; [done|lia]].
  destruct (Z.leb_spec (rend key) (rend (range rm))); simpl; [|split; [done|lia]].
  assert (Hin : forall p, In p (map rm) /\ p.1 < rend key <-> In p (bt_below (map rm) (rend key))).
  { intros p. unfold bt_below. rewrite filter_In. simpl. rewrite Z.ltb_lt. done. }
  assert (Hb : seg_wf (range rm) (bt_below (map rm) (rend key))) by by apply seg_wf_filter.
  unfold bt_last. pose proof (last_spec (bt_below (map rm) (rend key))) as Hl.
  destruct (last _) as [[k [e v]]|].
  - destruct Hl as [l' El]. rewrite El in *.
    assert (Hlast : In (k, (e, v)) (l' ++ [(k, (e, v))])) by (apply in_or_app; right; by left).
    destruct (seg_wf_item _ _ _ Hb Hlast) as (_ & Hne & _). simpl in Hne.
    destruct (proj2 (Hin _) Hlast) as [Hlm Hlt]. simpl in Hlt. split.
    + intros Hle. split_and!; try lia. intros p Hp.
      destruct (Z.ltb_spec p.1 (rend key)) as [Hpk|]; [|done]. simpl.
      destruct (in_app_or _ _ _ (proj1 (Hin p) (conj Hp Hpk))) as [Hp'|[<-|[]]]; simpl; [|lia].
      pose proof (Forall_before_last _ _ p _ Hb Hp'). simpl in *. lia.
    + intros (_ & _ & _ & Hno). specialize (Hno _ Hlm). simpl in Hno. lia.
  - split; [|done]. intros _. split_and!; try lia. intros p Hp.
    destruct (Z.ltb_spec p.1 (rend key)) as [Hpk|]; [|done].
    pose proof (proj1 (Hin p) (conj Hp Hpk)) as Hp'. by rewrite Hl in Hp'.
Qed.

(** What the bounds of a disjoint key say of its neighbours in the map. *)
Lemma no_overlap_sides key p :
  p.1 < p.2.1 -> rstart key < rend key -> overlaps key p = false ->
  p.2.1 <= rstart key \/ rend key <= p.1.
Proof. unfold overlaps. lia. Qed.

(** Inserting a range that overlaps no entry. *)
Lemma insert_vacant_wf rm key v :
  wf rm -> key_vacant rm key = true ->
  wf (mk_rm (range rm) (bt_insert (map rm) (rstart key) (rend key, v))).
Proof.
  intros Hwf (Hne & Hlo & Hhi & Hno)%key_vacant_spec; [|done].
  pose proof (seg_wf_bt _ _ Hwf) as Hbt. unfold wf in *; simpl.
  assert (Hget : bt_get (map rm) (rstart key) = None).
  { destruct (bt_get _ _) as [[e' v']|] eqn:E; [|done].
    apply bt_get_In in E; [|done]. pose proof (seg_wf_item _ _ _ Hwf E) as (_ & ? & _).
    specialize (Hno _ E). unfold overlaps in Hno; simpl in *. lia. }
  rewrite bt_insert_split by done.
  apply seg_wf_app. split_and!; [by apply seg_wf_filter| |].
  - apply seg_wf_cons. split_and!; [unfold item_ok; simpl; lia| |by apply seg_wf_filter].
    apply Forall_forall. intros p Hp%list_elem_of_In%filter_In. unfold before; simpl in *.
    destruct Hp as [Hp Hk]. pose proof (seg_wf_item _ _ _ Hwf Hp) as (_ & Hpp & _).
    destruct (no_overlap_sides _ _ Hpp Hne (Hno _ Hp)); lia.
  - apply Forall_forall. intros p Hp%list_elem_of_In%filter_In. simpl in Hp. destruct Hp as [Hp Hk].
    pose proof (seg_wf_item _ _ _ Hwf Hp) as (_ & Hpp & _).
    destruct (no_overlap_sides _ _ Hpp Hne (Hno _ Hp)) as [Hs|Hs]; [|lia].
    apply Forall_cons. unfold before at 1; simpl. split; [lia|].
    apply Forall_forall. intros q Hq%list_elem_of_In%filter_In. unfold before; simpl in *. lia.
Qed.

Lemma In_bt_insert l k e v p :
  bt_wf l -> bt_get l k = None -> In p (bt_insert l k (e, v)) <-> p = (k, (e, v)) \/ In p l.
Proof.
  intros Hwf Hget. rewrite bt_insert_split by done.
  rewrite (bt_below_from l k) at 3 by done. rewrite !in_app_iff. simpl. naive_solver.
Qed.

(** A range that lies in the root range and has no mapped address. *)
Definition in_range r (x : Z) : bool := (rstart r <=? x) && (x <? rend r).
Definition free_range rm key : Prop :=
  rstart key < rend key /\ rstart (range rm) <= rstart key /\ rend key <= rend (range rm)
  /\ forall x, in_range key x = true -> at_ rm x = None.

Lemma free_range_iff rm key : wf rm -> key_vacant rm key = true <-> free_range rm key.
Proof.
  intros Hwf. rewrite key_vacant_spec by done. unfold free_range, in_range.
  split; intros (Hne & Hlo & Hhi & Hno); split_and!; try done.
  - intros x Hx. apply at_None. intros p Hp. specialize (Hno _ Hp).
    unfold overlaps, covers in *. lia.
  - intros p Hp. pose proof (seg_wf_item _ _ _ Hwf Hp) as (_ & Hpp & _).
    destruct (overlaps key p) eqn:E; [|done]. unfold overlaps in E.
    assert (Hx : at_ rm (Z.max p.1 (rstart key)) = None) by (apply Hno; lia).
    rewrite at_None in Hx. specialize (Hx _ Hp). unfold covers in Hx. lia.
Qed.

Lemma vacant_get_None rm key : wf rm -> key_vacant rm key = true -> bt_get (map rm) (rstart key) = None.
Proof.
  intros Hwf Hv. destruct (bt_get _ _) as [[e' v']|] eqn:E; [|done].
  apply bt_get_In in E; [|by eapply seg_wf_bt].
  apply key_vacant_spec in Hv as (Hne & _ & _ & Hno); [|done].
  pose proof (seg_wf_item _ _ _ Hwf E) as (_ & ? & _).
  specialize (Hno _ E). unfold overlaps in Hno; simpl in *. lia.
Qed.

Lemma insert_vacant_at rm key v x :
  wf rm -> key_vacant rm key = true ->
  at_ (mk_rm (range rm) (bt_insert (map rm) (rstart key) (rend key, v))) x
  = if in_range key x then Some v else at_ rm x.
Proof.
  intros Hwf Hv. pose proof (insert_vacant_wf _ _ v Hwf Hv) as Hwf'.
  pose proof (vacant_get_None _ _ Hwf Hv) as Hget. pose proof (seg_wf_bt _ _ Hwf) as Hbt.
  apply free_range_iff in Hv as (_ & _ & _ & Hfree); [|done].
  destruct (in_range key x) eqn:Ex.
  - apply at_Some; [done|]. exists (rstart key, (rend key, v)). split_and!; [|done..].
    apply In_bt_insert; auto.
  - apply option_eq. intros v'. rewrite !at_Some by done. simpl.
    split; intros (p & Hp & Hc & <-); exists p; split_and!; try done.
    + apply In_bt_insert in Hp as [->|Hp]; [|done..]. unfold covers, in_range in *; simpl in *. lia.
    + apply In_bt_insert; auto.
Qed.

(** C39: [try_insert] succeeds exactly on a non-empty free range of the root
    range; it then maps that range to the value, changes no other address and
    keeps the invariant.  Otherwise it hands the value back. *)
Theorem try_insert_spec rm key v :
  wf rm ->
  match try_insert rm key v with
  | Ok rm' =>
      free_range rm key /\ wf rm' /\ range rm' = range rm
      /\ forall x, at_ rm' x = if in_range key x then Some v else at_ rm x
  | Err v' => v' = v /\ ~ free_range rm key
  | Panic => False
  end.
Proof.
  intros Hwf. unfold try_insert. destruct (key_vacant rm key) eqn:E.
  - split; [by apply free_range_iff|]. split; [by apply insert_vacant_wf|].
    split; [done|]. intros x. by apply insert_vacant_at.
  - split; [done|]. rewrite <- free_range_iff by done. by rewrite E.
Qed.

(** ** Iteration in a range *)
(** [intersection] enumerates exactly the entries that share an address
    with the range, from the last one to the first. *)
Theorem intersection_spec rm r :
  wf rm -> intersection rm r = List.map entry_view (rev (List.filter (overlaps r) (map rm))).
Proof.
  intros Hwf. unfold intersection. f_equal. unfold bt_below.
  rewrite take_while_filter, filter_rev, filter_filter.
  - done.
  - apply (StronglySorted_rev (fun b a => _)).
    destruct (seg_wf_filter _ _ (fun p => kltb p.1 (rend r)) Hwf) as [Hs HF].
    eapply StronglySorted_weaken; [|exact HF|exact Hs].
    unfold before, item_ok. simpl. intros. lia.
Qed.

Lemma range_iter_filter rm r :
  wf rm -> range_iter rm r = List.map entry_view (List.filter (contained r) (map rm)).
Proof.
  intros Hwf. unfold range_iter. f_equal. unfold bt_from.
  rewrite take_while_filter, filter_filter.
  - apply filter_ext. intros p. unfold contained. simpl. lia.
  - destruct (seg_wf_filter _ _ (fun p => negb (kltb p.1 (rstart r))) Hwf) as [Hs HF].
    eapply StronglySorted_weaken; [|exact HF|exact Hs].
    unfold before, item_ok. simpl. intros. lia.
Qed.

Lemma filter_parts {A} (f : A -> bool) (xs ys zs ws : list A) :
  Forall (fun x => f x = false) xs -> Forall (fun x => f x = true) ys ->
  Forall (fun x => f x = false) zs -> Forall (fun x => f x = false) ws ->
  List.filter f (xs ++ ys ++ zs ++ ws) = ys
  /\ List.filter (fun x => negb (f x)) (xs ++ ys ++ zs ++ ws) = xs ++ zs ++ ws.
Proof.
  intros Hx Hy Hz Hw. rewrite !List.filter_app.
  rewrite (filter_none f xs), (filter_all f ys), (filter_none f zs), (filter_none f ws) by done.
  rewrite (filter_all _ xs), (filter_none (fun x => negb (f x)) ys), (filter_all _ zs), (filter_all _ ws)
    by (eapply Forall_impl; [eassumption|]; simpl; intros ? ->; done).
  by rewrite !app_nil_r.
Qed.

(** [drain] removes and returns, in order, exactly the entries contained
    in the range, and keeps every other entry as it was. *)
Theorem drain_spec rm r :
  wf rm ->
  drain rm r = (List.map entry_view (List.filter (contained r) (map rm)),
                mk_rm (range rm) (List.filter (fun p => negb (contained r p)) (map rm))).
Proof.
  intros Hwf. pose proof (seg_wf_bt _ _ Hwf) as Hbt. unfold drain, bt_split_off.
  set (A := bt_below (map rm) (rstart r)). set (F := bt_from (map rm) (rstart r)).
  set (B := bt_below F (rend r)). set (C := bt_from F (rend r)).
  assert (HF : bt_wf F) by by apply bt_filter_wf.
  assert (El : map rm = A ++ B ++ C).
  { assert (EF : F = B ++ C) by by apply bt_below_from. rewrite <- EF. by apply bt_below_from. }
  assert (HA : Forall (fun p => contained r p = false) A).
  { apply Forall_forall. intros p [_ Hp]%list_elem_of_In%filter_In. unfold contained. simpl in Hp. lia. }
  assert (HC : Forall (fun p => contained r p = false) C).
  { apply Forall_forall. intros p [[Hp _]%filter_In Hk]%list_elem_of_In%filter_In.
    destruct (seg_wf_item _ _ _ Hwf Hp) as (_ & Hne & _). unfold contained. simpl in Hk. lia. }
  assert (HBk : Forall (fun p => rstart r <= p.1 < rend r) B).
  { apply Forall_forall. intros p [[_ Hs]%filter_In He]%list_elem_of_In%filter_In. simpl in *. lia. }
  unfold bt_last. pose proof (last_spec B) as HB. destruct (last B) as [[k [e v]]|].
  - destruct HB as [B' EB]. rewrite EB in El, HBk. apply Forall_app in HBk as [HBk Hk].
    rewrite Forall_singleton in Hk. simpl in Hk.
    assert (HwfB : seg_wf (range rm) (B' ++ [(k, (e, v))])).
    { unfold wf in Hwf. rewrite El in Hwf. apply seg_wf_app in Hwf as (_ & (Hb & _)%seg_wf_app & _). done. }
    assert (HB' : Forall (fun p => contained r p = true) B').
    { rewrite Forall_forall in *. intros p Hp. unfold contained. specialize (HBk _ Hp).
      pose proof (Forall_before_last _ _ p _ HwfB (proj1 (list_elem_of_In _ _) Hp)). simpl in *. lia. }
    destruct (Z.ltb_spec (rend r) e).
    + assert (HX : Forall (fun p => contained r p = false) [(k, (e, v))]).
      { apply Forall_singleton. unfold contained; simpl. lia. }
      rewrite EB, bt_remove_snoc by (by eapply seg_wf_bt).
      rewrite bt_insert_snoc.
      2:{ apply Forall_forall. intros p [_ Hp]%list_elem_of_In%filter_In. simpl in *. lia. }
      destruct (filter_parts (contained r) A B' [(k, (e, v))] C) as [E1 E2]; [done..|].
      rewrite El, <- !app_assoc, E1, E2. f_equal. f_equal.
      rewrite bt_append_app; rewrite <- app_assoc; [done|]. rewrite <- E2.
      apply bt_filter_wf. by rewrite El, <- !app_assoc in Hbt.
    + destruct (filter_parts (contained r) A (B' ++ [(k, (e, v))]) [] C) as [E1 E2]; [done| |done..|].
      { apply Forall_app. split; [done|]. apply Forall_singleton. unfold contained; simpl. lia. }
      rewrite El, <- (app_nil_l C), E1, E2, EB. do 2 f_equal.
      rewrite bt_append_app; [done|]. change (bt_wf (A ++ [] ++ C)). rewrite <- E2.
      apply bt_filter_wf. simpl. by rewrite <- El.
  - destruct (filter_parts (contained r) A [] [] C) as [E1 E2]; [done..|].
    rewrite El, HB. simpl in *. rewrite E1, E2. do 2 f_equal.
    apply bt_append_app. rewrite <- E2. apply bt_filter_wf. by rewrite El, HB in Hbt.
Qed.

(** ** Splitting an entry *)
Definition insert_opt rm key (o : option V) : RangeMap V :=
  mk_rm (range rm) match o with
                   | Some v => bt_insert (map rm) (rstart key) (rend key, v)
                   | None => map rm
                   end.

Lemma insert_opt_spec rm key o :
  wf rm -> free_range rm key ->
  wf (insert_opt rm key o)
  /\ forall x, at_ (insert_opt rm key o) x = if in_range key x then o else at_ rm x.
Proof.
  intros Hwf Hfree. destruct o as [v|].
  - apply free_range_iff in Hfree; [|done].
    split; [by apply insert_vacant_wf|]. intros x. by apply insert_vacant_at.
  - split; [done|]. intros x. destruct (in_range key x) eqn:E; [|done].
    destruct Hfree as (_ & _ & _ & Hx). by apply Hx.
Qed.

Definition strictly_inside (key : Z) p : bool := (p.1 <? key) && (key <? p.2.1).

(** The entry that [split_entry] finds, and the map with that entry removed. *)
Lemma split_entry_cases rm (key : Z) :
  wf rm ->
  match split_entry rm key with
  | (Some (v, e), rm') =>
      exists l1 l2 s t,
        map rm = l1 ++ (s, (t, v)) :: l2 /\ s < key < t
        /\ rm' = mk_rm (range rm) (l1 ++ l2) /\ e = mk_split key (mk_range s t) (None, None)
  | (None, rm') => rm' = rm /\ forall p, In p (map rm) -> strictly_inside key p = false
  end.
Proof.
  intros Hwf. pose proof (seg_wf_bt _ _ Hwf) as Hbt. unfold split_entry, bt_split_off.
  set (A := bt_below (map rm) key). set (F := bt_from (map rm) key).
  assert (El : map rm = A ++ F) by by apply bt_below_from.
  assert (HF : forall p, In p F -> strictly_inside key p = false).
  { intros p [_ Hp]%filter_In. unfold strictly_inside; simpl in *. lia. }
  assert (Hsame : mk_rm (range rm) (bt_append A F) = rm).
  { rewrite bt_append_app by by rewrite <- El. rewrite <- El. by destruct rm. }
  unfold bt_last. pose proof (last_spec A) as HA. destruct (last A) as [[s [t v]]|].
  - destruct HA as [A' EA]. rewrite EA in El. pose proof Hwf as Hseg.
    unfold wf in Hseg. rewrite El in Hseg. apply seg_wf_app in Hseg as (HsA & HsF & HAF).
    assert (Hlast : In (s, (t, v)) (A' ++ [(s, (t, v))])) by (apply in_or_app; right; by left).
    assert (s < key).
    { rewrite <- EA in Hlast. apply filter_In in Hlast as [_ Hs]. simpl in Hs. lia. }
    destruct (Z.ltb_spec s key); [|lia]. destruct (Z.ltb_spec key t); simpl.
    + exists A', F, s, t. rewrite <- app_assoc in El. split_and!; try done. f_equal.
      rewrite EA, bt_remove_snoc, bt_append_app; [done| |by eapply seg_wf_bt].
      apply seg_wf_bt with (range rm). apply seg_wf_app in HsA as (HsA & _ & _).
      apply Forall_app in HAF as [HAF _]. by apply seg_wf_app.
    + split; [done|]. intros p. rewrite El, !in_app_iff.
      intros [[Hp|[<-|[]]]|Hp]; [|unfold strictly_inside; simpl; lia|by apply HF].
      pose proof (Forall_before_last _ _ p _ HsA Hp).
      destruct (seg_wf_item _ _ _ HsA Hlast) as (_ & Hst & _).
      unfold strictly_inside; simpl in *. lia.
  - split; [done|]. intros p. rewrite El, HA. simpl. apply HF.
Qed.

Lemma take_out_spec rm l1 l2 s t v :
  wf rm -> map rm = l1 ++ (s, (t, v)) :: l2 ->
  wf (mk_rm (range rm) (l1 ++ l2))
  /\ (forall x, at_ (mk_rm (range rm) (l1 ++ l2)) x
               = if (s <=? x) && (x <? t) then None else at_ rm x)
  /\ item_ok (range rm) (s, (t, v)).
Proof.
  intros Hwf El.
  pose proof Hwf as Hseg. unfold wf in Hseg. rewrite El in Hseg.
  apply seg_wf_app in Hseg as (H1 & (Hst & H2 & H3)%seg_wf_cons & H4).
  assert (Hrm' : wf (mk_rm (range rm) (l1 ++ l2))).
  { unfold wf; simpl. apply seg_wf_app. split_and!; [done..|].
    eapply Forall_impl; [exact H4|]. simpl. by intros ? [_ ?]%Forall_cons. }
  set (rm' := mk_rm (range rm) (l1 ++ l2)) in *.
  assert (Hat : forall x, at_ rm' x = if (s <=? x) && (x <? t) then None else at_ rm x).
  { intros x. destruct ((s <=? x) && (x <? t)) eqn:Ex.
    - apply at_None. intros p Hp. unfold rm' in Hp; simpl in Hp. apply in_app_iff in Hp.
      unfold covers. rewrite Forall_forall in *. destruct Hp as [Hp|Hp]; apply list_elem_of_In in Hp.
      + specialize (H4 _ Hp). inversion H4; subst. unfold before in *; simpl in *. lia.
      + specialize (H2 _ Hp). unfold before in *; simpl in *. lia.
    - apply option_eq. intros v'. rewrite !at_Some by done. unfold rm'; simpl.
      split; intros (p & Hp & Hc & <-); exists p; split_and!; try done; revert Hp; rewrite ?El, !in_app_iff;
        simpl; [tauto|]. intros [?|[<-|?]]; [tauto| |tauto]. unfold covers in Hc; simpl in Hc. lia. }
  done.
Qed.

(** [split_entry] at an address strictly inside an entry takes that entry
    out, and dropping the [SplitEntry] maps the two halves to whatever values
    were set (an unset half becomes free) and no other address; at any other
    address it finds nothing and changes nothing. *)
Theorem split_entry_spec rm (key : Z) :
  wf rm ->
  match split_entry rm key with
  | (Some (v, e), rm') =>
      let s := rstart (old_key e) in let t := rend (old_key e) in
      s < key < t
      /\ (forall x, s <= x < t -> at_ rm x = Some v)
      /\ forall former latter,
           let rm'' := split_drop rm' (mk_split (split_key e) (split_range e) (former, latter)) in
           wf rm'' /\ range rm'' = range rm
           /\ forall x, at_ rm'' x = if (s <=? x) && (x <? key) then former
                                     else if (key <=? x) && (x <? t) then latter
                                     else at_ rm x
  | (None, rm') => rm' = rm /\ forall p, In p (map rm) -> strictly_inside key p = false
  end.
Proof.
  intros Hwf. pose proof (split_entry_cases rm key Hwf) as Hc.
  destruct (split_entry rm key) as [[[v e]|] rm']; [|done].
  destruct Hc as (l1 & l2 & s & t & El & Hk & -> & ->). unfold old_key; simpl.
  destruct (take_out_spec rm l1 l2 s t v Hwf El) as (Hrm' & Hat & Hst).
  set (rm' := mk_rm (range rm) (l1 ++ l2)) in *.
  split; [lia|]. split.
  { intros x Hx. apply at_Some; [done|]. exists (s, (t, v)). rewrite El. split_and!; [|unfold covers; simpl; lia|done].
    apply in_or_app. right. by left. }
  intros former latter. destruct Hst as (Hs & _ & Ht). simpl in Hs, Ht.
  destruct (insert_opt_spec rm' (mk_range s key) former) as [Hwf1 Hat1]; [done| |].
  { unfold free_range; simpl. split_and!; try lia. unfold in_range; simpl. intros x Hx. rewrite Hat.
    by rewrite (proj2 (andb_true_iff _ _)) by lia. }
  destruct (insert_opt_spec (insert_opt rm' (mk_range s key) former) (mk_range key t) latter)
    as [Hwf2 Hat2]; [done| |].
  { unfold free_range; simpl. split_and!; try lia. unfold in_range; simpl. intros x Hx.
    rewrite Hat1, Hat. unfold in_range; simpl.
    rewrite (proj2 (andb_false_iff _ _)) by lia. by rewrite (proj2 (andb_true_iff _ _)) by lia. }
  split; [exact Hwf2|]. split; [done|]. intros x.
  etransitivity; [exact (Hat2 x)|]. rewrite Hat1, Hat. unfold in_range; simpl.
  destruct (Z.leb_spec s x), (Z.ltb_spec x key), (Z.leb_spec key x), (Z.ltb_spec x t); simpl; done || lia.
Qed.
End Ops.

(** ** A concrete map *)
Definition sample : RangeMap Z :=
  mk_rm (mk_range 0 100) [(1, (10, 7)); (13, (20, 8)); (24, (30, 9))].

Ltac solve_seg_wf :=
  split; [repeat constructor; unfold before; simpl; lia|
          repeat constructor; unfold item_ok; simpl; lia].

Lemma try_insert_spec_witness :
  wf sample
  /\ exists rm', try_insert sample (mk_range 32 40) 5 = Ok rm' /\ wf rm' /\ at_ rm' 35 = Some 5 /\ at_ rm' 25 = Some 9.
Proof.
  assert (Hwf : wf sample) by solve_seg_wf. split; [exact Hwf|].
  pose proof (try_insert_spec sample (mk_range 32 40) 5 Hwf) as H.
  change (try_insert sample (mk_range 32 40) 5)
    with (@Ok Z _ (mk_rm (mk_range 0 100) (map sample ++ [(32, (40, 5))]))) in H |- *.
  eexists. split; [reflexivity|]. destruct H as (_ & Hw & _ & Hat).
  split; [exact Hw|]. rewrite !Hat. split; reflexivity.
Defined.

Lemma intersection_spec_witness :
  wf sample
  /\ List.map entry_view (rev (List.filter (overlaps (mk_range 17 27)) (map sample)))
     = [(mk_range 24 30, 9); (mk_range 13 20, 8)].
Proof.
  assert (Hwf : wf sample) by solve_seg_wf. split; [exact Hwf|].
  rewrite <- (intersection_spec sample (mk_range 17 27) Hwf). reflexivity.
Defined.

Lemma drain_spec_witness :
  wf sample /\ (drain sample (mk_range 7 26)).1 = [(mk_range 13 20, 8)].
Proof.
  assert (Hwf : wf sample) by solve_seg_wf. split; [exact Hwf|].
  rewrite (drain_spec sample (mk_range 7 26) Hwf). reflexivity.
Defined.

Lemma split_entry_spec_witness :
  wf sample
  /\ exists e rm', split_entry sample 15 = (Some (8, e), rm') /\ wf (split_drop rm' (set_latter e 4)).
Proof.
  assert (Hwf : wf sample) by solve_seg_wf. split; [exact Hwf|].
  pose proof (split_entry_spec sample 15 Hwf) as H.
  eexists _, _. split; [reflexivity|].
  destruct H as (_ & _ & H). exact (proj1 (H None (Some 4))).
Defined.
