(* ===== verification/Aslr.v ===== *)
(** * range-map: randomised allocation

    [find_free_with_aslr] visits the gaps of the map with an [AslrKey]; the
    theorems say that two rounds always decide, that the range found is an
    aligned free range, and that one is found whenever one exists. *)

From S2P Require Import Prelude BTree RangeMap.
Import RM.

(** ** Gaps *)
Section Gaps.
Context {V : Type}.
Implicit Types (rm : RangeMap V) (l : list (item V)) (g : Range).

Fixpoint gaps_from (lo : Z) (l : list (item V)) (hi : Z) : list Range :=
  match l with
  | [] => if lo <? hi then [mk_range lo hi] else []
  | (b, (e, _)) :: l => (if lo <? b then [mk_range lo b] else []) ++ gaps_from e l hi
  end.
Definition gaps rm : list Range := gaps_from (rstart (range rm)) (map rm) (rend (range rm)).

(** One round over a list of gaps, ended by the [None] call. *)
Fixpoint scan {S} (predicate : S -> option Range -> FindResult * S) (st : S) (gs : list Range)
  : FindResult * S :=
  match gs with
  | [] => predicate st None
  | g :: gs => match predicate st (Some g) with
               | (Next, st) => scan predicate st gs
               | ret => ret
               end
  end.

Lemma find_gap_scan {S} (predicate : S -> option Range -> FindResult * S) rm st :
  find_gap predicate rm st = scan predicate st (gaps rm).
Proof.
  unfold find_gap, gaps. generalize (rstart (range rm)) as lo.
  generalize (rend (range rm)) as hi. intros hi.
  revert st. induction (map rm) as [|[b [e v]] l IH]; intros st lo; simpl.
  - destruct (lo <? hi); simpl; [|done]. by destruct (predicate st _) as [[] ?].
  - destruct (lo <? b); simpl; [|done]. destruct (predicate st _) as [[] st']; [done|apply IH|done].
Qed.

Lemma seg_wf_tail lo hi p l :
  seg_wf (mk_range lo hi) (p :: l) ->
  lo <= p.1 /\ p.1 < p.2.1 /\ p.2.1 <= hi /\ Forall (before p) l /\ seg_wf (mk_range p.2.1 hi) l.
Proof.
  intros ((? & ? & ?) & HF & [Hs Hl])%seg_wf_cons. simpl in *. split_and!; try done.
  split; [done|]. rewrite Forall_forall in *. intros q Hq.
  specialize (HF _ Hq). specialize (Hl _ Hq). unfold before, item_ok in *; simpl in *. lia.
Qed.

Lemma gaps_from_sound lo hi l g :
  lo <= hi -> seg_wf (mk_range lo hi) l -> In g (gaps_from lo l hi) ->
  lo <= rstart g < rend g /\ rend g <= hi /\ forall p, In p l -> overlaps g p = false.
Proof.
  revert lo. induction l as [|p l IH]; intros lo Hle Hwf; simpl.
  - destruct (Z.ltb_spec lo hi); [|done]. intros [<-|[]]. simpl. split_and!; done || lia.
  - destruct p as [b [e v]]. apply seg_wf_tail in Hwf as (Hb & Hbe & He & HF & Hwf); simpl in *.
    rewrite in_app_iff. intros [Hg|Hg].
    + destruct (Z.ltb_spec lo b); [|done]. destruct Hg as [<-|[]]; simpl. split_and!; try lia.
      intros p [<-|Hp]; unfold overlaps; simpl; [lia|]. rewrite Forall_forall in HF.
      apply list_elem_of_In, HF in Hp. unfold before in Hp; simpl in Hp. lia.
    + destruct (IH e He Hwf Hg) as (? & ? & Hno). split_and!; try lia.
      intros p [<-|Hp]; [|by apply Hno]. unfold overlaps; simpl. lia.
Qed.

Lemma gaps_from_complete lo hi l g :
  lo <= hi -> seg_wf (mk_range lo hi) l ->
  lo <= rstart g < rend g -> rend g <= hi -> (forall p, In p l -> overlaps g p = false) ->
  exists g', In g' (gaps_from lo l hi) /\ rstart g' <= rstart g /\ rend g <= rend g'.
Proof.
  revert lo. induction l as [|p l IH]; intros lo Hle Hwf Hlo Hhi Hno; simpl.
  - destruct (Z.ltb_spec lo hi); [|lia]. exists (mk_range lo hi). simpl. split_and!; [by left|lia..].
  - destruct p as [b [e v]]. apply seg_wf_tail in Hwf as (Hb & Hbe & He & HF & Hwf); simpl in *.
    pose proof (Hno _ (or_introl eq_refl)) as H0. unfold overlaps in H0; simpl in H0.
    destruct (Z.leb_spec (rend g) b).
    + exists (mk_range lo b). simpl. destruct (Z.ltb_spec lo b); [|lia].
      split_and!; [by left|lia..].
    + destruct (IH e He Hwf) as (g' & Hg' & ? & ?); [lia..|naive_solver|].
      exists g'. split_and!; [|done..]. apply in_or_app. by right.
Qed.

Definition glen g : Z := rend g - rstart g.

Lemma gaps_from_total lo hi l :
  lo <= hi -> seg_wf (mk_range lo hi) l ->
  foldr (fun g n => glen g + n) 0 (gaps_from lo l hi) <= hi - lo.
Proof.
  revert lo. induction l as [|p l IH]; intros lo Hle Hwf; simpl.
  - destruct (Z.ltb_spec lo hi); unfold glen; simpl; lia.
  - destruct p as [b [e v]]. apply seg_wf_tail in Hwf as (Hb & Hbe & He & _ & Hwf); simpl in *.
    specialize (IH e He Hwf). destruct (Z.ltb_spec lo b); unfold glen in *; simpl in *; lia.
Qed.

Lemma wf_root rm : wf rm -> seg_wf (mk_range (rstart (range rm)) (rend (range rm))) (map rm).
Proof. unfold wf. by destruct (range rm). Qed.
End Gaps.

(** ** One round of the predicate *)
Section Round.
Context {R : Type} (next_u64 : R -> Z * R) (k size : Z).
Hypothesis Hk : 0 <= k < 64.
Hypothesis Hsize : 0 < size.
Implicit Types (a : AslrKey R) (g : Range).

Notation pred := (find_key_usize next_u64).
#[local] Arguments find_key_usize : simpl never.

Definition the_layout : Layout := mk_layout size (2 ^ k).

(** The aligned bounds of a gap and the number of aligned positions in it. *)
Definition abase g : Z := (rstart g + (2 ^ k - 1)) / 2 ^ k * 2 ^ k.
Definition aend g : Z := rend g / 2 ^ k * 2 ^ k.
Definition npos g : Z := if size <=? aend g - abase g then (aend g - abase g - size) / 2 ^ k + 1 else 0.

Definition gap_ok g : Prop := 0 <= rstart g < rend g /\ rend g + 2 ^ k <= 2 ^ 64.

Lemma round_bounds g :
  gap_ok g -> rstart g <= abase g < rstart g + 2 ^ k /\ rend g - 2 ^ k < aend g <= rend g /\ 0 <= aend g.
Proof.
  unfold gap_ok, abase, aend. intros Hg. pose proof (pow2_pos k ltac:(lia)) as H2.
  pose proof (Z.div_mod (rstart g + (2 ^ k - 1)) (2 ^ k) ltac:(lia)).
  pose proof (Z.mod_pos_bound (rstart g + (2 ^ k - 1)) (2 ^ k) H2).
  pose proof (Z.div_mod (rend g) (2 ^ k) ltac:(lia)).
  pose proof (Z.mod_pos_bound (rend g) (2 ^ k) H2).
  pose proof (Z.div_pos (rend g) (2 ^ k) ltac:(lia) H2). nia.
Qed.

Lemma npos_bounds g : gap_ok g -> 0 <= npos g <= glen g.
Proof.
  intros Hg. pose proof (round_bounds g Hg). unfold npos, glen, gap_ok in *.
  pose proof (pow2_pos k ltac:(lia)) as H2.
  destruct (Z.leb_spec size (aend g - abase g)); [|lia].
  pose proof (Z.div_pos (aend g - abase g - size) (2 ^ k) ltac:(lia) H2).
  pose proof (Z.div_le_upper_bound (aend g - abase g - size) (2 ^ k) (aend g - abase g - size) H2).
  nia.
Qed.

(** The candidate at position [j] of a gap. *)
Definition candidate g (j : Z) : Range :=
  mk_range (abase g + j * 2 ^ k) (abase g + j * 2 ^ k + size).

Lemma candidate_in g j :
  gap_ok g -> 0 <= j < npos g ->
  rstart g <= rstart (candidate g j) /\ rend (candidate g j) <= rend g
  /\ rstart (candidate g j) mod 2 ^ k = 0.
Proof.
  intros Hg Hj. pose proof (round_bounds g Hg). unfold npos, gap_ok in *. simpl.
  pose proof (pow2_pos k ltac:(lia)) as H2.
  destruct (Z.leb_spec size (aend g - abase g)); [|lia].
  pose proof (Z.mul_div_le (aend g - abase g - size) (2 ^ k) H2).
  split_and!; [nia|nia|]. unfold abase. rewrite <- Z.mul_add_distr_r. apply Z.mod_mul. lia.
Qed.

(** A size in units of the alignment, the last one begun counted in full. *)
Definition round_up (sz : Z) : Z := (sz + (2 ^ k - 1)) / 2 ^ k * 2 ^ k.
Lemma round_up_id sz : sz mod 2 ^ k = 0 -> round_up sz = sz.
Proof.
  intros Hs. pose proof (pow2_pos k ltac:(lia)). unfold round_up. apply Z.div_exact in Hs; [|lia].
  replace (sz + (2 ^ k - 1)) with (sz / 2 ^ k * 2 ^ k + (2 ^ k - 1)) by lia.
  rewrite Z.div_add_l, (Z.div_small (2 ^ k - 1)), Z.add_0_r by lia. lia.
Qed.
Lemma round_up_ge sz : sz <= round_up sz.
Proof.
  unfold round_up. pose proof (pow2_pos k ltac:(lia)) as H2. pose proof (Z.div_mod (sz + (2 ^ k - 1)) (2 ^ k) ltac:(lia)).
  pose proof (Z.mod_pos_bound (sz + (2 ^ k - 1)) (2 ^ k) H2). lia.
Qed.

(** A gap without positions has no aligned place for whole units: the bounds of a gap
    are both rounded. *)
Lemma npos_zero g b :
  gap_ok g -> npos g = 0 ->
  b mod 2 ^ k = 0 -> rstart g <= b -> b + round_up size <= rend g -> False.
Proof.
  intros Hg Hn Hb Hlo Hhi. pose proof (pow2_pos k ltac:(lia)) as H2. unfold npos in Hn. pose proof (round_up_ge size).
  assert (abase g <= b).
  { unfold abase. pose proof (Z.div_mod b (2 ^ k) ltac:(lia)).
    assert ((rstart g + (2 ^ k - 1)) / 2 ^ k <= b / 2 ^ k); [|nia].
    apply Z.lt_succ_r. apply Z.div_lt_upper_bound; nia. }
  assert (b + round_up size <= aend g).
  { unfold aend, round_up in *. pose proof (Z.div_mod b (2 ^ k) ltac:(lia)).
    assert (b / 2 ^ k + (size + (2 ^ k - 1)) / 2 ^ k <= rend g / 2 ^ k); [|nia].
    apply Z.div_le_lower_bound; nia. }
  destruct (Z.leb_spec size (aend g - abase g)); [|lia].
  pose proof (Z.div_pos (aend g - abase g - size) (2 ^ k) ltac:(lia) H2). lia.
Qed.

(** One call of [find_key_usize] on a gap, without the wrap-around. *)
Lemma find_key_gap a g :
  gap_ok g -> layout a = the_layout -> 0 <= entropy a < 2 ^ 64 -> 0 <= count a -> count a + npos g < 2 ^ 64 ->
  pred a (Some g) =
  if entropy a <? npos g
  then (Found (candidate g (entropy a)),
        mk_aslr (rng a) (retried a) (entropy a) (count a + npos g) (layout a))
  else (Next, mk_aslr (rng a) (retried a) (entropy a - npos g) (count a + npos g) (layout a)).
Proof.
  intros Hg Hl He Hc Hcn. pose proof (pow2_pos k ltac:(lia)) as H2.
  pose proof (round_bounds g Hg) as Hrb. pose proof (npos_bounds g Hg) as Hnb.
  assert (Hp64 : 2 ^ k <= 2 ^ 63) by (apply Z.pow_le_mono_r; lia).
  unfold find_key_usize. rewrite Hl. simpl layout_align. simpl layout_size.
  rewrite ctz_pow2 by lia. rewrite (wsub_small 64 (2 ^ k)) by (unfold fits; lia).
  unfold gap_ok in Hg. rewrite wadd_small by (unfold fits; lia).
  rewrite !land_not_mask by (unfold fits; lia). fold (abase g) (aend g).
  unfold saturating_sub. unfold npos in *.
  destruct (Z.leb_spec size (aend g - abase g)).
  - destruct (Z.leb_spec size (Z.max 0 (aend g - abase g))); [|lia].
    rewrite (wsub_small _ (aend g)) by (unfold fits; lia). rewrite wsub_small by (unfold fits; lia).
    rewrite Z.shiftr_div_pow2 by lia.
    assert (0 <= (aend g - abase g - size) / 2 ^ k) by (apply Z.div_pos; lia).
    unfold glen in Hnb. rewrite (wadd_small _ (_ / _)) by (unfold fits; lia).
    rewrite (wadd_small _ (count a)) by (unfold fits; lia).
    destruct (Z.ltb_spec (entropy a) ((aend g - abase g - size) / 2 ^ k + 1)).
    + pose proof (candidate_in g (entropy a) ltac:(unfold gap_ok; lia)) as Hci. unfold npos in Hci.
      destruct (Z.leb_spec size (aend g - abase g)); [|lia]. specialize (Hci ltac:(lia)).
      simpl in Hci. rewrite wshl_small by (unfold fits; nia).
      rewrite !wadd_small by (unfold fits; nia). done.
    + rewrite wsub_small by (unfold fits; lia). done.
  - destruct (Z.leb_spec size (Z.max 0 (aend g - abase g))); [lia|].
    destruct (Z.ltb_spec (entropy a) 0); [lia|]. rewrite !Z.add_0_r, Z.sub_0_r, <- Hl. by destruct a.
Qed.

Definition total (gs : list Range) : Z := foldr (fun g n => npos g + n) 0 gs.
Definition room (gs : list Range) : Z := foldr (fun g n => glen g + n) 0 gs.

Lemma total_bounds gs : Forall gap_ok gs -> 0 <= total gs <= room gs.
Proof. induction 1 as [|g gs Hg _ IH]; simpl; [lia|]. pose proof (npos_bounds g Hg). lia. Qed.

Lemma total_zero gs g : Forall gap_ok gs -> total gs = 0 -> In g gs -> npos g = 0.
Proof.
  induction 1 as [|g' gs Hg' Hgs IH]; [done|]. simpl. intros Ht.
  pose proof (npos_bounds g' Hg'). pose proof (total_bounds gs Hgs).
  intros [->|Hg]; [lia|]. apply IH; [lia|done].
Qed.

(** A round either finds the candidate the entropy designates, or consumes
    one unit of entropy per position and counts the positions. *)
Lemma scan_round a gs :
  Forall gap_ok gs -> layout a = the_layout -> 0 <= entropy a < 2 ^ 64 ->
  0 <= count a -> count a + room gs < 2 ^ 64 ->
  if entropy a <? total gs
  then exists g j a', In g gs /\ 0 <= j < npos g /\ scan pred a gs = (Found (candidate g j), a')
  else scan pred a gs =
       pred (mk_aslr (rng a) (retried a) (entropy a - total gs) (count a + total gs) (layout a)) None.
Proof.
  intros Hgs. revert a. induction Hgs as [|g gs Hg Hgs IH]; intros a Hl He Hc Hroom.
  - simpl. destruct (Z.ltb_spec (entropy a) 0); [lia|].
    rewrite Z.sub_0_r, Z.add_0_r. by destruct a.
  - pose proof (npos_bounds g Hg) as Hn. pose proof (total_bounds gs Hgs) as Ht. simpl in *.
    rewrite find_key_gap by (done || lia).
    destruct (Z.ltb_spec (entropy a) (npos g)).
    + destruct (Z.ltb_spec (entropy a) (npos g + total gs)); [|lia].
      eexists g, (entropy a), _. split_and!; [by left|lia..|done].
    + set (a' := mk_aslr _ _ (entropy a - npos g) _ _).
      specialize (IH a' Hl ltac:(simpl; lia) ltac:(simpl; lia) ltac:(simpl; lia)). simpl in IH.
      destruct (Z.ltb_spec (entropy a - npos g) (total gs)), (Z.ltb_spec (entropy a) (npos g + total gs)); try lia.
      * destruct IH as (g' & j & a'' & ? & ? & ?). exists g', j, a''. split_and!; [by right|lia..|done].
      * rewrite IH. do 2 f_equal; lia.
Qed.
End Round.

(** ** The search *)
Section Search.
Context {V R : Type} (next_u64 : R -> Z * R) (rm : RangeMap V) (k size : Z).
Hypothesis Hwf : wf rm.
Hypothesis Hk : 0 <= k < 64.
Hypothesis Hsize : 0 < size.
Hypothesis Hroot : 0 <= rstart (range rm) <= rend (range rm).
Hypothesis Hend : rend (range rm) + 2 ^ k <= 2 ^ 64.

Lemma gaps_ok : Forall (gap_ok k) (gaps rm).
Proof.
  apply Forall_forall. intros g Hg%list_elem_of_In.
  destruct (gaps_from_sound _ _ _ g (proj2 Hroot) (wf_root rm Hwf) Hg) as (? & ? & _).
  unfold gap_ok. lia.
Qed.

Lemma gaps_room : room (gaps rm) < 2 ^ 64.
Proof.
  pose proof (gaps_from_total _ _ _ (proj2 Hroot) (wf_root rm Hwf)). unfold room, gaps.
  pose proof (pow2_pos k ltac:(lia)). lia.
Qed.

Lemma candidate_free g j :
  In g (gaps rm) -> 0 <= j < npos k size g -> free_range rm (candidate k size g j).
Proof.
  intros Hg Hj. pose proof gaps_ok as Hok. rewrite Forall_forall in Hok.
  specialize (Hok g (proj2 (list_elem_of_In _ _) Hg)).
  destruct (candidate_in k _ Hk Hsize g j Hok Hj) as (Hlo & Hhi & _).
  destruct (gaps_from_sound _ _ _ g (proj2 Hroot) (wf_root rm Hwf) Hg) as (? & ? & Hno).
  pose proof Hsize. simpl in *. apply free_range_iff; [done|]. apply key_vacant_spec; [done|].
  simpl. split_and!; [lia..|]. intros p Hp. specialize (Hno p Hp). unfold overlaps in *; simpl in *. lia.
Qed.

Lemma no_position b :
  total k size (gaps rm) = 0 -> b mod 2 ^ k = 0 -> ~ free_range rm (mk_range b (b + round_up k size)).
Proof.
  intros Ht Hb Hf. apply free_range_iff, key_vacant_spec in Hf; [|done..]. simpl in Hf.
  destruct Hf as (Hne & Hlo & Hhi & Hno).
  destruct (gaps_from_complete _ _ _ (mk_range b (b + round_up k size)) (proj2 Hroot) (wf_root rm Hwf))
    as (g & Hg & Hs & He); simpl; [lia..|done|]. simpl in *.
  pose proof gaps_ok as Hok.
  pose proof (total_zero k _ Hk Hsize _ g Hok Ht Hg).
  rewrite Forall_forall in Hok. specialize (Hok g (proj2 (list_elem_of_In _ _) Hg)).
  eapply (npos_zero k _ Hk g b); done.
Qed.

(** Two rounds decide: an aligned free range, or the proof that none exists. *)
Lemma find_free_aslr_cases (a : AslrKey R) :
  layout a = mk_layout size (2 ^ k) -> retried a = false -> count a = 0 ->
  0 <= entropy a < 2 ^ 64 ->
  match find_free_with_aslr next_u64 2 rm a with
  | Some (Some r) =>
      rstart r mod 2 ^ k = 0 /\ rend r = rstart r + size /\ free_range rm r
  | Some None => forall b, b mod 2 ^ k = 0 -> ~ free_range rm (mk_range b (b + round_up k size))
  | None => False
  end.
Proof.
  intros Hl Hr Hc He. unfold find_free_with_aslr. simpl find_free. rewrite find_gap_scan.
  pose proof gaps_ok as Hok. pose proof gaps_room as Hroom.
  assert (Hcand : forall g j, In g (gaps rm) -> 0 <= j < npos k size g ->
    let r := candidate k size g j in
    rstart r mod 2 ^ k = 0 /\ rend r = rstart r + size /\ free_range rm r).
  { intros g j Hg Hj. simpl. split_and!; [|done|by apply candidate_free].
    rewrite Forall_forall in Hok. apply list_elem_of_In in Hg.
    eapply (candidate_in k _ Hk Hsize g j); [by apply Hok|done]. }
  pose proof (total_bounds k _ Hk Hsize _ Hok) as Htot.
  pose proof (scan_round next_u64 k _ Hk Hsize a (gaps rm) Hok Hl He ltac:(lia) ltac:(lia)) as H1.
  destruct (Z.ltb_spec (entropy a) (total k size (gaps rm))).
  { destruct H1 as (g & j & a' & Hg & Hj & ->). simpl. by apply Hcand. }
  rewrite H1. unfold find_key_usize at 1. simpl. rewrite Hr, Hc, Z.add_0_l. simpl.
  destruct (Z.eqb_spec (total k size (gaps rm)) 0) as [Hz|Hz]; simpl.
  { intros b Hb. by apply no_position. }
  destruct (next_u64 (rng a)) as [x g']. simpl. rewrite find_gap_scan.
  pose proof (Z.mod_pos_bound x (total k size (gaps rm)) ltac:(lia)).
  set (a2 := mk_aslr _ _ _ _ _).
  pose proof (scan_round next_u64 k _ Hk Hsize a2 (gaps rm) Hok Hl ltac:(simpl; lia) ltac:(simpl; lia)
    ltac:(simpl; lia)) as H2. simpl in H2.
  destruct (Z.ltb_spec (x mod total k size (gaps rm)) (total k size (gaps rm))); [|lia].
  destruct H2 as (g & j & a' & Hg & Hj & ->). simpl. by apply Hcand.
Qed.
End Search.

(** A size that is a number of units. *)
Lemma find_free_units {V R} (next_u64 : R -> Z * R) (rm : RangeMap V) (k n : Z) (a : AslrKey R) :
  wf rm -> 0 <= k < 64 -> 0 < n -> 0 <= rstart (range rm) <= rend (range rm) -> rend (range rm) + 2 ^ k <= 2 ^ 64 ->
  layout a = mk_layout (n * 2 ^ k) (2 ^ k) -> retried a = false -> count a = 0 -> 0 <= entropy a < 2 ^ 64 ->
  match find_free_with_aslr next_u64 2 rm a with
  | Some (Some r) => rstart r mod 2 ^ k = 0 /\ rend r = rstart r + n * 2 ^ k /\ free_range rm r
  | Some None => forall b, b mod 2 ^ k = 0 -> ~ free_range rm (mk_range b (b + n * 2 ^ k))
  | None => False
  end.
Proof.
  intros Hwf Hk Hn Hr He Hl Hre Hc Hen. pose proof (pow2_pos k ltac:(lia)).
  pose proof (find_free_aslr_cases next_u64 rm k (n * 2 ^ k) Hwf Hk ltac:(nia) Hr He a Hl Hre Hc Hen) as Hf.
  rewrite round_up_id in Hf by (done || apply Z.mod_mul; lia). done.
Qed.

Lemma AslrKey_new_entropy {R} (next_u64 : R -> Z * R) (aslr_bit : Z) (g : R) (l : Layout) :
  0 <= aslr_bit < 64 -> 0 <= entropy (AslrKey_new next_u64 aslr_bit g l) < 2 ^ 64.
Proof.
  intros Hb. unfold AslrKey_new. destruct (next_u64 g) as [x g']. simpl.
  pose proof (pow2_pos aslr_bit ltac:(lia)).
  assert (2 ^ aslr_bit < 2 ^ 64) by (apply Z.pow_lt_mono_r; lia).
  rewrite wshl_small, Z.mul_1_l by (unfold fits; lia).
  rewrite wsub_small, land_mask by (unfold fits; lia).
  pose proof (Z.mod_pos_bound x (2 ^ aslr_bit)). lia.
Qed.

Lemma AslrKey_new_fields {R} (next_u64 : R -> Z * R) (aslr_bit : Z) (g : R) (l : Layout) :
  layout (AslrKey_new next_u64 aslr_bit g l) = l
  /\ retried (AslrKey_new next_u64 aslr_bit g l) = false
  /\ count (AslrKey_new next_u64 aslr_bit g l) = 0.
Proof. unfold AslrKey_new. by destruct (next_u64 g). Qed.

(** C40: searching for [size] bytes, more than none, at an alignment of [2^k] with a fresh
    [AslrKey] of fewer than 64 bits, in a map whose end is [2^k] or more below 2^64.  The
    search ends within two rounds whatever the random numbers are; the range found is
    aligned, has the requested size and is free, and [None] is returned only when there is
    no aligned free range of that size rounded up to whole units of the alignment, which
    is the size itself when it is a multiple of the alignment ([round_up_id]).  A range
    that ends within a unit is not found ([find_free_part]). *)
Theorem find_free_with_aslr_spec {V R} (next_u64 : R -> Z * R) (rm : RangeMap V) (k size aslr_bit : Z) (g : R) :
  wf rm -> 0 <= k < 64 -> 0 < size -> 0 <= aslr_bit < 64 ->
  0 <= rstart (range rm) <= rend (range rm) -> rend (range rm) + 2 ^ k <= 2 ^ 64 ->
  match find_free_with_aslr next_u64 2 rm (AslrKey_new next_u64 aslr_bit g (mk_layout size (2 ^ k))) with
  | Some (Some r) => rstart r mod 2 ^ k = 0 /\ rend r = rstart r + size /\ free_range rm r
  | Some None => forall b, b mod 2 ^ k = 0 -> ~ free_range rm (mk_range b (b + round_up k size))
  | None => False
  end.
Proof.
  intros. destruct (AslrKey_new_fields next_u64 aslr_bit g (mk_layout size (2 ^ k))) as (? & ? & ?).
  apply find_free_aslr_cases; try done. by apply AslrKey_new_entropy.
Qed.

(** An allocation with [allocate_with_aslr] never meets an occupied key
    (the [unreachable!] arm); filling the entry it returns keeps the invariant,
    maps exactly the requested range and leaves every other address alone. *)
Theorem allocate_with_aslr_spec {V R} (next_u64 : R -> Z * R) (rm : RangeMap V) (k n aslr_bit : Z) (g : R) (v : V) :
  wf rm -> 0 <= k < 64 -> 0 < n -> 0 <= aslr_bit < 64 ->
  0 <= rstart (range rm) <= rend (range rm) -> rend (range rm) + 2 ^ k <= 2 ^ 64 ->
  match allocate_with_aslr next_u64 2 rm
          (AslrKey_new next_u64 aslr_bit g (mk_layout (n * 2 ^ k) (2 ^ k))) with
  | Some (Ok (Some e)) =>
      wf (Entry_insert rm e v)
      /\ rend (Entry_key e) = rstart (Entry_key e) + n * 2 ^ k
      /\ forall x, at_ (Entry_insert rm e v) x = if in_range (Entry_key e) x then Some v else at_ rm x
  | Some (Ok None) => forall b, b mod 2 ^ k = 0 -> ~ free_range rm (mk_range b (b + n * 2 ^ k))
  | _ => False
  end.
Proof.
  intros Hwf ? ? ? ? ?.
  destruct (AslrKey_new_fields next_u64 aslr_bit g (mk_layout (n * 2 ^ k) (2 ^ k))) as (Hl & Hr & Hc).
  pose proof (find_free_units next_u64 rm k n _ Hwf ltac:(done) ltac:(done) ltac:(done) ltac:(done)
    Hl Hr Hc (AslrKey_new_entropy next_u64 aslr_bit g _ ltac:(done))) as Hff.
  unfold find_free_with_aslr in Hff. unfold allocate_with_aslr, allocate_with.
  destruct (find_free _ 2 rm _) as [[[r|] a']|]; simpl in Hff; [|done..].
  destruct Hff as (_ & Hsz & Hf%free_range_iff); [|done].
  unfold vacant_entry. rewrite vacant_get_None by done. simpl.
  split; [by apply insert_vacant_wf|]. split; [done|]. intros x. destruct r as [s t]. by apply (insert_vacant_at _ (mk_range s t)).
Qed.

(** ** A concrete search *)
Definition const_rng (x : Z) (u : unit) : Z * unit := (x, u).

Lemma find_free_with_aslr_spec_witness :
  wf sample /\ exists r, find_free_with_aslr (const_rng 77) 2 sample
    (AslrKey_new (const_rng 77) 3 tt (mk_layout 4 (2 ^ 2))) = Some (Some r) /\ free_range sample r.
Proof.
  assert (Hwf : wf sample) by solve_seg_wf. split; [exact Hwf|].
  pose proof (find_free_with_aslr_spec (const_rng 77) sample 2 4 3 tt Hwf
    ltac:(lia) ltac:(lia) ltac:(lia) ltac:(simpl; lia) ltac:(simpl; lia)) as H.
  eexists. split; [vm_compute; reflexivity|]. exact (proj2 (proj2 H)).
Defined.

(** Three bytes are free at an aligned address, and not found: the end of the gap is
    rounded down. *)
Example find_free_part : find_free_with_aslr (const_rng 77) 2 (new (mk_range 0 3) : RangeMap Z)
  (AslrKey_new (const_rng 77) 3 tt (mk_layout 3 4)) = Some None.
Proof. vm_compute. reflexivity. Qed.

Lemma allocate_with_aslr_spec_witness :
  wf sample /\ exists e, allocate_with_aslr (const_rng 77) 2 sample
    (AslrKey_new (const_rng 77) 3 tt (mk_layout (1 * 2 ^ 2) (2 ^ 2))) = Some (Ok (Some e))
    /\ wf (Entry_insert sample e 6).
Proof.
  assert (Hwf : wf sample) by solve_seg_wf. split; [exact Hwf|].
  pose proof (allocate_with_aslr_spec (const_rng 77) sample 2 1 3 tt 6 Hwf
    ltac:(lia) ltac:(lia) ltac:(lia) ltac:(simpl; lia) ltac:(simpl; lia)) as H.
  eexists. split; [vm_compute; reflexivity|]. exact (proj1 H).
Defined.
