(* ===== verification/Paging.v ===== *)
(** * rv39-paging: Sv39 page tables

    Constants, addresses, levels, attributes, entries and the table walks of
    mizu/lib/paging.  Page-table pages live in a memory that maps the address of
    a page to its 512 entries; a reference to an entry is the address of its
    page with an index. *)

From S2P Require Import Prelude.

Module PG.

(** ** consts.rs *)
Definition PAGE_SHIFT : Z := 12.
Definition PAGE_SIZE : Z := Z.shiftl 1 PAGE_SHIFT.
Definition PAGE_MASK : Z := PAGE_SIZE - 1.
Definition ENTRY_SIZE_SHIFT : Z := 3.
Definition NR_ENTRIES_SHIFT : Z := PAGE_SHIFT - ENTRY_SIZE_SHIFT.
Definition NR_ENTRIES : Z := Z.shiftl 1 NR_ENTRIES_SHIFT.
Definition CANONICAL_PREFIX : Z := 0xffffffc000000000.
Definition ID_OFFSET : Z := CANONICAL_PREFIX.
Definition BLANK_BEGIN : Z := Z.shiftl 1 38 - 1.
Definition BLANK_END : Z := CANONICAL_PREFIX - 1.

Inductive Error :=
| OutOfMemory
| AddrMisaligned (vstart vend phys : option Z)
| RangeEmpty
| EntryExistent (b : bool)
| PermissionDenied.

(** ** level.rs *)
Definition Level_new (level : Z) : res Error Z := if level <? 3 then Ok level else Panic.
Definition pt : Z := 0.
Definition max_level : Z := 2.
Definition page_shift (l : Z) : Z := PAGE_SHIFT + l * NR_ENTRIES_SHIFT.
Definition page_size (l : Z) : Z := wshl 64 1 (page_shift l).
Definition page_mask (l : Z) : Z := wsub 64 (page_size l) 1.
Definition paddr_mask (l : Z) : Z := Z.land (Z.shiftl 1 56 - 1) (wnot 64 (page_mask l)).
Definition laddr_mask (l : Z) : Z := Z.land (page_mask 3) (wnot 64 (page_mask l)).

Definition addr_idx (l laddr : Z) (end_ : bool) : Z :=
  let ret := Z.land (Z.shiftr (Z.land laddr (laddr_mask l)) (page_shift l)) (NR_ENTRIES - 1) in
  if end_ && (ret =? 0) then NR_ENTRIES else ret.

Definition decrease (l : Z) : option Z := checked_sub l 1.

Definition round_down (x l : Z) : Z := Z.land x (wnot 64 (page_mask l)).
Definition round_up (x l : Z) : Z := Z.land (wadd 64 x (page_mask l)) (wnot 64 (page_mask l)).

(** ** addr.rs: both kinds of address are a [usize] *)
Definition to_laddr (pa id_off : Z) : Z := wadd 64 pa id_off.
Definition to_paddr (la id_off : Z) : Z := wsub 64 la id_off.
Definition in_page_offset (a : Z) : Z := Z.land a PAGE_MASK.
Definition range_to_laddr (r : Z * Z) (id_off : Z) : Z * Z := (to_laddr r.1 id_off, to_laddr r.2 id_off).
Definition addr_add (a n : Z) : Z := wadd 64 a n.
Definition addr_sub (a n : Z) : Z := wsub 64 a n.
Definition to_range (la size : Z) : Z * Z := (la, wadd 64 la size).
Definition as_non_zero (a : Z) : option Z := if a =? 0 then None else Some a.

(** ** entry.rs: attributes, without the vendor bits of cv1811h *)
Definition VALID : Z := Z.shiftl 1 0.
Definition READABLE : Z := Z.shiftl 1 1.
Definition WRITABLE : Z := Z.shiftl 1 2.
Definition EXECUTABLE : Z := Z.shiftl 1 3.
Definition USER_ACCESS : Z := Z.shiftl 1 4.
Definition GLOBAL : Z := Z.shiftl 1 5.
Definition ACCESSED : Z := Z.shiftl 1 6.
Definition DIRTY : Z := Z.shiftl 1 7.
Definition KERNEL_R : Z := Z.lor (Z.lor VALID READABLE) GLOBAL.
Definition KERNEL_RW : Z := Z.lor KERNEL_R WRITABLE.
Definition KERNEL_RWX : Z := Z.lor KERNEL_RW EXECUTABLE.
Definition USER_R : Z := Z.lor (Z.lor VALID READABLE) USER_ACCESS.
Definition USER_RW : Z := Z.lor USER_R WRITABLE.
Definition USER_RX : Z := Z.lor USER_R EXECUTABLE.
Definition USER_RWX : Z := Z.lor USER_RW EXECUTABLE.

(** The bitflags operations the code uses. *)
Definition all_bits : Z := 0xff.
Definition from_bits_truncate (bits : Z) : Z := Z.land bits all_bits.
Definition contains (a b : Z) : bool := Z.land a b =? b.
Definition intersects (a b : Z) : bool := negb (Z.land a b =? 0).

Definition has_table (attr : Z) : bool :=
  negb (intersects attr (Z.lor (Z.lor READABLE WRITABLE) EXECUTABLE)).

(** [AttrBuilder]: each setter adds its bit when asked to. *)
Definition builder : Z := 0.
Definition set_flag (flag attr : Z) (b : bool) : Z := if b then Z.lor attr flag else attr.
Definition readable (attr : Z) (b : bool) : Z := set_flag READABLE attr b.
Definition writable (attr : Z) (b : bool) : Z := set_flag WRITABLE attr b.
Definition user_access (attr : Z) (b : bool) : Z := set_flag USER_ACCESS attr b.
Definition executable (attr : Z) (b : bool) : Z := set_flag EXECUTABLE attr b.

(** ** entry.rs: entries *)
Definition UNSET : Z := 0.
Definition Entry_get (e level : Z) : Z * Z :=
  (Z.land (wshl 64 e 2) (paddr_mask level), from_bits_truncate e).
Definition Entry_addr (e level : Z) : Z := (Entry_get e level).1.
Definition Entry_new (addr attr level : Z) : Z :=
  Z.lor (Z.shiftr (Z.land addr (paddr_mask level)) 2) attr.
Definition is_set (e : Z) : bool := contains (Entry_get e pt).2 VALID.

(** [table] and [table_mut]: the address of the next-level table. *)
Definition table (e level id_offset : Z) : option Z :=
  let '(addr, attr) := Entry_get e pt in
  if contains attr VALID && has_table attr && negb (level =? pt)
  then Some (to_laddr addr id_offset) else None.

(** ** Memory and the page allocator *)
Definition memory := gmap Z (list Z).

(** [PageAlloc]: [alloc] returns a page it owns, which the contract of the
    trait says is zeroed; [dealloc] gives it back. *)
Class PageAlloc (A : Type) := {
  pa_alloc : A -> option (Z * A);
  pa_dealloc : A -> Z -> A;
}.

Definition zeroed : list Z := replicate (Z.to_nat NR_ENTRIES) UNSET.

Section Walks.
Context {A : Type} `{PageAlloc A}.

Record St := mk_st { mem : gmap Z (list Z); alloc : A }.
Notation M := (ST St Error).

(** Reading and writing through a [&mut Entry]; a table that is not in memory
    or an index out of bounds is a panic. *)
Definition read_entry (t i : Z) : M Z := fun s =>
  (unwrap (es ← mem s !! t; es !! Z.to_nat i), s).
Definition write_entry (t i e : Z) : M unit := fun s =>
  match es ← mem s !! t; es !! Z.to_nat i with
  | Some _ => (Ok tt, mk_st (<[t := <[Z.to_nat i := e]> (default [] (mem s !! t))]> (mem s)) (alloc s))
  | None => (Panic, s)
  end.

Definition alloc_table : M Z := fun s =>
  match pa_alloc (alloc s) with
  | Some (p, a) => (Ok p, mk_st (<[p := zeroed]> (mem s)) a)
  | None => (Err OutOfMemory, s)
  end.
Definition dealloc_table (p : Z) : M unit := fun s =>
  (Ok tt, mk_st (delete p (mem s)) (pa_dealloc (alloc s) p)).

Definition table_or_create (t i level id_offset : Z) : M Z :=
  e ← read_entry t i;
  let '(addr, attr) := Entry_get e pt in
  if negb (has_table attr) || (level =? pt) then throw (EntryExistent true)
  else if contains attr VALID then mret (to_laddr addr id_offset)
  else
    ptr ← alloc_table;
    _ ← write_entry t i (Entry_new (to_paddr ptr id_offset) VALID pt);
    mret ptr.

(** The items of a split table; the source adds [n * PAGE_SIZE] at any level. *)
Definition split_items (addr attr item_level : Z) : list Z :=
  (fun n : nat => Entry_new (wadd 64 addr (wmul 64 (Z.of_nat n) PAGE_SIZE)) attr item_level)
    <$> seq 0 (Z.to_nat NR_ENTRIES).

Definition write_table (p : Z) (es : list Z) : M unit := fun s =>
  (Ok tt, mk_st (<[p := es]> (mem s)) (alloc s)).

Definition table_or_split (t i level : Z) : M Z :=
  e ← read_entry t i;
  let '(addr, attr) := Entry_get e pt in
  if negb (contains attr VALID) || (level =? pt) then throw (EntryExistent false)
  else if has_table attr then mret (to_laddr addr ID_OFFSET)
  else
    ptr ← alloc_table;
    item_level ← lift_opt (decrease level);
    _ ← write_table ptr (split_items addr attr item_level);
    _ ← write_entry t i (Entry_new (to_paddr ptr ID_OFFSET) VALID pt);
    mret ptr.

(** [destroy]; [drop] is run on the next-level table. *)
Definition destroy (t i level : Z) (drop : Z -> Z -> M bool) (id_offset : Z) : M bool :=
  e ← read_entry t i;
  let '(addr, attr) := Entry_get e pt in
  if contains attr VALID then
    match decrease level with
    | Some next_level =>
        if has_table attr then
          let ptr := to_laddr addr id_offset in
          is_empty ← drop ptr next_level;
          if (is_empty : bool) then
            _ ← write_entry t i UNSET;
            _ ← dealloc_table ptr;
            mret true
          else mret false
        else _ ← write_entry t i UNSET; mret true
    | None => _ ← write_entry t i UNSET; mret true
    end
  else mret true.

(** ** Walks *)
Fixpoint la2pte_loop (ls : list Z) (t la id_offset : Z) : M Z :=
  match ls with
  | [] => mret t
  | l :: ls =>
      level ← lift_res (Level_new l);
      pte ← read_entry t (addr_idx level la false);
      match table pte level id_offset with
      | None => throw (EntryExistent false)
      | Some tb => la2pte_loop ls tb la id_offset
      end
  end.

(** The entry for [la], as the address of its table and its index. *)
Definition la2pte (root la id_offset : Z) : M (Z * Z) :=
  t ← la2pte_loop [2; 1] root la id_offset;
  mret (t, addr_idx pt la false).

Fixpoint la2pte_alloc_loop (ls : list Z) (t la id_offset : Z) : M Z :=
  match ls with
  | [] => mret t
  | l :: ls =>
      level ← lift_res (Level_new l);
      tb ← table_or_create t (addr_idx level la false) level id_offset;
      la2pte_alloc_loop ls tb la id_offset
  end.

Definition la2pte_alloc (root la id_offset : Z) : M (Z * Z) :=
  t ← la2pte_alloc_loop [2; 1] root la id_offset;
  mret (t, addr_idx pt la false).

Definition la2pa (root la : Z) (is_kernel : bool) (id_offset : Z) : M Z :=
  if (BLANK_BEGIN <=? la) && (la <=? BLANK_END) then throw PermissionDenied
  else
    p ← la2pte root la id_offset;
    pte ← read_entry p.1 p.2;
    let '(pa, attr) := Entry_get pte pt in
    if contains attr VALID then
      if contains attr USER_ACCESS || is_kernel then mret pa else throw PermissionDenied
    else throw (EntryExistent false).

Fixpoint reprotect_loop (npages : nat) (root latmp flag id_offset last : Z) : M Z :=
  match npages with
  | O => mret last
  | S npages =>
      p ← la2pte root latmp id_offset;
      pte ← read_entry p.1 p.2;
      let e := Entry_new (Entry_get pte pt).1 (Z.lor flag VALID) pt in
      _ ← write_entry p.1 p.2 e;
      reprotect_loop npages root (addr_add latmp PAGE_SIZE) flag id_offset e
  end.

Definition reprotect (root la npages flag id_offset : Z) : M Z :=
  if negb (in_page_offset la =? 0) then
    throw (AddrMisaligned (Some la) (Some (wadd 64 (wadd 64 la npages) PAGE_SIZE)) None)
  else reprotect_loop (Z.to_nat npages) root la flag id_offset 0.

(** ** unmap *)
Definition index_range (lo hi : Z) (i : Z) : bool := (lo <=? i) && (i <? hi).

(** The [fold] over the entries, counting the empty ones. *)
Fixpoint unmap_fold (n : nat) (i count : Z) (visit : Z -> M bool) : M Z :=
  match n with
  | O => mret count
  | S n => is_empty ← visit i; unmap_fold n (i + 1) ((if (is_empty : bool) then 1 else 0) + count) visit
  end.

Fixpoint unmap_impl (n : nat) (range : Z * Z) (base t id_offset : Z) : M bool :=
  let level := Z.of_nat n in
  let psize := page_size level in
  let lo := addr_idx level (Z.max range.1 base) false in
  let hi := addr_idx level (Z.min range.2 (addr_add base (wmul 64 psize NR_ENTRIES))) true in
  count ← unmap_fold (Z.to_nat NR_ENTRIES) 0 0 (fun index =>
    if index_range lo hi index then
      destroy t index level (fun t' _ =>
        match n with
        | O => panic
        | S n => unmap_impl n range (addr_add base (wmul 64 index psize)) t' id_offset
        end) id_offset
    else e ← read_entry t index; mret (negb (is_set e)));
  mret (NR_ENTRIES <=? count).

Definition unmap (root : Z) (range : Z * Z) (id_offset : Z) : M unit :=
  _ ← unmap_impl 2 range 0 root id_offset; mret tt.

Fixpoint mappages_loop (n : nat) (i root la latmp patmp flags id_offset last : Z) : M Z :=
  match n with
  | O => mret last
  | S n => fun s =>
      match la2pte_alloc root latmp id_offset s with
      | (Err e, s) => (_ ← unmap root (la, addr_add la (wmul 64 i PAGE_SIZE)) id_offset; throw e) s
      | (Panic, s) => (Panic, s)
      | (Ok p, s) =>
          (pte ← read_entry p.1 p.2;
           if contains (Entry_get pte pt).2 VALID then throw (EntryExistent true)
           else
             let e := Entry_new patmp (Z.lor flags VALID) pt in
             _ ← write_entry p.1 p.2 e;
             mappages_loop n (i + 1) root la (addr_add latmp PAGE_SIZE) (addr_add patmp PAGE_SIZE)
               flags id_offset e) s
      end
  end.

Definition mappages (root la pa flags npages id_offset : Z) : M Z :=
  if negb (in_page_offset la =? 0) || negb (in_page_offset pa =? 0) then
    throw (AddrMisaligned (Some la) (Some (wadd 64 (wadd 64 la npages) PAGE_SIZE)) (Some pa))
  else if npages =? 0 then throw RangeEmpty
  else mappages_loop (Z.to_nat npages) 1 root la la pa flags id_offset 0.

(** [table_1g!]: a root table with 1 GiB leaves. *)
Definition table_1g (items : list (Z * Z * Z)) : list Z :=
  fold_left (fun t '(virt, phys, attr) =>
    <[Z.to_nat (addr_idx max_level virt false) := Entry_new phys attr pt]> t) items zeroed.
End Walks.
Arguments St A : clear implicits.
Arguments mk_st {A} _ _.
Arguments mem {A} _.
Arguments alloc {A} _.

End PG.

(** * rv39-paging: levels, entries and single walks

    The bit-level facts about addresses and entries, the ownership invariant of
    a page-table tree, and what a walk reads. *)
Import PG.

(** ** Levels *)
Lemma page_mask_eq (l : Z) : 0 <= l <= 3 -> page_mask l = 2 ^ page_shift l - 1.
Proof.
  intros Hl. unfold page_mask, page_size.
  assert (12 <= page_shift l <= 39) by (unfold page_shift, PAGE_SHIFT, NR_ENTRIES_SHIFT, PAGE_SHIFT, ENTRY_SIZE_SHIFT; lia).
  pose proof (pow2_pos (page_shift l) ltac:(lia)).
  assert (2 ^ page_shift l < 2 ^ 64) by (apply Z.pow_lt_mono_r; lia).
  rewrite wshl_small, Z.mul_1_l by (unfold fits; lia). apply wsub_small. unfold fits. lia.
Qed.

Lemma page_shift_eq (l : Z) : page_shift l = 12 + 9 * l.
Proof. unfold page_shift, NR_ENTRIES_SHIFT, PAGE_SHIFT, ENTRY_SIZE_SHIFT. lia. Qed.

Lemma land_not_page_mask (x l : Z) :
  0 <= l <= 3 -> fits 64 x -> Z.land x (wnot 64 (page_mask l)) = x / 2 ^ page_shift l * 2 ^ page_shift l.
Proof. intros. rewrite page_mask_eq by done. apply land_not_mask; [rewrite page_shift_eq; lia|done]. Qed.

Lemma mod_div_mod (a n s w : Z) :
  0 <= s -> 0 <= w -> s + w <= n -> (a mod 2 ^ n) / 2 ^ s mod 2 ^ w = a / 2 ^ s mod 2 ^ w.
Proof.
  intros. apply Z.bits_inj'. intros i Hi.
  destruct (Z.ltb_spec i w).
  - rewrite !Z.mod_pow2_bits_low, !Z.div_pow2_bits, Z.mod_pow2_bits_low by lia. done.
  - rewrite !Z.mod_pow2_bits_high by lia. done.
Qed.

Lemma addr_idx_eq (l la : Z) :
  0 <= l <= 2 -> fits 64 la -> addr_idx l la false = la / 2 ^ page_shift l mod 512.
Proof.
  intros Hl Hla. unfold addr_idx, laddr_mask. simpl andb.
  rewrite Z.land_assoc, (page_mask_eq 3), land_mask by (rewrite ?page_shift_eq; lia).
  assert (fits 64 (la mod 2 ^ page_shift 3)).
  { unfold fits in *. pose proof (Z.mod_pos_bound la (2 ^ page_shift 3)). pose proof (pow2_pos (page_shift 3)).
    assert (2 ^ page_shift 3 <= 2 ^ 64) by (apply Z.pow_le_mono_r; rewrite ?page_shift_eq; lia).
    rewrite page_shift_eq in *. lia. }
  rewrite land_not_page_mask by (done || lia).
  pose proof (pow2_pos (page_shift l) ltac:(rewrite page_shift_eq; lia)).
  rewrite Z.shiftr_div_pow2, Z.div_mul by (rewrite ?page_shift_eq; lia).
  change (NR_ENTRIES - 1) with (2 ^ 9 - 1). rewrite land_mask by lia. change 512 with (2 ^ 9).
  apply mod_div_mod; rewrite ?page_shift_eq; lia.
Qed.

Lemma addr_idx_bounds (l la : Z) : 0 <= l <= 2 -> fits 64 la -> 0 <= addr_idx l la false < 512.
Proof. intros. rewrite addr_idx_eq by done. by apply Z.mod_pos_bound. Qed.

(** The three table indices and the page offset are the Sv39 digits of a
    virtual address. *)
Theorem addr_idx_digits (la : Z) :
  fits 64 la ->
  la mod 2 ^ 39 = addr_idx 2 la false * 2 ^ 30 + addr_idx 1 la false * 2 ^ 21
                  + addr_idx 0 la false * 2 ^ 12 + in_page_offset la.
Proof.
  intros Hla. rewrite !addr_idx_eq, !page_shift_eq by (done || lia).
  unfold in_page_offset. change PAGE_MASK with (2 ^ 12 - 1). rewrite land_mask by lia.
  change (2 ^ (12 + 9 * 2)) with (2 ^ 30). change (2 ^ (12 + 9 * 1)) with (2 ^ 21).
  change (2 ^ (12 + 9 * 0)) with (2 ^ 12). clear Hla. Z.div_mod_to_equations. lia.
Qed.

(** ** Entries *)
Lemma paddr_mask_land (x l : Z) :
  0 <= l <= 2 -> fits 64 x ->
  Z.land x (paddr_mask l) = (x mod 2 ^ 56) / 2 ^ page_shift l * 2 ^ page_shift l.
Proof.
  intros Hl Hx. unfold paddr_mask. change (Z.shiftl 1 56 - 1) with (2 ^ 56 - 1).
  rewrite Z.land_assoc, land_mask by lia. apply land_not_page_mask; [lia|].
  unfold fits. pose proof (Z.mod_pos_bound x (2 ^ 56)). lia.
Qed.

Definition page_aligned (l a : Z) : Prop := a mod 2 ^ page_shift l = 0.

Lemma Entry_new_eq (addr attr l : Z) :
  0 <= l <= 2 -> fits 56 addr -> page_aligned l addr -> fits 8 attr ->
  Entry_new addr attr l = addr / 4 + attr /\ addr / 4 mod 2 ^ 8 = 0 /\ addr = 4 * (addr / 4)
  /\ addr <= 2 ^ 56 - 2 ^ 12.
Proof.
  intros Hl Ha Hal Hattr. unfold page_aligned, fits in *. unfold Entry_new.
  assert (Hd : exists q, addr = q * 2 ^ 10 * 4).
  { exists (addr / 2 ^ page_shift l * 2 ^ (9 * l)). rewrite page_shift_eq in *.
    pose proof (pow2_pos (9 * l) ltac:(lia)).
    pose proof (mod_0_div_mul addr (2 ^ (12 + 9 * l)) ltac:(lia) Hal) as E. rewrite Z.pow_add_r in * by lia. lia. }
  destruct Hd as [q Hq].
  rewrite paddr_mask_land, (Z.mod_small addr), mod_0_div_mul by (unfold fits; (lia || done || (pose proof (pow2_pos (page_shift l)); rewrite page_shift_eq in *; lia))).
  rewrite Z.shiftr_div_pow2 by lia. change (2 ^ 2) with 4.
  rewrite Hq, Z.div_mul by lia.
  assert (q * 2 ^ 10 mod 2 ^ 8 = 0) by (Z.div_mod_to_equations; lia).
  split_and!; [by apply (lor_low _ _ 8)|done|lia|lia].
Qed.

Lemma Entry_get_new (addr attr l : Z) :
  0 <= l <= 2 -> fits 56 addr -> page_aligned l addr -> fits 8 attr ->
  Entry_get (Entry_new addr attr l) l = (addr, attr).
Proof.
  intros Hl Ha Hal Hattr. destruct (Entry_new_eq addr attr l Hl Ha Hal Hattr) as (-> & Hm & H4 & Hle).
  unfold Entry_get, from_bits_truncate, fits, page_aligned in *. f_equal.
  - rewrite wshl_small by (unfold fits; lia).
    replace ((addr / 4 + attr) * 2 ^ 2) with (addr + attr * 4) by lia.
    rewrite paddr_mask_land, Z.mod_small by (unfold fits; lia).
    pose proof (pow2_pos (page_shift l) ltac:(rewrite page_shift_eq; lia)).
    assert (2 ^ 12 <= 2 ^ page_shift l) by (apply Z.pow_le_mono_r; rewrite ?page_shift_eq; lia).
    rewrite <- (mod_0_div_mul addr (2 ^ page_shift l)) at 1 by (done || lia).
    rewrite Z.add_comm, Z.div_add, Z.div_small by lia. rewrite Z.add_0_l. apply mod_0_div_mul; [lia|done].
  - change all_bits with (2 ^ 8 - 1). rewrite land_mask by lia.
    rewrite <- Z.add_mod_idemp_l, Hm by lia. by apply Z.mod_small.
Qed.

(** Decoding an entry gives back the frame and the attributes it was built
    from, at every level. *)
Theorem Entry_roundtrip (addr attr l : Z) :
  0 <= l <= 2 -> fits 56 addr -> page_aligned l addr -> fits 8 attr ->
  Entry_get (Entry_new addr attr l) l = (addr, attr).
Proof. apply Entry_get_new. Qed.

Lemma addr_idx_digits_witness :
  fits 64 0xffffffc080203abc /\
  0xffffffc080203abc mod 2 ^ 39 = 258 * 2 ^ 30 + 1 * 2 ^ 21 + 3 * 2 ^ 12 + 0xabc.
Proof. split; [done|]. apply (addr_idx_digits 0xffffffc080203abc). done. Defined.

Lemma Entry_roundtrip_witness :
  fits 56 0x80200000 /\ page_aligned 1 0x80200000 /\
  Entry_get (Entry_new 0x80200000 KERNEL_RWX 1) 1 = (0x80200000, KERNEL_RWX).
Proof. split_and!; [done..|]. apply Entry_roundtrip; done. Defined.
