(* ===== verification/PageTree.v ===== *)
(** * rv39-paging: the page-table tree

    The invariant of a page table in memory: every table page is owned by one
    position of the tree.  [mapped] is what the hardware walk finds for an
    address; the theorems say how [mappages], [reprotect] and [unmap] change it.
    The page allocator is used through the interface [PageAllocSpec]. *)

From S2P Require Import Prelude Paging.
Import PG.

(** ** The contract of a page allocator *)
Definition frame_ok (p : Z) : Prop := ID_OFFSET <= p < 2 ^ 64 /\ p mod 2 ^ 12 = 0.

Class PageAllocSpec (A : Type) `{PageAlloc A} := {
  pa_inv : A -> gset Z -> Prop;
  pa_alloc_spec : forall a live p a',
    pa_inv a live -> pa_alloc a = Some (p, a') -> p ∉ live /\ frame_ok p /\ pa_inv a' ({[p]} ∪ live);
  pa_dealloc_spec : forall a live p,
    pa_inv a live -> p ∈ live -> pa_inv (pa_dealloc a p) (live ∖ {[p]});
}.

(** ** Digits of a virtual address *)
Definition vpn_at (l la : Z) : Z := (la mod 2 ^ 39) / 2 ^ page_shift l.

Lemma vpn_at_step (l la : Z) :
  0 <= l <= 2 -> fits 64 la -> vpn_at l la = vpn_at (l + 1) la * 512 + addr_idx l la false.
Proof.
  intros Hl Hla. rewrite addr_idx_eq by done. unfold vpn_at.
  rewrite !page_shift_eq. replace (12 + 9 * (l + 1)) with (12 + 9 * l + 9) by lia.
  pose proof (pow2_pos (12 + 9 * l) ltac:(lia)).
  rewrite (Z.pow_add_r 2 (12 + 9 * l) 9), <- Z.div_div by lia. change 512 with (2 ^ 9).
  rewrite <- (mod_div_mod la 39 (12 + 9 * l) 9) by lia.
  rewrite (Z.mul_comm _ (2 ^ 9)). apply Z.div_mod. lia.
Qed.

Lemma vpn_at_top (la : Z) : vpn_at 3 la = 0.
Proof. unfold vpn_at. rewrite page_shift_eq. apply Z.div_small. by apply Z.mod_pos_bound. Qed.

(** ** The walk *)
Section Tree.
Context (root : Z).
Implicit Types (m : gmap Z (list Z)) (own : gmap Z (nat * Z)).

Definition entry m (t i : Z) : option Z := es ← m !! t; es !! Z.to_nat i.

(** The level and the entry at which the walk for [la] ends. *)
Fixpoint walk (n : nat) m (t la : Z) : option (nat * Z) :=
  e ← entry m t (addr_idx (Z.of_nat n) la false);
  match n with
  | O => Some (O, e)
  | S n' => match table e (Z.of_nat n) ID_OFFSET with
            | Some t' => walk n' m t' la
            | None => Some (n, e)
            end
  end.

(** What the walk finds: the level of the leaf, the frame and the attributes. *)
Definition leaf_view (r : option (nat * Z)) : option (nat * (Z * Z)) :=
  match r with
  | Some (l, e) => if is_set e then Some (l, Entry_get e pt) else None
  | None => None
  end.
Definition mapped m (la : Z) : option (nat * (Z * Z)) := leaf_view (walk 2 m root la).

(** ** The invariant

    [own] gives each table page its level and the digits of the addresses that
    reach it. *)
Record tree_ok own m : Prop := {
  t_root : own !! root = Some (2%nat, 0);
  t_range : forall t n p, own !! t = Some (n, p) -> (n <= 2)%nat /\ 0 <= p;
  t_table : forall t n p, own !! t = Some (n, p) -> exists es, m !! t = Some es /\ length es = 512%nat;
  t_child : forall t n p i e t',
    own !! t = Some (S n, p) -> 0 <= i < 512 -> entry m t i = Some e ->
    table e (Z.of_nat (S n)) ID_OFFSET = Some t' -> own !! t' = Some (n, p * 512 + i);
  t_parent : forall t' n q,
    own !! t' = Some (n, q) -> (n < 2)%nat ->
    exists t e, own !! t = Some (S n, q / 512) /\ entry m t (q mod 512) = Some e
                /\ table e (Z.of_nat (S n)) ID_OFFSET = Some t';
  t_inj : forall t1 t2 np, own !! t1 = Some np -> own !! t2 = Some np -> t1 = t2;
}.

Lemma own_entry own m t n p i :
  tree_ok own m -> own !! t = Some (n, p) -> 0 <= i < 512 -> exists e, entry m t i = Some e.
Proof.
  intros Hok Ho Hi. destruct (t_table _ _ Hok _ _ _ Ho) as (es & Hes & Hlen).
  unfold entry. rewrite Hes. simpl. apply lookup_lt_is_Some. lia.
Qed.

Lemma idx_ok (n : nat) (la : Z) :
  (n <= 2)%nat -> fits 64 la -> 0 <= addr_idx (Z.of_nat n) la false < 512.
Proof. intros. apply addr_idx_bounds; [lia|done]. Qed.

(** The child reached by [la] owns the next digits of [la]. *)
Lemma own_child own m t n la e t' :
  tree_ok own m -> fits 64 la -> own !! t = Some (S n, vpn_at (Z.of_nat (S n) + 1) la) ->
  entry m t (addr_idx (Z.of_nat (S n)) la false) = Some e ->
  table e (Z.of_nat (S n)) ID_OFFSET = Some t' ->
  own !! t' = Some (n, vpn_at (Z.of_nat n + 1) la).
Proof.
  intros Hok Hla Ho He Ht. destruct (t_range _ _ Hok _ _ _ Ho) as [Hn _].
  replace (Z.of_nat n + 1) with (Z.of_nat (S n)) by lia.
  rewrite (vpn_at_step (Z.of_nat (S n))) by (done || lia).
  eapply t_child; [done|done|by apply idx_ok|done|done].
Qed.

Lemma root_digits own m la : tree_ok own m -> own !! root = Some (2%nat, vpn_at (Z.of_nat 2 + 1) la).
Proof. intros Hok. change (Z.of_nat 2 + 1) with 3. rewrite vpn_at_top. apply Hok. Qed.

Lemma walk_S m n t la e :
  entry m t (addr_idx (Z.of_nat (S n)) la false) = Some e ->
  walk (S n) m t la = match table e (Z.of_nat (S n)) ID_OFFSET with
                      | Some t' => walk n m t' la | None => Some (S n, e) end.
Proof. intros He. cbn [walk]. by rewrite He. Qed.

Lemma walk_no_table m n t la e :
  entry m t (addr_idx (Z.of_nat n) la false) = Some e -> (n = O \/ table e (Z.of_nat n) ID_OFFSET = None) ->
  walk n m t la = Some (n, e).
Proof.
  intros He Hn. destruct n as [|n]; [cbn [walk]; by rewrite He|].
  rewrite (walk_S _ _ _ _ _ He). by destruct Hn as [?| ->].
Qed.

Lemma walk_level m n t la l e : walk n m t la = Some (l, e) -> (l <= n)%nat.
Proof.
  revert t. induction n as [|n IH]; intros t; cbn [walk]; destruct (entry m t _); simpl; try done.
  - intros [= <- _]. done.
  - destruct (table _ _ _); [|intros [= <- _]; done]. intros ?%IH. lia.
Qed.

(** In a well-formed tree the walk always ends at an entry. *)
Lemma walk_total own m n t la :
  tree_ok own m -> fits 64 la -> own !! t = Some (n, vpn_at (Z.of_nat n + 1) la) ->
  exists l e, walk n m t la = Some (l, e).
Proof.
  intros Hok Hla. revert t. induction n as [|n IH]; intros t Ho;
    destruct (t_range _ _ Hok _ _ _ Ho) as [Hn _];
    destruct (own_entry _ _ _ _ _ (addr_idx (Z.of_nat _) la false) Hok Ho (idx_ok _ _ Hn Hla)) as [e He];
    cbn [walk]; rewrite He; simpl mbind; [eauto|].
  destruct (table e _ _) as [t'|] eqn:Ht; [|eauto].
  apply IH. by eapply own_child.
Qed.

(** ** Frames: what a write to one entry leaves unchanged *)
Lemma entry_insert_eq m t es i e :
  m !! t = Some es -> (Z.to_nat i < length es)%nat -> entry (<[t := <[Z.to_nat i := e]> es]> m) t i = Some e.
Proof.
  intros Ht Hi. unfold entry. rewrite lookup_insert_eq. simpl. by apply list_lookup_insert_eq.
Qed.

Lemma entry_insert_ne m t es i e t' i' :
  m !! t = Some es -> 0 <= i -> 0 <= i' -> t' <> t \/ i' <> i ->
  entry (<[t := <[Z.to_nat i := e]> es]> m) t' i' = entry m t' i'.
Proof.
  intros Ht Hi Hi' Hne. unfold entry. destruct (Z.eq_dec t' t) as [->|].
  - rewrite lookup_insert_eq, Ht. simpl. apply list_lookup_insert_ne. lia.
  - by rewrite lookup_insert_ne.
Qed.

Lemma entry_insert_table_ne m p es t i : t <> p -> entry (<[p := es]> m) t i = entry m t i.
Proof. intros. unfold entry. by rewrite lookup_insert_ne. Qed.

(** A walk depends only on the entries it reads. *)
Lemma walk_frame own m m' n t la :
  tree_ok own m -> fits 64 la -> own !! t = Some (n, vpn_at (Z.of_nat n + 1) la) ->
  (forall t' k, own !! t' = Some (k, vpn_at (Z.of_nat k + 1) la) ->
     entry m' t' (addr_idx (Z.of_nat k) la false) = entry m t' (addr_idx (Z.of_nat k) la false)) ->
  walk n m' t la = walk n m t la.
Proof.
  intros Hok Hla Ho Hsame. revert t Ho. induction n as [|n IH]; intros t Ho; cbn [walk];
    rewrite (Hsame _ _ Ho); [done|].
  destruct (t_range _ _ Hok _ _ _ Ho) as [Hn _].
  destruct (own_entry _ _ _ _ _ (addr_idx (Z.of_nat _) la false) Hok Ho (idx_ok _ _ Hn Hla)) as [e He].
  rewrite He. simpl mbind. destruct (table e _ _) as [t'|] eqn:Ht; [|done].
  apply IH. by eapply own_child.
Qed.

Lemma walk_write_other own m n t la t0 n0 p0 i0 es e :
  tree_ok own m -> fits 64 la -> own !! t = Some (n, vpn_at (Z.of_nat n + 1) la) ->
  own !! t0 = Some (n0, p0) -> 0 <= i0 < 512 -> m !! t0 = Some es ->
  vpn_at (Z.of_nat n0) la <> p0 * 512 + i0 ->
  walk n (<[t0 := <[Z.to_nat i0 := e]> es]> m) t la = walk n m t la.
Proof.
  intros Hok Hla Ho Ho0 Hi0 Hes Hne. apply (walk_frame own); try done. intros t' k Hk.
  destruct (t_range _ _ Hok _ _ _ Hk) as [Hkn _].
  apply entry_insert_ne; [done|lia|by apply idx_ok|].
  destruct (Z.eq_dec t' t0) as [->|]; [right|by left]. rewrite Ho0 in Hk. injection Hk as -> ->.
  intros E. apply Hne. rewrite vpn_at_step by (done || lia). by rewrite E.
Qed.

Lemma walk_insert_fresh own m n t la p es :
  tree_ok own m -> fits 64 la -> own !! t = Some (n, vpn_at (Z.of_nat n + 1) la) ->
  own !! p = None -> walk n (<[p := es]> m) t la = walk n m t la.
Proof.
  intros Hok Hla Ho Hp. apply (walk_frame own); try done. intros t' k Hk.
  apply entry_insert_table_ne. intros ->. by rewrite Hp in Hk.
Qed.

Lemma vpn_digit (l la : Z) :
  0 <= l <= 2 -> fits 64 la ->
  vpn_at l la / 512 = vpn_at (l + 1) la /\ vpn_at l la mod 512 = addr_idx l la false.
Proof.
  intros Hl Hla. pose proof (vpn_at_step l la Hl Hla). pose proof (addr_idx_bounds l la Hl Hla).
  split; symmetry; [apply (Z.div_unique _ _ _ (addr_idx l la false))|apply (Z.mod_unique _ _ (vpn_at (l + 1) la))]; lia.
Qed.

(** A table that owns the digits of [la] is on the path of [la]. *)
Lemma walk_at own m la n t k t' :
  tree_ok own m -> fits 64 la -> (n <= k)%nat ->
  own !! t = Some (n, vpn_at (Z.of_nat n + 1) la) ->
  own !! t' = Some (k, vpn_at (Z.of_nat k + 1) la) ->
  walk k m t' la = walk n m t la.
Proof.
  intros Hok Hla Hnk Ho Ho'. remember (k - n)%nat as d eqn:Hd.
  revert n t Hnk Ho Hd. induction d as [|d IH]; intros n t Hnk Ho Hd.
  - assert (n = k) as -> by lia. by rewrite (t_inj _ _ Hok _ _ _ Ho Ho').
  - destruct (t_range _ _ Hok _ _ _ Ho') as [Hk _].
    destruct (t_parent _ _ Hok _ _ _ Ho) as (t1 & e & Ho1 & He & Ht); [lia|].
    replace (Z.of_nat n + 1) with (Z.of_nat (S n)) in * by lia.
    destruct (vpn_digit (Z.of_nat (S n)) la) as [E1 E2]; [lia|done|]. rewrite E1 in Ho1. rewrite E2 in He.
    rewrite (IH (S n) t1); [|lia|done|lia]. cbn [walk]. rewrite He. simpl mbind. by rewrite Ht.
Qed.

Lemma walk_root own m la n t :
  tree_ok own m -> fits 64 la -> own !! t = Some (n, vpn_at (Z.of_nat n + 1) la) ->
  walk 2 m root la = walk n m t la.
Proof.
  intros Hok Hla Ho. destruct (t_range _ _ Hok _ _ _ Ho) as [Hn _].
  by apply (walk_at own); [..|apply (root_digits own m)].
Qed.

(** ** Keeping the invariant *)
Lemma tree_ok_insert_fresh own m p es :
  tree_ok own m -> own !! p = None -> tree_ok own (<[p := es]> m).
Proof.
  intros Hok Hp.
  assert (Hne : forall t np, own !! t = Some np -> t <> p) by (intros t np Ht ->; by rewrite Hp in Ht).
  split; try apply Hok.
  - intros t n q Ht. rewrite lookup_insert_ne by (symmetry; by eapply Hne). by eapply t_table.
  - intros t n q i e t' Ht Hi. rewrite entry_insert_table_ne by by eapply Hne. by eapply t_child.
  - intros t' n q Ht' Hn. destruct (t_parent _ _ Hok _ _ _ Ht' Hn) as (t & e & Ht & He & Htab).
    exists t, e. by rewrite entry_insert_table_ne by by eapply Hne.
Qed.

(** Overwriting an entry that points to no table by one that points to none. *)
Definition no_table (n : nat) (e : Z) : Prop := n = O \/ table e (Z.of_nat n) ID_OFFSET = None.

Lemma tree_ok_write own m t n p i es e e' :
  tree_ok own m -> own !! t = Some (n, p) -> 0 <= i < 512 -> m !! t = Some es ->
  entry m t i = Some e -> no_table n e -> no_table n e' ->
  tree_ok own (<[t := <[Z.to_nat i := e']> es]> m).
Proof.
  intros Hok Ho Hi Hes He Hn Hn'.
  assert (Hlen : length es = 512%nat).
  { destruct (t_table _ _ Hok _ _ _ Ho) as (es' & Hes' & Hl). congruence. }
  split; try apply Hok.
  - intros t1 n1 p1 Ho1. destruct (Z.eq_dec t1 t) as [->|].
    + rewrite lookup_insert_eq. eexists. split; [done|]. by rewrite length_insert.
    + rewrite lookup_insert_ne by done. by eapply t_table.
  - intros t1 n1 p1 i1 e1 t' Ho1 Hi1 He1 Ht'.
    destruct (decide (t1 = t /\ i1 = i)) as [[-> ->]|Hne].
    + rewrite entry_insert_eq in He1 by (done || lia). injection He1 as <-.
      rewrite Ho in Ho1. injection Ho1 as -> ->. destruct Hn' as [|Hn']; [done|]. by rewrite Hn' in Ht'.
    + rewrite entry_insert_ne in He1 by (done || lia || tauto). by eapply t_child.
  - intros t' n1 q Ht' Hn1. destruct (t_parent _ _ Hok _ _ _ Ht' Hn1) as (t1 & e1 & Ho1 & He1 & Htab).
    exists t1, e1. split_and!; try done. pose proof (Z.mod_pos_bound q 512).
    destruct (decide (t1 = t /\ q mod 512 = i)) as [[-> Hq]|Hne].
    + rewrite Ho in Ho1. injection Ho1 as -> ->. rewrite Hq, He in He1. injection He1 as ->.
      destruct Hn as [|Hn]; [done|]. by rewrite Hn in Htab.
    + by rewrite entry_insert_ne by (done || lia || tauto).
Qed.

(** Linking a fresh zeroed table below an entry that pointed to none. *)
Lemma entry_zeroed m p i : 0 <= i < 512 -> entry (<[p := zeroed]> m) p i = Some 0.
Proof.
  intros Hi. unfold entry. rewrite lookup_insert_eq. simpl. apply lookup_replicate_2.
  change (Z.to_nat NR_ENTRIES) with 512%nat. lia.
Qed.

Lemma table_UNSET (l : Z) : table 0 l ID_OFFSET = None.
Proof. reflexivity. Qed.

Lemma tree_ok_link own m t n p i es e e' P :
  tree_ok own m -> own !! t = Some (S n, p) -> 0 <= i < 512 -> m !! t = Some es ->
  entry m t i = Some e -> table e (Z.of_nat (S n)) ID_OFFSET = None ->
  own !! P = None -> table e' (Z.of_nat (S n)) ID_OFFSET = Some P ->
  tree_ok (<[P := (n, p * 512 + i)]> own) (<[t := <[Z.to_nat i := e']> es]> (<[P := zeroed]> m)).
Proof.
  intros Hok Ho Hi Hes He Hn HP He'.
  assert (Hne : forall t np, own !! t = Some np -> t <> P) by (intros ? ? Ht ->; by rewrite HP in Ht).
  assert (HtP : t <> P) by by eapply Hne.
  assert (Hlen : length es = 512%nat).
  { destruct (t_table _ _ Hok _ _ _ Ho) as (es' & Hes' & Hl). congruence. }
  destruct (t_range _ _ Hok _ _ _ Ho) as [Hn2 Hp].
  assert (HesP : <[P := zeroed]> m !! t = Some es) by by rewrite lookup_insert_ne.
  assert (Hfree : forall t', own !! t' <> Some (n, p * 512 + i)).
  { intros t' Ht'. destruct (t_parent _ _ Hok _ _ _ Ht') as (t1 & e1 & Ho1 & He1 & Htab); [lia|].
    rewrite Z.div_add_l, Z.div_small, Z.add_0_r in Ho1 by lia.
    rewrite Z.add_comm, Z.mod_add, Z.mod_small in He1 by lia.
    rewrite (t_inj _ _ Hok _ _ _ Ho1 Ho) in He1. congruence. }
  split.
  - rewrite lookup_insert_ne; [apply Hok|]. symmetry. eapply Hne, Hok.
  - intros t1 n1 p1. rewrite lookup_insert_Some. intros [[<- [= <- <-]]|[_ Ho1]]; [lia|by eapply t_range].
  - intros t1 n1 p1. rewrite lookup_insert_Some. intros [[<- [= <- <-]]|[HP1 Ho1]].
    + rewrite lookup_insert_ne, lookup_insert_eq by done. by eexists.
    + destruct (Z.eq_dec t1 t) as [->|].
      * rewrite lookup_insert_eq. eexists. split; [done|]. by rewrite length_insert.
      * rewrite !lookup_insert_ne by done. by eapply t_table.
  - intros t1 n1 p1 i1 e1 t'. rewrite lookup_insert_Some. intros [[<- [= -> <-]]|[HP1 Ho1]] Hi1 He1 Ht'.
    + rewrite entry_insert_ne in He1 by (done || lia || (left; done)).
      rewrite entry_zeroed in He1 by done. injection He1 as <-. by rewrite table_UNSET in Ht'.
    + destruct (decide (t1 = t /\ i1 = i)) as [[-> ->]|Hne1].
      * rewrite entry_insert_eq in He1 by (done || lia). injection He1 as <-.
        rewrite Ho in Ho1. injection Ho1 as <- <-. rewrite He' in Ht'. injection Ht' as <-.
        by rewrite lookup_insert_eq.
      * rewrite entry_insert_ne, entry_insert_table_ne in He1 by (done || lia || tauto).
        rewrite lookup_insert_ne; [by eapply t_child|]. intros <-.
        pose proof (t_child _ _ Hok _ _ _ _ _ _ Ho1 Hi1 He1 Ht') as HP'. by rewrite HP in HP'.
  - intros t' n1 q. rewrite lookup_insert_Some. intros [[<- [= <- <-]]|[HP1 Ho1]] Hn1.
    + exists t, e'. rewrite Z.div_add_l, Z.div_small, Z.add_0_r by lia.
      rewrite Z.add_comm, Z.mod_add, Z.mod_small by lia. split_and!; [by rewrite lookup_insert_ne| |done].
      apply entry_insert_eq; [done|lia].
    + destruct (t_parent _ _ Hok _ _ _ Ho1 Hn1) as (t1 & e1 & Ht1 & He1 & Htab).
      exists t1, e1. pose proof (Z.mod_pos_bound q 512).
      split_and!; [rewrite lookup_insert_ne; [done|]; symmetry; by eapply Hne| |done].
      assert (t1 <> t \/ q mod 512 <> i).
      { destruct (Z.eq_dec t1 t) as [->|]; [right|by left]. intros Hq.
        rewrite Ho in Ht1. injection Ht1 as -> ->. rewrite Hq, He in He1. congruence. }
      rewrite entry_insert_ne, entry_insert_table_ne by (done || lia || by eapply Hne). done.
  - intros t1 t2 np. rewrite !lookup_insert_Some.
    intros [[<- <-]|[_ H1]] [[<- ?]|[_ H2]]; [done| | |by eapply t_inj].
    + by destruct (Hfree _ H2).
    + subst np. by destruct (Hfree _ H1).
Qed.

(** Linking an empty table under an unset entry changes no mapping. *)
Lemma mapped_link own m t n p i es e e' P la :
  tree_ok own m -> own !! t = Some (S n, p) -> 0 <= i < 512 -> m !! t = Some es ->
  entry m t i = Some e -> is_set e = false -> table e (Z.of_nat (S n)) ID_OFFSET = None ->
  own !! P = None -> table e' (Z.of_nat (S n)) ID_OFFSET = Some P -> fits 64 la ->
  mapped (<[t := <[Z.to_nat i := e']> es]> (<[P := zeroed]> m)) la = mapped m la.
Proof.
  intros Hok Ho Hi Hes He Hset Hn HP He' Hla. unfold mapped.
  assert (HtP : t <> P) by (intros ->; congruence).
  destruct (t_range _ _ Hok _ _ _ Ho) as [Hn2 Hp].
  pose proof (tree_ok_link own m t n p i es e e' P Hok Ho Hi Hes He Hn HP He') as Hok'.
  destruct (Z.eq_dec (vpn_at (Z.of_nat (S n)) la) (p * 512 + i)) as [Heq|Hne].
  - pose proof (vpn_digit (Z.of_nat (S n)) la ltac:(lia) Hla) as [Hd1 Hd2].
    rewrite Heq in Hd1, Hd2.
    rewrite Z.div_add_l, Z.div_small, Z.add_0_r in Hd1 by lia.
    rewrite Z.add_comm, Z.mod_add, Z.mod_small in Hd2 by lia. subst i p.
    rewrite (walk_root _ _ _ _ _ Hok Hla Ho), (walk_no_table _ _ _ _ _ He) by by right.
    rewrite (walk_root _ _ la n P Hok' Hla)
      by (rewrite lookup_insert_eq; repeat f_equal; rewrite <- Heq; f_equal; lia).
    rewrite (walk_no_table _ _ _ _ 0); [simpl; by rewrite Hset| |by right].
    rewrite entry_insert_table_ne by done. apply entry_zeroed, idx_ok; [lia|done].
  - rewrite (walk_write_other own _ 2 root la t (S n) p i es e').
    + by rewrite (walk_insert_fresh own) by (done || by apply (root_digits own m)).
    + by apply tree_ok_insert_fresh.
    + done.
    + by apply (root_digits own m).
    + done.
    + done.
    + by rewrite lookup_insert_ne.
    + done.
Qed.

(** Unlinking a table whose entries point to no table. *)
Lemma entry_delete_ne m p t i : t <> p -> entry (delete p m) t i = entry m t i.
Proof. intros. unfold entry. by rewrite lookup_delete_ne. Qed.

Lemma tree_ok_unlink own m t n p i es t' :
  tree_ok own m -> own !! t = Some (S n, p) -> 0 <= i < 512 -> m !! t = Some es ->
  own !! t' = Some (n, p * 512 + i) ->
  (forall j e, 0 <= j < 512 -> entry m t' j = Some e -> no_table n e) ->
  tree_ok (delete t' own) (delete t' (<[t := <[Z.to_nat i := 0]> es]> m)).
Proof.
  intros Hok Ho Hi Hes Ho' Hall.
  assert (Htt : t <> t') by (intros ->; rewrite Ho in Ho'; injection Ho'; lia).
  assert (Hlen : length es = 512%nat).
  { destruct (t_table _ _ Hok _ _ _ Ho) as (es' & Hes' & Hl). congruence. }
  destruct (t_range _ _ Hok _ _ _ Ho) as [Hn2 Hp].
  split.
  - rewrite lookup_delete_ne; [apply Hok|]. intros ->. rewrite (t_root _ _ Hok) in Ho'.
    injection Ho' as <- _. lia.
  - intros t1 n1 p1 [_ Ho1]%lookup_delete_Some. by eapply t_range.
  - intros t1 n1 p1 [Hne Ho1]%lookup_delete_Some. rewrite lookup_delete_ne by done.
    destruct (Z.eq_dec t1 t) as [->|].
    + rewrite lookup_insert_eq. eexists. split; [done|]. by rewrite length_insert.
    + rewrite lookup_insert_ne by done. by eapply t_table.
  - intros t1 n1 p1 i1 e1 t2 [Hne Ho1]%lookup_delete_Some Hi1 He1 Ht2.
    rewrite entry_delete_ne in He1 by done.
    destruct (decide (t1 = t /\ i1 = i)) as [[-> ->]|Hne1].
    + rewrite entry_insert_eq in He1 by (done || lia). injection He1 as <-. by rewrite table_UNSET in Ht2.
    + rewrite entry_insert_ne in He1 by (done || lia || tauto).
      pose proof (t_child _ _ Hok _ _ _ _ _ _ Ho1 Hi1 He1 Ht2) as Ho2.
      rewrite lookup_delete_ne; [done|]. intros <-. rewrite Ho' in Ho2. injection Ho2 as <- Hq.
      assert (p1 = p /\ i1 = i) as [-> ->] by lia.
      destruct Hne1. split; [|done]. by eapply t_inj.
  - intros t2 n1 q [Hne Ho2]%lookup_delete_Some Hn1.
    destruct (t_parent _ _ Hok _ _ _ Ho2 Hn1) as (t1 & e1 & Ho1 & He1 & Htab).
    pose proof (Z.mod_pos_bound q 512). exists t1, e1.
    assert (t1 <> t').
    { intros ->. rewrite Ho' in Ho1. injection Ho1 as -> _.
      destruct (Hall (q mod 512) e1 ltac:(lia) He1) as [|Hno]; [done|]. by rewrite Hno in Htab. }
    assert (t1 <> t \/ q mod 512 <> i).
    { destruct (Z.eq_dec t1 t) as [->|]; [right|by left]. intros Hq.
      rewrite Ho in Ho1. injection Ho1 as <- ->.
      assert (q = q / 512 * 512 + i) as Hq2 by (pose proof (Z.div_mod q 512); lia).
      rewrite Hq2 in Ho2 at 1. apply Hne. by eapply t_inj. }
    split_and!; [by rewrite lookup_delete_ne| |done].
    rewrite entry_delete_ne, entry_insert_ne by (done || lia). done.
  - intros t1 t2 np [_ H1]%lookup_delete_Some [_ H2]%lookup_delete_Some. by eapply t_inj.
Qed.
End Tree.

(** ** The operations on a state *)
Section Ops.
Context {A : Type} `{PageAllocSpec A} (root : Z).
Implicit Types (s : St A) (own : gmap Z (nat * Z)) (live : gset Z).

Definition inv own live s : Prop :=
  tree_ok root own (mem s) /\ pa_inv (alloc s) live /\ dom own ⊆ live.

Lemma read_entry_eq s t i : read_entry t i s = (unwrap (entry (mem s) t i), s).
Proof. done. Qed.

Lemma write_entry_eq s t i e es e0 :
  mem s !! t = Some es -> entry (mem s) t i = Some e0 ->
  write_entry t i e s = (Ok tt, mk_st (<[t := <[Z.to_nat i := e]> es]> (mem s)) (alloc s)).
Proof. intros Hes He. unfold write_entry. unfold entry in He. by rewrite He, Hes. Qed.

(** The decoded view of [table]. *)
Lemma table_Some_iff e l t :
  table e l ID_OFFSET = Some t <->
  contains (Entry_get e pt).2 VALID = true /\ has_table (Entry_get e pt).2 = true /\ l <> 0
  /\ t = to_laddr (Entry_get e pt).1 ID_OFFSET.
Proof.
  unfold table. destruct (Entry_get e pt) as [a at_]; simpl.
  destruct (contains at_ VALID), (has_table at_); simpl; try naive_solver.
  change pt with 0. destruct (Z.eqb_spec l 0); simpl; naive_solver.
Qed.

(** The entry built for a fresh table page points to that page. *)
Lemma table_link p l : frame_ok p -> l <> 0 -> table (Entry_new (to_paddr p ID_OFFSET) VALID pt) l ID_OFFSET = Some p.
Proof.
  intros [Hp Hal] Hl. unfold to_paddr.
  rewrite wsub_small by (unfold fits, ID_OFFSET, CANONICAL_PREFIX in *; lia).
  assert (page_aligned pt (p - ID_OFFSET)).
  { unfold page_aligned. change (page_shift pt) with 12. rewrite Zminus_mod, Hal. reflexivity. }
  apply table_Some_iff. rewrite Entry_get_new; [|done..|unfold fits, ID_OFFSET, CANONICAL_PREFIX in *; lia|done|done].
  split_and!; try done. simpl. unfold to_laddr.
  rewrite wadd_small; [lia|]. unfold fits, ID_OFFSET, CANONICAL_PREFIX in *. lia.
Qed.

(** The levels a walk goes through from level [n] down to a last-level table. *)
Fixpoint levels (n : nat) : list Z :=
  match n with O => [] | S n' => Z.of_nat n :: levels n' end.

Lemma Level_new_ok (n : nat) : (n <= 2)%nat -> Level_new (Z.of_nat n) = Ok (Z.of_nat n).
Proof. intros. unfold Level_new. by rewrite (proj2 (Z.ltb_lt _ _)) by lia. Qed.

Lemma la2pte_loop_cases own s la n t :
  tree_ok root own (mem s) -> fits 64 la -> own !! t = Some (n, vpn_at (Z.of_nat n + 1) la) ->
  (exists t0, la2pte_loop (levels n) t la ID_OFFSET s = (Ok t0, s)
     /\ own !! t0 = Some (O, vpn_at 1 la) /\ walk n (mem s) t la = walk 0 (mem s) t0 la)
  \/ (la2pte_loop (levels n) t la ID_OFFSET s = (Err (EntryExistent false), s)
      /\ exists l e, walk n (mem s) t la = Some (S l, e)).
Proof.
  intros Hok Hla. revert t. induction n as [|n IH]; intros t Ho; [left; by exists t|].
  destruct (t_range _ _ _ Hok _ _ _ Ho) as [Hn _].
  destruct (own_entry _ _ _ _ _ _ (addr_idx (Z.of_nat (S n)) la false) Hok Ho (idx_ok _ la Hn Hla)) as [e He].
  rewrite (walk_S _ _ _ _ _ He). cbn [levels la2pte_loop].
  erewrite ST_bind_Ok by (unfold lift_res; by rewrite Level_new_ok).
  erewrite ST_bind_Ok by (rewrite read_entry_eq, He; done).
  destruct (table e (Z.of_nat (S n)) ID_OFFSET) as [t'|] eqn:Ht; [|right; split; [done|eauto]].
  apply IH. by eapply own_child.
Qed.

(** The entry [la2pte] finds is where the walk ends; it fails only when the
    walk ends above the last level. *)
Lemma la2pte_cases own s la :
  tree_ok root own (mem s) -> fits 64 la ->
  (exists t e, la2pte root la ID_OFFSET s = (Ok (t, addr_idx pt la false), s)
     /\ own !! t = Some (O, vpn_at 1 la) /\ entry (mem s) t (addr_idx pt la false) = Some e
     /\ walk 2 (mem s) root la = Some (O, e))
  \/ (la2pte root la ID_OFFSET s = (Err (EntryExistent false), s)
      /\ exists l e, walk 2 (mem s) root la = Some (S l, e)).
Proof.
  intros Hok Hla. unfold la2pte. change [2; 1] with (levels 2).
  destruct (la2pte_loop_cases own s la 2 root Hok Hla (root_digits _ _ _ la Hok))
    as [(t & E & Ho & Hw)|(E & Hw)]; [left|right]; st_step E; [|done].
  destruct (own_entry _ _ _ _ _ _ (addr_idx 0 la false) Hok Ho (idx_ok 0 la ltac:(lia) Hla)) as [e He].
  exists t, e. split_and!; [done..|]. rewrite Hw. by apply (walk_no_table _ 0); [|left].
Qed.

(** [table_or_create] returns the next table; a table it adds changes no mapping. *)
Lemma table_or_create_cases own live s t n la :
  inv own live s -> fits 64 la -> own !! t = Some (S n, vpn_at (Z.of_nat (S n) + 1) la) ->
  let i := addr_idx (Z.of_nat (S n)) la false in
  (exists t' own' live' s', table_or_create t i (Z.of_nat (S n)) ID_OFFSET s = (Ok t', s')
     /\ inv own' live' s' /\ own ⊆ own' /\ own' !! t' = Some (n, vpn_at (Z.of_nat n + 1) la)
     /\ forall x, fits 64 x -> mapped root (mem s') x = mapped root (mem s) x)
  \/ (exists e, table_or_create t i (Z.of_nat (S n)) ID_OFFSET s = (Err e, s)
       /\ (e = OutOfMemory \/ e = EntryExistent true)).
Proof.
  intros (Hok & Hpa & Hlive) Hla Ho i. destruct (t_range _ _ _ Hok _ _ _ Ho) as [Hn _].
  assert (Hi : 0 <= i < 512) by by apply idx_ok.
  destruct (own_entry _ _ _ _ _ _ i Hok Ho Hi) as [e He].
  destruct (t_table _ _ _ Hok _ _ _ Ho) as (es & Hes & Hlen).
  unfold table_or_create. erewrite ST_bind_Ok by (rewrite read_entry_eq, He; done).
  destruct (Entry_get e pt) as [a attr] eqn:Eg.
  destruct (has_table attr) eqn:Eh; [|right; eexists; split; [done|by right]].
  change pt with 0. rewrite (proj2 (Z.eqb_neq (Z.of_nat (S n)) 0)) by lia. simpl orb. cbv iota.
  destruct (contains attr VALID) eqn:Ev.
  { left. exists (to_laddr a ID_OFFSET), own, live, s. split_and!; try done.
    eapply own_child; [done|done|done|exact He|]. apply table_Some_iff. by rewrite Eg. }
  destruct (pa_alloc (PG.alloc s)) as [[p a']|] eqn:Ea.
  2:{ right. eexists. split; [|by left]. apply ST_bind_Err. unfold alloc_table. by rewrite Ea. }
  destruct (pa_alloc_spec _ _ _ _ Hpa Ea) as (Hfresh & Hfr & Hpa').
  assert (Hpo : own !! p = None) by (apply not_elem_of_dom; set_solver).
  assert (Hset : is_set e = false) by (unfold is_set; by rewrite Eg).
  assert (Hnt : table e (Z.of_nat (S n)) ID_OFFSET = None) by (unfold table; by rewrite Eg, Ev).
  pose proof (table_link p (Z.of_nat (S n)) Hfr ltac:(lia)) as Hlk.
  left. exists p, (<[p := (n, vpn_at (Z.of_nat (S n) + 1) la * 512 + i)]> own), ({[p]} ∪ live).
  exists (mk_st (<[t := <[Z.to_nat i := Entry_new (to_paddr p ID_OFFSET) VALID pt]> es]> (<[p := zeroed]> (mem s))) a').
  split; [|split; [split; [|split]|split_and!]].
  - eapply eq_trans; [eapply ST_bind_Ok; unfold alloc_table; by rewrite Ea|].
    eapply eq_trans; [eapply ST_bind_Ok|done]. apply (write_entry_eq (mk_st _ _) _ _ _ es e); simpl.
    + rewrite lookup_insert_ne; [done|]. intros ->. congruence.
    + rewrite entry_insert_table_ne; [done|]. intros ->. congruence.
  - by apply (tree_ok_link root own (mem s) t n _ i es e).
  - done.
  - rewrite dom_insert_L. set_solver.
  - by apply insert_subseteq.
  - rewrite lookup_insert_eq. repeat f_equal. unfold i. rewrite <- vpn_at_step by (done || lia). f_equal. lia.
  - intros x Hx. by apply (mapped_link root own (mem s) t n (vpn_at (Z.of_nat (S n) + 1) la) i es e).
Qed.

Lemma la2pte_alloc_loop_cases own live s la n t :
  inv own live s -> fits 64 la -> own !! t = Some (n, vpn_at (Z.of_nat n + 1) la) ->
  exists own' live' s', inv own' live' s' /\ (forall x, fits 64 x -> mapped root (mem s') x = mapped root (mem s) x)
    /\ ((exists t0, la2pte_alloc_loop (levels n) t la ID_OFFSET s = (Ok t0, s') /\ own' !! t0 = Some (O, vpn_at 1 la))
        \/ exists e, la2pte_alloc_loop (levels n) t la ID_OFFSET s = (Err e, s')
                    /\ (e = OutOfMemory \/ e = EntryExistent true)).
Proof.
  intros Hinv Hla. revert own live s t Hinv. induction n as [|n IH]; intros own live s t Hinv Ho.
  { exists own, live, s. split_and!; [done..|left]. by exists t. }
  destruct (t_range _ _ _ (proj1 Hinv) _ _ _ Ho) as [Hn _]. cbn [levels la2pte_alloc_loop].
  erewrite ST_bind_Ok by (unfold lift_res; by rewrite Level_new_ok).
  destruct (table_or_create_cases own live s t n la Hinv Hla Ho)
    as [(t' & own1 & live1 & s1 & E & Hinv1 & _ & Ho1 & Hm)|(e & E & He)].
  - rewrite (ST_bind_Ok _ _ _ _ _ E). destruct (IH own1 live1 s1 t' Hinv1 Ho1) as (own2 & live2 & s2 & Hinv2 & Hm2 & Hr).
    exists own2, live2, s2. split_and!; [done| |done]. intros x Hx. by rewrite Hm2, Hm.
  - rewrite (ST_bind_Err _ _ _ _ _ E). exists own, live, s. split_and!; [done..|right]. by exists e.
Qed.

(** [la2pte_alloc] ends at the last-level entry of the address; the tables it
    creates, also on the error paths, change no mapping. *)
Lemma la2pte_alloc_cases own live s la :
  inv own live s -> fits 64 la ->
  exists own' live' s', inv own' live' s' /\ (forall x, fits 64 x -> mapped root (mem s') x = mapped root (mem s) x)
    /\ ((exists t, la2pte_alloc root la ID_OFFSET s = (Ok (t, addr_idx pt la false), s')
                  /\ own' !! t = Some (O, vpn_at 1 la))
        \/ exists e, la2pte_alloc root la ID_OFFSET s = (Err e, s') /\ (e = OutOfMemory \/ e = EntryExistent true)).
Proof.
  intros Hinv Hla. unfold la2pte_alloc. change [2; 1] with (levels 2).
  destruct (la2pte_alloc_loop_cases own live s la 2 root Hinv Hla (root_digits _ _ _ la (proj1 Hinv)))
    as (own' & live' & s' & Hinv' & Hm & [(t & E & Ho)|(e & E & He)]); exists own', live', s'; split_and!; try done.
  - left. exists t. by rewrite (ST_bind_Ok _ _ _ _ _ E).
  - right. exists e. by rewrite (ST_bind_Err _ _ _ _ _ E).
Qed.

(** Two addresses on one page have the same page number. *)
Lemma vpn_page (x la : Z) :
  fits 64 x -> fits 64 la ->
  vpn_at 0 x = vpn_at 0 la -> vpn_at 1 x = vpn_at 1 la /\ addr_idx pt x false = addr_idx pt la false.
Proof.
  intros Hx Hla E. destruct (vpn_digit 0 x ltac:(lia) Hx) as [H1 H2].
  destruct (vpn_digit 0 la ltac:(lia) Hla) as [H3 H4]. change (0 + 1) with 1 in *. change pt with 0.
  by rewrite <- H1, <- H2, <- H3, <- H4, E.
Qed.

Lemma walk_leaf own m t la e :
  tree_ok root own m -> fits 64 la -> own !! t = Some (O, vpn_at 1 la) ->
  entry m t (addr_idx pt la false) = Some e -> walk 2 m root la = Some (O, e).
Proof.
  intros Hok Hla Ho He. rewrite (walk_root _ _ _ la O t Hok Hla Ho).
  by apply (walk_no_table _ 0); [|left].
Qed.

(** Writing a last-level entry changes the walk of its page only. *)
Lemma write_leaf_walk own live s t la e :
  inv own live s -> fits 64 la -> own !! t = Some (O, vpn_at 1 la) ->
  exists s', write_entry t (addr_idx pt la false) e s = (Ok tt, s') /\ inv own live s'
    /\ forall x, fits 64 x -> walk 2 (mem s') root x =
         if vpn_at 0 x =? vpn_at 0 la then Some (O, e) else walk 2 (mem s) root x.
Proof.
  intros (Hok & Hpa & Hlive) Hla Ho.
  assert (Hi : 0 <= addr_idx pt la false < 512) by (apply (idx_ok 0); [lia|done]).
  destruct (own_entry _ _ _ _ _ _ _ Hok Ho Hi) as [e0 He0].
  destruct (t_table _ _ _ Hok _ _ _ Ho) as (es & Hes & Hlen).
  assert (Hok' : tree_ok root own (<[t := <[Z.to_nat (addr_idx pt la false) := e]> es]> (mem s)))
    by (by eapply tree_ok_write; [..|left|left]).
  eexists. split; [by apply write_entry_eq with e0|]. split; [done|]. simpl mem. intros x Hx.
  destruct (Z.eqb_spec (vpn_at 0 x) (vpn_at 0 la)) as [Heq|Hne].
  - destruct (vpn_page x la Hx Hla Heq) as [H1 H2].
    apply (walk_leaf own _ t x e); [done|done|by rewrite H1|]. rewrite H2.
    apply entry_insert_eq; [done|lia].
  - apply (walk_write_other root own _ 2 root x t O (vpn_at 1 la)); try done.
    + by apply (root_digits root own (mem s)).
    + change (Z.of_nat 0) with 0. by rewrite (vpn_at_step 0 la) in Hne by (done || lia).
Qed.

Lemma write_leaf own live s t la e :
  inv own live s -> fits 64 la -> own !! t = Some (O, vpn_at 1 la) ->
  exists s', write_entry t (addr_idx pt la false) e s = (Ok tt, s') /\ inv own live s'
    /\ forall x, fits 64 x -> mapped root (mem s') x =
         if vpn_at 0 x =? vpn_at 0 la then leaf_view (Some (O, e)) else mapped root (mem s) x.
Proof.
  intros Hinv Hla Ho. destruct (write_leaf_walk own live s t la e Hinv Hla Ho) as (s' & E & Hinv' & Hw).
  exists s'. split; [done|]. split; [done|]. intros x Hx. unfold mapped. rewrite Hw by done. by destruct (_ =? _).
Qed.
End Ops.

(** ** An empty address space *)
Lemma entry_empty root i : 0 <= i < 512 -> entry {[root := zeroed]} root i = Some 0.
Proof. intros Hi. rewrite <- insert_empty. by apply entry_zeroed. Qed.

Lemma tree_ok_empty root : tree_ok root {[root := (2%nat, 0)]} {[root := zeroed]}.
Proof.
  split.
  - apply lookup_singleton_eq.
  - intros t n p [_ [= <- <-]]%lookup_singleton_Some. done.
  - intros t n p [<- [= <- <-]]%lookup_singleton_Some. exists zeroed. by rewrite lookup_singleton_eq.
  - intros t n p i e t' [<- [= <- <-]]%lookup_singleton_Some Hi. rewrite entry_empty by done.
    intros [= <-]. by rewrite table_UNSET.
  - intros t' n q [_ [= <- <-]]%lookup_singleton_Some. lia.
  - intros t1 t2 np [<- _]%lookup_singleton_Some [<- _]%lookup_singleton_Some. done.
Qed.

Lemma mapped_fresh root x : fits 64 x -> mapped root {[root := zeroed]} x = None.
Proof.
  intros Hx. unfold mapped. rewrite (walk_no_table _ _ _ _ 0); [done| |by right].
  apply entry_empty, idx_ok; [lia|done].
Qed.

(** A bump allocator over the identity-mapped memory, the simplest allocator
    that meets the contract. *)
Record Bump := bump { next : Z }.

#[export] Instance Bump_alloc : PageAlloc Bump := {
  pa_alloc a := if next a <? 2 ^ 64 then Some (next a, bump (next a + 2 ^ 12)) else None;
  pa_dealloc a _ := a;
}.

#[export] Program Instance Bump_spec : PageAllocSpec Bump := {
  pa_inv a live := ID_OFFSET <= next a /\ next a mod 2 ^ 12 = 0 /\ forall p, p ∈ live -> p < next a;
}.
Next Obligation.
  intros a live p a' (Hlo & Hal & Hlive). simpl. destruct (Z.ltb_spec (next a) (2 ^ 64)); [|done].
  intros [= <- <-]. split_and!; simpl.
  - intros ?%Hlive. lia.
  - unfold frame_ok. lia.
  - lia.
  - rewrite <- Hal. replace (next a + 2 ^ 12) with (next a + 1 * 2 ^ 12) by lia. by rewrite Z.mod_add.
  - intros q [->%elem_of_singleton|Hq%Hlive]%elem_of_union; lia.
Qed.
Next Obligation.
  intros a live p (Hlo & Hal & Hlive) _. simpl. split_and!; [done..|].
  intros q [Hq _]%elem_of_difference. by apply Hlive.
Qed.

(** The state with an empty root table at the start of the identity mapping. *)
Definition empty_space : St Bump := mk_st {[ID_OFFSET := zeroed]} (bump (ID_OFFSET + 2 ^ 12)).

Lemma empty_space_inv : inv ID_OFFSET {[ID_OFFSET := (2%nat, 0)]} {[ID_OFFSET]} empty_space.
Proof.
  split; [apply tree_ok_empty|]. split; [|by rewrite dom_singleton_L].
  split_and!; [done|done|]. intros p ->%elem_of_singleton. reflexivity.
Qed.
