(* ===== verification/PageUnmap.v ===== *)
(** * rv39-paging: unmapping

    [unmap_impl] visits a range of entries of each table and frees a table when
    none of its entries is set.  [gone] says which leaves the visit removes; the
    invariant of the tree is kept and every other mapping stays. *)

From S2P Require Import Prelude Paging PageTree.
Import PG.

(** The leaf of level [l] for [x] is removed by [unmap_impl n range base]. *)
Fixpoint gone (n : nat) (range : Z * Z) (base x : Z) (l : nat) : bool :=
  let level := Z.of_nat n in
  let i := addr_idx level x false in
  index_range (addr_idx level (Z.max range.1 base) false)
    (addr_idx level (Z.min range.2 (addr_add base (wmul 64 (page_size level) NR_ENTRIES))) true) i
  && (Nat.eqb l n
      || match n with
         | O => false
         | S n' => gone n' range (addr_add base (wmul 64 i (page_size level))) x l
         end).

Lemma gone_S n range base x l :
  gone (S n) range base x l =
  let level := Z.of_nat (S n) in
  let i := addr_idx level x false in
  index_range (addr_idx level (Z.max range.1 base) false)
    (addr_idx level (Z.min range.2 (addr_add base (wmul 64 (page_size level) NR_ENTRIES))) true) i
  && (Nat.eqb l (S n) || gone n range (addr_add base (wmul 64 i (page_size level))) x l).
Proof. reflexivity. Qed.

Definition cut (g : nat -> bool) (r : option (nat * (Z * Z))) : option (nat * (Z * Z)) :=
  match r with Some (l, v) => if g l then None else Some (l, v) | None => None end.

Section Unmap.
Context {A : Type} `{PageAllocSpec A} (root : Z).
Implicit Types (s : St A) (own : gmap Z (nat * Z)) (live : gset Z).

(** The effect of a visit at level [n]: tables of level at least [n] stay, only
    the entries [may] allows change in them, and the leaves in [g] are removed. *)
Record effect (n : nat) (may : Z -> Z -> Prop) (g : Z -> nat -> bool) own s own' live' s' : Prop := {
  e_inv : inv root own' live' s';
  e_sub : own' ⊆ own;
  e_keep : forall t k q, own !! t = Some (k, q) -> (n <= k)%nat -> own' !! t = Some (k, q);
  e_frame : forall t k q j, own !! t = Some (k, q) -> (n <= k)%nat -> 0 <= j < 512 -> ~ may t j ->
    entry (mem s') t j = entry (mem s) t j;
  e_map : forall x, fits 64 x -> mapped root (mem s') x = cut (g x) (mapped root (mem s) x);
}.

Lemma effect_refl n may g own live s :
  inv root own live s ->
  (forall x l v, fits 64 x -> mapped root (mem s) x = Some (l, v) -> g x l = false) ->
  effect n may g own s own live s.
Proof.
  intros Hinv Hg. split; try done. intros x Hx. unfold cut.
  destruct (mapped root (mem s) x) as [[l v]|] eqn:E; [|done]. by rewrite (Hg x l v).
Qed.

Lemma effect_trans n may g1 g2 own s own1 live1 s1 own2 live2 s2 :
  effect n may g1 own s own1 live1 s1 -> effect n may g2 own1 s1 own2 live2 s2 ->
  effect n may (fun x l => g1 x l || g2 x l) own s own2 live2 s2.
Proof.
  intros [I1 S1 K1 F1 M1] [I2 S2 K2 F2 M2]. split; [done|by etrans|eauto| |].
  - intros t k q j Ho Hk Hj Hm. by rewrite (F2 t k q j), (F1 t k q j) by eauto.
  - intros x Hx. rewrite M2, M1 by done. unfold cut.
    destruct (mapped root (mem s) x) as [[l v]|]; [|done]. by destruct (g1 x l), (g2 x l).
Qed.

Lemma effect_weaken n n' (may may' : Z -> Z -> Prop) g g' own s own' live' s' :
  effect n may g own s own' live' s' -> (n <= n')%nat ->
  (forall t k q j, own !! t = Some (k, q) -> (n' <= k)%nat -> may t j -> may' t j) ->
  (forall x l v, fits 64 x -> mapped root (mem s) x = Some (l, v) -> g x l = g' x l) ->
  effect n' may' g' own s own' live' s'.
Proof.
  intros [I S K F M] Hn Hm Hg. split; [done|done| | |].
  - intros t k q Ho Hk. apply K; [done|lia].
  - intros t k q j Ho Hk Hj Hno. apply (F t k q); [done|lia|done|]. eauto.
  - intros x Hx. rewrite M by done. unfold cut.
    destruct (mapped root (mem s) x) as [[l v]|] eqn:E; [|done]. by rewrite (Hg x l v).
Qed.

(** ** The steps of one visit *)
Definition under (n : nat) (x q : Z) : bool := vpn_at (Z.of_nat n) x =? q.

Lemma under_digits n x p i :
  (n <= 2)%nat -> fits 64 x -> 0 <= i < 512 -> under n x (p * 512 + i) = true ->
  vpn_at (Z.of_nat n + 1) x = p /\ addr_idx (Z.of_nat n) x false = i.
Proof.
  intros Hn Hx Hi Hu%Z.eqb_eq. destruct (vpn_digit (Z.of_nat n) x ltac:(lia) Hx) as [H1 H2].
  rewrite Hu in H1, H2. rewrite Z.div_add_l, Z.div_small, Z.add_0_r in H1 by lia.
  by rewrite Z.add_comm, Z.mod_add, Z.mod_small in H2 by lia.
Qed.

Lemma walk_under own m n t p i e x :
  tree_ok root own m -> own !! t = Some (n, p) -> 0 <= i < 512 -> entry m t i = Some e ->
  no_table n e -> fits 64 x -> under n x (p * 512 + i) = true -> walk 2 m root x = Some (n, e).
Proof.
  intros Hok Ho Hi He Hno Hx Hu. destruct (t_range _ _ _ Hok _ _ _ Ho) as [Hn _].
  destruct (under_digits n x p i Hn Hx Hi Hu) as [H1 H2].
  rewrite (walk_root _ _ _ x n t Hok Hx) by by rewrite H1. apply walk_no_table; [by rewrite H2|done].
Qed.

Lemma not_set_no_table n e : is_set e = false -> no_table n e.
Proof.
  intros E. right. unfold is_set in E. unfold table. destruct (Entry_get e pt). simpl in E. by rewrite E.
Qed.

(** Resetting an entry that is a leaf or unset. *)
Lemma reset_effect own live s n t p i e :
  inv root own live s -> own !! t = Some (n, p) -> 0 <= i < 512 -> entry (mem s) t i = Some e -> no_table n e ->
  exists s', write_entry t i UNSET s = (Ok tt, s') /\ entry (mem s') t i = Some 0
    /\ effect n (fun t' j => t' = t /\ j = i) (fun x l => under n x (p * 512 + i)) own s own live s'.
Proof.
  intros (Hok & Hpa & Hlive) Ho Hi He Hno. destruct (t_table _ _ _ Hok _ _ _ Ho) as (es & Hes & Hlen).
  eexists. split; [by apply write_entry_eq with e|]. simpl mem.
  assert (He' : entry (<[t := <[Z.to_nat i := UNSET]> es]> (mem s)) t i = Some 0)
    by (apply entry_insert_eq; [done|lia]).
  split; [done|].
  assert (Hok' : tree_ok root own (<[t := <[Z.to_nat i := UNSET]> es]> (mem s)))
    by (eapply tree_ok_write; try done; by right).
  split; simpl; try done.
  - intros t' k q j Ho' Hk Hj Hm. apply entry_insert_ne; [done|lia|lia|]. destruct (Z.eq_dec t' t); [right|by left].
    intros ->. by apply Hm.
  - intros x Hx. unfold mapped. destruct (under n x (p * 512 + i)) eqn:Hu.
    + rewrite (walk_under own _ n t p i 0 x Hok' Ho Hi He') by (done || by right).
      unfold cut. simpl. by destruct (leaf_view _) as [[? ?]|].
    + pose proof (root_digits root own (mem s) x Hok). apply Z.eqb_neq in Hu.
      rewrite (walk_write_other root own _ 2 root x t n p i es UNSET) by done.
      unfold cut. by destruct (leaf_view _) as [[? ?]|].
Qed.

Lemma mapped_empty own m n t x :
  tree_ok root own m -> fits 64 x -> own !! t = Some (n, vpn_at (Z.of_nat n + 1) x) ->
  (forall j e, 0 <= j < 512 -> entry m t j = Some e -> is_set e = false) -> mapped root m x = None.
Proof.
  intros Hok Hx Ho Hall. destruct (t_range _ _ _ Hok _ _ _ Ho) as [Hn _].
  pose proof (idx_ok n x Hn Hx) as Hi. destruct (own_entry _ _ _ _ _ _ _ Hok Ho Hi) as [e He].
  pose proof (Hall _ _ Hi He) as Hset. unfold mapped.
  rewrite (walk_root _ _ _ x n t Hok Hx Ho), (walk_no_table _ _ _ _ _ He) by by apply not_set_no_table.
  simpl. by rewrite Hset.
Qed.

(** Unlinking a table none of whose entries is set. *)
Lemma unlink_effect own live s n t p i t' e :
  inv root own live s -> own !! t = Some (S n, p) -> 0 <= i < 512 -> entry (mem s) t i = Some e ->
  own !! t' = Some (n, p * 512 + i) ->
  (forall j e, 0 <= j < 512 -> entry (mem s) t' j = Some e -> is_set e = false) ->
  exists s', (_ ← write_entry t i UNSET; _ ← dealloc_table t'; mret true) s = (Ok true, s')
    /\ entry (mem s') t i = Some 0
    /\ effect (S n) (fun t' j => t' = t /\ j = i) (fun _ _ => false) own s (delete t' own) (live ∖ {[t']}) s'.
Proof.
  intros (Hok & Hpa & Hlive) Ho Hi He Ho' Hall. destruct (t_table _ _ _ Hok _ _ _ Ho) as (es & Hes & Hlen).
  assert (Htt : t <> t') by (intros ->; rewrite Ho in Ho'; injection Ho'; lia).
  destruct (t_range _ _ _ Hok _ _ _ Ho) as [Hn _].
  assert (Hok' : tree_ok root (delete t' own) (delete t' (<[t := <[Z.to_nat i := UNSET]> es]> (mem s)))).
  { eapply tree_ok_unlink; try done. intros j e' Hj He'. by eapply not_set_no_table, Hall. }
  eexists. split.
  { erewrite ST_bind_Ok by by apply write_entry_eq with e. reflexivity. }
  assert (He' : entry (delete t' (<[t := <[Z.to_nat i := UNSET]> es]> (mem s))) t i = Some 0)
    by (rewrite entry_delete_ne by done; apply entry_insert_eq; [done|lia]).
  split; [done|]. split; simpl.
  - split; [done|split]; [apply pa_dealloc_spec; [done|]|rewrite dom_delete_L; set_solver].
    apply Hlive. by apply elem_of_dom.
  - apply delete_subseteq.
  - intros t1 k q Ho1 Hk. rewrite lookup_delete_ne; [done|]. intros ->. rewrite Ho1 in Ho'. injection Ho'. lia.
  - intros t1 k q j Ho1 Hk Hj Hm. rewrite entry_delete_ne.
    + apply entry_insert_ne; [done|lia|lia|]. destruct (Z.eq_dec t1 t); [right|by left]. intros ->. by apply Hm.
    + intros ->. rewrite Ho1 in Ho'. injection Ho'. lia.
  - intros x Hx. unfold mapped, cut. destruct (under (S n) x (p * 512 + i)) eqn:Hu.
    + assert (own !! t = Some (S n, p) /\ delete t' own !! t = Some (S n, p)) as [_ Ho1]
        by (by rewrite lookup_delete_ne).
      assert (Ho'' : own !! t' = Some (n, vpn_at (Z.of_nat n + 1) x)).
      { apply Z.eqb_eq in Hu. rewrite Ho'. repeat f_equal. rewrite <- Hu. f_equal. lia. }
      rewrite (walk_under _ _ (S n) t p i 0 x Hok' Ho1 Hi He') by (done || by right).
      pose proof (mapped_empty own (mem s) n t' x Hok Hx Ho'' Hall) as E. unfold mapped in E. by rewrite E.
    + apply Z.eqb_neq in Hu. rewrite (walk_frame root own (mem s)); try done.
      * by destruct (leaf_view _) as [[? ?]|].
      * apply (root_digits root own (mem s) x Hok).
      * intros t1 k Ho1. destruct (t_range _ _ _ Hok _ _ _ Ho1) as [Hk _]. rewrite entry_delete_ne.
        -- apply entry_insert_ne; [done|lia|by apply idx_ok|]. destruct (Z.eq_dec t1 t) as [->|]; [right|by left].
           rewrite Ho in Ho1. injection Ho1 as <- Hp. intros Hix. apply Hu.
           rewrite (vpn_at_step (Z.of_nat (S n)) x) by (done || lia). by rewrite <- Hp, Hix.
        -- intros ->. rewrite Ho' in Ho1. injection Ho1 as <- Hq. apply Hu. rewrite Hq. f_equal. lia.
Qed.

(** ** Visits *)
Definition unset_at m t i : Prop := exists e, entry m t i = Some e /\ is_set e = false.

(** [visit i] removes the leaves below entry [i] of [t] that [vis i] selects,
    and returns [true] only if the entry is unset afterwards. *)
Definition visits (n : nat) (t p : Z) (visit : Z -> ST (St A) Error bool) (vis : Z -> Z -> nat -> bool) : Prop :=
  forall own live s i, inv root own live s -> own !! t = Some (n, p) -> 0 <= i < 512 ->
  exists b s' own' live', visit i s = (Ok b, s')
    /\ effect n (fun t' j => t' = t /\ j = i) (fun x l => under n x (p * 512 + i) && vis i x l) own s own' live' s'
    /\ (b = true -> unset_at (mem s') t i).

(** [drop] on the table of level [n] and digits [q]. *)
Definition drops (n : nat) (q : Z) (drop : Z -> Z -> ST (St A) Error bool) (g : Z -> nat -> bool) : Prop :=
  forall own live s t, inv root own live s -> own !! t = Some (n, q) ->
  exists b s' own' live', drop t (Z.of_nat n) s = (Ok b, s')
    /\ effect n (fun t' _ => t' = t) (fun x l => (vpn_at (Z.of_nat n + 1) x =? q) && g x l) own s own' live' s'
    /\ (b = true -> forall j, 0 <= j < 512 -> unset_at (mem s') t j).

Lemma table_get n e a attr :
  Entry_get e pt = (a, attr) -> contains attr VALID = true -> has_table attr = true ->
  table e (Z.of_nat (S n)) ID_OFFSET = Some (to_laddr a ID_OFFSET).
Proof. intros Eg Ev Eh. apply table_Some_iff. rewrite Eg. split_and!; [done..|lia|done]. Qed.

Lemma mapped_under own m n t p i e x l v :
  tree_ok root own m -> own !! t = Some (n, p) -> 0 <= i < 512 -> entry m t i = Some e -> no_table n e ->
  fits 64 x -> under n x (p * 512 + i) = true -> mapped root m x = Some (l, v) -> l = n /\ is_set e = true.
Proof.
  intros Hok Ho Hi He Hno Hx Hu. unfold mapped. rewrite (walk_under own m n t p i e x) by done.
  simpl. destruct (is_set e); [|done]. intros [= <- _]. done.
Qed.

(** [destroy] on an entry that holds no table. *)
Lemma destroy_leaf own live s n t p i g e :
  inv root own live s -> own !! t = Some (n, p) -> 0 <= i < 512 -> entry (mem s) t i = Some e -> no_table n e ->
  exists s', (_ ← write_entry t i UNSET; mret true) s = (Ok true, s') /\ unset_at (mem s') t i
    /\ effect n (fun t' j => t' = t /\ j = i) (fun x l => under n x (p * 512 + i) && (Nat.eqb l n || g x l))
         own s own live s'.
Proof.
  intros Hinv Ho Hi He Hno. destruct (reset_effect own live s n t p i e Hinv Ho Hi He Hno) as (s' & E & He' & Heff).
  exists s'. split; [by rewrite (ST_bind_Ok _ _ _ _ _ E)|]. split; [by exists 0|].
  eapply effect_weaken; [done|done|done|]. intros x l v Hx Hm.
  destruct (under n x _) eqn:Hu; [|done].
  destruct (mapped_under own _ n t p i e x l v (proj1 Hinv) Ho Hi He Hno Hx Hu Hm) as [-> _].
  by rewrite Nat.eqb_refl.
Qed.

(** [destroy] on an entry that holds a table. *)
Lemma destroy_table own live s n t p i drop g t' e :
  inv root own live s -> own !! t = Some (S n, p) -> 0 <= i < 512 -> entry (mem s) t i = Some e ->
  own !! t' = Some (n, p * 512 + i) -> drops n (p * 512 + i) drop g ->
  exists b s' own' live',
    (is_empty ← drop t' (Z.of_nat n);
     if (is_empty : bool) then _ ← write_entry t i UNSET; _ ← dealloc_table t'; mret true else mret false) s
    = (Ok b, s')
    /\ effect (S n) (fun t' j => t' = t /\ j = i) (fun x l => under (S n) x (p * 512 + i) && g x l) own s own' live' s'
    /\ (b = true -> unset_at (mem s') t i).
Proof.
  intros Hinv Ho Hi He Ho' Hdrop.
  destruct (Hdrop own live s t' Hinv Ho') as (b & s1 & own1 & live1 & E & Heff & Hb).
  assert (Heff1 : effect (S n) (fun t' j => t' = t /\ j = i) (fun x l => under (S n) x (p * 512 + i) && g x l)
                    own s own1 live1 s1).
  { eapply effect_weaken; [done|lia| |].
    - intros t1 k q j Ho1 Hk ->. rewrite Ho' in Ho1. injection Ho1. lia.
    - intros x l v Hx Hm. unfold under. by replace (Z.of_nat (S n)) with (Z.of_nat n + 1) by lia. }
  rewrite (ST_bind_Ok _ _ _ _ _ E). destruct b; [|by exists false, s1, own1, live1].
  destruct Heff as [Hinv1 Hsub Hkeep Hframe Hmap].
  destruct (unlink_effect own1 live1 s1 n t p i t' e) as (s2 & E2 & He2 & Heff2); try done.
  - apply Hkeep; [done|lia].
  - rewrite (Hframe t (S n) p i); [done|done|lia|done|].
    intros ->. rewrite Ho in Ho'. injection Ho'. lia.
  - apply Hkeep; [done|lia].
  - intros j e' Hj Hej. destruct (Hb eq_refl j Hj) as (e'' & Hej' & Hs). congruence.
  - exists true, s2. eexists _, _. split; [exact E2|]. split; [|intros _; by exists 0].
    eapply effect_weaken; [by eapply effect_trans|done|done|]. intros x l v Hx Hm. simpl. by rewrite orb_false_r.
Qed.

Lemma destroy_visits n t p (drop : Z -> Z -> Z -> ST (St A) Error bool) (g : Z -> Z -> nat -> bool) :
  (forall n' i, n = S n' -> 0 <= i < 512 -> drops n' (p * 512 + i) (drop i) (g i)) ->
  visits n t p (fun i => destroy t i (Z.of_nat n) (drop i) ID_OFFSET)
    (fun i x l => Nat.eqb l n || match n with O => false | S _ => g i x l end).
Proof.
  intros Hdrop own live s i Hinv Ho Hi.
  destruct (own_entry _ _ _ _ _ _ i (proj1 Hinv) Ho Hi) as [e He].
  unfold destroy. erewrite ST_bind_Ok by (rewrite read_entry_eq, He; done).
  destruct (Entry_get e pt) as [a attr] eqn:Eg. destruct (contains attr VALID) eqn:Ev.
  2:{ assert (Hset : is_set e = false) by (unfold is_set; by rewrite Eg).
      exists true, s, own, live. split; [done|]. split; [|by exists e].
      apply effect_refl; [done|]. intros x l v Hx Hm. destruct (under n x _) eqn:Hu; [|done].
      destruct (mapped_under own _ n t p i e x l v (proj1 Hinv) Ho Hi He) as [_ Hs]; try done; [|congruence].
      by apply not_set_no_table. }
  destruct n as [|n].
  { destruct (destroy_leaf own live s 0 t p i (fun _ _ => false) e) as (s' & E & Hun & Heff); try done; [by left|].
    by exists true, s', own, live. }
  assert (Hdec : decrease (Z.of_nat (S n)) = Some (Z.of_nat n)).
  { unfold decrease, checked_sub. rewrite (proj2 (Z.leb_le _ _)) by lia. f_equal. lia. }
  rewrite Hdec. destruct (has_table attr) eqn:Eh.
  - pose proof (table_get n e a attr Eg Ev Eh) as Ht.
    pose proof (t_child _ _ _ (proj1 Hinv) _ _ _ _ _ _ Ho Hi He Ht) as Ho'.
    destruct (destroy_table own live s n t p i (drop i) (g i) _ e Hinv Ho Hi He Ho' (Hdrop n i eq_refl Hi))
      as (b & s' & own' & live' & E & Heff & Hb).
    exists b, s', own', live'. split; [exact E|]. split; [|done].
    eapply effect_weaken; [exact Heff|done|done|]. intros x l v Hx Hm. cbv beta.
    destruct (under (S n) x _) eqn:Hu; [|done]. simpl. destruct (Nat.eqb_spec l (S n)) as [->|]; [|done].
    exfalso. destruct (t_range _ _ _ (proj1 Hinv) _ _ _ Ho) as [Hn _].
    destruct (under_digits (S n) x p i Hn Hx Hi Hu) as [H1 H2].
    unfold mapped in Hm. rewrite (walk_root _ _ _ x (S n) t (proj1 Hinv) Hx) in Hm by by rewrite H1.
    rewrite (walk_S _ _ _ _ e) in Hm by by rewrite H2. rewrite Ht in Hm.
    destruct (walk n (mem s) _ x) as [[l e1]|] eqn:Ew; [|done]. apply walk_level in Ew.
    simpl in Hm. destruct (is_set e1); [|done]. injection Hm. lia.
  - destruct (destroy_leaf own live s (S n) t p i (g i) e) as (s' & E & Hun & Heff); try done.
    { right. unfold table. by rewrite Eg, Ev, Eh. }
    by exists true, s', own, live.
Qed.

(** The fold over the entries of a table. *)
Lemma fold_visits n t p visit vis k i count own live s :
  visits n t p visit vis -> inv root own live s -> own !! t = Some (n, p) -> 0 <= i -> i + Z.of_nat k <= 512 ->
  exists c s' own' live', unmap_fold k i count visit s = (Ok c, s')
    /\ effect n (fun t' j => t' = t /\ i <= j < i + Z.of_nat k)
         (fun x l => let j := vpn_at (Z.of_nat n) x - p * 512 in (i <=? j) && (j <? i + Z.of_nat k) && vis j x l)
         own s own' live' s'
    /\ c <= count + Z.of_nat k
    /\ (c = count + Z.of_nat k -> forall j, i <= j < i + Z.of_nat k -> unset_at (mem s') t j).
Proof.
  intros Hv. revert i count own live s. induction k as [|k IH]; intros i count own live s Hinv Ho Hi Hk.
  { exists count, s, own, live. split; [done|]. split_and!; [|lia|lia]. apply effect_refl; [done|].
    intros x l v Hx _. simpl. destruct (Z.leb_spec i (vpn_at (Z.of_nat n) x - p * 512)); [|done].
    by rewrite (proj2 (Z.ltb_ge _ _)) by lia. }
  destruct (Hv own live s i Hinv Ho ltac:(lia)) as (b & s1 & own1 & live1 & E1 & Heff1 & Hb).
  pose proof Heff1 as [Hinv1 _ Hkeep1 _ _].
  destruct (IH (i + 1) ((if b then 1 else 0) + count) own1 live1 s1 Hinv1) as (c & s2 & own2 & live2 & E2 & Heff2 & Hc & Hall);
    [by apply Hkeep1|lia|lia|].
  exists c, s2, own2, live2. split; [cbn [unmap_fold]; by rewrite (ST_bind_Ok _ _ _ _ _ E1)|].
  assert (Hc' : c <= count + Z.of_nat (S k)) by (destruct b; lia). split_and!; [|done|].
  - set (may := fun t' j => t' = t /\ i <= j < i + Z.of_nat (S k)).
    eapply (effect_weaken n n may may); [eapply effect_trans|done|done|].
    + eapply effect_weaken; [exact Heff1|done| |done]. intros t1 k1 q j _ _ [-> ->]. split; [done|lia].
    + eapply effect_weaken; [exact Heff2|done| |done]. intros t1 k1 q j _ _ [-> ?]. split; [done|lia].
    + intros x l v Hx _. unfold under. cbv beta zeta.
      destruct (Z.eqb_spec (vpn_at (Z.of_nat n) x) (p * 512 + i)) as [Heq|Hne].
      * replace (vpn_at (Z.of_nat n) x - p * 512) with i by lia.
        rewrite (proj2 (Z.leb_gt (i + 1) i)), (proj2 (Z.leb_le i i)),
          (proj2 (Z.ltb_lt i (i + Z.of_nat (S k)))) by lia.
        simpl. by rewrite orb_false_r.
      * simpl. f_equal. apply eq_true_iff_eq. rewrite !andb_true_iff, !Z.leb_le, !Z.ltb_lt. lia.
  - intros Hcc j Hj. destruct b; [|lia]. destruct (Z.eq_dec j i) as [->|]; [|apply Hall; lia].
    destruct (Hb eq_refl) as (e & He & Hs). exists e. split; [|done].
    rewrite (e_frame _ _ _ _ _ _ _ _ Heff2 t n p i); [done|by apply Hkeep1|done|lia|lia].
Qed.

Lemma under_table n x p :
  (n <= 2)%nat -> fits 64 x ->
  (0 <=? vpn_at (Z.of_nat n) x - p * 512) && (vpn_at (Z.of_nat n) x - p * 512 <? 0 + Z.of_nat 512)
  = (vpn_at (Z.of_nat n + 1) x =? p).
Proof.
  intros Hn Hx. pose proof (vpn_at_step (Z.of_nat n) x ltac:(lia) Hx). pose proof (idx_ok n x Hn Hx).
  apply eq_true_iff_eq. rewrite andb_true_iff, Z.leb_le, Z.ltb_lt, Z.eqb_eq. lia.
Qed.

Lemma unmap_impl_drops range n base q :
  drops n q (fun t _ => unmap_impl n range base t ID_OFFSET) (gone n range base).
Proof.
  revert base q. induction n as [n IH] using lt_wf_ind. intros base p own live s t Hinv Ho.
  destruct (t_range _ _ _ (proj1 Hinv) _ _ _ Ho) as [Hn _].
  set (lo := addr_idx (Z.of_nat n) (Z.max range.1 base) false).
  set (hi := addr_idx (Z.of_nat n) (Z.min range.2 (addr_add base (wmul 64 (page_size (Z.of_nat n)) NR_ENTRIES))) true).
  set (below := fun i => addr_add base (wmul 64 i (page_size (Z.of_nat n)))).
  set (drop := fun i (t' _ : Z) => match n with
                | O => panic
                | S n' => unmap_impl n' range (below i) t' ID_OFFSET
                end : ST (St A) Error bool).
  set (g := fun i x l => match n with O => false | S n' => gone n' range (below i) x l end).
  assert (Hv : visits n t p (fun index => if index_range lo hi index
                 then destroy t index (Z.of_nat n) (drop index) ID_OFFSET
                 else e ← read_entry t index; mret (negb (is_set e)))
               (fun i x l => index_range lo hi i && (Nat.eqb l n || g i x l))).
  { intros own1 live1 s1 i Hinv1 Ho1 Hi. destruct (index_range lo hi i).
    - destruct (destroy_visits n t p drop g) with own1 live1 s1 i as (b & s' & own' & live' & E & Heff & Hb); try done.
      + intros n' i' -> Hi'. apply IH. lia.
      + exists b, s', own', live'. split_and!; [done| |done]. by destruct n.
    - destruct (own_entry _ _ _ _ _ _ i (proj1 Hinv1) Ho1 Hi) as [e He].
      eexists _, s1, own1, live1. erewrite ST_bind_Ok by (rewrite read_entry_eq, He; done). split; [done|].
      split; [apply effect_refl; [done|]; intros; by rewrite andb_false_r|].
      intros Hs%negb_true_iff. by exists e. }
  destruct (fold_visits n t p _ _ 512 0 0 own live s Hv Hinv Ho) as (c & s' & own' & live' & E & Heff & Hc & Hall); [lia..|].
  exists (NR_ENTRIES <=? c), s', own', live'. split_and!.
  - destruct n; exact (ST_bind_Ok _ (fun c => mret (NR_ENTRIES <=? c)) _ _ _ E).
  - eapply effect_weaken; [exact Heff|done|by intros ? ? ? ? _ _ [-> _]|].
    intros x l v Hx _. cbv beta zeta. rewrite under_table by done.
    destruct (Z.eqb_spec (vpn_at (Z.of_nat n + 1) x) p) as [Hp|]; [|done]. simpl andb.
    replace (vpn_at (Z.of_nat n) x - p * 512) with (addr_idx (Z.of_nat n) x false)
      by (pose proof (vpn_at_step (Z.of_nat n) x ltac:(lia) Hx); lia).
    by destruct n.
  - intros Hle%Z.leb_le j Hj. change NR_ENTRIES with 512 in Hle. apply Hall; lia.
Qed.
End Unmap.

(** ** Which leaves a range removes *)
Lemma page_size_eq (l : Z) : 0 <= l <= 2 -> page_size l = 2 ^ (12 + 9 * l).
Proof.
  intros Hl. unfold page_size. rewrite page_shift_eq, wshl_small, Z.mul_1_l; [done|lia|].
  unfold fits. pose proof (pow2_pos (12 + 9 * l) ltac:(lia)).
  assert (2 ^ (12 + 9 * l) < 2 ^ 64) by (apply Z.pow_lt_mono_r; lia). lia.
Qed.

Lemma addr_idx_end (l la : Z) :
  addr_idx l la true = if addr_idx l la false =? 0 then 512 else addr_idx l la false.
Proof. reflexivity. Qed.

Lemma addr_idx_pow (l la : Z) : 0 <= l <= 2 -> 0 <= la <= 2 ^ 39 -> addr_idx l la false = la / 2 ^ (12 + 9 * l) mod 512.
Proof. intros Hl Hla. rewrite addr_idx_eq, page_shift_eq; [done|done|]. unfold fits. lia. Qed.

(** Which entries of the table that covers [x] are visited. *)
Section Visited.
Context (l x : Z) (Hl : 0 <= l <= 2) (Hx : 0 <= x < 2 ^ 39).
Let S := 2 ^ (12 + 9 * l).
Let base := x / (S * 512) * (S * 512).

Lemma stride_pos : 0 < S.
Proof. apply pow2_pos. clear base. lia. Qed.

Lemma stride_top : S * 512 <= 2 ^ 39.
Proof.
  unfold S. change 512 with (2 ^ 9). rewrite <- Z.pow_add_r by lia. apply Z.pow_le_mono_r; lia.
Qed.

Lemma base_bounds : 0 <= base <= x /\ x < base + S * 512 <= 2 ^ 39.
Proof.
  pose proof stride_pos. pose proof stride_top. unfold base.
  assert (exists k, 0 < k /\ 2 ^ 39 = k * (S * 512)) as (k & Hk & E).
  { exists (2 ^ (39 - (12 + 9 * l + 9))). split; [apply pow2_pos; lia|]. unfold S. change 512 with (2 ^ 9).
    rewrite <- !Z.pow_add_r by lia. f_equal. lia. }
  pose proof (Z.div_mod x (S * 512) ltac:(lia)). pose proof (Z.mod_pos_bound x (S * 512) ltac:(lia)).
  pose proof (Z.div_pos x (S * 512) ltac:(lia) ltac:(lia)).
  assert (x / (S * 512) < k) by (apply Z.div_lt_upper_bound; lia). nia.
Qed.

Lemma idx_rel (y : Z) : base <= y < base + S * 512 -> addr_idx l y false = y / S - base / S.
Proof.
  intros Hy. pose proof stride_pos. pose proof base_bounds. rewrite addr_idx_pow by lia. fold S.
  assert (base = x / (S * 512) * 512 * S) as E by (unfold base; lia).
  rewrite E at 1. rewrite Z.div_mul by lia. symmetry. apply (Z.mod_unique _ _ (x / (S * 512))); [left|lia].
  split; [apply Z.le_add_le_sub_l; rewrite Z.add_0_r; apply Z.div_le_lower_bound; lia|].
  apply Z.lt_sub_lt_add_l. apply Z.div_lt_upper_bound; lia.
Qed.

Lemma idx_base : addr_idx l base false = 0.
Proof. pose proof base_bounds. pose proof stride_pos. rewrite idx_rel by lia. lia. Qed.

Lemma visited_lo (a : Z) :
  0 <= a -> a / (S * 512) <= x / (S * 512) ->
  (addr_idx l (Z.max a base) false <=? addr_idx l x false) = (a / S <=? x / S).
Proof.
  intros Ha Hax. pose proof stride_pos. pose proof base_bounds. apply eq_true_iff_eq. rewrite !Z.leb_le.
  destruct (Z.le_gt_cases base a).
  - rewrite Z.max_l by lia. pose proof (Z.mul_div_le a (S * 512)).
    pose proof (Z.mod_pos_bound a (S * 512)). pose proof (Z.div_mod a (S * 512)).
    assert (a < base + S * 512) by (unfold base in *; nia).
    rewrite !idx_rel by lia. lia.
  - rewrite Z.max_r, idx_base by lia. pose proof (addr_idx_pow l x Hl ltac:(lia)) as ->.
    pose proof (Z.mod_pos_bound (x / 2 ^ (12 + 9 * l)) 512). 
    assert (a / S <= x / S) by (apply Z.div_le_mono; lia). lia.
Qed.

Lemma idx_lt : addr_idx l x false < 512.
Proof. rewrite addr_idx_pow by lia. by apply Z.mod_pos_bound. Qed.

(** Below the root the range covers the whole table. *)
Lemma visited_hi_full (b : Z) :
  base + S * 512 <= b -> addr_idx l (Z.min b (base + S * 512)) true = 512.
Proof.
  intros Hle. pose proof stride_pos. pose proof base_bounds. rewrite Z.min_r, addr_idx_end by lia.
  rewrite addr_idx_pow by lia. fold S.
  replace (base + S * 512) with ((x / (S * 512) + 1) * 512 * S) by (unfold base; lia).
  rewrite Z.div_mul, Z.mod_mul by lia. done.
Qed.
End Visited.

Lemma table_end l base :
  0 <= l <= 2 -> 0 <= base -> base + 2 ^ (12 + 9 * l) * 512 <= 2 ^ 39 ->
  addr_add base (wmul 64 (page_size l) NR_ENTRIES) = base + 2 ^ (12 + 9 * l) * 512.
Proof.
  intros Hl Hb He. pose proof (pow2_pos (12 + 9 * l) ltac:(lia)). change NR_ENTRIES with 512.
  unfold addr_add. rewrite page_size_eq, wmul_small, wadd_small by (done || (unfold fits; lia)). done.
Qed.

(** The base of the table below. *)
Lemma base_step l x :
  1 <= l <= 2 -> 0 <= x < 2 ^ 39 ->
  addr_add (x / (2 ^ (12 + 9 * l) * 512) * (2 ^ (12 + 9 * l) * 512)) (wmul 64 (addr_idx l x false) (page_size l))
  = x / (2 ^ (12 + 9 * (l - 1)) * 512) * (2 ^ (12 + 9 * (l - 1)) * 512).
Proof.
  intros Hl Hx. pose proof (base_bounds l x ltac:(lia) Hx) as Hbb. pose proof (stride_pos l ltac:(lia)).
  rewrite (idx_rel l x ltac:(lia) Hx x) by lia. rewrite page_size_eq by lia.
  replace (2 ^ (12 + 9 * (l - 1)) * 512) with (2 ^ (12 + 9 * l))
    by (change 512 with (2 ^ 9); rewrite <- Z.pow_add_r by lia; f_equal; lia).
  set (S := 2 ^ (12 + 9 * l)) in *. set (q := x / (S * 512)) in *.
  replace (q * (S * 512) / S) with (q * 512)
    by (replace (q * (S * 512)) with (q * 512 * S) by lia; by rewrite Z.div_mul by lia).
  pose proof (Z.mul_div_le x S ltac:(lia)). assert (q * 512 <= x / S) by (apply Z.div_le_lower_bound; lia).
  unfold addr_add. rewrite wmul_small, wadd_small by (unfold fits; nia). lia.
Qed.

(** [base] is the start of the table of level [l] that covers [x]. *)
Definition base_of (l x : Z) : Z := x / (2 ^ (12 + 9 * l) * 512) * (2 ^ (12 + 9 * l) * 512).

Lemma div_mono_level a x k j :
  0 <= k -> 0 <= j -> a / 2 ^ k <= x / 2 ^ k -> a / 2 ^ (k + j) <= x / 2 ^ (k + j).
Proof.
  intros Hk Hj E. pose proof (pow2_pos k Hk). pose proof (pow2_pos j Hj).
  rewrite Z.pow_add_r, <- !Z.div_div by lia. by apply Z.div_le_mono.
Qed.

Section GoneRange.
Context (a b x : Z) (Ha : 0 <= a < b) (Hb : b <= 2 ^ 39) (Hb30 : b mod 2 ^ 30 = 0) (Hx : 0 <= x < 2 ^ 39).

Definition overlaps_leaf (l : nat) : bool := a / 2 ^ (12 + 9 * Z.of_nat l) <=? x / 2 ^ (12 + 9 * Z.of_nat l).

Lemma overlaps_leaf_up l n : (l <= n)%nat -> overlaps_leaf n = false -> overlaps_leaf l = false.
Proof.
  unfold overlaps_leaf. rewrite !Z.leb_gt. intros Hl Hn. apply Z.nle_gt. intros E. apply Z.nle_gt in Hn. apply Hn.
  replace (12 + 9 * Z.of_nat n) with (12 + 9 * Z.of_nat l + 9 * Z.of_nat (n - l)) by lia.
  apply div_mono_level; lia.
Qed.

Lemma gone_below n l :
  (n <= 1)%nat -> (l <= n)%nat -> x < b -> overlaps_leaf (S n) = true ->
  gone n (a, b) (base_of (Z.of_nat n) x) x l = overlaps_leaf l.
Proof.
  intros Hn. revert l. induction n as [n IH] using lt_wf_ind. intros l Hl Hxb Hup.
  pose proof (base_bounds (Z.of_nat n) x ltac:(lia) Hx) as HB. fold (base_of (Z.of_nat n) x) in HB.
  assert (HT : base_of (Z.of_nat n) x + 2 ^ (12 + 9 * Z.of_nat n) * 512 <= b).
  { unfold base_of. assert (n = 0 \/ n = 1)%nat as [-> | ->] by lia.
    - change (2 ^ (12 + 9 * Z.of_nat 0) * 512) with (2 ^ 21). clear - Hxb Hb30. Z.div_mod_to_equations. lia.
    - change (2 ^ (12 + 9 * Z.of_nat 1) * 512) with (2 ^ 30). clear - Hxb Hb30. Z.div_mod_to_equations. lia. }
  assert (Hv : index_range (addr_idx (Z.of_nat n) (Z.max a (base_of (Z.of_nat n) x)) false)
      (addr_idx (Z.of_nat n) (Z.min b (addr_add (base_of (Z.of_nat n) x) (wmul 64 (page_size (Z.of_nat n)) NR_ENTRIES))) true)
      (addr_idx (Z.of_nat n) x false) = overlaps_leaf n).
  { unfold index_range, base_of. rewrite table_end by (fold (base_of (Z.of_nat n) x); lia).
    rewrite (visited_lo (Z.of_nat n) x), (visited_hi_full (Z.of_nat n) x) by (unfold base_of in HT; lia || (
      unfold overlaps_leaf in Hup; apply Z.leb_le in Hup;
      replace (2 ^ (12 + 9 * Z.of_nat n) * 512) with (2 ^ (12 + 9 * Z.of_nat (S n))); [done|];
      change 512 with (2 ^ 9); rewrite <- Z.pow_add_r by lia; f_equal; lia)).
    rewrite (proj2 (Z.ltb_lt _ _)) by (apply idx_lt; lia). apply andb_true_r. }
  assert (Hrec : overlaps_leaf n = true -> (Nat.eqb l n || match n with
       | O => false
       | S n' => gone n' (a, b) (addr_add (base_of (Z.of_nat n) x)
                   (wmul 64 (addr_idx (Z.of_nat n) x false) (page_size (Z.of_nat n)))) x l end) = overlaps_leaf l).
  { intros Hn'. destruct (Nat.eqb_spec l n) as [->|Hne]; [done|]. destruct n as [|n]; [lia|].
    unfold base_of at 1. rewrite (base_step (Z.of_nat (S n)) x) by lia.
    replace (Z.of_nat (S n) - 1) with (Z.of_nat n) by lia. apply IH; (lia || done). }
  destruct (overlaps_leaf n) eqn:Hn'.
  - rewrite <- Hrec by done. destruct n; cbn [gone fst snd]; by rewrite Hv.
  - rewrite (overlaps_leaf_up l n) by done. destruct n; cbn [gone fst snd]; by rewrite Hv.
Qed.
End GoneRange.

(** At the root the end of the range is an index, [512] when it wraps. *)
Lemma gone_range a b x l :
  0 <= a < b -> b <= 2 ^ 39 -> b mod 2 ^ 30 = 0 -> 0 <= x < 2 ^ 39 -> (l <= 2)%nat ->
  gone 2 (a, b) 0 x l = overlaps_leaf a x l && (x <? b).
Proof.
  intros Ha Hb Hb30 Hx Hl.
  assert (B2 : base_of 2 x = 0) by (unfold base_of; rewrite Z.div_small; [done|lia]).
  pose proof (base_step 2 x ltac:(lia) Hx) as Hstep. fold (base_of 2 x) in Hstep. rewrite B2 in Hstep.
  assert (Hv : index_range (addr_idx 2 (Z.max a 0) false)
      (addr_idx 2 (Z.min b (addr_add 0 (wmul 64 (page_size 2) NR_ENTRIES))) true) (addr_idx 2 x false)
      = overlaps_leaf a x 2 && (x <? b)).
  { change (addr_add 0 (wmul 64 (page_size 2) NR_ENTRIES)) with (2 ^ 39).
    unfold index_range. rewrite Z.min_l by lia. rewrite <- B2 at 1. unfold base_of.
    rewrite (visited_lo 2 x); [|lia..|rewrite !Z.div_small by lia; lia]. f_equal.
    rewrite addr_idx_end, !addr_idx_pow by lia. change (2 ^ (12 + 9 * 2)) with (2 ^ 30).
    rewrite (Z.mod_small (x / 2 ^ 30)) by (Z.div_mod_to_equations; lia).
    apply eq_true_iff_eq. rewrite !Z.ltb_lt. destruct (Z.eqb_spec (b / 2 ^ 30 mod 512) 0);
      clear - Ha Hb Hb30 Hx e || clear - Ha Hb Hb30 Hx n; Z.div_mod_to_equations; lia. }
  rewrite gone_S. cbv zeta. cbn [fst snd]. change (Z.of_nat 2) with 2. rewrite Hv.
  destruct (overlaps_leaf a x 2) eqn:Ho; rewrite ?andb_true_l, ?andb_false_l.
  2:{ by rewrite (overlaps_leaf_up a x l 2). }
  destruct (Z.ltb_spec x b); [|by rewrite andb_false_r]. rewrite andb_true_l, andb_true_r.
  destruct (Nat.eqb_spec l 2) as [->|]; [done|]. rewrite Hstep.
  apply (gone_below a b x Ha Hb30 Hx 1 l); (lia || done).
Qed.

Section UnmapTheorem.
Context {A : Type} `{PageAllocSpec A} (root : Z).
Implicit Types (s : St A).

Lemma unmap_gone own live s range :
  inv root own live s ->
  exists own' live' s', unmap root range ID_OFFSET s = (Ok tt, s')
    /\ inv root own' live' s' /\ own' ⊆ own
    /\ forall x, fits 64 x -> mapped root (mem s') x = cut (gone 2 range 0 x) (mapped root (mem s) x).
Proof.
  intros Hinv. destruct (unmap_impl_drops root range 2 0 0 own live s root Hinv) as
    (b & s' & own' & live' & E & [Hinv' Hsub _ _ Hmap] & _); [apply Hinv|].
  exists own', live', s'. split; [|split_and!; [done..|]].
  - cbv beta in E. exact (ST_bind_Ok _ (fun _ => mret tt) _ _ _ E).
  - intros x Hx. rewrite (Hmap x Hx). unfold cut. destruct (mapped root (mem s) x) as [[l v]|]; [|done].
    change (Z.of_nat 2 + 1) with 3. by rewrite vpn_at_top.
Qed.

Lemma mapped_level m x l v : mapped root m x = Some (l, v) -> (l <= 2)%nat.
Proof.
  unfold mapped. destruct (walk 2 m root x) as [[k e]|] eqn:Ew; [|done]. apply walk_level in Ew.
  unfold leaf_view. destruct (is_set e); [|done]. by intros [= <- _].
Qed.

(** C2: unmapping a range that ends at a multiple of 1 GiB (as the user range
    does) always succeeds, keeps the tree well formed, and removes exactly the
    leaves that overlap the range: a leaf of any size goes if the range reaches
    it, and every other mapping stays. *)
Theorem unmap_spec own live s a b :
  inv root own live s -> 0 <= a < b -> b <= 2 ^ 39 -> b mod 2 ^ 30 = 0 ->
  exists own' live' s', unmap root (a, b) ID_OFFSET s = (Ok tt, s') /\ inv root own' live' s' /\ own' ⊆ own
    /\ forall x, 0 <= x < 2 ^ 39 ->
       mapped root (mem s') x = cut (fun l => overlaps_leaf a x l && (x <? b)) (mapped root (mem s) x).
Proof.
  intros Hinv Ha Hb Hb30. destruct (unmap_gone own live s (a, b) Hinv) as (own' & live' & s' & E & Hinv' & Hsub & Hm).
  exists own', live', s'. split_and!; try done. intros x Hx. rewrite Hm by (unfold fits; lia). unfold cut.
  destruct (mapped root (mem s) x) as [[l v]|] eqn:Em; [|done].
  by rewrite (gone_range a b x l Ha Hb Hb30 Hx (mapped_level _ _ _ _ Em)).
Qed.
End UnmapTheorem.

Lemma unmap_spec_witness :
  exists own' live' s', unmap ID_OFFSET (0x1000, 2 ^ 38) ID_OFFSET empty_space = (Ok tt, s')
    /\ inv ID_OFFSET own' live' s'.
Proof.
  destruct (unmap_spec ID_OFFSET _ _ empty_space 0x1000 (2 ^ 38) empty_space_inv) as (own' & live' & s' & E & Hinv & _);
    [lia|lia|reflexivity|]. exists own', live', s'. split; [exact E|exact Hinv].
Defined.
