(* ===== verification/PageMap.v ===== *)
(** * rv39-paging: mapping, reprotecting and translating

    What [mappages], [reprotect] and [la2pa] do to the mapping of a well-formed
    page table. *)

From S2P Require Import Prelude Paging PageTree PageUnmap.
Import PG.

(** ** Pages *)
Lemma vpn_next (la : Z) :
  fits 64 (la + 2 ^ 12) -> 0 <= la -> la mod 2 ^ 12 = 0 -> vpn_at 0 la + 1 < 2 ^ 27 ->
  vpn_at 0 (la + 2 ^ 12) = vpn_at 0 la + 1.
Proof.
  unfold vpn_at, fits. change (page_shift 0) with 12. intros Hf Hla Hal Hv.
  Z.div_mod_to_equations. lia.
Qed.

Lemma in_page_offset_eq (a : Z) : in_page_offset a = a mod 2 ^ 12.
Proof. unfold in_page_offset. change PAGE_MASK with (2 ^ 12 - 1). by apply land_mask. Qed.

Lemma aligned_next (a : Z) : a mod 2 ^ 12 = 0 -> (a + 2 ^ 12) mod 2 ^ 12 = 0.
Proof. intros E. replace (a + 2 ^ 12) with (a + 1 * 2 ^ 12) by lia. by rewrite Z.mod_add. Qed.

(** ** Attributes *)
Lemma contains_lor (a b : Z) : contains (Z.lor a b) b = true.
Proof.
  unfold contains. apply Z.eqb_eq. apply Z.bits_inj'. intros i Hi.
  rewrite Z.land_spec, Z.lor_spec. by destruct (Z.testbit a i), (Z.testbit b i).
Qed.

(** The leaf built for frame [pa]. *)
Lemma leaf_new (pa flags : Z) :
  fits 56 pa -> pa mod 2 ^ 12 = 0 -> fits 8 flags ->
  leaf_view (Some (O, Entry_new pa (Z.lor flags VALID) pt)) = Some (O, (pa, Z.lor flags VALID)).
Proof.
  intros Hpa Hal Hf. unfold leaf_view, is_set.
  rewrite Entry_get_new; [|done|done|done|by apply fits_lor]. simpl. by rewrite contains_lor.
Qed.

Section Map.
Context {A : Type} `{PageAllocSpec A} (root : Z).
Implicit Types (s : St A).

(** The page number of [x] relative to [la], and whether it is one of [n]. *)
Definition page_no (la x : Z) : Z := vpn_at 0 x - vpn_at 0 la.
Definition in_pages (la n x : Z) : bool := (0 <=? page_no la x) && (page_no la x <? n).

(** The mapping after [n] pages from [la] were mapped to the frames from [pa]. *)
Definition map_view (la pa flags n : Z) (old : Z -> option (nat * (Z * Z))) (x : Z) : option (nat * (Z * Z)) :=
  if in_pages la n x then Some (O, (pa + page_no la x * 2 ^ 12, Z.lor flags VALID)) else old x.

Lemma map_view_step la pa flags n old x :
  fits 64 (la + 2 ^ 12) -> 0 <= la -> la mod 2 ^ 12 = 0 -> vpn_at 0 la + 1 + n <= 2 ^ 27 -> 0 < n ->
  map_view (la + 2 ^ 12) (pa + 2 ^ 12) flags n
    (fun x => if vpn_at 0 x =? vpn_at 0 la then Some (O, (pa, Z.lor flags VALID)) else old x) x
  = map_view la pa flags (1 + n) old x.
Proof.
  intros Hf Hla Hal Hv Hn. unfold map_view, in_pages, page_no. rewrite vpn_next by (done || lia).
  destruct (Z.eqb_spec (vpn_at 0 x) (vpn_at 0 la)) as [->|].
  - rewrite (proj2 (Z.leb_gt 0 _)), Z.sub_diag, (proj2 (Z.ltb_lt 0 _)) by lia.
    simpl. do 3 f_equal. lia.
  - replace ((0 <=? vpn_at 0 x - (vpn_at 0 la + 1)) && (vpn_at 0 x - (vpn_at 0 la + 1) <? n))
      with ((0 <=? vpn_at 0 x - vpn_at 0 la) && (vpn_at 0 x - vpn_at 0 la <? 1 + n))
      by (apply eq_true_iff_eq; rewrite !andb_true_iff, !Z.leb_le, !Z.ltb_lt; lia).
    destruct (_ && _); [|done]. do 3 f_equal. lia.
Qed.

(** The outcome of mapping [n] pages. *)
Definition map_post (la pa flags n : Z) s (r : res Error Z) s' : Prop :=
  match r with
  | Ok _ => (forall x, fits 64 x -> in_pages la n x = true -> mapped root (mem s) x = None)
            /\ forall x, fits 64 x -> mapped root (mem s') x = map_view la pa flags n (mapped root (mem s)) x
  | Err e => (e = OutOfMemory \/ e = EntryExistent true)
             /\ forall x v, fits 64 x -> mapped root (mem s') x = Some v ->
                  in_pages la n x = true \/ mapped root (mem s) x = Some v
  | Panic => False
  end.

(** The conditions under which [n] pages are consecutive in both spaces. *)
Definition span_ok (la pa n : Z) : Prop :=
  0 <= la /\ la mod 2 ^ 12 = 0 /\ la + n * 2 ^ 12 <= 2 ^ 64 /\ vpn_at 0 la + n <= 2 ^ 27
  /\ 0 <= pa /\ pa mod 2 ^ 12 = 0 /\ pa + n * 2 ^ 12 <= 2 ^ 56.

Lemma in_pages_first la n x :
  0 < n -> vpn_at 0 x = vpn_at 0 la -> in_pages la n x = true.
Proof. intros Hn E. unfold in_pages, page_no. rewrite E. apply andb_true_iff. rewrite Z.leb_le, Z.ltb_lt. lia. Qed.

Lemma in_pages_next la n x :
  fits 64 (la + 2 ^ 12) -> 0 <= la -> la mod 2 ^ 12 = 0 -> vpn_at 0 la + 1 + n <= 2 ^ 27 -> 0 < n ->
  in_pages (la + 2 ^ 12) n x = in_pages la (1 + n) x && negb (vpn_at 0 x =? vpn_at 0 la).
Proof.
  intros Hf Hla Hal Hv Hn. unfold in_pages, page_no. rewrite vpn_next by (done || lia).
  apply eq_true_iff_eq. rewrite !andb_true_iff, negb_true_iff, !Z.leb_le, !Z.ltb_lt, Z.eqb_neq. lia.
Qed.

(** One page and then the others. *)
Lemma map_post_step la pa flags n s s1 r s' :
  span_ok la pa (1 + n) -> 0 < n ->
  (forall x, fits 64 x -> vpn_at 0 x = vpn_at 0 la -> mapped root (mem s) x = None) ->
  (forall x, fits 64 x -> mapped root (mem s1) x =
     if vpn_at 0 x =? vpn_at 0 la then Some (O, (pa, Z.lor flags VALID)) else mapped root (mem s) x) ->
  map_post (la + 2 ^ 12) (pa + 2 ^ 12) flags n s1 r s' -> map_post la pa flags (1 + n) s r s'.
Proof.
  intros (Hla & Hal & Hend & Hv & _) Hn Hnone Hs1. assert (fits 64 (la + 2 ^ 12)) by (unfold fits; lia).
  destruct r as [e|e|]; [| |done].
  - intros [Hfree Hm]. split.
    + intros x Hx Hin. destruct (Z.eqb_spec (vpn_at 0 x) (vpn_at 0 la)) as [|Hne]; [by apply Hnone|].
      specialize (Hfree x Hx). rewrite Hs1, (proj2 (Z.eqb_neq _ _) Hne) in Hfree by done. apply Hfree.
      rewrite in_pages_next, Hin by (done || lia). by rewrite (proj2 (Z.eqb_neq _ _) Hne).
    + intros x Hx. rewrite Hm by done. rewrite <- map_view_step by (done || lia). unfold map_view.
      by rewrite Hs1.
  - intros [He Hm]. split; [done|]. intros x v Hx Hmx.
    destruct (Z.eqb_spec (vpn_at 0 x) (vpn_at 0 la)) as [|Hne]; [left; apply in_pages_first; lia|].
    destruct (Hm x v Hx Hmx) as [Hin|Hold].
    + left. rewrite in_pages_next in Hin by (done || lia). by apply andb_true_iff in Hin as [? _].
    + right. by rewrite Hs1, (proj2 (Z.eqb_neq _ _) Hne) in Hold.
Qed.

Lemma map_post_one la pa flags s e s' :
  (forall x, fits 64 x -> vpn_at 0 x = vpn_at 0 la -> mapped root (mem s) x = None) ->
  (forall x, fits 64 x -> mapped root (mem s') x =
     if vpn_at 0 x =? vpn_at 0 la then Some (O, (pa, Z.lor flags VALID)) else mapped root (mem s) x) ->
  map_post la pa flags 1 s (Ok e) s'.
Proof.
  intros Hnone Hs'. assert (Hin : forall x, in_pages la 1 x = (vpn_at 0 x =? vpn_at 0 la)).
  { intros x. unfold in_pages, page_no. apply eq_true_iff_eq. rewrite andb_true_iff, Z.leb_le, Z.ltb_lt, Z.eqb_eq. lia. }
  split.
  - intros x Hx. rewrite Hin, Z.eqb_eq. by apply Hnone.
  - intros x Hx. rewrite Hs' by done. unfold map_view. rewrite Hin.
    destruct (Z.eqb_spec (vpn_at 0 x) (vpn_at 0 la)) as [E|]; [|done]. unfold page_no. rewrite E. do 3 f_equal. lia.
Qed.

Lemma span_ok_next la pa n : span_ok la pa (1 + n) -> 0 < n -> span_ok (la + 2 ^ 12) (pa + 2 ^ 12) n.
Proof.
  intros (Hla & Hal & Hend & Hv & Hpa & Hpal & Hpend) Hn. unfold span_ok.
  rewrite vpn_next by (unfold fits; done || lia).
  split_and!; [lia|by apply aligned_next|lia|lia|lia|by apply aligned_next|lia].
Qed.

Lemma span_ok_virt la n : span_ok la 0 (1 + n) -> 0 < n -> span_ok (la + 2 ^ 12) 0 n.
Proof.
  intros Hs Hn. pose proof (span_ok_next la 0 n Hs Hn) as (? & ? & ? & ? & ? & ? & ?).
  split_and!; (done || lia).
Qed.

Lemma mappages_loop_post flags n : forall i la0 la pa last own live s,
  inv root own live s -> fits 8 flags -> span_ok la pa (Z.of_nat n) ->
  exists r s' own' live', mappages_loop n i root la0 la pa flags ID_OFFSET last s = (r, s')
    /\ inv root own' live' s' /\ map_post la pa flags (Z.of_nat n) s r s'.
Proof.
  induction n as [|n IH]; intros i la0 la pa last own live s Hinv Hf Hspan.
  { exists (Ok last), s, own, live. split; [done|]. split; [done|]. split.
    - intros x _ Hin. unfold in_pages in Hin. rewrite andb_true_iff, Z.leb_le, Z.ltb_lt in Hin. lia.
    - intros x _. unfold map_view. replace (in_pages la (Z.of_nat 0) x) with false; [done|].
      symmetry. apply not_true_iff_false. unfold in_pages. rewrite andb_true_iff, Z.leb_le, Z.ltb_lt. lia. }
  pose proof Hspan as (Hla & Hal & Hend & Hv & Hpa & Hpal & Hpend). assert (Hfla : fits 64 la) by (unfold fits; lia).
  cbn [mappages_loop].
  destruct (la2pte_alloc_cases root own live s la Hinv Hfla) as
    (own1 & live1 & s1 & Hinv1 & Hm1 & [(t & E & Ho)|(e & E & He)]); rewrite E.
  2:{ destruct (unmap_gone root own1 live1 s1 (la0, addr_add la0 (wmul 64 i PAGE_SIZE)) Hinv1)
        as (own2 & live2 & s2 & E2 & Hinv2 & _ & Hm2).
      exists (Err e), s2, own2, live2. rewrite (ST_bind_Ok _ _ _ _ _ E2). split; [done|]. split; [done|].
      split; [done|]. intros x v Hx. rewrite Hm2, Hm1 by done. unfold cut.
      destruct (mapped root (mem s) x) as [[l w]|]; [|done]. destruct (gone _ _ _ _ _); [done|]. by right. }
  assert (Hi : 0 <= addr_idx pt la false < 512) by (apply (idx_ok 0); [lia|done]).
  destruct (own_entry _ _ _ _ _ _ _ (proj1 Hinv1) Ho Hi) as [pte Hpte].
  cbn [fst snd]. erewrite ST_bind_Ok by (rewrite read_entry_eq, Hpte; done).
  fold (is_set pte). destruct (is_set pte) eqn:Hset.
  { exists (Err (EntryExistent true)), s1, own1, live1. split; [done|]. split; [done|].
    split; [by right|]. intros x v Hx. rewrite Hm1 by done. by right. }
  destruct (write_leaf root own1 live1 s1 t la (Entry_new pa (Z.lor flags VALID) pt) Hinv1 Hfla Ho)
    as (s2 & E2 & Hinv2 & Hm2).
  rewrite (ST_bind_Ok _ _ _ _ _ E2).
  assert (Hnone : forall x, fits 64 x -> vpn_at 0 x = vpn_at 0 la -> mapped root (mem s) x = None).
  { intros x Hx Hxla. rewrite <- Hm1 by done. unfold mapped. destruct (vpn_page x la Hx Hfla Hxla) as [H1 H2].
    rewrite (walk_leaf root own1 _ t x pte); [unfold leaf_view; by rewrite Hset|apply Hinv1|done|by rewrite H1|by rewrite H2]. }
  assert (Hs2 : forall x, fits 64 x -> mapped root (mem s2) x =
     if vpn_at 0 x =? vpn_at 0 la then Some (O, (pa, Z.lor flags VALID)) else mapped root (mem s) x).
  { intros x Hx. rewrite Hm2, Hm1 by done. rewrite leaf_new; [done|unfold fits; lia|done|done]. }
  destruct n as [|n].
  { eexists _, s2, own1, live1. split; [done|]. split; [done|]. by apply map_post_one. }
  unfold addr_add. change PAGE_SIZE with (2 ^ 12). rewrite !wadd_small by (unfold fits; lia).
  replace (Z.of_nat (S (S n))) with (1 + Z.of_nat (S n)) in * by lia.
  destruct (IH (i + 1) la0 (la + 2 ^ 12) (pa + 2 ^ 12) (Entry_new pa (Z.lor flags VALID) pt) own1 live1 s2)
    as (r & s' & own' & live' & E' & Hinv' & Hpost); [done|done|apply span_ok_next; [done|lia]|].
  exists r, s', own', live'. split; [done|]. split; [done|]. apply (map_post_step la pa flags _ s s2); (done || lia).
Qed.

(** C8: mapping consecutive pages never panics and keeps the tree well formed.
    On success none of the pages was mapped before, each page maps to its frame
    with the requested attributes, and no other mapping changes.  On failure the
    error says the memory or an entry was missing, and no page outside the
    request gains a mapping. *)
Theorem mappages_spec own live s la pa flags n :
  inv root own live s -> fits 8 flags -> 0 < n -> span_ok la pa n ->
  exists r s' own' live', mappages root la pa flags n ID_OFFSET s = (r, s')
    /\ inv root own' live' s' /\ map_post la pa flags n s r s'.
Proof.
  intros Hinv Hf Hn Hspan. pose proof Hspan as (_ & Hal & _ & _ & _ & Hpal & _).
  unfold mappages. rewrite !in_page_offset_eq, Hal, Hpal, (proj2 (Z.eqb_neq n 0)) by lia. simpl orb. cbv iota.
  destruct (mappages_loop_post flags (Z.to_nat n) 1 la la pa 0 own live s) as (r & s' & own' & live' & Hr);
    [done|done|by rewrite Z2Nat.id by lia|].
  exists r, s', own', live'. by rewrite Z2Nat.id in Hr by lia.
Qed.

(** A misaligned or empty request is refused before anything is touched. *)
Theorem mappages_guards s la pa flags n :
  in_page_offset la <> 0 \/ in_page_offset pa <> 0 \/ n = 0 ->
  exists e, mappages root la pa flags n ID_OFFSET s = (Err e, s)
    /\ e = if (in_page_offset la =? 0) && (in_page_offset pa =? 0) then RangeEmpty
           else AddrMisaligned (Some la) (Some (wadd 64 (wadd 64 la n) PAGE_SIZE)) (Some pa).
Proof.
  intros Hg. eexists. split; [|done]. unfold mappages.
  destruct (Z.eqb_spec (in_page_offset la) 0), (Z.eqb_spec (in_page_offset pa) 0); try done.
  simpl. destruct (Z.eqb_spec n 0); [done|]. tauto.
Qed.

(** ** Reprotecting *)
Lemma Entry_addr_frame e : fits 56 (Entry_addr e pt) /\ Entry_addr e pt mod 2 ^ 12 = 0.
Proof.
  unfold Entry_addr, Entry_get. cbn [fst]. assert (fits 64 (wshl 64 e 2)) by (by apply wrap_fits).
  rewrite paddr_mask_land by (done || unfold pt; lia). change (page_shift pt) with 12.
  pose proof (Z.mod_pos_bound (wshl 64 e 2) (2 ^ 56)). unfold fits. rewrite Z.mod_mul by lia.
  Z.div_mod_to_equations. lia.
Qed.

(** The mapping after [n] pages were given new attributes. *)
Definition reprotect_post (la flags n : Z) s (r : res Error Z) s' : Prop :=
  match r with
  | Ok _ => forall x, fits 64 x ->
      if in_pages la n x
      then exists e, walk 2 (mem s) root x = Some (O, e)
                     /\ mapped root (mem s') x = Some (O, (Entry_addr e pt, Z.lor flags VALID))
      else mapped root (mem s') x = mapped root (mem s) x
  | Err e => e = EntryExistent false
             /\ forall x, fits 64 x -> in_pages la n x = false -> mapped root (mem s') x = mapped root (mem s) x
  | Panic => False
  end.

Lemma in_pages_0 la x : in_pages la 0 x = false.
Proof. apply not_true_iff_false. unfold in_pages. rewrite andb_true_iff, Z.leb_le, Z.ltb_lt. lia. Qed.

Lemma in_pages_1 la x : in_pages la 1 x = (vpn_at 0 x =? vpn_at 0 la).
Proof.
  unfold in_pages, page_no. apply eq_true_iff_eq. rewrite andb_true_iff, Z.leb_le, Z.ltb_lt, Z.eqb_eq. lia.
Qed.

(** One page and then the others. *)
Lemma reprotect_post_step la flags n s e0 s1 r s' :
  span_ok la 0 (1 + n) -> 0 < n -> fits 8 flags ->
  (forall x, fits 64 x -> vpn_at 0 x = vpn_at 0 la -> walk 2 (mem s) root x = Some (O, e0)) ->
  (forall x, fits 64 x -> walk 2 (mem s1) root x =
     if vpn_at 0 x =? vpn_at 0 la then Some (O, Entry_new (Entry_addr e0 pt) (Z.lor flags VALID) pt)
     else walk 2 (mem s) root x) ->
  reprotect_post (la + 2 ^ 12) flags n s1 r s' -> reprotect_post la flags (1 + n) s r s'.
Proof.
  intros (Hla & Hal & Hend & Hv & _) Hn Hfl Hw Hs1. assert (fits 64 (la + 2 ^ 12)) by (unfold fits; lia).
  assert (Hne : forall x, fits 64 x -> vpn_at 0 x <> vpn_at 0 la ->
    walk 2 (mem s1) root x = walk 2 (mem s) root x).
  { intros x Hx Hne. by rewrite Hs1, (proj2 (Z.eqb_neq _ _) Hne). }
  destruct r as [e|e|]; [| |done].
  - intros Hm x Hx. specialize (Hm x Hx). rewrite in_pages_next in Hm by (done || lia).
    destruct (Z.eqb_spec (vpn_at 0 x) (vpn_at 0 la)) as [Heq|Hxne].
    + rewrite andb_false_r in Hm. rewrite in_pages_first by (done || lia). exists e0. split; [by apply Hw|].
      rewrite Hm. unfold mapped. rewrite Hs1, (proj2 (Z.eqb_eq _ _) Heq) by done.
      destruct (Entry_addr_frame e0). by apply leaf_new.
    + rewrite andb_true_r in Hm. destruct (in_pages la (1 + n) x); [by rewrite Hne in Hm|].
      rewrite Hm. unfold mapped. by rewrite Hne.
  - intros [-> Hm]. split; [done|]. intros x Hx Hin. specialize (Hm x Hx).
    rewrite in_pages_next, Hin in Hm by (done || lia). rewrite Hm by done. unfold mapped. f_equal. apply Hne; [done|].
    intros Heq. rewrite in_pages_first in Hin by (done || lia). done.
Qed.

Lemma reprotect_loop_post flags n : forall la last own live s,
  inv root own live s -> fits 8 flags -> span_ok la 0 (Z.of_nat n) ->
  exists r s', reprotect_loop n root la flags ID_OFFSET last s = (r, s')
    /\ inv root own live s' /\ reprotect_post la flags (Z.of_nat n) s r s'.
Proof.
  induction n as [|n IH]; intros la last own live s Hinv Hf Hspan.
  { exists (Ok last), s. split; [done|]. split; [done|]. intros x Hx. by rewrite in_pages_0. }
  pose proof Hspan as (Hla & Hal & Hend & Hv & _). assert (Hfla : fits 64 la) by (unfold fits; lia).
  cbn [reprotect_loop].
  destruct (la2pte_cases root own s la (proj1 Hinv) Hfla) as [(t & e & E & Ho & He & Hw)|(E & Hw)].
  2:{ rewrite (ST_bind_Err _ _ _ _ _ E). by exists (Err (EntryExistent false)), s. }
  rewrite (ST_bind_Ok _ _ _ _ _ E). cbn [fst snd]. erewrite ST_bind_Ok by (rewrite read_entry_eq, He; done).
  fold (Entry_addr e pt).
  destruct (write_leaf_walk root own live s t la (Entry_new (Entry_addr e pt) (Z.lor flags VALID) pt) Hinv Hfla Ho)
    as (s1 & E1 & Hinv1 & Hw1). rewrite (ST_bind_Ok _ _ _ _ _ E1).
  assert (Hpage : forall x, fits 64 x -> vpn_at 0 x = vpn_at 0 la -> walk 2 (mem s) root x = Some (O, e)).
  { intros x Hx Hxla. destruct (vpn_page x la Hx Hfla Hxla) as [H1 H2].
    apply (walk_leaf root own _ t x e); [apply Hinv|done|by rewrite H1|by rewrite H2]. }
  destruct n as [|n].
  { eexists _, s1. split; [done|]. split; [done|]. intros x Hx. change (Z.of_nat 1) with 1. rewrite in_pages_1.
    unfold mapped. rewrite Hw1 by done. destruct (Z.eqb_spec (vpn_at 0 x) (vpn_at 0 la)); [|done].
    exists e. split; [by apply Hpage|]. destruct (Entry_addr_frame e). by apply leaf_new. }
  unfold addr_add. change PAGE_SIZE with (2 ^ 12). rewrite !wadd_small by (unfold fits; lia).
  replace (Z.of_nat (S (S n))) with (1 + Z.of_nat (S n)) in * by lia.
  destruct (IH (la + 2 ^ 12) (Entry_new (Entry_addr e pt) (Z.lor flags VALID) pt) own live s1)
    as (r & s' & E' & Hinv' & Hpost); [done|done|by apply span_ok_virt; [|lia]|].
  exists r, s'. split; [done|]. split; [done|]. apply (reprotect_post_step la flags _ s e s1); (done || lia).
Qed.

(** Giving consecutive pages new attributes keeps every frame and changes no
    other page; it fails, without panicking, only where a page has no last-level
    entry. *)
Theorem reprotect_spec own live s la flags n :
  inv root own live s -> fits 8 flags -> 0 <= n -> span_ok la 0 n ->
  exists r s', reprotect root la n flags ID_OFFSET s = (r, s')
    /\ inv root own live s' /\ reprotect_post la flags n s r s'.
Proof.
  intros Hinv Hf Hn Hspan. pose proof Hspan as (_ & Hal & _). unfold reprotect.
  rewrite in_page_offset_eq, Hal. simpl negb. cbv iota.
  destruct (reprotect_loop_post flags (Z.to_nat n) la 0 own live s) as (r & s' & Hr);
    [done|done|by rewrite Z2Nat.id by lia|].
  exists r, s'. by rewrite Z2Nat.id in Hr by lia.
Qed.

(** ** Translating *)
Definition la2pa_view (la : Z) (is_kernel : bool) (v : option (nat * (Z * Z))) : res Error Z :=
  if (BLANK_BEGIN <=? la) && (la <=? BLANK_END) then Err PermissionDenied
  else match v with
       | Some (O, (pa, attr)) =>
           if contains attr USER_ACCESS || is_kernel then Ok pa else Err PermissionDenied
       | _ => Err (EntryExistent false)
       end.

(** [la2pa] reads the mapping and changes nothing: it gives the frame of a
    4 KiB leaf to a caller with access, and an error otherwise. *)
Theorem la2pa_spec own s la is_kernel :
  tree_ok root own (mem s) -> fits 64 la ->
  la2pa root la is_kernel ID_OFFSET s = (la2pa_view la is_kernel (mapped root (mem s) la), s).
Proof.
  intros Hok Hla. unfold la2pa, la2pa_view. destruct (_ && _); [done|]. unfold mapped.
  destruct (la2pte_cases root own s la Hok Hla) as [(t & e & E & Ho & He & Hw)|(E & l & e & Hw)]; rewrite Hw.
  - rewrite (ST_bind_Ok _ _ _ _ _ E). cbn [fst snd]. erewrite ST_bind_Ok by (rewrite read_entry_eq, He; done).
    unfold leaf_view, is_set. destruct (Entry_get e pt) as [pa attr]. simpl.
    destruct (contains attr VALID); [|done]. by destruct (contains attr USER_ACCESS || is_kernel).
  - rewrite (ST_bind_Err _ _ _ _ _ E). unfold leaf_view. by destruct (is_set e).
Qed.
End Map.

(** ** Witnesses *)
Lemma mappages_spec_witness :
  exists r s' own' live', mappages ID_OFFSET 0x1000 0x80200000 USER_RW 2 ID_OFFSET empty_space = (r, s')
    /\ inv ID_OFFSET own' live' s' /\ map_post ID_OFFSET 0x1000 0x80200000 USER_RW 2 empty_space r s'.
Proof.
  apply (mappages_spec ID_OFFSET _ _ empty_space 0x1000 0x80200000 USER_RW 2 empty_space_inv);
    [split; [discriminate|reflexivity]|lia|].
  unfold span_ok. change (vpn_at 0 0x1000) with 1. split_and!; (reflexivity || lia).
Defined.

Lemma mappages_guards_witness :
  exists e, mappages ID_OFFSET 0x1001 0 USER_RW 1 ID_OFFSET empty_space = (Err e, empty_space)
    /\ e = AddrMisaligned (Some 0x1001) (Some 0x2002) (Some 0).
Proof. apply (mappages_guards ID_OFFSET empty_space 0x1001 0 USER_RW 1). left. discriminate. Defined.

Lemma reprotect_spec_witness :
  exists r s', reprotect ID_OFFSET 0x1000 1 USER_R ID_OFFSET empty_space = (r, s')
    /\ inv ID_OFFSET {[ID_OFFSET := (2%nat, 0)]} {[ID_OFFSET]} s'
    /\ reprotect_post ID_OFFSET 0x1000 USER_R 1 empty_space r s'.
Proof.
  apply (reprotect_spec ID_OFFSET _ _ empty_space 0x1000 USER_R 1 empty_space_inv);
    [split; [discriminate|reflexivity]|lia|].
  unfold span_ok. change (vpn_at 0 0x1000) with 1. split_and!; (reflexivity || lia).
Defined.

Lemma la2pa_spec_witness :
  la2pa ID_OFFSET 0x1000 true ID_OFFSET empty_space = (Err (EntryExistent false), empty_space).
Proof.
  apply (la2pa_spec ID_OFFSET {[ID_OFFSET := (2%nat, 0)]} empty_space 0x1000 true);
    [apply tree_ok_empty|split; [discriminate|reflexivity]].
Defined.

(** ** Evaluations *)
Example map_then_translate :
  let s := (mappages ID_OFFSET 0x1000 0x80200000 USER_RW 2 ID_OFFSET empty_space).2 in
  (la2pa ID_OFFSET 0x2000 false ID_OFFSET s).1 = Ok 0x80201000.
Proof. vm_compute. reflexivity. Qed.

(** A range whose end is not a multiple of 1 GiB removes pages outside it: the
    end index of a table beyond the range is taken from the range's end. *)
Example unmap_outside_range :
  let s1 := (mappages ID_OFFSET 0x40001000 0x80200000 USER_RW 1 ID_OFFSET empty_space).2 in
  let s2 := (unmap ID_OFFSET (0x1000, 0x3000) ID_OFFSET s1).2 in
  (la2pa ID_OFFSET 0x40001000 false ID_OFFSET s1).1 = Ok 0x80200000
  /\ (la2pa ID_OFFSET 0x40001000 false ID_OFFSET s2).1 = Err (EntryExistent false).
Proof. vm_compute. done. Qed.

(** [reprotect] does not look at the valid bit: a page that was never mapped
    becomes a mapping of frame 0. *)
Example reprotect_unmapped :
  let s1 := (mappages ID_OFFSET 0x1000 0x80200000 USER_RW 1 ID_OFFSET empty_space).2 in
  let s2 := (reprotect ID_OFFSET 0x2000 1 USER_RW ID_OFFSET s1).2 in
  (la2pa ID_OFFSET 0x2000 false ID_OFFSET s1).1 = Err (EntryExistent false)
  /\ (la2pa ID_OFFSET 0x2000 false ID_OFFSET s2).1 = Ok 0.
Proof. vm_compute. done. Qed.

(** A failed [mappages] keeps the pages it mapped before it met a mapped one. *)
Example mappages_partial :
  let s1 := (mappages ID_OFFSET 0x2000 0x80200000 USER_RW 1 ID_OFFSET empty_space).2 in
  let '(r, s2) := mappages ID_OFFSET 0x1000 0x80300000 USER_RW 2 ID_OFFSET s1 in
  r = Err (EntryExistent true) /\ (la2pa ID_OFFSET 0x1000 false ID_OFFSET s2).1 = Ok 0x80300000.
Proof. vm_compute. done. Qed.

(** Splitting a 1 GiB leaf gives its items a 4 KiB stride. *)
Example split_gib_stride :
  (fun e => Entry_addr e 1) <$> (split_items 0x40000000 KERNEL_RW 1 !! 1%nat) = Some 0x40000000.
Proof. vm_compute. done. Qed.
