(* ===== verification/Ksc.v ===== *)
(** * ksc-core: error numbers, system-call numbers and raw registers

    The values a system call returns in a register: the integer conversions of
    [RawReg], the error numbers with their conversions, and the call numbers. *)

From S2P Require Import Prelude Paging.
From Stdlib Require Import String.
From stdpp Require Import strings.
Open Scope Z_scope.

Module Errno.

(** ** error.rs *)
Inductive Error :=
| EUNDEF
| EPERM
| ENOENT
| ESRCH
| EINTR
| EIO
| ENXIO
| E2BIG
| ENOEXEC
| EBADF
| ECHILD
| EAGAIN
| ENOMEM
| EACCES
| EFAULT
| ENOTBLK
| EBUSY
| EEXIST
| EXDEV
| ENODEV
| ENOTDIR
| EISDIR
| EINVAL
| ENFILE
| EMFILE
| ENOTTY
| ETXTBSY
| EFBIG
| ENOSPC
| ESPIPE
| EROFS
| EMLINK
| EPIPE
| EDOM
| ERANGE
| EDEADLK
| ENAMETOOLONG
| ENOLCK
| ENOSYS
| ENOTEMPTY
| ELOOP
| ENOMSG
| EIDRM
| ECHRNG
| EL2NSYNC
| EL3HLT
| EL3RST
| ELNRNG
| EUNATCH
| ENOCSI
| EL2HLT
| EBADE
| EBADR
| EXFULL
| ENOANO
| EBADRQC
| EBADSLT
| EBFONT
| ENOSTR
| ENODATA
| ETIME
| ENOSR
| ENONET
| ENOPKG
| EREMOTE
| ENOLINK
| EADV
| ESRMNT
| ECOMM
| EPROTO
| EMULTIHOP
| EDOTDOT
| EBADMSG
| EOVERFLOW
| ENOTUNIQ
| EBADFD
| EREMCHG
| ELIBACC
| ELIBBAD
| ELIBSCN
| ELIBMAX
| ELIBEXEC
| EILSEQ
| ERESTART
| ESTRPIPE
| EUSERS
| ENOTSOCK
| EDESTADDRREQ
| EMSGSIZE
| EPROTOTYPE
| ENOPROTOOPT
| EPROTONOSUPPORT
| ESOCKTNOSUPPORT
| EOPNOTSUPP
| EPFNOSUPPORT
| EAFNOSUPPORT
| EADDRINUSE
| EADDRNOTAVAIL
| ENETDOWN
| ENETUNREACH
| ENETRESET
| ECONNABORTED
| ECONNRESET
| ENOBUFS
| EISCONN
| ENOTCONN
| ESHUTDOWN
| ETOOMANYREFS
| ETIMEDOUT
| ECONNREFUSED
| EHOSTDOWN
| EHOSTUNREACH
| EALREADY
| EINPROGRESS
| ESTALE
| EUCLEAN
| ENOTNAM
| ENAVAIL
| EISNAM
| EREMOTEIO
| EDQUOT
| ENOMEDIUM
| EMEDIUMTYPE
| ECANCELED
| ENOKEY
| EKEYEXPIRED
| EKEYREVOKED
| EKEYREJECTED
| EOWNERDEAD
| ENOTRECOVERABLE
| ERFKILL
| EHWPOISON.

#[export] Instance Error_eq_dec : EqDecision Error.
Proof. solve_decision. Defined.

(** The discriminant, [self as isize]. *)
Definition discr (e : Error) : Z :=
  match e with
  | EUNDEF => 0
  | EPERM => 1
  | ENOENT => 2
  | ESRCH => 3
  | EINTR => 4
  | EIO => 5
  | ENXIO => 6
  | E2BIG => 7
  | ENOEXEC => 8
  | EBADF => 9
  | ECHILD => 10
  | EAGAIN => 11
  | ENOMEM => 12
  | EACCES => 13
  | EFAULT => 14
  | ENOTBLK => 15
  | EBUSY => 16
  | EEXIST => 17
  | EXDEV => 18
  | ENODEV => 19
  | ENOTDIR => 20
  | EISDIR => 21
  | EINVAL => 22
  | ENFILE => 23
  | EMFILE => 24
  | ENOTTY => 25
  | ETXTBSY => 26
  | EFBIG => 27
  | ENOSPC => 28
  | ESPIPE => 29
  | EROFS => 30
  | EMLINK => 31
  | EPIPE => 32
  | EDOM => 33
  | ERANGE => 34
  | EDEADLK => 35
  | ENAMETOOLONG => 36
  | ENOLCK => 37
  | ENOSYS => 38
  | ENOTEMPTY => 39
  | ELOOP => 40
  | ENOMSG => 42
  | EIDRM => 43
  | ECHRNG => 44
  | EL2NSYNC => 45
  | EL3HLT => 46
  | EL3RST => 47
  | ELNRNG => 48
  | EUNATCH => 49
  | ENOCSI => 50
  | EL2HLT => 51
  | EBADE => 52
  | EBADR => 53
  | EXFULL => 54
  | ENOANO => 55
  | EBADRQC => 56
  | EBADSLT => 57
  | EBFONT => 59
  | ENOSTR => 60
  | ENODATA => 61
  | ETIME => 62
  | ENOSR => 63
  | ENONET => 64
  | ENOPKG => 65
  | EREMOTE => 66
  | ENOLINK => 67
  | EADV => 68
  | ESRMNT => 69
  | ECOMM => 70
  | EPROTO => 71
  | EMULTIHOP => 72
  | EDOTDOT => 73
  | EBADMSG => 74
  | EOVERFLOW => 75
  | ENOTUNIQ => 76
  | EBADFD => 77
  | EREMCHG => 78
  | ELIBACC => 79
  | ELIBBAD => 80
  | ELIBSCN => 81
  | ELIBMAX => 82
  | ELIBEXEC => 83
  | EILSEQ => 84
  | ERESTART => 85
  | ESTRPIPE => 86
  | EUSERS => 87
  | ENOTSOCK => 88
  | EDESTADDRREQ => 89
  | EMSGSIZE => 90
  | EPROTOTYPE => 91
  | ENOPROTOOPT => 92
  | EPROTONOSUPPORT => 93
  | ESOCKTNOSUPPORT => 94
  | EOPNOTSUPP => 95
  | EPFNOSUPPORT => 96
  | EAFNOSUPPORT => 97
  | EADDRINUSE => 98
  | EADDRNOTAVAIL => 99
  | ENETDOWN => 100
  | ENETUNREACH => 101
  | ENETRESET => 102
  | ECONNABORTED => 103
  | ECONNRESET => 104
  | ENOBUFS => 105
  | EISCONN => 106
  | ENOTCONN => 107
  | ESHUTDOWN => 108
  | ETOOMANYREFS => 109
  | ETIMEDOUT => 110
  | ECONNREFUSED => 111
  | EHOSTDOWN => 112
  | EHOSTUNREACH => 113
  | EALREADY => 114
  | EINPROGRESS => 115
  | ESTALE => 116
  | EUCLEAN => 117
  | ENOTNAM => 118
  | ENAVAIL => 119
  | EISNAM => 120
  | EREMOTEIO => 121
  | EDQUOT => 122
  | ENOMEDIUM => 123
  | EMEDIUMTYPE => 124
  | ECANCELED => 125
  | ENOKEY => 126
  | EKEYEXPIRED => 127
  | EKEYREVOKED => 128
  | EKEYREJECTED => 129
  | EOWNERDEAD => 130
  | ENOTRECOVERABLE => 131
  | ERFKILL => 132
  | EHWPOISON => 133
  end.

(** The variants, in the order of the source. *)
Definition all_errors : list Error :=
  [
    EUNDEF; EPERM; ENOENT; ESRCH; EINTR; EIO; ENXIO; E2BIG; ENOEXEC; EBADF; ECHILD; EAGAIN;
    ENOMEM; EACCES; EFAULT; ENOTBLK; EBUSY; EEXIST; EXDEV; ENODEV; ENOTDIR; EISDIR; EINVAL;
    ENFILE; EMFILE; ENOTTY; ETXTBSY; EFBIG; ENOSPC; ESPIPE; EROFS; EMLINK; EPIPE; EDOM; ERANGE;
    EDEADLK; ENAMETOOLONG; ENOLCK; ENOSYS; ENOTEMPTY; ELOOP; ENOMSG; EIDRM; ECHRNG; EL2NSYNC;
    EL3HLT; EL3RST; ELNRNG; EUNATCH; ENOCSI; EL2HLT; EBADE; EBADR; EXFULL; ENOANO; EBADRQC;
    EBADSLT; EBFONT; ENOSTR; ENODATA; ETIME; ENOSR; ENONET; ENOPKG; EREMOTE; ENOLINK; EADV;
    ESRMNT; ECOMM; EPROTO; EMULTIHOP; EDOTDOT; EBADMSG; EOVERFLOW; ENOTUNIQ; EBADFD; EREMCHG;
    ELIBACC; ELIBBAD; ELIBSCN; ELIBMAX; ELIBEXEC; EILSEQ; ERESTART; ESTRPIPE; EUSERS; ENOTSOCK;
    EDESTADDRREQ; EMSGSIZE; EPROTOTYPE; ENOPROTOOPT; EPROTONOSUPPORT; ESOCKTNOSUPPORT;
    EOPNOTSUPP; EPFNOSUPPORT; EAFNOSUPPORT; EADDRINUSE; EADDRNOTAVAIL; ENETDOWN; ENETUNREACH;
    ENETRESET; ECONNABORTED; ECONNRESET; ENOBUFS; EISCONN; ENOTCONN; ESHUTDOWN; ETOOMANYREFS;
    ETIMEDOUT; ECONNREFUSED; EHOSTDOWN; EHOSTUNREACH; EALREADY; EINPROGRESS; ESTALE; EUCLEAN;
    ENOTNAM; ENAVAIL; EISNAM; EREMOTEIO; EDQUOT; ENOMEDIUM; EMEDIUMTYPE; ECANCELED; ENOKEY;
    EKEYEXPIRED; EKEYREVOKED; EKEYREJECTED; EOWNERDEAD; ENOTRECOVERABLE; ERFKILL; EHWPOISON ].

(** [FromPrimitive::from_isize] as derived: the variant with this discriminant. *)
Definition from_isize (n : Z) : option Error := List.find (fun e => discr e =? n) all_errors.

(** The text of [Display]. *)
Definition message (e : Error) : string :=
  match e with
  | EUNDEF => "Success"
  | EPERM => "Operation not permitted"
  | ENOENT => "No such file or directory"
  | ESRCH => "No such process"
  | EINTR => "Interrupted system call"
  | EIO => "I/O error"
  | ENXIO => "No such device or address"
  | E2BIG => "Argument list too long"
  | ENOEXEC => "Exec format error"
  | EBADF => "Bad file number"
  | ECHILD => "No child processes"
  | EAGAIN => "Try again"
  | ENOMEM => "Out of memory"
  | EACCES => "Permission denied"
  | EFAULT => "Bad address"
  | ENOTBLK => "Block device required"
  | EBUSY => "Device or resource busy"
  | EEXIST => "File exists"
  | EXDEV => "Cross-device link"
  | ENODEV => "No such device"
  | ENOTDIR => "Not a directory"
  | EISDIR => "Is a directory"
  | EINVAL => "Invalid argument"
  | ENFILE => "File table overflow"
  | EMFILE => "Too many open files"
  | ENOTTY => "Not a typewriter"
  | ETXTBSY => "Text file busy"
  | EFBIG => "File too large"
  | ENOSPC => "No space left on device"
  | ESPIPE => "Illegal seek"
  | EROFS => "Read-only file system"
  | EMLINK => "Too many links"
  | EPIPE => "Broken pipe"
  | EDOM => "Math argument out of domain of func"
  | ERANGE => "Math result not representable"
  | EDEADLK => "Resource deadlock would occur"
  | ENAMETOOLONG => "File name too long"
  | ENOLCK => "No record locks available"
  | ENOSYS => "Function not implemented"
  | ENOTEMPTY => "Directory not empty"
  | ELOOP => "Too many symbolic links encountered"
  | ENOMSG => "No message of desired type"
  | EIDRM => "Identifier removed"
  | ECHRNG => "Channel number out of range"
  | EL2NSYNC => "Level 2 not synchronized"
  | EL3HLT => "Level 3 halted"
  | EL3RST => "Level 3 reset"
  | ELNRNG => "Link number out of range"
  | EUNATCH => "Protocol driver not attached"
  | ENOCSI => "No CSI structure available"
  | EL2HLT => "Level 2 halted"
  | EBADE => "Invalid exchange"
  | EBADR => "Invalid request descriptor"
  | EXFULL => "Exchange full"
  | ENOANO => "No anode"
  | EBADRQC => "Invalid request code"
  | EBADSLT => "Invalid slot"
  | EBFONT => "Bad font file format"
  | ENOSTR => "Device not a stream"
  | ENODATA => "No data available"
  | ETIME => "Timer expired"
  | ENOSR => "Out of streams resources"
  | ENONET => "Machine is not on the network"
  | ENOPKG => "Package not installed"
  | EREMOTE => "Object is remote"
  | ENOLINK => "Link has been severed"
  | EADV => "Advertise error"
  | ESRMNT => "Srmount error"
  | ECOMM => "Communication error on send"
  | EPROTO => "Protocol error"
  | EMULTIHOP => "Multihop attempted"
  | EDOTDOT => "RFS specific error"
  | EBADMSG => "Not a data message"
  | EOVERFLOW => "Value too large for defined data type"
  | ENOTUNIQ => "Name not unique on network"
  | EBADFD => "File descriptor in bad state"
  | EREMCHG => "Remote address changed"
  | ELIBACC => "Can not access a needed shared library"
  | ELIBBAD => "Accessing a corrupted shared library"
  | ELIBSCN => ".lib section in a.out corrupted"
  | ELIBMAX => "Attempting to link in too many shared libraries"
  | ELIBEXEC => "Cannot exec a shared library directly"
  | EILSEQ => "Illegal byte sequence"
  | ERESTART => "Interrupted system call should be restarted"
  | ESTRPIPE => "Streams pipe error"
  | EUSERS => "Too many users"
  | ENOTSOCK => "Socket operation on non-socket"
  | EDESTADDRREQ => "Destination address required"
  | EMSGSIZE => "Message too long"
  | EPROTOTYPE => "Protocol wrong type for socket"
  | ENOPROTOOPT => "Protocol not available"
  | EPROTONOSUPPORT => "Protocol not supported"
  | ESOCKTNOSUPPORT => "Socket type not supported"
  | EOPNOTSUPP => "Operation not supported on transport endpoint"
  | EPFNOSUPPORT => "Protocol family not supported"
  | EAFNOSUPPORT => "Address family not supported by protocol"
  | EADDRINUSE => "Address already in use"
  | EADDRNOTAVAIL => "Cannot assign requested address"
  | ENETDOWN => "Network is down"
  | ENETUNREACH => "Network is unreachable"
  | ENETRESET => "Network dropped connection because of reset"
  | ECONNABORTED => "Software caused connection abort"
  | ECONNRESET => "Connection reset by peer"
  | ENOBUFS => "No buffer space available"
  | EISCONN => "Transport endpoint is already connected"
  | ENOTCONN => "Transport endpoint is not connected"
  | ESHUTDOWN => "Cannot send after transport endpoint shutdown"
  | ETOOMANYREFS => "Too many references: cannot splice"
  | ETIMEDOUT => "Time out"
  | ECONNREFUSED => "Connection refused"
  | EHOSTDOWN => "Host is down"
  | EHOSTUNREACH => "No route to host"
  | EALREADY => "Operation already in progress"
  | EINPROGRESS => "Operation now in progress"
  | ESTALE => "Stale file handle"
  | EUCLEAN => "Structure needs cleaning"
  | ENOTNAM => "Not a XENIX named type file"
  | ENAVAIL => "No XENIX semaphores available"
  | EISNAM => "Is a named type file"
  | EREMOTEIO => "Remote I/O error"
  | EDQUOT => "Quota exceeded"
  | ENOMEDIUM => "No medium found"
  | EMEDIUMTYPE => "Wrong medium type"
  | ECANCELED => "Operation Canceled"
  | ENOKEY => "Required key not available"
  | EKEYEXPIRED => "Key has expired"
  | EKEYREVOKED => "Key has been revoked"
  | EKEYREJECTED => "Key was rejected by service"
  | EOWNERDEAD => "Owner died"
  | ENOTRECOVERABLE => "State not recoverable"
  | ERFKILL => "Operation not possible due to RF-kill"
  | EHWPOISON => "Memory page has hardware error"
  end%string.

(** [isize] negation wraps; [as usize] keeps the bits. *)
Definition try_from_raw (raw : Z) : option Error :=
  from_isize (to_signed 64 (wrap 64 (- to_signed 64 raw))).
Definition into_raw (e : Error) : Z := wrap 64 (- discr e).

(** The conversions of the errors of other crates. *)
Definition from_paging (e : PG.Error) : Error :=
  match e with
  | PG.OutOfMemory => ENOMEM
  | PG.AddrMisaligned _ _ _ => EINVAL
  | PG.RangeEmpty => EINVAL
  | PG.EntryExistent true => EEXIST
  | PG.EntryExistent false => ENOENT
  | PG.PermissionDenied => EPERM
  end.
Definition from_nom : Error := EIO.
Definition from_layout : Error := ENOMEM.
Definition from_try_from_int : Error := EINVAL.
Definition from_utf8 : Error := EINVAL.
Definition from_bytes_until_nul : Error := ENAMETOOLONG.

(** ** raw_reg.rs *)
Class RawReg (T : Type) := {
  from_raw_of : Z -> T;
  into_raw_of : T -> Z;
}.

#[export] Instance RawReg_unit : RawReg unit := {
  from_raw_of _ := tt;
  into_raw_of _ := 0;
}.
#[export] Instance RawReg_bool : RawReg bool := {
  from_raw_of raw := negb (raw =? 0);
  into_raw_of b := if b then 1 else 0;
}.

(** [impl_int!]: an integer type is its width and signedness; a pointer is a
    64-bit unsigned integer. *)
Definition int_from_raw (signed : bool) (w raw : Z) : Z :=
  if signed then to_signed w (wrap w raw) else wrap w raw.
Definition int_into_raw (v : Z) : Z := wrap 64 v.

#[export] Instance RawReg_usize : RawReg Z := {
  from_raw_of := int_from_raw false 64;
  into_raw_of := int_into_raw;
}.

(** [RawReg] for [Result<T>]; the result itself never panics. *)
Definition result_from_raw {T} `{RawReg T} (raw : Z) : T + Error :=
  match try_from_raw raw with Some e => inr e | None => inl (from_raw_of raw) end.
Definition result_into_raw {T} `{RawReg T} (r : T + Error) : Z :=
  match r with inl v => into_raw_of v | inr e => into_raw e end.

(** ** scn.rs: the system-call numbers *)
Inductive Scn :=
| GETCWD
| DUP
| DUP3
| FCNTL
| IOCTL
| MKDIRAT
| UNLINKAT
| UMOUNT2
| MOUNT
| STATFS
| TRUNCATE
| FTRUNCATE
| FACCESSAT
| CHDIR
| FCHMOD
| FCHMODAT
| FCHOWN
| OPENAT
| CLOSE
| PIPE2
| GETDENTS64
| LSEEK
| READ
| WRITE
| READV
| WRITEV
| PREAD64
| PWRITE64
| PREADV64
| PWRITEV64
| SENDFILE
| PSELECT6
| PPOLL
| READLINKAT
| NEWFSTATAT
| FSTAT
| SYNC
| FSYNC
| UTIMENSAT
| EXIT
| EXIT_GROUP
| SET_TID_ADDRESS
| FUTEX
| SET_ROBUST_LIST
| GET_ROBUST_LIST
| NANOSLEEP
| SETITIMER
| CLOCK_GETTIME
| CLOCK_GETRES
| CLOCK_NANOSLEEP
| SYSLOG
| SCHED_SETSCHEDULER
| SCHED_GETSCHEDULER
| SCHED_GETPARAM
| SCHED_SETAFFINITY
| SCHED_GETAFFINITY
| SCHED_YIELD
| KILL
| TKILL
| TGKILL
| SIGALTSTACK
| RT_SIGSUSPEND
| RT_SIGACTION
| RT_SIGPROCMASK
| RT_SIGPENDING
| RT_SIGTIMEDWAIT
| RT_SIGQUEUEINFO
| RT_SIGRETURN
| TIMES
| SETPGID
| GETPGID
| SETSID
| UNAME
| GETRUSAGE
| UMASK
| GETTIMEOFDAY
| GETPID
| GETPPID
| GETUID
| GETEUID
| GETGID
| GETEGID
| GETTID
| SYSINFO
| SHMGET
| SHMCTL
| SHMAT
| SHMDT
| SOCKET
| SOCKETPAIR
| BIND
| LISTEN
| ACCEPT
| CONNECT
| GETSOCKNAME
| GETPEERNAME
| SENDTO
| RECVFROM
| SETSOCKOPT
| GETSOCKOPT
| SHUTDOWN
| BRK
| MUNMAP
| CLONE
| EXECVE
| MMAP
| MPROTECT
| MSYNC
| MADVISE
| WAIT4
| PRLIMIT64
| RENAMEAT2
| GETRANDOM
| MEMBARRIER
| COPY_FILE_RANGE.

#[export] Instance Scn_eq_dec : EqDecision Scn.
Proof. solve_decision. Defined.

Definition scn_num (s : Scn) : Z :=
  match s with
  | GETCWD => 17
  | DUP => 23
  | DUP3 => 24
  | FCNTL => 25
  | IOCTL => 29
  | MKDIRAT => 34
  | UNLINKAT => 35
  | UMOUNT2 => 39
  | MOUNT => 40
  | STATFS => 43
  | TRUNCATE => 45
  | FTRUNCATE => 46
  | FACCESSAT => 48
  | CHDIR => 49
  | FCHMOD => 52
  | FCHMODAT => 53
  | FCHOWN => 55
  | OPENAT => 56
  | CLOSE => 57
  | PIPE2 => 59
  | GETDENTS64 => 61
  | LSEEK => 62
  | READ => 63
  | WRITE => 64
  | READV => 65
  | WRITEV => 66
  | PREAD64 => 67
  | PWRITE64 => 68
  | PREADV64 => 69
  | PWRITEV64 => 70
  | SENDFILE => 71
  | PSELECT6 => 72
  | PPOLL => 73
  | READLINKAT => 78
  | NEWFSTATAT => 79
  | FSTAT => 80
  | SYNC => 81
  | FSYNC => 82
  | UTIMENSAT => 88
  | EXIT => 93
  | EXIT_GROUP => 94
  | SET_TID_ADDRESS => 96
  | FUTEX => 98
  | SET_ROBUST_LIST => 99
  | GET_ROBUST_LIST => 100
  | NANOSLEEP => 101
  | SETITIMER => 103
  | CLOCK_GETTIME => 113
  | CLOCK_GETRES => 114
  | CLOCK_NANOSLEEP => 115
  | SYSLOG => 116
  | SCHED_SETSCHEDULER => 119
  | SCHED_GETSCHEDULER => 120
  | SCHED_GETPARAM => 121
  | SCHED_SETAFFINITY => 122
  | SCHED_GETAFFINITY => 123
  | SCHED_YIELD => 124
  | KILL => 129
  | TKILL => 130
  | TGKILL => 131
  | SIGALTSTACK => 132
  | RT_SIGSUSPEND => 133
  | RT_SIGACTION => 134
  | RT_SIGPROCMASK => 135
  | RT_SIGPENDING => 136
  | RT_SIGTIMEDWAIT => 137
  | RT_SIGQUEUEINFO => 138
  | RT_SIGRETURN => 139
  | TIMES => 153
  | SETPGID => 154
  | GETPGID => 155
  | SETSID => 157
  | UNAME => 160
  | GETRUSAGE => 165
  | UMASK => 166
  | GETTIMEOFDAY => 169
  | GETPID => 172
  | GETPPID => 173
  | GETUID => 174
  | GETEUID => 175
  | GETGID => 176
  | GETEGID => 177
  | GETTID => 178
  | SYSINFO => 179
  | SHMGET => 194
  | SHMCTL => 195
  | SHMAT => 196
  | SHMDT => 197
  | SOCKET => 198
  | SOCKETPAIR => 199
  | BIND => 200
  | LISTEN => 201
  | ACCEPT => 202
  | CONNECT => 203
  | GETSOCKNAME => 204
  | GETPEERNAME => 205
  | SENDTO => 206
  | RECVFROM => 207
  | SETSOCKOPT => 208
  | GETSOCKOPT => 209
  | SHUTDOWN => 210
  | BRK => 214
  | MUNMAP => 215
  | CLONE => 220
  | EXECVE => 221
  | MMAP => 222
  | MPROTECT => 226
  | MSYNC => 227
  | MADVISE => 233
  | WAIT4 => 260
  | PRLIMIT64 => 261
  | RENAMEAT2 => 276
  | GETRANDOM => 278
  | MEMBARRIER => 283
  | COPY_FILE_RANGE => 285
  end.

Definition all_scns : list Scn :=
  [
    GETCWD; DUP; DUP3; FCNTL; IOCTL; MKDIRAT; UNLINKAT; UMOUNT2; MOUNT; STATFS; TRUNCATE;
    FTRUNCATE; FACCESSAT; CHDIR; FCHMOD; FCHMODAT; FCHOWN; OPENAT; CLOSE; PIPE2; GETDENTS64;
    LSEEK; READ; WRITE; READV; WRITEV; PREAD64; PWRITE64; PREADV64; PWRITEV64; SENDFILE;
    PSELECT6; PPOLL; READLINKAT; NEWFSTATAT; FSTAT; SYNC; FSYNC; UTIMENSAT; EXIT; EXIT_GROUP;
    SET_TID_ADDRESS; FUTEX; SET_ROBUST_LIST; GET_ROBUST_LIST; NANOSLEEP; SETITIMER;
    CLOCK_GETTIME; CLOCK_GETRES; CLOCK_NANOSLEEP; SYSLOG; SCHED_SETSCHEDULER;
    SCHED_GETSCHEDULER; SCHED_GETPARAM; SCHED_SETAFFINITY; SCHED_GETAFFINITY; SCHED_YIELD; KILL;
    TKILL; TGKILL; SIGALTSTACK; RT_SIGSUSPEND; RT_SIGACTION; RT_SIGPROCMASK; RT_SIGPENDING;
    RT_SIGTIMEDWAIT; RT_SIGQUEUEINFO; RT_SIGRETURN; TIMES; SETPGID; GETPGID; SETSID; UNAME;
    GETRUSAGE; UMASK; GETTIMEOFDAY; GETPID; GETPPID; GETUID; GETEUID; GETGID; GETEGID; GETTID;
    SYSINFO; SHMGET; SHMCTL; SHMAT; SHMDT; SOCKET; SOCKETPAIR; BIND; LISTEN; ACCEPT; CONNECT;
    GETSOCKNAME; GETPEERNAME; SENDTO; RECVFROM; SETSOCKOPT; GETSOCKOPT; SHUTDOWN; BRK; MUNMAP;
    CLONE; EXECVE; MMAP; MPROTECT; MSYNC; MADVISE; WAIT4; PRLIMIT64; RENAMEAT2; GETRANDOM;
    MEMBARRIER; COPY_FILE_RANGE ].

Definition scn_from (n : Z) : option Scn := List.find (fun s => scn_num s =? n) all_scns.

(** ** Properties *)
Lemma all_errors_spec (e : Error) : In e all_errors.
Proof. destruct e; vm_compute; tauto. Qed.

Lemma from_isize_discr (e : Error) : from_isize (discr e) = Some e.
Proof. destruct e; reflexivity. Qed.

Lemma from_isize_Some (n : Z) (e : Error) : from_isize n = Some e -> discr e = n.
Proof. intros [_ E]%List.find_some. by apply Z.eqb_eq. Qed.

Lemma discr_range (e : Error) : 0 <= discr e <= 133.
Proof. destruct e; cbv; split; discriminate. Qed.

Lemma into_raw_fits (e : Error) : fits 64 (into_raw e).
Proof. by apply wrap_fits. Qed.

Lemma try_from_raw_iff (raw : Z) (e : Error) :
  fits 64 raw -> try_from_raw raw = Some e <-> raw = into_raw e.
Proof.
  intros Hraw. unfold try_from_raw, into_raw. split.
  - intros ->%from_isize_Some. rewrite wrap_opp_to_signed, wrap_opp_wrap, Z.opp_involutive by lia.
    rewrite wrap_to_signed by lia. by rewrite wrap_small.
  - intros ->. rewrite wrap_opp_to_signed, wrap_opp_wrap, Z.opp_involutive by lia.
    rewrite to_signed_wrap by (pose proof (discr_range e); lia). apply from_isize_discr.
Qed.

(** A register value is an error number exactly when it is the negated
    discriminant of that error. *)
Theorem errno_roundtrip (raw : Z) (e : Error) :
  fits 64 raw -> (try_from_raw raw = Some e <-> raw = into_raw e) /\ 0 <= wrap 64 (- into_raw e) <= 133.
Proof.
  intros Hraw. split; [by apply try_from_raw_iff|]. unfold into_raw.
  rewrite wrap_opp_wrap, Z.opp_involutive by lia. pose proof (discr_range e).
  rewrite wrap_small; [done|]. unfold fits. lia.
Qed.

Lemma errno_roundtrip_witness : try_from_raw (2 ^ 64 - 22) = Some EINVAL /\ 0 <= wrap 64 (- into_raw EINVAL) <= 133.
Proof.
  split; [apply (proj1 (errno_roundtrip (2 ^ 64 - 22) EINVAL ltac:(split; [discriminate|reflexivity])))|
          apply (errno_roundtrip (2 ^ 64 - 22) EINVAL ltac:(split; [discriminate|reflexivity]))].
  reflexivity.
Defined.

(** A system-call result survives the trip through the register unless a
    success value lies where the error numbers are: zero, or the 133 highest. *)
Theorem result_roundtrip (r : Z + Error) :
  (forall v, r = inl v -> 0 < v <= 2 ^ 64 - 134) -> result_from_raw (result_into_raw r) = r.
Proof.
  intros Hr. destruct r as [v|e]; unfold result_from_raw; cbn [result_into_raw].
  - specialize (Hr v eq_refl). assert (Hv : fits 64 v) by (unfold fits; lia).
    simpl. unfold int_into_raw. rewrite wrap_small by done.
    destruct (try_from_raw v) as [e|] eqn:E; [|by rewrite wrap_small].
    exfalso. apply try_from_raw_iff in E; [|done]. pose proof (discr_range e). unfold into_raw in E.
    assert (discr e = 0 \/ wrap 64 (- discr e) = 2 ^ 64 - discr e) as [E0|E1].
    { destruct (Z.eq_dec (discr e) 0); [by left|right]. unfold wrap. symmetry. apply (Z.mod_unique _ _ (-1)); lia. }
    + rewrite E0 in E. change (wrap 64 (- 0)) with 0 in E. lia.
    + lia.
  - by rewrite (proj2 (try_from_raw_iff (into_raw e) e (into_raw_fits e)) eq_refl).
Qed.

Lemma result_roundtrip_witness : result_from_raw (result_into_raw (inl 42 : Z + Error)) = (inl 42 : Z + Error).
Proof. apply (result_roundtrip (inl 42)). intros v [= <-]. lia. Defined.

(** A zero success value comes back as the error [EUNDEF]. *)
Example result_zero_lost : result_from_raw (result_into_raw (inl 0 : Z + Error)) = (inr EUNDEF : Z + Error).
Proof. reflexivity. Qed.

(** Every value of an integer type of at most 64 bits is recovered from the
    register it was put in. *)
Theorem int_raw_roundtrip (signed : bool) (w v : Z) :
  0 < w <= 64 -> (if signed then - 2 ^ (w - 1) <= v < 2 ^ (w - 1) else fits w v) ->
  int_from_raw signed w (int_into_raw v) = v.
Proof.
  intros Hw Hv. unfold int_from_raw, int_into_raw.
  assert (E : wrap w (wrap 64 v) = wrap w v).
  { unfold wrap. replace 64 with (w + (64 - w)) by lia. rewrite Z.pow_add_r by lia.
    pose proof (pow2_pos w ltac:(lia)). pose proof (pow2_pos (64 - w) ltac:(lia)).
    rewrite Z.rem_mul_r by lia. rewrite (Z.mul_comm (2 ^ w)), Z.mod_add by lia. apply Z.mod_mod. lia. }
  rewrite E. destruct signed; [apply to_signed_wrap; lia|by apply wrap_small].
Qed.

Lemma int_raw_roundtrip_witness : int_from_raw true 32 (int_into_raw (-2)) = -2.
Proof. apply int_raw_roundtrip; lia. Defined.

Lemma scn_from_iff (n : Z) (s : Scn) : scn_from n = Some s <-> scn_num s = n.
Proof.
  split.
  - intros [_ E]%List.find_some. by apply Z.eqb_eq.
  - intros <-. destruct s; reflexivity.
Qed.

(** No two errors print the same message. *)
Lemma message_inj : NoDup (message <$> all_errors).
Proof. apply (bool_decide_unpack _). vm_compute. exact I. Qed.
End Errno.
