(* ===== verification/TrapFrame.v ===== *)
(** * co-trap: the trap frame

    The saved user registers of mizu/lib/co-trap/src/tf.rs, their export to and
    import from the order of the architecture, and the access to system-call
    arguments and results. *)

From S2P Require Import Prelude Ksc.
Import Errno.

Module TF.

(** The arrays of the source have fixed lengths, kept by [gpr_wf]. *)
Record Tx := mk_tx { ra : Z; sp : Z; gp : Z; tp : Z; a : list Z; t : list Z }.
Record Gpr := mk_gpr { s : list Z; tx : Tx }.
Record TrapFrame := mk_tf { gpr : Gpr; sepc : Z; sstatus : Z; stval : Z; scause : Z }.

Definition gpr_wf (g : Gpr) : Prop :=
  length (s g) = 12%nat /\ length (a (tx g)) = 8%nat /\ length (t (tx g)) = 7%nat.

(** [output[lo..hi].copy_from_slice(src)] and [&input[lo..hi]]. *)
Definition slice (l : list Z) (lo hi : nat) : res unit (list Z) :=
  if ((lo <=? hi) && (hi <=? length l))%nat then Ok (take (hi - lo) (drop lo l)) else Panic.
Definition copy_from_slice (l : list Z) (lo hi : nat) (src : list Z) : res unit (list Z) :=
  if ((lo <=? hi) && (hi <=? length l) && (length src =? hi - lo))%nat
  then Ok (take lo l ++ src ++ drop hi l) else Panic.

Definition copy_to_x (g : Gpr) (output : list Z) : res unit (list Z) :=
  output ← copy_from_slice output 0 4 [ra (tx g); sp (tx g); gp (tx g); tp (tx g)];
  t0 ← slice (t (tx g)) 0 3;
  output ← copy_from_slice output 4 7 t0;
  s0 ← slice (s g) 0 2;
  output ← copy_from_slice output 7 9 s0;
  output ← copy_from_slice output 9 17 (a (tx g));
  s2 ← slice (s g) 2 (length (s g));
  output ← copy_from_slice output 17 27 s2;
  t3 ← slice (t (tx g)) 3 (length (t (tx g)));
  copy_from_slice output 27 31 t3.

Definition index (l : list Z) (i : nat) : res unit Z := unwrap (l !! i).

Definition copy_from_x (g : Gpr) (input : list Z) : res unit Gpr :=
  ra' ← index input 0;
  sp' ← index input 1;
  gp' ← index input 2;
  tp' ← index input 3;
  i1 ← slice input 4 7;
  t' ← copy_from_slice (t (tx g)) 0 3 i1;
  i2 ← slice input 7 9;
  s' ← copy_from_slice (s g) 0 2 i2;
  i3 ← slice input 9 17;
  a' ← copy_from_slice (a (tx g)) 0 (length (a (tx g))) i3;
  i4 ← slice input 17 27;
  s' ← copy_from_slice s' 2 (length s') i4;
  i5 ← slice input 27 31;
  t' ← copy_from_slice t' 3 (length t') i5;
  mret (mk_gpr s' (mk_tx ra' sp' gp' tp' a' t')).

(** ** System calls *)
Definition syscall_arg (n : nat) (tf : TrapFrame) : res unit Z := index (a (tx (gpr tf))) n.

Definition scn (tf : TrapFrame) : res Z Scn :=
  match syscall_arg 7 tf with
  | Ok raw => ok_or (scn_from raw) raw
  | _ => Panic
  end.

Definition set_a (tf : TrapFrame) (a' : list Z) : TrapFrame :=
  let x := tx (gpr tf) in
  mk_tf (mk_gpr (s (gpr tf)) (mk_tx (ra x) (sp x) (gp x) (tp x) a' (t x)))
    (sepc tf) (sstatus tf) (stval tf) (scause tf).
Definition set_sepc (tf : TrapFrame) (pc : Z) : TrapFrame :=
  mk_tf (gpr tf) pc (sstatus tf) (stval tf) (scause tf).

Definition set_syscall_ret (tf : TrapFrame) (ret : Z) : res unit TrapFrame :=
  let tf := set_sepc tf (wadd 64 (sepc tf) 4) in
  match a (tx (gpr tf)) with
  | [] => Panic
  | _ => Ok (set_a tf (<[0%nat := ret]> (a (tx (gpr tf)))))
  end.

(** [UserCx::args]: one conversion per parameter, applied to consecutive
    argument registers; [UserCx::ret]. *)
Fixpoint args_from {T} (convs : list (Z -> T)) (n : nat) (tf : TrapFrame) : res unit (list T) :=
  match convs with
  | [] => mret []
  | c :: convs =>
      raw ← syscall_arg n tf;
      rest ← args_from convs (S n) tf;
      mret (c raw :: rest)
  end.
Definition args {T} (convs : list (Z -> T)) (tf : TrapFrame) : res unit (list T) := args_from convs 0 tf.
Definition ret {T} `{RawReg T} (tf : TrapFrame) (value : T) : res unit TrapFrame :=
  set_syscall_ret tf (into_raw_of value).

(** ** Properties *)
Lemma length_S_inv {A} (l : list A) n : length l = S n -> exists x l', l = x :: l' /\ length l' = n.
Proof. destruct l as [|x l]; [done|]. intros [= E]. eauto. Qed.

Ltac explicit l H :=
  repeat (let x := fresh "x" in let l' := fresh "l" in
          apply length_S_inv in H; destruct H as (x & l' & -> & H); explicit l' H);
  try (apply nil_length_inv in H; subst l).

(** Exporting the registers to the order of the architecture and importing
    them again gives back the registers, whatever the buffers held before. *)
Theorem copy_x_roundtrip (g g0 : Gpr) (output : list Z) :
  gpr_wf g -> gpr_wf g0 -> length output = 31%nat ->
  exists xs, copy_to_x g output = Ok xs /\ length xs = 31%nat /\ copy_from_x g0 xs = Ok g.
Proof.
  destruct g as [sg [r1 r2 r3 r4 ag tg]], g0 as [s0 [q1 q2 q3 q4 a0 t0]]. unfold gpr_wf. simpl.
  intros (Hs & Ha & Ht) (Hs0 & Ha0 & Ht0) Ho.
  explicit sg Hs. explicit ag Ha. explicit tg Ht. explicit s0 Hs0. explicit a0 Ha0. explicit t0 Ht0.
  explicit output Ho. eexists. split; [reflexivity|]. split; reflexivity.
Qed.

(** Importing any 31 words is a well-formed register file, and exporting it
    gives back the words: no register is dropped or duplicated. *)
Theorem copy_x_import (g0 : Gpr) (xs output : list Z) :
  gpr_wf g0 -> length xs = 31%nat -> length output = 31%nat ->
  exists g, copy_from_x g0 xs = Ok g /\ gpr_wf g /\ copy_to_x g output = Ok xs.
Proof.
  destruct g0 as [s0 [q1 q2 q3 q4 a0 t0]]. unfold gpr_wf. simpl.
  intros (Hs0 & Ha0 & Ht0) Hx Ho. explicit s0 Hs0. explicit a0 Ha0. explicit t0 Ht0.
  explicit xs Hx. explicit output Ho. eexists. split; [reflexivity|]. split; [done|reflexivity].
Qed.

(** A system call that returns leaves the program counter on the next
    instruction, the result in [a0], and every other register as it was. *)
Theorem ret_spec (tf : TrapFrame) (value : Z) :
  gpr_wf (gpr tf) -> fits 64 value ->
  exists tf', ret tf value = Ok tf' /\ gpr_wf (gpr tf') /\ sepc tf' = wadd 64 (sepc tf) 4
    /\ syscall_arg 0 tf' = Ok value
    /\ (forall n, n <> 0%nat -> syscall_arg n tf' = syscall_arg n tf)
    /\ scn tf' = scn tf /\ s (gpr tf') = s (gpr tf) /\ t (tx (gpr tf')) = t (tx (gpr tf))
    /\ sp (tx (gpr tf')) = sp (tx (gpr tf)).
Proof.
  destruct tf as [[sg [r1 r2 r3 r4 ag tg]] pc ss sv sc]. unfold gpr_wf. simpl. intros (Hs & Ha & Ht) Hv.
  explicit ag Ha. unfold ret, set_syscall_ret. simpl. unfold int_into_raw. rewrite wrap_small by done.
  eexists. split; [reflexivity|]. split_and!; try done. by intros [|n].
Qed.

Definition zero_frame : TrapFrame :=
  mk_tf (mk_gpr (replicate 12 0) (mk_tx 0 0 0 0 (replicate 8 0) (replicate 7 0))) 0x1000 0 0 0.

Lemma copy_x_roundtrip_witness :
  exists xs, copy_to_x (gpr zero_frame) (replicate 31 1) = Ok xs /\ length xs = 31%nat
             /\ copy_from_x (gpr zero_frame) xs = Ok (gpr zero_frame).
Proof. by apply copy_x_roundtrip. Defined.

Lemma copy_x_import_witness :
  exists g, copy_from_x (gpr zero_frame) (replicate 31 7) = Ok g /\ gpr_wf g
            /\ copy_to_x g (replicate 31 0) = Ok (replicate 31 7).
Proof. by apply copy_x_import. Defined.

Lemma ret_spec_witness : exists tf', ret zero_frame 42 = Ok tf' /\ sepc tf' = 0x1004.
Proof.
  destruct (ret_spec zero_frame 42) as (tf' & E & _ & Hpc & _); [done|unfold fits; lia|].
  exists tf'. split; [exact E|exact Hpc].
Defined.
End TF.
