(* ===== verification/Signal.v ===== *)
(** * sygnal: signal numbers, signal sets, actions and the pending queues

    mizu/lib/sygnal.  A signal is its [i32] value, a signal set its 64-bit mask.
    The bounded queue (crossbeam's [ArrayQueue]) and the event the waiters listen
    to are parameters; the queue comes with the documented behaviour of a bounded
    first-in first-out queue. *)

From S2P Require Import Prelude Paging.

Module SG.

(** ** types.rs *)
Definition NR_SIGNALS : Z := 64.
Definition SIGHUP : Z := 1.
Definition SIGINT : Z := 2.
Definition SIGQUIT : Z := 3.
Definition SIGILL : Z := 4.
Definition SIGTRAP : Z := 5.
Definition SIGABRT : Z := 6.
Definition SIGBUS : Z := 7.
Definition SIGFPE : Z := 8.
Definition SIGKILL : Z := 9.
Definition SIGUSR1 : Z := 10.
Definition SIGSEGV : Z := 11.
Definition SIGUSR2 : Z := 12.
Definition SIGPIPE : Z := 13.
Definition SIGALRM : Z := 14.
Definition SIGTERM : Z := 15.
Definition SIGCHLD : Z := 17.
Definition SIGCONT : Z := 18.
Definition SIGSTOP : Z := 19.
Definition SIGTSTP : Z := 20.
Definition SIGTTIN : Z := 21.
Definition SIGTTOU : Z := 22.
Definition SIGURG : Z := 23.
Definition SIGXCPU : Z := 24.
Definition SIGXFSZ : Z := 25.
Definition SIGVTALRM : Z := 26.
Definition SIGPROF : Z := 27.
Definition SIGWINCH : Z := 28.
Definition SIGIO : Z := 29.
Definition SIGPWR : Z := 30.
Definition SIGSYS : Z := 31.
Definition SIG_LEGACY_MAX : Z := 32.
Definition SIG_MAX : Z := 64.

Definition from_index (index : Z) : option Z :=
  if index <? NR_SIGNALS then Some (index + 1) else None.
Definition try_from (value : Z) : res Z Z := ok_or (from_index value) value.
Definition is_legacy (sig : Z) : bool := sig <=? SIG_LEGACY_MAX.
Definition Sig_new (sig : Z) : option Z := if sig <=? SIG_MAX then Some sig else None.

(** The shift amount is taken modulo the width of the shifted [u64]. *)
Definition mask (sig : Z) : Z := wshl 64 1 (wrap 32 (sig - 1) mod 64).
Definition index (sig : Z) : Z := wrap 64 (to_signed 32 (wrap 32 (sig - 1))).
Definition should_never_capture (sig : Z) : bool := (sig =? SIGKILL) || (sig =? SIGSTOP).

(** *** SigSet *)
Definition EMPTY : Z := 0.
Definition set_of (sig : Z) : Z := mask sig.
Definition set_is_empty (s : Z) : bool := s =? 0.
Definition clear_never_capture (s : Z) : Z := Z.land s (wnot 64 (Z.lor (mask SIGKILL) (mask SIGSTOP))).
Definition contains_set (s other : Z) : bool := Z.land (wnot 64 s) other =? 0.
Definition contains (s sig : Z) : bool := contains_set s (set_of sig).
Definition contains_index (s i : Z) : bool :=
  match from_index i with Some sig => contains s sig | None => false end.
Definition insert (s sig : Z) : bool * Z :=
  if contains s sig then (false, s) else (true, Z.lor s (mask sig)).
Definition remove (s sig : Z) : bool * Z :=
  if contains s sig then (true, Z.land s (wnot 64 (mask sig))) else (false, s).

(** The iterator: the lowest signal and the remaining set. *)
Definition next (s : Z) : option (Z * Z) :=
  if s =? 0 then None
  else let n := trailing_zeros 64 s in Some (n + 1, wsub 64 s (wshl 64 1 n)).

(** The signals the iterator yields; 64 rounds empty any set. *)
Fixpoint collect (fuel : nat) (s : Z) : list Z :=
  match fuel with
  | O => []
  | S fuel => match next s with Some (sig, s') => sig :: collect fuel s' | None => [] end
  end.

Inductive SigCode := USER | KERNEL | QUEUE | TIMER | MESGQ | ASYNCIO | SIGIO_ | TKILL | DETHREAD | ASYNCNL.
Definition code_num (c : SigCode) : Z :=
  match c with
  | USER => 0 | KERNEL => 0x80 | QUEUE => -1 | TIMER => -2 | MESGQ => -3 | ASYNCIO => -4
  | SIGIO_ => -5 | TKILL => -6 | DETHREAD => -7 | ASYNCNL => -60
  end.

(** ** action.rs *)
Inductive ActionType :=
| Ignore
| Kill
| Suspend
| Resume
| User (entry : Z) (use_extra_cx use_alt_stack : bool).

#[export] Instance ActionType_eq_dec : EqDecision ActionType.
Proof. solve_decision. Defined.

Definition ActionType_default (sig : Z) : ActionType :=
  if (sig =? SIGCHLD) || (sig =? SIGURG) then Ignore
  else if sig =? SIGSTOP then Suspend
  else if sig =? SIGCONT then Resume
  else Kill.

Record Action := mk_action { ty : ActionType; act_mask : Z }.
Definition Action_default (sig : Z) : Action := mk_action (ActionType_default sig) EMPTY.

Definition indices : list Z := Z.of_nat <$> seq 0 (Z.to_nat NR_SIGNALS).
Definition default_sig_mask : Z :=
  fold_left (fun ss sig => if bool_decide (ActionType_default sig = Ignore) then Z.lor ss (mask sig) else ss)
    (omap from_index indices) EMPTY.

(** The actions of the 64 signals; each access locks one of them. *)
Notation ActionSet := (list Action) (only parsing).
Definition ActionSet_new : res unit ActionSet :=
  mapM (fun i => match from_index i with Some sig => Ok (Action_default sig) | None => Panic end) indices.
Definition ActionSet_get (d : ActionSet) (sig : Z) : res unit Action := unwrap (lookup_z d (index sig)).
Definition replace (d : ActionSet) (sig : Z) (new : Action) : res unit (Action * ActionSet) :=
  match lookup_z d (index sig) with
  | None => Panic
  | Some old =>
      let action := if should_never_capture sig then Action_default sig else new in
      Ok (old, <[Z.to_nat (index sig) := action]> d)
  end.
Definition deep_fork (d : ActionSet) : res unit ActionSet :=
  mapM (fun i => unwrap (lookup_z d i)) indices.

(** ** queue.rs *)
Definition CAP_PER_SIG : nat := 8.

Inductive SigFields :=
| FNone
| FSigKill (pid uid : Z)
| FSigChld (pid uid status : Z)
| FSigSys (addr num : Z).

Record SigInfo := mk_info { sig : Z; code : Z; fields : SigFields }.

(** A bounded queue, as [ArrayQueue] documents it: [push] gives the value back
    when the queue is full, [pop] takes the oldest value. *)
Class BoundedQueue (Q : Type) := {
  q_new : nat -> Q;
  q_push : Q -> SigInfo -> option Q;
  q_pop : Q -> option (SigInfo * Q);
  q_is_empty : Q -> bool;
}.

Class BoundedQueueSpec (Q : Type) `{BoundedQueue Q} := {
  q_elems : Q -> list SigInfo;
  q_cap : Q -> nat;
  q_new_spec n : q_elems (q_new n) = [] /\ q_cap (q_new n) = n;
  q_push_spec q x : match q_push q x with
    | Some q' => (length (q_elems q) < q_cap q)%nat /\ q_elems q' = q_elems q ++ [x] /\ q_cap q' = q_cap q
    | None => (q_cap q <= length (q_elems q))%nat
    end;
  q_pop_spec q : match q_pop q with
    | Some (x, q') => q_elems q = x :: q_elems q' /\ q_cap q' = q_cap q
    | None => q_elems q = []
    end;
  q_is_empty_spec q : q_is_empty q = true <-> q_elems q = [];
}.

(** The event the waiters of one signal listen to. *)
Class EventOps (Ev : Type) := {
  ev_new : Ev;
  notify_additional : Ev -> Z -> Ev;
}.

Section Signals.
Context {Q Ev : Type} `{BoundedQueue Q} `{EventOps Ev}.

Record SigPending := mk_pending { queue : Q; event : Ev }.
Record Signals := mk_signals { set : Z; pending : list SigPending }.
Implicit Types (S : Signals) (m : Z).

Definition cap_of (i : Z) : nat :=
  match from_index i with
  | Some sig => if is_legacy sig then 1 else CAP_PER_SIG
  | None => CAP_PER_SIG
  end.
Definition Signals_new : Signals :=
  mk_signals 0 ((fun i => mk_pending (q_new (cap_of i)) ev_new) <$> indices).

Definition set_set S (v : Z) : Signals := mk_signals v (pending S).
Definition set_pending S (i : Z) (p : SigPending) : Signals :=
  mk_signals (set S) (<[Z.to_nat i := p]> (pending S)).

Definition push S (info : SigInfo) : res unit Signals :=
  let old := set S in
  let S := set_set S (Z.lor (set S) (mask (sig info))) in
  if negb (is_legacy (sig info) && contains old (sig info)) then
    match lookup_z (pending S) (index (sig info)) with
    | None => Panic
    | Some p =>
        match q_push (queue p) info with
        | Some q => Ok (set_pending S (index (sig info)) (mk_pending q (notify_additional (event p) 1)))
        | None => Ok S
        end
    end
  else Ok S.

Definition is_empty S : bool := set S =? 0.

(** [find_map] over the queues that are not masked: the index of the queue, the
    value and the queue after the [pop]. *)
Fixpoint find_pop (masked i : Z) (ps : list SigPending) : option (Z * SigInfo * SigPending) :=
  match ps with
  | [] => None
  | p :: ps =>
      if negb (contains_index masked i) then
        match q_pop (queue p) with
        | Some (info, q) => Some (i, info, mk_pending q (event p))
        | None => find_pop masked (i + 1) ps
        end
      else find_pop masked (i + 1) ps
  end.

(** The bit of a queue found empty after its last value was taken. *)
Definition after_pop S (i : Z) (info : SigInfo) (p : SigPending) : Signals :=
  let S := set_pending S i p in
  if q_is_empty (queue p) then set_set S (Z.land (set S) (wnot 64 (mask (sig info)))) else S.

Definition pop S (masked : Z) : option SigInfo * Signals :=
  if is_empty S then (None, S)
  else
    let masked := clear_never_capture masked in
    match find_pop masked 0 (pending S) with
    | None => (None, S)
    | Some (i, info, p) => (Some info, after_pop S i info p)
    end.

(** One successful [poll] of [WaitOne], or [None] when the queue is empty and the
    future registers a listener. *)
Definition wait_one_poll S (sg : Z) : res unit (option SigInfo * Signals) :=
  match lookup_z (pending S) (index sg) with
  | None => Panic
  | Some p =>
      match q_pop (queue p) with
      | Some (info, q) => Ok (Some info, after_pop S (index sg) info (mk_pending q (event p)))
      | None => Ok (None, S)
      end
  end.

(** [WaitOneEvent] is ready as soon as the queue holds a value. *)
Definition wait_one_event_poll S (sg : Z) : res unit bool :=
  match lookup_z (pending S) (index sg) with
  | None => Panic
  | Some p => Ok (negb (q_is_empty (queue p)))
  end.
End Signals.
Arguments SigPending Q Ev : clear implicits.
Arguments Signals Q Ev : clear implicits.

End SG.

(** * sygnal: correctness of signal sets, actions and pending queues *)
Import SG.

(** ** Signal sets *)
Definition sig_ok (s : Z) : Prop := 1 <= s <= 64.

Lemma mask_eq s : sig_ok s -> mask s = 2 ^ (s - 1).
Proof.
  intros Hs. unfold sig_ok in Hs. unfold mask. rewrite (wrap_small 32) by (unfold fits; lia).
  rewrite Z.mod_small by lia. pose proof (pow2_pos (s - 1) ltac:(lia)).
  assert (2 ^ (s - 1) < 2 ^ 64) by (apply Z.pow_lt_mono_r; lia).
  rewrite wshl_small; unfold fits; lia.
Qed.

Lemma index_eq s : sig_ok s -> index s = s - 1.
Proof.
  intros Hs. unfold sig_ok in Hs. unfold index. rewrite to_signed_wrap by lia.
  apply wrap_small. unfold fits. lia.
Qed.

Lemma contains_testbit s x : fits 64 s -> sig_ok x -> contains s x = Z.testbit s (x - 1).
Proof.
  intros Hs Hx. unfold contains, contains_set, set_of. rewrite mask_eq by done. unfold sig_ok in Hx.
  destruct (Z.testbit s (x - 1)) eqn:E.
  - apply Z.eqb_eq. apply Z.bits_inj'. intros i Hi. rewrite Z.land_spec, testbit_wnot, testbit_pow2, Z.bits_0 by (done || lia).
    destruct (Z.eqb_spec i (x - 1)) as [->|]; [|by rewrite andb_false_r]. rewrite E. simpl.
    by rewrite !andb_false_r.
  - apply Z.eqb_neq. intros E0. assert (Z.testbit (Z.land (wnot 64 s) (2 ^ (x - 1))) (x - 1) = false) as E1 by by rewrite E0, Z.bits_0.
    rewrite Z.land_spec, testbit_wnot, testbit_pow2, Z.eqb_refl, E in E1 by (done || lia).
    rewrite (proj2 (Z.leb_le _ _)), (proj2 (Z.ltb_lt _ _)) in E1 by lia. done.
Qed.

Lemma contains_index_eq s i : fits 64 s -> 0 <= i < 64 -> contains_index s i = Z.testbit s i.
Proof.
  intros Hs Hi. unfold contains_index, from_index, NR_SIGNALS. rewrite (proj2 (Z.ltb_lt _ _)) by lia.
  rewrite contains_testbit by (done || unfold sig_ok; lia). f_equal. lia.
Qed.

Lemma mask_fits s : sig_ok s -> fits 64 (mask s).
Proof. intros Hs. rewrite mask_eq by done. apply fits_pow2. unfold sig_ok in Hs. lia. Qed.

Lemma testbit_set s x i : sig_ok x -> Z.testbit (Z.lor s (mask x)) i = (i =? x - 1) || Z.testbit s i.
Proof. intros Hx. rewrite Z.lor_spec, mask_eq, testbit_pow2 by (done || unfold sig_ok in Hx; lia). apply orb_comm. Qed.

Lemma testbit_clear s x i :
  fits 64 s -> sig_ok x -> Z.testbit (Z.land s (wnot 64 (mask x))) i = negb (i =? x - 1) && Z.testbit s i.
Proof.
  intros Hs Hx. rewrite Z.land_spec, testbit_wnot by (done || lia || by apply mask_fits).
  rewrite mask_eq, testbit_pow2 by (done || unfold sig_ok in Hx; lia).
  destruct (Z.ltb_spec i 64).
  - destruct (Z.leb_spec 0 i); simpl; [apply andb_comm|]. rewrite (Z.testbit_neg_r s i) by done. by rewrite !andb_false_r.
  - rewrite (fits_testbit_high 64 s) by done. by rewrite !andb_false_r.
Qed.

(** A signal set is a set of the signals 1 to 64: [insert] and [remove] add
    and take out one signal, tell whether they changed the set, and leave the
    membership of every other signal. *)
Theorem sigset_ops (s x y : Z) :
  fits 64 s -> sig_ok x -> sig_ok y ->
  contains (insert s x).2 y = (y =? x) || contains s y
  /\ contains (remove s x).2 y = negb (y =? x) && contains s y
  /\ (insert s x).1 = negb (contains s x) /\ (remove s x).1 = contains s x
  /\ fits 64 (insert s x).2 /\ fits 64 (remove s x).2.
Proof.
  intros Hs Hx Hy. unfold insert, remove.
  assert (Hi : fits 64 (Z.lor s (mask x))) by (apply fits_lor; [lia|done|by apply mask_fits]).
  assert (Hr : fits 64 (Z.land s (wnot 64 (mask x)))) by by apply fits_land.
  assert (E : (y - 1 =? x - 1) = (y =? x)) by (apply eq_true_iff_eq; rewrite !Z.eqb_eq; lia).
  destruct (contains s x) eqn:C; cbn [fst snd]; rewrite ?contains_testbit in * by done;
    rewrite ?testbit_set, ?testbit_clear, ?E by done; split_and!; try done.
  - destruct (Z.eqb_spec y x) as [->|]; [by rewrite C|done].
  - destruct (Z.eqb_spec y x) as [->|]; [by rewrite C|done].
Qed.

Lemma sigset_ops_witness :
  contains (insert 0 SIGKILL).2 SIGKILL = true /\ contains (remove (mask SIGKILL) SIGKILL).2 SIGKILL = false.
Proof.
  split.
  - apply (sigset_ops 0 SIGKILL SIGKILL); unfold fits, sig_ok, SIGKILL; lia.
  - apply (sigset_ops (mask SIGKILL) SIGKILL SIGKILL); [apply mask_fits|..]; unfold sig_ok, SIGKILL; lia.
Defined.

(** The iterator yields the members in ascending order. *)
Definition all_sigs : list Z := Z.of_nat <$> seq 1 64.

Lemma next_bit s k :
  fits 64 s -> 0 <= k < 64 -> Z.testbit s k = true -> (forall j, 0 <= j < k -> Z.testbit s j = false) ->
  next s = Some (k + 1, Z.clearbit s k).
Proof.
  intros Hs Hk Hb Hlow. assert (0 < s).
  { unfold fits in Hs. destruct (Z.eq_dec s 0) as [->|]; [by rewrite Z.bits_0 in Hb|lia]. }
  unfold next. rewrite (proj2 (Z.eqb_neq s 0)) by lia. rewrite (trailing_zeros_lowest 64 s k) by (done || lia).
  pose proof (fits_pow2 64 k Hk). rewrite wshl_small, Z.mul_1_l by (rewrite ?Z.mul_1_l; (done || lia)).
  assert (E : s - 2 ^ k = Z.clearbit s k).
  { rewrite Z.clearbit_spec'. apply Z.sub_nocarry_ldiff. apply Z.bits_inj'. intros i Hi.
    rewrite Z.ldiff_spec, testbit_pow2, Z.bits_0 by lia. destruct (Z.eqb_spec i k) as [->|]; [by rewrite Hb|done]. }
  do 2 f_equal. rewrite <- E. apply wsub_small. rewrite E.
  rewrite Z.clearbit_spec', Z.ldiff_land. by apply fits_land.
Qed.

Lemma clearbit_testbit s k i : Z.testbit (Z.clearbit s k) i = Z.testbit s i && negb (k =? i).
Proof. apply Z.clearbit_eqb. Qed.

Lemma collect_from fuel n s :
  (64 - n <= fuel)%nat -> (n <= 64)%nat -> fits 64 s -> (forall j, 0 <= j < Z.of_nat n -> Z.testbit s j = false) ->
  collect fuel s = List.filter (fun x => Z.testbit s (x - 1)) (Z.of_nat <$> seq (S n) (64 - n)).
Proof.
  remember (64 - n)%nat as d eqn:Hd. revert fuel n s Hd. induction d as [|d IH]; intros fuel n s Hd Hf Hn Hs Hlow.
  - assert (s = 0) as ->.
    { apply Z.bits_inj'. intros i Hi. rewrite Z.bits_0. destruct (Z.lt_ge_cases i 64); [apply Hlow; lia|].
      by apply (fits_testbit_high 64). }
    by destruct fuel.
  - cbn [seq fmap list_fmap List.filter]. replace (Z.of_nat (S n) - 1) with (Z.of_nat n) by lia.
    destruct (Z.testbit s (Z.of_nat n)) eqn:Hb.
    + destruct fuel as [|fuel]; [lia|]. cbn [collect]. rewrite (next_bit s (Z.of_nat n)) by (done || lia).
      replace (Z.of_nat n + 1) with (Z.of_nat (S n)) by lia. f_equal.
      rewrite (IH fuel (S n)); [|lia|lia|lia| |].
      2:{ rewrite Z.clearbit_spec', Z.ldiff_land. by apply fits_land. }
      2:{ intros j Hj. rewrite clearbit_testbit. destruct (Z.eqb_spec (Z.of_nat n) j); [apply andb_false_r|].
          by rewrite Hlow by lia. }
      apply List.filter_ext_in. intros x Hx. rewrite clearbit_testbit.
      apply list_elem_of_In, list_elem_of_fmap in Hx as (m & -> & Hm%elem_of_seq).
      rewrite (proj2 (Z.eqb_neq (Z.of_nat n) _)) by lia. apply andb_true_r.
    + apply IH; try (done || lia). intros j Hj. destruct (Z.eq_dec j (Z.of_nat n)) as [->|]; [done|]. apply Hlow. lia.
Qed.

(** Iterating over a signal set ends within 64 steps and yields each of its
    signals once, in ascending order. *)
Theorem collect_spec (s : Z) : fits 64 s -> collect 64 s = List.filter (contains s) all_sigs.
Proof.
  intros Hs. rewrite (collect_from 64 0 s) by (done || lia). change (Z.of_nat <$> seq 1 (64 - 0)) with all_sigs.
  apply List.filter_ext_in. intros x Hx. symmetry. apply contains_testbit; [done|].
  apply list_elem_of_In, list_elem_of_fmap in Hx as (m & -> & Hm%elem_of_seq). unfold sig_ok. lia.
Qed.

Lemma collect_spec_witness : collect 64 0x10100 = [SIGKILL; SIGCHLD].
Proof. apply (collect_spec 0x10100). unfold fits. lia. Defined.

(** ** Actions *)
Lemma ActionSet_new_ok : exists d, ActionSet_new = Ok d /\ length d = 64%nat
  /\ forall i, 0 <= i < 64 -> lookup_z d i = Some (Action_default (i + 1)).
Proof.
  eexists. split; [reflexivity|]. split; [reflexivity|]. intros i Hi. rewrite <- (Z2Nat.id i) by lia.
  assert (Hn : (Z.to_nat i < 64)%nat) by lia. revert Hn. generalize (Z.to_nat i) as n. clear.
  intros n Hn. do 64 (destruct n as [|n]; [reflexivity|]). lia.
Qed.

Lemma mapM_lookup (d : list Action) n k :
  (n + k <= length d)%nat ->
  mapM (M := res unit) (fun i => unwrap (lookup_z d i)) (Z.of_nat <$> seq n k) = Ok (take k (drop n d)).
Proof.
  revert n. induction k as [|k IH]; intros n Hk; [by rewrite take_0|]. cbn [seq fmap list_fmap mapM].
  destruct (lookup_lt_is_Some_2 d n ltac:(lia)) as [x Hx]. rewrite lookup_z_nat, Hx. cbn [unwrap].
  unfold mbind at 1, res_bind. rewrite IH by lia. by rewrite (drop_S _ _ _ Hx).
Qed.

Lemma deep_fork_ok d : length d = 64%nat -> deep_fork d = Ok d.
Proof.
  intros Hd. unfold deep_fork, indices. rewrite (mapM_lookup d 0) by (rewrite Hd; done).
  rewrite drop_0, take_ge; [done|]. rewrite Hd. done.
Qed.

(** An action set always has 64 actions; a replaced action is returned and
    the new one is found afterwards, except that the kill and stop signals keep
    their default action; the other signals are unaffected, and a fork has equal
    actions. *)
Theorem replace_spec (d : ActionSet) (x : Z) (new : Action) :
  length d = 64%nat -> sig_ok x ->
  exists old d', ActionSet_get d x = Ok old /\ replace d x new = Ok (old, d') /\ length d' = 64%nat
    /\ ActionSet_get d' x = Ok (if should_never_capture x then Action_default x else new)
    /\ (forall y, sig_ok y -> y <> x -> ActionSet_get d' y = ActionSet_get d y)
    /\ deep_fork d' = Ok d'.
Proof.
  intros Hd Hx. unfold ActionSet_get, replace. rewrite index_eq by done.
  destruct (lookup_z_in d (x - 1)) as [old E]; [unfold sig_ok in Hx; lia|]. rewrite E.
  eexists old, _. split; [done|]. split; [done|].
  assert (Hin : 0 <= x - 1 < Z.of_nat (length d)) by (unfold sig_ok in Hx; lia).
  split_and!.
  - by rewrite length_insert.
  - rewrite lookup_z_insert by done. by rewrite Z.eqb_refl.
  - intros y Hy Hne. rewrite lookup_z_insert by done. rewrite !index_eq by done.
    by rewrite (proj2 (Z.eqb_neq _ _)) by lia.
  - apply deep_fork_ok. by rewrite length_insert.
Qed.

Lemma replace_spec_witness :
  exists d, ActionSet_new = Ok d /\ exists old d', replace d SIGKILL (mk_action Ignore 0) = Ok (old, d')
    /\ ActionSet_get d' SIGKILL = Ok (Action_default SIGKILL).
Proof.
  destruct ActionSet_new_ok as (d & E & Hd & _). exists d. split; [exact E|].
  destruct (replace_spec d SIGKILL (mk_action Ignore 0) Hd) as (old & d' & _ & Hr & _ & Hg & _);
    [unfold sig_ok, SIGKILL; lia|]. exists old, d'. split; [exact Hr|exact Hg].
Defined.

(** The signals ignored by default are the child and urgent signals. *)
Lemma default_sig_mask_eq : default_sig_mask = Z.lor (mask SIGCHLD) (mask SIGURG).
Proof. reflexivity. Qed.
