(* ===== verification/SignalQueue.v ===== *)
(** * sygnal: the pending signals

    The invariant that ties the atomic set to the 64 queues, and the behaviour of
    [push], [pop] and [WaitOne::poll] under it when they run one after another.
    The last section interleaves the atomic steps of a [push] and a [pop]. *)

From S2P Require Import Prelude Paging Signal.
Import SG.

Section Queue.
Context {Q Ev : Type} `{BoundedQueueSpec Q} `{EventOps Ev}.
Implicit Types (S : Signals Q Ev) (p : SigPending Q Ev) (info : SigInfo).

(** The values waiting at index [i]. *)
Definition elems S (i : Z) : list SigInfo :=
  match lookup_z (pending S) i with Some p => q_elems (queue p) | None => [] end.

(** One queue: its capacity, its values, and the bit that announces it. *)
Definition queue_ok (bit : bool) (i : Z) p : Prop :=
  q_cap (queue p) = cap_of i /\ (length (q_elems (queue p)) <= cap_of i)%nat
  /\ Forall (fun info => sig info = i + 1) (q_elems (queue p))
  /\ (bit = true <-> q_elems (queue p) <> []).

Record sig_inv S : Prop := {
  si_len : length (pending S) = 64%nat;
  si_set : fits 64 (set S);
  si_queue : forall i p, lookup_z (pending S) i = Some p -> queue_ok (Z.testbit (set S) i) i p;
}.

Lemma pending_at S i : sig_inv S -> 0 <= i < 64 -> exists p, lookup_z (pending S) i = Some p.
Proof. intros Hs Hi. apply lookup_z_in. rewrite (si_len _ Hs). lia. Qed.

Lemma elems_at S i p : lookup_z (pending S) i = Some p -> elems S i = q_elems (queue p).
Proof. unfold elems. by intros ->. Qed.

Lemma elems_update S i p v j :
  sig_inv S -> 0 <= i < 64 ->
  elems (mk_signals v (<[Z.to_nat i := p]> (pending S))) j = if j =? i then q_elems (queue p) else elems S j.
Proof.
  intros Hs Hi. unfold elems. simpl. rewrite lookup_z_insert by (rewrite (si_len _ Hs); lia).
  by destruct (j =? i).
Qed.

(** Replacing one queue and its bit. *)
Lemma sig_inv_update S i p v :
  sig_inv S -> 0 <= i < 64 -> fits 64 v -> queue_ok (Z.testbit v i) i p ->
  (forall j, j <> i -> Z.testbit v j = Z.testbit (set S) j) ->
  sig_inv (mk_signals v (<[Z.to_nat i := p]> (pending S))).
Proof.
  intros Hs Hi Hv Hp Hj. split; simpl.
  - rewrite length_insert. apply Hs.
  - done.
  - intros j p'. rewrite lookup_z_insert by (rewrite (si_len _ Hs); lia).
    destruct (Z.eqb_spec j i) as [->|Hne]; [by intros [= <-]|]. rewrite Hj by done. apply Hs.
Qed.

(** The invariant without changing a queue. *)
Lemma sig_inv_same S v :
  sig_inv S -> fits 64 v -> (forall i, 0 <= i < 64 -> Z.testbit v i = Z.testbit (set S) i) ->
  sig_inv (mk_signals v (pending S)).
Proof.
  intros Hs Hv Hb. split; simpl; [apply Hs|done|]. intros i p Hp.
  destruct (lookup_z_Some _ _ _ Hp) as [Hi _]. rewrite (si_len _ Hs) in Hi. rewrite Hb by lia. by apply Hs.
Qed.

Lemma cap_of_pos i : (0 < cap_of i)%nat.
Proof. unfold cap_of. destruct (from_index i); [destruct (is_legacy _)|]; unfold CAP_PER_SIG; lia. Qed.

Lemma cap_of_legacy x : sig_ok x -> is_legacy x = true -> cap_of (x - 1) = 1%nat.
Proof.
  intros Hx Hl. unfold cap_of, from_index, NR_SIGNALS. unfold sig_ok in Hx.
  rewrite (proj2 (Z.ltb_lt _ _)) by lia. replace (x - 1 + 1) with x by lia. by rewrite Hl.
Qed.

Lemma Signals_new_inv : sig_inv Signals_new.
Proof.
  split.
  - reflexivity.
  - unfold fits. simpl. lia.
  - intros i p Hp. apply lookup_z_Some in Hp as [Hi Hp]. unfold Signals_new, indices in Hp. cbn [pending] in Hp.
    rewrite !list_lookup_fmap, lookup_seq_lt in Hp by (change (Z.to_nat NR_SIGNALS) with 64%nat;
      change (Z.of_nat (length (pending Signals_new))) with 64 in Hi; lia).
    injection Hp as <-. change (0 + Z.to_nat i)%nat with (Z.to_nat i). rewrite Z2Nat.id by lia. cbn [set Signals_new].
    destruct (q_new_spec (cap_of i)) as [E1 E2]. unfold queue_ok. simpl. rewrite E1, E2, Z.bits_0.
    split_and!; [done|simpl; lia|constructor|split; [discriminate|intros Hn; by destruct Hn]].
Qed.

(** [push] never panics and keeps the invariant.  It appends the signal to
    its own queue unless the queue is full (a legacy signal that is pending, or a
    real-time signal pending eight times); no other queue changes. *)
Theorem push_spec S info :
  sig_inv S -> sig_ok (sig info) ->
  exists S', push S info = Ok S' /\ sig_inv S'
    /\ forall j, elems S' j =
         if (j =? sig info - 1) && (length (elems S j) <? cap_of j)%nat then elems S j ++ [info] else elems S j.
Proof.
  intros Hs Hx. unfold push. set (i := sig info - 1).
  assert (Hi : 0 <= i < 64) by (unfold sig_ok in Hx; lia).
  destruct (pending_at S i Hs Hi) as [p Hp]. pose proof (si_queue _ Hs i p Hp) as (Hcap & Hlen & Hall & Hbit).
  rewrite contains_testbit by (done || apply Hs). fold i.
  set (v := Z.lor (set S) (mask (sig info))).
  assert (Hv : fits 64 v) by (apply fits_lor; [lia|apply Hs|by apply mask_fits]).
  assert (Hvb : forall j, Z.testbit v j = (j =? i) || Z.testbit (set S) j) by (intros j; by apply testbit_set).
  assert (Hsame : Z.testbit (set S) i = true -> sig_inv (mk_signals v (pending S))).
  { intros Hb. apply sig_inv_same; [done|done|]. intros j Hj. rewrite Hvb.
    destruct (Z.eqb_spec j i) as [->|]; [by rewrite Hb|done]. }
  assert (Hfull : (cap_of i <= length (q_elems (queue p)))%nat ->
    sig_inv (mk_signals v (pending S)) /\ forall j, elems (mk_signals v (pending S)) j =
      if (j =? i) && (length (elems S j) <? cap_of j)%nat then elems S j ++ [info] else elems S j).
  { intros Hf. split.
    - apply Hsame, Hbit. pose proof (cap_of_pos i). intros E. rewrite E in Hf. simpl in Hf. lia.
    - intros j. unfold elems. simpl. fold (elems S j). destruct (Z.eqb_spec j i) as [->|]; [|done].
      rewrite (elems_at _ _ _ Hp). by rewrite (proj2 (Nat.ltb_ge _ _)). }
  destruct (is_legacy (sig info) && Z.testbit (set S) i) eqn:Eleg; simpl negb; cbv iota.
  - apply andb_true_iff in Eleg as [Hleg Hb]. exists (mk_signals v (pending S)). split; [done|]. apply Hfull.
    unfold i. rewrite cap_of_legacy by done. apply Hbit in Hb. destruct (q_elems (queue p)); [done|simpl; lia].
  - rewrite index_eq by done. fold i. simpl pending. rewrite Hp.
    pose proof (q_push_spec (queue p) info) as Hpush. destruct (q_push (queue p) info) as [q|].
    + destruct Hpush as (Hlt & Hel & Hc). eexists. split; [done|]. unfold set_pending, set_set. cbn [pending set].
      split.
      * apply sig_inv_update; [done|done|done| |].
        -- unfold queue_ok. cbn [queue]. rewrite Hel, Hc, Hvb, Z.eqb_refl, length_app. simpl.
           split_and!; [done|lia| |split; [intros _ E; by destruct (q_elems (queue p))|done]].
           apply Forall_app. split; [done|]. constructor; [unfold i; lia|constructor].
        -- intros j Hj. rewrite Hvb. by rewrite (proj2 (Z.eqb_neq _ _) Hj).
      * intros j. rewrite elems_update by done. destruct (Z.eqb_spec j i) as [->|]; [|done]. simpl.
        rewrite (elems_at _ _ _ Hp), Hel, (proj2 (Nat.ltb_lt _ _)) by lia. done.
    + eexists. split; [done|]. apply Hfull. lia.
Qed.

(** ** Taking a signal out *)
(** A masked signal is kept back, except the kill and stop signals. *)
Definition deliverable (masked i : Z) : bool := negb (Z.testbit masked i) || (i =? SIGKILL - 1) || (i =? SIGSTOP - 1).

Lemma clear_never_capture_fits m : fits 64 m -> fits 64 (clear_never_capture m).
Proof. intros Hm. by apply fits_land. Qed.

Lemma deliverable_eq m i :
  fits 64 m -> 0 <= i < 64 -> negb (contains_index (clear_never_capture m) i) = deliverable m i.
Proof.
  intros Hm Hi. rewrite contains_index_eq by (by apply clear_never_capture_fits || done).
  unfold clear_never_capture, deliverable. rewrite Z.land_spec, testbit_wnot by (lia || by vm_compute).
  rewrite Z.lor_spec, !mask_eq, !testbit_pow2 by (unfold sig_ok, SIGKILL, SIGSTOP; lia).
  rewrite (proj2 (Z.leb_le 0 i)), (proj2 (Z.ltb_lt i 64)) by lia.
  destruct (Z.testbit m i), (i =? SIGKILL - 1), (i =? SIGSTOP - 1); done.
Qed.

(** Taking the first value of the queue at [i]. *)
Lemma after_pop_spec S i p info q :
  sig_inv S -> 0 <= i < 64 -> lookup_z (pending S) i = Some p -> q_pop (queue p) = Some (info, q) ->
  let S' := after_pop S i info (mk_pending q (event p)) in
  sig_inv S' /\ elems S i = info :: elems S' i /\ forall j, j <> i -> elems S' j = elems S j.
Proof.
  intros Hs Hi Hp Hq S'. pose proof (si_queue _ Hs i p Hp) as (Hcap & Hlen & Hall & Hbit).
  pose proof (q_pop_spec (queue p)) as Hpop. rewrite Hq in Hpop. destruct Hpop as [Hel Hc].
  rewrite Hel in Hall, Hlen, Hbit. apply Forall_cons in Hall as [Hsig Hall]. simpl in Hlen.
  assert (Hsok : sig_ok (sig info)) by (unfold sig_ok; lia).
  assert (Hb : Z.testbit (set S) i = true) by (by apply Hbit).
  pose proof (q_is_empty_spec q) as Hemp. unfold S', after_pop, set_set, set_pending. cbn [queue pending set].
  destruct (q_is_empty q) eqn:Eq.
  - apply proj1 in Hemp. specialize (Hemp eq_refl). split; [|split].
    + apply sig_inv_update; [done|done|by apply fits_land, Hs| |].
      * unfold queue_ok. cbn [queue]. rewrite testbit_clear by (done || apply Hs).
        rewrite Hsig. replace (i + 1 - 1) with i by lia. rewrite Z.eqb_refl, Hemp. simpl.
        split_and!; [congruence|lia|constructor|split; [done|intros Hn; by destruct Hn]].
      * intros j Hj. rewrite testbit_clear by (done || apply Hs).
        rewrite Hsig. replace (i + 1 - 1) with i by lia. by rewrite (proj2 (Z.eqb_neq _ _) Hj).
    + rewrite (elems_at _ _ _ Hp), Hel. f_equal. rewrite elems_update, Z.eqb_refl by done. done.
    + intros j Hj. rewrite elems_update by done. by rewrite (proj2 (Z.eqb_neq _ _) Hj).
  - assert (Hne : q_elems q <> []) by (intros E; apply Hemp in E; congruence). split; [|split].
    + apply sig_inv_update; [done|done|apply Hs| |done]. unfold queue_ok. cbn [queue]. rewrite Hb.
      split_and!; [congruence|lia|done|done].
    + rewrite (elems_at _ _ _ Hp), Hel. f_equal. rewrite elems_update, Z.eqb_refl by done. done.
    + intros j Hj. rewrite elems_update by done. by rewrite (proj2 (Z.eqb_neq _ _) Hj).
Qed.

Lemma find_pop_spec m k ps :
  match find_pop m k ps with
  | Some (i, info, p') => exists n p q, i = k + Z.of_nat n /\ ps !! n = Some p
      /\ q_pop (queue p) = Some (info, q) /\ p' = mk_pending q (event p) /\ contains_index m i = false
      /\ forall j pj, (j < n)%nat -> ps !! j = Some pj -> contains_index m (k + Z.of_nat j) = false ->
           q_pop (queue pj) = None
  | None => forall j pj, ps !! j = Some pj -> contains_index m (k + Z.of_nat j) = false -> q_pop (queue pj) = None
  end.
Proof.
  revert k. induction ps as [|p ps IH]; intros k; [done|]. cbn [find_pop]. specialize (IH (k + 1)).
  assert (Hrec : forall j, k + 1 + Z.of_nat j = k + Z.of_nat (Datatypes.S j)) by lia.
  assert (Hskip : (contains_index m k = false -> q_pop (queue p) = None) ->
    match find_pop m (k + 1) ps with
    | Some (i, info, p') => exists n p0 q, i = k + Z.of_nat n /\ (p :: ps) !! n = Some p0
        /\ q_pop (queue p0) = Some (info, q) /\ p' = mk_pending q (event p0) /\ contains_index m i = false
        /\ forall j pj, (j < n)%nat -> (p :: ps) !! j = Some pj -> contains_index m (k + Z.of_nat j) = false ->
             q_pop (queue pj) = None
    | None => forall j pj, (p :: ps) !! j = Some pj -> contains_index m (k + Z.of_nat j) = false -> q_pop (queue pj) = None
    end).
  { intros Hhead. destruct (find_pop m (k + 1) ps) as [[[i info] p']|].
    - destruct IH as (n & p0 & q & -> & Hp & Hq & -> & Hc & Hbefore). exists (Datatypes.S n), p0, q.
      rewrite <- Hrec. split_and!; try done. intros [|j] pj Hj; simpl.
      + intros [= <-]. rewrite Z.add_0_r. done.
      + intros Hpj Hcj. eapply Hbefore; [|done|by rewrite Hrec]. lia.
    - intros [|j] pj; simpl.
      + intros [= <-]. rewrite Z.add_0_r. done.
      + intros Hpj Hcj. eapply IH; [done|by rewrite Hrec]. }
  destruct (contains_index m k) eqn:Ec; simpl negb; cbv iota; [by apply Hskip|].
  destruct (q_pop (queue p)) as [[info q]|] eqn:Eq; [|by apply Hskip].
  exists 0%nat, p, q. rewrite Z.add_0_r. split_and!; try done. intros; lia.
Qed.

Lemma q_pop_None_nil (q : Q) : q_pop q = None -> q_elems q = [].
Proof. intros E. pose proof (q_pop_spec q) as Hp. by rewrite E in Hp. Qed.


(** Waiting for one signal takes the oldest value of its queue, whatever the
    mask, and keeps the invariant; it stays pending exactly when the queue is
    empty, and the event future is ready exactly when it is not. *)
Theorem wait_one_spec S x :
  sig_inv S -> sig_ok x ->
  exists r S', wait_one_poll S x = Ok (r, S') /\ sig_inv S'
    /\ wait_one_event_poll S x = Ok (if r then true else false)
    /\ match r with
       | Some info => elems S (x - 1) = info :: elems S' (x - 1) /\ forall j, j <> x - 1 -> elems S' j = elems S j
       | None => elems S (x - 1) = [] /\ S' = S
       end.
Proof.
  intros Hs Hx. unfold wait_one_poll, wait_one_event_poll. rewrite index_eq by done.
  assert (Hi : 0 <= x - 1 < 64) by (unfold sig_ok in Hx; lia).
  destruct (pending_at S (x - 1) Hs Hi) as [p Hp]. rewrite Hp. pose proof (q_is_empty_spec (queue p)) as He.
  pose proof (q_pop_spec (queue p)) as Hpop. destruct (q_pop (queue p)) as [[info q]|] eqn:Hq.
  - eexists (Some info), _. split; [done|].
    destruct (after_pop_spec S (x - 1) p info q Hs Hi Hp Hq) as (Hs' & Hel & Hoth). split_and!; try done.
    destruct (q_is_empty (queue p)); [|done]. destruct Hpop as [Hpop _]. by rewrite (proj1 He eq_refl) in Hpop.
  - exists None, S. rewrite (proj2 He Hpop). by rewrite (elems_at _ _ _ Hp).
Qed.
End Queue.

(** ** A list as a bounded queue *)
Record ListQueue := mk_lq { items : list SigInfo; cap : nat }.

#[export] Instance ListQueue_ops : BoundedQueue ListQueue := {
  q_new n := mk_lq [] n;
  q_push q x := if (length (items q) <? cap q)%nat then Some (mk_lq (items q ++ [x]) (cap q)) else None;
  q_pop q := match items q with [] => None | x :: l => Some (x, mk_lq l (cap q)) end;
  q_is_empty q := match items q with [] => true | _ => false end;
}.

#[export] Program Instance ListQueue_spec : BoundedQueueSpec ListQueue := {
  q_elems := items;
  q_cap := cap;
}.
Next Obligation. done. Qed.
Next Obligation.
  intros q x. simpl. destruct (Nat.ltb_spec (length (items q)) (cap q)); simpl; [done|lia].
Qed.
Next Obligation. intros q. simpl. by destruct (items q). Qed.
Next Obligation. intros q. simpl. by destruct (items q). Qed.

#[export] Instance unit_event : EventOps unit := { ev_new := tt; notify_additional _ _ := tt }.

Definition empty_signals : Signals ListQueue unit := Signals_new.
Definition child_info : SigInfo := mk_info SIGCHLD 0 FNone.

Lemma push_spec_witness :
  exists S', push empty_signals child_info = Ok S' /\ sig_inv S' /\ elems S' 16 = [child_info].
Proof.
  destruct (push_spec empty_signals child_info Signals_new_inv) as (S' & E & Hinv & Hel);
    [unfold sig_ok; simpl; unfold SIGCHLD; lia|].
  exists S'. split; [exact E|]. split; [exact Hinv|]. rewrite Hel. reflexivity.
Defined.


Lemma wait_one_spec_witness :
  exists r S', wait_one_poll empty_signals SIGCHLD = Ok (r, S') /\ sig_inv S'.
Proof.
  destruct (wait_one_spec empty_signals SIGCHLD Signals_new_inv) as (r & S' & E & Hinv & _);
    [unfold sig_ok, SIGCHLD; lia|]. exists r, S'. split; [exact E|exact Hinv].
Defined.

(** ** Interleaving

    [push] and [pop] are sequences of atomic steps on the shared set and the
    shared queues; a thread is the point it has reached. *)
Inductive thread :=
| PushOr (info : SigInfo)
| PushQueue (info : SigInfo)
| PopLoad (masked : Z)
| PopScan (masked i : Z)
| PopCheck (i : Z) (info : SigInfo)
| PopAnd (info : SigInfo)
| Done (r : option SigInfo).

Section Steps.
Context {Q Ev : Type} `{BoundedQueueSpec Q} `{EventOps Ev}.
Implicit Types (S : Signals Q Ev).

Definition tstep S (th : thread) : option (Signals Q Ev * thread) :=
  match th with
  | PushOr info =>
      let old := set S in
      Some (set_set S (Z.lor (set S) (mask (sig info))),
            if negb (is_legacy (sig info) && contains old (sig info)) then PushQueue info else Done None)
  | PushQueue info =>
      p ← lookup_z (pending S) (index (sig info));
      Some (match q_push (queue p) info with
            | Some q => set_pending S (index (sig info)) (mk_pending q (notify_additional (event p) 1))
            | None => S
            end, Done None)
  | PopLoad masked => Some (S, if is_empty S then Done None else PopScan (clear_never_capture masked) 0)
  | PopScan masked i =>
      match lookup_z (pending S) i with
      | None => Some (S, Done None)
      | Some p =>
          if negb (contains_index masked i) then
            match q_pop (queue p) with
            | Some (info, q) => Some (set_pending S i (mk_pending q (event p)), PopCheck i info)
            | None => Some (S, PopScan masked (i + 1))
            end
          else Some (S, PopScan masked (i + 1))
      end
  | PopCheck i info =>
      p ← lookup_z (pending S) i;
      Some (S, if q_is_empty (queue p) then PopAnd info else Done (Some info))
  | PopAnd info => Some (set_set S (Z.land (set S) (wnot 64 (mask (sig info)))), Done (Some info))
  | Done _ => None
  end.

(** One thread on its own. *)
Fixpoint run (fuel : nat) S (th : thread) : Signals Q Ev * thread :=
  match fuel with
  | O => (S, th)
  | Datatypes.S fuel => match tstep S th with Some (S', th') => run fuel S' th' | None => (S, th) end
  end.

(** A pool of threads under a schedule: the thread that takes each step. *)
Fixpoint interleave S (ths : list thread) (schedule : list nat) : Signals Q Ev * list thread :=
  match schedule with
  | [] => (S, ths)
  | n :: schedule =>
      match th ← ths !! n; tstep S th with
      | Some (S', th') => interleave S' (<[n := th']> ths) schedule
      | None => interleave S ths schedule
      end
  end.

Lemma run_step fuel S th S' th' : tstep S th = Some (S', th') -> run (Datatypes.S fuel) S th = run fuel S' th'.
Proof. intros E. cbn [run]. by rewrite E. Qed.

Lemma run_push S info S' : push S info = Ok S' -> run 2 S (PushOr info) = (S', Done None).
Proof.
  unfold push. intros E. cbn [run tstep].
  destruct (negb (is_legacy (sig info) && contains (set S) (sig info))); [|by injection E as <-].
  cbn [tstep]. destruct (lookup_z _ _) as [p|]; [|done]. simpl.
  destruct (q_push (queue p) info); by injection E as <-.
Qed.

(** Taking the value found at [i]. *)
Lemma run_found S m i p info q :
  lookup_z (pending S) i = Some p -> contains_index m i = false -> q_pop (queue p) = Some (info, q) ->
  run 3 S (PopScan m i) = (after_pop S i info (mk_pending q (event p)), Done (Some info)).
Proof.
  intros Hp Hc Hq. destruct (lookup_z_Some _ _ _ Hp) as [Hi _].
  erewrite run_step by (cbn [tstep]; by rewrite Hp, Hc, Hq).
  assert (Hp' : lookup_z (pending (set_pending S i (mk_pending q (event p)))) i = Some (mk_pending q (event p)))
    by (cbn [set_pending pending]; rewrite lookup_z_insert by done; by rewrite Z.eqb_refl).
  erewrite run_step by (cbn [tstep]; rewrite Hp'; done). unfold after_pop. cbn [queue].
  by destruct (q_is_empty q).
Qed.

Lemma run_scan S m ps : forall k, drop k (pending S) = ps ->
  exists fuel, run fuel S (PopScan m (Z.of_nat k)) =
    match find_pop m (Z.of_nat k) ps with
    | Some (i, info, p) => (after_pop S i info p, Done (Some info))
    | None => (S, Done None)
    end.
Proof.
  induction ps as [|p ps IH]; intros k Hk.
  - exists 1%nat. cbn [run tstep]. rewrite lookup_z_nat.
    assert (pending S !! k = None) as -> by (apply lookup_ge_None_2; apply (f_equal length) in Hk;
      rewrite length_drop in Hk; simpl in Hk; lia). done.
  - assert (Hp : pending S !! k = Some p)
      by (rewrite <- (Nat.add_0_r k), <- lookup_drop, Hk; done).
    assert (Hk' : drop (Datatypes.S k) (pending S) = ps) by (rewrite (drop_S _ _ _ Hp) in Hk; by injection Hk).
    destruct (IH (Datatypes.S k) Hk') as [fuel Hrun].
    replace (Z.of_nat (Datatypes.S k)) with (Z.of_nat k + 1) in Hrun by lia.
    rewrite <- lookup_z_nat in Hp. cbn [find_pop].
    destruct (contains_index m (Z.of_nat k)) eqn:Ec; simpl negb; cbv iota.
    + exists (Datatypes.S fuel). rewrite <- Hrun. apply run_step. cbn [tstep]. by rewrite Hp, Ec.
    + destruct (q_pop (queue p)) as [[info q]|] eqn:Eq; [exists 3%nat; by apply run_found|].
      exists (Datatypes.S fuel). rewrite <- Hrun. apply run_step. cbn [tstep]. by rewrite Hp, Ec, Eq.
Qed.

(** Run without interference, the atomic steps of [push] and of [pop] end and
    have the effect of the whole operation. *)
Theorem steps_alone S info m S' :
  push S info = Ok S' ->
  (exists fuel, run fuel S (PushOr info) = (S', Done None))
  /\ exists fuel, run fuel S (PopLoad m) = ((pop S m).2, Done (pop S m).1).
Proof.
  intros Hpush. split; [exists 2%nat; by apply run_push|]. unfold pop.
  destruct (is_empty S) eqn:E; [exists 1%nat; cbn [run tstep]; by rewrite E|].
  destruct (run_scan S (clear_never_capture m) (pending S) 0 eq_refl) as [fuel Hrun].
  change (Z.of_nat 0) with 0 in Hrun.
  exists (Datatypes.S fuel). erewrite run_step by (cbn [tstep]; rewrite E; done). rewrite Hrun.
  by destruct (find_pop _ _ _) as [[[i info'] p]|].
Qed.
End Steps.

(** A real-time signal that is pending once, and a schedule in which the thread
    that takes it is overtaken by one that sends it again. *)
Definition rt_info : SigInfo := mk_info 40 0 FNone.
Definition rt_pending : Signals ListQueue unit :=
  match push empty_signals rt_info with Ok st => st | _ => empty_signals end.
Definition overtaking : list nat := replicate 42 0%nat ++ [1%nat; 1%nat; 0%nat].

Lemma steps_alone_witness : exists fuel, run fuel rt_pending (PushOr rt_info) =
  (match push rt_pending rt_info with Ok st => st | _ => empty_signals end, Done None).
Proof. apply (steps_alone rt_pending rt_info 0). vm_compute. reflexivity. Defined.

(** A signal sent while the last queued one is being taken can be left in its
    queue with its bit clear: the receiver finds the queue empty, the sender sets
    the bit (already set) and queues the signal, and the receiver then clears the
    bit.  With no thread active any more, [pop] reports that nothing is pending. *)
Theorem push_pop_race :
  let '(st, ths) := interleave rt_pending [PopLoad 0; PushOr rt_info] overtaking in
  ths = [Done (Some rt_info); Done None] /\ elems st 39 = [rt_info] /\ (pop st 0).1 = None.
Proof. vm_compute. split_and!; reflexivity. Qed.
