(* ===== verification/Ktime.v ===== *)
(** * ktime: instants, timers and the timer queue

    mizu/lib/ktime-core/src/instant.rs and mizu/lib/ktime/src/timer.rs.  An
    [Instant] counts microseconds in 128 bits.  The current time is an argument
    of the operations that read the clock.  The bounded queue of pending changes
    (heapless' [MpMcQueue]) and the wakers are parameters. *)

From S2P Require Import Prelude BTree.
From Stdlib Require Import Sorting.Sorted.

Module KT.

(** ** core::time::Duration: whole seconds and nanoseconds below one second *)
Record Duration := mk_duration { secs : Z; nanos : Z }.
Definition NANOS_PER_SEC : Z := 1000000000.
Definition Duration_new (s n : Z) : res unit Duration :=
  let s' := s + n / NANOS_PER_SEC in
  if s' <? 2 ^ 64 then Ok (mk_duration s' (n mod NANOS_PER_SEC)) else Panic.
Definition as_micros (d : Duration) : Z := secs d * 1000000 + nanos d / 1000.
Definition from_micros (us : Z) : Duration := mk_duration (us / 1000000) (us mod 1000000 * 1000).
Definition Duration_MAX : Duration := mk_duration (2 ^ 64 - 1) (NANOS_PER_SEC - 1).
Definition Duration_default : Duration := mk_duration 0 0.

(** ** instant.rs *)
Definition TIME_FREQ_M : Z * Z := (1, 10).

Definition from_raw (raw : Z) : Z := wmul 128 TIME_FREQ_M.1 raw / TIME_FREQ_M.2.
Definition to_su (i : Z) : Z * Z := (wrap 64 (i / 1000000), wrap 64 (i mod 1000000)).
Definition from_su (s us : Z) : Z := wadd 128 (wmul 128 s 1000000) us.

Definition checked_duration_since (self earlier : Z) : option (res unit Duration) :=
  micros ← checked_sub self earlier;
  let s := wrap 64 (micros / 1000000) in
  let us := wrap 32 (micros mod 1000000) in
  Some (Duration_new s us).
Definition duration_since (self earlier : Z) : res unit Duration :=
  default (Ok Duration_default) (checked_duration_since self earlier).
Definition instant_checked_add (i : Z) (d : Duration) : option Z := checked_add 128 i (as_micros d).
Definition instant_checked_sub (i : Z) (d : Duration) : option Z := checked_sub i (as_micros d).
Definition instant_add (i : Z) (d : Duration) : res unit Z := unwrap (instant_checked_add i d).
Definition instant_sub (i : Z) (d : Duration) : res unit Z := unwrap (instant_checked_sub i d).

(** ** timer.rs: the queue *)
Definition PENDING_CAP : nat := 128.

Section Timer.
Context {W : Type} (will_wake : W -> W -> bool).

Inductive TimerBatch :=
| Insert (deadline id : Z) (waker : W)
| Remove (deadline id : Z).

(** A bounded first-in first-out queue; [enqueue] gives the value back when the
    queue is full. *)
Class BatchQueue (Q : Type) := {
  enqueue : Q -> TimerBatch -> option Q;
  dequeue : Q -> option (TimerBatch * Q);
}.

Context {Q : Type} `{BatchQueue Q}.

Notation heap_map := (list ((Z * Z) * W)).

(** [ID] is the static counter of [insert]. *)
Record TimerQueue := mk_queue { heap : list ((Z * Z) * W); pending : Q; ID : Z }.
Implicit Types (q : TimerQueue) (b : TimerBatch).

Definition apply_batch (h : heap_map) b : heap_map :=
  match b with
  | Insert deadline id waker => bt_insert h (deadline, id) waker
  | Remove deadline id => bt_remove h (deadline, id)
  end.

Fixpoint drain (n : nat) (p : Q) (h : heap_map) : Q * heap_map :=
  match n with
  | O => (p, h)
  | S n => match dequeue p with
           | Some (b, p) => drain n p (apply_batch h b)
           | None => (p, h)
           end
  end.

Definition proc_batch (more : option TimerBatch) q : TimerQueue :=
  let h := match more with Some b => apply_batch (heap q) b | None => heap q end in
  let '(p, h) := drain PENDING_CAP (pending q) h in
  mk_queue h p (ID q).

Definition submit q b : TimerQueue :=
  match enqueue (pending q) b with
  | Some p => mk_queue (heap q) p (ID q)
  | None => proc_batch (Some b) q
  end.

Definition insert q (deadline : Z) (waker : W) : Z * TimerQueue :=
  let id := ID q in
  let q := mk_queue (heap q) (pending q) (wadd 64 (ID q) 1) in
  (id, submit q (Insert deadline id waker)).

Definition remove q (deadline id : Z) : TimerQueue := submit q (Remove deadline id).

(** The wakers [tick] wakes, in order. *)
Definition tick q (now : Z) : res unit (list W * TimerQueue) :=
  let q := proc_batch None q in
  bound ← instant_add now (from_micros 1);
  let '(due, later) := bt_split_off (heap q) (bound, 0) in
  mret (snd <$> due, mk_queue later (pending q) (ID q)).

(** ** timer.rs: the timer *)
Record Timer := mk_timer { deadline : Z; done : bool; period : Duration; handle : option (Z * W) }.
Implicit Types (t : Timer).

Definition Timer_deadline (d : Z) : Timer := mk_timer d false Duration_MAX None.
Definition after (now : Z) (d : Duration) : res unit Timer :=
  i ← instant_add now d; mret (Timer_deadline i).
Definition Timer_period (now : Z) (p : Duration) : res unit Timer :=
  i ← instant_add now p; mret (mk_timer i false p None).

(** [clear], also the [Drop] of a timer. *)
Definition clear t q : Timer * TimerQueue :=
  match handle t with
  | Some (id, _) => (mk_timer (deadline t) (done t) (period t) None, remove q (deadline t) id)
  | None => (t, q)
  end.

Definition set_deadline t q (d : Z) : Timer * TimerQueue :=
  let '(t, q) := clear t q in (mk_timer d false Duration_MAX (handle t), q).
Definition set_after t q (now : Z) (d : Duration) : res unit (Timer * TimerQueue) :=
  i ← instant_add now d; mret (set_deadline t q i).
Definition set_period t q (now : Z) (p : Duration) : res unit (Timer * TimerQueue) :=
  let '(t, q) := clear t q in
  i ← instant_add now p;
  mret (mk_timer i false p (handle t), q).

Definition register q (d : Z) (cx : W) : (Z * W) * TimerQueue :=
  let '(id, q) := insert q d cx in ((id, cx), q).

(** [poll_next]: [Some now] when it is ready, [None] when it is pending. *)
Definition poll_next t q (now : Z) (cx : W) : option Z * Timer * TimerQueue :=
  if done t then (None, t, q)
  else if deadline t <=? now then
    let '(t, q) := clear t q in
    match instant_checked_add (deadline t) (period t) with
    | Some new =>
        let '(h, q) := register q new cx in
        (Some now, mk_timer new (done t) (period t) (Some h), q)
    | None => (Some now, mk_timer (deadline t) true (period t) (handle t), q)
    end
  else
    match handle t with
    | Some (id, waker) =>
        if negb (will_wake waker cx) then
          let q := remove q (deadline t) id in
          let '(h, q) := register q (deadline t) cx in
          (None, mk_timer (deadline t) (done t) (period t) (Some h), q)
        else (None, t, q)
    | None =>
        let '(h, q) := register q (deadline t) cx in
        (None, mk_timer (deadline t) (done t) (period t) (Some h), q)
    end.
End Timer.
Arguments TimerBatch W : clear implicits.
Arguments BatchQueue W Q : clear implicits.
Arguments TimerQueue W Q : clear implicits.
Arguments Timer W : clear implicits.

(** ** lib.rs: a future with a timeout

    One poll of [OnTimeout] (and of [OkOrTimeout], which wraps the two outcomes):
    [fut] is the outcome of polling the inner future, [timer] whether polling the
    timer was ready; the fallback is taken at most once. *)
Definition timeout_poll {T G} (fut : option T) (timer : bool) (out : option G) (call : G -> T) :
    res unit (option T * option G) :=
  match fut with
  | Some data => Ok (Some data, out)
  | None => if timer then match out with Some g => Ok (Some (call g), None) | None => Panic end
            else Ok (None, out)
  end.

End KT.

(** * ktime: correctness of the timer queue and of timers

    [view] is the map of registered wakers: the heap with the pending changes
    applied.  The theorems say what each operation does to it and that a timer
    that is not ready yet is woken by the first tick after its deadline. *)
Import KT.

(** ** Instants *)
(** Seconds and microseconds split an instant and build it again, up to the
    largest second count of 64 bits. *)
Lemma su_roundtrip (i : Z) :
  0 <= i < 2 ^ 64 * 1000000 -> from_su (to_su i).1 (to_su i).2 = i /\ 0 <= (to_su i).2 < 1000000.
Proof.
  intros Hi. unfold to_su. cbn [fst snd].
  assert (0 <= i mod 1000000 < 1000000) by (apply Z.mod_pos_bound; lia).
  assert (0 <= i / 1000000 < 2 ^ 64) by (split; [apply Z.div_pos; lia|apply Z.div_lt_upper_bound; lia]).
  rewrite (wrap_small 64 (i / 1000000)), (wrap_small 64 (i mod 1000000)) by (unfold fits; lia).
  split; [|done]. unfold from_su. pose proof (Z.div_mod i 1000000).
  rewrite wmul_small, wadd_small by (unfold fits; lia). lia.
Qed.

(** The duration between two instants has the right seconds, but its
    microseconds are stored as nanoseconds: it is exact only for whole seconds. *)
Theorem duration_since_micros (a b : Z) :
  0 <= b <= a -> a - b < 2 ^ 64 * 1000000 ->
  exists d, duration_since a b = Ok d /\ secs d = (a - b) / 1000000 /\ nanos d = (a - b) mod 1000000
    /\ (as_micros d = a - b <-> (a - b) mod 1000000 = 0).
Proof.
  intros Hab Hlt. unfold duration_since, checked_duration_since, checked_sub.
  rewrite (proj2 (Z.leb_le b a)) by lia. simpl. set (m := a - b).
  assert (0 <= m mod 1000000 < 1000000) by (apply Z.mod_pos_bound; lia).
  assert (0 <= m / 1000000 < 2 ^ 64) by (split; [apply Z.div_pos; lia|apply Z.div_lt_upper_bound; lia]).
  rewrite (wrap_small 64 (m / 1000000)), (wrap_small 32 (m mod 1000000)) by (unfold fits; lia).
  unfold Duration_new, NANOS_PER_SEC. rewrite (Z.div_small (m mod 1000000)), Z.add_0_r by lia.
  rewrite (proj2 (Z.ltb_lt _ _)) by lia. eexists. split; [done|]. cbn [secs nanos]. unfold as_micros. cbn [secs nanos].
  rewrite (Z.mod_small (m mod 1000000)) by lia. split; [done|]. split; [done|].
  pose proof (Z.div_mod m 1000000). pose proof (Z.div_mod (m mod 1000000) 1000).
  pose proof (Z.mod_pos_bound (m mod 1000000) 1000). lia.
Qed.

Lemma duration_since_micros_witness : exists d, duration_since 2500000 1000000 = Ok d /\ secs d = 1 /\ nanos d = 500000.
Proof.
  destruct (duration_since_micros 2500000 1000000) as (d & E & Hs & Hn & _); [lia|lia|].
  exists d. split; [exact E|]. split; [exact Hs|exact Hn].
Defined.

(** A one-shot timer that fires is registered again: its period does not overflow
    the 128 bits of an instant. *)
Lemma one_shot_rearms (i : Z) : 0 <= i < 2 ^ 127 -> instant_checked_add i Duration_MAX <> None.
Proof.
  intros Hi. unfold instant_checked_add, checked_add.
  assert (E : as_micros Duration_MAX = (2 ^ 64 - 1) * 1000000 + 999999) by reflexivity. rewrite E.
  rewrite (proj2 (Z.ltb_lt _ _)) by lia. done.
Qed.

(** ** The queue *)
Class BatchQueueSpec (W Q : Type) `{BatchQueue W Q} := {
  bq_elems : Q -> list (TimerBatch W);
  bq_enqueue q b : match enqueue q b with
    | Some q' => (length (bq_elems q) < PENDING_CAP)%nat /\ bq_elems q' = bq_elems q ++ [b]
    | None => (PENDING_CAP <= length (bq_elems q))%nat
    end;
  bq_dequeue q : match dequeue q with
    | Some (b, q') => bq_elems q = b :: bq_elems q'
    | None => bq_elems q = []
    end;
}.

Section Queue.
Context {W Q : Type} (will_wake : W -> W -> bool) `{BatchQueueSpec W Q}.
Implicit Types (q : TimerQueue W Q) (b : TimerBatch W) (t : Timer W) (h : list ((Z * Z) * W)) (k : Z * Z).

Definition key b : Z * Z := match b with Insert d id _ => (d, id) | Remove d id => (d, id) end.
Definition val b : option W := match b with Insert _ _ w => Some w | Remove _ _ => None end.
Definition upd k (o : option W) b : option W := if keqb k (key b) then val b else o.

Definition view q : list ((Z * Z) * W) := fold_left apply_batch (bq_elems (pending q)) (heap q).

Lemma apply_batch_wf h b : bt_wf h -> bt_wf (apply_batch h b).
Proof. intros Hh. destruct b; [by apply bt_insert_wf|by apply bt_remove_wf]. Qed.

Lemma get_apply h b k : bt_wf h -> bt_get (apply_batch h b) k = upd k (bt_get h k) b.
Proof.
  intros Hh. destruct b; unfold upd; simpl.
  - rewrite bt_get_insert by done. done.
  - rewrite bt_get_remove by done. done.
Qed.

Lemma fold_wf bs : forall h, bt_wf h -> bt_wf (fold_left apply_batch bs h).
Proof. induction bs as [|b bs IH]; intros h Hh; [done|]. simpl. apply IH. by apply apply_batch_wf. Qed.

Lemma get_fold k bs : forall h, bt_wf h -> bt_get (fold_left apply_batch bs h) k = fold_left (upd k) bs (bt_get h k).
Proof.
  induction bs as [|b bs IH]; intros h Hh; [done|]. simpl. rewrite IH by by apply apply_batch_wf.
  by rewrite get_apply.
Qed.

(** A change commutes with the changes of other keys. *)
Lemma upd_other k b bs : forall o, Forall (fun b' => key b' <> key b) bs -> 
  fold_left (upd k) bs (upd k o b) = upd k (fold_left (upd k) bs o) b.
Proof.
  intros o Hall. unfold upd at 2. destruct (keqb k (key b)) eqn:E.
  - apply keqb_eq in E. subst k. unfold upd at 2. rewrite keqb_refl. generalize (val b) as v. clear o.
    induction Hall as [|b' bs Hb _ IH]; intros v; [done|]. simpl. unfold upd at 2.
    rewrite (proj2 (keqb_neq (key b) (key b'))) by congruence. apply IH.
  - unfold upd at 2. by rewrite E.
Qed.

(** ** The invariant: keys carry identifiers that were handed out before. *)
Record queue_inv q : Prop := {
  qi_wf : bt_wf (heap q);
  qi_len : (length (bq_elems (pending q)) <= PENDING_CAP)%nat;
  qi_ID : 1 <= ID q;
  qi_heap : Forall (fun e => 1 <= (e.1).2 < ID q) (heap q);
  qi_pending : Forall (fun b => 1 <= (key b).2 < ID q) (bq_elems (pending q));
}.

Lemma apply_ids h b (lim : Z) :
  Forall (fun e : (Z * Z) * W => 1 <= (e.1).2 < lim) h -> 1 <= (key b).2 < lim ->
  Forall (fun e : (Z * Z) * W => 1 <= (e.1).2 < lim) (apply_batch h b).
Proof.
  intros Hh Hb. destruct b; simpl in *.
  - by apply Forall_bt_insert.
  - rewrite List.Forall_forall in *. intros e He%bt_remove_sub. by apply Hh.
Qed.

Lemma fold_ids bs (lim : Z) : forall h,
  Forall (fun e : (Z * Z) * W => 1 <= (e.1).2 < lim) h -> Forall (fun b => 1 <= (key b).2 < lim) bs ->
  Forall (fun e : (Z * Z) * W => 1 <= (e.1).2 < lim) (fold_left apply_batch bs h).
Proof.
  induction bs as [|b bs IH]; intros h Hh Hbs; [done|]. apply Forall_cons in Hbs as [Hb Hbs]. simpl.
  apply IH; [by apply apply_ids|done].
Qed.

Lemma drain_all n : forall p h, (length (bq_elems p) <= n)%nat ->
  exists p', drain n p h = (p', fold_left apply_batch (bq_elems p) h) /\ bq_elems p' = [].
Proof.
  induction n as [|n IH]; intros p h Hl; cbn [drain].
  - exists p. destruct (bq_elems p); [done|simpl in Hl; lia].
  - pose proof (bq_dequeue p) as Hd. destruct (dequeue p) as [[b p']|].
    + rewrite Hd. simpl. apply IH. rewrite Hd in Hl. simpl in Hl. lia.
    + exists p. by rewrite Hd.
Qed.

Lemma proc_batch_spec more q :
  queue_inv q -> match more with Some b => 1 <= (key b).2 < ID q | None => True end ->
  let q' := proc_batch more q in
  queue_inv q' /\ bq_elems (pending q') = [] /\ ID q' = ID q
  /\ heap q' = fold_left apply_batch (bq_elems (pending q))
                 (match more with Some b => apply_batch (heap q) b | None => heap q end).
Proof.
  intros [Hwf Hlen HID Hh Hp] Hmore. unfold proc_batch.
  set (h := match more with Some b => apply_batch (heap q) b | None => heap q end).
  assert (Hwf' : bt_wf h) by (unfold h; destruct more; [by apply apply_batch_wf|done]).
  assert (Hh' : Forall (fun e : (Z * Z) * W => 1 <= (e.1).2 < ID q) h)
    by (unfold h; destruct more; [by apply apply_ids|done]).
  destruct (drain_all PENDING_CAP (pending q) h Hlen) as (p' & -> & Hp'). simpl. split; [|done].
  split; simpl; [by apply fold_wf|rewrite Hp'; simpl; lia|done|by apply fold_ids|by rewrite Hp'].
Qed.

(** Submitting a change: it takes effect on the view unless the queue is full and
    holds a change of the same key, which is then applied after it. *)
Lemma submit_spec q b :
  queue_inv q -> 1 <= (key b).2 < ID q ->
  queue_inv (submit q b) /\ ID (submit q b) = ID q
  /\ (forall k, k <> key b -> bt_get (view (submit q b)) k = bt_get (view q) k)
  /\ ((length (bq_elems (pending q)) < PENDING_CAP)%nat \/ Forall (fun b' => key b' <> key b) (bq_elems (pending q)) ->
      bt_get (view (submit q b)) (key b) = val b).
Proof.
  intros Hq Hb. unfold submit. pose proof (bq_enqueue (pending q) b) as He.
  destruct (enqueue (pending q) b) as [p|].
  - destruct He as [Hlt Hel]. destruct Hq as [Hwf Hlen HID Hh Hp]. split; [|split; [done|]].
    + split; simpl; try done; rewrite Hel; [rewrite length_app; simpl; lia|].
      apply Forall_app. split; [done|by constructor].
    + unfold view. simpl. rewrite Hel, fold_left_app. simpl. split.
      * intros k Hk. rewrite get_apply by by apply fold_wf. unfold upd. by rewrite (proj2 (keqb_neq _ _) Hk).
      * intros _. rewrite get_apply by by apply fold_wf. unfold upd. by rewrite keqb_refl.
  - destruct (proc_batch_spec (Some b) q Hq Hb) as (Hq' & Hel & HID & Hheap).
    split; [done|]. split; [done|]. unfold view. rewrite Hel. cbn [fold_left]. rewrite Hheap.
    pose proof (qi_wf _ Hq) as Hwf. split.
    + intros k Hk. rewrite !get_fold by (done || by apply apply_batch_wf). rewrite get_apply by done.
      unfold upd at 2. by rewrite (proj2 (keqb_neq _ _) Hk).
    + intros [Hlt|Hall]; [lia|]. rewrite get_fold, get_apply by (done || by apply apply_batch_wf).
      rewrite upd_other by done. unfold upd at 1. by rewrite keqb_refl.
Qed.

Lemma queue_inv_ID q n : queue_inv q -> ID q <= n -> queue_inv (mk_queue (heap q) (pending q) n).
Proof.
  intros [Hwf Hlen HID Hh Hp] Hn. split; simpl; try done; [lia| |];
    (eapply Forall_impl; [eassumption|]); simpl; intros; lia.
Qed.

Lemma fresh_pending q d : queue_inv q -> Forall (fun b => key b <> (d, ID q)) (bq_elems (pending q)).
Proof.
  intros Hq. eapply Forall_impl; [apply (qi_pending _ Hq)|]. simpl. intros b Hb E. rewrite E in Hb. simpl in Hb. lia.
Qed.

(** Registering a waker hands out a new identifier and adds exactly that entry
    to the registered wakers, also when the queue of pending changes is full. *)
Lemma insert_view q d w :
  queue_inv q -> ID q + 1 < 2 ^ 64 ->
  let '(id, q') := insert q d w in
  queue_inv q' /\ id = ID q /\ ID q' = ID q + 1
  /\ forall k, bt_get (view q') k = if keqb k (d, id) then Some w else bt_get (view q) k.
Proof.
  intros Hq HID. unfold insert. rewrite wadd_small by (pose proof (qi_ID _ Hq); unfold fits; lia).
  set (q1 := mk_queue (heap q) (pending q) (ID q + 1)).
  assert (Hq1 : queue_inv q1) by (apply queue_inv_ID; [done|lia]).
  destruct (submit_spec q1 (Insert d (ID q) w) Hq1) as (Hq' & HID' & Hoth & Hkey).
  { simpl. pose proof (qi_ID _ Hq). lia. }
  split; [done|]. split; [done|]. split; [done|]. intros k.
  destruct (keqb k (d, ID q)) eqn:E.
  - apply keqb_eq in E. subst k. apply (Hkey (or_intror (fresh_pending q d Hq))).
  - apply keqb_neq in E. by rewrite (Hoth k E).
Qed.

(** Taking a registration back removes exactly that entry, unless the queue of
    pending changes is full and still holds a change of it. *)
Theorem remove_spec q d id :
  queue_inv q -> 1 <= id < ID q ->
  queue_inv (remove q d id) /\ ID (remove q d id) = ID q
  /\ (forall k, k <> (d, id) -> bt_get (view (remove q d id)) k = bt_get (view q) k)
  /\ ((length (bq_elems (pending q)) < PENDING_CAP)%nat
       \/ Forall (fun b => key b <> (d, id)) (bq_elems (pending q)) ->
      bt_get (view (remove q d id)) (d, id) = None).
Proof. intros Hq Hid. apply (submit_spec q (Remove d id) Hq Hid). Qed.

(** C25: a tick applies every pending change, wakes exactly the registered wakers
    whose deadline has been reached, in the order of their deadlines, and leaves
    the others registered. *)
Theorem tick_spec q now :
  queue_inv q -> 0 <= now < 2 ^ 128 - 1 ->
  exists q', tick q now = Ok (snd <$> List.filter (fun e => (e.1).1 <=? now) (view q), q')
    /\ queue_inv q' /\ bt_wf (view q) /\ bq_elems (pending q') = []
    /\ forall k, bt_get (view q') k = if k.1 <=? now then None else bt_get (view q) k.
Proof.
  intros Hq Hnow. unfold tick. destruct (proc_batch_spec None q Hq I) as (Hq' & Hel & HID & Hheap).
  fold (view q) in Hheap. set (q1 := proc_batch None q) in *.
  assert (Hadd : instant_add now (from_micros 1) = Ok (now + 1)).
  { unfold instant_add, instant_checked_add, checked_add. change (as_micros (from_micros 1)) with 1.
    by rewrite (proj2 (Z.ltb_lt _ _)) by lia. }
  rewrite Hadd. unfold mbind, res_bind, bt_split_off. cbv iota beta.
  assert (Hids : forall e, In e (heap q1) -> kltb e.1 (now + 1, 0) = ((e.1).1 <=? now)).
  { intros e He. pose proof (qi_heap _ Hq') as Hids. rewrite List.Forall_forall in Hids. specialize (Hids e He).
    simpl. apply eq_true_iff_eq. rewrite orb_true_iff, andb_true_iff, negb_true_iff, !Z.ltb_lt, Z.ltb_ge, Z.leb_le. lia. }
  assert (Hwf : bt_wf (view q)) by (rewrite <- Hheap; apply Hq').
  assert (Hdue : bt_below (heap q1) (now + 1, 0) = List.filter (fun e => (e.1).1 <=? now) (view q)).
  { rewrite <- Hheap. unfold bt_below. apply List.filter_ext_in. intros e He. by apply Hids. }
  rewrite Hdue. eexists. split; [reflexivity|split; [|split; [done|split; [done|]]]].
  - destruct Hq' as [Hwf' Hlen HID' Hh Hp]. split; simpl; try done; [by apply bt_filter_wf|].
    rewrite List.Forall_forall in *. intros e [He _]%List.filter_In. by apply Hh.
  - intros k. unfold view at 1. simpl. rewrite Hel. simpl. rewrite <- Hheap in *. unfold bt_from.
    destruct (bt_get _ k) as [w|] eqn:E.
    + apply bt_get_In in E; [|by apply bt_filter_wf]. apply List.filter_In in E as [Hin Hk].
      rewrite (Hids _ Hin) in Hk. simpl in Hk. apply negb_true_iff in Hk. rewrite Hk.
      symmetry. by apply bt_get_In.
    + destruct (k.1 <=? now) eqn:Hk; [done|]. destruct (bt_get (heap q1) k) as [w|] eqn:E2; [|done].
      apply bt_get_In in E2; [|done]. rewrite <- E. apply bt_get_In; [by apply bt_filter_wf|].
      apply List.filter_In. split; [done|]. rewrite (Hids _ E2). simpl. by rewrite Hk.
Qed.

(** ** Timers *)
(** A registered timer is in the queue under its deadline and identifier. *)
Definition timer_ok t q : Prop :=
  match handle t with
  | Some (id, w) => 1 <= id < ID q /\ bt_get (view q) (deadline t, id) = Some w
  | None => True
  end.

Lemma register_spec q d cx :
  queue_inv q -> ID q + 1 < 2 ^ 64 ->
  let '(h, q') := register q d cx in
  queue_inv q' /\ h = (ID q, cx) /\ ID q' = ID q + 1 /\ bt_get (view q') (d, ID q) = Some cx.
Proof.
  intros Hq HID. unfold register. pose proof (insert_view q d cx Hq HID) as Hi.
  destruct (insert q d cx) as [id q']. destruct Hi as (Hq' & -> & HID' & Hview).
  split_and!; try done. by rewrite Hview, keqb_refl.
Qed.

Lemma clear_spec t q :
  queue_inv q -> timer_ok t q ->
  let '(t', q') := clear t q in
  queue_inv q' /\ ID q' = ID q /\ t' = mk_timer (deadline t) (done t) (period t) None.
Proof.
  intros Hq Ht. unfold clear, timer_ok in *. destruct t as [dl dn pe [[id w]|]]; simpl in *; [|done].
  destruct Ht as [Hid _]. destruct (submit_spec q (Remove dl id) Hq Hid) as (Hq' & HID & _). done.
Qed.

(** Polling a timer.  It is ready exactly when its deadline has passed and it
    has not finished, and then gives the current time; while it is pending it is
    registered in the queue with a waker that wakes the polling task.  The queue
    and the registration of the timer stay consistent. *)
Theorem poll_next_spec t q now cx :
  queue_inv q -> timer_ok t q -> ID q + 1 < 2 ^ 64 -> (forall w, will_wake w w = true) ->
  let '(r, t', q') := poll_next will_wake t q now cx in
  queue_inv q' /\ timer_ok t' q'
  /\ r = (if negb (done t) && (deadline t <=? now) then Some now else None)
  /\ (r = None -> deadline t' = deadline t
      /\ (done t = false -> exists id w, handle t' = Some (id, w) /\ will_wake w cx = true
                                        /\ bt_get (view q') (deadline t, id) = Some w)).
Proof.
  intros Hq Ht HID Hww. unfold poll_next. destruct (done t) eqn:Ed; [done|]. simpl negb. rewrite andb_true_l.
  destruct (Z.leb_spec (deadline t) now).
  - pose proof (clear_spec t q Hq Ht) as Hc. destruct (clear t q) as [t1 q1]. destruct Hc as (Hq1 & HID1 & ->).
    cbn [deadline period done handle]. destruct (instant_checked_add (deadline t) (period t)) as [new|].
    + pose proof (register_spec q1 new cx Hq1 ltac:(lia)) as Hr. destruct (register q1 new cx) as [h q2].
      destruct Hr as (Hq2 & -> & HID2 & Hv). split; [done|]. split; [|done].
      unfold timer_ok. simpl. rewrite HID2. split; [pose proof (qi_ID _ Hq1); lia|done].
    + split; [done|]. split; [done|]. done.
  - assert (Hreg : forall q1, queue_inv q1 -> ID q1 = ID q ->
      let '(h, q2) := register q1 (deadline t) cx in
      let t' := mk_timer (deadline t) false (period t) (Some h) in
      queue_inv q2 /\ timer_ok t' q2 /\ @None Z = None
      /\ (@None Z = None -> deadline t' = deadline t
          /\ (false = false -> exists id w, handle t' = Some (id, w) /\ will_wake w cx = true
                                           /\ bt_get (view q2) (deadline t, id) = Some w))).
    { intros q1 Hq1 HID1. pose proof (register_spec q1 (deadline t) cx Hq1 ltac:(lia)) as Hr.
      destruct (register q1 (deadline t) cx) as [h q2]. destruct Hr as (Hq2 & -> & HID2 & Hv).
      split; [done|]. split; [unfold timer_ok; simpl; rewrite HID2; pose proof (qi_ID _ Hq1); split; [lia|done]|].
      split; [done|]. intros _. split; [done|]. intros _. exists (ID q1), cx. by rewrite Hww. }
    destruct (handle t) as [[id w]|] eqn:Eh.
    + destruct (will_wake w cx) eqn:Ew; simpl negb; cbv iota.
      * split; [done|]. split; [done|]. split; [done|]. intros _. split; [done|]. intros _.
        unfold timer_ok in Ht. rewrite Eh in Ht. destruct Ht as [_ Ht]. by exists id, w.
      * unfold timer_ok in Ht. rewrite Eh in Ht. destruct Ht as [Hid _].
        destruct (submit_spec q (Remove (deadline t) id) Hq Hid) as (Hq1 & HID1 & _).
        specialize (Hreg _ Hq1 HID1). fold (remove q (deadline t) id) in Hreg. by destruct (register _ _ _).
    + specialize (Hreg q Hq eq_refl). by destruct (register _ _ _).
Qed.
End Queue.

(** ** A list as the queue of pending changes *)
Record ListBatch (W : Type) := mk_lb { batches : list (TimerBatch W) }.
Arguments mk_lb {W} _.
Arguments batches {W} _.

#[export] Instance ListBatch_ops {W} : BatchQueue W (ListBatch W) := {
  enqueue q b := if (length (batches q) <? PENDING_CAP)%nat then Some (mk_lb (batches q ++ [b])) else None;
  dequeue q := match batches q with [] => None | b :: l => Some (b, mk_lb l) end;
}.

#[export] Program Instance ListBatch_spec {W} : BatchQueueSpec W (ListBatch W) := {
  bq_elems := batches;
}.
Next Obligation. intros W q b. simpl. destruct (Nat.ltb_spec (length (batches q)) PENDING_CAP); simpl; [done|lia]. Qed.
Next Obligation. intros W q. simpl. by destruct (batches q). Qed.

(** Wakers are numbered tasks. *)
Definition empty_queue : TimerQueue Z (ListBatch Z) := mk_queue [] (mk_lb []) 1.

Lemma empty_queue_inv : queue_inv empty_queue.
Proof. split; simpl; [constructor|unfold PENDING_CAP; lia|lia|constructor|constructor]. Qed.

Lemma tick_spec_witness : exists q', tick empty_queue 5 = Ok ([], q') /\ queue_inv q'.
Proof.
  destruct (tick_spec empty_queue 5 empty_queue_inv) as (q' & E & Hq' & _); [lia|].
  exists q'. split; [exact E|exact Hq'].
Defined.

Lemma poll_next_spec_witness :
  let '(r, t', q') := poll_next Z.eqb (Timer_deadline 10) empty_queue 3 7 in
  r = None /\ exists id w, handle t' = Some (id, w) /\ (w =? 7) = true /\ bt_get (view q') (10, id) = Some w.
Proof.
  pose proof (poll_next_spec Z.eqb (Timer_deadline 10) empty_queue 3 7 empty_queue_inv) as Hp.
  destruct (poll_next Z.eqb (Timer_deadline 10) empty_queue 3 7) as [[r t'] q'].
  destruct Hp as (_ & _ & Hr & Hreg); [exact I|reflexivity|intros w; apply Z.eqb_refl|].
  split; [exact Hr|]. destruct (Hreg Hr) as [_ H]. exact (H eq_refl).
Defined.

Lemma remove_spec_witness :
  let q := (insert empty_queue 10 7).2 in
  queue_inv (remove q 10 1) /\ bt_get (view (remove q 10 1)) (10, 1) = None.
Proof.
  assert (Hq : queue_inv (insert empty_queue 10 7).2)
    by exact (proj1 (insert_view empty_queue 10 7 empty_queue_inv eq_refl)).
  destruct (remove_spec (insert empty_queue 10 7).2 10 1 Hq) as (Hq' & _ & _ & Hr);
    [split; [lia|reflexivity]|]. split; [exact Hq'|]. apply Hr. left. simpl. unfold PENDING_CAP. lia.
Defined.

(** With 128 registrations pending, taking the last one back is applied before
    the registration it takes back, which stays. *)
Example remove_overtakes :
  let fill := fix fill (n : nat) q := match n with O => q | S n => fill n (insert q 10 (Z.of_nat n)).2 end in
  let q := fill 128%nat empty_queue in
  bt_get (view q) (10, 128) = Some 0 /\ bt_get (view (remove q 10 128)) (10, 128) = Some 0.
Proof. vm_compute. split; reflexivity. Qed.
