(* ===== verification/FatTime.v ===== *)
(** * afat32: DOS dates and times

    mizu/lib/afat32/src/time.rs: the packed 16-bit encodings. *)

From S2P Require Import Prelude.

Module FTime.

Definition MIN_YEAR : Z := 1980.
Definition MAX_YEAR : Z := 2107.
Definition MIN_MONTH : Z := 1.
Definition MAX_MONTH : Z := 12.
Definition MIN_DAY : Z := 1.
Definition MAX_DAY : Z := 31.

Definition between (lo x hi : Z) : bool := (lo <=? x) && (x <=? hi).

Record Date := mk_date { year : Z; month : Z; day : Z }.

Definition Date_new (y m d : Z) : res unit Date :=
  if between MIN_YEAR y MAX_YEAR && between MIN_MONTH m MAX_MONTH && between MIN_DAY d MAX_DAY
  then Ok (mk_date y m d) else Panic.
Definition Date_decode (dos_date : Z) : Date :=
  mk_date (wadd 16 (Z.shiftr dos_date 9) MIN_YEAR) (Z.land (Z.shiftr dos_date 5) 0xF) (Z.land dos_date 0x1F).
Definition Date_encode (d : Date) : Z :=
  Z.lor (Z.lor (wshl 16 (wsub 16 (year d) MIN_YEAR) 9) (wshl 16 (month d) 5)) (day d).

Record Time := mk_time { hour : Z; min : Z; sec : Z; millis : Z }.

Definition Time_new (h m s ms : Z) : res unit Time :=
  if (h <=? 23) && (m <=? 59) && (s <=? 59) && (ms <=? 999) then Ok (mk_time h m s ms) else Panic.
Definition Time_decode (dos_time hi_res : Z) : Time :=
  mk_time (Z.shiftr dos_time 11) (Z.land (Z.shiftr dos_time 5) 0x3F)
    (wadd 16 (wmul 16 (Z.land dos_time 0x1F) 2) (hi_res / 100)) (wmul 16 (hi_res mod 100) 10).
Definition Time_encode (t : Time) : Z * Z :=
  (Z.lor (Z.lor (wshl 16 (hour t) 11) (wshl 16 (min t) 5)) (sec t / 2),
   wrap 8 (wadd 16 (millis t / 10) (wmul 16 (sec t mod 2) 100))).

Record DateTime := mk_datetime { date : Date; time : Time }.
Definition DateTime_decode (dos_date dos_time hi_res : Z) : DateTime :=
  mk_datetime (Date_decode dos_date) (Time_decode dos_time hi_res).

(** [TimeProvider] and the provider used by default. *)
Class TimeProvider (P : Type) := {
  get_current_date : P -> Date;
  get_current_date_time : P -> DateTime;
}.
Inductive NullTimeProvider := null_time_provider.
#[global] Instance NullTimeProvider_impl : TimeProvider NullTimeProvider := {
  get_current_date _ := Date_decode 0;
  get_current_date_time _ := DateTime_decode 0 0 0;
}.

(** ** Packing *)
Lemma shiftl_add (a b k : Z) : 0 <= k -> 0 <= b < 2 ^ k -> Z.lor (a * 2 ^ k) b = a * 2 ^ k + b.
Proof. intros Hk Hb. apply (lor_low _ _ k); [done|apply Z.mod_mul; lia|done]. Qed.

Lemma Date_encode_eq (d : Date) :
  MIN_YEAR <= year d <= MAX_YEAR -> 0 <= month d < 16 -> 0 <= day d < 32 ->
  Date_encode d = (year d - MIN_YEAR) * 2 ^ 9 + month d * 2 ^ 5 + day d.
Proof.
  unfold MIN_YEAR, MAX_YEAR. intros Hy Hm Hd. unfold Date_encode, MIN_YEAR.
  rewrite wsub_small by (unfold fits; lia). rewrite !wshl_small by (unfold fits; lia).
  rewrite (shiftl_add _ (month d * 2 ^ 5) 9) by lia.
  replace ((year d - 1980) * 2 ^ 9 + month d * 2 ^ 5) with (((year d - 1980) * 2 ^ 4 + month d) * 2 ^ 5) by lia.
  rewrite shiftl_add by lia. lia.
Qed.

Lemma Time_encode_eq (t : Time) :
  0 <= hour t < 32 -> 0 <= min t < 64 -> 0 <= sec t < 64 -> 0 <= millis t < 1000 ->
  Time_encode t = (hour t * 2 ^ 11 + min t * 2 ^ 5 + sec t / 2, millis t / 10 + sec t mod 2 * 100).
Proof.
  intros Hh Hm Hs Hms. unfold Time_encode.
  assert (0 <= sec t / 2 < 32) by (Z.div_mod_to_equations; lia).
  assert (0 <= sec t mod 2 <= 1) by (Z.div_mod_to_equations; lia).
  assert (0 <= millis t / 10 < 100) by (Z.div_mod_to_equations; lia).
  f_equal.
  - rewrite !wshl_small by (unfold fits; lia). rewrite (shiftl_add _ (min t * 2 ^ 5) 11) by lia.
    replace (hour t * 2 ^ 11 + min t * 2 ^ 5) with ((hour t * 2 ^ 6 + min t) * 2 ^ 5) by lia.
    rewrite shiftl_add by lia. lia.
  - rewrite wmul_small, wadd_small by (unfold fits; lia). apply wrap_small. unfold fits. lia.
Qed.

Lemma Date_new_Ok y m d dt :
  Date_new y m d = Ok dt -> dt = mk_date y m d /\ MIN_YEAR <= y <= MAX_YEAR /\ MIN_MONTH <= m <= MAX_MONTH /\ MIN_DAY <= d <= MAX_DAY.
Proof.
  unfold Date_new, between. destruct (_ && _ && _) eqn:E; [|done]. intros [= <-].
  rewrite !andb_true_iff, !Z.leb_le in E. split; [done|lia].
Qed.

(** Every date the constructor accepts survives encoding and decoding, and
    decoding and encoding gives back any 16-bit value. *)
Theorem date_roundtrip :
  (forall y m d dt, Date_new y m d = Ok dt -> Date_decode (Date_encode dt) = dt)
  /\ forall x, fits 16 x -> Date_encode (Date_decode x) = x.
Proof.
  split.
  - intros y m d dt (-> & Hy & Hm & Hd)%Date_new_Ok. unfold MIN_YEAR, MAX_YEAR, MIN_MONTH, MAX_MONTH, MIN_DAY, MAX_DAY in *.
    rewrite Date_encode_eq by (unfold MIN_YEAR, MAX_YEAR; simpl; lia). unfold Date_decode, MIN_YEAR. cbn [year month day].
    change 0xF with (2 ^ 4 - 1). change 0x1F with (2 ^ 5 - 1). rewrite !land_mask, !Z.shiftr_div_pow2 by lia.
    assert (E1 : ((y - 1980) * 2 ^ 9 + m * 2 ^ 5 + d) / 2 ^ 9 = y - 1980) by (Z.div_mod_to_equations; lia).
    assert (E2 : ((y - 1980) * 2 ^ 9 + m * 2 ^ 5 + d) / 2 ^ 5 mod 2 ^ 4 = m) by (Z.div_mod_to_equations; lia).
    assert (E3 : ((y - 1980) * 2 ^ 9 + m * 2 ^ 5 + d) mod 2 ^ 5 = d) by (Z.div_mod_to_equations; lia).
    rewrite E1, E2, E3, wadd_small by (unfold fits; lia). f_equal. lia.
  - intros x Hx. unfold fits in Hx.
    unfold Date_decode. change 0xF with (2 ^ 4 - 1). change 0x1F with (2 ^ 5 - 1).
    rewrite !land_mask, !Z.shiftr_div_pow2 by lia.
    assert (0 <= x / 2 ^ 9 < 2 ^ 7) by (Z.div_mod_to_equations; lia).
    rewrite wadd_small by (unfold fits, MIN_YEAR; lia).
    rewrite Date_encode_eq by (unfold MIN_YEAR, MAX_YEAR; cbn [year month day]; Z.div_mod_to_equations; lia).
    cbn [year month day]. Z.div_mod_to_equations. lia.
Qed.

(** A time the constructor accepts survives encoding and decoding up to the
    resolution of ten milliseconds. *)
Theorem time_roundtrip (h m s ms : Z) (t : Time) :
  0 <= h -> 0 <= m -> 0 <= s -> 0 <= ms -> Time_new h m s ms = Ok t ->
  Time_decode (Time_encode t).1 (Time_encode t).2 = mk_time h m s (ms / 10 * 10).
Proof.
  intros Hh Hm Hs Hms. unfold Time_new. destruct (_ && _ && _ && _) eqn:E; [|done]. intros [= <-].
  rewrite !andb_true_iff, !Z.leb_le in E. rewrite Time_encode_eq by (simpl; lia). cbn [fst snd hour min sec millis].
  unfold Time_decode. change 0x3F with (2 ^ 6 - 1). change 0x1F with (2 ^ 5 - 1).
  rewrite !land_mask, !Z.shiftr_div_pow2 by lia.
  set (x := h * 2 ^ 11 + m * 2 ^ 5 + s / 2). set (y := ms / 10 + s mod 2 * 100).
  assert (E1 : x / 2 ^ 11 = h) by (unfold x; Z.div_mod_to_equations; lia).
  assert (E2 : x / 2 ^ 5 mod 2 ^ 6 = m) by (unfold x; Z.div_mod_to_equations; lia).
  assert (E3 : x mod 2 ^ 5 = s / 2) by (unfold x; Z.div_mod_to_equations; lia).
  assert (E4 : y / 100 = s mod 2) by (unfold y; Z.div_mod_to_equations; lia).
  assert (E5 : y mod 100 = ms / 10) by (unfold y; Z.div_mod_to_equations; lia).
  rewrite E1, E2, E3, E4, E5. clear E1 E2 E3 E4 E5 x y. f_equal.
  - rewrite wmul_small, wadd_small by (unfold fits; Z.div_mod_to_equations; lia). Z.div_mod_to_equations. lia.
  - rewrite wmul_small by (unfold fits; Z.div_mod_to_equations; lia). lia.
Qed.

Lemma date_roundtrip_witness : Date_decode 38647 = mk_date 2055 7 23 /\ Date_decode (Date_encode (mk_date 2055 7 23)) = mk_date 2055 7 23.
Proof. split; [reflexivity|]. exact (proj1 date_roundtrip 2055 7 23 (mk_date 2055 7 23) eq_refl). Defined.

Lemma time_roundtrip_witness : Time_decode 30830 199 = mk_time 15 3 29 990.
Proof. apply (time_roundtrip 15 3 29 999 (mk_time 15 3 29 999)); [lia..|reflexivity]. Defined.

(** The default provider gives month 0 and day 0, which the constructor refuses. *)
Example null_date : get_current_date null_time_provider = mk_date 1980 0 0 /\ Date_new 1980 0 0 = Panic.
Proof. split; reflexivity. Qed.
End FTime.
