(* ===== verification/Bytes.v ===== *)
(** * Bytes and byte devices

    Little-endian words, slices of byte lists, and the interface of a byte device
    (mizu/lib/umio's [Io] as far as the file system uses it). *)

From S2P Require Import Prelude Ksc.

(** A byte is a [Z] below 256. *)
Definition byte (b : Z) : Prop := 0 <= b < 256.

(** [to_le_bytes] and [from_le_bytes]. *)
Fixpoint le_bytes (n : nat) (x : Z) : list Z :=
  match n with O => [] | S n => x mod 256 :: le_bytes n (x / 256) end.
Fixpoint of_le (bs : list Z) : Z :=
  match bs with [] => 0 | b :: bs => b + 256 * of_le bs end.

Lemma length_le_bytes n x : length (le_bytes n x) = n.
Proof. revert x. induction n as [|n IH]; intros x; simpl; [done|by rewrite IH]. Qed.

Lemma le_bytes_byte n x : Forall byte (le_bytes n x).
Proof.
  revert x. induction n as [|n IH]; intros x; simpl; [constructor|]. constructor; [|apply IH].
  unfold byte. apply Z.mod_pos_bound. lia.
Qed.

Lemma of_le_bytes n x : of_le (le_bytes n x) = x mod 2 ^ (8 * Z.of_nat n).
Proof.
  revert x. induction n as [|n IH]; intros x.
  - simpl. by rewrite Z.mod_1_r.
  - cbn [le_bytes of_le]. rewrite IH. replace (8 * Z.of_nat (S n)) with (8 + 8 * Z.of_nat n) by lia.
    rewrite Z.pow_add_r by lia. change (2 ^ 8) with 256.
    pose proof (pow2_pos (8 * Z.of_nat n) ltac:(lia)). rewrite Z.rem_mul_r by lia. lia.
Qed.

Lemma of_le_range bs : Forall byte bs -> 0 <= of_le bs < 2 ^ (8 * Z.of_nat (length bs)).
Proof.
  induction 1 as [|b bs Hb _ IH]; [done|]. cbn [of_le length]. unfold byte in Hb.
  replace (8 * Z.of_nat (S (length bs))) with (8 + 8 * Z.of_nat (length bs)) by lia.
  rewrite Z.pow_add_r by lia. change (2 ^ 8) with 256. lia.
Qed.

Lemma le_bytes_of_le bs : Forall byte bs -> le_bytes (length bs) (of_le bs) = bs.
Proof.
  induction 1 as [|b bs Hb _ IH]; [done|]. cbn [of_le length le_bytes]. unfold byte in Hb.
  rewrite (Z.mul_comm 256). rewrite Z.mod_add, Z.mod_small by lia. f_equal.
  rewrite Z.div_add, Z.div_small by lia. by rewrite Z.add_0_l.
Qed.

(** ** Slices *)
Definition slice_at {A} (l : list A) (off n : Z) : list A := take (Z.to_nat n) (drop (Z.to_nat off) l).
Definition splice {A} (l : list A) (off : Z) (new : list A) : list A :=
  take (Z.to_nat off) l ++ new ++ drop (Z.to_nat off + length new) l.

Lemma length_splice {A} (l : list A) off new :
  0 <= off -> off + Z.of_nat (length new) <= Z.of_nat (length l) -> length (splice l off new) = length l.
Proof. intros. unfold splice. rewrite !length_app, length_take, length_drop. lia. Qed.

Lemma length_slice_at {A} (l : list A) off n :
  0 <= off -> 0 <= n -> off + n <= Z.of_nat (length l) -> Z.of_nat (length (slice_at l off n)) = n.
Proof. intros. unfold slice_at. rewrite length_take, length_drop. lia. Qed.

Lemma lookup_splice {A} (l : list A) off new (i : nat) :
  0 <= off -> off + Z.of_nat (length new) <= Z.of_nat (length l) ->
  splice l off new !! i =
  if (off <=? Z.of_nat i) && (Z.of_nat i <? off + Z.of_nat (length new)) then new !! (i - Z.to_nat off)%nat else l !! i.
Proof.
  intros Ho Hl. unfold splice.
  destruct (Z.leb_spec off (Z.of_nat i)); simpl.
  - rewrite lookup_app_r by (rewrite length_take; lia). rewrite length_take, Nat.min_l by lia.
    destruct (Z.ltb_spec (Z.of_nat i) (off + Z.of_nat (length new))).
    + by rewrite lookup_app_l by lia.
    + rewrite lookup_app_r by lia. rewrite lookup_drop. f_equal. lia.
  - rewrite lookup_app_l by (rewrite length_take; lia). apply lookup_take_lt. lia.
Qed.

Lemma lookup_slice_at {A} (l : list A) off n (i : nat) :
  0 <= off -> slice_at l off n !! i = if Z.of_nat i <? n then l !! (Z.to_nat off + i)%nat else None.
Proof.
  intros Ho. unfold slice_at. destruct (Z.ltb_spec (Z.of_nat i) n).
  - rewrite lookup_take_lt by lia. apply lookup_drop.
  - apply lookup_take_ge. lia.
Qed.

(** Reading where one has just written, and elsewhere. *)
Lemma slice_splice_same {A} (l : list A) off new :
  0 <= off -> off + Z.of_nat (length new) <= Z.of_nat (length l) ->
  slice_at (splice l off new) off (Z.of_nat (length new)) = new.
Proof.
  intros Ho Hl. apply list_eq. intros i. rewrite lookup_slice_at by done.
  destruct (Z.ltb_spec (Z.of_nat i) (Z.of_nat (length new))).
  - rewrite lookup_splice by done. rewrite (proj2 (Z.leb_le _ _)), (proj2 (Z.ltb_lt _ _)) by lia. simpl. f_equal. lia.
  - symmetry. apply lookup_ge_None_2. lia.
Qed.

Lemma slice_splice_other {A} (l : list A) off new off' n :
  0 <= off -> off + Z.of_nat (length new) <= Z.of_nat (length l) -> 0 <= off' ->
  off' + n <= off \/ off + Z.of_nat (length new) <= off' ->
  slice_at (splice l off new) off' n = slice_at l off' n.
Proof.
  intros Ho Hl Ho' Hd. apply list_eq. intros i. rewrite !lookup_slice_at by done.
  destruct (Z.ltb_spec (Z.of_nat i) n); [|done]. rewrite lookup_splice by done.
  destruct (Z.leb_spec off (Z.of_nat (Z.to_nat off' + i))); [|done]. simpl.
  rewrite (proj2 (Z.ltb_ge _ _)) by lia. done.
Qed.

Lemma slice_splice_in {A} (l : list A) off new off' n :
  0 <= off -> off + Z.of_nat (length new) <= Z.of_nat (length l) ->
  off <= off' -> 0 <= n -> off' + n <= off + Z.of_nat (length new) ->
  slice_at (splice l off new) off' n = slice_at new (off' - off) n.
Proof.
  intros Ho Hl Hlo Hn Hhi. apply list_eq. intros i. rewrite !lookup_slice_at by lia.
  destruct (Z.ltb_spec (Z.of_nat i) n); [|done]. rewrite lookup_splice by done.
  rewrite (proj2 (Z.leb_le _ _)), (proj2 (Z.ltb_lt _ _)) by lia. simpl. f_equal. lia.
Qed.

Lemma slice_at_all {A} (l : list A) : slice_at l 0 (Z.of_nat (length l)) = l.
Proof. unfold slice_at. rewrite drop_0, Nat2Z.id. by apply take_ge. Qed.

(** ** Devices *)
(** Reads and writes of whole buffers at an offset; the state after a failed
    write is part of the result. *)
Class Io (D : Type) := {
  read_exact_at : D -> Z -> Z -> res Errno.Error (list Z);
  write_all_at : Z -> list Z -> ST D Errno.Error unit;
}.

(** A device that holds a fixed number of bytes and serves every request inside
    them. *)
Class IoSpec (D : Type) `{Io D} := {
  io_bytes : D -> list Z;
  io_byte d : Forall byte (io_bytes d);
  io_read d off n : 0 <= off -> 0 <= n -> off + n <= Z.of_nat (length (io_bytes d)) ->
    read_exact_at d off n = Ok (slice_at (io_bytes d) off n);
  io_write d off bs : 0 <= off -> Forall byte bs -> off + Z.of_nat (length bs) <= Z.of_nat (length (io_bytes d)) ->
    exists d', write_all_at off bs d = (Ok tt, d') /\ io_bytes d' = splice (io_bytes d) off bs;
}.

(** A list of bytes is such a device. *)
Record RamDisk := mk_disk { disk_bytes : list Z; disk_ok : Forall byte disk_bytes }.

Lemma Forall_splice {A} (P : A -> Prop) (l : list A) off new : Forall P l -> Forall P new -> Forall P (splice l off new).
Proof. intros Hl Hn. unfold splice. rewrite !Forall_app. split_and!; [by apply Forall_take|done|by apply Forall_drop]. Qed.

#[export] Instance byte_dec b : Decision (byte b).
Proof. unfold byte. apply _. Defined.

#[export] Instance RamDisk_io : Io RamDisk := {
  read_exact_at d off n :=
    if (0 <=? off) && (off + n <=? Z.of_nat (length (disk_bytes d)))
    then Ok (slice_at (disk_bytes d) off n) else Err Errno.EIO;
  write_all_at off bs d :=
    if (0 <=? off) && (off + Z.of_nat (length bs) <=? Z.of_nat (length (disk_bytes d))) then
      match decide (Forall byte bs) with
      | left Hbs => (Ok tt, mk_disk (splice (disk_bytes d) off bs) (Forall_splice byte _ _ _ (disk_ok d) Hbs))
      | right _ => (Err Errno.EIO, d)
      end
    else (Err Errno.EIO, d);
}.

#[export] Program Instance RamDisk_spec : IoSpec RamDisk := { io_bytes := disk_bytes }.
Next Obligation. intros d. apply disk_ok. Qed.
Next Obligation.
  intros d off n Ho Hn Hl. simpl. by rewrite (proj2 (Z.leb_le _ _)), (proj2 (Z.leb_le _ _)) by lia.
Qed.
Next Obligation.
  intros d off bs Ho Hb Hl. simpl. rewrite (proj2 (Z.leb_le _ _)), (proj2 (Z.leb_le _ _)) by lia. simpl.
  destruct (decide (Forall byte bs)); [|done]. eexists. split; [done|]. done.
Qed.
