(* ===== verification/FatRaw.v ===== *)
(** * afat32: the boot sector and the FSInfo sector

    mizu/lib/afat32/src/raw.rs.  The parser combinators of the nom crate are
    parameters with their documented behaviour; a parser takes the remaining
    input and returns a value with the rest of the input. *)

From S2P Require Import Prelude Ksc Bytes.

(** ** nom's streaming parsers *)
Class Nom := {
  nom_take : nat -> list Z -> res unit (list Z * list Z);
  nom_tag : list Z -> list Z -> res unit (list Z * list Z);
  nom_le : nat -> list Z -> res unit (list Z * Z);
}.

(** [take] splits off so many bytes, [tag] the bytes it expects, [le_u8] and its
    siblings a little-endian number; each fails when it cannot. *)
Class NomSpec `{Nom} := {
  nom_take_spec n i : nom_take n i = if (n <=? length i)%nat then Ok (drop n i, take n i) else Err tt;
  nom_tag_spec t i :
    nom_tag t i = if bool_decide (take (length t) i = t) then Ok (drop (length t) i, t) else Err tt;
  nom_le_spec n i : nom_le n i = if (n <=? length i)%nat then Ok (drop n i, of_le (take n i)) else Err tt;
}.

#[export] Instance nom_list : Nom := {
  nom_take n i := if (n <=? length i)%nat then Ok (drop n i, take n i) else Err tt;
  nom_tag t i := if bool_decide (take (length t) i = t) then Ok (drop (length t) i, t) else Err tt;
  nom_le n i := if (n <=? length i)%nat then Ok (drop n i, of_le (take n i)) else Err tt;
}.
#[export] Instance nom_list_spec : @NomSpec nom_list.
Proof. split; reflexivity. Qed.

Module FRaw.

Definition DIR_ENTRY_SIZE : Z := 32.
Definition RESERVED_FAT_ENTRIES : Z := 2.

(** ** BiosParameterBlock *)
Record BiosParameterBlock := mk_bpb {
  bytes_per_sector : Z; sectors_per_cluster : Z; reserved_sectors : Z; fats : Z; root_entries : Z;
  total_sectors_16 : Z; media : Z; sectors_per_fat_16 : Z; sectors_per_track : Z; heads : Z;
  hidden_sectors : Z; total_sectors_32 : Z;
  sectors_per_fat_32 : Z; extended_flags : Z; fs_version : Z; root_dir_first_cluster : Z;
  fs_info_sector : Z; backup_boot_sector : Z; drive_num : Z; reserved_1 : Z; ext_sig : Z; volume_id : Z;
  volume_label : list Z; fs_type_label : list Z;
}.
Implicit Types (b : BiosParameterBlock).

Definition is_fat32 b : bool := sectors_per_fat_16 b =? 0.

Section Parse.
Context `{Nom}.

(** The fields of the extended block, zero when the volume is not FAT32; the
    twelve reserved bytes are skipped. *)
Definition parse_ext (fat32 : bool) (i : list Z) : res unit (list Z * (Z * Z * Z * Z * Z * Z)) :=
  if fat32 then
    '(i, f0) ← nom_le 4 i; '(i, f1) ← nom_le 2 i; '(i, f2) ← nom_le 2 i; '(i, f3) ← nom_le 4 i;
    '(i, f4) ← nom_le 2 i; '(i, f5) ← nom_le 2 i; '(i, _) ← nom_take 12 i;
    mret (i, (f0, f1, f2, f3, f4, f5))
  else mret (i, (0, 0, 0, 0, 0, 0)).

(** The reserved byte after the drive number is skipped and [reserved_1] stays 0. *)
Definition bpb_parse (i : list Z) : res unit (list Z * BiosParameterBlock) :=
  '(i, bps) ← nom_le 2 i;
  '(i, spc) ← nom_le 1 i;
  '(i, rs) ← nom_le 2 i;
  '(i, nf) ← nom_le 1 i;
  '(i, re) ← nom_le 2 i;
  '(i, ts16) ← nom_le 2 i;
  '(i, md) ← nom_le 1 i;
  '(i, spf16) ← nom_le 2 i;
  '(i, spt) ← nom_le 2 i;
  '(i, hd) ← nom_le 2 i;
  '(i, hs) ← nom_le 4 i;
  '(i, ts32) ← nom_le 4 i;
  '(i, (spf32, ef, fv, rc, fis, bbs)) ← parse_ext (spf16 =? 0) i;
  '(i, dn) ← nom_le 1 i;
  '(i, _) ← nom_take 1 i;
  '(i, es) ← nom_le 1 i;
  '(i, vi) ← nom_le 4 i;
  '(i, vl) ← nom_take 11 i;
  '(i, fl) ← nom_take 8 i;
  let '(vi, vl, fl) := if es =? 0x29 then (0, replicate 11 0, replicate 8 0) else (vi, vl, fl) in
  mret (i, mk_bpb bps spc rs nf re ts16 md spf16 spt hd hs ts32 spf32 ef fv rc fis bbs dn 0 es vi vl fl).

(** *** BootSector *)
Definition BOOT_SIG : list Z := [0x55; 0xaa].
Record BootSector := mk_bs { bootjmp : list Z; oem_name : list Z; bpb : BiosParameterBlock; boot_code : list Z }.

Definition boot_sector_parse (i : list Z) : res unit (list Z * BootSector) :=
  '(i, jmp) ← nom_take 3 i;
  '(i, oem) ← nom_take 8 i;
  '(i, b) ← bpb_parse i;
  '(i, code) ← (if is_fat32 b
                then '(i, bc) ← nom_take 420 i; mret (i, bc ++ replicate 28 0)
                else nom_take 448 i);
  '(i, _) ← nom_tag BOOT_SIG i;
  mret (i, mk_bs jmp oem b code).
End Parse.

(** *** The status flags *)
Record FsStatusFlags := mk_flags { flag_dirty : bool; flag_io_error : bool }.
Definition flags_encode (f : FsStatusFlags) : Z :=
  let r := 0 in
  let r := if flag_dirty f then Z.lor r 1 else r in
  if flag_io_error f then Z.lor r 2 else r.
Definition flags_decode (flags : Z) : FsStatusFlags :=
  mk_flags (negb (Z.land flags 1 =? 0)) (negb (Z.land flags 2 =? 0)).
Definition status_flags b : FsStatusFlags := flags_decode (reserved_1 b).

(** *** Geometry, in wrapping 32-bit arithmetic; division by zero panics *)
Definition div32 (x y : Z) : res unit Z := if y =? 0 then Panic else Ok (x / y).

Definition mirroring_enabled b : bool := Z.land (extended_flags b) 0x80 =? 0.
Definition active_fat b : Z := if mirroring_enabled b then 0 else Z.land (extended_flags b) 0x0F.
Definition sectors_per_fat b : Z := if is_fat32 b then sectors_per_fat_32 b else sectors_per_fat_16 b.
Definition total_sectors b : Z := if total_sectors_16 b =? 0 then total_sectors_32 b else total_sectors_16 b.
Definition root_dir_sectors b : res unit Z :=
  let root_dir_bytes := wmul 32 (root_entries b) DIR_ENTRY_SIZE in
  div32 (wsub 32 (wadd 32 root_dir_bytes (bytes_per_sector b)) 1) (bytes_per_sector b).
Definition sectors_per_all_fats b : Z := wmul 32 (fats b) (sectors_per_fat b).
Definition first_data_sector b : res unit Z :=
  rds ← root_dir_sectors b;
  mret (wadd 32 (wadd 32 (reserved_sectors b) (sectors_per_all_fats b)) rds).
Definition total_clusters b : res unit Z :=
  fds ← first_data_sector b;
  div32 (wsub 32 (total_sectors b) fds) (sectors_per_cluster b).
Definition bytes_from_sectors b (sectors : Z) : Z := wmul 64 sectors (bytes_per_sector b).
Definition sectors_from_clusters b (clusters : Z) : Z := wmul 32 clusters (sectors_per_cluster b).
Definition cluster_size b : Z := wmul 32 (sectors_per_cluster b) (bytes_per_sector b).

(** fs.rs: where a cluster is on the device. *)
Definition sector_from_cluster b (cluster : Z) : res unit Z :=
  fds ← first_data_sector b;
  mret (wadd 32 fds (sectors_from_clusters b (wsub 32 cluster RESERVED_FAT_ENTRIES))).
Definition offset_from_cluster b (cluster : Z) : res unit Z :=
  s ← sector_from_cluster b cluster; mret (bytes_from_sectors b s).

(** ** FsInfoSector *)
Record FsInfoSector := mk_fis { free_cluster_count : option Z; next_free_cluster : option Z; dirty : bool }.
Implicit Types (f : FsInfoSector).
Definition LEAD_SIG : Z := 0x41615252.
Definition STRUC_SIG : Z := 0x61417272.
Definition TRAIL_SIG : Z := 0xAA550000.
Definition U32_MAX : Z := 2 ^ 32 - 1.

Definition fis_parse `{Nom} (i : list Z) : res unit (list Z * FsInfoSector) :=
  '(i, _) ← nom_tag (le_bytes 4 LEAD_SIG) i;
  '(i, _) ← nom_take 480 i;
  '(i, _) ← nom_tag (le_bytes 4 STRUC_SIG) i;
  '(i, fcc) ← nom_le 4 i;
  let fcc := if negb (fcc =? U32_MAX) then Some fcc else None in
  '(i, nfc) ← nom_le 4 i;
  let nfc := if negb ((nfc =? U32_MAX) || (nfc =? 0) || (nfc =? 1)) then Some nfc else None in
  '(i, _) ← nom_take 12 i;
  '(i, _) ← nom_tag (le_bytes 4 TRAIL_SIG) i;
  mret (i, mk_fis fcc nfc false).

Definition to_bytes f : list Z * list Z :=
  (le_bytes 4 LEAD_SIG,
   le_bytes 4 STRUC_SIG ++ le_bytes 4 (default U32_MAX (free_cluster_count f))
   ++ le_bytes 4 (default U32_MAX (next_free_cluster f)) ++ replicate 12 0 ++ le_bytes 4 TRAIL_SIG).

Definition fix_ f (total : Z) : FsInfoSector :=
  let max_valid := wadd 32 total RESERVED_FAT_ENTRIES in
  let fcc := match free_cluster_count f with Some n => if total <? n then None else Some n | None => None end in
  let nfc := match next_free_cluster f with Some n => if max_valid <? n then None else Some n | None => None end in
  mk_fis fcc nfc (dirty f).
Definition map_free_clusters f (map_fn : Z -> Z) : FsInfoSector :=
  match free_cluster_count f with
  | Some n => mk_fis (Some (map_fn n)) (next_free_cluster f) true
  | None => f
  end.
Definition set_next_free_cluster f (cluster : Z) : FsInfoSector := mk_fis (free_cluster_count f) (Some cluster) true.
Definition set_free_cluster_count f (n : Z) : FsInfoSector := mk_fis (Some n) (next_free_cluster f) true.

End FRaw.

(** * afat32: correctness of the boot and FSInfo sectors *)
Import FRaw.

Section Parsers.
Context `{NomSpec}.

(** ** The parsers on concatenated input *)
Lemma nom_take_app n x i : length x = n -> nom_take n (x ++ i) = Ok (i, x).
Proof.
  intros Hx. rewrite nom_take_spec, length_app, (proj2 (Nat.leb_le _ _)) by lia.
  rewrite drop_app_length', take_app_length' by done. done.
Qed.

Lemma nom_tag_app t i : nom_tag t (t ++ i) = Ok (i, t).
Proof.
  rewrite nom_tag_spec. rewrite take_app_length, bool_decide_true by done. by rewrite drop_app_length.
Qed.

Lemma nom_le_app n v i : fits (8 * Z.of_nat n) v -> nom_le n (le_bytes n v ++ i) = Ok (i, v).
Proof.
  intros Hv. rewrite nom_le_spec, length_app, length_le_bytes, (proj2 (Nat.leb_le _ _)) by lia.
  rewrite drop_app_length', take_app_length' by by rewrite length_le_bytes.
  rewrite of_le_bytes. unfold fits in Hv. by rewrite Z.mod_small.
Qed.

(** Run a parser over the pieces of its input. *)
Ltac parse :=
  repeat (first [ rewrite nom_le_app by (simpl; assumption)
                | rewrite nom_take_app by (simpl; assumption || reflexivity)
                | rewrite nom_tag_app ];
          unfold mbind at 1, res_bind at 1; cbv beta iota).

(** ** FSInfo *)
Definition fis_ok (f : FsInfoSector) : Prop :=
  match free_cluster_count f with Some n => 0 <= n < U32_MAX | None => True end
  /\ match next_free_cluster f with Some n => 2 <= n < U32_MAX | None => True end.

Lemma default_fits (o : option Z) : match o with Some n => 0 <= n < U32_MAX | None => True end -> fits 32 (default U32_MAX o).
Proof. unfold U32_MAX, fits. destruct o; simpl; lia. Qed.

(** An FSInfo sector is read back as it was written: the signatures match and
    the two counters are recovered. *)
Theorem fis_roundtrip (f : FsInfoSector) (pad rest : list Z) :
  fis_ok f -> length pad = 480%nat ->
  fis_parse ((to_bytes f).1 ++ pad ++ (to_bytes f).2 ++ rest)
  = Ok (rest, mk_fis (free_cluster_count f) (next_free_cluster f) false).
Proof.
  intros [Hc Hn] Hpad. assert (Hc' := default_fits _ Hc).
  assert (Hn' : fits 32 (default U32_MAX (next_free_cluster f))).
  { apply default_fits. destruct (next_free_cluster f); [lia|done]. }
  unfold to_bytes, fis_parse. cbn [fst snd]. rewrite <- !app_assoc. parse.
  unfold mret, res_ret. do 3 f_equal.
  - unfold U32_MAX in *. destruct (free_cluster_count f) as [n|]; simpl; [|done].
    by rewrite (proj2 (Z.eqb_neq _ _)) by lia.
  - unfold U32_MAX in *. destruct (next_free_cluster f) as [n|]; simpl; [|done].
    by rewrite !(proj2 (Z.eqb_neq _ _)) by lia.
Qed.

(** ** The boot sector *)
(** The FAT32 layout of the parameter block. *)
Definition bpb_layout (b : BiosParameterBlock) (res0 res1 : list Z) : list Z :=
  le_bytes 2 (bytes_per_sector b) ++ le_bytes 1 (sectors_per_cluster b) ++ le_bytes 2 (reserved_sectors b)
  ++ le_bytes 1 (fats b) ++ le_bytes 2 (root_entries b) ++ le_bytes 2 (total_sectors_16 b)
  ++ le_bytes 1 (media b) ++ le_bytes 2 (sectors_per_fat_16 b) ++ le_bytes 2 (sectors_per_track b)
  ++ le_bytes 2 (heads b) ++ le_bytes 4 (hidden_sectors b) ++ le_bytes 4 (total_sectors_32 b)
  ++ le_bytes 4 (sectors_per_fat_32 b) ++ le_bytes 2 (extended_flags b) ++ le_bytes 2 (fs_version b)
  ++ le_bytes 4 (root_dir_first_cluster b) ++ le_bytes 2 (fs_info_sector b) ++ le_bytes 2 (backup_boot_sector b)
  ++ res0 ++ le_bytes 1 (drive_num b) ++ res1 ++ le_bytes 1 (ext_sig b) ++ le_bytes 4 (volume_id b)
  ++ volume_label b ++ fs_type_label b.

(** The fields are words of their widths. *)
Record bpb_words (b : BiosParameterBlock) : Prop := {
  w_bps : fits 16 (bytes_per_sector b); w_spc : fits 8 (sectors_per_cluster b);
  w_rs : fits 16 (reserved_sectors b); w_fats : fits 8 (fats b); w_re : fits 16 (root_entries b);
  w_ts16 : fits 16 (total_sectors_16 b); w_media : fits 8 (media b); w_spf16 : fits 16 (sectors_per_fat_16 b);
  w_spt : fits 16 (sectors_per_track b); w_heads : fits 16 (heads b); w_hs : fits 32 (hidden_sectors b);
  w_ts32 : fits 32 (total_sectors_32 b); w_spf32 : fits 32 (sectors_per_fat_32 b);
  w_ef : fits 16 (extended_flags b); w_fv : fits 16 (fs_version b); w_rc : fits 32 (root_dir_first_cluster b);
  w_fis : fits 16 (fs_info_sector b); w_bbs : fits 16 (backup_boot_sector b); w_dn : fits 8 (drive_num b);
  w_es : fits 8 (ext_sig b); w_vi : fits 32 (volume_id b);
  w_vl : length (volume_label b) = 11%nat; w_fl : length (fs_type_label b) = 8%nat;
}.

(** What the parser keeps of a block: the reserved byte is dropped, and a block
    with the extended signature loses its volume identifier and labels. *)
Definition bpb_kept (b : BiosParameterBlock) : BiosParameterBlock :=
  let sg := ext_sig b =? 0x29 in
  mk_bpb (bytes_per_sector b) (sectors_per_cluster b) (reserved_sectors b) (fats b) (root_entries b)
    (total_sectors_16 b) (media b) (sectors_per_fat_16 b) (sectors_per_track b) (heads b) (hidden_sectors b)
    (total_sectors_32 b) (sectors_per_fat_32 b) (extended_flags b) (fs_version b) (root_dir_first_cluster b)
    (fs_info_sector b) (backup_boot_sector b) (drive_num b) 0 (ext_sig b) (if sg then 0 else volume_id b)
    (if sg then replicate 11 0 else volume_label b) (if sg then replicate 8 0 else fs_type_label b).

Lemma bpb_parse_layout b res0 res1 i :
  bpb_words b -> is_fat32 b = true -> length res0 = 12%nat -> length res1 = 1%nat ->
  bpb_parse (bpb_layout b res0 res1 ++ i) = Ok (i, bpb_kept b).
Proof.
  intros [] Hf H0' H1'. unfold bpb_layout, bpb_parse, bpb_kept, is_fat32 in *. rewrite <- !app_assoc. parse.
  rewrite Hf. unfold parse_ext. parse. unfold mret at 1, res_ret at 1. unfold mbind at 1, res_bind at 1. cbv beta iota.
  parse. by destruct (ext_sig b =? 41).
Qed.

(** A FAT32 boot sector is parsed field by field at the documented places;
    of the block the geometry is kept as it is on disk. *)
Theorem boot_sector_layout b jmp oem res0 res1 code i :
  bpb_words b -> is_fat32 b = true -> length jmp = 3%nat -> length oem = 8%nat ->
  length res0 = 12%nat -> length res1 = 1%nat -> length code = 420%nat ->
  boot_sector_parse (jmp ++ oem ++ bpb_layout b res0 res1 ++ code ++ BOOT_SIG ++ i)
  = Ok (i, mk_bs jmp oem (bpb_kept b) (code ++ replicate 28 0)).
Proof.
  intros Hb Hf Hj Ho H0' H1' Hc. unfold boot_sector_parse. parse.
  rewrite bpb_parse_layout by done. unfold mbind at 1, res_bind at 1. cbv beta iota.
  change (is_fat32 (bpb_kept b)) with (is_fat32 b). rewrite Hf. parse.
  unfold mret at 1, res_ret at 1. unfold mbind at 1, res_bind at 1. cbv beta iota. parse. done.
Qed.
End Parsers.

(** ** Geometry *)
(** A block whose areas fit on the volume. *)
Record geometry_ok (b : BiosParameterBlock) : Prop := {
  g_words : bpb_words b;
  g_bps : 0 < bytes_per_sector b;
  g_spc : 0 < sectors_per_cluster b;
  g_root : root_entries b * 32 + bytes_per_sector b <= 2 ^ 32;
  g_data : reserved_sectors b + fats b * sectors_per_fat b
           + (root_entries b * 32 + bytes_per_sector b - 1) / bytes_per_sector b <= total_sectors b;
}.

Definition data_start (b : BiosParameterBlock) : Z :=
  reserved_sectors b + fats b * sectors_per_fat b
  + (root_entries b * 32 + bytes_per_sector b - 1) / bytes_per_sector b.

Lemma total_sectors_fits b : bpb_words b -> fits 32 (total_sectors b).
Proof.
  intros []. unfold total_sectors. destruct (_ =? 0); [done|]. unfold fits in *. lia.
Qed.

Lemma first_data_sector_eq b : geometry_ok b -> first_data_sector b = Ok (data_start b) /\ 0 <= data_start b <= total_sectors b.
Proof.
  intros [Hw Hbps Hspc Hroot Hdata]. pose proof (total_sectors_fits b Hw) as Ht. destruct Hw.
  unfold fits in *. unfold first_data_sector, root_dir_sectors, sectors_per_all_fats, DIR_ENTRY_SIZE, div32, data_start in *.
  set (r := (root_entries b * 32 + bytes_per_sector b - 1) / bytes_per_sector b) in *.
  assert (0 <= r) by (apply Z.div_pos; lia).
  assert (0 <= sectors_per_fat b) by (unfold sectors_per_fat; destruct (is_fat32 b); lia).
  assert (0 <= fats b * sectors_per_fat b) by nia.
  rewrite (wmul_small 32 (root_entries b)) by (unfold fits; lia).
  assert (E : wsub 32 (wadd 32 (root_entries b * 32) (bytes_per_sector b)) 1 = root_entries b * 32 + bytes_per_sector b - 1).
  { unfold wsub, wadd, wrap. rewrite <- (Zminus_mod_idemp_l _ 1), Zmod_mod, Zminus_mod_idemp_l. apply Z.mod_small. lia. }
  rewrite E, (proj2 (Z.eqb_neq (bytes_per_sector b) 0)) by lia. fold r.
  unfold mbind, res_bind, mret, res_ret. rewrite (wmul_small 32 (fats b)) by (unfold fits; lia).
  rewrite (wadd_small 32 (reserved_sectors b)) by (unfold fits; lia).
  rewrite wadd_small by (unfold fits; lia). split; [done|lia].
Qed.

(** The number of data clusters and the offset of each. *)
Definition cluster_total (b : BiosParameterBlock) : Z := (total_sectors b - data_start b) / sectors_per_cluster b.
Definition cluster_off (b : BiosParameterBlock) (c : Z) : Z :=
  (data_start b + (c - 2) * sectors_per_cluster b) * bytes_per_sector b.

Lemma total_clusters_eq b :
  geometry_ok b -> total_clusters b = Ok (cluster_total b) /\ 0 <= cluster_total b
    /\ data_start b + cluster_total b * sectors_per_cluster b <= total_sectors b.
Proof.
  intros Hg. destruct (first_data_sector_eq b Hg) as [Hf Hd].
  pose proof Hg as [Hw Hbps Hspc _ _]. pose proof (total_sectors_fits b Hw) as Ht. unfold fits in Ht.
  unfold total_clusters, div32, cluster_total. rewrite Hf. unfold mbind, res_bind.
  rewrite (proj2 (Z.eqb_neq (sectors_per_cluster b) 0)) by lia. rewrite wsub_small by (unfold fits; lia).
  split; [done|]. split; [apply Z.div_pos; lia|].
  pose proof (Z.mul_div_le (total_sectors b - data_start b) (sectors_per_cluster b) Hspc). lia.
Qed.

Lemma cluster_off_eq b c :
  geometry_ok b -> 2 <= c < cluster_total b + 2 ->
  offset_from_cluster b c = Ok (cluster_off b c) /\ cluster_size b = sectors_per_cluster b * bytes_per_sector b
  /\ 0 <= cluster_off b c /\ cluster_off b c + cluster_size b <= total_sectors b * bytes_per_sector b.
Proof.
  intros Hg Hc. destruct (first_data_sector_eq b Hg) as [Hf Hd]. destruct (total_clusters_eq b Hg) as (_ & Hn0 & Hn).
  pose proof Hg as [Hw Hbps Hspc _ _]. pose proof (total_sectors_fits b Hw) as Ht. destruct Hw.
  unfold fits in Ht, w_bps0, w_spc0. unfold offset_from_cluster, sector_from_cluster, cluster_off. rewrite Hf.
  unfold mbind, res_bind, mret, res_ret.
  assert (Hcl : (c - 2) * sectors_per_cluster b + sectors_per_cluster b <= total_sectors b - data_start b) by nia.
  assert (0 <= (c - 2) * sectors_per_cluster b) by nia.
  assert (cluster_total b <= total_sectors b) by nia.
  unfold cluster_size, bytes_from_sectors, sectors_from_clusters, RESERVED_FAT_ENTRIES.
  rewrite (wsub_small 32 c) by (unfold fits; lia). rewrite (wmul_small 32 (c - 2)) by (unfold fits; lia).
  rewrite wadd_small by (unfold fits; lia). rewrite wmul_small by (unfold fits; nia).
  rewrite (wmul_small 32 (sectors_per_cluster b)) by (unfold fits; nia). split_and!; [done|done|nia|nia].
Qed.

(** On a volume whose areas fit, the cluster count is computed without
    overflow, every data cluster lies inside the volume, and consecutive clusters
    are exactly one cluster size apart, so that no two overlap. *)
Theorem cluster_geometry b :
  geometry_ok b ->
  exists n, total_clusters b = Ok n /\ 0 <= n
    /\ forall c, 2 <= c < n + 2 ->
         exists off, offset_from_cluster b c = Ok off
           /\ off = (data_start b + (c - 2) * sectors_per_cluster b) * bytes_per_sector b
           /\ cluster_size b = sectors_per_cluster b * bytes_per_sector b
           /\ off + cluster_size b <= total_sectors b * bytes_per_sector b.
Proof.
  intros Hg. destruct (total_clusters_eq b Hg) as (E & Hn & _). exists (cluster_total b). split; [done|]. split; [done|].
  intros c Hc. destruct (cluster_off_eq b c Hg Hc) as (Eo & Es & _ & Hl). by exists (cluster_off b c).
Qed.

(** ** Witnesses *)
(** A 64 MiB volume: 512-byte sectors, one sector per cluster, two tables. *)
Definition sample_bpb : BiosParameterBlock :=
  mk_bpb 512 1 32 2 0 0 0xF8 0 32 64 0 131072 1009 0 0 2 1 6 128 0 0x29 1 (replicate 11 32) (replicate 8 32).

Lemma sample_words : bpb_words sample_bpb.
Proof. split; try (unfold fits; simpl; lia); reflexivity. Qed.

Lemma sample_geometry : geometry_ok sample_bpb.
Proof. split; [apply sample_words|reflexivity|reflexivity|vm_compute; discriminate|vm_compute; discriminate]. Qed.

Lemma fis_roundtrip_witness :
  fis_parse ((to_bytes (mk_fis (Some 7) None true)).1 ++ replicate 480 0 ++ (to_bytes (mk_fis (Some 7) None true)).2 ++ [])
  = Ok ([], mk_fis (Some 7) None false).
Proof. apply (fis_roundtrip (mk_fis (Some 7) None true)); [split; simpl; unfold U32_MAX; lia|reflexivity]. Defined.

Lemma boot_sector_layout_witness :
  boot_sector_parse (replicate 3 0 ++ replicate 8 0 ++ bpb_layout sample_bpb (replicate 12 0) [1]
    ++ replicate 420 0 ++ BOOT_SIG ++ [])
  = Ok ([], mk_bs (replicate 3 0) (replicate 8 0) (bpb_kept sample_bpb) (replicate 420 0 ++ replicate 28 0)).
Proof. apply boot_sector_layout; [apply sample_words|reflexivity..]. Defined.

Lemma cluster_geometry_witness : exists n, total_clusters sample_bpb = Ok n /\ 0 <= n.
Proof.
  destruct (cluster_geometry sample_bpb sample_geometry) as (n & E & Hn & _). exists n. split; [exact E|exact Hn].
Defined.

(** The labels of a volume with the extended signature are dropped. *)
Example labels_dropped : volume_label (bpb_kept sample_bpb) = replicate 11 0 /\ volume_id (bpb_kept sample_bpb) = 0.
Proof. split; reflexivity. Qed.
