(* ===== verification/FatTable.v ===== *)
(** * afat32: the file allocation table

    mizu/lib/afat32/src/table.rs.  The device is any byte device; the operations
    run on its state.  The two locks of [Fat] make [set], [set_range] and
    [allocate] atomic with respect to themselves. *)

From S2P Require Import Prelude Ksc Bytes FatRaw.

Import Errno.

Module FT.

Inductive FatEntry :=
| Free
| Next (n : Z)
| Bad
| End_.

#[export] Instance FatEntry_eq_dec : EqDecision FatEntry.
Proof. solve_decision. Defined.

(** The cluster numbers that mean bad cluster and end of chain. *)
Definition special (cluster : Z) : bool := (0x0FFFFFF7 <=? cluster) && (cluster <=? 0x0FFFFFFF).

Definition from_raw (raw cluster : Z) : FatEntry :=
  let n := Z.land raw 0x0fffffff in
  if n =? 0 then if special cluster then Bad else Free
  else if n =? 0x0FFFFFF7 then Bad
  else if (0x0FFFFFF8 <=? n) && (n <=? 0x0FFFFFFF) then End_
  else if special cluster then Bad
  else Next n.

Definition into_raw (e : FatEntry) (cluster old_raw : Z) : res Error Z :=
  if bool_decide (e = Free) && special cluster then Panic
  else
    let raw := match e with Free => 0 | Bad => 0x0FFFFFF7 | End_ => 0x0FFFFFFF | Next n => n end in
    Ok (Z.lor old_raw raw).

Record Fat := mk_fat { start_offset : Z; cluster_count : Z; mirrors : Z }.
Implicit Types (f : Fat).

Definition ENTRY_SIZE : Z := 4.

Definition Fat_new (b : FRaw.BiosParameterBlock) : res unit Fat :=
  let sectors_per_fat := FRaw.sectors_per_fat b in
  let '(first, mirrors) :=
    if FRaw.mirroring_enabled b then (FRaw.reserved_sectors b, FRaw.fats b)
    else (wadd 32 (FRaw.reserved_sectors b) (wmul 32 (FRaw.active_fat b) sectors_per_fat), 1) in
  count ← FRaw.total_clusters b;
  mret (mk_fat (FRaw.bytes_from_sectors b first) count mirrors).

Definition size f : Z := wmul 64 (cluster_count f) ENTRY_SIZE.
Definition allocable_start : Z := FRaw.RESERVED_FAT_ENTRIES.
Definition allocable_end f : Z := wadd 32 (cluster_count f) FRaw.RESERVED_FAT_ENTRIES.
Definition offset f (mirror cluster : Z) : Z :=
  wadd 64 (wadd 64 (start_offset f) (wmul 64 (size f) mirror)) (wmul 64 cluster ENTRY_SIZE).

(** The words of a byte buffer. *)
Fixpoint words (n : nat) (bs : list Z) : list Z :=
  match n with O => [] | S n => of_le (take 4 bs) :: words n (drop 4 bs) end.

Section Ops.
Context {D : Type} `{Io D}.
Notation M := (ST D Error).

Definition read_bytes (off n : Z) : M (list Z) := fun d => (read_exact_at d off n, d).

Definition get_raw f (cluster : Z) : M Z :=
  if allocable_end f <=? cluster then throw EINVAL
  else bs ← read_bytes (offset f 0 cluster) 4; mret (of_le bs).

(** The raw entries from [start] that fit in a buffer of [len] entries. *)
Definition get_range_raw f (start len : Z) : M (list Z) :=
  if 2 ^ 32 <=? len then throw EINVAL
  else
    let end_ := Z.min (wadd 32 start len) (allocable_end f) in
    if end_ <? start then throw EINVAL
    else if start =? end_ then mret []
    else
      let read_len := end_ - start in
      bs ← read_bytes (offset f 0 start) (4 * read_len);
      mret (words (Z.to_nat read_len) bs).

Definition number_from {A} (start : Z) (l : list A) : list (Z * A) :=
  imap (fun i x => (start + Z.of_nat i, x)) l.

Definition get_range f (start len : Z) : M (list (Z * FatEntry)) :=
  raws ← get_range_raw f start len;
  mret ((fun '(cluster, raw) => (cluster, from_raw raw cluster)) <$> number_from start raws).

(** Write the same bytes to every mirror. *)
Fixpoint write_mirrors f (ms : list Z) (cluster : Z) (bs : list Z) : M unit :=
  match ms with
  | [] => mret tt
  | m :: ms => _ ← write_all_at (offset f m cluster) bs; write_mirrors f ms cluster bs
  end.
Definition mirror_list f : list Z := Z.of_nat <$> seq 0 (Z.to_nat (mirrors f)).

(** The entries replace the raw words one by one, as far as both last; the upper
    four bits of each word are kept. *)
Fixpoint replace_raws (raws : list Z) (cluster : Z) (es : list FatEntry) : res Error (list Z) :=
  match raws, es with
  | raw :: raws, e :: es =>
      r ← into_raw e cluster (Z.land raw 0xf0000000);
      rest ← replace_raws raws (cluster + 1) es;
      mret (r :: rest)
  | raws, _ => mret raws
  end.

Definition set_range f (start len : Z) (es : list FatEntry) : M unit :=
  raws ← get_range_raw f start len;
  raws ← lift_res (replace_raws raws start es);
  write_mirrors f (mirror_list f) start (mjoin (le_bytes 4 <$> raws)).

Definition get f (cluster : Z) : M FatEntry :=
  raw ← get_raw f cluster; mret (from_raw raw cluster).

Definition set f (cluster : Z) (e : FatEntry) : M unit :=
  old ← get_raw f cluster;
  raw ← lift_res (into_raw e cluster (Z.land old 0xf0000000));
  write_mirrors f (mirror_list f) cluster (le_bytes 4 raw).

(** *** Searching *)
Inductive Bound := Included (b : Z) | Excluded (b : Z) | Unbounded.

Definition find_start f (b : Bound) : Z :=
  match b with
  | Included b => Z.max b allocable_start
  | Excluded b => Z.max (wadd 32 b 1) allocable_start
  | Unbounded => allocable_end f
  end.
Definition find_end f (b : Bound) : Z :=
  match b with
  | Included b => Z.min (wadd 32 b 1) (allocable_end f)
  | Excluded b => Z.min b (allocable_end f)
  | Unbounded => allocable_end f
  end.

(** The entries of one batch: [inl] returns the run found, [inr] goes on with the
    count and the start of the run. *)
Fixpoint scan (num : Z) (l : list (Z * FatEntry)) (count : Z) (ret : option Z) : res Error (Z * Z + Z * option Z) :=
  match l with
  | [] => Ok (inr (count, ret))
  | (cluster, entry) :: l =>
      if bool_decide (entry = Free) then
        if num <=? count then r ← unwrap ret; Ok (inl (r, count))
        else scan num l (count + 1) (if count =? 0 then Some cluster else ret)
      else match ret with
           | Some r => Ok (inl (r, count))
           | None => scan num l count ret
           end
  end.

Fixpoint find_loop (fuel : nat) f (num len start end_ : Z) : M (Z * Z) :=
  match fuel with
  | O => throw ENOSPC
  | S fuel =>
      if end_ <=? start then throw ENOSPC
      else
        l ← get_range f start (Z.min len (end_ - start));
        r ← lift_res (scan num l 0 None);
        match r with
        | inl found => mret found
        | inr (count, Some r) => mret (r, count)
        | inr (_, None) => find_loop fuel f num len (start + len) end_
        end
  end.

(** The start of a run of free clusters and its length, at most [num]; the buffer
    has [len] entries, and stepping by zero panics. *)
Definition find_free f (lo hi : Bound) (num len : Z) : M (Z * Z) :=
  let start := find_start f lo in
  let end_ := find_end f hi in
  if len =? 0 then panic
  else find_loop (Z.to_nat (end_ - start)) f num len start end_.

Fixpoint count_loop (n : nat) f (cluster count : Z) : M Z :=
  match n with
  | O => mret count
  | S n => fun d =>
      match get f cluster d with
      | (Ok e, d) => count_loop n f (cluster + 1) (if bool_decide (e = Free) then count + 1 else count) d
      | (_, d) => (Panic, d)
      end
  end.
Definition count_free f : M Z :=
  count_loop (Z.to_nat (allocable_end f - allocable_start)) f allocable_start 0.

(** *** Allocating: the first cluster and the number of clusters allocated *)
Definition ALLOCATE_BATCH_LEN : Z := 1024.
Definition BATCH_LEN : Z := 64.

(** The search from the hint on and, when it finds nothing, the one before it. *)
Definition find_or_wrap f (hint num len : Z) : M (Z * Z) := fun d =>
  match find_free f (Included hint) Unbounded num len d with
  | (Err e, d') => if bool_decide (e = ENOSPC) then find_free f Unbounded (Excluded hint) num len d' else (Err e, d')
  | r => r
  end.

Definition allocate f (prev hint : option Z) (num : Z) : M (Z * Z) :=
  let hint := default allocable_start hint in
  let len := Z.min ALLOCATE_BATCH_LEN num in
  '(ret, num) ← find_or_wrap f hint num len;
  _ ← (match prev with Some prev => set f prev (Next ret) | None => mret tt end);
  _ ← (if 1 <? num
       then if len <? num - 1 then panic else set_range f ret (num - 1) ((fun i => Next (ret + 1 + Z.of_nat i)) <$> seq 0 (Z.to_nat (num - 1)))
       else mret tt);
  _ ← set f (wsub 32 (wadd 32 ret num) 1) End_;
  mret (ret, num).

(** *** Chains *)
Definition iter_next f (cluster : Z) : M (option Z) :=
  e ← get f cluster; mret (match e with Next n => Some n | _ => None end).

(** The successors found in one batch: the entries follow each other on disk as
    long as each is the successor of the one before. *)
Fixpoint ranged_next (last : FatEntry) (l : list (Z * FatEntry)) : list Z :=
  match l with
  | [] => []
  | (cluster, entry) :: l =>
      if match last with Next n => n =? cluster | _ => true end
      then match entry with Next next => next :: ranged_next entry l | _ => [] end
      else []
  end.
Definition iter_ranged_next f (start len : Z) : M (list Z) :=
  l ← get_range f start len; mret (ranged_next (Next start) l).

(** [None] when the fuel runs out: the chain is longer than the fuel. *)
Fixpoint all_clusters_loop (fuel : nat) f (start : Z) (acc : list Z) : M (option (list Z)) :=
  match fuel with
  | O => mret None
  | S fuel =>
      l ← iter_ranged_next f start BATCH_LEN;
      match last l with
      | None => mret (Some acc)
      | Some start => all_clusters_loop fuel f start (acc ++ l)
      end
  end.

(** The reverse pass: each cluster with the last cluster of its contiguous run. *)
Fixpoint run_ends (l : list Z) : list (Z * Z) :=
  match l with
  | [] => []
  | c :: l =>
      match run_ends l with
      | (next, end_) :: r => (c, if wadd 32 c 1 =? next then end_ else c) :: (next, end_) :: r
      | [] => [(c, c)]
      end
  end.
Definition all_clusters (fuel : nat) f (start : Z) : M (option (list (Z * Z))) :=
  l ← all_clusters_loop fuel f start [start]; mret (run_ends <$> l).

(** [free]: the successor is read before the cluster is freed; a read error is
    reported after the cluster was freed. *)
Fixpoint free_loop (fuel : nat) f (cluster acc : Z) : M (option Z) :=
  match fuel with
  | O => mret None
  | S fuel => fun d =>
      let '(next, d) := iter_next f cluster d in
      (_ ← set f cluster Free;
       match next with
       | Ok (Some n) => free_loop fuel f n (wadd 32 acc 1)
       | Ok None => mret (Some (wadd 32 acc 1))
       | Err e => throw e
       | Panic => panic
       end) d
  end.
Definition free (fuel : nat) f (chain_start : Z) : M (option Z) := free_loop fuel f chain_start 0.

Definition truncate (fuel : nat) f (chain_start : Z) : M (option Z) :=
  _ ← set f chain_start End_;
  n ← iter_next f chain_start;
  match n with Some next => free fuel f next | None => mret (Some 0) end.
End Ops.
End FT.

(** * afat32: correctness of the file allocation table

    [ent] is the entry of a cluster as the first table on the device has it.  The
    theorems say how reads, writes, allocation, freeing and truncation act on it,
    on a device that serves the requests inside it. *)
Import Errno FT.

(** ** Entries *)
Definition entry_ok (e : FatEntry) : Prop :=
  match e with Next n => 0 < n < 0x0FFFFFF7 | _ => True end.

Definition raw_of (e : FatEntry) : Z :=
  match e with Free => 0 | Bad => 0x0FFFFFF7 | End_ => 0x0FFFFFFF | Next n => n end.

Lemma raw_of_fits e : entry_ok e -> fits 28 (raw_of e).
Proof. unfold fits. destruct e; simpl; lia. Qed.

Lemma into_raw_eq e c old : special c = false -> into_raw e c old = Ok (Z.lor old (raw_of e)).
Proof. intros Hc. unfold into_raw. rewrite Hc, andb_false_r. done. Qed.

(** The upper four bits of a word. *)
Definition high (x : Z) : Z := Z.land x 0xf0000000.

Lemma high_testbit x i : fits 32 x -> Z.testbit (high x) i = Z.testbit x i && (28 <=? i).
Proof.
  intros Hx. unfold high. change 0xf0000000 with (Z.shiftl (Z.ones 4) 28). rewrite Z.land_spec.
  destruct (Z.ltb_spec i 0).
  { rewrite !Z.testbit_neg_r by done. done. }
  rewrite Z.shiftl_spec by done. destruct (Z.leb_spec 28 i).
  - destruct (Z.ltb_spec i 32).
    + by rewrite Z.ones_spec_low by lia.
    + by rewrite (fits_testbit_high 32 x) by (done || lia).
  - rewrite (Z.testbit_neg_r _ (i - 28)) by lia. done.
Qed.

Lemma high_fits x : fits 32 x -> fits 32 (high x).
Proof. intros Hx. unfold high. by apply fits_land. Qed.

Lemma low_lor_high x r : fits 32 x -> fits 28 r -> Z.land (Z.lor (high x) r) 0x0fffffff = r.
Proof.
  intros Hx Hr. change 0x0fffffff with (Z.ones 28). apply Z.bits_inj'. intros i Hi.
  rewrite Z.land_spec, Z.lor_spec, high_testbit by done. destruct (Z.ltb_spec i 28).
  - rewrite Z.ones_spec_low, (proj2 (Z.leb_gt 28 i)), andb_false_r by lia. simpl. apply andb_true_r.
  - rewrite Z.ones_spec_high, andb_false_r by lia. symmetry. by apply (fits_testbit_high 28).
Qed.

Lemma high_lor x r : fits 32 x -> fits 28 r -> high (Z.lor (high x) r) = high x.
Proof.
  intros Hx Hr. assert (fits 32 r) by (unfold fits in *; lia).
  assert (fits 32 (Z.lor (high x) r)) by (apply fits_lor; [lia|by apply high_fits|done]).
  apply Z.bits_inj'. intros i Hi. rewrite !high_testbit, Z.lor_spec, high_testbit by done.
  destruct (Z.leb_spec 28 i); [|by rewrite !andb_false_r]. rewrite (fits_testbit_high 28 r) by done.
  by rewrite orb_false_r, !andb_true_r.
Qed.

Lemma from_raw_of x e c : fits 32 x -> entry_ok e -> special c = false -> from_raw (Z.lor (high x) (raw_of e)) c = e.
Proof.
  intros Hx He Hc. unfold from_raw. rewrite low_lor_high by (done || by apply raw_of_fits). rewrite Hc.
  destruct e as [|n| |]; simpl in *; try done.
  rewrite !(proj2 (Z.eqb_neq _ _)), (proj2 (Z.leb_gt _ _)) by lia. done.
Qed.

(** An entry written over any old word is read back, and the four reserved
    bits of the word are kept. *)
Theorem entry_roundtrip (e : FatEntry) (c old : Z) :
  fits 32 old -> entry_ok e -> special c = false ->
  exists raw, into_raw e c (Z.land old 0xf0000000) = Ok raw /\ fits 32 raw
    /\ from_raw raw c = e /\ Z.land raw 0xf0000000 = Z.land old 0xf0000000.
Proof.
  intros Hold He Hc. exists (Z.lor (high old) (raw_of e)). pose proof (raw_of_fits e He) as Hr.
  split_and!; [by apply into_raw_eq| |by apply from_raw_of|by apply high_lor].
  apply fits_lor; [lia|by apply high_fits|unfold fits in *; lia].
Qed.

Lemma entry_roundtrip_witness :
  exists raw, into_raw (Next 5) 4 (Z.land 0xA0000000 0xf0000000) = Ok raw /\ fits 32 raw
    /\ from_raw raw 4 = Next 5 /\ Z.land raw 0xf0000000 = 0xA0000000.
Proof. apply (entry_roundtrip (Next 5) 4 0xA0000000); [unfold fits; lia|simpl; lia|reflexivity]. Defined.

(** ** The table on the device *)
Section Table.
Context {D : Type} `{IoSpec D} (f : Fat).
Implicit Types (d : D) (c : Z) (e : FatEntry).

(** The table and its mirrors fit on the device, and no cluster number is special. *)
Record fat_ok d : Prop := {
  fo_start : 0 <= start_offset f;
  fo_count : 0 <= cluster_count f /\ cluster_count f + 2 <= 0x0FFFFFF7;
  fo_mirrors : 1 <= mirrors f < 256;
  fo_fits : start_offset f + 4 * cluster_count f * mirrors f + 8 <= Z.of_nat (length (io_bytes d));
  fo_len : Z.of_nat (length (io_bytes d)) < 2 ^ 64;
}.

Definition last_cluster : Z := cluster_count f + 2.
Definition raw_at d c : Z := of_le (slice_at (io_bytes d) (start_offset f + 4 * c) 4).
Definition ent d c : FatEntry := from_raw (raw_at d c) c.

Lemma offset_eq d m c :
  fat_ok d -> 0 <= m < mirrors f -> 0 <= c <= last_cluster ->
  offset f m c = start_offset f + 4 * cluster_count f * m + 4 * c.
Proof.
  intros [] Hm Hc. unfold offset, size, ENTRY_SIZE, last_cluster in *.
  assert (4 * cluster_count f * m <= 4 * cluster_count f * (mirrors f - 1)) by nia.
  assert (0 <= 4 * cluster_count f * m) by nia.
  rewrite (wmul_small 64 (cluster_count f)) by (unfold fits; lia).
  rewrite (wmul_small 64 (cluster_count f * 4)) by (unfold fits; nia).
  rewrite (wmul_small 64 c) by (unfold fits; lia).
  rewrite (wadd_small 64 (start_offset f)) by (unfold fits; nia).
  rewrite wadd_small by (unfold fits; nia). lia.
Qed.

Lemma allocable_end_eq d : fat_ok d -> allocable_end f = last_cluster.
Proof.
  intros []. unfold allocable_end, FRaw.RESERVED_FAT_ENTRIES, last_cluster. apply wadd_small. unfold fits. lia.
Qed.

Lemma raw_at_fits d c : fat_ok d -> 0 <= c < last_cluster -> fits 32 (raw_at d c).
Proof.
  intros [] Hc. unfold raw_at. set (bs := slice_at _ _ _).
  assert (Hl : Z.of_nat (length bs) = 4) by (apply length_slice_at; unfold last_cluster in *; nia).
  pose proof (of_le_range bs) as Hr. replace (8 * Z.of_nat (length bs)) with 32 in Hr by lia. apply Hr.
  unfold bs, slice_at. apply Forall_take, Forall_drop, io_byte.
Qed.

Lemma not_special d c : fat_ok d -> c < last_cluster -> special c = false.
Proof. intros [] Hc. unfold special, last_cluster in *. by rewrite (proj2 (Z.leb_gt _ _)) by lia. Qed.

Lemma get_raw_eq d c :
  fat_ok d -> 0 <= c ->
  get_raw f c d = if c <? last_cluster then (Ok (raw_at d c), d) else (Err EINVAL, d).
Proof.
  intros Hd Hc. unfold get_raw. rewrite (allocable_end_eq d) by done.
  destruct (Z.ltb_spec c last_cluster).
  - rewrite (proj2 (Z.leb_gt _ _)) by lia. rewrite (offset_eq d) by (done || (destruct Hd; lia)).
    rewrite Z.mul_0_r, Z.add_0_r. pose proof Hd as [].
    erewrite ST_bind_Ok; [done|]. unfold read_bytes. f_equal. apply io_read; unfold last_cluster in *; nia.
  - by rewrite (proj2 (Z.leb_le _ _)) by lia.
Qed.

(** ** Writing *)
(** The end of the last mirror; no byte outside the tables is written. *)
Definition table_end : Z := start_offset f + 4 * cluster_count f * mirrors f + 8.
Definition outside d d' : Prop :=
  length (io_bytes d') = length (io_bytes d)
  /\ forall off n, 0 <= off -> off + n <= start_offset f \/ table_end <= off ->
       slice_at (io_bytes d') off n = slice_at (io_bytes d) off n.

Lemma outside_trans d d1 d2 : outside d d1 -> outside d1 d2 -> outside d d2.
Proof. intros [E1 H1] [E2 H2]. split; [congruence|]. intros off n Ho Hn. by rewrite H2, H1. Qed.

(** A write behind the first table leaves it as it is. *)
Definition same_table d d' : Prop :=
  outside d d'
  /\ forall j, 0 <= j < last_cluster ->
       slice_at (io_bytes d') (start_offset f + 4 * j) 4 = slice_at (io_bytes d) (start_offset f + 4 * j) 4.

Lemma fat_ok_same d d' : fat_ok d -> length (io_bytes d') = length (io_bytes d) -> fat_ok d'.
Proof. intros [] E. split; by rewrite ?E. Qed.

Lemma write_behind d m c bs :
  fat_ok d -> 1 <= m < mirrors f -> 2 <= c -> Forall byte bs -> 4 * c + Z.of_nat (length bs) <= 4 * last_cluster ->
  exists d', write_all_at (offset f m c) bs d = (Ok tt, d') /\ same_table d d'.
Proof.
  intros Hd Hm Hc Hb Hl. assert (Hoff := offset_eq d m c Hd ltac:(lia) ltac:(lia)). rewrite Hoff. pose proof Hd as [].
  unfold last_cluster in *.
  assert (4 * cluster_count f * m + 4 * cluster_count f <= 4 * cluster_count f * mirrors f) by nia.
  assert (4 * cluster_count f <= 4 * cluster_count f * m) by nia.
  destruct (io_write d (start_offset f + 4 * cluster_count f * m + 4 * c) bs) as (d' & E & Hbytes); [lia|done|lia|].
  exists d'. split; [done|]. unfold same_table, outside, last_cluster, table_end. rewrite Hbytes.
  split; [split; [apply length_splice; lia|]|]; intros; apply slice_splice_other; lia.
Qed.

Lemma write_rest c bs ms : forall d,
  fat_ok d -> Forall (fun m => 1 <= m < mirrors f) ms -> 2 <= c -> Forall byte bs ->
  4 * c + Z.of_nat (length bs) <= 4 * last_cluster ->
  exists d', write_mirrors f ms c bs d = (Ok tt, d') /\ same_table d d'.
Proof.
  induction ms as [|m ms IH]; intros d Hd Hms Hc Hb Hl; [exists d; by split_and!|].
  apply Forall_cons in Hms as [Hm Hms]. destruct (write_behind d m c bs) as (d1 & E1 & Ho1 & Hs1); try done.
  cbn [write_mirrors]. rewrite (ST_bind_Ok _ _ _ _ _ E1).
  destruct (IH d1) as (d' & E' & Ho' & Hs'); try done; [eapply fat_ok_same; [done|apply Ho1]|].
  exists d'. split; [done|]. split; [by eapply outside_trans|]. intros j Hj. by rewrite Hs', Hs1.
Qed.

Lemma mirror_list_eq d : fat_ok d ->
  exists ms, mirror_list f = 0 :: ms /\ Forall (fun m => 1 <= m < mirrors f) ms.
Proof.
  intros []. unfold mirror_list. destruct (Z.to_nat (mirrors f)) as [|n] eqn:E; [lia|].
  exists (Z.of_nat <$> seq 1 n). split; [done|]. apply Forall_forall. intros m (k & -> & Hk%elem_of_seq)%list_elem_of_fmap. lia.
Qed.

(** Writing words into every mirror replaces them in the first table. *)
Lemma write_table d c bs k :
  fat_ok d -> 2 <= c -> 0 <= k -> c + k <= last_cluster -> Forall byte bs -> Z.of_nat (length bs) = 4 * k ->
  exists d', write_mirrors f (mirror_list f) c bs d = (Ok tt, d') /\ fat_ok d' /\ outside d d'
    /\ forall j, 0 <= j < last_cluster -> raw_at d' j =
         if (c <=? j) && (j <? c + k) then of_le (slice_at bs (4 * (j - c)) 4) else raw_at d j.
Proof.
  intros Hd Hc Hk Hck Hb Hl. destruct (mirror_list_eq d Hd) as (ms & -> & Hms). cbn [write_mirrors].
  assert (Hoff := offset_eq d 0 c Hd ltac:(destruct Hd; lia) ltac:(lia)). rewrite Hoff, Z.mul_0_r, Z.add_0_r.
  pose proof Hd as []. unfold last_cluster in *.
  assert (4 * cluster_count f <= 4 * cluster_count f * mirrors f) by nia.
  destruct (io_write d (start_offset f + 4 * c) bs) as (d1 & E1 & Hbytes); [lia|done|lia|].
  rewrite (ST_bind_Ok _ _ _ _ _ E1).
  assert (Hlen1 : length (io_bytes d1) = length (io_bytes d)) by (rewrite Hbytes; apply length_splice; lia).
  assert (Ho1 : outside d d1).
  { split; [done|]. intros off n Ho Hn. rewrite Hbytes. unfold table_end in Hn. apply slice_splice_other; lia. }
  destruct (write_rest c bs ms d1) as (d' & E' & Ho' & Hs'); try done;
    [by eapply fat_ok_same|unfold last_cluster; lia|].
  pose proof (outside_trans _ _ _ Ho1 Ho') as Ho.
  exists d'. split; [done|]. split; [eapply fat_ok_same; [exact Hd|apply Ho]|]. split; [done|].
  intros j Hj. unfold raw_at. rewrite (Hs' j Hj), Hbytes.
  destruct (Z.leb_spec c j); simpl; [destruct (Z.ltb_spec j (c + k))|].
  - rewrite slice_splice_in by lia. do 2 f_equal. lia.
  - rewrite slice_splice_other by lia. done.
  - rewrite slice_splice_other by lia. done.
Qed.

(** What an operation may change: the entries in [upd] and no other, and no byte
    outside the tables. *)
Definition updates d d' (upd : Z -> option FatEntry) : Prop :=
  fat_ok d' /\ outside d d' /\ forall j, 0 <= j < last_cluster -> ent d' j = default (ent d j) (upd j).

Lemma set_updates d c e :
  fat_ok d -> 2 <= c < last_cluster -> entry_ok e ->
  exists d', set f c e d = (Ok tt, d') /\ updates d d' (fun j => if j =? c then Some e else None).
Proof.
  intros Hd Hc He. unfold set.
  assert (Hg := get_raw_eq d c Hd ltac:(lia)). rewrite (proj2 (Z.ltb_lt _ _)) in Hg by lia.
  rewrite (ST_bind_Ok _ _ _ _ _ Hg). pose proof (not_special d c Hd ltac:(lia)) as Hs.
  rewrite into_raw_eq by done. fold (high (raw_at d c)). set (raw := Z.lor (high (raw_at d c)) (raw_of e)).
  pose proof (raw_at_fits d c Hd ltac:(lia)) as Hraw.
  assert (Hfr : fits 32 raw).
  { apply fits_lor; [lia|by apply high_fits|]. pose proof (raw_of_fits e He). unfold fits in *. lia. }
  assert (Hw : lift_res (Ok raw : res Error Z) d = (Ok raw, d)) by done. rewrite (ST_bind_Ok _ _ _ _ _ Hw).
  destruct (write_table d c (le_bytes 4 raw) 1) as (d' & E & Hd' & Ho & Hr); try (done || lia);
    [apply le_bytes_byte|]. exists d'. split; [done|]. split; [done|]. split; [done|].
  assert (Hback : of_le (slice_at (le_bytes 4 raw) (4 * (c - c)) 4) = raw).
  { rewrite Z.sub_diag, Z.mul_0_r. pose proof (slice_at_all (le_bytes 4 raw)) as Hall.
    rewrite length_le_bytes in Hall. change (Z.of_nat 4) with 4 in Hall. rewrite Hall, of_le_bytes. by apply Z.mod_small. }
  intros j Hj. unfold ent. rewrite Hr by done. destruct (Z.eqb_spec j c) as [->|Hne]; cbn [default].
  - rewrite (proj2 (Z.leb_le c c)), (proj2 (Z.ltb_lt c (c + 1))), Hback by lia. by apply from_raw_of.
  - destruct (Z.leb_spec c j); simpl; [|done]. by rewrite (proj2 (Z.ltb_ge _ _)) by lia.
Qed.

Lemma get_eq d c : fat_ok d -> 0 <= c -> get f c d = if c <? last_cluster then (Ok (ent d c), d) else (Err EINVAL, d).
Proof.
  intros Hd Hc. unfold get. assert (Hg := get_raw_eq d c Hd Hc). destruct (c <? last_cluster).
  - by rewrite (ST_bind_Ok _ _ _ _ _ Hg).
  - by rewrite (ST_bind_Err _ _ _ _ _ Hg).
Qed.

(** Setting the entry of a data cluster succeeds, the entry is read back, and
    the entry of every other cluster and every byte outside the tables are
    unchanged, whatever the mirrors hold. *)
Theorem set_get d c e :
  fat_ok d -> 2 <= c < last_cluster -> entry_ok e ->
  exists d', set f c e d = (Ok tt, d') /\ fat_ok d'
    /\ get f c d' = (Ok e, d')
    /\ outside d d'
    /\ forall j, 0 <= j < last_cluster -> j <> c -> (get f j d').1 = (get f j d).1.
Proof.
  intros Hd Hc He. destruct (set_updates d c e Hd Hc He) as (d' & E & Hd' & Ho & Hu).
  exists d'. split; [done|]. split; [done|]. split; [|split; [done|]].
  - rewrite get_eq by (done || lia). rewrite (proj2 (Z.ltb_lt _ _)), (Hu c) by lia. by rewrite Z.eqb_refl.
  - intros j Hj Hne. rewrite !get_eq by (done || lia). rewrite (proj2 (Z.ltb_lt _ _)), (Hu j) by lia.
    by rewrite (proj2 (Z.eqb_neq _ _) Hne).
Qed.

(** ** Truncating and freeing *)
(** [truncate] ends the chain at the given cluster but frees nothing: it reads
    the successor after overwriting it, so the rest of the chain stays allocated. *)
Theorem truncate_spec d c fuel :
  fat_ok d -> 2 <= c < last_cluster ->
  exists d', truncate fuel f c d = (Ok (Some 0), d')
    /\ updates d d' (fun j => if j =? c then Some End_ else None).
Proof.
  intros Hd Hc. unfold truncate. destruct (set_updates d c End_ Hd Hc I) as (d' & E & Hu).
  exists d'. rewrite (ST_bind_Ok _ _ _ _ _ E). split; [|done]. pose proof Hu as (Hd' & _ & Hent).
  assert (Hn : iter_next f c d' = (Ok None, d')); [|by rewrite (ST_bind_Ok _ _ _ _ _ Hn)].
  unfold iter_next. assert (Hg := get_eq d' c Hd' ltac:(lia)). rewrite (proj2 (Z.ltb_lt _ _)), (Hent c) in Hg by lia.
  rewrite Z.eqb_refl in Hg. by rewrite (ST_bind_Ok _ _ _ _ _ Hg).
Qed.

(** The clusters of a chain that ends. *)
Inductive chain d : Z -> list Z -> Prop :=
| chain_end c : 2 <= c < last_cluster -> (forall n, ent d c <> Next n) -> chain d c [c]
| chain_next c n l : 2 <= c < last_cluster -> ent d c = Next n -> chain d n l -> c ∉ l -> chain d c (c :: l).

Lemma chain_range d c l : chain d c l -> Forall (fun j => 2 <= j < last_cluster) l.
Proof. induction 1; (apply Forall_cons; split; [done|]); [by apply Forall_nil|done]. Qed.

Lemma chain_stable d d' c l : chain d c l -> (forall j, j ∈ l -> ent d' j = ent d j) -> chain d' c l.
Proof.
  induction 1 as [c Hc Hn|c n l Hc Hn _ IH Hnot]; intros Hs.
  - apply chain_end; [done|]. rewrite Hs by set_solver. done.
  - eapply chain_next; [done|rewrite Hs by set_solver; done| |done]. apply IH. set_solver.
Qed.

Lemma iter_next_eq d c : fat_ok d -> 2 <= c < last_cluster ->
  iter_next f c d = (Ok (match ent d c with Next n => Some n | _ => None end), d).
Proof.
  intros Hd Hc. unfold iter_next. assert (Hg := get_eq d c Hd ltac:(lia)). rewrite (proj2 (Z.ltb_lt _ _)) in Hg by lia.
  by rewrite (ST_bind_Ok _ _ _ _ _ Hg).
Qed.

Lemma free_loop_spec d c l : chain d c l -> forall acc fuel, fat_ok d -> (length l <= fuel)%nat ->
  0 <= acc -> acc + Z.of_nat (length l) < 2 ^ 32 ->
  exists d', free_loop fuel f c acc d = (Ok (Some (acc + Z.of_nat (length l))), d')
    /\ updates d d' (fun j => if bool_decide (j ∈ l) then Some Free else None).
Proof.
  revert d c. induction l as [|c0 l IH]; intros d c Hch acc fuel Hd Hf Hacc Hlim; [by inversion Hch|].
  assert (Hc : c0 = c /\ 2 <= c < last_cluster) by (inversion Hch; subst; done). destruct Hc as [-> Hc].
  destruct fuel as [|fuel]; [simpl in Hf; lia|]. cbn [free_loop]. rewrite (iter_next_eq d c Hd Hc).
  destruct (set_updates d c Free Hd Hc I) as (d1 & E1 & Hd1 & Ho1 & Hu1). rewrite (ST_bind_Ok _ _ _ _ _ E1).
  rewrite wadd_small by (unfold fits; simpl in Hlim; lia).
  inversion Hch as [c' _ Hn|c' n l' _ Hn Hrest Hnot]; subst.
  - assert (Hnx : match ent d c with Next n => Some n | _ => None end = None)
      by (destruct (ent d c) as [|n| |] eqn:Ee; [done|by destruct (Hn n)|done|done]).
    rewrite Hnx. exists d1. split; [done|]. split; [done|]. split; [done|]. intros j Hj. rewrite Hu1 by done.
    destruct (Z.eqb_spec j c) as [->|]; [by rewrite bool_decide_true by set_solver|by rewrite bool_decide_false by set_solver].
  - rewrite Hn. destruct (IH d1 n) with (acc + 1) fuel as (d' & E & Hd' & Ho' & Hu); try done.
    + apply (chain_stable d); [done|]. intros j Hj. pose proof (chain_range _ _ _ Hrest) as Hr.
      rewrite Forall_forall in Hr. specialize (Hr j Hj). rewrite Hu1 by lia.
      rewrite (proj2 (Z.eqb_neq j c)); [done|]. intros ->. done.
    + simpl in Hf. lia.
    + lia.
    + simpl in Hlim. lia.
    + exists d'. split; [rewrite E; do 3 f_equal; simpl; lia|]. split; [done|].
      split; [by eapply outside_trans|]. intros j Hj. rewrite Hu, Hu1 by done.
      destruct (decide (j ∈ l)); [rewrite !bool_decide_true by set_solver; done|].
      rewrite (bool_decide_false (j ∈ l)) by done. simpl. destruct (Z.eqb_spec j c) as [->|].
      * by rewrite bool_decide_true by set_solver.
      * by rewrite bool_decide_false by set_solver.
Qed.

(** Freeing a chain that ends terminates, frees exactly its clusters and
    counts them. *)
Theorem free_spec d c l :
  fat_ok d -> chain d c l -> Z.of_nat (length l) < 2 ^ 32 ->
  exists d', free (length l) f c d = (Ok (Some (Z.of_nat (length l))), d')
    /\ updates d d' (fun j => if bool_decide (j ∈ l) then Some Free else None).
Proof. intros Hd Hch Hl. apply (free_loop_spec d c l Hch 0 (length l)); (done || lia). Qed.
End Table.

(** *** A table of four clusters and one mirror *)
Definition sample_fat : Fat := mk_fat 8 4 2.
Definition sample_raws : list Z := [0x0FFFFFF8; 0x0FFFFFFF; 3; 0xAFFFFFFF; 0; 0].
Definition sample_disk : RamDisk.
Proof.
  refine (mk_disk (replicate 8 0 ++ mjoin (le_bytes 4 <$> sample_raws) ++ replicate 32 0) _).
  apply (bool_decide_unpack (Forall byte _)). vm_compute. exact I.
Defined.

Lemma sample_ok : fat_ok sample_fat sample_disk.
Proof. split; vm_compute; repeat split; congruence. Qed.

Lemma set_get_witness :
  exists d', set sample_fat 4 Bad sample_disk = (Ok tt, d') /\ fat_ok sample_fat d'
    /\ get sample_fat 4 d' = (Ok Bad, d') /\ outside sample_fat sample_disk d'
    /\ forall j, 0 <= j < last_cluster sample_fat -> j <> 4 -> (get sample_fat j d').1 = (get sample_fat j sample_disk).1.
Proof. apply (set_get sample_fat sample_disk 4 Bad); [apply sample_ok|vm_compute; split; congruence|exact I]. Defined.

Lemma truncate_spec_witness :
  exists d', truncate 10 sample_fat 2 sample_disk = (Ok (Some 0), d')
    /\ updates sample_fat sample_disk d' (fun j => if j =? 2 then Some End_ else None).
Proof. apply (truncate_spec sample_fat sample_disk 2 10); [apply sample_ok|vm_compute; split; congruence]. Defined.

Lemma free_spec_witness :
  exists d', free 2 sample_fat 2 sample_disk = (Ok (Some 2), d')
    /\ updates sample_fat sample_disk d' (fun j => if bool_decide (j ∈ [2; 3]) then Some Free else None).
Proof.
  apply (free_spec sample_fat sample_disk 2 [2; 3]); [apply sample_ok| |simpl; lia].
  eapply (chain_next _ _ _ 3); [vm_compute; split; congruence|vm_compute; reflexivity| |].
  - apply chain_end; [vm_compute; split; congruence|intros n E; vm_compute in E; discriminate E].
  - intros Hin%list_elem_of_singleton. discriminate Hin.
Defined.
