(* ===== verification/FatAlloc.v ===== *)
(** * afat32: searching and allocating clusters *)

From S2P Require Import Prelude Ksc Bytes FatRaw FatTable.
Import Errno FT.

(** ** Words of a buffer *)
Lemma slice_take {A} (l : list A) off n k : 0 <= k <= n -> take (Z.to_nat k) (slice_at l off n) = slice_at l off k.
Proof. intros Hk. unfold slice_at. rewrite take_take. f_equal. lia. Qed.

Lemma slice_drop {A} (l : list A) off n k :
  0 <= off -> 0 <= k <= n -> drop (Z.to_nat k) (slice_at l off n) = slice_at l (off + k) (n - k).
Proof.
  intros Ho Hk. unfold slice_at. rewrite skipn_firstn_comm, drop_drop. f_equal; [lia|]. f_equal. lia.
Qed.

Lemma words_slice (l : list Z) n : forall off, 0 <= off ->
  words n (slice_at l off (4 * Z.of_nat n)) = (fun i => of_le (slice_at l (off + 4 * Z.of_nat i) 4)) <$> seq 0 n.
Proof.
  induction n as [|n IH]; intros off Ho; [done|]. cbn [words seq fmap list_fmap].
  change 4%nat with (Z.to_nat 4). rewrite slice_take, slice_drop by lia.
  replace (4 * Z.of_nat (S n) - 4) with (4 * Z.of_nat n) by lia. rewrite IH by lia.
  change (Z.of_nat 0) with 0. rewrite Z.mul_0_r, Z.add_0_r. f_equal.
  rewrite <- (fmap_S_seq 0 n), <- list_fmap_compose. apply list_fmap_ext. intros i x _. simpl. do 2 f_equal. lia.
Qed.

Lemma join_cons (x : list Z) (ls : list (list Z)) : mjoin (x :: ls) = x ++ mjoin ls.
Proof. done. Qed.

Lemma slice_join (raws : list Z) (i : nat) raw :
  raws !! i = Some raw -> slice_at (mjoin (le_bytes 4 <$> raws)) (4 * Z.of_nat i) 4 = le_bytes 4 raw.
Proof.
  revert i. induction raws as [|r raws IH]; intros [|i] Hi; try done.
  - injection Hi as ->. unfold slice_at. cbn [fmap list_fmap]. rewrite join_cons.
    change (Z.to_nat (4 * Z.of_nat 0)) with 0%nat. rewrite drop_0. by apply take_app_length'.
  - cbn [fmap list_fmap]. rewrite join_cons. rewrite <- (IH i Hi). unfold slice_at. f_equal.
    replace (Z.to_nat (4 * Z.of_nat (S i))) with (4 + Z.to_nat (4 * Z.of_nat i))%nat by lia.
    rewrite <- drop_drop. done.
Qed.

Lemma length_join4 (raws : list Z) : length (mjoin (le_bytes 4 <$> raws)) = (4 * length raws)%nat.
Proof.
  induction raws as [|r raws IH]; [done|]. cbn [fmap list_fmap]. rewrite join_cons, length_app, IH, length_le_bytes.
  simpl. lia.
Qed.

Lemma join4_byte (raws : list Z) : Forall byte (mjoin (le_bytes 4 <$> raws)).
Proof.
  induction raws as [|r raws IH]; [constructor|]. cbn [fmap list_fmap]. rewrite join_cons. apply Forall_app.
  split; [apply le_bytes_byte|done].
Qed.

Section Alloc.
Context {D : Type} `{IoSpec D} (f : Fat).
Implicit Types (d : D) (c : Z) (e : FatEntry).
Notation fat_ok := (fat_ok f).
Notation last_cluster := (last_cluster f).
Notation ent := (ent f).
Notation raw_at := (raw_at f).

(** The clusters from [s] on with their entries. *)
Definition entries d (s : Z) (n : nat) : list (Z * FatEntry) :=
  (fun i => (s + Z.of_nat i, ent d (s + Z.of_nat i))) <$> seq 0 n.

Lemma entries_S d s n : entries d s (S n) = (s, ent d s) :: entries d (s + 1) n.
Proof.
  unfold entries. cbn [seq fmap list_fmap]. rewrite Z.add_0_r. f_equal.
  rewrite <- (fmap_S_seq 0 n), <- list_fmap_compose. apply list_fmap_ext. intros i x _. simpl.
  replace (s + Z.of_nat (S x)) with (s + 1 + Z.of_nat x) by lia. done.
Qed.

Lemma get_range_raw_eq d s n :
  fat_ok d -> 0 <= s -> 0 < n -> s + n <= last_cluster ->
  get_range_raw f s n d = (Ok ((fun i => raw_at d (s + Z.of_nat i)) <$> seq 0 (Z.to_nat n)), d).
Proof.
  intros Hd Hs Hn Hl. unfold get_range_raw. rewrite (allocable_end_eq f d Hd). pose proof Hd as [].
  assert (Hlc : last_cluster = cluster_count f + 2) by done.
  rewrite (proj2 (Z.leb_gt _ _)) by lia. rewrite wadd_small by (unfold fits; lia). rewrite Z.min_l by lia.
  rewrite (proj2 (Z.ltb_ge _ _)), (proj2 (Z.eqb_neq _ _)) by lia. replace (s + n - s) with n by lia.
  rewrite (offset_eq f d) by (done || lia). rewrite Z.mul_0_r, Z.add_0_r.
  erewrite ST_bind_Ok; [|unfold read_bytes; f_equal; apply io_read; nia].
  unfold mret, ST_ret. do 2 f_equal. rewrite <- (Z2Nat.id n) at 2 by lia. rewrite words_slice by lia.
  apply list_fmap_ext. intros i x _. unfold FatTable.raw_at. do 2 f_equal. lia.
Qed.

Lemma get_range_eq d s n :
  fat_ok d -> 0 <= s -> 0 < n -> s + n <= last_cluster -> get_range f s n d = (Ok (entries d s (Z.to_nat n)), d).
Proof.
  intros Hd Hs Hn Hl. unfold get_range. rewrite (ST_bind_Ok _ _ _ _ _ (get_range_raw_eq d s n Hd Hs Hn Hl)).
  unfold mret, ST_ret. do 2 f_equal. apply list_eq. intros i. unfold number_from, entries.
  rewrite !list_lookup_fmap, list_lookup_imap, list_lookup_fmap.
  destruct (decide (i < Z.to_nat n)%nat).
  - by rewrite !lookup_seq_lt by lia.
  - by rewrite !lookup_seq_ge by lia.
Qed.

(** ** Scanning for a run of free clusters *)
(** A run of [n] free clusters from [r] on. *)
Definition run d (r n : Z) : Prop := 0 < n /\ forall j, r <= j < r + n -> ent d j = Free.

(** The state of the scan when it has reached [c]. *)
Definition scan_state d (num s c count : Z) (ret : option Z) : Prop :=
  match ret with
  | None => count = 0 /\ forall j, s <= j < c -> ent d j <> Free
  | Some r => s <= r /\ run d r count /\ r + count = c /\ count <= num
  end.

Lemma scan_spec d num s n : forall c count ret,
  0 < num -> s <= c -> scan_state d num s c count ret ->
  match scan num (entries d c n) count ret with
  | Ok (inl (r, k)) => s <= r /\ run d r k /\ k <= num /\ r + k <= c + Z.of_nat n
  | Ok (inr (count', ret')) => scan_state d num s (c + Z.of_nat n) count' ret'
  | _ => False
  end.
Proof.
  induction n as [|n IH]; intros c count ret Hnum Hsc Hst; [cbn [entries]; by rewrite Z.add_0_r|].
  rewrite entries_S. cbn [scan]. replace (c + Z.of_nat (S n)) with (c + 1 + Z.of_nat n) by lia.
  destruct (bool_decide (ent d c = Free)) eqn:Ef.
  - apply bool_decide_eq_true in Ef. destruct ret as [r|].
    + destruct Hst as (Hr & [Hpos Hrun] & Hrc & Hle). destruct (Z.leb_spec num count).
      * simpl. split_and!; [done|split; done|lia|lia].
      * rewrite (proj2 (Z.eqb_neq count 0)) by lia. apply IH; [done|lia|]. split_and!; [done| |lia|lia].
        split; [lia|]. intros j Hj. destruct (Z.eq_dec j c) as [->|]; [done|]. apply Hrun. lia.
    + destruct Hst as [-> Hnone]. rewrite (proj2 (Z.leb_gt num 0)) by lia. simpl. apply IH; [done|lia|].
      split_and!; [lia| |lia|lia]. split; [lia|]. intros j Hj. by replace j with c by lia.
  - apply bool_decide_eq_false in Ef. destruct ret as [r|].
    + destruct Hst as (Hr & Hrun & Hrc & Hle). split_and!; [done|done|lia|lia].
    + destruct Hst as [-> Hnone]. apply IH; [done|lia|]. split; [done|]. intros j Hj.
      destruct (Z.eq_dec j c) as [->|]; [done|]. apply Hnone. lia.
Qed.

(** The outcome of a search from [s] to [e]. *)
Definition found d (num len s e : Z) (r : res Error (Z * Z)) : Prop :=
  match r with
  | Ok (r, k) => s <= r /\ run d r k /\ k <= num /\ k <= len /\ r + k <= e
  | Err err => err = ENOSPC /\ forall j, s <= j < e -> ent d j <> Free
  | Panic => False
  end.

Lemma find_loop_spec d num len (e : Z) : fat_ok d -> 0 < num -> 0 < len -> e <= last_cluster ->
  forall fuel s, 0 <= s -> (Z.to_nat (e - s) <= fuel)%nat ->
  exists r, find_loop fuel f num len s e d = (r, d) /\ found d num len s e r.
Proof.
  intros Hd Hnum Hlen He. induction fuel as [|fuel IH]; intros s Hs Hf.
  { exists (Err ENOSPC). split; [done|]. split; [done|]. intros; lia. }
  cbn [find_loop]. destruct (Z.leb_spec e s).
  { exists (Err ENOSPC). split; [done|]. split; [done|]. intros; lia. }
  set (n := Z.min len (e - s)). assert (Hn : 0 < n <= len /\ s + n <= e) by lia.
  rewrite (ST_bind_Ok _ _ _ _ _ (get_range_eq d s n Hd Hs ltac:(lia) ltac:(lia))).
  pose proof (scan_spec d num s (Z.to_nat n) s 0 None Hnum ltac:(lia)) as Hscan. rewrite Z2Nat.id in Hscan by lia.
  specialize (Hscan ltac:(split; [done|intros; lia])).
  destruct (scan num (entries d s (Z.to_nat n)) 0 None) as [[[r k]|[k [r|]]]|err|] eqn:Es; try done;
    (erewrite ST_bind_Ok; [|unfold lift_res; done]).
  - exists (Ok (r, k)). destruct Hscan as (Hr & Hrun & Hk & Hle). split; [done|]. split_and!; (done || lia).
  - exists (Ok (r, k)). destruct Hscan as (Hr & Hrun & Hrk & Hk). split; [done|]. split_and!; (done || lia).
  - destruct Hscan as [-> Hnone]. destruct (Z.le_gt_cases e (s + len)).
    + assert (n = e - s) by lia. exists (Err ENOSPC). split; [|split; [done|intros j Hj; apply Hnone; lia]].
      destruct fuel as [|fuel]; [done|]. cbn [find_loop]. by rewrite (proj2 (Z.leb_le _ _)) by lia.
    + assert (n = len) by lia. destruct (IH (s + len)) as (r & E & Hfound); [lia|lia|]. exists r. split; [done|].
      unfold found in *. destruct r as [[r k]|err|]; [| |done].
      * destruct Hfound as (Hr & Hrest). split; [lia|done].
      * destruct Hfound as [-> Hn2]. split; [done|]. intros j Hj.
        destruct (Z.lt_ge_cases j (s + len)); [apply Hnone; lia|apply Hn2; lia].
Qed.

(** The wrapped search, from the end of the table on, never finds anything. *)
Lemma find_or_wrap_spec d hint num len :
  fat_ok d -> 0 <= hint -> 0 < num -> 0 < len ->
  exists r, find_or_wrap f hint num len d = (r, d) /\ found d num len (Z.max hint 2) last_cluster r.
Proof.
  intros Hd Hh Hnum Hlen. unfold find_or_wrap, find_free.
  rewrite (proj2 (Z.eqb_neq len 0)) by lia. unfold find_start, find_end, allocable_start, FRaw.RESERVED_FAT_ENTRIES.
  rewrite !(allocable_end_eq f d Hd).
  destruct (find_loop_spec d num len last_cluster Hd Hnum Hlen ltac:(lia)
    (Z.to_nat (last_cluster - Z.max hint 2)) (Z.max hint 2)) as (r & E & Hfound); [lia|lia|].
  rewrite E. destruct r as [[r k]|err|]; [by exists (Ok (r, k))| |done]. destruct Hfound as [-> Hnone].
  rewrite bool_decide_true by done. replace (Z.to_nat (Z.min hint last_cluster - last_cluster)) with 0%nat by lia.
  by exists (Err ENOSPC).
Qed.

(** ** Writing a range *)
Lemma replace_raws_spec raws es : forall c,
  length es = length raws -> (forall j, c <= j < c + Z.of_nat (length raws) -> special j = false) ->
  exists raws', replace_raws raws c es = Ok raws' /\ length raws' = length raws
    /\ forall i raw e, raws !! i = Some raw -> es !! i = Some e -> raws' !! i = Some (Z.lor (high raw) (raw_of e)).
Proof.
  revert es. induction raws as [|raw raws IH]; intros [|e es] c Hl Hs; try done; [by exists []|].
  simpl in Hl. cbn [replace_raws]. rewrite into_raw_eq by (apply Hs; simpl; lia). fold (high raw).
  destruct (IH es (c + 1)) as (raws' & E & Hlen & Hlk); [lia|intros j Hj; apply Hs; simpl; lia|].
  unfold mbind at 1, res_bind at 1. rewrite E. exists (Z.lor (high raw) (raw_of e) :: raws'). split; [done|].
  split; [simpl; by rewrite Hlen|]. intros [|i] raw0 e0 Hr He; simpl in *; [congruence|]. by eapply Hlk.
Qed.

Lemma set_range_updates d s (es : list FatEntry) :
  fat_ok d -> 2 <= s -> (0 < length es)%nat -> s + Z.of_nat (length es) <= last_cluster -> Forall entry_ok es ->
  exists d', set_range f s (Z.of_nat (length es)) es d = (Ok tt, d')
    /\ updates f d d' (fun j => if s <=? j then es !! Z.to_nat (j - s) else None).
Proof.
  intros Hd Hs Hpos Hl Hes. unfold set_range.
  rewrite (ST_bind_Ok _ _ _ _ _ (get_range_raw_eq d s (Z.of_nat (length es)) Hd ltac:(lia) ltac:(lia) Hl)).
  rewrite Nat2Z.id. set (raws := (fun i => raw_at d (s + Z.of_nat i)) <$> seq 0 (length es)).
  assert (Hlr : length raws = length es) by (unfold raws; by rewrite length_fmap, length_seq).
  destruct (replace_raws_spec raws es s) as (raws' & E & Hlen & Hlk); [done| |].
  { intros j Hj. apply (not_special f d); [done|]. lia. }
  erewrite ST_bind_Ok; [|unfold lift_res; by rewrite E].
  destruct (write_table f d s (mjoin (le_bytes 4 <$> raws')) (Z.of_nat (length es))) as (d' & Ew & Hd' & Ho & Hr);
    try (done || lia); [apply join4_byte|rewrite length_join4; lia|].
  exists d'. split; [done|]. split; [done|]. split; [done|]. intros j Hj. unfold FatTable.ent. rewrite Hr by done.
  destruct (Z.leb_spec s j); [|done]. cbn [andb]. destruct (Z.ltb_spec j (s + Z.of_nat (length es))).
  - destruct (lookup_lt_is_Some_2 es (Z.to_nat (j - s)) ltac:(lia)) as [e He]. rewrite He. cbn [default].
    assert (Hraw : raws !! Z.to_nat (j - s) = Some (raw_at d j)).
    { unfold raws. rewrite list_lookup_fmap, lookup_seq_lt by lia. simpl. do 2 f_equal. lia. }
    specialize (Hlk _ _ _ Hraw He). pose proof (slice_join _ _ _ Hlk) as Hsl. rewrite Z2Nat.id in Hsl by lia.
    rewrite Hsl, of_le_bytes. pose proof (raw_at_fits f d j Hd Hj) as Hfr.
    rewrite Forall_lookup in Hes. pose proof (Hes _ _ He) as Heok.
    rewrite Z.mod_small.
    + apply FatTable.from_raw_of; [done|done|]. apply (not_special f d); [done|lia].
    + apply (fits_lor 32); [lia|by apply high_fits|]. pose proof (raw_of_fits e Heok). unfold fits in *. lia.
  - by rewrite (lookup_ge_None_2 es) by lia.
Qed.

(** ** Allocation *)
(** The entries of a chain of [n] clusters from [r] on, appended to [prev]. *)
Definition alloc_entries (prev : option Z) (r n j : Z) : option FatEntry :=
  if j =? r + n - 1 then Some End_
  else if (r <=? j) && (j <? r + n - 1) then Some (Next (j + 1))
  else if bool_decide (prev = Some j) then Some (Next r)
  else None.

Lemma updates_trans d d1 d2 u1 u2 :
  updates f d d1 u1 -> updates f d1 d2 u2 ->
  updates f d d2 (fun j => match u2 j with Some e => Some e | None => u1 j end).
Proof.
  intros (_ & Ho1 & H1) (Hd2 & Ho2 & H2). split; [done|]. split; [by eapply outside_trans|]. intros j Hj. rewrite H2, H1 by done. by destruct (u2 j).
Qed.

Lemma updates_ext d d' u u' :
  updates f d d' u -> (forall j, 0 <= j < last_cluster -> u j = u' j) -> updates f d d' u'.
Proof. intros (Hd & Ho & Hu) E. split; [done|]. split; [done|]. intros j Hj. by rewrite Hu, E. Qed.

Lemma updates_refl d : fat_ok d -> updates f d d (fun _ => None).
Proof. done. Qed.

(** The three writes that link a run. *)
Lemma link_run d prev r n len :
  fat_ok d -> 2 <= r -> 0 < n -> r + n <= last_cluster -> n <= len ->
  match prev with Some p => 2 <= p < last_cluster /\ (p < r \/ r + n <= p) | None => True end ->
  exists d',
    (_ ← (match prev with Some prev => set f prev (Next r) | None => mret tt end);
     _ ← (if 1 <? n
          then if len <? n - 1 then panic
               else set_range f r (n - 1) ((fun i => Next (r + 1 + Z.of_nat i)) <$> seq 0 (Z.to_nat (n - 1)))
          else mret tt);
     _ ← set f (wsub 32 (wadd 32 r n) 1) End_;
     mret (r, n)) d = (Ok (r, n), d')
    /\ updates f d d' (alloc_entries prev r n).
Proof.
  intros Hd Hr Hn Hl Hlen Hprev. pose proof Hd as [].
  assert (Hlc : last_cluster = cluster_count f + 2) by done.
  assert (H1 : exists d1, (match prev with Some prev => set f prev (Next r) | None => mret tt end) d = (Ok tt, d1)
    /\ updates f d d1 (fun j => if bool_decide (prev = Some j) then Some (Next r) else None)).
  { destruct prev as [p|].
    - destruct Hprev as [Hp _]. destruct (set_updates f d p (Next r) Hd Hp) as (d1 & E & Hu); [simpl; lia|].
      exists d1. split; [done|]. eapply updates_ext; [done|]. intros j Hj. cbv beta.
      destruct (Z.eqb_spec j p) as [->|]; [by rewrite bool_decide_true|rewrite bool_decide_false; [done|congruence]].
    - exists d. split; [done|]. by apply updates_refl. }
  destruct H1 as (d1 & E1 & Hu1). rewrite (ST_bind_Ok _ _ _ _ _ E1). pose proof Hu1 as (Hd1 & _).
  set (es := (fun i => Next (r + 1 + Z.of_nat i)) <$> seq 0 (Z.to_nat (n - 1))).
  assert (Hles : Z.of_nat (length es) = n - 1) by (unfold es; rewrite length_fmap, length_seq; lia).
  assert (H2 : exists d2, (if 1 <? n then if len <? n - 1 then panic else set_range f r (n - 1) es else mret tt) d1 = (Ok tt, d2)
    /\ updates f d1 d2 (fun j => if (r <=? j) && (j <? r + n - 1) then Some (Next (j + 1)) else None)).
  { destruct (Z.ltb_spec 1 n).
    - rewrite (proj2 (Z.ltb_ge _ _)) by lia. rewrite <- Hles.
      destruct (set_range_updates d1 r es) as (d2 & E & Hu); [done|done|lia|lia| |].
      + apply Forall_fmap, Forall_forall. intros i Hi%elem_of_seq. simpl. lia.
      + exists d2. split; [done|]. eapply updates_ext; [done|]. intros j Hj. cbv beta.
        destruct (Z.leb_spec r j); [|done]. cbn [andb]. unfold es. rewrite list_lookup_fmap.
        destruct (Z.ltb_spec j (r + n - 1)).
        * rewrite lookup_seq_lt by lia. simpl. do 2 f_equal. lia.
        * by rewrite lookup_seq_ge by lia.
    - exists d1. split; [done|]. eapply updates_ext; [by apply updates_refl|]. intros j Hj. cbv beta.
      destruct (Z.leb_spec r j); [|done]. by rewrite (proj2 (Z.ltb_ge _ _)) by lia. }
  destruct H2 as (d2 & E2 & Hu2). rewrite (ST_bind_Ok _ _ _ _ _ E2). pose proof Hu2 as (Hd2 & _).
  rewrite wadd_small, wsub_small by (unfold fits; lia).
  destruct (set_updates f d2 (r + n - 1) End_ Hd2) as (d3 & E3 & Hu3); [lia|done|].
  rewrite (ST_bind_Ok _ _ _ _ _ E3). exists d3. split; [done|].
  eapply updates_ext; [exact (updates_trans _ _ _ _ _ (updates_trans _ _ _ _ _ Hu1 Hu2) Hu3)|].
  intros j Hj. unfold alloc_entries. cbv beta. destruct (j =? r + n - 1); [done|].
  by destruct ((r <=? j) && (j <? r + n - 1)).
Qed.

(** An allocation either links a run of at most [num] clusters, all of them
    free before and none below the hint, into a chain that ends in [End_] and is
    appended to [prev], and changes no other entry; or it fails with ENOSPC, the
    device unchanged, exactly when no cluster at or above the hint is free. *)
Lemma allocate_spec d prev hint num :
  fat_ok d -> 0 < num -> (forall h, hint = Some h -> 0 <= h) ->
  (forall p, prev = Some p -> 2 <= p < last_cluster /\ ent d p <> Free) ->
  let h := Z.max (default 2 hint) 2 in
  (exists r n d', allocate f prev hint num d = (Ok (r, n), d')
     /\ h <= r /\ 0 < n <= num /\ r + n <= last_cluster
     /\ (forall j, r <= j < r + n -> ent d j = Free)
     /\ updates f d d' (alloc_entries prev r n))
  \/ (allocate f prev hint num d = (Err ENOSPC, d) /\ forall j, h <= j < last_cluster -> ent d j <> Free).
Proof.
  intros Hd Hnum Hh Hprev h. unfold allocate.
  change (default allocable_start hint) with (default 2 hint). set (hi := default 2 hint) in *.
  assert (0 <= hi) by (unfold hi; destruct hint; simpl; [by apply Hh|lia]).
  set (len := Z.min ALLOCATE_BATCH_LEN num). assert (0 < len) by (unfold len, ALLOCATE_BATCH_LEN; lia).
  destruct (find_or_wrap_spec d hi num len) as (res & E & Hf); try done.
  destruct res as [[r n]|err|]; [left|right|done].
  - destruct Hf as (Hr & [Hn Hrun] & Hnn & Hnl & Hend). rewrite (ST_bind_Ok _ _ _ _ _ E).
    destruct (link_run d prev r n len) as (d' & El & Hu); [done|lia|lia|lia|lia| |].
    { destruct prev as [p|]; [|done]. destruct (Hprev p eq_refl) as [Hp Hpf]. split; [done|].
      destruct (Z.lt_ge_cases p r); [by left|]. right. destruct (Z.le_gt_cases (r + n) p); [done|].
      destruct Hpf. apply Hrun. lia. }
    exists r, n, d'. by split_and!.
  - destruct Hf as [-> Hnone]. split; [by rewrite (ST_bind_Err _ _ _ _ _ E)|done].
Qed.
End Alloc.

(** A free cluster below the hint is not found: the second search starts at the
    end of the table. *)
Example allocate_no_wrap :
  (allocate sample_fat None (Some 6) 1 sample_disk).1 = Err ENOSPC /\ FatTable.ent sample_fat sample_disk 4 = Free.
Proof. split; vm_compute; reflexivity. Qed.

(** A request for no cluster panics: the search steps by the length of a batch. *)
Example allocate_zero : (allocate sample_fat None None 0 sample_disk).1 = Panic.
Proof. vm_compute. reflexivity. Qed.
