(* ===== verification/FatFs.v ===== *)
(** * afat32: the mounted file system

    mizu/lib/afat32/src/fs.rs.  The state is the device with the fields of
    [FatFileSystem] that change; a critical section is one step of it. *)

From S2P Require Import Prelude Ksc Bytes FatTime FatRaw FatTable FatAlloc.

Import Errno.

Module FFs.

Record FatFileSystem (P : Type) := mk_fs {
  fat : FT.Fat;
  bpb : FRaw.BiosParameterBlock;
  fs_info : FRaw.FsInfoSector;
  current_status_flags : Z;
  time_provider : P;
}.
Arguments mk_fs {P}.
Arguments fat {P}.
Arguments bpb {P}.
Arguments fs_info {P}.
Arguments current_status_flags {P}.
Arguments time_provider {P}.

(** FsStatusFlags::load and store. *)
Definition load (slot : Z) : FRaw.FsStatusFlags := FRaw.flags_decode slot.
Definition store (flags : FRaw.FsStatusFlags) : Z := FRaw.flags_encode flags.

(** [?] on a result of nom. *)
Definition nom_error {A} (r : res unit A) : res Error A := map_err (fun _ => EIO) r.
(** A computation that panics or returns. *)
Definition total {A} (r : res unit A) : res Error A := map_err (fun _ => EIO) r.
Definition unwrap_res {A} (r : res Error A) : res Error A := match r with Err _ => Panic | r => r end.

Record FatStats := mk_stats { st_cluster_size : Z; st_total_clusters : Z; st_free_clusters : Z }.

Section Fs.
Context {D P : Type} `{Io D} `{Nom}.
Notation Fs := (FatFileSystem P).
Notation M := (ST (D * FatFileSystem P) Error).
Implicit Types (fs : Fs).

Definition new (device : D) (block_shift : Z) (tp : P) : res Error Fs :=
  let len := wshl 64 1 block_shift in
  b0 ← read_exact_at device 0 len;
  '(_, bs) ← nom_error (FRaw.boot_sector_parse b0);
  let bpb := FRaw.bpb bs in
  if negb (FRaw.is_fat32 bpb) then Err ENOSYS
  else
    b0 ← unwrap_res (read_exact_at device (FRaw.bytes_from_sectors bpb (FRaw.fs_info_sector bpb)) len);
    '(_, fis) ← nom_error (FRaw.fis_parse b0);
    n ← total (FRaw.total_clusters bpb);
    let fis := FRaw.fix_ fis n in
    fat ← total (FT.Fat_new bpb);
    mret (mk_fs fat bpb fis (FRaw.flags_encode (FRaw.status_flags bpb)) tp).

(** Operations on the device, and on the fields. *)
Definition on_device {A} (m : ST D Error A) : M A := fun '(d, fs) => let '(r, d') := m d in (r, (d', fs)).
Definition get_fs : M Fs := fun s => (Ok s.2, s).
Definition with_info (fs : Fs) (i : FRaw.FsInfoSector) : Fs :=
  mk_fs (fat fs) (bpb fs) i (current_status_flags fs) (time_provider fs).
Definition with_flags (fs : Fs) (fl : Z) : Fs := mk_fs (fat fs) (bpb fs) (fs_info fs) fl (time_provider fs).
Definition map_info (f : FRaw.FsInfoSector -> FRaw.FsInfoSector) : M unit :=
  fun '(d, fs) => (Ok tt, (d, with_info fs (f (fs_info fs)))).
Definition put_flags (fl : Z) : M unit := fun '(d, fs) => (Ok tt, (d, with_flags fs fl)).

(** Zeros in blocks of a page; every round writes at least one byte. *)
Fixpoint write_zeros_loop (fuel : nat) (start len : Z) : ST D Error unit :=
  match fuel with
  | O => mret tt
  | S fuel =>
      if 0 <? len then
        let write_size := Z.min len 4096 in
        _ ← write_all_at start (replicate (Z.to_nat write_size) 0);
        write_zeros_loop fuel (wadd 64 start write_size) (len - write_size)
      else mret tt
  end.
Definition write_zeros (start len : Z) : ST D Error unit := write_zeros_loop (Z.to_nat len) start len.

Definition alloc_cluster (prev_cluster : option Z) (num : Z) (zero : bool) : M (Z * Z) :=
  fs ← get_fs;
  let hint := FRaw.next_free_cluster (fs_info fs) in
  '(cluster, num) ← on_device (FT.allocate (fat fs) prev_cluster hint num);
  _ ← (if zero then
         off ← lift_res (total (FRaw.offset_from_cluster (bpb fs) cluster));
         on_device (write_zeros off (wmul 32 (FRaw.cluster_size (bpb fs)) num))
       else mret tt);
  _ ← map_info (fun i =>
        FRaw.map_free_clusters (FRaw.set_next_free_cluster i (wadd 32 cluster num)) (fun n => wsub 32 n num));
  mret (cluster, num).

(** The chain is followed with fuel; [None] when it runs out. *)
Definition truncate_cluster_chain (fuel : nat) (cluster : Z) : M (option unit) :=
  fs ← get_fs;
  num_free ← on_device (FT.truncate fuel (fat fs) cluster);
  match num_free with
  | Some num_free =>
      _ ← map_info (fun i => FRaw.map_free_clusters i (fun n => wadd 32 n num_free)); mret (Some tt)
  | None => mret None
  end.
Definition free_cluster_chain (fuel : nat) (cluster : Z) : M (option unit) :=
  fs ← get_fs;
  num_free ← on_device (FT.free fuel (fat fs) cluster);
  match num_free with
  | Some num_free =>
      _ ← map_info (fun i => FRaw.map_free_clusters i (fun n => wadd 32 n num_free)); mret (Some tt)
  | None => mret None
  end.

Fixpoint write_each (offset : Z) (bs : list (list Z)) : ST D Error unit :=
  match bs with [] => mret tt | b :: bs => _ ← write_all_at offset b; write_each offset bs end.

Definition flush_fs_info : M unit :=
  fs ← get_fs;
  let i := fs_info fs in
  _ ← map_info (fun i => FRaw.mk_fis (FRaw.free_cluster_count i) (FRaw.next_free_cluster i) false);
  if FRaw.dirty i then
    let '(prefix, suffix) := FRaw.to_bytes i in
    on_device (write_each (FRaw.bytes_from_sectors (bpb fs) (FRaw.fs_info_sector (bpb fs)))
                 [prefix; replicate 480 0; suffix])
  else mret tt.

#[export] Instance flags_eq_dec : EqDecision FRaw.FsStatusFlags.
Proof. solve_decision. Defined.

Definition set_dirty_flag (dirty : bool) : M unit :=
  fs ← get_fs;
  let flags := FRaw.status_flags (bpb fs) in
  let flags := FRaw.mk_flags (FRaw.flag_dirty flags || dirty) (FRaw.flag_io_error flags) in
  if bool_decide (flags = load (current_status_flags fs)) then mret tt
  else
    _ ← on_device (write_all_at 0x041 [FRaw.flags_encode flags]);
    put_flags (store flags).

Definition recalc_free_clusters : M Z :=
  fs ← get_fs;
  n ← on_device (FT.count_free (fat fs));
  let n := wrap 32 n in
  _ ← map_info (fun i => FRaw.set_free_cluster_count i n);
  mret n.

Definition flush : M unit := _ ← flush_fs_info; set_dirty_flag false.

Definition stats : M FatStats :=
  fs ← get_fs;
  n ← match FRaw.free_cluster_count (fs_info fs) with Some n => mret n | None => recalc_free_clusters end;
  mret (mk_stats (FRaw.cluster_size (bpb fs)) (FT.cluster_count (fat fs)) n).

Definition status fs : FRaw.FsStatusFlags := load (current_status_flags fs).
End Fs.
End FFs.

(** * afat32: the mounted file system, its properties *)
Import Errno FFs.

Section Fs.
Context {D P : Type} `{IoSpec D} `{NomSpec}.
Notation Fs := (FatFileSystem P).
Implicit Types (d : D) (fs : Fs).

(** ** Writing zeros *)
(** A device where the bytes from [off] on, [n] of them, have been zeroed. *)
Definition zeroed d d' (off n : Z) : Prop :=
  length (io_bytes d') = length (io_bytes d)
  /\ forall i : nat, io_bytes d' !! i =
       if (off <=? Z.of_nat i) && (Z.of_nat i <? off + n) then (fun _ => 0) <$> io_bytes d !! i else io_bytes d !! i.

Lemma zeroed_splice d d' off n :
  0 <= off -> 0 <= n -> off + n <= Z.of_nat (length (io_bytes d)) ->
  io_bytes d' = splice (io_bytes d) off (replicate (Z.to_nat n) 0) -> zeroed d d' off n.
Proof.
  intros Ho Hn Hl E. assert (Hr : Z.of_nat (length (replicate (Z.to_nat n) 0)) = n) by (rewrite length_replicate; lia).
  split; [rewrite E; apply length_splice; lia|]. intros i. rewrite E.
  rewrite lookup_splice by lia. rewrite Hr.
  destruct ((off <=? Z.of_nat i) && (Z.of_nat i <? off + n)) eqn:Eb; [|done].
  apply andb_true_iff in Eb as [?%Z.leb_le ?%Z.ltb_lt].
  rewrite lookup_replicate_2 by lia. destruct (lookup_lt_is_Some_2 (io_bytes d) i ltac:(lia)) as [b ->]. done.
Qed.

Lemma write_zeros_loop_spec fuel : forall d start len,
  0 <= start -> 0 <= len -> start + len <= Z.of_nat (length (io_bytes d)) ->
  Z.of_nat (length (io_bytes d)) < 2 ^ 64 -> (Z.to_nat len <= fuel)%nat ->
  exists d', write_zeros_loop fuel start len d = (Ok tt, d') /\ zeroed d d' start len.
Proof.
  induction fuel as [|fuel IH]; intros d start len Hs Hn Hl Hlim Hf.
  { exists d. split; [done|]. split; [done|]. intros i. replace len with 0 by lia. rewrite Z.add_0_r.
    destruct (Z.leb_spec start (Z.of_nat i)); [|done]. by rewrite (proj2 (Z.ltb_ge _ _)) by lia. }
  cbn [write_zeros_loop]. destruct (Z.ltb_spec 0 len).
  2: { exists d. split; [done|]. split; [done|]. intros i. replace len with 0 by lia. rewrite Z.add_0_r.
    destruct (Z.leb_spec start (Z.of_nat i)); [|done]. by rewrite (proj2 (Z.ltb_ge _ _)) by lia. }
  set (w := Z.min len 4096). assert (Hw : 0 < w <= len) by lia.
  destruct (io_write d start (replicate (Z.to_nat w) 0)) as (d1 & E1 & Hb); [done| | |].
  { apply Forall_replicate. unfold byte. lia. }
  { rewrite length_replicate. lia. }
  pose proof (zeroed_splice d d1 start w Hs ltac:(lia) ltac:(lia) Hb) as [Hl1 Hz1].
  rewrite (ST_bind_Ok _ _ _ _ _ E1), wadd_small by (unfold fits; lia).
  destruct (IH d1 (start + w) (len - w)) as (d' & E' & Hl' & Hz'); [lia|lia|lia|lia|lia|].
  exists d'. split; [done|]. split; [congruence|]. intros i. rewrite Hz', Hz1.
  destruct (Z.leb_spec start (Z.of_nat i)), (Z.ltb_spec (Z.of_nat i) (start + len)),
    (Z.leb_spec (start + w) (Z.of_nat i)), (Z.ltb_spec (Z.of_nat i) (start + w)),
    (Z.ltb_spec (Z.of_nat i) (start + w + (len - w))); simpl; try lia; try done;
    by destruct (io_bytes d !! i).
Qed.

Lemma zeroed_slice_other d d' off len off' n :
  zeroed d d' off len -> 0 <= off' -> off' + n <= off \/ off + len <= off' ->
  slice_at (io_bytes d') off' n = slice_at (io_bytes d) off' n.
Proof.
  intros [_ Hz] Ho Hd. apply list_eq. intros i. rewrite !lookup_slice_at by done.
  destruct (Z.ltb_spec (Z.of_nat i) n); [|done]. rewrite Hz.
  destruct (Z.leb_spec off (Z.of_nat (Z.to_nat off' + i))); [|done].
  by rewrite (proj2 (Z.ltb_ge _ _)) by lia.
Qed.

Lemma zeroed_slice_in d d' off len off' n :
  zeroed d d' off len -> 0 <= off -> 0 <= n -> off <= off' -> off' + n <= off + len ->
  off + len <= Z.of_nat (length (io_bytes d)) -> slice_at (io_bytes d') off' n = replicate (Z.to_nat n) 0.
Proof.
  intros [_ Hz] Ho Hn Hlo Hhi Hlen. apply list_eq. intros i. rewrite lookup_slice_at by lia.
  destruct (Z.ltb_spec (Z.of_nat i) n).
  - rewrite Hz, (proj2 (Z.leb_le _ _)), (proj2 (Z.ltb_lt _ _)), lookup_replicate_2 by lia. simpl.
    by destruct (lookup_lt_is_Some_2 (io_bytes d) (Z.to_nat off' + i)%nat ltac:(lia)) as [b ->].
  - symmetry. apply lookup_ge_None. rewrite length_replicate. lia.
Qed.

(** ** Mounted volumes *)
(** The tables lie in front of the data area, which lies on the device. *)
Record fs_ok d fs : Prop := {
  fs_fat : fat_ok (fat fs) d;
  fs_geo : geometry_ok (bpb fs);
  fs_count : FT.cluster_count (fat fs) = cluster_total (bpb fs);
  fs_behind : table_end (fat fs) <= data_start (bpb fs) * FRaw.bytes_per_sector (bpb fs);
  fs_dev : FRaw.total_sectors (bpb fs) * FRaw.bytes_per_sector (bpb fs) <= Z.of_nat (length (io_bytes d));
  fs_hint : forall h, FRaw.next_free_cluster (fs_info fs) = Some h -> 0 <= h;
}.

Definition cluster_data d fs (c : Z) : list Z :=
  slice_at (io_bytes d) (cluster_off (bpb fs) c) (FRaw.cluster_size (bpb fs)).

(** The clusters from [r] on, [n] of them, are one range of bytes. *)
Lemma run_bytes d fs r n :
  fs_ok d fs -> 2 <= r -> 0 < n -> r + n <= last_cluster (fat fs) ->
  let len := FRaw.cluster_size (bpb fs) * n in
  let off := cluster_off (bpb fs) r in
  0 <= len /\ table_end (fat fs) <= off /\ off + len <= Z.of_nat (length (io_bytes d))
  /\ forall c, cluster_off (bpb fs) c = off + (c - r) * FRaw.cluster_size (bpb fs).
Proof.
  intros [Hf Hg Hc Hb Hd _] Hr Hn Hl len off. unfold last_cluster in Hl. rewrite Hc in Hl.
  destruct (cluster_off_eq (bpb fs) r Hg ltac:(lia)) as (_ & Es & _ & _).
  destruct (cluster_off_eq (bpb fs) (r + n - 1) Hg ltac:(lia)) as (_ & _ & _ & Hend).
  destruct (first_data_sector_eq (bpb fs) Hg) as [_ Hds]. pose proof Hg as [_ Hbps Hspc _ _].
  unfold len, off. rewrite Es in *. unfold cluster_off in *. split_and!; [nia|nia|nia|]. intros c. nia.
Qed.

Lemma fs_ok_with_info d d' fs i :
  fs_ok d fs -> fat_ok (fat fs) d' -> length (io_bytes d') = length (io_bytes d) ->
  (forall h, FRaw.next_free_cluster i = Some h -> 0 <= h) -> fs_ok d' (with_info fs i).
Proof. intros [] Hf Hl Hh. split; simpl; try done. by rewrite Hl. Qed.

(** The zeroed data keeps the table. *)
Lemma zeroed_ent d d' fs off n c :
  fat_ok (fat fs) d -> zeroed d d' off n -> table_end (fat fs) <= off -> 0 <= c < last_cluster (fat fs) ->
  ent (fat fs) d' c = ent (fat fs) d c.
Proof.
  intros [] Hz Hb Hc. unfold ent, raw_at. rewrite (zeroed_slice_other d d' off n) by (unfold table_end, last_cluster in *; first [done|nia]).
  done.
Qed.

Lemma write_zeros_run d fs r n :
  fs_ok d fs -> 2 <= r -> 0 < n -> r + n <= last_cluster (fat fs) ->
  exists d', write_zeros (cluster_off (bpb fs) r) (FRaw.cluster_size (bpb fs) * n) d = (Ok tt, d')
    /\ fat_ok (fat fs) d' /\ length (io_bytes d') = length (io_bytes d)
    /\ (forall c, 0 <= c < last_cluster (fat fs) -> ent (fat fs) d' c = ent (fat fs) d c)
    /\ (forall c, r <= c < r + n -> cluster_data d' fs c = replicate (Z.to_nat (FRaw.cluster_size (bpb fs))) 0)
    /\ (forall c, 2 <= c < last_cluster (fat fs) -> c < r \/ r + n <= c -> cluster_data d' fs c = cluster_data d fs c).
Proof.
  intros Hok Hr Hn Hl. destruct (run_bytes d fs r n Hok Hr Hn Hl) as (Hlen & Hb & Hend & Hoff).
  pose proof (fs_fat _ _ Hok) as Hf. pose proof Hf as [].
  destruct (write_zeros_loop_spec (Z.to_nat (FRaw.cluster_size (bpb fs) * n)) d (cluster_off (bpb fs) r)
    (FRaw.cluster_size (bpb fs) * n)) as (d' & E & Hz); [unfold table_end in *; nia|done|done|done|done|].
  pose proof Hz as [Hlz _]. assert (0 <= FRaw.cluster_size (bpb fs)) by nia.
  assert (0 <= cluster_off (bpb fs) r) by (unfold table_end in *; nia).
  exists d'. split; [exact E|]. split; [by eapply fat_ok_same|]. split; [done|]. split_and!.
  - intros c Hc. by eapply zeroed_ent.
  - intros c Hc. unfold cluster_data. apply (zeroed_slice_in d d' (cluster_off (bpb fs) r) (FRaw.cluster_size (bpb fs) * n));
      rewrite ?(Hoff c); first [done|nia].
  - intros c Hc Hd. unfold cluster_data.
    pose proof (fs_geo _ _ Hok) as Hg. destruct (cluster_off_eq (bpb fs) c Hg) as (_ & _ & Hc0 & _).
    { rewrite <- (fs_count _ _ Hok). exact Hc. }
    apply (zeroed_slice_other d d' (cluster_off (bpb fs) r) (FRaw.cluster_size (bpb fs) * n)); [done|done|].
    rewrite (Hoff c). nia.
Qed.

(** The steps of an allocation, one after the other. *)
Lemma alloc_cluster_eq d d1 d' fs prev num r n off :
  FT.allocate (fat fs) prev (FRaw.next_free_cluster (fs_info fs)) num d = (Ok (r, n), d1) ->
  FRaw.offset_from_cluster (bpb fs) r = Ok off ->
  write_zeros off (wmul 32 (FRaw.cluster_size (bpb fs)) n) d1 = (Ok tt, d') ->
  alloc_cluster prev num true (d, fs) =
    (Ok (r, n), (d', with_info fs (FRaw.mk_fis ((fun m => wsub 32 m n) <$> FRaw.free_cluster_count (fs_info fs))
                                     (Some (wadd 32 r n)) true))).
Proof.
  intros E Eoff Ez. unfold alloc_cluster. rewrite (ST_bind_Ok _ _ _ fs (d, fs)) by done.
  erewrite ST_bind_Ok; [|unfold on_device; by rewrite E]. cbv beta iota.
  erewrite ST_bind_Ok; [|rewrite (ST_bind_Ok _ _ _ off (d1, fs)) by (unfold lift_res; by rewrite Eoff);
    unfold on_device; by rewrite Ez].
  erewrite ST_bind_Ok by reflexivity. unfold mret, ST_ret. do 3 f_equal.
  unfold FRaw.map_free_clusters, FRaw.set_next_free_cluster. simpl. by destruct (FRaw.free_cluster_count (fs_info fs)).
Qed.

(** C28: allocating zeroed clusters on a mounted volume either returns a run of
    clusters that were free, none of them below the hint, links them behind the
    previous cluster, fills them with zeros, counts them off and moves the hint
    behind them, every other entry of the table and the data of every other
    cluster unchanged; or it fails with ENOSPC, the volume unchanged, when no
    cluster from the hint on is free. *)
Theorem alloc_cluster_spec d fs prev num :
  fs_ok d fs -> 0 < num -> FRaw.cluster_size (bpb fs) * num < 2 ^ 32 ->
  (forall p, prev = Some p -> 2 <= p < last_cluster (fat fs) /\ ent (fat fs) d p <> FT.Free) ->
  let i := fs_info fs in
  let h := Z.max (default 2 (FRaw.next_free_cluster i)) 2 in
  (exists r n d' fs', alloc_cluster prev num true (d, fs) = (Ok (r, n), (d', fs')) /\ fs_ok d' fs'
     /\ fs' = with_info fs (FRaw.mk_fis ((fun m => wsub 32 m n) <$> FRaw.free_cluster_count i) (Some (r + n)) true)
     /\ h <= r /\ 0 < n <= num /\ r + n <= last_cluster (fat fs)
     /\ (forall c, r <= c < r + n -> ent (fat fs) d c = FT.Free)
     /\ (forall c, 0 <= c < last_cluster (fat fs) ->
          ent (fat fs) d' c = default (ent (fat fs) d c) (alloc_entries prev r n c))
     /\ (forall c, r <= c < r + n -> cluster_data d' fs c = replicate (Z.to_nat (FRaw.cluster_size (bpb fs))) 0)
     /\ (forall c, 2 <= c < last_cluster (fat fs) -> c < r \/ r + n <= c -> cluster_data d' fs c = cluster_data d fs c))
  \/ (alloc_cluster prev num true (d, fs) = (Err ENOSPC, (d, fs))
      /\ forall c, h <= c < last_cluster (fat fs) -> ent (fat fs) d c <> FT.Free).
Proof.
  intros Hok Hnum Hsz Hprev i h. pose proof (fs_fat _ _ Hok) as Hf. pose proof (fs_geo _ _ Hok) as Hg.
  pose proof (fs_count _ _ Hok) as Hcount. assert (Hlast : last_cluster (fat fs) = cluster_total (bpb fs) + 2) by (unfold last_cluster; lia).
  destruct (allocate_spec (fat fs) d prev (FRaw.next_free_cluster i) num Hf Hnum (fs_hint _ _ Hok) Hprev)
    as [(r & n & d1 & E & Hr & Hn & Hl & Hfree & Hd1 & Ho & Hu)|[E Hnone]]; [left|right].
  2: { split; [|done]. unfold alloc_cluster. rewrite (ST_bind_Ok _ _ _ fs (d, fs)) by done. fold i.
       erewrite ST_bind_Err; [done|]. unfold on_device. by rewrite E. }
  fold h in Hr. assert (Hok1 : fs_ok d1 fs) by (destruct Hok; split; try done; by rewrite (proj1 Ho)).
  destruct (write_zeros_run d1 fs r n Hok1 ltac:(lia) ltac:(lia) Hl) as (d' & Ez & Hfd & Hlen & Hent & Hzero & Hother).
  destruct (cluster_off_eq (bpb fs) r Hg ltac:(lia)) as (Eoff & Esz & _ & _).
  destruct (run_bytes d fs r n Hok ltac:(lia) ltac:(lia) Hl) as (Hlen0 & _ & _ & _).
  rewrite <- (wmul_small 32 (FRaw.cluster_size (bpb fs)) n) in Ez by (unfold fits; nia).
  pose proof (alloc_cluster_eq d d1 d' fs prev num r n _ E Eoff Ez) as Ea.
  rewrite wadd_small in Ea by (destruct Hf; unfold fits, last_cluster in *; lia).
  eexists r, n, d', _. split; [exact Ea|]. split; [apply (fs_ok_with_info d1); try done; intros hh [= <-]; lia|].
  split; [done|]. split_and!; try done; try lia.
  - intros c Hc. rewrite Hent by done. by apply Hu.
  - intros c Hc Hd. rewrite Hother by done. unfold cluster_data. apply Ho.
    + apply (cluster_off_eq (bpb fs) c Hg). lia.
    + right. by destruct (run_bytes d fs c 1 Hok ltac:(lia) ltac:(lia) ltac:(lia)) as (_ & Hb' & _).
Qed.

(** ** Flushing the FSInfo sector *)
Lemma write_each_spec off k bs : forall d,
  0 <= off -> off + k <= Z.of_nat (length (io_bytes d)) ->
  Forall (fun b => Forall byte b /\ Z.of_nat (length b) <= k) bs ->
  exists d', write_each off bs d = (Ok tt, d') /\ length (io_bytes d') = length (io_bytes d)
    /\ (forall off' n, 0 <= off' -> off' + n <= off -> slice_at (io_bytes d') off' n = slice_at (io_bytes d) off' n)
    /\ (forall b, last bs = Some b -> slice_at (io_bytes d') off (Z.of_nat (length b)) = b).
Proof.
  induction bs as [|b bs IH]; intros d Ho Hk Hbs; [by exists d|].
  apply Forall_cons in Hbs as [[Hb Hlb] Hbs]. cbn [write_each].
  destruct (io_write d off b) as (d1 & E1 & Hd1); [done|done|lia|]. rewrite (ST_bind_Ok _ _ _ _ _ E1).
  assert (Hl1 : length (io_bytes d1) = length (io_bytes d)) by (rewrite Hd1; apply length_splice; lia).
  destruct (IH d1) as (d' & E' & Hl' & Hs' & Hlast'); [done|lia|done|]. exists d'. split; [done|].
  split; [congruence|]. split.
  - intros off' n Ho' Hn. rewrite Hs', Hd1 by done. apply slice_splice_other; lia.
  - intros b' Hb'. destruct bs as [|b2 bs]; [|by apply Hlast'].
    injection Hb' as <-. injection E' as <-. rewrite Hd1. apply slice_splice_same; lia.
Qed.

Lemma to_bytes_shape (i : FRaw.FsInfoSector) :
  let '(pre, suf) := FRaw.to_bytes i in
  Forall byte pre /\ Forall byte suf /\ length pre = 4%nat /\ length suf = 28%nat /\ take 4 suf = le_bytes 4 FRaw.STRUC_SIG.
Proof.
  unfold FRaw.to_bytes. split_and!; [apply le_bytes_byte| |apply length_le_bytes|done|done].
  rewrite !Forall_app. split_and!; try apply le_bytes_byte. apply Forall_replicate. unfold byte. lia.
Qed.

(** A sector that starts with the signature of the second part is not accepted. *)
Lemma fis_parse_swapped i : take 4 i = le_bytes 4 FRaw.STRUC_SIG \/ (length i < 4)%nat -> FRaw.fis_parse i = Err tt.
Proof.
  intros Hi. unfold FRaw.fis_parse. rewrite nom_tag_spec, bool_decide_false; [done|].
  rewrite length_le_bytes. destruct Hi as [->|Hi]; [vm_compute; congruence|].
  intros E%(f_equal length). rewrite length_take, length_le_bytes in E. lia.
Qed.

Lemma new_inv d shift (tp : P) fs :
  new d shift tp = Ok fs ->
  exists b0 rest bs, read_exact_at d 0 (wshl 64 1 shift) = Ok b0 /\ FRaw.boot_sector_parse b0 = Ok (rest, bs)
    /\ FRaw.is_fat32 (FRaw.bpb bs) = true /\ bpb fs = FRaw.bpb bs.
Proof.
  unfold new, mbind, res_bind, nom_error, total. destruct (read_exact_at d 0 _) as [b0|err|]; try done.
  destruct (FRaw.boot_sector_parse b0) as [[rest bs]|err|] eqn:Eb; try done. simpl.
  destruct (FRaw.is_fat32 (FRaw.bpb bs)) eqn:Ef; [simpl|done].
  destruct (unwrap_res _) as [b1|err|]; try done. destruct (FRaw.fis_parse b1) as [[rest1 fis]|err|]; try done. simpl.
  destruct (FRaw.total_clusters _); try done. simpl. destruct (FT.Fat_new _); try done. intros [= <-].
  by exists b0, rest, bs.
Qed.

Lemma flush_fs_info_eq d d' fs :
  FRaw.dirty (fs_info fs) = true ->
  write_each (FRaw.bytes_from_sectors (bpb fs) (FRaw.fs_info_sector (bpb fs)))
    [(FRaw.to_bytes (fs_info fs)).1; replicate 480 0; (FRaw.to_bytes (fs_info fs)).2] d = (Ok tt, d') ->
  exists fs', flush_fs_info (d, fs) = (Ok tt, (d', fs')).
Proof.
  intros Hdirty E. eexists. unfold flush_fs_info. rewrite (ST_bind_Ok _ _ _ fs (d, fs)) by done.
  erewrite ST_bind_Ok by reflexivity. rewrite Hdirty. destruct (FRaw.to_bytes (fs_info fs)) as [pre suf].
  unfold on_device. cbn [fst snd] in E. by rewrite E.
Qed.

(** C38: writing back a changed FSInfo sector makes the volume unmountable: its
    three parts are all written to the start of the sector, so that the signature
    of the second part replaces the leading one and the next mount fails with
    EIO. *)
Theorem flush_breaks_mount d shift (tp : P) fs0 fs :
  new d shift tp = Ok fs0 -> bpb fs = bpb fs0 -> FRaw.dirty (fs_info fs) = true -> 0 <= shift < 64 ->
  let off := FRaw.bytes_from_sectors (bpb fs) (FRaw.fs_info_sector (bpb fs)) in
  2 ^ shift <= off -> off + Z.max (2 ^ shift) 480 <= Z.of_nat (length (io_bytes d)) ->
  exists d' fs', flush_fs_info (d, fs) = (Ok tt, (d', fs')) /\ new d' shift tp = Err EIO.
Proof.
  intros Hnew Hbpb Hdirty Hsh off Hlo Hhi. assert (0 < 2 ^ shift < 2 ^ 64) by (split; [lia|apply Z.pow_lt_mono_r; lia]).
  assert (Hlen : wshl 64 1 shift = 2 ^ shift) by (rewrite wshl_small by (unfold fits; lia); lia).
  pose proof (to_bytes_shape (fs_info fs)) as Hsh'. destruct (FRaw.to_bytes (fs_info fs)) as [pre suf] eqn:Et.
  destruct Hsh' as (Hbp & Hbsuf & Hlp & Hlsuf & Hsig).
  destruct (write_each_spec off 480 [pre; replicate 480 0; suf] d) as (d' & E & Hl & Hs & Hlast); [lia|lia| |].
  { repeat apply Forall_cons_2; [..|by apply Forall_nil]; (split; [|rewrite ?length_replicate; lia]); [done| |done].
    apply Forall_replicate. unfold byte. lia. }
  destruct (flush_fs_info_eq d d' fs Hdirty) as [fs' Ef]; [by rewrite Et|]. exists d', fs'. split; [done|].
  apply new_inv in Hnew as (b0 & rest & bs & Er & Eb & Ef32 & Ebpb). rewrite Hlen, io_read in Er by lia. injection Er as Er.
  unfold new. rewrite Hlen, io_read, Hs, Er by lia. unfold mbind, res_bind, nom_error. rewrite Eb. simpl map_err.
  cbv beta iota. rewrite Ef32. simpl negb. cbv iota. rewrite <- Ebpb, <- Hbpb. fold off. rewrite io_read by lia.
  cbn [unwrap_res]. cbv beta iota. rewrite fis_parse_swapped; [done|].
  specialize (Hlast suf eq_refl). rewrite Hlsuf in Hlast. rewrite <- Hsig, <- Hlast.
  destruct (Z.lt_ge_cases (2 ^ shift) 4).
  - right. unfold slice_at. rewrite length_take. lia.
  - left. unfold slice_at. rewrite !take_take. f_equal. lia.
Qed.
End Fs.

(** *** A volume of six clusters of 32 bytes *)
Definition tiny_bpb : FRaw.BiosParameterBlock :=
  FRaw.mk_bpb 32 1 1 1 0 0 0xF8 0 1 1 0 8 1 0 0 2 1 0 128 0 0x29 1 (replicate 11 32) (replicate 8 32).
Definition tiny_fs : FatFileSystem FTime.NullTimeProvider :=
  mk_fs (FT.mk_fat 32 6 1) tiny_bpb (FRaw.mk_fis (Some 4) (Some 4) false) 0 FTime.null_time_provider.
Definition tiny_disk : RamDisk.
Proof.
  refine (mk_disk (replicate 32 0 ++ mjoin (le_bytes 4 <$> [0x0FFFFFF8; 0x0FFFFFFF; 3; 0x0FFFFFFF; 0; 0; 0; 0]) ++ replicate 192 7) _).
  apply (bool_decide_unpack (Forall byte _)). vm_compute. exact I.
Defined.

Lemma tiny_ok : fs_ok tiny_disk tiny_fs.
Proof.
  split.
  - split; vm_compute; repeat split; congruence.
  - split; [split; try (unfold fits; simpl; lia); reflexivity|reflexivity|reflexivity|vm_compute; congruence|vm_compute; congruence].
  - reflexivity.
  - vm_compute. congruence.
  - vm_compute. congruence.
  - intros h [= <-]. lia.
Qed.

Lemma alloc_cluster_spec_witness :
  exists d' fs', alloc_cluster (Some 3) 2 true (tiny_disk, tiny_fs) = (Ok (4, 2), (d', fs')) /\ fs_ok d' fs'
    /\ cluster_data d' tiny_fs 5 = replicate 32 0 /\ cluster_data d' tiny_fs 6 = cluster_data tiny_disk tiny_fs 6.
Proof.
  assert (Hrn : (alloc_cluster (Some 3) 2 true (tiny_disk, tiny_fs)).1 = Ok (4, 2)) by (vm_compute; reflexivity).
  destruct (alloc_cluster_spec tiny_disk tiny_fs (Some 3) 2) as [(r & n & d' & fs' & E & Hok & _ & _ & _ & _ & _ & _ & Hz & Ho)|[E _]].
  - apply tiny_ok.
  - lia.
  - vm_compute. reflexivity.
  - intros p [= <-]. split; [vm_compute; split; congruence|vm_compute; congruence].
  - rewrite E in Hrn. injection Hrn as -> ->. exists d', fs'. split; [exact E|]. split; [exact Hok|].
    split; [apply (Hz 5); lia|apply (Ho 6); [vm_compute; split; congruence|lia]].
  - rewrite E in Hrn. discriminate Hrn.
Defined.

(** *** A volume with a boot sector and an FSInfo sector of 512 bytes *)
Definition mount_bpb : FRaw.BiosParameterBlock :=
  FRaw.mk_bpb 512 1 2 1 0 0 0xF8 0 1 1 0 8 1 0 0 2 1 0 128 0 0x29 1 (replicate 11 32) (replicate 8 32).
Definition mount_info : FRaw.FsInfoSector := FRaw.mk_fis (Some 4) (Some 3) true.
Definition mount_disk : RamDisk.
Proof.
  refine (mk_disk (replicate 3 0 ++ replicate 8 0 ++ bpb_layout mount_bpb (replicate 12 0) [0] ++ replicate 420 0 ++ FRaw.BOOT_SIG
    ++ (FRaw.to_bytes mount_info).1 ++ replicate 480 0 ++ (FRaw.to_bytes mount_info).2 ++ replicate 3072 0) _).
  apply (bool_decide_unpack (Forall byte _)). vm_compute. exact I.
Defined.
Definition mounted (dirty : bool) : FatFileSystem FTime.NullTimeProvider :=
  mk_fs (FT.mk_fat 1024 5 1) (bpb_kept mount_bpb) (FRaw.mk_fis (Some 4) (Some 3) dirty) 0 FTime.null_time_provider.

Lemma flush_breaks_mount_witness :
  exists d' fs', flush_fs_info (mount_disk, mounted true) = (Ok tt, (d', fs'))
    /\ new d' 9 FTime.null_time_provider = Err EIO.
Proof.
  apply (flush_breaks_mount mount_disk 9 FTime.null_time_provider (mounted false) (mounted true));
    [vm_compute; reflexivity|reflexivity|reflexivity|lia|vm_compute; congruence|vm_compute; congruence].
Defined.
