(* ===== verification/FatDirent.v ===== *)
(** * afat32: directory entries

    mizu/lib/afat32/src/dirent.rs.  A name is a list of Unicode scalar values, a
    raw short name a list of eleven bytes. *)

From S2P Require Import Prelude Ksc Bytes FatTime FatRaw.

Import Errno.

(** Rust's [char::to_uppercase], a table of the Unicode standard. *)
Class Unicode := { to_uppercase : Z -> list Z }.
Definition ascii_upper (c : Z) : Z := if (97 <=? c) && (c <=? 122) then c - 32 else c.
Definition ascii_lower (c : Z) : Z := if (65 <=? c) && (c <=? 90) then c + 32 else c.
(** Its part for ASCII. *)
#[export] Instance unicode_ascii : Unicode := { to_uppercase c := [ascii_upper c] }.

Module FDirent.

(** LossyOemCpConverter *)
Definition oem_decode (oem_char : Z) : Z := if oem_char <=? 0x7F then oem_char else 0xFFFD.
Definition oem_encode (uni_char : Z) : option Z := if uni_char <=? 0x7F then Some uni_char else None.

(** FileAttributes, as its bits *)
Definition READ_ONLY : Z := 0x01.
Definition HIDDEN : Z := 0x02.
Definition SYSTEM : Z := 0x04.
Definition VOLUME_ID : Z := 0x08.
Definition DIRECTORY : Z := 0x10.
Definition ARCHIVE : Z := 0x20.
Definition LFN : Z := Z.lor (Z.lor READ_ONLY HIDDEN) (Z.lor SYSTEM VOLUME_ID).
Definition all_attrs : Z := 0x3F.
Definition from_bits_truncate (b : Z) : Z := Z.land b all_attrs.
Definition contains (attrs a : Z) : bool := Z.land attrs a =? a.

Definition DIR_ENTRY_SIZE : Z := 32.
Definition DIR_ENTRY_DELETED_FLAG : Z := 0xE5.
Definition DIR_ENTRY_REALLY_E5_FLAG : Z := 0x05.
Definition SFN_SIZE : Z := 11.
Definition SFN_PADDING : Z := 32.
Definition LFN_PART_LEN : Z := 13.
Definition LFN_ENTRY_LAST_FLAG : Z := 0x40.

(** [rposition] of a byte that satisfies [p], plus one; zero when there is none. *)
Fixpoint rlen (p : Z -> bool) (bs : list Z) : nat :=
  match bs with
  | [] => 0
  | b :: bs => match rlen p bs with O => if p b then 1 else 0 | S n => S (S n) end
  end.

(** ** ShortName *)
Record ShortName := mk_sn { sn_name : list Z; sn_len : Z }.

Definition ShortName_new (raw_name : list Z) : ShortName :=
  let name_len := Z.of_nat (rlen (fun x => negb (x =? SFN_PADDING)) (slice_at raw_name 0 8)) in
  let ext_len := Z.of_nat (rlen (fun x => negb (x =? SFN_PADDING)) (slice_at raw_name 8 3)) in
  let name := splice (replicate 12 SFN_PADDING) 0 (slice_at raw_name 0 name_len) in
  let '(name, total_len) :=
    if 0 <? ext_len
    then (splice (splice name name_len [46]) (name_len + 1) (slice_at raw_name 8 ext_len), name_len + 1 + ext_len)
    else (name, name_len) in
  let name := if bool_decide (name !! 0%nat = Some DIR_ENTRY_REALLY_E5_FLAG) then <[0%nat := 0xE5]> name else name in
  mk_sn name total_len.

Definition as_bytes (s : ShortName) : list Z := slice_at (sn_name s) 0 (sn_len s).
Definition sn_to_string (s : ShortName) : list Z := oem_decode <$> as_bytes s.
Definition eq_ignore_case `{Unicode} (s : ShortName) (name : list Z) : bool :=
  bool_decide ((oem_decode <$> as_bytes s) ≫= to_uppercase = name ≫= to_uppercase).

(** ** DirFileEntryData *)
Record DirFileEntryData := mk_file {
  name : list Z; attrs : Z; reserved_0 : Z; create_time_0 : Z; create_time_1 : Z; create_date : Z;
  access_date : Z; first_cluster_hi : Z; modify_time : Z; modify_date : Z; first_cluster_lo : Z; size : Z;
}.
Implicit Types (e : DirFileEntryData).

Definition file_new (n : list Z) (a : Z) : DirFileEntryData := mk_file n a 0 0 0 0 0 0 0 0 0 0.
Definition with_name e (n : list Z) : DirFileEntryData :=
  mk_file n (attrs e) (reserved_0 e) (create_time_0 e) (create_time_1 e) (create_date e) (access_date e)
    (first_cluster_hi e) (modify_time e) (modify_date e) (first_cluster_lo e) (size e).
Definition renamed e (new_name : list Z) : DirFileEntryData := with_name e new_name.

Definition is_dir e : bool := contains (attrs e) DIRECTORY.
Definition is_file e : bool := negb (is_dir e).
Definition lowercase_basename e : bool := negb (Z.land (reserved_0 e) (2 ^ 3) =? 0).
Definition lowercase_ext e : bool := negb (Z.land (reserved_0 e) (2 ^ 4) =? 0).
Definition lowercase_name e : ShortName :=
  let n := name e in
  let n := if lowercase_basename e then (ascii_lower <$> take 8 n) ++ drop 8 n else n in
  let n := if lowercase_ext e then take 8 n ++ (ascii_lower <$> drop 8 n) else n in
  ShortName_new n.

Definition first_cluster e : option Z :=
  let cluster := Z.lor (wshl 32 (first_cluster_hi e) 16) (first_cluster_lo e) in
  if cluster =? 0 then None else Some cluster.
Definition set_first_cluster e (cluster : option Z) : DirFileEntryData :=
  let n := default 0 cluster in
  mk_file (name e) (attrs e) (reserved_0 e) (create_time_0 e) (create_time_1 e) (create_date e) (access_date e)
    (wrap 16 (Z.shiftr n 16)) (modify_time e) (modify_date e) (wrap 16 (Z.land n 0xFFFF)) (size e).
Definition size_opt e : option Z := if is_file e then Some (size e) else None.
Definition set_size e (n : Z) : DirFileEntryData :=
  mk_file (name e) (attrs e) (reserved_0 e) (create_time_0 e) (create_time_1 e) (create_date e) (access_date e)
    (first_cluster_hi e) (modify_time e) (modify_date e) (first_cluster_lo e) n.

Definition created e : FTime.DateTime := FTime.DateTime_decode (create_date e) (create_time_1 e) (create_time_0 e).
Definition accessed e : FTime.Date := FTime.Date_decode (access_date e).
Definition modified e : FTime.DateTime := FTime.DateTime_decode (modify_date e) (modify_time e) 0.
Definition set_created e (dt : FTime.DateTime) : DirFileEntryData :=
  let '(t1, t0) := FTime.Time_encode (FTime.time dt) in
  mk_file (name e) (attrs e) (reserved_0 e) t0 t1 (FTime.Date_encode (FTime.date dt)) (access_date e)
    (first_cluster_hi e) (modify_time e) (modify_date e) (first_cluster_lo e) (size e).
Definition set_accessed e (d : FTime.Date) : DirFileEntryData :=
  mk_file (name e) (attrs e) (reserved_0 e) (create_time_0 e) (create_time_1 e) (create_date e) (FTime.Date_encode d)
    (first_cluster_hi e) (modify_time e) (modify_date e) (first_cluster_lo e) (size e).
Definition set_modified e (dt : FTime.DateTime) : DirFileEntryData :=
  mk_file (name e) (attrs e) (reserved_0 e) (create_time_0 e) (create_time_1 e) (create_date e) (access_date e)
    (first_cluster_hi e) (FTime.Time_encode (FTime.time dt)).1 (FTime.Date_encode (FTime.date dt))
    (first_cluster_lo e) (size e).

Definition file_to_bytes e : list Z :=
  name e ++ [attrs e; reserved_0 e; create_time_0 e] ++ le_bytes 2 (create_time_1 e) ++ le_bytes 2 (create_date e)
  ++ le_bytes 2 (access_date e) ++ le_bytes 2 (first_cluster_hi e) ++ le_bytes 2 (modify_time e)
  ++ le_bytes 2 (modify_date e) ++ le_bytes 2 (first_cluster_lo e) ++ le_bytes 4 (size e).

(** Indexing an array that is never empty. *)
Definition byte_0 (n : list Z) : Z := default 0 (n !! 0%nat).
Definition file_is_deleted e : bool := byte_0 (name e) =? DIR_ENTRY_DELETED_FLAG.
Definition file_set_deleted e : DirFileEntryData := with_name e (<[0%nat := DIR_ENTRY_DELETED_FLAG]> (name e)).
Definition file_is_end e : bool := byte_0 (name e) =? 0.
Definition is_volume e : bool := contains (attrs e) VOLUME_ID.

(** ** DirLfnEntryData *)
Record DirLfnEntryData := mk_lfn {
  order : Z; name_0 : list Z; lfn_attrs : Z; entry_type : Z; checksum : Z; name_1 : list Z; lfn_reserved_0 : Z; name_2 : list Z;
}.
Implicit Types (l : DirLfnEntryData).

Definition lfn_new (o c : Z) : DirLfnEntryData := mk_lfn o (replicate 5 0) LFN 0 c (replicate 6 0) 0 (replicate 2 0).
Definition copy_name_from_slice l (lfn_part : list Z) : DirLfnEntryData :=
  mk_lfn (order l) (slice_at lfn_part 0 5) (lfn_attrs l) (entry_type l) (checksum l) (slice_at lfn_part 5 6)
    (lfn_reserved_0 l) (slice_at lfn_part 11 2).
(** The thirteen units that are copied. *)
Definition copy_name_to_slice l : list Z := name_0 l ++ name_1 l ++ name_2 l.
Definition lfn_to_bytes l : list Z :=
  [order l] ++ mjoin (le_bytes 2 <$> name_0 l) ++ [lfn_attrs l; entry_type l; checksum l]
  ++ mjoin (le_bytes 2 <$> name_1 l) ++ le_bytes 2 (lfn_reserved_0 l) ++ mjoin (le_bytes 2 <$> name_2 l).
Definition lfn_is_deleted l : bool := order l =? DIR_ENTRY_DELETED_FLAG.
Definition lfn_set_deleted l : DirLfnEntryData :=
  mk_lfn DIR_ENTRY_DELETED_FLAG (name_0 l) (lfn_attrs l) (entry_type l) (checksum l) (name_1 l) (lfn_reserved_0 l) (name_2 l).
Definition lfn_is_end l : bool := order l =? 0.

(** ** DirEntryData *)
Inductive DirEntryData := File (file : DirFileEntryData) | Lfn (lfn : DirLfnEntryData).

Definition to_bytes (d : DirEntryData) : list Z := match d with File f => file_to_bytes f | Lfn l => lfn_to_bytes l end.
Definition is_deleted (d : DirEntryData) : bool := match d with File f => file_is_deleted f | Lfn l => lfn_is_deleted l end.
Definition set_deleted (d : DirEntryData) : DirEntryData :=
  match d with File f => File (file_set_deleted f) | Lfn l => Lfn (lfn_set_deleted l) end.
Definition is_end (d : DirEntryData) : bool := match d with File f => file_is_end f | Lfn l => lfn_is_end l end.

(** [chunks_exact(2)] as little-endian words. *)
Fixpoint words2 (bs : list Z) : list Z :=
  match bs with a :: b :: bs => of_le [a; b] :: words2 bs | _ => [] end.

Section Parse.
Context `{Nom}.

Fixpoint nom_les (k : nat) (i : list Z) : res unit (list Z * list Z) :=
  match k with
  | O => Ok (i, [])
  | S k => '(i, x) ← nom_le 2 i; '(i, xs) ← nom_les k i; Ok (i, x :: xs)
  end.

Definition parse (i : list Z) : res unit (list Z * DirEntryData) :=
  '(i, nm) ← nom_take 11 i;
  '(i, a) ← nom_le 1 i;
  let a := from_bits_truncate a in
  if contains a LFN then
    '(i, et) ← nom_le 1 i;
    '(i, ck) ← nom_le 1 i;
    '(i, n1) ← nom_les 6 i;
    '(i, r0) ← nom_le 2 i;
    '(i, n2) ← nom_les 2 i;
    Ok (i, Lfn (mk_lfn (byte_0 nm) (words2 (drop 1 nm)) a et ck n1 r0 n2))
  else
    '(i, r0) ← nom_le 1 i;
    '(i, ct0) ← nom_le 1 i;
    '(i, ct1) ← nom_le 2 i;
    '(i, cd) ← nom_le 2 i;
    '(i, ad) ← nom_le 2 i;
    '(i, hi) ← nom_le 2 i;
    '(i, mt) ← nom_le 2 i;
    '(i, md) ← nom_le 2 i;
    '(i, lo) ← nom_le 2 i;
    '(i, sz) ← nom_le 4 i;
    Ok (i, File (mk_file nm a r0 ct0 ct1 cd ad hi mt md lo sz)).
End Parse.

(** ** DirEntryEditor *)
#[export] Instance Date_eq_dec : EqDecision FTime.Date.
Proof. solve_decision. Defined.
#[export] Instance Time_eq_dec : EqDecision FTime.Time.
Proof. solve_decision. Defined.
#[export] Instance DateTime_eq_dec : EqDecision FTime.DateTime.
Proof. solve_decision. Defined.

Record DirEntryEditor := mk_editor { data : DirFileEntryData; pos : Z; dirty : bool }.
Implicit Types (ed : DirEntryEditor).

Definition editor_new (d : DirFileEntryData) (p : Z) : DirEntryEditor := mk_editor d p false.
Definition ed_set_first_cluster (c : option Z) ed : DirEntryEditor :=
  if bool_decide (c = first_cluster (data ed)) then ed else mk_editor (set_first_cluster (data ed) c) (pos ed) true.
Definition ed_set_size (n : Z) ed : DirEntryEditor :=
  match size_opt (data ed) with
  | Some m => if n =? m then ed else mk_editor (set_size (data ed) n) (pos ed) true
  | None => ed
  end.
Definition ed_set_created (dt : FTime.DateTime) ed : DirEntryEditor :=
  if bool_decide (dt = created (data ed)) then ed else mk_editor (set_created (data ed) dt) (pos ed) true.
Definition ed_set_accessed (dt : FTime.Date) ed : DirEntryEditor :=
  if bool_decide (dt = accessed (data ed)) then ed else mk_editor (set_accessed (data ed) dt) (pos ed) true.
Definition ed_set_modified (dt : FTime.DateTime) ed : DirEntryEditor :=
  if bool_decide (dt = modified (data ed)) then ed else mk_editor (set_modified (data ed) dt) (pos ed) true.

Section Device.
Context {D : Type} `{Io D} `{Nom}.

(** The editor after the flush: a failed write leaves it dirty. *)
Definition ed_flush ed : ST D Error DirEntryEditor :=
  if dirty ed then
    _ ← write_all_at (pos ed) (file_to_bytes (data ed));
    mret (mk_editor (data ed) (pos ed) false)
  else mret ed.
End Device.

(** ** DirEntry *)
(** UTF-16, as [char::decode_utf16]: [None] is an unpaired surrogate. *)
Fixpoint decode_utf16 (us : list Z) : list (option Z) :=
  match us with
  | [] => []
  | u :: us =>
      if negb (Z.land u 0xF800 =? 0xD800) then Some u :: decode_utf16 us
      else if 0xDC00 <=? u then None :: decode_utf16 us
      else match us with
           | [] => [None]
           | u2 :: us2 =>
               if (u2 <? 0xDC00) || (0xDFFF <? u2) then None :: decode_utf16 us
               else Some (wadd 32 (Z.lor (wshl 32 (Z.land u 0x3FF) 10) (Z.land u2 0x3FF)) 0x10000) :: decode_utf16 us2
           end
  end.
Definition from_utf16_lossy (us : list Z) : list Z := default 0xFFFD <$> decode_utf16 us.

Record DirEntry := mk_dirent {
  de_data : DirFileEntryData; de_short_name : ShortName; de_lfn_utf16 : list Z; entry_pos : Z; offset_range : Z * Z;
}.
Implicit Types (de : DirEntry).

Definition short_file_name de : list Z := sn_to_string (de_short_name de).
Definition long_file_name_as_ucs2_units de : option (list Z) :=
  if (0 <? length (de_lfn_utf16 de))%nat then Some (de_lfn_utf16 de) else None.
Definition file_name de : list Z :=
  match long_file_name_as_ucs2_units de with
  | Some lfn => from_utf16_lossy lfn
  | None => sn_to_string (lowercase_name (de_data de))
  end.
Definition editor de : DirEntryEditor := editor_new (de_data de) (entry_pos de).
Definition is_same_entry de (other : DirEntry) : bool := entry_pos de =? entry_pos other.

Section Names.
Context `{Unicode}.

(** The characters of one upper-case mapping against the other name. *)
Fixpoint match_upper (us other : list Z) : option (list Z) :=
  match us, other with
  | [], _ => Some other
  | u :: us, o :: other => if u =? o then match_upper us other else None
  | _ :: _, [] => None
  end.
Fixpoint eq_chars (self : list (option Z)) (other : list Z) : bool :=
  match self with
  | [] => match other with [] => true | _ => false end
  | None :: _ => false
  | Some c :: self => match match_upper (to_uppercase c) other with Some other => eq_chars self other | None => false end
  end.
Definition eq_name_lfn de (nm : list Z) : bool :=
  match long_file_name_as_ucs2_units de with
  | Some lfn => eq_chars (decode_utf16 lfn) (nm ≫= to_uppercase)
  | None => false
  end.
Definition eq_name de (nm : list Z) : bool := if eq_name_lfn de nm then true else eq_ignore_case (de_short_name de) nm.
End Names.

Section Free.
Context {D : Type} `{Io D} `{Nom}.

(** Entry by entry, through the directory's file. *)
Fixpoint free_entries (n : nat) (offset : Z) : ST D Error unit :=
  match n with
  | O => mret tt
  | S n => fun inner =>
      (buf ← (fun d => (read_exact_at d offset DIR_ENTRY_SIZE, d));
       '(_, d) ← lift_res (map_err (fun _ => EIO) (parse buf));
       _ ← write_all_at offset (to_bytes (set_deleted d));
       free_entries n (offset + DIR_ENTRY_SIZE)) inner
  end.
(** [step_by] over the range. *)
Definition free_all_entries de : ST D Error unit :=
  let '(lo, hi) := offset_range de in
  free_entries (Z.to_nat ((hi - lo + DIR_ENTRY_SIZE - 1) / DIR_ENTRY_SIZE)) lo.
End Free.
End FDirent.

(** * afat32: directory entries, their properties *)
Import Errno FDirent.

Section Parsers.
Context `{NomSpec}.

(** ** Entries as bytes *)
Lemma bind_Ok {E A B} (a : A) (f : A -> res E B) : (Ok a ≫= f) = f a.
Proof. done. Qed.

(** The parsers on the first bytes of the input. *)
Lemma nom_le_1 a i : nom_le 1 (a :: i) = Ok (i, a).
Proof. rewrite nom_le_spec. simpl. do 2 f_equal. lia. Qed.
Lemma nom_le_2 a b i : nom_le 2 (a :: b :: i) = Ok (i, of_le [a; b]).
Proof. by rewrite nom_le_spec. Qed.
Lemma nom_le_4 a b c d i : nom_le 4 (a :: b :: c :: d :: i) = Ok (i, of_le [a; b; c; d]).
Proof. by rewrite nom_le_spec. Qed.

Lemma nom_les_app k ws i :
  length ws = k -> Forall (fits 16) ws -> nom_les k (mjoin (le_bytes 2 <$> ws) ++ i) = Ok (i, ws).
Proof.
  intros <-. induction 1 as [|w ws Hw _ IH]; [done|]. cbn [length nom_les fmap list_fmap].
  change (mjoin (le_bytes 2 w :: (le_bytes 2 <$> ws))) with (le_bytes 2 w ++ mjoin (le_bytes 2 <$> ws)).
  rewrite <- app_assoc, nom_le_app by done. rewrite bind_Ok. cbv beta iota. by rewrite IH.
Qed.

Lemma words2_join ws : Forall (fits 16) ws -> words2 (mjoin (le_bytes 2 <$> ws)) = ws.
Proof.
  induction 1 as [|w ws Hw _ IH]; [done|]. cbn [fmap list_fmap].
  change (mjoin (le_bytes 2 w :: (le_bytes 2 <$> ws))) with (le_bytes 2 w ++ mjoin (le_bytes 2 <$> ws)).
  pose proof (of_le_bytes 2 w) as E. rewrite Z.mod_small in E by (exact Hw).
  cbn [le_bytes app words2] in *. rewrite E, IH. done.
Qed.

Lemma length_join2 ws : length (mjoin (le_bytes 2 <$> ws)) = (2 * length ws)%nat.
Proof.
  induction ws as [|w ws IH]; [done|]. change (mjoin (le_bytes 2 <$> w :: ws)) with (le_bytes 2 w ++ mjoin (le_bytes 2 <$> ws)).
  rewrite length_app, IH, length_le_bytes. cbn [length]. lia.
Qed.

(** The fields are words of their widths; a long-name entry has its attributes. *)
Record file_wf (e : DirFileEntryData) : Prop := {
  fw_name : length (name e) = 11%nat;
  fw_attrs : fits 8 (attrs e) /\ from_bits_truncate (attrs e) = attrs e /\ contains (attrs e) LFN = false;
  fw_r0 : fits 8 (reserved_0 e); fw_ct0 : fits 8 (create_time_0 e); fw_ct1 : fits 16 (create_time_1 e);
  fw_cd : fits 16 (create_date e); fw_ad : fits 16 (access_date e); fw_hi : fits 16 (first_cluster_hi e);
  fw_mt : fits 16 (modify_time e); fw_md : fits 16 (modify_date e); fw_lo : fits 16 (first_cluster_lo e);
  fw_size : fits 32 (size e);
}.
Record lfn_wf (l : DirLfnEntryData) : Prop := {
  lw_attrs : from_bits_truncate (lfn_attrs l) = lfn_attrs l /\ contains (lfn_attrs l) LFN = true;
  lw_0 : length (name_0 l) = 5%nat /\ Forall (fits 16) (name_0 l);
  lw_1 : length (name_1 l) = 6%nat /\ Forall (fits 16) (name_1 l);
  lw_2 : length (name_2 l) = 2%nat /\ Forall (fits 16) (name_2 l);
  lw_r0 : fits 16 (lfn_reserved_0 l);
}.
Definition entry_wf (d : DirEntryData) : Prop := match d with File e => file_wf e | Lfn l => lfn_wf l end.

Ltac parse :=
  repeat (first [ rewrite bind_Ok | rewrite nom_le_app by (simpl; assumption)
                | rewrite nom_le_1 | rewrite nom_le_2 | rewrite nom_le_4
                | rewrite nom_take_app by assumption ];
          cbv beta iota).

Lemma file_roundtrip e i : file_wf e -> parse (file_to_bytes e ++ i) = Ok (i, File e).
Proof.
  intros [Hn (Ha & Ht & Hl) ? ? ? ? ? ? ? ? ? ?]. unfold file_to_bytes, parse. rewrite <- !app_assoc.
  rewrite nom_take_app by done. rewrite bind_Ok. cbv beta iota. cbn [app]. parse.
  rewrite Ht, Hl. parse. by destruct e.
Qed.

Lemma lfn_roundtrip l i : lfn_wf l -> parse (lfn_to_bytes l ++ i) = Ok (i, Lfn l).
Proof.
  intros [(Ht & Ha) [H0l H0f] [H1l H1f] [H2l H2f] Hr]. unfold lfn_to_bytes, parse. rewrite <- !app_assoc.
  rewrite (app_assoc [order l]), nom_take_app by (rewrite length_app, length_join2, H0l; done).
  rewrite bind_Ok. cbv beta iota. cbn [app]. parse. rewrite Ht, Ha. parse.
  rewrite nom_les_app by done. rewrite bind_Ok. cbv beta iota. parse.
  rewrite nom_les_app by done. rewrite bind_Ok. cbv beta iota.
  cbn [byte_0 drop]. unfold byte_0. simpl lookup. cbn [default]. rewrite skipn_O, words2_join by done. by destruct l.
Qed.

(** A directory entry, of a file or of a part of a long name, is read back
    from its thirty-two bytes as it was written. *)
Theorem dirent_roundtrip d i : entry_wf d -> parse (to_bytes d ++ i) = Ok (i, d).
Proof. destruct d; [apply file_roundtrip|apply lfn_roundtrip]. Qed.

(** What rewriting an entry does to its bytes: unknown attribute bits are cleared. *)
Definition mask_attrs (bs : list Z) : list Z := alter from_bits_truncate 11%nat bs.

Lemma le2 a b : byte a -> byte b -> le_bytes 2 (of_le [a; b]) = [a; b].
Proof. intros. apply (le_bytes_of_le [a; b]). by repeat first [apply Forall_nil_2 | apply Forall_cons_2]. Qed.
Lemma le4 a b c d : byte a -> byte b -> byte c -> byte d -> le_bytes 4 (of_le [a; b; c; d]) = [a; b; c; d].
Proof. intros. apply (le_bytes_of_le [a; b; c; d]). by repeat first [apply Forall_nil_2 | apply Forall_cons_2]. Qed.

Lemma parse_total bs i :
  length bs = 32%nat -> Forall byte bs -> 
  exists d, parse (bs ++ i) = Ok (i, d) /\ to_bytes d = mask_attrs bs
    /\ to_bytes (set_deleted d) = <[0%nat := DIR_ENTRY_DELETED_FLAG]> (mask_attrs bs).
Proof.
  intros Hl Hb. do 32 (destruct bs as [|? bs]; [discriminate Hl|apply Forall_cons in Hb as [? Hb]]).
  destruct bs; [|discriminate Hl]. clear Hl Hb. unfold parse. cbn [app].
  rewrite nom_take_spec. cbn [length Nat.leb drop take]. rewrite bind_Ok. cbv beta iota. parse.
  destruct (contains _ LFN); [cbn [nom_les]|]; parse.
  - eexists. split; [reflexivity|]. cbn [to_bytes set_deleted]. unfold lfn_set_deleted, lfn_to_bytes. cbn [order name_0 lfn_attrs entry_type checksum name_1 lfn_reserved_0 name_2].
    cbn [drop words2 fmap list_fmap mjoin list_join]. rewrite !le2 by done. split; reflexivity.
  - eexists. split; [reflexivity|]. cbn [to_bytes set_deleted]. unfold file_set_deleted, with_name, file_to_bytes.
    cbn [name attrs reserved_0 create_time_0 create_time_1 create_date access_date first_cluster_hi modify_time modify_date first_cluster_lo size].
    rewrite !le2, le4 by done. split; reflexivity.
Qed.

Lemma fits_le2 a b : byte a -> byte b -> fits 16 (of_le [a; b]).
Proof. intros. apply (of_le_range [a; b]). by repeat first [apply Forall_nil_2 | apply Forall_cons_2]. Qed.
Lemma fits_le4 a b c d : byte a -> byte b -> byte c -> byte d -> fits 32 (of_le [a; b; c; d]).
Proof. intros. apply (of_le_range [a; b; c; d]). by repeat first [apply Forall_nil_2 | apply Forall_cons_2]. Qed.
Lemma from_bits_idem x : from_bits_truncate (from_bits_truncate x) = from_bits_truncate x.
Proof. unfold from_bits_truncate. by rewrite <- Z.land_assoc, Z.land_diag. Qed.

Lemma parse_wf bs d : length bs = 32%nat -> Forall byte bs -> parse bs = Ok ([], d) -> entry_wf d.
Proof.
  intros Hl Hb. do 32 (destruct bs as [|? bs]; [discriminate Hl|apply Forall_cons in Hb as [? Hb]]).
  destruct bs; [|discriminate Hl]. clear Hl Hb. unfold parse.
  rewrite nom_take_spec. cbn [length Nat.leb drop take]. rewrite bind_Ok. cbv beta iota. parse.
  destruct (contains _ LFN) eqn:Ea; [cbn [nom_les]|]; parse; intros [= <-].
  - split; cbn; rewrite ?from_bits_idem; repeat split; try done; try by apply fits_le2.
    all: by repeat first [apply Forall_nil_2 | apply Forall_cons_2 | apply fits_le2].
  - split; cbn; try done; try by apply fits_le2.
    + split; [by apply (fits_land 8); [lia|]|]. by rewrite from_bits_idem.
    + by apply fits_le4.
Qed.
(** ** Deleting entries *)
(** A byte of an entry after its deletion. *)
Definition freed_byte (k b : Z) : Z :=
  if k =? 0 then DIR_ENTRY_DELETED_FLAG else if k =? 11 then from_bits_truncate b else b.

Lemma freed_entry_lookup bs (j : nat) :
  <[0%nat := DIR_ENTRY_DELETED_FLAG]> (mask_attrs bs) !! j = freed_byte (Z.of_nat j) <$> bs !! j.
Proof.
  unfold mask_attrs, freed_byte. destruct j as [|j]; [by destruct bs|].
  rewrite list_lookup_insert_ne by done. destruct (decide (S j = 11%nat)) as [->|].
  - by rewrite list_lookup_alter.
  - rewrite list_lookup_alter_ne, !(proj2 (Z.eqb_neq _ _)) by lia. by destruct (bs !! S j).
Qed.

Context {D : Type} `{IoSpec D}.
Implicit Types (d : D).

Definition freed d d' (off n : Z) : Prop :=
  length (io_bytes d') = length (io_bytes d)
  /\ forall i : nat, io_bytes d' !! i =
       if (off <=? Z.of_nat i) && (Z.of_nat i <? off + 32 * n)
       then freed_byte ((Z.of_nat i - off) mod 32) <$> io_bytes d !! i else io_bytes d !! i.

Lemma freed_entry_ok bs :
  length bs = 32%nat -> Forall byte bs ->
  length (<[0%nat := DIR_ENTRY_DELETED_FLAG]> (mask_attrs bs)) = 32%nat
  /\ Forall byte (<[0%nat := DIR_ENTRY_DELETED_FLAG]> (mask_attrs bs)).
Proof.
  intros Hl Hb. split; [unfold mask_attrs; by rewrite length_insert, length_alter|].
  apply Forall_lookup. intros j b Hj. rewrite freed_entry_lookup in Hj.
  destruct (bs !! j) as [b0|] eqn:Eb; [|done]. injection Hj as <-. rewrite Forall_lookup in Hb. specialize (Hb _ _ Eb).
  unfold freed_byte, byte in *. destruct (_ =? 0); [vm_compute; split; congruence|]. destruct (_ =? 11); [|done].
  apply (fits_land 8); [lia|exact Hb].
Qed.

Lemma free_one d off :
  0 <= off -> off + 32 <= Z.of_nat (length (io_bytes d)) ->
  exists d1, (forall n, free_entries (S n) off d = free_entries n (off + 32) d1) /\ freed d d1 off 1.
Proof.
  intros Ho Hl. set (bs := slice_at (io_bytes d) off 32).
  assert (Hbs : length bs = 32%nat) by (apply Nat2Z.inj; unfold bs; rewrite length_slice_at; lia).
  assert (Hbb : Forall byte bs) by (unfold bs, slice_at; apply Forall_take, Forall_drop, io_byte).
  destruct (parse_total bs [] Hbs Hbb) as (e & Ep & _ & Ee). rewrite app_nil_r in Ep.
  destruct (freed_entry_ok bs Hbs Hbb) as [Hnew Hnb]. rewrite <- Ee in Hnew, Hnb.
  destruct (io_write d off (to_bytes (set_deleted e))) as (d1 & E1 & Hd1); [done|done|lia|].
  exists d1. split; [|split].
  - intros n. cbn [free_entries]. unfold DIR_ENTRY_SIZE. rewrite (ST_bind_Ok _ _ _ bs d) by (by rewrite io_read by lia).
    erewrite ST_bind_Ok; [|unfold lift_res; by rewrite Ep]. cbv beta iota. by rewrite (ST_bind_Ok _ _ _ _ _ E1).
  - rewrite Hd1. apply length_splice; lia.
  - intros i. rewrite Hd1, lookup_splice by lia. rewrite Hnew, Ee, freed_entry_lookup.
    change (Z.of_nat 32) with 32. rewrite Z.mul_1_r.
    destruct (Z.leb_spec off (Z.of_nat i)); [|done]. destruct (Z.ltb_spec (Z.of_nat i) (off + 32)); [|done]. cbn [andb].
    unfold bs. rewrite lookup_slice_at, (proj2 (Z.ltb_lt _ _)) by lia. rewrite Z.mod_small by lia.
    replace (Z.of_nat (i - Z.to_nat off)) with (Z.of_nat i - off) by lia.
    by replace (Z.to_nat off + (i - Z.to_nat off))%nat with i by lia.
Qed.

Lemma freed_trans d d1 d2 off n :
  0 <= n -> freed d d1 off 1 -> freed d1 d2 (off + 32) n -> freed d d2 off (1 + n).
Proof.
  intros Hn [Hl1 H1'] [Hl2 H2']. split; [congruence|]. intros i. rewrite H2', H1'.
  destruct (Z.leb_spec off (Z.of_nat i)), (Z.leb_spec (off + 32) (Z.of_nat i)), (Z.ltb_spec (Z.of_nat i) (off + 32 * 1)),
    (Z.ltb_spec (Z.of_nat i) (off + 32 + 32 * n)), (Z.ltb_spec (Z.of_nat i) (off + 32 * (1 + n))); simpl; try done; try lia.
  replace (Z.of_nat i - off) with (Z.of_nat i - (off + 32) + 1 * 32) by lia. by rewrite Z.mod_add by lia.
Qed.

Lemma free_entries_spec n : forall d off,
  0 <= off -> off + 32 * Z.of_nat n <= Z.of_nat (length (io_bytes d)) ->
  exists d', free_entries n off d = (Ok tt, d') /\ freed d d' off (Z.of_nat n).
Proof.
  induction n as [|n IH]; intros d off Ho Hl.
  - exists d. split; [done|]. split; [done|]. intros i. rewrite Z.mul_0_r, Z.add_0_r.
    destruct (Z.leb_spec off (Z.of_nat i)); [|done]. by rewrite (proj2 (Z.ltb_ge _ _)) by lia.
  - destruct (free_one d off) as (d1 & E1 & Hf1); [done|lia|]. rewrite E1. pose proof Hf1 as [Hl1 _].
    destruct (IH d1 (off + 32)) as (d' & E' & Hf'); [lia|lia|]. exists d'. split; [done|].
    replace (Z.of_nat (S n)) with (1 + Z.of_nat n) by lia. apply (freed_trans d d1); [lia|done|done].
Qed.

(** Deleting an entry with its long name marks each of its records as deleted
    and changes no other byte of the directory, apart from unknown attribute bits
    of the records themselves. *)
Theorem free_all_entries_spec d de (lo n : Z) :
  offset_range de = (lo, lo + 32 * n) -> 0 <= lo -> 0 <= n -> lo + 32 * n <= Z.of_nat (length (io_bytes d)) ->
  exists d', free_all_entries de d = (Ok tt, d') /\ freed d d' lo n.
Proof.
  intros Er Hlo Hn Hl. unfold free_all_entries, DIR_ENTRY_SIZE. rewrite Er.
  replace (lo + 32 * n - lo + 32 - 1) with (31 + n * 32) by lia. rewrite Z.div_add by lia.
  change (31 / 32) with 0. rewrite Z.add_0_l. destruct (free_entries_spec (Z.to_nat n) d lo) as (d' & E & Hf); [done|lia|].
  exists d'. split; [done|]. by rewrite Z2Nat.id in Hf.
Qed.

(** ** The editor of an entry *)
(** The calls of an editor, in any order. *)
Inductive ed_op :=
| SetFirstCluster (c : option Z) | SetSize (n : Z) | SetCreated (dt : FTime.DateTime)
| SetAccessed (dt : FTime.Date) | SetModified (dt : FTime.DateTime) | Flush.

Definition ed_run (op : ed_op) (ed : DirEntryEditor) : ST D Error DirEntryEditor :=
  match op with
  | SetFirstCluster c => mret (ed_set_first_cluster c ed)
  | SetSize n => mret (ed_set_size n ed)
  | SetCreated dt => mret (ed_set_created dt ed)
  | SetAccessed dt => mret (ed_set_accessed dt ed)
  | SetModified dt => mret (ed_set_modified dt ed)
  | Flush => ed_flush ed
  end.
Fixpoint ed_runs (ops : list ed_op) (ed : DirEntryEditor) : ST D Error DirEntryEditor :=
  match ops with [] => mret ed | op :: ops => ed ← ed_run op ed; ed_runs ops ed end.

(** What makes the thirty-two bytes of an entry bytes. *)
Definition bytes_ok (e : DirFileEntryData) : Prop :=
  length (name e) = 11%nat /\ Forall byte (name e) /\ byte (attrs e) /\ byte (reserved_0 e) /\ byte (create_time_0 e).

Lemma file_bytes e : bytes_ok e -> length (file_to_bytes e) = 32%nat /\ Forall byte (file_to_bytes e).
Proof.
  intros (Hl & Hn & Ha & Hr & Hc). unfold file_to_bytes.
  rewrite !length_app, !length_le_bytes, Hl. split; [done|].
  rewrite !Forall_app. split_and!; try apply le_bytes_byte; [done|].
  by repeat first [apply Forall_nil_2 | apply Forall_cons_2].
Qed.

(** A clean editor agrees with the device. *)
Definition coherent d (ed : DirEntryEditor) : Prop :=
  bytes_ok (data ed) /\ 0 <= pos ed /\ pos ed + 32 <= Z.of_nat (length (io_bytes d))
  /\ (dirty ed = false -> slice_at (io_bytes d) (pos ed) 32 = file_to_bytes (data ed)).

(** Only the entry itself is written. *)
Definition only_at (p : Z) d d' : Prop :=
  length (io_bytes d') = length (io_bytes d)
  /\ forall off n, 0 <= off -> off + n <= p \/ p + 32 <= off -> slice_at (io_bytes d') off n = slice_at (io_bytes d) off n.

Lemma ed_flush_ok d ed :
  coherent d ed -> exists d', ed_flush ed d = (Ok (mk_editor (data ed) (pos ed) false), d')
    /\ coherent d' (mk_editor (data ed) (pos ed) false) /\ only_at (pos ed) d d'.
Proof.
  intros (Hb & Hp & Hl & Hc). unfold ed_flush. destruct ed as [e p []]; simpl in *.
  - destruct (file_bytes e Hb) as [Hlb Hbb]. destruct (io_write d p (file_to_bytes e)) as (d' & E & Hd'); [done|done|lia|].
    rewrite (ST_bind_Ok _ _ _ _ _ E). exists d'. split; [done|]. unfold coherent, only_at. simpl. rewrite Hd'.
    rewrite length_splice by lia. split_and!; try done.
    + intros _. rewrite <- (slice_splice_same (io_bytes d) p (file_to_bytes e)) at 2 by lia. by rewrite Hlb.
    + intros off n Ho Hn. apply slice_splice_other; lia.
  - exists d. split; [done|]. by split_and!.
Qed.

Lemma ed_run_ok d ed op :
  coherent d ed -> exists ed' d', ed_run op ed d = (Ok ed', d') /\ coherent d' ed' /\ pos ed' = pos ed /\ only_at (pos ed) d d'
    /\ (op = Flush -> dirty ed' = false).
Proof.
  intros Hc. destruct op; simpl; [..|destruct (ed_flush_ok d ed Hc) as (d' & E & Hc' & Ho); by exists (mk_editor (data ed) (pos ed) false), d'];
    pose proof Hc as ((Hl & Hn & Ha & Hr & Hb) & Hp & Hd & Hcl); (eexists _, d; split; [done|]).
  - unfold ed_set_first_cluster. case_bool_decide; by split_and!.
  - unfold ed_set_size. destruct (size_opt (data ed)); [destruct (n =? z)|]; by split_and!.
  - unfold ed_set_created, set_created. case_bool_decide; [by split_and!|]. destruct (FTime.Time_encode _) as [t1 t0] eqn:Et.
    split_and!; try done. unfold coherent, bytes_ok. simpl. split_and!; try done; (injection Et as _ <-; apply Z.mod_pos_bound; lia).
  - unfold ed_set_accessed. case_bool_decide; by split_and!.
  - unfold ed_set_modified. case_bool_decide; by split_and!.
Qed.

Lemma ed_runs_ok ops : forall d ed, coherent d ed ->
  exists ed' d', ed_runs (ops ++ [Flush]) ed d = (Ok ed', d') /\ coherent d' ed' /\ pos ed' = pos ed /\ only_at (pos ed) d d'
    /\ dirty ed' = false.
Proof.
  induction ops as [|op ops IH]; intros d ed Hc; cbn [app ed_runs].
  - destruct (ed_run_ok d ed Flush Hc) as (ed' & d' & E & Hc' & Hp & Ho & Hd). rewrite (ST_bind_Ok _ _ _ _ _ E).
    exists ed', d'. by split_and!; auto.
  - destruct (ed_run_ok d ed op Hc) as (ed1 & d1 & E & Hc1 & Hp1 & Ho1 & _). rewrite (ST_bind_Ok _ _ _ _ _ E).
    destruct (IH d1 ed1 Hc1) as (ed' & d' & E' & Hc' & Hp' & Ho' & Hd'). exists ed', d'. split_and!; try done; [congruence|].
    rewrite Hp1 in Ho'. destruct Ho1 as [Hl1 H1'], Ho' as [Hl2 H2']. split; [congruence|].
    intros off n Hoff Hn. by rewrite H2', H1'.
Qed.

(** Whatever the calls on the editor of an entry that is on the device, after a
    flush the device holds the editor's data at the entry's place, and no other
    byte has changed: an editor that was not marked dirty had nothing to write. *)
Theorem editor_flush_spec d (e : DirFileEntryData) (p : Z) ops :
  bytes_ok e -> 0 <= p -> p + 32 <= Z.of_nat (length (io_bytes d)) -> slice_at (io_bytes d) p 32 = file_to_bytes e ->
  exists ed' d', ed_runs (ops ++ [Flush]) (editor_new e p) d = (Ok ed', d')
    /\ slice_at (io_bytes d') p 32 = file_to_bytes (data ed') /\ only_at p d d'.
Proof.
  intros He Hp Hl Hs. destruct (ed_runs_ok ops d (editor_new e p)) as (ed' & d' & E & (_ & _ & _ & Hc) & Hp' & Ho & Hd).
  { by split_and!. }
  exists ed', d'. split; [done|]. split; [|done]. rewrite <- (Hc Hd), Hp'. done.
Qed.
End Parsers.

(** ** Short names *)
Definition pad (k : nat) (bs : list Z) : list Z := bs ++ replicate (k - length bs) SFN_PADDING.
(** The first byte 0x05 stands for 0xE5. *)
Definition unescape (bs : list Z) : list Z :=
  match bs with b :: bs => (if b =? DIR_ENTRY_REALLY_E5_FLAG then 0xE5 else b) :: bs | [] => [] end.

Lemma rlen_zero p bs : Forall (fun b => p b = false) bs -> rlen p bs = 0%nat.
Proof. induction 1 as [|b bs Hb _ IH]; [done|]. simpl. by rewrite IH, Hb. Qed.

Lemma rlen_spec p bs tl :
  (forall b, last bs = Some b -> p b = true) -> Forall (fun b => p b = false) tl -> rlen p (bs ++ tl) = length bs.
Proof.
  intros Hlast Ht. induction bs as [|b bs IH]; [by apply rlen_zero|]. simpl.
  rewrite IH by (intros b' Hb'; apply Hlast; destruct bs; done).
  destruct bs as [|b2 bs]; simpl; [|done]. by rewrite (Hlast b eq_refl).
Qed.

Lemma rlen_pad k bs :
  last bs <> Some SFN_PADDING -> rlen (fun x => negb (x =? SFN_PADDING)) (pad k bs) = length bs.
Proof.
  intros Hl. apply rlen_spec; [|by apply Forall_replicate].
  intros b Hb. rewrite (proj2 (Z.eqb_neq _ _)); [done|]. intros ->. done.
Qed.

(** A short name stored as a base of at most eight and an extension of at most
    three bytes, both padded with spaces, reads as base, dot and extension, without
    a dot when there is no extension, and with its first byte unescaped. *)
Theorem short_name_spec (base ext : list Z) :
  (length base <= 8)%nat -> (length ext <= 3)%nat -> last base <> Some SFN_PADDING -> last ext <> Some SFN_PADDING ->
  as_bytes (ShortName_new (pad 8 base ++ pad 3 ext)) =
  unescape (base ++ match ext with [] => [] | _ => 46 :: ext end).
Proof.
  intros Hb He Hlb Hle. unfold ShortName_new.
  assert (Hl : length (pad 8 base) = 8%nat) by (unfold pad; rewrite length_app, length_replicate; lia).
  assert (Hl3 : length (pad 3 ext) = 3%nat) by (unfold pad; rewrite length_app, length_replicate; lia).
  assert (E8 : slice_at (pad 8 base ++ pad 3 ext) 0 8 = pad 8 base).
  { unfold slice_at. change (Z.to_nat 0) with 0%nat. change (Z.to_nat 8) with 8%nat. by rewrite drop_0, take_app_length'. }
  assert (E3 : slice_at (pad 8 base ++ pad 3 ext) 8 3 = pad 3 ext).
  { unfold slice_at. change (Z.to_nat 3) with 3%nat. change (Z.to_nat 8) with 8%nat.
    rewrite drop_app_length' by done. apply firstn_all2. lia. }
  rewrite E8, E3, !rlen_pad by done. clear E8 E3 Hl Hl3 Hlb Hle.
  destruct base as [|b0 [|b1 [|b2 [|b3 [|b4 [|b5 [|b6 [|b7 [|b8 base]]]]]]]]]; cbn [length] in Hb; try lia; clear Hb;
    destruct ext as [|x0 [|x1 [|x2 [|x3 ext]]]]; cbn [length] in He; try lia; clear He;
    cbv -[bool_decide Z.eqb]; first [reflexivity|case_bool_decide as E5];
    first [injection E5 as ->|discriminate E5|rewrite (proj2 (Z.eqb_neq b0 _)) by congruence|idtac]; reflexivity.
Qed.

(** ** Comparing names *)
Section Names.
Context `{Unicode}.

Lemma match_upper_spec us other rest : match_upper us other = Some rest <-> other = us ++ rest.
Proof.
  revert other. induction us as [|u us IH]; intros other; simpl; [naive_solver|].
  destruct other as [|o other]; [naive_solver|]. destruct (Z.eqb_spec u o) as [->|].
  - rewrite IH. naive_solver.
  - split; [done|]. intros [= ?]. congruence.
Qed.

Lemma eq_chars_spec self other : eq_chars self other = true <-> exists cs, self = Some <$> cs /\ cs ≫= to_uppercase = other.
Proof.
  revert other. induction self as [|[c|] self IH]; intros other; simpl.
  - split; [intros Ho; exists []; by destruct other|]. intros ([|] & E & <-); done.
  - destruct (match_upper (to_uppercase c) other) as [rest|] eqn:Em.
    + apply match_upper_spec in Em as ->. rewrite IH. split.
      * intros (cs & -> & <-). by exists (c :: cs).
      * intros ([|c' cs] & [= <- ->] & E). exists cs. split; [done|]. simpl in E. by apply app_inv_head in E.
    + split; [done|]. intros ([|c' cs] & [= <- ->] & <-).
      assert (Hm := proj2 (match_upper_spec (to_uppercase c) (to_uppercase c ++ (cs ≫= to_uppercase)) _) eq_refl).
      rewrite bind_cons in Em. congruence.
  - split; [done|]. intros ([|c cs] & E & _); done.
Qed.

(** An entry answers to a name exactly when its long name is well-formed UTF-16
    whose characters have the same upper case as the name, or when its short name
    has the same upper case. *)
Theorem eq_name_spec (de : DirEntry) (nm : list Z) :
  eq_name de nm = true <->
  (de_lfn_utf16 de <> [] /\ exists cs, decode_utf16 (de_lfn_utf16 de) = Some <$> cs
     /\ cs ≫= to_uppercase = nm ≫= to_uppercase)
  \/ short_file_name de ≫= to_uppercase = nm ≫= to_uppercase.
Proof.
  unfold eq_name, eq_name_lfn, long_file_name_as_ucs2_units, eq_ignore_case, short_file_name, sn_to_string.
  destruct (de_lfn_utf16 de) as [|u us]; simpl length.
  - change ((0 <? 0)%nat) with false. cbv iota. rewrite bool_decide_eq_true. naive_solver.
  - change ((0 <? S (length us))%nat) with true. cbv iota.
    destruct (eq_chars _ _) eqn:Ee; [apply eq_chars_spec in Ee; naive_solver|].
    rewrite bool_decide_eq_true. split; [naive_solver|]. intros [[_ Hcs]|]; [|done].
    apply eq_chars_spec in Hcs. congruence.
Qed.
End Names.

(** ** Witnesses *)
Definition sample_entry : DirFileEntryData := set_size (file_new (pad 8 [70; 79; 79] ++ pad 3 [82; 83]) ARCHIVE) 7.
Definition sample_dir : RamDisk.
Proof.
  refine (mk_disk (file_to_bytes sample_entry ++ file_to_bytes sample_entry ++ replicate 32 0) _).
  apply (bool_decide_unpack (Forall byte _)). vm_compute. exact I.
Defined.

Lemma sample_entry_wf : file_wf sample_entry.
Proof. split; try (unfold fits; simpl; lia); try reflexivity. repeat split; try reflexivity; vm_compute; congruence. Qed.

Lemma dirent_roundtrip_witness : parse (to_bytes (File sample_entry) ++ [1]) = Ok ([1], File sample_entry).
Proof. apply (dirent_roundtrip (File sample_entry) [1]). exact sample_entry_wf. Defined.

Lemma free_all_entries_spec_witness :
  exists d', free_all_entries (mk_dirent sample_entry (ShortName_new (name sample_entry)) [] 32 (32, 64)) sample_dir = (Ok tt, d')
    /\ freed sample_dir d' 32 1.
Proof. apply (free_all_entries_spec sample_dir _ 32 1); [reflexivity|lia|lia|vm_compute; congruence]. Defined.

Lemma editor_flush_spec_witness :
  exists ed' d', ed_runs ([SetSize 9; SetFirstCluster (Some 5)] ++ [Flush]) (editor_new sample_entry 32) sample_dir = (Ok ed', d')
    /\ slice_at (io_bytes d') 32 32 = file_to_bytes (data ed') /\ only_at 32 sample_dir d'.
Proof.
  apply (editor_flush_spec sample_dir sample_entry 32 [SetSize 9; SetFirstCluster (Some 5)]).
  - split_and!; [reflexivity|apply (bool_decide_unpack (Forall byte _)); vm_compute; exact I|vm_compute; split; congruence..].
  - lia.
  - vm_compute. congruence.
  - vm_compute. reflexivity.
Defined.

Lemma short_name_spec_witness :
  as_bytes (ShortName_new (pad 8 [5; 79; 79] ++ pad 3 [66; 65; 82])) = [0xE5; 79; 79; 46; 66; 65; 82].
Proof. apply (short_name_spec [5; 79; 79] [66; 65; 82]); [simpl; lia|simpl; lia|discriminate|discriminate]. Defined.
