(* ===== verification/FatName.v ===== *)
(** * afat32: long and short file names

    The name handling of mizu/lib/afat32/src/dir.rs: validation, the checksum that
    ties a long name to its short name, the builder that collects a long name from
    its entries, the generator of these entries, and the generator of short names. *)

From S2P Require Import Prelude Ksc Bytes FatDirent.

Import Errno FDirent.

Module FName.

Definition MAX_LONG_NAME_LEN : Z := 255.
Definition MAX_LONG_DIR_ENTRIES : Z := (MAX_LONG_NAME_LEN + LFN_PART_LEN - 1) / LFN_PART_LEN.
Definition LFN_PADDING : Z := 0xFFFF.

(** Strings: the bytes a character takes in UTF-8, and its units in UTF-16. *)
Definition len_utf8 (c : Z) : Z :=
  if c <? 0x80 then 1 else if c <? 0x800 then 2 else if c <? 0x10000 then 3 else 4.
Definition str_len (name : list Z) : Z := foldr (fun c n => len_utf8 c + n) 0 name.
Definition encode_utf16 (name : list Z) : list Z :=
  name ≫= fun c => if c <? 0x10000 then [c]
                   else [Z.lor 0xD800 (Z.shiftr (c - 0x10000) 10); Z.lor 0xDC00 (Z.land (c - 0x10000) 0x3FF)].

Definition between (lo c hi : Z) : bool := (lo <=? c) && (c <=? hi).
Definition is_letter (c : Z) : bool := between 97 c 122 || between 65 c 90 || between 48 c 57.

(** $ % ' - _ @ ~ ` ! ( ) { } . space + , ; = [ ] ^ # & *)
Definition long_specials : list Z :=
  [36; 37; 39; 45; 95; 64; 126; 96; 33; 40; 41; 123; 125; 46; 32; 43; 44; 59; 61; 91; 93; 94; 35; 38].
Definition valid_char (c : Z) : bool := is_letter c || between 0x80 c 0xFFFF || bool_decide (c ∈ long_specials).

Definition validate_long_name (name : list Z) : res Error unit :=
  if bool_decide (name = []) then Err EINVAL
  else if MAX_LONG_NAME_LEN <? str_len name then Err EINVAL
  else if forallb valid_char name then Ok tt else Err EINVAL.

Definition lfn_checksum (short_name : list Z) : Z :=
  foldl (fun chksum b => wadd 8 (wadd 8 (wshl 8 chksum 7) (Z.shiftr chksum 1)) b) 0 short_name.

(** ** LfnBuffer and LongNameBuilder *)
(** [Vec::resize] with zeros. *)
Definition set_len (buf : list Z) (len : Z) : list Z :=
  take (Z.to_nat len) buf ++ replicate (Z.to_nat len - length buf) 0.

Record LongNameBuilder := mk_builder { buf : list Z; chksum : Z; index : Z }.
Implicit Types (b : LongNameBuilder).

Definition builder_new : LongNameBuilder := mk_builder [] 0 0.
Definition clear b : LongNameBuilder := mk_builder [] (chksum b) 0.
Definition is_empty b : bool := index b =? 0.
Definition truncate b : LongNameBuilder :=
  let new_len := Z.of_nat (rlen (fun c => negb (c =? 0xFFFF) && negb (c =? 0)) (buf b)) in
  mk_builder (set_len (buf b) new_len) (chksum b) (index b).
Definition into_buf b : list Z :=
  if index b =? 1 then buf (truncate b) else if negb (is_empty b) then buf (clear b) else buf b.

Definition process b (l : DirLfnEntryData) : res unit LongNameBuilder :=
  let is_last := negb (Z.land (order l) LFN_ENTRY_LAST_FLAG =? 0) in
  let idx := Z.land (order l) 0x1F in
  if (idx =? 0) || (MAX_LONG_DIR_ENTRIES <? idx) then Ok (clear b)
  else
    let copy b :=
      let pos := LFN_PART_LEN * (idx - 1) in
      if Z.of_nat (length (buf b)) <? pos + 13 then Panic
      else Ok (mk_builder (splice (buf b) pos (copy_name_to_slice l)) (chksum b) (index b)) in
    if is_last then copy (mk_builder (set_len (buf b) (idx * LFN_PART_LEN)) (checksum l) idx)
    else if (index b =? 0) || negb (idx =? index b - 1) || negb (checksum l =? chksum b) then Ok (clear b)
    else copy (mk_builder (buf b) (chksum b) (index b - 1)).

Definition validate_chksum b (short_name : list Z) : LongNameBuilder :=
  if is_empty b then b
  else if negb (lfn_checksum short_name =? chksum b) then clear b else b.

(** ** LfnEntriesGenerator *)
(** [slice::chunks] *)
Fixpoint chunks_loop (fuel n : nat) (l : list Z) : list (list Z) :=
  match fuel, l with
  | S fuel, _ :: _ => take n l :: chunks_loop fuel n (drop n l)
  | _, _ => []
  end.
Definition chunks (n : nat) (l : list Z) : list (list Z) := chunks_loop (length l) n l.

Record LfnEntriesGenerator := mk_gen {
  name_parts_iter : list (list Z); gen_checksum : Z; gen_index : Z; gen_num : Z; gen_ended : bool;
}.
Implicit Types (g : LfnEntriesGenerator).

Definition gen_new (name_utf16 : list Z) (ck : Z) : LfnEntriesGenerator :=
  let num_entries := (Z.of_nat (length name_utf16) + LFN_PART_LEN - 1) / LFN_PART_LEN in
  mk_gen (reverse (chunks 13 name_utf16)) ck 0 num_entries false.

(** The padded part: terminated when it is shorter than a part. *)
Definition lfn_part (part : list Z) : list Z :=
  let p := splice (replicate 13 LFN_PADDING) 0 part in
  if (length part <? 13)%nat then <[length part := 0]> p else p.

Definition gen_next g : option DirLfnEntryData * LfnEntriesGenerator :=
  if gen_ended g then (None, g)
  else match name_parts_iter g with
       | part :: rest =>
           let o := wrap 8 (gen_num g - gen_index g) in
           let o := if gen_index g =? 0 then Z.lor o LFN_ENTRY_LAST_FLAG else o in
           (Some (copy_name_from_slice (lfn_new o (gen_checksum g)) (lfn_part part)),
            mk_gen rest (gen_checksum g) (gen_index g + 1) (gen_num g) false)
       | [] => (None, mk_gen [] (gen_checksum g) (gen_index g) (gen_num g) true)
       end.
(** The entries the generator yields; each takes one part. *)
Fixpoint gen_collect (fuel : nat) g : list DirLfnEntryData :=
  match fuel with
  | O => []
  | S fuel => match gen_next g with (Some e, g) => e :: gen_collect fuel g | (None, _) => [] end
  end.
Definition gen_len g : nat := length (name_parts_iter g).
Definition gen_all g : list DirLfnEntryData := gen_collect (gen_len g) g.
End FName.

(** * afat32: long names survive their entries *)
Import Errno FDirent FName.

(** The entries of a name, one after the other. *)
Fixpoint process_all (es : list DirLfnEntryData) (b : LongNameBuilder) : res unit LongNameBuilder :=
  match es with [] => Ok b | e :: es => b ← process b e; process_all es b end.

(** ** Parts of a name *)
Lemma chunks_loop_enough fuel n l : (0 < n)%nat -> (length l <= fuel)%nat -> chunks_loop fuel n l = chunks n l.
Proof.
  intros Hn. unfold chunks. revert l. induction fuel as [fuel IH] using lt_wf_ind. intros l Hl.
  destruct l as [|x l]; [by destruct fuel|]. destruct fuel as [|fuel]; [simpl in Hl; lia|]. cbn [chunks_loop length].
  assert (Hd : (length (drop n (x :: l)) <= length l)%nat) by (rewrite length_drop; simpl; lia).
  f_equal. rewrite (IH fuel) by (simpl in Hl; lia).
  destruct (decide (length l < S fuel)%nat); [symmetry; apply IH; lia|]. simpl in Hl. lia.
Qed.

Lemma chunks_cons n l : (0 < n)%nat -> l <> [] -> chunks n l = take n l :: chunks n (drop n l).
Proof.
  intros Hn Hl. destruct l as [|x l]; [done|]. unfold chunks at 1. cbn [length chunks_loop]. f_equal.
  apply chunks_loop_enough; [done|]. rewrite length_drop. simpl. lia.
Qed.

Definition filler (c : Z) : Prop := c = 0 \/ c = 0xFFFF.

Lemma lfn_part_eq part : (length part <= 13)%nat ->
  exists tl, lfn_part part = part ++ tl /\ Forall filler tl /\ length (lfn_part part) = 13%nat /\ (length part = 13%nat -> tl = []).
Proof.
  intros Hl. unfold lfn_part, splice. change (Z.to_nat 0) with 0%nat. rewrite take_0, app_nil_l, Nat.add_0_l.
  destruct (Nat.ltb_spec (length part) 13).
  - rewrite insert_app_r_alt, Nat.sub_diag by lia. exists (<[0%nat := 0]> (drop (length part) (replicate 13 LFN_PADDING))).
    split; [done|]. split; [|split; [|lia]].
    + apply Forall_insert; [|by left]. apply Forall_drop, Forall_replicate. by right.
    + rewrite length_app, length_insert, length_drop, length_replicate. lia.
  - exists []. rewrite drop_ge by (rewrite length_replicate; lia). rewrite app_nil_r. split; [done|]. split; [by apply Forall_nil|].
    split; [lia|done].
Qed.

Definition padded (parts : list (list Z)) : list Z := mjoin (lfn_part <$> parts).

Lemma padded_length parts : Forall (fun p => length p <= 13)%nat parts -> length (padded parts) = (13 * length parts)%nat.
Proof.
  induction 1 as [|p parts Hp _ IH]; [done|]. unfold padded in *. cbn [fmap list_fmap].
  change (mjoin (lfn_part p :: (lfn_part <$> parts))) with (lfn_part p ++ mjoin (lfn_part <$> parts)).
  destruct (lfn_part_eq p Hp) as (tl & _ & _ & E & _). rewrite length_app, E, IH. simpl. lia.
Qed.

Lemma padded_chunks n : forall l, length l = n ->
  exists tl, padded (chunks 13 l) = l ++ tl /\ Forall filler tl /\ Forall (fun p => length p <= 13)%nat (chunks 13 l).
Proof.
  induction n as [n IH] using lt_wf_ind. intros l Hl. destruct (decide (l = [])) as [->|Hne]; [exists []; by repeat constructor|].
  rewrite chunks_cons by (done || lia). unfold padded. cbn [fmap list_fmap].
  change (mjoin (lfn_part (take 13 l) :: (lfn_part <$> chunks 13 (drop 13 l)))) with (lfn_part (take 13 l) ++ padded (chunks 13 (drop 13 l))).
  assert (Hpos : (0 < length l)%nat) by (destruct l; [done|simpl; lia]).
  destruct (IH (length (drop 13 l)) ltac:(rewrite length_drop; lia) (drop 13 l) eq_refl) as (tl & E & Hf & Hp).
  assert (Ht : (length (take 13 l) <= 13)%nat) by (rewrite length_take; lia).
  destruct (lfn_part_eq (take 13 l) Ht) as (tl1 & E1 & Hf1 & _ & Hfull).
  rewrite E, E1. destruct (decide (length l <= 13)%nat).
  - rewrite (take_ge l), (drop_ge l) in * by lia. exists (tl1 ++ tl). rewrite app_nil_l, <- app_assoc. split; [done|].
    split; [by apply Forall_app_2|by apply Forall_cons_2].
  - rewrite Hfull by (rewrite length_take; lia). exists tl. rewrite app_nil_r, app_assoc, take_drop. split; [done|].
    split; [done|by apply Forall_cons_2].
Qed.

Lemma chunks_length n : forall l, length l = n -> Z.of_nat (length (chunks 13 l)) = (Z.of_nat n + 12) / 13.
Proof.
  induction n as [n IH] using lt_wf_ind. intros l Hl. destruct (decide (l = [])) as [->|Hne]; [by subst|].
  assert (Hpos : (0 < length l)%nat) by (destruct l; [done|simpl; lia]).
  rewrite chunks_cons by (done || lia). cbn [length].
  pose proof (IH (length (drop 13 l)) ltac:(rewrite length_drop; lia) (drop 13 l) eq_refl) as E. rewrite length_drop in E.
  rewrite Nat2Z.inj_succ, E, Hl. Z.to_euclidean_division_equations. lia.
Qed.

(** ** Entries and the builder *)
(** The entry the generator makes of a part. *)
Definition lfn_entry (ck i num : Z) (part : list Z) : DirLfnEntryData :=
  let o := wrap 8 (num - i) in
  copy_name_from_slice (lfn_new (if i =? 0 then Z.lor o LFN_ENTRY_LAST_FLAG else o) ck) (lfn_part part).
Fixpoint lfn_entries (ck i num : Z) (parts : list (list Z)) : list DirLfnEntryData :=
  match parts with [] => [] | p :: parts => lfn_entry ck i num p :: lfn_entries ck (i + 1) num parts end.

Lemma gen_collect_eq ck num parts : forall i,
  gen_collect (length parts) (mk_gen parts ck i num false) = lfn_entries ck i num parts.
Proof. induction parts as [|p parts IH]; intros i; [done|]. cbn [length gen_collect gen_next lfn_entries]. simpl. f_equal. apply IH. Qed.

Lemma gen_all_eq name ck :
  gen_all (gen_new name ck) = lfn_entries ck 0 (Z.of_nat (length (chunks 13 name))) (reverse (chunks 13 name)).
Proof.
  unfold gen_all, gen_len, gen_new. cbn [name_parts_iter]. rewrite gen_collect_eq. f_equal.
  rewrite (chunks_length (length name)) by done. unfold LFN_PART_LEN. f_equal. lia.
Qed.

Lemma order_bits m : 1 <= m <= 20 ->
  Z.land (wrap 8 m) LFN_ENTRY_LAST_FLAG = 0 /\ Z.land (wrap 8 m) 0x1F = m
  /\ Z.land (Z.lor (wrap 8 m) LFN_ENTRY_LAST_FLAG) LFN_ENTRY_LAST_FLAG = 0x40
  /\ Z.land (Z.lor (wrap 8 m) LFN_ENTRY_LAST_FLAG) 0x1F = m.
Proof.
  intros Hm. assert (Hin : m ∈ seqZ 1 20) by (apply elem_of_seqZ; lia).
  revert m Hm Hin. assert (Hall : Forall (fun m => Z.land (wrap 8 m) LFN_ENTRY_LAST_FLAG = 0 /\ Z.land (wrap 8 m) 0x1F = m
    /\ Z.land (Z.lor (wrap 8 m) LFN_ENTRY_LAST_FLAG) LFN_ENTRY_LAST_FLAG = 0x40
    /\ Z.land (Z.lor (wrap 8 m) LFN_ENTRY_LAST_FLAG) 0x1F = m) (seqZ 1 20)).
  { apply (bool_decide_unpack (Forall _ _)). vm_compute. exact I. }
  rewrite Forall_forall in Hall. intros m _ Hin. by apply Hall.
Qed.

Lemma copy_name part o ck :
  length part = 13%nat -> copy_name_to_slice (copy_name_from_slice (lfn_new o ck) part) = part.
Proof.
  intros Hl. destruct part as [|x0 [|x1 [|x2 [|x3 [|x4 [|x5 [|x6 [|x7 [|x8 [|x9 [|x10 [|x11 [|x12 [|x13 p]]]]]]]]]]]]]]; try discriminate.
  reflexivity.
Qed.

(** The builder when the parts in [post] have been processed and [k] are missing:
    [junk] is what the buffer held before. *)
Definition built (ck : Z) (junk : list Z) (k : nat) (post : list (list Z)) : LongNameBuilder :=
  mk_builder (take (13 * k) junk ++ padded post) ck (Z.of_nat k + 1).

Lemma splice_junk k (junk x rest : list Z) :
  length x = 13%nat -> (13 * S k <= length junk)%nat ->
  splice (take (13 * S k) junk ++ rest) (13 * Z.of_nat k) x = take (13 * k) junk ++ x ++ rest.
Proof.
  intros Hx Hj. unfold splice. replace (Z.to_nat (13 * Z.of_nat k)) with (13 * k)%nat by lia.
  rewrite take_app_le by (rewrite length_take; lia). rewrite take_take.
  rewrite Hx, drop_app_length' by (rewrite length_take; lia). do 2 f_equal. lia.
Qed.

Lemma max_entries : MAX_LONG_DIR_ENTRIES = 20.
Proof. reflexivity. Qed.

Lemma process_next ck num junk k p post :
  post <> [] -> (length p <= 13)%nat -> Forall (fun p => length p <= 13)%nat post ->
  num = Z.of_nat (k + 1 + length post) -> num <= 20 -> (13 * S k <= length junk)%nat ->
  process (built ck junk (S k) post) (lfn_entry ck (Z.of_nat (length post)) num p) = Ok (built ck junk k (p :: post)).
Proof.
  intros Hne Hp Hpost Hnum Hlim Hj. destruct (lfn_part_eq p Hp) as (_ & _ & _ & Hlp & _).
  assert (Hi : Z.of_nat (length post) <> 0) by (destruct post; [done|simpl; lia]).
  set (m := Z.of_nat k + 1). destruct (order_bits m) as (E1 & E2 & _ & _); [lia|].
  unfold lfn_entry. replace (num - Z.of_nat (length post)) with m by lia. rewrite (proj2 (Z.eqb_neq _ _) Hi).
  unfold process. rewrite copy_name, max_entries by done. cbn [order copy_name_from_slice lfn_new]. rewrite E1, E2.
  rewrite (proj2 (Z.eqb_neq m 0)), (proj2 (Z.ltb_ge 20 m)) by lia.
  cbn [orb negb Z.eqb checksum index chksum buf built copy_name_from_slice lfn_new]. set (j := Z.of_nat (S k) + 1).
  rewrite (proj2 (Z.eqb_neq j 0)), (proj2 (Z.eqb_eq m (j - 1))), Z.eqb_refl by lia. cbn [orb negb buf].
  rewrite length_app, length_take, padded_length by done. unfold LFN_PART_LEN.
  rewrite (proj2 (Z.ltb_ge _ _)) by lia. unfold built. do 2 f_equal; [|lia].
  replace (m - 1) with (Z.of_nat k) by lia. by rewrite splice_junk.
Qed.

Lemma process_first b ck num k p :
  (length p <= 13)%nat -> num = Z.of_nat (k + 1) -> num <= 20 ->
  exists junk, (13 * S k <= length junk)%nat /\ process b (lfn_entry ck 0 num p) = Ok (built ck junk k [p]).
Proof.
  intros Hp Hnum Hlim. destruct (lfn_part_eq p Hp) as (_ & _ & _ & Hlp & _).
  destruct (order_bits num) as (_ & _ & E1 & E2); [lia|]. set (junk := set_len (buf b) (num * 13)).
  assert (Hj : length junk = (13 * S k)%nat).
  { unfold junk, set_len. rewrite length_app, length_take, length_replicate. lia. }
  exists junk. split; [lia|]. unfold lfn_entry. rewrite Z.sub_0_r, Z.eqb_refl. unfold process. rewrite copy_name, max_entries by done.
  cbn [order copy_name_from_slice lfn_new]. rewrite E1, E2.
  rewrite (proj2 (Z.eqb_neq num 0)), (proj2 (Z.ltb_ge 20 num)) by lia.
  cbn [orb negb Z.eqb checksum index chksum buf copy_name_from_slice lfn_new]. unfold LFN_PART_LEN. fold junk.
  rewrite Hj, (proj2 (Z.ltb_ge _ _)) by lia.
  unfold built. do 2 f_equal; [|lia]. replace (num - 1) with (Z.of_nat k) by lia.
  pose proof (splice_junk k junk (lfn_part p) [] Hlp ltac:(lia)) as E.
  rewrite app_nil_r, (take_ge junk) in E by lia. exact E.
Qed.

Lemma process_rest ck num junk pre : forall post,
  post <> [] -> Forall (fun p => length p <= 13)%nat pre -> Forall (fun p => length p <= 13)%nat post ->
  num = Z.of_nat (length pre + length post) -> num <= 20 -> (13 * length pre <= length junk)%nat ->
  process_all (lfn_entries ck (Z.of_nat (length post)) num (reverse pre)) (built ck junk (length pre) post)
  = Ok (built ck junk 0 (pre ++ post)).
Proof.
  induction pre as [|p pre IH] using rev_ind; intros post Hne Hpre Hpost Hnum Hlim Hj; [done|].
  apply Forall_app in Hpre as [Hpre Hp]. apply Forall_cons in Hp as [Hp _]. rewrite length_app in *. cbn [length] in *.
  rewrite reverse_snoc. cbn [lfn_entries process_all]. rewrite Nat.add_1_r in *. rewrite process_next by (done || lia). rewrite bind_Ok.
  specialize (IH (p :: post)). cbn [length] in IH. rewrite Nat2Z.inj_succ in IH. unfold Z.succ in IH.
  rewrite IH, <- app_assoc; [done|done|done|by apply Forall_cons_2|lia|done|lia].
Qed.

Lemma process_parts b ck parts :
  parts <> [] -> Forall (fun p => length p <= 13)%nat parts -> (length parts <= 20)%nat ->
  process_all (lfn_entries ck 0 (Z.of_nat (length parts)) (reverse parts)) b = Ok (mk_builder (padded parts) ck 1).
Proof.
  intros Hne Hp Hl. destruct parts as [|p pre _] using rev_ind; [done|].
  apply Forall_app in Hp as [Hpre Hp]. apply Forall_cons in Hp as [Hp _]. rewrite length_app in *. cbn [length] in *.
  rewrite reverse_snoc. cbn [lfn_entries process_all].
  destruct (process_first b ck (Z.of_nat (length pre + 1)) (length pre) p) as (junk & Hj & ->); [done|done|lia|]. rewrite bind_Ok.
  pose proof (process_rest ck (Z.of_nat (length pre + 1)) junk pre [p]) as E. cbn [length] in E.
  apply E; try done; [by apply Forall_singleton|lia|lia].
Qed.

(** ** The round trip *)
Lemma rlen_filler name tl :
  (forall c, last name = Some c -> ~ filler c) -> Forall filler tl ->
  rlen (fun c => negb (c =? 0xFFFF) && negb (c =? 0)) (name ++ tl) = length name.
Proof.
  intros Hlast Ht. apply rlen_spec.
  - intros c Hc. specialize (Hlast c Hc). unfold filler in Hlast. rewrite !(proj2 (Z.eqb_neq _ _)) by lia. done.
  - eapply Forall_impl; [done|]. intros c [->| ->]; done.
Qed.

(** The entries generated for a long name are put together to the same name, whatever
    the builder held before. *)
Lemma lfn_name_roundtrip b (name sn : list Z) :
  name <> [] -> (length name <= 255)%nat -> (forall c, last name = Some c -> c <> 0 /\ c <> 0xFFFF) ->
  exists b', process_all (gen_all (gen_new name (lfn_checksum sn))) b = Ok b' /\ into_buf (validate_chksum b' sn) = name.
Proof.
  intros Hne Hl Hlast. rewrite gen_all_eq. destruct (padded_chunks (length name) name eq_refl) as (tl & E & Hf & Hp).
  pose proof (chunks_length (length name) name eq_refl) as Hc.
  assert (Hc20 : (length (chunks 13 name) <= 20)%nat) by (Z.to_euclidean_division_equations; lia).
  rewrite process_parts; [|rewrite chunks_cons by (done || lia); done|done|done].
  eexists. split; [done|]. unfold validate_chksum, is_empty. cbn [index chksum]. rewrite Z.eqb_refl. cbn [negb].
  change (1 =? 0) with false. cbv iota. unfold into_buf. cbn [index]. change (1 =? 1) with true. cbv iota.
  unfold truncate, set_len. cbn [buf]. rewrite E, rlen_filler by (try done; intros c Hc' [?|?]; by destruct (Hlast c Hc')).
  rewrite Nat2Z.id, take_app_length, length_app. replace (length name - (length name + length tl))%nat with 0%nat by lia. apply app_nil_r.
Qed.

(** ** Corrupted entries *)
(** The buffer holds the parts that are still expected, and at most twenty. *)
Definition builder_ok (b : LongNameBuilder) : Prop :=
  (index b = 0 \/ 1 <= index b <= 20 /\ 13 * index b <= Z.of_nat (length (buf b))) /\ (length (buf b) <= 260)%nat.

Lemma builder_copy b l idx :
  length (copy_name_to_slice l) = 13%nat -> 1 <= idx -> index b = idx -> builder_ok b ->
  exists b', (let pos := LFN_PART_LEN * (idx - 1) in
    if Z.of_nat (length (buf b)) <? pos + 13 then Panic
    else Ok (mk_builder (splice (buf b) pos (copy_name_to_slice l)) (chksum b) (index b))) = (Ok b' : res unit _) /\ builder_ok b'.
Proof.
  intros Hl Hi Hb [[H0|[Hr Hlen]] Hmax]; [lia|]. unfold LFN_PART_LEN. cbv zeta. rewrite (proj2 (Z.ltb_ge _ _)) by lia.
  eexists. split; [done|]. unfold builder_ok. cbn [index buf]. rewrite length_splice by lia. split; [right|]; lia.
Qed.

Lemma length_set_len bs n : 0 <= n -> Z.of_nat (length (set_len bs n)) = n.
Proof. intros Hn. unfold set_len. rewrite length_app, length_take, length_replicate. lia. Qed.

Lemma process_ok b l :
  builder_ok b -> length (copy_name_to_slice l) = 13%nat -> exists b', process b l = Ok b' /\ builder_ok b'.
Proof.
  intros Hb Hl. unfold process. rewrite max_entries. set (idx := Z.land (order l) 0x1F).
  assert (Hclear : builder_ok (clear b)) by (split; [by left|simpl; lia]).
  assert (Hidx : 0 <= idx) by (apply Z.land_nonneg; right; lia).
  destruct (Z.eqb_spec idx 0); [by exists (clear b)|]. destruct (Z.ltb_spec 20 idx); [by exists (clear b)|]. cbn [orb].
  destruct (negb (Z.land (order l) LFN_ENTRY_LAST_FLAG =? 0)).
  - apply builder_copy; [done|lia|done|]. split; cbn [index buf]; [right|]; unfold LFN_PART_LEN;
      pose proof (length_set_len (buf b) (idx * 13) ltac:(lia)); lia.
  - destruct ((index b =? 0) || negb (idx =? index b - 1) || negb (checksum l =? chksum b)) eqn:Ec; [by exists (clear b)|].
    apply orb_false_iff in Ec as [[E1%Z.eqb_neq E2%negb_false_iff%Z.eqb_eq]%orb_false_iff _].
    apply builder_copy; [done|lia|cbn [index]; lia|]. destruct Hb as [[|[Hr Hlen]] Hm]; [lia|].
    split; cbn [index buf]; [right|]; lia.
Qed.

(** C37: whatever entries of a long name are on the disk, in whatever order, the
    builder accepts or drops them without panicking, and the name it returns has at
    most 260 units. *)
Theorem builder_total (es : list DirLfnEntryData) (sn : list Z) :
  Forall (fun l => length (copy_name_to_slice l) = 13%nat) es ->
  exists b, process_all es builder_new = Ok b /\ (length (into_buf (validate_chksum b sn)) <= 260)%nat.
Proof.
  intros Hes. assert (Hall : forall b, builder_ok b -> exists b', process_all es b = Ok b' /\ builder_ok b').
  { induction Hes as [|l es Hl _ IH]; intros b Hb; [by exists b|]. cbn [process_all].
    destruct (process_ok b l Hb Hl) as (b1 & -> & Hb1). rewrite bind_Ok. by apply IH. }
  destruct (Hall builder_new) as (b & E & Hb); [split; [by left|simpl; lia]|]. exists b. split; [done|].
  assert (Hv : (length (buf (validate_chksum b sn)) <= 260)%nat).
  { destruct Hb as [_ Hm]. unfold validate_chksum. destruct (is_empty b); [done|]. destruct (negb _); [simpl; lia|done]. }
  unfold into_buf. destruct (_ =? 1); [|destruct (negb _); [simpl; lia|done]].
  cbn [buf truncate]. set (p := fun c => _). pose proof (length_set_len (buf (validate_chksum b sn))
    (Z.of_nat (rlen p (buf (validate_chksum b sn)))) ltac:(lia)).
  assert (Hr : forall bs, (rlen p bs <= length bs)%nat).
  { induction bs as [|c bs IHb]; [done|]. simpl. destruct (rlen p bs); [destruct (p c); lia|lia]. }
  specialize (Hr (buf (validate_chksum b sn))). lia.
Qed.

Lemma builder_total_witness :
  exists b, process_all [lfn_new 0x43 7; lfn_new 0x02 7; lfn_new 0x05 7] builder_new = Ok b
    /\ (length (into_buf (validate_chksum b [65%Z])) <= 260)%nat.
Proof.
  apply (builder_total [lfn_new 0x43 7; lfn_new 0x02 7; lfn_new 0x05 7] [65]).
  apply (bool_decide_unpack (Forall _ _)). vm_compute. exact I.
Defined.
