(* ===== verification/FatShort.v ===== *)
(** * afat32: generating short names

    [ShortNameGenerator] of mizu/lib/afat32/src/dir.rs. *)

From S2P Require Import Prelude Ksc Bytes FatDirent FatName.

Import Errno FDirent FName.

Module FShort.

Record ShortNameGenerator := mk_sng {
  chksum : Z; long_prefix_bitmap : Z; prefix_chksum_bitmap : Z;
  name_fits : bool; lossy_conv : bool; exact_match : bool; basename_len : nat; short_name : list Z;
}.
Implicit Types (g : ShortNameGenerator).

(** ! # $ % & ' ( ) - @ ^ _ ` { } ~ *)
Definition short_specials : list Z := [33; 35; 36; 37; 38; 39; 40; 41; 45; 64; 94; 95; 96; 123; 125; 126].
Definition allowed (c : Z) : bool := is_letter c || bool_decide (c ∈ short_specials).

(** The bytes written, whether the part fits, and whether it was changed. *)
Fixpoint copy_loop (dst_len : nat) (src : list Z) (dst : list Z) (lossy : bool) : list Z * bool * bool :=
  match src with
  | [] => (dst, true, lossy)
  | c :: src =>
      if (length dst =? dst_len)%nat then (dst, false, lossy)
      else if (c =? 32) || (c =? 46) then copy_loop dst_len src dst true
      else
        let fixed_c := if allowed c then c else 95 in
        copy_loop dst_len src (dst ++ [wrap 8 (ascii_upper fixed_c)]) (lossy || negb (fixed_c =? c))
  end.
Definition copy_short_name_part (dst_len : nat) (src : list Z) : list Z * bool * bool := copy_loop dst_len src [] false.

(** BSD checksum *)
Definition name_checksum (name : list Z) : Z :=
  foldl (fun ck c => wadd 16 (wadd 16 (Z.shiftr ck 1) (wshl 16 ck 15)) (wrap 16 c)) 0 name.

(** The index of the last dot, in characters. *)
Fixpoint rfind_dot (s : list Z) : option nat :=
  match s with
  | [] => None
  | c :: s => match rfind_dot s with Some i => Some (S i) | None => if c =? 46 then Some O else None end
  end.

(** [name[1..]] panics when the name is empty or when its first character takes
    more than one byte. *)
Definition sng_new (name : list Z) : res unit ShortNameGenerator :=
  match name with
  | [] => Panic
  | c :: tail =>
      if negb (len_utf8 c =? 1) then Panic
      else
        let dot_index_opt := S <$> rfind_dot tail in
        let basename_src := match dot_index_opt with Some i => take i name | None => name end in
        let '(base, basename_fits, basename_lossy) := copy_short_name_part 8 basename_src in
        let '(ext, fits, lossy) :=
          match dot_index_opt with
          | Some i =>
              let '(ext, ext_fits, ext_lossy) := copy_short_name_part 3 (drop (i + 1) name) in
              (ext, basename_fits && ext_fits, basename_lossy || ext_lossy)
          | None => ([], basename_fits, basename_lossy)
          end in
        Ok (mk_sng (name_checksum name) 0 0 fits lossy false (length base)
              (splice (replicate 8 SFN_PADDING) 0 base ++ splice (replicate 3 SFN_PADDING) 0 ext))
  end.

Definition generate_dot : list Z := <[0%nat := 46]> (replicate 11 SFN_PADDING).
Definition generate_dotdot : list Z := <[1%nat := 46]> (<[0%nat := 46]> (replicate 11 SFN_PADDING)).

Definition byte_at (bs : list Z) (i : nat) : Z := default 0 (bs !! i).
(** [char::to_digit(10)] *)
Definition to_digit (b : Z) : option Z := if between 48 b 57 then Some (b - 48) else None.

Definition check_for_long_prefix_collision g (sn : list Z) : ShortNameGenerator :=
  let n := Nat.min (basename_len g) 6 in
  if negb (byte_at sn n =? 126) then g
  else match to_digit (byte_at sn (n + 1)) with
       | Some num_suffix =>
           if bool_decide (take n sn = take n (short_name g)) && bool_decide (drop 8 sn = drop 8 (short_name g))
           then mk_sng (chksum g) (Z.lor (long_prefix_bitmap g) (wshl 16 1 num_suffix)) (prefix_chksum_bitmap g)
                  (name_fits g) (lossy_conv g) (exact_match g) (basename_len g) (short_name g)
           else g
       | None => g
       end.

(** [u16::from_str_radix(s, 16)] of four bytes: a sign is allowed. *)
Definition hex_digit (b : Z) : option Z :=
  if between 48 b 57 then Some (b - 48)
  else if between 97 b 102 then Some (b - 87) else if between 65 b 70 then Some (b - 55) else None.
Fixpoint hex_digits (bs : list Z) (acc : Z) : option Z :=
  match bs with [] => Some acc | b :: bs => d ← hex_digit b; hex_digits bs (acc * 16 + d) end.
Definition from_str_radix_16 (bs : list Z) : option Z :=
  match bs with
  | [] => None
  | b :: bs' => if b =? 43 then match bs' with [] => None | _ => hex_digits bs' 0 end else hex_digits bs 0
  end.

Definition check_for_short_prefix_collision g (sn : list Z) : ShortNameGenerator :=
  let n := Nat.min (basename_len g) 2 in
  if negb (byte_at sn (n + 4) =? 126) then g
  else match to_digit (byte_at sn (n + 4 + 1)) with
       | Some num_suffix =>
           if bool_decide (take n sn = take n (short_name g)) && bool_decide (drop 8 sn = drop 8 (short_name g))
              && bool_decide (from_str_radix_16 (take 4 (drop n sn)) = Some (chksum g))
           then mk_sng (chksum g) (long_prefix_bitmap g) (Z.lor (prefix_chksum_bitmap g) (wshl 16 1 num_suffix))
                  (name_fits g) (lossy_conv g) (exact_match g) (basename_len g) (short_name g)
           else g
       | None => g
       end.

Definition add_existing g (sn : list Z) : ShortNameGenerator :=
  let g := if bool_decide (sn = short_name g)
           then mk_sng (chksum g) (long_prefix_bitmap g) (prefix_chksum_bitmap g) (name_fits g) (lossy_conv g) true
                  (basename_len g) (short_name g)
           else g in
  check_for_short_prefix_collision (check_for_long_prefix_collision g sn) sn.

(** [char::from_digit(_, 16)] in upper case *)
Definition hex_char (d : Z) : Z := if d <? 10 then 48 + d else 55 + d.
Definition u16_to_hex (x : Z) : list Z :=
  [hex_char (Z.land (Z.shiftr x 12) 0xF); hex_char (Z.land (Z.shiftr x 8) 0xF);
   hex_char (Z.land (Z.shiftr x 4) 0xF); hex_char (Z.land x 0xF)].

Definition build_prefixed_name g (num : Z) (with_chksum : bool) : list Z :=
  let prefix :=
    if with_chksum then take (Nat.min (basename_len g) 2) (short_name g) ++ u16_to_hex (chksum g)
    else take (Nat.min (basename_len g) 6) (short_name g) in
  let buf := splice (replicate 11 SFN_PADDING) 0 prefix in
  let buf := <[length prefix := 126]> buf in
  let buf := <[(length prefix + 1)%nat := 48 + num]> buf in
  splice buf 8 (drop 8 (short_name g)).

(** The first number from [i] on, [n] of them, whose bit is clear. *)
Fixpoint first_clear (bitmap : Z) (i : Z) (n : nat) : option Z :=
  match n with
  | O => None
  | S n => if Z.land bitmap (wshl 16 1 i) =? 0 then Some i else first_clear bitmap (i + 1) n
  end.

Definition generate g : res Error (list Z) :=
  if negb (lossy_conv g) && name_fits g && negb (exact_match g) then Ok (short_name g)
  else match first_clear (long_prefix_bitmap g) 1 4 with
       | Some i => Ok (build_prefixed_name g i false)
       | None => match first_clear (prefix_chksum_bitmap g) 1 9 with
                 | Some i => Ok (build_prefixed_name g i true)
                 | None => Err EEXIST
                 end
       end.

Definition next_iteration g : ShortNameGenerator :=
  mk_sng (wadd 16 (chksum g) 1) 0 0 (name_fits g) (lossy_conv g) (exact_match g) (basename_len g) (short_name g).
End FShort.

(** * afat32: generated short names are fresh *)
Import Errno FDirent FName FShort.

(** ** Hexadecimal checksums *)
Lemma hex_digit_char d : 0 <= d < 16 -> hex_digit (hex_char d) = Some d /\ hex_char d <> 43.
Proof.
  intros Hd. unfold hex_digit, hex_char, between. destruct (Z.ltb_spec d 10).
  - rewrite (proj2 (Z.leb_le 48 _)), (proj2 (Z.leb_le _ 57)) by lia. simpl. split; [f_equal; lia|lia].
  - rewrite (proj2 (Z.leb_gt _ 57)), andb_false_r by lia. rewrite (proj2 (Z.leb_gt 97 _)) by lia. simpl.
    rewrite (proj2 (Z.leb_le 65 _)), (proj2 (Z.leb_le _ 70)) by lia. simpl. split; [f_equal; lia|lia].
Qed.

Lemma nibble x k : 0 <= k -> Z.land (Z.shiftr x k) 0xF = (x / 2 ^ k) mod 16.
Proof. intros Hk. change 0xF with (Z.ones 4). rewrite Z.land_ones, Z.shiftr_div_pow2 by lia. done. Qed.

Lemma hex_roundtrip x : fits 16 x -> from_str_radix_16 (u16_to_hex x) = Some x.
Proof.
  intros Hx. unfold u16_to_hex. rewrite !nibble by lia.
  assert (E0 : Z.land x 0xF = x mod 16) by (change 0xF with (Z.ones 4); by rewrite Z.land_ones by lia). rewrite E0.
  pose proof (hex_digit_char ((x / 2 ^ 12) mod 16) ltac:(apply Z.mod_pos_bound; lia)) as [E3 Hne].
  pose proof (hex_digit_char ((x / 2 ^ 8) mod 16) ltac:(apply Z.mod_pos_bound; lia)) as [E2 _].
  pose proof (hex_digit_char ((x / 2 ^ 4) mod 16) ltac:(apply Z.mod_pos_bound; lia)) as [E1 _].
  pose proof (hex_digit_char (x mod 16) ltac:(apply Z.mod_pos_bound; lia)) as [E0' _].
  unfold from_str_radix_16. rewrite (proj2 (Z.eqb_neq _ _) Hne). cbn [hex_digits].
  rewrite E3. cbn [mbind option_bind]. rewrite E2. cbn [mbind option_bind]. rewrite E1. cbn [mbind option_bind].
  rewrite E0'. cbn [mbind option_bind]. f_equal. unfold fits in Hx.
  change (2 ^ 12) with 4096. change (2 ^ 8) with 256. change (2 ^ 4) with 16. change (2 ^ 16) with 65536 in Hx.
  Z.to_euclidean_division_equations. lia.
Qed.

(** ** Collisions *)
(** The generator has a name of eleven bytes and a checksum of sixteen bits. *)
Definition gen_ok g : Prop := length (short_name g) = 11%nat /\ fits 16 (chksum g).

Definition long_collision g (sn : list Z) (i : Z) : Prop :=
  let n := Nat.min (basename_len g) 6 in
  byte_at sn n = 126 /\ to_digit (byte_at sn (n + 1)) = Some i
  /\ take n sn = take n (short_name g) /\ drop 8 sn = drop 8 (short_name g).
Definition short_collision g (sn : list Z) (i : Z) : Prop :=
  let n := Nat.min (basename_len g) 2 in
  byte_at sn (n + 4) = 126 /\ to_digit (byte_at sn (n + 4 + 1)) = Some i
  /\ take n sn = take n (short_name g) /\ drop 8 sn = drop 8 (short_name g)
  /\ from_str_radix_16 (take 4 (drop n sn)) = Some (chksum g).

(** A numbered name collides with itself. *)
Lemma to_digit_char i : 0 <= i <= 9 -> to_digit (48 + i) = Some i.
Proof. intros Hi. unfold to_digit, between. rewrite !(proj2 (Z.leb_le _ _)) by lia. simpl. f_equal. lia. Qed.

Lemma build_long g i : gen_ok g -> 0 <= i <= 9 -> long_collision g (build_prefixed_name g i false) i.
Proof.
  intros [Hl _] Hi. pose proof (to_digit_char i Hi) as Hd. unfold long_collision, build_prefixed_name.
  set (n := Nat.min (basename_len g) 6). assert (Hn : (n <= 6)%nat) by lia. clearbody n.
  destruct (short_name g) as [|x0 [|x1 [|x2 [|x3 [|x4 [|x5 [|x6 [|x7 [|x8 [|x9 [|x10 [|x11 sn]]]]]]]]]]]]; try discriminate.
  do 7 (destruct n as [|n]; [split_and!; first [reflexivity|exact Hd]|]). lia.
Qed.

Lemma build_short g i : gen_ok g -> 0 <= i <= 9 -> short_collision g (build_prefixed_name g i true) i.
Proof.
  intros [Hl Hc] Hi. pose proof (to_digit_char i Hi) as Hd. pose proof (hex_roundtrip _ Hc) as Hx.
  unfold short_collision, build_prefixed_name.
  set (n := Nat.min (basename_len g) 2). assert (Hn : (n <= 2)%nat) by lia. clearbody n.
  destruct (short_name g) as [|x0 [|x1 [|x2 [|x3 [|x4 [|x5 [|x6 [|x7 [|x8 [|x9 [|x10 [|x11 sn]]]]]]]]]]]]; try discriminate.
  do 3 (destruct n as [|n]; [split_and!; first [reflexivity|exact Hd|exact Hx]|]). lia.
Qed.

(** ** Recording the existing names *)
Definition same_gen g g' : Prop :=
  chksum g' = chksum g /\ name_fits g' = name_fits g /\ lossy_conv g' = lossy_conv g
  /\ basename_len g' = basename_len g /\ short_name g' = short_name g.

(** What is recorded: an exact match and the bits of the collisions. *)
Record recorded g g' (sns : list (list Z)) : Prop := {
  rec_same : same_gen g g';
  rec_exact : exact_match g' = false -> exact_match g = false /\ short_name g ∉ sns;
  rec_long_mono i : Z.testbit (long_prefix_bitmap g) i = true -> Z.testbit (long_prefix_bitmap g') i = true;
  rec_short_mono i : Z.testbit (prefix_chksum_bitmap g) i = true -> Z.testbit (prefix_chksum_bitmap g') i = true;
  rec_long sn i : sn ∈ sns -> long_collision g sn i -> Z.testbit (long_prefix_bitmap g') i = true;
  rec_short sn i : sn ∈ sns -> short_collision g sn i -> Z.testbit (prefix_chksum_bitmap g') i = true;
}.

Lemma digit_bit b i : to_digit b = Some i -> 0 <= i <= 9 /\ wshl 16 1 i = 2 ^ i.
Proof.
  unfold to_digit, between. destruct (Z.leb_spec 48 b), (Z.leb_spec b 57); simpl; try done. intros [= <-]. split; [lia|].
  rewrite wshl_small, Z.mul_1_l; [done|lia|]. unfold fits. pose proof (Z.pow_le_mono_r 2 (b - 48) 9). lia.
Qed.

Lemma testbit_lor_l a c i : Z.testbit a i = true -> Z.testbit (Z.lor a c) i = true.
Proof. intros E. by rewrite Z.lor_spec, E. Qed.
Lemma testbit_lor_pow a i : 0 <= i -> Z.testbit (Z.lor a (2 ^ i)) i = true.
Proof. intros Hi. rewrite Z.lor_spec, Z.pow2_bits_true by done. apply orb_true_r. Qed.

(** The branches that record nothing. *)
Ltac by_same := cbv zeta; repeat split; try done; intros ? Hc; exfalso; repeat (destruct Hc as [? Hc]); congruence.

Lemma long_check g sn :
  let g' := check_for_long_prefix_collision g sn in
  same_gen g g' /\ exact_match g' = exact_match g /\ prefix_chksum_bitmap g' = prefix_chksum_bitmap g
  /\ (forall i, Z.testbit (long_prefix_bitmap g) i = true -> Z.testbit (long_prefix_bitmap g') i = true)
  /\ (forall i, long_collision g sn i -> Z.testbit (long_prefix_bitmap g') i = true).
Proof.
  unfold check_for_long_prefix_collision, long_collision. set (n := Nat.min _ _).
  destruct (Z.eqb_spec (byte_at sn n) 126) as [E|]; cbn [negb]; [|by_same].
  destruct (to_digit _) as [i0|] eqn:Ed; [|by_same]. pose proof (digit_bit _ _ Ed) as [Hi0 Ew].
  case_bool_decide; [case_bool_decide; cbn [andb]|]; try by_same.
  split; [done|]. split; [done|]. split; [done|]. cbn [long_prefix_bitmap]. rewrite Ew. split.
  - intros i. apply testbit_lor_l.
  - intros i (_ & [= <-] & _). apply testbit_lor_pow. lia.
Qed.

Lemma short_check g sn :
  let g' := check_for_short_prefix_collision g sn in
  same_gen g g' /\ exact_match g' = exact_match g /\ long_prefix_bitmap g' = long_prefix_bitmap g
  /\ (forall i, Z.testbit (prefix_chksum_bitmap g) i = true -> Z.testbit (prefix_chksum_bitmap g') i = true)
  /\ (forall i, short_collision g sn i -> Z.testbit (prefix_chksum_bitmap g') i = true).
Proof.
  unfold check_for_short_prefix_collision, short_collision. set (n := Nat.min _ _).
  destruct (Z.eqb_spec (byte_at sn (n + 4)) 126) as [E|]; cbn [negb]; [|by_same].
  destruct (to_digit _) as [i0|] eqn:Ed; [|by_same]. pose proof (digit_bit _ _ Ed) as [Hi0 Ew].
  case_bool_decide; [case_bool_decide; [case_bool_decide|]|]; cbn [andb]; try by_same.
  split; [done|]. split; [done|]. split; [done|]. cbn [prefix_chksum_bitmap]. rewrite Ew. split.
  - intros i. apply testbit_lor_l.
  - intros i (_ & [= <-] & _). apply testbit_lor_pow. lia.
Qed.

Lemma collision_same g g' sn i :
  same_gen g g' -> (long_collision g sn i <-> long_collision g' sn i) /\ (short_collision g sn i <-> short_collision g' sn i).
Proof. intros (E1 & _ & _ & E2 & E3). unfold long_collision, short_collision. by rewrite E1, E2, E3. Qed.

Lemma same_gen_trans g g1 g2 : same_gen g g1 -> same_gen g1 g2 -> same_gen g g2.
Proof. unfold same_gen. intuition congruence. Qed.

Lemma add_existing_recorded g sn : recorded g (add_existing g sn) [sn].
Proof.
  unfold add_existing. set (g0 := if bool_decide _ then _ else g).
  assert (H0 : same_gen g g0 /\ long_prefix_bitmap g0 = long_prefix_bitmap g /\ prefix_chksum_bitmap g0 = prefix_chksum_bitmap g
    /\ exact_match g0 = exact_match g || bool_decide (sn = short_name g)).
  { unfold g0. case_bool_decide; split_and!; try done; by rewrite ?orb_true_r, ?orb_false_r. }
  destruct H0 as (Hs0 & El & Es & Ex).
  pose proof (long_check g0 sn) as (Hs1 & Ex1 & Es1 & Hm1 & Hc1). set (g1 := check_for_long_prefix_collision g0 sn) in *.
  pose proof (short_check g1 sn) as (Hs2 & Ex2 & El2 & Hm2 & Hc2).
  assert (Hs01 : same_gen g g1) by (by eapply same_gen_trans). split.
  - by eapply same_gen_trans.
  - rewrite Ex2, Ex1, Ex. intros [? Hne%bool_decide_eq_false]%orb_false_iff. split; [done|].
    intros ?%list_elem_of_singleton. congruence.
  - intros i Hi. rewrite El2. apply Hm1. by rewrite El.
  - intros i Hi. apply Hm2. by rewrite Es1, Es.
  - intros sn' i ->%list_elem_of_singleton Hc. rewrite El2. apply Hc1. by apply (collision_same g g0).
  - intros sn' i ->%list_elem_of_singleton Hc. apply Hc2. by apply (collision_same g g1).
Qed.

Lemma add_all_recorded sns : forall g, recorded g (foldl add_existing g sns) sns.
Proof.
  induction sns as [|sn sns IH]; intros g; simpl.
  { split; [repeat split|intros ?; split; [done|apply not_elem_of_nil]|done|done|intros ? ? []%not_elem_of_nil..]. }
  destruct (add_existing_recorded g sn) as [Hs He Hlm Hsm Hlc Hsc]. set (g1 := add_existing g sn) in *.
  destruct (IH g1) as [Hs' He' Hlm' Hsm' Hlc' Hsc']. pose proof Hs as (_ & _ & _ & _ & En). split.
  - by eapply same_gen_trans.
  - intros [He1 Hn]%He'. apply He in He1 as [? Hn1]. split; [done|]. rewrite En in Hn. set_solver.
  - intros i Hi. by apply Hlm', Hlm.
  - intros i Hi. by apply Hsm', Hsm.
  - intros sn' i [->|Hin]%elem_of_cons Hc; [apply Hlm', (Hlc sn); [set_solver|done]|].
    apply (Hlc' sn'); [done|]. by apply (collision_same g g1).
  - intros sn' i [->|Hin]%elem_of_cons Hc; [apply Hsm', (Hsc sn); [set_solver|done]|].
    apply (Hsc' sn'); [done|]. by apply (collision_same g g1).
Qed.

(** ** Freshness *)
Lemma first_clear_spec bm n : forall i j, 0 <= i -> i + Z.of_nat n <= 10 ->
  first_clear bm i n = Some j -> i <= j < i + Z.of_nat n /\ Z.testbit bm j = false.
Proof.
  induction n as [|n IH]; intros i j Hi Hn; cbn [first_clear]; [done|].
  assert (Ew : wshl 16 1 i = 2 ^ i).
  { rewrite wshl_small, Z.mul_1_l; [done|lia|]. unfold fits. pose proof (Z.pow_le_mono_r 2 i 9). lia. }
  rewrite Ew. destruct (Z.eqb_spec (Z.land bm (2 ^ i)) 0) as [E|].
  - intros [= <-]. split; [lia|]. apply (f_equal (fun x => Z.testbit x i)) in E.
    rewrite Z.land_spec, Z.pow2_bits_true, andb_true_r, Z.bits_0 in E by lia. done.
  - intros Hf. apply IH in Hf as [? ?]; [split; [lia|done]|lia|lia].
Qed.

(** Once every short name of a directory has been shown to the generator, the
    name it generates is none of them; it is the name itself in 8.3 form when that
    is exact and unused, and a numbered name otherwise. *)
Theorem generate_fresh g (existing : list (list Z)) sn :
  gen_ok g -> generate (foldl add_existing g existing) = Ok sn -> sn ∉ existing.
Proof.
  intros Hok. destruct (add_all_recorded existing g) as [Hs He _ _ Hl Hsh]. set (g' := foldl add_existing g existing) in *.
  assert (Hok' : gen_ok g') by (destruct Hok; destruct Hs as (E1 & _ & _ & _ & E2); unfold gen_ok; by rewrite E1, E2).
  unfold generate. destruct (negb (lossy_conv g') && name_fits g' && negb (exact_match g')) eqn:Ex.
  - apply andb_true_iff in Ex as [_ Ex%negb_true_iff]. destruct (He Ex) as [_ Hn]. destruct Hs as (_ & _ & _ & _ & ->). naive_solver.
  - destruct (first_clear (long_prefix_bitmap g') 1 4) as [i|] eqn:Ei; [|destruct (first_clear (prefix_chksum_bitmap g') 1 9) as [i|] eqn:Ei'; [|done]];
      intros [= <-] Hin.
    + apply first_clear_spec in Ei as [Hi Hb]; [|lia|lia].
      rewrite (Hl _ i Hin) in Hb; [done|]. apply (collision_same g g'); [done|]. apply build_long; [done|lia].
    + apply first_clear_spec in Ei' as [Hi Hb]; [|lia|lia].
      rewrite (Hsh _ i Hin) in Hb; [done|]. apply (collision_same g g'); [done|]. apply build_short; [done|lia].
Qed.

(** ** The generator of a name *)
Lemma copy_loop_len k src : forall dst lossy, (length dst <= k)%nat -> (length (copy_loop k src dst lossy).1.1 <= k)%nat.
Proof.
  induction src as [|c src IH]; intros dst lossy Hd; [done|]. cbn [copy_loop].
  destruct (Nat.eqb_spec (length dst) k); [done|]. destruct ((c =? 32) || (c =? 46)); apply IH; [done|].
  rewrite length_app. simpl. lia.
Qed.

Lemma name_checksum_fits name : fits 16 (name_checksum name).
Proof.
  unfold name_checksum. assert (H0 : fits 16 0) by (unfold fits; lia). revert H0. generalize 0.
  induction name as [|c name IH]; intros ck Hck; [done|]. apply IH. unfold wadd, wrap, fits. apply Z.mod_pos_bound. lia.
Qed.

Lemma sng_new_ok name g : sng_new name = Ok g -> gen_ok g.
Proof.
  unfold sng_new. destruct name as [|c tail]; [done|]. destruct (negb _); [done|].
  unfold copy_short_name_part.
  set (bsrc := match S <$> rfind_dot tail with Some i => take i (c :: tail) | None => c :: tail end).
  pose proof (copy_loop_len 8 bsrc [] false ltac:(simpl; lia)) as Hb.
  destruct (copy_loop 8 bsrc [] false) as [[base bf] bl]. simpl in Hb.
  assert (Hpart : forall k (p : list Z), (length p <= k)%nat -> length (splice (replicate k SFN_PADDING) 0 p) = k).
  { intros k p Hp. rewrite length_splice; [apply length_replicate|lia|rewrite length_replicate; lia]. }
  destruct (S <$> rfind_dot tail) as [i|].
  - pose proof (copy_loop_len 3 (drop (i + 1) (c :: tail)) [] false ltac:(simpl; lia)) as He.
    destruct (copy_loop 3 _ [] false) as [[ext ef] el]. simpl in He. intros [= <-].
    split; [|apply name_checksum_fits]. cbv beta iota delta [short_name].
    rewrite length_app. exact (f_equal2 Nat.add (Hpart 8%nat base Hb) (Hpart 3%nat ext He)).
  - intros [= <-]. split; [|apply name_checksum_fits]. cbv beta iota delta [short_name].
    rewrite length_app. exact (f_equal2 Nat.add (Hpart 8%nat base Hb) (Hpart 3%nat [] ltac:(simpl; lia))).
Qed.

Definition sample_gen : ShortNameGenerator :=
  match sng_new [84; 101; 120; 116; 70; 105; 108; 101; 49; 46; 84; 120; 116] with Ok g => g | _ => mk_sng 0 0 0 true true true 0 [] end.

(** ** Failing *)
(** The number the checksum form of a name would have. *)
Definition hex_of g (sn : list Z) : option Z := from_str_radix_16 (take 4 (drop (Nat.min (basename_len g) 2) sn)).

Lemma add_existing_bits g sn i : Z.testbit (prefix_chksum_bitmap (add_existing g sn)) i = true ->
  Z.testbit (prefix_chksum_bitmap g) i = true \/ hex_of g sn = Some (chksum g).
Proof.
  unfold add_existing. set (g0 := if bool_decide _ then _ else g).
  assert (H0 : chksum g0 = chksum g /\ basename_len g0 = basename_len g /\ prefix_chksum_bitmap g0 = prefix_chksum_bitmap g).
  { unfold g0. by case_bool_decide. }
  destruct H0 as (Ec & Eb & Em). pose proof (long_check g0 sn) as ((Ec1 & _ & _ & Eb1 & _) & _ & Em1 & _ & _).
  set (g1 := check_for_long_prefix_collision g0 sn) in *. rewrite <- Em, <- Em1. unfold hex_of. rewrite <- Eb, <- Eb1, <- Ec, <- Ec1.
  clearbody g1. clear. unfold check_for_short_prefix_collision.
  destruct (negb _); [by left|]. destruct (to_digit _) as [i0|]; [|by left].
  destruct (bool_decide _ && bool_decide _ && _) eqn:E; [|by left]. intros _. right.
  apply andb_true_iff in E as [_ E]. by apply bool_decide_eq_true in E.
Qed.

Lemma add_all_bits sns i : forall g, Z.testbit (prefix_chksum_bitmap (foldl add_existing g sns)) i = true ->
  Z.testbit (prefix_chksum_bitmap g) i = true \/ exists sn, sn ∈ sns /\ hex_of g sn = Some (chksum g).
Proof.
  induction sns as [|sn sns IH]; intros g Hb; [by left|]. simpl in Hb.
  destruct (rec_same _ _ _ (add_existing_recorded g sn)) as (Ec & _ & _ & Eb & _).
  apply IH in Hb as [Hb|(sn' & Hin & Hh)].
  - apply add_existing_bits in Hb as [|]; [by left|]. right. exists sn. split; [apply list_elem_of_here|done].
  - right. exists sn'. split; [by apply list_elem_of_further|]. unfold hex_of in *. by rewrite <- Eb, <- Ec.
Qed.

Lemma first_clear_none bm n : forall i, 0 <= i -> i + Z.of_nat (S n) <= 16 -> first_clear bm i (S n) = None -> Z.testbit bm i = true.
Proof.
  intros i Hi Hl. cbn [first_clear]. destruct (Z.eqb_spec (Z.land bm (wshl 16 1 i)) 0) as [|Hne]; [done|]. intros _.
  destruct (Z.testbit bm i) eqn:Eb; [done|]. exfalso. apply Hne. 
  rewrite wshl_small, Z.mul_1_l by (rewrite ?Z.mul_1_l; unfold fits; pose proof (Z.pow_lt_mono_r 2 i 16); lia).
  apply Z.bits_inj'. intros k Hk. rewrite Z.land_spec, Z.bits_0, Z.pow2_bits_eqb by lia.
  destruct (Z.eqb_spec i k) as [->|]; [by rewrite Eb|apply andb_false_r].
Qed.

(** When no name can be generated, one of the existing names has the checksum. *)
Lemma generate_fails g (existing : list (list Z)) e :
  prefix_chksum_bitmap g = 0 -> generate (foldl add_existing g existing) = Err e ->
  exists sn, sn ∈ existing /\ hex_of g sn = Some (chksum g).
Proof.
  intros H0. unfold generate. destruct (_ && _ && _); [done|]. destruct (first_clear _ 1 4); [done|].
  destruct (first_clear _ 1 9) eqn:Ef; [done|]. intros _. apply first_clear_none in Ef; [|lia|simpl; lia].
  apply add_all_bits in Ef as [Hb|]; [|done]. by rewrite H0, Z.testbit_0_l in Hb.
Qed.

(** TextFile1.Txt in a directory that has TEXTFI~1.TXT becomes TEXTFI~2.TXT. *)
Lemma generate_fresh_witness :
  generate (foldl add_existing sample_gen [[84; 69; 88; 84; 70; 73; 126; 49; 84; 88; 84]]) = Ok [84; 69; 88; 84; 70; 73; 126; 50; 84; 88; 84]
  /\ [84; 69; 88; 84; 70; 73; 126; 50; 84; 88; 84] ∉ [[84; 69; 88; 84; 70; 73; 126; 49; 84; 88; 84]].
Proof.
  assert (E : generate (foldl add_existing sample_gen [[84; 69; 88; 84; 70; 73; 126; 49; 84; 88; 84]])
    = Ok [84; 69; 88; 84; 70; 73; 126; 50; 84; 88; 84]) by (vm_compute; reflexivity).
  split; [exact E|]. apply (generate_fresh sample_gen _ _); [|exact E].
  apply (sng_new_ok [84; 101; 120; 116; 70; 105; 108; 101; 49; 46; 84; 120; 116]). vm_compute. reflexivity.
Defined.

(** A name that starts with a character outside ASCII makes the generator panic. *)
Example short_name_panics : sng_new [0xE9; 46; 99] = Panic.
Proof. reflexivity. Qed.
