(* ===== verification/Path.v ===== *)
(** * umifs: paths

    mizu/lib/umifs/src/path.rs.  A string is the list of its characters; a slice of
    a string is given with its position where the code computes with it.  The
    iterator over components is its remaining source. *)

From S2P Require Import Prelude.

Module Pth.

Notation str := (list Z) (only parsing).

Definition STEM_SEP : Z := 46.
Definition CURRENT_STR : str := [46].
Definition PARENT_STR : str := [46; 46].
Definition SEP : Z := 47.

(** ** Slices of strings *)
Fixpoint trim_start_matches (s : str) : str :=
  match s with c :: s' => if c =? SEP then trim_start_matches s' else s | [] => [] end.
Definition trim_end_matches (s : str) : str := reverse (trim_start_matches (reverse s)).
Fixpoint find (ch : Z) (s : str) : option nat :=
  match s with [] => None | c :: s => if c =? ch then Some O else S <$> find ch s end.
Fixpoint rfind (ch : Z) (s : str) : option nat :=
  match s with
  | [] => None
  | c :: s => match rfind ch s with Some i => Some (S i) | None => if c =? ch then Some O else None end
  end.

(** [rsplitn(2, '.')]: what is after the last dot and what is before it. *)
Definition split_file_at_dot (input : str) : option str * option str :=
  if bool_decide (input = PARENT_STR) then (Some input, None)
  else
    let '(before, after) :=
      match rfind STEM_SEP input with
      | Some i => (Some (take i input), Some (drop (i + 1) input))
      | None => (None, Some input)
      end in
    if bool_decide (before = Some []) then (Some input, None) else (before, after).

(** ** Components *)
Inductive Component := CurDir | ParentDir | Normal (name : str).
#[export] Instance Component_eq_dec : EqDecision Component.
Proof. solve_decision. Defined.

Definition as_str (c : Component) : str :=
  match c with CurDir => CURRENT_STR | ParentDir => PARENT_STR | Normal name => name end.

Definition classify (slice : str) : option Component :=
  if bool_decide (slice = []) then None
  else if bool_decide (slice = CURRENT_STR) then Some CurDir
  else if bool_decide (slice = PARENT_STR) then Some ParentDir
  else Some (Normal slice).

Definition next (source : str) : option Component * str :=
  let source := trim_start_matches source in
  match find SEP source with
  | Some i => (classify (take i source), trim_start_matches (drop i source))
  | None => (classify source, [])
  end.

Definition next_back (source : str) : option Component * str :=
  let source := trim_end_matches source in
  match rfind SEP source with
  | Some i => (classify (drop (i + 1) source), trim_end_matches (take (i + 1) source))
  | None => (classify source, [])
  end.
(** Where the slice that [next_back] returns starts. *)
Definition next_back_pos (source : str) : nat :=
  match rfind SEP (trim_end_matches source) with Some i => i + 1 | None => 0 end.

(** Draining an iterator; every component takes at least one character. *)
Fixpoint drain_next (fuel : nat) (source : str) : list Component :=
  match fuel with
  | O => []
  | S fuel => match next source with (Some c, source) => c :: drain_next fuel source | (None, _) => [] end
  end.
Fixpoint drain_next_back (fuel : nat) (source : str) : list Component :=
  match fuel with
  | O => []
  | S fuel => match next_back source with (Some c, source) => c :: drain_next_back fuel source | (None, _) => [] end
  end.
Definition components (p : str) : list Component := drain_next (length p) p.
Definition iter (p : str) : list str := as_str <$> components p.

(** [PartialEq] of paths. *)
Definition path_eq (p q : str) : bool := bool_decide (components p = components q).

(** ** Path *)
Definition starts_with_sep (p : str) : bool := match p with c :: _ => c =? SEP | [] => false end.
Definition ends_with_sep (p : str) : bool := match last p with Some c => c =? SEP | None => false end.

(** [while let Some(CurDir) = it.next_back() {}] *)
Fixpoint skip_cur (fuel : nat) (source : str) : str :=
  match fuel with
  | O => source
  | S fuel => match next_back source with (Some CurDir, source) => skip_cur fuel source | (_, source) => source end
  end.
Definition parent (p : str) : option str :=
  if bool_decide (p = []) then None else Some (skip_cur (S (length p)) p).

(** The name with its position in the path. *)
Fixpoint file_name_at (fuel : nat) (source : str) : option (str * nat) :=
  match fuel with
  | O => None
  | S fuel =>
      let pos := next_back_pos source in
      match next_back source with
      | (Some CurDir, source) => file_name_at fuel source
      | (Some (Normal name), _) => Some (name, pos)
      | _ => None
      end
  end.
Definition file_name (p : str) : option str := fst <$> file_name_at (S (length p)) p.

(** [iter_after] over the remaining sources of two iterators. *)
Fixpoint iter_after (fuel : nat) (step : str -> option Component * str) (iter prefix : str) : option str :=
  match fuel with
  | O => None
  | S fuel =>
      match step iter, step prefix with
      | (Some x, iter_next), (Some y, prefix) => if bool_decide (x = y) then iter_after fuel step iter_next prefix else None
      | (_, _), (None, _) => Some iter
      | (None, _), (Some _, _) => None
      end
  end.
Definition strip_prefix (p base : str) : option str := iter_after (S (length base)) next p base.
Definition starts_with (p base : str) : bool := bool_decide (is_Some (iter_after (S (length base)) next p base)).
Definition ends_with (p child : str) : bool := bool_decide (is_Some (iter_after (S (length child)) next_back p child)).

Definition is_parent (c : Component) : bool := match c with ParentDir => true | _ => false end.
Definition is_normal (c : Component) : bool := match c with Normal _ => true | _ => false end.
Fixpoint skip_while (f : Component -> bool) (l : list Component) : list Component :=
  match l with c :: l' => if f c then skip_while f l' else l | [] => [] end.
Definition is_normalized (p : str) : bool := forallb is_normal (skip_while is_parent (components p)).

Definition opt_or {A} (a b : option A) : option A := match a with Some _ => a | None => b end.
Definition opt_and {A} (a b : option A) : option A := match a with Some _ => b | None => None end.
Definition file_stem (p : str) : option str :=
  name ← file_name p; let '(before, after) := split_file_at_dot name in opt_or before after.
Definition extension (p : str) : option str :=
  name ← file_name p; let '(before, after) := split_file_at_dot name in opt_and before after.

(** ** PathBuf *)
Definition push (buf other : str) : str :=
  let other := if starts_with_sep other then drop 1 other else other in
  let buf := if negb (bool_decide (buf = [])) && negb (ends_with_sep buf) then buf ++ [SEP] else buf in
  buf ++ other.
Definition join (p q : str) : str := push p q.

Definition pop (buf : str) : str * bool :=
  match length <$> parent buf with Some len => (take len buf, true) | None => (buf, false) end.

Definition set_file_name (buf name : str) : str :=
  let buf := match file_name buf with Some _ => (pop buf).1 | None => buf end in push buf name.
Definition with_file_name (p name : str) : str := set_file_name p name.

(** The path is cut where its stem ends. *)
Definition set_extension (buf ext : str) : str * bool :=
  match file_name_at (S (length buf)) buf with
  | None => (buf, false)
  | Some (name, pos) =>
      let '(before, after) := split_file_at_dot name in
      match opt_or before after with
      | None => (buf, false)
      | Some stem =>
          let buf := take (pos + length stem) buf in
          (if bool_decide (ext = []) then buf else buf ++ [STEM_SEP] ++ ext, true)
      end
  end.
Definition with_extension (p ext : str) : str := (set_extension p ext).1.

Fixpoint relative_traversal (buf : str) (cs : list Component) : str :=
  match cs with
  | [] => buf
  | CurDir :: cs => relative_traversal buf cs
  | ParentDir :: cs =>
      relative_traversal
        (match (next_back buf).1 with Some ParentDir | None => push buf PARENT_STR | _ => (pop buf).1 end) cs
  | Normal name :: cs => relative_traversal (push buf name) cs
  end.

Definition normalize (p : str) : str := relative_traversal [] (components p).
Definition join_normalized (p q : str) : str := relative_traversal (relative_traversal [] (components p)) (components q).

(** The loop that skips the common components: what each iterator returned last
    and what remains. *)
Fixpoint skip_common (f t : list Component) : option Component * option Component * list Component * list Component :=
  match f, t with
  | x :: f', y :: t' => if bool_decide (x = y) then skip_common f' t' else (Some x, Some y, f', t')
  | x :: f', [] => (Some x, None, f', [])
  | [], y :: t' => (None, Some y, [], t')
  | [], [] => (None, None, [], [])
  end.
Definition relative (p q : str) : str :=
  let from := relative_traversal [] (components p) in
  let to := relative_traversal [] (components q) in
  let '(lead_from, lead_to, it_from, it_to) := skip_common (components from) (components to) in
  if bool_decide (lead_from = Some ParentDir) then []
  else
    let head := option_list lead_from ++ it_from in
    let tail := option_list lead_to ++ it_to in
    fold_left (fun buf c => push buf (as_str c)) (((fun _ => ParentDir) <$> head) ++ tail) [].
End Pth.

(** * umifs: paths, their properties

    The reference for a path is the list of its components: the non-empty pieces
    between separators.  Every operation on strings is related to it. *)
Import Pth.

(** ** The reference *)
Fixpoint split (s : list Z) : list (list Z) :=
  match s with
  | [] => [[]]
  | c :: s => if c =? SEP then [] :: split s
              else match split s with p :: ps => (c :: p) :: ps | [] => [[c]] end
  end.
Definition comps (s : list Z) : list Component := omap classify (split s).

Definition no_sep (s : list Z) : Prop := Forall (fun c => c <> SEP) s.

Lemma split_sep a b : split (a ++ SEP :: b) = split a ++ split b.
Proof.
  induction a as [|c a IH]; [done|]. cbn [split app]. destruct (c =? SEP); [by rewrite IH|].
  rewrite IH. destruct (split a) as [|p ps] eqn:E; [|done].
  destruct a as [|c' a]; [done|]. cbn [split] in E. destruct (c' =? SEP); [done|]. by destruct (split a).
Qed.

Lemma comps_sep a b : comps (a ++ SEP :: b) = comps a ++ comps b.
Proof. unfold comps. by rewrite split_sep, omap_app. Qed.

Lemma split_no_sep s : no_sep s -> split s = [s].
Proof. induction 1 as [|c s Hc _ IH]; [done|]. cbn [split]. rewrite (proj2 (Z.eqb_neq _ _) Hc). by rewrite IH. Qed.

Lemma comps_no_sep s : no_sep s -> comps s = option_list (classify s).
Proof. intros Hs. unfold comps. rewrite split_no_sep by done. simpl. by destruct (classify s). Qed.

Lemma comps_sep_l s : comps (SEP :: s) = comps s.
Proof. done. Qed.
Lemma comps_sep_r s : comps (s ++ [SEP]) = comps s.
Proof. rewrite comps_sep. apply app_nil_r. Qed.

Lemma comps_nil : comps [] = [].
Proof. done. Qed.
#[export] Hint Rewrite comps_sep comps_sep_l comps_sep_r comps_nil app_nil_r : path.

(** ** Trimming *)
Lemma trim_start_spec s : exists k, s = replicate k SEP ++ trim_start_matches s
  /\ (forall c r, trim_start_matches s = c :: r -> c <> SEP).
Proof.
  induction s as [|c s (k & E & Hh)]; [by exists 0%nat|]. cbn [trim_start_matches].
  destruct (Z.eqb_spec c SEP) as [->|]; [exists (S k); simpl; by rewrite <- E|].
  exists 0%nat. split; [done|]. by intros c' r [= <- _].
Qed.

Lemma comps_seps k s : comps (replicate k SEP ++ s) = comps s.
Proof. induction k as [|k IH]; [done|]. simpl. by rewrite comps_sep_l. Qed.
Lemma comps_seps_r k s : comps (s ++ replicate k SEP) = comps s.
Proof.
  induction k as [|k IH]; [by rewrite app_nil_r|]. rewrite replicate_S_end, app_assoc, comps_sep_r. done.
Qed.

Lemma comps_trim_start s : comps (trim_start_matches s) = comps s.
Proof. destruct (trim_start_spec s) as (k & E & _). rewrite E at 2. by rewrite comps_seps. Qed.

Lemma trim_end_spec s : exists k, s = trim_end_matches s ++ replicate k SEP
  /\ (forall r c, trim_end_matches s = r ++ [c] -> c <> SEP).
Proof.
  unfold trim_end_matches. destruct (trim_start_spec (reverse s)) as (k & E & Hh). exists k. split.
  - apply (f_equal reverse) in E. rewrite reverse_involutive, reverse_app, reverse_replicate in E. done.
  - intros r c Er. apply (Hh c (reverse r)). apply (f_equal reverse) in Er.
    by rewrite reverse_involutive, reverse_app in Er.
Qed.

Lemma comps_trim_end s : comps (trim_end_matches s) = comps s.
Proof. destruct (trim_end_spec s) as (k & E & _). rewrite E at 2. by rewrite comps_seps_r. Qed.

(** ** Searching *)
Lemma find_spec s : match find SEP s with
  | Some i => exists a b, s = a ++ SEP :: b /\ no_sep a /\ length a = i
  | None => no_sep s
  end.
Proof.
  induction s as [|c s IH]; simpl; [by apply Forall_nil|]. destruct (Z.eqb_spec c SEP) as [->|Hc].
  - exists [], s. split; [done|]. split; [by apply Forall_nil|done].
  - destruct (find SEP s) as [i|]; simpl.
    + destruct IH as (a & b & -> & Ha & Hl). exists (c :: a), b. split; [done|]. split; [by apply Forall_cons_2|simpl; lia].
    + by apply Forall_cons_2.
Qed.

Lemma rfind_spec ch s : match rfind ch s with
  | Some i => exists a b, s = a ++ ch :: b /\ Forall (fun c => c <> ch) b /\ length a = i
  | None => Forall (fun c => c <> ch) s
  end.
Proof.
  induction s as [|c s IH]; simpl; [by apply Forall_nil|]. destruct (rfind ch s) as [i|].
  - destruct IH as (a & b & -> & Hb & Hl). exists (c :: a), b. split; [done|]. split; [done|simpl; lia].
  - destruct (Z.eqb_spec c ch) as [->|]; [by exists [], s|by apply Forall_cons_2].
Qed.

Lemma classify_None s : classify s = None <-> s = [].
Proof. unfold classify. repeat case_bool_decide; naive_solver. Qed.

Lemma classify_as_str s c : classify s = Some c -> as_str c = s.
Proof. unfold classify. repeat case_bool_decide; naive_solver. Qed.

(** ** One step from the front and from the back *)
Lemma next_spec s :
  match next s with
  | (Some c, s') => comps s = c :: comps s' /\ (length s' < length s)%nat /\ exists pre, s = pre ++ s'
  | (None, _) => comps s = []
  end.
Proof.
  unfold next. destruct (trim_start_spec s) as (k & E & Hh). set (t := trim_start_matches s) in *.
  assert (Ec : comps s = comps t) by (unfold t; by rewrite comps_trim_start).
  assert (Hlen : (length t <= length s)%nat) by (rewrite E, length_app; lia).
  pose proof (find_spec t) as Hf. destruct (find SEP t) as [i|].
  - destruct Hf as (a & b & Et & Ha & Hl). rewrite Et, <- Hl, take_app_length, drop_app_length.
    destruct (classify a) as [c|] eqn:Ea.
    + rewrite Ec, Et, comps_sep, (comps_no_sep a) by done. rewrite Ea, comps_trim_start. split; [done|].
      destruct (trim_start_spec (SEP :: b)) as (k' & E' & _). split.
      * assert (Hl' : (length (trim_start_matches (SEP :: b)) <= length b)%nat).
        { cbn [trim_start_matches]. rewrite Z.eqb_refl. destruct (trim_start_spec b) as (kb & Eb & _).
          rewrite Eb at 2. rewrite length_app. lia. }
        rewrite Et, length_app in Hlen. simpl in Hlen. lia.
      * exists (replicate k SEP ++ a ++ replicate k' SEP). rewrite E, Et, <- !app_assoc. by rewrite <- E'.
    + apply classify_None in Ea as ->. simpl in Et. by destruct (Hh SEP b Et).
  - destruct (classify t) as [c|] eqn:Ea.
    + rewrite Ec, comps_no_sep, Ea by done. split; [done|]. split; [|exists s; by rewrite app_nil_r].
      destruct t as [|c' t]; [done|]. simpl in Hlen |- *. lia.
    + apply classify_None in Ea. by rewrite Ec, Ea.
Qed.

Lemma next_back_spec s :
  match next_back s with
  | (Some c, s') => comps s = comps s' ++ [c] /\ (length s' < length s)%nat /\ exists post, s = s' ++ post
  | (None, _) => comps s = []
  end.
Proof.
  unfold next_back. destruct (trim_end_spec s) as (k & E & Hh). set (t := trim_end_matches s) in *.
  assert (Ec : comps s = comps t) by (unfold t; by rewrite comps_trim_end).
  assert (Hlen : (length t <= length s)%nat) by (rewrite E, length_app; lia).
  pose proof (rfind_spec SEP t) as Hf. destruct (rfind SEP t) as [i|].
  - destruct Hf as (a & b & Et & Hb & Hl).
    assert (E1 : drop (i + 1) t = b /\ take (i + 1) t = a ++ [SEP]).
    { rewrite Et. replace (a ++ SEP :: b) with ((a ++ [SEP]) ++ b) by (by rewrite <- app_assoc).
      rewrite drop_app_length', take_app_length' by (rewrite length_app; simpl; lia). done. }
    destruct E1 as [-> ->]. destruct (classify b) as [c|] eqn:Ea.
    + rewrite Ec, Et, comps_sep, (comps_no_sep b), Ea, comps_trim_end, comps_sep_r by done. split; [done|].
      destruct (trim_end_spec (a ++ [SEP])) as (k' & E' & _).
      assert (Hb1 : (0 < length b)%nat) by (destruct b; [done|simpl; lia]). split.
      * rewrite Et, length_app in Hlen. simpl in Hlen. apply (f_equal length) in E'. rewrite !length_app in E'. simpl in E'. lia.
      * exists (replicate k' SEP ++ b ++ replicate k SEP). rewrite E, Et. rewrite app_assoc, <- E', <- !app_assoc. done.
    + apply classify_None in Ea as ->. destruct (Hh a SEP) as []; [|done]. by rewrite Et.
  - destruct (classify t) as [c|] eqn:Ea.
    + rewrite Ec, comps_no_sep, Ea by done. split; [done|]. split; [|by exists s].
      destruct t as [|c' t]; [done|]. simpl in Hlen |- *. lia.
    + apply classify_None in Ea. by rewrite Ec, Ea.
Qed.

Lemma drain_next_eq fuel : forall s, (length s <= fuel)%nat -> drain_next fuel s = comps s.
Proof.
  induction fuel as [|fuel IH]; intros s Hl; [destruct s; [done|simpl in Hl; lia]|]. cbn [drain_next].
  pose proof (next_spec s) as Hn. destruct (next s) as [[c|] s'].
  - destruct Hn as (-> & Hs & _). f_equal. apply IH. lia.
  - done.
Qed.

Lemma drain_next_back_eq fuel : forall s, (length s <= fuel)%nat -> drain_next_back fuel s = reverse (comps s).
Proof.
  induction fuel as [|fuel IH]; intros s Hl; [destruct s; [done|simpl in Hl; lia]|]. cbn [drain_next_back].
  pose proof (next_back_spec s) as Hn. destruct (next_back s) as [[c|] s'].
  - destruct Hn as (-> & Hs & _). rewrite reverse_snoc. f_equal. apply IH. lia.
  - by rewrite Hn.
Qed.

Lemma components_eq p : components p = comps p.
Proof. by apply drain_next_eq. Qed.

(** Walking over a path from the front yields the non-empty pieces between its
    separators in order, walking from the back yields the same pieces in reverse;
    repeated, leading and trailing separators make no difference. *)
Theorem components_spec (p : list Z) :
  components p = comps p /\ drain_next_back (length p) p = reverse (comps p).
Proof. split; [apply components_eq|by apply drain_next_back_eq]. Qed.

(** ** Joining *)
Lemma comps_push a b : comps (push a b) = comps a ++ comps b.
Proof.
  unfold push, starts_with_sep, ends_with_sep.
  set (b' := if match b with c :: _ => c =? SEP | [] => false end then drop 1 b else b).
  assert (Eb : comps b' = comps b).
  { unfold b'. destruct b as [|c b]; [done|]. destruct (Z.eqb_spec c SEP) as [->|]; done. }
  rewrite <- Eb. destruct a as [|a0 a _] using rev_ind; [done|]. rewrite last_snoc.
  rewrite bool_decide_false by (by destruct a). cbn [negb andb].
  destruct (Z.eqb_spec a0 SEP) as [->|]; cbn [negb].
  - rewrite comps_sep_r, <- app_assoc. apply comps_sep.
  - rewrite <- (app_assoc (a ++ [a0])). apply comps_sep.
Qed.

Lemma comps_push_name a c : comps (push a (as_str c)) = comps a ++ comps (as_str c).
Proof. apply comps_push. Qed.

(** ** The parent *)
Definition is_cur (c : Component) : bool := match c with CurDir => true | _ => false end.
(** The components without trailing [.]. *)
Definition strip_cur (l : list Component) : list Component := reverse (skip_while is_cur (reverse l)).

Lemma strip_cur_snoc l c : strip_cur (l ++ [c]) = if is_cur c then strip_cur l else l ++ [c].
Proof.
  unfold strip_cur. rewrite reverse_snoc. cbn [skip_while]. destruct (is_cur c); [done|].
  by rewrite reverse_cons, reverse_involutive.
Qed.

Lemma skip_cur_spec fuel : forall s, (length s < fuel)%nat ->
  (exists post, s = skip_cur fuel s ++ post) /\
  comps (skip_cur fuel s) = removelast (strip_cur (comps s)).
Proof.
  induction fuel as [|fuel IH]; intros s Hl; [lia|]. cbn [skip_cur].
  pose proof (next_back_spec s) as Hn. destruct (next_back s) as [[c|] s'] eqn:En.
  - destruct Hn as (Ec & Hs & post & Ep). rewrite Ec, strip_cur_snoc.
    destruct c; cbn [is_cur]; try (split; [by exists post|by rewrite removelast_last]).
    destruct (IH s' ltac:(lia)) as [[post' Ep'] Ec']. split; [|done]. exists (post' ++ post). by rewrite app_assoc, <- Ep'.
  - rewrite Hn. assert (Hs' : s' = []).
    { revert En. unfold next_back. pose proof (rfind_spec SEP (trim_end_matches s)) as Hr.
      destruct (trim_end_spec s) as (k & _ & Hh). destruct (rfind SEP (trim_end_matches s)) as [i|]; [|by intros [= _ <-]].
      destruct Hr as (a & b & Et & _ & Hl'). intros [= Hc _]. apply classify_None in Hc.
      rewrite Et in Hc. replace (a ++ SEP :: b) with ((a ++ [SEP]) ++ b) in Hc by (by rewrite <- app_assoc).
      rewrite drop_app_length' in Hc by (rewrite length_app; simpl; lia). subst b. by destruct (Hh a SEP Et). }
    subst s'. split; [by exists s|done].
Qed.

Lemma parent_spec p :
  match parent p with
  | None => p = []
  | Some q => (exists post, p = q ++ post) /\ comps q = removelast (strip_cur (comps p))
  end.
Proof.
  unfold parent. case_bool_decide; [done|]. apply skip_cur_spec. lia.
Qed.

Lemma pop_comps p : comps (pop p).1 = removelast (strip_cur (comps p)).
Proof.
  unfold pop. pose proof (parent_spec p) as Hp. destruct (parent p) as [q|]; simpl.
  - destruct Hp as [[post ->] Hc]. by rewrite take_app_length.
  - by rewrite Hp.
Qed.

(** Joining two paths appends their components, popping removes the last one
    (with the [.] behind it), and so popping what was joined gives the path back. *)
Theorem push_pop_spec (p name : list Z) :
  comps (push p name) = comps p ++ comps name
  /\ comps (pop p).1 = removelast (strip_cur (comps p))
  /\ (no_sep name -> name <> [] -> name <> CURRENT_STR -> path_eq (pop (push p name)).1 p = true).
Proof.
  split; [apply comps_push|]. split; [apply pop_comps|]. intros Hn Hne Hc. unfold path_eq. apply bool_decide_eq_true.
  rewrite !components_eq, pop_comps, comps_push, (comps_no_sep name) by done. unfold classify.
  rewrite !bool_decide_false by done.
  case_bool_decide; simpl; rewrite strip_cur_snoc; cbn [is_cur]; by rewrite removelast_last.
Qed.

(** ** Prefixes *)
Lemma iter_after_next fuel : forall p b, (length b < fuel)%nat ->
  match iter_after fuel next p b with
  | Some r => comps p = comps b ++ comps r
  | None => forall l, comps p <> comps b ++ l
  end.
Proof.
  induction fuel as [|fuel IH]; intros p b Hl; [lia|]. cbn [iter_after].
  pose proof (next_spec p) as Hp. pose proof (next_spec b) as Hb.
  destruct (next p) as [[x|] p'], (next b) as [[y|] b'].
  - destruct Hp as (-> & _ & _), Hb as (-> & Hlb & _). case_bool_decide as Exy.
    + subst y. specialize (IH p' b' ltac:(lia)). destruct (iter_after fuel next p' b'); [by rewrite IH|].
      intros l [= E]. by apply (IH l).
    + intros l [= E _]. done.
  - by rewrite Hb.
  - destruct Hb as (-> & _ & _). rewrite Hp. by intros l.
  - by rewrite Hb.
Qed.

(** Stripping a prefix succeeds exactly when the components of the base are the
    first components of the path, and what remains has the others. *)
Theorem strip_prefix_spec (p base : list Z) :
  match strip_prefix p base with
  | Some r => comps p = comps base ++ comps r
  | None => forall l, comps p <> comps base ++ l
  end.
Proof. apply iter_after_next. lia. Qed.

(** ** Normal form *)
(** One component on top of a stack of components, the last one first. *)
Definition norm_step (acc : list Component) (c : Component) : list Component :=
  match c with
  | CurDir => acc
  | ParentDir => match acc with Normal _ :: acc' => acc' | _ => ParentDir :: acc end
  | Normal _ => c :: acc
  end.
Definition norm (cs : list Component) : list Component := reverse (fold_left norm_step cs []).

(** Components as they come out of a path. *)
Definition comp_ok (c : Component) : Prop := comps (as_str c) = [c].

Lemma comps_ok s : Forall comp_ok (comps s).
Proof.
  unfold comps. apply Forall_forall. intros c Hc. apply list_elem_of_omap in Hc as (piece & Hin & Hcl).
  assert (Hns : no_sep piece).
  { clear Hcl. revert piece Hin. induction s as [|x s IH]; intros piece; cbn [split].
    - intros ->%list_elem_of_singleton. by apply Forall_nil.
    - destruct (Z.eqb_spec x SEP); [intros [->|Hin]%elem_of_cons; [by apply Forall_nil|by apply IH]|].
      destruct (split s) as [|q qs]; [intros ->%list_elem_of_singleton; by apply Forall_singleton|].
      intros [->|Hin]%elem_of_cons; [|apply IH; set_solver]. apply Forall_cons_2; [done|]. apply IH. set_solver. }
  unfold comp_ok. rewrite (classify_as_str _ _ Hcl), comps_no_sep, Hcl by done. done.
Qed.

(** No [.] on the stack, and [..] only at the bottom. *)
Inductive stack_ok : list Component -> Prop :=
| stack_parents k : stack_ok (replicate k ParentDir)
| stack_normal n l : stack_ok l -> stack_ok (Normal n :: l).

Lemma norm_step_ok acc c : stack_ok acc -> stack_ok (norm_step acc c).
Proof.
  intros H. destruct c; simpl; [done| |by apply stack_normal].
  destruct H as [k|n l H]; [|done]. destruct k; simpl; [apply (stack_parents 1)|apply (stack_parents (S (S k)))].
Qed.

Lemma stack_ok_shape st : stack_ok st -> exists k ns, reverse st = replicate k ParentDir ++ (Normal <$> ns).
Proof.
  induction 1 as [k|n l _ (k & ns & IH)].
  - exists k, []. by rewrite reverse_replicate, app_nil_r.
  - exists k, (ns ++ [n]). by rewrite reverse_cons, IH, fmap_app, <- app_assoc.
Qed.

Lemma traversal_spec cs : forall buf st,
  reverse (comps buf) = st -> stack_ok st -> Forall comp_ok cs ->
  reverse (comps (relative_traversal buf cs)) = fold_left norm_step cs st.
Proof.
  induction cs as [|c cs IH]; intros buf st Hst Hok Hcs; [done|].
  apply Forall_cons in Hcs as [Hc Hcs]. pose proof (norm_step_ok st c Hok) as Hok'.
  cbn [relative_traversal fold_left]. destruct c as [| |n]; cbn [norm_step] in *; [by apply IH| |].
  - apply IH; [|done|done]. pose proof (next_back_spec buf) as Hn. destruct (next_back buf) as [[c|] s'].
    + destruct Hn as (Ec & _ & _). rewrite Ec, reverse_snoc in Hst. subst st. cbn [fst].
      destruct c as [| |n]; [by inversion Hok; destruct k| |].
      * by rewrite comps_push, Ec, !reverse_app.
      * by rewrite pop_comps, Ec, strip_cur_snoc; cbn [is_cur]; rewrite removelast_last.
    + cbn [fst]. rewrite comps_push, Hn. rewrite Hn in Hst. by subst st.
  - apply IH; [|done|done]. rewrite comps_push, reverse_app, Hst. unfold comp_ok in Hc. cbn [as_str] in Hc. by rewrite Hc.
Qed.

Lemma fold_norm_ok cs : forall st, stack_ok st -> stack_ok (fold_left norm_step cs st).
Proof. induction cs as [|c cs IH]; intros st Hst; [done|]. simpl. by apply IH, norm_step_ok. Qed.

Lemma normalize_comps p : comps (normalize p) = norm (comps p).
Proof.
  unfold normalize, norm. rewrite components_eq.
  rewrite <- (traversal_spec (comps p) [] []); [by rewrite reverse_involutive|done|apply (stack_parents 0)|apply comps_ok].
Qed.

(** What a normal form looks like, and that it is its own normal form. *)
Definition normal_form (l : list Component) : Prop := exists k ns, l = replicate k ParentDir ++ (Normal <$> ns).

Lemma norm_normal cs : normal_form (norm cs).
Proof. apply stack_ok_shape, fold_norm_ok, (stack_parents 0). Qed.

Lemma fold_parents k : forall j, fold_left norm_step (replicate k ParentDir) (replicate j ParentDir) = replicate (k + j) ParentDir.
Proof.
  induction k as [|k IH]; intros j; [done|]. cbn [replicate fold_left]. replace (S k + j)%nat with (k + S j)%nat by lia.
  rewrite <- IH. f_equal. by destruct j.
Qed.
Lemma fold_normals ns : forall st, fold_left norm_step (Normal <$> ns) st = reverse (Normal <$> ns) ++ st.
Proof.
  induction ns as [|n ns IH]; intros st; [done|]. cbn [fmap list_fmap fold_left norm_step].
  rewrite reverse_cons, <- app_assoc. apply IH.
Qed.
Lemma fold_normal_form l : normal_form l -> fold_left norm_step l [] = reverse l.
Proof.
  intros (k & ns & ->). rewrite fold_left_app. change [] with (replicate 0 ParentDir). rewrite fold_parents, fold_normals.
  by rewrite reverse_app, reverse_replicate, Nat.add_0_r.
Qed.
Lemma norm_idem l : normal_form l -> norm l = l.
Proof. intros Hl. unfold norm. by rewrite fold_normal_form, reverse_involutive. Qed.

Lemma normal_form_check l : normal_form l -> forallb is_normal (skip_while is_parent l) = true.
Proof.
  intros (k & ns & ->). induction k as [|k IH]; [|done].
  simpl. destruct ns as [|n ns]; [done|]. simpl. clear n. induction ns as [|n ns IH]; [done|]. done.
Qed.

(** Normalising a path resolves every [.] and every [..] that has a name before
    it; the result consists of leading [..]s and names, is recognised as normalised,
    and is its own normal form. *)
Theorem normalize_spec (p : list Z) :
  comps (normalize p) = norm (comps p) /\ normal_form (norm (comps p))
  /\ is_normalized (normalize p) = true /\ path_eq (normalize (normalize p)) (normalize p) = true.
Proof.
  split; [apply normalize_comps|]. split; [apply norm_normal|]. split.
  - unfold is_normalized. rewrite components_eq, normalize_comps. apply normal_form_check, norm_normal.
  - unfold path_eq. apply bool_decide_eq_true. rewrite !components_eq, !normalize_comps. apply norm_idem, norm_normal.
Qed.

(** ** Relative paths *)
Lemma skip_common_spec f : forall t lf lt f' t', skip_common f t = (lf, lt, f', t') ->
  exists c, f = c ++ option_list lf ++ f' /\ t = c ++ option_list lt ++ t'.
Proof.
  induction f as [|x f IH]; intros [|y t] lf lt f' t'; cbn [skip_common].
  - intros [= <- <- <- <-]. by exists [].
  - intros [= <- <- <- <-]. by exists [].
  - intros [= <- <- <- <-]. by exists [].
  - case_bool_decide as E; [|intros [= <- <- <- <-]; by exists []]. subst y.
    intros (c & -> & ->)%IH. by exists (x :: c).
Qed.

Definition leading (l : list Component) : nat := length l - length (skip_while is_parent l).

Lemma leading_normal k ns : leading (replicate k ParentDir ++ (Normal <$> ns)) = k.
Proof.
  unfold leading. assert (E : skip_while is_parent (replicate k ParentDir ++ (Normal <$> ns)) = (Normal <$> ns)).
  { induction k as [|k IH]; [by destruct ns|done]. }
  rewrite E, !length_app, length_replicate. lia.
Qed.

(** A route that starts at a name goes up from names only. *)
Lemma lead_normal k ns j ms lf lt f' t' :
  (k <= j)%nat -> skip_common (replicate k ParentDir ++ (Normal <$> ns)) (replicate j ParentDir ++ (Normal <$> ms)) = (lf, lt, f', t') ->
  lf <> Some ParentDir /\ exists hs, option_list lf ++ f' = Normal <$> hs.
Proof.
  revert j. induction k as [|k IH]; intros j Hkj.
  - cbn [replicate app]. revert j ms Hkj. induction ns as [|n ns IHn]; intros j ms _ E.
    + simpl in E. destruct (replicate j ParentDir ++ _); injection E as <- <- <- <-; (split; [done|by exists []]).
    + destruct (replicate j ParentDir ++ (Normal <$> ms)) as [|y t] eqn:Et; cbn [fmap list_fmap skip_common] in E.
      { injection E as <- <- <- <-. split; [done|by exists (n :: ns)]. }
      case_bool_decide as Ey; [|injection E as <- <- <- <-; split; [done|by exists (n :: ns)]]. subst y.
      destruct j as [|j]; [|discriminate Et]. destruct ms as [|m ms]; [discriminate Et|]. injection Et as _ <-.
      apply (IHn 0%nat ms); [lia|done].
  - destruct j as [|j]; [lia|]. cbn [replicate app skip_common]. rewrite bool_decide_true by done. apply IH. lia.
Qed.

Lemma fold_up hs : forall st, fold_left norm_step (replicate (length hs) ParentDir) (reverse (Normal <$> hs) ++ st) = st.
Proof.
  induction hs as [|h hs IH] using rev_ind; intros st; [done|].
  rewrite length_app, fmap_app, reverse_app, Nat.add_comm. cbn [length Nat.add replicate fold_left]. apply IH.
Qed.

Lemma comps_pushes cs : forall buf, Forall comp_ok cs -> comps (fold_left (fun buf c => push buf (as_str c)) cs buf) = comps buf ++ cs.
Proof.
  induction cs as [|c cs IH]; intros buf Hcs; [by rewrite app_nil_r|]. apply Forall_cons in Hcs as [Hc Hcs]. simpl.
  rewrite IH, comps_push by done. rewrite Hc. by rewrite <- app_assoc.
Qed.

Lemma normal_form_prefix a b : normal_form (a ++ b) -> normal_form a.
Proof.
  intros (k & ns & E). destruct (decide (length a <= k)%nat) as [Hl|Hl].
  - exists (length a), []. rewrite app_nil_r. apply (f_equal (take (length a))) in E.
    rewrite take_app_length, take_app_le, take_replicate in E by (rewrite length_replicate; lia). by rewrite Nat.min_l in E by lia.
  - exists k, (take (length a - k) ns). apply (f_equal (take (length a))) in E.
    rewrite take_app_length, take_app_ge, length_replicate in E by (rewrite length_replicate; lia). by rewrite <- fmap_take in E.
Qed.

(** A route that starts above the goal meets a [..]. *)
Lemma lead_parent k ns j ms : (j < k)%nat ->
  exists lt f' t', skip_common (replicate k ParentDir ++ (Normal <$> ns)) (replicate j ParentDir ++ (Normal <$> ms)) = (Some ParentDir, lt, f', t').
Proof.
  revert k. induction j as [|j IH]; intros [|k] Hk; try lia; cbn [replicate app skip_common].
  - destruct ms as [|m ms]; cbn [fmap list_fmap]; [by repeat eexists|]. rewrite bool_decide_false by done. by repeat eexists.
  - rewrite bool_decide_true by done. apply IH. lia.
Qed.

Lemma relative_leads (p q : list Z) :
  (leading (norm (comps p)) <= leading (norm (comps q)))%nat ->
  path_eq (join_normalized p (relative p q)) (normalize q) = true.
Proof.
  intros Hlead. unfold path_eq. apply bool_decide_eq_true. rewrite !components_eq, normalize_comps.
  destruct (norm_normal (comps p)) as (k & ns & EF), (norm_normal (comps q)) as (j & ms & ET).
  rewrite EF, ET, !leading_normal in Hlead.
  assert (HR : exists c hs tail, norm (comps p) = c ++ (Normal <$> hs) /\ norm (comps q) = c ++ tail
    /\ comps (relative p q) = replicate (length hs) ParentDir ++ tail).
  { unfold relative. fold (normalize p). fold (normalize q). rewrite !components_eq, !normalize_comps.
    destruct (skip_common (norm (comps p)) (norm (comps q))) as [[[lf lt] f'] t'] eqn:E.
    destruct (skip_common_spec _ _ _ _ _ _ E) as (c & E1 & E2). rewrite EF, ET in E.
    destruct (lead_normal k ns j ms lf lt f' t' Hlead E) as (Hne & hs & Eh). rewrite bool_decide_false by done.
    exists c, hs, (option_list lt ++ t'). rewrite <- Eh. split; [done|]. split; [done|].
    rewrite comps_pushes; [|].
    - cbn [comps]. rewrite app_nil_l, Eh. f_equal. clear. induction hs as [|h hs IH]; [done|]. cbn. by f_equal.
    - apply Forall_app_2; [apply Forall_fmap, Forall_forall; intros; done|].
      pose proof (comps_ok (normalize q)) as Hok. rewrite normalize_comps, E2 in Hok. by apply Forall_app in Hok as [_ Hok]. }
  destruct HR as (c & hs & tail & E1 & E2 & ER).
  unfold join_normalized. rewrite !components_eq.
  assert (Hst : reverse (comps (relative_traversal [] (comps p))) = fold_left norm_step (comps p) []).
  { apply traversal_spec; [done|apply (stack_parents 0)|apply comps_ok]. }
  apply (inj reverse). rewrite (traversal_spec (comps (relative p q)) _ _ Hst); [|apply fold_norm_ok, (stack_parents 0)|apply comps_ok].
  assert (EF' : fold_left norm_step (comps p) [] = reverse (norm (comps p))) by (unfold norm; by rewrite reverse_involutive).
  rewrite EF', E1, ER, reverse_app, fold_left_app, fold_up, E2.
  pose proof (norm_normal (comps q)) as HnT. rewrite E2 in HnT.
  rewrite <- (fold_normal_form _ HnT), fold_left_app, (fold_normal_form c); [done|]. by eapply normal_form_prefix.
Qed.

Lemma relative_above (p q : list Z) : (leading (norm (comps q)) < leading (norm (comps p)))%nat -> relative p q = [].
Proof.
  destruct (norm_normal (comps p)) as (k & ns & EF), (norm_normal (comps q)) as (j & ms & ET). rewrite EF, ET, !leading_normal. intros Hlt.
  unfold relative. fold (normalize p). fold (normalize q). rewrite !components_eq, !normalize_comps, EF, ET.
  destruct (lead_parent k ns j ms Hlt) as (lt & f' & t' & ->). by rewrite bool_decide_true.
Qed.

(** C36: the relative path from one path to another.  If the first, normalised, does not
    begin with more [..]s than the second, it leads there: joined to the first it
    normalises to the second.  Otherwise there is no way from the first to the second, and
    the relative path is the empty one. *)
Theorem relative_roundtrip (p q : list Z) :
  if (leading (norm (comps p)) <=? leading (norm (comps q)))%nat
  then path_eq (join_normalized p (relative p q)) (normalize q) = true
  else relative p q = [].
Proof. destruct (Nat.leb_spec (leading (norm (comps p))) (leading (norm (comps q)))); [by apply relative_leads|by apply relative_above]. Qed.

(** From [a/b] to [a/./c]: [../c]; from [../a] to [b] there is no way. *)
Lemma relative_roundtrip_witness :
  relative [97; 47; 98] [97; 47; 46; 47; 99] = [46; 46; 47; 99]
  /\ path_eq (join_normalized [97; 47; 98] (relative [97; 47; 98] [97; 47; 46; 47; 99])) (normalize [97; 47; 46; 47; 99]) = true
  /\ relative [46; 46; 47; 97] [98] = [].
Proof.
  split; [vm_compute; reflexivity|]. split.
  - exact (relative_roundtrip [97; 47; 98] [97; 47; 46; 47; 99]).
  - exact (relative_roundtrip [46; 46; 47; 97] [98]).
Defined.
