(* ===== verification/Umio.v ===== *)
(** * umio: positioned and streaming input and output

    mizu/lib/umio/src/lib.rs and io.rs, and the byte-stream view of a block device
    (mizu/lib/devices/src/block.rs).  An [Io] object is a state with its operations;
    a mutable buffer is the room it has, and a read returns the bytes it stores there
    in order.  The loops repeat while an operation is interrupted and so have fuel;
    [None] is a loop that has not ended yet. *)

From S2P Require Import Prelude Ksc Bytes.

Import Errno.

Module Umio.

Inductive SeekFrom := SeekStart (offset : Z) | SeekEnd (offset : Z) | SeekCurrent (offset : Z).

(** ** Buffers *)
Definition len {A} (l : list A) : Z := Z.of_nat (length l).
Record IoSliceMut := room { room_len : Z }.

Class IoSliceExt (B : Type) := {
  slice_len : B -> Z;
  advance : B -> Z -> res Error B;
}.
#[global] Instance IoSlice_ext : IoSliceExt (list Z) := {
  slice_len b := len b;
  advance b n := if len b <? n then Panic else Ok (drop (Z.to_nat n) b);
}.
#[global] Instance IoSliceMut_ext : IoSliceExt IoSliceMut := {
  slice_len b := room_len b;
  advance b n := if room_len b <? n then Panic else Ok (room (room_len b - n));
}.

Section Slices.
Context {B : Type} `{IoSliceExt B}.

Definition ioslice_len (bufs : list B) : Z := fold_left (fun sum buf => wadd 64 sum (slice_len buf)) bufs 0.
Definition ioslice_is_empty (bufs : list B) : bool := forallb (fun b => slice_len b =? 0) bufs.

(** The buffers to remove and their total length. *)
Fixpoint removed (bufs : list B) (n accumulated_len : Z) : nat * Z :=
  match bufs with
  | [] => (O, accumulated_len)
  | buf :: bufs =>
      if n <? wadd 64 accumulated_len (slice_len buf) then (O, accumulated_len)
      else let '(remove, acc) := removed bufs n (wadd 64 accumulated_len (slice_len buf)) in (S remove, acc)
  end.
Definition advance_slices (bufs : list B) (n : Z) : res Error (list B) :=
  let '(remove, accumulated_len) := removed bufs n 0 in
  match drop remove bufs with
  | [] => if n =? accumulated_len then Ok [] else Panic
  | buf :: bufs => b ← advance buf (wsub 64 n accumulated_len); Ok (b :: bufs)
  end.
End Slices.

(** ** Objects *)
Class Io (T : Type) := {
  read_at : Z -> list IoSliceMut -> ST T Error (list Z);
  write_at : Z -> list (list Z) -> ST T Error Z;
  seek : SeekFrom -> ST T Error Z;
}.

Section Streams.
Context {T : Type} `{Io T}.
Notation M := (ST T Error).

(** The default methods of [Io]; an [isize] is its value. *)
Definition read (buffer : list IoSliceMut) : M (list Z) :=
  offset ← seek (SeekCurrent 0);
  bs ← read_at offset buffer;
  _ ← seek (SeekCurrent (to_signed 64 (len bs)));
  mret bs.
Definition write (buffer : list (list Z)) : M Z :=
  offset ← seek (SeekCurrent 0);
  written_len ← write_at offset buffer;
  _ ← seek (SeekCurrent (to_signed 64 written_len));
  mret written_len.
Definition stream_len : M Z :=
  old ← seek (SeekCurrent 0);
  ret ← seek (SeekEnd 0);
  _ ← seek (SeekStart old);
  mret ret.

(** ** IoExt *)
Definition current_pos : M Z := seek (SeekCurrent 0).

(** One round of a reading loop: go on with what was read, again after an
    interrupt, stop at the end of the object. *)
Definition read_round {A} (got : res Error (list Z)) (want : Z) (again : M A) (go : list Z -> M A) : M A :=
  match got with
  | Ok bs => if len bs =? 0 then throw EIO else if want <? len bs then panic else go bs
  | Err e => if bool_decide (e = EINTR) then again else throw e
  | Panic => panic
  end.
Definition write_round {A} (got : res Error Z) (want : Z) (again : M A) (go : Z -> M A) : M A :=
  match got with
  | Ok n => if n =? 0 then throw EIO else if want <? n then panic else go n
  | Err e => if bool_decide (e = EINTR) then again else throw e
  | Panic => panic
  end.

Fixpoint read_exact_at (fuel : nat) (offset want : Z) (acc : list Z) : M (option (list Z)) :=
  match fuel with
  | O => mret None
  | S fuel =>
      if want =? 0 then mret (Some acc)
      else fun o =>
        let '(got, o) := read_at offset [room want] o in
        read_round got want (read_exact_at fuel offset want acc)
          (fun bs => read_exact_at fuel (wadd 64 offset (len bs)) (want - len bs) (acc ++ bs)) o
  end.
Fixpoint read_exact (fuel : nat) (want : Z) (acc : list Z) : M (option (list Z)) :=
  match fuel with
  | O => mret None
  | S fuel =>
      if want =? 0 then mret (Some acc)
      else fun o =>
        let '(got, o) := read [room want] o in
        read_round got want (read_exact fuel want acc)
          (fun bs => read_exact fuel (want - len bs) (acc ++ bs)) o
  end.
Fixpoint write_all_at (fuel : nat) (offset : Z) (buffer : list Z) : M (option unit) :=
  match fuel with
  | O => mret None
  | S fuel =>
      if bool_decide (buffer = []) then mret (Some tt)
      else fun o =>
        let '(got, o) := write_at offset [buffer] o in
        write_round got (len buffer) (write_all_at fuel offset buffer)
          (fun n => write_all_at fuel (wadd 64 offset n) (drop (Z.to_nat n) buffer)) o
  end.
Fixpoint write_all (fuel : nat) (buffer : list Z) : M (option unit) :=
  match fuel with
  | O => mret None
  | S fuel =>
      if bool_decide (buffer = []) then mret (Some tt)
      else fun o =>
        let '(got, o) := write [buffer] o in
        write_round got (len buffer) (write_all fuel buffer)
          (fun n => write_all fuel (drop (Z.to_nat n) buffer)) o
  end.

(** [_by_seek]: the position is put back whatever the outcome, and an error of
    doing so is dropped. *)
Definition put_back {A} (old : Z) (op : M A) : M A := fun o =>
  let '(res, o) := op o in
  let '(r, o) := seek (SeekStart old) o in
  (match r with Panic => Panic | _ => res end, o).
Definition read_at_by_seek (offset : Z) (buffer : list IoSliceMut) : M (list Z) :=
  old ← seek (SeekCurrent 0);
  _ ← seek (SeekStart offset);
  put_back old (read buffer).
Definition write_at_by_seek (offset : Z) (buffer : list (list Z)) : M Z :=
  old ← seek (SeekCurrent 0);
  _ ← seek (SeekStart offset);
  put_back old (write buffer).
End Streams.

(** ** Lines *)
(** [str::from_utf8]: well-formed sequences of the Unicode standard (table 3-7). *)
Definition cont (b : Z) : bool := (0x80 <=? b) && (b <=? 0xBF).
Definition within (lo b hi : Z) : bool := (lo <=? b) && (b <=? hi).
Fixpoint utf8_valid (bs : list Z) : bool :=
  match bs with
  | [] => true
  | b :: bs1 =>
      if b <? 0x80 then utf8_valid bs1
      else match bs1 with
      | [] => false
      | b1 :: bs2 =>
          if within 0xC2 b 0xDF then cont b1 && utf8_valid bs2
          else match bs2 with
          | [] => false
          | b2 :: bs3 =>
              if b =? 0xE0 then within 0xA0 b1 0xBF && cont b2 && utf8_valid bs3
              else if b =? 0xED then within 0x80 b1 0x9F && cont b2 && utf8_valid bs3
              else if within 0xE1 b 0xEF then cont b1 && cont b2 && utf8_valid bs3
              else match bs3 with
              | [] => false
              | b3 :: bs4 =>
                  if b =? 0xF0 then within 0x90 b1 0xBF && cont b2 && cont b3 && utf8_valid bs4
                  else if b =? 0xF4 then within 0x80 b1 0x8F && cont b2 && cont b3 && utf8_valid bs4
                  else if within 0xF1 b 0xF3 then cont b1 && cont b2 && cont b3 && utf8_valid bs4
                  else false
              end
          end
      end
  end.

Fixpoint find_newline (s : list Z) : option nat :=
  match s with [] => None | c :: s => if c =? 10 then Some O else S <$> find_newline s end.

Section Lines.
Context {T : Type} `{Io T}.
Notation M := (ST T Error).

(** The line in [out], and what is left for the next one; an error keeps the bytes
    that [out] has. *)
Fixpoint read_line (fuel : nat) (out : list Z) : M (option (option (list Z) * list Z)) :=
  match fuel with
  | O => mret None
  | S fuel =>
      match find_newline out with
      | Some pos => mret (Some (Some (drop (pos + 1) out), removelast (take (pos + 1) out)))
      | None =>
          bs ← read [room 64];
          if len bs =? 0 then mret (Some (None, out))
          else if utf8_valid bs then read_line fuel (out ++ bs)
          else throw EINVAL
      end
  end.

(** [lines]: the next item of the stream with its next state. *)
Definition lines_next (fuel : nat) (buf : option (list Z)) : T -> option (option (res Error (list Z) * option (list Z))) * T :=
  match buf with
  | None => fun o => (Some None, o)
  | Some buf => fun o =>
      match read_line fuel buf o with
      | (Ok (Some (next, line)), o) => (Some (Some (Ok line, next)), o)
      | (Ok None, o) => (None, o)
      | (Err err, o) => (Some (Some (Err err, None)), o)
      | (Panic, o) => (Some (Some (Panic, None)), o)
      end
  end.
End Lines.

(** ** Block devices *)
(** The driver: whole blocks from a block number on. *)
Class Block (D : Type) := {
  block_shift : D -> Z;
  capacity_blocks : D -> Z;
  block_read : Z -> Z -> ST D Error (list Z);
  block_write : Z -> list Z -> ST D Error Z;
}.

Section BlockIo.
Context {D : Type} `{Block D}.
Notation M := (ST D Error).

Fixpoint block_read_loop (fuel : nat) (block : Z) (buffer : list IoSliceMut) (acc : list Z) : M (option (list Z)) :=
  match fuel with
  | O => mret None
  | S fuel => fun d =>
      match buffer with
      | [] => (Ok (Some acc), d)
      | buf :: _ =>
          if capacity_blocks d <=? block then (Ok (Some acc), d)
          else
            let n := Z.min (room_len buf) (wshl 64 (capacity_blocks d - block) (block_shift d)) in
            (bs ← block_read block n;
             if (len bs <? n) || (n <? room_len buf) then mret (Some (acc ++ bs))
             else buffer ← lift_res (advance_slices buffer (len bs));
                  block_read_loop fuel (wadd 64 block (Z.shiftr (len bs) (block_shift d))) buffer (acc ++ bs)) d
      end
  end.
Fixpoint block_write_loop (fuel : nat) (block : Z) (buffer : list (list Z)) (written : Z) : M (option Z) :=
  match fuel with
  | O => mret None
  | S fuel => fun d =>
      match buffer with
      | [] => (Ok (Some written), d)
      | buf :: _ =>
          if capacity_blocks d <=? block then (Ok (Some written), d)
          else
            let n := Z.min (len buf) (wshl 64 (capacity_blocks d - block) (block_shift d)) in
            (actual ← block_write block (take (Z.to_nat n) buf);
             if (actual <? n) || (n <? len buf) then mret (Some (wadd 64 written actual))
             else buffer ← lift_res (advance_slices buffer actual);
                  block_write_loop fuel (wadd 64 block (Z.shiftr actual (block_shift d))) buffer (wadd 64 written actual)) d
      end
  end.

(** [impl_io_for_block]: an offset inside a block transfers nothing. *)
Definition blk_read_at (fuel : nat) (offset : Z) (buffer : list IoSliceMut) : M (option (list Z)) := fun d =>
  if negb (Z.land offset (wsub 64 (wshl 64 1 (block_shift d)) 1) =? 0) then (Ok (Some []), d)
  else block_read_loop fuel (Z.shiftr offset (block_shift d)) buffer [] d.
Definition blk_write_at (fuel : nat) (offset : Z) (buffer : list (list Z)) : M (option Z) := fun d =>
  if negb (Z.land offset (wsub 64 (wshl 64 1 (block_shift d)) 1) =? 0) then (Ok (Some 0), d)
  else block_write_loop fuel (Z.shiftr offset (block_shift d)) buffer 0 d.
Definition blk_seek (whence : SeekFrom) : M Z := fun d =>
  match whence with
  | SeekEnd offset => if offset =? 0 then (Ok (wshl 64 (capacity_blocks d) (block_shift d)), d) else (Err ENOSYS, d)
  | SeekStart offset | SeekCurrent offset => if offset =? 0 then (Ok 0, d) else (Err ENOSYS, d)
  end.
Definition blk_stream_len : M Z := fun d => (Ok (wshl 64 (capacity_blocks d) (block_shift d)), d).
End BlockIo.
End Umio.

(** * umio: properties of buffers and of the loops

    An object that makes progress, possibly by small steps and after interrupts, is
    turned by the loops of [IoExt] into one that transfers whole buffers. *)
Import Errno Umio.

(** ** Slices *)
Section Slices.
Context {B : Type} `{IoSliceExt B}.

Fixpoint stotal (bufs : list B) : Z := match bufs with [] => 0 | b :: bufs => slice_len b + stotal bufs end.

Lemma total_nonneg bufs : Forall (fun b => 0 <= slice_len b) bufs -> 0 <= stotal bufs.
Proof. induction 1; simpl; lia. Qed.

Lemma ioslice_len_acc bufs : forall acc, 0 <= acc -> Forall (fun b => 0 <= slice_len b) bufs -> acc + stotal bufs < 2 ^ 64 ->
  fold_left (fun sum buf => wadd 64 sum (slice_len buf)) bufs acc = acc + stotal bufs.
Proof.
  induction bufs as [|b bufs IH]; intros acc Ha Hb Hl; simpl in *; [lia|].
  apply Forall_cons in Hb as [Hb Hbs]. pose proof (total_nonneg bufs Hbs).
  rewrite wadd_small by (unfold fits; lia). rewrite IH by (done || lia). lia.
Qed.
Lemma ioslice_len_eq bufs : Forall (fun b => 0 <= slice_len b) bufs -> stotal bufs < 2 ^ 64 -> ioslice_len bufs = stotal bufs.
Proof. intros. unfold ioslice_len. rewrite ioslice_len_acc by (done || lia). lia. Qed.

(** The buffers that are removed are those that [n] covers whole. *)
Lemma removed_spec bufs : forall n acc,
  0 <= acc <= n -> Forall (fun b => 0 <= slice_len b) bufs -> acc + stotal bufs < 2 ^ 64 ->
  exists k, removed bufs n acc = (k, acc + stotal (take k bufs)) /\ acc + stotal (take k bufs) <= n
    /\ match drop k bufs with b :: _ => n < acc + stotal (take k bufs) + slice_len b | [] => True end.
Proof.
  induction bufs as [|b bufs IH]; intros n acc Ha Hb Hl; cbn [removed stotal] in *.
  { exists O. split_and!; [f_equal; simpl; lia|simpl; lia|done]. }
  apply Forall_cons in Hb as [Hb Hbs]. pose proof (total_nonneg bufs Hbs). rewrite wadd_small by (unfold fits; lia).
  destruct (Z.ltb_spec n (acc + slice_len b)).
  - exists O. split_and!; [f_equal; simpl; lia|simpl; lia|simpl; lia].
  - destruct (IH n (acc + slice_len b)) as (k & -> & Hk & Hd); [lia|done|lia|].
    exists (S k). cbn [take stotal drop]. split_and!; [f_equal; lia|lia|].
    destruct (drop k bufs); [done|lia].
Qed.
End Slices.

Lemma total_join (bufs : list (list Z)) : stotal bufs = len (mjoin bufs).
Proof.
  induction bufs as [|b bufs IH]; [done|]. cbn [stotal]. rewrite IH.
  change (len b + len (mjoin bufs) = len (b ++ mjoin bufs)). unfold len. rewrite length_app. lia.
Qed.

Lemma slices_nonneg (bufs : list (list Z)) : Forall (fun b => 0 <= slice_len b) bufs.
Proof. apply Forall_forall. intros b _. simpl. unfold len. lia. Qed.

Lemma total_app {B} `{IoSliceExt B} (a b : list B) : stotal (a ++ b) = stotal a + stotal b.
Proof. induction a as [|x a IH]; simpl; lia. Qed.

Lemma total_take_drop {B} `{IoSliceExt B} (k : nat) (bufs : list B) : stotal (take k bufs) + stotal (drop k bufs) = stotal bufs.
Proof. rewrite <- (take_drop k bufs) at 3. by rewrite total_app. Qed.

Lemma join_app (a b : list (list Z)) : mjoin (a ++ b) = mjoin a ++ mjoin b.
Proof. induction a as [|x a IH]; [done|]. change (x ++ mjoin (a ++ b) = (x ++ mjoin a) ++ mjoin b). by rewrite IH, <- app_assoc. Qed.

(** Advancing a vector of buffers drops exactly the given number of bytes from
    their concatenation, and leaves no empty buffer in front; it panics when there
    are not so many. *)
Theorem advance_slices_spec (bufs : list (list Z)) (n : Z) :
  0 <= n -> stotal bufs < 2 ^ 64 ->
  if n <=? stotal bufs
  then exists bufs', advance_slices bufs n = Ok bufs' /\ mjoin bufs' = drop (Z.to_nat n) (mjoin bufs)
       /\ forall b bs, bufs' = b :: bs -> b <> []
  else advance_slices bufs n = Panic.
Proof.
  intros Hn Hl. unfold advance_slices.
  destruct (removed_spec bufs n 0) as (k & -> & Hk & Hd); [lia|apply slices_nonneg|lia|].
  pose proof (total_take_drop k bufs) as Htd. pose proof (total_nonneg _ (slices_nonneg (take k bufs))).
  pose proof (total_nonneg _ (slices_nonneg (drop k bufs))).
  assert (Ej : mjoin bufs = mjoin (take k bufs) ++ mjoin (drop k bufs)) by (rewrite <- join_app; by rewrite take_drop).
  assert (Ht := total_join (take k bufs)). unfold len in Ht.
  destruct (drop k bufs) as [|b rest] eqn:Edrop.
  - simpl in Htd. destruct (Z.eqb_spec n (0 + stotal (take k bufs))), (Z.leb_spec n (stotal bufs)); try lia; [|done].
    exists []. split; [done|]. split; [|done]. rewrite Ej, app_nil_r, drop_ge by lia. done.
  - cbn [stotal] in Htd. cbn in Hd. pose proof (total_nonneg _ (slices_nonneg rest)).
    rewrite (proj2 (Z.leb_le _ _)) by (cbn in *; lia). rewrite wsub_small by (unfold fits; cbn in *; lia).
    cbn [advance IoSlice_ext]. rewrite (proj2 (Z.ltb_ge _ _)) by lia. eexists. split; [done|]. split.
    + rewrite Ej, drop_app_ge by lia. change (mjoin (b :: rest)) with (b ++ mjoin rest).
      rewrite drop_app_le by (unfold len in *; lia).
      change (drop (Z.to_nat (n - (0 + stotal (take k bufs)))) b ++ mjoin rest = drop (Z.to_nat n - length (mjoin (take k bufs))) b ++ mjoin rest).
      do 2 f_equal. lia.
    + intros b' bs [= <- <-] E. apply (f_equal length) in E. rewrite length_drop in E. unfold len in Hd. simpl in E. lia.
Qed.

Notation rooms_ok := (Forall (fun b => 0 <= room_len b)).

Lemma advance_rooms (bufs : list IoSliceMut) (n : Z) :
  0 <= n <= stotal bufs -> rooms_ok bufs -> stotal bufs < 2 ^ 64 ->
  exists bufs', advance_slices bufs n = Ok bufs' /\ rooms_ok bufs' /\ stotal bufs' = stotal bufs - n.
Proof.
  intros Hn Hb Hl. unfold advance_slices.
  destruct (removed_spec bufs n 0) as (k & -> & Hk & Hd); [lia|done|lia|].
  pose proof (total_take_drop k bufs) as Htd. pose proof (total_nonneg _ (Forall_take _ k _ Hb)).
  pose proof (Forall_drop _ k _ Hb) as Hdr. destruct (drop k bufs) as [|b rest].
  - simpl in Htd. rewrite (proj2 (Z.eqb_eq _ _)) by lia. exists []. split_and!; [done|by apply Forall_nil|simpl; lia].
  - cbn [stotal] in Htd. apply Forall_cons in Hdr as [Hb0 Hrest]. pose proof (total_nonneg _ Hrest). cbn in Hd, Htd, Hk, Hb0 |- *.
    rewrite wsub_small by (unfold fits; lia). rewrite (proj2 (Z.ltb_ge _ _)) by lia. eexists. split; [done|].
    split; [apply Forall_cons_2; [simpl; lia|done]|]. cbn. lia.
Qed.

(** ** Objects that make progress *)
(** [interrupts] bounds the interrupts still to come. *)
Class ObjSpec (T : Type) `{Umio.Io T} := {
  obj_bytes : T -> list Z;
  interrupts : T -> nat;
  obj_read o off n : 0 <= off -> 0 < n -> off + n <= len (obj_bytes o) ->
    exists o', obj_bytes o' = obj_bytes o /\
      ((exists k, 0 < k <= n /\ read_at off [room n] o = (Ok (slice_at (obj_bytes o) off k), o')
                  /\ (interrupts o' <= interrupts o)%nat)
       \/ (read_at off [room n] o = (Err EINTR, o') /\ (interrupts o' < interrupts o)%nat));
  obj_write o off bs : 0 <= off -> bs <> [] -> Forall byte bs -> off + len bs <= len (obj_bytes o) ->
    exists o',
      (exists k, 0 < k <= len bs /\ write_at off [bs] o = (Ok k, o')
                 /\ obj_bytes o' = splice (obj_bytes o) off (take (Z.to_nat k) bs) /\ (interrupts o' <= interrupts o)%nat)
      \/ (write_at off [bs] o = (Err EINTR, o') /\ obj_bytes o' = obj_bytes o /\ (interrupts o' < interrupts o)%nat);
}.

Lemma slice_at_app {A} (l : list A) off a b : 0 <= off -> 0 <= a -> 0 <= b ->
  slice_at l off a ++ slice_at l (off + a) b = slice_at l off (a + b).
Proof.
  intros. unfold slice_at. rewrite !Z2Nat.inj_add by done.
  rewrite <- drop_drop. rewrite <- (take_drop (Z.to_nat a) (take (Z.to_nat a + Z.to_nat b) (drop (Z.to_nat off) l))).
  rewrite take_take, Nat.min_l by lia. by rewrite skipn_firstn_comm, Nat.add_comm, Nat.add_sub.
Qed.

Lemma splice_splice {A} (l : list A) off (a b : list A) :
  0 <= off -> off + len (a ++ b) <= len l ->
  splice (splice l off a) (off + len a) b = splice l off (a ++ b).
Proof.
  unfold len. rewrite length_app. intros Ho Hl. apply list_eq. intros i.
  assert (Hla : length (splice l off a) = length l) by (apply length_splice; lia).
  rewrite !lookup_splice by (rewrite ?Hla, ?length_app; lia). rewrite length_app.
  destruct (Z.leb_spec (off + Z.of_nat (length a)) (Z.of_nat i)), (Z.ltb_spec (Z.of_nat i) (off + Z.of_nat (length a) + Z.of_nat (length b))),
    (Z.leb_spec off (Z.of_nat i)), (Z.ltb_spec (Z.of_nat i) (off + Z.of_nat (length a))),
    (Z.ltb_spec (Z.of_nat i) (off + Z.of_nat (length a + length b))); simpl; try lia; try done.
  - rewrite lookup_app_r by lia. f_equal. lia.
  - by rewrite lookup_app_l by lia.
Qed.

Section Loops.
Context {T : Type} `{ObjSpec T}.
Implicit Types (o : T).

Lemma read_exact_at_loop fuel : forall o off n acc,
  0 <= off -> 0 <= n -> off + n <= len (obj_bytes o) -> len (obj_bytes o) < 2 ^ 64 ->
  (Z.to_nat n + interrupts o < fuel)%nat ->
  exists o', read_exact_at fuel off n acc o = (Ok (Some (acc ++ slice_at (obj_bytes o) off n)), o') /\ obj_bytes o' = obj_bytes o.
Proof.
  induction fuel as [|fuel IH]; intros o off n acc Ho Hn Hl Hlim Hf; [lia|]. cbn [read_exact_at].
  destruct (Z.eqb_spec n 0) as [->|Hne].
  { exists o. split; [|done]. unfold slice_at. simpl. by rewrite app_nil_r. }
  destruct (obj_read o off n Ho ltac:(lia) Hl) as (o1 & Eb & [(k & Hk & E & Hi)|[E Hi]]); rewrite E; cbn [read_round].
  - assert (Hlk : len (slice_at (obj_bytes o) off k) = k) by (apply length_slice_at; unfold len in *; lia).
    rewrite Hlk, (proj2 (Z.eqb_neq _ _)), (proj2 (Z.ltb_ge _ _)), wadd_small by (unfold fits; lia).
    destruct (IH o1 (off + k) (n - k) (acc ++ slice_at (obj_bytes o) off k)) as (o' & E' & Hb'); rewrite ?Eb; try lia.
    exists o'. split; [|congruence]. rewrite E', Eb. do 3 f_equal. rewrite <- app_assoc, slice_at_app by lia. do 2 f_equal. lia.
  - rewrite bool_decide_true by done. destruct (IH o1 off n acc) as (o' & E' & Hb'); rewrite ?Eb; try lia.
    exists o'. split; [|congruence]. by rewrite E', Eb.
Qed.

Lemma write_all_at_loop fuel : forall o off bs,
  0 <= off -> Forall byte bs -> off + len bs <= len (obj_bytes o) -> len (obj_bytes o) < 2 ^ 64 ->
  (length bs + interrupts o < fuel)%nat ->
  exists o', write_all_at fuel off bs o = (Ok (Some tt), o') /\ obj_bytes o' = splice (obj_bytes o) off bs.
Proof.
  induction fuel as [|fuel IH]; intros o off bs Ho Hby Hl Hlim Hf; [lia|]. cbn [write_all_at].
  case_bool_decide as Hne.
  { subst bs. exists o. split; [done|]. unfold splice. simpl. by rewrite Nat.add_0_r, take_drop. }
  destruct (obj_write o off bs Ho Hne Hby Hl) as (o1 & [(k & Hk & E & Hb & Hi)|(E & Hb & Hi)]); rewrite E; cbn [write_round].
  - rewrite (proj2 (Z.eqb_neq _ _)), (proj2 (Z.ltb_ge _ _)), wadd_small by (unfold fits; lia).
    assert (Hlt : len (take (Z.to_nat k) bs) = k) by (unfold len in *; rewrite length_take; lia).
    assert (Hl1 : len (obj_bytes o1) = len (obj_bytes o)).
    { rewrite Hb. unfold len in *. rewrite length_splice by lia. done. }
    destruct (IH o1 (off + k) (drop (Z.to_nat k) bs)) as (o' & E' & Hb'); [lia|by apply Forall_drop| |lia| |].
    + unfold len in *. rewrite length_drop. lia.
    + unfold len in *. rewrite length_drop. lia.
    + exists o'. split; [done|]. rewrite Hb', Hb. rewrite <- Hlt at 2. rewrite splice_splice by (rewrite ?take_drop; done). by rewrite take_drop.
  - rewrite bool_decide_true by done. destruct (IH o1 off bs) as (o' & E' & Hb'); rewrite ?Hb; try (done || lia).
    exists o'. split; [done|]. by rewrite Hb', Hb.
Qed.
End Loops.

(** On an object that makes progress, reading and writing whole buffers
    terminates, however the object cuts the transfers into pieces and however often
    it is interrupted: the bytes read are those of the object, and a write replaces
    exactly the bytes of its range. *)
Theorem whole_buffers {T : Type} `{ObjSpec T} (o : T) (off : Z) (bs : list Z) :
  0 <= off -> Forall byte bs -> off + len bs <= len (obj_bytes o) -> len (obj_bytes o) < 2 ^ 64 ->
  let fuel := S (length bs + interrupts o) in
  (exists o', read_exact_at fuel off (len bs) [] o = (Ok (Some (slice_at (obj_bytes o) off (len bs))), o') /\ obj_bytes o' = obj_bytes o)
  /\ (exists o', write_all_at fuel off bs o = (Ok (Some tt), o') /\ obj_bytes o' = splice (obj_bytes o) off bs).
Proof.
  intros Ho Hby Hl Hlim fuel. split.
  - apply (read_exact_at_loop fuel o off (len bs) []); unfold len in *; lia.
  - apply write_all_at_loop; (done || lia).
Qed.

(** ** A disk in memory as an object *)
Definition ram_read (off n : Z) (d : RamDisk) : list Z := slice_at (disk_bytes d) off (Z.min n (len (disk_bytes d) - off)).
Definition ram_write (off : Z) (bs : list Z) (d : RamDisk) : res Error Z * RamDisk :=
  let k := Z.max 0 (Z.min (len bs) (len (disk_bytes d) - off)) in
  match Bytes.write_all_at off (take (Z.to_nat k) bs) d with
  | (Ok _, d) => (Ok k, d)
  | (Err e, d) => (Err e, d)
  | (Panic, d) => (Panic, d)
  end.
#[export] Instance RamDisk_obj : Umio.Io RamDisk := {
  read_at off bufs d := (Ok (ram_read off (stotal bufs) d), d);
  write_at off bufs d := ram_write off (mjoin bufs) d;
  seek _ d := (Err ESPIPE, d);
}.

Lemma ram_write_eq off bs (d : RamDisk) : 0 <= off -> Forall byte bs -> off + len bs <= len (disk_bytes d) ->
  exists d', ram_write off bs d = (Ok (len bs), d') /\ disk_bytes d' = splice (disk_bytes d) off bs.
Proof.
  intros Ho Hb Hl. unfold ram_write. rewrite Z.min_l, Z.max_r by (unfold len in *; lia).
  rewrite take_ge by (unfold len; lia). destruct (io_write d off bs) as (d' & -> & E); [done..|]. by exists d'.
Qed.

#[export] Program Instance RamDisk_objspec : ObjSpec RamDisk := { obj_bytes := disk_bytes; interrupts _ := O }.
Next Obligation.
  intros o off n Ho Hn Hl. exists o. split; [done|]. left. exists n. split; [lia|]. split; [|done].
  simpl. unfold ram_read. simpl. by rewrite Z.add_0_r, Z.min_l by (unfold len in *; lia).
Qed.
Next Obligation.
  intros o off bs Ho Hne Hb Hl. destruct (ram_write_eq off bs o Ho Hb Hl) as (d' & E & Hd). exists d'. left.
  exists (len bs). assert (0 < len bs) by (destruct bs; [done|unfold len; simpl; lia]). split; [lia|].
  split; [simpl; by rewrite app_nil_r|]. split; [|done]. rewrite take_ge by (unfold len; lia). done.
Qed.

(** A disk that is interrupted a number of times and then moves two bytes at most. *)
Record SlowDisk := mk_slow { slow_disk : RamDisk; waits : nat }.
#[export] Instance SlowDisk_obj : Umio.Io SlowDisk := {
  read_at off bufs s :=
    match waits s with
    | S w => (Err EINTR, mk_slow (slow_disk s) w)
    | O => (Ok (ram_read off (Z.min 2 (stotal bufs)) (slow_disk s)), s)
    end;
  write_at off bufs s :=
    match waits s with
    | S w => (Err EINTR, mk_slow (slow_disk s) w)
    | O => let '(r, d) := ram_write off (take 2 (mjoin bufs)) (slow_disk s) in (r, mk_slow d O)
    end;
  seek _ d := (Err ESPIPE, d);
}.
#[export] Program Instance SlowDisk_objspec : ObjSpec SlowDisk := { obj_bytes s := disk_bytes (slow_disk s); interrupts := waits }.
Next Obligation.
  intros [d w] off n Ho Hn Hl. cbn [slow_disk] in *. destruct w as [|w].
  - exists (mk_slow d 0). split; [done|]. left. exists (Z.min 2 n). split; [lia|]. split; [|done].
    cbn. unfold ram_read. rewrite Z.add_0_r, (Z.min_l (Z.min 2 n)) by (unfold len in *; lia). done.
  - exists (mk_slow d w). split; [done|]. right. split; [done|]. simpl. lia.
Qed.
Next Obligation.
  intros [d w] off bs Ho Hne Hb Hl. cbn [slow_disk] in *. destruct w as [|w].
  - assert (Hlt : len (take 2 bs) = Z.min 2 (len bs)) by (unfold len; rewrite length_take; lia).
    destruct (ram_write_eq off (take 2 bs) d Ho) as (d' & E & Hd); [by apply Forall_take|lia|].
    exists (mk_slow d' 0). left. exists (len (take 2 bs)).
    assert (0 < len bs) by (destruct bs; [done|unfold len; simpl; lia]).
    split; [lia|]. split; [cbn; rewrite app_nil_r; by rewrite E|]. split; [|done]. cbn. rewrite Hd. f_equal.
    rewrite Hlt. destruct (Z.le_gt_cases 2 (len bs)); [by rewrite Z.min_l by lia|].
    rewrite Z.min_r by lia. rewrite !take_ge by (unfold len in *; lia). done.
  - exists (mk_slow d w). right. split; [done|]. split; [done|]. simpl. lia.
Qed.

Definition slow_sample : SlowDisk :=
  mk_slow (mk_disk [1; 2; 3; 4; 5; 6; 7; 8] (bool_decide_unpack (Forall byte [1; 2; 3; 4; 5; 6; 7; 8]) I)) 3.

Lemma advance_slices_spec_witness :
  exists bufs', advance_slices [[1; 2]; []; [3; 4]] 3 = Ok bufs' /\ mjoin bufs' = drop (Z.to_nat 3) [1; 2; 3; 4]
    /\ forall b bs, bufs' = b :: bs -> b <> [].
Proof. apply (advance_slices_spec [[1; 2]; []; [3; 4]] 3); [lia|reflexivity]. Defined.

Lemma whole_buffers_witness :
  (exists o', read_exact_at 9 2 5 [] slow_sample = (Ok (Some [3; 4; 5; 6; 7]), o') /\ obj_bytes o' = obj_bytes slow_sample)
  /\ (exists o', write_all_at 9 2 [9; 9; 9; 9; 9] slow_sample = (Ok (Some tt), o') /\ obj_bytes o' = [1; 2; 9; 9; 9; 9; 9; 8]).
Proof.
  assert (Hb : Forall byte [9; 9; 9; 9; 9]) by (apply (bool_decide_unpack (Forall byte _)); vm_compute; exact I).
  destruct (whole_buffers slow_sample 2 [9; 9; 9; 9; 9]) as [(o1 & E1 & B1) (o2 & E2 & B2)];
    [lia|exact Hb|vm_compute; congruence|reflexivity|].
  split; [exists o1; by split|exists o2; by split].
Defined.

(** ** Lines *)
(** A stream over bytes in memory. *)
Record Cursor := mk_cursor { cur_bytes : list Z; cur_pos : Z }.
#[export] Instance Cursor_obj : Umio.Io Cursor := {
  read_at off bufs c := (Ok (slice_at (cur_bytes c) off (stotal bufs)), c);
  write_at _ _ c := (Err EPERM, c);
  seek w c :=
    match w with
    | SeekStart p => (Ok p, mk_cursor (cur_bytes c) p)
    | SeekCurrent p => (Ok (cur_pos c + p), mk_cursor (cur_bytes c) (cur_pos c + p))
    | SeekEnd p => (Ok (len (cur_bytes c) + p), mk_cursor (cur_bytes c) (len (cur_bytes c) + p))
    end;
}.

(** A line of 63 letters and then a character of two bytes: the buffer of
    64 bytes cuts the character, and reading the line fails although the text is
    well-formed. *)
Example read_line_cuts_character :
  let text := replicate 63 97 ++ [0xC3; 0xA9] ++ [10] in
  utf8_valid text = true /\ (read_line 5 [] (mk_cursor text 0)).1 = Err EINVAL
  /\ (read_line 5 [] (mk_cursor (drop 1 text) 0)).1 = Ok (Some (Some [], replicate 62 97 ++ [0xC3; 0xA9])).
Proof. vm_compute. split_and!; reflexivity. Qed.
