(* ===== verification/Umifs.v ===== *)
(** * umifs: types and the null and zero devices

    mizu/lib/umifs/src/types.rs and misc.rs.  Flag types are their bits. *)

From S2P Require Import Prelude Ksc Umio.
Import Errno Umio.

Module Ufs.

(** [bitflags]: [contains]. *)
Definition contains (self other : Z) : bool := Z.land self other =? other.

(** OpenOptions *)
Definition ACCMODE : Z := 0x0007.
Definition EXEC : Z := 1.
Definition RDONLY : Z := 2.
Definition RDWR : Z := 3.
Definition SEARCH : Z := 4.
Definition WRONLY : Z := 5.
Definition CREAT : Z := 0x40.
Definition EXCL : Z := 0x80.
Definition NOCTTY : Z := 0x100.
Definition TRUNC : Z := 0x200.
Definition APPEND : Z := 0x400.
Definition NONBLOCK : Z := 0x800.
Definition OPT_DIRECTORY : Z := 0x10000.
Definition CLOEXEC : Z := 0x80000.

(** Permissions *)
Definition SELF_R : Z := 0x100.
Definition SELF_W : Z := 0x80.
Definition SELF_X : Z := 0x40.
Definition GROUP_R : Z := 0x20.
Definition GROUP_W : Z := 0x10.
Definition GROUP_X : Z := 0x8.
Definition OTHERS_R : Z := 0x4.
Definition OTHERS_W : Z := 0x2.
Definition OTHERS_X : Z := 0x1.
Definition all_permissions : Z := 0x1FF.

Definition all_same (readable writable executable : bool) : Z :=
  let ret := 0 in
  let ret := if readable then Z.lor ret (Z.lor (Z.lor SELF_R GROUP_R) OTHERS_R) else ret in
  let ret := if writable then Z.lor ret (Z.lor (Z.lor SELF_W GROUP_W) OTHERS_W) else ret in
  if executable then Z.lor ret (Z.lor (Z.lor SELF_X GROUP_X) OTHERS_X) else ret.
Definition me (readable writable executable : bool) : Z :=
  let ret := 0 in
  let ret := if readable then Z.lor ret SELF_R else ret in
  let ret := if writable then Z.lor ret SELF_W else ret in
  if executable then Z.lor ret SELF_X else ret.

(** FileType *)
Definition FIFO : Z := 1.
Definition CHR : Z := 2.
Definition DIR : Z := 4.
Definition BLK : Z := 6.
Definition REG : Z := 8.
Definition FILE : Z := REG.
Definition LNK : Z := 10.
Definition SOCK : Z := 12.
Definition ft_is (self ty : Z) : bool := contains self ty.

(** The times are all [Default] here. *)
Record Metadata := mk_metadata {
  ty : Z; m_len : Z; m_offset : Z; m_perm : Z; block_size : Z; block_count : Z;
}.
Record SetMetadata := mk_set_metadata { set_len : option Z; set_perm : option Z }.
Record DirEntry := mk_dir_entry { name : list Z; metadata : Metadata }.

(** ** /dev/null and /dev/zero *)
Inductive Null := null.
#[export] Instance Null_io : Umio.Io Null := {
  read_at _ _ o := (Ok [], o);
  write_at _ buffer o := (Ok (ioslice_len buffer), o);
  seek _ o := (Ok 0, o);
}.
Inductive Zero := zero.
#[export] Instance Zero_io : Umio.Io Zero := {
  read_at _ buffer o := (Ok (buffer ≫= fun b => replicate (Z.to_nat (room_len b)) 0), o);
  write_at _ buffer o := (Ok (ioslice_len buffer), o);
  seek _ o := (Ok 0, o);
}.
Definition chr_stream_len : Z := wadd 64 (2 ^ 63 - 1) 1.
Definition chr_metadata : Metadata := mk_metadata CHR 0 0 (all_same true true false) 0 0.

(** The outcome of opening a file by the path below it: whether it was created. *)
Definition open_file (path : list Z) (options perm self_perm : Z) : res Error bool :=
  if negb (bool_decide (path = [])) || contains options OPT_DIRECTORY then Err ENOTDIR
  else if contains options (Z.lor CREAT EXCL) then Err EEXIST
  else if negb (contains self_perm perm) then Err EPERM
  else Ok false.

(** One set of flags contains another when each of its bits is set. *)
Lemma contains_spec a b : contains a b = true <-> forall i, Z.testbit b i = true -> Z.testbit a i = true.
Proof.
  unfold contains. rewrite Z.eqb_eq. split.
  - intros E i Hi. rewrite <- E, Z.land_spec in Hi. by apply andb_true_iff in Hi as [].
  - intros Hb. apply Z.bits_inj'. intros i _. rewrite Z.land_spec. specialize (Hb i).
    destruct (Z.testbit b i); [by rewrite Hb|by rewrite andb_false_r].
Qed.

(** A request for a file is granted exactly when it names the file itself, does not
    ask for a directory or for a new file, and asks for no right that the file does
    not have. *)
Lemma open_file_ok path options perm self_perm :
  open_file path options perm self_perm = Ok false <->
  path = [] /\ contains options OPT_DIRECTORY = false /\ contains options (Z.lor CREAT EXCL) = false
  /\ forall i, Z.testbit perm i = true -> Z.testbit self_perm i = true.
Proof.
  unfold open_file. rewrite <- contains_spec. case_bool_decide; destruct (contains options OPT_DIRECTORY),
    (contains options (Z.lor CREAT EXCL)), (contains self_perm perm); simpl; naive_solver.
Qed.

(** Testing a file type with [is] is a test of bits although the types are numbers:
    a block device is a directory, a socket is a regular file. *)
Example is_confuses_types : ft_is BLK DIR = true /\ ft_is SOCK REG = true /\ ft_is LNK REG = true.
Proof. done. Qed.
End Ufs.
