(* ===== verification/FatFile.v ===== *)
(** * afat32: files

    mizu/lib/afat32/src/file.rs.  The state of an operation is the device, the
    mounted file system and the file; the file's locks are held for the whole of an
    operation, as in the code.  Following a chain and the transfer loops have fuel;
    [None] is an operation that has not ended yet. *)

From S2P Require Import Prelude Ksc Bytes Umio Umifs FatTime FatRaw FatTable FatFs FatDirent.

Import Errno FFs.

Module FFile.

Record FatFile := mk_file {
  clusters : list (Z * Z);
  cluster_shift : Z;
  perm : Z;
  entry : option FDirent.DirEntryEditor;
  flen : Z;
  cur_offset : Z;
}.
Implicit Types (f : FatFile).

Definition with_clusters f cs : FatFile := mk_file cs (cluster_shift f) (perm f) (entry f) (flen f) (cur_offset f).
Definition with_entry f e : FatFile := mk_file (clusters f) (cluster_shift f) (perm f) e (flen f) (cur_offset f).
Definition with_len f n : FatFile := mk_file (clusters f) (cluster_shift f) (perm f) (entry f) n (cur_offset f).
Definition with_cur f n : FatFile := mk_file (clusters f) (cluster_shift f) (perm f) (entry f) (flen f) n.
Definition with_perm f n : FatFile := mk_file (clusters f) (cluster_shift f) n (entry f) (flen f) (cur_offset f).
Definition edit (g : FDirent.DirEntryEditor -> FDirent.DirEntryEditor) f : FatFile := with_entry f (g <$> entry f).

(** ** Positions *)
Definition decomp f (offset : Z) : Z * Z :=
  (Z.shiftr offset (cluster_shift f), Z.land offset (wsub 64 (wshl 64 1 (cluster_shift f)) 1)).
Definition decomp_end f (offset : Z) : option (Z * Z) :=
  let cluster_index := Z.shiftr offset (cluster_shift f) in
  let offset_in_cluster := Z.land offset (wsub 64 (wshl 64 1 (cluster_shift f)) 1) in
  if offset_in_cluster =? 0
  then (fun ci => (ci, wshl 64 1 (cluster_shift f))) <$> checked_sub cluster_index 1
  else Some (cluster_index, offset_in_cluster).

Definition first_cluster f : option Z := fst <$> head (clusters f).
Definition abs_start_pos f : option Z := (fun c => wshl 64 c (cluster_shift f)) <$> first_cluster f.

(** The ends of the last run are moved to [e]. *)
Fixpoint move_ends_rev (old_end e : Z) (l : list (Z * Z)) : list (Z * Z) :=
  match l with
  | (c, end_) :: l' => if end_ =? old_end then (c, e) :: move_ends_rev old_end e l' else l
  | [] => []
  end.
Definition move_ends (old_end e : Z) (l : list (Z * Z)) : list (Z * Z) := reverse (move_ends_rev old_end e (reverse l)).

(** [(new..(new + count)).zip(repeat(new_end))] *)
Definition new_run (new count new_end : Z) : list (Z * Z) :=
  (fun i => (new + Z.of_nat i, new_end)) <$> seq 0 (Z.to_nat (wadd 32 new count - new)).

(** What can be read from the position on without leaving the run of clusters. *)
Definition read_rest f (cluster cluster_end offset_in_cluster end_ci end_oc : Z) : Z :=
  let sh := cluster_shift f in
  let count := wsub 32 (wadd 32 cluster_end 1) cluster in
  match lookup_z (clusters f) end_ci with
  | Some (end_len_cluster, end_len_cluster_end) =>
      if negb (end_len_cluster_end =? cluster_end) then wsub 64 (wshl 64 count sh) offset_in_cluster
      else let count := wsub 32 end_len_cluster cluster in
           wsub 64 (wadd 64 (wshl 64 count sh) end_oc) offset_in_cluster
  | None => wsub 64 (wshl 64 count sh) offset_in_cluster
  end.

Section Ops.
Context {D P : Type} `{Bytes.Io D} `{Umio.Io D} `{FTime.TimeProvider P}.
Notation Fs := (FatFileSystem P).
Notation S := (D * FatFileSystem P * FatFile)%type.
Notation M := (ST (D * FatFileSystem P * FatFile) Error).

Definition get_file : M FatFile := fun s => (Ok s.2, s).
Definition get_fs' : M Fs := fun s => (Ok s.1.2, s).
Definition map_file (g : FatFile -> FatFile) : M unit := fun '(v, f) => (Ok tt, (v, g f)).
Definition on_fs {A} (m : ST (D * FatFileSystem P) Error A) : M A := fun '(v, f) => let '(r, v) := m v in (r, (v, f)).
Definition on_dev {A} (m : ST D Error A) : M A := on_fs (on_device m).

(** FatFile::new, on a mounted file system *)
Definition new (fuel : nat) (first_cluster : option Z) (entry : option FDirent.DirEntryEditor) :
    ST (D * FatFileSystem P) Error (option FatFile) :=
  fs ← get_fs;
  sh ← lift_res (if 0 <? FRaw.cluster_size (bpb fs) then Ok (Z.log2 (FRaw.cluster_size (bpb fs))) else Panic);
  clusters ← match first_cluster with
             | Some first_cluster => on_device (FT.all_clusters fuel (fat fs) first_cluster)
             | None => mret (Some [])
             end;
  mret ((fun clusters =>
    let len := match entry ≫= fun e => FDirent.size_opt (FDirent.data e) with
               | Some s => s
               | None => wshl 64 (Z.of_nat (length clusters)) sh
               end in
    mk_file clusters sh (Ufs.me true true true) entry len 0) <$> clusters).

Definition truncate (fuel : nat) (new_len : Z) : M (option unit) :=
  f ← get_file;
  match entry f with
  | None => throw ENOSYS
  | Some e =>
      match FDirent.size_opt (FDirent.data e) with
      | None => throw EISDIR
      | Some len =>
          if len <=? new_len then mret (Some tt)
          else match decomp_end f len with
          | None => mret (Some tt)
          | Some (cluster_index, _) =>
              done_ ← match decomp_end f new_len with
                | Some (new_cluster_index, _) =>
                    if negb (cluster_index =? new_cluster_index) then
                      '(start, _) ← lift_opt (lookup_z (clusters f) new_cluster_index);
                      let cs := take (Z.to_nat (new_cluster_index + 1)) (clusters f) in
                      let cs := match last cs with Some (last_, old_end) => move_ends old_end last_ cs | None => cs end in
                      _ ← map_file (fun f => with_clusters f cs);
                      on_fs (truncate_cluster_chain fuel start)
                    else mret (Some tt)
                | None =>
                    _ ← map_file (edit (FDirent.ed_set_first_cluster None));
                    '(start, _) ← lift_opt (lookup_z (clusters f) 0);
                    _ ← map_file (fun f => with_clusters f []);
                    on_fs (free_cluster_chain fuel start)
                end;
              match done_ with
              | None => mret None
              | Some _ =>
                  _ ← map_file (fun f => edit (FDirent.ed_set_size (wrap 32 new_len)) (with_len f new_len));
                  mret (Some tt)
              end
          end
      end
  end.

Definition update_read : M unit :=
  fs ← get_fs'; map_file (edit (FDirent.ed_set_accessed (FTime.get_current_date (time_provider fs)))).

Definition update_write (offset : Z) : M unit :=
  fs ← get_fs';
  let now := FTime.get_current_date_time (time_provider fs) in
  map_file (fun f =>
    edit (fun e =>
      let e := FDirent.ed_set_modified now e in
      match FDirent.size_opt (FDirent.data e) with
      | Some s => if s <? offset then FDirent.ed_set_size offset e else e
      | None => e
      end) (with_len f (Z.max (flen f) offset))).

Definition flush : M unit :=
  f ← get_file;
  match entry f with
  | Some e => e ← on_dev (FDirent.ed_flush e); map_file (fun f => with_entry f (Some e))
  | None => mret tt
  end.

(** ** Io *)
Definition seek (whence : Umio.SeekFrom) : M Z :=
  f ← get_file;
  let move (base offset : Z) : option Z :=
    if 0 <? offset then checked_add 64 base offset else checked_sub base (wrap 64 (- offset)) in
  offset ← lift_res (match whence with
           | Umio.SeekStart offset => Ok offset
           | Umio.SeekEnd offset => ok_or (move (flen f) offset) EINVAL
           | Umio.SeekCurrent offset => ok_or (move (cur_offset f) offset) EINVAL
           end);
  _ ← map_file (fun f => with_cur f offset);
  mret offset.

Definition stream_len : M Z := f ← get_file; mret (flen f).

Fixpoint read_loop (fuel : nat) (cluster_offset rest : Z) (buffer : list Umio.IoSliceMut) (acc : list Z) : M (option (list Z)) :=
  match fuel with
  | O => mret None
  | Datatypes.S fuel =>
      match buffer with
      | [] => _ ← update_read; mret (Some acc)
      | buf :: _ =>
          if rest =? 0 then _ ← update_read; mret (Some acc)
          else
            let len := Z.min rest (Umio.room_len buf) in
            bs ← on_dev (Umio.read_at cluster_offset [Umio.room len]);
            let len := Umio.len bs in
            buffer ← lift_res (Umio.advance_slices buffer len);
            read_loop fuel (wadd 64 cluster_offset len) (wsub 64 rest len) buffer (acc ++ bs)
      end
  end.

Definition read_at (fuel : nat) (offset : Z) (buffer : list Umio.IoSliceMut) : M (option (list Z)) :=
  f ← get_file;
  let '(cluster_index, offset_in_cluster) := decomp f offset in
  match decomp_end f (flen f) with
  | None => mret (Some [])
  | Some (end_len_ci, end_len_oc) =>
      match lookup_z (clusters f) cluster_index with
      | None => mret (Some [])
      | Some (cluster, cluster_end) =>
          fs ← get_fs';
          off ← lift_res (total (FRaw.offset_from_cluster (bpb fs) cluster));
          read_loop fuel (wadd 64 off offset_in_cluster)
            (read_rest f cluster cluster_end offset_in_cluster end_len_ci end_len_oc) buffer []
      end
  end.

(** The loop that allocates, at least one cluster in each round (so [times] rounds
    are enough): the cluster the write starts in and the number of
    clusters from it on. *)
Fixpoint alloc_loop (fuel : nat) (gap_count times allocated : Z) (prev : option Z) : M (Z * Z) :=
  match fuel with
  | O => throw ENOSPC
  | Datatypes.S fuel =>
      '(new, count) ← on_fs (alloc_cluster prev (wsub 32 times allocated) false);
      let new_end := wsub 32 (wadd 32 new count) 1 in
      _ ← map_file (fun f =>
        let f := match last (clusters f) with
          | Some (_, old_end) =>
              if wadd 32 old_end 1 =? new then with_clusters f (move_ends old_end new_end (clusters f)) else f
          | None => edit (FDirent.ed_set_first_cluster (Some new)) f
          end in
        with_clusters f (clusters f ++ new_run new count new_end));
      let allocated := wadd 32 allocated count in
      if (gap_count <? allocated) || (times <=? allocated) then mret (new, wsub 32 allocated gap_count)
      else alloc_loop fuel gap_count times allocated (Some new)
  end.

Definition try_into_u32 (x : Z) : res Error Z := if x <? 2 ^ 32 then Ok x else Err EINVAL.

Fixpoint write_loop (fuel : nat) (offset cluster_offset rest : Z) (buffer : list (list Z)) (written_len : Z) : M (option Z) :=
  match fuel with
  | O => mret None
  | Datatypes.S fuel =>
      match buffer with
      | [] => _ ← update_write (wrap 32 offset); mret (Some written_len)
      | buf :: _ =>
          if rest =? 0 then _ ← update_write (wrap 32 offset); mret (Some written_len)
          else
            let len := Z.min rest (Umio.len buf) in
            len ← on_dev (Umio.write_at cluster_offset [take (Z.to_nat len) buf]);
            buffer ← lift_res (Umio.advance_slices buffer len);
            write_loop fuel (wadd 64 offset len) (wadd 64 cluster_offset len) (wsub 64 rest len) buffer (wadd 64 written_len len)
      end
  end.

Definition write_at (fuel : nat) (offset : Z) (buffer : list (list Z)) : M (option Z) :=
  f ← get_file;
  let ioslice_len := Umio.ioslice_len buffer in
  let sh := cluster_shift f in
  let '(cluster_index, offset_in_cluster) := decomp f offset in
  '(cluster, count) ←
    match lookup_z (clusters f) cluster_index with
    | Some (cluster, cluster_end) => mret (cluster, wsub 32 (wadd 32 cluster_end 1) cluster)
    | None =>
        let n := Z.of_nat (length (clusters f)) in
        gap_count ← lift_res (try_into_u32 (wsub 64 cluster_index n));
        times ← lift_res (try_into_u32
          (wsub 64 (wadd 64 cluster_index (Z.shiftr (wadd 64 ioslice_len (wsub 64 (wshl 64 1 sh) 1)) sh)) n));
        alloc_loop (Datatypes.S (Z.to_nat times)) gap_count times 0 (fst <$> last (clusters f))
    end;
  fs ← get_fs';
  off ← lift_res (total (FRaw.offset_from_cluster (bpb fs) cluster));
  write_loop fuel offset (wadd 64 off offset_in_cluster) (wsub 64 (wshl 64 count sh) offset_in_cluster) buffer 0.

(** ** Entry *)
Definition open (path : list Z) (options : Z) : res Error bool :=
  if negb (bool_decide (path = [])) then Err ENOTDIR
  else if Ufs.contains options Ufs.OPT_DIRECTORY then Err ENOTDIR
  else Ok false.

Definition metadata f : Ufs.Metadata :=
  Ufs.mk_metadata Ufs.FILE (flen f) (default (2 ^ 64 - 1) (abs_start_pos f)) (Z.land (perm f) Ufs.all_permissions)
    (wshl 64 1 (cluster_shift f)) (Z.of_nat (length (clusters f))).

Definition set_metadata (fuel : nat) (m : Ufs.SetMetadata) : M (option unit) :=
  done_ ← match Ufs.set_len m with
          | Some new_len => n ← lift_res (try_into_u32 new_len); truncate fuel n
          | None => mret (Some tt)
          end;
  match done_ with
  | None => mret None
  | Some _ =>
      _ ← match Ufs.set_perm m with Some p => map_file (fun f => with_perm f p) | None => mret tt end;
      mret (Some tt)
  end.
End Ops.
End FFile.

(** * afat32: the runs of a file's clusters

    A file keeps, with each of its clusters, the last cluster of the contiguous run
    it is in.  Here is what that list says about the clusters, and how appending
    and truncating keep it. *)
Import FT FFile.

Notation small := (Forall (fun c => 0 <= c < 2 ^ 32 - 1)).

Lemma run_ends_fst l : fst <$> run_ends l = l.
Proof.
  induction l as [|c l IH]; [done|]. cbn [run_ends]. destruct (run_ends l) as [|[x e] r]; [by destruct l|].
  cbn [fmap list_fmap fst] in *. by rewrite IH.
Qed.
Lemma length_run_ends l : length (run_ends l) = length l.
Proof. rewrite <- (run_ends_fst l) at 2. by rewrite length_fmap. Qed.
Lemma run_ends_lookup_fst l i c e : run_ends l !! i = Some (c, e) -> l !! i = Some c.
Proof. intros E. rewrite <- (run_ends_fst l), list_lookup_fmap, E. done. Qed.

Lemma run_ends_cons c x l : exists e r, run_ends (x :: l) = (x, e) :: r
  /\ run_ends (c :: x :: l) = (c, if wadd 32 c 1 =? x then e else c) :: (x, e) :: r.
Proof.
  pose proof (run_ends_fst (x :: l)) as Hf. destruct (run_ends (x :: l)) as [|[x' e] r] eqn:E; [done|].
  injection Hf as -> Hr. exists e, r. split; [done|]. cbn [run_ends] in E |- *. by rewrite E.
Qed.

(** From a position on, its run counts up to its end. *)
Lemma run_ends_run l : small l -> forall i c e, run_ends l !! i = Some (c, e) ->
  c <= e /\ forall j : nat, Z.of_nat j <= e - c -> run_ends l !! (i + j)%nat = Some (c + Z.of_nat j, e).
Proof.
  induction l as [|c0 l IH]; [done|]. intros [Hc0 Hl]%Forall_cons i c e Hi. destruct l as [|x l].
  { destruct i as [|i]; [|done]. injection Hi as <- <-. split; [lia|]. intros j Hj. replace j with O by lia.
    by rewrite Z.add_0_r. }
  destruct (run_ends_cons c0 x l) as (e0 & r & E0 & E). rewrite E in Hi |- *.
  destruct i as [|i].
  - injection Hi as <- <-. rewrite wadd_small by (unfold fits; lia).
    destruct (IH Hl 0%nat x e0) as [Hle Hrun]; [by rewrite E0|].
    destruct (Z.eqb_spec (c0 + 1) x) as [<-|].
    + split; [lia|]. intros [|j] Hj; [by rewrite Z.add_0_r|]. specialize (Hrun j ltac:(lia)). rewrite E0, Nat.add_0_l in Hrun.
      change (((c0 + 1, e0) :: r) !! j = Some (c0 + Z.of_nat (S j), e0)). rewrite Hrun. do 2 f_equal. lia.
    + split; [lia|]. intros j Hj. replace j with O by lia. by rewrite Z.add_0_r.
  - destruct (IH Hl i c e) as [Hle Hrun]; [by rewrite E0|]. split; [done|]. intros j Hj. specialize (Hrun j Hj).
    rewrite E0 in Hrun. exact Hrun.
Qed.

Lemma run_ends_last l c : run_ends (l ++ [c]) !! length l = Some (c, c).
Proof.
  induction l as [|x l IH]; [done|]. destruct (l ++ [c]) as [|y l'] eqn:El; [by destruct l|].
  destruct (run_ends_cons x y l') as (e & r & E0 & E). change ((x :: l) ++ [c]) with (x :: (l ++ [c])).
  rewrite El, E. cbn [length]. rewrite <- IH, E0. done.
Qed.

(** The end of a run is a cluster of the list, at or behind the position. *)
Lemma run_end_pos l i c e : small l -> run_ends l !! i = Some (c, e) ->
  l !! (i + Z.to_nat (e - c))%nat = Some e /\ c <= e.
Proof.
  intros Hs Hi. destruct (run_ends_run l Hs i c e Hi) as [Hle Hrun]. split; [|done].
  apply (run_ends_lookup_fst _ _ _ e). rewrite Hrun by lia. do 2 f_equal. lia.
Qed.

(** Two positions of the same run are as far apart as their clusters. *)
Lemma same_run l i j c c' e : NoDup l -> small l ->
  run_ends l !! i = Some (c, e) -> run_ends l !! j = Some (c', e) -> c' - c = Z.of_nat j - Z.of_nat i.
Proof.
  intros Hnd Hs Hi Hj. destruct (run_end_pos _ _ _ _ Hs Hi) as [Ei ?], (run_end_pos _ _ _ _ Hs Hj) as [Ej ?].
  pose proof (NoDup_lookup _ _ _ _ Hnd Ei Ej). lia.
Qed.

(** A position in another run lies behind the end of this one. *)
Lemma other_run l i j c c' e e' : small l ->
  run_ends l !! i = Some (c, e) -> run_ends l !! j = Some (c', e') -> e <> e' -> (i <= j)%nat ->
  (i + Z.to_nat (e - c) < j)%nat.
Proof.
  intros Hs Hi Hj Hne Hij. destruct (run_ends_run _ Hs _ _ _ Hi) as [Hle Hrun].
  destruct (decide (i + Z.to_nat (e - c) < j)%nat) as [|Hn]; [done|].
  specialize (Hrun (j - i)%nat ltac:(lia)). replace (i + (j - i))%nat with j in Hrun by lia. congruence.
Qed.

(** ** Moving the ends of the last run *)
Definition redirect (old e : Z) (p : Z * Z) : Z * Z := (p.1, if p.2 =? old then e else p.2).

Lemma move_ends_rev_map old e l1 : forall l2,
  Forall (fun p => p.2 = old) l1 -> Forall (fun p => p.2 <> old) l2 ->
  move_ends_rev old e (l1 ++ l2) = (redirect old e <$> l1) ++ l2.
Proof.
  induction l1 as [|[c x] l1 IH]; intros l2 H1 H2.
  - destruct l2 as [|[c x] l2]; [done|]. apply Forall_cons in H2 as [H2 _]. simpl in *. by rewrite (proj2 (Z.eqb_neq _ _)).
  - apply Forall_cons in H1 as [Hx H1]. simpl in Hx. subst x. cbn [app move_ends_rev fmap list_fmap].
    unfold redirect at 1. cbn [fst snd]. rewrite Z.eqb_refl. by rewrite IH.
Qed.
Lemma redirect_id old e l : Forall (fun p : Z * Z => p.2 <> old) l -> redirect old e <$> l = l.
Proof.
  induction 1 as [|[c x] l Hx _ IH]; [done|]. cbn [fmap list_fmap]. unfold redirect at 1. cbn [fst snd] in *.
  rewrite (proj2 (Z.eqb_neq _ _)) by done. by f_equal.
Qed.
Lemma move_ends_map old e l1 l2 :
  Forall (fun p => p.2 <> old) l1 -> Forall (fun p => p.2 = old) l2 ->
  move_ends old e (l1 ++ l2) = redirect old e <$> (l1 ++ l2).
Proof.
  intros H1 H2. unfold move_ends. rewrite reverse_app, move_ends_rev_map by (by apply Forall_reverse).
  rewrite reverse_app, reverse_involutive, <- fmap_reverse, reverse_involutive, fmap_app.
  by rewrite (redirect_id old e l1).
Qed.

(** A list whose entries with a given end are its tail. *)
Lemma split_tail (old : Z) (l : list (Z * Z)) :
  (forall i j p q, l !! i = Some p -> l !! j = Some q -> (i <= j)%nat -> p.2 = old -> q.2 = old) ->
  exists l1 l2, l = l1 ++ l2 /\ Forall (fun p => p.2 <> old) l1 /\ Forall (fun p => p.2 = old) l2.
Proof.
  induction l as [|p l IH]; intros Hm; [by exists [], []|]. destruct (decide (p.2 = old)) as [E|Hne].
  - exists [], (p :: l). split; [done|]. split; [by apply Forall_nil|]. apply Forall_lookup. intros j q Hj.
    by apply (Hm 0%nat j p q); [|done|lia|].
  - destruct IH as (l1 & l2 & -> & H1 & H2).
    { intros i j a b Hi Hj Hij. apply (Hm (S i) (S j) a b); (done || lia). }
    exists (p :: l1), l2. split; [done|]. split; [by apply Forall_cons|done].
Qed.

(** Moving the ends from the back is moving every end that equals the last one. *)
Lemma move_ends_take l k p old e : NoDup l -> small l ->
  last (take k (run_ends l)) = Some (p, old) ->
  move_ends old e (take k (run_ends l)) = redirect old e <$> take k (run_ends l).
Proof.
  intros Hnd Hs Hlast. set (m := take k (run_ends l)) in *.
  assert (Hm : forall i q, m !! i = Some q -> run_ends l !! i = Some q /\ (i < length m)%nat).
  { intros i q Hi. split; [|by eapply lookup_lt_Some]. unfold m in Hi. by apply lookup_take_Some in Hi as []. }
  rewrite last_lookup in Hlast. destruct (Hm _ _ Hlast) as [Hl _].
  destruct (split_tail old m) as (l1 & l2 & -> & H1 & H2); [|by apply move_ends_map].
  intros i j [ci ei] [cj ej] Hi Hj Hij E. simpl in E |- *. subst ei.
  destruct (decide (ej = old)) as [|Hne]; [done|]. destruct (Hm _ _ Hi) as [Hi' Hil], (Hm _ _ Hj) as [Hj' Hjl].
  pose proof (other_run l i j ci cj old ej Hs Hi' Hj' ltac:(congruence) Hij).
  pose proof (same_run l i (Nat.pred (length m)) ci p old Hnd Hs Hi' Hl).
  destruct (run_end_pos _ _ _ _ Hs Hl). destruct (run_end_pos _ _ _ _ Hs Hi'). lia.
Qed.

(** The clusters of a run. *)
Definition crun (new : Z) (n : nat) : list Z := (fun i => new + Z.of_nat i) <$> seq 0 n.

Lemma crun_S new n : crun new (S n) = new :: crun (new + 1) n.
Proof.
  unfold crun. cbn [seq fmap list_fmap]. f_equal; [lia|]. rewrite <- fmap_S_seq, <- list_fmap_compose.
  apply list_fmap_ext. intros i x _. simpl. lia.
Qed.
Lemma length_crun new n : length (crun new n) = n.
Proof. unfold crun. by rewrite length_fmap, length_seq. Qed.
Lemma elem_of_crun new n c : c ∈ crun new n <-> new <= c < new + Z.of_nat n.
Proof.
  unfold crun. rewrite list_elem_of_fmap. split.
  - intros (i & -> & Hi%elem_of_seq). lia.
  - intros Hc. exists (Z.to_nat (c - new)). split; [lia|]. apply elem_of_seq. lia.
Qed.

Lemma run_ends_crun (n : nat) : forall new, 0 <= new -> new + Z.of_nat n < 2 ^ 32 ->
  run_ends (crun new n) = (fun c => (c, new + Z.of_nat n - 1)) <$> crun new n.
Proof.
  induction n as [|n IH]; intros new Hn Hl; [done|]. rewrite crun_S. destruct n as [|n].
  - simpl. do 2 f_equal. lia.
  - specialize (IH (new + 1) ltac:(lia) ltac:(lia)). rewrite crun_S in IH |- *.
    destruct (run_ends_cons new (new + 1) (crun (new + 1 + 1) n)) as (e & r & E0 & ->). rewrite E0 in IH.
    cbn [fmap list_fmap] in IH |- *. injection IH as -> ->. rewrite wadd_small, Z.eqb_refl by (unfold fits; lia).
    f_equal; [f_equal; lia|]. f_equal; [f_equal; lia|]. apply list_fmap_ext. intros i c _. f_equal. lia.
Qed.

(** Appending a run behind the list. *)
Lemma run_ends_append l r ne old new : NoDup l -> last l = Some old ->
  head r = Some new -> Forall (fun p => p.2 = ne) (run_ends r) ->
  run_ends (l ++ r) = (if wadd 32 old 1 =? new then redirect old ne <$> run_ends l else run_ends l) ++ run_ends r.
Proof.
  intros Hnd Hlast Hr Hne. destruct r as [|y r]; [done|]. injection Hr as ->.
  destruct (run_ends (new :: r)) as [|[y ey] re] eqn:Ere; [by apply (f_equal length) in Ere; rewrite length_run_ends in Ere|].
  pose proof (run_ends_fst (new :: r)) as Hf. rewrite Ere in Hf. injection Hf as -> _.
  apply Forall_cons in Hne as [Hey _]. simpl in Hey. subst ey.
  induction l as [|c l IH]; [done|]. apply NoDup_cons in Hnd as [Hc Hnd]. destruct l as [|x l].
  - injection Hlast as ->. cbn [app]. cbn [run_ends] in Ere |- *. rewrite Ere.
    destruct (wadd 32 old 1 =? new); simpl; [unfold redirect; simpl; by rewrite Z.eqb_refl|done].
  - specialize (IH Hnd Hlast). destruct (run_ends_cons c x l) as (e0 & r0 & E0 & E). rewrite E, E0 in *.
    change ((c :: x :: l) ++ new :: r) with (c :: x :: (l ++ new :: r)).
    destruct (run_ends_cons c x (l ++ new :: r)) as (e1 & r1 & E1 & ->).
    change ((x :: l) ++ new :: r) with (x :: (l ++ new :: r)) in IH. rewrite E1 in IH.
    assert (Hco : c <> old). { intros ->. apply Hc. by apply last_Some_elem_of. }
    destruct (wadd 32 old 1 =? new); cbn [fmap list_fmap app] in IH |- *; injection IH as -> ->.
    + f_equal. unfold redirect. cbn [fst snd]. destruct (wadd 32 c 1 =? x); [done|]. by rewrite (proj2 (Z.eqb_neq _ _)).
    + done.
Qed.

(** Cutting the list off. *)
Lemma run_ends_cut l1 l2 p old : NoDup (l1 ++ l2) -> small (l1 ++ l2) ->
  run_ends (l1 ++ l2) !! Nat.pred (length l1) = Some (p, old) -> l1 <> [] ->
  run_ends l1 = redirect old p <$> take (length l1) (run_ends (l1 ++ l2)).
Proof.
  intros Hnd Hs Hp Hne. induction l1 as [|c l1 IH]; [done|]. destruct l1 as [|x l1].
  - pose proof (run_ends_fst ([c] ++ l2)) as Hf. destruct (run_ends ([c] ++ l2)) as [|[y e] r] eqn:E; [done|].
    injection Hf as -> _. injection Hp as -> ->. simpl. unfold redirect. simpl. by rewrite Z.eqb_refl.
  - destruct (run_ends_cons c x l1) as (e0 & r0 & E0 & E). cbn [app] in Hnd, Hs, Hp |- *.
    destruct (run_ends_cons c x (l1 ++ l2)) as (e1 & r1 & E1 & E1'). rewrite E, E1' in *.
    apply NoDup_cons in Hnd as [Hc Hnd]. apply Forall_cons in Hs as [_ Hs]. cbn [length Nat.pred] in Hp.
    change ((?a :: ?b) !! S ?n) with (b !! n) in Hp. rewrite <- E1 in Hp. specialize (IH Hnd Hs Hp ltac:(done)).
    cbn [app] in IH. rewrite E0, E1 in IH. cbn [length take fmap list_fmap] in IH |- *. injection IH as He0 Hr0.
    f_equal; [|f_equal; [by rewrite He0|done]]. unfold redirect. cbn [fst snd]. rewrite He0.
    destruct (run_end_pos _ _ _ _ Hs Hp) as [Ho _].
    destruct (wadd 32 c 1 =? x); [done|]. rewrite (proj2 (Z.eqb_neq c old)); [done|].
    intros ->. apply Hc. by eapply list_elem_of_lookup_2.
Qed.
