(* ===== verification/FatFileSpec.v ===== *)
(** * afat32: reading, writing and truncating files

    A file is a list of clusters linked in the allocation table; its data is the
    concatenation of theirs.  On a device that serves the requests inside it, reads
    return the bytes of the file, and writes and truncation change the file as they
    should and nothing else. *)

From S2P Require Import Prelude Ksc Bytes Umio Umifs FatTime FatRaw FatTable FatAlloc FatFs FatDirent FatFile.
Import Errno FFs FFile.

(** The same device for whole buffers and for pieces. *)
Class DevSpec (D : Type) `{Bytes.IoSpec D} `{ObjSpec D} := {
  dev_bytes d : obj_bytes d = io_bytes d;
  dev_quiet d : interrupts d = O;
}.
#[export] Instance RamDisk_dev : DevSpec RamDisk.
Proof. by split. Qed.

(** ** Concatenations of pieces of one size *)
Lemma join_lookup {A} (ls : list (list A)) (sz : nat) (p : nat) :
  (0 < sz)%nat -> Forall (fun l => length l = sz) ls ->
  mjoin ls !! p = (ls !! (p / sz)%nat ≫= fun l => l !! (p mod sz)%nat).
Proof.
  intros Hsz Hls. revert p. induction Hls as [|l ls Hl _ IH]; intros p; [done|].
  change (mjoin (l :: ls)) with (l ++ mjoin ls). destruct (decide (p < sz)%nat) as [Hp|Hp].
  - rewrite lookup_app_l by lia. by rewrite Nat.div_small, Nat.mod_small by done.
  - rewrite lookup_app_r by lia. rewrite IH, Hl.
    assert (Ed : (p / sz = S ((p - sz) / sz))%nat).
    { replace p with ((p - sz) + 1 * sz)%nat at 1 by lia. rewrite Nat.div_add by lia. lia. }
    assert (Em : (p mod sz = (p - sz) mod sz)%nat).
    { replace p with ((p - sz) + 1 * sz)%nat at 1 by lia. by rewrite Nat.Div0.mod_add. }
    by rewrite Ed, Em.
Qed.
Lemma length_mjoin {A} (ls : list (list A)) (sz : nat) :
  Forall (fun l => length l = sz) ls -> length (mjoin ls) = (length ls * sz)%nat.
Proof.
  induction 1 as [|l ls Hl _ IH]; [done|]. change (mjoin (l :: ls)) with (l ++ mjoin ls). rewrite length_app, IH, Hl. simpl. lia.
Qed.

(** ** Files *)
(** Each cluster's entry leads to the next one, and the last one's is the end. *)
Fixpoint linked (ent : Z -> FT.FatEntry) (cs : list Z) : Prop :=
  match cs with
  | [] => True
  | c :: r => (match r with [] => ent c = FT.End_ | n :: _ => ent c = FT.Next n end) /\ linked ent r
  end.

Section Files.
Context {D P : Type} `{Bytes.Io D} `{!Bytes.IoSpec D} `{Umio.Io D} `{!ObjSpec D} `{!DevSpec D}.
Context `{FTime.TimeProvider P}.
Notation Fs := (FatFileSystem P).
Implicit Types (d : D) (fs : Fs) (f : FatFile) (cs : list Z).

Definition in_volume fs cs : Prop := Forall (fun c => 2 <= c < last_cluster (fat fs)) cs.

(** What the directory entry records. *)
Definition in_sync f cs : Prop :=
  forall e, entry f = Some e ->
    (forall s, FDirent.size_opt (FDirent.data e) = Some s -> s = flen f)
    /\ FDirent.first_cluster (FDirent.data e) = head cs.

Record file_ok d fs f cs : Prop := {
  ok_fs : fs_ok d fs;
  ok_shift : 0 <= cluster_shift f < 32 /\ FRaw.cluster_size (bpb fs) = 2 ^ cluster_shift f;
  ok_clusters : clusters f = FT.run_ends cs;
  ok_nodup : NoDup cs;
  ok_range : in_volume fs cs;
  ok_linked : linked (ent (fat fs) d) cs;
  ok_len : 0 <= flen f <= Z.of_nat (length cs) * 2 ^ cluster_shift f;
  ok_sync : in_sync f cs;
}.

Definition file_data d fs cs : list Z := mjoin (cluster_data d fs <$> cs).

Lemma volume_small d fs cs : fs_ok d fs -> in_volume fs cs -> small cs.
Proof.
  intros [[_ Hc _ _ _] _ _ _ _ _] Hr. eapply Forall_impl; [exact Hr|]. intros c Hc'. unfold last_cluster in Hc'. lia.
Qed.

(** Cluster by cluster: positions on the device. *)
Lemma cluster_place d fs c : fs_ok d fs -> 2 <= c < last_cluster (fat fs) ->
  table_end (fat fs) <= cluster_off (bpb fs) c
  /\ cluster_off (bpb fs) c + FRaw.cluster_size (bpb fs) <= Z.of_nat (length (io_bytes d))
  /\ FRaw.offset_from_cluster (bpb fs) c = Ok (cluster_off (bpb fs) c)
  /\ 0 <= table_end (fat fs)
  /\ forall c', cluster_off (bpb fs) c' = cluster_off (bpb fs) c + (c' - c) * FRaw.cluster_size (bpb fs).
Proof.
  intros Hok Hc. destruct (run_bytes d fs c 1 Hok ltac:(lia) ltac:(lia) ltac:(lia)) as (Hz & Ht & He & Ho).
  rewrite Z.mul_1_r in He. split; [done|]. split; [done|]. split; [|split; [|done]].
  - apply cluster_off_eq; [apply Hok|]. rewrite <- (fs_count _ _ Hok). done.
  - destruct (fs_fat _ _ Hok). unfold table_end. nia.
Qed.

Lemma length_cluster_data d fs c sh : fs_ok d fs -> 2 <= c < last_cluster (fat fs) ->
  0 <= sh -> FRaw.cluster_size (bpb fs) = 2 ^ sh -> length (cluster_data d fs c) = Z.to_nat (2 ^ sh).
Proof.
  intros Hok Hc Hsh Esz. destruct (cluster_place d fs c Hok Hc) as (Ht & He & _ & Hz & _). pose proof (pow2_pos sh Hsh).
  unfold cluster_data. rewrite Esz in *.
  assert (Hl : Z.of_nat (length (slice_at (io_bytes d) (cluster_off (bpb fs) c) (2 ^ sh))) = 2 ^ sh) by (apply length_slice_at; lia).
  lia.
Qed.

Lemma cluster_datas d fs cs sh : fs_ok d fs -> in_volume fs cs ->
  0 <= sh -> FRaw.cluster_size (bpb fs) = 2 ^ sh ->
  Forall (fun l => length l = Z.to_nat (2 ^ sh)) (cluster_data d fs <$> cs).
Proof.
  intros Hok Hr Hsh Esz. apply Forall_fmap. eapply Forall_impl; [exact Hr|]. intros c Hc. by apply length_cluster_data.
Qed.

Lemma length_file_data d fs cs sh : fs_ok d fs -> in_volume fs cs ->
  0 <= sh -> FRaw.cluster_size (bpb fs) = 2 ^ sh -> Z.of_nat (length (file_data d fs cs)) = Z.of_nat (length cs) * 2 ^ sh.
Proof.
  intros Hok Hr Hsh Esz. unfold file_data. rewrite (length_mjoin _ (Z.to_nat (2 ^ sh))) by by eapply cluster_datas.
  rewrite length_fmap. pose proof (pow2_pos sh Hsh). lia.
Qed.

(** A byte of the file, by the index of its cluster and the place there. *)
Lemma file_data_at d fs cs sh (i o : nat) : fs_ok d fs -> in_volume fs cs ->
  0 <= sh -> FRaw.cluster_size (bpb fs) = 2 ^ sh -> Z.of_nat o < 2 ^ sh ->
  file_data d fs cs !! (i * Z.to_nat (2 ^ sh) + o)%nat =
  (cs !! i ≫= fun c => io_bytes d !! Z.to_nat (cluster_off (bpb fs) c + Z.of_nat o)).
Proof.
  intros Hok Hr Hsh Esz Ho. pose proof (pow2_pos sh Hsh). unfold file_data.
  rewrite (join_lookup _ (Z.to_nat (2 ^ sh))) by (lia || by eapply cluster_datas).
  rewrite Nat.div_add_l, Nat.div_small, Nat.add_0_r by lia.
  rewrite Nat.add_comm, Nat.Div0.mod_add, Nat.mod_small by lia. rewrite list_lookup_fmap.
  destruct (cs !! i) as [c|] eqn:Ec; [|done]. simpl.
  pose proof (Forall_lookup_1 _ _ _ _ Hr Ec) as Hc. destruct (cluster_place d fs c Hok Hc) as (Ht & He & _ & Hz & _).
  unfold cluster_data. rewrite lookup_slice_at by lia. rewrite (proj2 (Z.ltb_lt _ _)) by lia. f_equal. lia.
Qed.

Lemma split_pos (sz p : nat) : (0 < sz)%nat -> exists i o, p = (i * sz + o)%nat /\ (o < sz)%nat.
Proof.
  intros Hsz. exists (p / sz)%nat, (p mod sz)%nat. pose proof (Nat.div_mod_eq p sz). pose proof (Nat.mod_upper_bound p sz). lia.
Qed.

Lemma pos_Z (sz : Z) (q r : nat) : 0 < sz -> Z.of_nat (q * Z.to_nat sz + r) = Z.of_nat q * sz + Z.of_nat r.
Proof. intros. rewrite Nat2Z.inj_add, Nat2Z.inj_mul, Z2Nat.id by lia. done. Qed.
Lemma pos_nat (sz : Z) (q r : nat) : 0 < sz -> (q * Z.to_nat sz + r)%nat = Z.to_nat (Z.of_nat q * sz + Z.of_nat r).
Proof. intros. rewrite <- pos_Z by done. by rewrite Nat2Z.id. Qed.
Lemma mul_lt (a b sz : Z) : 0 < sz -> a < b -> a * sz + sz <= b * sz.
Proof. nia. Qed.
Lemma mul_le (a b sz : Z) : 0 < sz -> a <= b -> a * sz <= b * sz.
Proof. nia. Qed.

(** The bytes of a run of clusters lie on the device one after the other. *)
Lemma run_slice d fs cs sh (i : nat) c e o k : fs_ok d fs -> in_volume fs cs ->
  0 <= sh -> FRaw.cluster_size (bpb fs) = 2 ^ sh -> FT.run_ends cs !! i = Some (c, e) ->
  0 <= o -> 0 <= k -> o + k <= (e + 1 - c) * 2 ^ sh ->
  slice_at (file_data d fs cs) (Z.of_nat i * 2 ^ sh + o) k = slice_at (io_bytes d) (cluster_off (bpb fs) c + o) k.
Proof.
  intros Hok Hr Hsh Esz Hi Ho Hk Hl. pose proof (pow2_pos sh Hsh) as HN.
  destruct (run_ends_run cs (volume_small _ _ _ Hok Hr) i c e Hi) as [Hce Hrun].
  pose proof (Forall_lookup_1 _ _ _ _ Hr (run_ends_lookup_fst _ _ _ _ Hi)) as Hc.
  destruct (cluster_place d fs c Hok Hc) as (Ht & _ & _ & Hz & Hoff). rewrite Esz in Hoff.
  assert (Hi0 : 0 <= Z.of_nat i * 2 ^ sh) by lia.
  apply list_eq. intros j. rewrite !lookup_slice_at by lia. destruct (Z.ltb_spec (Z.of_nat j) k); [|done].
  destruct (split_pos (Z.to_nat (2 ^ sh)) (Z.to_nat o + j)) as (q & r & Eq & Hrq); [lia|].
  apply (f_equal Z.of_nat) in Eq. rewrite (pos_Z (2 ^ sh) q r HN) in Eq.
  assert (Hq : Z.of_nat q <= e - c).
  { apply Z.nlt_ge. intros Hq. pose proof (mul_lt (e - c) (Z.of_nat q) (2 ^ sh) HN Hq). lia. }
  replace (Z.to_nat (Z.of_nat i * 2 ^ sh + o) + j)%nat with ((i + q) * Z.to_nat (2 ^ sh) + r)%nat.
  2:{ rewrite pos_nat by done. rewrite Nat2Z.inj_add, Z.mul_add_distr_r. lia. }
  rewrite file_data_at by (done || lia).
  rewrite (run_ends_lookup_fst _ _ _ _ (Hrun q Hq)). simpl. rewrite (Hoff (c + Z.of_nat q)). f_equal.
  replace ((c + Z.of_nat q - c) * 2 ^ sh) with (Z.of_nat q * 2 ^ sh) by lia. lia.
Qed.

Lemma between_no (x y l : Z) : (x <=? y) && (y <? x + l) = false <-> y < x \/ x + l <= y.
Proof. destruct (Z.leb_spec x y), (Z.ltb_spec y (x + l)); simpl; split; intros; (done || lia). Qed.

(** Where a byte of the file is, as seen from the start of a run: at the same
    distance inside the run, and on the same side outside of it. *)
Lemma run_distance cs sh (i q : nat) c e c' (r : Z) : small cs -> NoDup cs -> 0 < 2 ^ sh ->
  FT.run_ends cs !! i = Some (c, e) -> cs !! q = Some c' -> 0 <= r < 2 ^ sh ->
  (c' - c) * 2 ^ sh + r = Z.of_nat q * 2 ^ sh + r - Z.of_nat i * 2 ^ sh
  \/ (((c' - c) * 2 ^ sh + r < 0 \/ (e + 1 - c) * 2 ^ sh <= (c' - c) * 2 ^ sh + r)
      /\ (Z.of_nat q * 2 ^ sh + r < Z.of_nat i * 2 ^ sh \/ Z.of_nat i * 2 ^ sh + (e + 1 - c) * 2 ^ sh <= Z.of_nat q * 2 ^ sh + r)).
Proof.
  intros Hsm Hnd HN Hi Eq Hr. destruct (run_ends_run cs Hsm i c e Hi) as [Hce Hrun].
  destruct (decide (i <= q <= i + Z.to_nat (e - c))%nat) as [Hin|Hout]; [left|right].
  - assert (Ec' : c' = c + Z.of_nat (q - i)).
    { pose proof (run_ends_lookup_fst _ _ _ _ (Hrun (q - i)%nat ltac:(lia))) as E2.
      replace (i + (q - i))%nat with q in E2 by lia. congruence. }
    replace (c' - c) with (Z.of_nat q - Z.of_nat i) by lia. rewrite Z.mul_sub_distr_r. lia.
  - assert (Hc'o : c' < c \/ e < c').
    { destruct (Z.lt_ge_cases c' c); [by left|]. right. apply Z.nle_gt. intros Hle. apply Hout.
      pose proof (run_ends_lookup_fst _ _ _ _ (Hrun (Z.to_nat (c' - c)) ltac:(lia))) as E2.
      replace (c + Z.of_nat (Z.to_nat (c' - c))) with c' in E2 by lia. pose proof (NoDup_lookup _ _ _ _ Hnd Eq E2). lia. }
    split.
    + destruct Hc'o as [Hlt|Hlt].
      * left. pose proof (mul_lt (c' - c) 0 (2 ^ sh) HN ltac:(lia)). lia.
      * right. pose proof (mul_le (e + 1 - c) (c' - c) (2 ^ sh) HN ltac:(lia)). lia.
    + assert ((q < i)%nat \/ (i + Z.to_nat (e - c) < q)%nat) as [Hlt|Hlt] by lia.
      * left. pose proof (mul_lt (Z.of_nat q) (Z.of_nat i) (2 ^ sh) HN ltac:(lia)). lia.
      * right. pose proof (mul_le (Z.of_nat i + (e + 1 - c)) (Z.of_nat q) (2 ^ sh) HN ltac:(lia)).
        rewrite Z.mul_add_distr_r in *. lia.
Qed.

(** Writing bytes of a run of clusters writes those bytes of the file. *)
Lemma run_splice d d' fs cs sh (i : nat) c e o (bs : list Z) : fs_ok d fs -> in_volume fs cs -> NoDup cs ->
  0 <= sh -> FRaw.cluster_size (bpb fs) = 2 ^ sh -> FT.run_ends cs !! i = Some (c, e) ->
  0 <= o -> o + Umio.len bs <= (e + 1 - c) * 2 ^ sh ->
  fs_ok d' fs -> io_bytes d' = splice (io_bytes d) (cluster_off (bpb fs) c + o) bs ->
  file_data d' fs cs = splice (file_data d fs cs) (Z.of_nat i * 2 ^ sh + o) bs.
Proof.
  intros Hok Hr Hnd Hsh Esz Hi Ho Hl Hok' Eb. pose proof (pow2_pos sh Hsh) as HN. unfold Umio.len in Hl.
  pose proof (volume_small _ _ _ Hok Hr) as Hsm. destruct (run_end_pos cs i c e Hsm Hi) as [He Hce].
  pose proof (length_file_data d fs cs sh Hok Hr Hsh Esz) as Hfl.
  pose proof (lookup_lt_Some _ _ _ He) as Hil. pose proof (Forall_lookup_1 _ _ _ _ Hr He) as Hev.
  pose proof (Forall_lookup_1 _ _ _ _ Hr (run_ends_lookup_fst _ _ _ _ Hi)) as Hc.
  destruct (cluster_place d fs c Hok Hc) as (Ht & _ & _ & Hz & Hoff).
  destruct (cluster_place d fs e Hok Hev) as (_ & Hed & _ & _ & _). rewrite Esz in *. rewrite (Hoff e) in Hed.
  assert (Hend : Z.of_nat i * 2 ^ sh + (e + 1 - c) * 2 ^ sh <= Z.of_nat (length cs) * 2 ^ sh).
  { rewrite <- Z.mul_add_distr_r. apply mul_le; [done|lia]. }
  assert (Hd : cluster_off (bpb fs) c + (e + 1 - c) * 2 ^ sh <= Z.of_nat (length (io_bytes d))).
  { replace ((e + 1 - c) * 2 ^ sh) with ((e - c) * 2 ^ sh + 2 ^ sh) by lia. lia. }
  assert (Hi0 : 0 <= Z.of_nat i * 2 ^ sh) by lia.
  apply list_eq. intros p. destruct (split_pos (Z.to_nat (2 ^ sh)) p) as (q & r & -> & Hrq); [lia|].
  rewrite lookup_splice by lia. rewrite !file_data_at by (done || lia). rewrite pos_Z by done.
  destruct (cs !! q) as [c'|] eqn:Eq; simpl.
  - rewrite Eb, lookup_splice by lia. rewrite (Hoff c').
    pose proof (Forall_lookup_1 _ _ _ _ Hr Eq) as Hc'. destruct (cluster_place d fs c' Hok Hc') as (Ht' & _ & _ & _ & _). rewrite (Hoff c') in Ht'.
    rewrite Z2Nat.id by lia. rewrite <- Z.add_assoc.
    destruct (run_distance cs sh i q c e c' (Z.of_nat r) Hsm Hnd HN Hi Eq ltac:(lia)) as [E|[H1' H2']].
    + rewrite E, pos_nat by done. set (y := Z.of_nat q * 2 ^ sh + Z.of_nat r).
      destruct (Z.leb_spec (Z.of_nat i * 2 ^ sh + o) y), (Z.leb_spec (cluster_off (bpb fs) c + o) (cluster_off (bpb fs) c + (y - Z.of_nat i * 2 ^ sh)));
        try lia; simpl; [|done].
      destruct (Z.ltb_spec y (Z.of_nat i * 2 ^ sh + o + Z.of_nat (length bs))),
        (Z.ltb_spec (cluster_off (bpb fs) c + (y - Z.of_nat i * 2 ^ sh)) (cluster_off (bpb fs) c + o + Z.of_nat (length bs)));
        try lia; [|done]. f_equal. lia.
    + rewrite (proj2 (between_no _ _ _)) by lia. rewrite (proj2 (between_no (Z.of_nat i * 2 ^ sh + o) _ _)) by lia. done.
  - apply lookup_ge_None in Eq. rewrite (proj2 (between_no _ _ _)); [done|]. right.
    pose proof (mul_le (Z.of_nat (length cs)) (Z.of_nat q) (2 ^ sh) HN ltac:(lia)). lia.
Qed.

(** ** Reading *)
Lemma dev_read d off n : 0 <= off -> 0 < n -> off + n <= Z.of_nat (length (io_bytes d)) ->
  exists k d', 0 < k <= n /\ Umio.read_at off [Umio.room n] d = (Ok (slice_at (io_bytes d) off k), d') /\ io_bytes d' = io_bytes d.
Proof.
  intros Ho Hn Hl. destruct (obj_read d off n) as (d' & Eb & [(k & Hk & E & _)|[_ Hi]]); [done|done|by rewrite dev_bytes| |].
  - exists k, d'. rewrite !dev_bytes in *. done.
  - rewrite !dev_quiet in Hi. lia.
Qed.

Notation nonempty := (Forall (fun b => 0 < Umio.room_len b)).

Lemma advance_nonempty (buf : Umio.IoSliceMut) bufs n :
  nonempty (buf :: bufs) -> 0 < n <= Umio.room_len buf -> stotal (buf :: bufs) < 2 ^ 64 ->
  exists bufs', Umio.advance_slices (buf :: bufs) n = Ok bufs' /\ nonempty bufs' /\ stotal bufs' = stotal (buf :: bufs) - n.
Proof.
  intros Hb Hn Hl. apply Forall_cons in Hb as [Hb Hbs].
  assert (Hnn : Forall (fun b => 0 <= Umio.slice_len b) bufs) by (eapply Forall_impl; [exact Hbs|]; simpl; lia).
  pose proof (total_nonneg bufs Hnn) as Ht. cbn [stotal Umio.slice_len Umio.IoSliceMut_ext] in *.
  unfold Umio.advance_slices. cbn [Umio.removed Umio.slice_len Umio.IoSliceMut_ext]. rewrite !(wadd_small 64 0) by (unfold fits; lia).
  destruct (Z.ltb_spec n (0 + Umio.room_len buf)).
  - cbn [drop Umio.advance Umio.IoSliceMut_ext]. rewrite wsub_small by (unfold fits; lia). rewrite (proj2 (Z.ltb_ge _ _)) by lia.
    eexists. split; [done|]. split; [apply Forall_cons_2; [simpl; lia|done]|]. cbn. lia.
  - assert (n = Umio.room_len buf) as -> by lia. rewrite Z.add_0_l. exists bufs. split; [|split; [done|lia]].
    destruct bufs as [|b2 bufs]; cbn [Umio.removed Umio.slice_len Umio.IoSliceMut_ext]; [by rewrite Z.eqb_refl|].
    apply Forall_cons in Hbs as [Hb2 _]. cbn [stotal Umio.slice_len Umio.IoSliceMut_ext] in *.
    assert (0 <= stotal bufs) by (apply total_nonneg; by apply Forall_cons in Hnn as [_ ?]).
    rewrite wadd_small by (unfold fits; lia).
    rewrite (proj2 (Z.ltb_lt _ _)) by lia. cbn [drop Umio.advance Umio.IoSliceMut_ext].
    rewrite wsub_small by (unfold fits; lia). rewrite Z.sub_diag, (proj2 (Z.ltb_ge _ _)) by lia. rewrite Z.sub_0_r.
    by destruct b2.
Qed.

Definition accessed fs f : FatFile := edit (FDirent.ed_set_accessed (FTime.get_current_date (time_provider fs))) f.

Lemma update_read_eq d fs f : update_read (d, fs, f) = (Ok tt, (d, fs, accessed fs f)).
Proof. done. Qed.

Lemma read_loop_spec fuel : forall d fs f off rest bufs acc,
  let n := Z.min rest (stotal bufs) in
  0 <= off -> 0 <= rest < 2 ^ 64 -> nonempty bufs -> stotal bufs < 2 ^ 64 ->
  off + n <= Z.of_nat (length (io_bytes d)) -> Z.of_nat (length (io_bytes d)) < 2 ^ 64 -> (Z.to_nat n < fuel)%nat ->
  exists d', read_loop fuel off rest bufs acc (d, fs, f) = (Ok (Some (acc ++ slice_at (io_bytes d) off n)), (d', fs, accessed fs f))
    /\ io_bytes d' = io_bytes d.
Proof.
  induction fuel as [|fuel IH]; intros d fs f off rest bufs acc n Ho Hrest Hbufs Htot Hl Hlim Hf; [lia|]. cbn [read_loop].
  assert (Hdone : n = 0 -> (_ ← update_read; mret (Some acc)) (d, fs, f) =
    (Ok (Some (acc ++ slice_at (io_bytes d) off n)), (d, fs, accessed fs f))).
  { intros E. rewrite (ST_bind_Ok _ _ _ _ _ (update_read_eq d fs f)), E. unfold slice_at. simpl. by rewrite app_nil_r. }
  destruct bufs as [|buf bufs].
  { exists d. split; [|done]. apply Hdone. unfold n. simpl. lia. }
  destruct (Z.eqb_spec rest 0) as [->|Hne].
  { exists d. split; [|done]. apply Hdone. unfold n. apply Z.min_l, total_nonneg. eapply Forall_impl; [exact Hbufs|]. simpl. lia. }
  clear Hdone. pose proof Hbufs as [Hb Hbs]%Forall_cons.
  assert (0 <= stotal bufs) by (apply total_nonneg; eapply Forall_impl; [exact Hbs|]; simpl; lia).
  assert (Hn : n = Z.min rest (Umio.room_len buf + stotal bufs)) by done. set (l := Z.min rest (Umio.room_len buf)).
  destruct (dev_read d off l) as (k & d1 & Hk & E1 & Eb1); [done|lia|lia|].
  assert (Hlk : Umio.len (slice_at (io_bytes d) off k) = k) by (apply length_slice_at; lia).
  erewrite ST_bind_Ok; [|unfold on_dev, on_fs, on_device; by rewrite E1]. cbv zeta. rewrite Hlk.
  destruct (advance_nonempty buf bufs k Hbufs ltac:(lia) Htot) as (bufs' & Ea & Hne' & Ht'). cbn [stotal Umio.slice_len Umio.IoSliceMut_ext] in Ht', Htot.
  rewrite (ST_bind_Ok _ _ _ bufs' (d1, fs, f)) by (by rewrite Ea).
  rewrite wadd_small, wsub_small by (unfold fits; lia).
  assert (Hn' : Z.min (rest - k) (stotal bufs') = n - k) by lia.
  destruct (IH d1 fs f (off + k) (rest - k) bufs' (acc ++ slice_at (io_bytes d) off k)) as (d' & E' & Eb'); rewrite ?Hn', ?Eb1; try (done || lia).
  exists d'. split; [|congruence]. rewrite E', Hn', Eb1, <- app_assoc, slice_at_app by lia. do 5 f_equal. lia.
Qed.

Lemma shift_mask_eq sh : 0 <= sh < 32 -> wsub 64 (wshl 64 1 sh) 1 = 2 ^ sh - 1 /\ wshl 64 1 sh = 2 ^ sh /\ 0 < 2 ^ sh < 2 ^ 32.
Proof.
  intros Hsh. pose proof (pow2_pos sh ltac:(lia)). pose proof (Z.pow_lt_mono_r 2 sh 32 ltac:(lia) ltac:(lia) ltac:(lia)).
  rewrite wshl_small by (unfold fits; lia). rewrite Z.mul_1_l, wsub_small by (unfold fits; lia). lia.
Qed.

Lemma decomp_eq f offset : 0 <= cluster_shift f < 32 ->
  decomp f offset = (offset / 2 ^ cluster_shift f, offset mod 2 ^ cluster_shift f).
Proof.
  intros Hsh. unfold decomp. destruct (shift_mask_eq _ Hsh) as (-> & _ & _). by rewrite Z.shiftr_div_pow2, land_mask by lia.
Qed.

Lemma decomp_end_eq f offset : 0 <= cluster_shift f < 32 -> 0 <= offset ->
  if offset =? 0 then decomp_end f offset = None
  else exists ci oc, decomp_end f offset = Some (ci, oc) /\ ci * 2 ^ cluster_shift f + oc = offset
       /\ 0 <= ci /\ 0 < oc <= 2 ^ cluster_shift f.
Proof.
  intros Hsh Ho. unfold decomp_end. destruct (shift_mask_eq _ Hsh) as (-> & -> & HN). rewrite Z.shiftr_div_pow2, land_mask by lia.
  pose proof (Z.div_mod offset (2 ^ cluster_shift f) ltac:(lia)) as Hdm.
  pose proof (Z.mod_pos_bound offset (2 ^ cluster_shift f) ltac:(lia)).
  pose proof (Z.div_pos offset (2 ^ cluster_shift f) Ho ltac:(lia)) as Hq.
  set (q := offset / 2 ^ cluster_shift f) in *. unfold checked_sub.
  destruct (Z.eqb_spec offset 0) as [->|Hne].
  - rewrite Z.mod_0_l by lia. rewrite Z.eqb_refl. assert (q = 0) as -> by (unfold q; by apply Z.div_0_l; lia). done.
  - destruct (Z.eqb_spec (offset mod 2 ^ cluster_shift f) 0) as [E|E].
    + assert (0 < q). { assert (q <> 0) by (intros Hq0; rewrite Hq0 in Hdm; lia). lia. }
      rewrite (proj2 (Z.leb_le _ _)) by lia. exists (q - 1), (2 ^ cluster_shift f). split; [done|].
      rewrite Z.mul_sub_distr_r. lia.
    + exists q, (offset mod 2 ^ cluster_shift f). split; [done|]. lia.
Qed.

(** A position inside the allocated clusters. *)
Lemma cluster_index d fs f cs offset : file_ok d fs f cs -> 0 <= offset < Z.of_nat (length cs) * 2 ^ cluster_shift f ->
  exists (i : nat) c e, Z.of_nat i = offset / 2 ^ cluster_shift f
    /\ lookup_z (clusters f) (offset / 2 ^ cluster_shift f) = Some (c, e) /\ FT.run_ends cs !! i = Some (c, e)
    /\ 2 <= c <= e /\ e < last_cluster (fat fs) /\ e < 2 ^ 32 - 1
    /\ Z.of_nat i * 2 ^ cluster_shift f + offset mod 2 ^ cluster_shift f = offset
    /\ 0 <= offset mod 2 ^ cluster_shift f < 2 ^ cluster_shift f
    /\ offset mod 2 ^ cluster_shift f < (e + 1 - c) * 2 ^ cluster_shift f.
Proof.
  intros Hok Ho. destruct (ok_shift _ _ _ _ Hok) as [Hsh Esz]. destruct (shift_mask_eq _ Hsh) as (_ & _ & HN).
  set (N := 2 ^ cluster_shift f) in *. pose proof (Z.div_mod offset N ltac:(lia)). pose proof (Z.mod_pos_bound offset N ltac:(lia)).
  pose proof (Z.div_pos offset N ltac:(lia) ltac:(lia)). pose proof (Z.div_lt_upper_bound offset N (Z.of_nat (length cs)) ltac:(lia) ltac:(lia)).
  destruct (lookup_z_in (clusters f) (offset / N)) as [[c e] Hl].
  { rewrite (ok_clusters _ _ _ _ Hok), length_run_ends. lia. }
  exists (Z.to_nat (offset / N)), c, e. destruct (lookup_z_Some _ _ _ Hl) as [_ Hi]. rewrite (ok_clusters _ _ _ _ Hok) in Hi.
  pose proof (volume_small _ _ _ (ok_fs _ _ _ _ Hok) (ok_range _ _ _ _ Hok)) as Hsm.
  destruct (run_end_pos _ _ _ _ Hsm Hi) as [He Hce].
  pose proof (Forall_lookup_1 _ _ _ _ (ok_range _ _ _ _ Hok) He).
  pose proof (Forall_lookup_1 _ _ _ _ (ok_range _ _ _ _ Hok) (run_ends_lookup_fst _ _ _ _ Hi)).
  pose proof (Forall_lookup_1 _ _ _ _ Hsm He).
  cbv beta in *. rewrite Z2Nat.id by done. split; [done|]. split; [done|]. split; [done|]. split_and!; try lia.
  pose proof (mul_lt 0 (e + 1 - c) N ltac:(lia) ltac:(lia)). lia.
Qed.

Lemma shl_clusters n sh : 0 <= sh < 32 -> 0 <= n < 2 ^ 32 -> wshl 64 n sh = n * 2 ^ sh /\ 0 <= n * 2 ^ sh < 2 ^ 63.
Proof.
  intros Hsh Hn. pose proof (pow2_pos sh ltac:(lia)). pose proof (Z.pow_le_mono_r 2 sh 31 ltac:(lia) ltac:(lia)).
  assert (n * 2 ^ sh <= n * 2 ^ 31) by (apply Z.mul_le_mono_nonneg_l; lia).
  rewrite wshl_small by (unfold fits; lia). lia.
Qed.

(** The file may be read up to its end or to the end of the run, whichever is first. *)
Lemma read_rest_eq d fs f cs offset (i : nat) c e ci oc :
  file_ok d fs f cs -> 0 <= offset < flen f -> Z.of_nat i = offset / 2 ^ cluster_shift f ->
  FT.run_ends cs !! i = Some (c, e) -> 2 <= c <= e -> e < 2 ^ 32 - 1 ->
  ci * 2 ^ cluster_shift f + oc = flen f -> 0 <= ci -> 0 < oc <= 2 ^ cluster_shift f ->
  read_rest f c e (offset mod 2 ^ cluster_shift f) ci oc =
  Z.min (flen f - offset) ((e + 1 - c) * 2 ^ cluster_shift f - offset mod 2 ^ cluster_shift f).
Proof.
  intros Hok Ho Ei Hi Hce He Eend Hci Hoc. destruct (ok_shift _ _ _ _ Hok) as [Hsh Esz]. pose proof (shift_mask_eq _ Hsh) as (_ & _ & HN).
  pose proof (volume_small _ _ _ (ok_fs _ _ _ _ Hok) (ok_range _ _ _ _ Hok)) as Hsm.
  pose proof (ok_len _ _ _ _ Hok) as Hlen. set (N := 2 ^ cluster_shift f) in *.
  pose proof (Z.div_mod offset N ltac:(lia)). pose proof (Z.mod_pos_bound offset N ltac:(lia)).
  assert (Hic : Z.of_nat i <= ci).
  { apply Z.nlt_ge. intros Hlt. pose proof (mul_lt ci (Z.of_nat i) N ltac:(lia) Hlt). lia. }
  assert (Hcl : ci < Z.of_nat (length cs)).
  { apply Z.nle_gt. intros Hle. pose proof (mul_le (Z.of_nat (length cs)) ci N ltac:(lia) Hle). lia. }
  unfold read_rest. destruct (lookup_z_in (clusters f) ci) as [[c2 e2] Hl2]; [rewrite (ok_clusters _ _ _ _ Hok), length_run_ends; lia|].
  rewrite Hl2. destruct (lookup_z_Some _ _ _ Hl2) as [_ H2l]. rewrite (ok_clusters _ _ _ _ Hok) in H2l.
  rewrite (wadd_small 32), (wsub_small 32 (e + 1)) by (unfold fits; lia).
  destruct (shl_clusters (e + 1 - c) (cluster_shift f) Hsh ltac:(lia)) as [-> Hb1]. fold N in Hb1 |- *.
  assert (Hrl : offset mod N < (e + 1 - c) * N) by (pose proof (mul_lt 0 (e + 1 - c) N ltac:(lia) ltac:(lia)); lia).
  destruct (Z.eqb_spec e2 e) as [->|Hne]; cbn [negb].
  - pose proof (same_run _ _ _ _ _ _ (ok_nodup _ _ _ _ Hok) Hsm Hi H2l) as Hd.
    destruct (run_end_pos _ _ _ _ Hsm H2l) as [_ Hc2]. rewrite (wsub_small 32) by (unfold fits; lia).
    destruct (shl_clusters (c2 - c) (cluster_shift f) Hsh ltac:(lia)) as [-> Hb2]. fold N in Hb2 |- *.
    assert (Ec2 : (c2 - c) * N = ci * N - Z.of_nat i * N) by (rewrite <- Z.mul_sub_distr_r; f_equal; lia).
    pose proof (mul_le (c2 - c + 1) (e + 1 - c) N ltac:(lia) ltac:(lia)).
    rewrite wadd_small, wsub_small by (unfold fits; lia). lia.
  - pose proof (other_run _ _ _ _ _ _ _ Hsm Hi H2l ltac:(congruence) ltac:(lia)) as Hbehind.
    pose proof (mul_le (Z.of_nat i + (e + 1 - c)) ci N ltac:(lia) ltac:(lia)) as Hm. rewrite Z.mul_add_distr_r in Hm.
    rewrite wsub_small by (unfold fits; lia). lia.
Qed.

(** What counts of a device are its bytes. *)
Lemma fs_ok_bytes d d' fs : io_bytes d' = io_bytes d -> fs_ok d fs -> fs_ok d' fs.
Proof. intros E []. split; try done; [eapply fat_ok_same; [done|by rewrite E]|by rewrite E]. Qed.

Lemma linked_ext e1 e2 cs : (forall c, c ∈ cs -> e2 c = e1 c) -> linked e1 cs -> linked e2 cs.
Proof.
  induction cs as [|c cs IH]; intros He Hl; [done|]. destruct Hl as [Hc Hl]. split; [|apply IH; [set_solver|done]].
  rewrite He by set_solver. done.
Qed.

Lemma file_ok_bytes d d' fs f cs : io_bytes d' = io_bytes d -> file_ok d fs f cs -> file_ok d' fs f cs.
Proof.
  intros E []. split; try done; [by eapply fs_ok_bytes|]. eapply linked_ext; [|done]. intros c _. unfold ent, raw_at. by rewrite E.
Qed.

Lemma accessed_ok d fs f cs : file_ok d fs f cs -> file_ok d fs (accessed fs f) cs.
Proof.
  intros []. split; try done. intros e He. unfold accessed, edit in He. simpl in He.
  destruct (entry f) as [e0|] eqn:E0; [|done]. injection He as <-. destruct (ok_sync0 e0 E0) as [Hs Hf].
  unfold FDirent.ed_set_accessed. case_bool_decide; done.
Qed.

(** A read inside the file, and one at its end. *)
Lemma read_inside d fs f cs offset (bufs : list Umio.IoSliceMut) fuel :
  file_ok d fs f cs -> 0 <= offset < flen f ->
  bufs <> [] -> Forall (fun b => 0 < Umio.room_len b) bufs -> stotal bufs < 2 ^ 64 -> (Z.to_nat (stotal bufs) < fuel)%nat ->
  let N := 2 ^ cluster_shift f in
  exists c e d', FT.run_ends cs !! Z.to_nat (offset / N) = Some (c, e)
    /\ let k := Z.min (stotal bufs) (Z.min (flen f - offset) ((e + 1 - c) * N - offset mod N)) in
       0 < k
       /\ read_at fuel offset bufs (d, fs, f) = (Ok (Some (slice_at (file_data d fs cs) offset k)), (d', fs, accessed fs f))
       /\ io_bytes d' = io_bytes d /\ file_ok d' fs (accessed fs f) cs.
Proof.
  intros Hok Ho Hne Hnb Htot Hf N. destruct (ok_shift _ _ _ _ Hok) as [Hsh Esz].
  destruct (cluster_index d fs f cs offset Hok) as (i & c & e & Ei & Hl & Hi & Hce & Hev & He & Eo & Hm & Hrl);
    [pose proof (ok_len _ _ _ _ Hok); lia|]. fold N in Ei, Hl, Eo, Hm, Hrl.
  pose proof (decomp_end_eq f (flen f) Hsh ltac:(lia)) as Hend. rewrite (proj2 (Z.eqb_neq _ _)) in Hend by lia.
  destruct Hend as (ci & oc & Eend & Esum & Hci & Hoc).
  pose proof (read_rest_eq d fs f cs offset i c e ci oc Hok Ho Ei Hi Hce He Esum Hci Hoc) as Hrest. fold N in Hrest.
  destruct (cluster_place d fs c (ok_fs _ _ _ _ Hok) ltac:(lia)) as (Ht & _ & Eoff & Hz & Hoff).
  destruct (cluster_place d fs e (ok_fs _ _ _ _ Hok) ltac:(lia)) as (_ & Hed & _ & _ & _). rewrite (Hoff e), Esz in Hed. fold N in Hed.
  assert (Hb : 0 < stotal bufs).
  { destruct bufs as [|b bufs]; [done|]. apply Forall_cons in Hnb as [Hb Hbs]. cbn.
    assert (0 <= stotal bufs) by (apply total_nonneg; eapply Forall_impl; [exact Hbs|]; simpl; lia). lia. }
  pose proof (fs_fat _ _ (ok_fs _ _ _ _ Hok)) as Hfat. destruct Hfat as [_ _ _ _ Hdl].
  set (k := Z.min (stotal bufs) (Z.min (flen f - offset) ((e + 1 - c) * N - offset mod N))).
  assert (Hsz : (e + 1 - c) * N = (e - c) * N + N) by lia.
  destruct (read_loop_spec fuel d fs f (cluster_off (bpb fs) c + offset mod N)
    (Z.min (flen f - offset) ((e + 1 - c) * N - offset mod N)) bufs []) as (d' & E & Eb); [lia|lia|done|done|lia|lia|lia|].
  exists c, e, d'. replace (Z.to_nat (offset / N)) with i by lia. split; [done|]. split; [lia|]. split; [|split; [done|]].
  - unfold read_at. rewrite (ST_bind_Ok _ _ _ f (d, fs, f)) by done. rewrite decomp_eq by done. fold N. rewrite Eend, Hl.
    rewrite (ST_bind_Ok _ _ _ fs (d, fs, f)) by done.
    rewrite (ST_bind_Ok _ _ _ (cluster_off (bpb fs) c) (d, fs, f)) by (by rewrite Eoff).
    rewrite Hrest, wadd_small by (unfold fits; lia). rewrite E, app_nil_l. rewrite Z.min_comm. fold k.
    pose proof (run_slice d fs cs (cluster_shift f) i c e (offset mod N) k) as Hs. fold N in Hs. rewrite Eo in Hs.
    rewrite Hs by (first [exact (ok_fs _ _ _ _ Hok)|exact (ok_range _ _ _ _ Hok)|done|lia]). done.
  - apply (file_ok_bytes d); [done|]. by apply accessed_ok.
Qed.
Lemma read_at_end d fs f cs (bufs : list Umio.IoSliceMut) fuel :
  file_ok d fs f cs -> 0 < flen f -> Z.of_nat (length cs) * 2 ^ cluster_shift f < flen f + 2 ^ cluster_shift f -> (0 < fuel)%nat ->
  exists f', read_at fuel (flen f) bufs (d, fs, f) = (Ok (Some []), (d, fs, f')) /\ (f' = f \/ f' = accessed fs f).
Proof.
  intros Hok Hl Hc Hf. destruct (ok_shift _ _ _ _ Hok) as [Hsh Esz]. pose proof (shift_mask_eq _ Hsh) as (_ & _ & HN).
  pose proof (ok_len _ _ _ _ Hok) as Hll. set (N := 2 ^ cluster_shift f) in *.
  pose proof (decomp_end_eq f (flen f) Hsh ltac:(lia)) as Hend. rewrite (proj2 (Z.eqb_neq _ _)) in Hend by lia.
  destruct Hend as (ci & oc & Eend & Esum & Hci & Hoc). fold N in Esum, Hoc.
  assert (ci + 1 = Z.of_nat (length cs)) as Ecs.
  { destruct (Z.lt_trichotomy (ci + 1) (Z.of_nat (length cs))) as [Hlt|[?|Hlt]]; [|done|].
    - pose proof (mul_lt (ci + 1) (Z.of_nat (length cs)) N ltac:(lia) Hlt). lia.
    - pose proof (mul_lt (Z.of_nat (length cs)) (ci + 1) N ltac:(lia) Hlt). lia. }
  unfold read_at. rewrite (ST_bind_Ok _ _ _ f (d, fs, f)) by done. rewrite decomp_eq by done. fold N. rewrite Eend.
  destruct (Z.eq_dec (flen f) (Z.of_nat (length cs) * N)) as [E|Hlt].
  - rewrite E, Z.div_mul by lia.
    rewrite lookup_z_nat, lookup_ge_None_2 by (rewrite (ok_clusters _ _ _ _ Hok), length_run_ends; lia). exists f. split; [done|by left].
  - destruct (cluster_index d fs f cs (flen f) Hok) as (i & c & e & Ei & El & Hi & Hce & Hev & He & Eo & Hm & Hrl); [fold N; lia|].
    fold N in Ei, El, Eo, Hm, Hrl.
    assert (Eci : flen f / N = ci) by (destruct (Z.div_mod_unique N (flen f / N) ci (flen f mod N) oc); lia).
    assert (Eoc : flen f mod N = oc) by lia. rewrite El, Eci, Eoc in *.
    destruct (cluster_place d fs c (ok_fs _ _ _ _ Hok) ltac:(lia)) as (_ & _ & Eoff & _ & _).
    rewrite (ST_bind_Ok _ _ _ fs (d, fs, f)) by done.
    rewrite (ST_bind_Ok _ _ _ (cluster_off (bpb fs) c) (d, fs, f)) by (by rewrite Eoff).
    assert (Hr : read_rest f c e oc ci oc = 0).
    { unfold read_rest. rewrite El, Z.eqb_refl. cbn [negb]. unfold wsub at 2. rewrite Z.sub_diag. change (wrap 32 0) with 0.
      change (wshl 64 0 (cluster_shift f)) with (wrap 64 (Z.shiftl 0 (cluster_shift f))). rewrite Z.shiftl_0_l. change (wrap 64 0) with 0.
      rewrite wadd_small by (unfold fits; lia). rewrite Z.add_0_l. unfold wsub. by rewrite Z.sub_diag. }
    rewrite Hr. exists (accessed fs f). split; [|by right]. destruct fuel as [|fuel]; [lia|]. cbn [read_loop].
    destruct bufs; [done|]. by rewrite Z.eqb_refl.
Qed.

(** C21: reading a file inside its length returns the bytes of the file from the
    position on, as many as the buffers hold, up to the end of the file or of the
    run of adjacent clusters, at least one; at its length it returns nothing.  The
    device and every other field of the file but the access date stay as they are. *)
Theorem read_at_spec d fs f cs offset (bufs : list Umio.IoSliceMut) fuel :
  file_ok d fs f cs -> 0 <= offset <= flen f ->
  bufs <> [] -> Forall (fun b => 0 < Umio.room_len b) bufs -> stotal bufs < 2 ^ 64 -> (Z.to_nat (stotal bufs) < fuel)%nat ->
  let N := 2 ^ cluster_shift f in
  (offset < flen f -> exists c e d', FT.run_ends cs !! Z.to_nat (offset / N) = Some (c, e)
    /\ let k := Z.min (stotal bufs) (Z.min (flen f - offset) ((e + 1 - c) * N - offset mod N)) in
       0 < k
       /\ read_at fuel offset bufs (d, fs, f) = (Ok (Some (slice_at (file_data d fs cs) offset k)), (d', fs, accessed fs f))
       /\ io_bytes d' = io_bytes d /\ file_ok d' fs (accessed fs f) cs)
  /\ (offset = flen f -> 0 < flen f -> Z.of_nat (length cs) * N < flen f + N ->
      exists f', read_at fuel offset bufs (d, fs, f) = (Ok (Some []), (d, fs, f')) /\ (f' = f \/ f' = accessed fs f)).
Proof.
  intros Hok Ho Hne Hnb Htot Hf N. split.
  - intros Hlt. apply read_inside; (done || lia).
  - intros -> Hl Hc. apply (read_at_end d fs f cs); (done || lia).
Qed.

(** A read that starts behind the end of a file, in its last cluster, does not
    return nothing: the distance to the end wraps around, and the buffers are filled
    with the bytes of the device that follow, of whatever file they are. *)
Theorem read_past_end d fs f cs offset (bufs : list Umio.IoSliceMut) fuel :
  file_ok d fs f cs -> 0 < flen f < offset ->
  let N := 2 ^ cluster_shift f in
  offset / N = (flen f - 1) / N ->
  Forall (fun b => 0 < Umio.room_len b) bufs -> (Z.to_nat (stotal bufs) < fuel)%nat ->
  forall c, cs !! Z.to_nat (offset / N) = Some c ->
  let start := cluster_off (bpb fs) c + offset mod N in
  start + stotal bufs <= Z.of_nat (length (io_bytes d)) ->
  (read_at fuel offset bufs (d, fs, f)).1 = Ok (Some (slice_at (io_bytes d) start (stotal bufs))).
Proof.
  intros Hok Hlen N Hsame Hnb Hf c Hc start Hdev. destruct (ok_shift _ _ _ _ Hok) as [Hsh Esz]. pose proof (shift_mask_eq _ Hsh) as (_ & _ & HN).
  fold N in HN. pose proof (Z.div_mod (flen f - 1) N ltac:(lia)) as Hdm1. pose proof (Z.mod_pos_bound (flen f - 1) N ltac:(lia)).
  pose proof (Z.div_mod offset N ltac:(lia)) as Hdm. pose proof (Z.mod_pos_bound offset N ltac:(lia)). rewrite <- Hsame in Hdm1.
  pose proof (ok_len _ _ _ _ Hok) as Hll. fold N in Hll. pose proof (Z.div_pos offset N ltac:(lia) ltac:(lia)) as Hq0.
  assert (Hq : offset / N < Z.of_nat (length cs)) by (pose proof (lookup_lt_Some _ _ _ Hc); lia).
  pose proof (mul_le (offset / N + 1) (Z.of_nat (length cs)) N ltac:(lia) ltac:(lia)).
  destruct (cluster_index d fs f cs offset Hok) as (i & c2 & e & Ei & Hl & Hi & Hce & Hev & He & Eo & Hm & Hrl); [lia|].
  fold N in Ei, Hl, Eo, Hm, Hrl. replace (Z.to_nat (offset / N)) with i in Hc by lia.
  assert (c2 = c) as -> by (pose proof (run_ends_lookup_fst _ _ _ _ Hi); congruence).
  pose proof (decomp_end_eq f (flen f) Hsh ltac:(lia)) as Hend. rewrite (proj2 (Z.eqb_neq _ _)) in Hend by lia.
  destruct Hend as (ci & oc & Eend & Esum & Hci & Hoc). fold N in Esum, Hoc.
  assert (ci = offset / N) as -> by (destruct (Z.div_mod_unique N ci (offset / N) (oc - 1) ((flen f - 1) mod N)); lia).
  destruct (cluster_place d fs c (ok_fs _ _ _ _ Hok) ltac:(lia)) as (Ht & _ & Eoff & Hz & _).
  destruct (fs_fat _ _ (ok_fs _ _ _ _ Hok)) as [_ _ _ _ Hdl].
  assert (Hr : read_rest f c e (offset mod N) (offset / N) oc = 2 ^ 64 + flen f - offset).
  { unfold read_rest. rewrite Hl, Z.eqb_refl. cbn [negb]. unfold wsub at 2. rewrite Z.sub_diag. change (wrap 32 0) with 0.
    change (wshl 64 0 (cluster_shift f)) with (wrap 64 (Z.shiftl 0 (cluster_shift f))). rewrite Z.shiftl_0_l. change (wrap 64 0) with 0.
    rewrite wadd_small by (unfold fits; lia). unfold wsub, wrap. rewrite <- (Z_mod_plus_full _ 1), Z.mod_small; lia. }
  assert (Hb : 0 <= stotal bufs) by (apply total_nonneg; eapply Forall_impl; [exact Hnb|]; simpl; lia).
  assert (Hmin : Z.min (2 ^ 64 + flen f - offset) (stotal bufs) = stotal bufs).
  { apply Z.min_r. unfold start in Hdev. lia. }
  destruct (read_loop_spec fuel d fs f start (2 ^ 64 + flen f - offset) bufs []) as (d' & E & _); rewrite ?Hmin; try (done || lia).
  unfold read_at. rewrite (ST_bind_Ok _ _ _ f (d, fs, f)) by done. rewrite decomp_eq by done. fold N. rewrite Eend, Hl.
  rewrite (ST_bind_Ok _ _ _ fs (d, fs, f)) by done.
  rewrite (ST_bind_Ok _ _ _ (cluster_off (bpb fs) c) (d, fs, f)) by (by rewrite Eoff).
  rewrite Hr, wadd_small by (unfold fits; unfold start in Hdev; lia). fold start. by rewrite E, Hmin.
Qed.
End Files.
