(* ===== verification/FatFileWrite.v ===== *)
(** * afat32: writing and truncating files *)

From S2P Require Import Prelude Ksc Bytes Umio Umifs FatTime FatRaw FatTable FatAlloc FatFs FatDirent FatFile FatFileSpec.
Import Errno FFs FFile.

Notation nonempties := (Forall (fun b : list Z => b <> [])).

Lemma advance_bytes (buf : list Z) (bufs : list (list Z)) n :
  nonempties (buf :: bufs) -> 0 < n <= Umio.len buf -> stotal (buf :: bufs) < 2 ^ 64 ->
  exists bufs', Umio.advance_slices (buf :: bufs) n = Ok bufs' /\ nonempties bufs'
    /\ mjoin bufs' = drop (Z.to_nat n) (mjoin (buf :: bufs)).
Proof.
  intros Hb Hn Hl. apply Forall_cons in Hb as [Hb Hbs]. pose proof (total_nonneg _ (slices_nonneg bufs)) as Ht.
  cbn [stotal Umio.slice_len Umio.IoSlice_ext] in *.
  unfold Umio.advance_slices. cbn [Umio.removed Umio.slice_len Umio.IoSlice_ext]. rewrite !(wadd_small 64 0) by (unfold fits; lia).
  change (mjoin (buf :: bufs)) with (buf ++ mjoin bufs).
  destruct (Z.ltb_spec n (0 + Umio.len buf)).
  - cbn [drop Umio.advance Umio.IoSlice_ext]. rewrite wsub_small by (unfold fits; lia). rewrite (proj2 (Z.ltb_ge _ _)) by lia.
    rewrite Z.sub_0_r. eexists. split; [done|]. split.
    + apply Forall_cons_2; [|done]. intros E%(f_equal length). rewrite length_drop in E. unfold Umio.len in *. simpl in E. lia.
    + change (drop (Z.to_nat n) buf ++ mjoin bufs = drop (Z.to_nat n) (buf ++ mjoin bufs)).
      rewrite drop_app_le by (unfold Umio.len in *; lia). done.
  - assert (n = Umio.len buf) as -> by lia. rewrite Z.add_0_l. exists bufs. split; [|split; [done|]].
    2:{ unfold Umio.len. by rewrite Nat2Z.id, drop_app_length. }
    destruct bufs as [|b2 bufs]; cbn [Umio.removed Umio.slice_len Umio.IoSlice_ext]; [by rewrite Z.eqb_refl|].
    apply Forall_cons in Hbs as [Hb2 _]. pose proof (total_nonneg _ (slices_nonneg bufs)).
    assert (0 < Umio.len b2) by (destruct b2; [done|unfold Umio.len; simpl; lia]).
    cbn [stotal Umio.slice_len Umio.IoSlice_ext] in *. rewrite wadd_small by (unfold fits; lia).
    rewrite (proj2 (Z.ltb_lt _ _)) by lia. cbn [drop Umio.advance Umio.IoSlice_ext].
    rewrite wsub_small by (unfold fits; lia). by rewrite Z.sub_diag, (proj2 (Z.ltb_ge _ _)) by lia.
Qed.

Lemma take_take_drop {A} (l : list A) (k n : Z) : 0 <= k <= n ->
  take (Z.to_nat k) l ++ take (Z.to_nat (n - k)) (drop (Z.to_nat k) l) = take (Z.to_nat n) l.
Proof.
  intros Hk. rewrite <- (take_drop (Z.to_nat k) (take (Z.to_nat n) l)). rewrite take_take, Nat.min_l by lia. f_equal.
  rewrite skipn_firstn_comm. f_equal. lia.
Qed.

Section Write.
Context {D P : Type} `{Bytes.Io D} `{!Bytes.IoSpec D} `{Umio.Io D} `{!ObjSpec D} `{!DevSpec D}.
Context `{FTime.TimeProvider P}.
Notation Fs := (FatFileSystem P).
Implicit Types (d : D) (fs : Fs) (f : FatFile) (cs : list Z).

Lemma dev_write d off bs : 0 <= off -> bs <> [] -> Forall byte bs -> off + Umio.len bs <= Z.of_nat (length (io_bytes d)) ->
  exists k d', 0 < k <= Umio.len bs /\ Umio.write_at off [bs] d = (Ok k, d')
    /\ io_bytes d' = splice (io_bytes d) off (take (Z.to_nat k) bs).
Proof.
  intros Ho Hne Hb Hl. destruct (obj_write d off bs) as (d' & [(k & Hk & E & Eb & _)|(_ & _ & Hi)]); [done|done|done|by rewrite dev_bytes| |].
  - exists k, d'. rewrite !dev_bytes in *. done.
  - rewrite !dev_quiet in Hi. lia.
Qed.

(** The file after a write that ended at [offset]. *)
Definition modified fs (offset : Z) f : FatFile :=
  edit (fun e =>
    let e := FDirent.ed_set_modified (FTime.get_current_date_time (time_provider fs)) e in
    match FDirent.size_opt (FDirent.data e) with
    | Some s => if s <? offset then FDirent.ed_set_size offset e else e
    | None => e
    end) (with_len f (Z.max (flen f) offset)).

Lemma update_write_eq d fs f offset : update_write offset (d, fs, f) = (Ok tt, (d, fs, modified fs offset f)).
Proof. done. Qed.

Lemma set_modified_kept t e :
  FDirent.size_opt (FDirent.data (FDirent.ed_set_modified t e)) = FDirent.size_opt (FDirent.data e)
  /\ FDirent.first_cluster (FDirent.data (FDirent.ed_set_modified t e)) = FDirent.first_cluster (FDirent.data e).
Proof. unfold FDirent.ed_set_modified. by case_bool_decide. Qed.

Lemma set_size_kept n e s : FDirent.size_opt (FDirent.data e) = Some s ->
  FDirent.size_opt (FDirent.data (FDirent.ed_set_size n e)) = Some n
  /\ FDirent.first_cluster (FDirent.data (FDirent.ed_set_size n e)) = FDirent.first_cluster (FDirent.data e).
Proof.
  intros E. unfold FDirent.ed_set_size. rewrite E. destruct (Z.eqb_spec n s) as [->|]; [done|]. split; [|done].
  unfold FDirent.size_opt in *. simpl. unfold FDirent.is_file, FDirent.is_dir in *. simpl.
  destruct (FDirent.contains _ _); simpl in *; congruence.
Qed.

Lemma modified_sync fs offset f cs : in_sync f cs -> in_sync (modified fs offset f) cs.
Proof.
  intros Hs e He. unfold modified, edit in He. simpl in He. destruct (entry f) as [e0|] eqn:E0; [|done]. injection He as <-.
  destruct (Hs e0 E0) as [Hsz Hfc]. cbv zeta.
  destruct (set_modified_kept (FTime.get_current_date_time (time_provider fs)) e0) as [Es Ef]. simpl.
  set (e1 := FDirent.ed_set_modified _ e0) in *.
  destruct (FDirent.size_opt (FDirent.data e1)) as [s|] eqn:E1.
  - specialize (Hsz s ltac:(congruence)). destruct (Z.ltb_spec s offset).
    + destruct (set_size_kept offset e1 s E1) as [Hs1 Hf1]. rewrite Hs1, Hf1. split; [intros s' [= <-]; lia|congruence].
    + rewrite E1. split; [intros s' [= <-]; lia|congruence].
  - rewrite E1. split; [done|congruence].
Qed.

Lemma write_loop_done d fs f offset off (bs : list Z) written :
  exists d', (_ ← update_write (wrap 32 offset); mret (Some written)) (d, fs, f) =
      (Ok (Some (written + 0)), (d', fs, modified fs (wrap 32 (offset + 0)) f))
    /\ io_bytes d' = splice (io_bytes d) off (take (Z.to_nat 0) bs).
Proof.
  exists d. rewrite (ST_bind_Ok _ _ _ _ _ (update_write_eq d fs f _)), !Z.add_0_r. split; [done|].
  unfold splice. simpl. by rewrite Nat.add_0_r, take_drop.
Qed.

Lemma write_loop_spec fuel : forall d fs f offset off rest (bufs : list (list Z)) written,
  let n := Z.min rest (Umio.len (mjoin bufs)) in
  0 <= off -> 0 <= rest < 2 ^ 64 -> nonempties bufs -> Forall byte (mjoin bufs) -> Umio.len (mjoin bufs) < 2 ^ 64 ->
  off + n <= Z.of_nat (length (io_bytes d)) -> Z.of_nat (length (io_bytes d)) < 2 ^ 64 ->
  0 <= offset -> offset + n < 2 ^ 64 -> 0 <= written -> written + n < 2 ^ 64 -> (Z.to_nat n < fuel)%nat ->
  exists d', write_loop fuel offset off rest bufs written (d, fs, f)
      = (Ok (Some (written + n)), (d', fs, modified fs (wrap 32 (offset + n)) f))
    /\ io_bytes d' = splice (io_bytes d) off (take (Z.to_nat n) (mjoin bufs)).
Proof.
  induction fuel as [|fuel IH]; intros d fs f offset off rest bufs written n Ho Hrest Hbufs Hby Htot Hl Hlim Hoff Hoff' Hw Hw' Hf; [lia|].
  cbn [write_loop].
  destruct bufs as [|buf bufs].
  { assert (n = 0) as -> by (unfold n; change (Umio.len (mjoin [])) with 0; lia). apply write_loop_done. }
  destruct (Z.eqb_spec rest 0) as [->|Hne]; [assert (n = 0) as -> by (unfold n, Umio.len; lia); apply write_loop_done|].
  pose proof Hbufs as [Hb Hbs]%Forall_cons. assert (Hb0 : 0 < Umio.len buf) by (destruct buf; [done|unfold Umio.len; simpl; lia]).
  assert (Hlj : Umio.len (mjoin (buf :: bufs)) = Umio.len buf + Umio.len (mjoin bufs)).
  { change (mjoin (buf :: bufs)) with (buf ++ mjoin bufs). unfold Umio.len. rewrite length_app. lia. }
  assert (0 <= Umio.len (mjoin bufs)) by (unfold Umio.len; lia).
  set (l := Z.min rest (Umio.len buf)). assert (Hll : Umio.len (take (Z.to_nat l) buf) = l) by (unfold Umio.len in *; rewrite length_take; lia).
  assert (Hbb : Forall byte buf) by (change (mjoin (buf :: bufs)) with (buf ++ mjoin bufs) in Hby; by apply Forall_app in Hby as []).
  destruct (dev_write d off (take (Z.to_nat l) buf)) as (k & d1 & Hk & E1 & Eb1); [done| |by apply Forall_take|lia|].
  { intros E. rewrite E in Hll. unfold Umio.len in Hll. simpl in Hll. lia. }
  erewrite ST_bind_Ok; [|unfold on_dev, on_fs, on_device; by rewrite E1]. rewrite Hll in Hk.
  destruct (advance_bytes buf bufs k Hbufs ltac:(lia)) as (bufs' & Ea & Hne' & Ej'); [rewrite total_join; done|].
  rewrite (ST_bind_Ok _ _ _ bufs' (d1, fs, f)) by (by rewrite Ea).
  assert (Hlj' : Umio.len (mjoin bufs') = Umio.len (mjoin (buf :: bufs)) - k).
  { rewrite Ej'. unfold Umio.len in *. rewrite length_drop. lia. }
  rewrite !wadd_small, wsub_small by (unfold fits; lia).
  assert (Hn' : Z.min (rest - k) (Umio.len (mjoin bufs')) = n - k) by lia.
  assert (Ek : take (Z.to_nat k) (take (Z.to_nat l) buf) = take (Z.to_nat k) (mjoin (buf :: bufs))).
  { change (mjoin (buf :: bufs)) with (buf ++ mjoin bufs). rewrite take_take, Nat.min_l by lia.
    rewrite take_app_le by (unfold Umio.len in *; lia). done. }
  assert (Hlk : Z.of_nat (length (take (Z.to_nat k) (mjoin (buf :: bufs)))) = k) by (unfold Umio.len in *; rewrite length_take; lia).
  assert (Hl1 : length (io_bytes d1) = length (io_bytes d)) by (rewrite Eb1, Ek; apply length_splice; lia).
  destruct (IH d1 fs f (offset + k) (off + k) (rest - k) bufs' (written + k)) as (d' & E' & Eb');
    rewrite ?Hn', ?Hl1; try (done || lia); [rewrite Ej'; by apply Forall_drop|].
  exists d'. split.
  { rewrite E', Hn'. replace (written + k + (n - k)) with (written + n) by lia. by replace (offset + k + (n - k)) with (offset + n) by lia. }
  rewrite Eb', Hn', Eb1, Ek, Ej'.
  replace (off + k) with (off + Umio.len (take (Z.to_nat k) (mjoin (buf :: bufs)))) by (unfold Umio.len; lia). rewrite splice_splice.
  - f_equal. apply take_take_drop. lia.
  - done.
  - unfold Umio.len in *. rewrite length_app, !length_take, length_drop in *. lia.
Qed.

(** ** Allocation *)
Lemma first_cluster_set e c : 0 < c < 2 ^ 32 ->
  FDirent.first_cluster (FDirent.set_first_cluster e (Some c)) = Some c
  /\ FDirent.first_cluster (FDirent.set_first_cluster e None) = None.
Proof.
  intros Hc. split; [|done]. unfold FDirent.first_cluster, FDirent.set_first_cluster. simpl.
  rewrite Z.shiftr_div_pow2 by lia. change 65535 with (2 ^ 16 - 1). rewrite land_mask by lia.
  pose proof (Z.div_mod c (2 ^ 16) ltac:(lia)). pose proof (Z.mod_pos_bound c (2 ^ 16) ltac:(lia)).
  pose proof (Z.div_lt_upper_bound c (2 ^ 16) (2 ^ 16) ltac:(lia) ltac:(lia)). pose proof (Z.div_pos c (2 ^ 16) ltac:(lia) ltac:(lia)).
  rewrite !wrap_small by (unfold fits; lia). rewrite wshl_small by (unfold fits; lia).
  rewrite (lor_low _ _ 16) by (try apply Z.mod_mul; lia). rewrite (proj2 (Z.eqb_neq _ _)) by lia. f_equal. lia.
Qed.

Lemma linked_crun e n : forall r, (forall j, r <= j < r + Z.of_nat n -> e j = FT.Next (j + 1)) -> e (r + Z.of_nat n) = FT.End_ ->
  linked e (crun r (S n)).
Proof.
  induction n as [|n IH]; intros r Hn He.
  - split; [|done]. rewrite Z.add_0_r in *. done.
  - rewrite crun_S. specialize (IH (r + 1)). rewrite crun_S in *. split; [apply Hn; lia|]. apply IH; [intros; apply Hn; lia|].
    rewrite <- He. f_equal. lia.
Qed.

Lemma linked_append e e' l r n : linked e l -> NoDup l ->
  (forall c, c ∈ l -> last l <> Some c -> e' c = e c) -> (forall p, last l = Some p -> e' p = FT.Next r) ->
  linked e' (crun r (S n)) -> linked e' (l ++ crun r (S n)).
Proof.
  intros Hl Hnd Hsame Hlast Hrun. induction l as [|c l IH]; [done|]. apply NoDup_cons in Hnd as [Hc Hnd].
  destruct Hl as [Hcl Hl]. destruct l as [|x l].
  - split; [|done]. rewrite crun_S. by apply Hlast.
  - split.
    + cbn [app]. rewrite Hsame; [done|set_solver|]. intros Ec. apply Hc. by apply last_Some_elem_of.
    + apply IH; try done. intros c' Hc' Hne. apply Hsame; [set_solver|done].
Qed.

Lemma linked_not_free e l : linked e l -> Forall (fun c => e c <> FT.Free) l.
Proof. induction l as [|c l IH]; [constructor|]. intros [Hc Hl]. constructor; [|by apply IH]. destruct l; by rewrite Hc. Qed.
Lemma linked_last e l p : linked e l -> last l = Some p -> e p = FT.End_.
Proof. induction l as [|c l IH]; [done|]. intros [Hc Hl] Hp. destruct l as [|x l]; [by injection Hp as <-|by apply IH]. Qed.

(** The file after one allocation. *)
Definition grow (r n : Z) f : FatFile :=
  let new_end := wsub 32 (wadd 32 r n) 1 in
  let f := match last (clusters f) with
    | Some (_, old_end) =>
        if wadd 32 old_end 1 =? r then with_clusters f (move_ends old_end new_end (clusters f)) else f
    | None => edit (FDirent.ed_set_first_cluster (Some r)) f
    end in
  with_clusters f (clusters f ++ new_run r n new_end).

Lemma grow_clusters f cs r n : clusters f = FT.run_ends cs -> NoDup cs -> small cs -> 0 <= r -> 0 < n -> r + n < 2 ^ 32 ->
  clusters (grow r n f) = FT.run_ends (cs ++ crun r (Z.to_nat n)).
Proof.
  intros Ef Hnd Hs Hr Hn Hl. unfold grow. cbv zeta. rewrite wadd_small, wsub_small by (unfold fits; lia).
  assert (Enew : new_run r n (r + n - 1) = FT.run_ends (crun r (Z.to_nat n))).
  { unfold new_run. rewrite wadd_small by (unfold fits; lia). rewrite run_ends_crun by lia. unfold crun. rewrite <- list_fmap_compose.
    replace (Z.to_nat (r + n - r)) with (Z.to_nat n) by lia. apply list_fmap_ext. intros i x _. simpl. f_equal. lia. }
  rewrite Enew, Ef. destruct (last cs) as [old|] eqn:El.
  - assert (Hlast : last (FT.run_ends cs) = Some (old, old)).
    { pose proof (last_Some cs old) as [Hx _]. destruct (Hx El) as [l' ->]. rewrite last_lookup, length_run_ends, length_app.
      rewrite Nat.add_1_r. simpl. apply run_ends_last. }
    rewrite Hlast, (run_ends_append cs (crun r (Z.to_nat n)) (r + n - 1) old r Hnd El).
    + destruct (wadd 32 old 1 =? r); cbn [clusters with_clusters]; [|by rewrite Ef]. f_equal.
      pose proof (move_ends_take cs (length (FT.run_ends cs)) old old (r + n - 1) Hnd Hs) as Hm. rewrite firstn_all in Hm. by apply Hm.
    + destruct (Z.to_nat n) eqn:E; [lia|]. by rewrite crun_S.
    + rewrite run_ends_crun by lia. apply Forall_fmap, Forall_forall. intros c _. simpl. lia.
  - apply last_None in El as ->. simpl. by rewrite Ef.
Qed.

Lemma grow_fields f r n : cluster_shift (grow r n f) = cluster_shift f /\ flen (grow r n f) = flen f /\ perm (grow r n f) = perm f.
Proof. unfold grow. cbv zeta. destruct (last (clusters f)) as [[? ?]|]; [|done]. by destruct (_ =? _). Qed.

Lemma grow_sync f cs r n m : clusters f = FT.run_ends cs -> in_sync f cs -> 0 < r < 2 ^ 32 -> in_sync (grow r n f) (cs ++ crun r (S m)).
Proof.
  intros Ef Hs Hr e He. destruct (grow_fields f r n) as (_ & -> & _). destruct cs as [|c cs].
  - unfold grow in He. rewrite Ef in He. simpl in He. destruct (entry f) as [e0|] eqn:E0; [|done]. injection He as <-.
    destruct (Hs e0 E0) as [Hsz _]. unfold FDirent.ed_set_first_cluster. case_bool_decide as Ec; [rewrite crun_S; split; [exact Hsz|by rewrite <- Ec]|].
    destruct (first_cluster_set (FDirent.data e0) r Hr) as [E1 _]. rewrite crun_S. split; [exact Hsz|exact E1].
  - apply (Hs e). rewrite <- He. unfold grow. cbv zeta. rewrite Ef.
    destruct (last (FT.run_ends (c :: cs))) as [[? ?]|] eqn:El.
    + by destruct (_ =? _).
    + apply last_None in El. apply (f_equal length) in El. by rewrite length_run_ends in El.
Qed.

Lemma alloc_cluster_raw d d1 fs prev num r n :
  FT.allocate (fat fs) prev (FRaw.next_free_cluster (fs_info fs)) num d = (Ok (r, n), d1) ->
  exists i, alloc_cluster prev num false (d, fs) = (Ok (r, n), (d1, with_info fs i))
    /\ FRaw.next_free_cluster i = Some (wadd 32 r n).
Proof.
  intros E. eexists. split; [|shelve]. unfold alloc_cluster. rewrite (ST_bind_Ok _ _ _ fs (d, fs)) by done.
  erewrite ST_bind_Ok; [|unfold on_device; by rewrite E]. cbv beta iota.
  erewrite ST_bind_Ok by reflexivity. erewrite ST_bind_Ok by reflexivity. reflexivity.
  Unshelve. unfold FRaw.map_free_clusters, FRaw.set_next_free_cluster. simpl. by destruct (FRaw.free_cluster_count (fs_info fs)).
Qed.

Lemma crun_disjoint d fs cs r n : linked (ent (fat fs) d) cs ->
  (forall c, r <= c < r + Z.of_nat n -> ent (fat fs) d c = FT.Free) -> forall c, c ∈ cs -> c ∉ crun r n.
Proof.
  intros Hl Hfree c Hc Hin. pose proof (linked_not_free _ _ Hl) as Hnf. rewrite Forall_forall in Hnf.
  apply (Hnf c Hc), Hfree. by apply elem_of_crun.
Qed.

Lemma NoDup_crun r n : NoDup (crun r n).
Proof. unfold crun. apply NoDup_fmap_2; [intros a b; lia|apply NoDup_seq]. Qed.

(** Appending a run of free clusters keeps the file in order. *)
Lemma grow_ok d d1 fs f cs r n i :
  file_ok d fs f cs -> 2 <= r -> 0 < n -> r + n <= last_cluster (fat fs) ->
  (forall c, r <= c < r + n -> ent (fat fs) d c = FT.Free) ->
  updates (fat fs) d d1 (alloc_entries (last cs) r n) ->
  (forall h, FRaw.next_free_cluster i = Some h -> 0 <= h) ->
  file_ok d1 (with_info fs i) (grow r n f) (cs ++ crun r (Z.to_nat n)).
Proof.
  intros Hok Hr Hn Hl Hfree (Hd1 & Ho & Hu) Hi. pose proof Hok as [Hfs [Hsh Esz] Ecl Hnd Hrg Hlk Hlen Hsy].
  pose proof (volume_small _ _ _ Hfs Hrg) as Hsm.
  assert (Hlast : last_cluster (fat fs) < 2 ^ 32 - 1) by (destruct (fs_fat _ _ Hfs); unfold last_cluster; lia).
  destruct (Z.to_nat n) as [|m] eqn:En; [lia|]. assert (Hnm : n = Z.of_nat m + 1) by lia.
  pose proof (crun_disjoint d fs cs r (S m) Hlk ltac:(intros; apply Hfree; lia)) as Hdis.
  destruct (grow_fields f r n) as (Es & El & _). split.
  - apply (fs_ok_with_info d); try done. apply Ho.
  - by rewrite Es.
  - rewrite <- En. apply grow_clusters; (done || lia).
  - apply NoDup_app. split; [done|]. split; [done|apply NoDup_crun].
  - apply Forall_app_2; [done|]. apply Forall_forall. intros c Hc%elem_of_crun. simpl. lia.
  - assert (He : forall c, 2 <= c < last_cluster (fat fs) -> ent (fat fs) d1 c = default (ent (fat fs) d c) (alloc_entries (last cs) r n c))
      by (intros; apply Hu; lia).
    cbn [fat with_info]. apply (linked_append (ent (fat fs) d)); [done|done| | |].
    + intros c Hc Hne. pose proof (Hdis c Hc) as Hno. rewrite elem_of_crun in Hno. unfold in_volume in Hrg. rewrite Forall_forall in Hrg.
      rewrite He by (by apply Hrg). unfold alloc_entries.
      rewrite (proj2 (Z.eqb_neq _ _)) by lia. rewrite bool_decide_false by done.
      destruct (Z.leb_spec r c); [|done]. by rewrite (proj2 (Z.ltb_ge _ _)) by lia.
    + intros p Hp. assert (p ∈ cs) as Hin by (by apply last_Some_elem_of). pose proof (Hdis p Hin) as Hno. rewrite elem_of_crun in Hno.
      unfold in_volume in Hrg. rewrite Forall_forall in Hrg. rewrite He by (by apply Hrg). unfold alloc_entries.
      rewrite (proj2 (Z.eqb_neq _ _)) by lia. rewrite bool_decide_true by done.
      destruct (Z.leb_spec r p); [|done]. by rewrite (proj2 (Z.ltb_ge _ _)) by lia.
    + apply linked_crun.
      * intros j Hj. rewrite He by lia. unfold alloc_entries. rewrite (proj2 (Z.eqb_neq _ _)) by lia.
        by rewrite (proj2 (Z.leb_le _ _)), (proj2 (Z.ltb_lt _ _)) by lia.
      * rewrite He by lia. unfold alloc_entries. by rewrite (proj2 (Z.eqb_eq _ _)) by lia.
  - rewrite El, Es, length_app, length_crun. pose proof (pow2_pos (cluster_shift f) ltac:(lia)). nia.
  - apply grow_sync; (done || lia).
Qed.

Lemma last_clusters f cs : clusters f = FT.run_ends cs -> fst <$> last (clusters f) = last cs.
Proof. intros ->. rewrite <- (run_ends_fst cs) at 2. by rewrite fmap_last. Qed.

Lemma alloc_loop_once d fs f cs times : file_ok d fs f cs -> 0 < times < 2 ^ 32 ->
  let run := alloc_loop (S (Z.to_nat times)) 0 times 0 (fst <$> last (clusters f)) (d, fs, f) in
  let h := Z.max (default 2 (FRaw.next_free_cluster (fs_info fs))) 2 in
  (exists r n d1 i, run = (Ok (r, n), (d1, with_info fs i, grow r n f))
     /\ 0 < n <= times /\ 2 <= r /\ r + n <= last_cluster (fat fs)
     /\ (forall c, r <= c < r + n -> ent (fat fs) d c = FT.Free)
     /\ updates (fat fs) d d1 (alloc_entries (last cs) r n)
     /\ file_ok d1 (with_info fs i) (grow r n f) (cs ++ crun r (Z.to_nat n)))
  \/ (run = (Err ENOSPC, (d, fs, f)) /\ forall c, h <= c < last_cluster (fat fs) -> ent (fat fs) d c <> FT.Free).
Proof.
  intros Hok Ht run h. pose proof Hok as [Hfs _ Ecl _ Hrg Hlk _ _]. unfold run. rewrite (last_clusters f cs Ecl). cbn [alloc_loop].
  rewrite wsub_small by (unfold fits; lia). rewrite Z.sub_0_r.
  assert (Hprev : forall p, last cs = Some p -> 2 <= p < last_cluster (fat fs) /\ ent (fat fs) d p <> FT.Free).
  { intros p Hp. unfold in_volume in Hrg. rewrite Forall_forall in Hrg. split; [apply Hrg; by apply last_Some_elem_of|].
    by rewrite (linked_last _ _ _ Hlk Hp). }
  destruct (allocate_spec (fat fs) d (last cs) (FRaw.next_free_cluster (fs_info fs)) times (fs_fat _ _ Hfs) ltac:(lia) (fs_hint _ _ Hfs) Hprev)
    as [(r & n & d1 & E & Hr & Hn & Hl & Hfree & Hu)|[E Hnone]]; [left|right].
  - destruct (alloc_cluster_raw d d1 fs (last cs) times r n E) as (i & Ea & Ei). fold h in Hr. exists r, n, d1, i.
    assert (Hlast : last_cluster (fat fs) < 2 ^ 32 - 1) by (destruct (fs_fat _ _ Hfs); unfold last_cluster; lia).
    rewrite wadd_small in Ei by (unfold fits; lia). split_and!; try (done || lia).
    + erewrite ST_bind_Ok; [|unfold on_fs; by rewrite Ea]. cbv beta iota zeta. erewrite ST_bind_Ok by reflexivity.
      rewrite (wadd_small 32 0) by (unfold fits; lia). rewrite (proj2 (Z.ltb_lt _ _)) by lia. cbn [orb].
      rewrite wsub_small by (unfold fits; lia). unfold mret, ST_ret. do 3 f_equal. lia.
    + apply (grow_ok d); try (done || lia). intros h' [= <-]%(eq_trans (eq_sym Ei)). lia.
  - split; [|done]. erewrite ST_bind_Err; [done|]. unfold on_fs, alloc_cluster. rewrite (ST_bind_Ok _ _ _ fs (d, fs)) by done.
    erewrite ST_bind_Err; [done|]. unfold on_device. by rewrite E.
Qed.

(** ** Writing *)
(** A write to the data area keeps the table. *)
Lemma splice_ent d d' fs off bs : fs_ok d fs -> table_end (fat fs) <= off -> off + Umio.len bs <= Z.of_nat (length (io_bytes d)) ->
  io_bytes d' = splice (io_bytes d) off bs ->
  fs_ok d' fs /\ (forall c, 0 <= c < last_cluster (fat fs) -> ent (fat fs) d' c = ent (fat fs) d c).
Proof.
  intros Hfs Ht Hl Eb. pose proof (fs_fat _ _ Hfs) as Hfat. pose proof Hfat as []. unfold Umio.len in *.
  assert (Hte : 0 <= table_end (fat fs)) by (unfold table_end; nia).
  assert (Hlen : length (io_bytes d') = length (io_bytes d)) by (rewrite Eb; apply length_splice; lia). split.
  - destruct Hfs. split; try done; [by eapply fat_ok_same|by rewrite Hlen].
  - intros c Hc. unfold ent, raw_at. rewrite Eb, slice_splice_other; [done|lia|lia|unfold table_end, last_cluster in *; nia|].
    left. unfold table_end, last_cluster in *. nia.
Qed.

(** Clusters outside a run keep their bytes when bytes of the run are written. *)
Lemma splice_other_cluster d d' fs cs (i : nat) c e c' o bs sh : fs_ok d fs -> in_volume fs cs -> 0 <= sh ->
  FRaw.cluster_size (bpb fs) = 2 ^ sh -> FT.run_ends cs !! i = Some (c, e) -> 0 <= o -> o + Umio.len bs <= (e + 1 - c) * 2 ^ sh ->
  2 <= c' < last_cluster (fat fs) -> c' ∉ cs ->
  cluster_off (bpb fs) c + o + Umio.len bs <= Z.of_nat (length (io_bytes d)) ->
  io_bytes d' = splice (io_bytes d) (cluster_off (bpb fs) c + o) bs -> cluster_data d' fs c' = cluster_data d fs c'.
Proof.
  intros Hfs Hr Hsh Esz Hi Ho Hl Hc' Hnot Hd Eb. pose proof (volume_small _ _ _ Hfs Hr) as Hsm. pose proof (pow2_pos sh Hsh) as HN.
  destruct (run_ends_run cs Hsm i c e Hi) as [Hce Hrun].
  pose proof (Forall_lookup_1 _ _ _ _ Hr (run_ends_lookup_fst _ _ _ _ Hi)) as Hc.
  destruct (cluster_place d fs c Hfs Hc) as (Ht & _ & _ & Hz & Hoff). destruct (cluster_place d fs c' Hfs Hc') as (Ht' & _ & _ & _ & _).
  unfold cluster_data. rewrite Eb. unfold Umio.len in *. apply slice_splice_other; [lia|lia|lia|].
  rewrite (Hoff c'), Esz. assert (c' < c \/ e < c') as [Hlt|Hlt].
  { destruct (Z.lt_ge_cases c' c); [by left|]. right. apply Z.nle_gt. intros Hle. apply Hnot.
    pose proof (run_ends_lookup_fst _ _ _ _ (Hrun (Z.to_nat (c' - c)) ltac:(lia))) as E2.
    replace (c + Z.of_nat (Z.to_nat (c' - c))) with c' in E2 by lia. by eapply list_elem_of_lookup_2. }
  - left. pose proof (mul_lt (c' - c) 0 (2 ^ sh) HN ltac:(lia)). lia.
  - right. pose proof (mul_le (e + 1 - c) (c' - c) (2 ^ sh) HN ltac:(lia)). lia.
Qed.

Lemma write_in_run d fs f cs (i : nat) c e o offset (bufs : list (list Z)) fuel :
  let N := 2 ^ cluster_shift f in let k := Z.min ((e + 1 - c) * N - o) (Umio.len (mjoin bufs)) in
  file_ok d fs f cs -> FT.run_ends cs !! i = Some (c, e) -> offset = Z.of_nat i * N + o -> 0 <= o < N ->
  nonempties bufs -> Forall byte (mjoin bufs) -> offset + Umio.len (mjoin bufs) < 2 ^ 32 -> (Z.to_nat (Umio.len (mjoin bufs)) < fuel)%nat ->
  exists d', write_loop fuel offset (cluster_off (bpb fs) c + o) ((e + 1 - c) * N - o) bufs 0 (d, fs, f)
      = (Ok (Some k), (d', fs, modified fs (offset + k) f))
    /\ file_ok d' fs (modified fs (offset + k) f) cs
    /\ file_data d' fs cs = splice (file_data d fs cs) offset (take (Z.to_nat k) (mjoin bufs))
    /\ (forall c', 0 <= c' < last_cluster (fat fs) -> ent (fat fs) d' c' = ent (fat fs) d c')
    /\ (forall c', 2 <= c' < last_cluster (fat fs) -> c' ∉ cs -> cluster_data d' fs c' = cluster_data d fs c').
Proof.
  intros N k Hok Hi Eo Ho Hne Hby Hlim Hf. pose proof Hok as [Hfs [Hsh Esz] Ecl Hnd Hrg Hlk Hlen Hsy].
  destruct (shift_mask_eq _ Hsh) as (_ & _ & HN). fold N in Esz, HN, Hlen. pose proof (volume_small _ _ _ Hfs Hrg) as Hsm.
  destruct (run_end_pos cs i c e Hsm Hi) as [He Hce]. pose proof (Forall_lookup_1 _ _ _ _ Hrg He) as Hev.
  pose proof (Forall_lookup_1 _ _ _ _ Hrg (run_ends_lookup_fst _ _ _ _ Hi)) as Hc. pose proof (Forall_lookup_1 _ _ _ _ Hsm He) as Hes. cbv beta in *.
  destruct (cluster_place d fs c Hfs Hc) as (Ht & _ & _ & Hz & Hoff).
  destruct (cluster_place d fs e Hfs Hev) as (_ & Hed & _ & _ & _). rewrite (Hoff e), Esz in Hed.
  assert (Hsz : (e + 1 - c) * N = (e - c) * N + N) by lia. assert (0 <= (e - c) * N) by (apply Z.mul_nonneg_nonneg; lia).
  destruct (fs_fat _ _ Hfs) as [_ _ _ _ Hdl]. assert (0 <= Umio.len (mjoin bufs)) by (unfold Umio.len; lia).
  assert (Hi0 : 0 <= Z.of_nat i * N) by (apply Z.mul_nonneg_nonneg; lia).
  destruct (write_loop_spec fuel d fs f offset (cluster_off (bpb fs) c + o) ((e + 1 - c) * N - o) bufs 0) as (d' & E & Eb);
    [lia|lia|done|done|lia|lia|lia|lia|lia|lia|lia|lia|]. fold k in E, Eb. rewrite Z.add_0_l, (wrap_small 32) in E by (unfold fits; lia).
  assert (Hlt : Umio.len (take (Z.to_nat k) (mjoin bufs)) = k) by (unfold Umio.len in *; rewrite length_take; lia).
  destruct (splice_ent d d' fs (cluster_off (bpb fs) c + o) (take (Z.to_nat k) (mjoin bufs)) Hfs) as [Hfs' Hent]; [lia|lia|done|].
  exists d'. split; [done|]. split; [|split; [|split; [done|]]].
  - split; try done.
    + eapply linked_ext; [|done]. intros c' Hc'. unfold in_volume in Hrg. rewrite Forall_forall in Hrg. specialize (Hrg c' Hc'). apply Hent. lia.
    + cbn [flen modified edit with_entry with_len cluster_shift]. fold N. pose proof (lookup_lt_Some _ _ _ He).
      pose proof (mul_le (Z.of_nat i + (e + 1 - c)) (Z.of_nat (length cs)) N ltac:(lia) ltac:(lia)) as Hm. rewrite Z.mul_add_distr_r in Hm. lia.
    + by apply modified_sync.
  - rewrite Eo. apply (run_splice d d' fs cs (cluster_shift f) i c e o); try (done || lia); fold N; lia.
  - intros c' Hc' Hnot. apply (splice_other_cluster d d' fs cs i c e c' o (take (Z.to_nat k) (mjoin bufs)) (cluster_shift f)); try (done || lia); fold N; lia.
Qed.

Lemma run_ends_drop l r : drop (length l) (FT.run_ends (l ++ r)) = FT.run_ends r.
Proof.
  induction l as [|c l IH]; [by rewrite drop_0|]. cbn [app length]. destruct (l ++ r) as [|x l'] eqn:El.
  - destruct l; [|done]. simpl in El. by subst r.
  - destruct (run_ends_cons c x l') as (e & r' & E0 & ->). cbn [drop]. rewrite <- E0. exact IH.
Qed.

Lemma run_at_end cs r n : 0 <= r -> 0 < n -> r + n < 2 ^ 32 ->
  FT.run_ends (cs ++ crun r (Z.to_nat n)) !! length cs = Some (r, r + n - 1).
Proof.
  intros Hr Hn Hl. rewrite <- (Nat.add_0_r (length cs)), <- lookup_drop, run_ends_drop, run_ends_crun by lia.
  destruct (Z.to_nat n) as [|m] eqn:E; [lia|]. rewrite crun_S. simpl. do 2 f_equal. lia.
Qed.

(** Allocation leaves the data of every cluster as it was. *)
Lemma alloc_data d d1 fs c : fs_ok d fs -> outside (fat fs) d d1 -> 2 <= c < last_cluster (fat fs) ->
  cluster_data d1 fs c = cluster_data d fs c.
Proof.
  intros Hfs [_ Ho] Hc. destruct (cluster_place d fs c Hfs Hc) as (Ht & _ & _ & Hz & _). unfold cluster_data. apply Ho; [lia|]. by right.
Qed.
Lemma alloc_file_data d d1 fs i cs : fs_ok d fs -> outside (fat fs) d d1 -> in_volume fs cs ->
  file_data d1 (with_info fs i) cs = file_data d fs cs.
Proof.
  intros Hfs Ho Hr. unfold file_data. f_equal. apply list_fmap_ext. intros j c Hc.
  change (cluster_data d1 (with_info fs i) c) with (cluster_data d1 fs c). eapply alloc_data; [done|done|]. exact (Forall_lookup_1 _ _ _ _ Hr Hc).
Qed.

(** The two ways to find the cluster a write starts in. *)
Lemma write_at_found d fs f cs offset bufs fuel c e : file_ok d fs f cs -> 0 <= offset ->
  let N := 2 ^ cluster_shift f in
  lookup_z (clusters f) (offset / N) = Some (c, e) -> 2 <= c <= e -> e < last_cluster (fat fs) -> e < 2 ^ 32 - 1 ->
  offset mod N < (e + 1 - c) * N ->
  write_at fuel offset bufs (d, fs, f) =
  write_loop fuel offset (cluster_off (bpb fs) c + offset mod N) ((e + 1 - c) * N - offset mod N) bufs 0 (d, fs, f).
Proof.
  intros Hok Ho N Hl Hce Hel He Hm. destruct (ok_shift _ _ _ _ Hok) as [Hsh Esz]. destruct (shift_mask_eq _ Hsh) as (_ & _ & HN).
  destruct (cluster_place d fs c (ok_fs _ _ _ _ Hok) ltac:(lia)) as (Ht & Hd & Eoff & Hz & _).
  destruct (fs_fat _ _ (ok_fs _ _ _ _ Hok)) as [_ _ _ _ Hdl]. pose proof (Z.mod_pos_bound offset N ltac:(lia)).
  rewrite Esz in Hd. fold N in Hd. unfold write_at. rewrite (ST_bind_Ok _ _ _ f (d, fs, f)) by done.
  cbv zeta. rewrite decomp_eq by done. fold N. rewrite Hl.
  rewrite (wadd_small 32), (wsub_small 32) by (unfold fits; lia). erewrite ST_bind_Ok by reflexivity. cbv beta iota.
  rewrite (ST_bind_Ok _ _ _ fs (d, fs, f)) by done. rewrite (ST_bind_Ok _ _ _ (cluster_off (bpb fs) c) (d, fs, f)) by (by rewrite Eoff).
  destruct (shl_clusters (e + 1 - c) (cluster_shift f) Hsh ltac:(lia)) as [-> Hb]. fold N in Hb |- *.
  by rewrite wadd_small, wsub_small by (unfold fits; lia).
Qed.

Lemma ceil_pos L N : 0 < N -> 0 < L -> 0 < (L + (N - 1)) / N <= L.
Proof.
  intros HN HL. split; [apply Z.div_str_pos; lia|]. apply Z.div_le_upper_bound; [done|]. nia.
Qed.

Lemma write_at_alloc d fs f cs offset bufs fuel : file_ok d fs f cs -> 0 <= offset ->
  let N := 2 ^ cluster_shift f in let L := Umio.len (mjoin bufs) in
  offset / N = Z.of_nat (length cs) -> 0 < L -> offset + L < 2 ^ 32 ->
  let times := (L + (N - 1)) / N in
  write_at fuel offset bufs (d, fs, f) =
  match alloc_loop (S (Z.to_nat times)) 0 times 0 (fst <$> last (clusters f)) (d, fs, f) with
  | (Ok (c, n), (d1, fs1, f1)) =>
      (off ← lift_res (total (FRaw.offset_from_cluster (bpb fs1) c));
       write_loop fuel offset (wadd 64 off (offset mod N)) (wsub 64 (wshl 64 n (cluster_shift f)) (offset mod N)) bufs 0) (d1, fs1, f1)
  | (Err e, s) => (Err e, s)
  | (Panic, s) => (Panic, s)
  end.
Proof.
  intros Hok Ho N L Hci HL Hlim times. destruct (ok_shift _ _ _ _ Hok) as [Hsh Esz]. destruct (shift_mask_eq _ Hsh) as (Em & _ & HN). fold N in Em, HN.
  pose proof (ceil_pos L N ltac:(lia) HL) as Hct. fold times in Hct. pose proof (Z.div_mod offset N ltac:(lia)). pose proof (Z.mod_pos_bound offset N ltac:(lia)).
  pose proof (Z.div_pos offset N ltac:(lia) ltac:(lia)). assert (Hcl : offset / N <= offset) by (apply Z.div_le_upper_bound; nia).
  assert (EL : Umio.ioslice_len bufs = L).
  { unfold L. rewrite <- total_join. apply ioslice_len_eq; [apply slices_nonneg|]. rewrite total_join. fold L. lia. }
  unfold write_at. rewrite (ST_bind_Ok _ _ _ f (d, fs, f)) by done. cbv zeta. rewrite decomp_eq by done. fold N. rewrite EL, Em.
  assert (Hlen : Z.of_nat (length (clusters f)) = offset / N) by (rewrite (ok_clusters _ _ _ _ Hok), length_run_ends; lia).
  assert (Hno : lookup_z (clusters f) (offset / N) = None).
  { unfold lookup_z. rewrite (proj2 (Z.ltb_ge _ _)) by lia. by rewrite andb_false_r. }
  rewrite Hno, Hlen. rewrite (wadd_small 64 L), Z.shiftr_div_pow2 by (unfold fits; lia). fold N times.
  rewrite (wadd_small 64), !(wsub_small 64) by (unfold fits; lia). rewrite Z.sub_diag.
  replace (offset / N + times - offset / N) with times by lia. unfold try_into_u32. change (0 <? 2 ^ 32) with true.
  rewrite (proj2 (Z.ltb_lt _ _)) by lia.
  unfold mbind at 1, ST_bind at 1. rewrite (ST_bind_Ok _ _ _ 0 (d, fs, f)) by done. rewrite (ST_bind_Ok _ _ _ times (d, fs, f)) by done.
  destruct (alloc_loop (S (Z.to_nat times)) 0 times 0 (fst <$> last (clusters f)) (d, fs, f)) as [[[c n]|er|] [[d1 fs1] f1]]; done.
Qed.

(** What a write that stores [k] bytes does to the file, extended by [new], and to
    the volume. *)
Record stored d fs f cs (offset : Z) (bytes : list Z) (new : list Z) (k : Z) d' fs' f' : Prop := {
  st_some : 0 < k <= Umio.len bytes;
  st_cluster : Z.min (Umio.len bytes) (2 ^ cluster_shift f - offset mod 2 ^ cluster_shift f) <= k;
  st_fit : Z.of_nat (length new) <= (Umio.len bytes + (2 ^ cluster_shift f - 1)) / 2 ^ cluster_shift f;
  st_shift : cluster_shift f' = cluster_shift f;
  st_ok : file_ok d' fs' f' (cs ++ new);
  st_len : flen f' = Z.max (flen f) (offset + k);
  st_fs : fat fs' = fat fs /\ bpb fs' = bpb fs;
  st_new : forall c, c ∈ new -> ent (fat fs) d c = FT.Free;
  st_data : file_data d' fs' (cs ++ new) = splice (file_data d fs (cs ++ new)) offset (take (Z.to_nat k) bytes);
  st_other : forall c, 2 <= c < last_cluster (fat fs) -> c ∉ cs ++ new ->
    ent (fat fs) d' c = ent (fat fs) d c /\ cluster_data d' fs c = cluster_data d fs c;
}.

Lemma write_inside d fs f cs offset (bufs : list (list Z)) fuel :
  file_ok d fs f cs -> 0 <= offset < Z.of_nat (length cs) * 2 ^ cluster_shift f ->
  0 < Umio.len (mjoin bufs) -> nonempties bufs -> Forall byte (mjoin bufs) -> offset + Umio.len (mjoin bufs) < 2 ^ 32 ->
  (length (mjoin bufs) < fuel)%nat ->
  exists k d' f', write_at fuel offset bufs (d, fs, f) = (Ok (Some k), (d', fs, f'))
    /\ stored d fs f cs offset (mjoin bufs) [] k d' fs f'.
Proof.
  intros Hok Ho Hb0 Hne Hby Hlim Hf. set (N := 2 ^ cluster_shift f) in *.
  destruct (cluster_index d fs f cs offset Hok Ho) as (i & c & e & Ei & Hl & Hi & Hce & Hev & He & Eo & Hm & Hrl).
  fold N in Ei, Hl, Eo, Hm, Hrl. rewrite (write_at_found d fs f cs offset bufs fuel c e) by (done || lia). fold N.
  destruct (write_in_run d fs f cs i c e (offset mod N) offset bufs fuel) as (d' & Ew & Hok' & Edata & Hent & Hoth);
    [done|done|by fold N|done|done|done|done|unfold Umio.len; lia|]. fold N in Ew, Hok', Edata.
  eexists _, d', _. split; [exact Ew|]. split; rewrite ?app_nil_r; try done; fold N; [lia| | |set_solver|].
  { pose proof (mul_le 1 (e + 1 - c) N ltac:(lia) ltac:(lia)). lia. }
  { simpl. apply Z.div_pos; lia. }
  intros c' Hc' Hnot. split; [apply Hent; lia|by apply Hoth].
Qed.

(** Behind the last cluster. *)
Lemma write_behind_end d fs f cs offset (bufs : list (list Z)) fuel :
  file_ok d fs f cs -> 0 <= offset -> let N := 2 ^ cluster_shift f in let bytes := mjoin bufs in
  offset / N = Z.of_nat (length cs) ->
  0 < Umio.len bytes -> nonempties bufs -> Forall byte bytes -> offset + Umio.len bytes < 2 ^ 32 -> (length bytes < fuel)%nat ->
  (exists new k d' fs' f', write_at fuel offset bufs (d, fs, f) = (Ok (Some k), (d', fs', f'))
     /\ stored d fs f cs offset bytes new k d' fs' f')
  \/ (write_at fuel offset bufs (d, fs, f) = (Err ENOSPC, (d, fs, f))
      /\ forall c, Z.max (default 2 (FRaw.next_free_cluster (fs_info fs))) 2 <= c < last_cluster (fat fs) -> ent (fat fs) d c <> FT.Free).
Proof.
  intros Hok Ho N bytes Eend Hb0 Hne Hby Hlim Hf. destruct (ok_shift _ _ _ _ Hok) as [Hsh Esz]. destruct (shift_mask_eq _ Hsh) as (_ & _ & HN). fold N in HN.
  pose proof (Z.div_mod offset N ltac:(lia)) as Hdm. pose proof (Z.mod_pos_bound offset N ltac:(lia)) as Hmb.
  pose proof (ceil_pos (Umio.len bytes) N ltac:(lia) Hb0) as Hct.
  pose proof (write_at_alloc d fs f cs offset bufs fuel Hok Ho Eend Hb0 Hlim) as E. fold N bytes in E. cbv zeta in E. rewrite E.
  destruct (alloc_loop_once d fs f cs ((Umio.len bytes + (N - 1)) / N) Hok ltac:(lia)) as
    [(r & n & d1 & i & -> & Hn & Hr & Hl & Hfree & Hu & Hok1)|[-> Hnone]]; [left|by right].
  destruct (grow_fields f r n) as (Es & El & _).
  assert (Hlc : last_cluster (fat fs) < 2 ^ 32 - 1) by (destruct (fs_fat _ _ (ok_fs _ _ _ _ Hok)); unfold last_cluster; lia).
  pose proof (run_at_end cs r n ltac:(lia) ltac:(lia) ltac:(lia)) as Hrun.
  destruct (cluster_place d fs r (ok_fs _ _ _ _ Hok) ltac:(lia)) as (Ht & Hd & Eoff & Hz & _). destruct (fs_fat _ _ (ok_fs _ _ _ _ Hok)) as [_ _ _ _ Hdl].
  destruct (write_in_run d1 (with_info fs i) (grow r n f) (cs ++ crun r (Z.to_nat n)) (length cs) r (r + n - 1) (offset mod N) offset bufs fuel)
    as (d' & Ew & Hok' & Edata & Hent & Hoth);
    [exact Hok1|exact Hrun|rewrite Es; fold N; lia|by rewrite Es|done|done|done|unfold Umio.len; fold bytes; lia|]. rewrite Es in *. fold N bytes in Ew, Hok', Edata.
  replace (r + n - 1 + 1 - r) with n in * by lia. set (k := Z.min (n * N - offset mod N) (Umio.len bytes)) in *.
  assert (N <= n * N) by (pose proof (mul_lt 0 n N ltac:(lia) ltac:(lia)); lia).
  exists (crun r (Z.to_nat n)), k, d', (with_info fs i), (modified (with_info fs i) (offset + k) (grow r n f)). split.
  { rewrite (ST_bind_Ok _ _ _ (cluster_off (bpb fs) r) (d1, with_info fs i, grow r n f)) by (cbn [bpb with_info]; by rewrite Eoff).
    destruct (shl_clusters n (cluster_shift f) Hsh ltac:(lia)) as [-> Hb]. fold N in Hb |- *.
    rewrite wadd_small, wsub_small by (unfold fits; rewrite Esz in Hd; fold N in Hd; lia). exact Ew. }
  split; try done; fold N; [lia|lia|rewrite length_crun; fold bytes; lia|cbn [flen modified edit with_entry with_len]; by rewrite El|intros c Hc%elem_of_crun; apply Hfree; lia| |].
  - rewrite Edata. f_equal. apply alloc_file_data; [apply Hok|apply Hu|apply Hok1].
  - intros c Hc Hnot. pose proof Hnot as [Hnc Hnr]%not_elem_of_app. rewrite elem_of_crun in Hnr. split.
    + rewrite Hent by (cbn [fat with_info]; lia). cbn [fat with_info]. destruct Hu as (_ & _ & Hu). rewrite Hu by lia. unfold alloc_entries.
      rewrite (proj2 (Z.eqb_neq _ _)) by lia. rewrite bool_decide_false by (intros Hp; apply Hnc; by apply last_Some_elem_of).
      destruct (Z.leb_spec r c); [|done]. by rewrite (proj2 (Z.ltb_ge _ _)) by lia.
    + transitivity (cluster_data d1 fs c); [exact (Hoth c Hc Hnot)|]. apply (alloc_data d); [apply Hok|apply Hu|done].
Qed.

(** C16: a write that starts inside the allocated clusters or right behind them
    either stores a non-empty prefix of the buffers at its place, allocating free
    clusters when it starts behind the last one, and leaves the file in order: its
    clusters linked, the length and the directory entry up to date, every other
    byte of the file, every other cluster and every other entry of the table
    unchanged; or it fails with ENOSPC and changes nothing. *)
Theorem write_at_spec d fs f cs offset (bufs : list (list Z)) fuel :
  file_ok d fs f cs -> 0 <= offset ->
  let bytes := mjoin bufs in
  offset / 2 ^ cluster_shift f <= Z.of_nat (length cs) ->
  bufs <> [] -> nonempties bufs -> Forall byte bytes -> offset + Umio.len bytes < 2 ^ 32 -> (length bytes < fuel)%nat ->
  (exists new k d' fs' f', write_at fuel offset bufs (d, fs, f) = (Ok (Some k), (d', fs', f'))
     /\ stored d fs f cs offset bytes new k d' fs' f')
  \/ (write_at fuel offset bufs (d, fs, f) = (Err ENOSPC, (d, fs, f))
      /\ forall c, Z.max (default 2 (FRaw.next_free_cluster (fs_info fs))) 2 <= c < last_cluster (fat fs) -> ent (fat fs) d c <> FT.Free).
Proof.
  intros Hok Ho bytes Hci Hnil Hne Hby Hlim Hf. destruct (ok_shift _ _ _ _ Hok) as [Hsh Esz]. destruct (shift_mask_eq _ Hsh) as (_ & _ & HN).
  assert (Hb0 : 0 < Umio.len bytes).
  { unfold bytes. destruct bufs as [|b bufs]; [done|]. apply Forall_cons in Hne as [Hb _]. unfold Umio.len.
    change (mjoin (b :: bufs)) with (b ++ mjoin bufs). rewrite length_app. destruct b; [done|]. simpl. lia. }
  destruct (decide (offset / 2 ^ cluster_shift f = Z.of_nat (length cs))) as [Eend|Hin]; [by apply write_behind_end|].
  left. destruct (write_inside d fs f cs offset bufs fuel) as (k & d' & f' & E & Hst); try done.
  - pose proof (mul_le (offset / 2 ^ cluster_shift f + 1) (Z.of_nat (length cs)) (2 ^ cluster_shift f) ltac:(lia) ltac:(lia)).
    pose proof (Z.div_mod offset (2 ^ cluster_shift f) ltac:(lia)). pose proof (Z.mod_pos_bound offset (2 ^ cluster_shift f) ltac:(lia)). lia.
  - exists [], k, d', fs, f'. done.
Qed.

(** ** Truncating *)
Lemma linked_chain d fs c cs : linked (ent (fat fs) d) (c :: cs) -> NoDup (c :: cs) -> in_volume fs (c :: cs) ->
  chain (fat fs) d c (c :: cs).
Proof.
  revert c. induction cs as [|x cs IH]; intros c [Hc Hl] Hnd Hr; apply Forall_cons in Hr as [Hcr Hr]; apply NoDup_cons in Hnd as [Hnc Hnd].
  - apply chain_end; [done|]. intros n. by rewrite Hc.
  - eapply chain_next; [done|exact Hc|by apply IH|done].
Qed.

Lemma linked_cut e e' l1 c l2 : linked e (l1 ++ c :: l2) -> NoDup (l1 ++ c :: l2) ->
  (forall x, x ∈ l1 -> e' x = e x) -> e' c = FT.End_ -> linked e' (l1 ++ [c]).
Proof.
  induction l1 as [|x l1 IH]; intros Hl Hnd Hs Hc; [done|]. destruct Hl as [Hx Hl]. apply NoDup_cons in Hnd as [_ Hnd]. split.
  - rewrite Hs by set_solver. by destruct l1.
  - apply IH; try done. intros y Hy. apply Hs. set_solver.
Qed.

(** The file after its clusters were cut off behind index [i]. *)
Definition cut (i : nat) f : FatFile :=
  let cs := take (S i) (clusters f) in
  with_clusters f (match last cs with Some (last_, old_end) => move_ends old_end last_ cs | None => cs end).

Lemma cut_clusters f cs (i : nat) : clusters f = FT.run_ends cs -> NoDup cs -> small cs -> (i < length cs)%nat ->
  clusters (cut i f) = FT.run_ends (take (S i) cs).
Proof.
  intros Ef Hnd Hs Hi. unfold cut. cbn [clusters with_clusters]. rewrite Ef.
  destruct (lookup_lt_is_Some_2 (FT.run_ends cs) i) as [[c e] Hc]; [by rewrite length_run_ends|].
  assert (Hlast : last (take (S i) (FT.run_ends cs)) = Some (c, e)).
  { rewrite last_lookup, length_take, length_run_ends, Nat.min_l by lia. simpl. rewrite lookup_take_lt by lia. done. }
  rewrite Hlast, (move_ends_take cs (S i) c e c Hnd Hs Hlast). symmetry.
  assert (Hl : length (take (S i) cs) = S i) by (rewrite length_take; lia).
  rewrite <- (take_drop (S i) cs) in Hnd, Hs. pose proof (run_ends_cut (take (S i) cs) (drop (S i) cs) c e Hnd Hs) as Hcut.
  rewrite take_drop, Hl in Hcut. apply Hcut; [done|]. intros E. by rewrite E in Hl.
Qed.

Lemma truncate_chain_eq d fs fuel c : fs_ok d fs -> 2 <= c < last_cluster (fat fs) ->
  exists d' i, truncate_cluster_chain fuel c (d, fs) = (Ok (Some tt), (d', with_info fs i))
    /\ updates (fat fs) d d' (fun j => if j =? c then Some FT.End_ else None)
    /\ FRaw.next_free_cluster i = FRaw.next_free_cluster (fs_info fs).
Proof.
  intros Hfs Hc. destruct (truncate_spec (fat fs) d c fuel (fs_fat _ _ Hfs) Hc) as (d' & E & Hu). eexists d', _. split; [|split; [done|]].
  - unfold truncate_cluster_chain. rewrite (ST_bind_Ok _ _ _ fs (d, fs)) by done.
    erewrite ST_bind_Ok; [|unfold on_device; by rewrite E]. cbv beta iota. erewrite ST_bind_Ok by reflexivity. reflexivity.
  - unfold FRaw.map_free_clusters. by destruct (FRaw.free_cluster_count (fs_info fs)).
Qed.

Lemma free_chain_eq d fs fuel c cs : fs_ok d fs -> linked (ent (fat fs) d) (c :: cs) -> NoDup (c :: cs) -> in_volume fs (c :: cs) ->
  (length (c :: cs) <= fuel)%nat -> Z.of_nat (length (c :: cs)) < 2 ^ 32 ->
  exists d' i, free_cluster_chain fuel c (d, fs) = (Ok (Some tt), (d', with_info fs i))
    /\ updates (fat fs) d d' (fun j => if bool_decide (j ∈ c :: cs) then Some FT.Free else None)
    /\ FRaw.next_free_cluster i = FRaw.next_free_cluster (fs_info fs).
Proof.
  intros Hfs Hl Hnd Hr Hf Hn. pose proof (linked_chain d fs c cs Hl Hnd Hr) as Hch.
  destruct (free_loop_spec (fat fs) d c (c :: cs) Hch 0 fuel (fs_fat _ _ Hfs) Hf ltac:(lia) ltac:(lia)) as (d' & E & Hu).
  eexists d', _. split; [|split; [done|]].
  - unfold free_cluster_chain, FT.free. rewrite (ST_bind_Ok _ _ _ fs (d, fs)) by done.
    erewrite ST_bind_Ok; [|unfold on_device; by rewrite E]. cbv beta iota. erewrite ST_bind_Ok by reflexivity. reflexivity.
  - unfold FRaw.map_free_clusters. by destruct (FRaw.free_cluster_count (fs_info fs)).
Qed.

Lemma clusters_bound d fs cs : fs_ok d fs -> in_volume fs cs -> NoDup cs -> Z.of_nat (length cs) < 2 ^ 32.
Proof.
  intros Hfs Hr Hnd. destruct (fs_fat _ _ Hfs) as [_ Hc _ _ _].
  assert (Hsub : (length cs <= length (crun 2 (Z.to_nat (FT.cluster_count (fat fs)))))%nat).
  { apply submseteq_length, NoDup_submseteq; [done|]. intros c Hc'. unfold in_volume in Hr. rewrite Forall_forall in Hr.
    specialize (Hr c Hc'). unfold last_cluster in Hr. apply elem_of_crun. lia. }
  rewrite length_crun in Hsub. lia.
Qed.

Definition ceil (x N : Z) : Z := (x + (N - 1)) / N.

Lemma ceil_decomp ci oc N : 0 < N -> 0 < oc <= N -> ceil (ci * N + oc) N = ci + 1.
Proof.
  intros HN Hoc. unfold ceil. replace (ci * N + oc + (N - 1)) with ((ci + 1) * N + (oc - 1)) by lia.
  rewrite Z.div_add_l, Z.div_small by lia. lia.
Qed.

Lemma set_first_kept c e : FDirent.size_opt (FDirent.data (FDirent.ed_set_first_cluster c e)) = FDirent.size_opt (FDirent.data e).
Proof. unfold FDirent.ed_set_first_cluster. by case_bool_decide. Qed.

(** The last steps of a truncation. *)
Definition shortened (new_len : Z) f : FatFile := edit (FDirent.ed_set_size (wrap 32 new_len)) (with_len f new_len).

Lemma shortened_sync f e cs s new_len : fits 32 new_len -> entry f = Some e -> FDirent.size_opt (FDirent.data e) = Some s ->
  FDirent.first_cluster (FDirent.data e) = head cs -> in_sync (shortened new_len f) cs.
Proof.
  intros Hn He Hs Hh e' He'. unfold shortened, edit in He'. simpl in He'. rewrite He in He'. injection He' as <-.
  rewrite wrap_small by done. destruct (set_size_kept new_len e s Hs) as [-> ->]. split; [by intros s' [= <-]|done].
Qed.

(** Cutting the chain behind a cluster of the file. *)
Lemma cut_ok d d' fs f cs e (i : nat) c new_len inf : file_ok d fs f cs -> entry f = Some e ->
  FDirent.size_opt (FDirent.data e) = Some (flen f) -> cs !! i = Some c ->
  updates (fat fs) d d' (fun j => if j =? c then Some FT.End_ else None) ->
  (forall h, FRaw.next_free_cluster inf = Some h -> 0 <= h) ->
  0 <= new_len <= Z.of_nat (S i) * 2 ^ cluster_shift f -> new_len < 2 ^ 32 ->
  file_ok d' (with_info fs inf) (shortened new_len (cut i f)) (take (S i) cs).
Proof.
  intros Hok He Hs Hc (Hd' & Ho & Hu) Hi Hn Hn32. pose proof Hok as [Hfs Hsh Ecl Hnd Hrg Hlk Hlen Hsy].
  pose proof (lookup_lt_Some _ _ _ Hc) as Hil. pose proof (volume_small _ _ _ Hfs Hrg) as Hsm.
  pose proof (Forall_lookup_1 _ _ _ _ Hrg Hc) as Hcr. destruct (Hsy e He) as [_ Hfc]. split.
  - apply (fs_ok_with_info d); try done. apply Ho.
  - exact Hsh.
  - by apply (cut_clusters f cs i).
  - rewrite <- (take_drop (S i) cs) in Hnd. by apply NoDup_app in Hnd as [].
  - by apply Forall_take.
  - rewrite (take_S_r cs i c Hc). rewrite <- (take_drop_middle cs i c Hc) in Hlk, Hnd. cbn [fat with_info].
    eapply linked_cut; [exact Hlk|exact Hnd| |].
    + intros x Hx. assert (Hxc : x <> c). { intros ->. apply NoDup_app in Hnd as (_ & Hnn & _). apply (Hnn c Hx). set_solver. }
      unfold in_volume in Hrg. rewrite Forall_forall in Hrg. assert (x ∈ cs) as Hxin by (rewrite <- (take_drop i cs); set_solver).
      specialize (Hrg x Hxin). rewrite Hu by lia. by rewrite (proj2 (Z.eqb_neq _ _)).
    + rewrite Hu by (cbv beta in Hcr; lia). by rewrite Z.eqb_refl.
  - cbn [flen shortened edit with_entry with_len cut with_clusters cluster_shift]. rewrite length_take, Nat.min_l by lia. lia.
  - apply (shortened_sync _ e _ (flen f)); [unfold fits; lia|done|done|]. rewrite Hfc. by destruct cs.
Qed.

Lemma freed_ok d d' fs f cs e inf : file_ok d fs f cs -> entry f = Some e -> FDirent.size_opt (FDirent.data e) = Some (flen f) ->
  fat_ok (fat fs) d' -> outside (fat fs) d d' -> (forall h, FRaw.next_free_cluster inf = Some h -> 0 <= h) ->
  file_ok d' (with_info fs inf) (shortened 0 (with_clusters (edit (FDirent.ed_set_first_cluster None) f) [])) [].
Proof.
  intros Hok He Hs Hd' Ho Hi. pose proof Hok as [Hfs Hsh Ecl Hnd Hrg Hlk Hlen Hsy].
  split; try done; [apply (fs_ok_with_info d); try done; apply Ho|by apply NoDup_nil|by apply Forall_nil|].
  apply (shortened_sync _ (FDirent.ed_set_first_cluster None e) _ (flen f)); [by unfold fits|simpl; by rewrite He|by rewrite set_first_kept|].
  unfold FDirent.ed_set_first_cluster. case_bool_decide as E; [by rewrite <- E|done].
Qed.

(** How a truncation runs, by the number of clusters it keeps. *)
Lemma truncate_run d fs f cs e new_len : file_ok d fs f cs -> entry f = Some e ->
  FDirent.size_opt (FDirent.data e) = Some (flen f) -> 0 <= new_len < flen f ->
  let N := 2 ^ cluster_shift f in
  exists oc, 0 < oc <= N /\ decomp_end f (flen f) = Some (ceil (flen f) N - 1, oc)
    /\ decomp_end f new_len = (if new_len =? 0 then None else Some (ceil new_len N - 1, new_len - (ceil new_len N - 1) * N))
    /\ ceil new_len N <= ceil (flen f) N <= Z.of_nat (length cs) /\ 0 < ceil (flen f) N
    /\ (new_len <> 0 -> 0 < ceil new_len N) /\ new_len <= ceil new_len N * N.
Proof.
  intros Hok He Hs Hn N. destruct (ok_shift _ _ _ _ Hok) as [Hsh _]. destruct (shift_mask_eq _ Hsh) as (_ & _ & HN). fold N in HN.
  pose proof (decomp_end_eq f (flen f) Hsh ltac:(lia)) as Hd. rewrite (proj2 (Z.eqb_neq _ _)) in Hd by lia. fold N in Hd.
  destruct Hd as (ci & oc & Ed & Esum & Hci & Hoc). exists oc. split; [done|].
  assert (Ec : ceil (flen f) N = ci + 1) by (rewrite <- Esum; apply ceil_decomp; lia). pose proof (ok_len _ _ _ _ Hok) as Hlen. fold N in Hlen.
  assert (Hcl : ci < Z.of_nat (length cs)).
  { apply Z.nle_gt. intros Hle. pose proof (mul_le (Z.of_nat (length cs)) ci N ltac:(lia) Hle). lia. }
  pose proof (decomp_end_eq f new_len Hsh ltac:(lia)) as Hd2. fold N in Hd2. destruct (Z.eqb_spec new_len 0) as [->|Hne].
  - assert (E0 : ceil 0 N = 0) by (unfold ceil; apply Z.div_small; lia). rewrite E0, Ec. split_and!; try (done || lia). rewrite Ed. do 2 f_equal. lia.
  - destruct Hd2 as (ci2 & oc2 & Ed2 & Esum2 & Hci2 & Hoc2).
    assert (Ec2 : ceil new_len N = ci2 + 1) by (rewrite <- Esum2; apply ceil_decomp; lia). rewrite Ec2, Ec.
    assert (ci2 <= ci). { apply Z.nlt_ge. intros Hlt. pose proof (mul_lt ci ci2 N ltac:(lia) Hlt). lia. }
    split_and!; try lia; [rewrite Ed; do 2 f_equal; lia|]. rewrite Ed2. f_equal. f_equal; [lia|].
    replace (ci2 + 1 - 1) with ci2 by lia. lia.
Qed.

(** What a truncation that keeps [keep] clusters does. *)
Record cut_down d fs cs (new_len : Z) (keep : nat) d' fs' f' : Prop := {
  cd_ok : file_ok d' fs' f' (take keep cs);
  cd_len : flen f' = new_len;
  cd_data : file_data d' fs' (take keep cs) = file_data d fs (take keep cs);
  cd_cut : forall c, c ∈ drop keep cs -> ent (fat fs) d' c = if new_len =? 0 then FT.Free else ent (fat fs) d c;
  cd_other : forall c, 2 <= c < last_cluster (fat fs) -> c ∉ cs -> ent (fat fs) d' c = ent (fat fs) d c;
}.

Lemma in_range d fs f cs c : file_ok d fs f cs -> c ∈ cs -> 2 <= c < last_cluster (fat fs).
Proof. intros Hok. pose proof (ok_range _ _ _ _ Hok) as Hrg. unfold in_volume in Hrg. rewrite Forall_forall in Hrg. apply Hrg. Qed.

(** The outcome of the step that changes the chain decides the rest. *)
Lemma truncate_step d fs f e new_len fuel ci oc s1 :
  entry f = Some e -> FDirent.size_opt (FDirent.data e) = Some (flen f) -> new_len < flen f -> decomp_end f (flen f) = Some (ci, oc) ->
  match decomp_end f new_len with
  | Some (new_cluster_index, _) =>
      if negb (ci =? new_cluster_index) then
        '(start, _) ← lift_opt (lookup_z (clusters f) new_cluster_index);
        let cs := take (Z.to_nat (new_cluster_index + 1)) (clusters f) in
        let cs := match last cs with Some (last_, old_end) => move_ends old_end last_ cs | None => cs end in
        _ ← map_file (fun f => with_clusters f cs);
        on_fs (truncate_cluster_chain fuel start)
      else mret (Some tt)
  | None =>
      _ ← map_file (edit (FDirent.ed_set_first_cluster None));
      '(start, _) ← lift_opt (lookup_z (clusters f) 0);
      _ ← map_file (fun f => with_clusters f []);
      on_fs (free_cluster_chain fuel start)
  end (d, fs, f) = (Ok (Some tt), s1) ->
  truncate fuel new_len (d, fs, f) = (Ok (Some tt), (s1.1, shortened new_len s1.2)).
Proof.
  intros He Hs Hn Ed Hstep. unfold truncate. rewrite (ST_bind_Ok _ _ _ f (d, fs, f)) by done. rewrite He, Hs, (proj2 (Z.leb_gt _ _)) by lia. rewrite Ed.
  rewrite (ST_bind_Ok _ _ _ _ _ Hstep). cbv beta iota. destruct s1 as [[d1 fs1] f1]. by erewrite ST_bind_Ok by reflexivity.
Qed.

Lemma truncate_zero d fs f cs e fuel ci oc : file_ok d fs f cs -> entry f = Some e ->
  FDirent.size_opt (FDirent.data e) = Some (flen f) -> 0 < flen f -> (length cs <= fuel)%nat ->
  decomp_end f (flen f) = Some (ci, oc) -> decomp_end f 0 = None ->
  exists d' fs' f', truncate fuel 0 (d, fs, f) = (Ok (Some tt), (d', fs', f')) /\ cut_down d fs cs 0 0 d' fs' f'.
Proof.
  intros Hok He Hs Hn Hf Ed Ed2. destruct cs as [|c0 cs0]; [pose proof (ok_len _ _ _ _ Hok); simpl in *; lia|].
  destruct (free_chain_eq d fs fuel c0 cs0 (ok_fs _ _ _ _ Hok) (ok_linked _ _ _ _ Hok) (ok_nodup _ _ _ _ Hok) (ok_range _ _ _ _ Hok) Hf)
    as (d' & i & E & (Hd' & Ho & Hu) & Ei); [eapply clusters_bound; apply Hok|].
  eexists d', (with_info fs i), _. split.
  - apply (truncate_step d fs f e 0 fuel ci oc (d', with_info fs i, with_clusters (edit (FDirent.ed_set_first_cluster None) f) []) He Hs Hn Ed). rewrite Ed2.
    pose proof (run_ends_fst (c0 :: cs0)) as Hhd. rewrite <- (ok_clusters _ _ _ _ Hok) in Hhd.
    destruct (clusters f) as [|[c1 e1] r1] eqn:Ecl; [done|]. injection Hhd as -> _.
    erewrite ST_bind_Ok by reflexivity. erewrite ST_bind_Ok by reflexivity. cbv beta iota.
    erewrite ST_bind_Ok by reflexivity. unfold on_fs. by rewrite E.
  - cbn [fst snd]. split; rewrite ?take_0, ?drop_0; try done.
    + apply (freed_ok d d' fs f (c0 :: cs0) e); try done. intros h Hh. rewrite Ei in Hh. by apply (fs_hint _ _ (ok_fs _ _ _ _ Hok)).
    + intros c Hc. rewrite Hu by (pose proof (in_range _ _ _ _ c Hok Hc); lia). by rewrite bool_decide_true.
    + intros c Hc Hnot. rewrite Hu by lia. by rewrite bool_decide_false.
Qed.

Lemma truncate_same d fs f cs e new_len fuel ci oc oc' : file_ok d fs f cs -> entry f = Some e ->
  FDirent.size_opt (FDirent.data e) = Some (flen f) -> 0 < new_len < flen f -> new_len < 2 ^ 32 ->
  decomp_end f (flen f) = Some (ci, oc) -> decomp_end f new_len = Some (ci, oc') ->
  exists d' fs' f', truncate fuel new_len (d, fs, f) = (Ok (Some tt), (d', fs', f')) /\ cut_down d fs cs new_len (length cs) d' fs' f'.
Proof.
  intros Hok He Hs Hn Hn32 Ed Ed2. exists d, fs, (shortened new_len f). split.
  - apply (truncate_step d fs f e new_len fuel ci oc (d, fs, f) He Hs ltac:(lia) Ed). rewrite Ed2. by rewrite Z.eqb_refl.
  - split; rewrite ?firstn_all, ?drop_all; try done; [|set_solver]. destruct (ok_sync _ _ _ _ Hok e He) as [_ Hfc].
    destruct Hok. split; try done; [cbn [flen shortened edit with_entry with_len cluster_shift]; lia|].
    by apply (shortened_sync f e cs (flen f)); [unfold fits; lia|..].
Qed.

Lemma truncate_cut d fs f cs e new_len fuel ci oc (i : nat) oc' : file_ok d fs f cs -> entry f = Some e ->
  FDirent.size_opt (FDirent.data e) = Some (flen f) -> 0 < new_len < flen f -> new_len < 2 ^ 32 ->
  decomp_end f (flen f) = Some (ci, oc) -> decomp_end f new_len = Some (Z.of_nat i, oc') -> ci <> Z.of_nat i ->
  (i < length cs)%nat -> new_len <= Z.of_nat (S i) * 2 ^ cluster_shift f ->
  exists d' fs' f', truncate fuel new_len (d, fs, f) = (Ok (Some tt), (d', fs', f')) /\ cut_down d fs cs new_len (S i) d' fs' f'.
Proof.
  intros Hok He Hs Hn Hn32 Ed Ed2 Hne Hi Hlim. pose proof (ok_fs _ _ _ _ Hok) as Hfs. pose proof (ok_nodup _ _ _ _ Hok) as Hnd.
  destruct (lookup_lt_is_Some_2 cs i Hi) as [c Hci]. pose proof (in_range _ _ _ _ c Hok (list_elem_of_lookup_2 _ _ _ Hci)) as Hcr.
  destruct (truncate_chain_eq d fs fuel c Hfs Hcr) as (d' & inf & E & Hu & Ei). pose proof Hu as (_ & Ho & Hent).
  exists d', (with_info fs inf), (shortened new_len (cut i f)). split.
  - apply (truncate_step d fs f e new_len fuel ci oc (d', with_info fs inf, cut i f) He Hs ltac:(lia) Ed). rewrite Ed2.
    rewrite (proj2 (Z.eqb_neq _ _)) by done. cbn [negb]. rewrite lookup_z_nat.
    destruct (lookup_lt_is_Some_2 (clusters f) i) as [[c1 e1] Hl1]; [rewrite (ok_clusters _ _ _ _ Hok), length_run_ends; lia|].
    assert (c1 = c) as -> by (rewrite (ok_clusters _ _ _ _ Hok) in Hl1; pose proof (run_ends_lookup_fst _ _ _ _ Hl1); congruence).
    rewrite Hl1. erewrite ST_bind_Ok by reflexivity. cbv beta iota. erewrite ST_bind_Ok by reflexivity. unfold on_fs. rewrite E.
    unfold cut. by replace (Z.to_nat (Z.of_nat i + 1)) with (S i) by lia.
  - split; try done.
    + apply (cut_ok d d' fs f cs e i c); try (done || lia). intros h Hh. rewrite Ei in Hh. by apply (fs_hint _ _ Hfs).
    + apply alloc_file_data; [done|done|]. apply Forall_take, Hok.
    + intros c' Hc'. assert (c' ∈ cs) as Hc'' by (rewrite <- (take_drop (S i) cs); set_solver). pose proof (in_range _ _ _ _ c' Hok Hc'').
      rewrite Hent by lia. rewrite (proj2 (Z.eqb_neq new_len 0)) by lia. rewrite (proj2 (Z.eqb_neq c' c)); [done|].
      intros ->. rewrite <- (take_drop (S i) cs) in Hnd. apply NoDup_app in Hnd as (_ & Hnn & _).
      apply (Hnn c); [|done]. rewrite (take_S_r cs i c Hci). set_solver.
    + intros c' Hc' Hnot. rewrite Hent by lia. rewrite (proj2 (Z.eqb_neq c' c)); [done|]. intros ->. apply Hnot. by eapply list_elem_of_lookup_2.
Qed.

(** C31: truncating a regular file to a smaller length succeeds, keeps the data of
    the clusters that remain, and leaves the file in order: exactly the clusters that
    the new length needs remain when they are fewer than before, all of them freed
    when the length is zero.  Otherwise the entries of the clusters cut off stay as
    they are: they are not freed. *)
Theorem file_truncate_spec d fs f cs e new_len fuel : file_ok d fs f cs -> entry f = Some e ->
  FDirent.size_opt (FDirent.data e) = Some (flen f) -> 0 <= new_len < flen f -> new_len < 2 ^ 32 -> (length cs <= fuel)%nat ->
  let N := 2 ^ cluster_shift f in
  let keep := if ceil new_len N =? ceil (flen f) N then length cs else Z.to_nat (ceil new_len N) in
  exists d' fs' f', truncate fuel new_len (d, fs, f) = (Ok (Some tt), (d', fs', f')) /\ cut_down d fs cs new_len keep d' fs' f'.
Proof.
  intros Hok He Hs Hn Hn32 Hf N keep.
  destruct (truncate_run d fs f cs e new_len Hok He Hs Hn) as (oc & Hoc & Ed & Ed2 & Hc & Hc0 & Hcp & Hnl). fold N in Hoc, Ed, Ed2, Hc, Hc0, Hcp, Hnl.
  destruct (Z.eqb_spec new_len 0) as [->|Hne].
  - assert (E0 : ceil 0 N = 0) by (unfold ceil; apply Z.div_small; lia).
    assert (keep = O) as -> by (unfold keep; rewrite E0, (proj2 (Z.eqb_neq _ _)) by lia; done).
    eapply truncate_zero; [done|done|done|lia|done|exact Ed|exact Ed2].
  - specialize (Hcp Hne). unfold keep. destruct (Z.eqb_spec (ceil new_len N) (ceil (flen f) N)) as [Eq|Hneq].
    + rewrite Eq in Ed2. eapply truncate_same; [done|done|done|lia|done|exact Ed|exact Ed2].
    + replace (Z.to_nat (ceil new_len N)) with (S (Z.to_nat (ceil new_len N - 1))) by lia.
      eapply truncate_cut; try done; [lia|rewrite Ed2; do 2 f_equal; lia|lia|lia|]. fold N.
      replace (Z.of_nat (S (Z.to_nat (ceil new_len N - 1)))) with (ceil new_len N) by lia. lia.
Qed.
End Write.
