(* ===== verification/FatFileOpen.v ===== *)
(** * afat32: opening files

    The clusters of a file are found by following its chain in batches, and the
    file that [new] returns is in order.  Then the examples of the file theorems. *)

From S2P Require Import Prelude Ksc Bytes Umio Umifs FatTime FatRaw FatTable FatAlloc FatFs FatDirent FatFile FatFileSpec FatFileWrite.
Import Errno FFs FFile.

Section Open.
Context {D P : Type} `{Bytes.Io D} `{!Bytes.IoSpec D} `{Umio.Io D} `{!ObjSpec D} `{!DevSpec D}.
Context `{FTime.TimeProvider P}.
Notation Fs := (FatFileSystem P).
Implicit Types (d : D) (fs : Fs) (f : FatFile) (cs : list Z).

Lemma get_range_clip (fat : FT.Fat) d s n : fat_ok fat d -> 2 <= s < last_cluster fat -> 0 < n < 2 ^ 31 ->
  FT.get_range fat s n d = (Ok (entries fat d s (Z.to_nat (Z.min n (last_cluster fat - s)))), d).
Proof.
  intros Hd Hs Hn. rewrite <- (get_range_eq fat d s (Z.min n (last_cluster fat - s)) Hd) by lia.
  unfold FT.get_range. f_equal. unfold FT.get_range_raw. rewrite (allocable_end_eq fat d Hd). destruct Hd.
  assert (Hlc : last_cluster fat = FT.cluster_count fat + 2) by done. rewrite !(proj2 (Z.leb_gt _ _)) by lia.
  rewrite !wadd_small by (unfold fits; lia).
  by replace (Z.min (s + n) (last_cluster fat)) with (Z.min (s + Z.min n (last_cluster fat - s)) (last_cluster fat)) by lia.
Qed.

(** One batch finds a piece of the chain, never nothing while there is a next
    cluster. *)
Lemma ranged_next_spec (fat : FT.Fat) d n : forall c cs, linked (ent fat d) (c :: cs) ->
  exists k, FT.ranged_next (FT.Next c) (entries fat d c (S n)) = take k cs /\ (cs <> [] -> (0 < k)%nat).
Proof.
  induction n as [|n IH]; intros c cs [Hc Hl]; rewrite entries_S; cbn [FT.ranged_next]; rewrite Z.eqb_refl.
  - destruct cs as [|x cs]; rewrite Hc; [by exists O|]. exists 1%nat. split; [done|lia].
  - destruct cs as [|x cs]; rewrite Hc; [by exists O|]. destruct (Z.eqb_spec x (c + 1)) as [->|Hne].
    + destruct (IH (c + 1) cs Hl) as (k & -> & _). exists (S k). split; [done|lia].
    + exists 1%nat. split; [|lia]. rewrite entries_S. cbn [FT.ranged_next]. by rewrite (proj2 (Z.eqb_neq _ _)).
Qed.

Lemma linked_drop e l1 c l2 : linked e (l1 ++ c :: l2) -> linked e (c :: l2).
Proof. induction l1 as [|x l1 IH]; [done|]. intros [_ Hl]. by apply IH. Qed.

Lemma all_clusters_loop_spec (fat : FT.Fat) d fuel : forall c cs acc, fat_ok fat d -> linked (ent fat d) (c :: cs) ->
  Forall (fun c => 2 <= c < last_cluster fat) (c :: cs) -> (length cs < fuel)%nat ->
  FT.all_clusters_loop fuel fat c acc d = (Ok (Some (acc ++ cs)), d).
Proof.
  induction fuel as [|fuel IH]; intros c cs acc Hd Hl Hr Hf; [lia|]. cbn [FT.all_clusters_loop]. pose proof Hr as [Hc Hrs]%Forall_cons.
  set (m := Z.min FT.BATCH_LEN (last_cluster fat - c)). assert (0 < m) by (unfold m, FT.BATCH_LEN; lia).
  assert (Hb : FT.iter_ranged_next fat c FT.BATCH_LEN d = (Ok (FT.ranged_next (FT.Next c) (entries fat d c (Z.to_nat m))), d)).
  { unfold FT.iter_ranged_next. rewrite (ST_bind_Ok _ _ _ _ _ (get_range_clip fat d c FT.BATCH_LEN Hd Hc ltac:(unfold FT.BATCH_LEN; lia))). done. }
  rewrite (ST_bind_Ok _ _ _ _ _ Hb). destruct (Z.to_nat m) as [|m'] eqn:Em; [lia|].
  destruct (ranged_next_spec fat d m' c cs Hl) as (k & -> & Hk). destruct cs as [|x cs].
  { rewrite take_nil. cbn [last]. by rewrite app_nil_r. }
  specialize (Hk ltac:(done)). destruct (last (take k (x :: cs))) as [c'|] eqn:El.
  - pose proof El as [l' El']%last_Some. pose proof (take_drop k (x :: cs)) as Htd. set (rest := drop k (x :: cs)) in *.
    rewrite El', <- app_assoc in Htd. cbn [app] in Htd. rewrite (IH c' rest).
    + rewrite <- app_assoc. unfold rest. by rewrite take_drop.
    + done.
    + apply (linked_drop _ (c :: l')). cbn [app]. by rewrite Htd.
    + rewrite <- Htd in Hrs. by apply Forall_app in Hrs as [_ Hrs].
    + unfold rest. rewrite length_drop. simpl in *. lia.
  - apply last_None in El. destruct k; [lia|done].
Qed.

(** Opening a file follows its chain to the end, whatever its length, and gives
    a file that is in order: the clusters of the chain with the ends of their runs,
    the length of the directory entry, or of the chain for a directory. *)
Theorem new_spec d fs (c : option Z) (e : option FDirent.DirEntryEditor) cs sh fuel :
  fs_ok d fs -> 0 <= sh < 32 -> FRaw.cluster_size (bpb fs) = 2 ^ sh ->
  head cs = c -> linked (ent (fat fs) d) cs -> NoDup cs -> in_volume fs cs -> (length cs <= fuel)%nat ->
  (forall ed, e = Some ed -> FDirent.first_cluster (FDirent.data ed) = head cs
     /\ forall s, FDirent.size_opt (FDirent.data ed) = Some s -> 0 <= s <= Z.of_nat (length cs) * 2 ^ sh) ->
  exists f, new fuel c e (d, fs) = (Ok (Some f), (d, fs)) /\ file_ok d fs f cs /\ entry f = e /\ cluster_shift f = sh /\ cur_offset f = 0
    /\ flen f = default (Z.of_nat (length cs) * 2 ^ sh) (e ≫= fun ed => FDirent.size_opt (FDirent.data ed)).
Proof.
  intros Hfs Hsh Esz Hc Hl Hnd Hr Hf He. pose proof (pow2_pos sh ltac:(lia)).
  pose proof (clusters_bound d fs cs Hfs Hr Hnd) as Hb. destruct (shl_clusters (Z.of_nat (length cs)) sh Hsh ltac:(lia)) as [Eshl Hshl].
  assert (Hcl : (match c with Some c => on_device (FT.all_clusters fuel (fat fs) c) | None => mret (Some []) end) (d, fs)
    = (Ok (Some (FT.run_ends cs)), (d, fs))).
  { destruct cs as [|c0 cs]; subst c; [done|]. cbn [head]. unfold on_device, FT.all_clusters.
    assert (E := all_clusters_loop_spec (fat fs) d fuel c0 cs [c0] (fs_fat _ _ Hfs) Hl Hr ltac:(simpl in Hf; lia)).
    rewrite (ST_bind_Ok _ _ _ _ _ E). done. }
  set (ln := default (Z.of_nat (length cs) * 2 ^ sh) (e ≫= fun ed => FDirent.size_opt (FDirent.data ed))).
  exists (mk_file (FT.run_ends cs) sh (Ufs.me true true true) e ln 0). split; [|split; [|done]].
  - unfold new. rewrite (ST_bind_Ok _ _ _ fs (d, fs)) by done.
    rewrite (ST_bind_Ok _ _ _ sh (d, fs)).
    2:{ unfold lift_res. rewrite Esz, (proj2 (Z.ltb_lt _ _)) by done. by rewrite Z.log2_pow2 by lia. }
    rewrite (ST_bind_Ok _ _ _ _ _ Hcl). unfold mret, ST_ret. cbn [fmap option_fmap option_map]. rewrite length_run_ends, Eshl.
    unfold ln. by destruct (e ≫= _).
  - split; try done; cbn [flen cluster_shift entry].
    + unfold ln. destruct e as [ed|]; [|simpl; lia]. destruct (He ed eq_refl) as [_ Hs]. simpl.
      destruct (FDirent.size_opt (FDirent.data ed)); simpl; [by apply Hs|lia].
    + intros ed [= ->]. destruct (He ed eq_refl) as [Hfc Hs]. split; [|done]. intros s Hs'. unfold ln. simpl. by rewrite Hs'.
Qed.
End Open.

(** ** A file of forty bytes in two clusters *)
Definition tiny_editor : FDirent.DirEntryEditor :=
  FDirent.editor_new (FDirent.set_size (FDirent.set_first_cluster (FDirent.file_new (replicate 11 65) 0) (Some 2)) 40) 0.
Definition tiny_file : FatFile := mk_file [(2, 3); (3, 3)] 5 448 (Some tiny_editor) 40 0.

Lemma tiny_file_ok : file_ok tiny_disk tiny_fs tiny_file [2; 3].
Proof.
  split.
  - apply tiny_ok.
  - split; [simpl; lia|reflexivity].
  - reflexivity.
  - apply (bool_decide_unpack (NoDup [2; 3])). vm_compute. exact I.
  - apply (bool_decide_unpack (Forall _ _)). vm_compute. exact I.
  - split; [vm_compute; reflexivity|]. split; [vm_compute; reflexivity|exact I].
  - simpl. lia.
  - intros e [= <-]. split; [by intros s [= <-]|reflexivity].
Qed.

Lemma new_spec_witness :
  exists f, new 2 (Some 2) (Some tiny_editor) (tiny_disk, tiny_fs) = (Ok (Some f), (tiny_disk, tiny_fs)) /\ file_ok tiny_disk tiny_fs f [2; 3]
    /\ entry f = Some tiny_editor /\ cluster_shift f = 5 /\ cur_offset f = 0 /\ flen f = 40.
Proof.
  destruct tiny_file_ok as [Hfs [Hsh Esz] _ Hnd Hr Hl _ _].
  apply (new_spec tiny_disk tiny_fs (Some 2) (Some tiny_editor) [2; 3] 5 2); try done.
  intros ed [= <-]. split; [reflexivity|]. intros s [= <-]. simpl. lia.
Defined.

Lemma read_at_spec_witness :
  exists d', read_at 101 10 [Umio.room 100] (tiny_disk, tiny_fs, tiny_file) =
      (Ok (Some (slice_at (file_data tiny_disk tiny_fs [2; 3]) 10 30)), (d', tiny_fs, accessed tiny_fs tiny_file))
    /\ file_ok d' tiny_fs (accessed tiny_fs tiny_file) [2; 3].
Proof.
  destruct (read_at_spec tiny_disk tiny_fs tiny_file [2; 3] 10 [Umio.room 100] 101) as [Hin _].
  - apply tiny_file_ok.
  - simpl. lia.
  - done.
  - apply Forall_cons_2; [simpl; lia|by apply Forall_nil].
  - reflexivity.
  - vm_compute. lia.
  - destruct (Hin eq_refl) as (c & e & d' & Hr & _ & E & _ & Hok). vm_compute in Hr. injection Hr as <- <-. exists d'. split; [exact E|exact Hok].
Defined.

Lemma read_past_end_witness :
  (read_at 61 50 [Umio.room 60] (tiny_disk, tiny_fs, tiny_file)).1 = Ok (Some (slice_at (disk_bytes tiny_disk) 114 60)).
Proof.
  assert (E := read_past_end tiny_disk tiny_fs tiny_file [2; 3] 50 [Umio.room 60] 61). cbv zeta in E. rewrite (E tiny_file_ok) with (c := 3).
  - vm_compute. reflexivity.
  - simpl. lia.
  - reflexivity.
  - apply Forall_cons_2; [simpl; lia|by apply Forall_nil].
  - vm_compute. lia.
  - reflexivity.
  - vm_compute. congruence.
Defined.

Lemma write_at_spec_witness :
  exists new k d' fs' f', write_at 4 64 [[1; 2; 3]] (tiny_disk, tiny_fs, tiny_file) = (Ok (Some k), (d', fs', f'))
    /\ stored tiny_disk tiny_fs tiny_file [2; 3] 64 [1; 2; 3] new k d' fs' f'.
Proof.
  destruct (write_at_spec tiny_disk tiny_fs tiny_file [2; 3] 64 [[1; 2; 3]] 4) as [Hst|[E _]].
  - apply tiny_file_ok.
  - lia.
  - vm_compute. congruence.
  - done.
  - apply Forall_cons_2; [done|by apply Forall_nil].
  - apply (bool_decide_unpack (Forall byte _)). vm_compute. exact I.
  - reflexivity.
  - simpl. lia.
  - exact Hst.
  - exfalso. assert (Hne : (write_at 4 64 [[1; 2; 3]] (tiny_disk, tiny_fs, tiny_file)).1 = Ok (Some 3)) by (vm_compute; reflexivity).
    rewrite E in Hne. discriminate Hne.
Defined.

Lemma file_truncate_spec_witness :
  exists d' fs' f', truncate 2 5 (tiny_disk, tiny_fs, tiny_file) = (Ok (Some tt), (d', fs', f'))
    /\ cut_down tiny_disk tiny_fs [2; 3] 5 1 d' fs' f'.
Proof.
  apply (file_truncate_spec tiny_disk tiny_fs tiny_file [2; 3] tiny_editor 5 2);
    [apply tiny_file_ok|reflexivity|reflexivity|simpl; lia|lia|simpl; lia].
Defined.

(** *** Writing behind a gap
    The clusters of the gap are allocated with the others, and the data is stored in
    the first of them: written at 64 in an empty file, it is read back at 0. *)
Definition empty_file : FatFile :=
  mk_file [] 5 448 (Some (FDirent.editor_new (FDirent.file_new (replicate 11 65) 0) 0)) 0 0.
Example write_behind_gap :
  let w := write_at 4 64 [[1; 2; 3]] (tiny_disk, tiny_fs, empty_file) in
  w.1 = Ok (Some 3) /\ (read_at 4 64 [Umio.room 3] w.2).1 = Ok (Some [7; 7; 7])
  /\ (read_at 4 0 [Umio.room 3] w.2).1 = Ok (Some [1; 2; 3]).
Proof. vm_compute. split_and!; reflexivity. Qed.

(** When the gap is allocated in several runs, the next run is linked behind the first
    cluster of the one before, and the rest of that run drops out of the chain. *)
Definition split_disk : RamDisk.
Proof.
  refine (mk_disk (replicate 32 0 ++ mjoin (le_bytes 4 <$> [0x0FFFFFF8; 0x0FFFFFFF; 0; 0; 0x0FFFFFFF; 0; 0; 0]) ++ replicate 192 7) _).
  apply (bool_decide_unpack (Forall byte _)). vm_compute. exact I.
Defined.
Definition split_fs : FatFileSystem FTime.NullTimeProvider :=
  mk_fs (FT.mk_fat 32 6 1) tiny_bpb (FRaw.mk_fis None None false) 0 FTime.null_time_provider.
Example gap_breaks_chain :
  let w := write_at 4 96 [[1; 2; 3]] (split_disk, split_fs, empty_file) in
  w.1 = Ok (Some 3) /\ fst <$> clusters w.2.2 = [2; 3; 5; 6]
  /\ (new 10 (Some 2) None w.2.1).1 = Ok (Some (mk_file [(2, 2); (5, 6); (6, 6)] 5 448 None 96 0)).
Proof. vm_compute. split_and!; reflexivity. Qed.
