(* ===== verification/FatDir.v ===== *)
(** * afat32: directories

    mizu/lib/afat32/src/dir.rs: reading, searching, extending and changing
    directories.  The operations on the entries of one directory use its file through
    the class [DirFile]; those on paths use the files of [FatFile].  Loops have fuel. *)

From S2P Require Import Prelude Ksc Bytes Path Umio Umifs FatTime FatRaw FatTable FatFs FatDirent FatName FatShort FatFile.
Import Errno FDirent.

Module FDir.

(** What a directory needs of its file: [read_at] and [write_at] with one buffer, and
    where it starts. *)
Class DirFile (F : Type) := {
  df_read_at : Z -> Z -> PT F Error (list Z);
  df_write_at : Z -> list Z -> PT F Error Z;
  df_start : F -> option Z;
}.

Inductive DirEntryOrShortName := ADirEntry (e : DirEntry) | AShortName (name : list Z).

Section Entries.
Context {F : Type} `{DirFile F} `{Nom} `{Unicode}.
Notation M := (PT F Error).

(** [IoExt::read_exact_at] and [write_all_at] on the file *)
Fixpoint read_exact_at (fuel : nat) (offset want : Z) (acc : list Z) : M (list Z) :=
  match fuel with
  | O => pt_none
  | S fuel =>
      if want =? 0 then mret acc
      else fun f =>
        match df_read_at offset want f with
        | None => None
        | Some (Ok bs, f) =>
            if Umio.len bs =? 0 then Some (Err EIO, f)
            else if want <? Umio.len bs then Some (Panic, f)
            else read_exact_at fuel (wadd 64 offset (Umio.len bs)) (want - Umio.len bs) (acc ++ bs) f
        | Some (Err e, f) => if bool_decide (e = EINTR) then read_exact_at fuel offset want acc f else Some (Err e, f)
        | Some (Panic, f) => Some (Panic, f)
        end
  end.
Fixpoint write_all_at (fuel : nat) (offset : Z) (buffer : list Z) : M unit :=
  match fuel with
  | O => pt_none
  | S fuel =>
      if bool_decide (buffer = []) then mret tt
      else fun f =>
        match df_write_at offset buffer f with
        | None => None
        | Some (Ok n, f) =>
            if n =? 0 then Some (Err EIO, f)
            else if Umio.len buffer <? n then Some (Panic, f)
            else write_all_at fuel (wadd 64 offset n) (drop (Z.to_nat n) buffer) f
        | Some (Err e, f) => if bool_decide (e = EINTR) then write_all_at fuel offset buffer f else Some (Err e, f)
        | Some (Panic, f) => Some (Panic, f)
        end
  end.

Definition nom_question {A} (r : res unit A) : M A := pt_res (map_err (fun _ => EIO) r).

Definition should_skip_entry (raw_entry : DirEntryData) (skip_volume : bool) : bool :=
  if is_deleted raw_entry then true
  else match raw_entry with
       | File sfn_entry => skip_volume && is_volume sfn_entry
       | Lfn _ => false
       end.

(** An end of file is the end of the directory; other errors are errors. *)
Definition read_record (fuel : nat) (offset : Z) : M (option (list Z)) := fun f =>
  match read_exact_at fuel offset DIR_ENTRY_SIZE [] f with
  | None => None
  | Some (Ok buf, f) => Some (Ok (Some buf), f)
  | Some (Err err, f) => if bool_decide (err = EIO) then Some (Ok None, f) else Some (Err err, f)
  | Some (Panic, f) => Some (Panic, f)
  end.

Fixpoint next_loop (fuel : nat) (abs_start_pos : Z) (skip_volume : bool) (lfn_builder : FName.LongNameBuilder)
    (offset begin_offset : Z) : M (option DirEntry) :=
  match fuel with
  | O => pt_none
  | S fuel' =>
      buf ← read_record fuel offset;
      match buf with
      | None => mret None
      | Some buf =>
          '(_, raw_entry) ← nom_question (parse buf);
          let next := wadd 64 offset DIR_ENTRY_SIZE in
          if is_end raw_entry then mret None
          else if should_skip_entry raw_entry skip_volume then
            next_loop fuel' abs_start_pos skip_volume (FName.clear lfn_builder) next next
          else match raw_entry with
               | File data =>
                   let lfn_builder := FName.validate_chksum lfn_builder (name data) in
                   mret (Some (mk_dirent data (ShortName_new (name data)) (FName.into_buf lfn_builder)
                                 (wadd 64 abs_start_pos offset) (begin_offset, next)))
               | Lfn lfn =>
                   lfn_builder ← nom_question (FName.process lfn_builder lfn);
                   next_loop fuel' abs_start_pos skip_volume lfn_builder next begin_offset
               end
      end
  end.
Definition next_dirent (fuel : nat) (last_pos : option Z) (skip_volume : bool) : M (option DirEntry) := fun f =>
  (abs_start_pos ← pt_opt (df_start f);
   let offset := match last_pos with Some last => wadd 64 (wsub 64 last abs_start_pos) DIR_ENTRY_SIZE | None => 0 end in
   next_loop fuel abs_start_pos skip_volume FName.builder_new offset offset) f.

(** ** Searching *)
(** The search goes on with the position of the entry before; the generator is kept
    when the search fails. *)
Definition wrong_kind (e : DirEntry) (want_dir : option bool) : bool :=
  match want_dir with Some b => negb (Bool.eqb (is_dir (de_data e)) b) | None => false end.
Definition kind_error (e : DirEntry) : Error := if is_dir (de_data e) then EISDIR else ENOTDIR.

Fixpoint find_loop (fuel : nat) (nm : list Z) (want_dir : option bool) (gen : option FShort.ShortNameGenerator) (last_pos : option Z) :
    F -> option (res Error DirEntry * option FShort.ShortNameGenerator * F) :=
  match fuel with
  | O => fun _ => None
  | S fuel' => fun f =>
      match next_dirent fuel last_pos true f with
      | None => None
      | Some (Ok None, f) => Some (Err ENOENT, gen, f)
      | Some (Ok (Some e), f) =>
          if eq_name e nm then Some (if wrong_kind e want_dir then Err (kind_error e) else Ok e, gen, f)
          else find_loop fuel' nm want_dir ((fun g => FShort.add_existing g (name (de_data e))) <$> gen) (Some (entry_pos e)) f
      | Some (Err err, f) => Some (Err err, gen, f)
      | Some (Panic, f) => Some (Panic, gen, f)
      end
  end.
Definition find_entry (fuel : nat) (nm : list Z) (want_dir : option bool) : M DirEntry := fun f =>
  (fun '(r, _, f) => (r, f)) <$> find_loop fuel nm want_dir None None f.

Fixpoint exist_loop (rounds fuel : nat) (nm : list Z) (want_dir : option bool) (gen : FShort.ShortNameGenerator) : M DirEntryOrShortName :=
  match rounds with
  | O => pt_none
  | S rounds => fun f =>
      match find_loop fuel nm want_dir (Some gen) None f with
      | None => None
      | Some (Ok e, _, f) => Some (Ok (ADirEntry e), f)
      | Some (Panic, _, f) => Some (Panic, f)
      | Some (Err err, gen', f) =>
          if bool_decide (err = ENOENT) then
            let gen := default gen gen' in
            match FShort.generate gen with
            | Ok short => Some (Ok (AShortName short), f)
            | Err _ => exist_loop rounds fuel nm want_dir (FShort.next_iteration gen) f
            | Panic => Some (Panic, f)
            end
          else Some (Err err, f)
      end
  end.
Definition check_for_existence (fuel : nat) (nm : list Z) (want_dir : option bool) : M DirEntryOrShortName :=
  gen ← nom_question (FShort.sng_new nm);
  exist_loop fuel fuel nm want_dir gen.

Fixpoint empty_loop (fuel : nat) (last_pos : option Z) : M bool :=
  match fuel with
  | O => pt_none
  | S fuel' =>
      r ← next_dirent fuel last_pos true;
      match r with
      | None => mret true
      | Some e =>
          let n := as_bytes (de_short_name e) in
          if negb (bool_decide (n = [46])) && negb (bool_decide (n = [46; 46])) then mret false
          else empty_loop fuel' (Some (entry_pos e))
      end
  end.
Definition is_empty (fuel : nat) : M bool := empty_loop fuel None.

(** ** Writing entries *)
Fixpoint free_slots_loop (fuel : nat) (num_entries i first_free num_free : Z) : M Z :=
  match fuel with
  | O => pt_none
  | S fuel =>
      buf ← df_read_at (wmul 32 i DIR_ENTRY_SIZE) DIR_ENTRY_SIZE;
      let here := if num_free =? 0 then i else first_free in
      if Umio.len buf <? DIR_ENTRY_SIZE then mret (wmul 32 here DIR_ENTRY_SIZE)
      else
        '(_, raw_entry) ← nom_question (parse buf);
        if is_end raw_entry then mret (wmul 32 here DIR_ENTRY_SIZE)
        else if is_deleted raw_entry then
          let num_free := wadd 32 num_free 1 in
          if num_free =? num_entries then mret (wmul 32 here DIR_ENTRY_SIZE)
          else free_slots_loop fuel num_entries (wadd 32 i 1) here num_free
        else free_slots_loop fuel num_entries (wadd 32 i 1) first_free 0
  end.
Definition find_free_entries (fuel : nat) (num_entries : Z) : M Z := free_slots_loop fuel num_entries 0 0 0.

Fixpoint write_records (fuel : nat) (offset : Z) (es : list DirLfnEntryData) : M unit :=
  match es with
  | [] => mret tt
  | e :: es => _ ← write_all_at fuel offset (lfn_to_bytes e); write_records fuel (wadd 64 offset DIR_ENTRY_SIZE) es
  end.

Definition alloc_and_write_lfn_entries (fuel : nat) (lfn_utf16 short_name : list Z) : M (Z * Z) :=
  let lfn_iter := FName.gen_new lfn_utf16 (FName.lfn_checksum short_name) in
  let num_lfn_entries := Z.of_nat (FName.gen_len lfn_iter) in
  start_pos ← find_free_entries fuel (wadd 32 num_lfn_entries 1);
  _ ← write_records fuel start_pos (FName.gen_all lfn_iter);
  mret (start_pos, wadd 64 start_pos (num_lfn_entries * DIR_ENTRY_SIZE)).

Definition write_entry (fuel : nat) (nm : list Z) (raw_entry : DirFileEntryData) : M DirEntry :=
  _ ← pt_res (FName.validate_long_name nm);
  let lfn_utf16 := FName.encode_utf16 nm in
  '(start_pos, entry_pos) ← alloc_and_write_lfn_entries fuel lfn_utf16 (name raw_entry);
  _ ← write_all_at fuel entry_pos (file_to_bytes raw_entry);
  mret (mk_dirent raw_entry (ShortName_new (name raw_entry)) lfn_utf16 entry_pos (start_pos, wadd 64 entry_pos DIR_ENTRY_SIZE)).

(** DirEntry::free_all_entries, through the directory's file *)
Fixpoint free_records (fuel : nat) (n : nat) (offset : Z) : M unit :=
  match n with
  | O => mret tt
  | S n =>
      buf ← read_exact_at fuel offset DIR_ENTRY_SIZE [];
      '(_, data) ← nom_question (parse buf);
      _ ← write_all_at fuel offset (to_bytes (set_deleted data));
      free_records fuel n (offset + DIR_ENTRY_SIZE)
  end.
Definition free_all_entries (fuel : nat) (e : DirEntry) : M unit :=
  let '(lo, hi) := offset_range e in
  free_records fuel (Z.to_nat ((hi - lo + DIR_ENTRY_SIZE - 1) / DIR_ENTRY_SIZE)) lo.
End Entries.

(** ** Paths *)
Section Paths.
Context {D P : Type} `{Bytes.Io D} `{Umio.Io D} `{FTime.TimeProvider P} `{Nom} `{Unicode}.
Context (fuel : nat).
Notation Vol := (D * FFs.FatFileSystem P)%type.
Notation Node := (D * FFs.FatFileSystem P * FFile.FatFile)%type.

(** A file of the volume as the file of a directory. *)
#[export] Instance FatFile_dir : DirFile Node := {
  df_read_at offset n := pt_run (FFile.read_at fuel offset [Umio.room n]);
  df_write_at offset bs := pt_run (FFile.write_at fuel offset [bs]);
  df_start s := FFile.abs_start_pos s.2;
}.

(** The directory a method is called on, and the one a walk has opened, if any. *)
Record World := mk_world { vol : Vol; self : FFile.FatFile; storage : option FFile.FatFile }.
Notation M := (PT World Error).

Definition on_vol {A} (m : PT Vol Error A) : M A := fun w =>
  (fun '(r, v) => (r, mk_world v (self w) (storage w))) <$> m (vol w).
Definition on_self {A} (m : PT Node Error A) : M A := fun w =>
  (fun '(r, (v, f)) => (r, mk_world v f (storage w))) <$> m (vol w, self w).
(** The current node: the one opened last, or the directory itself. *)
Definition on_node {A} (m : PT Node Error A) : M A := fun w =>
  match storage w with
  | None => on_self m w
  | Some node => (fun '(r, (v, f)) => (r, mk_world v (self w) (Some f))) <$> m (vol w, node)
  end.
Definition get_node : M FFile.FatFile := fun w => Some (Ok (default (self w) (storage w)), w).
Definition get_storage : M (option FFile.FatFile) := fun w => Some (Ok (storage w), w).
Definition set_node (f : FFile.FatFile) : M unit := fun w => Some (Ok tt, mk_world (vol w) (self w) (Some f)).

Definition root_dir : PT Vol Error FFile.FatFile := fun v =>
  pt_run (FFile.new fuel (Some (FRaw.root_dir_first_cluster (FFs.bpb v.2))) None) v.
Definition to_file (e : DirEntry) : PT Vol Error FFile.FatFile :=
  if is_dir (de_data e) then pt_res Panic
  else pt_run (FFile.new fuel (first_cluster (de_data e)) (Some (editor e))).
Definition to_dir (e : DirEntry) : PT Vol Error FFile.FatFile :=
  if negb (is_dir (de_data e)) then pt_res Panic
  else match first_cluster (de_data e) with
       | Some n => pt_run (FFile.new fuel (Some n) (Some (editor e)))
       | None => root_dir
       end.

(** All components but the last are opened as directories; the last one is returned. *)
Fixpoint walk (comps : list Pth.Component) : M (list Z) :=
  match comps with
  | [] => pt_throw EINVAL
  | [comp] => mret (Pth.as_str comp)
  | comp :: comps =>
      e ← on_node (find_entry fuel (Pth.as_str comp) (Some true));
      d ← on_vol (to_dir e);
      _ ← set_node d;
      walk comps
  end.
Fixpoint walk_all (comps : list Pth.Component) : M unit :=
  match comps with
  | [] => mret tt
  | comp :: comps =>
      e ← on_node (find_entry fuel (Pth.as_str comp) (Some true));
      d ← on_vol (to_dir e);
      _ ← set_node d;
      walk_all comps
  end.

Definition open (path : list Z) : M DirEntry :=
  nm ← walk (Pth.components path);
  on_node (find_entry fuel nm None).
Definition open_file (path : list Z) : M FFile.FatFile :=
  nm ← walk (Pth.components path);
  e ← on_node (find_entry fuel nm (Some false));
  on_vol (to_file e).
Definition open_dir (path : list Z) : M FFile.FatFile :=
  _ ← walk_all (Pth.components path);
  d ← get_storage;
  pt_res (ok_or d EINVAL).

Definition create_sfn_entry (short_name : list Z) (attrs : Z) (first : option Z) : M DirFileEntryData := fun w =>
  let now := FTime.get_current_date_time (FFs.time_provider (vol w).2) in
  let raw_entry := set_first_cluster (file_new short_name attrs) first in
  Some (Ok (set_modified (set_accessed (set_created raw_entry now) (FTime.date now)) now), w).

Definition create_file (path : list Z) : M (FFile.FatFile * bool) :=
  nm ← walk (Pth.components path);
  r ← on_node (check_for_existence fuel nm (Some false));
  match r with
  | AShortName short_name =>
      sfn_entry ← create_sfn_entry short_name 0 None;
      e ← on_node (write_entry fuel nm sfn_entry);
      f ← on_vol (to_file e);
      mret (f, true)
  | ADirEntry e => f ← on_vol (to_file e); mret (f, false)
  end.

(** An operation on a directory that is neither: the directory is returned. *)
Definition on_dir {A} (dir : FFile.FatFile) (m : PT Node Error A) : M (A * FFile.FatFile) := fun w =>
  match m (vol w, dir) with
  | None => None
  | Some (Ok a, (v, dir)) => Some (Ok (a, dir), mk_world v (self w) (storage w))
  | Some (Err e, (v, _)) => Some (Err e, mk_world v (self w) (storage w))
  | Some (Panic, (v, _)) => Some (Panic, mk_world v (self w) (storage w))
  end.

(** The two special entries are written through the new directory. *)
Definition create_dir (path : list Z) : M (FFile.FatFile * bool) :=
  nm ← walk (Pth.components path);
  r ← on_node (check_for_existence fuel nm (Some false));
  match r with
  | AShortName short_name =>
      '(cluster, _) ← on_vol (pt_st (FFs.alloc_cluster None 1 false));
      sfn_entry ← create_sfn_entry short_name DIRECTORY (Some cluster);
      entry ← on_node (write_entry fuel nm sfn_entry);
      dir ← on_vol (to_dir entry);
      sfn_entry ← create_sfn_entry FShort.generate_dot DIRECTORY (first_cluster (de_data entry));
      '(_, dir) ← on_dir dir (write_entry fuel [46] sfn_entry);
      node ← get_node;
      sfn_entry ← create_sfn_entry FShort.generate_dotdot DIRECTORY (FFile.first_cluster node);
      '(_, dir) ← on_dir dir (write_entry fuel [46; 46] sfn_entry);
      mret (dir, true)
  | ADirEntry e => d ← on_vol (to_dir e); mret (d, false)
  end.

(** The entry is searched in the directory of the path, but its records are freed
    in the directory the method was called on. *)
Definition remove (path : list Z) (want_dir : option bool) : M unit :=
  nm ← walk (Pth.components path);
  e ← on_node (find_entry fuel nm None);
  if wrong_kind e want_dir then pt_throw (kind_error e)
  else
    _ ← (if is_dir (de_data e) then
           d ← on_vol (to_dir e);
           r ← on_dir d (is_empty fuel);
           if (r.1 : bool) then mret tt else pt_throw ENOTEMPTY
         else mret tt);
    _ ← match first_cluster (de_data e) with
        | Some n => on_vol (pt_run (FFs.free_cluster_chain fuel n))
        | None => mret tt
        end;
    on_self (free_all_entries fuel e).

(** A method runs from a directory with nothing opened. *)
Definition run {A} (m : M A) : PT Node Error A := fun '(v, f) =>
  (fun '(r, w) => (r, (vol w, self w))) <$> m (mk_world v f None).
End Paths.

(** ** Renaming *)
Section Rename.
Context {D P : Type} `{Bytes.Io D} `{Umio.Io D} `{FTime.TimeProvider P} `{Nom} `{Unicode}.
Context (fuel : nat).
Notation Vol := (D * FFs.FatFileSystem P)%type.
Notation Node := (D * FFs.FatFileSystem P * FFile.FatFile)%type.
#[local] Instance rename_file : DirFile Node := FatFile_dir fuel.

(** The two directories of a rename; [None] when both are the same object. *)
Record Pair := mk_pair { pvol : Vol; src_dir : FFile.FatFile; dst_dir : option FFile.FatFile }.
Notation M := (PT Pair Error).

Definition on_src {A} (m : PT Node Error A) : M A := fun w =>
  (fun '(r, (v, f)) => (r, mk_pair v f (dst_dir w))) <$> m (pvol w, src_dir w).
Definition on_dst {A} (m : PT Node Error A) : M A := fun w =>
  match dst_dir w with
  | None => on_src m w
  | Some dst => (fun '(r, (v, f)) => (r, mk_pair v (src_dir w) (Some f))) <$> m (pvol w, dst)
  end.

Definition rename_internal (src_name dst_name : list Z) : M unit :=
  e ← on_src (find_entry fuel src_name None);
  r ← on_dst (check_for_existence fuel dst_name None);
  match r with
  | ADirEntry dst_e => if is_same_entry e dst_e then mret tt else pt_throw EEXIST
  | AShortName short_name =>
      _ ← on_src (free_all_entries fuel e);
      _ ← on_dst (write_entry fuel dst_name (renamed (de_data e) short_name));
      mret tt
  end.

(** Both paths are walked, but the rename is done in the two directories that were
    given. *)
Definition rename (src_path dst_path : list Z) : M unit :=
  src_name ← on_src (run (walk fuel (Pth.components src_path)));
  dst_name ← on_dst (run (walk fuel (Pth.components dst_path)));
  rename_internal src_name dst_name.
End Rename.

(** ** Entry and Directory *)
Section Entry.
Context {D P : Type} `{Bytes.Io D} `{Umio.Io D} `{FTime.TimeProvider P} `{Nom} `{Unicode}.
Context (fuel : nat).
Notation Node := (D * FFs.FatFileSystem P * FFile.FatFile)%type.
#[local] Instance entry_file : DirFile Node := FatFile_dir fuel.

Inductive Opened := SelfDir | ADir (d : FFile.FatFile) | AFile (f : FFile.FatFile).

Definition entry_open (path : list Z) (options : Z) : PT Node Error (Opened * bool) :=
  if Pth.path_eq path [] || Pth.path_eq path Pth.CURRENT_STR then
    if Ufs.contains options (Z.lor Ufs.CREAT Ufs.EXCL) then pt_throw EEXIST else mret (SelfDir, false)
  else if negb (Ufs.contains options Ufs.CREAT) then
    run (dirent ← open fuel path;
         if is_dir (de_data dirent) then d ← on_vol (to_dir fuel dirent); mret (ADir d, false)
         else if Ufs.contains options Ufs.OPT_DIRECTORY then pt_throw ENOTDIR
         else f ← on_vol (to_file fuel dirent); mret (AFile f, false))
  else if negb (Ufs.contains options Ufs.OPT_DIRECTORY) then
    run ('(f, created) ← create_file fuel path; mret (AFile f, created))
  else run ('(d, created) ← create_dir fuel path; mret (ADir d, created)).

Definition dir_metadata (f : FFile.FatFile) : Ufs.Metadata :=
  let m := FFile.metadata f in
  Ufs.mk_metadata Ufs.DIR (Ufs.m_len m) (Ufs.m_offset m) (Ufs.m_perm m) (Ufs.block_size m) (Ufs.block_count m).

Definition to_ufs (fm : Ufs.Metadata) (d : DirEntry) : Ufs.DirEntry :=
  Ufs.mk_dir_entry (file_name d)
    (Ufs.mk_metadata (if is_dir (de_data d) then Ufs.DIR else Ufs.FILE) (size (de_data d)) (entry_pos d)
       Ufs.all_permissions (Ufs.block_size fm) (Ufs.block_count fm)).
Definition file_metadata : PT Node Error Ufs.Metadata := fun s => Some (Ok (FFile.metadata s.2), s).
Definition dir_next_dirent (last : option Ufs.DirEntry) : PT Node Error (option Ufs.DirEntry) :=
  dirent ← next_dirent fuel ((fun l => Ufs.m_offset (Ufs.metadata l)) <$> last) true;
  fm ← file_metadata;
  mret (to_ufs fm <$> dirent).

Definition unlink (path : list Z) (expect_dir : option bool) : PT Node Error unit := run (remove fuel path expect_dir).
End Entry.
End FDir.
