(* ===== verification/FatDirSpec.v ===== *)
(** * afat32: the entries of a directory

    A directory is a file of records of thirty-two bytes.  [entries] reads the list of
    entries off the list of records; going through a directory, searching it and
    asking for a free name are operations on that list, on every file that keeps the
    promises of [DirSpec]. *)

From S2P Require Import Prelude Ksc Bytes Umio Umifs FatRaw FatDirent FatName FatShort FatDir.
Import Errno FDirent FDir.

(** ** The file of a directory *)
(** Whole records are read and written; a write behind the last one extends the file,
    unless the volume is full. *)
Class DirSpec (F : Type) `{DirFile F} := {
  df_ok : F -> Prop;
  df_data : F -> list Z;
  df_abs : F -> Z;
  df_shape f : df_ok f ->
    (32 | Z.of_nat (length (df_data f))) /\ Z.of_nat (length (df_data f)) < 2 ^ 32 /\ Forall byte (df_data f);
  df_started f : df_ok f -> df_start f = Some (df_abs f) /\ 0 <= df_abs f < 2 ^ 63;
  df_read f off : df_ok f -> (32 | off) -> 0 <= off <= Z.of_nat (length (df_data f)) ->
    exists f', df_read_at off 32 f = Some (Ok (slice_at (df_data f) off 32), f')
      /\ df_ok f' /\ df_data f' = df_data f /\ df_abs f' = df_abs f;
  df_write f off bs : df_ok f -> (32 | off) -> 0 <= off <= Z.of_nat (length (df_data f)) -> off + 32 < 2 ^ 32 ->
    length bs = 32%nat -> Forall byte bs ->
    (exists f', df_write_at off bs f = Some (Ok 32, f')
       /\ df_ok f' /\ df_data f' = splice (df_data f) off bs /\ df_abs f' = df_abs f)
    \/ (off = Z.of_nat (length (df_data f)) /\ df_write_at off bs f = Some (Err ENOSPC, f));
}.

(** ** Records *)
Section Records.
Context `{Nom} `{!NomSpec}.

Fixpoint recs_n (n : nat) (bs : list Z) : list DirEntryData :=
  match n with
  | O => []
  | S n => match parse (take 32 bs) with Ok (_, r) => r :: recs_n n (drop 32 bs) | _ => [] end
  end.
Definition recs (bs : list Z) : list DirEntryData := recs_n (length bs / 32) bs.

Definition aligned (bs : list Z) : Prop := (32 | Z.of_nat (length bs)) /\ Forall byte bs.

Lemma aligned_nil : aligned [].
Proof. split; [apply Z.divide_0_r|by apply Forall_nil]. Qed.
Lemma aligned_app a b : aligned a -> aligned b -> aligned (a ++ b).
Proof. intros [Ha Hab] [Hb Hbb]. split; [|by apply Forall_app_2]. rewrite length_app, Nat2Z.inj_add. by apply Z.divide_add_r. Qed.
Lemma aligned_cut bs (i : nat) : aligned bs -> (32 * i <= length bs)%nat -> aligned (take (32 * i) bs) /\ aligned (drop (32 * i) bs).
Proof.
  intros [[k Hk] Hb] Hi. split; (split; [|by first [apply Forall_take|apply Forall_drop]]).
  - exists (Z.of_nat i). rewrite length_take. lia.
  - exists (k - Z.of_nat i). rewrite length_drop. lia.
Qed.

Lemma parse_record x : length x = 32%nat -> Forall byte x -> exists r, parse x = Ok ([], r) /\ entry_wf r.
Proof.
  intros Hl Hb. destruct (parse_total x [] Hl Hb) as (r & E & _). rewrite app_nil_r in E. exists r. split; [done|by apply (parse_wf x)].
Qed.

Lemma recs_cons x bs r : length x = 32%nat -> parse x = Ok ([], r) -> recs (x ++ bs) = r :: recs bs.
Proof.
  intros Hx Hr. unfold recs. rewrite length_app, Hx. replace (32 + length bs)%nat with (1 * 32 + length bs)%nat by lia.
  rewrite Nat.div_add_l by lia. cbn [Nat.add recs_n]. by rewrite take_app_length', drop_app_length', Hr by done.
Qed.

(** A list of records, as bytes. *)
Lemma aligned_ind (P : list Z -> Prop) :
  P [] ->
  (forall x bs r, length x = 32%nat -> Forall byte x -> parse x = Ok ([], r) -> entry_wf r -> aligned bs -> P bs -> P (x ++ bs)) ->
  forall bs, aligned bs -> P bs.
Proof.
  intros H0' HS bs. remember (length bs) as n eqn:En. revert bs En. induction n as [n IH] using lt_wf_ind. intros bs -> Ha.
  destruct (decide (bs = [])) as [->|Hne]; [done|].
  assert (Hl : (32 * 1 <= length bs)%nat) by (destruct Ha as [[k Hk] _]; destruct bs; [done|]; cbn [length] in *; lia).
  destruct (aligned_cut bs 1 Ha Hl) as [[_ Hx] Hd]. change (32 * 1)%nat with 32%nat in *.
  assert (Hx' : length (take 32 bs) = 32%nat) by (rewrite length_take; lia).
  destruct (parse_record _ Hx' Hx) as (r & Hr & Hw). rewrite <- (take_drop 32 bs).
  apply (HS _ _ r); try done. apply (IH (length (drop 32 bs))); [rewrite length_drop; lia|done|done].
Qed.

Lemma length_recs bs : aligned bs -> length bs = (32 * length (recs bs))%nat.
Proof.
  revert bs. apply aligned_ind; [done|]. intros x bs r Hx _ Hr _ _ IH. rewrite (recs_cons x bs r), length_app by done. cbn [length]. lia.
Qed.
Lemma recs_wf bs : aligned bs -> Forall entry_wf (recs bs).
Proof.
  revert bs. apply aligned_ind; [by apply Forall_nil|]. intros x bs r Hx _ Hr Hw _ IH. rewrite (recs_cons x bs r) by done. by apply Forall_cons_2.
Qed.
Lemma recs_app a b : aligned a -> recs (a ++ b) = recs a ++ recs b.
Proof.
  revert a. apply aligned_ind; [done|]. intros x bs r Hx _ Hr _ _ IH. by rewrite <- app_assoc, !(recs_cons x _ r), IH by done.
Qed.
Lemma recs_take_drop bs (i : nat) : aligned bs -> (i <= length (recs bs))%nat ->
  recs (take (32 * i) bs) = take i (recs bs) /\ recs (drop (32 * i) bs) = drop i (recs bs).
Proof.
  intros Ha Hi. pose proof (length_recs bs Ha) as Hl. destruct (aligned_cut bs i Ha ltac:(lia)) as [H1' H2'].
  pose proof (length_recs _ H1') as Hl1. rewrite length_take in Hl1.
  assert (E : recs bs = recs (take (32 * i) bs) ++ recs (drop (32 * i) bs)) by (by rewrite <- recs_app, take_drop by done). rewrite E.
  rewrite take_app_length', drop_app_length' by lia. done.
Qed.

Lemma recs_head bs r rs : aligned bs -> recs bs = r :: rs -> parse (take 32 bs) = Ok ([], r) /\ length (take 32 bs) = 32%nat.
Proof.
  intros Ha. revert bs Ha r rs. apply (aligned_ind (fun bs => forall r rs, recs bs = r :: rs -> _)); [done|].
  intros x l r' Hx _ Hr _ _ _ r rs. rewrite (recs_cons x l r') by done. intros [= -> _]. by rewrite take_app_length'.
Qed.

Lemma recs_slice bs (i : nat) : aligned bs ->
  match recs bs !! i with
  | Some r => parse (slice_at bs (32 * Z.of_nat i) 32) = Ok ([], r) /\ length (slice_at bs (32 * Z.of_nat i) 32) = 32%nat
  | None => slice_at bs (32 * Z.of_nat i) 32 = []
  end.
Proof.
  intros Ha. unfold slice_at. change (Z.to_nat 32) with 32%nat. replace (Z.to_nat (32 * Z.of_nat i)) with (32 * i)%nat by lia.
  destruct (recs bs !! i) as [r|] eqn:E.
  - pose proof (lookup_lt_Some _ _ _ E) as Hi. pose proof (length_recs bs Ha) as Hl.
    destruct (recs_take_drop bs i Ha ltac:(lia)) as [_ Ed]. destruct (aligned_cut bs i Ha ltac:(lia)) as [_ Hd].
    rewrite (drop_S _ _ _ E) in Ed. by apply (recs_head _ r (drop (S i) (recs bs))).
  - apply lookup_ge_None in E. rewrite drop_ge; [done|]. rewrite (length_recs bs Ha). lia.
Qed.

(** Writing one record. *)
Lemma recs_splice bs (i : nat) x r : aligned bs -> (i <= length (recs bs))%nat -> length x = 32%nat -> Forall byte x -> parse x = Ok ([], r) ->
  aligned (splice bs (32 * Z.of_nat i) x) /\ recs (splice bs (32 * Z.of_nat i) x) = take i (recs bs) ++ r :: drop (S i) (recs bs).
Proof.
  intros Ha Hi Hx Hxb Hr. unfold splice. replace (Z.to_nat (32 * Z.of_nat i)) with (32 * i)%nat by lia. rewrite Hx.
  pose proof (length_recs bs Ha) as Hl. destruct (aligned_cut bs i Ha ltac:(lia)) as [Ht Hd].
  destruct (recs_take_drop bs i Ha Hi) as [Et _]. replace (32 * i + 32)%nat with (32 * S i)%nat by lia.
  destruct (decide (i = length (recs bs))) as [->|Hne].
  - rewrite !drop_ge by lia. rewrite !app_nil_r. rewrite recs_app, Et by done.
    rewrite <- (app_nil_r x), (recs_cons x [] r) by done. split; [|done]. rewrite app_nil_r. apply aligned_app; [done|].
    split; [exists 1; lia|done].
  - destruct (aligned_cut bs (S i) Ha ltac:(lia)) as [_ Hd']. destruct (recs_take_drop bs (S i) Ha ltac:(lia)) as [_ Ed].
    rewrite recs_app, Et, (recs_cons x _ r), Ed by done. split; [|done]. apply aligned_app; [done|]. apply aligned_app; [|done].
    split; [exists 1; lia|done].
Qed.
End Records.

(** ** The list of entries *)
Section Listing.
Context {F : Type} `{DirFile F} `{!DirSpec F} `{Nom} `{!NomSpec} `{Unicode}.
Implicit Types (f : F) (b : FName.LongNameBuilder) (l : list DirEntryData).

Definition dir_recs f : list DirEntryData := recs (df_data f).

(** The entries of the records [l] from the position [off] on: the parts of a long
    name since [begin] are in [b]. *)
Fixpoint entries (abs : Z) (skip_volume : bool) b (off begin : Z) l : list DirEntry :=
  match l with
  | [] => []
  | r :: l =>
      if is_end r then []
      else if should_skip_entry r skip_volume then entries abs skip_volume (FName.clear b) (off + 32) (off + 32) l
      else match r with
           | File e =>
               mk_dirent e (ShortName_new (name e)) (FName.into_buf (FName.validate_chksum b (name e))) (abs + off) (begin, off + 32)
                 :: entries abs skip_volume FName.builder_new (off + 32) (off + 32) l
           | Lfn n => match FName.process b n with Ok b => entries abs skip_volume b (off + 32) begin l | _ => [] end
           end
  end.
Definition dir_entries f : list DirEntry := entries (df_abs f) true FName.builder_new 0 0 (dir_recs f).

Definition kept f f' : Prop := df_ok f' /\ df_data f' = df_data f /\ df_abs f' = df_abs f.
Lemma kept_trans f f1 f2 : kept f f1 -> kept f1 f2 -> kept f f2.
Proof. intros (? & E1 & E2) (? & E3 & E4). split; [done|]. split; congruence. Qed.

Lemma ok_aligned f : df_ok f -> aligned (df_data f).
Proof. intros Hf. destruct (df_shape f Hf) as (? & _ & ?). by split. Qed.
Lemma recs_bound f : df_ok f -> 32 * Z.of_nat (length (dir_recs f)) < 2 ^ 32
  /\ Z.of_nat (length (df_data f)) = 32 * Z.of_nat (length (dir_recs f)).
Proof.
  intros Hf. destruct (df_shape f Hf) as (_ & Hl & _). pose proof (length_recs _ (ok_aligned f Hf)). unfold dir_recs. lia.
Qed.

(** *** Reading *)
Lemma read_slot f (i : nat) : df_ok f -> (i <= length (dir_recs f))%nat ->
  exists f', kept f f' /\ df_read_at (32 * Z.of_nat i) 32 f = Some (Ok (slice_at (df_data f) (32 * Z.of_nat i) 32), f').
Proof.
  intros Hf Hi. destruct (recs_bound f Hf) as [_ Hl].
  destruct (df_read f (32 * Z.of_nat i) Hf) as (f' & E & Hk); [by exists (Z.of_nat i); lia|lia|]. by exists f'.
Qed.

Lemma read_exact_slot fuel f (i : nat) : df_ok f -> (i <= length (dir_recs f))%nat -> (2 <= fuel)%nat ->
  exists f', kept f f' /\ read_exact_at fuel (32 * Z.of_nat i) 32 [] f =
    Some (if decide (i < length (dir_recs f))%nat then Ok (slice_at (df_data f) (32 * Z.of_nat i) 32) else Err EIO, f').
Proof.
  intros Hf Hi Hfu. destruct (read_slot f i Hf Hi) as (f' & Hk & E). destruct fuel as [|[|fuel]]; [lia|lia|].
  exists f'. split; [done|]. cbn [read_exact_at]. change (32 =? 0) with false. cbv beta iota. rewrite E.
  pose proof (recs_slice (df_data f) i (ok_aligned f Hf)) as Hs. fold (dir_recs f) in Hs. unfold Umio.len.
  case_decide as Hlt.
  - destruct (lookup_lt_is_Some_2 _ _ Hlt) as [r Hr]. rewrite Hr in Hs. destruct Hs as [_ Hs]. rewrite Hs.
    change (Z.of_nat 32) with 32. by destruct fuel.
  - rewrite lookup_ge_None_2 in Hs by lia. by rewrite Hs.
Qed.

(** Reading the record number [i]. *)
Lemma read_parsed fuel f (i : nat) {A} (k : option DirEntryData -> PT F Error A) :
  df_ok f -> (i <= length (dir_recs f))%nat -> (2 <= fuel)%nat ->
  exists f', kept f f' /\
    (buf ← read_record fuel (32 * Z.of_nat i);
     match buf with
     | None => k None
     | Some buf => '(_, raw_entry) ← nom_question (parse buf); k (Some raw_entry)
     end) f = k (dir_recs f !! i) f'.
Proof.
  intros Hf Hi Hfu. destruct (read_exact_slot fuel f i Hf Hi Hfu) as (f' & Hk & E). exists f'. split; [done|].
  pose proof (recs_slice (df_data f) i (ok_aligned f Hf)) as Hs. fold (dir_recs f) in Hs.
  case_decide as Hlt.
  - destruct (lookup_lt_is_Some_2 _ _ Hlt) as [r Hr]. rewrite Hr in *. destruct Hs as [Hs _].
    erewrite PT_bind_Ok; [|unfold read_record, DIR_ENTRY_SIZE; rewrite E; reflexivity]. cbv beta iota.
    erewrite PT_bind_Ok; [|unfold nom_question; rewrite Hs; reflexivity]. done.
  - rewrite lookup_ge_None_2 by lia. erewrite PT_bind_Ok; [|unfold read_record, DIR_ENTRY_SIZE; rewrite E; reflexivity]. done.
Qed.
(** *** Going through a directory *)
Lemma entries_next abs sv l : forall b off begin e tl, entries abs sv b off begin l = e :: tl ->
  exists j : nat, (j < length l)%nat /\ entry_pos e = abs + (off + 32 * Z.of_nat j)
    /\ tl = entries abs sv FName.builder_new (off + 32 * Z.of_nat (S j)) (off + 32 * Z.of_nat (S j)) (drop (S j) l).
Proof.
  induction l as [|r l IH]; intros b off begin e tl; [done|]. cbn [entries length].
  assert (Hstep : forall b begin, entries abs sv b (off + 32) begin l = e :: tl ->
    exists j : nat, (j < S (length l))%nat /\ entry_pos e = abs + (off + 32 * Z.of_nat j)
      /\ tl = entries abs sv FName.builder_new (off + 32 * Z.of_nat (S j)) (off + 32 * Z.of_nat (S j)) (drop (S j) (r :: l))).
  { intros b' begin' E. destruct (IH _ _ _ _ _ E) as (j & Hj & Ep & Et). exists (S j). split; [lia|]. split; [lia|].
    cbn [drop]. rewrite Et. replace (off + 32 + 32 * Z.of_nat (S j)) with (off + 32 * Z.of_nat (S (S j))) by lia. done. }
  destruct (is_end r); [done|]. destruct (should_skip_entry r sv); [apply Hstep|]. destruct r as [d|n].
  - intros [= <- <-]. exists 0%nat. split; [lia|]. split; [simpl; lia|]. done.
  - destruct (FName.process b n); [apply Hstep|done|done].
Qed.

Lemma lfn_units n : lfn_wf n -> length (copy_name_to_slice n) = 13%nat.
Proof. intros [_ [H0' _] [H1' _] [H2' _] _]. unfold copy_name_to_slice. rewrite !length_app. lia. Qed.
Lemma clear_ok b : builder_ok b -> builder_ok (FName.clear b).
Proof. intros _. split; [by left|simpl; lia]. Qed.
Lemma new_ok : builder_ok FName.builder_new.
Proof. split; [by left|simpl; lia]. Qed.

(** What [next_loop] does with the record it has read. *)
Definition next_step (fuel : nat) abs sv b off begin (raw : option DirEntryData) : PT F Error (option DirEntry) :=
  match raw with
  | None => mret None
  | Some raw_entry =>
      let next := wadd 64 off DIR_ENTRY_SIZE in
      if is_end raw_entry then mret None
      else if should_skip_entry raw_entry sv then next_loop fuel abs sv (FName.clear b) next next
      else match raw_entry with
           | File data =>
               mret (Some (mk_dirent data (ShortName_new (name data)) (FName.into_buf (FName.validate_chksum b (name data)))
                             (wadd 64 abs off) (begin, next)))
           | Lfn lfn => b ← nom_question (FName.process b lfn); next_loop fuel abs sv b next begin
           end
  end.

Lemma next_loop_spec sv l : forall fuel f b (i : nat) begin,
  df_ok f -> builder_ok b -> (i <= length (dir_recs f))%nat -> drop i (dir_recs f) = l -> (length l + 2 <= fuel)%nat ->
  exists f', kept f f'
    /\ next_loop fuel (df_abs f) sv b (32 * Z.of_nat i) begin f = Some (Ok (head (entries (df_abs f) sv b (32 * Z.of_nat i) begin l)), f').
Proof.
  induction l as [|r l IH]; intros fuel f b i begin Hf Hb Hi Hd Hfu; (destruct fuel as [|fuel]; [simpl in Hfu; lia|]);
    (destruct (read_parsed (S fuel) f i (next_step fuel (df_abs f) sv b (32 * Z.of_nat i) begin) Hf Hi) as (f' & Hk & E); [lia|]);
    (assert (E' : next_loop (S fuel) (df_abs f) sv b (32 * Z.of_nat i) begin f =
       next_step fuel (df_abs f) sv b (32 * Z.of_nat i) begin (dir_recs f !! i) f') by exact E); rewrite E'; clear E E'.
  { exists f'. split; [done|]. assert (dir_recs f !! i = None) as -> by (by rewrite <- (Nat.add_0_r i), <- lookup_drop, Hd). done. }
  assert (Hr : dir_recs f !! i = Some r) by (by rewrite <- (Nat.add_0_r i), <- lookup_drop, Hd). rewrite Hr.
  pose proof (lookup_lt_Some _ _ _ Hr) as Hlt. destruct (recs_bound f Hf) as [Hbd _]. destruct (df_started f Hf) as [_ Habs].
  pose proof (Forall_lookup_1 _ _ _ _ (recs_wf _ (ok_aligned f Hf)) Hr) as Hw. destruct Hk as (Hf' & Ed & Ea).
  assert (Er : dir_recs f' = dir_recs f) by (unfold dir_recs; by rewrite Ed).
  cbn [next_step entries]. unfold DIR_ENTRY_SIZE. rewrite !wadd_small by (unfold fits; lia).
  replace (32 * Z.of_nat i + 32) with (32 * Z.of_nat (S i)) by lia.
  assert (Hdl : drop (S i) (dir_recs f') = l) by (rewrite Er; rewrite (drop_S _ _ _ Hr) in Hd; congruence).
  cbn [length] in Hfu.
  assert (Hgo : forall b begin, builder_ok b -> exists f2, kept f f2 /\ next_loop fuel (df_abs f) sv b (32 * Z.of_nat (S i)) begin f' =
    Some (Ok (head (entries (df_abs f) sv b (32 * Z.of_nat (S i)) begin l)), f2)).
  { intros b' begin' Hb'. destruct (IH fuel f' b' (S i) begin' Hf' Hb') as (f2 & Hk2 & E2); [rewrite Er; lia|done|lia|].
    exists f2. rewrite Ea in E2. split; [|exact E2]. by apply (kept_trans f f'). }
  destruct (is_end r); [by exists f'|]. destruct (should_skip_entry r sv); [by apply Hgo, clear_ok|]. destruct r as [d|n]; [by exists f'|].
  destruct (process_ok b n Hb (lfn_units n Hw)) as (b' & Ep & Hb'). rewrite Ep.
  destruct (Hgo b' begin Hb') as (f2 & Hk2 & E2). exists f2. split; [done|].
  rewrite (PT_bind_Ok _ _ _ b' f') by done. exact E2.
Qed.

(** The call with the position of the entry before; at first there is none. *)
Definition last_of f (i : nat) : option Z := if decide (i = 0%nat) then None else Some (df_abs f + (32 * Z.of_nat i - 32)).

Lemma next_dirent_spec fuel f (i : nat) sv :
  df_ok f -> (i <= length (dir_recs f))%nat -> (length (dir_recs f) - i + 2 <= fuel)%nat ->
  exists f', kept f f' /\ next_dirent fuel (last_of f i) sv f =
    Some (Ok (head (entries (df_abs f) sv FName.builder_new (32 * Z.of_nat i) (32 * Z.of_nat i) (drop i (dir_recs f)))), f').
Proof.
  intros Hf Hi Hfu. destruct (df_started f Hf) as [Es Habs]. destruct (recs_bound f Hf) as [Hbd _].
  destruct (next_loop_spec sv (drop i (dir_recs f)) fuel f FName.builder_new i (32 * Z.of_nat i) Hf new_ok Hi eq_refl) as (f' & Hk & E).
  { rewrite length_drop. lia. }
  exists f'. split; [done|]. unfold next_dirent. rewrite (PT_bind_Ok _ _ _ (df_abs f) f) by (by rewrite Es).
  rewrite <- E. unfold last_of. case_decide as Hz; [by subst|]. cbv iota.
  rewrite wsub_small, wadd_small by (unfold fits, DIR_ENTRY_SIZE; lia). unfold DIR_ENTRY_SIZE.
  replace (df_abs f + (32 * Z.of_nat i - 32) - df_abs f + 32) with (32 * Z.of_nat i) by lia. done.
Qed.
(** The entries from the record number [i] on. *)
Definition rest f (i : nat) : list DirEntry :=
  entries (df_abs f) true FName.builder_new (32 * Z.of_nat i) (32 * Z.of_nat i) (drop i (dir_recs f)).
Lemma rest_kept f f' i : kept f f' -> rest f' i = rest f i /\ dir_recs f' = dir_recs f.
Proof. intros (_ & Ed & Ea). unfold rest, dir_recs. by rewrite Ed, Ea. Qed.

Lemma next_entry fuel f (i : nat) :
  df_ok f -> (i <= length (dir_recs f))%nat -> (length (dir_recs f) - i + 2 <= fuel)%nat ->
  exists f', kept f f' /\ next_dirent fuel (last_of f i) true f = Some (Ok (head (rest f i)), f')
    /\ forall e tl, rest f i = e :: tl -> exists j : nat,
        (i < j <= length (dir_recs f'))%nat /\ Some (entry_pos e) = last_of f' j /\ tl = rest f' j.
Proof.
  intros Hf Hi Hfu. destruct (next_dirent_spec fuel f i true Hf Hi Hfu) as (f' & Hk & E). exists f'. split; [done|]. split; [done|].
  intros e tl Ee. unfold rest in Ee. apply entries_next in Ee as (j & Hj & Ep & Et). rewrite length_drop in Hj.
  exists (S (i + j)). rewrite (proj1 (rest_kept f f' _ Hk)), (proj2 (rest_kept f f' 0 Hk)). split; [lia|]. split.
  - unfold last_of. case_decide; [lia|]. destruct Hk as (_ & _ & ->). f_equal. lia.
  - rewrite Et, drop_drop. unfold rest. replace (i + S j)%nat with (S (i + j)) by lia.
    replace (32 * Z.of_nat i + 32 * Z.of_nat (S j)) with (32 * Z.of_nat (S (i + j))) by lia. done.
Qed.

(** The position of the entry before the one with the number [k]. *)
Lemma entries_from f (k : nat) : df_ok f -> (k <= length (dir_entries f))%nat ->
  exists i : nat, (i <= length (dir_recs f))%nat /\ rest f i = drop k (dir_entries f)
    /\ last_of f i = match k with O => None | S k => entry_pos <$> dir_entries f !! k end.
Proof.
  intros Hf. induction k as [|k IH]; intros Hk.
  { exists 0%nat. split; [lia|]. unfold rest, dir_entries. rewrite !drop_0. by split. }
  destruct IH as (i & Hi & Er & _); [lia|]. destruct (lookup_lt_is_Some_2 (dir_entries f) k ltac:(lia)) as [e He].
  rewrite (drop_S _ _ _ He) in Er. destruct (next_entry _ f i Hf Hi (le_n _)) as (f' & Hk' & _ & Hnext).
  destruct (Hnext _ _ Er) as (j & Hj & El & Et). destruct (rest_kept f f' j Hk') as [Ej Erec]. rewrite Erec in Hj.
  exists j. split; [lia|]. split; [congruence|]. rewrite He. cbn [fmap option_fmap option_map]. rewrite El.
  unfold last_of. by destruct Hk' as (_ & _ & ->).
Qed.

(** Going through a directory, each call with the position of the entry the
    last one returned, gives the entries of the directory one after the other, and
    nothing at the end; the directory stays as it is. *)
Theorem next_dirent_lists fuel f (k : nat) :
  df_ok f -> (k <= length (dir_entries f))%nat -> (length (dir_recs f) + 2 <= fuel)%nat ->
  exists f', kept f f' /\
    next_dirent fuel (match k with O => None | S k => entry_pos <$> dir_entries f !! k end) true f = Some (Ok (dir_entries f !! k), f').
Proof.
  intros Hf Hk Hfu. destruct (entries_from f k Hf Hk) as (i & Hi & Er & <-).
  destruct (next_entry fuel f i Hf Hi ltac:(lia)) as (f' & Hk' & E & _). exists f'. split; [done|]. rewrite E, Er.
  by rewrite head_lookup, lookup_drop, Nat.add_0_r.
Qed.

(** *** Searching *)
Definition found (nm : list Z) (es : list DirEntry) : option DirEntry := List.find (fun e => eq_name e nm) es.
Definition raw_name (e : DirEntry) : list Z := name (de_data e).
Definition judged (want_dir : option bool) (o : option DirEntry) : res Error DirEntry :=
  match o with Some e => if wrong_kind e want_dir then Err (kind_error e) else Ok e | None => Err ENOENT end.

Lemma search_loop_spec nm want fuel : forall f gen (i : nat),
  df_ok f -> (i <= length (dir_recs f))%nat -> (length (dir_recs f) - i + 2 <= fuel)%nat ->
  exists f' gen', kept f f' /\ find_loop fuel nm want gen (last_of f i) f = Some (judged want (found nm (rest f i)), gen', f')
    /\ (found nm (rest f i) = None -> gen' = (fun g => foldl FShort.add_existing g (raw_name <$> rest f i)) <$> gen).
Proof.
  induction fuel as [|fuel IH]; intros f gen i Hf Hi Hfu; [lia|].
  destruct (next_entry (S fuel) f i Hf Hi Hfu) as (f1 & Hk1 & E1 & Hnext). cbn [find_loop]. rewrite E1.
  destruct (rest f i) as [|e tl] eqn:Er; cbn [head].
  { exists f1, gen. split; [done|]. split; [done|]. intros _. by destruct gen. }
  destruct (Hnext e tl eq_refl) as (j & Hj & Hl & Ht). unfold found. cbn [List.find]. destruct (eq_name e nm); [by exists f1, gen|].
  rewrite Hl. destruct (IH f1 ((fun g => FShort.add_existing g (raw_name e)) <$> gen) j) as (f2 & gen2 & Hk2 & E2 & Hg); [apply Hk1|lia| |].
  { rewrite (proj2 (rest_kept f f1 0 Hk1)) in *. lia. }
  exists f2, gen2. split; [by apply (kept_trans f f1)|]. rewrite Ht. split; [exact E2|]. intros Hn. rewrite (Hg Hn). by destruct gen.
Qed.

Lemma rest_0 f : rest f 0 = dir_entries f /\ last_of f 0 = None.
Proof. unfold rest, dir_entries. by rewrite drop_0. Qed.

Lemma find_all fuel nm want gen f : df_ok f -> (length (dir_recs f) + 2 <= fuel)%nat ->
  exists f' gen', kept f f' /\ find_loop fuel nm want gen None f = Some (judged want (found nm (dir_entries f)), gen', f')
    /\ (found nm (dir_entries f) = None -> gen' = (fun g => foldl FShort.add_existing g (raw_name <$> dir_entries f)) <$> gen).
Proof.
  intros Hf Hfu. destruct (search_loop_spec nm want fuel f gen 0 Hf) as (f' & gen' & Hk & E & Hg); [lia|lia|].
  destruct (rest_0 f) as [E0 El]. rewrite El, E0 in *. by exists f', gen'.
Qed.

Lemma find_entry_first fuel nm want f : df_ok f -> (length (dir_recs f) + 2 <= fuel)%nat ->
  exists f', kept f f' /\ find_entry fuel nm want f = Some (judged want (found nm (dir_entries f)), f').
Proof.
  intros Hf Hfu. destruct (find_all fuel nm want None f Hf Hfu) as (f' & gen' & Hk & E & _). exists f'. split; [done|].
  unfold find_entry. by rewrite E.
Qed.
(** *** A free short name *)
(** The checksums of the rounds before are all taken, by different names. *)
Record tried (g0 : FShort.ShortNameGenerator) (sns : list (list Z)) (k : nat) (g : FShort.ShortNameGenerator) (used : list (list Z)) : Prop := {
  tr_gen : gen_ok g /\ FShort.prefix_chksum_bitmap g = 0 /\ FShort.basename_len g = FShort.basename_len g0;
  tr_ck : FShort.chksum g = (FShort.chksum g0 + Z.of_nat k) mod 2 ^ 16;
  tr_used : length used = k /\ NoDup used /\ used ⊆ sns;
  tr_hex u : u ∈ used -> exists j : nat, (j < k)%nat /\ hex_of g0 u = Some ((FShort.chksum g0 + Z.of_nat j) mod 2 ^ 16);
}.

Lemma tried_next g0 sns k g used e : tried g0 sns k g used -> Z.of_nat k < 2 ^ 16 ->
  FShort.generate (foldl FShort.add_existing g sns) = Err e ->
  exists sn, tried g0 sns (S k) (FShort.next_iteration (foldl FShort.add_existing g sns)) (sn :: used).
Proof.
  intros [(Hg & Hb & Hl) Hc (Hlen & Hnd & Hsub) Hhex] Hk He. destruct (generate_fails g sns e Hb He) as (sn & Hin & Hh).
  destruct (rec_same _ _ _ (add_all_recorded sns g)) as (Ec & _ & _ & El & En). exists sn.
  assert (Hh0 : hex_of g0 sn = Some ((FShort.chksum g0 + Z.of_nat k) mod 2 ^ 16)) by (unfold hex_of in *; by rewrite <- Hl, <- Hc).
  split.
  - split; [|split; [done|simpl; congruence]]. split; [simpl; rewrite En; apply Hg|]. simpl. unfold wadd, wrap, fits. apply Z.mod_pos_bound. lia.
  - simpl. rewrite Ec, Hc. unfold wadd, wrap. rewrite Zplus_mod_idemp_l. f_equal. lia.
  - split; [by rewrite <- Hlen|]. split; [|set_solver]. apply NoDup_cons. split; [|done].
    intros (j & Hj & Hhj)%Hhex. rewrite Hh0 in Hhj. injection Hhj as Hhj.
    pose proof (proj2 Hg) as Hfit. unfold fits in Hfit. rewrite Hc in Hfit.
    Z.to_euclidean_division_equations. lia.
  - intros u [->|Hu]%elem_of_cons; [exists k; split; [lia|done]|]. destruct (Hhex u Hu) as (j & Hj & ?). exists j. split; [lia|done].
Qed.

Lemma exist_loop_spec nm want fuel g0 rounds : forall f k g used,
  df_ok f -> (length (dir_recs f) + 2 <= fuel)%nat -> found nm (dir_entries f) = None ->
  tried g0 (raw_name <$> dir_entries f) k g used -> Z.of_nat (length (dir_entries f)) < 2 ^ 16 ->
  (length (dir_entries f) < k + rounds)%nat ->
  exists f' sn, kept f f' /\ exist_loop rounds fuel nm want g f = Some (Ok (AShortName sn), f') /\ sn ∉ raw_name <$> dir_entries f.
Proof.
  induction rounds as [|rounds IH]; intros f k g used Hf Hfu Hn Ht Hl Hr.
  all: assert (Hkl : (k <= length (dir_entries f))%nat)
    by (destruct (tr_used _ _ _ _ _ Ht) as (<- & Hnd & Hsub); rewrite <- (length_fmap raw_name (dir_entries f)); apply submseteq_length, NoDup_submseteq; done).
  { lia. }
  destruct (find_all fuel nm want (Some g) f Hf Hfu) as (f1 & gen' & Hk1 & E1 & Hg). specialize (Hg Hn). cbn [exist_loop].
  rewrite E1, Hn, Hg. cbn [judged]. rewrite bool_decide_eq_true_2 by done. cbn [fmap option_fmap option_map default].
  destruct (FShort.generate _) as [sn|e|] eqn:Eg.
  - exists f1, sn. split; [done|]. split; [done|]. apply (generate_fresh g); [apply Ht|exact Eg].
  - destruct (tried_next _ _ _ _ _ _ Ht ltac:(lia) Eg) as (sn & Ht').
    destruct (rest_kept f f1 0 Hk1) as [Ee Er]. destruct (rest_0 f) as [E0 _]. destruct (rest_0 f1) as [E0' _]. rewrite E0, E0' in Ee.
    destruct (IH f1 (S k) (FShort.next_iteration (foldl FShort.add_existing g (raw_name <$> dir_entries f))) (sn :: used)) as (f2 & sn2 & Hk2 & E2 & Hf2); rewrite ?Ee, ?Er; try done; [apply Hk1|lia|].
    exists f2, sn2. rewrite Ee in Hf2. split; [by apply (kept_trans f f1)|]. by split.
  - unfold FShort.generate in Eg. destruct (_ && _ && _); [done|]. destruct (FShort.first_clear _ 1 4); [done|]. by destruct (FShort.first_clear _ 1 9).
Qed.
Lemma length_entries abs sv l : forall b off begin, (length (entries abs sv b off begin l) <= length l)%nat.
Proof.
  induction l as [|r l IH]; intros b off begin; [done|]. cbn [entries length].
  destruct (is_end r); [simpl; lia|]. destruct (should_skip_entry r sv); [pose proof (IH (FName.clear b) (off + 32) (off + 32)); lia|].
  destruct r as [d|n]; [cbn [length]; pose proof (IH FName.builder_new (off + 32) (off + 32)); lia|].
  destruct (FName.process b n) as [b'| |]; [pose proof (IH b' (off + 32) begin); lia|simpl; lia..].
Qed.

Lemma existence_ok fuel nm want f g : df_ok f -> FShort.sng_new nm = Ok g ->
  (length (dir_recs f) + 2 <= fuel)%nat -> Z.of_nat (length (dir_entries f)) < 2 ^ 16 ->
  exists f' r, kept f f' /\ check_for_existence fuel nm want f = Some (r, f') /\
    match found nm (dir_entries f) with
    | Some e => r = if wrong_kind e want then Err (kind_error e) else Ok (ADirEntry e)
    | None => exists sn, r = Ok (AShortName sn) /\ sn ∉ raw_name <$> dir_entries f
    end.
Proof.
  intros Hf Hg Hfu Hl. unfold check_for_existence. rewrite (PT_bind_Ok _ _ _ g f) by (unfold nom_question; by rewrite Hg).
  destruct (found nm (dir_entries f)) as [e|] eqn:Ef.
  - destruct (find_all fuel nm want (Some g) f Hf Hfu) as (f1 & gen' & Hk1 & E1 & _). rewrite Ef in E1. cbn [judged] in E1.
    destruct fuel as [|fuel]; [lia|]. exists f1. eexists. split; [done|]. split; [|done]. cbn [exist_loop]. rewrite E1.
    destruct (wrong_kind e want); [|done]. unfold kind_error. by destruct (is_dir (de_data e)).
  - pose proof (sng_new_ok nm g Hg) as Hok. pose proof (length_entries (df_abs f) true (dir_recs f) FName.builder_new 0 0) as Hle.
    destruct (exist_loop_spec nm want fuel g fuel f 0 g [] Hf Hfu Ef) as (f' & sn & Hk & E & Hn); [|done|unfold dir_entries; lia|].
    { split; [|rewrite Z.add_0_r, Z.mod_small by apply Hok; done| |].
      - split; [done|]. split; [|done]. revert Hg. unfold FShort.sng_new. repeat case_match; intros Hg; simplify_eq; done.
      - split; [done|]. split; [by apply NoDup_nil|set_solver].
      - intros u []%not_elem_of_nil. }
    exists f', (Ok (AShortName sn)). split; [done|]. split; [done|]. by exists sn.
Qed.

(** The name has a first character, and that takes one byte. *)
Definition one_byte_start (nm : list Z) : bool := match nm with c :: _ => FName.len_utf8 c =? 1 | [] => false end.
Lemma sng_new_start nm : if one_byte_start nm then exists g, FShort.sng_new nm = Ok g else FShort.sng_new nm = Panic.
Proof.
  destruct nm as [|c nm]; [done|]. cbn [one_byte_start FShort.sng_new]. destruct (FName.len_utf8 c =? 1); cbn [negb]; [|done]. repeat case_match; by eexists.
Qed.

(** C26: asking whether a name exists in a directory of fewer than 2^16 entries.  If the
    name begins with a character of one byte the question ends, after fewer rounds than
    there are entries: it returns the first entry with the name, the error when that is of
    the wrong kind, or a short name that no entry of the directory has.  If the name is
    empty or begins with a character of more bytes it panics, before the directory is
    read. *)
Theorem check_for_existence_spec fuel nm want f : df_ok f ->
  (length (dir_recs f) + 2 <= fuel)%nat -> Z.of_nat (length (dir_entries f)) < 2 ^ 16 ->
  if one_byte_start nm then
    exists f' r, kept f f' /\ check_for_existence fuel nm want f = Some (r, f') /\
      match found nm (dir_entries f) with
      | Some e => r = if wrong_kind e want then Err (kind_error e) else Ok (ADirEntry e)
      | None => exists sn, r = Ok (AShortName sn) /\ sn ∉ raw_name <$> dir_entries f
      end
  else check_for_existence fuel nm want f = Some (Panic, f).
Proof.
  intros Hf Hfu Hl. pose proof (sng_new_start nm) as Hs. destruct (one_byte_start nm); [destruct Hs as [g Hg]; by eapply existence_ok|].
  unfold check_for_existence, mbind, PT_bind. by rewrite Hs.
Qed.

Lemma empty_loop_spec fuel : forall f (i : nat),
  df_ok f -> (i <= length (dir_recs f))%nat -> (length (dir_recs f) - i + 2 <= fuel)%nat ->
  exists f', kept f f' /\ empty_loop fuel (last_of f i) f =
    Some (Ok (forallb (fun e => bool_decide (as_bytes (de_short_name e) ∈ [[46]; [46; 46]])) (rest f i)), f').
Proof.
  induction fuel as [|fuel IH]; intros f i Hf Hi Hfu; [lia|].
  destruct (next_entry (S fuel) f i Hf Hi Hfu) as (f1 & Hk1 & E1 & Hnext). cbn [empty_loop]. rewrite (PT_bind_Ok _ _ _ _ _ E1).
  destruct (rest f i) as [|e tl] eqn:Er; cbn [head forallb]; [by exists f1|].
  destruct (Hnext e tl eq_refl) as (j & Hj & Hl & Ht). set (n := as_bytes (de_short_name e)).
  assert (Eb : bool_decide (n ∈ [[46]; [46; 46]]) = negb (negb (bool_decide (n = [46])) && negb (bool_decide (n = [46; 46])))).
  { apply eq_true_iff_eq. rewrite bool_decide_eq_true, negb_true_iff, andb_false_iff, !negb_false_iff, !bool_decide_eq_true.
    rewrite elem_of_cons, list_elem_of_singleton. done. }
  rewrite Eb. destruct (negb (bool_decide (n = [46])) && negb (bool_decide (n = [46; 46]))); cbn [negb andb]; [by exists f1|].
  rewrite Hl, Ht. destruct (IH f1 j) as (f2 & Hk2 & E2); [apply Hk1|lia|rewrite (proj2 (rest_kept f f1 0 Hk1)) in *; lia|].
  exists f2. split; [by apply (kept_trans f f1)|done].
Qed.

Lemma is_empty_listed fuel f : df_ok f -> (length (dir_recs f) + 2 <= fuel)%nat ->
  exists f', kept f f' /\ is_empty fuel f =
    Some (Ok (forallb (fun e => bool_decide (as_bytes (de_short_name e) ∈ [[46]; [46; 46]])) (dir_entries f)), f').
Proof.
  intros Hf Hfu. destruct (empty_loop_spec fuel f 0 Hf) as (f' & Hk & E); [lia|lia|].
  destruct (rest_0 f) as [E0 El]. rewrite El, E0 in E. by exists f'.
Qed.
End Listing.
