(* ===== verification/FatDirWrite.v ===== *)
(** * afat32: adding entries to a directory and removing them

    A new entry is written over a run of deleted records or at the end: the list of
    entries gets it at that place and keeps all others, and it is found again by its
    name.  Deleting an entry takes it, and nothing else, off the list. *)

From S2P Require Import Prelude Ksc Bytes Umio Umifs FatRaw FatDirent FatName FatShort FatDir FatDirSpec.
Import Errno FDirent FDir.

(** ** Lists of entries *)
Definition ended (l : list DirEntryData) : Prop := match l with [] => True | r :: _ => is_end r = true end.
(** The records behind the end mark are end marks. *)
Definition clean (l : list DirEntryData) : Prop :=
  forall (i : nat) r, l !! i = Some r -> is_end r = true -> Forall (fun r => is_end r = true) (drop i l).

Notation live := (Forall (fun r => is_end r = false)).
Notation deleted := (Forall (fun r => is_deleted r = true)).

Lemma deleted_live l : deleted l -> live l.
Proof.
  intros Hd. eapply Forall_impl; [exact Hd|]. intros [e|n]; simpl; unfold file_is_deleted, file_is_end, lfn_is_deleted, lfn_is_end;
    intros E%Z.eqb_eq; rewrite E; done.
Qed.

Lemma entries_ended abs sv b off begin l : ended l -> entries abs sv b off begin l = [].
Proof. destruct l as [|r l]; [done|]. simpl. by intros ->. Qed.

Lemma entries_app abs sv a : forall b off begin, live a -> Forall entry_wf a -> builder_ok b ->
  exists b' begin', builder_ok b' /\ forall l,
    entries abs sv b off begin (a ++ l) = entries abs sv b off begin a ++ entries abs sv b' (off + 32 * Z.of_nat (length a)) begin' l.
Proof.
  induction a as [|r a IH]; intros b off begin Hl Hw Hb.
  { exists b, begin. split; [done|]. intros l. simpl. by rewrite Z.add_0_r. }
  apply Forall_cons in Hl as [Hr Hl]. apply Forall_cons in Hw as [Hwr Hw]. cbn [app entries length].
  replace (off + 32 * Z.of_nat (S (length a))) with (off + 32 + 32 * Z.of_nat (length a)) by lia.
  cbn beta in Hr. rewrite Hr. destruct (should_skip_entry r sv); [by apply IH, clear_ok|]. destruct r as [d|n].
  - destruct (IH FName.builder_new (off + 32) (off + 32) Hl Hw new_ok) as (b' & begin' & Hb' & E).
    exists b', begin'. split; [done|]. intros l. by rewrite E.
  - destruct (process_ok b n Hb (lfn_units n Hwr)) as (b' & -> & Hb'). by apply IH.
Qed.

(** An empty builder, whatever the checksum it had. *)
Lemma entries_blank abs sv l : forall b off begin, FName.buf b = [] -> FName.index b = 0 ->
  entries abs sv b off begin l = entries abs sv FName.builder_new off begin l.
Proof.
  induction l as [|r l IH]; intros b off begin Hbuf Hidx; [done|]. cbn [entries].
  assert (Hc : entries abs sv (FName.clear b) (off + 32) (off + 32) l = entries abs sv (FName.clear FName.builder_new) (off + 32) (off + 32) l)
    by (rewrite !(IH (FName.clear _)) by done; done).
  destruct (is_end r); [done|]. destruct (should_skip_entry r sv); [done|]. destruct r as [d|n].
  - unfold FName.validate_chksum, FName.is_empty. rewrite Hidx. change (0 =? 0) with true. cbv iota.
    unfold FName.into_buf, FName.is_empty. by rewrite Hidx, Hbuf.
  - unfold FName.process. set (idx := Z.land (order n) 0x1F). destruct ((idx =? 0) || _).
    { rewrite !(IH (FName.clear _)) by done. done. }
    destruct (negb _); rewrite Hbuf; [done|]. rewrite Hidx. cbn [FName.index FName.builder_new Z.eqb orb].
    rewrite !(IH (FName.clear _)) by done. done.
Qed.

Lemma entries_deleted abs sv del : forall b off begin l, deleted del -> del <> [] ->
  entries abs sv b off begin (del ++ l) =
  entries abs sv FName.builder_new (off + 32 * Z.of_nat (length del)) (off + 32 * Z.of_nat (length del)) l.
Proof.
  induction del as [|r del IH]; intros b off begin l Hd Hne; [done|]. pose proof (deleted_live _ Hd) as Hl.
  apply Forall_cons in Hl as [Hr _]. apply Forall_cons in Hd as [Hdr Hd]. cbn [app entries length]. cbn beta in *.
  assert (Hs : should_skip_entry r sv = true) by (unfold should_skip_entry; by rewrite Hdr). rewrite Hr, Hs.
  destruct del as [|r2 del]; [cbn [app length]; rewrite entries_blank by done; done|].
  rewrite IH by done. by replace (off + 32 * Z.of_nat (S (length (r2 :: del)))) with (off + 32 + 32 * Z.of_nat (length (r2 :: del))) by lia.
Qed.

Lemma entries_none abs sv b off begin del tl : deleted del -> ended tl -> entries abs sv b off begin (del ++ tl) = [].
Proof.
  intros Hd Ht. destruct (decide (del = [])) as [->|Hne]; [by apply entries_ended|]. rewrite entries_deleted by done. by apply entries_ended.
Qed.

(** The parts of a long name. *)
Definition part_ok (n : DirLfnEntryData) : Prop :=
  lfn_wf n /\ lfn_is_end n = false /\ lfn_is_deleted n = false /\ length (lfn_to_bytes n) = 32%nat /\ Forall byte (lfn_to_bytes n).

Lemma entries_parts abs sv es : forall b b' off begin l, Forall part_ok es -> process_all es b = Ok b' ->
  entries abs sv b off begin ((Lfn <$> es) ++ l) = entries abs sv b' (off + 32 * Z.of_nat (length es)) begin l.
Proof.
  induction es as [|n es IH]; intros b b' off begin l Hp; cbn [process_all].
  { intros [= ->]. simpl. by rewrite Z.add_0_r. }
  apply Forall_cons in Hp as [(Hw & He & Hd & _) Hp]. cbn [fmap list_fmap app entries length is_end].
  assert (Hs : should_skip_entry (Lfn n) sv = false) by (unfold should_skip_entry; simpl; by rewrite Hd). rewrite He, Hs.
  destruct (FName.process b n) as [b1| |]; [|done|done]. rewrite bind_Ok. intros E.
  rewrite (IH _ _ _ _ _ Hp E). f_equal. lia.
Qed.
Lemma entries_only_parts abs sv es : forall b off begin, Forall part_ok es -> builder_ok b -> entries abs sv b off begin (Lfn <$> es) = [].
Proof.
  induction es as [|n es IH]; intros b off begin Hp Hb; [done|].
  apply Forall_cons in Hp as [(Hw & He & Hd & _) Hp]. cbn [fmap list_fmap entries is_end].
  assert (Hs : should_skip_entry (Lfn n) sv = false) by (unfold should_skip_entry; simpl; by rewrite Hd). rewrite He, Hs.
  destruct (process_ok b n Hb (lfn_units n Hw)) as (b' & -> & Hb'). by apply IH.
Qed.

(** ** The records of a new entry *)
Lemma order_byte m : 1 <= m <= 20 ->
  let o := wrap 8 m in byte o /\ o <> 0 /\ o <> 0xE5 /\ byte (Z.lor o 0x40) /\ Z.lor o 0x40 <> 0 /\ Z.lor o 0x40 <> 0xE5.
Proof.
  intros Hm. assert (Hin : m ∈ seqZ 1 20) by (apply elem_of_seqZ; lia). clear Hm. revert m Hin. apply Forall_forall.
  apply (bool_decide_unpack (Forall _ _)). vm_compute. exact I.
Qed.

Lemma chunks_all {P : Z -> Prop} fuel n l : Forall P l -> Forall (Forall P) (FName.chunks_loop fuel n l).
Proof.
  revert l. induction fuel as [|fuel IH]; intros [|x l] Hl; try by apply Forall_nil. cbn [FName.chunks_loop].
  apply Forall_cons_2; [by apply Forall_take|]. by apply IH, Forall_drop.
Qed.

Lemma length_words ws : length (mjoin (le_bytes 2 <$> ws)) = (2 * length ws)%nat /\ Forall byte (mjoin (le_bytes 2 <$> ws)).
Proof. split; [apply length_join2|]. apply Forall_join, Forall_fmap, Forall_true. intros w. apply le_bytes_byte. Qed.

Lemma lfn_entry_ok ck i num p : byte ck -> 0 <= i -> 1 <= num - i <= 20 -> (length p <= 13)%nat -> Forall (fits 16) p ->
  part_ok (lfn_entry ck i num p).
Proof.
  intros Hck Hi Hm Hp Hf. destruct (order_byte (num - i) Hm) as (Ho & Hz & He & Ho' & Hz' & He').
  destruct (lfn_part_eq p Hp) as (tl & E & Htl & Hl & _).
  assert (Hfp : Forall (fits 16) (FName.lfn_part p)).
  { rewrite E. apply Forall_app_2; [done|]. eapply Forall_impl; [exact Htl|]. by intros c [->| ->]. }
  unfold lfn_entry. set (o := if i =? 0 then _ else _).
  assert (Hbo : byte o /\ o <> 0 /\ o <> 0xE5) by (unfold o; by destruct (i =? 0)). destruct Hbo as (Hb & Hn0 & Hne). clearbody o.
  set (q := FName.lfn_part p) in *. clearbody q. clear E.
  assert (Hs : forall a n, length (slice_at q a n) = (Z.to_nat n `min` (13 - Z.to_nat a))%nat /\ Forall (fits 16) (slice_at q a n)).
  { intros a n. unfold slice_at. rewrite length_take, length_drop, Hl. split; [done|]. by apply Forall_take, Forall_drop. }
  split; [|split; [|split]].
  - split; cbn [lfn_attrs name_0 name_1 name_2 lfn_reserved_0 copy_name_from_slice lfn_new]; try done; apply Hs.
  - by apply Z.eqb_neq.
  - by apply Z.eqb_neq.
  - unfold lfn_to_bytes. cbn [order lfn_attrs entry_type checksum name_0 name_1 name_2 lfn_reserved_0 copy_name_from_slice lfn_new].
    rewrite !length_app, !length_join2, length_le_bytes, !(proj1 (Hs _ _)). split; [done|].
    rewrite !Forall_app. split_and!; try apply length_words; try apply le_bytes_byte;
      by repeat first [apply Forall_nil_2 | apply Forall_cons_2].
Qed.

Lemma lfn_entries_ok ck num parts : byte ck -> forall i, 0 <= i -> num = i + Z.of_nat (length parts) -> num <= 20 ->
  Forall (fun p => length p <= 13)%nat parts -> Forall (Forall (fits 16)) parts -> Forall part_ok (lfn_entries ck i num parts).
Proof.
  intros Hck. induction parts as [|p parts IH]; intros i Hi Hn H20 Hl Hf; [by apply Forall_nil|]. cbn [lfn_entries length] in *.
  apply Forall_cons in Hl as [Hp Hl]. apply Forall_cons in Hf as [Hpf Hf].
  apply Forall_cons_2; [apply lfn_entry_ok; (done || lia)|]. apply IH; (done || lia).
Qed.

Lemma length_lfn_entries ck num parts : forall i, length (lfn_entries ck i num parts) = length parts.
Proof. induction parts as [|p parts IH]; intros i; simpl; [done|]. by rewrite IH. Qed.

Lemma checksum_byte sn : byte (FName.lfn_checksum sn).
Proof.
  unfold FName.lfn_checksum. assert (H0 : byte 0) by (unfold byte; lia). revert H0. generalize 0.
  induction sn as [|c sn IH]; intros ck Hck; [done|]. apply IH. unfold wadd, wrap, byte. apply Z.mod_pos_bound. lia.
Qed.

Lemma gen_parts nm sn : Forall (fits 16) nm -> (length nm <= 255)%nat ->
  let es := FName.gen_all (FName.gen_new nm (FName.lfn_checksum sn)) in
  Forall part_ok es /\ length es = FName.gen_len (FName.gen_new nm (FName.lfn_checksum sn)) /\ (length es <= 20)%nat.
Proof.
  intros Hf Hl. cbv zeta. rewrite gen_all_eq. pose proof (chunks_length (length nm) nm eq_refl) as Hc.
  destruct (padded_chunks (length nm) nm eq_refl) as (_ & _ & _ & Hp). rewrite length_lfn_entries.
  assert (H20 : Z.of_nat (length (FName.chunks 13 nm)) <= 20) by (Z.to_euclidean_division_equations; lia).
  split; [|split; [done|rewrite length_reverse; lia]]. apply lfn_entries_ok; rewrite ?length_reverse; try (done || lia).
  - apply checksum_byte.
  - by apply Forall_reverse.
  - apply Forall_reverse. by apply chunks_all.
Qed.

(** ** Inserting records *)
Lemma clean_app a l : live a -> clean (a ++ l) <-> clean l.
Proof.
  intros Ha. split; intros Hc i r Hi He.
  - specialize (Hc (length a + i)%nat r). rewrite lookup_app_r in Hc by lia. replace (length a + i - length a)%nat with i in Hc by lia.
    rewrite drop_app_ge in Hc by lia. replace (length a + i - length a)%nat with i in Hc by lia. by apply Hc.
  - apply lookup_app_Some in Hi as [Hi|[Hle Hi]].
    + pose proof (Forall_lookup_1 _ _ _ _ Ha Hi) as E. cbv beta in E. congruence.
    + rewrite drop_app_ge by lia. by apply (Hc _ r).
Qed.
Lemma clean_ended l : clean l -> ended l -> Forall (fun r => is_end r = true) l.
Proof. intros Hc He. destruct l as [|r l]; [by apply Forall_nil|]. exact (Hc 0%nat r eq_refl He). Qed.
Lemma all_ended l : Forall (fun r => is_end r = true) l -> ended l /\ clean l.
Proof. intros Hl. split; [destruct Hl; done|]. intros i r _ _. by apply Forall_drop. Qed.

(** A place for [num] records: deleted ones, that many or all before the end. *)
Record room (l : list DirEntryData) (num s : nat) : Prop := mk_room {
  rm_parts : exists a del tl, l = a ++ del ++ tl /\ length a = s /\ live a /\ deleted del
    /\ (length del = num \/ (length del < num)%nat /\ ended tl);
}.

(** The entry that has been put in. *)
Definition new_entry (raw : DirFileEntryData) (lfn : list Z) (pos begin next : Z) : DirEntry :=
  mk_dirent raw (ShortName_new (name raw)) lfn pos (begin, next).

Definition visible (raw : DirFileEntryData) : Prop :=
  file_is_end raw = false /\ file_is_deleted raw = false /\ is_volume raw = false.

Lemma entries_new abs es raw lfn b off begin l : Forall part_ok es -> visible raw -> builder_ok b ->
  (exists b', process_all es b = Ok b' /\ FName.into_buf (FName.validate_chksum b' (name raw)) = lfn) ->
  let next := off + 32 * Z.of_nat (length es + 1) in
  entries abs true b off begin ((Lfn <$> es) ++ File raw :: l) =
  new_entry raw lfn (abs + (off + 32 * Z.of_nat (length es))) begin next :: entries abs true FName.builder_new next next l.
Proof.
  intros Hes (He & Hd & Hv) Hb (b' & Ep & El) next. rewrite (entries_parts _ _ _ _ _ _ _ _ Hes Ep). cbn [entries is_end]. rewrite He.
  assert (Hs : should_skip_entry (File raw) true = false) by (unfold should_skip_entry; simpl; by rewrite Hd, Hv).
  rewrite Hs, El. unfold new_entry. replace (off + 32 * Z.of_nat (length es) + 32) with next by (unfold next; lia). done.
Qed.

Lemma insert_records abs l s es raw lfn : room l (length es + 1) s -> clean l -> Forall entry_wf l -> Forall part_ok es -> visible raw ->
  (forall b, exists b', process_all es b = Ok b' /\ FName.into_buf (FName.validate_chksum b' (name raw)) = lfn) ->
  let new := (Lfn <$> es) ++ [File raw] in
  let l' := take s l ++ new ++ drop (s + length new) l in
  clean l' /\ exists E1 E2 begin, entries abs true FName.builder_new 0 0 l = E1 ++ E2
    /\ entries abs true FName.builder_new 0 0 l' =
       E1 ++ new_entry raw lfn (abs + 32 * Z.of_nat (s + length es)) begin (32 * Z.of_nat (s + length es + 1)) :: E2.
Proof.
  intros [(a & del & tl & -> & <- & Ha & Hd & Hroom)] Hc Hw Hes Hv Hlfn new l'.
  assert (Hnl : length new = (length es + 1)%nat) by (unfold new; by rewrite length_app, length_fmap).
  rewrite !Forall_app in Hw. destruct Hw as (Hwa & _ & _).
  rewrite clean_app in Hc by done. rewrite clean_app in Hc by (by apply deleted_live).
  destruct (entries_app abs true a FName.builder_new 0 0 Ha Hwa new_ok) as (b & begin & Hb & Happ). rewrite Z.add_0_l in Happ.
  unfold l'. rewrite take_app_length, drop_app_ge, Hnl by lia. set (q := drop _ (del ++ tl)).
  assert (Hnew : live new).
  { unfold new. apply Forall_app_2; [|apply Forall_singleton; apply Hv]. apply Forall_fmap. eapply Forall_impl; [exact Hes|]. by intros n (_ & ? & _). }
  assert (Hq : clean q /\ entries abs true b (32 * Z.of_nat (length a)) begin (del ++ tl) =
    entries abs true FName.builder_new (32 * Z.of_nat (length a + length es + 1)) (32 * Z.of_nat (length a + length es + 1)) q).
  { unfold q. destruct Hroom as [Hl|[Hl Ht]].
    - rewrite drop_app_length' by lia. split; [done|]. rewrite entries_deleted by (done || (intros ->; simpl in Hl; lia)).
      replace (32 * Z.of_nat (length a) + 32 * Z.of_nat (length del)) with (32 * Z.of_nat (length a + length es + 1)) by lia. done.
    - rewrite drop_app_ge by lia. destruct (all_ended (drop (length a + (length es + 1) - length a - length del) tl)) as [He Hcl].
      { by apply Forall_drop, clean_ended. }
      split; [done|]. rewrite entries_none, entries_ended by done. done. }
  destruct Hq as [Hcq Eq]. split; [by rewrite !clean_app by done|].
  exists (entries abs true FName.builder_new 0 0 a), (entries abs true b (32 * Z.of_nat (length a)) begin (del ++ tl)), begin.
  split; [apply Happ|]. rewrite Happ. f_equal. unfold new. rewrite <- app_assoc. cbn [app].
  rewrite (entries_new abs es raw lfn b _ _ q Hes Hv Hb (Hlfn b)), Eq.
  replace (32 * Z.of_nat (length a) + 32 * Z.of_nat (length es + 1)) with (32 * Z.of_nat (length a + length es + 1)) by lia.
  do 2 f_equal. lia.
Qed.

(** Parts of a name that have been written up to the end of the directory. *)
Lemma insert_parts abs l num s es : room l num s -> Forall entry_wf l -> Forall part_ok es ->
  (length es < num)%nat -> (length l <= s + length es)%nat ->
  entries abs true FName.builder_new 0 0 (take s l ++ (Lfn <$> es) ++ drop (s + length (Lfn <$> es)) l) = entries abs true FName.builder_new 0 0 l.
Proof.
  intros [(a & del & tl & -> & <- & Ha & Hd & Hroom)] Hw Hes Hnum Hlen. rewrite !Forall_app in Hw. destruct Hw as (Hwa & _ & _).
  rewrite !length_app in Hlen. destruct Hroom as [?|[Hl Ht]]; [lia|]. rewrite length_fmap.
  rewrite (drop_ge (a ++ del ++ tl)) by (rewrite !length_app; lia). rewrite app_nil_r, take_app_length.
  destruct (entries_app abs true a FName.builder_new 0 0 Ha Hwa new_ok) as (b & begin & Hb & Happ). rewrite !Happ.
  f_equal. by rewrite entries_only_parts, entries_none.
Qed.

(** ** Taking an entry out *)
(** Where the records of an entry are: behind the records [a], whose entries come
    before it.  The state [(b, off, begin)] is what the records [p] lead to. *)
Lemma entries_split abs sv l e E2 : forall E1 B b off begin p,
  off = begin + 32 * Z.of_nat (length p) ->
  (forall l', entries abs sv B begin begin (p ++ l') = entries abs sv b off begin l') ->
  entries abs sv b off begin l = E1 ++ e :: E2 ->
  exists a parts raw tl b', p ++ l = a ++ parts ++ File raw :: tl
    /\ offset_range e = (begin + 32 * Z.of_nat (length a), begin + 32 * Z.of_nat (length a + length parts + 1))
    /\ (forall l', entries abs sv B begin begin (a ++ l') =
         E1 ++ entries abs sv b' (begin + 32 * Z.of_nat (length a)) (begin + 32 * Z.of_nat (length a)) l')
    /\ E2 = entries abs sv FName.builder_new (begin + 32 * Z.of_nat (length a + length parts + 1)) (begin + 32 * Z.of_nat (length a + length parts + 1)) tl.
Proof.
  induction l as [|r l IH]; intros E1 B b off begin p Hoff Hp; cbn [entries]; [by destruct E1|].
  destruct (is_end r) eqn:Ee; [by destruct E1|].
  assert (Hfresh : forall E1' E0 B', (forall l', entries abs sv b off begin (r :: l') = E0 ++ entries abs sv B' (off + 32) (off + 32) l') ->
    E1 = E0 ++ E1' -> entries abs sv B' (off + 32) (off + 32) l = E1' ++ e :: E2 ->
    exists a parts raw tl b', p ++ r :: l = a ++ parts ++ File raw :: tl
    /\ offset_range e = (begin + 32 * Z.of_nat (length a), begin + 32 * Z.of_nat (length a + length parts + 1))
    /\ (forall l', entries abs sv B begin begin (a ++ l') =
         E1 ++ entries abs sv b' (begin + 32 * Z.of_nat (length a)) (begin + 32 * Z.of_nat (length a)) l')
    /\ E2 = entries abs sv FName.builder_new (begin + 32 * Z.of_nat (length a + length parts + 1)) (begin + 32 * Z.of_nat (length a + length parts + 1)) tl).
  { intros E1' E0 B' Hr -> E. destruct (IH E1' B' B' (off + 32) (off + 32) []) as (a & parts & raw & tl & b' & El & Er & Ha & Et); [simpl; lia|done|done|].
    exists (p ++ r :: a), parts, raw, tl, b'. simpl in El. rewrite El, <- app_assoc. split; [done|].
    rewrite length_app. cbn [length].
    replace (begin + 32 * Z.of_nat (length p + S (length a))) with (off + 32 + 32 * Z.of_nat (length a)) by lia.
    replace (begin + 32 * Z.of_nat (length p + S (length a) + length parts + 1)) with (off + 32 + 32 * Z.of_nat (length a + length parts + 1)) by lia.
    split; [done|]. split; [|done]. intros l'. rewrite <- app_assoc, Hp. cbn [app]. by rewrite Hr, Ha, <- app_assoc. }
  destruct (should_skip_entry r sv) eqn:Es.
  - intros E. apply (Hfresh E1 [] (FName.clear b)); [|done|done]. intros l'. cbn [entries]. by rewrite Ee, Es.
  - destruct r as [raw|n].
    + destruct E1 as [|e0 E1].
      * intros [= <- <-]. exists [], p, raw, l, B. cbn [app length offset_range]. split; [done|]. split; [f_equal; lia|]. rewrite Z.add_0_r.
        split; [done|]. by replace (begin + 32 * Z.of_nat (0 + length p + 1)) with (off + 32) by lia.
      * intros [= E0 E]. apply (Hfresh E1 [e0] FName.builder_new); [|done|done]. intros l'. cbn [entries]. rewrite Ee, Es, E0. done.
    + destruct (FName.process b n) as [b'| |] eqn:Ep; [|by destruct E1|by destruct E1]. intros E.
      destruct (IH E1 B b' (off + 32) begin (p ++ [Lfn n])) as (a & parts & raw & tl & b2 & El & Hrest);
        [rewrite length_app; simpl; lia| |done|].
      * intros l'. rewrite <- app_assoc, Hp. cbn [app entries]. by rewrite Ee, Es, Ep.
      * exists a, parts, raw, tl, b2. rewrite <- app_assoc in El. by split.
Qed.

Lemma set_deleted_ok r : entry_wf r -> is_deleted (set_deleted r) = true /\ entry_wf (set_deleted r).
Proof.
  destruct r as [e|n]; intros Hw.
  - split; [|by destruct Hw; split; cbn; rewrite ?length_insert]. cbn. unfold file_is_deleted, file_set_deleted, byte_0. cbn.
    rewrite list_lookup_insert_eq by (destruct Hw as [-> _]; lia). done.
  - split; [done|]. by destruct Hw.
Qed.

Section Writing.
Context {F : Type} `{DirFile F} `{!DirSpec F} `{Nom} `{!NomSpec} `{Unicode}.
Implicit Types (f : F).

(** The directory after the records [new] have been written from the number [s] on. *)
Definition written f (s : nat) (new : list DirEntryData) f' : Prop :=
  df_ok f' /\ df_abs f' = df_abs f /\ dir_recs f' = take s (dir_recs f) ++ new ++ drop (s + length new) (dir_recs f).

Lemma write_slot fuel f (i : nat) x r : df_ok f -> (i <= length (dir_recs f))%nat -> 32 * Z.of_nat i + 32 < 2 ^ 32 -> (2 <= fuel)%nat ->
  length x = 32%nat -> Forall byte x -> parse x = Ok ([], r) ->
  (exists f', write_all_at fuel (32 * Z.of_nat i) x f = Some (Ok tt, f') /\ written f i [r] f')
  \/ (i = length (dir_recs f) /\ write_all_at fuel (32 * Z.of_nat i) x f = Some (Err ENOSPC, f)).
Proof.
  intros Hf Hi Hlim Hfu Hx Hxb Hr. destruct (recs_bound f Hf) as [_ Hl]. destruct fuel as [|[|fuel]]; [lia|lia|].
  cbn [write_all_at]. rewrite bool_decide_eq_false_2 by (by intros ->). cbv beta iota.
  destruct (df_write f (32 * Z.of_nat i) x) as [(f' & E & Hf' & Ed & Ea)|[Eo E]]; try done.
  { by exists (Z.of_nat i); lia. }
  { lia. }
  - left. exists f'. rewrite E. unfold Umio.len. rewrite Hx. change (32 =? 0) with false. change (Z.of_nat 32 <? 32) with false. cbv iota.
    rewrite drop_ge by lia. rewrite bool_decide_eq_true_2 by done. split; [done|]. split; [done|]. split; [done|].
    destruct (recs_splice (df_data f) i x r (ok_aligned f Hf) Hi Hx Hxb Hr) as [_ Er].
    unfold dir_recs. rewrite Ed, Er. cbn [app length]. by rewrite Nat.add_1_r.
  - right. rewrite E. split; [lia|done].
Qed.

Lemma written_app f s a f1 b f2 : (s + length a <= length (dir_recs f1))%nat -> (s <= length (dir_recs f))%nat ->
  written f s a f1 -> written f1 (s + length a) b f2 -> written f s (a ++ b) f2.
Proof.
  intros Hs1 Hs (Hf1 & Ea1 & Er1) (Hf2 & Ea2 & Er2). split; [done|]. split; [congruence|]. rewrite Er2, Er1. clear Er2 Er1 Hs1.
  set (l := dir_recs f) in *. assert (Hl : length (take s l ++ a) = (s + length a)%nat) by (rewrite length_app, length_take; lia).
  rewrite (app_assoc (take s l) a), take_app_length' by done. rewrite drop_app_ge by lia. rewrite Hl, drop_drop, length_app, <- !app_assoc.
  do 4 f_equal. lia.
Qed.
Lemma written_length f s a f1 : (s <= length (dir_recs f))%nat -> written f s a f1 ->
  length (dir_recs f1) = Nat.max (length (dir_recs f)) (s + length a).
Proof. intros Hs (_ & _ & ->). rewrite !length_app, length_take, length_drop. lia. Qed.

(** The parts of the long name; when the volume is full, some of them. *)
Lemma write_records_spec fuel es : forall f (s : nat), df_ok f -> (s <= length (dir_recs f))%nat ->
  32 * Z.of_nat (s + length es) < 2 ^ 32 -> (2 <= fuel)%nat -> Forall part_ok es ->
  (exists f', write_records fuel (32 * Z.of_nat s) es f = Some (Ok tt, f') /\ written f s (Lfn <$> es) f')
  \/ (exists f' k, write_records fuel (32 * Z.of_nat s) es f = Some (Err ENOSPC, f') /\ written f s (Lfn <$> take k es) f'
        /\ (length (dir_recs f) <= s + k)%nat /\ (k < length es)%nat).
Proof.
  induction es as [|e es IH]; intros f s Hf Hs Hlim Hfu Hes.
  { left. exists f. split; [done|]. split; [done|]. split; [done|]. simpl. by rewrite Nat.add_0_r, take_drop. }
  apply Forall_cons in Hes as [(Hw & _ & _ & Hlen & Hby) Hes]. cbn [write_records length] in *.
  assert (Hp : parse (lfn_to_bytes e) = Ok ([], Lfn e)) by (rewrite <- (app_nil_r (lfn_to_bytes e)); by apply lfn_roundtrip).
  destruct (write_slot fuel f s _ _ Hf Hs ltac:(lia) Hfu Hlen Hby Hp) as [(f1 & E1 & Hw1)|[El E1]].
  - rewrite (PT_bind_Ok _ _ _ _ _ E1). pose proof (written_length _ _ _ _ Hs Hw1) as Hl1. cbn [length] in Hl1.
    unfold DIR_ENTRY_SIZE. rewrite wadd_small by (unfold fits; lia).
    replace (32 * Z.of_nat s + 32) with (32 * Z.of_nat (S s)) by lia. rewrite <- Nat.add_1_r.
    destruct (IH f1 (s + 1)%nat) as [(f2 & E2 & Hw2)|(f2 & k & E2 & Hw2 & Hk & Hke)]; try done; [apply Hw1|lia|lia| |].
    + left. exists f2. split; [done|]. cbn [fmap list_fmap]. apply (written_app f s [Lfn e] f1); [simpl; lia|done|done|done].
    + right. exists f2, (S k). split; [done|]. cbn [take fmap list_fmap].
      split; [apply (written_app f s [Lfn e] f1); [simpl; lia|done|done|done]|lia].
  - right. exists f, 0%nat. rewrite (PT_bind_Err _ _ _ _ _ E1). split; [done|]. split; [|lia].
    split; [done|]. split; [done|]. simpl. by rewrite Nat.add_0_r, take_drop.
Qed.

(** ** Looking for room *)
Lemma free_slots_spec (num : nat) tl : forall fuel f a del first,
  df_ok f -> dir_recs f = a ++ del ++ tl -> live a -> deleted del -> (length del < num)%nat -> Z.of_nat num < 2 ^ 32 ->
  (del <> [] -> first = Z.of_nat (length a)) -> (length tl + 1 <= fuel)%nat ->
  exists f' s, kept f f'
    /\ free_slots_loop fuel (Z.of_nat num) (Z.of_nat (length a + length del)) first (Z.of_nat (length del)) f = Some (Ok (32 * Z.of_nat s), f')
    /\ room (dir_recs f) num s.
Proof.
  induction tl as [|r tl IH]; intros fuel f a del first Hf Er Ha Hd Hdn Hn Hfirst Hfu; (destruct fuel as [|fuel]; [simpl in Hfu; lia|]).
  all: destruct (recs_bound f Hf) as [Hbd _]; pose proof (f_equal length Er) as Hlen; rewrite !length_app in Hlen; cbn [length] in Hlen.
  all: set (i := (length a + length del)%nat) in *; cbn [free_slots_loop]; unfold DIR_ENTRY_SIZE.
  all: assert (Hmul : forall k, 0 <= k <= Z.of_nat i -> wmul 32 k 32 = 32 * k)
    by (intros k Hk; unfold wmul; rewrite wrap_small by (unfold fits; lia); lia).
  all: rewrite (Hmul (Z.of_nat i)) by lia.
  all: destruct (read_slot f i Hf ltac:(lia)) as (f1 & Hk1 & E1); rewrite (PT_bind_Ok _ _ _ _ _ E1).
  all: pose proof (recs_slice (df_data f) i (ok_aligned f Hf)) as Hs; fold (dir_recs f) in Hs.
  all: assert (Hhere : (if Z.of_nat (length del) =? 0 then Z.of_nat i else first) = Z.of_nat (length a))
    by (destruct del as [|r0 del]; [unfold i; simpl; lia|by apply Hfirst]).
  all: rewrite Hhere, (Hmul (Z.of_nat (length a))) by lia.
  - rewrite lookup_ge_None_2 in Hs by lia. rewrite Hs. exists f1, (length a). split; [done|]. split; [done|].
    constructor. exists a, del, []. split_and!; try done. by right.
  - assert (Hr : dir_recs f !! i = Some r) by (rewrite Er, app_assoc, lookup_app_r, length_app by (rewrite length_app; lia); by rewrite Nat.sub_diag).
    rewrite Hr in Hs. destruct Hs as [Hs Hl]. unfold Umio.len. rewrite Hl. change (Z.of_nat 32 <? 32) with false. cbv iota.
    erewrite PT_bind_Ok; [|unfold nom_question; rewrite Hs; reflexivity]. cbv beta iota.
    assert (Hgo : forall a' del' first', a ++ del ++ [r] = a' ++ del' -> live a' -> deleted del' -> (length del' < num)%nat ->
      (del' <> [] -> first' = Z.of_nat (length a')) -> exists f' s, kept f f'
        /\ free_slots_loop fuel (Z.of_nat num) (wadd 32 (Z.of_nat i) 1) first' (Z.of_nat (length del')) f1 = Some (Ok (32 * Z.of_nat s), f')
        /\ room (dir_recs f) num s).
    { intros a' del' first' Ee Ha' Hd' Hn' Hf'. pose proof (f_equal length Ee) as Hle. rewrite !length_app in Hle. cbn [length] in Hle.
      rewrite wadd_small by (unfold fits; lia). replace (Z.of_nat i + 1) with (Z.of_nat (length a' + length del')) by lia.
      pose proof (proj2 (rest_kept f f1 0 Hk1)) as Erk.
      destruct (IH fuel f1 a' del' first') as (f2 & s & Hk2 & E2 & Hrm); try done; [apply Hk1| |simpl in Hfu; lia|].
      - rewrite Erk, Er. change (r :: tl) with ([r] ++ tl). rewrite !(app_assoc _ _ tl), <- Ee. by rewrite <- !app_assoc.
      - exists f2, s. split; [by apply (kept_trans f f1)|]. split; [done|]. by rewrite Erk in Hrm. }
    destruct (is_end r) eqn:Ee.
    { exists f1, (length a). split; [done|]. split; [done|]. constructor. exists a, del, (r :: tl). split_and!; try done. by right. }
    destruct (is_deleted r) eqn:Edel.
    + assert (Hd' : deleted (del ++ [r])) by (apply Forall_app_2; [done|by apply Forall_singleton]).
      rewrite wadd_small by (unfold fits; lia). destruct (Z.eqb_spec (Z.of_nat (length del) + 1) (Z.of_nat num)) as [En|Hne].
      * exists f1, (length a). split; [done|]. split; [done|]. constructor. exists a, (del ++ [r]), tl. rewrite <- app_assoc.
        split_and!; try done. left. rewrite length_app. simpl. lia.
      * replace (Z.of_nat (length del) + 1) with (Z.of_nat (length (del ++ [r]))) by (rewrite length_app; simpl; lia).
        apply (Hgo a); try done. rewrite length_app. simpl. lia.
    + apply (Hgo (a ++ del ++ [r]) []); try done; [by rewrite app_nil_r| |simpl; lia].
      apply Forall_app_2; [done|]. apply Forall_app_2; [by apply deleted_live|by apply Forall_singleton].
Qed.

Lemma find_free_room fuel f (num : nat) : df_ok f -> (0 < num)%nat -> Z.of_nat num < 2 ^ 32 -> (length (dir_recs f) + 1 <= fuel)%nat ->
  exists f' s, kept f f' /\ find_free_entries fuel (Z.of_nat num) f = Some (Ok (32 * Z.of_nat s), f') /\ room (dir_recs f) num s.
Proof.
  intros Hf Hn Hlim Hfu. apply (free_slots_spec num (dir_recs f) fuel f [] [] 0); try done; by apply Forall_nil.
Qed.
(** ** Writing an entry *)
Lemma valid_char_range c : FName.valid_char c = true -> 0 < c < 2 ^ 16.
Proof.
  unfold FName.valid_char, FName.is_letter, FName.between. rewrite !orb_true_iff, !andb_true_iff, !Z.leb_le, bool_decide_eq_true.
  intros [[|]|Hin]; [lia|lia|]. revert c Hin. apply Forall_forall. apply (bool_decide_unpack (Forall _ _)). vm_compute. exact I.
Qed.

Lemma valid_name nm : FName.validate_long_name nm = Ok tt ->
  nm <> [] /\ (length nm <= 255)%nat /\ Forall (fun c => 0 < c < 2 ^ 16) nm /\ FName.encode_utf16 nm = nm.
Proof.
  unfold FName.validate_long_name. case_bool_decide as Hne; [done|]. unfold FName.MAX_LONG_NAME_LEN.
  destruct (Z.ltb_spec 255 (FName.str_len nm)) as [|Hl]; [done|]. destruct (forallb _ nm) eqn:Ef; [|done]. intros _.
  assert (Hr : Forall (fun c => 0 < c < 2 ^ 16) nm).
  { apply Forall_forall. intros c Hc. apply valid_char_range. rewrite forallb_forall in Ef. apply Ef. by apply list_elem_of_In. }
  split; [done|]. split; [|split; [done|]].
  - assert (Z.of_nat (length nm) <= FName.str_len nm); [|lia]. clear -Hr. unfold FName.str_len.
    induction Hr as [|c nm _ _ IH]; [done|]. cbn [length foldr]. unfold FName.len_utf8 at 1.
    destruct (c <? 0x80), (c <? 0x800), (c <? 0x10000); lia.
  - clear -Hr. unfold FName.encode_utf16. induction Hr as [|c nm Hc _ IH]; [done|].
    change (c :: nm) with ([c] ++ nm). rewrite bind_app, IH. cbn [mbind list_bind]. by rewrite (proj2 (Z.ltb_lt c 0x10000)) by lia.
Qed.

(** A directory that can be read, the record of a file or a directory, and positions of 32 bits. *)
Record can_write f (raw : DirFileEntryData) (fuel : nat) : Prop := {
  cw_ok : df_ok f;
  cw_raw : file_wf raw /\ bytes_ok raw /\ visible raw;
  cw_space : 32 * (Z.of_nat (length (dir_recs f)) + 21) < 2 ^ 32;
  cw_fuel : (length (dir_recs f) + 2 <= fuel)%nat;
}.

(** The directory with the entry, or without it when the volume is full. *)
Definition added f nm raw (e : DirEntry) f' : Prop :=
  df_ok f' /\ clean (dir_recs f') /\ (length (dir_recs f') <= length (dir_recs f) + 21)%nat /\ exists E1 E2 begin next,
    dir_entries f = E1 ++ E2
    /\ dir_entries f' = E1 ++ new_entry raw nm (df_abs f + entry_pos e) begin next :: E2.

Lemma write_entry_adds fuel f nm raw : can_write f raw fuel -> clean (dir_recs f) -> FName.validate_long_name nm = Ok tt -> last nm <> Some 0xFFFF ->
  (exists e f', write_entry fuel nm raw f = Some (Ok e, f') /\ added f nm raw e f')
  \/ (exists f', write_entry fuel nm raw f = Some (Err ENOSPC, f') /\ df_ok f' /\ dir_entries f' = dir_entries f).
Proof.
  intros [Hf (Hwf & Hby & Hvis) Hsp Hfu] Hc Hv Hlast. destruct (valid_name nm Hv) as (Hne & Hl & Hr & Een).
  assert (Hfit : Forall (fits 16) nm) by (eapply Forall_impl; [exact Hr|]; unfold fits; simpl; lia).
  destruct (gen_parts nm (name raw) Hfit Hl) as (Hes & Hnum & H20). set (g := FName.gen_new nm (FName.lfn_checksum (name raw))) in *.
  set (es := FName.gen_all g) in *.
  assert (Hre : forall b, exists b', process_all es b = Ok b' /\ FName.into_buf (FName.validate_chksum b' (name raw)) = nm).
  { intros b. apply lfn_name_roundtrip; [done|done|]. intros c Hlc. split; [|congruence].
    rewrite last_lookup in Hlc. pose proof (Forall_lookup_1 _ _ _ _ Hr Hlc) as Hc0. cbv beta in Hc0. lia. }
  assert (Hu : wadd 32 (Z.of_nat (FName.gen_len g)) 1 = Z.of_nat (length es + 1)) by (rewrite <- Hnum, wadd_small by (unfold fits; lia); lia).
  destruct (find_free_room fuel f (length es + 1) Hf) as (f1 & s & Hk1 & E1 & Hroom); [lia|lia|lia|].
  destruct (rest_kept f f1 0 Hk1) as [_ Er1].
  assert (Hs : (s <= length (dir_recs f))%nat) by (destruct Hroom as [(a & del & tl & -> & <- & _)]; rewrite length_app; lia).
  unfold write_entry. rewrite (PT_bind_Ok _ _ _ tt f) by (by rewrite Hv). rewrite Een. unfold alloc_and_write_lfn_entries. fold g es. rewrite Hu.
  pose proof (recs_wf _ (ok_aligned f Hf)) as Hwl. fold (dir_recs f) in Hwl.
  destruct (write_records_spec fuel es f1 s) as [(f2 & E2 & Hw2)|(f2 & k & E2 & Hw2 & Hk & Hke)]; try done; try (rewrite ?Er1; lia).
  { apply Hk1. }
  - pose proof (written_length _ _ _ _ ltac:(rewrite Er1; exact Hs) Hw2) as Hl2. rewrite length_fmap, Er1 in Hl2.
    erewrite PT_bind_Ok; [|erewrite PT_bind_Ok by exact E1; by erewrite PT_bind_Ok by exact E2]. cbv beta iota.
    assert (Hpos : wadd 64 (32 * Z.of_nat s) (Z.of_nat (FName.gen_len g) * DIR_ENTRY_SIZE) = 32 * Z.of_nat (s + length es))
      by (rewrite <- Hnum; unfold DIR_ENTRY_SIZE; rewrite wadd_small by (unfold fits; lia); lia). rewrite Hpos.
    destruct (file_bytes raw Hby) as [Hbl Hbb].
    assert (Hp : parse (file_to_bytes raw) = Ok ([], File raw)) by (rewrite <- (app_nil_r (file_to_bytes raw)); by apply file_roundtrip).
    destruct (write_slot fuel f2 (s + length es) _ _ (proj1 Hw2) ltac:(lia) ltac:(lia) ltac:(lia) Hbl Hbb Hp) as [(f3 & E3 & Hw3)|[El3 E3]].
    + left. rewrite (PT_bind_Ok _ _ _ _ _ E3). eexists. exists f3. split; [done|].
      rewrite <- (length_fmap Lfn es) in Hw3. apply (written_app f1 s _ f2) in Hw3; [|rewrite length_fmap; lia|rewrite Er1; lia|done].
      pose proof (written_length _ _ _ _ ltac:(rewrite Er1; exact Hs) Hw3) as Hl3. rewrite length_app, length_fmap, Er1 in Hl3. cbn [length] in Hl3.
      destruct Hw3 as (Hf3 & Ea3 & Er3). rewrite Er1 in Er3. destruct Hk1 as (_ & _ & Ea1).
      destruct (insert_records (df_abs f) (dir_recs f) s es raw nm Hroom Hc Hwl Hes Hvis Hre) as (Hcl & E1' & E2' & begin & Eo & En).
      split; [done|]. split; [by rewrite Er3|]. split; [lia|]. exists E1', E2', begin, (32 * Z.of_nat (s + length es + 1)).
      split; [done|]. unfold dir_entries. rewrite Ea3, Ea1, Er3. exact En.
    + right. exists f2. rewrite (PT_bind_Err _ _ _ _ _ E3). split; [done|]. destruct Hw2 as (Hf2 & Ea2 & Erec2). split; [done|].
      unfold dir_entries. rewrite Erec2, Ea2, Er1. destruct Hk1 as (_ & _ & ->).
      apply (insert_parts _ _ (length es + 1)); (done || lia).
  - right. exists f2. erewrite PT_bind_Err; [|erewrite PT_bind_Ok by exact E1; by erewrite PT_bind_Err by exact E2].
    split; [done|]. destruct Hw2 as (Hf2 & Ea2 & Erec2). split; [done|]. unfold dir_entries. rewrite Erec2, Ea2, Er1.
    destruct Hk1 as (_ & _ & ->). rewrite Er1 in Hk.
    apply (insert_parts _ _ (length es + 1)); try done; [by apply Forall_take|rewrite length_take; lia..].
Qed.
(** ** Deleting *)
Lemma free_records_spec fuel n : forall f (i : nat), df_ok f -> (i + n <= length (dir_recs f))%nat -> (2 <= fuel)%nat ->
  exists f', free_records fuel n (32 * Z.of_nat i) f = Some (Ok tt, f')
    /\ written f i (set_deleted <$> take n (drop i (dir_recs f))) f'.
Proof.
  induction n as [|n IH]; intros f i Hf Hi Hfu.
  { exists f. split; [done|]. split; [done|]. split; [done|]. by rewrite take_0, app_nil_l, Nat.add_0_r, take_drop. }
  destruct (recs_bound f Hf) as [Hbd _]. destruct (lookup_lt_is_Some_2 (dir_recs f) i ltac:(lia)) as [r Hr].
  destruct (read_exact_slot fuel f i Hf ltac:(lia) Hfu) as (f1 & Hk1 & E1). rewrite decide_True in E1 by lia.
  pose proof (recs_slice (df_data f) i (ok_aligned f Hf)) as Hs. fold (dir_recs f) in Hs. rewrite Hr in Hs. destruct Hs as [Hs Hsl].
  set (x := slice_at (df_data f) (32 * Z.of_nat i) 32) in *.
  assert (Hxb : Forall byte x) by (apply Forall_take, Forall_drop; apply (df_shape f Hf)).
  destruct (parse_total x [] Hsl Hxb) as (r' & Ep & _ & Eb). rewrite app_nil_r, Hs in Ep. injection Ep as <-.
  destruct (freed_entry_ok x Hsl Hxb) as [Hdl Hdb]. rewrite <- Eb in Hdl, Hdb.
  destruct (set_deleted_ok r (parse_wf x r Hsl Hxb Hs)) as [_ Hw].
  assert (Hp : parse (to_bytes (set_deleted r)) = Ok ([], set_deleted r)).
  { rewrite <- (app_nil_r (to_bytes (set_deleted r))). destruct (set_deleted r); [by apply file_roundtrip|by apply lfn_roundtrip]. }
  destruct (rest_kept f f1 0 Hk1) as [_ Er1]. destruct Hk1 as (Hf1 & Ed1 & Ea1).
  cbn [free_records]. unfold DIR_ENTRY_SIZE. rewrite (PT_bind_Ok _ _ _ _ _ E1).
  erewrite PT_bind_Ok; [|unfold nom_question; rewrite Hs; reflexivity]. cbv beta iota.
  destruct (write_slot fuel f1 i _ _ Hf1 ltac:(rewrite Er1; lia) ltac:(lia) Hfu Hdl Hdb Hp) as [(f2 & E2 & Hw2)|[El _]]; [|rewrite Er1 in El; lia].
  rewrite (PT_bind_Ok _ _ _ _ _ E2). pose proof (written_length f1 i _ f2 ltac:(rewrite Er1; lia) Hw2) as Hl2. rewrite Er1 in Hl2. cbn [length] in Hl2.
  replace (32 * Z.of_nat i + 32) with (32 * Z.of_nat (i + 1)) by lia.
  destruct (IH f2 (i + 1)%nat) as (f3 & E3 & Hw3); [apply Hw2|lia|done|]. exists f3. split; [done|].
  assert (Ed : drop (i + 1) (dir_recs f2) = drop (S i) (dir_recs f)).
  { destruct Hw2 as (_ & _ & ->). rewrite Er1, app_assoc, drop_app_length' by (rewrite length_app, length_take; simpl; lia). by rewrite Nat.add_1_r. }
  rewrite (drop_S _ _ _ Hr). cbn [take fmap list_fmap]. rewrite Ed in Hw3.
  assert (Hw' : written f i [set_deleted r] f2) by (destruct Hw2 as (? & ? & E); split; [done|]; split; [congruence|]; by rewrite E, Er1).
  apply (written_app f i [set_deleted r] f2); [simpl; lia|lia|done|done].
Qed.

Lemma free_entry_removes fuel f E1 e E2 : df_ok f -> dir_entries f = E1 ++ e :: E2 -> (2 <= fuel)%nat ->
  exists f', free_all_entries fuel e f = Some (Ok tt, f') /\ df_ok f' /\ dir_entries f' = E1 ++ E2.
Proof.
  intros Hf He Hfu. destruct (entries_split _ _ (dir_recs f) e E2 E1 FName.builder_new FName.builder_new 0 0 [] eq_refl (fun _ => eq_refl) He)
    as (a & parts & raw & tl & b' & El & Er & Ha & Et). simpl in El. rewrite !Z.add_0_l in *.
  pose proof (f_equal length El) as Hlen. rewrite !length_app in Hlen. cbn [length] in Hlen.
  unfold free_all_entries. rewrite Er. unfold DIR_ENTRY_SIZE.
  replace (Z.to_nat _) with (length parts + 1)%nat by (Z.to_euclidean_division_equations; lia).
  destruct (free_records_spec fuel (length parts + 1) f (length a) Hf ltac:(lia) Hfu) as (f' & E & Hf' & Ea & Er').
  exists f'. split; [done|]. split; [done|]. unfold dir_entries. rewrite Ea, Er'.
  assert (Ed : drop (length a) (dir_recs f) = (parts ++ [File raw]) ++ tl) by (rewrite El, drop_app_length, <- app_assoc; done).
  rewrite Ed, take_app_length' by (rewrite length_app; done). rewrite length_fmap, length_app. cbn [length].
  rewrite <- drop_drop, Ed, drop_app_length' by (rewrite length_app; done). rewrite El, take_app_length, Ha.
  f_equal. rewrite entries_deleted.
  - rewrite length_fmap, length_app. cbn [length]. rewrite Et.
    by replace (32 * Z.of_nat (length a) + 32 * Z.of_nat (length parts + 1)) with (32 * Z.of_nat (length a + length parts + 1)) by lia.
  - apply Forall_fmap. pose proof (recs_wf _ (ok_aligned f Hf)) as Hw. fold (dir_recs f) in Hw.
    rewrite <- (take_drop (length a) (dir_recs f)), Ed, !Forall_app in Hw. destruct Hw as (_ & Hw & _).
    rewrite Forall_app. destruct Hw as [Hw1 Hw2]. split; (eapply Forall_impl; [eassumption|]; intros r Hr; by apply set_deleted_ok).
  - by destruct parts.
Qed.
(** ** Finding what has been written *)
Definition scalar (c : Z) : Prop := c < 0xD800 \/ 0xDFFF < c.

Lemma no_surrogate c : 0 < c < 2 ^ 16 -> scalar c -> Z.land c 0xF800 <> 0xD800.
Proof.
  intros Hc Hs E. apply (f_equal (fun x => Z.shiftr x 11)) in E. rewrite Z.shiftr_land in E. change (Z.shiftr 0xF800 11) with (Z.ones 5) in E.
  change (Z.shiftr 0xD800 11) with 27 in E. rewrite Z.land_ones, Z.shiftr_div_pow2 in E by lia. unfold scalar in Hs.
  change (2 ^ 11) with 2048 in E. change (2 ^ 5) with 32 in E. change (2 ^ 16) with 65536 in Hc. Z.to_euclidean_division_equations. lia.
Qed.
Lemma decode_scalars nm : Forall (fun c => 0 < c < 2 ^ 16) nm -> Forall scalar nm -> decode_utf16 nm = Some <$> nm.
Proof.
  induction 1 as [|c nm Hc _ IH]; [done|]. intros [Hs Hss]%Forall_cons. cbn [decode_utf16 fmap list_fmap].
  rewrite (proj2 (Z.eqb_neq _ _) (no_surrogate c Hc Hs)). cbn [negb]. by rewrite IH.
Qed.
Lemma new_entry_named raw nm pos begin next : FName.validate_long_name nm = Ok tt -> Forall scalar nm ->
  eq_name (new_entry raw nm pos begin next) nm = true.
Proof.
  intros Hv Hs. destruct (valid_name nm Hv) as (Hne & _ & Hr & _). unfold eq_name, eq_name_lfn, long_file_name_as_ucs2_units.
  cbn [de_lfn_utf16 new_entry]. rewrite (proj2 (Nat.ltb_lt _ _)) by (destruct nm; [done|simpl; lia]).
  rewrite (proj2 (eq_chars_spec _ _)); [done|]. exists nm. split; [by apply decode_scalars|done].
Qed.

Lemma found_app nm E1 e E2 : found nm (E1 ++ e :: E2) =
  match found nm E1 with Some x => Some x | None => if eq_name e nm then Some e else found nm E2 end.
Proof. unfold found. induction E1 as [|x E1 IH]; cbn [app List.find]; [done|]. by destruct (eq_name x nm). Qed.
Lemma found_app2 nm E1 E2 : found nm (E1 ++ E2) = match found nm E1 with Some x => Some x | None => found nm E2 end.
Proof. unfold found. induction E1 as [|x E1 IH]; cbn [app List.find]; [done|]. by destruct (eq_name x nm). Qed.

Lemma created_ok fuel f nm raw : can_write f raw fuel -> clean (dir_recs f) -> Forall scalar nm -> FName.validate_long_name nm = Ok tt -> last nm <> Some 0xFFFF ->
  (exists f', write_entry fuel nm raw f = Some (Err ENOSPC, f') /\ df_ok f' /\ dir_entries f' = dir_entries f)
  \/ (exists e f', write_entry fuel nm raw f = Some (Ok e, f') /\ added f nm raw e f' /\
        forall fuel' want nm', (length (dir_recs f) + 23 <= fuel')%nat ->
        exists f2, kept f' f2 /\
        (eq_name (new_entry raw nm 0 0 0) nm' = false ->
           find_entry fuel' nm' want f' = Some (judged want (found nm' (dir_entries f)), f2))
        /\ (nm' = nm -> found nm (dir_entries f) = None -> exists e', de_data e' = raw
             /\ find_entry fuel' nm want f' = Some (judged want (Some e'), f2)
             /\ exists f3, free_all_entries fuel' e' f2 = Some (Ok tt, f3) /\ df_ok f3 /\ dir_entries f3 = dir_entries f)).
Proof.
  intros Hcw Hcl Hs Hv Hlast. destruct (write_entry_adds fuel f nm raw Hcw Hcl Hv Hlast) as [(e & f' & E & Hadd)|Hfull]; [right|by left].
  exists e, f'. split; [done|]. split; [done|]. destruct Hadd as (Hf' & Hc & Hl & E1 & E2 & begin & next & Eo & En).
  intros fuel' want nm' Hfu. destruct (find_entry_first fuel' nm' want f' Hf' ltac:(lia)) as (f2 & Hk2 & Ef). exists f2. split; [done|].
  rewrite En, found_app in Ef. split.
  - intros Hne. assert (Hne' : eq_name (new_entry raw nm (df_abs f + entry_pos e) begin next) nm' = false) by exact Hne.
    rewrite Hne', <- found_app2, <- Eo in Ef. exact Ef.
  - intros -> Hn. rewrite Eo, found_app2 in Hn. destruct (found nm E1); [done|].
    rewrite new_entry_named in Ef by done. eexists. split; [|split; [exact Ef|]]; [done|].
    assert (En2 : dir_entries f2 = E1 ++ new_entry raw nm (df_abs f + entry_pos e) begin next :: E2).
    { destruct (rest_kept f' f2 0 Hk2) as [Er _]. by rewrite !(proj1 (rest_0 _)), En in Er. }
    destruct (free_entry_removes fuel' f2 E1 _ E2 (proj1 Hk2) En2 ltac:(lia)) as (f3 & Ed & Hf3 & E3). exists f3. by rewrite Eo.
Qed.

(** C9: writing an entry under a name.  A name that is not valid is refused with EINVAL,
    and nothing changes.  Otherwise, if the name does not end in U+FFFF (which is valid,
    but cut off when the name is read: [name_cut] of FatDirOpen.v) and the records behind the end mark of
    the directory are all end marks (those that are not come back: [records_back] there), the
    entry is put into the list of entries and all others stay as they are, or the call
    fails because the volume is full and leaves the list as it is.  A name that was not
    there is found with the new entry, whatever the records between; every name the new
    entry does not answer to is found as before; and deleting the entry that is found
    gives the old list back. *)
Theorem created_entry_found fuel f nm raw : can_write f raw fuel -> clean (dir_recs f) -> Forall scalar nm -> last nm <> Some 0xFFFF ->
  match FName.validate_long_name nm with
  | Ok _ =>
      (exists f', write_entry fuel nm raw f = Some (Err ENOSPC, f') /\ df_ok f' /\ dir_entries f' = dir_entries f)
      \/ (exists e f', write_entry fuel nm raw f = Some (Ok e, f') /\ added f nm raw e f' /\
            forall fuel' want nm', (length (dir_recs f) + 23 <= fuel')%nat ->
            exists f2, kept f' f2 /\
            (eq_name (new_entry raw nm 0 0 0) nm' = false ->
               find_entry fuel' nm' want f' = Some (judged want (found nm' (dir_entries f)), f2))
            /\ (nm' = nm -> found nm (dir_entries f) = None -> exists e', de_data e' = raw
                 /\ find_entry fuel' nm want f' = Some (judged want (Some e'), f2)
                 /\ exists f3, free_all_entries fuel' e' f2 = Some (Ok tt, f3) /\ df_ok f3 /\ dir_entries f3 = dir_entries f))
  | Err e => e = EINVAL /\ write_entry fuel nm raw f = Some (Err EINVAL, f)
  | Panic => False
  end.
Proof.
  intros Hcw Hcl Hs Hlast. destruct (FName.validate_long_name nm) as [[]|e|] eqn:Ev; [by apply created_ok| |].
  - assert (e = EINVAL) as -> by (revert Ev; unfold FName.validate_long_name; repeat case_match; congruence).
    split; [done|]. unfold write_entry, mbind, PT_bind. by rewrite Ev.
  - revert Ev. unfold FName.validate_long_name. repeat case_match; congruence.
Qed.

(** C29: deleting an entry takes it off the list of entries and leaves all others as
    they are, the parts of its long name included; the names are then searched in the
    list that is left. *)
Theorem deleted_entry_gone fuel f E1 e E2 : df_ok f -> dir_entries f = E1 ++ e :: E2 -> (2 <= fuel)%nat ->
  exists f', free_all_entries fuel e f = Some (Ok tt, f') /\ df_ok f' /\ dir_entries f' = E1 ++ E2
    /\ forall fuel' nm want, (length (dir_recs f') + 2 <= fuel')%nat ->
        exists f2, kept f' f2 /\ find_entry fuel' nm want f' = Some (judged want (found nm (E1 ++ E2)), f2).
Proof.
  intros Hf He Hfu. destruct (free_entry_removes fuel f E1 e E2 Hf He Hfu) as (f' & E & Hf' & El). exists f'. split; [done|]. split; [done|].
  split; [done|]. intros fuel' nm want Hfu'. rewrite <- El. by apply find_entry_first.
Qed.
End Writing.
