(* ===== verification/FatDirOpen.v ===== *)
(** * afat32: the directories of a volume

    The file of a directory keeps the promises of [DirSpec], so the theorems on
    entries hold of the volume.  The examples evaluate the operations on paths. *)

From S2P Require Import Prelude Ksc Bytes Path Umio Umifs FatTime FatRaw FatTable FatAlloc FatFs.
From S2P Require Import FatDirent FatName FatShort FatFile FatFileSpec FatFileWrite FatFileOpen FatDir FatDirSpec FatDirWrite.
Import Errno FDirent FDir.

Section DirFile.
Context {D P : Type} `{Bytes.Io D} `{!Bytes.IoSpec D} `{Umio.Io D} `{!ObjSpec D} `{!DevSpec D}.
Context `{FTime.TimeProvider P} `{Nom} `{!NomSpec} `{Unicode}.
Notation Node := (D * FFs.FatFileSystem P * FFile.FatFile)%type.
Implicit Types (s : Node).

Definition cs_of (f : FFile.FatFile) : list Z := (FFile.clusters f).*1.

(** A file of whole records in clusters of whole records, none of them unused. *)
Record dir_ok s : Prop := {
  do_file : file_ok s.1.1 s.1.2 s.2 (cs_of s.2);
  do_shift : 5 <= FFile.cluster_shift s.2;
  do_recs : (32 | FFile.flen s.2);
  do_len : 0 < FFile.flen s.2 < 2 ^ 32;
  do_used : Z.of_nat (length (cs_of s.2)) * 2 ^ FFile.cluster_shift s.2 < FFile.flen s.2 + 2 ^ FFile.cluster_shift s.2;
}.
Definition dir_bytes s : list Z := take (Z.to_nat (FFile.flen s.2)) (file_data s.1.1 s.1.2 (cs_of s.2)).

Lemma cs_of_ok d (fs : FFs.FatFileSystem P) f cs : file_ok d fs f cs -> cs_of f = cs.
Proof. intros Hok. unfold cs_of. rewrite (ok_clusters _ _ _ _ Hok). apply run_ends_fst. Qed.

Lemma length_dir_bytes s : dir_ok s -> Z.of_nat (length (dir_bytes s)) = FFile.flen s.2
  /\ FFile.flen s.2 <= Z.of_nat (length (file_data s.1.1 s.1.2 (cs_of s.2))).
Proof.
  intros [Hok _ _ Hl _]. destruct (ok_shift _ _ _ _ Hok) as [Hsh Esz]. pose proof (ok_len _ _ _ _ Hok).
  pose proof (length_file_data _ _ (cs_of s.2) (FFile.cluster_shift s.2) (ok_fs _ _ _ _ Hok) (ok_range _ _ _ _ Hok) ltac:(lia) Esz).
  unfold dir_bytes. rewrite length_take. lia.
Qed.
Lemma dir_bytes_byte s : Forall byte (dir_bytes s).
Proof.
  unfold dir_bytes, file_data. apply Forall_take, Forall_join, Forall_fmap, Forall_true. intros c.
  apply Forall_take, Forall_drop, io_byte.
Qed.

Lemma dir_clusters s : dir_ok s -> exists c r, cs_of s.2 = c :: r /\ 2 <= c < 2 ^ 32.
Proof.
  intros [Hok _ _ Hl _]. pose proof (ok_len _ _ _ _ Hok) as Hlen. destruct (cs_of s.2) as [|c r]; [simpl in Hlen; lia|].
  exists c, r. split; [done|]. pose proof (ok_range _ _ _ _ Hok) as [Hc _]%Forall_cons. cbv beta in Hc.
  destruct (fs_fat _ _ (ok_fs _ _ _ _ Hok)) as [_ Hcc _ _ _]. unfold last_cluster in Hc. lia.
Qed.
Lemma dir_started s : dir_ok s -> exists c, head (cs_of s.2) = Some c
  /\ FFile.abs_start_pos s.2 = Some (c * 2 ^ FFile.cluster_shift s.2) /\ 0 <= c * 2 ^ FFile.cluster_shift s.2 < 2 ^ 63.
Proof.
  intros Hs. destruct (dir_clusters s Hs) as (c & r & Ec & Hc). exists c. rewrite Ec. split; [done|].
  destruct (ok_shift _ _ _ _ (do_file _ Hs)) as [Hsh _]. destruct (shl_clusters c _ Hsh ltac:(lia)) as [E Hb]. split; [|done].
  unfold FFile.abs_start_pos, FFile.first_cluster. unfold cs_of in Ec. destruct (FFile.clusters s.2) as [|[x y] l]; [done|].
  injection Ec as -> _. cbn [head fmap option_fmap option_map fst]. by rewrite E.
Qed.

(** Offsets of records in clusters of whole records. *)
Lemma record_fits sh off : 5 <= sh -> (32 | off) -> 0 <= off -> off mod 2 ^ sh + 32 <= 2 ^ sh.
Proof.
  intros Hsh [q ->] Hq. replace (2 ^ sh) with (32 * 2 ^ (sh - 5)) by (change 32 with (2 ^ 5); rewrite <- Z.pow_add_r by lia; f_equal; lia).
  pose proof (pow2_pos (sh - 5) ltac:(lia)). rewrite (Z.mul_comm q), Z.mul_mod_distr_l by lia.
  pose proof (Z.mod_pos_bound q (2 ^ (sh - 5)) ltac:(lia)). lia.
Qed.
Lemma divide_gap a b : (32 | a) -> (32 | b) -> a < b -> a + 32 <= b.
Proof. intros [x ->] [y ->] Hlt. lia. Qed.

Lemma dir_ok_accessed d d' fs f : io_bytes d' = io_bytes d -> dir_ok (d, fs, f) ->
  dir_ok (d', fs, FatFileSpec.accessed fs f) /\ dir_bytes (d', fs, FatFileSpec.accessed fs f) = dir_bytes (d, fs, f).
Proof.
  intros Eb [Hok Hsh Hr Hl Hu]. split.
  - split; try done. by apply (file_ok_bytes d), accessed_ok.
  - unfold dir_bytes. cbn [fst snd]. f_equal. unfold file_data. f_equal. apply list_fmap_ext. intros i c _.
    unfold cluster_data. by rewrite Eb.
Qed.

Lemma take_splice (l bs : list Z) (n off : Z) : 0 <= off <= n -> n <= Z.of_nat (length l) -> off + Z.of_nat (length bs) <= Z.of_nat (length l) ->
  take (Z.to_nat (Z.max n (off + Z.of_nat (length bs)))) (splice l off bs) = splice (take (Z.to_nat n) l) off bs.
Proof.
  intros Ho Hn Hl. unfold splice. set (o := Z.to_nat off). set (m := Z.to_nat (Z.max _ _)).
  assert (E1 : take o (take (Z.to_nat n) l) = take o l) by (rewrite take_take; f_equal; lia).
  assert (E2 : drop (o + length bs) (take (Z.to_nat n) l) = take (m - (o + length bs)) (drop (o + length bs) l))
    by (rewrite skipn_firstn_comm; f_equal; lia).
  rewrite E1, E2. replace m with (length (take o l) + (length bs + (m - (o + length bs))))%nat at 1 by (rewrite length_take; lia).
  rewrite take_app_add. by rewrite take_app_add.
Qed.

(** ** Reading and writing records *)
Lemma dir_read fuel s off : dir_ok s -> (32 | off) -> 0 <= off <= FFile.flen s.2 -> (32 < fuel)%nat ->
  exists s', pt_run (FFile.read_at fuel off [Umio.room 32]) s = Some (Ok (slice_at (dir_bytes s) off 32), s')
    /\ dir_ok s' /\ dir_bytes s' = dir_bytes s /\ FFile.abs_start_pos s'.2 = FFile.abs_start_pos s.2.
Proof.
  intros Hs Hoff Ho Hf. destruct (length_dir_bytes s Hs) as [Hl Hfl]. pose proof Hs as [Hok Hsh Hr Hlen Hu]. destruct s as [[d fs] f]. cbn [fst snd] in *.
  destruct (Z.eq_dec off (FFile.flen f)) as [->|Hne].
  - destruct (read_at_end d fs f (cs_of f) [Umio.room 32] fuel Hok ltac:(lia) Hu ltac:(lia)) as (f' & E & Hf').
    exists (d, fs, f'). unfold pt_run. rewrite E. split.
    { unfold slice_at. rewrite drop_ge by lia. done. }
    destruct Hf' as [->| ->]; [done|]. destruct (dir_ok_accessed d d fs f eq_refl Hs). done.
  - pose proof (divide_gap off (FFile.flen f) Hoff Hr ltac:(lia)) as Hgap. pose proof (record_fits _ off Hsh Hoff ltac:(lia)) as Hfit.
    destruct (read_inside d fs f (cs_of f) off [Umio.room 32] fuel Hok) as (c & e & d' & Hrun & _ & E & Eb & _);
      [lia|done|by apply Forall_singleton|done|done|]. change (stotal [Umio.room 32]) with 32 in E.
    assert (Hce : c <= e) by (eapply run_end_pos; [eapply volume_small; [apply Hok|apply (ok_range _ _ _ _ Hok)]|exact Hrun]).
    pose proof (pow2_pos (FFile.cluster_shift f) ltac:(lia)).
    pose proof (mul_le 1 (e + 1 - c) (2 ^ FFile.cluster_shift f) ltac:(lia) ltac:(lia)). rewrite Z.min_l in E by lia.
    destruct (dir_ok_accessed d d' fs f Eb Hs) as [Hs' Eby]. exists (d', fs, FatFileSpec.accessed fs f). unfold pt_run. rewrite E. split; [|done].
    do 2 f_equal. unfold dir_bytes, slice_at. cbn [fst snd]. rewrite skipn_firstn_comm, take_take, Nat.min_l by lia. done.
Qed.

Lemma dir_stored d fs f d' fs' f' new off bs k : dir_ok (d, fs, f) -> length bs = 32%nat -> (32 | off) -> 0 <= off <= FFile.flen f -> off + 32 < 2 ^ 32 ->
  in_volume fs (cs_of f ++ new) -> off + 32 <= Z.of_nat (length (cs_of f ++ new)) * 2 ^ FFile.cluster_shift f ->
  Z.of_nat (length (cs_of f ++ new)) * 2 ^ FFile.cluster_shift f < Z.max (FFile.flen f) (off + 32) + 2 ^ FFile.cluster_shift f ->
  stored d fs f (cs_of f) off bs new k d' fs' f' ->
  k = 32 /\ dir_ok (d', fs', f') /\ dir_bytes (d', fs', f') = splice (dir_bytes (d, fs, f)) off bs
  /\ FFile.abs_start_pos f' = FFile.abs_start_pos f.
Proof.
  intros Hs Hb Hoff Ho Hlim Hvol Hroom Hused Hst. pose proof Hs as [Hok Hsh Hr Hlen Hu]. cbn [fst snd] in *.
  destruct (length_dir_bytes _ Hs) as [Hl Hfl]. cbn [fst snd] in *. destruct (ok_shift _ _ _ _ Hok) as [Hsh' Esz].
  pose proof (record_fits _ off Hsh Hoff ltac:(lia)) as Hfit. destruct Hst as [Hk Hkc _ Hsf Hok' Hlen' _ _ Hdata _]. unfold Umio.len in *. rewrite Hb in *.
  assert (k = 32) as -> by lia. split; [done|]. pose proof (cs_of_ok _ _ _ _ Hok') as Ecs.
  assert (Hs' : dir_ok (d', fs', f')).
  { split; cbn [fst snd]; rewrite ?Ecs, ?Hsf; try done; rewrite Hlen'; try done; [|lia].
    destruct (Z.max_spec (FFile.flen f) (off + 32)) as [[_ ->]|[_ ->]]; [|done]. apply Z.divide_add_r; [done|by exists 1]. }
  split; [done|]. split.
  - unfold dir_bytes. cbn [fst snd]. rewrite Ecs, Hdata, Hlen'. change (Z.to_nat 32) with 32%nat. rewrite (take_ge bs) by lia.
    pose proof (length_file_data d fs (cs_of f ++ new) (FFile.cluster_shift f) (ok_fs _ _ _ _ Hok) Hvol ltac:(lia) Esz) as Hln.
    assert (Et : take (Z.to_nat (FFile.flen f)) (file_data d fs (cs_of f)) = take (Z.to_nat (FFile.flen f)) (file_data d fs (cs_of f ++ new))).
    { unfold file_data. rewrite fmap_app, join_app, take_app_le; [done|]. fold (file_data d fs (cs_of f)). lia. }
    rewrite Et. replace 32 with (Z.of_nat (length bs)) by lia. apply take_splice; [lia| |lia].
    rewrite Hln, length_app. pose proof (ok_len _ _ _ _ Hok). pose proof (pow2_pos (FFile.cluster_shift f) ltac:(lia)).
    pose proof (mul_le (Z.of_nat (length (cs_of f))) (Z.of_nat (length (cs_of f) + length new)) (2 ^ FFile.cluster_shift f) ltac:(lia) ltac:(lia)). lia.
  - destruct (dir_started _ Hs) as (c & Hc & E0 & _). destruct (dir_started _ Hs') as (c' & Hc' & E & _). cbn [snd] in *. rewrite E, E0, Hsf.
    rewrite Ecs in Hc'. destruct (cs_of f) as [|x r]; [done|]. simpl in Hc, Hc'. congruence.
Qed.

Lemma dir_write fuel s off bs : dir_ok s -> (32 | off) -> 0 <= off <= FFile.flen s.2 -> off + 32 < 2 ^ 32 ->
  length bs = 32%nat -> Forall byte bs -> (32 < fuel)%nat ->
  (exists s', pt_run (FFile.write_at fuel off [bs]) s = Some (Ok 32, s')
     /\ dir_ok s' /\ dir_bytes s' = splice (dir_bytes s) off bs /\ FFile.abs_start_pos s'.2 = FFile.abs_start_pos s.2)
  \/ (off = FFile.flen s.2 /\ pt_run (FFile.write_at fuel off [bs]) s = Some (Err ENOSPC, s)).
Proof.
  intros Hs Hoff Ho Hlim Hb Hby Hf. pose proof Hs as [Hok Hsh Hr Hlen Hu]. destruct s as [[d fs] f]. cbn [fst snd] in *.
  pose proof (ok_len _ _ _ _ Hok) as Hll. pose proof (pow2_pos (FFile.cluster_shift f) ltac:(lia)) as HN. set (N := 2 ^ FFile.cluster_shift f) in *.
  assert (Hj : mjoin [bs] = bs) by apply app_nil_r. assert (Hlb : Umio.len bs = 32) by (unfold Umio.len; by rewrite Hb).
  assert (Hne : Forall (fun b => b <> []) [bs]) by (apply Forall_singleton; by intros ->).
  pose proof (record_fits _ off Hsh Hoff ltac:(lia)) as Hfit. fold N in Hfit. pose proof (Z.div_mod off N ltac:(lia)) as Hdm.
  pose proof (Z.mod_pos_bound off N HN) as Hmb.
  destruct (Z.lt_ge_cases off (Z.of_nat (length (cs_of f)) * N)) as [Hin|Hout]; [left|].
  - destruct (write_inside d fs f (cs_of f) off [bs] fuel Hok) as (k & d' & f' & E & Hst); rewrite ?Hj, ?Hlb; try done; [fold N; lia|lia|].
    rewrite Hj in Hst.
    assert (Hr32 : off + 32 <= Z.of_nat (length (cs_of f)) * N).
    { pose proof (mul_lt (off / N) (Z.of_nat (length (cs_of f))) N HN) as Hm.
      assert (off / N < Z.of_nat (length (cs_of f))) by (apply Z.div_lt_upper_bound; lia). lia. }
    destruct (dir_stored d fs f d' fs f' [] off bs k Hs Hb Hoff Ho Hlim) as (-> & Hs' & Ed & Ea); rewrite ?app_nil_r; fold N; try (done || lia).
    { apply (ok_range _ _ _ _ Hok). }
    exists (d', fs, f'). unfold pt_run. by rewrite E.
  - assert (Eo : off = FFile.flen f) by lia. assert (Eo2 : off = Z.of_nat (length (cs_of f)) * N) by lia.
    destruct (write_behind_end d fs f (cs_of f) off [bs] fuel Hok ltac:(lia)) as [(new & k & d' & fs' & f' & E & Hst)|[E _]];
      rewrite ?Hj, ?Hlb; try done; [fold N; rewrite Eo2; apply Z.div_mul; lia|lia| |right; unfold pt_run; by rewrite E].
    left. rewrite Hj in Hst. pose proof Hst as [_ _ Hn Hsf Hok' _ [Ef Ebp] _ _ _]. fold N in Hn. rewrite Hlb in Hn.
    assert (Hnew : (length new <= 1)%nat).
    { assert ((32 + (N - 1)) / N < 2) by (apply Z.div_lt_upper_bound; lia). lia. }
    assert (Hvol : in_volume fs (cs_of f ++ new)) by (pose proof (ok_range _ _ _ _ Hok') as Hv; unfold in_volume in *; by rewrite Ef in Hv).
    pose proof (ok_len _ _ _ _ Hok') as Hl'. rewrite (st_len _ _ _ _ _ _ _ _ _ _ _ Hst), Hsf, length_app in Hl'. fold N in Hl'.
    pose proof (st_some _ _ _ _ _ _ _ _ _ _ _ Hst) as Hk0.
    assert (Hnl : length new = 1%nat). { destruct new; [simpl in Hl'; rewrite Nat.add_0_r in Hl'; lia|simpl in *; lia]. }
    destruct (dir_stored d fs f d' fs' f' new off bs k Hs Hb Hoff Ho Hlim Hvol) as (-> & Hs' & Ed & Ea);
      [rewrite length_app, Hnl; fold N; lia|rewrite length_app, Hnl; fold N; lia|done|].
    exists (d', fs', f'). unfold pt_run. by rewrite E.
Qed.

(** The files of the volume as the files of directories. *)
#[export] Program Instance FatFile_dir_spec (fuel : nat) (Hf : (32 < fuel)%nat) : DirSpec (H := FatFile_dir fuel) Node := {|
  df_ok := dir_ok;
  df_data := dir_bytes;
  df_abs s := default 0 (FFile.abs_start_pos s.2);
|}.
Next Obligation.
  intros fuel Hf s Hs. destruct (length_dir_bytes s Hs) as [-> _]. destruct (do_len _ Hs). split; [apply (do_recs _ Hs)|]. split; [done|apply dir_bytes_byte].
Qed.
Next Obligation. intros fuel Hf s Hs. destruct (dir_started s Hs) as (c & _ & E & Hb). cbn. by rewrite E. Qed.
Next Obligation.
  intros fuel Hf s off Hs Hoff Ho. destruct (length_dir_bytes s Hs) as [El _]. rewrite El in Ho.
  destruct (dir_read fuel s off Hs Hoff Ho Hf) as (s' & E & Hs' & Ed & Ea). exists s'. split; [exact E|]. by rewrite Ea.
Qed.
Next Obligation.
  intros fuel Hf s off bs Hs Hoff Ho Hlim Hb Hby. destruct (length_dir_bytes s Hs) as [El _]. rewrite El in *.
  destruct (dir_write fuel s off bs Hs Hoff Ho Hlim Hb Hby Hf) as [(s' & E & Hs' & Ed & Ea)|[Eo E]]; [left|by right].
  exists s'. split; [exact E|]. by rewrite Ea.
Qed.
End DirFile.

(** ** A volume of six clusters of eight records *)
Definition small_bpb : FRaw.BiosParameterBlock :=
  FRaw.mk_bpb 32 8 1 1 0 0 0xF8 0 1 1 0 50 1 0 0 2 1 0 128 0 0x29 1 (replicate 11 32) (replicate 8 32).
Definition small_fs : FFs.FatFileSystem FTime.NullTimeProvider :=
  FFs.mk_fs (FT.mk_fat 32 6 1) small_bpb (FRaw.mk_fis (Some 5) (Some 3) false) 0 FTime.null_time_provider.
(** The root directory has the file OLD; the free clusters hold old data. *)
Definition old_entry : DirFileEntryData := file_new [79; 76; 68; 32; 32; 32; 32; 32; 32; 32; 32] ARCHIVE.
Definition small_disk : RamDisk.
Proof.
  refine (mk_disk (replicate 32 0 ++ mjoin (le_bytes 4 <$> [0x0FFFFFF8; 0x0FFFFFFF; 0x0FFFFFFF; 0; 0; 0; 0; 0])
    ++ file_to_bytes old_entry ++ replicate 224 0 ++ replicate 1280 7) _).
  apply (bool_decide_unpack (Forall byte _)). vm_compute. exact I.
Defined.
Definition small_root : FFile.FatFile := FFile.mk_file [(2, 2)] 8 448 None 256 0.
Notation SmallNode := (RamDisk * FFs.FatFileSystem FTime.NullTimeProvider * FFile.FatFile)%type.
Definition small : SmallNode := (small_disk, small_fs, small_root).
Lemma fuel_99 : (32 < 99)%nat.
Proof. lia. Qed.
#[local] Instance small_dir : DirFile SmallNode := FatFile_dir 99.
#[local] Instance small_spec : DirSpec SmallNode := FatFile_dir_spec 99 fuel_99.

Lemma small_ok : fs_ok small_disk small_fs.
Proof.
  split.
  - split; vm_compute; repeat split; congruence.
  - split; [split; try (unfold fits; simpl; lia); reflexivity|reflexivity|reflexivity|vm_compute; congruence|vm_compute; congruence].
  - reflexivity.
  - vm_compute. congruence.
  - vm_compute. congruence.
  - intros h [= <-]. lia.
Qed.
Lemma small_root_ok : dir_ok small.
Proof.
  split; [|simpl; lia|by exists 8|simpl; lia|simpl; lia]. split.
  - apply small_ok.
  - split; [simpl; lia|reflexivity].
  - reflexivity.
  - apply (bool_decide_unpack (NoDup [2])). vm_compute. exact I.
  - apply (bool_decide_unpack (Forall _ _)). vm_compute. exact I.
  - split; [vm_compute; reflexivity|exact I].
  - simpl. lia.
  - done.
Qed.
(** What opening the root directory returns. *)
Example small_root_opened : (fun x => x.1) <$> root_dir 99 (small_disk, small_fs) = Some (Ok small_root).
Proof. vm_compute. reflexivity. Qed.

Definition old_dirent : DirEntry := mk_dirent old_entry (ShortName_new (name old_entry)) [] 512 (0, 32).
Lemma small_recs : dir_recs small = File old_entry :: replicate 7 (File (file_new (replicate 11 0) 0)).
Proof. vm_compute. reflexivity. Qed.
Lemma small_entries : dir_entries small = [old_dirent].
Proof. vm_compute. reflexivity. Qed.

Lemma next_dirent_lists_witness : exists s', kept small s' /\ next_dirent 99 None true small = Some (Ok (Some old_dirent), s').
Proof.
  destruct (next_dirent_lists 99 small 0) as (s' & Hk & E); [apply small_root_ok|lia|rewrite small_recs; simpl; lia|].
  rewrite small_entries in E. exists s'. split; [exact Hk|exact E].
Defined.

(** "New" is not there: its short name is free. *)
Lemma check_for_existence_spec_witness : exists s' sn, kept small s' /\ sn <> name old_entry /\
  check_for_existence 99 [78; 101; 119] None small = Some (Ok (AShortName sn), s').
Proof.
  destruct (check_for_existence_spec 99 [78; 101; 119] None small) as (s' & r & Hk & E & Hr);
    [apply small_root_ok|rewrite small_recs; simpl; lia|rewrite small_entries; reflexivity|].
  rewrite small_entries in Hr. vm_compute (found _ _) in Hr. destruct Hr as (sn & -> & Hn). exists s', sn. split; [exact Hk|]. split; [|exact E].
  intros ->. apply Hn. apply list_elem_of_here.
Defined.

Definition new_raw : DirFileEntryData := file_new [78; 69; 87; 32; 32; 32; 32; 32; 32; 32; 32] 0.
Lemma small_clean : clean (dir_recs small).
Proof.
  rewrite small_recs. apply (clean_app [File old_entry]); [apply Forall_singleton; reflexivity|].
  apply all_ended, Forall_replicate. reflexivity.
Qed.
Lemma small_can_write : can_write small new_raw 99.
Proof.
  split.
  - apply small_root_ok.
  - split; [|split].
    + split; try (unfold fits; vm_compute; split; congruence). split_and!; [unfold fits; vm_compute; split; congruence|reflexivity|reflexivity].
    + split; [reflexivity|]. split; [apply (bool_decide_unpack (Forall byte _)); vm_compute; exact I|]. unfold byte. simpl. lia.
    + split_and!; reflexivity.
  - rewrite small_recs. simpl. lia.
  - rewrite small_recs. simpl. lia.
Qed.
Lemma created_entry_found_witness : exists e s' s2 s3 e', write_entry 99 [78; 101; 119] new_raw small = Some (Ok e, s')
  /\ find_entry 99 [78; 101; 119] None s' = Some (Ok e', s2) /\ de_data e' = new_raw
  /\ free_all_entries 99 e' s2 = Some (Ok tt, s3) /\ dir_entries s3 = [old_dirent].
Proof.
  assert (Hw : match write_entry 99 [78; 101; 119] new_raw small with Some (Ok _, _) => true | _ => false end = true) by (vm_compute; reflexivity).
  destruct (created_entry_found 99 small [78; 101; 119] new_raw) as [(s' & E & _)|(e & s' & E & _ & Hfind)].
  - apply small_can_write.
  - apply small_clean.
  - apply Forall_forall. intros c Hc. left. revert c Hc. apply Forall_forall. apply (bool_decide_unpack (Forall _ _)). vm_compute. exact I.
  - discriminate.
  - rewrite E in Hw. discriminate Hw.
  - destruct (Hfind 99%nat None [78; 101; 119]) as (s2 & _ & _ & Hf); [rewrite small_recs; simpl; lia|].
    destruct (Hf eq_refl) as (e' & Ed & Ef & s3 & E3 & _ & El); [rewrite small_entries; reflexivity|].
    exists e, s', s2, s3, e'. rewrite small_entries in El. split_and!; [exact E|exact Ef|exact Ed|exact E3|exact El].
Defined.

Lemma deleted_entry_gone_witness : exists s' s2, free_all_entries 99 old_dirent small = Some (Ok tt, s') /\ dir_entries s' = []
  /\ find_entry 99 [79; 76; 68] None s' = Some (Err ENOENT, s2).
Proof.
  destruct (deleted_entry_gone 99 small [] old_dirent []) as (s' & E & _ & El & Hfind); [apply small_root_ok|apply small_entries|lia|].
  assert (Hl : match free_all_entries 99 old_dirent small with Some (_, s) => (length (dir_recs s) + 2 <=? 99)%nat | None => false end = true)
    by (vm_compute; reflexivity).
  rewrite E in Hl. apply Nat.leb_le in Hl. destruct (Hfind 99%nat [79; 76; 68] None Hl) as (s2 & _ & Ef).
  exists s', s2. split_and!; [exact E|exact El|exact Ef].
Defined.

(** ** Paths *)
Definition after {A} (o : option (res Error A * SmallNode)) : SmallNode := match o with Some (_, s) => s | None => small end.
Definition result {A S} (o : option (res Error A * S)) : option (res Error A) := fst <$> o.
Definition made {A} (dflt : A) (o : option (res Error (A * bool))) : A := match o with Some (Ok (a, _)) => a | _ => dflt end.

(** Creating the directory "d" in the root directory. *)
Definition with_d : option (res Error (FFile.FatFile * bool) * SmallNode) := run (create_dir 99 [100]) small.
Definition dir_d : FFile.FatFile := made small_root (result with_d).

(** Creating it again fails: the existing entry is asked to be a file. *)
Example create_dir_again : result (run (create_dir 99 [100]) (after with_d)) = Some (Err EISDIR).
Proof. vm_compute. reflexivity. Qed.

(** The first cluster of a new directory keeps the data that was there: the new
    directory starts with the eight records of it and gets a second cluster. *)
Example create_dir_old_data :
  FFile.clusters dir_d = [(3, 4); (4, 4)]
  /\ (raw_name <$> dir_entries ((after with_d).1, dir_d)) =
     replicate 8 (replicate 11 7) ++ [FShort.generate_dot; FShort.generate_dotdot].
Proof. vm_compute. split; reflexivity. Qed.

(** The same volume with empty clusters: "d" in the root directory with the file "x"
    in it, and behind it "a" and "b" in the root directory. *)
Definition blank_disk : RamDisk.
Proof.
  refine (mk_disk (replicate 32 0 ++ mjoin (le_bytes 4 <$> [0x0FFFFFF8; 0x0FFFFFFF; 0x0FFFFFFF; 0; 0; 0; 0; 0])
    ++ file_to_bytes old_entry ++ replicate 1504 0) _).
  apply (bool_decide_unpack (Forall byte _)). vm_compute. exact I.
Defined.
Definition tree : SmallNode :=
  let s := after (run (create_dir 99 [100]) (blank_disk, small_fs, small_root)) in
  let s := after (run (create_file 99 [100; 47; 120]) s) in
  let s := after (run (create_file 99 [97]) s) in
  after (run (create_file 99 [98]) s).
Definition names (s : SmallNode) : list (list Z) := file_name <$> dir_entries s.
Definition names_in_d (s : SmallNode) : option (list (list Z)) :=
  match result (run (open_dir 99 [100]) s) with Some (Ok d) => Some (names (s.1, d)) | _ => None end.

Example tree_listed :
  names tree = [[79; 76; 68]; [100]; [97]; [98]] /\ names_in_d tree = Some [[46]; [46; 46]; [120]].
Proof. vm_compute. split; reflexivity. Qed.

(** A name that ends in U+FFFF is valid, but the unit is taken for padding when the name
    is read: the entry has another name, and the one it was written under is not found. *)
Example name_cut : let s := after (write_entry 99 [78; 0xFFFF] new_raw (blank_disk, small_fs, small_root)) in
  FName.validate_long_name [78; 0xFFFF] = Ok tt /\ names s = [[79; 76; 68]; [78]] /\
  result (find_entry 99 [78; 0xFFFF] None s) = Some (Err ENOENT).
Proof. vm_compute. split_and!; reflexivity. Qed.

(** Two records of end marks with a record of another file behind them.  An entry that is
    written over the two makes the file an entry of the directory. *)
Definition stale_disk : RamDisk.
Proof.
  refine (mk_disk (replicate 32 0 ++ mjoin (le_bytes 4 <$> [0x0FFFFFF8; 0x0FFFFFFF; 0x0FFFFFFF; 0; 0; 0; 0; 0])
    ++ replicate 64 0 ++ file_to_bytes old_entry ++ replicate 1440 0) _).
  apply (bool_decide_unpack (Forall byte _)). vm_compute. exact I.
Defined.
Example records_back : let s := (stale_disk, small_fs, small_root) in
  names s = [] /\ names (after (write_entry 99 [78; 101; 119] new_raw s)) = [[78; 101; 119]; [79; 76; 68]].
Proof. vm_compute. split; reflexivity. Qed.

(** Removing "d/x" from the root directory leaves "x" where it is: the records at the
    same offsets of the root directory are freed, and "a" is gone. *)
Definition removed_x : option (res Error unit * SmallNode) := unlink 99 [100; 47; 120] (Some false) tree.
Example remove_elsewhere :
  result removed_x = Some (Ok tt) /\ names (after removed_x) = [[79; 76; 68]; [100]; [66]]
  /\ names_in_d (after removed_x) = Some [[46]; [46; 46]; [120]].
Proof. vm_compute. split_and!; reflexivity. Qed.

(** Renaming "d/x" is an error, as "x" is searched in the root directory; renaming
    "d/a" renames "a" of the root directory. *)
Definition renamed_in (src dst : list Z) := rename 99 src dst (mk_pair tree.1 tree.2 None).
Example rename_elsewhere :
  result (renamed_in [100; 47; 120] [121]) = Some (Err ENOENT)
  /\ (fun '(r, p) => (r, names (pvol p, src_dir p))) <$> renamed_in [100; 47; 97] [100; 47; 121]
     = Some (Ok tt, [[79; 76; 68]; [100]; [121]; [98]]).
Proof. vm_compute. split; reflexivity. Qed.

(** The entry of a new file is kept with its offset in the directory: flushing the
    file writes it at that offset of the device, here over the entry of OLD. *)
Definition new_file : option (res Error (FFile.FatFile * bool) * SmallNode) := run (create_file 99 [97; 46; 98]) (blank_disk, small_fs, small_root).
Definition flushed : SmallNode :=
  (FFile.flush (FFile.write_at 99 0 [[1; 2; 3]] ((after new_file).1, made small_root (result new_file))).2).2.
Example flush_elsewhere :
  names (after new_file) = [[79; 76; 68]; [97; 46; 98]] /\ names ((flushed.1, small_root)) = [[65; 46; 66]; [97; 46; 98]]
  /\ (fun e => size (de_data e)) <$> dir_entries (flushed.1, small_root) = [3; 0].
Proof. vm_compute. split_and!; reflexivity. Qed.
