(* ===== verification/Conc.v ===== *)
(** * Concurrent programs on shared memory

    The locks and channels of mizu/lib/ksync are used by several harts at once.
    An operation of theirs is a program whose steps on the shared memory are
    atomic: one [compare_exchange], one [fetch_add], one call of the event
    library.  Threads run such programs in any interleaving; the memory is
    sequentially consistent.  The file ends with a program logic: an invariant of
    the shared memory and of what each thread owns, kept by every step. *)

From S2P Require Import Prelude.

(** ** Programs

    [Now] takes an input from outside: the clock, or whether a weak
    [compare_exchange] fails for no reason.  [Suspend] is a future that returned [Pending]: its
    task sleeps until it is polled again ([true]) or the future is dropped
    ([false]).  [Stop] is a panic; [Spent] is a loop that used up the bound on
    its iterations. *)
Inductive prog (S A : Type) : Type :=
| Ret (a : A)
| Stop
| Spent
| Atomic (B : Type) (f : S -> B * S) (k : B -> prog S A)
| Now (k : Z -> prog S A)
| Suspend (k : bool -> prog S A).
Arguments Ret {S A} a.
Arguments Stop {S A}.
Arguments Spent {S A}.
Arguments Atomic {S A B} f k.
Arguments Now {S A} k.
Arguments Suspend {S A} k.

Fixpoint prog_bind {S A B} (p : prog S A) (f : A -> prog S B) : prog S B :=
  match p with
  | Ret a => f a
  | Stop => Stop
  | Spent => Spent
  | Atomic h k => Atomic h (fun b => prog_bind (k b) f)
  | Now k => Now (fun z => prog_bind (k z) f)
  | Suspend k => Suspend (fun b => prog_bind (k b) f)
  end.

#[export] Instance prog_ret S : MRet (prog S) := fun A a => Ret a.
#[export] Instance prog_mbind S : MBind (prog S) := fun A B f p => prog_bind p f.

Definition atomic {S B} (f : S -> B * S) : prog S B := Atomic f (fun b => Ret b).
Definition now {S} : prog S Z := Now (fun z => Ret z).
Definition of_res {S E A} (r : res E A) : prog S A :=
  match r with Ok a => Ret a | _ => Stop end.

(** A program on a part of the memory. *)
Fixpoint zoom {S T A} (get : S -> T) (put : T -> S -> S) (p : prog T A) : prog S A :=
  match p with
  | Ret a => Ret a
  | Stop => Stop
  | Spent => Spent
  | Atomic h k =>
      Atomic (fun s => let '(b, t) := h (get s) in (b, put t s)) (fun b => zoom get put (k b))
  | Now k => Now (fun z => zoom get put (k z))
  | Suspend k => Suspend (fun b => zoom get put (k b))
  end.

(** ** core::sync::atomic: an integer of width [w] in the memory *)
Record cell (S : Type) := mk_cell { c_get : S -> Z; c_put : Z -> S -> S; c_width : Z }.
Arguments mk_cell {S}.
Arguments c_get {S}.
Arguments c_put {S}.
Arguments c_width {S}.

Section Atomics.
Context {S : Type} (c : cell S).

Definition load : prog S Z := atomic (fun s => (c_get c s, s)).
Definition update (f : Z -> Z) : prog S Z := atomic (fun s => (c_get c s, c_put c (f (c_get c s)) s)).
Definition fetch_add (n : Z) : prog S Z := update (fun x => wadd (c_width c) x n).
Definition fetch_sub (n : Z) : prog S Z := update (fun x => wsub (c_width c) x n).
Definition fetch_or (n : Z) : prog S Z := update (fun x => Z.lor x n).
Definition fetch_and (n : Z) : prog S Z := update (fun x => Z.land x n).
Definition swap (n : Z) : prog S Z := update (fun _ => n).
Definition compare_exchange (old new : Z) : prog S (res Z Z) :=
  atomic (fun s => let x := c_get c s in if x =? old then (Ok x, c_put c new s) else (Err x, s)).
End Atomics.

(** A weak one may fail although it finds [old]. *)
Definition compare_exchange_weak {S} (c : cell S) (old new : Z) : prog S (res Z Z) :=
  z ← now;
  if z =? 0 then x ← load c; Ret (Err x) else compare_exchange c old new.

(** [Result::unwrap_or_else(|x| x)] *)
Definition either_of (r : res Z Z) : Z := match r with Ok x | Err x => x | Panic => 0 end.

(** ** Futures

    [await]: poll until ready and drop the future; a sleeping future may be
    dropped before that, which ends the operation with [None]. *)
Inductive poll (A : Type) := Ready (a : A) | Pending.
Arguments Ready {A} a.
Arguments Pending {A}.

Fixpoint await {S F A} (poll_fut : F -> prog S (poll A * F)) (drop_fut : F -> prog S unit)
    (n : nat) (fut : F) : prog S (option A) :=
  match n with
  | O => Spent
  | Datatypes.S n' =>
      '(r, fut') ← poll_fut fut;
      match r with
      | Ready a => _ ← drop_fut fut'; Ret (Some a)
      | Pending =>
          Suspend (fun again =>
            if again then await poll_fut drop_fut n' fut' else _ ← drop_fut fut'; Ret None)
      end
  end.

(** A program run alone, with the input [inp] wherever it takes one: its result,
    unless it panics, sleeps or uses up its bound. *)
Fixpoint solo {S A} (inp : Z) (p : prog S A) (s : S) : option (A * S) :=
  match p with
  | Ret a => Some (a, s)
  | Atomic h k => let '(b, s') := h s in solo inp (k b) s'
  | Now k => solo inp (k inp) s
  | _ => None
  end.

(** ** Threads

    A thread owns values of its own (guards, say) and runs a list of commands.
    [start c l] is what the command [c] does in a thread that owns [l]: what the
    thread still owns while the program runs, and the program, which returns what
    the thread owns afterwards; [None] when the command needs a value the thread
    does not own. *)
Section Threads.
Context {S L C : Type} (start : C -> L -> option (L * prog S L)).

Record thread := mk_thread { t_owns : L; t_run : option (prog S L); t_todo : list C }.

Definition prog_step (inp : Z) (p : prog S L) (s : S) : option (prog S L * S) :=
  match p with
  | Atomic h k => let '(b, s') := h s in Some (k b, s')
  | Now k => Some (k inp, s)
  | Suspend k => Some (k (negb (inp =? 0)), s)
  | _ => None
  end.

Definition thread_step (inp : Z) (t : thread) (s : S) : option (thread * S) :=
  match t_run t with
  | None =>
      match t_todo t with
      | [] => None
      | c :: cs =>
          match start c (t_owns t) with
          | None => Some (mk_thread (t_owns t) None cs, s)
          | Some (l, p) => Some (mk_thread l (Some p) cs, s)
          end
      end
  | Some (Ret l) => Some (mk_thread l None (t_todo t), s)
  | Some p =>
      '(p', s') ← prog_step inp p s;
      Some (mk_thread (t_owns t) (Some p') (t_todo t), s')
  end.

Definition config : Type := list thread * S.

(** One step of the thread [ev.1], with the input [ev.2]. *)
Definition step (ev : nat * Z) (c : config) : config :=
  match c.1 !! ev.1 with
  | Some t =>
      match thread_step ev.2 t c.2 with
      | Some (t', s') => (<[ev.1 := t']> c.1, s')
      | None => c
      end
  | None => c
  end.

Definition run (sched : list (nat * Z)) (c : config) : config := foldl (fun c ev => step ev c) c sched.

(** The threads at the start: each owns [l] and has a list of commands. *)
Definition spawn (l : L) (scripts : list (list C)) : list thread := mk_thread l None <$> scripts.
(** The same, each with values of its own. *)
Definition spawn_each (us : list (L * list C)) : list thread := (fun u => mk_thread u.1 None u.2) <$> us.

Definition idle (t : thread) : bool := match t_run t with None => true | _ => false end.
Definition sleeping (t : thread) : bool :=
  match t_run t with Some (Suspend _) => true | _ => false end.
Definition stopped (t : thread) : bool := match t_run t with Some Stop => true | _ => false end.
(** No thread is in the middle of an operation, sleeping ones aside. *)
Definition quiet (ts : list thread) : bool := forallb (fun t => idle t || sleeping t) ts.
End Threads.
Arguments thread : clear implicits.
Arguments mk_thread {S L C}.
Arguments config : clear implicits.

(** ** A logic for programs on shared memory

    [Inv s gs] relates the memory to what each thread owns, the ghost values
    [gs].  [wp i K p Q g]: run by the thread [i], which owns [g], the program [p]
    keeps the invariant at every step, does not panic, always owns something in
    [K], owns something in [asleep] when it sleeps, and ends with a result in
    [Q]. *)
Section Logic.
Context {S G : Type} (Inv : S -> list G -> Prop) (asleep : G -> Prop).

Fixpoint wp {A} (i : nat) (K : G -> Prop) (p : prog S A) (Q : A -> G -> Prop) (g : G) : Prop :=
  K g /\
  match p with
  | Ret a => Q a g
  | Stop => False
  | Spent => True
  | Atomic h k => forall s gs, gs !! i = Some g -> Inv s gs ->
      exists g', Inv (h s).2 (<[i := g']> gs) /\ wp i K (k (h s).1) Q g'
  | Now k => forall z, wp i K (k z) Q g
  | Suspend k => asleep g /\ forall b, wp i K (k b) Q g
  end.

Lemma wp_K {A} i K (p : prog S A) Q g : wp i K p Q g -> K g.
Proof. destruct p; intros [HK _]; exact HK. Qed.

Lemma wp_mono {A} i K (p : prog S A) (Q Q' : A -> G -> Prop) g :
  (forall a g', K g' -> Q a g' -> Q' a g') -> wp i K p Q g -> wp i K p Q' g.
Proof.
  intros HQ. revert g. induction p as [a| | |B h k IH|k IH|k IH]; intros g [HK Hp]; split; try done.
  - by apply HQ.
  - intros s gs Hi HI. destruct (Hp s gs Hi HI) as (g' & HI' & Hw). eauto.
  - eauto.
  - destruct Hp. eauto.
Qed.

Lemma wp_bind {A B} i K (p : prog S A) (f : A -> prog S B) Q g :
  wp i K p (fun a g' => wp i K (f a) Q g') g -> wp i K (p ≫= f) Q g.
Proof.
  revert g. induction p as [a| | |C h k IH|k IH|k IH]; intros g [HK Hp]; cbn; try done.
  - split; [done|]. intros s gs Hi HI. destruct (Hp s gs Hi HI) as (g' & HI' & Hw). eauto.
  - split; [done|]. intros z. apply IH, Hp.
  - destruct Hp as [Ha Hp]. split; [done|]. split; [done|]. intros b. apply IH, Hp.
Qed.

Lemma wp_ret {A} i (K : G -> Prop) (a : A) (Q : A -> G -> Prop) g : K g -> Q a g -> wp i K (Ret a) Q g.
Proof. by split. Qed.

Lemma wp_weaken {A} i (K K' : G -> Prop) (p : prog S A) Q g :
  (forall h, K h -> K' h) -> wp i K p Q g -> wp i K' p Q g.
Proof.
  intros HK. revert g. induction p as [a| | |B h k IH|k IH|k IH]; intros g [HKg Hp]; split; auto.
  - intros s gs Hi HI. destruct (Hp s gs Hi HI) as (g' & HI' & Hw). eauto.
  - destruct Hp. auto.
Qed.

Lemma wp_now i (K : G -> Prop) (Q : Z -> G -> Prop) g : K g -> (forall z, Q z g) -> wp i K now Q g.
Proof. intros HK HQ. split; [done|]. intros z. by split. Qed.

(** One atomic step: the thread may change what it owns with it. *)
Lemma wp_atomic {B} i (K : G -> Prop) (h : S -> B * S) (Q : B -> G -> Prop) g :
  K g ->
  (forall s gs, gs !! i = Some g -> Inv s gs ->
    exists g', Inv (h s).2 (<[i := g']> gs) /\ K g' /\ Q (h s).1 g') ->
  wp i K (atomic h) Q g.
Proof.
  intros HK Hh. split; [done|]. intros s gs Hi HI.
  destruct (Hh s gs Hi HI) as (g' & HI' & HK' & HQ). exists g'. by repeat split.
Qed.

(** A future that is polled until it is ready, by an invariant of the future. *)
Lemma wp_await {F A} i K (poll_fut : F -> prog S (poll A * F)) (drop_fut : F -> prog S unit)
    (I : F -> G -> Prop) (R : F -> A -> G -> Prop) (Q : option A -> G -> Prop) n fut g :
  (forall f h, K h -> I f h -> wp i K (poll_fut f) (fun rf h' =>
      match rf.1 with Ready a => R rf.2 a h' | Pending => I rf.2 h' /\ asleep h' end) h) ->
  (forall f a h, K h -> R f a h -> wp i K (drop_fut f) (fun _ h' => Q (Some a) h') h) ->
  (forall f h, K h -> I f h -> wp i K (drop_fut f) (fun _ h' => Q None h') h) ->
  K g -> I fut g -> wp i K (await poll_fut drop_fut n fut) Q g.
Proof.
  intros Hpoll Hdone Hdrop. revert fut g. induction n as [|n IH]; intros fut g HK HI; [done|].
  cbn [await]. apply wp_bind. eapply wp_mono; [|by apply Hpoll].
  intros [[a|] fut'] h HKh HR; cbn in HR.
  - apply wp_bind. eapply wp_mono; [|by eapply Hdone].
    intros [] h' HK' HQ. by apply wp_ret.
  - destruct HR as [HI' Ha]. split; [done|]. split; [done|]. intros [].
    + by apply IH.
    + apply wp_bind. eapply wp_mono; [|by apply Hdrop]. intros [] h' HK' HQ. by apply wp_ret.
Qed.

End Logic.
Arguments wp : simpl never.

(** ** Threads whose commands keep the invariant

    [idle_ok] is what an idle thread owns for its values, [busy_ok] what a thread
    owns for them while it runs a command, [asleep] while it sleeps.  The threads
    use the commands in [allowed]. *)
Section Adequacy.
Context {S G L C : Type} (Inv : S -> list G -> Prop) (start : C -> L -> option (L * prog S L)).
Context (allowed : C -> Prop) (idle_ok busy_ok asleep : L -> G -> Prop).
Hypothesis start_ok : forall i c l g l' p,
  allowed c -> start c l = Some (l', p) -> idle_ok l g -> wp Inv (asleep l') i (busy_ok l') p idle_ok g.

Definition thread_ok (i : nat) (t : thread S L C) (g : G) : Prop :=
  Forall allowed (t_todo t) /\
  match t_run t with
  | None => idle_ok (t_owns t) g
  | Some p => wp Inv (asleep (t_owns t)) i (busy_ok (t_owns t)) p idle_ok g
  end.

Definition safe (c : config S L C) (gs : list G) : Prop :=
  Inv c.2 gs /\ length gs = length c.1 /\
  forall i t g, c.1 !! i = Some t -> gs !! i = Some g -> thread_ok i t g.

Lemma thread_step_ok i inp t s g gs t' s' :
  gs !! i = Some g -> Inv s gs -> thread_ok i t g -> thread_step start inp t s = Some (t', s') ->
  exists g', Inv s' (<[i := g']> gs) /\ thread_ok i t' g'.
Proof.
  intros Hi HI Ht Hs. unfold thread_step in Hs. unfold thread_ok in *.
  destruct t as [l [p|] cs]; cbn in *; destruct Ht as [Hall Ht].
  - destruct p as [l'| | |B h k|k|k]; cbn in Hs; simplify_eq; destruct Ht as [HK Ht].
    + exists g. rewrite list_insert_id; done.
    + destruct (Ht s gs Hi HI) as (g' & HI' & Hw). destruct (h s) as [b s1]; cbn in *. simplify_eq.
      by exists g'.
    + exists g. rewrite list_insert_id; [|done]. split; [done|]. split; [done|]. apply Ht.
    + exists g. rewrite list_insert_id; [|done]. split; [done|]. split; [done|]. apply Ht.
  - destruct cs as [|c cs]; [done|]. exists g. rewrite list_insert_id; [|done].
    apply Forall_cons in Hall as [Hc Hall].
    destruct (start c l) as [[l' p]|] eqn:E; simplify_eq; cbn; [|done].
    split; [done|]. split; [done|]. by eapply start_ok.
Qed.

Lemma step_safe ev c gs : safe c gs -> exists gs', safe (step start ev c) gs'.
Proof.
  intros (HI & Hlen & Hall). destruct c as [ts s], ev as [i inp]; cbn in *. unfold step; cbn.
  destruct (ts !! i) as [t|] eqn:Et; [|by exists gs].
  destruct (thread_step start inp t s) as [[t' s']|] eqn:Es; [|by exists gs].
  destruct (lookup_lt_is_Some_2 gs i) as [g Hg]; [rewrite Hlen; by eapply lookup_lt_Some|].
  destruct (thread_step_ok i inp t s g gs t' s') as (g' & HI' & Ht'); eauto.
  exists (<[i := g']> gs). split; [done|]. cbn. rewrite !length_insert. split; [done|].
  intros j u h Hu Hh. destruct (decide (i = j)) as [<-|Hne].
  - rewrite list_lookup_insert_eq in Hu by (by eapply lookup_lt_Some).
    rewrite list_lookup_insert_eq in Hh by (by eapply lookup_lt_Some). by simplify_eq.
  - rewrite list_lookup_insert_ne in Hu by done. rewrite list_lookup_insert_ne in Hh by done. eauto.
Qed.

Theorem run_safe sched c gs : safe c gs -> exists gs', safe (run start sched c) gs'.
Proof.
  unfold run. revert c gs. induction sched as [|ev sched IH]; intros c gs Hc; [by exists gs|].
  cbn. destruct (step_safe ev c gs Hc) as [gs' Hc']. eauto.
Qed.

(** The threads at the start own nothing but [l]. *)
Lemma spawn_safe l g scripts s :
  Forall (Forall allowed) scripts -> Inv s (replicate (length scripts) g) -> idle_ok l g ->
  safe (spawn l scripts, s) (replicate (length scripts) g).
Proof.
  intros Hall HI Hl. split; [done|]. split; [cbn; unfold spawn; by rewrite length_replicate, length_fmap|].
  intros i t h Ht Hh. apply lookup_replicate in Hh as [-> _].
  apply list_lookup_fmap_Some in Ht as (x & -> & Hx).
  split; [|exact Hl]. by eapply Forall_lookup_1 in Hx.
Qed.

Lemma spawn_each_safe (us : list (L * list C)) (f : L -> G) s :
  Forall (fun u => Forall allowed u.2) us -> Inv s ((fun u => f u.1) <$> us) -> (forall l, idle_ok l (f l)) ->
  safe (spawn_each us, s) ((fun u => f u.1) <$> us).
Proof.
  intros Hall HI Hl. split; [done|]. split; [cbn; unfold spawn_each; by rewrite !length_fmap|].
  intros i t h Ht Hh. apply list_lookup_fmap_Some in Ht as (x & -> & Hx). apply list_lookup_fmap_Some in Hh as (y & -> & Hy).
  simplify_eq. split; [|apply Hl]. exact (proj1 (Forall_lookup _ _) Hall _ _ Hx).
Qed.

(** What a thread of a safe configuration owns. *)
Lemma safe_thread c gs i t :
  safe c gs -> c.1 !! i = Some t ->
  exists g, gs !! i = Some g /\
    (if idle t then idle_ok (t_owns t) g else busy_ok (t_owns t) g) /\
    stopped t = false /\ (sleeping t = true -> asleep (t_owns t) g).
Proof.
  intros (_ & Hlen & Hall) Ht.
  destruct (lookup_lt_is_Some_2 gs i) as [g Hg]; [rewrite Hlen; by eapply lookup_lt_Some|].
  exists g. split; [done|]. pose proof (Hall i t g Ht Hg) as [_ Hok].
  destruct t as [l [p|] cs]; cbn in *; [|done]. pose proof (wp_K _ _ _ _ _ _ _ Hok) as HK.
  destruct p; repeat split; try done; destruct Hok as [_ Hok]; tauto.
Qed.
End Adequacy.

Lemma forallb_lookup {A} (f : A -> bool) (xs : list A) :
  forallb f xs = true <-> forall i x, xs !! i = Some x -> f x = true.
Proof.
  rewrite forallb_forall. split; intros Hf.
  - intros i x Hi. apply Hf, list_elem_of_In, list_elem_of_lookup. eauto.
  - intros x Hx. apply list_elem_of_In, list_elem_of_lookup in Hx as [i Hi]. eauto.
Qed.
Lemma existsb_lookup {A} (f : A -> bool) (xs : list A) :
  existsb f xs = true <-> exists i x, xs !! i = Some x /\ f x = true.
Proof.
  rewrite existsb_exists. split.
  - intros (x & Hx & Hf). apply list_elem_of_In, list_elem_of_lookup in Hx as [i Hi]. eauto.
  - intros (i & x & Hi & Hf). exists x. split; [|done]. apply list_elem_of_In, list_elem_of_lookup. eauto.
Qed.

(** Sums over what the threads own. *)
Definition total {G} (f : G -> nat) (gs : list G) : nat := sum_list_with f gs.

Lemma total_insert {G} (f : G -> nat) gs i g g' :
  gs !! i = Some g -> (total f (<[i := g']> gs) + f g = total f gs + f g')%nat.
Proof.
  unfold total. revert i. induction gs as [|h gs IH]; intros [|i] Hi; try done; cbn in *.
  - simplify_eq. lia.
  - specialize (IH i Hi). rewrite <- !Nat.add_assoc. f_equal. exact IH.
Qed.
Lemma total_lookup {G} (f : G -> nat) gs i g : gs !! i = Some g -> (f g <= total f gs)%nat.
Proof.
  unfold total. revert i. induction gs as [|h gs IH]; intros [|i] Hi; try done; cbn in *.
  - simplify_eq. lia.
  - specialize (IH i Hi). lia.
Qed.
Lemma total_nil {G} (f : G -> nat) gs : (forall i g, gs !! i = Some g -> f g = O) -> total f gs = O.
Proof.
  unfold total. induction gs as [|h gs IH]; intros Hz; [done|]. cbn.
  rewrite (Hz O h eq_refl), IH; [done|]. intros i g Hi. by apply (Hz (Datatypes.S i)).
Qed.
Lemma total_pos {G} (f : G -> nat) gs : (0 < total f gs)%nat -> exists i g, gs !! i = Some g /\ (0 < f g)%nat.
Proof.
  unfold total. induction gs as [|h gs IH]; cbn; [lia|]. intros Hp.
  destruct (decide (0 < f h)%nat); [by exists O, h|].
  destruct IH as (i & g & Hi & Hg); [lia|]. by exists (Datatypes.S i), g.
Qed.
Lemma total_bound {G} (f : G -> nat) gs b :
  (forall i g, gs !! i = Some g -> (f g <= b)%nat) -> (total f gs <= b * length gs)%nat.
Proof.
  unfold total. induction gs as [|h gs IH]; intros Hb; cbn; [lia|].
  pose proof (Hb O h eq_refl). enough (sum_list_with f gs <= b * length gs)%nat by lia.
  apply IH. intros i g Hi. by apply (Hb (Datatypes.S i)).
Qed.
Lemma total_le_add {G} (f a b : G -> nat) gs :
  (forall i g, gs !! i = Some g -> (f g <= a g + b g)%nat) -> (total f gs <= total a gs + total b gs)%nat.
Proof.
  unfold total. induction gs as [|h gs IH]; intros Hb; cbn; [lia|].
  pose proof (Hb O h eq_refl).
  enough (sum_list_with f gs <= sum_list_with a gs + sum_list_with b gs)%nat by lia.
  apply IH. intros i g Hi. by apply (Hb (Datatypes.S i)).
Qed.
Lemma total_le {G} (f a : G -> nat) gs :
  (forall i g, gs !! i = Some g -> (f g <= a g)%nat) -> (total f gs <= total a gs)%nat.
Proof.
  intros Hf. pose proof (total_le_add f a (fun _ => O) gs) as Ht.
  rewrite (total_nil (fun _ => O)) in Ht by done. rewrite Nat.add_0_r in Ht. apply Ht.
  intros i g Hi. rewrite Nat.add_0_r. eauto.
Qed.
Lemma total_plus {G} (a b : G -> nat) gs : total (fun g => a g + b g)%nat gs = (total a gs + total b gs)%nat.
Proof. unfold total. induction gs as [|g gs IH]; cbn; [done|]. rewrite IH. lia. Qed.
Lemma total_le2 {G H} (f : G -> nat) (h : H -> nat) (gs : list G) (hs : list H) :
  length gs = length hs -> (forall i x y, gs !! i = Some x -> hs !! i = Some y -> (f x <= h y)%nat) ->
  (total f gs <= total h hs)%nat.
Proof.
  unfold total. revert hs. induction gs as [|x gs IH]; intros [|y hs] Hl Hf; cbn in *; try lia.
  pose proof (Hf O x y eq_refl eq_refl). specialize (IH hs ltac:(lia)).
  enough (sum_list_with f gs <= sum_list_with h hs)%nat by lia. apply IH. intros i. apply (Hf (Datatypes.S i)).
Qed.
Lemma total_ext {G} (f h : G -> nat) gs : (forall g, f g = h g) -> total f gs = total h gs.
Proof. intros Hf. unfold total. induction gs as [|g gs IH]; cbn; [done|]. by rewrite Hf, IH. Qed.
Lemma total_fmap {G H} (f : H -> nat) (h : G -> H) gs : total f (h <$> gs) = total (fun g => f (h g)) gs.
Proof. unfold total. induction gs as [|g gs IH]; cbn; [done|]. by rewrite <- IH. Qed.
Lemma total_two {G} (f : G -> nat) gs i j g h :
  i <> j -> gs !! i = Some g -> gs !! j = Some h -> (f g + f h <= total f gs)%nat.
Proof.
  intros Hne Hi Hj. revert i j Hne Hi Hj. unfold total.
  induction gs as [|x gs IH]; intros [|i] [|j] Hne Hi Hj; try done; cbn in *; simplify_eq.
  - pose proof (total_lookup f gs j h Hj). unfold total in *. lia.
  - pose proof (total_lookup f gs i g Hi). unfold total in *. lia.
  - specialize (IH i j). enough (f g + f h <= sum_list_with f gs)%nat by lia. apply IH; [congruence|done..].
Qed.
Lemma total_replicate {G} (f : G -> nat) n g : total f (replicate n g) = (n * f g)%nat.
Proof. unfold total. induction n as [|n IH]; cbn; [done|]. lia. Qed.
