(* ===== verification/Event.v ===== *)
(** * The event-listener library, as the locks and channels use it

    [Event] and [EventListener] of the event-listener crate are third-party code.
    [Event] is what ksync calls, [EventLaws] the documented behaviour it relies
    on: a listener is unnotified when made; [notify] makes sure that at least [n]
    of the active listeners are notified; [notify_additional] notifies [n] more;
    polling a notified listener takes its notification and removes it; dropping a
    notified listener passes the notification on.  Which listener is chosen is
    left open.  [fifo] is an event with these laws. *)

From S2P Require Import Prelude Conc.

Class Event (E : Type) := {
  event_new : E;
  listen : E -> nat * E;
  poll_listener : nat -> E -> bool * E;
  drop_listener : nat -> E -> E;
  notify : Z -> E -> E;
  notify_additional : Z -> E -> E;
}.

Class EventLaws (E : Type) `{Event E} := {
  listeners : E -> gset nat;
  notified : E -> gset nat;
  (** Every notification of a listener still there came from [notify_additional]. *)
  additional_only : E -> Prop;
  notified_listens e : notified e ⊆ listeners e;
  new_law : listeners event_new = ∅ /\ additional_only event_new;
  listen_law e : let '(l, e') := listen e in
    l ∉ listeners e /\ listeners e' = {[l]} ∪ listeners e /\ notified e' = notified e /\
    (additional_only e -> additional_only e');
  poll_law l e : l ∈ listeners e -> let '(b, e') := poll_listener l e in
    b = bool_decide (l ∈ notified e) /\
    listeners e' = (if b then listeners e ∖ {[l]} else listeners e) /\
    notified e' = (if b then notified e ∖ {[l]} else notified e) /\
    (additional_only e -> additional_only e');
  drop_law l e : let e' := drop_listener l e in
    listeners e' = listeners e ∖ {[l]} /\ notified e ∖ {[l]} ⊆ notified e' /\
    (l ∈ notified e -> notified e' ≠ ∅ \/ listeners e' = ∅) /\
    (additional_only e -> additional_only e' /\
      (l ∈ notified e -> (size (notified e) <= size (notified e'))%nat \/ notified e' = listeners e'));
  notify_law n e : let e' := notify n e in
    listeners e' = listeners e /\ notified e ⊆ notified e' /\
    (n <= Z.of_nat (size (notified e')) \/ notified e' = listeners e');
  notify_additional_law n e : let e' := notify_additional n e in
    listeners e' = listeners e /\ notified e ⊆ notified e' /\
    (Z.of_nat (size (notified e)) + n <= Z.of_nat (size (notified e')) \/ notified e' = listeners e') /\
    (additional_only e -> additional_only e');
}.

(** ** An event in the shared memory *)
Record port (S E : Type) := mk_port { p_get : S -> E; p_put : E -> S -> S }.
Arguments mk_port {S E}.
Arguments p_get {S E}.
Arguments p_put {S E}.

Section Ports.
Context {S E : Type} `{Event E} (p : port S E).
Definition on_port (f : E -> E) : prog S unit := atomic (fun s => (tt, p_put p (f (p_get p s)) s)).
Definition ev_listen : prog S nat :=
  atomic (fun s => let '(l, e) := listen (p_get p s) in (l, p_put p e s)).
Definition ev_poll (l : nat) : prog S bool :=
  atomic (fun s => let '(b, e) := poll_listener l (p_get p s) in (b, p_put p e s)).
Definition ev_notify (n : Z) : prog S unit := on_port (notify n).
Definition ev_notify_additional (n : Z) : prog S unit := on_port (notify_additional n).
Definition ev_drop (l : option nat) : prog S unit :=
  match l with Some l => on_port (drop_listener l) | None => Ret tt end.
End Ports.

(** ** Who listens

    [heard e ls]: the listeners of the event are the ones the threads own, [ls],
    each owned once. *)
Section Heard.
Context {E : Type} `{Ev : Event E} `{EvL : !EventLaws E}.

Definition heard (e : E) (ls : list (option nat)) : Prop :=
  (forall l, l ∈ listeners e <-> exists i, ls !! i = Some (Some l)) /\
  (forall i j l, ls !! i = Some (Some l) -> ls !! j = Some (Some l) -> i = j).

Lemma heard_new n : heard event_new (replicate n None).
Proof.
  split.
  - intros l. rewrite (proj1 new_law). split; [set_solver|]. intros (i & Hi).
    by apply lookup_replicate in Hi as [? _].
  - intros i j l Hi. by apply lookup_replicate in Hi as [? _].
Qed.

Lemma heard_in e ls i l : heard e ls -> ls !! i = Some (Some l) -> l ∈ listeners e.
Proof. intros [He _] Hi. apply He. eauto. Qed.

Lemma heard_eq e e' ls : listeners e' = listeners e -> heard e ls -> heard e' ls.
Proof. intros Hl [He Hu]. split; [|done]. intros l. by rewrite Hl. Qed.

Lemma heard_owner e ls l : heard e ls -> l ∈ listeners e -> exists i, ls !! i = Some (Some l).
Proof. intros [He _] Hl. by apply He. Qed.

Lemma insert_Some_None {A} (ls : list (option A)) i j l :
  <[i := None]> ls !! j = Some (Some l) <-> i <> j /\ ls !! j = Some (Some l).
Proof. rewrite list_lookup_insert_Some. naive_solver. Qed.

Lemma heard_remove e e' ls i l :
  ls !! i = Some (Some l) -> listeners e' = listeners e ∖ {[l]} ->
  heard e ls -> heard e' (<[i := None]> ls).
Proof.
  intros Hi Hl [He Hu]. split.
  - intros k. rewrite Hl, elem_of_difference, elem_of_singleton, He. split.
    + intros [(j & Hj) Hne]. exists j. apply insert_Some_None. split; [|done]. intros <-. congruence.
    + intros (j & Hj). apply insert_Some_None in Hj as [Hij Hj]. split; [eauto|]. intros ->. by eapply Hij, Hu.
  - intros j k m Hj Hk. apply insert_Some_None in Hj as [_ Hj]. apply insert_Some_None in Hk as [_ Hk]. eauto.
Qed.

Lemma heard_listen e ls i :
  ls !! i = Some None -> heard e ls ->
  heard (listen e).2 (<[i := Some (listen e).1]> ls) /\ notified (listen e).2 = notified e.
Proof.
  intros Hi [He Hu]. pose proof (listen_law e) as Hlaw. destruct (listen e) as [l e']; cbn.
  destruct Hlaw as (Hf & Hl & Hn & _). split; [|done].
  assert (Hlt : (i < length ls)%nat) by (by eapply lookup_lt_Some).
  split.
  - intros k. rewrite Hl, elem_of_union, elem_of_singleton, He. split.
    + intros [->|(j & Hj)]; [exists i; by apply list_lookup_insert_eq|].
      exists j. rewrite list_lookup_insert_ne; [done|]. intros <-. congruence.
    + intros (j & Hj). apply list_lookup_insert_Some in Hj as [(<- & [= ->] & _)|(Hne & Hj)]; eauto.
  - intros j k m Hj Hk. apply list_lookup_insert_Some in Hj as [(<- & [= ->] & _)|(Hne & Hj)];
      apply list_lookup_insert_Some in Hk as [(<- & Hm & _)|(Hne' & Hk)]; simplify_eq; eauto.
    + exfalso. apply Hf, He. eauto.
    + exfalso. apply Hf, He. eauto.
Qed.

Lemma heard_poll e ls i l :
  ls !! i = Some (Some l) -> heard e ls ->
  let '(b, e') := poll_listener l e in
  b = bool_decide (l ∈ notified e) /\
  heard e' (<[i := if b then None else Some l]> ls) /\
  notified e' = (if b then notified e ∖ {[l]} else notified e).
Proof.
  intros Hi Hh. pose proof (poll_law l e (heard_in _ _ _ _ Hh Hi)) as Hlaw.
  destruct (poll_listener l e) as [b e']. destruct Hlaw as (Hb & Hl & Hn & _).
  split; [done|]. split; [|done]. destruct b.
  - by eapply heard_remove.
  - rewrite list_insert_id by done. by eapply heard_eq.
Qed.

Lemma heard_drop e ls i l :
  ls !! i = Some (Some l) -> heard e ls ->
  heard (drop_listener l e) (<[i := None]> ls) /\
  notified e ∖ {[l]} ⊆ notified (drop_listener l e) /\
  (l ∈ notified e -> notified (drop_listener l e) ≠ ∅ \/ listeners (drop_listener l e) = ∅).
Proof.
  intros Hi Hh. destruct (drop_law l e) as (Hl & Hn & Hp & _). split; [|done]. by eapply heard_remove.
Qed.

Lemma heard_size e ls : heard e ls -> (size (listeners e) <= length ls)%nat.
Proof.
  intros Hh. assert (Hs : listeners e ⊆ list_to_set (omap id ls)).
  { intros l Hl. destruct (heard_owner e ls l Hh Hl) as [i Hi]. apply elem_of_list_to_set, list_elem_of_omap.
    exists (Some l). split; [|done]. apply list_elem_of_lookup. eauto. }
  etransitivity; [by apply subseteq_size|]. clear. induction ls as [|o ls IH]; [done|].
  cbn [omap list_omap length]. destruct o as [l|]; cbn [id]; [|lia].
  rewrite list_to_set_cons, size_union_alt, size_singleton.
  assert (Hd : (list_to_set (omap id ls) ∖ {[l]} : gset nat) ⊆ list_to_set (omap id ls)) by set_solver.
  apply subseteq_size in Hd. unfold omap in *. lia.
Qed.

(** After [notify(1)], nobody listens or somebody is notified. *)
Lemma notify_one e : listeners (notify 1 e) = listeners e /\
  notified e ⊆ notified (notify 1 e) /\ (notified (notify 1 e) ≠ ∅ \/ listeners e = ∅).
Proof.
  destruct (notify_law 1 e) as (Hl & Hn & Hs). split; [done|]. split; [done|].
  destruct Hs as [Hs|Hs].
  - left. intros Hz. rewrite Hz, size_empty in Hs. lia.
  - rewrite Hl in Hs. destruct (decide (listeners e = ∅)); [by right|left]. congruence.
Qed.
End Heard.

(** ** An event that notifies in the order of listening *)
Record fifo := mk_fifo { f_ids : list nat; f_hot : gset nat; f_add : gset nat }.

Definition f_fresh (ids : list nat) : nat := Datatypes.S (foldr Nat.max O ids).
Definition f_cold (e : fifo) : list nat :=
  remove_dups (List.filter (fun l => negb (bool_decide (l ∈ f_hot e))) (f_ids e)).
Definition f_remove (l : nat) (e : fifo) : fifo :=
  mk_fifo (List.filter (fun k => negb (Nat.eqb k l)) (f_ids e)) (f_hot e ∖ {[l]}) (f_add e ∖ {[l]}).
(** [n] of them, or all. *)
Definition f_upto (n : Z) (e : fifo) : nat := Z.to_nat (Z.min n (Z.of_nat (length (f_cold e)))).
Definition f_heat (n : Z) (add : bool) (e : fifo) : fifo :=
  let new : gset nat := list_to_set (take (f_upto n e) (f_cold e)) in
  mk_fifo (f_ids e) (f_hot e ∪ new) (if add then f_add e ∪ new else f_add e).
Definition f_notified (e : fifo) : gset nat := f_hot e ∩ list_to_set (f_ids e).
Definition f_notify (n : Z) (e : fifo) : fifo := f_heat (n - Z.of_nat (size (f_notified e))) false e.

#[export] Instance fifo_event : Event fifo := {|
  event_new := mk_fifo [] ∅ ∅;
  listen e := let l := f_fresh (f_ids e) in (l, mk_fifo (f_ids e ++ [l]) (f_hot e ∖ {[l]}) (f_add e ∖ {[l]}));
  poll_listener l e := if bool_decide (l ∈ f_notified e) then (true, f_remove l e) else (false, e);
  drop_listener l e :=
    let e' := f_remove l e in
    if bool_decide (l ∈ f_notified e) then
      if bool_decide (l ∈ f_add e) then f_heat 1 true e' else f_notify 1 e'
    else e';
  notify := f_notify;
  notify_additional n e := f_heat n true e;
|}.

Section Fifo.
Notation L e := (list_to_set (f_ids e) : gset nat).

Lemma f_fresh_spec ids : f_fresh ids ∉ ids.
Proof.
  enough (Hm : forall l, l ∈ ids -> (l <= foldr Nat.max O ids)%nat).
  { intros Hin. apply Hm in Hin. unfold f_fresh in Hin. lia. }
  induction ids as [|k ids IH]; intros l Hl; [by apply elem_of_nil in Hl|].
  apply elem_of_cons in Hl as [->|Hl]; cbn; [lia|]. specialize (IH l Hl). lia.
Qed.

Lemma f_remove_ids l e : L (f_remove l e) = L e ∖ {[l]}.
Proof.
  apply set_eq. intros k. cbn. rewrite elem_of_difference, elem_of_singleton, !elem_of_list_to_set.
  rewrite !list_elem_of_In, filter_In, negb_true_iff, Nat.eqb_neq. done.
Qed.
Lemma f_remove_notified l e : f_notified (f_remove l e) = f_notified e ∖ {[l]}.
Proof. unfold f_notified. rewrite f_remove_ids. cbn. set_solver. Qed.

Lemma f_cold_spec e l : l ∈ f_cold e <-> l ∈ L e /\ l ∉ f_hot e.
Proof.
  unfold f_cold. rewrite elem_of_remove_dups, elem_of_list_to_set, !list_elem_of_In, filter_In.
  rewrite negb_true_iff, bool_decide_eq_false. done.
Qed.

(** Heating [n] listeners: [n] more are notified, or all are. *)
Lemma f_heat_spec n b e :
  f_notified e ⊆ f_notified (f_heat n b e) /\
  (Z.of_nat (size (f_notified e)) + n <= Z.of_nat (size (f_notified (f_heat n b e))) \/
   f_notified (f_heat n b e) = L e).
Proof.
  set (new := list_to_set (take (f_upto n e) (f_cold e)) : gset nat).
  assert (Hnew : forall l, l ∈ new -> l ∈ L e /\ l ∉ f_hot e).
  { intros l Hl. apply elem_of_list_to_set in Hl. apply f_cold_spec.
    apply list_elem_of_lookup in Hl as [k Hk]. apply list_elem_of_lookup. exists k.
    by apply lookup_take_Some in Hk as [Hk _]. }
  assert (Heq : f_notified (f_heat n b e) = f_notified e ∪ new) by (unfold f_notified; cbn; set_solver).
  rewrite Heq. split; [set_solver|].
  destruct (decide (n <= Z.of_nat (length (f_cold e)))) as [Hle|Hgt].
  - left. rewrite size_union by (unfold f_notified; set_solver).
    unfold new. rewrite size_list_to_set.
    + rewrite length_take. unfold f_upto. lia.
    + pose proof (NoDup_remove_dups (List.filter (fun l => negb (bool_decide (l ∈ f_hot e))) (f_ids e))) as Hnd.
      fold (f_cold e) in Hnd. rewrite <- (take_drop (f_upto n e) (f_cold e)) in Hnd.
      by apply NoDup_app in Hnd as [Hnd _].
  - right. apply set_eq. intros l. split; [unfold f_notified; set_solver|]. intros Hl.
    destruct (decide (l ∈ f_hot e)); [unfold f_notified; set_solver|].
    apply elem_of_union_r. unfold new. rewrite take_ge by (unfold f_upto; lia).
    apply elem_of_list_to_set. by apply f_cold_spec.
Qed.

Lemma f_notify_spec n e :
  f_notified e ⊆ f_notified (f_notify n e) /\
  (n <= Z.of_nat (size (f_notified (f_notify n e))) \/ f_notified (f_notify n e) = L e).
Proof.
  unfold f_notify. destruct (f_heat_spec (n - Z.of_nat (size (f_notified e))) false e) as [Hs [Hn|Hn]].
  - split; [done|]. left. lia.
  - split; [done|]. by right.
Qed.

Lemma f_heat_add n e : f_notified e ⊆ f_add e -> f_notified (f_heat n true e) ⊆ f_add (f_heat n true e).
Proof.
  unfold f_notified, f_heat. cbn [f_ids f_hot f_add].
  generalize (list_to_set (take (f_upto n e) (f_cold e)) : gset nat). set_solver.
Qed.
Lemma f_remove_add l e : f_notified e ⊆ f_add e -> f_notified (f_remove l e) ⊆ f_add (f_remove l e).
Proof. rewrite f_remove_notified. cbn. set_solver. Qed.

Lemma f_drop_spec l e : let e' := drop_listener l e in
  L e' = L e ∖ {[l]} /\ f_notified e ∖ {[l]} ⊆ f_notified e' /\
  (l ∈ f_notified e -> f_notified e' ≠ ∅ \/ L e' = ∅) /\
  (f_notified e ⊆ f_add e -> f_notified e' ⊆ f_add e' /\
    (l ∈ f_notified e -> (size (f_notified e) <= size (f_notified e'))%nat \/ f_notified e' = L e')).
Proof.
  cbn. rewrite <- f_remove_notified, <- f_remove_ids. case_bool_decide as Hin.
  2:{ split; [done|]. split; [done|]. split; [done|]. intros Ha. split; [by apply f_remove_add|done]. }
  assert (Hsz : Z.of_nat (size (f_notified e)) = Z.of_nat (size (f_notified (f_remove l e))) + 1).
  { rewrite f_remove_notified, size_difference by set_solver. rewrite size_singleton.
    assert (size (f_notified e) <> O) by (intros Hz; apply size_empty_inv in Hz; set_solver). lia. }
  assert (Hne : forall e', (1 <= Z.of_nat (size (f_notified e')) \/ f_notified e' = L e') ->
    f_notified e' ≠ ∅ \/ L e' = ∅).
  { intros e' [Hs|Hs].
    - left. intros Hz. rewrite Hz, size_empty in Hs. lia.
    - rewrite <- Hs. destruct (decide (f_notified e' = ∅)); tauto. }
  case_bool_decide as Hadd.
  - destruct (f_heat_spec 1 true (f_remove l e)) as [Hs Hn]. split; [done|]. split; [done|]. split.
    { intros _. apply Hne. destruct Hn as [Hn|Hn]; [left; lia|by right]. }
    intros Hsub. split; [by apply f_heat_add, f_remove_add|].
    intros _. destruct Hn as [Hn|Hn]; [left; lia|by right].
  - destruct (f_notify_spec 1 (f_remove l e)) as [Hs Hn]. split; [done|]. split; [done|]. split.
    { intros _. by apply Hne. }
    set_solver.
Qed.
End Fifo.

#[export, refine] Instance fifo_laws : EventLaws fifo := {|
  listeners e := list_to_set (f_ids e);
  notified := f_notified;
  additional_only e := f_notified e ⊆ f_add e;
|}.
Proof.
  - intros e. unfold f_notified. set_solver.
  - split; set_solver.
  - intros e. cbn. pose proof (f_fresh_spec (f_ids e)) as Hf. set (l := f_fresh (f_ids e)) in *.
    assert (Hl : l ∉ (list_to_set (f_ids e) : gset nat)) by (by rewrite elem_of_list_to_set).
    split; [done|]. unfold f_notified; cbn. rewrite list_to_set_app_L; cbn. split; [set_solver|].
    split; [set_solver|]. intros Ha. set_solver.
  - intros l e Hl. cbn. case_bool_decide as Hin; cbn; [|done].
    change (list_to_set (List.filter _ (f_ids e))) with (list_to_set (f_ids (f_remove l e)) : gset nat).
    rewrite f_remove_ids. split; [done|]. split; [done|].
    split; [apply f_remove_notified|apply f_remove_add].
  - intros l e. apply f_drop_spec.
  - intros n e. destruct (f_notify_spec n e) as [Hs Hn]. done.
  - intros n e. cbn. destruct (f_heat_spec n true e) as [Hs Hn]. repeat split; [done..|].
    apply f_heat_add.
Defined.

(** * Nobody sleeps for good on an event

    A thread that listens to an event may own a duty to wake somebody, may have
    gone to wait, and may own a listener.  [ev_inv ok e xs] says of the event [e]
    and of what the threads own of it, [xs]: unless the condition they wait for is
    off ([ok]), a thread that waits is matched by a notified listener or by a
    thread with a duty.  The lemmas are one per operation on an event; the locks
    and the semaphore use them with their own [ok]. *)
Record evg := mk_evg { e_duty : nat; e_waits : nat; e_lis : option nat }.
Definition ev_none : evg := mk_evg 0 0 None.

Section EventInv.
Context {E : Type} `{Ev : Event E} `{EvL : !EventLaws E}.

Definition evg_ok (x : evg) : Prop := (0 < e_waits x)%nat -> is_Some (e_lis x).
Definition ev_inv (ok : Prop) (e : E) (xs : list evg) : Prop :=
  heard e (e_lis <$> xs) /\ (forall i x, xs !! i = Some x -> evg_ok x) /\
  (ok \/ notified e ≠ ∅ \/ 0 < total e_duty xs \/ total e_waits xs = 0)%nat.

Lemma ev_inv_new ok n : ev_inv ok event_new (replicate n ev_none).
Proof.
  split; [rewrite fmap_replicate; apply heard_new|]. split.
  - intros i x Hi. apply lookup_replicate in Hi as [-> _]. unfold evg_ok. cbn. lia.
  - right; right; right. rewrite total_replicate. cbn. lia.
Qed.

Lemma ev_lis_lookup (xs : list evg) (i : nat) x : xs !! i = Some x -> (e_lis <$> xs) !! i = Some (e_lis x).
Proof. intros Hi. by rewrite list_lookup_fmap, Hi. Qed.

Lemma evg_ok_insert (xs : list evg) i x' :
  (forall j x, xs !! j = Some x -> evg_ok x) -> evg_ok x' ->
  forall j x, <[i := x']> xs !! j = Some x -> evg_ok x.
Proof.
  intros Ha Hx j x Hj. apply list_lookup_insert_Some in Hj as [(<- & <- & _)|(_ & Hj)]; eauto.
Qed.

Lemma ev_nobody e (xs : list evg) :
  heard e (e_lis <$> xs) -> (forall i x, xs !! i = Some x -> evg_ok x) -> listeners e = ∅ ->
  total e_waits xs = O.
Proof.
  intros Hh Hok He. apply total_nil. intros i x Hi.
  destruct (decide (e_waits x = 0%nat)); [done|]. exfalso.
  destruct (Hok i x Hi) as [l Hl]; [lia|].
  enough (l ∈ listeners e) by set_solver. eapply heard_in; [done|].
  by rewrite (ev_lis_lookup _ _ _ Hi), Hl.
Qed.

Lemma ev_ok_mono (ok ok' : Prop) e xs : (ok -> ok') -> ev_inv ok e xs -> ev_inv ok' e xs.
Proof. intros Hm (Hh & Ha & Hw). split; [done|]. split; [done|]. tauto. Qed.

Lemma ev_same (ok ok' : Prop) e xs i x :
  xs !! i = Some x -> (ok -> ok') -> ev_inv ok e xs -> ev_inv ok' e (<[i := x]> xs).
Proof. intros Hi Hm He. rewrite list_insert_id by done. by eapply ev_ok_mono. Qed.

(** The thread [i] changes its share, its listener aside. *)
Lemma ev_change (ok ok' : Prop) e xs i x x' :
  xs !! i = Some x -> e_lis x' = e_lis x -> evg_ok x' -> ev_inv ok e xs ->
  (ok' \/ notified e ≠ ∅ \/ 0 < total e_duty (<[i := x']> xs) \/ total e_waits (<[i := x']> xs) = 0)%nat ->
  ev_inv ok' e (<[i := x']> xs).
Proof.
  intros Hi Hl Hx (Hh & Ha & _) Hw. split; [|split; [by apply evg_ok_insert|done]].
  rewrite list_fmap_insert, Hl, list_insert_id; [done|by apply ev_lis_lookup].
Qed.
Lemma ev_commit (ok ok' : Prop) e xs i x x' :
  ok' -> xs !! i = Some x -> e_lis x' = e_lis x -> evg_ok x' -> ev_inv ok e xs -> ev_inv ok' e (<[i := x']> xs).
Proof. intros Hok Hi Hl Hx He. eapply ev_change; eauto. Qed.
Lemma ev_take_duty (ok ok' : Prop) e xs i x x' :
  (0 < e_duty x')%nat -> xs !! i = Some x -> e_lis x' = e_lis x -> evg_ok x' -> ev_inv ok e xs ->
  ev_inv ok' e (<[i := x']> xs).
Proof.
  intros Hd Hi Hl Hx He. eapply ev_change; eauto. right; right; left.
  pose proof (total_lookup e_duty (<[i := x']> xs) i x'). rewrite list_lookup_insert_eq in * by (by eapply lookup_lt_Some).
  specialize (H eq_refl). lia.
Qed.
(** A thread that neither has a duty nor takes one may stop waiting. *)
Lemma ev_unwait ok e xs i x x' :
  xs !! i = Some x -> e_lis x' = e_lis x -> e_duty x' = e_duty x -> (e_waits x' <= e_waits x)%nat -> evg_ok x' ->
  ev_inv ok e xs -> ev_inv ok e (<[i := x']> xs).
Proof.
  intros Hi Hl Hd Hw Hx He. eapply ev_change; eauto. destruct He as (_ & _ & Hwake).
  pose proof (total_insert e_duty xs i x x' Hi). pose proof (total_insert e_waits xs i x x' Hi).
  destruct Hwake as [?|[?|[?|?]]]; [by left|by right; left|right; right; left; lia|right; right; right; lia].
Qed.

Lemma ev_inv_listen ok e xs i d :
  xs !! i = Some (mk_evg d 0 None) -> ev_inv ok e xs ->
  ev_inv ok (listen e).2 (<[i := mk_evg d 0 (Some (listen e).1)]> xs).
Proof.
  intros Hi (Hh & Ha & Hw).
  destruct (heard_listen e (e_lis <$> xs) i (ev_lis_lookup _ _ _ Hi) Hh) as [Hh' Hn].
  split; [by rewrite list_fmap_insert|]. split; [apply evg_ok_insert; [done|unfold evg_ok; cbn; lia]|].
  rewrite Hn. pose proof (total_insert e_duty xs i _ (mk_evg d 0 (Some (listen e).1)) Hi).
  pose proof (total_insert e_waits xs i _ (mk_evg d 0 (Some (listen e).1)) Hi). cbn in *.
  destruct Hw as [?|[?|[?|?]]]; [by left|by right; left|right; right; left; lia|right; right; right; lia].
Qed.

Lemma ev_inv_poll ok e xs i l :
  xs !! i = Some (mk_evg 0 1 (Some l)) -> ev_inv ok e xs ->
  let '(b, e') := poll_listener l e in
  ev_inv ok e' (<[i := if b then mk_evg 1 0 None else mk_evg 0 1 (Some l)]> xs).
Proof.
  intros Hi (Hh & Ha & Hw).
  pose proof (heard_poll e (e_lis <$> xs) i l (ev_lis_lookup _ _ _ Hi) Hh) as Hp.
  destruct (poll_listener l e) as [[] e']; destruct Hp as (_ & Hh' & Hn).
  - pose proof (total_insert e_duty xs i _ (mk_evg 1 0 None) Hi). cbn in *.
    split; [by rewrite list_fmap_insert|]. split; [apply evg_ok_insert; [done|unfold evg_ok; cbn; lia]|].
    right; right; left. lia.
  - rewrite list_insert_id in Hh' by exact (ev_lis_lookup _ _ _ Hi). rewrite list_insert_id by done.
    split; [done|]. split; [done|]. by rewrite Hn.
Qed.

Lemma ev_inv_notify ok ok' e xs i x x' :
  xs !! i = Some x -> e_lis x' = e_lis x -> evg_ok x' -> ev_inv ok e xs ->
  ev_inv ok' (notify 1 e) (<[i := x']> xs).
Proof.
  intros Hi Hl Hx (Hh & Ha & _). destruct (notify_one e) as (Hlis & _ & Hn).
  assert (Hh' : heard (notify 1 e) (e_lis <$> <[i := x']> xs)).
  { eapply heard_eq; [exact Hlis|].
    rewrite list_fmap_insert, Hl, list_insert_id; [done|by apply ev_lis_lookup]. }
  pose proof (evg_ok_insert xs i x' Ha Hx) as Ha'.
  split; [done|]. split; [done|]. destruct Hn as [Hn|Hn]; [by right; left|].
  right; right; right. by eapply ev_nobody; [| |rewrite Hlis].
Qed.

Lemma ev_inv_drop ok e xs i c l :
  xs !! i = Some (mk_evg 0 c (Some l)) -> ev_inv ok e xs -> ev_inv ok (drop_listener l e) (<[i := ev_none]> xs).
Proof.
  intros Hi (Hh & Ha & Hw).
  destruct (heard_drop e (e_lis <$> xs) i l (ev_lis_lookup _ _ _ Hi) Hh) as (Hh' & Hsub & Hp).
  assert (Hheard : heard (drop_listener l e) (e_lis <$> <[i := ev_none]> xs)) by (by rewrite list_fmap_insert).
  assert (Hok : forall j x, <[i := ev_none]> xs !! j = Some x -> evg_ok x).
  { apply evg_ok_insert; [done|]. unfold evg_ok. cbn. lia. }
  split; [done|]. split; [done|].
  pose proof (total_insert e_duty xs i _ ev_none Hi). pose proof (total_insert e_waits xs i _ ev_none Hi). cbn in *.
  destruct (decide (l ∈ notified e)) as [Hin|Hni].
  - destruct (Hp Hin) as [?|He]; [by right; left|]. right; right; right. by eapply ev_nobody.
  - destruct Hw as [?|[Hne|[?|?]]]; [by left|right; left; set_solver|right; right; left; lia|right; right; right; lia].
Qed.
Lemma ev_inv_drop_opt ok e xs i c l :
  xs !! i = Some (mk_evg 0 c l) -> (l = None -> c = O) -> ev_inv ok e xs ->
  ev_inv ok (match l with Some l => drop_listener l e | None => e end) (<[i := ev_none]> xs).
Proof.
  intros Hi Hc He. destruct l as [l|]; [by eapply ev_inv_drop|].
  rewrite Hc in Hi by done. by rewrite list_insert_id.
Qed.
End EventInv.
