(* ===== verification/Mutex.v ===== *)
(** * ksync: the asynchronous mutex

    mizu/lib/ksync/src/mutex.rs.  The state is the held bit plus two for each
    starved lock operation.  The futures are records with the fields of the
    source; their [poll] functions are programs whose loops carry a bound on the
    number of iterations.  [Instant::now] is [now]; the comparison of elapsed
    times is that of ktime. *)

From S2P Require Import Prelude Conc Event Ktime.

(** [Instant::elapsed() > Duration]: the order of core's [Duration]. *)
Definition duration_gt (a b : KT.Duration) : bool :=
  (KT.secs b <? KT.secs a) || ((KT.secs a =? KT.secs b) && (KT.nanos b <? KT.nanos a)).
Definition elapsed {S} (start : Z) : prog S KT.Duration := t ← now; of_res (KT.duration_since t start).

Definition usize_MAX : Z := 2 ^ 64 - 1.

Module Mx.
Section Mutex.
Context {E : Type} `{Event E}.

Record Mutex := mk_mutex { state : Z; lock_ops : E }.
Definition new : Mutex := mk_mutex 0 event_new.

Definition state_cell : cell Mutex := mk_cell state (fun z m => mk_mutex z (lock_ops m)) 64.
Definition ops_port : port Mutex E := mk_port lock_ops (fun e m => mk_mutex (state m) e).

(** [try_lock], [try_lock_arc], [try_lock_arsc]: [true] is [Some] guard. *)
Definition try_lock : prog Mutex bool := r ← compare_exchange state_cell 0 1; Ret (is_ok r).

(** [drop] of the guards. *)
Definition guard_drop : prog Mutex unit := _ ← fetch_sub state_cell 1; ev_notify ops_port 1.

(** ** The slow path *)
Record AcquireSlow := mk_slow {
  mutex : bool;             (* the reference is still there *)
  listener : option nat;
  start : option Z;
  starved : bool;
}.
Definition slow_new : AcquireSlow := mk_slow true None None false.
Definition set_listener (l : option nat) (f : AcquireSlow) : AcquireSlow :=
  mk_slow (mutex f) l (start f) (starved f).

Definition take_mutex (this : AcquireSlow) : prog Mutex (bool * AcquireSlow) :=
  let this' := mk_slow false (listener this) (start this) (starved this) in
  if starved this && mutex this then _ ← fetch_sub state_cell 2; Ret (mutex this, this')
  else Ret (mutex this, this').

(** [Poll::Ready(this.take_mutex().unwrap())] *)
Definition acquired (this : AcquireSlow) : prog Mutex (option (poll unit) * AcquireSlow) :=
  '(m, this) ← take_mutex this;
  if m : bool then Ret (Some (Ready tt), this) else Stop.

(** The hot loop: [None] when it is left with [break]. *)
Fixpoint hot_loop (n : nat) (start : Z) (this : AcquireSlow) : prog Mutex (option (poll unit) * AcquireSlow) :=
  match n with
  | O => Spent
  | Datatypes.S n =>
      match listener this with
      | None =>
          l ← ev_listen ops_port;
          let this := set_listener (Some l) this in
          r ← compare_exchange state_cell 0 1;
          let x := either_of r in
          if x =? 0 then acquired this
          else if x =? 1 then hot_loop n start this
          else Ret (None, this)
      | Some l =>
          woken ← ev_poll ops_port l;
          if woken : bool then
            let this := set_listener None this in
            r ← compare_exchange state_cell 0 1;
            let x := either_of r in
            if x =? 0 then acquired this
            else if x =? 1 then
              d ← elapsed start;
              if duration_gt d (KT.from_micros 500) then Ret (None, this) else hot_loop n start this
            else _ ← ev_notify ops_port 1; Ret (None, this)
          else Ret (Some Pending, this)
      end
  end.

(** The fairer loop of a starved operation. *)
Fixpoint fair_loop (n : nat) (this : AcquireSlow) : prog Mutex (option (poll unit) * AcquireSlow) :=
  match n with
  | O => Spent
  | Datatypes.S n =>
      match listener this with
      | None =>
          l ← ev_listen ops_port;
          let this := set_listener (Some l) this in
          r ← compare_exchange state_cell 2 (Z.lor 2 1);
          let s := either_of r in
          if s =? 2 then acquired this
          else if s mod 2 =? 1 then fair_loop n this
          else _ ← ev_notify ops_port 1; fair_loop n this
      | Some l =>
          woken ← ev_poll ops_port l;
          if woken : bool then
            let this := set_listener None this in
            old ← fetch_or state_cell 1;
            if old mod 2 =? 0 then acquired this else fair_loop n this
          else Ret (Some Pending, this)
      end
  end.

(** The number of starved operations goes up. *)
Definition starve (this : AcquireSlow) : prog Mutex AcquireSlow :=
  old ← fetch_add state_cell 2;
  if usize_MAX / 2 <? old then Stop
  else Ret (mk_slow (mutex this) (listener this) (start this) true).

Definition slow_poll (n : nat) (this : AcquireSlow) : prog Mutex (poll unit * AcquireSlow) :=
  '(t0, this) ←
    match start this with
    | Some t => Ret (t, this)
    | None => t ← now; Ret (t, mk_slow (mutex this) (listener this) (Some t) (starved this))
    end;
  if negb (mutex this) then Stop
  else
    '(r, this) ←
      (if starved this then Ret (None, this)
       else
         '(r, this) ← hot_loop n t0 this;
         match r with
         | Some p => Ret (Some p, this)
         | None => this ← starve this; Ret (None, this)
         end);
    '(r, this) ← match r with Some p => Ret (Some p, this) | None => fair_loop n this end;
    match r with Some p => Ret (p, this) | None => Stop end.

(** [drop], then the fields. *)
Definition slow_drop (this : AcquireSlow) : prog Mutex unit :=
  '(_, this) ← take_mutex this; ev_drop ops_port (listener this).

(** ** [lock]: the future of a borrowed mutex *)
Fixpoint lock_poll (n : nat) (this : option AcquireSlow) : prog Mutex (poll unit * option AcquireSlow) :=
  match n with
  | O => Spent
  | Datatypes.S n =>
      match this with
      | None =>
          g ← try_lock;
          if g : bool then Ret (Ready tt, this) else lock_poll n (Some slow_new)
      | Some slow =>
          '(r, slow) ← slow_poll n slow;
          Ret (r, Some slow)
      end
  end.
Definition lock_drop (this : option AcquireSlow) : prog Mutex unit :=
  match this with Some slow => slow_drop slow | None => Ret tt end.

(** ** [lock_arc] and [lock_arsc]: the future of a shared mutex *)
Inductive LockArc := Unpolled | Slow (f : AcquireSlow) | Empty.

Fixpoint lock_arc_poll (n : nat) (this : LockArc) : prog Mutex (poll unit * LockArc) :=
  match n with
  | O => Spent
  | Datatypes.S n =>
      match this with
      | Unpolled =>
          g ← try_lock;
          if g : bool then Ret (Ready tt, Empty) else lock_arc_poll n (Slow slow_new)
      | Slow f =>
          '(r, f) ← slow_poll n f;
          match r with
          | Pending => Ret (Pending, Slow f)
          | Ready a => _ ← slow_drop f; Ret (Ready a, Empty)
          end
      | Empty => Stop
      end
  end.
Definition lock_arc_drop (this : LockArc) : prog Mutex unit :=
  match this with Slow f => slow_drop f | _ => Ret tt end.

(** ** The users of a mutex

    A thread owns a number of guards. *)
Inductive cmd := Lock | LockShared | TryLock | Unlock.

Definition start_cmd (n : nat) (c : cmd) (guards : nat) : option (nat * prog Mutex nat) :=
  let more (got : option unit) := match got with Some _ => Datatypes.S guards | None => guards end in
  match c with
  | Lock => Some (guards, r ← await (lock_poll n) lock_drop n None; Ret (more r))
  | LockShared => Some (guards, r ← await (lock_arc_poll n) lock_arc_drop n Unpolled; Ret (more r))
  | TryLock => Some (guards, g ← try_lock; Ret (more (if g : bool then Some tt else None)))
  | Unlock => match guards with
              | O => None
              | Datatypes.S g => Some (g, _ ← guard_drop; Ret g)
              end
  end.
End Mutex.
Arguments Mutex : clear implicits.
End Mx.
