(* ===== verification/MutexSpec.v ===== *)
(** * ksync: the mutex excludes, and loses no wake-up

    Threads lock, try to lock, cancel and unlock one mutex in any interleaving.
    The invariant: the state counts the guards and the starved operations; there
    is at most one guard; and whenever the mutex is free while an operation
    sleeps, a listener has been notified or some thread is about to look again. *)

From S2P Require Import Prelude Conc Event Ktime Mutex.
Import Mx.

(** Reading the elapsed time never panics. *)
Lemma duration_since_Ok (a b : Z) : exists d, KT.duration_since a b = Ok d.
Proof.
  unfold KT.duration_since, KT.checked_duration_since, checked_sub.
  destruct (_ <=? _); cbn; [|eauto]. unfold KT.Duration_new, KT.NANOS_PER_SEC.
  destruct (Z.ltb_spec (wrap 64 ((a - b) / 1000000) + wrap 32 ((a - b) mod 1000000) / 1000000000) (2 ^ 64)) as [|Hge];
    [eauto|].
  pose proof (wrap_fits 64 ((a - b) / 1000000) ltac:(lia)) as Hs. unfold fits in Hs.
  assert (Hu : 0 <= (a - b) mod 1000000 < 1000000) by (apply Z.mod_pos_bound; lia).
  rewrite (wrap_small 32) in Hge by (unfold fits; lia). rewrite (Z.div_small _ 1000000000) in Hge by lia. lia.
Qed.

Section MutexSpec.
Context {E : Type} `{Ev : Event E} `{EvL : !EventLaws E}.

(** What a thread owns: its guards; one if it counts as starved; one if it
    answers for the next wake-up ([duty]); one if it has gone to wait on its
    listener ([waits]); and the listener. *)
Record ghost := mk_ghost { held : nat; starv : nat; duty : nat; waits : nat; lis : option nat }.

Definition ghost_ok (g : ghost) : Prop :=
  (starv g <= waits g + duty g)%nat /\ (starv g <= 1)%nat /\
  (0 < waits g -> is_Some (lis g))%nat.

Definition mutex_inv (m : Mutex E) (gs : list ghost) : Prop :=
  state m = 2 * Z.of_nat (total starv gs) + Z.of_nat (total held gs) /\
  (total held gs <= 1)%nat /\ Z.of_nat (length gs) < 2 ^ 62 /\
  heard (lock_ops m) (lis <$> gs) /\
  (forall i g, gs !! i = Some g -> ghost_ok g) /\
  (total held gs = 1 \/ notified (lock_ops m) ≠ ∅ \/ 0 < total duty gs \/ total waits gs = 0)%nat.

Definition asleep (k : nat) (g : ghost) : Prop := held g = k /\ duty g = O /\ waits g = 1%nat.

(** ** Steps of the invariant *)
Lemma inv_bound m gs : mutex_inv m gs -> (total starv gs <= length gs)%nat.
Proof.
  intros (_ & _ & _ & _ & Hok & _). rewrite <- (Nat.mul_1_l (length gs)).
  apply total_bound. intros i g Hi. by apply Hok in Hi as (_ & ? & _).
Qed.

Lemma waits_listens (e : E) gs :
  heard e (lis <$> gs) -> (forall i g, gs !! i = Some g -> ghost_ok g) ->
  listeners e = ∅ -> total waits gs = O.
Proof.
  intros Hh Hok He. apply total_nil. intros i g Hi.
  destruct (decide (waits g = 0%nat)); [done|]. exfalso.
  destruct (Hok i g Hi) as (_ & _ & [l Hl]); [lia|].
  enough (l ∈ listeners e) by set_solver. eapply heard_in; [done|].
  by rewrite list_lookup_fmap, Hi; cbn; rewrite Hl.
Qed.

(** Thread [i] changes what it owns from [g] to [g'] with a step that leaves the
    listeners of the others alone. *)
Lemma inv_step m m' gs i g g' :
  gs !! i = Some g -> mutex_inv m gs ->
  state m' = state m + 2 * (Z.of_nat (starv g') - Z.of_nat (starv g)) + (Z.of_nat (held g') - Z.of_nat (held g)) ->
  (held g' <= held g \/ total held gs = 0 /\ held g' = held g + 1)%nat ->
  heard (lock_ops m') (<[i := lis g']> (lis <$> gs)) ->
  ghost_ok g' ->
  (total held (<[i := g']> gs) = 1 \/ notified (lock_ops m') ≠ ∅ \/
   0 < total duty (<[i := g']> gs) \/ total waits (<[i := g']> gs) = 0)%nat ->
  mutex_inv m' (<[i := g']> gs).
Proof.
  intros Hi (Hs & Hh & Hl & He & Hok & _) Hs' Hh' He' Hg' Hw.
  pose proof (total_insert held gs i g g' Hi). pose proof (total_insert starv gs i g g' Hi).
  split; [lia|]. split; [lia|]. split; [by rewrite length_insert|].
  split; [by rewrite list_fmap_insert|]. split; [|done].
  intros j h Hj. apply list_lookup_insert_Some in Hj as [(<- & <- & _)|(_ & Hj)]; eauto.
Qed.

Lemma lis_lookup (gs : list ghost) (i : nat) g : gs !! i = Some g -> (lis <$> gs) !! i = Some (lis g).
Proof. intros Hi. by rewrite list_lookup_fmap, Hi. Qed.

Lemma heard_same e (gs : list ghost) (i : nat) g l :
  gs !! i = Some g -> lis g = l -> heard e (lis <$> gs) -> heard e (<[i := l]> (lis <$> gs)).
Proof. intros Hi <- Hh. by rewrite list_insert_id by (by apply lis_lookup). Qed.

Lemma mod2 (t : Z) (h : nat) : (h <= 1)%nat -> (2 * t + Z.of_nat h) mod 2 = Z.of_nat h.
Proof. intros Hh. rewrite Z.add_comm, Z.mul_comm, Z.mod_add by lia. apply Z.mod_small. lia. Qed.
Lemma lor1 (t : Z) (h : nat) : (h <= 1)%nat -> 0 <= t -> Z.lor (2 * t + Z.of_nat h) 1 = 2 * t + 1.
Proof.
  intros Hh Ht. destruct h as [|[|h]]; [| |lia].
  - rewrite lor_low with (n := 1); lia || (rewrite Z.mul_comm; rewrite Z.add_0_r; apply Z.mod_mul; lia).
  - apply Z.bits_inj'. intros n Hn. rewrite Z.lor_spec.
    destruct (Z.eq_dec n 0) as [->|Hne].
    + change (2 * t + Z.of_nat 1) with (2 * t + 1). by rewrite Z.testbit_odd_0.
    + rewrite (Z.bits_above_log2 1 n), orb_false_r; [done|lia|]. cbn. lia.
Qed.

(** Opens the invariant at a step of thread [i], which owns [g]. *)
Ltac open_inv :=
  let s := fresh "m" in let gs := fresh "gs" in let Hi := fresh "Hi" in let HI := fresh "HI" in
  intros s gs Hi HI; pose proof (inv_bound _ _ HI);
  pose proof HI as (Hst & Hone & Hlen & Hheard & _ & Hwake);
  pose proof (total_lookup held _ _ _ Hi); pose proof (total_lookup starv _ _ _ Hi);
  pose proof (total_lookup duty _ _ _ Hi).
(** What the sums become when thread [i] owns [g'] instead. *)
Ltac sums g' :=
  match goal with
  | Hi : ?gs !! ?i = Some ?g |- _ =>
      pose proof (total_insert held gs i g g' Hi); pose proof (total_insert starv gs i g g' Hi);
      pose proof (total_insert duty gs i g g' Hi); pose proof (total_insert waits gs i g g' Hi);
      cbn [held starv duty waits lis] in *
  end.
Ltac close_inv g' :=
  exists g'; split; [|split; [cbn; lia|]];
  [eapply inv_step; [eassumption|eassumption|cbn|cbn|cbn|split; [cbn; lia|split; [cbn; lia|cbn; intros ?; first [lia|by eauto]]]|sums g'; cbn [lock_ops p_put ops_port c_put state_cell snd]]|].

(** The wake-up clause, from the one before the step. *)
Ltac wake :=
  first [ left; lia | right; right; left; lia | right; right; right; lia
        | match goal with
          | Hw : _ = 1%nat \/ _ ≠ ∅ \/ _ \/ _ |- _ =>
              destruct Hw as [?|[?|[?|?]]];
              first [left; lia | right; left; assumption | right; right; left; lia | right; right; right; lia]
          end ].

(** ** The atomic operations *)
Section Ops.
Variables (i k : nat) (slp : ghost -> Prop).
Notation K := (fun g => k <= held g)%nat.
Notation wp := (wp mutex_inv slp).

(** [compare_exchange(0, 1)] by an operation that is not starved and has not gone
    to wait: it gets the mutex, or sees it held, or sees starved operations. *)
Lemma wp_cas01 h d l (Q : res Z Z -> ghost -> Prop) :
  (k <= h)%nat ->
  Q (Ok 0) (mk_ghost (Datatypes.S h) 0 0 0 l) ->
  (Q (Err 1) (mk_ghost h 0 0 0 l) /\ forall x, x <> 0 -> x <> 1 -> Q (Err x) (mk_ghost h 0 d 0 l)) ->
  wp i K (compare_exchange state_cell 0 1) Q (mk_ghost h 0 d 0 l).
Proof.
  intros Hk H0 [H1 Hx]. apply wp_atomic; [done|]. open_inv. cbn.
  destruct (Z.eqb_spec (state m) 0) as [Hz|Hz]; cbn.
  - close_inv (mk_ghost (Datatypes.S h) 0 0 0 l); [lia|lia|by eapply heard_same|wake|by rewrite Hz].
  - destruct (Z.eqb_spec (state m) 1) as [Hz1|Hz1].
    + close_inv (mk_ghost h 0 0 0 l); [lia|lia|by eapply heard_same|wake|by rewrite Hz1].
    + exists (mk_ghost h 0 d 0 l). rewrite list_insert_id by done. auto.
Qed.

(** The same by an operation that has just begun to listen: when it sees starved
    operations it goes to wait, and the duty is with one of them. *)
Lemma wp_cas01_fresh h l (Q : res Z Z -> ghost -> Prop) :
  (k <= h)%nat ->
  Q (Ok 0) (mk_ghost (Datatypes.S h) 0 0 0 (Some l)) ->
  (forall x, x <> 0 -> Q (Err x) (mk_ghost h 0 0 1 (Some l))) ->
  wp i K (compare_exchange state_cell 0 1) Q (mk_ghost h 0 0 0 (Some l)).
Proof.
  intros Hk Hok Herr. apply wp_atomic; [done|]. open_inv. cbn.
  destruct (Z.eqb_spec (state m) 0) as [Hz|Hz]; cbn.
  - close_inv (mk_ghost (Datatypes.S h) 0 0 0 (Some l)); [lia|lia|by eapply heard_same|wake|by rewrite Hz].
  - close_inv (mk_ghost h 0 0 1 (Some l)); [lia|lia|by eapply heard_same| |by apply Herr].
    assert (Hsw : (total starv gs <= total waits gs + total duty gs)%nat).
    { apply total_le_add. destruct HI as (_ & _ & _ & _ & Hoks & _). intros j g Hj. by apply Hoks in Hj as [? _]. }
    destruct (decide (total held gs = 1%nat)); wake.
Qed.

Lemma wp_listen h st d (Q : nat -> ghost -> Prop) :
  (k <= h)%nat -> ghost_ok (mk_ghost h st d 0 None) ->
  (forall l, Q l (mk_ghost h st d 0 (Some l))) ->
  wp i K (ev_listen ops_port) Q (mk_ghost h st d 0 None).
Proof.
  intros Hk (Hok1 & Hok2 & _) HQ. apply wp_atomic; [done|]. open_inv. cbn.
  pose proof (heard_listen (lock_ops m) (lis <$> gs) i (lis_lookup _ _ _ Hi) Hheard) as [Hh Hn].
  destruct (listen (lock_ops m)) as [l e]; cbn in *.
  close_inv (mk_ghost h st d 0 (Some l)); [lia|lia|done|rewrite Hn; wake|apply HQ].
Qed.

Lemma wp_poll h st l (Q : bool -> ghost -> Prop) :
  (k <= h)%nat -> (st <= 1)%nat ->
  Q true (mk_ghost h st 1 0 None) -> Q false (mk_ghost h st 0 1 (Some l)) ->
  wp i K (ev_poll ops_port l) Q (mk_ghost h st 0 1 (Some l)).
Proof.
  intros Hk Hst1 Ht Hf. apply wp_atomic; [done|]. open_inv. cbn.
  pose proof (heard_poll (lock_ops m) (lis <$> gs) i l (lis_lookup _ _ _ Hi) Hheard) as Hp.
  destruct (poll_listener l (lock_ops m)) as [[] e]; cbn; destruct Hp as (Hb & Hh & Hn).
  - close_inv (mk_ghost h st 1 0 None); [lia|lia|done|wake|done].
  - close_inv (mk_ghost h st 0 1 (Some l)); [lia|lia|done|rewrite Hn; wake|done].
Qed.

(** After [notify(1)] the thread is free of its duty. *)
Lemma wp_notify g g' (Q : unit -> ghost -> Prop) :
  (k <= held g)%nat -> held g' = held g -> starv g' = starv g -> lis g' = lis g -> ghost_ok g' ->
  Q tt g' -> wp i K (ev_notify ops_port 1) Q g.
Proof.
  intros Hk Hh Hs Hl Hok HQ. apply wp_atomic; [done|]. open_inv. cbn.
  destruct (notify_one (lock_ops m)) as (Hlis & Hsub & Hn).
  assert (Hheard' : heard (notify 1 (lock_ops m)) (<[i := lis g']> (lis <$> gs))).
  { eapply heard_eq; [exact Hlis|]. by eapply heard_same. }
  exists g'. split; [|split; [lia|done]]. eapply inv_step; [done..| | | | |]; cbn; [lia|lia|done|done|].
  destruct Hn as [Hn|Hn]; [by right; left|]. right; right; right.
  eapply (waits_listens (notify 1 (lock_ops m))); [by rewrite list_fmap_insert| |congruence].
  destruct HI as (_ & _ & _ & _ & Hoks & _).
  intros j h Hj. apply list_lookup_insert_Some in Hj as [(<- & <- & _)|(_ & Hj)]; eauto.
Qed.

(** [fetch_sub(1)]: the mutex is free, and the thread has to wake somebody. *)
Lemma wp_release h (Q : Z -> ghost -> Prop) :
  (k <= h)%nat -> (forall x, Q x (mk_ghost h 0 1 0 None)) ->
  wp i K (fetch_sub state_cell 1) Q (mk_ghost (Datatypes.S h) 0 0 0 None).
Proof.
  intros Hk HQ. apply wp_atomic; [cbn; lia|]. open_inv. cbn in *.
  assert (Hw : wsub 64 (state m) 1 = state m - 1) by (apply wsub_small; unfold fits; lia).
  close_inv (mk_ghost h 0 1 0 None); [lia|lia|by eapply heard_same|wake|done].
Qed.

(** [fetch_add(2)]: never near the overflow. *)
Lemma wp_starve h d c li (Q : Z -> ghost -> Prop) :
  (k <= h)%nat -> (c <= 1)%nat -> ((0 < c)%nat -> is_Some li) -> (c = 0 \/ d = 0)%nat ->
  (forall x, x <= usize_MAX / 2 -> Q x (mk_ghost h 1 (1 - c) c li)) ->
  wp i K (fetch_add state_cell 2) Q (mk_ghost h 0 d c li).
Proof.
  intros Hk Hc Hli Hcd HQ. apply wp_atomic; [done|]. open_inv. cbn in *.
  assert (Hw : wadd 64 (state m) 2 = state m + 2) by (apply wadd_small; unfold fits; lia).
  close_inv (mk_ghost h 1 (1 - c) c li); [lia|lia|by eapply heard_same|destruct Hcd; wake|].
  apply HQ. unfold usize_MAX. change ((2 ^ 64 - 1) / 2) with (2 ^ 63 - 1). lia.
Qed.

(** [fetch_sub(2)] *)
Lemma wp_unstarve h d c li (Q : Z -> ghost -> Prop) :
  (k <= h)%nat -> ((0 < c)%nat -> is_Some li) -> (d = 0 \/ 0 < h)%nat ->
  (forall x, Q x (mk_ghost h 0 0 c li)) ->
  wp i K (fetch_sub state_cell 2) Q (mk_ghost h 1 d c li).
Proof.
  intros Hk Hli Hd HQ. apply wp_atomic; [done|]. open_inv. cbn in *.
  assert (Hw : wsub 64 (state m) 2 = state m - 2) by (apply wsub_small; unfold fits; lia).
  close_inv (mk_ghost h 0 0 c li); [lia|lia|by eapply heard_same| |done].
  destruct Hd; wake.
Qed.

(** [fetch_or(1)] by a starved operation that was woken. *)
Lemma wp_grab h (Q : Z -> ghost -> Prop) :
  (k <= h)%nat ->
  (forall x, x mod 2 = 0 -> Q x (mk_ghost (Datatypes.S h) 1 1 0 None)) ->
  (forall x, x mod 2 = 1 -> Q x (mk_ghost h 1 1 0 None)) ->
  wp i K (fetch_or state_cell 1) Q (mk_ghost h 1 1 0 None).
Proof.
  intros Hk He Ho. apply wp_atomic; [done|]. open_inv. cbn in *.
  pose proof (mod2 (Z.of_nat (total starv gs)) _ Hone) as Hm. rewrite <- Hst in Hm.
  pose proof (lor1 (Z.of_nat (total starv gs)) _ Hone ltac:(lia)) as Hl. rewrite <- Hst in Hl.
  destruct (decide (total held gs = 0%nat)).
  - close_inv (mk_ghost (Datatypes.S h) 1 1 0 None); [lia|lia|by eapply heard_same|wake|apply He; lia].
  - close_inv (mk_ghost h 1 1 0 None); [lia|lia|by eapply heard_same|wake|apply Ho; lia].
Qed.

(** [compare_exchange(2, 3)] by a starved operation that has just begun to listen. *)
Lemma wp_cas23 h l (Q : res Z Z -> ghost -> Prop) :
  (k <= h)%nat ->
  Q (Ok 2) (mk_ghost (Datatypes.S h) 1 1 0 (Some l)) ->
  (forall x, x mod 2 = 1 -> Q (Err x) (mk_ghost h 1 0 1 (Some l))) ->
  (forall x, x mod 2 = 0 -> x <> 2 -> Q (Err x) (mk_ghost h 1 1 0 (Some l))) ->
  wp i K (compare_exchange state_cell 2 (Z.lor 2 1)) Q (mk_ghost h 1 1 0 (Some l)).
Proof.
  intros Hk Hok Ho He. change (Z.lor 2 1) with 3. apply wp_atomic; [done|]. open_inv. cbn in *.
  pose proof (mod2 (Z.of_nat (total starv gs)) _ Hone) as Hm. rewrite <- Hst in Hm.
  destruct (Z.eqb_spec (state m) 2) as [Hz|Hz]; cbn.
  - close_inv (mk_ghost (Datatypes.S h) 1 1 0 (Some l)); [lia|lia|by eapply heard_same|wake|by rewrite Hz].
  - destruct (decide (total held gs = 0%nat)).
    + close_inv (mk_ghost h 1 1 0 (Some l)); [lia|lia|by eapply heard_same|wake|apply He; lia].
    + close_inv (mk_ghost h 1 0 1 (Some l)); [lia|lia|by eapply heard_same|wake|apply Ho; lia].
Qed.

Lemma wp_drop h c l (Q : unit -> ghost -> Prop) :
  (k <= h)%nat -> Q tt (mk_ghost h 0 0 0 None) ->
  wp i K (ev_drop ops_port (Some l)) Q (mk_ghost h 0 0 c (Some l)).
Proof.
  intros Hk HQ. apply wp_atomic; [done|]. open_inv. cbn.
  destruct (heard_drop (lock_ops m) (lis <$> gs) i l (lis_lookup _ _ _ Hi) Hheard) as (Hh & Hsub & Hp).
  close_inv (mk_ghost h 0 0 0 None); [lia|lia|done| |done].
  assert (Hnone : listeners (drop_listener l (lock_ops m)) = ∅ ->
    total waits (<[i:=mk_ghost h 0 0 0 None]> gs) = O).
  { apply waits_listens; [by rewrite list_fmap_insert|].
    destruct HI as (_ & _ & _ & _ & Hoks & _). intros j g Hj.
    apply list_lookup_insert_Some in Hj as [(<- & <- & _)|(_ & Hj)]; [|eauto]. by repeat split; cbn; lia. }
  destruct (decide (l ∈ notified (lock_ops m))) as [Hin|Hni].
  - destruct (Hp Hin) as [Hne|Hem]; [by right; left|]. right; right; right. auto.
  - assert (notified (lock_ops m) ≠ ∅ -> notified (drop_listener l (lock_ops m)) ≠ ∅) by set_solver.
    destruct Hwake as [?|[?|[?|?]]]; [left; lia|right; left; auto|right; right; left; lia|right; right; right; lia].
Qed.

(** ** The futures *)
Definition waiting (li : option nat) : nat := match li with Some _ => 1 | None => 0 end.

(** A future that has the mutex; one that sleeps; one in the hot loop, at its
    [break], and in the fair loop. *)
Definition done_at h (this : AcquireSlow) (g : ghost) : Prop :=
  mutex this = false /\ g = mk_ghost (Datatypes.S h) 0 0 0 (listener this).
Definition sleeps_at h (this : AcquireSlow) (g : ghost) : Prop :=
  mutex this = true /\ is_Some (listener this) /\
  g = mk_ghost h (Nat.b2n (starved this)) 0 1 (listener this).
Definition hot_at h (this : AcquireSlow) (g : ghost) : Prop :=
  mutex this = true /\ starved this = false /\ g = mk_ghost h 0 0 (waiting (listener this)) (listener this).
Definition break_at h (this : AcquireSlow) (g : ghost) : Prop :=
  mutex this = true /\ starved this = false /\
  exists d, (listener this = None \/ d = 0%nat) /\ g = mk_ghost h 0 d (waiting (listener this)) (listener this).
Definition fair_at h (this : AcquireSlow) (g : ghost) : Prop :=
  mutex this = true /\ starved this = true /\
  g = mk_ghost h 1 (1 - waiting (listener this)) (waiting (listener this)) (listener this).

Definition loop_post h (B : AcquireSlow -> ghost -> Prop) (r : option (poll unit) * AcquireSlow) (g : ghost) : Prop :=
  match r.1 with
  | Some (Ready _) => done_at h r.2 g
  | Some Pending => sleeps_at h r.2 g
  | None => B r.2 g
  end.

Lemma wp_acquired h B this :
  (k <= h)%nat -> mutex this = true ->
  wp i K (acquired this) (loop_post h B)
    (mk_ghost (Datatypes.S h) (Nat.b2n (starved this)) (Nat.b2n (starved this)) 0 (listener this)).
Proof.
  intros Hk Hm. unfold acquired, take_mutex. rewrite Hm.
  destruct (starved this) eqn:Es; cbn [andb Nat.b2n].
  - apply wp_bind, wp_bind. apply wp_unstarve; [lia|lia|lia|]. intros x.
    apply wp_ret; [cbn; lia|]. by apply wp_ret; [cbn; lia|].
  - apply wp_bind. apply wp_ret; [cbn; lia|]. by apply wp_ret; [cbn; lia|].
Qed.

Lemma elapsed_ok t0 g (Q : KT.Duration -> ghost -> Prop) :
  (k <= held g)%nat -> (forall d, Q d g) -> wp i K (elapsed t0) Q g.
Proof.
  intros Hk HQ. split; [done|]. intros t.
  destruct (duration_since_Ok t t0) as [d Hd]. cbn. rewrite Hd. by apply wp_ret.
Qed.

Lemma hot_loop_ok n t0 h this g :
  (k <= h)%nat -> hot_at h this g -> wp i K (hot_loop n t0 this) (loop_post h (break_at h)) g.
Proof.
  intros Hk. revert this g. induction n as [|n IH]; intros this g (Hm & Hs & ->); [by split; [cbn; lia|]|].
  cbn [hot_loop]. destruct (listener this) as [l|] eqn:El; cbn [waiting]; apply wp_bind.
  - apply wp_poll; [lia|lia| |].
    2:{ apply wp_ret; [cbn; lia|]. unfold loop_post, sleeps_at. cbn. rewrite El, Hs. by eauto. }
    apply wp_bind. apply wp_cas01; [lia| |split; [|intros x Hx0 Hx1]]; cbn [either_of].
    + pose proof (wp_acquired h (break_at h) (set_listener None this) Hk Hm) as Ha.
      cbn [set_listener starved listener] in Ha. by rewrite Hs in Ha.
    + cbn [Z.eqb Pos.eqb]. apply wp_bind. apply elapsed_ok; [cbn; lia|]. intros d. destruct (duration_gt d _).
      * apply wp_ret; [cbn; lia|]. split; [done|]. split; [done|]. exists O. by split; [right|].
      * by apply IH.
    + destruct (Z.eqb_spec x 0); [done|]. destruct (Z.eqb_spec x 1); [done|].
      apply wp_bind. eapply wp_notify with (g' := mk_ghost h 0 1 0 None); [cbn; lia|done..| |].
      * repeat split; cbn; lia.
      * apply wp_ret; [cbn; lia|]. split; [done|]. split; [done|]. exists 1%nat. by split; [left|].
  - apply wp_listen; [lia|repeat split; cbn; lia|]. intros l. apply wp_bind.
    apply wp_cas01_fresh; [lia| |intros x Hx]; cbn [either_of].
    + pose proof (wp_acquired h (break_at h) (set_listener (Some l) this) Hk Hm) as Ha.
      cbn [set_listener starved listener] in Ha. by rewrite Hs in Ha.
    + destruct (Z.eqb_spec x 0); [done|]. destruct (Z.eqb_spec x 1).
      * by apply IH.
      * apply wp_ret; [cbn; lia|]. split; [done|]. split; [done|]. exists O. by split; [right|].
Qed.

Lemma fair_loop_ok n h this g :
  (k <= h)%nat -> fair_at h this g -> wp i K (fair_loop n this) (loop_post h (fun _ _ => False)) g.
Proof.
  intros Hk. revert this g. induction n as [|n IH]; intros this g (Hm & Hs & ->); [by split; [cbn; lia|]|].
  cbn [fair_loop]. destruct (listener this) as [l|] eqn:El; cbn [waiting]; apply wp_bind.
  - apply wp_poll; [lia|lia| |].
    2:{ apply wp_ret; [cbn; lia|]. unfold loop_post, sleeps_at. cbn. rewrite El, Hs. by eauto. }
    apply wp_bind. apply wp_grab; [lia|intros x Hx..]; rewrite Hx; cbn [Z.eqb].
    + pose proof (wp_acquired h (fun _ _ => False) (set_listener None this) Hk Hm) as Ha.
      cbn [set_listener starved listener] in Ha. by rewrite Hs in Ha.
    + by apply IH.
  - apply wp_listen; [lia|repeat split; cbn; lia|]. intros l. apply wp_bind.
    apply wp_cas23; [lia| |intros x Hx|intros x Hx Hx2]; cbn [either_of].
    + pose proof (wp_acquired h (fun _ _ => False) (set_listener (Some l) this) Hk Hm) as Ha.
      cbn [set_listener starved listener] in Ha. by rewrite Hs in Ha.
    + destruct (Z.eqb_spec x 2) as [->|]; [done|]. rewrite Hx. by apply IH.
    + destruct (Z.eqb_spec x 2) as [->|]; [done|]. rewrite Hx. cbn [Z.eqb].
      apply wp_bind. eapply wp_notify with (g' := mk_ghost h 1 0 1 (Some l)); [cbn; lia|done..| |].
      * repeat split; cbn; [lia|lia|]. by eauto.
      * by apply IH.
Qed.

(** A future between two polls. *)
Definition slow_at h (this : AcquireSlow) (g : ghost) : Prop :=
  (this = slow_new /\ g = mk_ghost h 0 0 0 None) \/ sleeps_at h this g.
Definition slow_post h (r : poll unit * AcquireSlow) (g : ghost) : Prop :=
  match r.1 with Ready _ => done_at h r.2 g | Pending => sleeps_at h r.2 g /\ asleep h g end.

Lemma starve_ok h this g :
  (k <= h)%nat -> break_at h this g -> wp i K (starve this) (fair_at h) g.
Proof.
  intros Hk (Hm & Hs & d & Hd & ->). apply wp_bind.
  apply wp_starve; [lia|destruct (listener this); cbn; lia| | |].
  - destruct (listener this); cbn; [eauto|lia].
  - destruct Hd as [->|]; [by left|by right].
  - intros x Hx. destruct (Z.ltb_spec (usize_MAX / 2) x); [lia|]. by apply wp_ret; [cbn; lia|].
Qed.

(** The rest of a poll, once the start time is there. *)
Lemma slow_poll_ok n h this g :
  (k <= h)%nat -> slow_at h this g -> wp i K (slow_poll n this) (slow_post h) g.
Proof.
  intros Hk Hat. unfold slow_poll.
  assert (Hg : (k <= held g)%nat) by (destruct Hat as [[_ ->]|(_ & _ & ->)]; cbn; lia).
  apply wp_bind. apply wp_mono with (Q := fun r g' => g' = g /\
    mutex r.2 = true /\ listener r.2 = listener this /\ starved r.2 = starved this).
  2:{ assert (Hm : mutex this = true) by (by destruct Hat as [[-> _]|(? & _)]).
      destruct (start this) as [t|].
      - by apply wp_ret.
      - split; [done|]. intros t. by apply wp_ret. }
  intros [t0 this'] g' _ (-> & Hm & Hl & Hs). cbn in Hm, Hl, Hs. rewrite Hm. cbn [negb].
  apply wp_bind. apply wp_mono with (Q := loop_post h (fair_at h)).
  - intros [r f] g1 Hk1 Hr. apply wp_bind. apply wp_mono with (Q := loop_post h (fun _ _ => False)).
    + intros [[[[]|]|] f'] g2 Hk2 Hr2; [| |done]; apply wp_ret; try done. split; [done|].
      destruct Hr2 as (_ & _ & ->). by split.
    + destruct r as [p|]; [apply wp_ret; [done|destruct p; exact Hr]|]. by apply fair_loop_ok.
  - destruct Hat as [[-> ->]|Hsl].
    + cbn in Hs, Hl. rewrite Hs. apply wp_bind.
      eapply wp_mono; [|apply (hot_loop_ok n t0 h); [done|by unfold hot_at; rewrite Hl]].
      intros [[p|] f] g1 Hk1 Hr; [apply wp_ret; [done|destruct p; exact Hr]|].
      apply wp_bind. eapply wp_mono; [|apply (starve_ok h); [done|exact Hr]]. intros f' g2 Hk2 Hf. by apply wp_ret.
    + destruct Hsl as (_ & [l El] & ->). rewrite El in *. destruct (starved this') eqn:Es; rewrite <- Hs.
      * apply wp_ret; [cbn; lia|]. unfold loop_post, fair_at; cbn. by rewrite Hl.
      * apply wp_bind.
        eapply wp_mono; [|apply (hot_loop_ok n t0 h); [done|by unfold hot_at; rewrite Hl]].
        intros [[p|] f] g1 Hk1 Hr; [apply wp_ret; [done|destruct p; exact Hr]|].
        apply wp_bind. eapply wp_mono; [|apply (starve_ok h); [done|exact Hr]]. intros f' g2 Hk2 Hf. by apply wp_ret.
Qed.

Lemma ev_drop_ok h c li (Q : unit -> ghost -> Prop) :
  (k <= h)%nat -> (c <= waiting li)%nat -> Q tt (mk_ghost h 0 0 0 None) ->
  wp i K (ev_drop ops_port li) Q (mk_ghost h 0 0 c li).
Proof.
  intros Hk Hc HQ. destruct li as [l|]; [by apply wp_drop|]. apply wp_ret; [done|]. by destruct c; cbn in Hc; [|lia].
Qed.

(** Dropping a future that has not got the mutex, and one that has. *)
Lemma slow_drop_ok h this g :
  (k <= h)%nat -> slow_at h this g -> wp i K (slow_drop this) (fun _ g' => g' = mk_ghost h 0 0 0 None) g.
Proof.
  intros Hk [[-> ->]|(Hm & [l El] & ->)]; unfold slow_drop, take_mutex.
  - by apply wp_ret; [cbn; lia|].
  - rewrite Hm, El. destruct (starved this); cbn [andb Nat.b2n]; apply wp_bind.
    + apply wp_bind. apply wp_unstarve; [lia|by eauto|lia|]. intros x. apply wp_ret; [cbn; lia|].
      by apply wp_drop.
    + apply wp_ret; [cbn; lia|]. by apply wp_drop.
Qed.
Lemma done_drop_ok h this g :
  (k <= Datatypes.S h)%nat -> done_at h this g ->
  wp i K (slow_drop this) (fun _ g' => g' = mk_ghost (Datatypes.S h) 0 0 0 None) g.
Proof.
  intros Hk (Hm & ->). unfold slow_drop, take_mutex. rewrite Hm, andb_false_r.
  apply wp_bind, wp_ret; [cbn; lia|]. apply ev_drop_ok; [lia|lia|done].
Qed.

Lemma try_lock_ok h (Q : bool -> ghost -> Prop) :
  (k <= h)%nat -> Q true (mk_ghost (Datatypes.S h) 0 0 0 None) -> Q false (mk_ghost h 0 0 0 None) ->
  wp i K try_lock Q (mk_ghost h 0 0 0 None).
Proof.
  intros Hk Ht Hf. apply wp_bind. apply wp_cas01; [lia| |split; [|intros x _ _]]; by apply wp_ret; [cbn; lia|].
Qed.

Lemma guard_drop_ok h (Q : unit -> ghost -> Prop) :
  (k <= h)%nat -> Q tt (mk_ghost h 0 0 0 None) -> wp i K guard_drop Q (mk_ghost (Datatypes.S h) 0 0 0 None).
Proof.
  intros Hk HQ. apply wp_bind. apply wp_release; [lia|]. intros x.
  eapply wp_notify with (g' := mk_ghost h 0 0 0 None); [done..|by repeat split; cbn; lia|done].
Qed.

Definition lock_at h (this : option AcquireSlow) (g : ghost) : Prop :=
  match this with Some f => slow_at h f g | None => g = mk_ghost h 0 0 0 None end.
Definition locked_at h (this : option AcquireSlow) (g : ghost) : Prop :=
  match this with Some f => done_at h f g | None => g = mk_ghost (Datatypes.S h) 0 0 0 None end.

Lemma lock_poll_ok n h this g :
  (k <= h)%nat -> lock_at h this g ->
  wp i K (lock_poll n this) (fun r g' =>
    match r.1 with Ready _ => locked_at h r.2 g' | Pending => lock_at h r.2 g' /\ asleep h g' end) g.
Proof.
  intros Hk. revert this g. induction n as [|n IH]; intros this g Hat.
  { split; [|done]. destruct this as [f|]; [destruct Hat as [[_ ->]|(_ & _ & ->)]|rewrite Hat]; cbn; lia. }
  cbn [lock_poll]. destruct this as [f|]; apply wp_bind.
  - eapply wp_mono; [|by apply (slow_poll_ok n h)]. intros [[a|] f'] g' Hk' Hr; apply wp_ret; try done.
    split; [|apply Hr]. right. apply Hr.
  - cbn in Hat. subst g. apply try_lock_ok; [lia| |].
    + by apply wp_ret; [cbn; lia|].
    + apply IH. by left.
Qed.

(** Dropping the future of [lock], before and after it got the mutex. *)
Lemma lock_drop_ok h this g :
  (k <= h)%nat -> lock_at h this g -> wp i K (lock_drop this) (fun _ g' => g' = mk_ghost h 0 0 0 None) g.
Proof. intros Hk Hat. destruct this as [f|]; [by apply slow_drop_ok|]. cbn in Hat. subst g. by apply wp_ret. Qed.
Lemma locked_drop_ok h this g :
  (k <= Datatypes.S h)%nat -> locked_at h this g ->
  wp i K (lock_drop this) (fun _ g' => g' = mk_ghost (Datatypes.S h) 0 0 0 None) g.
Proof. intros Hk Hat. destruct this as [f|]; [by apply done_drop_ok|]. cbn in Hat. subst g. by apply wp_ret. Qed.

Definition arc_at h (this : LockArc) (g : ghost) : Prop :=
  match this with Slow f => slow_at h f g | Unpolled => g = mk_ghost h 0 0 0 None | Empty => False end.

Lemma lock_arc_poll_ok n h this g :
  (k <= h)%nat -> arc_at h this g ->
  wp i K (lock_arc_poll n this) (fun r g' =>
    match r.1 with
    | Ready _ => r.2 = Empty /\ g' = mk_ghost (Datatypes.S h) 0 0 0 None
    | Pending => arc_at h r.2 g' /\ asleep h g'
    end) g.
Proof.
  intros Hk. revert this g. induction n as [|n IH]; intros this g Hat.
  { split; [|done]. destruct this as [|f|]; [rewrite Hat|destruct Hat as [[_ ->]|(_ & _ & ->)]|done]; cbn; lia. }
  cbn [lock_arc_poll]. destruct this as [|f|]; [| |done]; apply wp_bind.
  - cbn in Hat. subst g. apply try_lock_ok; [lia| |].
    + by apply wp_ret; [cbn; lia|].
    + apply IH. by left.
  - eapply wp_mono; [|by apply (slow_poll_ok n h)]. intros [[a|] f'] g' Hk' Hr.
    + apply wp_bind. eapply wp_mono; [|apply (done_drop_ok h); [lia|done]]. intros [] g2 Hk2 ->. by apply wp_ret.
    + apply wp_ret; [done|]. split; [|apply Hr]. right. apply Hr.
Qed.
End Ops.

(** ** The commands *)
Definition idle_ok (guards : nat) (g : ghost) : Prop := g = mk_ghost guards 0 0 0 None.
Definition busy_ok (guards : nat) (g : ghost) : Prop := (guards <= held g)%nat.

Lemma start_cmd_ok n i c l g l' p :
  start_cmd n c l = Some (l', p) -> idle_ok l g -> wp mutex_inv (asleep l') i (busy_ok l') p idle_ok g.
Proof.
  intros Hc ->. destruct c; cbn [start_cmd] in Hc; simplify_eq.
  - apply wp_bind. eapply wp_await with (I := lock_at l') (R := fun f _ => locked_at l' f); [| | |apply le_n|done].
    + intros f h Hk Hat. by apply lock_poll_ok.
    + intros f [] h Hk Hat. eapply wp_mono; [|apply (locked_drop_ok i l' _ l'); [lia|done]].
      intros [] g Hg ->. by apply wp_ret.
    + intros f h Hk Hat. eapply wp_mono; [|by apply (lock_drop_ok i l' _ l')].
      intros [] g Hg ->. by apply wp_ret.
  - apply wp_bind. eapply wp_await with (I := arc_at l')
      (R := fun f _ g => f = Empty /\ g = mk_ghost (Datatypes.S l') 0 0 0 None); [| | |apply le_n|done].
    + intros f h Hk Hat. by apply lock_arc_poll_ok.
    + intros f [] h Hk [-> ->]. by apply wp_ret; [|apply wp_ret].
    + intros [|f|] h Hk Hat; cbn; [| |done].
      * rewrite Hat in *. by apply wp_ret; [|apply wp_ret].
      * eapply wp_mono; [|by apply (slow_drop_ok i l' _ l')]. intros [] g Hg ->. by apply wp_ret.
  - apply wp_bind. apply try_lock_ok; [lia| |]; apply wp_ret; try done; unfold busy_ok; cbn; lia.
  - destruct l as [|l]; simplify_eq. apply wp_bind. apply guard_drop_ok; [lia|]. by apply wp_ret; [apply le_n|].
Qed.

(** The invariant holds in every interleaving. *)
Lemma mutex_run n scripts sched :
  Z.of_nat (length scripts) < 2 ^ 62 ->
  exists gs, safe mutex_inv (fun _ => True) idle_ok busy_ok asleep (run (start_cmd n) sched (spawn O scripts, new)) gs.
Proof.
  intros Hn. apply run_safe with (gs := replicate (length scripts) (mk_ghost 0 0 0 0 None)).
  - intros * _. apply start_cmd_ok.
  - apply spawn_safe; [by apply Forall_true; intros; apply Forall_true| |done]. unfold mutex_inv. rewrite !total_replicate, length_replicate, fmap_replicate.
    split; [cbn; lia|]. split; [cbn; lia|]. split; [done|]. split; [apply heard_new|].
    split; [|right; right; right; cbn; lia]. intros i g Hg. apply lookup_replicate in Hg as [-> _].
    repeat split; cbn; lia.
Qed.

(** The guards the threads own. *)
Definition guards (ts : list (thread (Mutex E) nat cmd)) : nat := total t_owns ts.

Lemma guards_held (c : config (Mutex E) nat cmd) gs :
  safe mutex_inv (fun _ => True) idle_ok busy_ok asleep c gs ->
  (guards c.1 <= total held gs)%nat /\ (quiet c.1 = true -> guards c.1 = total held gs).
Proof.
  intros Hs. assert (Hlen := proj1 (proj2 Hs)). destruct c as [ts m]. cbn in *.
  assert (Hg : forall i t, ts !! i = Some t -> exists g, gs !! i = Some g /\ (t_owns t <= held g)%nat /\
    (idle t || sleeping t = true -> t_owns t = held g)).
  { intros i t Ht. destruct (safe_thread _ _ _ _ _ _ _ i t Hs Ht) as (g & Hg & Hb & _ & Hsl).
    exists g. split; [done|]. unfold idle_ok, busy_ok, asleep in *.
    destruct (idle t); [by subst g|]. split; [done|]. intros Hq. cbn in Hq. by destruct (Hsl Hq). }
  clear Hs. unfold guards, total. revert gs Hlen Hg.
  induction ts as [|t ts IH]; intros [|g gs] Hlen Hg; try done; cbn in *.
  destruct (Hg O t eq_refl) as (g' & [= <-] & Hle & Heq).
  destruct (IH gs) as [IH1 IH2]; [lia|intros i u Hu; by apply (Hg (Datatypes.S i))|].
  split; [lia|]. intros Hq. apply andb_true_iff in Hq as [Hq1 Hq2]. rewrite (Heq Hq1), (IH2 Hq2). done.
Qed.

(** The operations that have begun and are not finished, sleeping ones included. *)
Definition under_way (ts : list (thread (Mutex E) nat cmd)) : nat := total (fun t => Nat.b2n (negb (idle t))) ts.

Lemma starved_under_way (c : config (Mutex E) nat cmd) gs :
  safe mutex_inv (fun _ => True) idle_ok busy_ok asleep c gs -> (total starv gs <= under_way c.1)%nat.
Proof.
  intros Hs. pose proof Hs as ((_ & _ & _ & _ & Hok & _) & Hlen & _).
  apply total_le2; [done|]. intros i g t Hg Ht.
  destruct (safe_thread _ _ _ _ _ _ _ i t Hs Ht) as (g' & Hg' & Hb & _). simplify_eq.
  destruct (idle t); cbn; [by rewrite Hb|]. by destruct (Hok i g Hg) as (_ & ? & _).
Qed.

(** C3: whatever the threads lock, try to lock, cancel and unlock, and however
    their steps interleave, there is at most one guard of the mutex and no operation
    panics.  The state word is always twice the number of the starved operations plus
    one if the mutex is taken; the starved ones are among the operations that are not
    finished, so that nothing stays behind in the word, and a guard always has the bit
    set.  When every operation is finished or asleep the bit is the number of guards. *)
Theorem mutex_exclusion n scripts sched :
  Z.of_nat (length scripts) < 2 ^ 62 ->
  let '(ts, m) := run (start_cmd n) sched (spawn O scripts, new) in
  (guards ts <= 1)%nat /\ forallb (fun t => negb (stopped t)) ts = true /\
  exists starved taken : nat, state m = 2 * Z.of_nat starved + Z.of_nat taken /\
    (starved <= under_way ts)%nat /\ (guards ts <= taken <= 1)%nat /\ (quiet ts = true -> guards ts = taken).
Proof.
  intros Hn. destruct (mutex_run n scripts sched Hn) as [gs Hs].
  destruct (run _ _ _) as [ts m]. destruct (guards_held _ _ Hs) as [Hle Heq]. cbn [fst] in Hle, Heq.
  pose proof (starved_under_way _ _ Hs) as Hsu. pose proof Hs as ((Hst & Hone & _) & _). cbn in Hst, Hsu. split; [lia|]. split.
  - apply forallb_lookup. intros i t Ht.
    destruct (safe_thread _ _ _ _ _ _ _ i t Hs Ht) as (_ & _ & _ & -> & _). done.
  - exists (total starv gs), (total held gs). split_and!; try done; lia.
Qed.

(** C10: a wake-up is never lost.  When no operation is under way and the mutex has
    no guard, but some task sleeps in a lock operation, then a listener of the
    mutex has been notified: one of the sleeping tasks is woken. *)
Theorem mutex_wakes n scripts sched :
  Z.of_nat (length scripts) < 2 ^ 62 ->
  let '(ts, m) := run (start_cmd n) sched (spawn O scripts, new) in
  quiet ts = true -> guards ts = O -> existsb sleeping ts = true ->
  notified (lock_ops m) ≠ ∅.
Proof.
  intros Hn. destruct (mutex_run n scripts sched Hn) as [gs Hs].
  destruct (run _ _ _) as [ts m]. intros Hq Hg Hsl.
  destruct (guards_held _ _ Hs) as [_ Heq]. cbn [fst] in Heq. specialize (Heq Hq).
  pose proof Hs as ((_ & _ & _ & _ & _ & Hwake) & Hlen & _). cbn in Hwake, Hlen.
  assert (Hd : total duty gs = O).
  { apply total_nil. intros i g Hi.
    destruct (lookup_lt_is_Some_2 ts i) as [t Ht]; [rewrite <- Hlen; by eapply lookup_lt_Some|].
    destruct (safe_thread _ _ _ _ _ _ _ i t Hs Ht) as (g' & Hg' & Hb & _ & Ha). simplify_eq.
    pose proof (proj1 (forallb_lookup _ _) Hq i t Ht) as Hqt. cbv beta in Hqt.
    destruct (idle t); [by rewrite Hb|]. destruct (sleeping t); [|done]. by apply Ha. }
  assert (Hw : (0 < total waits gs)%nat).
  { apply existsb_lookup in Hsl as (i & t & Hi & Ht).
    destruct (safe_thread _ _ _ _ _ _ _ i t Hs Hi) as (g & Hg' & _ & _ & Ha).
    destruct (Ha Ht) as (_ & _ & Hw). pose proof (total_lookup waits gs i g Hg'). lia. }
  destruct Hwake as [?|[?|[?|?]]]; [lia|done|lia|lia].
Qed.
End MutexSpec.

(** ** One thread locks, a second one sleeps, the first one unlocks *)
Definition two_threads : list (list cmd) := [[Lock; Unlock]; [LockShared]].
Definition steps_of (n i : nat) : list (nat * Z) := replicate n (i, 1).
Definition handover : list (nat * Z) := steps_of 3 0 ++ steps_of 6 1 ++ steps_of 4 0.
Notation after sched := (run (start_cmd 5) sched (spawn O two_threads, (new : Mutex fifo))).

Lemma mutex_exclusion_witness :
  (guards (after (steps_of 3 0)).1 <= 1)%nat /\ guards (after (steps_of 3 0)).1 = 1%nat /\
  state (after (steps_of 3 0)).2 = 1.
Proof.
  pose proof (mutex_exclusion (E := fifo) 5 two_threads (steps_of 3 0) ltac:(vm_compute; reflexivity)) as Ht.
  assert (Hq : (quiet (after (steps_of 3 0)).1, guards (after (steps_of 3 0)).1, under_way (after (steps_of 3 0)).1) = (true, 1%nat, O))
    by (vm_compute; reflexivity).
  destruct (after (steps_of 3 0)) as [ts m]. cbn [fst snd] in *. injection Hq as Hq Hg Hu.
  destruct Ht as (Hle & _ & k & h & Hst & Hk & _ & Hh). specialize (Hh Hq). split; [exact Hle|]. split; [exact Hg|]. lia.
Defined.

Lemma mutex_wakes_witness :
  quiet (after handover).1 = true /\ guards (after handover).1 = O /\
  notified (lock_ops (after handover).2) ≠ ∅.
Proof.
  pose proof (mutex_wakes (E := fifo) 5 two_threads handover ltac:(vm_compute; reflexivity)) as Ht.
  assert (Hq : (quiet (after handover).1, guards (after handover).1, existsb sleeping (after handover).1)
    = (true, O, true)) by (vm_compute; reflexivity).
  destruct (after handover) as [ts m]. cbn [fst snd] in *. injection Hq as Hq Hg Hs. auto.
Defined.
