(* ===== verification/RwLock.v ===== *)
(** * ksync: the asynchronous reader-writer lock

    mizu/lib/ksync/src/rw_lock.rs.  A mutex of [Mutex.v] is held by the writer and
    by the upgradable reader; the state counts the readers and has the writer bit.
    The programs of the mutex run on the lock's [mutex] field. *)

From S2P Require Import Prelude Conc Event Ktime Mutex.

Definition isize_MAX : Z := 2 ^ 63 - 1.

Module Rw.
Definition WRITER_BIT : Z := 1.
Definition ONE_READER : Z := 2.

Section RwLock.
Context {E : Type} `{Event E}.

Record RwLock := mk_rw { mutex : Mx.Mutex E; no_readers : E; no_writer : E; state : Z }.
Definition new : RwLock := mk_rw Mx.new event_new event_new 0.

Definition st : cell RwLock := mk_cell state (fun z s => mk_rw (mutex s) (no_readers s) (no_writer s) z) 64.
Definition readers_port : port RwLock E :=
  mk_port no_readers (fun e s => mk_rw (mutex s) e (no_writer s) (state s)).
Definition writer_port : port RwLock E :=
  mk_port no_writer (fun e s => mk_rw (mutex s) (no_readers s) e (state s)).
Definition on_mutex {A} : prog (Mx.Mutex E) A -> prog RwLock A :=
  zoom mutex (fun m s => mk_rw m (no_readers s) (no_writer s) (state s)).

(** ** Guards: their [drop] *)
Definition read_drop : prog RwLock unit :=
  old ← fetch_sub st ONE_READER;
  if Z.land old (wnot 64 WRITER_BIT) =? ONE_READER then ev_notify readers_port 1 else Ret tt.
Definition upgradable_drop : prog RwLock unit := _ ← read_drop; on_mutex Mx.guard_drop.
Definition write_inner_drop : prog RwLock unit :=
  _ ← fetch_and st (wnot 64 WRITER_BIT); ev_notify writer_port 1.
Definition write_drop : prog RwLock unit := _ ← write_inner_drop; on_mutex Mx.guard_drop.

(** ** Reading *)
Fixpoint try_read_loop (n : nat) (state : Z) : prog RwLock bool :=
  match n with
  | O => Spent
  | S n =>
      if negb (Z.land state WRITER_BIT =? 0) then Ret false
      else if isize_MAX <? state then Stop
      else
        r ← compare_exchange st state (wadd 64 state ONE_READER);
        match r with Ok _ => Ret true | Err s => try_read_loop n s | Panic => Stop end
  end.
Definition try_read (n : nat) : prog RwLock bool := state ← load st; try_read_loop n state.

Record Read := mk_read { r_state : Z; r_listener : option nat }.
Definition read : prog RwLock Read := s ← load st; Ret (mk_read s None).

Fixpoint read_poll (n : nat) (this : Read) : prog RwLock (poll unit * Read) :=
  match n with
  | O => Spent
  | S n =>
      if Z.land (r_state this) WRITER_BIT =? 0 then
        if isize_MAX <? r_state this then Stop
        else
          r ← compare_exchange st (r_state this) (wadd 64 (r_state this) ONE_READER);
          match r with
          | Ok _ => Ret (Ready tt, this)
          | Err s => read_poll n (mk_read s (r_listener this))
          | Panic => Stop
          end
      else
        match r_listener this with
        | None =>
            l ← ev_listen writer_port;
            s ← load st;
            read_poll n (mk_read s (Some l))
        | Some l =>
            woken ← ev_poll writer_port l;
            if woken : bool then
              _ ← ev_notify writer_port 1;
              s ← load st;
              read_poll n (mk_read s None)
            else Ret (Pending, this)
        end
  end.
Definition read_fut_drop (this : Read) : prog RwLock unit := ev_drop writer_port (r_listener this).

(** ** Upgradable reading *)
(** The loop that counts the reader in, with the mutex held. *)
Fixpoint count_in (n : nat) (state : Z) : prog RwLock unit :=
  match n with
  | O => Spent
  | S n =>
      r ← compare_exchange st state (wadd 64 state ONE_READER);
      match r with Ok _ => Ret tt | Err s => count_in n s | Panic => Stop end
  end.
Definition enter (n : nat) : prog RwLock unit :=
  state ← load st;
  if isize_MAX <? state then Stop else count_in n state.

Definition try_upgradable_read (n : nat) : prog RwLock bool :=
  lock ← on_mutex Mx.try_lock;
  if lock : bool then _ ← enter n; Ret true else Ret false.

(** [UpgradableRead]: its field is the future of the mutex. *)
Definition upgradable_poll (n : nat) (acquire : option Mx.AcquireSlow) :
    prog RwLock (poll unit * option Mx.AcquireSlow) :=
  '(r, acquire) ← on_mutex (Mx.lock_poll n acquire);
  match r with
  | Pending => Ret (Pending, acquire)
  | Ready _ => _ ← enter n; Ret (Ready tt, acquire)
  end.
Definition lock_fut_drop (acquire : option Mx.AcquireSlow) : prog RwLock unit := on_mutex (Mx.lock_drop acquire).

(** ** Writing *)
Definition try_write : prog RwLock bool :=
  lock ← on_mutex Mx.try_lock;
  if lock : bool then
    r ← compare_exchange st 0 WRITER_BIT;
    if is_ok r then Ret true else _ ← on_mutex Mx.guard_drop; Ret false
  else Ret false.

Inductive WriteState :=
| Acquiring (lock : option Mx.AcquireSlow)
| WaitingReaders (guard : bool) (listener : option nat).

Fixpoint write_poll (n : nat) (this : WriteState) : prog RwLock (poll unit * WriteState) :=
  match n with
  | O => Spent
  | S n =>
      match this with
      | Acquiring lock =>
          '(r, lock) ← on_mutex (Mx.lock_poll n lock);
          match r with
          | Pending => Ret (Pending, Acquiring lock)
          | Ready _ =>
              new_state ← fetch_or st WRITER_BIT;
              if new_state =? WRITER_BIT then Ret (Ready tt, Acquiring lock)
              else
                l ← ev_listen readers_port;
                _ ← lock_fut_drop lock;
                write_poll n (WaitingReaders true (Some l))
          end
      | WaitingReaders guard listener =>
          s ← load st;
          if s =? WRITER_BIT then
            if guard then Ret (Ready tt, WaitingReaders false listener) else Stop
          else
            match listener with
            | None => l ← ev_listen readers_port; write_poll n (WaitingReaders guard (Some l))
            | Some l =>
                woken ← ev_poll readers_port l;
                if woken : bool then write_poll n (WaitingReaders guard None)
                else Ret (Pending, this)
            end
      end
  end.
Definition write_fut_drop (this : WriteState) : prog RwLock unit :=
  match this with
  | Acquiring lock => lock_fut_drop lock
  | WaitingReaders guard listener =>
      _ ← (if guard then write_drop else Ret tt); ev_drop readers_port listener
  end.

(** ** Changing guards *)
Definition downgrade_upgradable : prog RwLock unit := on_mutex Mx.guard_drop.
Definition try_upgrade : prog RwLock bool :=
  r ← compare_exchange st ONE_READER WRITER_BIT; Ret (is_ok r).

Record Upgrade := mk_upgrade { u_guard : bool; u_listener : option nat }.
Definition upgrade : prog RwLock Upgrade :=
  _ ← fetch_sub st (ONE_READER - WRITER_BIT); Ret (mk_upgrade true None).

Fixpoint upgrade_loop (n : nat) (this : Upgrade) : prog RwLock (poll unit * Upgrade) :=
  match n with
  | O => Spent
  | S n =>
      s ← load st;
      if s =? WRITER_BIT then
        if u_guard this then Ret (Ready tt, mk_upgrade false (u_listener this)) else Stop
      else
        match u_listener this with
        | None => l ← ev_listen readers_port; upgrade_loop n (mk_upgrade (u_guard this) (Some l))
        | Some l =>
            woken ← ev_poll readers_port l;
            if woken : bool then upgrade_loop n (mk_upgrade (u_guard this) None)
            else Ret (Pending, this)
        end
  end.
Definition upgrade_poll (n : nat) (this : Upgrade) : prog RwLock (poll unit * Upgrade) :=
  if u_guard this then upgrade_loop n this else Stop.
Definition upgrade_fut_drop (this : Upgrade) : prog RwLock unit :=
  _ ← (if u_guard this then write_drop else Ret tt); ev_drop readers_port (u_listener this).

Definition downgrade_write : prog RwLock unit :=
  _ ← fetch_add st (ONE_READER - WRITER_BIT);
  _ ← ev_notify writer_port 1;
  on_mutex Mx.guard_drop.
Definition downgrade_to_upgradable : prog RwLock unit :=
  _ ← fetch_add st (ONE_READER - WRITER_BIT); Ret tt.

(** ** The users of a lock

    A user owns at most one guard. *)
Inductive guard := NoGuard | ReadGuard | UpgradableGuard | WriteGuard.
Inductive cmd :=
| CRead | CTryRead | CUpgradable | CTryUpgradable | CWrite | CTryWrite | CDrop
| CDowngrade | CTryUpgrade | CUpgrade | CDowngradeToUpgradable.

Definition or_none (g : guard) (r : option unit) : guard := match r with Some _ => g | None => NoGuard end.

Definition start_cmd (n : nat) (c : cmd) (g : guard) : option (guard * prog RwLock guard) :=
  let run p := Some (NoGuard, p) in
  match c, g with
  | CRead, NoGuard => run (f ← read; r ← await (read_poll n) read_fut_drop n f; Ret (or_none ReadGuard r))
  | CTryRead, NoGuard => run (b ← try_read n; Ret (if b : bool then ReadGuard else NoGuard))
  | CUpgradable, NoGuard =>
      run (r ← await (upgradable_poll n) lock_fut_drop n None; Ret (or_none UpgradableGuard r))
  | CTryUpgradable, NoGuard => run (b ← try_upgradable_read n; Ret (if b : bool then UpgradableGuard else NoGuard))
  | CWrite, NoGuard =>
      run (r ← await (write_poll n) write_fut_drop n (Acquiring None); Ret (or_none WriteGuard r))
  | CTryWrite, NoGuard => run (b ← try_write; Ret (if b : bool then WriteGuard else NoGuard))
  | CDrop, ReadGuard => run (_ ← read_drop; Ret NoGuard)
  | CDrop, UpgradableGuard => run (_ ← upgradable_drop; Ret NoGuard)
  | CDrop, WriteGuard => run (_ ← write_drop; Ret NoGuard)
  | CDowngrade, UpgradableGuard => run (_ ← downgrade_upgradable; Ret ReadGuard)
  | CDowngrade, WriteGuard => run (_ ← downgrade_write; Ret ReadGuard)
  | CTryUpgrade, UpgradableGuard => run (b ← try_upgrade; Ret (if b : bool then WriteGuard else UpgradableGuard))
  | CUpgrade, UpgradableGuard =>
      run (f ← upgrade; r ← await (upgrade_poll n) upgrade_fut_drop n f; Ret (or_none WriteGuard r))
  | CDowngradeToUpgradable, WriteGuard => run (_ ← downgrade_to_upgradable; Ret UpgradableGuard)
  | _, _ => None
  end.
End RwLock.
Arguments RwLock : clear implicits.
End Rw.
