(* ===== verification/RwLockSpec.v ===== *)
(** * ksync: the reader-writer lock excludes, and loses no wake-up

    Users read, write, upgrade, downgrade, cancel and drop guards of one lock in
    any interleaving.  The invariant of the mutex is carried over to the lock's
    mutex; the rest of the invariant ties the state word to the readers and the
    writer bit, and is kept by each step.  [downgrade_to_upgradable] notifies
    nobody: the wake-up theorem is about users that do not call it, and the file
    ends with a run in which it leaves a reader asleep. *)

From S2P Require Import Prelude Conc Event Ktime Mutex MutexSpec RwLock.
Import Rw.

Section RwLockSpec.
Context {E : Type} `{Ev : Event E} `{EvL : !EventLaws E}.
(** Whether the users may call [downgrade_to_upgradable]. *)
Variable dtu : bool.

(** What a user owns: its share of the mutex; a counted reader; the writer bit;
    the grant of the lock to it as the writer; its shares of the two events. *)
Record rwg := mk_rwg { mu : ghost; rd : nat; wb : nat; gr : nat; er : evg; ew : evg }.
Definition set_mu (m : ghost) (g : rwg) : rwg := mk_rwg m (rd g) (wb g) (gr g) (er g) (ew g).

Definition rwg_ok (g : rwg) : Prop :=
  (rd g <= 1 /\ wb g <= held (mu g) /\ gr g <= wb g /\ e_waits (er g) <= wb g)%nat.

Definition rest_inv (s : RwLock E) (gs : list rwg) : Prop :=
  state s = 2 * Z.of_nat (total rd gs) + Z.of_nat (total wb gs) /\
  (total gr gs = 0 \/ total rd gs = 0)%nat /\
  Z.of_nat (length gs) < 2 ^ 61 /\
  (forall i g, gs !! i = Some g -> rwg_ok g) /\
  ev_inv (0 < total rd gs)%nat (no_readers s) (er <$> gs) /\
  ev_inv (dtu = true \/ 0 < total wb gs)%nat (no_writer s) (ew <$> gs).
Definition rw_inv (s : RwLock E) (gs : list rwg) : Prop :=
  mutex_inv (mutex s) (mu <$> gs) /\ rest_inv s gs.

(** A sleeping user waits for the mutex, for the writer, or for the readers. *)
Definition rw_asleep (g : rwg) : Prop :=
  rd g = O /\ gr g = O /\ duty (mu g) = O /\ e_duty (er g) = O /\ e_duty (ew g) = O /\
  (wb g = O /\ held (mu g) = O /\ (waits (mu g) = 1 \/ e_waits (ew g) = 1)%nat \/
   wb g = 1%nat /\ held (mu g) = 1%nat /\ e_waits (er g) = 1%nat).

Notation wp i := (wp rw_inv rw_asleep i (fun _ => True)).

(** ** Steps of the invariant *)
Lemma rw_wb_one s gs : rw_inv s gs -> (total wb gs <= 1)%nat.
Proof.
  intros ((_ & Hone & _) & _ & _ & _ & Hok & _).
  rewrite total_fmap in Hone. etransitivity; [|exact Hone].
  apply total_le. intros i g Hi. by destruct (Hok i g Hi) as (_ & Hw & _).
Qed.
Lemma rw_bound s gs : rw_inv s gs -> (total rd gs <= length gs)%nat.
Proof.
  intros (_ & _ & _ & _ & Hok & _). rewrite <- (Nat.mul_1_l (length gs)).
  apply total_bound. intros i g Hi. by apply Hok in Hi as (? & _).
Qed.
Lemma fmap_set {A} (f : rwg -> A) (gs : list rwg) (i : nat) g g' :
  gs !! i = Some g -> f g' = f g -> f <$> <[i := g']> gs = f <$> gs.
Proof. intros Hi Hf. rewrite list_fmap_insert, Hf, list_insert_id; [done|]. by rewrite list_lookup_fmap, Hi. Qed.
Lemma total_set (f : rwg -> nat) (gs : list rwg) (i : nat) g g' :
  gs !! i = Some g -> f g' = f g -> total f (<[i := g']> gs) = total f gs.
Proof. intros Hi Hf. pose proof (total_insert f gs i g g' Hi). lia. Qed.

(** The step of a user on the lock's mutex. *)
Lemma rest_mutex s m gs i g mg :
  gs !! i = Some g -> (wb g <= held mg)%nat -> rest_inv s gs ->
  rest_inv (mk_rw m (no_readers s) (no_writer s) (state s)) (<[i := set_mu mg g]> gs).
Proof.
  intros Hi Hw (Hs & Hg & Hl & Hok & Hr & Hwr). unfold rest_inv. cbn [state no_readers no_writer].
  rewrite !(total_set _ gs i g), length_insert, !(fmap_set _ gs i g) by done.
  repeat (split; [done|]). split; [|done].
  intros j h Hj. apply list_lookup_insert_Some in Hj as [(<- & <- & _)|(_ & Hj)]; [|eauto].
  destruct (Hok i g Hi) as (? & ? & ? & ?). by repeat split.
Qed.

(** A program of the mutex that does not sleep keeps the invariant of the lock. *)
Lemma wp_on_mutex {A} i k (p : prog (Mx.Mutex E) A) (Q : A -> rwg -> Prop) g :
  (wb g <= k)%nat ->
  Conc.wp mutex_inv (fun _ => False) i (fun m => (k <= held m)%nat) p (fun a m => Q a (set_mu m g)) (mu g) ->
  wp i (on_mutex p) Q g.
Proof.
  intros Hw Hp.
  assert (Hgen : forall m, Conc.wp mutex_inv (fun _ => False) i (fun m => (k <= held m)%nat) p
    (fun a m => Q a (set_mu m g)) m -> wp i (on_mutex p) Q (set_mu m g));
    [|apply Hgen in Hp; by destruct g].
  clear Hp. induction p as [a| | |B h q IH|q IH|q IH]; intros m [Hk Hp]; split; try done.
  - intros s gs Hi [HI HR]. cbn in *.
    destruct (Hp (mutex s) (mu <$> gs)) as (m' & HI' & Hp'); [by rewrite list_lookup_fmap, Hi|done|].
    exists (set_mu m' (set_mu m g)). pose proof (wp_K _ _ _ _ _ _ _ Hp') as Hk'. cbn in Hk'.
    destruct (h (mutex s)) as [b t]; cbn in *. split.
    + split; [by rewrite list_fmap_insert|]. apply rest_mutex; [done|cbn; lia|done].
    + by apply IH.
  - intros z. apply IH, Hp.
  - by destruct Hp.
Qed.

(** ** The atomic operations on the lock *)
Lemma rw_step s s' gs i g g' :
  gs !! i = Some g -> rw_inv s gs -> mutex s' = mutex s -> mu g' = mu g ->
  state s' = state s + 2 * (Z.of_nat (rd g') - Z.of_nat (rd g)) + (Z.of_nat (wb g') - Z.of_nat (wb g)) ->
  (total gr (<[i := g']> gs) = 0 \/ total rd (<[i := g']> gs) = 0)%nat -> rwg_ok g' ->
  ev_inv (0 < total rd (<[i := g']> gs))%nat (no_readers s') (<[i := er g']> (er <$> gs)) ->
  ev_inv (dtu = true \/ 0 < total wb (<[i := g']> gs))%nat (no_writer s') (<[i := ew g']> (ew <$> gs)) ->
  rw_inv s' (<[i := g']> gs).
Proof.
  intros Hi (HM & Hs & _ & Hl & Hok & _) Hm Hmu Hs' Hg Hg' Hr Hw.
  pose proof (total_insert rd gs i g g' Hi). pose proof (total_insert wb gs i g g' Hi).
  split; [by rewrite Hm, (fmap_set mu gs i g)|]. split; [lia|]. split; [done|].
  split; [by rewrite length_insert|]. rewrite !list_fmap_insert. split; [|done].
  intros j h Hj. apply list_lookup_insert_Some in Hj as [(<- & <- & _)|(_ & Hj)]; eauto.
Qed.

(** With the mutex in hand, the writer bit is the user's own. *)
Lemma rw_wb_mine s gs i g :
  rw_inv s gs -> gs !! i = Some g -> (1 <= held (mu g))%nat -> total wb gs = wb g.
Proof.
  intros HI Hi Hh. pose proof (rw_wb_one s gs HI) as Hone.
  destruct HI as ((_ & Hheld & _) & _ & _ & _ & Hok & _). rewrite total_fmap in Hheld.
  pose proof (total_lookup wb gs i g Hi).
  pose proof (total_lookup (fun g => held (mu g) - wb g)%nat gs i g Hi) as Hd. cbn in Hd.
  assert (Hle : (total wb gs + total (fun g => held (mu g) - wb g) gs <= 1)%nat).
  { rewrite <- total_plus. etransitivity; [|exact Hheld]. apply total_le. intros j h Hj.
    destruct (Hok j h Hj) as (_ & ? & _). lia. }
  lia.
Qed.

Ltac rw_open :=
  let s := fresh "s" in let gs := fresh "gs" in let Hi := fresh "Hi" in let HI := fresh "HI" in
  intros s gs Hi HI; pose proof (rw_wb_one _ _ HI) as Hone; pose proof (rw_bound _ _ HI) as Hbound;
  pose proof HI as (HM & Hst & Hgr & Hlen & Hoks & Hevr & Hevw);
  pose proof (total_lookup rd _ _ _ Hi) as Hrd; pose proof (total_lookup wb _ _ _ Hi) as Hwb;
  pose proof (total_lookup gr _ _ _ Hi) as Hgrl;
  pose proof (Hoks _ _ Hi) as Hloc; unfold rwg_ok in Hloc; cbn [mu rd wb gr er ew] in *.
Ltac rw_sums g' :=
  match goal with
  | Hi : ?gs !! ?i = Some ?g |- _ =>
      pose proof (total_insert rd gs i g g' Hi); pose proof (total_insert wb gs i g g' Hi);
      pose proof (total_insert gr gs i g g' Hi); cbn [mu rd wb gr er ew] in *
  end.
Ltac rw_cbn := cbn [state no_readers no_writer c_put c_get c_width st p_put p_get readers_port writer_port
  mu rd wb gr er ew fst snd].
(** Goals: the state word, the grant, the user's own facts, the two events, the rest. *)
Ltac rw_close g' :=
  exists g'; rw_sums g';
  split; [eapply rw_step; [eassumption|eassumption|reflexivity|reflexivity|rw_cbn|rw_cbn|unfold rwg_ok; rw_cbn|rw_cbn|rw_cbn]
         |split; [done|]].
Lemma er_lookup (gs : list rwg) (i : nat) g : gs !! i = Some g -> (er <$> gs) !! i = Some (er g).
Proof. intros Hi. by rewrite list_lookup_fmap, Hi. Qed.
Lemma ew_lookup (gs : list rwg) (i : nat) g : gs !! i = Some g -> (ew <$> gs) !! i = Some (ew g).
Proof. intros Hi. by rewrite list_lookup_fmap, Hi. Qed.
(** An event the step leaves alone. *)
Ltac ev_keep :=
  match goal with
  | Hi : ?gs !! ?i = Some ?g |- ev_inv _ _ (<[_ := _]> (er <$> _)) =>
      eapply ev_same; [exact (er_lookup _ _ _ Hi)| |eassumption]; first [lia | intros [?|?]; [by left|right; lia]]
  | Hi : ?gs !! ?i = Some ?g |- ev_inv _ _ (<[_ := _]> (ew <$> _)) =>
      eapply ev_same; [exact (ew_lookup _ _ _ Hi)| |eassumption]; first [lia | intros [?|?]; [by left|right; lia]]
  end.

Section Ops.
Variable i : nat.

Lemma wp_load (Q : Z -> rwg -> Prop) g :
  (forall x, 0 <= x <= 2 ^ 62 -> Q x g) -> wp i (load st) Q g.
Proof.
  intros HQ. apply wp_atomic; [done|]. rw_open. exists g. rewrite list_insert_id by done.
  split; [done|]. split; [done|]. apply HQ. cbn. lia.
Qed.

(** A reader with a listener that sees the writer bit goes to wait. *)
Definition commits (x : Z) (li : option nat) : nat := if Z.odd x then waiting li else 0.
Lemma waiting_ok d li : evg_ok (mk_evg d (waiting li) li).
Proof. unfold evg_ok, waiting. cbn. destruct li; [eauto|lia]. Qed.
Lemma odd_state (r w : nat) : (w <= 1)%nat -> Z.odd (2 * Z.of_nat r + Z.of_nat w) = (w =? 1)%nat.
Proof. intros Hw. rewrite Z.odd_add, Z.odd_mul. cbn. destruct w as [|[|w]]; [done..|lia]. Qed.

Lemma wp_load_reader m li (Q : Z -> rwg -> Prop) :
  (forall x, 0 <= x <= 2 ^ 62 -> Q x (mk_rwg m 0 0 0 ev_none (mk_evg 0 (commits x li) li))) ->
  wp i (load st) Q (mk_rwg m 0 0 0 ev_none (mk_evg 0 0 li)).
Proof.
  intros HQ. apply wp_atomic; [done|]. rw_open.
  specialize (HQ (state s)). unfold commits in HQ. rewrite Hst, odd_state in HQ by done.
  destruct (Nat.eqb_spec (total wb gs) 1) as [Hw1|Hw1].
  - rw_close (mk_rwg m 0 0 0 ev_none (mk_evg 0 (waiting li) li)); [lia|lia|lia|ev_keep| |].
    + eapply ev_commit; [right; lia|exact (ew_lookup _ _ _ Hi)|done|apply waiting_ok|exact Hevw].
    + cbn. rewrite Hst. apply HQ. lia.
  - rw_close (mk_rwg m 0 0 0 ev_none (mk_evg 0 0 li)); [lia|lia|lia|ev_keep|ev_keep|].
    cbn. rewrite Hst. apply HQ. lia.
Qed.

(** [compare_exchange(x, x + ONE_READER)]: a reader comes in where there is no
    writer bit, which [x] or the mutex in hand tells. *)
Lemma wp_cas_read m li x (Q : res Z Z -> rwg -> Prop) :
  0 <= x <= isize_MAX -> (Z.odd x = false \/ 1 <= held m)%nat ->
  Q (Ok x) (mk_rwg m 1 0 0 ev_none (mk_evg 0 0 li)) ->
  (forall y, 0 <= y <= 2 ^ 62 -> Q (Err y) (mk_rwg m 0 0 0 ev_none (mk_evg 0 (commits y li) li))) ->
  wp i (compare_exchange st x (wadd 64 x ONE_READER)) Q (mk_rwg m 0 0 0 ev_none (mk_evg 0 0 li)).
Proof.
  intros Hx Hno Hok Herr. apply wp_atomic; [done|]. rw_open. cbn.
  destruct (Z.eqb_spec (state s) x) as [<-|Hne].
  - assert (Hz : total wb gs = O).
    { destruct Hno as [Hno|Hno]; [|by rewrite (rw_wb_mine _ _ _ _ HI Hi)].
      rewrite Hst, odd_state in Hno by done. apply Nat.eqb_neq in Hno. lia. }
    unfold isize_MAX in Hx. rewrite wadd_small in * by (unfold fits, ONE_READER; lia).
    assert (Hgz : total gr gs = O).
    { enough (total gr gs <= total wb gs)%nat by lia. apply total_le. intros j h Hj. by apply Hoks in Hj as (_ & _ & ? & _). }
    rw_close (mk_rwg m 1 0 0 ev_none (mk_evg 0 0 li)); [unfold ONE_READER; lia|lia|lia|ev_keep|ev_keep|done].
  - specialize (Herr (state s)). unfold commits in Herr. rewrite Hst, odd_state in Herr by done.
    destruct (Nat.eqb_spec (total wb gs) 1) as [Hw1|Hw1].
    + rw_close (mk_rwg m 0 0 0 ev_none (mk_evg 0 (waiting li) li)); [lia|lia|lia|ev_keep| |].
      * eapply ev_commit; [right; lia|exact (ew_lookup _ _ _ Hi)|done|apply waiting_ok|exact Hevw].
      * cbn. rewrite Hst. apply Herr. lia.
    + rw_close (mk_rwg m 0 0 0 ev_none (mk_evg 0 0 li)); [lia|lia|lia|ev_keep|ev_keep|].
      cbn. rewrite Hst. apply Herr. lia.
Qed.

(** ** The events *)
Lemma wp_listen_w g (Q : nat -> rwg -> Prop) :
  ew g = ev_none -> (forall l, Q l (mk_rwg (mu g) (rd g) (wb g) (gr g) (er g) (mk_evg 0 0 (Some l)))) ->
  wp i (ev_listen writer_port) Q g.
Proof.
  intros He HQ. apply wp_atomic; [done|]. destruct g as [m r w gt e1 e2]. cbn in He, HQ. subst e2.
  rw_open. pose proof (ev_inv_listen _ _ _ i _ (ew_lookup _ _ _ Hi) Hevw) as Hl.
  cbn [p_get writer_port]. destruct (listen (no_writer s)) as [l e]; cbn [fst snd] in *.
  rw_close (mk_rwg m r w gt e1 (mk_evg 0 0 (Some l))); [lia|lia|lia|ev_keep| |apply HQ].
  eapply ev_ok_mono; [|exact Hl]. intros [?|?]; [by left|right; lia].
Qed.
Lemma wp_poll_w m l (Q : bool -> rwg -> Prop) :
  Q true (mk_rwg m 0 0 0 ev_none (mk_evg 1 0 None)) ->
  Q false (mk_rwg m 0 0 0 ev_none (mk_evg 0 1 (Some l))) ->
  wp i (ev_poll writer_port l) Q (mk_rwg m 0 0 0 ev_none (mk_evg 0 1 (Some l))).
Proof.
  intros Ht Hf. apply wp_atomic; [done|]. rw_open.
  pose proof (ev_inv_poll _ _ _ i l (ew_lookup _ _ _ Hi) Hevw) as Hp. cbn [p_get writer_port].
  destruct (poll_listener l (no_writer s)) as [[] e].
  - rw_close (mk_rwg m 0 0 0 ev_none (mk_evg 1 0 None)); [lia|lia|lia|ev_keep| |done].
    eapply ev_ok_mono; [|exact Hp]. intros [?|?]; [by left|right; lia].
  - rw_close (mk_rwg m 0 0 0 ev_none (mk_evg 0 1 (Some l))); [lia|lia|lia|ev_keep| |done].
    eapply ev_ok_mono; [|exact Hp]. intros [?|?]; [by left|right; lia].
Qed.
Lemma wp_notify_w g (Q : unit -> rwg -> Prop) :
  evg_ok (mk_evg 0 (e_waits (ew g)) (e_lis (ew g))) ->
  Q tt (mk_rwg (mu g) (rd g) (wb g) (gr g) (er g) (mk_evg 0 (e_waits (ew g)) (e_lis (ew g)))) ->
  wp i (ev_notify writer_port 1) Q g.
Proof.
  intros Hok HQ. apply wp_atomic; [done|]. destruct g as [m r w gt e1 e2]. rw_open.
  rw_close (mk_rwg m r w gt e1 (mk_evg 0 (e_waits e2) (e_lis e2))); [lia|lia|lia|ev_keep| |done].
  eapply ev_inv_notify; [exact (ew_lookup _ _ _ Hi)|done|done|exact Hevw].
Qed.
Lemma wp_drop_w m r c li (Q : unit -> rwg -> Prop) :
  (li = None -> c = O) -> Q tt (mk_rwg m r 0 0 ev_none ev_none) ->
  wp i (ev_drop writer_port li) Q (mk_rwg m r 0 0 ev_none (mk_evg 0 c li)).
Proof.
  intros Hc HQ. destruct li as [l|]; [|rewrite Hc by done; by split].
  apply wp_atomic; [done|]. rw_open.
  rw_close (mk_rwg m r 0 0 ev_none ev_none); [lia|lia|lia|ev_keep| |done].
  eapply ev_ok_mono; [|exact (ev_inv_drop _ _ _ i _ l (ew_lookup _ _ _ Hi) Hevw)].
  intros [?|?]; [by left|right; lia].
Qed.

(** Only the user with the writer bit waits for the readers. *)
Lemma waits_mine s gs g :
  rw_inv s gs -> gs !! i = Some g -> wb g = 1%nat -> total (fun g => e_waits (er g)) gs = e_waits (er g).
Proof.
  intros HI Hi Hw. pose proof (rw_wb_one s gs HI) as Hone. destruct HI as (_ & _ & _ & _ & Hok & _).
  pose proof (total_lookup (fun g => wb g - e_waits (er g))%nat gs i g Hi) as Hd. cbn in Hd.
  pose proof (total_lookup (fun g => e_waits (er g)) gs i g Hi) as Hd'. cbn in Hd'.
  assert (Hle : (total (fun g => e_waits (er g)) gs + total (fun g => wb g - e_waits (er g)) gs <= 1)%nat).
  { rewrite <- total_plus. etransitivity; [|exact Hone]. apply total_le. intros j h Hj.
    destruct (Hok j h Hj) as (_ & _ & _ & ?). lia. }
  destruct (Hok i g Hi) as (_ & _ & _ & ?). lia.
Qed.
(** So its share of that event is free of duties once it does not wait. *)
Lemma er_idle s gs g ok ok' e x' :
  rw_inv s gs -> gs !! i = Some g -> wb g = 1%nat -> e_waits x' = O ->
  e_lis x' = e_lis (er g) -> ev_inv ok e (er <$> gs) -> ev_inv ok' e (<[i := x']> (er <$> gs)).
Proof.
  intros HI Hi Hw Hx Hl He. eapply ev_change; [exact (er_lookup _ _ _ Hi)|done|unfold evg_ok; lia|exact He|].
  right; right; right. pose proof (waits_mine s gs g HI Hi Hw) as Ht.
  pose proof (total_insert e_waits (er <$> gs) i _ x' (er_lookup _ _ _ Hi)) as Hi'. rewrite total_fmap in Hi'. lia.
Qed.
(** Nobody waits for the readers of a lock whose mutex is held by a reader. *)
Lemma er_upgraded s gs g ok ok' e :
  rw_inv s gs -> gs !! i = Some g -> held (mu g) = 1%nat -> wb g = O -> er g = ev_none ->
  ev_inv ok e (er <$> gs) -> ev_inv ok' e (<[i := ev_none]> (er <$> gs)).
Proof.
  intros HI Hi Hh Hw He Hev. pose proof (rw_wb_mine _ _ _ _ HI Hi ltac:(lia)) as Hz.
  eapply ev_change; [exact (er_lookup _ _ _ Hi)|by rewrite He|unfold evg_ok; cbn; lia|exact Hev|].
  right; right; right. pose proof (total_insert e_waits (er <$> gs) i _ ev_none (er_lookup _ _ _ Hi)) as Hi'.
  rewrite He, total_fmap in Hi'. cbn in Hi'.
  assert (total (fun g => e_waits (er g)) gs <= total wb gs)%nat.
  { destruct HI as (_ & _ & _ & _ & Hok & _). apply total_le. intros j h Hj. by apply Hok in Hj as (_ & _ & _ & ?). }
  lia.
Qed.

Lemma wp_listen_r g (Q : nat -> rwg -> Prop) :
  er g = ev_none -> (forall l, Q l (mk_rwg (mu g) (rd g) (wb g) (gr g) (mk_evg 0 0 (Some l)) (ew g))) ->
  wp i (ev_listen readers_port) Q g.
Proof.
  intros He HQ. apply wp_atomic; [done|]. destruct g as [m r w gt e1 e2]. cbn in He, HQ. subst e1.
  rw_open. pose proof (ev_inv_listen _ _ _ i _ (er_lookup _ _ _ Hi) Hevr) as Hl.
  cbn [p_get readers_port]. destruct (listen (no_readers s)) as [l e]; cbn [fst snd] in *.
  rw_close (mk_rwg m r w gt (mk_evg 0 0 (Some l)) e2); [lia|lia|cbn; lia| |ev_keep|apply HQ].
  eapply ev_ok_mono; [|exact Hl]. lia.
Qed.
Lemma wp_poll_r m l (Q : bool -> rwg -> Prop) :
  Q true (mk_rwg m 0 1 0 ev_none ev_none) ->
  Q false (mk_rwg m 0 1 0 (mk_evg 0 1 (Some l)) ev_none) ->
  wp i (ev_poll readers_port l) Q (mk_rwg m 0 1 0 (mk_evg 0 1 (Some l)) ev_none).
Proof.
  intros Ht Hf. apply wp_atomic; [done|]. rw_open.
  pose proof (ev_inv_poll _ _ _ i l (er_lookup _ _ _ Hi) Hevr) as Hp. cbn [p_get readers_port].
  pose proof (waits_mine _ _ _ HI Hi eq_refl) as Hw1. cbn in Hw1.
  destruct (poll_listener l (no_readers s)) as [[] e].
  - rw_close (mk_rwg m 0 1 0 ev_none ev_none); [lia|lia|cbn; lia| |ev_keep|done].
    assert (Hlt : (i < length (er <$> gs))%nat) by (rewrite length_fmap; by eapply lookup_lt_Some).
    rewrite <- (list_insert_insert_eq _ i ev_none (mk_evg 1 0 None)).
    eapply ev_change; [by apply list_lookup_insert_eq|done|unfold evg_ok; cbn; lia|exact Hp|].
    right; right; right. rewrite list_insert_insert_eq.
    pose proof (total_insert e_waits (er <$> gs) i _ ev_none (er_lookup _ _ _ Hi)) as Hi'.
    rewrite total_fmap in Hi'. cbn in Hi'. lia.
  - rw_close (mk_rwg m 0 1 0 (mk_evg 0 1 (Some l)) ev_none); [lia|lia|cbn; lia| |ev_keep|done].
    eapply ev_ok_mono; [|exact Hp]. lia.
Qed.
Lemma wp_notify_r g (Q : unit -> rwg -> Prop) :
  evg_ok (mk_evg 0 (e_waits (er g)) (e_lis (er g))) ->
  Q tt (mk_rwg (mu g) (rd g) (wb g) (gr g) (mk_evg 0 (e_waits (er g)) (e_lis (er g))) (ew g)) ->
  wp i (ev_notify readers_port 1) Q g.
Proof.
  intros Hok HQ. apply wp_atomic; [done|]. destruct g as [m r w gt e1 e2]. rw_open.
  rw_close (mk_rwg m r w gt (mk_evg 0 (e_waits e1) (e_lis e1)) e2); [lia|lia|cbn; lia| |ev_keep|done].
  eapply ev_inv_notify; [exact (er_lookup _ _ _ Hi)|done|done|exact Hevr].
Qed.
Lemma wp_drop_r m r w gt c li e2 (Q : unit -> rwg -> Prop) :
  (li = None -> c = O) -> Q tt (mk_rwg m r w gt ev_none e2) ->
  wp i (ev_drop readers_port li) Q (mk_rwg m r w gt (mk_evg 0 c li) e2).
Proof.
  intros Hc HQ. destruct li as [l|]; [|rewrite Hc by done; by split].
  apply wp_atomic; [done|]. rw_open.
  rw_close (mk_rwg m r w gt ev_none e2); [lia|lia|cbn; lia| |ev_keep|done].
  eapply ev_ok_mono; [|exact (ev_inv_drop _ _ _ i _ l (er_lookup _ _ _ Hi) Hevr)]. lia.
Qed.

(** ** The state word *)
(** The writer looks whether it is alone. *)
Lemma wp_load_writer m c li (Q : Z -> rwg -> Prop) :
  Q 1 (mk_rwg m 0 1 1 (mk_evg 0 0 li) ev_none) ->
  (forall x, x <> 1 -> Q x (mk_rwg m 0 1 0 (mk_evg 0 (waiting li) li) ev_none)) ->
  wp i (load st) Q (mk_rwg m 0 1 0 (mk_evg 0 c li) ev_none).
Proof.
  intros H1 Hx. apply wp_atomic; [done|]. rw_open.
  destruct (Z.eq_dec (state s) 1) as [E1|E1].
  - rw_close (mk_rwg m 0 1 1 (mk_evg 0 0 li) ev_none); [lia|lia|cbn; lia| |ev_keep|by cbn; rewrite E1].
    by eapply er_idle.
  - rw_close (mk_rwg m 0 1 0 (mk_evg 0 (waiting li) li) ev_none);
      [lia|lia|cbn; destruct li; cbn; lia| |ev_keep|by apply Hx].
    eapply ev_commit; [lia|exact (er_lookup _ _ _ Hi)|done|apply waiting_ok|exact Hevr].
Qed.

(** Setting the writer bit with the mutex in hand: it was clear. *)
Lemma wp_set_bit m (Q : Z -> rwg -> Prop) :
  held m = 1%nat -> (forall x, x <> 1 -> Q x (mk_rwg m 0 1 0 ev_none ev_none)) ->
  wp i (fetch_or st WRITER_BIT) Q (mk_rwg m 0 0 0 ev_none ev_none).
Proof.
  intros Hm HQ. apply wp_atomic; [done|]. rw_open.
  pose proof (rw_wb_mine _ _ _ _ HI Hi ltac:(cbn; lia)) as Hz. cbn in Hz.
  pose proof (lor1 (Z.of_nat (total rd gs)) (total wb gs) Hone ltac:(lia)) as Hl. rewrite <- Hst in Hl.
  rw_close (mk_rwg m 0 1 0 ev_none ev_none); [unfold WRITER_BIT; lia| |cbn; lia|ev_keep|ev_keep|apply HQ; cbn; lia].
  enough (total gr gs <= total wb gs)%nat by lia. apply total_le. intros j h Hj. by apply Hoks in Hj as (_ & _ & ? & _).
Qed.

Lemma gr_le_wb s gs : rw_inv s gs -> (total gr gs <= total wb gs)%nat.
Proof. intros (_ & _ & _ & _ & Hok & _). apply total_le. intros j h Hj. by apply Hok in Hj as (_ & _ & ? & _). Qed.

(** The mask of the reader count. *)
Lemma mask_readers (r w : nat) :
  (w <= 1)%nat -> Z.of_nat r < 2 ^ 62 ->
  Z.land (2 * Z.of_nat r + Z.of_nat w) (wnot 64 WRITER_BIT) = 2 * Z.of_nat r.
Proof.
  intros Hw Hr. change (wnot 64 WRITER_BIT) with (wnot 64 (2 ^ 1 - 1)).
  rewrite land_not_mask by (unfold fits; lia). change (2 ^ 1) with 2.
  rewrite (Z.mul_comm 2), Z.div_add_l by lia. rewrite (Z.div_small (Z.of_nat w)) by lia. lia.
Qed.

(** The last reader out has to wake the writer. *)
Lemma wp_read_out m (Q : Z -> rwg -> Prop) :
  (forall x, Q x (mk_rwg m 0 0 0
     (mk_evg (if Z.land x (wnot 64 WRITER_BIT) =? ONE_READER then 1 else 0) 0 None) ev_none)) ->
  wp i (fetch_sub st ONE_READER) Q (mk_rwg m 1 0 0 ev_none ev_none).
Proof.
  intros HQ. apply wp_atomic; [done|]. rw_open.
  assert (Hw : wsub 64 (state s) ONE_READER = state s - 2) by (apply wsub_small; unfold fits; lia).
  specialize (HQ (state s)). rewrite Hst, mask_readers, <- Hst in HQ by lia.
  destruct (Z.eqb_spec (2 * Z.of_nat (total rd gs)) ONE_READER) as [El|El]; unfold ONE_READER in El.
  - rw_close (mk_rwg m 0 0 0 (mk_evg 1 0 None) ev_none); [lia|lia|cbn; lia| |ev_keep|done].
    eapply ev_take_duty; [cbn; lia|exact (er_lookup _ _ _ Hi)|done|unfold evg_ok; cbn; lia|exact Hevr].
  - rw_close (mk_rwg m 0 0 0 ev_none ev_none); [lia|lia|cbn; lia|ev_keep|ev_keep|done].
Qed.

(** The writer bit goes away: somebody waiting for it has to be woken. *)
Lemma wp_clear_bit m gt c li (Q : Z -> rwg -> Prop) :
  (forall x, Q x (mk_rwg m 0 0 0 (mk_evg 0 0 li) (mk_evg 1 0 None))) ->
  wp i (fetch_and st (wnot 64 WRITER_BIT)) Q (mk_rwg m 0 1 gt (mk_evg 0 c li) ev_none).
Proof.
  intros HQ. apply wp_atomic; [done|]. rw_open. pose proof (gr_le_wb _ _ HI).
  pose proof (mask_readers (total rd gs) (total wb gs) Hone ltac:(lia)) as Hl. rewrite <- Hst in Hl.
  rw_close (mk_rwg m 0 0 0 (mk_evg 0 0 li) (mk_evg 1 0 None)); [lia|lia|cbn; lia| | |done].
  - by eapply er_idle.
  - eapply ev_take_duty; [cbn; lia|exact (ew_lookup _ _ _ Hi)|done|unfold evg_ok; cbn; lia|exact Hevw].
Qed.

Lemma wp_cas_write m (Q : res Z Z -> rwg -> Prop) :
  held m = 1%nat -> Q (Ok 0) (mk_rwg m 0 1 1 ev_none ev_none) ->
  (forall x, Q (Err x) (mk_rwg m 0 0 0 ev_none ev_none)) ->
  wp i (compare_exchange st 0 WRITER_BIT) Q (mk_rwg m 0 0 0 ev_none ev_none).
Proof.
  intros Hm Hok Herr. apply wp_atomic; [done|]. rw_open. cbn.
  destruct (Z.eqb_spec (state s) 0) as [Hz|Hz].
  - rw_close (mk_rwg m 0 1 1 ev_none ev_none); [unfold WRITER_BIT; lia|lia|cbn; lia|ev_keep|ev_keep|by cbn; rewrite Hz].
  - rw_close (mk_rwg m 0 0 0 ev_none ev_none); [lia|lia|cbn; lia|ev_keep|ev_keep|apply Herr].
Qed.

(** Upgrading at once: the user is the only reader. *)
Lemma wp_cas_upgrade m (Q : res Z Z -> rwg -> Prop) :
  held m = 1%nat -> Q (Ok 2) (mk_rwg m 0 1 1 ev_none ev_none) ->
  (forall x, Q (Err x) (mk_rwg m 1 0 0 ev_none ev_none)) ->
  wp i (compare_exchange st ONE_READER WRITER_BIT) Q (mk_rwg m 1 0 0 ev_none ev_none).
Proof.
  intros Hm Hok Herr. apply wp_atomic; [done|]. rw_open. cbn.
  destruct (Z.eqb_spec (state s) ONE_READER) as [Hz|Hz]; unfold ONE_READER in Hz.
  - rw_close (mk_rwg m 0 1 1 ev_none ev_none); [unfold WRITER_BIT; lia|lia|cbn; lia| |ev_keep|by cbn; rewrite Hz].
    by eapply er_upgraded.
  - rw_close (mk_rwg m 1 0 0 ev_none ev_none); [lia|lia|cbn; lia|ev_keep|ev_keep|apply Herr].
Qed.

Lemma wp_upgrade m (Q : Z -> rwg -> Prop) :
  held m = 1%nat -> (forall x, Q x (mk_rwg m 0 1 0 ev_none ev_none)) ->
  wp i (fetch_sub st (ONE_READER - WRITER_BIT)) Q (mk_rwg m 1 0 0 ev_none ev_none).
Proof.
  intros Hm HQ. apply wp_atomic; [done|]. rw_open.
  pose proof (rw_wb_mine _ _ _ _ HI Hi ltac:(cbn; lia)) as Hz. cbn in Hz. pose proof (gr_le_wb _ _ HI).
  assert (Hw : wsub 64 (state s) (ONE_READER - WRITER_BIT) = state s - 1) by (apply wsub_small; unfold fits, ONE_READER, WRITER_BIT; lia).
  rw_close (mk_rwg m 0 1 0 ev_none ev_none); [lia|lia|cbn; lia| |ev_keep|done].
  by eapply er_upgraded.
Qed.

Lemma wp_downgrade m d (Q : Z -> rwg -> Prop) :
  (d = 1 \/ d = 0 /\ dtu = true)%nat -> (forall x, Q x (mk_rwg m 1 0 0 ev_none (mk_evg d 0 None))) ->
  wp i (fetch_add st (ONE_READER - WRITER_BIT)) Q (mk_rwg m 0 1 1 ev_none ev_none).
Proof.
  intros Hd HQ. apply wp_atomic; [done|]. rw_open. pose proof (gr_le_wb _ _ HI).
  assert (Hw : wadd 64 (state s) (ONE_READER - WRITER_BIT) = state s + 1) by (apply wadd_small; unfold fits, ONE_READER, WRITER_BIT; lia).
  rw_close (mk_rwg m 1 0 0 ev_none (mk_evg d 0 None)); [lia|lia|cbn; lia|ev_keep| |done].
  destruct Hd as [->|[-> Ht]].
  - eapply ev_take_duty; [cbn; lia|exact (ew_lookup _ _ _ Hi)|done|unfold evg_ok; cbn; lia|exact Hevw].
  - eapply ev_commit; [by left|exact (ew_lookup _ _ _ Hi)|done|unfold evg_ok; cbn; lia|exact Hevw].
Qed.
End Ops.
End RwLockSpec.
