(* ===== verification/RwLockUse.v ===== *)
(** * ksync: the operations of the reader-writer lock

    Each guard operation and each future of [RwLock.v], by the steps of
    [RwLockSpec.v]; then the theorems about all interleavings of users, and the
    run in which [downgrade_to_upgradable] loses a wake-up. *)

From S2P Require Import Prelude Conc Event Ktime Mutex MutexSpec RwLock RwLockSpec.
Import Rw.

Section RwLockUse.
Context {E : Type} `{Ev : Event E} `{EvL : !EventLaws E}.
Variable dtu : bool.
Variables (i : nat) (n : nat).

Notation wp := (wp (rw_inv dtu) rw_asleep i (fun _ => True)).

Definition m0 : ghost := mk_ghost 0 0 0 0 None.
Definition m1 : ghost := mk_ghost 1 0 0 0 None.
Definition rw_owns (g : guard) : rwg :=
  match g with
  | NoGuard => mk_rwg m0 0 0 0 ev_none ev_none
  | ReadGuard => mk_rwg m0 1 0 0 ev_none ev_none
  | UpgradableGuard => mk_rwg m1 1 0 0 ev_none ev_none
  | WriteGuard => mk_rwg m1 0 1 1 ev_none ev_none
  end.

(** ** Dropping and changing guards *)
Lemma mutex_drop_ok r e1 e2 (Q : unit -> rwg -> Prop) :
  Q tt (mk_rwg m0 r 0 0 e1 e2) -> wp (on_mutex Mx.guard_drop) Q (mk_rwg m1 r 0 0 e1 e2).
Proof. intros HQ. apply wp_on_mutex with (k := O); [done|]. by apply guard_drop_ok. Qed.

Lemma read_drop_ok m (Q : unit -> rwg -> Prop) :
  Q tt (mk_rwg m 0 0 0 ev_none ev_none) -> wp read_drop Q (mk_rwg m 1 0 0 ev_none ev_none).
Proof.
  intros HQ. apply wp_bind. apply wp_read_out. intros x.
  destruct (Z.land x (wnot 64 WRITER_BIT) =? ONE_READER).
  - apply wp_notify_r; [unfold evg_ok; cbn; lia|done].
  - by apply wp_ret.
Qed.
Lemma upgradable_drop_ok (Q : unit -> rwg -> Prop) :
  Q tt (rw_owns NoGuard) -> wp upgradable_drop Q (rw_owns UpgradableGuard).
Proof. intros HQ. apply wp_bind, read_drop_ok. by apply mutex_drop_ok. Qed.

(** A write guard, granted or not, with whatever listener its future has left. *)
Lemma write_drop_ok gt c li (Q : unit -> rwg -> Prop) :
  Q tt (mk_rwg m0 0 0 0 (mk_evg 0 0 li) ev_none) ->
  wp write_drop Q (mk_rwg m1 0 1 gt (mk_evg 0 c li) ev_none).
Proof.
  intros HQ. apply wp_bind. apply wp_bind. apply wp_clear_bit. intros x.
  apply wp_notify_w; [unfold evg_ok; cbn; lia|]. by apply mutex_drop_ok.
Qed.
Lemma downgrade_write_ok (Q : unit -> rwg -> Prop) :
  Q tt (rw_owns ReadGuard) -> wp downgrade_write Q (rw_owns WriteGuard).
Proof.
  intros HQ. apply wp_bind. eapply wp_downgrade; [by left|]. intros x. apply wp_bind.
  apply wp_notify_w; [unfold evg_ok; cbn; lia|]. by apply mutex_drop_ok.
Qed.
Lemma try_upgrade_ok (Q : bool -> rwg -> Prop) :
  Q true (rw_owns WriteGuard) -> Q false (rw_owns UpgradableGuard) -> wp try_upgrade Q (rw_owns UpgradableGuard).
Proof. intros Ht Hf. apply wp_bind. apply wp_cas_upgrade; [done| |intros x]; by apply wp_ret. Qed.

(** ** Readers *)
Lemma land_bit x : 0 <= x -> (Z.land x WRITER_BIT =? 0) = negb (Z.odd x).
Proof.
  intros Hx. change WRITER_BIT with (2 ^ 1 - 1). rewrite land_mask by lia. change (2 ^ 1) with 2.
  rewrite Zmod_odd. by destruct (Z.odd x).
Qed.

Lemma try_read_loop_ok k x (Q : bool -> rwg -> Prop) :
  0 <= x <= 2 ^ 62 -> Q true (rw_owns ReadGuard) -> Q false (rw_owns NoGuard) ->
  wp (try_read_loop k x) Q (rw_owns NoGuard).
Proof.
  intros Hx Ht Hf. revert x Hx. induction k as [|k IH]; intros x Hx; [done|]. cbn [try_read_loop].
  rewrite land_bit by lia. destruct (Z.odd x) eqn:Eo; cbn [negb]; [by apply wp_ret|].
  unfold isize_MAX. destruct (Z.ltb_spec (2 ^ 63 - 1) x); [lia|].
  apply wp_bind. apply wp_cas_read; [unfold isize_MAX; lia|by left|by apply wp_ret|].
  intros y Hy. unfold commits. replace (if Z.odd y then waiting None else 0%nat) with O by (by destruct (Z.odd y)).
  by apply IH.
Qed.
Lemma try_read_ok (Q : bool -> rwg -> Prop) :
  Q true (rw_owns ReadGuard) -> Q false (rw_owns NoGuard) -> wp (try_read n) Q (rw_owns NoGuard).
Proof. intros Ht Hf. apply wp_bind, wp_load. intros x Hx. by apply try_read_loop_ok. Qed.

Definition read_at (this : Read) (g : rwg) : Prop :=
  0 <= r_state this <= 2 ^ 62 /\
  g = mk_rwg m0 0 0 0 ev_none (mk_evg 0 (commits (r_state this) (r_listener this)) (r_listener this)).
Definition read_done (this : Read) (g : rwg) : Prop :=
  g = mk_rwg m0 1 0 0 ev_none (mk_evg 0 0 (r_listener this)).

Lemma read_poll_ok k this g :
  read_at this g ->
  wp (read_poll k this) (fun r g' =>
    match r.1 with Ready _ => read_done r.2 g' | Pending => read_at r.2 g' /\ rw_asleep g' end) g.
Proof.
  revert this g. induction k as [|k IH]; intros this g [Hx ->]; [done|]. cbn [read_poll].
  rewrite land_bit by lia. unfold commits. destruct (Z.odd (r_state this)) eqn:Eo; cbn [negb].
  - destruct (r_listener this) as [l|] eqn:El; cbn [waiting]; apply wp_bind.
    + apply wp_poll_w.
      * apply wp_bind. apply wp_notify_w; [unfold evg_ok; cbn; lia|]. apply wp_bind, wp_load_reader.
        intros x Hx'. by apply IH.
      * apply wp_ret; [done|]. split; [|by repeat split; left; auto].
        split; [done|]. unfold commits. cbn. by rewrite Eo, El.
    + apply wp_listen_w; [done|]. intros l. apply wp_bind, wp_load_reader. intros x Hx'. by apply IH.
  - unfold isize_MAX. destruct (Z.ltb_spec (2 ^ 63 - 1) (r_state this)); [lia|].
    apply wp_bind. apply wp_cas_read; [unfold isize_MAX; lia|by left|by apply wp_ret|].
    intros y Hy. by apply IH.
Qed.

(** ** Upgradable readers *)
Lemma count_in_ok k x m (Q : unit -> rwg -> Prop) :
  held m = 1%nat -> 0 <= x <= 2 ^ 62 -> Q tt (mk_rwg m 1 0 0 ev_none ev_none) ->
  wp (count_in k x) Q (mk_rwg m 0 0 0 ev_none ev_none).
Proof.
  intros Hm Hx HQ. revert x Hx. induction k as [|k IH]; intros x Hx; [done|]. cbn [count_in].
  apply wp_bind. apply wp_cas_read; [unfold isize_MAX; lia|right; lia|by apply wp_ret|].
  intros y Hy. unfold commits. replace (if Z.odd y then waiting None else 0%nat) with O by (by destruct (Z.odd y)).
  by apply IH.
Qed.
Lemma enter_ok m (Q : unit -> rwg -> Prop) :
  held m = 1%nat -> Q tt (mk_rwg m 1 0 0 ev_none ev_none) -> wp (enter n) Q (mk_rwg m 0 0 0 ev_none ev_none).
Proof.
  intros Hm HQ. apply wp_bind, wp_load. intros x Hx. unfold isize_MAX.
  destruct (Z.ltb_spec (2 ^ 63 - 1) x); [lia|]. by apply count_in_ok.
Qed.
Lemma mutex_try_ok (Q : bool -> rwg -> Prop) :
  Q true (mk_rwg m1 0 0 0 ev_none ev_none) -> Q false (rw_owns NoGuard) ->
  wp (on_mutex Mx.try_lock) Q (rw_owns NoGuard).
Proof. intros Ht Hf. apply wp_on_mutex with (k := O); [done|]. by apply try_lock_ok. Qed.
Lemma try_upgradable_ok (Q : bool -> rwg -> Prop) :
  Q true (rw_owns UpgradableGuard) -> Q false (rw_owns NoGuard) -> wp (try_upgradable_read n) Q (rw_owns NoGuard).
Proof.
  intros Ht Hf. apply wp_bind, mutex_try_ok; [|by apply wp_ret].
  apply wp_bind, enter_ok; [done|]. by apply wp_ret.
Qed.

(** A user in the queue of the mutex, and one that has just got it. *)
Definition queued (f : option Mx.AcquireSlow) (g : rwg) : Prop :=
  exists m, lock_at 0 f m /\ g = mk_rwg m 0 0 0 ev_none ev_none.
Definition entered (f : option Mx.AcquireSlow) (r w : nat) (e : evg) (g : rwg) : Prop :=
  exists m, locked_at 0 f m /\ held m = 1%nat /\ g = mk_rwg m r w 0 e ev_none.

Lemma locked_held f m : locked_at 0 f m -> held m = 1%nat.
Proof. destruct f; [by intros [_ ->]|by intros ->]. Qed.

Lemma mutex_poll_ok k f g (Q : poll unit * option Mx.AcquireSlow -> rwg -> Prop) :
  queued f g ->
  (forall f' g', entered f' 0 0 ev_none g' -> Q (Ready tt, f') g') ->
  (forall f' g', queued f' g' -> rw_asleep g' -> Q (Pending, f') g') ->
  wp (on_mutex (Mx.lock_poll k f)) Q g.
Proof.
  intros (m & Hm & ->) Hr Hp. apply wp_on_mutex with (k := O); [done|].
  eapply wp_mono; [|by apply (lock_poll_ok i O _ k O)]. intros [[[]|] f'] m' _ Hq; cbn in Hq; cbn.
  - apply Hr. exists m'. split; [done|]. split; [by eapply locked_held|done].
  - destruct Hq as [Hq (Hh & Hd & Hw)]. apply Hp; [by exists m'|]. repeat split; cbn; auto.
Qed.
Lemma mutex_unqueue_ok f g (Q : unit -> rwg -> Prop) :
  queued f g -> Q tt (rw_owns NoGuard) -> wp (lock_fut_drop f) Q g.
Proof.
  intros (m & Hm & ->) HQ. apply wp_on_mutex with (k := O); [done|].
  eapply wp_mono; [|by apply (lock_drop_ok i O _ O)]. by intros [] m' _ ->.
Qed.
Lemma mutex_entered_ok f r w e g (Q : unit -> rwg -> Prop) :
  (w <= 1)%nat -> entered f r w e g -> Q tt (mk_rwg m1 r w 0 e ev_none) -> wp (lock_fut_drop f) Q g.
Proof.
  intros Hw (m & Hm & _ & ->) HQ. apply wp_on_mutex with (k := 1%nat); [done|].
  eapply wp_mono; [|by apply (locked_drop_ok i 1 _ O)]. by intros [] m' _ ->.
Qed.

Lemma upgradable_poll_ok f g :
  queued f g ->
  wp (upgradable_poll n f) (fun r g' =>
    match r.1 with Ready _ => entered r.2 1 0 ev_none g' | Pending => queued r.2 g' /\ rw_asleep g' end) g.
Proof.
  intros Hq. apply wp_bind. apply mutex_poll_ok; [done| |].
  - intros f' g' (m & Hm & Hh & ->). apply wp_bind, enter_ok; [done|]. apply wp_ret; [done|]. by exists m.
  - intros f' g' Hq' Ha. by apply wp_ret.
Qed.

(** ** Writers *)
Lemma try_write_ok (Q : bool -> rwg -> Prop) :
  Q true (rw_owns WriteGuard) -> Q false (rw_owns NoGuard) -> wp try_write Q (rw_owns NoGuard).
Proof.
  intros Ht Hf. apply wp_bind, mutex_try_ok; [|by apply wp_ret].
  apply wp_bind, wp_cas_write; [done|by apply wp_ret|]. intros x. cbn [is_ok].
  apply wp_bind, mutex_drop_ok. by apply wp_ret.
Qed.

(** A writer with its bit set, waiting for the readers, and one that has the lock. *)
Definition pending_writer (li : option nat) (g : rwg) : Prop :=
  exists c, (li = None -> c = O) /\ g = mk_rwg m1 0 1 0 (mk_evg 0 c li) ev_none.
Definition granted_writer (li : option nat) (g : rwg) : Prop := g = mk_rwg m1 0 1 1 (mk_evg 0 0 li) ev_none.

Lemma writer_asleep l : rw_asleep (mk_rwg m1 0 1 0 (mk_evg 0 1 (Some l)) ev_none).
Proof. repeat split; cbn; auto. Qed.

Definition write_at (this : WriteState) (g : rwg) : Prop :=
  match this with
  | Acquiring f => queued f g
  | WaitingReaders b li => b = true /\ pending_writer li g
  end.
Definition write_done (this : WriteState) (g : rwg) : Prop :=
  match this with Acquiring _ => False | WaitingReaders b li => b = false /\ granted_writer li g end.

Lemma write_poll_ok k this g :
  write_at this g ->
  wp (write_poll k this) (fun r g' =>
    match r.1 with Ready _ => write_done r.2 g' | Pending => write_at r.2 g' /\ rw_asleep g' end) g.
Proof.
  revert this g. induction k as [|k IH]; intros this g Hat; [done|]. cbn [write_poll].
  destruct this as [f|b li]; apply wp_bind.
  - apply mutex_poll_ok; [done| |].
    + intros f' g' (m & Hm & Hh & ->). apply wp_bind, wp_set_bit; [done|]. intros x Hx.
      destruct (Z.eqb_spec x WRITER_BIT) as [->|_]; [done|].
      apply wp_bind, wp_listen_r; [done|]. intros l. apply wp_bind.
      eapply (mutex_entered_ok f' 0 1); [done|by exists m|]. apply IH. split; [done|]. exists O. by split.
    + intros f' g' Hq Ha. by apply wp_ret.
  - destruct Hat as [-> (c & Hc & ->)]. apply wp_load_writer; [by apply wp_ret|]. intros x Hx.
    destruct (Z.eqb_spec x WRITER_BIT) as [->|_]; [done|]. destruct li as [l|]; cbn [waiting]; apply wp_bind.
    + apply wp_poll_r.
      * apply IH. split; [done|]. exists O. by split.
      * apply wp_ret; [done|]. split; [|by apply writer_asleep]. split; [done|]. exists 1%nat. by split.
    + apply wp_listen_r; [done|]. intros l. apply IH. split; [done|]. exists O. by split.
Qed.

Lemma pending_drop_ok li g (Q : unit -> rwg -> Prop) :
  pending_writer li g -> Q tt (rw_owns NoGuard) -> wp (_ ← write_drop; ev_drop readers_port li) Q g.
Proof. intros (c & Hc & ->) HQ. apply wp_bind, write_drop_ok. by apply wp_drop_r. Qed.

Definition upgrade_at (this : Upgrade) (g : rwg) : Prop := u_guard this = true /\ pending_writer (u_listener this) g.
Definition upgrade_done (this : Upgrade) (g : rwg) : Prop := u_guard this = false /\ granted_writer (u_listener this) g.

Lemma upgrade_poll_ok k this g :
  upgrade_at this g ->
  wp (upgrade_poll k this) (fun r g' =>
    match r.1 with Ready _ => upgrade_done r.2 g' | Pending => upgrade_at r.2 g' /\ rw_asleep g' end) g.
Proof.
  intros Hat. unfold upgrade_poll. rewrite (proj1 Hat). revert this g Hat.
  induction k as [|k IH]; intros this g [Hg (c & Hc & ->)]; [done|]. cbn [upgrade_loop].
  apply wp_bind. apply wp_load_writer.
  - rewrite Hg. by apply wp_ret.
  - intros x Hx. destruct (Z.eqb_spec x WRITER_BIT) as [->|_]; [done|].
    destruct (u_listener this) as [l|] eqn:El; cbn [waiting]; apply wp_bind.
    + apply wp_poll_r.
      * apply IH. split; [done|]. exists O. by split.
      * apply wp_ret; [done|]. split; [|by apply writer_asleep]. split; [done|]. exists 1%nat. cbn. by rewrite El.
    + apply wp_listen_r; [done|]. intros l. apply IH. split; [done|]. exists O. by split.
Qed.

(** ** The commands *)
Definition rw_idle (l : guard) (g : rwg) : Prop := g = rw_owns l.
Definition rw_busy (l : guard) (_ : rwg) : Prop := l = NoGuard.
Definition rw_allowed (c : cmd) : Prop := c = CDowngradeToUpgradable -> dtu = true.

Lemma read_cmd_ok : wp (f ← read; r ← await (read_poll n) read_fut_drop n f; Ret (or_none ReadGuard r))
  rw_idle (rw_owns NoGuard).
Proof.
  apply wp_bind, wp_bind, wp_load. intros x Hx. apply wp_ret; [done|]. apply wp_bind.
  eapply wp_await with (I := read_at) (R := fun f _ => read_done f); [| | |done|].
  - intros f g _ Hat. by apply read_poll_ok.
  - intros f [] g _ ->. apply wp_drop_w; [done|]. by apply wp_ret.
  - intros f g _ [_ ->]. apply wp_drop_w; [|by apply wp_ret].
    intros ->. unfold commits. by destruct (Z.odd _).
  - split; [done|]. unfold commits. cbn. by destruct (Z.odd x).
Qed.
Lemma upgradable_cmd_ok : wp (r ← await (upgradable_poll n) lock_fut_drop n None; Ret (or_none UpgradableGuard r))
  rw_idle (rw_owns NoGuard).
Proof.
  apply wp_bind. eapply wp_await with (I := queued) (R := fun f _ => entered f 1 0 ev_none); [| | |done|].
  - intros f g _ Hat. by apply upgradable_poll_ok.
  - intros f [] g _ Hat. eapply mutex_entered_ok; [|done|by apply wp_ret]. lia.
  - intros f g _ Hat. eapply mutex_unqueue_ok; [done|by apply wp_ret].
  - by exists m0.
Qed.
Lemma write_cmd_ok : wp (r ← await (write_poll n) write_fut_drop n (Acquiring None); Ret (or_none WriteGuard r))
  rw_idle (rw_owns NoGuard).
Proof.
  apply wp_bind. eapply wp_await with (I := write_at) (R := fun f _ => write_done f); [| | |done|].
  - intros f g _ Hat. by apply write_poll_ok.
  - intros [f|b li] [] g _ Hat; [done|]. destruct Hat as [-> ->].
    apply wp_bind, wp_ret; [done|]. apply wp_drop_r; [done|]. by apply wp_ret.
  - intros [f|b li] g _ Hat; [eapply mutex_unqueue_ok; [done|by apply wp_ret]|].
    destruct Hat as [-> Hat]. apply pending_drop_ok; [done|]. by apply wp_ret.
  - by exists m0.
Qed.
Lemma upgrade_cmd_ok : wp (f ← upgrade; r ← await (upgrade_poll n) upgrade_fut_drop n f; Ret (or_none WriteGuard r))
  rw_idle (rw_owns UpgradableGuard).
Proof.
  apply wp_bind, wp_bind, wp_upgrade; [done|]. intros x. apply wp_ret; [done|]. apply wp_bind.
  eapply wp_await with (I := upgrade_at) (R := fun f _ => upgrade_done f); [| | |done|].
  - intros f g _ Hat. by apply upgrade_poll_ok.
  - intros f [] g _ [Hg ->]. unfold upgrade_fut_drop. rewrite Hg.
    apply wp_bind, wp_ret; [done|]. apply wp_drop_r; [done|]. by apply wp_ret.
  - intros f g _ [Hg Hat]. unfold upgrade_fut_drop. rewrite Hg. apply pending_drop_ok; [done|]. by apply wp_ret.
  - split; [done|]. exists O. by split.
Qed.

Lemma rw_start_ok c l l' p :
  rw_allowed c -> start_cmd n c l = Some (l', p) -> l' = NoGuard /\ wp p rw_idle (rw_owns l).
Proof.
  intros Hall Hc. destruct c, l; cbn [start_cmd] in Hc; simplify_eq; split; try done.
  - apply read_cmd_ok.
  - apply wp_bind, try_read_ok; by apply wp_ret.
  - apply upgradable_cmd_ok.
  - apply wp_bind, try_upgradable_ok; by apply wp_ret.
  - apply write_cmd_ok.
  - apply wp_bind, try_write_ok; by apply wp_ret.
  - apply wp_bind, read_drop_ok. by apply wp_ret.
  - apply wp_bind, upgradable_drop_ok. by apply wp_ret.
  - apply wp_bind, write_drop_ok. by apply wp_ret.
  - apply wp_bind, mutex_drop_ok. by apply wp_ret.
  - apply wp_bind, downgrade_write_ok. by apply wp_ret.
  - apply wp_bind, try_upgrade_ok; by apply wp_ret.
  - apply upgrade_cmd_ok.
  - apply wp_bind, wp_bind. eapply (wp_downgrade dtu i m1 0); [right; auto|]. intros x.
    apply wp_ret; [done|]. by apply wp_ret.
Qed.
End RwLockUse.

Section RwTheorems.
Context {E : Type} `{Ev : Event E} `{EvL : !EventLaws E}.

Notation rw_safe dtu := (safe (rw_inv dtu) (rw_allowed dtu) rw_idle rw_busy (fun _ => rw_asleep)).

Lemma rw_run dtu n scripts sched :
  Forall (Forall (rw_allowed dtu)) scripts -> Z.of_nat (length scripts) < 2 ^ 61 ->
  exists gs, rw_safe dtu (run (start_cmd (E := E) n) sched (spawn NoGuard scripts, new)) gs.
Proof.
  intros Hall Hn. apply run_safe with (gs := replicate (length scripts) (rw_owns NoGuard)).
  - intros i c l g l' p Ha Hc ->. destruct (rw_start_ok dtu i n c l l' p Ha Hc) as [-> Hp].
    by eapply wp_weaken.
  - apply spawn_safe; [done| |done]. split.
    + cbn. rewrite fmap_replicate. unfold mutex_inv. rewrite !total_replicate, length_replicate, fmap_replicate.
      split; [cbn; lia|]. split; [cbn; lia|]. split; [lia|]. split; [apply heard_new|].
      split; [|right; right; right; cbn; lia]. intros i g Hg. apply lookup_replicate in Hg as [-> _].
      repeat split; cbn; lia.
    + unfold rest_inv. rewrite !total_replicate, length_replicate, !fmap_replicate.
      split; [cbn; lia|]. split; [cbn; lia|]. split; [done|]. split; [|split; apply ev_inv_new].
      intros i g Hg. apply lookup_replicate in Hg as [-> _]. repeat split; cbn; lia.
Qed.

(** How many users own a guard of a kind. *)
Definition owners (f : guard -> bool) (ts : list (thread (RwLock E) guard cmd)) : nat :=
  total (fun t => Nat.b2n (f (t_owns t))) ts.
Definition is_read (g : guard) : bool := match g with ReadGuard => true | _ => false end.
Definition is_upgradable (g : guard) : bool := match g with UpgradableGuard => true | _ => false end.
Definition is_write (g : guard) : bool := match g with WriteGuard => true | _ => false end.

Lemma owners_le dtu (c : config (RwLock E) guard cmd) gs (f : guard -> bool) (h : rwg -> nat) :
  rw_safe dtu c gs -> f NoGuard = false -> (forall l, (Nat.b2n (f l) <= h (rw_owns l))%nat) ->
  (owners f c.1 <= total h gs)%nat.
Proof.
  intros Hs Hf Hh. destruct Hs as (HI & Hlen & Hall). unfold owners. apply total_le2; [done|].
  intros i t g Ht Hg. destruct (safe_thread _ _ _ _ _ _ _ i t (conj HI (conj Hlen Hall)) Ht) as (g' & Hg' & Hb & _).
  simplify_eq. destruct (idle t); [rewrite Hb; apply Hh|]. rewrite Hb, Hf. cbn. lia.
Qed.

(** C4: whatever guards the users take, upgrade, downgrade, cancel and drop, and
    however their steps interleave, there is at most one write guard, no reader of
    any kind beside it, at most one upgradable reader, and no operation panics. *)
Theorem rwlock_exclusion n scripts sched :
  Z.of_nat (length scripts) < 2 ^ 61 ->
  let '(ts, s) := run (start_cmd (E := E) n) sched (spawn NoGuard scripts, new) in
  (owners is_write ts + owners is_upgradable ts <= 1)%nat /\
  (owners is_write ts = 0 \/ owners is_read ts + owners is_upgradable ts = 0)%nat /\
  forallb (fun t => negb (stopped t)) ts = true.
Proof.
  intros Hn. destruct (rw_run true n scripts sched) as [gs Hs]; [by repeat (apply Forall_true; intros)|done|].
  destruct (run _ _ _) as [ts s].
  pose proof (owners_le _ _ _ is_write gr Hs eq_refl ltac:(by intros [])) as Hw.
  pose proof (owners_le _ _ _ (fun g => is_read g || is_upgradable g) rd Hs eq_refl ltac:(by intros [])) as Hr.
  pose proof (owners_le _ _ _ (fun g => is_write g || is_upgradable g) (fun g => held (mu g)) Hs eq_refl
    ltac:(by intros [])) as Hm.
  cbn [fst] in Hw, Hr, Hm. pose proof Hs as (((_ & Hone & _) & _ & Hgr & _) & _). cbn in Hone, Hgr.
  rewrite total_fmap in Hone.
  assert (Hor : forall f h, (forall g, f g && h g = false) ->
    owners (fun g => f g || h g) ts = (owners f ts + owners h ts)%nat).
  { intros f h Hd. unfold owners. rewrite <- total_plus. apply total_ext.
    intros t. pose proof (Hd (t_owns t)). by destruct (f (t_owns t)), (h (t_owns t)). }
  rewrite (Hor is_read is_upgradable) in Hr by (by intros []).
  rewrite (Hor is_write is_upgradable) in Hm by (by intros []).
  split; [lia|]. split; [lia|]. apply forallb_lookup. intros i t Ht.
  destruct (safe_thread _ _ _ _ _ _ _ i t Hs Ht) as (_ & _ & _ & -> & _). done.
Qed.

(** What the users own when no operation is under way and there are no guards. *)
Lemma quiet_ghosts dtu (ts : list (thread (RwLock E) guard cmd)) s gs :
  rw_safe dtu (ts, s) gs -> quiet ts = true -> forallb (fun t => match t_owns t with NoGuard => true | _ => false end) ts = true ->
  forall i g, gs !! i = Some g -> g = rw_owns NoGuard \/ rw_asleep g.
Proof.
  intros Hs Hq Hn i g Hg. pose proof Hs as (_ & Hlen & _).
  destruct (lookup_lt_is_Some_2 ts i) as [t Ht]; [cbn in Hlen; rewrite <- Hlen; by eapply lookup_lt_Some|].
  destruct (safe_thread _ _ _ _ _ _ _ i t Hs Ht) as (g' & Hg' & Hb & _ & Ha). simplify_eq.
  pose proof (proj1 (forallb_lookup _ _) Hq i t Ht) as Hqt. pose proof (proj1 (forallb_lookup _ _) Hn i t Ht) as Hnt.
  cbv beta in Hqt, Hnt. destruct (idle t); [left|right].
  - rewrite Hb. by destruct (t_owns t).
  - by apply Ha.
Qed.

(** C17: a wake-up is never lost by users that do not downgrade a write guard to an
    upgradable one.  When no operation is under way and nobody owns a guard, but
    some user sleeps, then a listener of the lock has been notified. *)
Theorem rwlock_wakes n scripts sched :
  Z.of_nat (length scripts) < 2 ^ 61 -> Forall (Forall (fun c => c <> CDowngradeToUpgradable)) scripts ->
  let '(ts, s) := run (start_cmd (E := E) n) sched (spawn NoGuard scripts, new) in
  quiet ts = true -> forallb (fun t => match t_owns t with NoGuard => true | _ => false end) ts = true ->
  existsb sleeping ts = true ->
  notified (Mx.lock_ops (mutex s)) ≠ ∅ \/ notified (no_readers s) ≠ ∅ \/ notified (no_writer s) ≠ ∅.
Proof.
  intros Hn Hall. destruct (rw_run false n scripts sched) as [gs Hs]; [|done|].
  { eapply Forall_impl; [exact Hall|]. intros cs Hcs. eapply Forall_impl; [exact Hcs|]. by intros c Hc ?. }
  destruct (run _ _ _) as [ts s]. intros Hq Hg Hsl.
  pose proof (quiet_ghosts _ _ _ _ Hs Hq Hg) as Hgs.
  assert (Hzero : forall f : rwg -> nat, f (rw_owns NoGuard) = O -> (forall g, rw_asleep g -> f g = O) -> total f gs = O).
  { intros f H0 Ha. apply total_nil. intros i g Hi. destruct (Hgs i g Hi) as [->|?]; auto. }
  pose proof Hs as ((HM & Hst & _ & _ & Hok & (_ & _ & Hr) & (_ & _ & Hw)) & _). cbn in HM, Hst, Hr, Hw.
  destruct HM as (_ & _ & _ & _ & _ & Hm). rewrite !total_fmap in *.
  assert (Hrd : total rd gs = O) by (apply Hzero; [done|by intros g (? & _)]).
  assert (Hd1 : total (fun g => duty (mu g)) gs = O) by (apply Hzero; [done|by intros g (_ & _ & ? & _)]).
  assert (Hd2 : total (fun g => e_duty (er g)) gs = O) by (apply Hzero; [done|by intros g (_ & _ & _ & ? & _)]).
  assert (Hd3 : total (fun g => e_duty (ew g)) gs = O) by (apply Hzero; [done|by intros g (_ & _ & _ & _ & ? & _)]).
  destruct (decide (total wb gs = 0%nat)) as [Hwb|Hwb].
  - assert (Hwb' : forall i g, gs !! i = Some g -> wb g = O) by (intros i g Hi; pose proof (total_lookup wb gs i g Hi); lia).
    assert (Hh : total (fun g => held (mu g)) gs = O).
    { apply total_nil. intros i g Hi. destruct (Hgs i g Hi) as [->|Ha]; [done|].
      destruct Ha as (_ & _ & _ & _ & _ & [(_ & ? & _)|(Hb & _)]); [done|]. by rewrite (Hwb' i g Hi) in Hb. }
    apply existsb_lookup in Hsl as (i & t & Ht & Hts).
    destruct (safe_thread _ _ _ _ _ _ _ i t Hs Ht) as (g & Hg' & _ & _ & Ha).
    destruct (Ha Hts) as (_ & _ & _ & _ & _ & [(_ & _ & Hwait)|(Hb & _)]); [|by rewrite (Hwb' i g Hg') in Hb].
    pose proof (total_lookup (fun g => waits (mu g)) gs i g Hg') as H1.
    pose proof (total_lookup (fun g => e_waits (ew g)) gs i g Hg') as H2. cbn in H1, H2.
    destruct Hwait as [Hwt|Hwt].
    + left. destruct Hm as [?|[?|[?|?]]]; [lia|done|lia|lia].
    + right; right. destruct Hw as [[?|?]|[?|[?|?]]]; [done|lia|done|lia|lia].
  - right; left. destruct (total_pos wb gs ltac:(lia)) as (i & g & Hi & Hb).
    destruct (Hgs i g Hi) as [->|Ha]; [cbn in Hb; lia|].
    destruct Ha as (_ & _ & _ & _ & _ & [(Hb' & _)|(_ & _ & Hwait)]); [lia|].
    pose proof (total_lookup (fun g => e_waits (er g)) gs i g Hi) as H1. cbn in H1.
    destruct Hr as [?|[?|[?|?]]]; [lia|done|lia|lia].
Qed.
End RwTheorems.

(** ** A writer hands over to a waiting reader *)
Definition rw_pair : list (list cmd) := [[CWrite; CDrop]; [CRead; CDrop]].
Definition rw_handover : list (nat * Z) := steps_of 7 0 ++ steps_of 5 1 ++ steps_of 6 0.
Notation rw_after scripts sched := (run (start_cmd 8) sched (spawn NoGuard scripts, (new : RwLock fifo))).

Lemma rwlock_exclusion_witness :
  (owners is_write (rw_after rw_pair (steps_of 7 0)).1 = 1)%nat /\
  (owners is_write (rw_after rw_pair (steps_of 7 0)).1 + owners is_upgradable (rw_after rw_pair (steps_of 7 0)).1 <= 1)%nat.
Proof.
  pose proof (rwlock_exclusion (E := fifo) 8 rw_pair (steps_of 7 0) ltac:(vm_compute; reflexivity)) as Ht.
  assert (Ho : (owners is_write (rw_after rw_pair (steps_of 7 0)).1 = 1)%nat) by (vm_compute; reflexivity).
  destruct (rw_after rw_pair (steps_of 7 0)) as [ts s]. cbn [fst] in *. split; [exact Ho|apply Ht].
Defined.

Lemma rwlock_wakes_witness :
  notified (Mx.lock_ops (mutex (rw_after rw_pair rw_handover).2)) ≠ ∅ \/
  notified (no_readers (rw_after rw_pair rw_handover).2) ≠ ∅ \/
  notified (no_writer (rw_after rw_pair rw_handover).2) ≠ ∅.
Proof.
  pose proof (rwlock_wakes (E := fifo) 8 rw_pair rw_handover ltac:(vm_compute; reflexivity)
    ltac:(repeat constructor; discriminate)) as Ht.
  assert (Hq : (quiet (rw_after rw_pair rw_handover).1,
    forallb (fun t => match t_owns t with NoGuard => true | _ => false end) (rw_after rw_pair rw_handover).1,
    existsb sleeping (rw_after rw_pair rw_handover).1) = (true, true, true)) by (vm_compute; reflexivity).
  destruct (rw_after rw_pair rw_handover) as [ts s]. cbn [fst snd] in *. injection Hq as Hq Hg Hs. auto.
Defined.

(** With [downgrade_to_upgradable] the same reader sleeps on: the writer
    downgrades and then drops its upgradable guard, nobody owns a guard, the state
    word is 0, and no listener of any event is notified. *)
Definition rw_downgraders : list (list cmd) := [[CWrite; CDowngradeToUpgradable; CDrop]; [CRead; CDrop]].
Definition rw_lost : list (nat * Z) := steps_of 7 0 ++ steps_of 5 1 ++ steps_of 9 0.
Example downgrade_to_upgradable_lost_wakeup :
  let '(ts, s) := rw_after rw_downgraders rw_lost in
  quiet ts = true /\ map t_owns ts = [NoGuard; NoGuard] /\ map sleeping ts = [false; true] /\
  state s = 0 /\ Mx.state (mutex s) = 0 /\
  elements (notified (Mx.lock_ops (mutex s))) = [] /\ elements (notified (no_readers s)) = [] /\
  elements (notified (no_writer s)) = [].
Proof. vm_compute. repeat split. Qed.
