(* ===== verification/Semaphore.v ===== *)
(** * ksync: the semaphore

    mizu/lib/ksync/src/semaphore.rs.  [acquire_arc] and [acquire_arsc] take the
    listener out of their future before they look at it, and put the new one where
    it is dropped at once; their [poll] is translated as it stands. *)

From S2P Require Import Prelude Conc Event MutexSpec.

Module Sem.
Section Semaphore.
Context {E : Type} `{Event E}.

Record Semaphore := mk_sem { count : Z; event : E }.
Definition new (n : Z) : Semaphore := mk_sem n event_new.

Definition count_cell : cell Semaphore := mk_cell count (fun z s => mk_sem z (event s)) 64.
Definition event_port : port Semaphore E := mk_port event (fun e s => mk_sem (count s) e).

(** [try_acquire], [try_acquire_arc], [try_acquire_arsc] *)
Fixpoint try_loop (n : nat) (count : Z) : prog Semaphore bool :=
  match n with
  | O => Spent
  | S n =>
      if count =? 0 then Ret false
      else
        r ← compare_exchange_weak count_cell count (wsub 64 count 1);
        match r with Ok _ => Ret true | Err c => try_loop n c | Panic => Stop end
  end.
Definition try_acquire (n : nat) : prog Semaphore bool := count ← load count_cell; try_loop n count.

(** [acquire]: the future holds its listener. *)
Fixpoint acquire_poll (n : nat) (this : option nat) : prog Semaphore (poll unit * option nat) :=
  match n with
  | O => Spent
  | S n =>
      got ← try_acquire n;
      if got : bool then Ret (Ready tt, this)
      else
        match this with
        | None => l ← ev_listen event_port; acquire_poll n (Some l)
        | Some l =>
            woken ← ev_poll event_port l;
            if woken : bool then acquire_poll n None else Ret (Pending, this)
        end
  end.
Definition acquire_drop (this : option nat) : prog Semaphore unit := ev_drop event_port this.

(** [acquire_arc] and [acquire_arsc]: [this.listener.take()] leaves [None] in the
    future, and what it took is dropped at the end of the match. *)
Fixpoint acquire_arc_poll (n : nat) (this : option nat) : prog Semaphore (poll unit * option nat) :=
  match n with
  | O => Spent
  | S n =>
      got ← try_acquire n;
      if got : bool then _ ← ev_drop event_port this; Ret (Ready tt, None)
      else
        match this with
        | None => l ← ev_listen event_port; _ ← ev_drop event_port (Some l); acquire_arc_poll n None
        | Some l =>
            woken ← ev_poll event_port l;
            if woken : bool then acquire_arc_poll n None
            else _ ← ev_drop event_port (Some l); Ret (Pending, None)
        end
  end.

(** [drop] of the guards. *)
Definition guard_drop : prog Semaphore unit := _ ← fetch_add count_cell 1; ev_notify event_port 1.

(** ** The users of a semaphore: a thread owns a number of permits. *)
Inductive cmd := Acquire | AcquireShared | TryAcquire | Release.

Definition start_cmd (n : nat) (c : cmd) (permits : nat) : option (nat * prog Semaphore nat) :=
  let more (got : option unit) := match got with Some _ => Datatypes.S permits | None => permits end in
  match c with
  | Acquire => Some (permits, r ← await (acquire_poll n) acquire_drop n None; Ret (more r))
  | AcquireShared => Some (permits, r ← await (acquire_arc_poll n) acquire_drop n None; Ret (more r))
  | TryAcquire => Some (permits, g ← try_acquire n; Ret (more (if g : bool then Some tt else None)))
  | Release => match permits with
               | O => None
               | Datatypes.S p => Some (p, _ ← guard_drop; Ret p)
               end
  end.
End Semaphore.
Arguments Semaphore : clear implicits.
End Sem.

(** * ksync: the permits of the semaphore

    Threads acquire, try, cancel and release in any interleaving: the permits and
    the count add up to the limit, and with no permit out nobody sleeps unwoken.
    Two runs show what does not hold: a permit can be free while a task sleeps
    unwoken, and the shared [acquire_arc] spins instead of sleeping. *)
Import Sem.

Section SemaphoreSpec.
Context {E : Type} `{Ev : Event E} `{EvL : !EventLaws E}.
Variable N : Z.

Record smg := mk_smg { pm : nat; sv : evg }.
Definition sem_inv (s : Semaphore E) (gs : list smg) : Prop :=
  count s + Z.of_nat (total pm gs) = N /\ 0 <= count s /\ N < 2 ^ 64 /\
  ev_inv ((0 < total pm gs)%nat \/ N = 0) (event s) (sv <$> gs).
Definition sem_asleep (k : nat) (g : smg) : Prop := pm g = k /\ e_duty (sv g) = O /\ e_waits (sv g) = 1%nat.

Lemma sv_lookup (gs : list smg) (i : nat) g : gs !! i = Some g -> (sv <$> gs) !! i = Some (sv g).
Proof. intros Hi. by rewrite list_lookup_fmap, Hi. Qed.

Lemma sem_step s s' gs i g g' :
  gs !! i = Some g -> sem_inv s gs ->
  count s' = count s - (Z.of_nat (pm g') - Z.of_nat (pm g)) -> 0 <= count s' ->
  ev_inv ((0 < total pm (<[i := g']> gs))%nat \/ N = 0) (event s') (<[i := sv g']> (sv <$> gs)) ->
  sem_inv s' (<[i := g']> gs).
Proof.
  intros Hi (Hc & _ & HN & _) Hc' H0 He. pose proof (total_insert pm gs i g g' Hi).
  split; [lia|]. split; [done|]. split; [done|]. by rewrite list_fmap_insert.
Qed.

Section Ops.
Variables (i k : nat) (slp : smg -> Prop).
Notation K := (fun g => k <= pm g)%nat.
Notation wp := (wp sem_inv slp i K).

Ltac sem_open :=
  let s := fresh "s" in let gs := fresh "gs" in let Hi := fresh "Hi" in let HI := fresh "HI" in
  intros s gs Hi HI; pose proof HI as (Hct & Hpos & HN & Hev); pose proof (total_lookup pm _ _ _ Hi);
  cbn [pm sv] in *.
Ltac sem_sums g' :=
  match goal with
  | Hi : ?gs !! ?i = Some ?g |- _ => pose proof (total_insert pm gs i g g' Hi); cbn [pm sv] in *
  end.
Ltac sem_close g' :=
  exists g'; sem_sums g';
  split; [eapply sem_step; [eassumption|eassumption|cbn [count event c_put c_get c_width count_cell p_put p_get event_port fst snd pm sv]..]
         |split; [cbn; lia|]].
(** An event condition that only got easier. *)
Ltac sem_mono H := eapply ev_ok_mono; [|exact H]; lia.

(** What a thread owns after it has read the count [x]: at [0] it goes to wait. *)
Definition seen (x : Z) (d c : nat) (li : option nat) : evg :=
  if x =? 0 then mk_evg 0 (waiting li) li else mk_evg d c li.

Lemma waits_ok d c li : (c <= waiting li)%nat -> evg_ok (mk_evg d c li).
Proof. unfold evg_ok, waiting. cbn. destruct li; [eauto|lia]. Qed.

(** The atomic steps that read the count. *)
Lemma seen_inv s gs p d c li :
  gs !! i = Some (mk_smg p (mk_evg d c li)) -> sem_inv s gs -> (c <= waiting li)%nat ->
  sem_inv s (<[i := mk_smg p (seen (count s) d c li)]> gs).
Proof.
  intros Hi HI Hc. pose proof HI as (Hct & Hpos & HN & Hev).
  eapply sem_step; [done|done|cbn; lia|done|]. sem_sums (mk_smg p (seen (count s) d c li)).
  unfold seen in *. destruct (Z.eqb_spec (count s) 0) as [Hz|Hz].
  - eapply ev_commit; [lia|exact (sv_lookup _ _ _ Hi)|done|apply waits_ok; lia|exact Hev].
  - eapply ev_same; [exact (sv_lookup _ _ _ Hi)| |exact Hev]. lia.
Qed.
Lemma wp_count p d c li (Q : Z -> smg -> Prop) :
  (k <= p)%nat -> (c <= waiting li)%nat -> (forall x, Q x (mk_smg p (seen x d c li))) ->
  wp (load count_cell) Q (mk_smg p (mk_evg d c li)).
Proof.
  intros Hk Hc HQ. apply wp_atomic; [done|]. intros s gs Hi HI.
  exists (mk_smg p (seen (count s) d c li)). split; [by apply seen_inv|]. split; [cbn; lia|apply HQ].
Qed.
Lemma wp_take p d c li x (Q : res Z Z -> smg -> Prop) :
  (k <= p)%nat -> (c <= waiting li)%nat -> x <> 0 ->
  Q (Ok x) (mk_smg (Datatypes.S p) (mk_evg 0 0 li)) -> (forall y, Q (Err y) (mk_smg p (seen y d c li))) ->
  wp (compare_exchange count_cell x (wsub 64 x 1)) Q (mk_smg p (mk_evg d c li)).
Proof.
  intros Hk Hc Hx Hok Herr. apply wp_atomic; [done|]. sem_open. cbn.
  destruct (Z.eqb_spec (count s) x) as [<-|Hne].
  - assert (Hw : wsub 64 (count s) 1 = count s - 1) by (apply wsub_small; unfold fits; lia).
    sem_close (mk_smg (Datatypes.S p) (mk_evg 0 0 li)); [lia|lia| |done].
    eapply ev_commit; [lia|exact (sv_lookup _ _ _ Hi)|done|apply waits_ok; lia|exact Hev].
  - exists (mk_smg p (seen (count s) d c li)). split; [by apply seen_inv|]. split; [cbn; lia|apply Herr].
Qed.

Lemma try_loop_ok n p d c li x (Q : bool -> smg -> Prop) :
  (k <= p)%nat -> (c <= waiting li)%nat ->
  Q true (mk_smg (Datatypes.S p) (mk_evg 0 0 li)) -> Q false (mk_smg p (mk_evg 0 (waiting li) li)) ->
  wp (try_loop n x) Q (mk_smg p (seen x d c li)).
Proof.
  intros Hk Hc Ht Hf. revert x. induction n as [|n IH]; intros x; [by split; [cbn; lia|]|]. cbn [try_loop].
  destruct (Z.eqb_spec x 0) as [->|Hx]; [by apply wp_ret; [cbn; lia|]|].
  unfold seen. apply Z.eqb_neq in Hx as Hb. rewrite Hb. apply wp_bind, wp_bind.
  apply wp_now; [cbn; lia|]. intros z. destruct (z =? 0).
  - apply wp_bind, wp_count; [done..|]. intros y. apply wp_ret; [cbn; lia|]. apply IH.
  - apply wp_take; [done..|by apply wp_ret; [cbn; lia|]|]. intros y. apply IH.
Qed.
Lemma try_acquire_ok n p d c li (Q : bool -> smg -> Prop) :
  (k <= p)%nat -> (c <= waiting li)%nat ->
  Q true (mk_smg (Datatypes.S p) (mk_evg 0 0 li)) -> Q false (mk_smg p (mk_evg 0 (waiting li) li)) ->
  wp (try_acquire n) Q (mk_smg p (mk_evg d c li)).
Proof. intros Hk Hc Ht Hf. apply wp_bind, wp_count; [done..|]. intros x. by apply try_loop_ok. Qed.

(** ** The event *)
Lemma wp_sem_listen p (Q : nat -> smg -> Prop) :
  (k <= p)%nat -> (forall l, Q l (mk_smg p (mk_evg 0 0 (Some l)))) ->
  wp (ev_listen event_port) Q (mk_smg p ev_none).
Proof.
  intros Hk HQ. apply wp_atomic; [done|]. sem_open.
  pose proof (ev_inv_listen _ _ _ i _ (sv_lookup _ _ _ Hi) Hev) as Hl. cbn [p_get event_port].
  destruct (listen (event s)) as [l e]; cbn [fst snd] in *.
  sem_close (mk_smg p (mk_evg 0 0 (Some l))); [lia|done|sem_mono Hl|apply HQ].
Qed.
Lemma wp_sem_poll p l (Q : bool -> smg -> Prop) :
  (k <= p)%nat -> Q true (mk_smg p (mk_evg 1 0 None)) -> Q false (mk_smg p (mk_evg 0 1 (Some l))) ->
  wp (ev_poll event_port l) Q (mk_smg p (mk_evg 0 1 (Some l))).
Proof.
  intros Hk Ht Hf. apply wp_atomic; [done|]. sem_open.
  pose proof (ev_inv_poll _ _ _ i l (sv_lookup _ _ _ Hi) Hev) as Hp. cbn [p_get event_port].
  destruct (poll_listener l (event s)) as [[] e].
  - sem_close (mk_smg p (mk_evg 1 0 None)); [lia|done|sem_mono Hp|done].
  - sem_close (mk_smg p (mk_evg 0 1 (Some l))); [lia|done|sem_mono Hp|done].
Qed.
Lemma wp_sem_drop p c li (Q : unit -> smg -> Prop) :
  (k <= p)%nat -> (c <= waiting li)%nat -> Q tt (mk_smg p ev_none) ->
  wp (ev_drop event_port li) Q (mk_smg p (mk_evg 0 c li)).
Proof.
  intros Hk Hc HQ. destruct li as [l|]; [|destruct c; cbn in Hc; [by apply wp_ret|lia]].
  apply wp_atomic; [done|]. sem_open.
  pose proof (ev_inv_drop _ _ _ i _ l (sv_lookup _ _ _ Hi) Hev) as Hd.
  sem_close (mk_smg p ev_none); [lia|done|sem_mono Hd|done].
Qed.
Lemma wp_sem_notify p d (Q : unit -> smg -> Prop) :
  (k <= p)%nat -> Q tt (mk_smg p ev_none) -> wp (ev_notify event_port 1) Q (mk_smg p (mk_evg d 0 None)).
Proof.
  intros Hk HQ. apply wp_atomic; [done|]. sem_open.
  sem_close (mk_smg p ev_none); [lia|lia| |done].
  eapply ev_inv_notify; [exact (sv_lookup _ _ _ Hi)|done|unfold evg_ok; cbn; lia|exact Hev].
Qed.
Lemma sem_release_ok p (Q : unit -> smg -> Prop) :
  (k <= p)%nat -> Q tt (mk_smg p ev_none) -> wp guard_drop Q (mk_smg (Datatypes.S p) ev_none).
Proof.
  intros Hk HQ. apply wp_bind, wp_atomic; [cbn; lia|]. sem_open.
  assert (Hw : wadd 64 (count s) 1 = count s + 1) by (apply wadd_small; unfold fits; lia).
  sem_close (mk_smg p (mk_evg 1 0 None)); [lia|lia| |by apply wp_sem_notify].
  eapply ev_take_duty; [cbn; lia|exact (sv_lookup _ _ _ Hi)|done|unfold evg_ok; cbn; lia|exact Hev].
Qed.

(** ** The futures *)
Definition acquire_at p (this : option nat) (g : smg) : Prop := g = mk_smg p (mk_evg 0 (waiting this) this).
Definition acquired_at p (this : option nat) (g : smg) : Prop := g = mk_smg (Datatypes.S p) (mk_evg 0 0 this).

(** One round of the loop, from whatever the thread owns of its listener. *)
Lemma acquire_poll_ok n p d c this :
  (k <= p)%nat -> (c <= waiting this)%nat ->
  wp (acquire_poll n this) (fun r g' =>
    match r.1 with Ready _ => acquired_at p r.2 g' | Pending => acquire_at p r.2 g' /\ sem_asleep p g' end)
    (mk_smg p (mk_evg d c this)).
Proof.
  intros Hk. revert d c this. induction n as [|n IH]; intros d c this Hc; [by split; [cbn; lia|]|]. cbn [acquire_poll].
  apply wp_bind, try_acquire_ok; [done..|by apply wp_ret; [cbn; lia|]|].
  destruct this as [l|]; cbn [waiting]; apply wp_bind.
  - apply wp_sem_poll; [done|by apply IH|]. by apply wp_ret; [cbn; lia|].
  - apply wp_sem_listen; [done|]. intros l. apply IH. lia.
Qed.
(** The shared version ends only with a permit. *)
Lemma acquire_arc_poll_ok n p :
  (k <= p)%nat ->
  wp (acquire_arc_poll n None) (fun r g' =>
    match r.1 with Ready _ => acquired_at p r.2 g' | Pending => False end) (mk_smg p ev_none).
Proof.
  intros Hk. induction n as [|n IH]; [by split; [cbn; lia|]|]. cbn [acquire_arc_poll].
  apply wp_bind, try_acquire_ok; [done|cbn; lia| |].
  - apply wp_bind, wp_ret; [cbn; lia|]. by apply wp_ret; [cbn; lia|].
  - apply wp_bind, wp_sem_listen; [done|]. intros l. apply wp_bind, wp_sem_drop; [done|cbn; lia|done].
Qed.
End Ops.

(** ** The commands *)
Definition sem_idle (p : nat) (g : smg) : Prop := g = mk_smg p ev_none.
Definition sem_busy (p : nat) (g : smg) : Prop := (p <= pm g)%nat.

Lemma sem_start_ok n i c l g l' p :
  start_cmd n c l = Some (l', p) -> sem_idle l g -> wp sem_inv (sem_asleep l') i (sem_busy l') p sem_idle g.
Proof.
  intros Hc ->. destruct c; cbn [start_cmd] in Hc; simplify_eq.
  - apply wp_bind. eapply wp_await with (I := acquire_at l') (R := fun f _ => acquired_at l' f); [| | |apply le_n|done].
    + intros f h Hk ->. by apply acquire_poll_ok.
    + intros f [] h Hk ->. apply wp_sem_drop; [lia|lia|]. by apply wp_ret; [unfold sem_busy; cbn; lia|].
    + intros f h Hk ->. apply wp_sem_drop; [lia|lia|]. by apply wp_ret; [apply le_n|].
  - apply wp_bind. eapply wp_await with (I := fun f h => f = None /\ h = mk_smg l' ev_none)
      (R := fun f _ => acquired_at l' f); [| | |apply le_n|done].
    + intros f h Hk [-> ->]. eapply wp_mono; [|by apply acquire_arc_poll_ok]. by intros [[]].
    + intros f [] h Hk ->. apply wp_sem_drop; [lia|lia|]. by apply wp_ret; [unfold sem_busy; cbn; lia|].
    + intros f h Hk [-> ->]. apply wp_ret; [done|]. by apply wp_ret; [apply le_n|].
  - apply wp_bind, try_acquire_ok; [lia|cbn; lia| |]; apply wp_ret; try done; unfold sem_busy; cbn; lia.
  - destruct l as [|l]; simplify_eq. apply wp_bind, sem_release_ok; [lia|]. by apply wp_ret; [apply le_n|].
Qed.

Notation sem_safe := (safe sem_inv (fun _ => True) sem_idle sem_busy sem_asleep).
Lemma sem_run n scripts sched :
  0 <= N < 2 ^ 64 ->
  exists gs, sem_safe (run (start_cmd (E := E) n) sched (spawn O scripts, new N)) gs.
Proof.
  intros HN. apply run_safe with (gs := replicate (length scripts) (mk_smg 0 ev_none)).
  - intros * _. apply sem_start_ok.
  - apply spawn_safe; [by apply Forall_true; intros; apply Forall_true| |done].
    unfold sem_inv. rewrite total_replicate, fmap_replicate. cbn.
    split; [lia|]. split; [lia|]. split; [lia|]. apply ev_inv_new.
Qed.

(** The permits the threads own. *)
Definition permits (ts : list (thread (Semaphore E) nat cmd)) : nat := total t_owns ts.

Lemma permits_le c gs : sem_safe c gs -> (permits c.1 <= total pm gs)%nat.
Proof.
  intros Hs. assert (Hlen := proj1 (proj2 Hs)). apply total_le2; [done|]. intros i t g Ht Hg.
  destruct (safe_thread _ _ _ _ _ _ _ i t Hs Ht) as (g' & Hg' & Hb & _). simplify_eq.
  destruct (idle t); [by rewrite Hb|done].
Qed.
Lemma permits_quiet c gs : sem_safe c gs -> quiet c.1 = true -> permits c.1 = total pm gs.
Proof.
  intros Hs Hq. apply Nat.le_antisymm; [by apply permits_le|].
  assert (Hlen := proj1 (proj2 Hs)). apply total_le2; [done|]. intros i g t Hg Ht.
  destruct (safe_thread _ _ _ _ _ _ _ i t Hs Ht) as (g' & Hg' & Hb & _ & Ha). simplify_eq.
  pose proof (proj1 (forallb_lookup _ _) Hq i t Ht) as Hqt. cbv beta in Hqt.
  destruct (idle t); [by rewrite Hb|]. destruct (Ha Hqt) as [-> _]. done.
Qed.

(** C24: whatever the threads acquire, try to acquire, cancel and release, and
    however their steps interleave, the permits out never exceed the limit [N];
    with no operation under way the count is the limit less the permits; and no
    operation panics. *)
Theorem semaphore_permits n scripts sched :
  0 <= N < 2 ^ 64 ->
  let '(ts, s) := run (start_cmd (E := E) n) sched (spawn O scripts, new N) in
  Z.of_nat (permits ts) <= N /\ (quiet ts = true -> count s = N - Z.of_nat (permits ts)) /\
  forallb (fun t => negb (stopped t)) ts = true.
Proof.
  intros HN. destruct (sem_run n scripts sched HN) as [gs Hs]. destruct (run _ _ _) as [ts s].
  pose proof (permits_le _ _ Hs) as Hle. pose proof (permits_quiet _ _ Hs) as Hq. cbn [fst] in Hle, Hq.
  pose proof Hs as ((Hc & Hpos & _) & _). cbn in Hc, Hpos.
  split; [lia|]. split; [intros Hqt; specialize (Hq Hqt); lia|]. apply forallb_lookup. intros i t Ht.
  destruct (safe_thread _ _ _ _ _ _ _ i t Hs Ht) as (_ & _ & _ & -> & _). done.
Qed.

(** With no operation under way and every permit back, a sleeping task has
    company: some listener of the semaphore is notified. *)
Theorem semaphore_wakes n scripts sched :
  0 < N < 2 ^ 64 ->
  let '(ts, s) := run (start_cmd (E := E) n) sched (spawn O scripts, new N) in
  quiet ts = true -> permits ts = O -> existsb sleeping ts = true -> notified (event s) ≠ ∅.
Proof.
  intros HN. destruct (sem_run n scripts sched ltac:(lia)) as [gs Hs]. destruct (run _ _ _) as [ts s].
  intros Hq Hp Hsl. pose proof (permits_quiet _ _ Hs Hq) as Hpm. cbn [fst] in Hpm.
  pose proof Hs as ((_ & _ & _ & _ & _ & Hw) & Hlen & _). cbn in Hw, Hlen. rewrite !total_fmap in Hw.
  assert (Hd : total (fun g => e_duty (sv g)) gs = O).
  { apply total_nil. intros i g Hi.
    destruct (lookup_lt_is_Some_2 ts i) as [t Ht]; [rewrite <- Hlen; by eapply lookup_lt_Some|].
    destruct (safe_thread _ _ _ _ _ _ _ i t Hs Ht) as (g' & Hg' & Hb & _ & Ha). simplify_eq.
    pose proof (proj1 (forallb_lookup _ _) Hq i t Ht) as Hqt. cbv beta in Hqt.
    destruct (idle t); [by rewrite Hb|]. by destruct (Ha Hqt) as (_ & ? & _). }
  apply existsb_lookup in Hsl as (i & t & Ht & Hst).
  destruct (safe_thread _ _ _ _ _ _ _ i t Hs Ht) as (g & Hg & _ & _ & Ha).
  destruct (Ha Hst) as (_ & _ & Hwt). pose proof (total_lookup (fun g => e_waits (sv g)) gs i g Hg) as Hle. cbn in Hle.
  destruct Hw as [[?|?]|[?|[?|?]]]; [lia|lia|done|lia|lia].
Qed.

(** ** [acquire] sleeps, [acquire_arc] spins *)
Lemma try_empty n inp (s : Semaphore E) {A} (f : bool -> prog (Semaphore E) A) :
  count s = 0 -> solo inp (try_acquire (Datatypes.S n) ≫= f) s = solo inp (f false) s.
Proof. intros Hc. cbn. by rewrite Hc. Qed.
Lemma arc_spins n inp (s : Semaphore E) : count s = 0 -> solo inp (acquire_arc_poll n None) s = None.
Proof.
  revert s. induction n as [|n IH]; intros s Hc; [done|]. cbn [acquire_arc_poll].
  destruct n as [|n]; [done|]. rewrite try_empty by done.
  cbn [mbind prog_mbind prog_bind ev_listen ev_drop on_port atomic solo p_get p_put event_port].
  destruct (listen (event s)) as [l e]. by apply IH.
Qed.

(** With no permit left, a poll of [acquire] by a lone hart ends [Pending],
    with the task's listener registered; a poll of [acquire_arc] or
    [acquire_arsc] does not end, however many rounds its loop is given. *)
Theorem acquire_sleeps_arc_spins n inp (s : Semaphore E) :
  count s = 0 ->
  (exists l s', solo inp (acquire_poll (4 + n) None) s = Some ((Pending, Some l), s') /\
    l ∈ listeners (event s') /\ count s' = 0) /\
  solo inp (acquire_arc_poll n None) s = None.
Proof.
  intros Hc. split; [|by apply arc_spins]. set (m := Datatypes.S (Datatypes.S n)).
  change (4 + n)%nat with (Datatypes.S (Datatypes.S m)). cbn [acquire_poll]. rewrite try_empty by done.
  pose proof (listen_law (event s)) as Hl. cbn [mbind prog_mbind prog_bind ev_listen atomic solo p_get p_put event_port].
  destruct (listen (event s)) as [l e] eqn:El. destruct Hl as (Hf & Hls & Hn & _).
  subst m. rewrite try_empty by done.
  cbn [mbind prog_mbind prog_bind ev_poll atomic solo p_get p_put event_port event].
  assert (Hin : l ∈ listeners e) by (rewrite Hls; set_solver).
  pose proof (poll_law l e Hin) as Hp. destruct (poll_listener l e) as [b e']. destruct Hp as (-> & Hl' & _).
  rewrite Hn in *. assert (Hni : l ∉ notified (event s)) by (intros Hx; by apply notified_listens in Hx).
  rewrite bool_decide_false in * by done. cbn [solo]. eexists l, _. split; [done|]. cbn. by rewrite Hl'.
Qed.
End SemaphoreSpec.

(** ** Runs with two permits *)
Definition sem_users : list (list cmd) := [[TryAcquire; Release]; [TryAcquire; Release]; [Acquire]; [Acquire]].
Notation sem_after sched := (run (start_cmd 8) sched (spawn O sem_users, (new 2 : Semaphore fifo))).
Definition both_out : list (nat * Z) := steps_of 5 0 ++ steps_of 5 1.
(** A third task sleeps; both permits come back. *)
Definition both_back : list (nat * Z) := both_out ++ steps_of 5 2 ++ steps_of 4 0 ++ steps_of 4 1.

Lemma semaphore_permits_witness :
  permits (sem_after both_out).1 = 2%nat /\ count (sem_after both_out).2 = 0.
Proof.
  pose proof (semaphore_permits (E := fifo) 2 8 sem_users both_out ltac:(lia)) as Ht.
  assert (Hq : (quiet (sem_after both_out).1, permits (sem_after both_out).1) = (true, 2%nat))
    by (vm_compute; reflexivity).
  destruct (sem_after both_out) as [ts s]. cbn [fst snd] in *. injection Hq as Hq Hp.
  destruct Ht as (_ & Hc & _). rewrite (Hc Hq), Hp. auto.
Defined.
Lemma semaphore_wakes_witness : notified (event (sem_after both_back).2) ≠ ∅.
Proof.
  pose proof (semaphore_wakes (E := fifo) 2 8 sem_users both_back ltac:(lia)) as Ht.
  assert (Hq : (quiet (sem_after both_back).1, permits (sem_after both_back).1, existsb sleeping (sem_after both_back).1)
    = (true, O, true)) by (vm_compute; reflexivity).
  destruct (sem_after both_back) as [ts s]. cbn [fst snd] in *. injection Hq as Hq Hp Hs. auto.
Defined.
Lemma acquire_sleeps_arc_spins_witness :
  solo 1 (acquire_arc_poll 100 None) (new 0 : Semaphore fifo) = None /\
  exists l s', solo 1 (acquire_poll 4 None) (new 0 : Semaphore fifo) = Some ((Pending, Some l), s').
Proof.
  split.
  - apply (acquire_sleeps_arc_spins (E := fifo) 100 1 (new 0) eq_refl).
  - destruct (acquire_sleeps_arc_spins (E := fifo) 0 1 (new 0) eq_refl) as [(l & s' & Hs & _) _]. eauto.
Defined.

(** A wake-up that gets lost: the third task has seen the count at [0] but has not
    polled its listener when both permits come back.  Only its listener is
    notified; it takes the notification and one permit.  The other permit is free,
    and the fourth task sleeps on unnotified. *)
Definition one_lost : list (nat * Z) :=
  both_out ++ steps_of 4 2 ++ steps_of 5 3 ++ steps_of 4 0 ++ steps_of 4 1 ++ steps_of 5 2.
Example semaphore_lost_wakeup :
  let '(ts, s) := sem_after one_lost in
  quiet ts = true /\ map t_owns ts = [0; 0; 1; 0]%nat /\ map sleeping ts = [false; false; false; true] /\
  count s = 1 /\ elements (notified (event s)) = [].
Proof. vm_compute. repeat split. Qed.
