(* ===== verification/Channel.v ===== *)
(** * ksync: many-to-many channels

    mizu/lib/ksync/src/channel/mpmc.rs and channel.rs.  The queues of
    crossbeam-queue are third-party code: [Flavor] is the trait that they implement,
    [QueueLaws] their documented behaviour, and [SegQueue] and [ArrayQueue] are
    queues with these laws. *)

From S2P Require Import Prelude Conc Event Mutex.

(** ** [Flavor] *)
Class Flavor (A Q : Type) := {
  push : A -> Q -> option A * Q;
  pop : Q -> option A * Q;
  is_empty : Q -> bool;
  is_full : Q -> bool;
  len : Q -> Z;
  capacity : Q -> Z;
}.

(** First in, first out; the value comes back when there is no room. *)
Class QueueLaws (A Q : Type) `{Flavor A Q} := {
  contents : Q -> list A;
  room : Q -> option nat;      (* the free slots, where they are bounded *)
  push_law a q : let '(r, q') := push a q in
    match room q with
    | Some O => r = Some a /\ contents q' = contents q /\ room q' = Some O
    | Some (S n) => r = None /\ contents q' = contents q ++ [a] /\ room q' = Some n
    | None => r = None /\ contents q' = contents q ++ [a] /\ room q' = None
    end;
  pop_law q : let '(r, q') := pop q in
    match contents q with
    | [] => r = None /\ contents q' = [] /\ room q' = room q
    | a :: rest => r = Some a /\ contents q' = rest /\ room q' = (S <$> room q)
    end;
}.

(** crossbeam's queues: unbounded, and of a fixed capacity. *)
Record SegQueue (A : Type) := mk_seg { seg : list A }.
Arguments mk_seg {A}.
Arguments seg {A}.
Record ArrayQueue (A : Type) := mk_array { arr : list A; free : nat }.
Arguments mk_array {A}.
Arguments arr {A}.
Arguments free {A}.

#[export] Instance SegQueue_flavor A : Flavor A (SegQueue A) := {|
  push a q := (None, mk_seg (seg q ++ [a]));
  pop q := match seg q with [] => (None, q) | a :: r => (Some a, mk_seg r) end;
  is_empty q := match seg q with [] => true | _ => false end;
  is_full q := false;
  len q := Z.of_nat (length (seg q));
  capacity q := usize_MAX;
|}.
#[export] Instance ArrayQueue_flavor A : Flavor A (ArrayQueue A) := {|
  push a q := match free q with O => (Some a, q) | S n => (None, mk_array (arr q ++ [a]) n) end;
  pop q := match arr q with [] => (None, q) | a :: r => (Some a, mk_array r (S (free q))) end;
  is_empty q := match arr q with [] => true | _ => false end;
  is_full q := match free q with O => true | _ => false end;
  len q := Z.of_nat (length (arr q));
  capacity q := Z.of_nat (length (arr q) + free q);
|}.
#[export, refine] Instance SegQueue_laws A : QueueLaws A (SegQueue A) := {| contents := seg; room _ := None |}.
Proof.
  - intros a q. by cbn.
  - intros q. cbn. by destruct (seg q) eqn:E.
Defined.
#[export, refine] Instance ArrayQueue_laws A : QueueLaws A (ArrayQueue A) := {| contents := arr; room q := Some (free q) |}.
Proof.
  - intros a q. cbn. destruct (free q) eqn:E; by cbn; rewrite ?E.
  - intros q. cbn. by destruct (arr q) eqn:E.
Defined.

Module Mpmc.
Section Channel.
Context {E A Q : Type} `{Event E} `{Flavor A Q}.

Record Channel := mk_chan { queue : Q; send_ev : E; recv_ev : E; closed : bool; sender : Z; receiver : Z }.
Definition new (q : Q) : Channel := mk_chan q event_new event_new false 1 1.

Definition send_port : port Channel E :=
  mk_port send_ev (fun e c => mk_chan (queue c) e (recv_ev c) (closed c) (sender c) (receiver c)).
Definition recv_port : port Channel E :=
  mk_port recv_ev (fun e c => mk_chan (queue c) (send_ev c) e (closed c) (sender c) (receiver c)).
Definition sender_cell : cell Channel :=
  mk_cell sender (fun z c => mk_chan (queue c) (send_ev c) (recv_ev c) (closed c) z (receiver c)) 64.
Definition receiver_cell : cell Channel :=
  mk_cell receiver (fun z c => mk_chan (queue c) (send_ev c) (recv_ev c) (closed c) (sender c) z) 64.
Definition set_queue (q : Q) (c : Channel) : Channel :=
  mk_chan q (send_ev c) (recv_ev c) (closed c) (sender c) (receiver c).

Definition swap_closed : prog Channel bool :=
  atomic (fun c => (closed c, mk_chan (queue c) (send_ev c) (recv_ev c) true (sender c) (receiver c))).
Definition close : prog Channel bool :=
  was ← swap_closed;
  if was : bool then Ret false
  else
    _ ← ev_notify send_port usize_MAX;
    _ ← ev_notify recv_port usize_MAX;
    Ret true.
Definition is_closed : prog Channel bool := atomic (fun c => (closed c, c)).
Definition queue_push (a : A) : prog Channel (option A) :=
  atomic (fun c => let '(r, q) := push a (queue c) in (r, set_queue q c)).
Definition queue_pop : prog Channel (option A) :=
  atomic (fun c => let '(r, q) := pop (queue c) in (r, set_queue q c)).

(** ** Sending *)
Record TrySendError := mk_try_send_error { te_data : A; te_closed : bool }.

Definition try_send (data : A) : prog Channel (res TrySendError unit) :=
  c ← is_closed;
  if c : bool then Ret (Err (mk_try_send_error data true))
  else
    r ← queue_push data;
    match r with
    | Some data => Ret (Err (mk_try_send_error data false))
    | None => _ ← ev_notify_additional recv_port 1; Ret (Ok tt)
    end.

Record Send := mk_send { s_data : option A; s_listener : option nat }.

(** The error of [Send] carries the data back. *)
Fixpoint send_poll (n : nat) (this : Send) : prog Channel (poll (res A unit) * Send) :=
  match n with
  | O => Spent
  | S n =>
      match s_data this with
      | None => Stop
      | Some data =>
          let this := mk_send None (s_listener this) in
          r ← try_send data;
          match r with
          | Ok _ => Ret (Ready (Ok tt), this)
          | Panic => Stop
          | Err err =>
              if negb (te_closed err) then
                let this := mk_send (Some (te_data err)) (s_listener this) in
                match s_listener this with
                | Some l =>
                    woken ← ev_poll send_port l;
                    if woken : bool then send_poll n (mk_send (s_data this) None) else Ret (Pending, this)
                | None =>
                    l ← ev_listen send_port;
                    send_poll n (mk_send (s_data this) (Some l))
                end
              else Ret (Ready (Err (te_data err)), this)
          end
      end
  end.
Definition send_drop (this : Send) : prog Channel unit := ev_drop send_port (s_listener this).

(** ** Receiving *)
Inductive TryRecvError := Empty | Closed (data : option A).

Definition try_recv : prog Channel (res TryRecvError A) :=
  data ← queue_pop;
  c ← is_closed;
  if c : bool then Ret (Err (Closed data))
  else
    match data with
    | None => Ret (Err Empty)
    | Some data => _ ← ev_notify_additional send_port 1; Ret (Ok data)
    end.

(** [Recv] and [RecvOnce]: the future's field is its listener, the error carries
    what was left. *)
Fixpoint recv_poll (n : nat) (this : option nat) : prog Channel (poll (res (option A) A) * option nat) :=
  match n with
  | O => Spent
  | S n =>
      r ← try_recv;
      match r with
      | Ok data => Ret (Ready (Ok data), this)
      | Err (Closed data) => Ret (Ready (Err data), this)
      | Err Empty =>
          match this with
          | Some l =>
              woken ← ev_poll recv_port l;
              if woken : bool then recv_poll n None else Ret (Pending, this)
          | None => l ← ev_listen recv_port; recv_poll n (Some l)
          end
      | Panic => Stop
      end
  end.
Definition recv_drop (this : option nat) : prog Channel unit := ev_drop recv_port this.

(** ** Handles *)
Definition clone_sender : prog Channel unit :=
  count ← fetch_add sender_cell 1; if usize_MAX / 2 <? count then Stop else Ret tt.
Definition drop_sender : prog Channel unit :=
  old ← fetch_sub sender_cell 1; if old =? 1 then _ ← close; Ret tt else Ret tt.
Definition clone_receiver : prog Channel unit :=
  count ← fetch_add receiver_cell 1; if usize_MAX / 2 <? count then Stop else Ret tt.
Definition drop_receiver : prog Channel unit :=
  old ← fetch_sub receiver_cell 1; if old =? 1 then _ ← close; Ret tt else Ret tt.

(** The next item of [streamed]. *)
Definition streamed_next (n : nat) : prog Channel (option A) :=
  r ← await (recv_poll n) recv_drop n None;
  match r with
  | Some (Ok data) => Ret (Some data)
  | Some (Err data) => Ret data
  | _ => Ret None
  end.

(** ** The users of a channel

    A user owns handles, may clone [u_clones] more, and remembers what it has sent
    and what it has received. *)
Record user := mk_user {
  u_senders : nat; u_receivers : nat; u_clones : nat; u_sent : list A; u_got : list A }.
Inductive cmd :=
| CSend (a : A) | CTrySend (a : A) | CRecv | CTryRecv | CRecvOnce | CClose
| CCloneSender | CDropSender | CCloneReceiver | CDropReceiver.

Definition sent (a : A) (u : user) : user :=
  mk_user (u_senders u) (u_receivers u) (u_clones u) (a :: u_sent u) (u_got u).
Definition got (a : A) (u : user) : user :=
  mk_user (u_senders u) (u_receivers u) (u_clones u) (u_sent u) (a :: u_got u).
(** What a receive operation brought. *)
Definition received (r : res (option A) A) (u : user) : user :=
  match r with Ok a | Err (Some a) => got a u | _ => u end.

Definition start_cmd (n : nat) (c : cmd) (u : user) : option (user * prog Channel user) :=
  let 'mk_user ss rs cl se go := u in
  match c, ss, rs with
  | CSend a, S _, _ => Some (u,
      r ← await (send_poll n) send_drop n (mk_send (Some a) None);
      Ret (match r with Some (Ok _) => sent a u | _ => u end))
  | CTrySend a, S _, _ => Some (u,
      r ← try_send a; Ret (match r with Ok _ => sent a u | _ => u end))
  | CRecv, _, S _ => Some (u,
      r ← await (recv_poll n) recv_drop n None;
      Ret (match r with Some r => received r u | None => u end))
  | CTryRecv, _, S _ => Some (u,
      r ← try_recv;
      Ret (match r with Ok a | Err (Closed (Some a)) => got a u | _ => u end))
  | CRecvOnce, _, S k => Some (mk_user ss k cl se go,
      r ← await (recv_poll n) (fun f => _ ← drop_receiver; recv_drop f) n None;
      let u := mk_user ss k cl se go in
      Ret (match r with Some r => received r u | None => u end))
  | CClose, S _, _ | CClose, _, S _ => Some (u, _ ← close; Ret u)
  | CCloneSender, S _, _ =>
      match cl with O => None | S cl => Some (u, _ ← clone_sender; Ret (mk_user (S ss) rs cl se go)) end
  | CDropSender, S k, _ => Some (mk_user k rs cl se go, _ ← drop_sender; Ret (mk_user k rs cl se go))
  | CCloneReceiver, _, S _ =>
      match cl with O => None | S cl => Some (u, _ ← clone_receiver; Ret (mk_user ss (S rs) cl se go)) end
  | CDropReceiver, _, S k => Some (mk_user ss k cl se go, _ ← drop_receiver; Ret (mk_user ss k cl se go))
  | _, _, _ => None
  end.
End Channel.
Arguments Channel : clear implicits.
Arguments cmd : clear implicits.
Arguments user : clear implicits.
End Mpmc.

(** * One direction of a channel: nobody sleeps for good

    The tasks that wait for something on an event while [avail] units of it are
    there (values for the receivers, slots for the senders).  Every unit comes with
    a [notify_additional(1)]; the invariant counts: the units are at most the
    notified listeners and the duties of running tasks, or every waiting task is
    notified already.  A task with a listener goes to wait when it has seen nothing
    available ([d_none]) and the channel open ([d_open]); closing wakes all of the
    latter. *)
Record dirg := mk_dir { d_duty : nat; d_none : nat; d_open : nat; d_lis : option nat; d_closing : nat }.
Definition dir_idle : dirg := mk_dir 0 0 0 None 0.

Section DirInv.
Context {E : Type} `{Ev : Event E} `{EvL : !EventLaws E}.

Definition dir_ok (x : dirg) : Prop := (0 < d_none x + d_open x)%nat -> is_Some (d_lis x).
(** The listeners of the tasks that [sel] selects are notified. *)
Definition woken (sel : dirg -> nat) (e : E) (xs : list dirg) : Prop :=
  forall i x l, xs !! i = Some x -> (0 < sel x)%nat -> d_lis x = Some l -> l ∈ notified e.
Definition dir_inv (cl : bool) (avail : nat) (e : E) (xs : list dirg) : Prop :=
  heard e (d_lis <$> xs) /\ (forall i x, xs !! i = Some x -> dir_ok x) /\
  (cl = false -> additional_only e) /\
  (cl = true \/ woken d_none e xs \/ (avail <= size (notified e) + total d_duty xs)%nat) /\
  (cl = false \/ (0 < total d_closing xs)%nat \/ woken d_open e xs) /\
  ((0 < total d_closing xs)%nat -> cl = true).

Lemma dir_new n : dir_inv false 0 event_new (replicate n dir_idle).
Proof.
  split; [rewrite fmap_replicate; apply heard_new|]. split.
  { intros i x Hi. apply lookup_replicate in Hi as [-> _]. unfold dir_ok. cbn. lia. }
  split; [intros _; apply new_law|]. split; [right; right; lia|]. split; [by left|]. rewrite total_replicate. cbn. lia.
Qed.
Lemma dir_new_avail a n : dir_inv false a event_new (replicate n dir_idle).
Proof.
  destruct (dir_new n) as (Hh & Hok & Ha & _ & Hc). repeat (split; [done|]). split; [|done].
  right; left. intros i x l Hi Hw. apply lookup_replicate in Hi as [-> _]. cbn in Hw. lia.
Qed.

Lemma dir_lis_lookup (xs : list dirg) (i : nat) x : xs !! i = Some x -> (d_lis <$> xs) !! i = Some (d_lis x).
Proof. intros Hi. by rewrite list_lookup_fmap, Hi. Qed.
Lemma dir_ok_insert (xs : list dirg) i x' :
  (forall j x, xs !! j = Some x -> dir_ok x) -> dir_ok x' ->
  forall j x, <[i := x']> xs !! j = Some x -> dir_ok x.
Proof. intros Ha Hx j x Hj. apply list_lookup_insert_Some in Hj as [(<- & <- & _)|(_ & Hj)]; eauto. Qed.
Lemma heard_insert e (xs : list dirg) i x x' :
  xs !! i = Some x -> d_lis x' = d_lis x -> heard e (d_lis <$> xs) -> heard e (d_lis <$> <[i := x']> xs).
Proof. intros Hi Hl Hh. rewrite list_fmap_insert, Hl, list_insert_id; [done|by apply dir_lis_lookup]. Qed.

(** Being woken: others as before, the thread [i] not selected or as before. *)
Lemma woken_insert sel e e' xs i x x' :
  xs !! i = Some x -> woken sel e xs ->
  (forall j y l, j <> i -> xs !! j = Some y -> d_lis y = Some l -> l ∈ notified e -> l ∈ notified e') ->
  ((0 < sel x')%nat -> (0 < sel x)%nat /\ d_lis x' = d_lis x /\
    (forall l, d_lis x = Some l -> l ∈ notified e -> l ∈ notified e')) ->
  woken sel e' (<[i := x']> xs).
Proof.
  intros Hi Hw Ho Hx j y l Hj Hk Hl. apply list_lookup_insert_Some in Hj as [(<- & <- & _)|(Hne & Hj)].
  - destruct (Hx Hk) as (Hk' & Hl' & Hn). rewrite Hl' in Hl. eauto.
  - eapply Ho; eauto.
Qed.
Lemma woken_same sel e xs i x x' :
  xs !! i = Some x -> d_lis x' = d_lis x -> ((0 < sel x')%nat -> (0 < sel x)%nat) -> woken sel e xs ->
  woken sel e (<[i := x']> xs).
Proof. intros Hi Hl Hk Hw. eapply woken_insert; eauto. Qed.

Ltac dir_open := intros Hi (Hh & Hok & Ha & Hq & Hc & Hcl).
Ltac dir_sums x' :=
  match goal with
  | Hi : ?xs !! ?i = Some ?x |- _ =>
      pose proof (total_insert d_duty xs i x x' Hi); pose proof (total_insert d_closing xs i x x' Hi); cbn in *
  end.

(** The thread [i] changes its share, its listener aside. *)
Lemma dir_change cl cl' avail avail' e xs i x x' :
  xs !! i = Some x -> d_lis x' = d_lis x -> dir_ok x' -> (cl' = false -> cl = false) ->
  (cl' = true \/ avail' + d_duty x <= avail + d_duty x' /\ d_none x' <= d_none x \/ avail' = 0)%nat ->
  (cl' = false /\ d_closing x' <= d_closing x \/ cl' = true /\ d_closing x < d_closing x' \/ cl = true /\ cl' = true /\ d_closing x = d_closing x' /\ d_open x' <= d_open x)%nat ->
  dir_inv cl avail e xs -> dir_inv cl' avail' e (<[i := x']> xs).
Proof.
  intros Hi Hl Hx Hcc H4 H5. revert Hi. dir_open. dir_sums x'.
  split; [by eapply heard_insert|]. split; [by apply dir_ok_insert|]. split; [auto|]. split.
  - destruct H4 as [?|[[? ?]|?]]; [by left| |right; right; lia].
    destruct Hq as [->|[?|?]]; [left; by destruct cl'; [|discriminate Hcc]|right; left; eapply woken_same; eauto; lia|right; right; lia].
  - destruct H5 as [[-> ?]|[[-> ?]|(-> & -> & ? & ?)]].
    + rewrite (Hcc eq_refl) in *. split; [by left|]. intros Hp. apply Hcl. lia.
    + split; [right; left; lia|done].
    + split; [|done]. destruct Hc as [?|[?|?]]; [done|right; left; lia|right; right; eapply woken_same; eauto; lia].
Qed.

(** ** The event *)
Lemma dir_listen cl avail e xs i d c :
  xs !! i = Some (mk_dir d 0 0 None c) -> dir_inv cl avail e xs ->
  dir_inv cl avail (listen e).2 (<[i := mk_dir d 0 0 (Some (listen e).1) c]> xs).
Proof.
  dir_open. destruct (heard_listen e (d_lis <$> xs) i (dir_lis_lookup _ _ _ Hi) Hh) as [Hh' Hn].
  pose proof (listen_law e) as Hlaw. destruct (listen e) as [l e']; cbn [fst snd] in *. destruct Hlaw as (_ & _ & _ & Hadd).
  dir_sums (mk_dir d 0 0 (Some l) c).
  split; [by rewrite list_fmap_insert|]. split; [apply dir_ok_insert; [done|unfold dir_ok; cbn; lia]|].
  split; [auto|]. split.
  - destruct Hq as [?|[Hw|?]]; [by left| |right; right; rewrite Hn; lia].
    right; left. eapply woken_insert; [done|exact Hw|by rewrite Hn|cbn; lia].
  - split; [|intros ?; apply Hcl; lia]. destruct Hc as [?|[?|Hw]]; [by left|right; left; lia|].
    right; right. eapply woken_insert; [done|exact Hw|by rewrite Hn|cbn; lia].
Qed.

Lemma heard_other e (xs : list dirg) i j x y l m :
  heard e (d_lis <$> xs) -> j <> i -> xs !! i = Some x -> xs !! j = Some y ->
  d_lis x = Some l -> d_lis y = Some m -> m <> l.
Proof.
  intros [_ Hu] Hne Hi Hj Hx Hy ->. apply Hne. eapply (Hu j i l).
  - by rewrite (dir_lis_lookup _ _ _ Hj), Hy.
  - by rewrite (dir_lis_lookup _ _ _ Hi), Hx.
Qed.

Lemma dir_poll cl avail e xs i w o l c :
  xs !! i = Some (mk_dir 0 w o (Some l) c) -> dir_inv cl avail e xs ->
  let '(b, e') := poll_listener l e in
  dir_inv cl avail e' (<[i := if b then mk_dir 1 0 0 None c else mk_dir 0 w o (Some l) c]> xs).
Proof.
  dir_open. pose proof (heard_poll e (d_lis <$> xs) i l (dir_lis_lookup _ _ _ Hi) Hh) as Hp.
  pose proof (poll_law l e (heard_in _ _ _ _ Hh (dir_lis_lookup _ _ _ Hi))) as Hlaw.
  destruct (poll_listener l e) as [[] e']; destruct Hp as (Hb & Hh' & Hn); destruct Hlaw as (_ & _ & _ & Hadd).
  - symmetry in Hb. apply bool_decide_eq_true in Hb. dir_sums (mk_dir 1 0 0 None c).
    assert (Ho : forall j y m, j <> i -> xs !! j = Some y -> d_lis y = Some m -> m ∈ notified e -> m ∈ notified e').
    { intros j y m Hne Hj Hy Hm. rewrite Hn. apply elem_of_difference. split; [done|].
      apply not_elem_of_singleton. by eapply (heard_other e xs i j). }
    split; [by rewrite list_fmap_insert|]. split; [apply dir_ok_insert; [done|unfold dir_ok; cbn; lia]|].
    split; [auto|]. split.
    + destruct Hq as [?|[Hw|?]]; [by left|right; left; eapply woken_insert; eauto; cbn; lia|]. right; right.
      rewrite Hn, size_difference by set_solver. rewrite size_singleton.
      assert (size (notified e) <> O) by (intros Hz; apply size_empty_inv in Hz; set_solver). lia.
    + split; [|intros ?; apply Hcl; lia]. destruct Hc as [?|[?|Hw]]; [by left|right; left; lia|right; right; eapply woken_insert; eauto; cbn; lia].
  - rewrite list_insert_id in Hh' by exact (dir_lis_lookup _ _ _ Hi). rewrite list_insert_id by done.
    split; [done|]. split; [done|]. split; [auto|].
    unfold woken in *. rewrite Hn. done.
Qed.

(** [notify_additional(1)] *)
Lemma dir_announce cl avail e xs i d w o li c :
  xs !! i = Some (mk_dir (S d) w o li c) -> dir_inv cl avail e xs ->
  dir_inv cl avail (notify_additional 1 e) (<[i := mk_dir d w o li c]> xs).
Proof.
  dir_open. destruct (notify_additional_law 1 e) as (Hl & Hsub & Hn & Hadd). dir_sums (mk_dir d w o li c).
  assert (Hall : forall sel, sel (mk_dir d w o li c) = sel (mk_dir (S d) w o li c) -> woken sel e xs ->
    woken sel (notify_additional 1 e) (<[i := mk_dir d w o li c]> xs)).
  { intros sel Hs Hw. eapply woken_insert; eauto. rewrite Hs. eauto. }
  assert (Hh' : heard (notify_additional 1 e) (d_lis <$> <[i := mk_dir d w o li c]> xs)).
  { eapply heard_eq; [exact Hl|]. by eapply heard_insert. }
  split; [done|]. split; [apply dir_ok_insert; [done|exact (Hok i _ Hi)]|].
  split; [auto|]. split.
  - destruct Hq as [?|[Hw|?]]; [by left|auto|]. right. destruct Hn as [Hn|Hn]; [right; lia|left].
    intros j y m Hj _ Hm. rewrite Hn. eapply heard_in; [exact Hh'|]. by rewrite (dir_lis_lookup _ _ _ Hj), Hm.
  - split; [|intros ?; apply Hcl; lia]. destruct Hc as [?|[?|Hw]]; [by left|right; left; lia|auto].
Qed.

(** [notify(usize::MAX)] when the channel is closed. *)
Lemma dir_wake_all avail e xs i d w o li c :
  xs !! i = Some (mk_dir d w o li (S c)) -> Z.of_nat (length xs) < 2 ^ 62 -> dir_inv true avail e xs ->
  dir_inv true avail (notify usize_MAX e) (<[i := mk_dir d w o li c]> xs).
Proof.
  intros Hi Hlen. revert Hi. dir_open. destruct (notify_law usize_MAX e) as (Hl & Hsub & Hn).
  assert (Hh' : heard (notify usize_MAX e) (d_lis <$> <[i := mk_dir d w o li c]> xs)).
  { eapply heard_eq; [exact Hl|]. by eapply heard_insert. }
  split; [done|]. split; [apply dir_ok_insert; [done|exact (Hok i _ Hi)]|].
  split; [done|]. split; [by left|]. split; [|done]. right; right.
  assert (Heq : notified (notify usize_MAX e) = listeners (notify usize_MAX e)).
  { destruct Hn as [Hn|Hn]; [|done]. exfalso.
    pose proof (subseteq_size _ _ (notified_listens (notify usize_MAX e))) as Hs. rewrite Hl in Hs.
    pose proof (heard_size _ _ Hh) as Hs'. rewrite length_fmap in Hs'. assert (usize_MAX = 2 ^ 64 - 1) by done. lia. }
  intros j y m Hj _ Hm. rewrite Heq. eapply heard_in; [exact Hh'|]. by rewrite (dir_lis_lookup _ _ _ Hj), Hm.
Qed.

Lemma dir_drop cl avail e xs i w o l c :
  xs !! i = Some (mk_dir 0 w o (Some l) c) -> dir_inv cl avail e xs ->
  dir_inv cl avail (drop_listener l e) (<[i := mk_dir 0 0 0 None c]> xs).
Proof.
  dir_open. destruct (heard_drop e (d_lis <$> xs) i l (dir_lis_lookup _ _ _ Hi) Hh) as (Hh' & Hsub & _).
  destruct (drop_law l e) as (Hl & _ & _ & Hadd). dir_sums (mk_dir 0 0 0 None c).
  assert (Hall : forall sel, sel (mk_dir 0 0 0 None c) = O -> woken sel e xs -> woken sel (drop_listener l e) (<[i := mk_dir 0 0 0 None c]> xs)).
  { intros sel Hs Hw. eapply woken_insert; [exact Hi|exact Hw| |rewrite Hs; lia].
    intros j y m Hne Hj Hy Hm. apply Hsub. apply elem_of_difference. split; [done|].
    apply not_elem_of_singleton. by eapply (heard_other e xs i j). }
  assert (Hh2 : heard (drop_listener l e) (d_lis <$> <[i := mk_dir 0 0 0 None c]> xs)) by (by rewrite list_fmap_insert).
  split; [done|]. split; [apply dir_ok_insert; [done|unfold dir_ok; cbn; lia]|].
  split; [intros Hcf; by destruct (Hadd (Ha Hcf))|]. split.
  - destruct cl; [by left|]. destruct Hq as [?|[Hw|?]]; [done|right; left; by apply Hall|]. right.
    destruct (decide (l ∈ notified e)) as [Hin|Hni].
    + destruct (Hadd (Ha eq_refl)) as [_ Hp]. destruct (Hp Hin) as [Hs|Hs]; [right; lia|left].
      intros j y m Hj _ Hm. rewrite Hs. eapply heard_in; [exact Hh2|]. by rewrite (dir_lis_lookup _ _ _ Hj), Hm.
    + right. assert (notified e ⊆ notified (drop_listener l e)) as Hss by set_solver.
      apply subseteq_size in Hss. lia.
  - split; [|intros ?; apply Hcl; lia]. destruct Hc as [?|[?|Hw]]; [by left|right; left; lia|right; right; by apply Hall].
Qed.
Lemma dir_same cl avail e xs i x : xs !! i = Some x -> dir_inv cl avail e xs -> dir_inv cl avail e (<[i := x]> xs).
Proof. intros Hi Hd. by rewrite list_insert_id. Qed.
End DirInv.
