(* ===== verification/ChannelSpec.v ===== *)
(** * ksync: channels lose no value and no wake-up

    Users send, receive, try, cancel, close, clone and drop handles of one channel
    in any interleaving, over any queue with the documented laws.  What was sent is
    what was received and what is still in the queue, in the order of one queue; a
    waiting task is woken when there is something for it or the channel is closed;
    and a channel without senders or without receivers is closed.  This file has
    the invariant and the single steps, [ChannelUse.v] the operations. *)

From S2P Require Import Prelude Conc Event Mutex MutexSpec Channel.
Import Mpmc.

(** One queue for all: there is an order [past] of the values that have left the
    queue [q], so that [past ++ q] holds what everyone put in and [past] what
    everyone took out, each in the order in which they did. *)
Definition history {A} (sends gets : list (list A)) (q : list A) : Prop :=
  exists past, concat sends ≡ₚ past ++ q /\ concat gets ≡ₚ past /\
    Forall (fun xs => sublist (reverse xs) (past ++ q)) sends /\ Forall (fun xs => sublist (reverse xs) past) gets.

Lemma concat_cons_at {A} (xss : list (list A)) i xs a :
  xss !! i = Some xs -> concat (<[i := a :: xs]> xss) ≡ₚ a :: concat xss.
Proof.
  revert i. induction xss as [|ys xss IH]; intros [|i] Hi; try done; cbn in *; [by simplify_eq|].
  rewrite (IH i Hi). symmetry. apply Permutation_middle.
Qed.
Lemma order_grows {A} (xss : list (list A)) i xs (a : A) h :
  xss !! i = Some xs -> Forall (fun xs => sublist (reverse xs) h) xss ->
  Forall (fun xs => sublist (reverse xs) (h ++ [a])) (<[i := a :: xs]> xss).
Proof.
  intros Hi Ha. apply Forall_insert.
  - eapply Forall_impl; [exact Ha|]. intros ys Hy. by apply sublist_inserts_r.
  - rewrite reverse_cons. apply sublist_app; [|done]. exact (proj1 (Forall_lookup _ _) Ha _ _ Hi).
Qed.
Lemma history_push {A} sends gets (q : list A) i xs a :
  sends !! i = Some xs -> history sends gets q -> history (<[i := a :: xs]> sends) gets (q ++ [a]).
Proof.
  intros Hi (past & Hs & Hg & Hos & Hog). exists past. rewrite !app_assoc.
  split; [rewrite (concat_cons_at _ _ _ _ Hi), Hs; apply Permutation_cons_append|].
  split; [done|]. split; [by apply order_grows|done].
Qed.
Lemma history_pop {A} sends gets (q : list A) i xs a :
  gets !! i = Some xs -> history sends gets (a :: q) -> history sends (<[i := a :: xs]> gets) q.
Proof.
  intros Hi (past & Hs & Hg & Hos & Hog). exists (past ++ [a]). rewrite <- !app_assoc.
  split; [done|]. split; [rewrite (concat_cons_at _ _ _ _ Hi), Hg; apply Permutation_cons_append|].
  split; [done|by apply order_grows].
Qed.

Section ChannelSpec.
Context {E A Q : Type} `{Ev : Event E} `{EvL : !EventLaws E} `{Fl : Flavor A Q} `{QL : !QueueLaws A Q}.

(** What a user owns: its shares of the two directions; all it has put in and
    taken out; its handles and the clones it may make; a closing it is about to
    do as the last one out. *)
Record chg := mk_chg {
  rx : dirg; tx : dirg; ins : list A; outs : list A; hs : nat; hr : nat; bud : nat; dying : nat }.

Definition slots (q : Q) : nat := default O (room q).

Definition chan_inv (c : Channel E Q) (gs : list chg) : Prop :=
  dir_inv (closed c) (length (contents (queue c))) (recv_ev c) (rx <$> gs) /\
  dir_inv (closed c) (slots (queue c)) (send_ev c) (tx <$> gs) /\
  history (ins <$> gs) (outs <$> gs) (contents (queue c)) /\
  sender c = Z.of_nat (total hs gs) /\ receiver c = Z.of_nat (total hr gs) /\
  Z.of_nat (total hs gs + total hr gs + total bud gs) < 2 ^ 63 - 1 /\ Z.of_nat (length gs) < 2 ^ 62 /\
  (total hs gs = O \/ total hr gs = O -> closed c = true \/ 0 < total dying gs)%nat.

(** One step changes one end of the queue, if any. *)
Definition moved (q q' : list A) (g g' : chg) : Prop :=
  (ins g' = ins g /\ outs g' = outs g /\ q' = q) \/
  (exists a, ins g' = a :: ins g /\ outs g' = outs g /\ q' = q ++ [a]) \/
  (exists a, ins g' = ins g /\ outs g' = a :: outs g /\ q = a :: q').
Lemma history_moved gs i g g' q q' :
  gs !! i = Some g -> moved q q' g g' -> history (ins <$> gs) (outs <$> gs) q ->
  history (ins <$> <[i := g']> gs) (outs <$> <[i := g']> gs) q'.
Proof.
  intros Hi Hm Hh. rewrite !list_fmap_insert.
  assert (His : (ins <$> gs) !! i = Some (ins g)) by (by rewrite list_lookup_fmap, Hi).
  assert (Hos : (outs <$> gs) !! i = Some (outs g)) by (by rewrite list_lookup_fmap, Hi).
  destruct Hm as [(-> & -> & ->)|[(a & -> & -> & ->)|(a & -> & -> & ->)]].
  - by rewrite !list_insert_id.
  - rewrite (list_insert_id (outs <$> gs)) by done. by apply history_push.
  - rewrite (list_insert_id (ins <$> gs)) by done. by apply history_pop.
Qed.

Lemma chan_step c c' gs i g g' :
  gs !! i = Some g -> chan_inv c gs ->
  dir_inv (closed c') (length (contents (queue c'))) (recv_ev c') (<[i := rx g']> (rx <$> gs)) ->
  dir_inv (closed c') (slots (queue c')) (send_ev c') (<[i := tx g']> (tx <$> gs)) ->
  moved (contents (queue c)) (contents (queue c')) g g' ->
  sender c' = sender c + (Z.of_nat (hs g') - Z.of_nat (hs g)) ->
  receiver c' = receiver c + (Z.of_nat (hr g') - Z.of_nat (hr g)) ->
  (hs g' + hr g' + bud g' <= hs g + hr g + bud g)%nat ->
  (total hs (<[i := g']> gs) = O \/ total hr (<[i := g']> gs) = O ->
    closed c' = true \/ 0 < total dying (<[i := g']> gs))%nat ->
  chan_inv c' (<[i := g']> gs).
Proof.
  intros Hi (_ & _ & Hp & Hs & Hr & Hb & Hl & _) Hrx Htx Hperm Hs' Hr' Hb' Hd.
  pose proof (total_insert hs gs i g g' Hi). pose proof (total_insert hr gs i g g' Hi).
  pose proof (total_insert bud gs i g g' Hi).
  split; [by rewrite list_fmap_insert|]. split; [by rewrite list_fmap_insert|].
  split; [by eapply history_moved|].
  split; [lia|]. split; [lia|]. split; [lia|]. split; [by rewrite length_insert|done].
Qed.

Lemma rx_lookup (gs : list chg) (i : nat) g : gs !! i = Some g -> (rx <$> gs) !! i = Some (rx g).
Proof. intros Hi. by rewrite list_lookup_fmap, Hi. Qed.
Lemma tx_lookup (gs : list chg) (i : nat) g : gs !! i = Some g -> (tx <$> gs) !! i = Some (tx g).
Proof. intros Hi. by rewrite list_lookup_fmap, Hi. Qed.

(** A sleeping user has a listener on one side, and nothing to do. *)
Definition dir_asleep (x : dirg) : Prop :=
  d_duty x = O /\ d_closing x = O /\ (d_lis x = None \/ d_none x = 1 /\ d_open x = 1)%nat.
Definition chan_asleep (u : user A) (g : chg) : Prop :=
  dir_asleep (rx g) /\ dir_asleep (tx g) /\ ins g = u_sent u /\ outs g = u_got u /\ hs g = u_senders u /\
  (u_receivers u <= hr g)%nat /\ dying g = O.

Section Ops.
Variables (i : nat) (u : user A).
Notation wp := (wp chan_inv (chan_asleep u) i (fun _ => True)).

Ltac ch_open :=
  let s := fresh "c" in let gs := fresh "gs" in let Hi := fresh "Hi" in let HI := fresh "HI" in
  intros s gs Hi HI; pose proof HI as (Hrx & Htx & Hperm & Hsn & Hrc & Hbud & Hlen & Hdie);
  pose proof (total_lookup hs _ _ _ Hi); pose proof (total_lookup hr _ _ _ Hi); pose proof (total_lookup dying _ _ _ Hi);
  pose proof (total_lookup bud _ _ _ Hi); cbn [rx tx ins outs hs hr bud dying] in *.
Ltac ch_cbn := cbn [queue send_ev recv_ev closed sender receiver p_put p_get c_put c_get c_width send_port recv_port
  sender_cell receiver_cell set_queue fst snd rx tx ins outs hs hr bud dying].
(** Goals: receivers, senders, the values, the clause on the last handles, the rest. *)
Ltac ch_close g' :=
  exists g';
  match goal with
  | Hi : ?gs !! ?i = Some ?g |- _ =>
      pose proof (total_insert hs gs i g g' Hi); pose proof (total_insert hr gs i g g' Hi);
      pose proof (total_insert dying gs i g g' Hi); cbn [rx tx ins outs hs hr bud dying] in *
  end;
  split; [eapply chan_step; [eassumption|eassumption|ch_cbn|ch_cbn|ch_cbn|ch_cbn; try lia|ch_cbn; try lia|ch_cbn; try lia|ch_cbn]
         |split; [done|]].
Ltac keep_rx := match goal with Hi : _ !! _ = Some _ |- _ => apply dir_same; [exact (rx_lookup _ _ _ Hi)|assumption] end.
Ltac keep_tx := match goal with Hi : _ !! _ = Some _ |- _ => apply dir_same; [exact (tx_lookup _ _ _ Hi)|assumption] end.
Ltac keep_die :=
  match goal with
  | Hd : _ -> _ \/ (0 < total dying _)%nat |- _ => intros Hz; destruct Hd as [?|?]; [lia|by left|right; lia]
  end.

(** A waiting task, by its listener: [wl b li] is [1] when [b] and there is one. *)
Definition wl (b : bool) (li : option nat) : nat := match li with Some _ => Nat.b2n b | None => 0 end.
Lemma wl_ok d b b' li c : dir_ok (mk_dir d (wl b li) (wl b' li) li c).
Proof. unfold dir_ok, wl. cbn. destruct li; [eauto|lia]. Qed.
Ltac same_cl := match goal with |- context [closed ?c] => destruct (closed c); [right; right; repeat split; cbn; lia|left; split; [done|cbn; lia]] end.

(** ** The queue *)
Lemma wp_pop d n o li t I O s r b (Q0 : option A -> chg -> Prop) :
  (d <= 1)%nat ->
  (forall a, Q0 (Some a) (mk_chg (mk_dir 0 0 0 li 0) (mk_dir (S (d_duty t)) (d_none t) (d_open t) (d_lis t) (d_closing t))
     I (a :: O) s r b 0)) ->
  Q0 None (mk_chg (mk_dir 0 (wl true li) o li 0) t I O s r b 0) ->
  wp queue_pop Q0 (mk_chg (mk_dir d n o li 0) t I O s r b 0).
Proof.
  intros Hd Hs Hn. apply wp_atomic; [done|]. ch_open.
  pose proof (pop_law (queue c)) as Hlaw. destruct (pop (queue c)) as [x q].
  pose proof Hrx as (_ & Hrok & _). pose proof (Hrok _ _ (rx_lookup _ _ _ Hi)) as Hro. cbn in Hro.
  pose proof Htx as (_ & Htok & _). pose proof (Htok _ _ (tx_lookup _ _ _ Hi)) as Hto. cbn in Hto.
  destruct (contents (queue c)) as [|a rest] eqn:Ec; destruct Hlaw as (-> & Hc & Hr).
  - ch_close (mk_chg (mk_dir 0 (wl true li) o li 0) t I O s r b 0); [| | |keep_die|done].
    + rewrite Hc. eapply (dir_change (closed c) (closed c)); [exact (rx_lookup _ _ _ Hi)|done| |done|right; right; done|same_cl|exact Hrx].
      unfold dir_ok in *. cbn in *. destruct li; [eauto|]. intros Hw. apply Hro. cbn in Hw. lia.
    + unfold slots. rewrite Hr. keep_tx.
    + left. by rewrite Hc, Ec.
  - ch_close (mk_chg (mk_dir 0 0 0 li 0) (mk_dir (S (d_duty t)) (d_none t) (d_open t) (d_lis t) (d_closing t)) I (a :: O) s r b 0);
      [| | |keep_die|apply Hs].
    + rewrite Hc. eapply (dir_change (closed c) (closed c)); [exact (rx_lookup _ _ _ Hi)|done|unfold dir_ok; cbn; lia|done| |same_cl|exact Hrx].
      right; left. cbn. lia.
    + eapply (dir_change (closed c) (closed c)); [exact (tx_lookup _ _ _ Hi)|done|done|done| |same_cl|exact Htx].
      right; left. unfold slots. rewrite Hr. destruct (room (queue c)); cbn; lia.
    + right; right. exists a. by rewrite Hc, Ec.
Qed.

Lemma wp_push a d n o li t I O s r b (Q0 : option A -> chg -> Prop) :
  (d <= 1)%nat ->
  Q0 None (mk_chg (mk_dir (S (d_duty t)) (d_none t) (d_open t) (d_lis t) (d_closing t)) (mk_dir 0 0 0 li 0)
     (a :: I) O s r b 0) ->
  Q0 (Some a) (mk_chg t (mk_dir 0 (wl true li) o li 0) I O s r b 0) ->
  wp (queue_push a) Q0 (mk_chg t (mk_dir d n o li 0) I O s r b 0).
Proof.
  intros Hd Hs Hn. apply wp_atomic; [done|]. ch_open.
  pose proof (push_law a (queue c)) as Hlaw. destruct (push a (queue c)) as [x q].
  pose proof Hrx as (_ & Hrok & _). pose proof (Hrok _ _ (rx_lookup _ _ _ Hi)) as Hro. cbn in Hro.
  pose proof Htx as (_ & Htok & _). pose proof (Htok _ _ (tx_lookup _ _ _ Hi)) as Hto. cbn in Hto.
  set (t' := mk_dir (S (d_duty t)) (d_none t) (d_open t) (d_lis t) (d_closing t)) in *.
  assert (Hsucc : x = None -> contents q = contents (queue c) ++ [a] ->
    (slots q + 1 <= slots (queue c) \/ slots q = 0)%nat ->
    exists g', chan_inv (set_queue q c) (<[i := g']> gs) /\ True /\ Q0 None g').
  { intros -> Hc Hr. ch_close (mk_chg t' (mk_dir 0 0 0 li 0) (a :: I) O s r b 0); [| | |keep_die|done].
    - rewrite Hc, length_app. eapply (dir_change (closed c) (closed c)); [exact (rx_lookup _ _ _ Hi)|done|done|done| |same_cl|exact Hrx].
      right; left. unfold t'. cbn. lia.
    - eapply (dir_change (closed c) (closed c)); [exact (tx_lookup _ _ _ Hi)|done|unfold dir_ok; cbn; lia|done| |same_cl|exact Htx].
      destruct Hr; [right; left; cbn; lia|by right; right].
    - right; left. by exists a. }
  unfold slots in Hsucc. destruct (room (queue c)) as [[|k]|] eqn:Er; destruct Hlaw as (Hx & Hc & Hr); rewrite Hr in Hsucc.
  - subst x. ch_close (mk_chg t (mk_dir 0 (wl true li) o li 0) I O s r b 0); [| | |keep_die|done].
    + rewrite Hc. keep_rx.
    + unfold slots. rewrite Hr. cbn.
      eapply (dir_change (closed c) (closed c)); [exact (tx_lookup _ _ _ Hi)|done| |done|right; right; done|same_cl|exact Htx].
      unfold dir_ok in *. cbn in *. destruct li; [eauto|]. intros Hw. apply Hto. cbn in Hw. lia.
    + left. by rewrite Hc.
  - subst x. apply Hsucc; [done|done|left; cbn; lia].
  - subst x. apply Hsucc; [done|done|by right].
Qed.

(** ** The closed flag *)
(** A receiver looks after it has found the queue empty. *)
Lemma wp_open_rx o li t I O s r b (Q0 : bool -> chg -> Prop) :
  Q0 true (mk_chg (mk_dir 0 (wl true li) o li 0) t I O s r b 0) ->
  Q0 false (mk_chg (mk_dir 0 (wl true li) (wl true li) li 0) t I O s r b 0) ->
  wp is_closed Q0 (mk_chg (mk_dir 0 (wl true li) o li 0) t I O s r b 0).
Proof.
  intros Ht Hf. apply wp_atomic; [done|]. ch_open. destruct (closed c) eqn:Ecl.
  - exists (mk_chg (mk_dir 0 (wl true li) o li 0) t I O s r b 0). rewrite list_insert_id by done. cbn. by rewrite ?Ecl.
  - ch_close (mk_chg (mk_dir 0 (wl true li) (wl true li) li 0) t I O s r b 0); [| |by left|rewrite ?Ecl; keep_die|by cbn; rewrite ?Ecl].
    + rewrite ?Ecl. eapply (dir_change false false); [exact (rx_lookup _ _ _ Hi)|done|apply wl_ok|done| |left; by cbn|exact Hrx].
      right; left. cbn. lia.
    + rewrite ?Ecl. keep_tx.
Qed.
(** A receiver looks with a value in hand: its duty to the senders is gone with an
    open channel. *)
Lemma wp_open_got x t I O s r b (Q0 : bool -> chg -> Prop) :
  dir_ok t -> (1 <= d_duty t)%nat ->
  Q0 true (mk_chg x (mk_dir 0 (d_none t) (d_open t) (d_lis t) (d_closing t)) I O s r b 0) ->
  Q0 false (mk_chg x t I O s r b 0) ->
  wp is_closed Q0 (mk_chg x t I O s r b 0).
Proof.
  intros Hok Hd Ht Hf. apply wp_atomic; [done|]. ch_open. destruct (closed c) eqn:Ecl.
  - ch_close (mk_chg x (mk_dir 0 (d_none t) (d_open t) (d_lis t) (d_closing t)) I O s r b 0);
      [| |by left|rewrite ?Ecl; keep_die|by cbn; rewrite ?Ecl].
    + rewrite ?Ecl. keep_rx.
    + rewrite ?Ecl. eapply (dir_change true true); [exact (tx_lookup _ _ _ Hi)|done|done|done|by left| |exact Htx].
      right; right. by cbn.
  - exists (mk_chg x t I O s r b 0). rewrite list_insert_id by done. cbn. by rewrite ?Ecl.
Qed.
(** A sender looks first. *)
Lemma wp_open_tx d n o li t I O s r b (Q0 : bool -> chg -> Prop) :
  (n <= wl true li)%nat -> (o <= wl true li)%nat ->
  Q0 true (mk_chg t (mk_dir 0 n o li 0) I O s r b 0) ->
  Q0 false (mk_chg t (mk_dir d n (wl true li) li 0) I O s r b 0) ->
  wp is_closed Q0 (mk_chg t (mk_dir d n o li 0) I O s r b 0).
Proof.
  intros Hn Ho Ht Hf. apply wp_atomic; [done|]. ch_open.
  assert (Hok : forall d o, (o <= wl true li)%nat -> dir_ok (mk_dir d n o li 0)).
  { intros d' o' Ho'. unfold dir_ok, wl in *. cbn in *. destruct li; [eauto|lia]. }
  destruct (closed c) eqn:Ecl.
  - ch_close (mk_chg t (mk_dir 0 n o li 0) I O s r b 0); [| |by left|rewrite ?Ecl; keep_die|by cbn; rewrite ?Ecl].
    + rewrite ?Ecl. keep_rx.
    + rewrite ?Ecl. eapply (dir_change true true); [exact (tx_lookup _ _ _ Hi)|done|by apply Hok|done|by left| |exact Htx].
      right; right. by cbn.
  - ch_close (mk_chg t (mk_dir d n (wl true li) li 0) I O s r b 0); [| |by left|rewrite ?Ecl; keep_die|by cbn; rewrite ?Ecl].
    + rewrite ?Ecl. keep_rx.
    + rewrite ?Ecl. eapply (dir_change false false); [exact (tx_lookup _ _ _ Hi)|done|by apply Hok|done| |left; by cbn|exact Htx].
      right; left. cbn. lia.
Qed.

(** ** The events *)
Lemma wp_announce_rx d n o li k t I O s r b (Q0 : unit -> chg -> Prop) :
  Q0 tt (mk_chg (mk_dir d n o li k) t I O s r b 0) ->
  wp (ev_notify_additional recv_port 1) Q0 (mk_chg (mk_dir (S d) n o li k) t I O s r b 0).
Proof.
  intros HQ. apply wp_atomic; [done|]. ch_open.
  ch_close (mk_chg (mk_dir d n o li k) t I O s r b 0); [|keep_tx|by left|keep_die|done].
  eapply dir_announce; [exact (rx_lookup _ _ _ Hi)|exact Hrx].
Qed.
Lemma wp_announce_tx d n o li k t I O s r b (Q0 : unit -> chg -> Prop) :
  Q0 tt (mk_chg t (mk_dir d n o li k) I O s r b 0) ->
  wp (ev_notify_additional send_port 1) Q0 (mk_chg t (mk_dir (S d) n o li k) I O s r b 0).
Proof.
  intros HQ. apply wp_atomic; [done|]. ch_open.
  ch_close (mk_chg t (mk_dir d n o li k) I O s r b 0); [keep_rx| |by left|keep_die|done].
  eapply dir_announce; [exact (tx_lookup _ _ _ Hi)|exact Htx].
Qed.
Lemma wp_listen_rx t I O s r b (Q0 : nat -> chg -> Prop) :
  (forall l, Q0 l (mk_chg (mk_dir 0 0 0 (Some l) 0) t I O s r b 0)) ->
  wp (ev_listen recv_port) Q0 (mk_chg dir_idle t I O s r b 0).
Proof.
  intros HQ. apply wp_atomic; [done|]. ch_open.
  pose proof (dir_listen _ _ _ _ i _ _ (rx_lookup _ _ _ Hi) Hrx) as Hl. ch_cbn.
  destruct (listen (recv_ev c)) as [l e]; cbn [fst snd] in *.
  ch_close (mk_chg (mk_dir 0 0 0 (Some l) 0) t I O s r b 0); [exact Hl|keep_tx|by left|keep_die|apply HQ].
Qed.
Lemma wp_listen_tx t I O s r b (Q0 : nat -> chg -> Prop) :
  (forall l, Q0 l (mk_chg t (mk_dir 0 0 0 (Some l) 0) I O s r b 0)) ->
  wp (ev_listen send_port) Q0 (mk_chg t dir_idle I O s r b 0).
Proof.
  intros HQ. apply wp_atomic; [done|]. ch_open.
  pose proof (dir_listen _ _ _ _ i _ _ (tx_lookup _ _ _ Hi) Htx) as Hl. ch_cbn.
  destruct (listen (send_ev c)) as [l e]; cbn [fst snd] in *.
  ch_close (mk_chg t (mk_dir 0 0 0 (Some l) 0) I O s r b 0); [keep_rx|exact Hl|by left|keep_die|apply HQ].
Qed.
Lemma wp_poll_rx n o l t I O s r b (Q0 : bool -> chg -> Prop) :
  Q0 true (mk_chg (mk_dir 1 0 0 None 0) t I O s r b 0) ->
  Q0 false (mk_chg (mk_dir 0 n o (Some l) 0) t I O s r b 0) ->
  wp (ev_poll recv_port l) Q0 (mk_chg (mk_dir 0 n o (Some l) 0) t I O s r b 0).
Proof.
  intros Ht Hf. apply wp_atomic; [done|]. ch_open.
  pose proof (dir_poll _ _ _ _ i _ _ l _ (rx_lookup _ _ _ Hi) Hrx) as Hp. ch_cbn.
  destruct (poll_listener l (recv_ev c)) as [[] e].
  - ch_close (mk_chg (mk_dir 1 0 0 None 0) t I O s r b 0); [exact Hp|keep_tx|by left|keep_die|done].
  - ch_close (mk_chg (mk_dir 0 n o (Some l) 0) t I O s r b 0); [exact Hp|keep_tx|by left|keep_die|done].
Qed.
Lemma wp_poll_tx n o l t I O s r b (Q0 : bool -> chg -> Prop) :
  Q0 true (mk_chg t (mk_dir 1 0 0 None 0) I O s r b 0) ->
  Q0 false (mk_chg t (mk_dir 0 n o (Some l) 0) I O s r b 0) ->
  wp (ev_poll send_port l) Q0 (mk_chg t (mk_dir 0 n o (Some l) 0) I O s r b 0).
Proof.
  intros Ht Hf. apply wp_atomic; [done|]. ch_open.
  pose proof (dir_poll _ _ _ _ i _ _ l _ (tx_lookup _ _ _ Hi) Htx) as Hp. ch_cbn.
  destruct (poll_listener l (send_ev c)) as [[] e].
  - ch_close (mk_chg t (mk_dir 1 0 0 None 0) I O s r b 0); [keep_rx|exact Hp|by left|keep_die|done].
  - ch_close (mk_chg t (mk_dir 0 n o (Some l) 0) I O s r b 0); [keep_rx|exact Hp|by left|keep_die|done].
Qed.

Lemma wp_drop_rx n o li t I O s r b (Q0 : unit -> chg -> Prop) :
  (li = None -> n = 0%nat /\ o = 0%nat) -> Q0 tt (mk_chg dir_idle t I O s r b 0) ->
  wp (ev_drop recv_port li) Q0 (mk_chg (mk_dir 0 n o li 0) t I O s r b 0).
Proof.
  intros Hnil HQ. destruct li as [l|]; [|destruct Hnil as [-> ->]; [done|by apply wp_ret]].
  apply wp_atomic; [done|]. ch_open.
  ch_close (mk_chg dir_idle t I O s r b 0); [|keep_tx|by left|keep_die|done].
  eapply dir_drop; [exact (rx_lookup _ _ _ Hi)|exact Hrx].
Qed.
Lemma wp_drop_tx n o li t I O s r b (Q0 : unit -> chg -> Prop) :
  (li = None -> n = 0%nat /\ o = 0%nat) -> Q0 tt (mk_chg t dir_idle I O s r b 0) ->
  wp (ev_drop send_port li) Q0 (mk_chg t (mk_dir 0 n o li 0) I O s r b 0).
Proof.
  intros Hnil HQ. destruct li as [l|]; [|destruct Hnil as [-> ->]; [done|by apply wp_ret]].
  apply wp_atomic; [done|]. ch_open.
  ch_close (mk_chg t dir_idle I O s r b 0); [keep_rx| |by left|keep_die|done].
  eapply dir_drop; [exact (tx_lookup _ _ _ Hi)|exact Htx].
Qed.

(** ** Closing *)
Lemma wp_swap x t I O s r b y (Q0 : bool -> chg -> Prop) :
  dir_ok x -> dir_ok t ->
  Q0 true (mk_chg x t I O s r b 0) ->
  Q0 false (mk_chg (mk_dir (d_duty x) (d_none x) (d_open x) (d_lis x) (S (d_closing x)))
    (mk_dir (d_duty t) (d_none t) (d_open t) (d_lis t) (S (d_closing t))) I O s r b 0) ->
  wp swap_closed Q0 (mk_chg x t I O s r b y).
Proof.
  intros Hx Htk Ht Hf. apply wp_atomic; [done|]. ch_open. ch_cbn.
  destruct (closed c) eqn:Ecl.
  - ch_close (mk_chg x t I O s r b 0); [by keep_rx|by keep_tx|by left|by left|done].
  - ch_close (mk_chg (mk_dir (d_duty x) (d_none x) (d_open x) (d_lis x) (S (d_closing x)))
      (mk_dir (d_duty t) (d_none t) (d_open t) (d_lis t) (S (d_closing t))) I O s r b 0); [| |by left|by left|done].
    + eapply (dir_change false true); [exact (rx_lookup _ _ _ Hi)|done|done|done|by left| |exact Hrx].
      right; left. split; [done|cbn; lia].
    + eapply (dir_change false true); [exact (tx_lookup _ _ _ Hi)|done|done|done|by left| |exact Htx].
      right; left. split; [done|cbn; lia].
Qed.
Lemma wp_wake_rx d n o li k t I O s r b (Q0 : unit -> chg -> Prop) :
  Q0 tt (mk_chg (mk_dir d n o li k) t I O s r b 0) ->
  wp (ev_notify recv_port usize_MAX) Q0 (mk_chg (mk_dir d n o li (S k)) t I O s r b 0).
Proof.
  intros HQ. apply wp_atomic; [done|]. ch_open.
  assert (Ecl : closed c = true).
  { destruct Hrx as (_ & _ & _ & _ & _ & Hcl). apply Hcl.
    pose proof (total_lookup d_closing _ _ _ (rx_lookup _ _ _ Hi)) as Hk. cbn in Hk. lia. }
  ch_close (mk_chg (mk_dir d n o li k) t I O s r b 0); [|keep_tx|by left|keep_die|done].
  rewrite Ecl in *. eapply dir_wake_all; [exact (rx_lookup _ _ _ Hi)|by rewrite length_fmap|exact Hrx].
Qed.
Lemma wp_wake_tx d n o li k t I O s r b (Q0 : unit -> chg -> Prop) :
  Q0 tt (mk_chg t (mk_dir d n o li k) I O s r b 0) ->
  wp (ev_notify send_port usize_MAX) Q0 (mk_chg t (mk_dir d n o li (S k)) I O s r b 0).
Proof.
  intros HQ. apply wp_atomic; [done|]. ch_open.
  assert (Ecl : closed c = true).
  { destruct Htx as (_ & _ & _ & _ & _ & Hcl). apply Hcl.
    pose proof (total_lookup d_closing _ _ _ (tx_lookup _ _ _ Hi)) as Hk. cbn in Hk. lia. }
  ch_close (mk_chg t (mk_dir d n o li k) I O s r b 0); [keep_rx| |by left|keep_die|done].
  rewrite Ecl in *. eapply dir_wake_all; [exact (tx_lookup _ _ _ Hi)|by rewrite length_fmap|exact Htx].
Qed.
Lemma close_ok x t I O s r b y (Q0 : bool -> chg -> Prop) :
  dir_ok x -> dir_ok t -> (forall v, Q0 v (mk_chg x t I O s r b 0)) -> wp close Q0 (mk_chg x t I O s r b y).
Proof.
  intros Hx Ht HQ. destruct x as [d n o li k], t as [d' n' o' li' k']. apply wp_bind, wp_swap; [done|done|by apply wp_ret|]. cbn [d_duty d_none d_open d_lis d_closing].
  apply wp_bind, wp_wake_tx. apply wp_bind, wp_wake_rx. by apply wp_ret.
Qed.

(** ** Handles *)
Lemma half_MAX : usize_MAX / 2 = 2 ^ 63 - 1. Proof. reflexivity. Qed.
Lemma clone_sender_ok x t I O s r b (Q0 : unit -> chg -> Prop) :
  Q0 tt (mk_chg x t I O (S s) r b 0) -> wp clone_sender Q0 (mk_chg x t I O s r (S b) 0).
Proof.
  intros HQ. apply wp_bind, wp_atomic; [done|]. ch_open.
  assert (Hw : wadd 64 (sender c) 1 = sender c + 1) by (apply wadd_small; unfold fits; lia).
  ch_close (mk_chg x t I O (S s) r b 0); [keep_rx|keep_tx|by left| |].
  { intros [?|?]; [lia|]. destruct Hdie as [?|?]; [lia|by left|right; lia]. }
  rewrite half_MAX. cbn. destruct (Z.ltb_spec (2 ^ 63 - 1) (sender c)); [lia|by apply wp_ret].
Qed.
Lemma clone_receiver_ok x t I O s r b (Q0 : unit -> chg -> Prop) :
  Q0 tt (mk_chg x t I O s (S r) b 0) -> wp clone_receiver Q0 (mk_chg x t I O s r (S b) 0).
Proof.
  intros HQ. apply wp_bind, wp_atomic; [done|]. ch_open.
  assert (Hw : wadd 64 (receiver c) 1 = receiver c + 1) by (apply wadd_small; unfold fits; lia).
  ch_close (mk_chg x t I O s (S r) b 0); [keep_rx|keep_tx|by left| |].
  { intros [?|?]; [|lia]. destruct Hdie as [?|?]; [lia|by left|right; lia]. }
  rewrite half_MAX. cbn. destruct (Z.ltb_spec (2 ^ 63 - 1) (receiver c)); [lia|by apply wp_ret].
Qed.

Lemma drop_sender_ok x t I O s r b (Q0 : unit -> chg -> Prop) :
  dir_ok x -> dir_ok t -> Q0 tt (mk_chg x t I O s r b 0) -> wp drop_sender Q0 (mk_chg x t I O (S s) r b 0).
Proof.
  intros Hx Ht HQ. apply wp_bind, wp_atomic; [done|]. ch_open.
  assert (Hw : wsub 64 (sender c) 1 = sender c - 1) by (apply wsub_small; unfold fits; lia).
  ch_close (mk_chg x t I O s r b (if sender c =? 1 then 1 else 0)); [keep_rx|keep_tx|by left| |].
  { destruct (Z.eqb_spec (sender c) 1); [intros _; right; lia|]. intros [?|?]; [lia|].
    destruct Hdie as [?|?]; [lia|by left|right; lia]. }
  cbn [fst c_get sender_cell]. destruct (sender c =? 1); [|by apply wp_ret]. apply wp_bind, close_ok; [done..|]. intros v. by apply wp_ret.
Qed.
Lemma drop_receiver_ok x t I O s r b (Q0 : unit -> chg -> Prop) :
  dir_ok x -> dir_ok t -> Q0 tt (mk_chg x t I O s r b 0) -> wp drop_receiver Q0 (mk_chg x t I O s (S r) b 0).
Proof.
  intros Hx Ht HQ. apply wp_bind, wp_atomic; [done|]. ch_open.
  assert (Hw : wsub 64 (receiver c) 1 = receiver c - 1) by (apply wsub_small; unfold fits; lia).
  ch_close (mk_chg x t I O s r b (if receiver c =? 1 then 1 else 0)); [keep_rx|keep_tx|by left| |].
  { destruct (Z.eqb_spec (receiver c) 1); [intros _; right; lia|]. intros [?|?]; [|lia].
    destruct Hdie as [?|?]; [lia|by left|right; lia]. }
  cbn [fst c_get receiver_cell]. destruct (receiver c =? 1); [|by apply wp_ret]. apply wp_bind, close_ok; [done..|]. intros v. by apply wp_ret.
Qed.
End Ops.
End ChannelSpec.
