(* ===== verification/ChannelUse.v ===== *)
(** * ksync: the operations of a channel

    Each operation and each future of [Channel.v], by the steps of
    [ChannelSpec.v]; then the theorems about all interleavings of users. *)

From S2P Require Import Prelude Conc Event Mutex MutexSpec Channel ChannelSpec.
Import Mpmc.

Section ChannelUse.
Context {E A Q : Type} `{Ev : Event E} `{EvL : !EventLaws E} `{Fl : Flavor A Q} `{QL : !QueueLaws A Q}.
Variables (i : nat) (u : user A).
Notation wp := (wp chan_inv (chan_asleep u) i (fun _ => True)).

Lemma dir_ok_wl d n o li c : (n <= wl true li)%nat -> (o <= wl true li)%nat -> dir_ok (mk_dir d n o li c).
Proof. intros Hn Ho. unfold dir_ok, wl in *. cbn in *. destruct li; [eauto|lia]. Qed.
Lemma wl_none n o li : (n <= wl true li)%nat -> (o <= wl true li)%nat -> li = None -> n = 0%nat /\ o = 0%nat.
Proof. intros Hn Ho ->. cbn in *. lia. Qed.

(** ** Trying *)
Lemma try_recv_ok d n o li I O s r b (Q0 : res TryRecvError A -> chg -> Prop) :
  (d <= 1)%nat -> (n <= wl true li)%nat -> (o <= wl true li)%nat ->
  (forall a, Q0 (Ok a) (mk_chg (mk_dir 0 0 0 li 0) dir_idle I (a :: O) s r b 0)) ->
  (forall a, Q0 (Err (Closed (Some a))) (mk_chg (mk_dir 0 0 0 li 0) dir_idle I (a :: O) s r b 0)) ->
  Q0 (Err (Closed None)) (mk_chg (mk_dir 0 (wl true li) o li 0) dir_idle I O s r b 0) ->
  Q0 (Err Empty) (mk_chg (mk_dir 0 (wl true li) (wl true li) li 0) dir_idle I O s r b 0) ->
  wp try_recv Q0 (mk_chg (mk_dir d n o li 0) dir_idle I O s r b 0).
Proof.
  intros Hd Hn Ho Hok Hcl Hcn Hem. apply wp_bind, wp_pop; [done| |].
  - intros a. apply wp_bind, wp_open_got; [unfold dir_ok; cbn; lia|cbn; lia|by apply wp_ret|].
    apply wp_bind, wp_announce_tx. by apply wp_ret.
  - apply wp_bind, wp_open_rx; by apply wp_ret.
Qed.

Lemma try_send_ok a d n o li I O s r b (Q0 : res TrySendError unit -> chg -> Prop) :
  (d <= 1)%nat -> (n <= wl true li)%nat -> (o <= wl true li)%nat ->
  Q0 (Ok tt) (mk_chg dir_idle (mk_dir 0 0 0 li 0) (a :: I) O s r b 0) ->
  Q0 (Err (mk_try_send_error a true)) (mk_chg dir_idle (mk_dir 0 n o li 0) I O s r b 0) ->
  Q0 (Err (mk_try_send_error a false)) (mk_chg dir_idle (mk_dir 0 (wl true li) (wl true li) li 0) I O s r b 0) ->
  wp (try_send a) Q0 (mk_chg dir_idle (mk_dir d n o li 0) I O s r b 0).
Proof.
  intros Hd Hn Ho Hok Hcl Hfu. apply wp_bind, wp_open_tx; [done|done|by apply wp_ret|].
  apply wp_bind, wp_push; [done| |by apply wp_ret]. apply wp_bind, wp_announce_rx. by apply wp_ret.
Qed.

(** ** Futures *)
Lemma recv_poll_ok k d n o li r b :
  (u_receivers u <= r)%nat -> (d <= 1)%nat -> (n <= wl true li)%nat -> (o <= wl true li)%nat ->
  wp (recv_poll k li) (fun x g =>
    match x.1 with
    | Pending => is_Some x.2 /\ g = mk_chg (mk_dir 0 1 1 x.2 0) dir_idle (u_sent u) (u_got u) (u_senders u) r b 0 /\ chan_asleep u g
    | Ready v => exists n' o', (n' <= wl true x.2)%nat /\ (o' <= wl true x.2)%nat /\
        g = mk_chg (mk_dir 0 n' o' x.2 0) dir_idle (u_sent u) (u_got (received v u)) (u_senders u) r b 0
    end) (mk_chg (mk_dir d n o li 0) dir_idle (u_sent u) (u_got u) (u_senders u) r b 0).
Proof.
  intros Hr. revert d n o li. induction k as [|k IH]; intros d n o li Hd Hn Ho; [done|]. cbn [recv_poll].
  apply wp_bind, try_recv_ok; [done|done|done| | | |].
  - intros a. apply wp_ret; [done|]. exists O, O. repeat split; lia.
  - intros a. apply wp_ret; [done|]. exists O, O. repeat split; lia.
  - apply wp_ret; [done|]. by exists (wl true li), o.
  - destruct li as [l|]; cbn [wl Nat.b2n]; apply wp_bind.
    + apply wp_poll_rx; [apply IH; cbn; lia|]. apply wp_ret; [done|]. cbn.
      split; [by eauto|]. split; [done|]. repeat split; cbn; auto.
    + apply wp_listen_rx. intros l. apply IH; cbn; lia.
Qed.

Lemma send_poll_ok k a d n o li b :
  (d <= 1)%nat -> (n <= wl true li)%nat -> (o <= wl true li)%nat ->
  wp (send_poll k (mk_send (Some a) li)) (fun x g =>
    match x.1 with
    | Pending => exists l, x.2 = mk_send (Some a) (Some l) /\
        g = mk_chg dir_idle (mk_dir 0 1 1 (Some l) 0) (u_sent u) (u_got u) (u_senders u) (u_receivers u) b 0 /\ chan_asleep u g
    | Ready v => exists n' o', (n' <= wl true (s_listener x.2))%nat /\ (o' <= wl true (s_listener x.2))%nat /\
        g = mk_chg dir_idle (mk_dir 0 n' o' (s_listener x.2) 0) (match v with Ok _ => a :: u_sent u | _ => u_sent u end)
          (u_got u) (u_senders u) (u_receivers u) b 0
    end) (mk_chg dir_idle (mk_dir d n o li 0) (u_sent u) (u_got u) (u_senders u) (u_receivers u) b 0).
Proof.
  revert d n o li. induction k as [|k IH]; intros d n o li Hd Hn Ho; [done|]. cbn [send_poll s_data s_listener].
  apply wp_bind, try_send_ok; [done|done|done| | |].
  - apply wp_ret; [done|]. exists O, O. repeat split; lia.
  - apply wp_ret; [done|]. by exists n, o.
  - cbn [te_closed te_data negb]. destruct li as [l|]; cbn [wl Nat.b2n]; apply wp_bind.
    + apply wp_poll_tx; [apply IH; cbn; lia|]. apply wp_ret; [done|]. exists l.
      split; [done|]. split; [done|]. repeat split; cbn; auto.
    + apply wp_listen_tx. intros l. apply IH; cbn; lia.
Qed.

(** ** The commands *)
Definition ghost_of (v : user A) : chg :=
  mk_chg dir_idle dir_idle (u_sent v) (u_got v) (u_senders v) (u_receivers v) (u_clones v) 0.
Definition chan_idle (v : user A) (g : chg) : Prop := g = ghost_of v.

(** A future that receives, whatever happens when it is dropped. *)
Definition recv_at (r b : nat) (f : option nat) (g : chg) : Prop :=
  g = mk_chg (mk_dir 0 (wl true f) (wl true f) f 0) dir_idle (u_sent u) (u_got u) (u_senders u) r b 0.
Definition recv_done (r b : nat) (f : option nat) (v : res (option A) A) (g : chg) : Prop :=
  exists n o, (n <= wl true f)%nat /\ (o <= wl true f)%nat /\
    g = mk_chg (mk_dir 0 n o f 0) dir_idle (u_sent u) (u_got (received v u)) (u_senders u) r b 0.

Lemma recv_await k m r b (drop_fut : option nat -> prog (Channel E Q) unit) (Q0 : option (res (option A) A) -> chg -> Prop) :
  (u_receivers u <= r)%nat ->
  (forall f v g, recv_done r b f v g -> wp (drop_fut f) (fun _ => Q0 (Some v)) g) ->
  (forall f g, recv_at r b f g -> wp (drop_fut f) (fun _ => Q0 None) g) ->
  wp (await (recv_poll k) drop_fut m None) Q0 (mk_chg dir_idle dir_idle (u_sent u) (u_got u) (u_senders u) r b 0).
Proof.
  intros Hr Hdone Hdrop. apply wp_await with (I := recv_at r b) (R := recv_done r b); [|by eauto|by eauto|done|done].
  intros f h _ ->. eapply wp_mono; [|by apply recv_poll_ok; [exact Hr|lia|..]].
  intros [[v|] f'] g _; cbn [fst snd]; [by intros H; exact H|]. intros ([l ->] & -> & Ha). by split.
Qed.
Lemma recv_drop_ok n o f t I O s r b (Q0 : unit -> chg -> Prop) :
  (n <= wl true f)%nat -> (o <= wl true f)%nat -> Q0 tt (mk_chg dir_idle t I O s r b 0) ->
  wp (recv_drop f) Q0 (mk_chg (mk_dir 0 n o f 0) t I O s r b 0).
Proof. intros Hn Ho HQ. apply wp_drop_rx; [|done]. intros Hf. by eapply wl_none. Qed.

Lemma send_await k m a b (Q0 : option (res A unit) -> chg -> Prop) :
  (forall v, Q0 (Some v) (mk_chg dir_idle dir_idle (match v with Ok _ => a :: u_sent u | _ => u_sent u end)
     (u_got u) (u_senders u) (u_receivers u) b 0)) ->
  Q0 None (mk_chg dir_idle dir_idle (u_sent u) (u_got u) (u_senders u) (u_receivers u) b 0) ->
  wp (await (send_poll k) send_drop m (mk_send (Some a) None)) Q0
    (mk_chg dir_idle dir_idle (u_sent u) (u_got u) (u_senders u) (u_receivers u) b 0).
Proof.
  intros Hdone Hdrop.
  apply wp_await with (I := fun f g => exists li, f = mk_send (Some a) li /\
      g = mk_chg dir_idle (mk_dir 0 (wl true li) (wl true li) li 0) (u_sent u) (u_got u) (u_senders u) (u_receivers u) b 0)
    (R := fun f v g => exists n o, (n <= wl true (s_listener f))%nat /\ (o <= wl true (s_listener f))%nat /\
      g = mk_chg dir_idle (mk_dir 0 n o (s_listener f) 0) (match v with Ok _ => a :: u_sent u | _ => u_sent u end)
          (u_got u) (u_senders u) (u_receivers u) b 0); [| | |done|by exists None].
  - intros f h _ (li & -> & ->). eapply wp_mono; [|by apply send_poll_ok; [lia|..]].
    intros [[v|] f'] g _; cbn [fst snd]; [by intros H; exact H|]. intros (l & -> & -> & Ha). split; [by exists (Some l)|done].
  - intros f v h _ (n & o & Hn & Ho & ->). apply wp_drop_tx; [|by apply Hdone]. intros Hf. by eapply wl_none.
  - intros f h _ (li & -> & ->). apply wp_drop_tx; [|done]. intros Hf. by eapply wl_none.
Qed.
End ChannelUse.

Section ChannelRuns.
Context {E A Q : Type} `{Ev : Event E} `{EvL : !EventLaws E} `{Fl : Flavor A Q} `{QL : !QueueLaws A Q}.

Lemma idle_dir_ok : dir_ok dir_idle. Proof. unfold dir_ok. cbn. lia. Qed.

Lemma recv_once_ok n i ss k cl se go :
  let u := mk_user ss k cl se go in
  wp chan_inv (chan_asleep u) i (fun _ => True)
    (r ← await (recv_poll n) (fun f => _ ← drop_receiver; recv_drop f) n None;
     Ret (match r with Some r => received r u | None => u end))
    chan_idle (mk_chg dir_idle dir_idle se go ss (S k) cl 0).
Proof.
  intros u. apply wp_bind, (recv_await i u n n (S k) cl); [cbn; lia| |].
  - intros f v g (n' & o' & Hn & Ho & ->). apply wp_bind, drop_receiver_ok; [by apply dir_ok_wl|apply idle_dir_ok|].
    apply recv_drop_ok; [done|done|]. apply wp_ret; [done|]. by destruct v as [|[]|].
  - intros f g ->. apply wp_bind, drop_receiver_ok; [by apply dir_ok_wl|apply idle_dir_ok|].
    apply recv_drop_ok; [done|done|]. by apply wp_ret.
Qed.
Lemma recv_ok n i u :
  wp chan_inv (chan_asleep u) i (fun _ => True)
    (r ← await (recv_poll n) recv_drop n None; Ret (match r with Some r => received r u | None => u end))
    chan_idle (ghost_of u).
Proof.
  apply wp_bind, (recv_await i u); [done| |].
  - intros f v g (n' & o' & Hn & Ho & ->). apply recv_drop_ok; [done|done|]. apply wp_ret; [done|].
    destruct u; by destruct v as [|[]|].
  - intros f g ->. apply recv_drop_ok; [done|done|]. by apply wp_ret.
Qed.

Lemma chan_start_ok n i c u g u' p :
  start_cmd n c u = Some (u', p) -> chan_idle u g ->
  wp chan_inv (chan_asleep u') i (fun _ => True) p chan_idle g.
Proof.
  intros Hc ->. destruct u as [ss rs cl se go] eqn:Eu. pose proof idle_dir_ok as Hid.
  destruct c; cbn [start_cmd] in Hc.
  - destruct ss; simplify_eq. apply wp_bind, (send_await i (mk_user (S ss) rs cl se go)).
    + intros [[]| |]; by apply wp_ret.
    + by apply wp_ret.
  - destruct ss; simplify_eq. apply wp_bind, try_send_ok; [cbn; lia..|by apply wp_ret|by apply wp_ret|by apply wp_ret].
  - destruct rs; [by destruct ss|]. assert (Hr := recv_ok n i (mk_user ss (S rs) cl se go)). by destruct ss; simplify_eq.
  - destruct rs; [by destruct ss|].
    assert (Hr : wp chan_inv (chan_asleep (mk_user ss (S rs) cl se go)) i (fun _ => True)
      (r ← try_recv; Ret (match r with Ok a | Err (Closed (Some a)) => got a (mk_user ss (S rs) cl se go) | _ => mk_user ss (S rs) cl se go end))
      chan_idle (ghost_of (mk_user ss (S rs) cl se go))).
    { apply wp_bind, try_recv_ok; [cbn; lia..| | | |]; intros; by apply wp_ret. }
    by destruct ss; simplify_eq.
  - destruct rs; [by destruct ss|]. assert (Hr := recv_once_ok n i ss rs cl se go). by destruct ss; simplify_eq.
  - assert (Hr : forall v, wp chan_inv (chan_asleep v) i (fun _ => True) (_ ← close; Ret v) chan_idle (ghost_of v)).
    { intros v. apply wp_bind, close_ok; [done|done|]. intros ?. by apply wp_ret. }
    destruct ss, rs; simplify_eq; apply Hr.
  - destruct ss, cl; simplify_eq. apply wp_bind, clone_sender_ok. by apply wp_ret.
  - destruct ss; simplify_eq. apply wp_bind, drop_sender_ok; [done|done|]. by apply wp_ret.
  - destruct rs; [by destruct ss|]. destruct cl; [by destruct ss|].
    assert (Hr : forall v, wp chan_inv (chan_asleep v) i (fun _ => True)
       (_ ← clone_receiver; Ret (mk_user ss (S (S rs)) cl se go)) chan_idle (ghost_of (mk_user ss (S rs) (S cl) se go))).
    { intros v. apply wp_bind, clone_receiver_ok. by apply wp_ret. }
    destruct ss; simplify_eq; apply Hr.
  - destruct rs; [by destruct ss|].
    assert (Hr : forall v, wp chan_inv (chan_asleep v) i (fun _ => True)
       (_ ← drop_receiver; Ret (mk_user ss rs cl se go)) chan_idle (ghost_of (mk_user ss (S rs) cl se go))).
    { intros v. apply wp_bind, drop_receiver_ok; [done|done|]. by apply wp_ret. }
    destruct ss; simplify_eq; apply Hr.
Qed.

(** ** Runs

    A channel whose handles have been dealt out: each user owns some senders and
    receivers, may clone some more, and has a list of commands. *)
Record share := mk_share { sh_senders : nat; sh_receivers : nat; sh_clones : nat; sh_script : list (cmd A) }.
Definition dealt (q : Q) (us : list share) : config (Channel E Q) (user A) (cmd A) :=
  (spawn_each ((fun h => (mk_user (sh_senders h) (sh_receivers h) (sh_clones h) [] [], sh_script h)) <$> us),
   mk_chan q event_new event_new false (Z.of_nat (total sh_senders us)) (Z.of_nat (total sh_receivers us))).

(** An empty queue, handles of both kinds, fewer of them than the counters refuse. *)
Definition fair_deal (q : Q) (us : list share) : Prop :=
  contents q = [] /\ (0 < total sh_senders us)%nat /\ (0 < total sh_receivers us)%nat /\
  Z.of_nat (total sh_senders us + total sh_receivers us + total sh_clones us) < 2 ^ 63 - 1 /\
  Z.of_nat (length us) < 2 ^ 62.

Definition new_ghost (h : share) : @chg A :=
  ghost_of (mk_user (sh_senders h) (sh_receivers h) (sh_clones h) [] []).
Lemma concat_nils {B C} (xs : list B) : concat ((fun _ => @nil C) <$> xs) = [].
Proof. by induction xs. Qed.
Lemma fmap_const {B C D} (f : C -> D) (g : B -> C) (xs : list B) : f <$> (g <$> xs) = (fun x => f (g x)) <$> xs.
Proof. by rewrite <- list_fmap_compose. Qed.

Lemma fair_inv q us : fair_deal q us -> chan_inv (dealt q us).2 (new_ghost <$> us).
Proof.
  intros (Hq & Hs & Hr & Hb & Hl). unfold chan_inv, dealt. cbn [snd queue send_ev recv_ev closed sender receiver].
  rewrite !fmap_const, !total_fmap, length_fmap. cbn [new_ghost ghost_of rx tx ins outs hs hr bud dying u_sent u_got u_senders u_receivers u_clones].
  assert (Hrep : (fun _ => dir_idle) <$> us = replicate (length us) dir_idle) by (clear; induction us; [done|by cbn; f_equal]).
  rewrite Hrep. split; [apply dir_new_avail|]. split; [apply dir_new_avail|]. split.
  { exists []. rewrite !concat_nils, Hq. split; [done|]. split; [done|].
    split; apply Forall_fmap, Forall_true; intros; apply sublist_nil_l. }
  split; [done|]. split; [done|]. split; [done|]. split; [done|]. cbv beta. change (total (fun x => sh_senders x) us) with (total sh_senders us). change (total (fun x => sh_receivers x) us) with (total sh_receivers us). lia.
Qed.

Notation chan_safe := (safe chan_inv (fun _ => True) chan_idle (fun _ _ => True) chan_asleep).
Lemma chan_run n q us sched : fair_deal q us -> exists gs, chan_safe (run (start_cmd n) sched (dealt q us)) gs.
Proof.
  intros Hf. apply fair_inv in Hf. eapply run_safe.
  - intros * _. apply chan_start_ok.
  - unfold dealt in *. apply (spawn_each_safe _ _ _ _ _ _ ghost_of).
    + by apply Forall_true; intros; apply Forall_true.
    + rewrite fmap_const. exact Hf.
    + done.
Qed.

(** What a quiet user owns. *)
Definition at_rest (u : user A) (g : chg) : Prop :=
  ins g = u_sent u /\ outs g = u_got u /\ hs g = u_senders u /\ (u_receivers u <= hr g)%nat /\ dying g = O /\
  dir_asleep (rx g) /\ dir_asleep (tx g).
Lemma idle_asleep : dir_asleep dir_idle. Proof. repeat split; by left. Qed.

Lemma rest_ok (c : config (Channel E Q) (user A) (cmd A)) gs i t :
  chan_safe c gs -> quiet c.1 = true -> c.1 !! i = Some t -> exists g, gs !! i = Some g /\ at_rest (t_owns t) g.
Proof.
  intros Hs Hq Ht. destruct (safe_thread _ _ _ _ _ _ _ i t Hs Ht) as (g & Hg & Hb & _ & Ha). exists g. split; [done|].
  pose proof (proj1 (forallb_lookup _ _) Hq i t Ht) as Hqt. cbv beta in Hqt. unfold at_rest.
  destruct (idle t).
  - rewrite Hb. cbn. pose proof idle_asleep. split_and!; try done; cbn; lia.
  - destruct (Ha Hqt) as (? & ? & ? & ? & ? & ? & ?). split_and!; done.
Qed.
Lemma rest_all (c : config (Channel E Q) (user A) (cmd A)) gs i g :
  chan_safe c gs -> quiet c.1 = true -> gs !! i = Some g -> exists t, c.1 !! i = Some t /\ at_rest (t_owns t) g.
Proof.
  intros Hs Hq Hg. pose proof Hs as (_ & Hlen & _).
  destruct (lookup_lt_is_Some_2 c.1 i) as [t Ht]; [rewrite <- Hlen; by eapply lookup_lt_Some|].
  exists t. split; [done|]. destruct (rest_ok _ _ _ _ Hs Hq Ht) as (g' & Hg' & Hr). by simplify_eq.
Qed.
Lemma rest_fmap {B} (f : user A -> B) (f' : chg -> B) (c : config (Channel E Q) (user A) (cmd A)) gs :
  (forall u g, at_rest u g -> f' g = f u) -> chan_safe c gs -> quiet c.1 = true ->
  (fun t => f (t_owns t)) <$> c.1 = f' <$> gs.
Proof.
  intros Hf Hs Hq. pose proof Hs as (_ & Hlen & _). apply list_eq_same_length with (n := length gs);
    [by rewrite length_fmap|by rewrite length_fmap|].
  intros i x y _ Hx Hy. apply list_lookup_fmap_Some in Hx as (t & -> & Ht). apply list_lookup_fmap_Some in Hy as (g & -> & Hg).
  destruct (rest_ok _ _ _ _ Hs Hq Ht) as (g' & Hg' & Hr). simplify_eq. symmetry. by apply Hf.
Qed.

(** C11: whatever the users of a channel send, receive, try, cancel, close, clone
    and drop, and however their steps interleave, no operation panics; and with
    none under way the channel has been one queue: there is an order of the values
    taken out which, followed by the queue, is what was sent, with each user's
    sends and receives in the order in which the user made them.  No value is
    lost, duplicated or made up. *)
Theorem channel_one_queue n q us sched :
  fair_deal q us ->
  let '(ts, c) := run (start_cmd n) sched (dealt q us) in
  forallb (fun t => negb (stopped t)) ts = true /\
  (quiet ts = true -> history ((fun t => u_sent (t_owns t)) <$> ts) ((fun t => u_got (t_owns t)) <$> ts) (contents (queue c))).
Proof.
  intros Hf. destruct (chan_run n q us sched Hf) as [gs Hs]. destruct (run _ _ _) as [ts c]. split.
  - apply forallb_lookup. intros i t Ht. destruct (safe_thread _ _ _ _ _ _ _ i t Hs Ht) as (_ & _ & _ & -> & _). done.
  - intros Hq. pose proof Hs as ((_ & _ & Hh & _) & _). cbn in Hh.
    pose proof (rest_fmap u_sent ins _ gs ltac:(by intros ? ? (? & _)) Hs Hq) as Hsent.
    pose proof (rest_fmap u_got outs _ gs ltac:(by intros ? ? (_ & ? & _)) Hs Hq) as Hgot.
    cbn [fst] in Hsent, Hgot. by rewrite Hsent, Hgot.
Qed.

(** What waits on one side is notified when there is something for it. *)
Lemma side_woken (cl : bool) avail (e : E) (xs : list dirg) :
  dir_inv cl avail e xs -> (forall i x, xs !! i = Some x -> dir_asleep x) ->
  cl = true \/ (0 < avail)%nat -> listeners e ≠ ∅ -> notified e ≠ ∅.
Proof.
  intros (Hh & _ & _ & Ha & Hc & _) Hrest Hav Hl Hn.
  assert (Hd : total d_duty xs = O) by (apply total_nil; intros i x Hi; by destruct (Hrest i x Hi) as (? & _)).
  assert (Hk : total d_closing xs = O) by (apply total_nil; intros i x Hi; by destruct (Hrest i x Hi) as (_ & ? & _)).
  apply set_choose_L in Hl as [l Hl]. destruct Hh as (Hh1 & _).
  apply Hh1 in Hl as [i Hi]. apply list_lookup_fmap_Some in Hi as (x & Hlx & Hx).
  destruct (Hrest i x Hx) as (_ & _ & [?|[Hn1 Ho1]]); [congruence|].
  assert (Hnone : ~ woken d_none e xs) by (intros Hw; pose proof (Hw i x l Hx ltac:(lia) (eq_sym Hlx)); set_solver).
  assert (Hopen : ~ woken d_open e xs) by (intros Hw; pose proof (Hw i x l Hx ltac:(lia) (eq_sym Hlx)); set_solver).
  rewrite Hn, size_empty in Ha. destruct cl; [destruct Hc as [?|[?|?]]; [done|lia|done]|].
  destruct Ha as [?|[?|?]]; [done|done|]. destruct Hav; [done|lia].
Qed.

(** The last one out closes the channel. *)
Lemma last_out_closes (c : config (Channel E Q) (user A) (cmd A)) gs :
  chan_safe c gs -> quiet c.1 = true ->
  (total (fun t => u_senders (t_owns t)) c.1 = O -> closed c.2 = true) /\
  (forallb idle c.1 = true -> total (fun t => u_receivers (t_owns t)) c.1 = O -> closed c.2 = true).
Proof.
  intros Hs Hq. pose proof Hs as ((_ & _ & _ & _ & _ & _ & _ & Hd) & _).
  assert (Hk : total dying gs = O).
  { apply total_nil. intros i g Hg. by destruct (rest_all _ _ _ _ Hs Hq Hg) as (t & _ & _ & _ & _ & _ & ? & _). }
  split.
  - intros Hz. destruct Hd as [?|?]; [|done|lia]. left. apply total_nil. intros i g Hg.
    destruct (rest_all _ _ _ _ Hs Hq Hg) as (t & Ht & _ & _ & -> & _).
    pose proof (total_lookup (fun t => u_senders (t_owns t)) _ _ _ Ht) as Hle. cbn in Hle. lia.
  - intros Hi Hz. destruct Hd as [?|?]; [|done|lia]. right. apply total_nil. intros i g Hg.
    destruct (rest_all _ _ _ _ Hs Hq Hg) as (t & Ht & _). pose proof (total_lookup (fun t => u_receivers (t_owns t)) _ _ _ Ht) as Hle.
    pose proof (proj1 (forallb_lookup _ _) Hi i t Ht) as Hit.
    destruct (safe_thread _ _ _ _ _ _ _ i t Hs Ht) as (g' & Hg' & Hb & _). simplify_eq. rewrite Hit in Hb. rewrite Hb. cbn in *. lia.
Qed.

(** C22: with no operation under way, the receivers that wait do so for a reason:
    when the queue holds a value or the channel is closed, a receiver that listens
    has been notified; and a sender that listens has been notified when the queue
    has room or the channel is closed.  A channel whose senders are all gone is
    closed, and so is one whose receivers are gone. *)
Theorem channel_wakes n q us sched :
  fair_deal q us ->
  let '(ts, c) := run (start_cmd n) sched (dealt q us) in
  quiet ts = true ->
  (closed c = true \/ contents (queue c) <> [] -> listeners (recv_ev c) ≠ ∅ -> notified (recv_ev c) ≠ ∅) /\
  (closed c = true \/ (exists k, room (queue c) = Some (S k)) -> listeners (send_ev c) ≠ ∅ -> notified (send_ev c) ≠ ∅) /\
  (total (fun t => u_senders (t_owns t)) ts = O -> closed c = true) /\
  (forallb idle ts = true -> total (fun t => u_receivers (t_owns t)) ts = O -> closed c = true).
Proof.
  intros Hf. destruct (chan_run n q us sched Hf) as [gs Hs]. destruct (run _ _ _) as [ts c]. intros Hq.
  pose proof Hs as ((Hrx & Htx & _) & _). cbn in Hrx, Htx.
  split; [intros Hav|split; [intros Hav|exact (last_out_closes _ _ Hs Hq)]].
  - eapply side_woken; [exact Hrx| |].
    + intros i x Hx. apply list_lookup_fmap_Some in Hx as (g & -> & Hg). by destruct (rest_all _ _ _ _ Hs Hq Hg) as (t & _ & _ & _ & _ & _ & _ & ? & _).
    + destruct Hav as [?|Hne]; [by left|right]. destruct (contents (queue c)); [done|cbn; lia].
  - eapply side_woken; [exact Htx| |].
    + intros i x Hx. apply list_lookup_fmap_Some in Hx as (g & -> & Hg). by destruct (rest_all _ _ _ _ Hs Hq Hg) as (t & _ & _ & _ & _ & _ & _ & _ & ?).
    + destruct Hav as [?|[k Hk]]; [by left|right]. unfold slots. rewrite Hk. cbn. lia.
Qed.
End ChannelRuns.

(** ** A bounded channel of one slot *)
Definition pair_users : list (share (A := nat)) :=
  [mk_share 1 0 0 [CSend 7%nat; CSend 8%nat; CDropSender]; mk_share 0 1 0 [CRecv; CRecv; CRecv]].
Notation pair_after sched :=
  (run (start_cmd 6) sched (dealt (E := fifo) (mk_array (@nil nat) 1) pair_users)).
(** One value is sent, the sender of the second one sleeps, the first is received. *)
Definition one_through : list (nat * Z) := steps_of 12 0 ++ steps_of 5 1.

Lemma pair_fair : fair_deal (mk_array (@nil nat) 1) pair_users.
Proof. repeat split; vm_compute; lia. Qed.
Lemma channel_one_queue_witness :
  history ((fun t => u_sent (t_owns t)) <$> (pair_after one_through).1) ((fun t => u_got (t_owns t)) <$> (pair_after one_through).1) [] /\
  (fun t => u_got (t_owns t)) <$> (pair_after one_through).1 = [[]; [7%nat]].
Proof.
  pose proof (channel_one_queue (E := fifo) 6 (mk_array [] 1) pair_users one_through pair_fair) as Ht.
  assert (Hq : (quiet (pair_after one_through).1, contents (queue (pair_after one_through).2)) = (true, [])) by (vm_compute; reflexivity).
  assert (Hg : (fun t => u_got (t_owns t)) <$> (pair_after one_through).1 = [[]; [7%nat]]) by (vm_compute; reflexivity).
  destruct (pair_after one_through) as [ts c]. cbn [fst snd] in *. injection Hq as Hq Hc. split; [|done].
  destruct Ht as [_ Ht]. specialize (Ht Hq). cbn [contents ArrayQueue_laws] in Ht. by rewrite Hc in Ht.
Defined.
Lemma channel_wakes_witness : notified (send_ev (pair_after one_through).2) ≠ ∅.
Proof.
  pose proof (channel_wakes (E := fifo) 6 (mk_array [] 1) pair_users one_through pair_fair) as Ht.
  assert (Hq : (quiet (pair_after one_through).1, room (queue (pair_after one_through).2)) = (true, Some 1%nat)) by (vm_compute; reflexivity).
  assert (Hl : bool_decide (listeners (send_ev (pair_after one_through).2) ≠ ∅) = true) by (vm_compute; reflexivity).
  destruct (pair_after one_through) as [ts c]. cbn [fst snd] in *. injection Hq as Hq Hr. apply bool_decide_eq_true in Hl.
  destruct (Ht Hq) as (_ & Hs & _). apply Hs; [right; exists O; cbn; by rewrite Hr|done].
Defined.
