(* ===== verification/Oneshot.v ===== *)
(** * ksync: one-shot channels

    mizu/lib/ksync/src/channel/oneshot.rs: a packet shared by a sender and a
    receiver, a state word beside an unguarded slot.  The waker slot is
    futures-util's [AtomicWaker]: [AtomicWaker] is what the code calls, [WakerLaws]
    its documented behaviour, and [waker_slot] a slot with it.  The packet is freed,
    and checked, when the second handle lets go of it. *)

From S2P Require Import Prelude Conc MutexSpec.

Class AtomicWaker (W : Type) := { waker_new : W; register : W -> W; wake : W -> W }.
(** A task is armed once it has registered, and fired when it is woken after that. *)
Class WakerLaws (W : Type) `{AtomicWaker W} := {
  armed : W -> bool;
  fired : W -> bool;
  register_law w : armed (register w) = true /\ fired (register w) = false;
  wake_armed w : armed w = true -> fired (wake w) = true;
  wake_unarmed w : armed w = false -> wake w = w;
}.

Record waker_slot := mk_slot { slot_armed : bool; slot_fired : bool }.
#[export] Instance slot_waker : AtomicWaker waker_slot := {|
  waker_new := mk_slot false false;
  register _ := mk_slot true false;
  wake w := if slot_armed w then mk_slot false true else w |}.
#[export, refine] Instance slot_laws : WakerLaws waker_slot := {| armed := slot_armed; fired := slot_fired |}.
Proof. all: try done; intros [[] f]; done. Defined.

Module Once.
Section Oneshot.
Context {W A : Type} `{AtomicWaker W}.

Definition EMPTY : Z := 0.
Definition DATA : Z := 1.
Definition DISCONNECTED : Z := 3.

(** [refs]: the count of the [Arsc] around the packet. *)
Record Packet := mk_packet { state : Z; waker : W; data : option A; refs : Z }.
Inductive Failure := Empty | Disconnected.

(** The packet of [oneshot()], which has both handles. *)
Definition new : Packet := mk_packet EMPTY waker_new None 2.

Definition state_cell : cell Packet := mk_cell state (fun z p => mk_packet z (waker p) (data p) (refs p)) 8.
Definition refs_cell : cell Packet := mk_cell refs (fun z p => mk_packet (state p) (waker p) (data p) z) 64.
Definition on_waker (f : W -> W) : prog Packet unit :=
  atomic (fun p => (tt, mk_packet (state p) (f (waker p)) (data p) (refs p))).
(** Accesses to the slot: looking, [ptr::write], [take]. *)
Definition data_is_none : prog Packet bool := atomic (fun p => (match data p with None => true | _ => false end, p)).
Definition data_write (t : A) : prog Packet unit :=
  atomic (fun p => (tt, mk_packet (state p) (waker p) (Some t) (refs p))).
Definition data_take : prog Packet (option A) :=
  atomic (fun p => (data p, mk_packet (state p) (waker p) None (refs p))).

Definition send (t : A) : prog Packet (res A unit) :=
  none ← data_is_none;
  if none : bool then
    _ ← data_write t;
    old ← swap state_cell DATA;
    if old =? EMPTY then _ ← on_waker wake; Ret (Ok tt)
    else if old =? DISCONNECTED then
      _ ← swap state_cell DISCONNECTED;
      d ← data_take;
      match d with Some t => Ret (Err t) | None => Stop end
    else Stop
  else Stop.

Definition try_recv : prog Packet (res Failure A) :=
  s ← load state_cell;
  if s =? EMPTY then Ret (Err Empty)
  else if s =? DATA then
    _ ← compare_exchange state_cell DATA EMPTY;
    d ← data_take;
    match d with Some data => Ret (Ok data) | None => Stop end
  else if s =? DISCONNECTED then
    d ← data_take;
    match d with Some data => Ret (Ok data) | None => Ret (Err Disconnected) end
  else Stop.

Definition drop_chan : prog Packet unit :=
  old ← swap state_cell DISCONNECTED;
  if (old =? DATA) || (old =? DISCONNECTED) || (old =? EMPTY) then Ret tt else on_waker wake.

Definition drop_port : prog Packet unit :=
  old ← swap state_cell DISCONNECTED;
  if (old =? DISCONNECTED) || (old =? EMPTY) then Ret tt
  else if old =? DATA then
    d ← data_take;
    match d with Some _ => Ret tt | None => Stop end
  else Stop.

(** The [Arsc] of a handle is dropped with it; the last one drops the packet. *)
Definition packet_drop : prog Packet unit := s ← load state_cell; if s =? DISCONNECTED then Ret tt else Stop.
Definition release : prog Packet unit :=
  old ← fetch_sub refs_cell 1; if old =? 1 then packet_drop else Ret tt.
Definition sender_drop : prog Packet unit := _ ← drop_chan; release.
Definition receiver_drop : prog Packet unit := _ ← drop_port; release.

(** [poll] of the receiver: two rounds of its loop at most. *)
Definition recv_ready : prog Packet (poll (res unit A)) :=
  r ← try_recv; Ret (Ready (match r with Ok a => Ok a | Err _ => Err tt | Panic => Panic end)).
Definition recv_poll : prog Packet (poll (res unit A)) :=
  s ← load state_cell;
  if negb (s =? EMPTY) then recv_ready
  else
    _ ← on_waker register;
    s ← load state_cell;
    if negb (s =? EMPTY) then recv_ready else Ret Pending.
(** [recv] borrows the receiver: when it is dropped nothing happens. *)
Definition recv (n : nat) : prog Packet (option (res unit A)) :=
  await (fun _ : unit => r ← recv_poll; Ret (r, tt)) (fun _ => Ret tt) n tt.

(** ** The two users: what was sent with success, what was received *)
Inductive hand :=
| Tx (used : bool) (sent : list A) | TxGone (sent : list A) | Rx (got : list A) | RxGone (got : list A).
Inductive cmd := CSend (a : A) | CRecv | CTryRecv | CDrop.

(** A sender is used once. *)
Definition start_cmd (n : nat) (c : cmd) (h : hand) : option (hand * prog Packet hand) :=
  match c, h with
  | CSend a, Tx false se => Some (Tx true se, r ← send a; Ret (Tx true (match r with Ok _ => a :: se | _ => se end)))
  | CRecv, Rx go => Some (h, r ← recv n; Ret (Rx (match r with Some (Ok a) => a :: go | _ => go end)))
  | CTryRecv, Rx go => Some (h, r ← try_recv; Ret (Rx (match r with Ok a => a :: go | _ => go end)))
  | CDrop, Tx _ se => Some (TxGone se, _ ← sender_drop; Ret (TxGone se))
  | CDrop, Rx go => Some (RxGone go, _ ← receiver_drop; Ret (RxGone go))
  | _, _ => None
  end.

Definition start (tx rx : list cmd) : config Packet hand cmd := (spawn_each [(Tx false [], tx); (Rx [], rx)], new).
End Oneshot.
Arguments Packet : clear implicits.
Arguments hand : clear implicits.
Arguments cmd : clear implicits.
End Once.

(** * ksync: a one-shot channel delivers once

    The sender and the receiver in any interleaving: nothing panics, the check when
    the packet is freed included; what is received is what was sent, at most once; a
    receiver that sleeps is woken by a send.  It is not woken by the loss of the
    sender ([oneshot_lost_wakeup]). *)
Import Once.

Section OneshotSpec.
Context {W A : Type} `{AtomicWaker W} `{WL : !WakerLaws W}.

(** How far the sender is: the value is in the slot, the state has been swapped
    back and forth with the receiver gone, the receiver is to be woken, ... *)
Inductive sphase :=
| SNew | SWrote (a : A) | SBack (a : A) | STake (a : A) | SFail | SWake (a : A) | SSent (a : A) | SGone (o : option A).
(** How far the receiver is: it saw [DATA] and is to take it, it saw that the
    sender is gone, it is to throw the value away, it is the last one out, ... *)
Inductive rphase :=
| ROpen (o : option A) | RSeen | RTake | RDisc (o : option A) | RDrop | RGone (o : option A) | RLast (o : option A).

Definition rel (s : sphase) (r : rphase) (st : Z) (d : option A) : Prop :=
  match s, r with
  | SNew, ROpen None => st = EMPTY /\ d = None
  | SNew, RGone None => st = DISCONNECTED /\ d = None
  | SWrote a, ROpen None => st = EMPTY /\ d = Some a
  | SWrote a, RGone None => st = DISCONNECTED /\ d = Some a
  | SBack a, RGone None => st = DATA /\ d = Some a
  | STake a, RGone None => st = DISCONNECTED /\ d = Some a
  | SFail, RGone None => st = DISCONNECTED /\ d = None
  | (SWake a | SSent a), (ROpen None | RSeen) => st = DATA /\ d = Some a
  | (SWake a | SSent a), RTake => st = EMPTY /\ d = Some a
  | (SWake a | SSent a), ROpen (Some b) => st = EMPTY /\ d = None /\ a = b
  | (SWake a | SSent a), RDrop => st = DISCONNECTED /\ d = Some a
  | (SWake a | SSent a), RGone None => st = DISCONNECTED /\ d = None
  | (SWake a | SSent a), RGone (Some b) => st = DISCONNECTED /\ d = None /\ a = b
  | SGone None, (ROpen None | RDisc None | RGone None | RLast None) => st = DISCONNECTED /\ d = None
  | SGone (Some a), (ROpen None | RSeen | RTake | RDrop | RDisc None) => st = DISCONNECTED /\ d = Some a
  | SGone (Some a), (ROpen (Some b) | RDisc (Some b) | RGone (Some b) | RLast (Some b)) => st = DISCONNECTED /\ d = None /\ a = b
  | SGone (Some a), (RGone None | RLast None) => st = DISCONNECTED /\ (d = None \/ d = Some a)
  | _, _ => False
  end.

Definition before (s : sphase) : Prop := match s with SSent _ | SGone (Some _) => False | _ => True end.
(** [w]: the receiver has registered ([1]), and has seen nothing after that ([2]). *)
Definition watch (s : sphase) (w : nat) (v : W) : Prop :=
  match w with
  | O => True
  | 1%nat => armed v = true \/ fired v = true
  | _ => fired v = true \/ armed v = true /\ before s
  end.
Definition s_gone (s : sphase) : Prop := match s with SGone _ => True | _ => False end.
Definition r_gone (r : rphase) : Prop := match r with RGone _ | RLast _ => True | _ => False end.

Inductive oneg := OS (s : sphase) (h : nat) | OR (r : rphase) (w : nat) (h : nat).
Definition ok (p : Packet W A) (s : sphase) (h : nat) (r : rphase) (w k : nat) : Prop :=
  rel s r (state p) (data p) /\ watch s w (waker p) /\ refs p = Z.of_nat (h + k) /\ (h <= 1 /\ k <= 1)%nat /\
  (h = O -> s_gone s) /\ (k = O -> r_gone r).
Definition one_inv (p : Packet W A) (gs : list oneg) : Prop :=
  exists s h r w k, gs = [OS s h; OR r w k] /\ ok p s h r w k.

Definition one_asleep (l : hand A) (g : oneg) : Prop :=
  match l with
  | Rx [] => g = OR (ROpen None) 2 1
  | Rx [a] => exists w, g = OR (ROpen (Some a)) w 1
  | _ => False
  end.
Definition one_idle (l : hand A) (g : oneg) : Prop :=
  match l with
  | Tx false [] => g = OS SNew 1
  | Tx true [] => g = OS SFail 1
  | Tx true [a] => g = OS (SSent a) 1
  | TxGone [] => g = OS (SGone None) 0
  | TxGone [a] => g = OS (SGone (Some a)) 0
  | Rx [] => exists w, g = OR (ROpen None) w 1
  | Rx [a] => exists w, g = OR (ROpen (Some a)) w 1
  | RxGone [] => exists w, g = OR (RGone None) w 0
  | RxGone [a] => exists w, g = OR (RGone (Some a)) w 0
  | _ => False
  end.

Section Steps.
Variables (i : nat) (l : hand A).
Notation wp := (wp one_inv (one_asleep l) i (fun _ => True)).

Lemma wp_tx {B} (f : Packet W A -> B * Packet W A) (Q : B -> oneg -> Prop) s h :
  (forall p r w k, ok p s h r w k -> exists s' h', ok (f p).2 s' h' r w k /\ Q (f p).1 (OS s' h')) ->
  wp (atomic f) Q (OS s h).
Proof.
  intros Hf. apply wp_atomic; [done|]. intros p gs Hi (s0 & h0 & r & w & k & -> & Hok).
  destruct i as [|[|j]]; cbn in Hi; simplify_eq. destruct (Hf p r w k Hok) as (s' & h' & Hok' & HQ).
  exists (OS s' h'). split; [|done]. by exists s', h', r, w, k.
Qed.
Lemma wp_rx {B} (f : Packet W A -> B * Packet W A) (Q : B -> oneg -> Prop) r w k :
  (forall p s h, ok p s h r w k -> exists r' w' k', ok (f p).2 s h r' w' k' /\ Q (f p).1 (OR r' w' k')) ->
  wp (atomic f) Q (OR r w k).
Proof.
  intros Hf. apply wp_atomic; [done|]. intros p gs Hi (s & h & r0 & w0 & k0 & -> & Hok).
  destruct i as [|[|j]]; cbn in Hi; simplify_eq. destruct (Hf p s h Hok) as (r' & w' & k' & Hok' & HQ).
  exists (OR r' w' k'). split; [|done]. by exists s, h, r', w', k'.
Qed.

Ltac pk := cbn [state waker data refs c_get c_put c_width state_cell refs_cell fst snd] in *.
Ltac fresh_step :=
  repeat match goal with
  | x : Z |- _ => clear dependent x
  | x : nat |- _ => clear dependent x
  | x : W |- _ => clear dependent x
  | x : option A |- _ => clear dependent x
  | x : rphase |- _ => clear dependent x
  | x : sphase |- _ => clear dependent x
  | x : _ -> s_gone _ |- _ => clear x
  | x : _ -> r_gone _ |- _ => clear x
  | x : (_ <= _)%nat /\ _ |- _ => clear x
  | x : rel _ _ _ _ |- _ => clear x
  end.
Ltac tx := fresh_step; apply wp_tx; intros [st v d n] r w k (Hrel & Hw & Hn & Hb & Hh & Hk); pk.
Ltac rx := fresh_step; apply wp_rx; intros [st v d n] s h (Hrel & Hw & Hn & Hb & Hh & Hk); pk.
(** The cases of the other side that the relation allows. *)
Ltac phases x := destruct x as [[]| | |[]| |[]|[]]; cbn [rel] in *; try done; destruct_and?; try subst.
Ltac senders x := destruct x as [| | | | | | |[]]; cbn [rel] in *; try done; destruct_and?; try subst.
Ltac keep := split; [split_and!; pk; cbn [rel watch before s_gone r_gone] in *; try done; try lia; try tauto|].

Lemma watch_weak s s' w v : (before s -> before s') -> watch s w v -> watch s' w v.
Proof. destruct w as [|[|w]]; cbn; tauto. Qed.
Lemma watch_wake s s' w v : watch s w v -> watch s' w (wake v).
Proof.
  destruct (armed v) eqn:Ea.
  - pose proof (wake_armed v Ea). destruct w as [|[|w]]; cbn; tauto.
  - rewrite (wake_unarmed v Ea). destruct w as [|[|w]]; cbn; [tauto|tauto|]. rewrite Ea. intros [?|[? _]]; [tauto|done].
Qed.
(** The branch taken. *)
Ltac ev := pk; cbn [Z.eqb Pos.eqb EMPTY DATA DISCONNECTED orb negb].

Lemma send_ok a (Q : res A unit -> oneg -> Prop) :
  Q (Ok tt) (OS (SSent a) 1) -> (forall b, Q (Err b) (OS SFail 1)) -> wp (send a) Q (OS SNew 1).
Proof.
  intros Hok Herr. apply wp_bind. tx. assert (d = None) as -> by (by phases r).
  exists SNew, 1%nat. split; [split_and!; try done; lia|]. ev.
  apply wp_bind. tx. exists (SWrote a), 1%nat. split.
  { phases r; split_and!; pk; cbn; try done; try lia; by eapply watch_weak. }
  apply wp_bind. tx. phases r.
  - exists (SWake a), 1%nat. keep. ev. apply wp_bind. tx. exists (SSent a), 1%nat. split.
    { phases r; split_and!; pk; cbn; try done; try lia; by eapply watch_wake. }
    by apply wp_ret.
  - exists (SBack a), 1%nat. keep.
    ev. apply wp_bind. tx. phases r. exists (STake a), 1%nat. keep.
    apply wp_bind. tx. phases r. exists SFail, 1%nat. keep.
    by apply wp_ret.
Qed.

Lemma tx_release_ok o (Q : unit -> oneg -> Prop) : Q tt (OS (SGone o) 0) -> wp release Q (OS (SGone o) 1).
Proof.
  intros HQ. apply wp_bind. tx. exists (SGone o), 0%nat. keep.
  { subst n. rewrite wsub_small; [lia|unfold fits; lia]. }
  destruct (n =? 1); [|by apply wp_ret].
  apply wp_bind. tx. exists (SGone o), 0%nat. keep.
  destruct (st =? DISCONNECTED) eqn:E; [by apply wp_ret|]. exfalso. destruct o; phases r; try done; destruct H1; subst; done.
Qed.
Lemma sender_drop_ok s o (Q : unit -> oneg -> Prop) :
  match s with SNew | SFail => o = None | SSent a => o = Some a | _ => False end ->
  Q tt (OS (SGone o) 0) -> wp sender_drop Q (OS s 1).
Proof.
  intros Hs HQ. apply wp_bind, wp_bind, wp_tx. intros [st v d n] r w k (Hrel & Hw & Hn & Hb & Hh & Hk); pk.
  assert (Hst : ((st =? DATA) || (st =? DISCONNECTED) || (st =? EMPTY)) = true)
    by (destruct s; try done; by phases r).
  exists (SGone o), 1%nat. split; [|rewrite Hst; by apply wp_ret, tx_release_ok].
  split_and!; pk; try done; try lia.
  - destruct s; try done; subst o; phases r; split_and!; auto.
  - eapply watch_weak; [|exact Hw]. destruct s; try done; by subst o.
Qed.

Lemma rx_release_ok o w0 (Q : unit -> oneg -> Prop) :
  Q tt (OR (RGone o) w0 0) -> wp release Q (OR (RGone o) w0 1).
Proof.
  intros HQ. apply wp_bind, wp_rx. intros [st v d n] s h (Hrel & Hw & Hn & Hb & Hh & Hk); pk. subst n.
  assert (Hr : wsub 64 (Z.of_nat (h + 1)) 1 = Z.of_nat (h + 0)) by (rewrite wsub_small; [lia|unfold fits; lia]).
  destruct h as [|h].
  - specialize (Hh eq_refl). exists (RLast o), w0, 0%nat. split.
    { split_and!; pk; try done; try lia. destruct o; by senders s. }
    ev. apply wp_bind. rx. exists (RGone o), w0, 0%nat. split.
    { split_and!; pk; try done; try lia. destruct o; by senders s. }
    destruct (st =? DISCONNECTED) eqn:E; [by apply wp_ret|]. exfalso. destruct o; senders s; done.
  - exists (RGone o), w0, 0%nat. keep. destruct h; [|lia]. ev. by apply wp_ret.
Qed.
Lemma receiver_drop_ok o w0 (Q : unit -> oneg -> Prop) :
  Q tt (OR (RGone o) w0 0) -> wp receiver_drop Q (OR (ROpen o) w0 1).
Proof.
  intros HQ. apply wp_bind, wp_bind, wp_rx. intros [st v d n] s h (Hrel & Hw & Hn & Hb & Hh & Hk); pk.
  destruct (st =? DATA) eqn:E.
  - apply Z.eqb_eq in E. subst st. exists RDrop, w0, 1%nat. split.
    { split_and!; pk; try done; try lia. destruct o; by senders s. }
    assert (o = None) as -> by (destruct o; [by senders s|done]). ev.
    apply wp_bind. rx. exists (RGone None), w0, 1%nat. split.
    { split_and!; pk; try done; try lia. senders s; auto. }
    destruct d; [|by senders s]. by apply wp_ret, rx_release_ok.
  - exists (RGone o), w0, 1%nat. split.
    { split_and!; pk; try done; try lia. destruct o; senders s; try done; auto. }
    assert (Hst : ((st =? DISCONNECTED) || (st =? EMPTY)) = true) by (destruct o; by senders s).
    rewrite Hst. by apply wp_ret, rx_release_ok.
Qed.

Lemma once_try_recv_ok o w0 (Q : res Failure A -> oneg -> Prop) :
  (forall f, Q (Err f) (OR (ROpen o) w0 1)) -> (forall a, o = None -> Q (Ok a) (OR (ROpen (Some a)) w0 1)) ->
  wp try_recv Q (OR (ROpen o) w0 1).
Proof.
  intros Herr Hok. apply wp_bind, wp_rx. intros [st v d n] s h (Hrel & Hw & Hn & Hb & Hh & Hk); pk.
  destruct (st =? EMPTY) eqn:E0.
  { exists (ROpen o), w0, 1%nat. keep. by apply wp_ret. }
  destruct (st =? DATA) eqn:E1.
  - apply Z.eqb_eq in E1. subst st. assert (o = None) as -> by (destruct o; [by senders s|done]).
    exists RSeen, w0, 1%nat. split; [split_and!; pk; try done; try lia; by senders s|].
    apply wp_bind. rx. exists RTake, w0, 1%nat.
    split; [destruct (st =? DATA) eqn:E; split_and!; pk; try done; try lia; senders s; done|].
    apply wp_bind. rx. destruct d as [a|]; [|by senders s].
    exists (ROpen (Some a)), w0, 1%nat. split; [split_and!; pk; try done; try lia; by senders s; simplify_eq|].
    apply wp_ret; auto.
  - exists (RDisc o), w0, 1%nat. split; [split_and!; pk; try done; try lia; destruct o; by senders s|].
    assert (st = DISCONNECTED) as -> by (destruct o; by senders s). ev.
    apply wp_bind. rx. destruct d as [a|].
    + assert (o = None) as -> by (destruct o; [by senders s|done]).
      exists (ROpen (Some a)), w0, 1%nat. split; [split_and!; pk; try done; try lia; by senders s; simplify_eq|].
      apply wp_ret; auto.
    + exists (ROpen o), w0, 1%nat. split; [split_and!; pk; try done; try lia; destruct o; by senders s|]. by apply wp_ret.
Qed.

(** What a receive leaves: the future sleeps, or has a result. *)
Definition polled (o : option A) (r : poll (res unit A)) (g : oneg) : Prop :=
  match r with
  | Pending => exists w, g = OR (ROpen o) w 1 /\ (o = None -> w = 2%nat)
  | Ready (Ok a) => o = None /\ exists w, g = OR (ROpen (Some a)) w 1
  | Ready _ => exists w, g = OR (ROpen o) w 1
  end.
Lemma recv_ready_ok o w0 : wp recv_ready (polled o) (OR (ROpen o) w0 1).
Proof. apply wp_bind, once_try_recv_ok; intros; apply wp_ret; cbn; eauto. Qed.
Lemma once_poll_ok o w0 : wp recv_poll (polled o) (OR (ROpen o) w0 1).
Proof.
  apply wp_bind, wp_rx. intros [st v d n] s h (Hrel & Hw & Hn & Hb & Hh & Hk); pk.
  exists (ROpen o), w0, 1%nat. keep. destruct (st =? EMPTY); cbn [negb]; [|apply recv_ready_ok].
  apply wp_bind. rx. exists (ROpen o), 1%nat, 1%nat. keep. { left. apply register_law. }
  apply wp_bind. rx. destruct (st =? EMPTY) eqn:E; cbn [negb].
  - apply Z.eqb_eq in E. subst st. exists (ROpen o), (match o with None => 2 | _ => 1 end)%nat, 1%nat. split.
    { split_and!; pk; try done; try lia. destruct o; [done|]. senders s; try done; cbn in *; tauto. }
    apply wp_ret; [done|]. cbn. eexists. split; [done|]. by intros ->.
  - exists (ROpen o), 1%nat, 1%nat. keep. apply recv_ready_ok.
Qed.
End Steps.

Lemma once_recv_ok n i go o w0 :
  go = option_list o ->
  wp one_inv (one_asleep (Rx go)) i (fun _ => True) (recv n) (fun r g =>
    match r with Some (Ok a) => o = None /\ exists w, g = OR (ROpen (Some a)) w 1 | _ => exists w, g = OR (ROpen o) w 1 end)
    (OR (ROpen o) w0 1).
Proof.
  intros ->. eapply wp_await with (I := fun _ g => exists w, g = OR (ROpen o) w 1) (R := fun _ r => polled o (Ready r)); [| | |done|eauto].
  - intros [] g _ [w ->]. apply wp_bind. eapply wp_mono; [|apply once_poll_ok].
    intros r g _ Hp. apply wp_ret; [done|]. destruct r as [r|]; [done|]. destruct Hp as (w' & -> & Hw').
    split; [eauto|]. destruct o as [b|]; cbn; [eauto|by rewrite Hw'].
  - intros [] r g _ Hp. by apply wp_ret.
  - intros [] g _ Hp. by apply wp_ret.
Qed.

Lemma one_start_ok n i c l g l' p :
  start_cmd n c l = Some (l', p) -> one_idle l g ->
  wp one_inv (one_asleep l') i (fun _ => True) p one_idle g.
Proof.
  intros Hc Hi. destruct c, l as [[] se|se|go|go]; cbn [start_cmd] in Hc; simplify_eq.
  - destruct se; [|done]. rewrite Hi. apply wp_bind, send_ok; intros; by apply wp_ret.
  - destruct go as [|a [|]]; [..|done]; destruct Hi as [w ->]; apply wp_bind.
    + eapply wp_mono; [|by apply once_recv_ok with (o := None)]. intros [[a|[]|]|] g _ Hp; apply wp_ret; cbn in *; try done. by destruct Hp.
    + eapply wp_mono; [|by apply once_recv_ok with (o := Some a)]. intros [[b|[]|]|] g _ Hp; apply wp_ret; cbn in *; try done. by destruct Hp.
  - destruct go as [|a [|]]; [..|done]; destruct Hi as [w ->]; apply wp_bind, once_try_recv_ok; intros; apply wp_ret; cbn; eauto; done.
  - destruct se as [|a [|]]; [..|done]; cbn in Hi; try done; subst g; apply wp_bind; (eapply sender_drop_ok; [done|by apply wp_ret]).
  - destruct se as [|a [|]]; [..|done]; cbn in Hi; try done; subst g; apply wp_bind; (eapply sender_drop_ok; [done|by apply wp_ret]).
  - destruct go as [|a [|]]; [..|done]; destruct Hi as [w ->]; apply wp_bind, receiver_drop_ok; apply wp_ret; cbn; eauto.
Qed.

Definition vals (h : hand A) : list A := match h with Tx _ v | TxGone v | Rx v | RxGone v => v end.

Notation one_safe := (safe one_inv (fun _ => True) one_idle (fun _ _ => True) one_asleep).
Lemma one_run n tx rx sched :
  exists gs, one_safe (run (start_cmd n) sched (start tx rx)) gs.
Proof.
  apply run_safe with (gs := [OS SNew 1; OR (ROpen None) 0 1]); [intros * _; apply one_start_ok|].
  split; [|split]; [|done|].
  - exists SNew, 1%nat, (ROpen None), 0%nat, 1%nat. split; [reflexivity|]. split_and!; cbn; try done; lia.
  - intros i t g Ht Hg. destruct i as [|[|i]]; cbn in Ht, Hg; simplify_eq; (split; [by apply Forall_true|]); cbn; eauto.
Qed.

(** What a quiet configuration is: the phases are those of the hands. *)
Lemma one_quiet (c : config (Packet W A) (hand A) (cmd A)) gs :
  one_safe c gs -> quiet c.1 = true ->
  exists t r s h f w k, c.1 = [t; r] /\ ok c.2 s h f w k /\ one_idle (t_owns t) (OS s h) /\
    one_idle (t_owns r) (OR f w k) /\ (sleeping r = true -> match t_owns r with Rx [] => w = 2%nat | Rx _ => True | _ => False end).
Proof.
  intros Hs Hq. pose proof Hs as ((s & h & f & w & k & -> & Hok) & Hlen & _).
  destruct c as [[|t [|r []]] p]; cbn in Hlen; try done. cbn [fst snd] in *.
  assert (Ht := safe_thread _ _ _ _ _ _ _ O t Hs eq_refl). assert (Hr := safe_thread _ _ _ _ _ _ _ 1%nat r Hs eq_refl).
  destruct Ht as (g0 & Hg0 & Ht & _ & Hta), Hr as (g1 & Hg1 & Hr & _ & Hra). cbn in Hg0, Hg1. simplify_eq.
  cbn in Hq. apply andb_true_iff in Hq as [Hqt Hq]. apply andb_true_iff in Hq as [Hqr _].
  exists t, r, s, h, f, w, k. split; [done|]. split; [done|]. split; [|split].
  - destruct (idle t); [done|]. cbn in Hqt. specialize (Hta Hqt). destruct (t_owns t) as [|?|[|? []]|?]; cbn in Hta; try done.
  - destruct (idle r); [done|]. cbn in Hqr. specialize (Hra Hqr). destruct (t_owns r) as [|?|[|? []]|?]; cbn in *; try done. eauto.
  - intros Hsl. specialize (Hra Hsl). destruct (t_owns r) as [|?|[|? []]|?]; cbn in Hra; by simplify_eq.
Qed.

(** Whatever the sender of a one-shot channel and its receiver do, and however
    their steps interleave, nothing panics, the check of the freed packet
    included.  With no operation under way, what was received is nothing or what
    was sent; a value sent is received, still in the packet, or the receiver is
    gone; and a receiver that sleeps after a send has been woken. *)
Theorem oneshot_once n tx rx sched :
  let '(ts, p) := run (start_cmd n) sched (start tx rx) in
  forallb (fun t => negb (stopped t)) ts = true /\
  (quiet ts = true -> exists t r, ts = [t; r] /\
    let sent := vals (t_owns t) in let got := vals (t_owns r) in
    (length sent <= 1)%nat /\ (got = [] \/ got = sent) /\ (data p = None \/ data p = hd_error sent) /\
    (sent <> [] -> got = sent \/ data p = hd_error sent \/ t_owns r = RxGone []) /\
    (sent <> [] -> got = [] -> sleeping r = true -> fired (waker p) = true)).
Proof.
  destruct (one_run n tx rx sched) as [gs Hs]. destruct (run _ _ _) as [ts p]. split.
  { apply forallb_lookup. intros i t Ht. destruct (safe_thread _ _ _ _ _ _ _ i t Hs Ht) as (_ & _ & _ & -> & _). done. }
  intros Hq. destruct (one_quiet _ _ Hs Hq) as (t & r & s & h & f & w & k & Hts & (Hrel & Hw & _) & Ht & Hr & Hsl).
  cbn [fst snd] in *. exists t, r. split; [done|].
  destruct (t_owns t) as [[] [|a []]|[|a []]|[|a []]|[|a []]]; cbn in Ht; simplify_eq; try done; try (by destruct Ht);
  destruct (t_owns r) as [[] [|b []]|[|b []]|[|b []]|[|b []]]; cbn in Hr; try done; destruct Hr as [w' Hr]; simplify_eq; cbn in Hrel, Hw |- *;
  destruct_and?; simplify_eq; split_and!; try done; try lia; auto; try tauto;
  intros _ _ Hsl'; specialize (Hsl Hsl'); try done; subst; cbn in Hw; tauto.
Qed.
End OneshotSpec.

(** ** A value and a wake-up, and a wake-up that is lost *)
Notation once_after tx rx sched := (run (start_cmd 4) sched (start (W := waker_slot) (A := nat) tx rx)).
(** The receiver sleeps; the value is sent. *)
Example oneshot_woken :
  let '(ts, p) := once_after [CSend 7%nat; CDrop] [CRecv] (steps_of 4 1 ++ steps_of 6 0) in
  map sleeping ts = [false; true] /\ map (fun t => vals (t_owns t)) ts = [[7%nat]; []] /\ fired (waker p) = true.
Proof. vm_compute. repeat split. Qed.
(** The receiver sleeps; the sender is dropped without a value.  The receiver is
    not woken, although nothing can come any more and a poll would say so. *)
Example oneshot_lost_wakeup :
  let '(ts, p) := once_after [CDrop] [CRecv] (steps_of 4 1 ++ steps_of 6 0) in
  map sleeping ts = [false; true] /\ map t_owns ts = [TxGone []; Rx []] /\ quiet ts = true /\
  state p = DISCONNECTED /\ fired (waker p) = false.
Proof. vm_compute. repeat split. Qed.
