(* ===== verification/Broadcast.v ===== *)
(** * ksync: broadcasts

    mizu/lib/ksync/src/channel/broadcast.rs: a list of senders under a spin lock,
    to each of which [send] gives a copy of a value.  The memory holds the channels
    beside the list; a sender is the number of its channel.  A closure under the
    lock, with interrupts masked, is one step. *)

From S2P Require Import Prelude Conc Event Mutex MutexSpec Channel.

Import Mpmc.

Module Bcast.
Section Broadcast.
Context {E A Q : Type} `{Event E} `{Flavor A Q}.

Record Broadcast := mk_bcast { senders : list nat; completed : bool; chans : list (Channel E Q) }.

(** A program on one channel; [c0] stands for a channel that is not there. *)
Variable c0 : Channel E Q.
Definition chan_of (k : nat) (b : Broadcast) : Channel E Q := default c0 (chans b !! k).
Definition set_chan (k : nat) (c : Channel E Q) (b : Broadcast) : Broadcast :=
  mk_bcast (senders b) (completed b) (<[k := c]> (chans b)).
Definition on_chan {B} (k : nat) (p : prog (Channel E Q) B) : prog Broadcast B := zoom (chan_of k) (set_chan k) p.

Definition critical {B} (p : prog Broadcast B) : prog Broadcast B :=
  r ← atomic (fun b => match solo 1 p b with Some (a, b') => (Some a, b') | None => (None, b) end);
  match r with Some a => Ret a | None => Stop end.

(** [Vec<Sender>::clone] and the drop of one. *)
Fixpoint clone_all (ks : list nat) : prog Broadcast unit :=
  match ks with [] => Ret tt | k :: ks => _ ← on_chan k clone_sender; clone_all ks end.
Fixpoint drop_all (ks : list nat) : prog Broadcast unit :=
  match ks with [] => Ret tt | k :: ks => _ ← on_chan k drop_sender; drop_all ks end.

Definition get_senders : prog Broadcast (list nat) := atomic (fun b => (senders b, b)).
Definition put_senders (ks : list nat) : prog Broadcast (list nat) :=
  atomic (fun b => (senders b, mk_bcast ks (completed b) (chans b))).

Definition subscribe (sender : nat) : prog Broadcast unit :=
  critical (ks ← get_senders; _ ← put_senders (ks ++ [sender]); Ret tt).
Definition close : prog Broadcast unit := atomic (fun b => (tt, mk_bcast (senders b) true (chans b))).
Definition is_closed : prog Broadcast bool := atomic (fun b => (completed b, b)).

(** [Vec::swap_remove]: what is removed, and the rest. *)
Definition swap_remove (pos : nat) (ks : list nat) : option (nat * list nat) :=
  k ← ks !! pos; z ← last ks; Some (k, take (length ks - 1) (<[pos := z]> ks)).

(** One round of the loop of [send].  Dropped while it waits for room in a channel,
    the future drops its copies of the senders: [None]. *)
Definition send_round (n pos : nat) (data : A) (ks : list nat) : prog Broadcast (option (list nat)) :=
  match ks !! pos with
  | None => Stop
  | Some sender =>
      r ← on_chan sender (await (send_poll n) send_drop n (mk_send (Some data) None));
      match r with
      | None => _ ← drop_all ks; Ret None
      | Some (Err _) =>
          match swap_remove pos ks with
          | Some (k, ks) => _ ← on_chan k drop_sender; Ret (Some ks)
          | None => Stop
          end
      | Some _ => Ret (Some ks)
      end
  end.
Fixpoint send_loop (n pos : nat) (data : A) (ks : list nat) : prog Broadcast unit :=
  r ← send_round n pos data ks;
  match r with
  | None => Ret tt
  | Some ks =>
      match pos with
      | O => critical (old ← put_senders ks; drop_all old)
      | S pos => send_loop n pos data ks
      end
  end.
Definition send (n : nat) (data : A) : prog Broadcast unit :=
  c ← is_closed;
  if c : bool then Ret tt
  else
    ks ← critical (ks ← get_senders; _ ← clone_all ks; Ret ks);
    match ks with [] => Ret tt | _ => send_loop n (length ks - 1) data ks end.
End Broadcast.
Arguments Broadcast : clear implicits.
End Bcast.

(** * ksync: what a broadcast reaches

    Run alone over channels that are never full, [send] gives the value to every
    subscriber whose channel is open, once, and forgets the others.  With another
    task between its steps it forgets subscriptions ([subscription_lost]). *)
Import Mpmc Bcast.

Lemma solo_bind {S A B} inp (p : prog S A) (f : A -> prog S B) s :
  solo inp (p ≫= f) s = match solo inp p s with Some (a, s') => solo inp (f a) s' | None => None end.
Proof.
  revert s. induction p as [a| | |C h k IH|k IH|k IH]; intros s; try done.
  - cbn. destruct (h s) as [b s']. apply IH.
  - cbn. apply IH.
Qed.

Section BroadcastSpec.
Context {E A : Type} `{Ev : Event E}.
Notation Q := (SegQueue A).
Variable c0 : Channel E Q.
Notation chan_of := (chan_of c0).
Notation on_chan := (on_chan c0).

Lemma solo_on_chan {B} inp k (p : prog (Channel E Q) B) (b : Broadcast E Q) :
  (k < length (chans b))%nat ->
  solo inp (on_chan k p) b =
    match solo inp p (chan_of k b) with Some (a, c) => Some (a, set_chan k c b) | None => None end.
Proof.
  unfold on_chan. revert b. induction p as [a| | |C h f IH|f IH|f IH]; intros b Hk; try done.
  - cbn. unfold chan_of, set_chan. destruct b as [ks cm cs]. cbn in *.
    destruct (lookup_lt_is_Some_2 cs k Hk) as [c Hc]. rewrite Hc. cbn. by rewrite list_insert_id.
  - cbn. destruct (h (chan_of k b)) as [a c]. rewrite IH.
    + assert (Hs : chan_of k (set_chan k c b) = c).
      { unfold chan_of, set_chan. cbn. by rewrite list_lookup_insert_eq. }
      rewrite Hs. destruct (solo inp (f a) c) as [[x c']|]; [|done]. unfold set_chan. cbn. by rewrite list_insert_insert_eq.
    + unfold set_chan. cbn. by rewrite length_insert.
  - cbn. by apply IH.
Qed.

(** ** What is seen of a channel: its queue, whether it is closed, its senders *)
Definition obs : Type := list A * bool * Z.
Definition view (c : Channel E Q) : obs := (seg (queue c), closed c, sender c).
Definition more (o : obs) : obs := (o.1.1, o.1.2, o.2 + 1).
Definition less (o : obs) : obs := (o.1.1, o.1.2, o.2 - 1).
Definition fed (a : A) (o : obs) : obs := (o.1.1 ++ [a], o.1.2, o.2).
Definition cloneable (o : obs) : Prop := 0 <= o.2 <= usize_MAX / 2.
Definition droppable (o : obs) : Prop := (1 < o.2 \/ o.2 = 1 /\ o.1.2 = true) /\ o.2 < 2 ^ 64.

Lemma clone_one inp c : cloneable (view c) -> exists c', solo inp clone_sender c = Some (tt, c') /\ view c' = more (view c).
Proof.
  unfold cloneable, view, more. cbn [fst snd]. intros Hc. eexists.
  assert (Hm : usize_MAX / 2 = 2 ^ 63 - 1) by reflexivity. rewrite Hm in Hc.
  unfold clone_sender. rewrite solo_bind, Hm. cbn [fetch_add update atomic solo c_get c_put c_width sender_cell].
  rewrite (proj2 (Z.ltb_ge _ _)) by lia. split; [done|]. cbn [queue closed sender].
  rewrite wadd_small; [done|unfold fits; lia].
Qed.
Lemma drop_one inp c : droppable (view c) -> exists c', solo inp drop_sender c = Some (tt, c') /\ view c' = less (view c).
Proof.
  intros [Hc Hm]. unfold view in Hc, Hm. cbn in Hc, Hm.
  assert (Hw : wsub 64 (sender c) 1 = sender c - 1) by (apply wsub_small; unfold fits; lia).
  unfold drop_sender, fetch_sub, update. cbn. rewrite Hw. destruct (Z.eqb_spec (sender c) 1).
  - destruct Hc as [?|[_ Hcl]]; [lia|]. cbn. rewrite Hcl. cbn. eexists. split; [done|]. unfold view, less. cbn. by rewrite Hcl.
  - eexists. split; [done|]. done.
Qed.
Lemma send_one inp n a c :
  exists r c', solo inp (await (send_poll (S n)) send_drop (S n) (mk_send (Some a) None)) c = Some (Some r, c') /\
    if closed c then r = Err a /\ c' = c else r = Ok tt /\ view c' = fed a (view c).
Proof.
  cbn [await send_poll s_data s_listener]. rewrite !solo_bind. unfold try_send. cbn [mbind prog_mbind prog_bind is_closed Mpmc.is_closed atomic solo].
  destruct (closed c) eqn:Ec; cbn; rewrite ?Ec; cbn; eexists _, _; (split; [done|]); (split; [done|]);
    unfold view, fed; cbn; by rewrite ?Ec.
Qed.

(** ** The same on the memory *)
Definition at_chan (k : nat) (b : Broadcast E Q) : obs := view (chan_of k b).
(** [b'] is [b] but for what is seen of the channels, which is [f]. *)
Definition seen_as (b b' : Broadcast E Q) (f : nat -> obs) : Prop :=
  senders b' = senders b /\ completed b' = completed b /\ length (chans b') = length (chans b) /\ forall k, at_chan k b' = f k.

Lemma seen_one k c b :
  (k < length (chans b))%nat -> seen_as b (set_chan k c b) (fun j => if decide (j = k) then view c else at_chan j b).
Proof.
  intros Hk. split_and!; [done|done|cbn; by rewrite length_insert|]. intros j. unfold at_chan, chan_of, set_chan. cbn.
  destruct (decide (j = k)) as [->|Hne]; [by rewrite list_lookup_insert_eq|by rewrite list_lookup_insert_ne].
Qed.

Section Each.
Variables (op : prog (Channel E Q) unit) (may : obs -> Prop) (eff : obs -> obs) (all : list nat -> prog (Broadcast E Q) unit) (inp : Z).
Hypothesis op_ok : forall c, may (view c) -> exists c', solo inp op c = Some (tt, c') /\ view c' = eff (view c).
Hypothesis all_nil : all [] = Ret tt.
Hypothesis all_cons : forall k ks, all (k :: ks) = (_ ← on_chan k op; all ks).

Lemma op_at k b :
  (k < length (chans b))%nat -> may (at_chan k b) ->
  exists b', solo inp (on_chan k op) b = Some (tt, b') /\ seen_as b b' (fun j => if decide (j = k) then eff (at_chan j b) else at_chan j b).
Proof.
  intros Hk Hm. destruct (op_ok _ Hm) as (c' & Hs & Hv). exists (set_chan k c' b).
  rewrite solo_on_chan by done. rewrite Hs. split; [done|].
  destruct (seen_one k c' b Hk) as (? & ? & ? & Hf). split_and!; try done. intros j. rewrite Hf.
  destruct (decide (j = k)) as [->|]; [by rewrite Hv|done].
Qed.
Lemma each_ok ks b :
  NoDup ks -> (forall k, k ∈ ks -> (k < length (chans b))%nat /\ may (at_chan k b)) ->
  exists b', solo inp (all ks) b = Some (tt, b') /\
    seen_as b b' (fun j => if decide (j ∈ ks) then eff (at_chan j b) else at_chan j b).
Proof.
  revert b. induction ks as [|k ks IH]; intros b Hnd Hall.
  - rewrite all_nil. exists b. split; [done|]. split_and!; try done.
  - apply NoDup_cons in Hnd as [Hni Hnd]. rewrite all_cons, solo_bind.
    destruct (Hall k (list_elem_of_here k ks)) as [Hk Hm]. destruct (op_at k b Hk Hm) as (b1 & -> & Hs1 & Hc1 & Hl1 & Hf1).
    destruct (IH b1 Hnd) as (b2 & -> & Hs2 & Hc2 & Hl2 & Hf2).
    { intros j Hj. destruct (Hall j (list_elem_of_further _ _ _ Hj)) as [Hj1 Hj2]. rewrite Hl1, Hf1.
      destruct (decide (j = k)) as [->|]; done. }
    exists b2. split; [done|]. split_and!; [congruence|congruence|congruence|]. intros j. rewrite Hf2, !Hf1.
    destruct (decide (j ∈ ks)), (decide (j = k)), (decide (j ∈ k :: ks)); subst; try done; set_solver.
Qed.
End Each.

Lemma solo_critical {B} inp (p : prog (Broadcast E Q) B) b a b' :
  solo 1 p b = Some (a, b') -> solo inp (critical p) b = Some (a, b').
Proof. intros Hp. unfold critical. rewrite solo_bind. cbn. by rewrite Hp. Qed.

Lemma swap_remove_last todo x rest :
  exists rest', swap_remove (length todo) (todo ++ x :: rest) = Some (x, todo ++ rest') /\ rest' ≡ₚ rest.
Proof.
  unfold swap_remove. rewrite list_lookup_middle by done. cbn [mbind option_bind].
  destruct rest as [|z d _] using rev_ind.
  - exists []. rewrite last_snoc. cbn [mbind option_bind]. rewrite list_insert_id by (by rewrite list_lookup_middle).
    rewrite length_app. cbn. rewrite Nat.add_sub, take_app_length. by rewrite app_nil_r.
  - exists (z :: d). rewrite app_comm_cons, app_assoc, last_snoc. cbn [mbind option_bind]. split.
    + rewrite <- app_assoc. cbn [app]. rewrite insert_app_r_alt, Nat.sub_diag by lia. cbn.
      rewrite app_comm_cons, app_assoc, length_app, Nat.add_sub. cbn [length].
      assert (Hl : length (todo ++ x :: d) = length (todo ++ z :: d)) by (rewrite !length_app; done).
      by rewrite Hl, (app_comm_cons d), (app_assoc todo), take_app_length.
    + rewrite <- Permutation_cons_append. done.
Qed.

(** What the loop does to the channels it visits. *)
Definition visit (a : A) (todo : list nat) (k : nat) (o : obs) : obs :=
  if decide (k ∈ todo) then (if o.1.2 then less o else fed a o) else o.
Definition release (ks : list nat) (k : nat) (o : obs) : obs := if decide (k ∈ ks) then less o else o.
Definition is_open (b : Broadcast E Q) (k : nat) : bool := negb (at_chan k b).1.2.

Definition ready (b : Broadcast E Q) (todo : list nat) : Prop :=
  (forall k, k ∈ todo -> (k < length (chans b))%nat /\ 1 < (at_chan k b).2 < 2 ^ 64) /\
  NoDup (senders b) /\ (forall k, k ∈ senders b -> (k < length (chans b))%nat /\ droppable (at_chan k b)).

Lemma store_ok inp ks b :
  ready b [] -> exists b', solo inp (critical (old ← put_senders ks; drop_all c0 old)) b = Some (tt, b') /\
    senders b' = ks /\ completed b' = completed b /\ length (chans b') = length (chans b) /\
    forall k, at_chan k b' = release (senders b) k (at_chan k b).
Proof.
  intros (_ & Hnd & Hd). set (b1 := mk_bcast ks (completed b) (chans b)).
  destruct (each_ok drop_sender droppable less (drop_all c0) 1 (drop_one 1) eq_refl ltac:(done) (senders b) b1 Hnd) as (b' & Hs & H1 & H2 & H3 & H4).
  { exact Hd. }
  exists b'. split; [apply solo_critical; rewrite solo_bind; cbn; exact Hs|]. by split_and!.
Qed.

(** One round: the state after it, and the rest of the list. *)
Lemma send_round_ok inp n a todo x rest b :
  (x < length (chans b))%nat -> 1 < (at_chan x b).2 < 2 ^ 64 ->
  exists rest' b1, rest' ≡ₚ (if is_open b x then x :: rest else rest) /\
    seen_as b b1 (fun j => visit a [x] j (at_chan j b)) /\
    solo inp (send_round c0 (S n) (length todo) a (todo ++ x :: rest)) b = Some (Some (todo ++ rest'), b1).
Proof.
  intros Hx Hs. unfold send_round. rewrite list_lookup_middle by done.
  rewrite solo_bind, solo_on_chan by done.
  destruct (send_one inp n a (chan_of x b)) as (r & c & -> & Hr).
  unfold is_open, at_chan, view at 1. cbn [fst snd]. destruct (closed (chan_of x b)) eqn:Ec; destruct Hr as [-> Hr]; cbn [negb].
  - subst c. assert (Hsame : set_chan x (chan_of x b) b = b).
    { unfold set_chan, Bcast.chan_of. destruct b as [ks cm cs]. cbn in *. destruct (lookup_lt_is_Some_2 cs x Hx) as [c Hc].
      rewrite Hc. cbn. by rewrite list_insert_id. }
    rewrite Hsame. destruct (swap_remove_last todo x rest) as (rest' & -> & Hp).
    destruct (op_at drop_sender droppable less inp (drop_one inp) x b Hx) as (b1 & Hs1 & H1 & H2 & H3 & H4).
    { unfold droppable. lia. }
    exists rest', b1. split; [done|]. rewrite solo_bind, Hs1. split; [|done]. split_and!; try done. intros j. rewrite H4.
    unfold visit. destruct (decide (j = x)) as [->|Hne], (decide (_ ∈ [x])); try set_solver. unfold at_chan, view. cbn. by rewrite Ec.
  - exists (x :: rest), (set_chan x c b). split; [done|]. split; [|done].
    destruct (seen_one x c b Hx) as (H1 & H2 & H3 & H4). split_and!; try done. intros j. rewrite H4.
    unfold visit. destruct (decide (j = x)) as [->|Hne], (decide (_ ∈ [x])); try set_solver.
    unfold at_chan. rewrite Hr. unfold view. cbn. by rewrite Ec.
Qed.

Lemma filter_agree (f g : nat -> bool) (ks : list nat) :
  (forall k, k ∈ ks -> f k = g k) -> filter (fun k => f k = true) ks = filter (fun k => g k = true) ks.
Proof.
  induction ks as [|k ks IH]; intros Hfg; [done|]. rewrite !filter_cons, (Hfg k) by set_solver.
  rewrite IH by (intros j Hj; apply Hfg; set_solver). done.
Qed.
Lemma visit_app a t x k o : x ∉ t -> visit a t k (visit a [x] k o) = visit a (t ++ [x]) k o.
Proof.
  intros Hx. unfold visit. destruct (decide (k ∈ [x])) as [Hk|Hk].
  - apply list_elem_of_singleton in Hk as ->. rewrite (decide_False (P := x ∈ t)) by done.
    by rewrite decide_True by set_solver.
  - destruct (decide (k ∈ t)); [by rewrite decide_True by set_solver|by rewrite decide_False by set_solver].
Qed.
Lemma visit_ready a t x b b1 :
  NoDup (t ++ [x]) -> ready b (t ++ [x]) -> seen_as b b1 (fun j => visit a [x] j (at_chan j b)) ->
  ready b1 t /\ forall k, k ∈ t -> is_open b1 k = is_open b k.
Proof.
  intros Hnd (Ht & Hns & Hs) (H1 & H2 & H3 & H4). apply NoDup_app in Hnd as (_ & Hd & _).
  assert (Hin : forall k, k ∈ t -> at_chan k b1 = at_chan k b).
  { intros k Hk. rewrite H4. unfold visit. rewrite decide_False; [done|]. by apply Hd. }
  split; [|intros k Hk; unfold is_open; by rewrite Hin]. split; [|split; [by rewrite H1|]].
  - intros k Hk. rewrite H3, (Hin k Hk). apply Ht. set_solver.
  - intros k Hk. rewrite H1 in Hk. rewrite H3, H4. destruct (Hs k Hk) as [Hl Hdr]. split; [done|].
    unfold visit. destruct (decide (k ∈ [x])) as [Hkx|]; [|done].
    apply list_elem_of_singleton in Hkx as ->. destruct (Ht x ltac:(set_solver)) as [_ Hb].
    unfold droppable, less, fed. destruct (at_chan x b) as [[q cl] z]. cbn in *. destruct cl; cbn; [|lia].
    split; [|lia]. destruct (decide (z - 1 = 1)); [by right|left; lia].
Qed.

Lemma send_loop_ok inp n a todo rest b :
  todo <> [] -> NoDup todo -> ready b todo ->
  exists b', solo inp (send_loop c0 (S n) (length todo - 1) a (todo ++ rest)) b = Some (tt, b') /\
    senders b' ≡ₚ filter (fun k => is_open b k = true) todo ++ rest /\ completed b' = completed b /\
    length (chans b') = length (chans b) /\ forall k, at_chan k b' = release (senders b) k (visit a todo k (at_chan k b)).
Proof.
  revert rest b. induction todo as [|x t IH] using rev_ind; intros rest b Hne Hnd Hr; [done|]. clear Hne.
  rewrite length_app, Nat.add_sub, <- app_assoc. cbn [app].
  destruct (proj1 Hr x ltac:(set_solver)) as [Hx Hb].
  destruct (send_round_ok inp n a t x rest b Hx Hb) as (rest' & b1 & Hp & Hseen & Hs).
  destruct (visit_ready a t x b b1 Hnd Hr Hseen) as [Hr1 Ho]. pose proof Hseen as (H1 & H2 & H3 & H4).
  assert (Hxt : x ∉ t) by (apply NoDup_app in Hnd as (_ & Hd & _); intros Hk; apply (Hd x Hk); set_solver).
  assert (Hf : filter (fun k => is_open b k = true) (t ++ [x]) ++ rest ≡ₚ filter (fun k => is_open b1 k = true) t ++ rest').
  { rewrite filter_app, <- app_assoc, Hp. apply Permutation_app.
    - by rewrite (filter_agree (is_open b) (is_open b1)) by (intros k Hk; symmetry; by apply Ho).
    - unfold filter. cbn. destruct (is_open b x); [by rewrite decide_True|by rewrite decide_False]. }
  assert (Hfin : forall k, release (senders b1) k (visit a t k (at_chan k b1)) = release (senders b) k (visit a (t ++ [x]) k (at_chan k b)))
    by (intros k; by rewrite H1, H4, visit_app).
  destruct t as [|y t0] eqn:Et.
  - destruct (store_ok inp rest' b1) as (b' & Hst & S1 & S2 & S3 & S4); [split; [set_solver|apply Hr1]|].
    exists b'. cbn [send_loop length app]. rewrite solo_bind. cbn [app length] in Hs. rewrite Hs. split; [exact Hst|].
    split_and!; [by rewrite Hf, S1|congruence|congruence|]. intros k. rewrite S4. exact (Hfin k).
  - rewrite <- Et in *. destruct (IH rest' b1) as (b' & Hl & L1 & L2 & L3 & L4); [by subst|by apply NoDup_app in Hnd as (? & _)|done|].
    exists b'. split.
    + subst t. cbn [length]. cbn [length] in Hl, Hs. rewrite Nat.sub_succ, Nat.sub_0_r in Hl.
      cbn [send_loop]. rewrite solo_bind, Hs. exact Hl.
    + split_and!; [by rewrite Hf|congruence|congruence|]. intros k. by rewrite L4.
Qed.

Lemma take_copy inp b :
  NoDup (senders b) -> (forall k, k ∈ senders b -> (k < length (chans b))%nat /\ cloneable (at_chan k b)) ->
  exists b1, solo inp (critical (ks ← get_senders; _ ← clone_all c0 ks; Ret ks)) b = Some (senders b, b1) /\
    seen_as b b1 (fun k => if decide (k ∈ senders b) then more (at_chan k b) else at_chan k b).
Proof.
  intros Hnd Hk. destruct (each_ok clone_sender cloneable more (clone_all c0) 1 (clone_one 1) eq_refl ltac:(done) (senders b) b Hnd Hk) as (b1 & Hs & Hseen).
  exists b1. split; [|done]. apply solo_critical. rewrite solo_bind. cbn. rewrite solo_bind. by rewrite Hs.
Qed.

(** Run alone, a broadcast to distinct subscribers gives the value to every one
    whose channel is open, at the end of its queue and once, and to nobody else;
    the subscribers left are those with open channels, and only the others lose a
    sender.  A closed broadcast does nothing. *)
Theorem broadcast_reaches inp n a (b : Broadcast E Q) :
  NoDup (senders b) ->
  (forall k, k ∈ senders b -> (k < length (chans b))%nat /\ 1 <= sender (chan_of k b) < 2 ^ 63 - 1) ->
  exists b', solo inp (send c0 (S n) a) b = Some (tt, b') /\
    if completed b then b' = b
    else senders b' ≡ₚ filter (fun k => is_open b k = true) (senders b) /\
      forall k, let c := chan_of k b in
        view (chan_of k b') =
          if decide (k ∈ senders b) then
            if closed c then (seg (queue c), true, sender c - 1) else (seg (queue c) ++ [a], false, sender c)
          else view c.
Proof.
  intros Hnd Hk. unfold send. rewrite solo_bind. cbn [is_closed Bcast.is_closed atomic solo].
  destruct (completed b) eqn:Ecm; [by exists b|]. rewrite solo_bind.
  destruct (take_copy inp b Hnd) as (b1 & -> & H1 & H2 & H3 & H4).
  { intros k Hkk. destruct (Hk k Hkk). split; [done|]. unfold cloneable, at_chan, view. cbn [fst snd].
    assert (Hm : usize_MAX / 2 = 2 ^ 63 - 1) by reflexivity. rewrite Hm. lia. }
  assert (Ho : forall k, is_open b1 k = is_open b k) by (intros k; unfold is_open; rewrite H4; by destruct (decide _)).
  destruct (senders b) as [|k0 ks] eqn:Eks.
  { exists b1. split; [done|]. split; [by rewrite H1|]. intros k. rewrite (decide_False (P := k ∈ [])) by set_solver. specialize (H4 k).
    rewrite decide_False in H4 by set_solver. exact H4. }
  rewrite <- Eks in *. destruct (send_loop_ok inp n a (senders b) [] b1) as (b' & Hs & S1 & S2 & S3 & S4).
  { by rewrite Eks. } { done. }
  { split; [|split]; [|by rewrite H1|]; intros k Hkk; [|rewrite H1 in Hkk]; destruct (Hk k Hkk); rewrite H3, H4, decide_True by done;
      (split; [done|]); unfold at_chan, view, more, droppable; cbn; lia. }
  rewrite app_nil_r in Hs, S1. exists b'. split; [rewrite Eks in *; exact Hs|]. split.
  { rewrite S1. by rewrite (filter_agree (is_open b1) (is_open b)) by (intros; apply Ho). }
  intros k. change (view (chan_of k b')) with (at_chan k b'). rewrite S4, H4, H1. unfold release, visit.
  destruct (decide (k ∈ senders b)); [|done]. unfold at_chan, view, more, less, fed. cbn.
  destruct (closed (chan_of k b)) eqn:Ec; cbn; repeat f_equal; lia.
Qed.
End BroadcastSpec.

(** ** Three channels, the second one closed *)
Definition three : Broadcast fifo (SegQueue nat) :=
  let c := Mpmc.new (mk_seg (@nil nat)) in
  mk_bcast [0; 1; 2]%nat false [c; mk_chan (queue c) (send_ev c) (recv_ev c) true 1 1; c].
Lemma broadcast_reaches_witness :
  exists b', solo 1 (send (Mpmc.new (mk_seg [])) 1 7%nat) three = Some (tt, b') /\ senders b' ≡ₚ [0; 2]%nat.
Proof.
  destruct (broadcast_reaches (Mpmc.new (mk_seg [])) 1 0 7%nat three) as (b' & Hs & Hb).
  - apply NoDup_ListNoDup. cbn. repeat constructor; set_solver.
  - intros k Hk. cbn in Hk. assert (k = 0 \/ k = 1 \/ k = 2)%nat as [->|[->| ->]] by set_solver; cbn; lia.
  - exists b'. split; [exact Hs|]. destruct Hb as [Hp _]. exact Hp.
Defined.

(** ** A subscription that is lost

    One task broadcasts to the first channel; another one subscribes the second
    channel while the value is being sent.  The broadcast then puts its own list
    back, the new subscription is gone, and the channel is closed with its only
    sender. *)
Inductive bcmd := BSend (a : nat) | BSubscribe (k : nat).
Definition bstart (c : bcmd) (l : unit) : option (unit * prog (Broadcast fifo (SegQueue nat)) unit) :=
  Some (tt, match c with BSend a => send (Mpmc.new (mk_seg [])) 2 a | BSubscribe k => subscribe k end).
Definition two_chans : Broadcast fifo (SegQueue nat) :=
  mk_bcast [O] false [Mpmc.new (mk_seg []); Mpmc.new (mk_seg [])].
Example subscription_lost :
  let '(ts, b) := run bstart (steps_of 4 0 ++ steps_of 3 1 ++ steps_of 20 0)
    (spawn tt [[BSend 7%nat]; [BSubscribe 1%nat]], two_chans) in
  quiet ts = true /\ map t_todo ts = [[]; []] /\ senders b = [O] /\ map (fun c => closed c) (chans b) = [false; true].
Proof. vm_compute. repeat split. Qed.
