(* ===== verification/Phys.v ===== *)
(** * kmem: physical memory objects

    mizu/lib/kmem/src/phys.rs: the pages of a memory object, shared between copies.
    A copy ([clone_as]) moves the pages of its original into a new branch, the
    parent of both; a page is copied out of a branch, or moved out of it when the
    other side has its own, the first time it is written.

    The heap holds the page frames, the objects by number (an [Arsc<Phys>] is a
    number, its count the number of links to it), the backends and their queues of
    pages to write.  [nfree] is the number of frames the arena still gives; [ZERO] is
    the frame [0].  An operation runs to its end: its critical sections and waits
    are not interleaved with others.  While a caller waits to be told that its
    pages are flushed, the flusher task runs. *)

From S2P Require Import Prelude Ksc Bytes Paging Umio.
Import Errno Umio.

Module Ph.
Notation PAGE_SIZE := PG.PAGE_SIZE.
Notation PAGE_SHIFT := PG.PAGE_SHIFT.

Section Phys.
Context {T : Type} `{Io T}.

Inductive FrameState := Shared (frame : nat) (len : Z) | Unique (frame : nat) (len : Z).
Record FrameInfo := mk_fi { state : option FrameState; dirty : bool }.
Inductive Commit := CShared (frame : nat) (len : Z) | CUnique (fi : FrameInfo).
Inductive Parent := PPhys (phys : nat) (start : Z) (end_ : option Z) | PBackend (b : nat).
(** [sender]: the backend whose queue it is. *)
Record Flusher := mk_flusher { sender : nat; offset : Z }.
Record Phys := mk_phys {
  branch : bool; parent : option Parent; frames : gmap Z FrameInfo; position : Z; cow : bool; flusher : option Flusher }.
Inductive FlushData := Single (d : Z * nat * Z) | Multiple (ds : list (Z * nat * Z)).

Record heap := mk_heap {
  pages : gmap nat (list Z); nfree : nat; physs : gmap nat Phys; backs : gmap nat T; queues : gmap nat (list FlushData) }.
Notation M := (PT heap Error).

Definition hget : M heap := fun h => Some (Ok h, h).
Definition hput (h : heap) : M unit := fun _ => Some (Ok tt, h).
Definition hpanic {A} : M A := pt_res Panic.

Definition set_pages (ps : gmap nat (list Z)) (n : nat) (h : heap) : heap := mk_heap ps n (physs h) (backs h) (queues h).
Definition set_physs (ps : gmap nat Phys) (h : heap) : heap := mk_heap (pages h) (nfree h) ps (backs h) (queues h).
Definition set_back (b : nat) (o : T) (h : heap) : heap := mk_heap (pages h) (nfree h) (physs h) (<[b := o]> (backs h)) (queues h).
Definition set_queue (b : nat) (q : list FlushData) (h : heap) : heap :=
  mk_heap (pages h) (nfree h) (physs h) (backs h) (<[b := q]> (queues h)).

Definition set_frames (fs : gmap Z FrameInfo) (ph : Phys) : Phys := mk_phys (branch ph) (parent ph) fs (position ph) (cow ph) (flusher ph).
Definition set_parent (pr : option Parent) (ph : Phys) : Phys := mk_phys (branch ph) pr (frames ph) (position ph) (cow ph) (flusher ph).
Definition set_position (z : Z) (ph : Phys) : Phys := mk_phys (branch ph) (parent ph) (frames ph) z (cow ph) (flusher ph).

Definition get_phys (p : nat) : M Phys := h ← hget; pt_opt (physs h !! p).
Definition put_phys (p : nat) (ph : Phys) : M unit := h ← hget; hput (set_physs (<[p := ph]> (physs h)) h).
Definition get_page (f : nat) : M (list Z) := h ← hget; pt_opt (pages h !! f).
Definition put_page (f : nat) (bs : list Z) : M unit := h ← hget; hput (set_pages (<[f := bs]> (pages h)) (nfree h) h).
Definition on_back {A} (b : nat) (m : ST T Error A) : M A :=
  h ← hget; o ← pt_opt (backs h !! b);
  let '(r, o') := m o in _ ← hput (set_back b o' h); pt_res r.

(** ** Frames *)
Definition ZERO : nat := 0.
Definition zeros : list Z := replicate (Z.to_nat PAGE_SIZE) 0.
Definition frame_new : M nat :=
  h ← hget;
  match nfree h with
  | O => pt_throw ENOMEM
  | S n => let f := fresh (dom (pages h)) in _ ← hput (set_pages (<[f := zeros]> (pages h)) n h); mret f
  end.
(** [f[..len].copy_from_slice(&self[..len])] *)
Definition frame_copy (f : nat) (len : Z) : M nat :=
  f' ← frame_new;
  bs ← get_page f; bs' ← get_page f';
  if PAGE_SIZE <? len then hpanic
  else _ ← put_page f' (splice bs' 0 (take (Z.to_nat len) bs)); mret f'.

Definition state_frame (s : FrameState) : nat * Z := match s with Shared f len | Unique f len => (f, len) end.

(** ** Entries *)
Definition fi_new (f : nat) (len : Z) : FrameInfo := mk_fi (Some (Shared f len)) false.
Definition widen (write : option Z) (len : Z) : Z := match write with Some new_len => Z.max len new_len | None => len end.

(** What [truncate] leaves of the entry. *)
Definition fi_truncate (new_len : Z) (fi : FrameInfo) : M FrameInfo :=
  match state fi with
  | None => mret fi
  | Some s =>
      let '(f, len) := state_frame s in
      _ ← (if new_len <? len then
             bs ← get_page f;
             if PAGE_SIZE <? len then hpanic else put_page f (splice bs new_len (replicate (Z.to_nat (len - new_len)) 0))
           else mret tt);
      mret (mk_fi (Some (match s with Shared f _ => Shared f new_len | Unique f _ => Unique f new_len end)) (dirty fi))
  end.

(** The outcome and what becomes of the entry; an error that comes after the state
    has been taken leaves the entry without one. *)
Definition fi_branch (write : option Z) (cow : bool) (fi : FrameInfo) : M (res Error (Commit * bool) * FrameInfo) :=
  match state fi with
  | Some (Shared f len) =>
      match write with
      | None => mret (Ok (CShared f len, false), fi)
      | Some new_len =>
          if negb cow then
            let len := Z.max len new_len in
            mret (Ok (CShared f len, false), mk_fi (Some (Shared f len)) true)
          else
            let new_len := Z.max len new_len in
            fun h => match frame_copy f new_len h with
            | Some (Ok f', h) => Some (Ok (Ok (CUnique (fi_new f' new_len), false), mk_fi (Some (Unique f new_len)) (dirty fi)), h)
            | Some (Err e, h) => Some (Ok (Err e, mk_fi None (dirty fi)), h)
            | Some (Panic, h) => Some (Panic, h)
            | None => None
            end
      end
  | Some (Unique f len) => mret (Ok (CUnique (mk_fi (Some (Shared f len)) (dirty fi)), true), mk_fi None (dirty fi))
  | None => mret (Err ENOENT, fi)
  end.
Definition fi_leaf (write : option Z) (fi : FrameInfo) : M (res Error (nat * Z) * FrameInfo) :=
  let dirty' := dirty fi || (match write with Some _ => true | None => false end) in
  match state fi with
  | Some s =>
      let '(f, len) := state_frame s in
      let len := widen write len in
      mret (Ok (f, len), mk_fi (Some (Shared f len)) dirty')
  | None =>
      match write with
      | None => mret (Ok (ZERO, 0), mk_fi None dirty')
      | Some new_len => fun h => match frame_new h with
          | Some (Ok f, h) => Some (Ok (Ok (f, new_len), mk_fi (Some (Shared f new_len)) dirty'), h)
          | Some (Err e, h) => Some (Ok (Err e, mk_fi None dirty'), h)
          | Some (Panic, h) => Some (Panic, h)
          | None => None
          end
      end
  end.

(** [FrameEntry]: an entry of the list at [index] ([old]), or [fi] for a free
    place.  [get] changes an old entry in place whatever the outcome. *)
Definition entry_get (p : nat) (index : Z) (new : option FrameInfo) (branch : bool) (write : option Z) (cow : bool) : M Commit :=
  ph ← get_phys p;
  let old := frames ph !! index in
  fi ← pt_opt (match old with Some fi => Some fi | None => new end);
  let keep fi := put_phys p (set_frames (<[index := fi]> (frames ph)) ph) in
  let spoil fi := match old with Some _ => keep fi | None => mret tt end in
  if branch then
    '(r, fi) ← fi_branch write cow fi;
    match r with
    | Ok (ret, remove) =>
        _ ← (if remove : bool then
               match old with Some _ => put_phys p (set_frames (delete index (frames ph)) ph) | None => mret tt end
             else keep fi);
        mret ret
    | Err e => _ ← spoil fi; pt_throw e
    | Panic => hpanic
    end
  else
    '(r, fi) ← fi_leaf write fi;
    match r with
    | Ok (f, len) => _ ← keep fi; mret (CShared f len)
    | Err e => _ ← spoil fi; pt_throw e
    | Panic => hpanic
    end.

(** ** Objects *)
Definition new_id (h : heap) : nat := fresh (dom (physs h)).
Definition alloc_phys (ph : Phys) : M nat :=
  h ← hget; let p := new_id h in _ ← hput (set_physs (<[p := ph]> (physs h)) h); mret p.

Definition with_backend (b : nat) (initial_pos : Z) (cow : bool) : M nat :=
  h ← hget;
  _ ← hput (set_queue b [] h);
  alloc_phys (mk_phys false (Some (PBackend b)) ∅ initial_pos cow (if negb cow then Some (mk_flusher b 0) else None)).
Definition new (cow : bool) : M nat := alloc_phys (mk_phys false None ∅ 0 cow None).

(** The count of an [Arsc<Phys>]: the links to it. *)
Definition links_to (q : nat) (ph : Phys) : bool := match parent ph with Some (PPhys q' _ _) => Nat.eqb q' q | _ => false end.
Definition count (h : heap) (q : nat) : nat := length (List.filter (fun x => links_to q x.2) (map_to_list (physs h))).

(** [Arsc::try_unwrap] of the parent, which takes it out of the heap. *)
Definition take_sole (p : nat) : M (option (Phys * Z * option Z)) :=
  ph ← get_phys p; h ← hget;
  match parent ph with
  | Some (PPhys q start end_) =>
      if Nat.eqb (count h q) 1 then
        phq ← get_phys q;
        _ ← hput (set_physs (<[p := set_parent None ph]> (delete q (physs h))) h);
        mret (Some (phq, start, end_))
      else mret None
  | _ => mret None
  end.

Definition settle (fi : FrameInfo) : FrameInfo :=
  mk_fi (match state fi with Some s => let '(f, len) := state_frame s in Some (Shared f len) | None => None end) (dirty fi).
Definition in_end (end_ : option Z) (i : Z) : bool := match end_ with Some e => i <? e | None => true end.
(** The entries of a parent, by the indices of the child. *)
Definition window (start : Z) (end_ : option Z) (fs : gmap Z FrameInfo) : gmap Z FrameInfo :=
  kmap (fun pi => pi - start) (settle <$> filter (fun x => (start <=? x.1) && in_end end_ x.1 = true) fs).
Definition merged_parent (start : Z) (end_ : option Z) (pp : Parent) : Parent :=
  match pp with
  | PPhys phys pp_start _ => PPhys phys (wadd 64 pp_start start) (option_map (fun e => wadd 64 pp_start e) end_)
  | PBackend b => PBackend b
  end.
Definition merge_into (p : nat) (par : Phys) (start : Z) (end_ : option Z) : M unit :=
  ph ← get_phys p;
  put_phys p (mk_phys (branch ph) (merged_parent start end_ <$> parent par) (frames ph ∪ window start end_ (frames par))
    (position ph) (cow ph) (flusher ph)).

Fixpoint merge_sole_parent {R} (n : nat) (p : nat) (f : M (option R)) : M (option R) :=
  match n with
  | O => pt_none
  | S n =>
      sole ← take_sole p;
      match sole with
      | None => f
      | Some (par, start, end_) =>
          _ ← merge_into p par start end_;
          r ← f;
          match r with Some r => mret (Some r) | None => merge_sole_parent n p f end
      end
  end.

Definition clone_as (n : nat) (p : nat) (cow' : bool) (index_offset : Z) (fixed_count : option Z) : M nat :=
  _ ← merge_sole_parent n p (mret (Some tt));
  ph ← get_phys p;
  b ← alloc_phys (mk_phys true (parent ph) (frames ph) 0 (cow ph || cow') None);
  _ ← put_phys p (set_frames ∅ (set_parent (Some (PPhys b 0 None)) ph));
  alloc_phys (mk_phys false (Some (PPhys b index_offset (option_map (fun c => wadd 64 c index_offset) fixed_count))) ∅ 0 cow'
    (match flusher ph with
     | Some fl => if negb cow' then Some (mk_flusher (sender fl) (wadd 64 (offset fl) index_offset)) else None
     | None => None
     end)).

(** ** Committing pages *)
(** A page of a backend: what it has, up to a page. *)
Fixpoint load_page (n : nat) (b : nat) (offset : Z) (room_left : Z) (acc : list Z) : M (list Z) :=
  match n with
  | O => pt_none
  | S n =>
      if room_left =? 0 then mret acc
      else
        bs ← on_back b (read_at offset [room room_left]);
        if len bs =? 0 then mret acc
        else if room_left <? len bs then hpanic
        else load_page n b (wadd 64 offset (len bs)) (room_left - len bs) (acc ++ bs)
  end.

Fixpoint commit_impl (n : nat) (p : nat) (index : Z) (write : option Z) (cow' : bool) : M Commit :=
  match n with
  | O => pt_none
  | S n =>
      self ← get_phys p;
      let cow' := cow self || cow' in
      self_get ← merge_sole_parent n p (
        self ← get_phys p;
        match frames self !! index with
        | Some _ => c ← entry_get p index None (branch self) write cow'; mret (Some c)
        | None => mret None
        end);
      match self_get with
      | Some commit => mret commit
      | None =>
          self ← get_phys p;
          let blank :=
            match write with
            | None => mret (CShared ZERO 0)
            | Some new_len => f ← frame_new; entry_get p index (Some (fi_new f new_len)) (branch self) write cow'
            end in
          match parent self with
          | Some (PPhys q start end_) =>
              if match end_ with Some e => (0 <=? index) && (index <? wsub 64 e start) | None => true end then
                c ← commit_impl n q (wadd 64 start index) write cow';
                match c with
                | CShared f len => mret (CShared f len)
                | CUnique fi => entry_get p index (Some fi) (branch self) write cow'
                end
              else blank
          | Some (PBackend b) =>
              f ← frame_new;
              bs ← load_page (S (Z.to_nat PAGE_SIZE)) b (wshl 64 index PAGE_SHIFT) PAGE_SIZE [];
              page ← get_page f;
              _ ← put_page f (splice page 0 bs);
              entry_get p index (Some (fi_new f (len bs))) (branch self) write cow'
          | None => blank
          end
      end
  end.

Definition commit (n : nat) (p : nat) (index : Z) (writable : option Z) : M (nat * Z) :=
  ph ← get_phys p;
  if branch ph then hpanic
  else
    c ← commit_impl n p index writable (cow ph);
    match c with CShared f len => mret (f, len) | CUnique _ => hpanic end.

(** ** Resizing *)
Definition resize (p : nat) (new_len : Z) : M unit :=
  ph ← get_phys p;
  let cut e := match parent ph with Some (PPhys q start _) => Some (PPhys q start (Some (e start))) | pr => pr end in
  if new_len =? 0 then put_phys p (set_frames ∅ (set_parent (cut (fun start => start)) ph))
  else
    let index := Z.shiftr new_len PAGE_SHIFT in
    let offset := wsub 64 new_len (wshl 64 index PAGE_SHIFT) in
    let '(index, offset) := if offset =? 0 then (index - 1, PAGE_SIZE) else (index, offset) in
    let fs := filter (fun x => x.1 <=? index = true) (frames ph) in
    fs ← match fs !! index with
         | Some fi => fi ← fi_truncate offset fi; mret (<[index := fi]> fs)
         | None => mret fs
         end;
    put_phys p (set_frames fs (set_parent (cut (fun start => wadd 64 (wadd 64 start index) 1)) ph)).

(** ** Writing back *)
(** One round of the flusher task: errors of the backend are dropped. *)
Definition flush_page (n : nat) (b : nat) (d : Z * nat * Z) : M unit :=
  let '(index, f, len) := d in
  bs ← get_page f;
  if PAGE_SIZE <? len then hpanic
  else
    h ← hget; o ← pt_opt (backs h !! b);
    let '(r, o') := write_all_at n (wshl 64 index PAGE_SHIFT) (take (Z.to_nat len) bs) o in
    _ ← hput (set_back b o' h);
    match r with Ok None => pt_none | Panic => hpanic | _ => mret tt end.
Fixpoint flush_pages (n : nat) (b : nat) (ds : list (Z * nat * Z)) : M unit :=
  match ds with [] => mret tt | d :: ds => _ ← flush_page n b d; flush_pages n b ds end.
Definition flush_data (n : nat) (b : nat) (d : FlushData) : M unit :=
  match d with Single d => flush_page n b d | Multiple ds => flush_pages n b ds end.
(** The task works through its queue. *)
Fixpoint serve_all (n : nat) (b : nat) (ds : list FlushData) : M unit :=
  match ds with [] => mret tt | d :: ds => _ ← flush_data n b d; serve_all n b ds end.
Definition serve (n : nat) (b : nat) : M unit :=
  h ← hget;
  match queues h !! b with
  | Some ds => _ ← hput (set_queue b [] h); serve_all n b ds
  | None => mret tt
  end.
Definition enqueue (b : nat) (d : FlushData) : M unit :=
  h ← hget; match queues h !! b with Some ds => hput (set_queue b (ds ++ [d]) h) | None => mret tt end.
(** [listen], [send] and the wait for the event. *)
Definition flush_and_wait (n : nat) (b : nat) (d : FlushData) : M unit := _ ← enqueue b d; serve n b.

(** The entry at [index] is clean afterwards; what there is to write, if any. *)
Definition clean_entry (p : nat) (index : Z) (force_dirty : option bool) : M (option (nat * Z)) :=
  ph ← get_phys p;
  match frames ph !! index with
  | None => mret None
  | Some fi =>
      _ ← put_phys p (set_frames (<[index := mk_fi (state fi) false]> (frames ph)) ph);
      mret (if default (dirty fi) force_dirty then state_frame <$> state fi else None)
  end.

Fixpoint flush_loop (n : nat) (this : nat) (fl : Flusher) (index : Z) (force_dirty : option bool) : M unit :=
  match n with
  | O => pt_none
  | S n =>
      data ← clean_entry this index force_dirty;
      match data with
      | Some (f, len) => flush_and_wait n (sender fl) (Single (wadd 64 index (offset fl), f, len))
      | None =>
          ph ← get_phys this; h ← hget;
          match parent ph with
          | Some (PPhys q start end_) =>
              (* the link and the copy of it just made *)
              if Nat.ltb 1 (count h q + 1) then mret tt
              else
                match checked_add 64 start index with
                | Some pi =>
                    if pi <=? default (2 ^ 64 - 1) end_ then
                      flush_loop n q (mk_flusher (sender fl) (wsub 64 (offset fl) start)) pi force_dirty
                    else mret tt
                | None => mret tt
                end
          | _ => mret tt
          end
      end
  end.
Definition flush (n : nat) (p : nat) (index : Z) (force_dirty : option bool) : M unit :=
  ph ← get_phys p;
  match flusher ph with
  | None => mret tt
  | Some fl => _ ← merge_sole_parent n p (mret (Some tt)); flush_loop n p fl index force_dirty
  end.

Definition in_window (start_index : Z) (end_index : option Z) (index : Z) : bool :=
  (start_index <=? index) && in_end end_index index.
(** All dirty pages of a list that the window shows, which are clean afterwards. *)
Definition dirty_pages (start_index : Z) (end_index : option Z) (off : Z) (fs : gmap Z FrameInfo) : list (Z * nat * Z) :=
  omap (fun x => if in_window start_index end_index x.1 && dirty x.2
                 then (fun s => let '(f, len) := state_frame s in (wadd 64 x.1 off, f, len)) <$> state x.2 else None)
    (map_to_list fs).
Definition clean_pages (start_index : Z) (end_index : option Z) (fs : gmap Z FrameInfo) : gmap Z FrameInfo :=
  map_imap (fun i fi => Some (if in_window start_index end_index i then mk_fi (state fi) false else fi)) fs.
Definition narrow (end_index : option Z) (start : Z) (end_ : option Z) : option Z :=
  match end_index, end_ with
  | None, e => e
  | Some e, None => Some (wadd 64 e start)
  | Some e, Some e' => Some (Z.min (wadd 64 e start) e')
  end.
Definition take_dirty (this : nat) (start_index : Z) (end_index : option Z) (off : Z) : M (list (Z * nat * Z)) :=
  ph ← get_phys this;
  _ ← put_phys this (set_frames (clean_pages start_index end_index (frames ph)) ph);
  mret (dirty_pages start_index end_index off (frames ph)).

Fixpoint flush_all_loop (n : nat) (this : nat) (fl : Flusher) (start_index : Z) (end_index : option Z) : M unit :=
  match n with
  | O => pt_none
  | S n =>
      data ← take_dirty this start_index end_index (offset fl);
      _ ← (match data with [] => mret tt | _ => flush_and_wait n (sender fl) (Multiple data) end);
      ph ← get_phys this;
      match parent ph with
      | Some (PPhys q start end_) =>
          flush_all_loop n q (mk_flusher (sender fl) (wsub 64 (offset fl) start)) (wadd 64 start_index start) (narrow end_index start end_)
      | _ => mret tt
      end
  end.
Definition flush_all (n : nat) (p : nat) : M unit :=
  ph ← get_phys p;
  match flusher ph with None => mret tt | Some fl => flush_all_loop n p fl 0 None end.

(** ** Dropping *)
(** A link is dropped: with the last one the object goes, and its own link. *)
Fixpoint release (n : nat) (pr : option Parent) : M unit :=
  match n, pr with
  | O, _ => pt_none
  | S n, Some (PPhys q _ _) =>
      h ← hget;
      if Nat.eqb (count h q) 0 then
        ph ← get_phys q; _ ← hput (set_physs (delete q (physs h)) h); release n (parent ph)
      else mret tt
  | _, _ => mret tt
  end.
(** The loop of [drop]: it takes the links apart on its way; the objects it leaves
    alone behind it go with [storage]. *)
Fixpoint drop_loop (n : nat) (this : nat) (fl : Flusher) (start_index : Z) (end_index : option Z) : M unit :=
  match n with
  | O => pt_none
  | S n =>
      h ← hget;
      match queues h !! sender fl with
      | None => mret tt
      | Some _ =>
          data ← take_dirty this start_index end_index (offset fl);
          _ ← (match data with [] => mret tt | _ => enqueue (sender fl) (Multiple data) end);
          ph ← get_phys this;
          match parent ph with
          | Some (PPhys q start end_) =>
              _ ← put_phys this (set_parent None ph);
              h ← hget;
              if Nat.eqb (count h q) 0 then
                _ ← drop_loop n q (mk_flusher (sender fl) (wsub 64 (offset fl) start)) (wadd 64 start_index start) (narrow end_index start end_);
                release n (Some (PPhys q start end_))
              else mret tt
          | _ => mret tt
          end
      end
  end.
Definition drop_phys (n : nat) (p : nat) : M unit :=
  ph ← get_phys p;
  _ ← (match flusher ph with None => mret tt | Some fl => drop_loop n p fl 0 None end);
  ph ← get_phys p; h ← hget;
  _ ← hput (set_physs (delete p (physs h)) h);
  release n (parent ph).

(** ** As a stream *)
(** [usize] and [isize] by their values. *)
Definition to_isize (z : Z) : M Z := if z <? 2 ^ 63 then mret z else pt_throw EINVAL.
Definition to_usize (z : Z) : M Z := if 0 <=? z then mret z else pt_throw EINVAL.
Definition checked_iadd (x y : Z) : M Z := if (- 2 ^ 63 <=? x + y) && (x + y <? 2 ^ 63) then mret (x + y) else pt_throw EINVAL.

(** With [stream_len] of a parent, which goes through its own [seek]. *)
Fixpoint phys_seek (n : nat) (p : nat) (whence : SeekFrom) : M Z :=
  match n with
  | O => pt_none
  | S n =>
      ph ← get_phys p;
      pos ← match whence with
            | SeekStart pos => mret pos
            | SeekEnd pos =>
                let own := position ph in
                len ← match parent ph with
                      | Some (PPhys q start _) =>
                          old ← phys_seek n q (SeekCurrent 0);
                          ret ← phys_seek n q (SeekEnd 0);
                          _ ← phys_seek n q (SeekStart old);
                          mret (Z.max own (saturating_sub ret start))
                      | Some (PBackend b) => ret ← on_back b stream_len; mret (Z.max own ret)
                      | None => mret own
                      end;
                len ← to_isize len; pos ← checked_iadd pos len; to_usize pos
            | SeekCurrent pos => cur ← to_isize (position ph); pos ← checked_iadd pos cur; to_usize pos
            end;
      ph ← get_phys p;
      _ ← put_phys p (set_position pos ph);
      mret pos
  end.

Definition offsets (start end_ : Z) : (Z * Z) * (Z * Z) :=
  let start_page := Z.shiftr start PAGE_SHIFT in
  let start_offset := wsub 64 start (wshl 64 start_page PAGE_SHIFT) in
  let end_page := Z.shiftr end_ PAGE_SHIFT in
  let end_offset := wsub 64 end_ (wshl 64 end_page PAGE_SHIFT) in
  ((start_page, start_offset), if end_offset =? 0 then (end_page - 1, PAGE_SIZE) else (end_page, end_offset)).

(** The bytes that go into the buffers, and the room left. *)
Fixpoint copy_from_frame (n : nat) (buffer : list IoSliceMut) (frame : list Z) (start end_ : Z) (acc : list Z) :
    M (list Z * list IoSliceMut) :=
  match n with
  | O => pt_none
  | S n =>
      match buffer with
      | [] => mret (acc, buffer)
      | buf :: rest =>
          if end_ =? start then mret (acc, buffer)
          else if room_len buf =? 0 then copy_from_frame n rest frame start end_ acc
          else
            let l := Z.min (room_len buf) (wsub 64 end_ start) in
            if PAGE_SIZE <? start + l then hpanic
            else
              buffer ← pt_res (advance_slices buffer l);
              copy_from_frame n buffer frame (start + l) end_ (acc ++ take (Z.to_nat l) (drop (Z.to_nat start) frame))
      end
  end.
Fixpoint copy_to_frame (n : nat) (buffer : list (list Z)) (f : nat) (start end_ : Z) (written : Z) : M (Z * list (list Z)) :=
  match n with
  | O => pt_none
  | S n =>
      match buffer with
      | [] => mret (written, buffer)
      | buf :: rest =>
          if end_ =? start then mret (written, buffer)
          else if bool_decide (buf = []) then copy_to_frame n rest f start end_ written
          else
            let l := Z.min (len buf) (wsub 64 end_ start) in
            if PAGE_SIZE <? start + l then hpanic
            else
              bs ← get_page f;
              _ ← put_page f (splice bs start (take (Z.to_nat l) buf));
              buffer ← pt_res (advance_slices buffer l);
              copy_to_frame n buffer f (start + l) end_ (written + l)
      end
  end.

(** The pages [index], ..., of which there are [k], and then the last one. *)
Fixpoint read_pages (n k : nat) (p : nat) (index : Z) (buffer : list IoSliceMut) (acc : list Z) (last : list IoSliceMut -> list Z -> M (list Z)) :
    M (list Z) :=
  match k with
  | O => last buffer acc
  | S k =>
      '(f, e) ← commit n p index None; page ← get_page f;
      '(bs, buffer) ← copy_from_frame n buffer page 0 e [];
      let acc := acc ++ bs in
      if (e <? PAGE_SIZE) || bool_decide (buffer = []) then mret acc else read_pages n k p (index + 1) buffer acc last
  end.
Definition phys_read_at (n : nat) (p : nat) (offset : Z) (buffer : list IoSliceMut) : M (list Z) :=
  end_ ← match checked_add 64 offset (ioslice_len buffer) with Some e => mret e | None => pt_throw EINVAL end;
  if offset =? end_ then mret []
  else
    let '((start_page, start_offset), (end_page, end_offset)) := offsets offset end_ in
    if start_page =? end_page then
      '(f, e) ← commit n p start_page None; page ← get_page f;
      '(bs, _) ← copy_from_frame n buffer page start_offset (Z.min end_offset e) [];
      mret bs
    else
      '(f, e) ← commit n p start_page None; page ← get_page f;
      '(bs, buffer) ← copy_from_frame n buffer page start_offset e [];
      if (e <? PAGE_SIZE) || bool_decide (buffer = []) then mret bs
      else
        read_pages n (Z.to_nat (end_page - (start_page + 1))) p (start_page + 1) buffer bs (fun buffer acc =>
          '(f, e) ← commit n p end_page None; page ← get_page f;
          '(bs, _) ← copy_from_frame n buffer page 0 (Z.min end_offset e) [];
          mret (acc ++ bs)).

Fixpoint write_pages (n k : nat) (p : nat) (index : Z) (buffer : list (list Z)) (acc : Z) (last : list (list Z) -> Z -> M Z) : M Z :=
  match k with
  | O => last buffer acc
  | S k =>
      '(f, _) ← commit n p index (Some PAGE_SIZE);
      '(l, buffer) ← copy_to_frame n buffer f 0 PAGE_SIZE 0;
      let acc := acc + l in
      if bool_decide (buffer = []) then mret acc else write_pages n k p (index + 1) buffer acc last
  end.
Definition phys_write_at (n : nat) (p : nat) (offset : Z) (buffer : list (list Z)) : M Z :=
  end_ ← match checked_add 64 offset (ioslice_len buffer) with Some e => mret e | None => pt_throw EINVAL end;
  if offset =? end_ then mret 0
  else
    let '((start_page, start_offset), (end_page, end_offset)) := offsets offset end_ in
    if start_page =? end_page then
      '(f, _) ← commit n p start_page (Some end_offset);
      '(l, _) ← copy_to_frame n buffer f start_offset end_offset 0;
      mret l
    else
      '(f, _) ← commit n p start_page (Some PAGE_SIZE);
      '(l, buffer) ← copy_to_frame n buffer f start_offset PAGE_SIZE 0;
      if bool_decide (buffer = []) then mret l
      else
        write_pages n (Z.to_nat (end_page - (start_page + 1))) p (start_page + 1) buffer l (fun buffer acc =>
          '(f, _) ← commit n p end_page (Some end_offset);
          '(l, _) ← copy_to_frame n buffer f 0 end_offset 0;
          mret (acc + l)).
End Phys.
Arguments Phys : clear implicits.
Arguments heap : clear implicits.
End Ph.
