(* ===== verification/PhysInv.v ===== *)
(** * kmem: the invariant of memory objects

    What an object shows at an index is found along its links ([looks]).  The
    invariant [wf]: links go to branches and end; every entry has a frame of its own;
    a branch has two children at most, and a page marked unique is needed by one of
    them at most.  Links show the whole parent: the objects of [clone_as(_, 0, None)],
    which is what forks make.  The steps of a commit, each shown to keep the
    invariant and the bytes everybody sees: an entry changes its state, a page is
    entered where it was seen, a unique page moves to the child that needs it. *)

From S2P Require Import Prelude Ksc Bytes Paging Umio Phys.
Import Errno Umio Ph.

(** The documented behaviour of a backend that is read: a read gives some of the
    bytes there, at least one unless the end is reached, and changes no bytes. *)
Class Backing (T : Type) `{Io T} := {
  file : T -> list Z;
  backing_read o off n : 0 <= off -> 0 < n ->
    match read_at off [room n] o with
    | (Ok bs, o') => file o' = file o /\ exists k, bs = take k (drop (Z.to_nat off) (file o)) /\ len bs <= n /\
                     (bs = [] -> (length (file o) <= Z.to_nat off)%nat)
    | (Err _, o') => file o' = file o
    | (Panic, _) => False
    end;
}.

Section PhysInv.
Context {T : Type} `{IoT : Io T} `{BT : !Backing T}.

(** ** What is seen *)
Inductive src := SFrame (f : nat) (l : Z) | SBack (b : nat) (i : Z) | SZero.

Inductive looks (ps : gmap nat Phys) : nat -> Z -> src -> Prop :=
| looks_own p ph i fi s :
    ps !! p = Some ph -> frames ph !! i = Some fi -> state fi = Some s ->
    looks ps p i (SFrame (state_frame s).1 (state_frame s).2)
| looks_up p ph i q x :
    ps !! p = Some ph -> frames ph !! i = None -> parent ph = Some (PPhys q 0 None) -> looks ps q i x -> looks ps p i x
| looks_back p ph i b :
    ps !! p = Some ph -> frames ph !! i = None -> parent ph = Some (PBackend b) -> looks ps p i (SBack b i)
| looks_zero p ph i :
    ps !! p = Some ph -> frames ph !! i = None -> parent ph = None -> looks ps p i SZero.

(** A page of bytes, with zeros behind the end. *)
Definition pad (bs : list Z) : list Z := splice zeros 0 (take (Z.to_nat PAGE_SIZE) bs).
Definition bytes_of (h : heap T) (x : src) : option (list Z) :=
  match x with
  | SFrame f _ => pages h !! f
  | SBack b i => (fun o => pad (drop (Z.to_nat (i * PAGE_SIZE)) (file o))) <$> backs h !! b
  | SZero => Some zeros
  end.
(** The object [p] shows the bytes [bs] at the index [i]. *)
Definition sees (h : heap T) (p : nat) (i : Z) (bs : list Z) : Prop :=
  exists x, looks (physs h) p i x /\ bytes_of h x = Some bs.

Lemma looks_det ps p i x y : looks ps p i x -> looks ps p i y -> x = y.
Proof. intros Hx. revert y. induction Hx; intros y Hy; inversion Hy; simplify_eq; auto. Qed.

(** ** The invariant *)
Definition child (ps : gmap nat Phys) (q d : nat) : Prop :=
  exists dph, ps !! d = Some dph /\ parent dph = Some (PPhys q 0 None).
Definition lacks (ps : gmap nat Phys) (d : nat) (i : Z) : Prop := exists dph, ps !! d = Some dph /\ frames dph !! i = None.
(** Somebody looks for the index [i] through [d]: an object in use that lacks it
    itself, or has it looked for through one of its children. *)
Inductive needs (ps : gmap nat Phys) (i : Z) : nat -> Prop :=
| needs_leaf d dph : ps !! d = Some dph -> branch dph = false -> frames dph !! i = None -> needs ps i d
| needs_up d dph e : ps !! d = Some dph -> frames dph !! i = None -> child ps d e -> needs ps i e -> needs ps i d.
Definition entry (ps : gmap nat Phys) (p : nat) (i : Z) (fi : FrameInfo) : Prop :=
  exists ph, ps !! p = Some ph /\ frames ph !! i = Some fi.

(** A frame that holds [l] bytes. *)
Definition page_ok (h : heap T) (f : nat) (l : Z) : Prop :=
  f <> ZERO /\ 0 <= l <= PAGE_SIZE /\
  exists bs, pages h !! f = Some bs /\ length bs = Z.to_nat PAGE_SIZE /\ Forall (eq 0) (drop (Z.to_nat l) bs).
Definition state_ok (h : heap T) (br : bool) (fi : FrameInfo) : Prop :=
  exists s, state fi = Some s /\ page_ok h (state_frame s).1 (state_frame s).2 /\
    (br = false -> s = Shared (state_frame s).1 (state_frame s).2).
Definition link_ok (rank : nat -> nat) (h : heap T) (p : nat) (ph : Phys) : Prop :=
  match parent ph with
  | Some (PPhys q start end_) =>
      start = 0 /\ end_ = None /\ (rank q < rank p)%nat /\ exists phq, physs h !! q = Some phq /\ branch phq = true
  | Some (PBackend b) => is_Some (backs h !! b)
  | None => True
  end.
Definition frame_of (fi : FrameInfo) : option nat := (fun s => (state_frame s).1) <$> state fi.

Record wf (rank : nat -> nat) (h : heap T) : Prop := mk_wf {
  wf_link p ph : physs h !! p = Some ph -> link_ok rank h p ph;
  wf_state p ph i fi : physs h !! p = Some ph -> frames ph !! i = Some fi -> state_ok h (branch ph) fi;
  wf_linear p i fi p' i' fi' f : entry (physs h) p i fi -> entry (physs h) p' i' fi' ->
    frame_of fi = Some f -> frame_of fi' = Some f -> p = p' /\ i = i';
  wf_two q a b c : child (physs h) q a -> child (physs h) q b -> child (physs h) q c -> a = b \/ a = c \/ b = c;
  wf_unique q i fi f l a b : entry (physs h) q i fi -> state fi = Some (Unique f l) ->
    child (physs h) q a -> child (physs h) q b -> needs (physs h) i a -> needs (physs h) i b -> a = b;
  wf_zero : pages h !! ZERO = Some zeros;
  wf_index p i fi : entry (physs h) p i fi -> 0 <= i;
}.

(** Every object shows a page at every index. *)
Lemma sees_total rank h p ph i : wf rank h -> physs h !! p = Some ph -> exists bs, sees h p i bs.
Proof.
  intros Hw. remember (rank p) as k eqn:Hk. revert p ph Hk. induction k as [k IH] using lt_wf_ind. intros p ph -> Hp.
  destruct (frames ph !! i) as [fi|] eqn:Ef.
  - destruct (wf_state _ _ Hw p ph i fi Hp Ef) as (s & Hs & (_ & _ & bs & Hb & _) & _).
    exists bs. eexists. split; [by eapply looks_own|done].
  - pose proof (wf_link _ _ Hw p ph Hp) as Hl. unfold link_ok in Hl. destruct (parent ph) as [[q s e|b]|] eqn:Ep.
    + destruct Hl as (-> & -> & Hr & phq & Hq & _). destruct (IH (rank q) Hr q phq eq_refl Hq) as (bs & x & Hx & Hb).
      exists bs, x. split; [by eapply looks_up|done].
    + destruct Hl as [o Ho]. eexists _, _. split; [by eapply looks_back|]. cbn. by rewrite Ho.
    + eexists _, _. split; [by eapply looks_zero|]. done.
Qed.

(** ** An entry is put *)
Definition put (ps : gmap nat Phys) (p : nat) (ph : Phys) (i : Z) (fi : FrameInfo) : gmap nat Phys :=
  <[p := set_frames (<[i := fi]> (frames ph)) ph]> ps.

Section Put.
Variables (ps : gmap nat Phys) (p : nat) (ph : Phys) (i : Z) (fi : FrameInfo).
Hypothesis Hp : ps !! p = Some ph.
Notation ps' := (put ps p ph i fi).

Lemma put_lookup x xph :
  ps' !! x = Some xph -> exists xph0, ps !! x = Some xph0 /\ branch xph = branch xph0 /\ parent xph = parent xph0 /\
    forall j, frames xph !! j = if decide (x = p /\ j = i) then Some fi else frames xph0 !! j.
Proof.
  unfold put. intros Hx. apply lookup_insert_Some in Hx as [(<- & <-)|(Hne & Hx)].
  - exists ph. split_and!; try done. intros j. cbn. destruct (decide (i = j)) as [->|Hj].
    + by rewrite lookup_insert_eq, decide_True.
    + rewrite lookup_insert_ne by done. rewrite decide_False; [done|naive_solver].
  - exists xph. split_and!; try done. intros j. rewrite decide_False; [done|naive_solver].
Qed.
Lemma put_lookup_back x xph0 :
  ps !! x = Some xph0 -> exists xph, ps' !! x = Some xph /\ branch xph = branch xph0 /\ parent xph = parent xph0 /\
    forall j, frames xph !! j = if decide (x = p /\ j = i) then Some fi else frames xph0 !! j.
Proof.
  intros Hx. destruct (decide (x = p)) as [->|Hne].
  - simplify_eq. eexists. split; [unfold put; apply lookup_insert_eq|]. split_and!; try done. intros j. cbn.
    destruct (decide (i = j)) as [->|Hj].
    + by rewrite lookup_insert_eq, decide_True.
    + rewrite lookup_insert_ne by done. rewrite decide_False; [done|naive_solver].
  - exists xph0. split; [unfold put; by rewrite lookup_insert_ne|]. split_and!; try done. intros j. rewrite decide_False; [done|naive_solver].
Qed.
Lemma put_child q d : child ps' q d <-> child ps q d.
Proof.
  split; intros (dph & Hd & Hq).
  - destruct (put_lookup _ _ Hd) as (d0 & Hd0 & _ & Hpar & _). exists d0. split; [done|congruence].
  - destruct (put_lookup_back _ _ Hd) as (d1 & Hd1 & _ & Hpar & _). exists d1. split; [done|congruence].
Qed.
Lemma put_needs d j : needs ps' j d -> needs ps j d.
Proof.
  induction 1 as [d dph Hd Hb Hf|d dph e Hd Hf Hc Hn IH]; destruct (put_lookup _ _ Hd) as (d0 & Hd0 & Hb0 & _ & Hfr);
    rewrite Hfr in Hf; (destruct (decide (d = p /\ j = i)); [done|]).
  - eapply needs_leaf; [exact Hd0|congruence|done].
  - eapply needs_up; [exact Hd0|done|by apply put_child|done].
Qed.
Lemma put_entry x j fj : entry ps' x j fj <-> (x = p /\ j = i /\ fj = fi) \/ (~ (x = p /\ j = i) /\ entry ps x j fj).
Proof.
  split.
  - intros (xph & Hx & Hf). destruct (put_lookup _ _ Hx) as (x0 & Hx0 & _ & _ & Hfr). rewrite Hfr in Hf.
    destruct (decide (x = p /\ j = i)) as [[-> ->]|Hne]; [left; naive_solver|right; split; [done|by exists x0]].
  - intros [(-> & -> & ->)|[Hne (x0 & Hx & Hf)]].
    + destruct (put_lookup_back _ _ Hp) as (x1 & Hx1 & _ & _ & Hfr). exists x1. split; [done|]. by rewrite Hfr, decide_True.
    + destruct (put_lookup_back _ _ Hx) as (x1 & Hx1 & _ & _ & Hfr). exists x1. split; [done|]. by rewrite Hfr, decide_False.
Qed.
Lemma put_link rank h0 h1 x xph x0 :
  physs h0 = ps -> physs h1 = ps' -> backs h1 = backs h0 -> parent xph = parent x0 -> link_ok rank h0 x x0 -> link_ok rank h1 x xph.
Proof.
  intros H0 H1 Hb Hpar. unfold link_ok. rewrite Hpar, Hb. destruct (parent x0) as [[q s e|b]|]; [|done|done].
  intros (? & ? & ? & phq & Hq & Hbr). split_and!; try done. rewrite H0 in Hq.
  destruct (put_lookup_back _ _ Hq) as (q1 & Hq1 & Hb1 & _). exists q1. rewrite H1. split; [done|congruence].
Qed.
End Put.

(** The same entry with another state of the same frame. *)
Section Restate.
Variables (rank : nat -> nat) (h : heap T) (p : nat) (ph : Phys) (i : Z) (fi fi' : FrameInfo) (s s' : FrameState) (f : nat) (l l' : Z).
Hypothesis Hw : wf rank h.
Hypothesis Hp : physs h !! p = Some ph.
Hypothesis Hfi : frames ph !! i = Some fi.
Hypothesis Hs : state fi = Some s /\ state_frame s = (f, l).
Hypothesis Hs' : state fi' = Some s' /\ state_frame s' = (f, l').
Hypothesis Hl : l <= l' <= PAGE_SIZE.
Hypothesis Hleaf : branch ph = false -> s' = Shared f l'.
Hypothesis Huniq : s' = Unique f l' -> forall a b, child (physs h) p a -> child (physs h) p b -> needs (physs h) i a -> needs (physs h) i b -> a = b.
Notation h' := (set_physs (put (physs h) p ph i fi') h).

Lemma restate_looks x j y :
  looks (physs h) x j y -> exists y', looks (physs h') x j y' /\ (y' = y \/ y = SFrame f l /\ y' = SFrame f l').
Proof.
  destruct Hs as [Hs1 Hs2], Hs' as [Hs1' Hs2'].
  induction 1 as [x xph j fj t Hx Hf Ht|x xph j q y Hx Hf Hpar _ (y' & IH & Hy)|x xph j b Hx Hf Hpar|x xph j Hx Hf Hpar].
  - destruct (put_lookup_back (physs h) p ph i fi' Hp _ _ Hx) as (x1 & Hx1 & _ & _ & Hfr).
    destruct (decide (x = p /\ j = i)) as [[-> ->]|Hne].
    + simplify_eq. exists (SFrame f l'). split; [|right; by rewrite Hs2].
      replace (SFrame f l') with (SFrame (state_frame s').1 (state_frame s').2) by (by rewrite Hs2').
      eapply looks_own; [exact Hx1|by rewrite Hfr, decide_True|done].
    + eexists. split; [|by left]. eapply looks_own; [exact Hx1|by rewrite Hfr, decide_False|done].
  - destruct (put_lookup_back (physs h) p ph i fi' Hp _ _ Hx) as (x1 & Hx1 & _ & Hp1 & Hfr).
    exists y'. split; [|done]. eapply looks_up; [exact Hx1| |by rewrite Hp1|done].
    rewrite Hfr, decide_False; [done|]. intros [-> ->]. simplify_eq.
  - destruct (put_lookup_back (physs h) p ph i fi' Hp _ _ Hx) as (x1 & Hx1 & _ & Hp1 & Hfr).
    eexists. split; [|by left]. eapply looks_back; [exact Hx1| |by rewrite Hp1].
    rewrite Hfr, decide_False; [done|]. intros [-> ->]. simplify_eq.
  - destruct (put_lookup_back (physs h) p ph i fi' Hp _ _ Hx) as (x1 & Hx1 & _ & Hp1 & Hfr).
    eexists. split; [|by left]. eapply looks_zero; [exact Hx1| |by rewrite Hp1].
    rewrite Hfr, decide_False; [done|]. intros [-> ->]. simplify_eq.
Qed.
Lemma restate_sees x j bs : sees h x j bs -> sees h' x j bs.
Proof.
  intros (y & Hy & Hb). destruct (restate_looks _ _ _ Hy) as (y' & Hy' & [->|[-> ->]]); eexists; (split; [exact Hy'|done]).
Qed.
Lemma restate_wf : wf rank h'.
Proof.
  destruct Hs as [Hs1 Hs2], Hs' as [Hs1' Hs2'].
  assert (Hent : entry (physs h) p i fi) by (by exists ph).
  assert (Hfo : frame_of fi' = Some f /\ frame_of fi = Some f) by (unfold frame_of; rewrite Hs1, Hs1'; cbn; rewrite Hs2, Hs2'; done).
  constructor; cbn [physs set_physs].
  - intros x xph Hx. destruct (put_lookup _ _ _ _ _ Hp _ _ Hx) as (x0 & Hx0 & _ & Hpar & _).
    exact (put_link (physs h) p ph i fi' Hp rank h h' x xph x0 eq_refl eq_refl eq_refl Hpar (wf_link _ _ Hw _ _ Hx0)).
  - intros x xph j fj Hx Hf. destruct (put_lookup _ _ _ _ _ Hp _ _ Hx) as (x0 & Hx0 & Hb & _ & Hfr).
    rewrite Hfr in Hf. destruct (decide (x = p /\ j = i)) as [[-> ->]|Hne].
    + simplify_eq. destruct (wf_state _ _ Hw _ _ _ _ Hp Hfi) as (t & Ht & (Hz & Hlt & bs & Hbs & Hlen & Hzero) & _). simplify_eq.
      rewrite Hs2 in *. cbn in *. exists s'. split; [done|]. rewrite Hs2'. cbn. split.
      * split_and!; [done|lia|lia|]. exists bs. split_and!; [done|done|].
        replace (Z.to_nat l') with (Z.to_nat l + (Z.to_nat l' - Z.to_nat l))%nat by lia. rewrite <- drop_drop. by apply Forall_drop.
      * rewrite Hb. intros Hbr. by apply Hleaf.
    + rewrite Hb. exact (wf_state _ _ Hw _ _ _ _ Hx0 Hf).
  - intros x j fj x' j' fj' g Hx Hx' Hg Hg'. apply put_entry in Hx; [|done]. apply put_entry in Hx'; [|done].
    destruct Hx as [(-> & -> & ->)|[Hne Hx]], Hx' as [(-> & -> & ->)|[Hne' Hx']]; try done.
    + destruct Hfo. simplify_eq. by eapply (wf_linear _ _ Hw).
    + destruct Hfo. simplify_eq. by eapply (wf_linear _ _ Hw).
    + by eapply (wf_linear _ _ Hw).
  - intros q a b c Ha Hb Hc. apply put_child in Ha; [|done]. apply put_child in Hb; [|done]. apply put_child in Hc; [|done].
    by eapply (wf_two _ _ Hw).
  - intros q j fj g m a b He Hu Ha Hb Hla Hlb.
    apply put_child in Ha; [|done]. apply put_child in Hb; [|done]. apply put_needs in Hla; [|done]. apply put_needs in Hlb; [|done].
    apply put_entry in He; [|done]. destruct He as [(-> & -> & ->)|[_ He]].
    + assert (Hu' : s' = Unique g m) by congruence. rewrite Hu' in Hs2'. cbn in Hs2'. apply Huniq; try done. congruence.
    + by eapply (wf_unique _ _ Hw).
  - apply (wf_zero _ _ Hw).
  - intros x j fj He. apply put_entry in He; [|done]. destruct He as [(-> & -> & _)|[_ He]]; by eapply (wf_index _ _ Hw).
Qed.
End Restate.

(** A page is entered at a place where its bytes were seen. *)
Section Enter.
Variables (rank : nat -> nat) (h : heap T) (p : nat) (ph : Phys) (i : Z) (fi : FrameInfo) (f : nat) (l : Z) (bs : list Z).
Hypothesis Hw : wf rank h.
Hypothesis Hp : physs h !! p = Some ph.
Hypothesis Hnone : frames ph !! i = None.
Hypothesis Hs : state fi = Some (Shared f l).
Hypothesis Hpage : page_ok h f l.
Hypothesis Hfresh : forall x j fj, entry (physs h) x j fj -> frame_of fj <> Some f.
Hypothesis Hbs : pages h !! f = Some bs.
Hypothesis Hsee : sees h p i bs.
Hypothesis Hi : 0 <= i.
Notation h' := (set_physs (put (physs h) p ph i fi) h).

Lemma enter_looks x j y :
  looks (physs h) x j y -> exists y', looks (physs h') x j y' /\ (y' = y \/ looks (physs h) p i y /\ y' = SFrame f l).
Proof.
  assert (Hown : looks (physs h') p i (SFrame f l)).
  { destruct (put_lookup_back (physs h) p ph i fi Hp _ _ Hp) as (x1 & Hx1 & _ & _ & Hfr).
    change (SFrame f l) with (SFrame (state_frame (Shared f l)).1 (state_frame (Shared f l)).2).
    eapply looks_own; [exact Hx1|by rewrite Hfr, decide_True|done]. }
  induction 1 as [x xph j fj t Hx Hf Ht|x xph j q y Hx Hf Hpar Hq (y' & IH & Hy)|x xph j b Hx Hf Hpar|x xph j Hx Hf Hpar];
    destruct (put_lookup_back (physs h) p ph i fi Hp _ _ Hx) as (x1 & Hx1 & _ & Hp1 & Hfr);
    destruct (decide (x = p /\ j = i)) as [[-> ->]|Hne].
  - simplify_eq.
  - eexists. split; [|by left]. eapply looks_own; [exact Hx1|by rewrite Hfr, decide_False|done].
  - eexists. split; [exact Hown|]. right. split; [|done]. by eapply looks_up.
  - exists y'. split; [|done]. eapply looks_up; [exact Hx1|by rewrite Hfr, decide_False|by rewrite Hp1|done].
  - eexists. split; [exact Hown|]. right. split; [|done]. by eapply looks_back.
  - eexists. split; [|by left]. eapply looks_back; [exact Hx1|by rewrite Hfr, decide_False|by rewrite Hp1].
  - eexists. split; [exact Hown|]. right. split; [|done]. by eapply looks_zero.
  - eexists. split; [|by left]. eapply looks_zero; [exact Hx1|by rewrite Hfr, decide_False|by rewrite Hp1].
Qed.
Lemma enter_sees x j cs : sees h x j cs -> sees h' x j cs.
Proof.
  intros (y & Hy & Hb). destruct (enter_looks _ _ _ Hy) as (y' & Hy' & [->|[Hpy ->]]); eexists; (split; [exact Hy'|]); [done|].
  destruct Hsee as (z & Hz & Hbz). pose proof (looks_det _ _ _ _ _ Hz Hpy). subst. cbn. congruence.
Qed.
Lemma enter_wf : wf rank h'.
Proof.
  assert (Hfo : frame_of fi = Some f) by (unfold frame_of; by rewrite Hs).
  constructor; cbn [physs set_physs].
  - intros x xph Hx. destruct (put_lookup _ _ _ _ _ Hp _ _ Hx) as (x0 & Hx0 & _ & Hpar & _).
    exact (put_link (physs h) p ph i fi Hp rank h h' x xph x0 eq_refl eq_refl eq_refl Hpar (wf_link _ _ Hw _ _ Hx0)).
  - intros x xph j fj Hx Hf. destruct (put_lookup _ _ _ _ _ Hp _ _ Hx) as (x0 & Hx0 & Hb & _ & Hfr).
    rewrite Hfr in Hf. destruct (decide (x = p /\ j = i)) as [[-> ->]|Hne].
    + simplify_eq. exists (Shared f l). done.
    + rewrite Hb. exact (wf_state _ _ Hw _ _ _ _ Hx0 Hf).
  - intros x j fj x' j' fj' g Hx Hx' Hg Hg'. apply put_entry in Hx; [|done]. apply put_entry in Hx'; [|done].
    destruct Hx as [(-> & -> & ->)|[Hne Hx]], Hx' as [(-> & -> & ->)|[Hne' Hx']]; try done.
    + exfalso. apply (Hfresh _ _ _ Hx'). congruence.
    + exfalso. apply (Hfresh _ _ _ Hx). congruence.
    + by eapply (wf_linear _ _ Hw).
  - intros q a b c Ha Hb Hc. apply put_child in Ha; [|done]. apply put_child in Hb; [|done]. apply put_child in Hc; [|done].
    by eapply (wf_two _ _ Hw).
  - intros q j fj g m a b He Hu Ha Hb Hla Hlb.
    apply put_child in Ha; [|done]. apply put_child in Hb; [|done]. apply put_needs in Hla; [|done]. apply put_needs in Hlb; [|done].
    apply put_entry in He; [|done]. destruct He as [(-> & -> & ->)|[_ He]]; [congruence|by eapply (wf_unique _ _ Hw)].
  - apply (wf_zero _ _ Hw).
  - intros x j fj He. apply put_entry in He; [|done]. destruct He as [(_ & -> & _)|[_ He]]; [done|by eapply (wf_index _ _ Hw)].
Qed.
End Enter.

(** A unique page of a branch moves to the child that needs it. *)
Section Move.
Variables (rank : nat -> nat) (h : heap T) (q d : nat) (phq dph : Phys) (i : Z) (fi fi' : FrameInfo) (f : nat) (l : Z).
Hypothesis Hw : wf rank h.
Hypothesis Hq : physs h !! q = Some phq.
Hypothesis Hfi : frames phq !! i = Some fi.
Hypothesis Hs : state fi = Some (Unique f l).
Hypothesis Hd : physs h !! d = Some dph.
Hypothesis Hlink : parent dph = Some (PPhys q 0 None).
Hypothesis Hnone : frames dph !! i = None.
Hypothesis Hneed : needs (physs h) i d.
Hypothesis Hs' : state fi' = Some (Shared f l).
Definition taken : gmap nat Phys := <[q := set_frames (delete i (frames phq)) phq]> (physs h).
Notation h' := (set_physs (put taken d dph i fi') h).

Lemma move_ne : d <> q.
Proof.
  intros ->. pose proof (wf_link _ _ Hw _ _ Hd) as Hl. unfold link_ok in Hl. rewrite Hlink in Hl. destruct Hl as (_ & _ & ? & _). lia.
Qed.
Definition moved_frames (x : nat) (j : Z) (old : option FrameInfo) : option FrameInfo :=
  if decide (x = d /\ j = i) then Some fi' else if decide (x = q /\ j = i) then None else old.
Lemma move_lookup x :
  match physs h !! x, physs h' !! x with
  | Some x0, Some x1 => branch x1 = branch x0 /\ parent x1 = parent x0 /\ forall j, frames x1 !! j = moved_frames x j (frames x0 !! j)
  | None, None => True
  | _, _ => False
  end.
Proof.
  pose proof move_ne as Hne. cbn [physs set_physs]. unfold put, taken, moved_frames.
  destruct (decide (x = d)) as [->|Hxd].
  - rewrite Hd, lookup_insert_eq. split_and!; [done|done|]. intros j. cbn. destruct (decide (i = j)) as [->|Hj].
    + by rewrite lookup_insert_eq, decide_True.
    + rewrite lookup_insert_ne by done. rewrite !decide_False; naive_solver.
  - rewrite lookup_insert_ne by done. destruct (decide (x = q)) as [->|Hxq].
    + rewrite Hq, lookup_insert_eq. split_and!; [done|done|]. intros j. cbn. rewrite (decide_False (P := q = d /\ j = i)) by naive_solver.
      destruct (decide (i = j)) as [->|Hj]; [by rewrite lookup_delete_eq, decide_True|].
      rewrite lookup_delete_ne by done. rewrite decide_False; naive_solver.
    + rewrite lookup_insert_ne by done. destruct (physs h !! x); [|done]. split_and!; [done|done|]. intros j.
      rewrite !decide_False; naive_solver.
Qed.
Lemma move_fwd x x0 : physs h !! x = Some x0 -> exists x1, physs h' !! x = Some x1 /\ branch x1 = branch x0 /\ parent x1 = parent x0 /\
  forall j, frames x1 !! j = moved_frames x j (frames x0 !! j).
Proof. intros Hx. pose proof (move_lookup x) as Hl. rewrite Hx in Hl. destruct (physs h' !! x); [eauto|done]. Qed.
Lemma move_back x x1 : physs h' !! x = Some x1 -> exists x0, physs h !! x = Some x0 /\ branch x1 = branch x0 /\ parent x1 = parent x0 /\
  forall j, frames x1 !! j = moved_frames x j (frames x0 !! j).
Proof. intros Hx. pose proof (move_lookup x) as Hl. rewrite Hx in Hl. destruct (physs h !! x); [eauto|done]. Qed.
Lemma move_child a b : child (physs h') a b <-> child (physs h) a b.
Proof.
  split; intros (x & Hx & Hpar).
  - destruct (move_back _ _ Hx) as (x0 & Hx0 & _ & Hp & _). exists x0. split; [done|congruence].
  - destruct (move_fwd _ _ Hx) as (x1 & Hx1 & _ & Hp & _). exists x1. split; [done|congruence].
Qed.
Lemma move_entry x j fj :
  entry (physs h') x j fj <-> (x = d /\ j = i /\ fj = fi') \/ (~ (x = d /\ j = i) /\ ~ (x = q /\ j = i) /\ entry (physs h) x j fj).
Proof.
  split.
  - intros (x1 & Hx & Hf). destruct (move_back _ _ Hx) as (x0 & Hx0 & _ & _ & Hfr). rewrite Hfr in Hf. unfold moved_frames in Hf.
    destruct (decide (x = d /\ j = i)) as [[-> ->]|?]; [left; naive_solver|]. destruct (decide (x = q /\ j = i)); [done|].
    right. split_and!; [done|done|by exists x0].
  - intros [(-> & -> & ->)|(H1 & H2 & x0 & Hx & Hf)].
    + destruct (move_fwd _ _ Hd) as (x1 & Hx1 & _ & _ & Hfr). exists x1. split; [done|]. rewrite Hfr. unfold moved_frames. by rewrite decide_True.
    + destruct (move_fwd _ _ Hx) as (x1 & Hx1 & _ & _ & Hfr). exists x1. split; [done|]. rewrite Hfr. unfold moved_frames. by rewrite !decide_False.
Qed.
Lemma move_needs x j : needs (physs h') j x -> needs (physs h) j x.
Proof.
  assert (Hqb : branch phq = true).
  { pose proof (wf_link _ _ Hw _ _ Hd) as Hl. unfold link_ok in Hl. rewrite Hlink in Hl. destruct Hl as (_ & _ & _ & ph & Hph & ?). by simplify_eq. }
  induction 1 as [x x1 Hx Hb Hf|x x1 e Hx Hf Hc Hn IH]; destruct (move_back _ _ Hx) as (x0 & Hx0 & Hb0 & _ & Hfr);
    rewrite Hfr in Hf; unfold moved_frames in Hf; (destruct (decide (x = d /\ j = i)); [done|]);
    destruct (decide (x = q /\ j = i)) as [[-> ->]|?].
  - simplify_eq. congruence.
  - eapply needs_leaf; [exact Hx0|congruence|done].
  - apply move_child in Hc. assert (e = d) as -> by (eapply (wf_unique _ _ Hw q i fi); [by exists phq|done|done|by exists dph|done|done]).
    destruct (move_fwd _ _ Hd) as (d1 & Hd1 & _ & _ & Hfd).
    assert (Hd1i : frames d1 !! i = Some fi') by (rewrite Hfd; unfold moved_frames; by rewrite decide_True).
    inversion Hn; simplify_eq.
  - eapply needs_up; [exact Hx0|done|by apply move_child|done].
Qed.
Lemma move_looks x j y :
  looks (physs h) x j y -> (lacks (physs h) x j -> needs (physs h) j x) -> ~ (x = q /\ j = i) -> looks (physs h') x j y.
Proof.
  assert (Hown : looks (physs h') d i (SFrame f l)).
  { destruct (move_fwd _ _ Hd) as (x1 & Hx1 & _ & _ & Hfr).
    change (SFrame f l) with (SFrame (state_frame (Shared f l)).1 (state_frame (Shared f l)).2).
    eapply looks_own; [exact Hx1|rewrite Hfr; unfold moved_frames; by rewrite decide_True|done]. }
  induction 1 as [x xph j fj t Hx Hf Ht|x xph j r y Hx Hf Hpar Hr IH|x xph j b Hx Hf Hpar|x xph j Hx Hf Hpar]; intros Hn Hne;
    destruct (move_fwd _ _ Hx) as (x1 & Hx1 & _ & Hp1 & Hfr); unfold moved_frames in Hfr.
  - eapply looks_own; [exact Hx1| |done]. rewrite Hfr, !decide_False; [done|done|]. intros [-> ->]. simplify_eq.
  - assert (Hnx : needs (physs h) j x) by (apply Hn; by exists xph).
    destruct (decide (r = q /\ j = i)) as [[-> ->]|Hri].
    + assert (x = d) as -> by (eapply (wf_unique _ _ Hw q i fi); [by exists phq|done|by exists xph|by exists dph|done|done]).
      inversion Hr; simplify_eq. exact Hown.
    + destruct (decide (x = d /\ j = i)) as [[-> ->]|Hxd]; [exfalso; simplify_eq; naive_solver|].
      eapply looks_up; [exact Hx1|by rewrite Hfr, !decide_False|by rewrite Hp1|]. apply IH; [|done].
      intros (rph & Hrp & Hrf). eapply needs_up; [exact Hrp|done|by exists xph|done].
  - destruct (decide (x = d /\ j = i)) as [[-> ->]|Hxd]; [simplify_eq|].
    eapply looks_back; [exact Hx1|by rewrite Hfr, !decide_False|by rewrite Hp1].
  - destruct (decide (x = d /\ j = i)) as [[-> ->]|Hxd]; [simplify_eq|].
    eapply looks_zero; [exact Hx1|by rewrite Hfr, !decide_False|by rewrite Hp1].
Qed.
Lemma move_sees x xph j bs : physs h !! x = Some xph -> branch xph = false -> sees h x j bs -> sees h' x j bs.
Proof.
  intros Hx Hb (y & Hy & Hbs). exists y. split; [|done]. apply move_looks; [done| |].
  - intros (x0 & Hx0 & Hf). simplify_eq. by eapply needs_leaf.
  - intros [-> ->]. pose proof (wf_link _ _ Hw _ _ Hd) as Hl. unfold link_ok in Hl. rewrite Hlink in Hl.
    destruct Hl as (_ & _ & _ & ph & Hph & ?). simplify_eq. congruence.
Qed.
Lemma move_wf : wf rank h'.
Proof.
  assert (Hfo : frame_of fi = Some f /\ frame_of fi' = Some f) by (unfold frame_of; by rewrite Hs, Hs').
  assert (Hent : entry (physs h) q i fi) by (by exists phq).
  constructor.
  - intros x x1 Hx. destruct (move_back _ _ Hx) as (x0 & Hx0 & _ & Hpar & _). pose proof (wf_link _ _ Hw _ _ Hx0) as Hl.
    unfold link_ok in *. rewrite Hpar. destruct (parent x0) as [[r a e|b]|]; [|done|done].
    destruct Hl as (? & ? & ? & phr & Hr & Hbr). split_and!; try done.
    destruct (move_fwd _ _ Hr) as (r1 & Hr1 & Hb1 & _). exists r1. split; [done|congruence].
  - intros x x1 j fj Hx Hf. destruct (move_back _ _ Hx) as (x0 & Hx0 & Hb & _ & Hfr). rewrite Hfr in Hf. unfold moved_frames in Hf.
    destruct (decide (x = d /\ j = i)) as [[-> ->]|?].
    + simplify_eq. destruct (wf_state _ _ Hw _ _ _ _ Hq Hfi) as (t & Ht & Hpg & _). simplify_eq. by exists (Shared f l).
    + destruct (decide (x = q /\ j = i)); [done|]. rewrite Hb. exact (wf_state _ _ Hw _ _ _ _ Hx0 Hf).
  - intros x j fj x' j' fj' g Hx Hx' Hg Hg'. apply move_entry in Hx. apply move_entry in Hx'.
    destruct Hfo, Hx as [(-> & -> & ->)|(H1 & H2 & Hx)], Hx' as [(-> & -> & ->)|(H1' & H2' & Hx')]; try done; simplify_eq.
    + destruct (wf_linear _ _ Hw _ _ _ _ _ _ _ Hent Hx' ltac:(done) ltac:(done)); naive_solver.
    + destruct (wf_linear _ _ Hw _ _ _ _ _ _ _ Hent Hx ltac:(done) ltac:(done)); naive_solver.
    + by eapply (wf_linear _ _ Hw).
  - intros r a b c Ha Hb Hc. apply move_child in Ha, Hb, Hc. by eapply (wf_two _ _ Hw).
  - intros r j fj g m a b He Hu Ha Hb Hla Hlb. apply move_child in Ha, Hb. apply move_entry in He.
    destruct He as [(-> & -> & ->)|(_ & H2 & He)]; [congruence|].
    apply move_needs in Hla, Hlb. by eapply (wf_unique _ _ Hw).
  - apply (wf_zero _ _ Hw).
  - intros x j fj He. apply move_entry in He. destruct He as [(_ & -> & _)|(_ & _ & He)]; by eapply (wf_index _ _ Hw).
Qed.
End Move.

(** More frames, or a backend that has been read, change nothing. *)
Section Outside.
Variables (rank : nat -> nat) (h h' : heap T).
Hypothesis Hw : wf rank h.
Hypothesis Hphys : physs h' = physs h.
Hypothesis Hpages : forall f bs, pages h !! f = Some bs -> pages h' !! f = Some bs.
Hypothesis Hbacks : forall b o, backs h !! b = Some o -> exists o', backs h' !! b = Some o' /\ file o' = file o.

Lemma outside_sees x j bs : sees h x j bs -> sees h' x j bs.
Proof.
  intros (y & Hy & Hb). exists y. rewrite Hphys. split; [done|]. destruct y as [f l|b i|]; cbn in *; [by apply Hpages| |done].
  destruct (backs h !! b) as [o|] eqn:Eo; [|done]. destruct (Hbacks b o Eo) as (o' & -> & Hf). cbn in *. by rewrite Hf.
Qed.
Lemma outside_wf : wf rank h'.
Proof.
  constructor; rewrite ?Hphys.
  - intros p ph Hp. pose proof (wf_link _ _ Hw _ _ Hp) as Hl. unfold link_ok in *. rewrite Hphys.
    destruct (parent ph) as [[q s e|b]|]; [done| |done]. destruct Hl as [o Ho]. destruct (Hbacks b o Ho) as (o' & -> & _). by eexists.
  - intros p ph i fi Hp Hf. destruct (wf_state _ _ Hw _ _ _ _ Hp Hf) as (s & Hs & (Hz & Hl & bs & Hb & Hlen & Hzero) & Hsh).
    exists s. split; [done|]. split; [|done]. split; [done|]. split; [done|]. exists bs. split_and!; auto.
  - apply (wf_linear _ _ Hw).
  - apply (wf_two _ _ Hw).
  - apply (wf_unique _ _ Hw).
  - apply Hpages, (wf_zero _ _ Hw).
  - apply (wf_index _ _ Hw).
Qed.
End Outside.
End PhysInv.
