(* ===== verification/PhysCommit.v ===== *)
(** * kmem: merging a parent nobody else has, and committing a page

    First [merge_sole_parent], then the walk of [commit] over it.  It takes a branch with one child out of the heap and gives its
    pages and its link to the child; everybody sees what they saw before. *)

From S2P Require Import Prelude Ksc Bytes Paging Umio Phys PhysInv.

Import Errno Umio Ph.

Section Merge.
Context {T : Type} `{IoT : Io T} `{BT : !Backing T}.

(** ** Counting links *)
Lemma count_sole (h : heap T) q a b : count h q = 1%nat -> child (physs h) q a -> child (physs h) q b -> a = b.
Proof.
  intros Hc (pa & Ha & Hqa) (pb & Hb & Hqb). unfold count in Hc.
  assert (Hin : forall x ph, physs h !! x = Some ph -> parent ph = Some (PPhys q 0 None) ->
    In (x, ph) (List.filter (fun x => links_to q x.2) (map_to_list (physs h)))).
  { intros x ph Hx Hp. apply filter_In. split; [by apply list_elem_of_In, elem_of_map_to_list|].
    unfold links_to. cbn. by rewrite Hp, Nat.eqb_refl. }
  pose proof (Hin _ _ Ha Hqa) as H1. pose proof (Hin _ _ Hb Hqb) as H2.
  destruct (List.filter _ _) as [|x [|]]; cbn in *; try done. destruct H1 as [->|[]], H2 as [H2|[]]. congruence.
Qed.

Lemma window_all (fs : gmap Z FrameInfo) i : (forall j fi, fs !! j = Some fi -> 0 <= j) -> window 0 None fs !! i = settle <$> fs !! i.
Proof.
  intros Hpos. unfold window. set (g := fun pi => pi - 0).
  assert (Hinj : Inj (=) (=) g) by (intros a b; unfold g; lia).
  replace i with (g i) at 1 by (unfold g; lia). rewrite lookup_kmap, lookup_fmap by done.
  f_equal. rewrite map_lookup_filter. destruct (fs !! i) as [fi|] eqn:E; [|done]. cbn.
  rewrite option_guard_True; [done|]. specialize (Hpos _ _ E). by rewrite (proj2 (Z.leb_le 0 i)).
Qed.

Section OneStep.
Variables (rank : nat -> nat) (h : heap T) (p q : nat) (ph phq : Phys).
Hypothesis Hw : wf rank h.
Hypothesis Hp : physs h !! p = Some ph.
Hypothesis Hlink : parent ph = Some (PPhys q 0 None).
Hypothesis Hq : physs h !! q = Some phq.
Hypothesis Hsole : forall x, child (physs h) q x -> x = p.

Definition merged : Phys :=
  mk_phys (branch ph) (merged_parent 0 None <$> parent phq) (frames ph ∪ window 0 None (frames phq)) (position ph) (cow ph) (flusher ph).
Notation h' := (set_physs (<[p := merged]> (delete q (physs h))) h).

Lemma merge_rank : (rank q < rank p)%nat.
Proof. pose proof (wf_link _ _ Hw _ _ Hp) as Hl. unfold link_ok in Hl. rewrite Hlink in Hl. by destruct Hl as (_ & _ & ? & _). Qed.
Lemma merge_ne : q <> p.
Proof. pose proof merge_rank. intros ->. lia. Qed.
Lemma merged_link : parent merged = parent phq.
Proof.
  cbn. pose proof (wf_link _ _ Hw _ _ Hq) as Hl. unfold link_ok in Hl. destruct (parent phq) as [[r s e|b]|]; [|done|done].
  destruct Hl as (-> & -> & _). done.
Qed.
Lemma merged_frames i : frames merged !! i = match frames ph !! i with Some fi => Some fi | None => settle <$> frames phq !! i end.
Proof.
  cbn. rewrite lookup_union, window_all.
  - destruct (frames ph !! i); cbn; [by destruct (settle <$> _)|by destruct (settle <$> _)].
  - intros j fi Hf. eapply (wf_index _ _ Hw q). by exists phq.
Qed.
Lemma merge_at x : physs h' !! x = if decide (x = p) then Some merged else if decide (x = q) then None else physs h !! x.
Proof.
  cbn. destruct (decide (x = p)) as [->|]; [apply lookup_insert_eq|]. rewrite lookup_insert_ne by done.
  destruct (decide (x = q)) as [->|]; [apply lookup_delete_eq|by rewrite lookup_delete_ne].
Qed.
Lemma merge_other x xph : physs h' !! x = Some xph -> x <> p -> x <> q /\ physs h !! x = Some xph.
Proof. rewrite merge_at. intros Hx Hne. rewrite decide_False in Hx by done. by destruct (decide (x = q)). Qed.
Lemma merge_self xph : physs h' !! p = Some xph -> xph = merged.
Proof. rewrite merge_at, decide_True by done. by intros [= <-]. Qed.

Lemma merge_looks x j y :
  looks (physs h) x j y -> (x <> q -> looks (physs h') x j y) /\ (x = q -> frames ph !! j = None -> looks (physs h') p j y).
Proof.
  assert (Hat : physs h' !! p = Some merged) by (by rewrite merge_at, decide_True).
  assert (Hkeep : forall x xph, physs h !! x = Some xph -> x <> p -> x <> q -> physs h' !! x = Some xph).
  { intros z zph Hz H1 H2. by rewrite merge_at, !decide_False. }
  pose proof merge_ne as Hne. pose proof merged_frames as Hmf.
  induction 1 as [x xph j fj t Hx Hf Ht|x xph j r y Hx Hf Hpar Hr [IH1 IH2]|x xph j b Hx Hf Hpar|x xph j Hx Hf Hpar].
  - split.
    + intros Hxq. destruct (decide (x = p)) as [->|Hxp]; [|by eapply looks_own; eauto].
      simplify_eq. eapply looks_own; [exact Hat|by rewrite Hmf, Hf|done].
    + intros -> Hnone. simplify_eq.
      assert (Hset : state (settle fj) = Some (Shared (state_frame t).1 (state_frame t).2)) by (unfold settle; rewrite Ht; by destruct t).
      change (SFrame (state_frame t).1 (state_frame t).2)
        with (SFrame (state_frame (Shared (state_frame t).1 (state_frame t).2)).1 (state_frame (Shared (state_frame t).1 (state_frame t).2)).2).
      eapply looks_own; [exact Hat|by rewrite Hmf, Hnone, Hf|done].
  - split.
    + intros Hxq. destruct (decide (r = q)) as [->|Hrq].
      * assert (x = p) as -> by (apply Hsole; by exists xph). simplify_eq. by apply IH2.
      * assert (x <> p) by (intros ->; simplify_eq). eapply looks_up; [by apply Hkeep|done|done|by apply IH1].
    + intros -> Hnone. simplify_eq. eapply looks_up; [exact Hat|by rewrite Hmf, Hnone, Hf|by rewrite merged_link|].
      apply IH1. intros ->. pose proof (wf_link _ _ Hw _ _ Hq) as Hl. unfold link_ok in Hl. rewrite Hpar in Hl. destruct Hl as (_ & _ & ? & _). lia.
  - split.
    + intros Hxq. assert (x <> p) by (intros ->; simplify_eq). eapply looks_back; [by apply Hkeep|done|done].
    + intros -> Hnone. simplify_eq. eapply looks_back; [exact Hat|by rewrite Hmf, Hnone, Hf|by rewrite merged_link].
  - split.
    + intros Hxq. assert (x <> p) by (intros ->; simplify_eq). eapply looks_zero; [by apply Hkeep|done|done].
    + intros -> Hnone. simplify_eq. eapply looks_zero; [exact Hat|by rewrite Hmf, Hnone, Hf|by rewrite merged_link].
Qed.
Lemma merge_sees x j bs : x <> q -> sees h x j bs -> sees h' x j bs.
Proof. intros Hx (y & Hy & Hb). exists y. split; [by apply merge_looks|]. by destruct y. Qed.

(** Where a child, an entry or a need of the new heap comes from. *)
Definition origin (x : nat) : nat := if decide (x = p) then q else x.
Lemma origin_inj x y : x <> q -> y <> q -> origin x = origin y -> x = y.
Proof. unfold origin. destruct (decide (x = p)), (decide (y = p)); congruence. Qed.
Lemma merge_child a x : child (physs h') a x -> child (physs h) a (origin x) /\ x <> q.
Proof.
  intros (xph & Hx & Hpar). unfold origin. destruct (decide (x = p)) as [->|Hne].
  - apply merge_self in Hx as ->. rewrite merged_link in Hpar. split; [by exists phq|]. intros E. by apply merge_ne.
  - destruct (merge_other _ _ Hx Hne) as [? ?]. split; [by exists xph|done].
Qed.
Lemma merge_entry x j fj :
  entry (physs h') x j fj -> x <> q /\ exists x0 fj0, entry (physs h) x0 j fj0 /\ frame_of fj0 = frame_of fj /\
    (x0 = x /\ fj = fj0 \/ x0 = q /\ x = p /\ fj = settle fj0).
Proof.
  pose proof merge_ne as Hqp. intros (xph & Hx & Hf). destruct (decide (x = p)) as [->|Hne].
  - split; [done|]. apply merge_self in Hx as ->. rewrite merged_frames in Hf. destruct (frames ph !! j) as [fi|] eqn:E.
    + simplify_eq. exists p, fj. split; [by exists ph|]. split; [done|by left].
    + destruct (frames phq !! j) as [fi|] eqn:E'; [|done]. cbn in Hf. simplify_eq. exists q, fi. split; [by exists phq|].
      split; [|by right]. unfold frame_of, settle. cbn. by destruct (state fi) as [[]|].
  - destruct (merge_other _ _ Hx Hne) as [? ?]. split; [done|]. exists x, fj. split; [by exists xph|]. split; [done|by left].
Qed.
Lemma merge_needs i x : needs (physs h') i x -> needs (physs h) i (origin x) /\ (x = p -> needs (physs h) i p).
Proof.
  pose proof merge_ne as Hqp. assert (Hcp : child (physs h) q p) by (by exists ph).
  assert (Hlift : frames phq !! i = None -> needs (physs h) i p -> needs (physs h) i q) by (intros; by eapply needs_up).
  induction 1 as [x xph Hx Hb Hf|x xph e Hx Hf Hc Hn [IH1 IH2]]; unfold origin in *.
  - destruct (decide (x = p)) as [->|Hne].
    + apply merge_self in Hx as ->. rewrite merged_frames in Hf. destruct (frames ph !! i) eqn:E; [done|].
      assert (needs (physs h) i p) by (by eapply needs_leaf). split; [|done]. apply Hlift; [|done]. by destruct (frames phq !! i).
    + destruct (merge_other _ _ Hx Hne) as [? ?]. split; [by eapply needs_leaf|done].
  - apply merge_child in Hc as [Hc Heq]. unfold origin in Hc. destruct (decide (x = p)) as [->|Hne].
    + apply merge_self in Hx as ->. rewrite merged_frames in Hf. destruct (frames ph !! i) eqn:E; [done|].
      assert (needs (physs h) i p) by (by eapply needs_up). split; [|done]. apply Hlift; [|done]. by destruct (frames phq !! i).
    + destruct (merge_other _ _ Hx Hne) as [? ?]. split; [by eapply needs_up|done].
Qed.
Lemma merge_link x xph : physs h' !! x = Some xph -> link_ok rank h' x xph.
Proof.
  pose proof merge_rank as Hr. intros Hx.
  assert (Htgt : forall r phr, physs h !! r = Some phr -> branch phr = true -> r <> q -> exists phr', physs h' !! r = Some phr' /\ branch phr' = true).
  { intros r phr Hrr Hb Hne. rewrite merge_at. destruct (decide (r = p)) as [->|].
    - simplify_eq. by eexists.
    - rewrite decide_False by done. by exists phr. }
  unfold link_ok. destruct (decide (x = p)) as [->|Hne].
  - apply merge_self in Hx as ->. rewrite merged_link. pose proof (wf_link _ _ Hw _ _ Hq) as Hl. unfold link_ok in Hl.
    destruct (parent phq) as [[r s e|b]|]; [|done|done]. destruct Hl as (? & ? & ? & phr & Hrr & Hb). split_and!; [done|done|lia|].
    eapply Htgt; [done|done|]. intros ->. lia.
  - destruct (merge_other _ _ Hx Hne) as [_ Hx0]. pose proof (wf_link _ _ Hw _ _ Hx0) as Hl. unfold link_ok in Hl.
    destruct (parent xph) as [[r s e|b]|] eqn:Ep; [|done|done]. destruct Hl as (-> & -> & ? & phr & Hrr & Hb). split_and!; [done|done|done|].
    eapply Htgt; [done|done|]. intros ->. apply Hne, Hsole. by exists xph.
Qed.
Lemma merge_wf : wf rank h'.
Proof.
  constructor.
  - apply merge_link.
  - intros x xph j fj Hx Hf. destruct (decide (x = p)) as [->|Hne].
    + apply merge_self in Hx as ->. rewrite merged_frames in Hf. cbn [branch merged]. destruct (frames ph !! j) as [fi|] eqn:E.
      * simplify_eq. exact (wf_state _ _ Hw _ _ _ _ Hp E).
      * destruct (frames phq !! j) as [fi|] eqn:E'; [|done]. cbn in Hf. simplify_eq.
        destruct (wf_state _ _ Hw _ _ _ _ Hq E') as (s & Hs & Hpg & _).
        exists (Shared (state_frame s).1 (state_frame s).2). split; [|done]. unfold settle. rewrite Hs. by destruct s.
    + destruct (merge_other _ _ Hx Hne) as [_ Hx0]. exact (wf_state _ _ Hw _ _ _ _ Hx0 Hf).
  - intros x j fj x' j' fj' g Hx Hx' Hg Hg'.
    apply merge_entry in Hx as (Hxq & x0 & fj0 & He & Hfe & Hor). apply merge_entry in Hx' as (Hxq' & x0' & fj0' & He' & Hfe' & Hor').
    destruct (wf_linear _ _ Hw _ _ _ _ _ _ g He He') as [-> ->]; [congruence|congruence|].
    split; [|done]. destruct Hor as [(-> & _)|(-> & -> & _)], Hor' as [(? & _)|(? & -> & _)]; congruence.
  - intros a x y z Hx Hy Hz. apply merge_child in Hx as [Hx ?], Hy as [Hy ?], Hz as [Hz ?].
    destruct (wf_two _ _ Hw _ _ _ _ Hx Hy Hz) as [E|[E|E]]; apply origin_inj in E; auto.
  - intros a j fj g m x y He Hu Hx Hy Hnx Hny. apply merge_child in Hx as [Hx ?], Hy as [Hy ?].
    apply merge_needs in Hnx as [Hnx _], Hny as [Hny _].
    apply merge_entry in He as (_ & x0 & fj0 & He & _ & [[-> ->]|(-> & -> & ->)]).
    + apply origin_inj; [done|done|]. by eapply (wf_unique _ _ Hw).
    + unfold settle in Hu. cbn in Hu. destruct (state fj0) as [[]|]; done.
  - apply (wf_zero _ _ Hw).
  - intros x j fj He. apply merge_entry in He as (_ & x0 & fj0 & He & _). by eapply (wf_index _ _ Hw).
Qed.
End OneStep.

(** ** The loop *)
Record merges (rank : nat -> nat) (p : nat) (h h1 : heap T) : Prop := mk_merges {
  m_wf : wf rank h1;
  m_rest : h1 = set_physs (physs h1) h;
  m_above x : (rank p <= rank x)%nat -> x <> p -> physs h1 !! x = physs h !! x;
  m_leaf x xph : physs h !! x = Some xph -> branch xph = false -> x <> p -> physs h1 !! x = Some xph;
  m_sub x : x <> p -> is_Some (physs h1 !! x) -> physs h1 !! x = physs h !! x;
  m_self ph : physs h !! p = Some ph -> exists ph1, physs h1 !! p = Some ph1 /\ branch ph1 = branch ph /\ cow ph1 = cow ph /\
    flusher ph1 = flusher ph /\ position ph1 = position ph /\ (forall i fi, frames ph !! i = Some fi -> frames ph1 !! i = Some fi);
  m_sees x j bs : is_Some (physs h1 !! x) -> sees h x j bs -> sees h1 x j bs;
}.
Lemma merges_refl rank p h : wf rank h -> merges rank p h h.
Proof. intros Hw. constructor; try done; [by destruct h|]. intros ph Hp. exists ph. by split_and!. Qed.
Lemma merges_trans rank p h h1 h2 : merges rank p h h1 -> merges rank p h1 h2 -> merges rank p h h2.
Proof.
  intros H1 H2. constructor.
  - apply (m_wf _ _ _ _ H2).
  - rewrite (m_rest _ _ _ _ H2) at 1. rewrite (m_rest _ _ _ _ H1). done.
  - intros x Hx Hne. rewrite (m_above _ _ _ _ H2 x Hx Hne). by apply (m_above _ _ _ _ H1).
  - intros x xph Hx Hb Hne. apply (m_leaf _ _ _ _ H2); [|done|done]. by apply (m_leaf _ _ _ _ H1).
  - intros x Hne Hx. pose proof (m_sub _ _ _ _ H2 x Hne Hx) as E. rewrite E. apply (m_sub _ _ _ _ H1); [done|]. by rewrite <- E.
  - intros ph Hp. destruct (m_self _ _ _ _ H1 ph Hp) as (ph1 & Hp1 & ? & ? & ? & ? & Hf1).
    destruct (m_self _ _ _ _ H2 ph1 Hp1) as (ph2 & Hp2 & ? & ? & ? & ? & Hf2). exists ph2. split_and!; try congruence. auto.
  - intros x j bs Hx Hs. apply (m_sees _ _ _ _ H2); [done|]. apply (m_sees _ _ _ _ H1); [|done].
    destruct (decide (x = p)) as [->|Hne]; [|by rewrite <- (m_sub _ _ _ _ H2 x Hne Hx)].
    destruct (physs h !! p) as [ph|] eqn:Ep; [|destruct Hs as (y & Hy & _); inversion Hy; congruence].
    destruct (m_self _ _ _ _ H1 ph Ep) as (ph1 & -> & _). by eexists.
Qed.
Lemma merges_step rank p q h ph phq :
  wf rank h -> physs h !! p = Some ph -> parent ph = Some (PPhys q 0 None) -> physs h !! q = Some phq -> count h q = 1%nat ->
  merges rank p h (set_physs (<[p := merged ph phq]> (delete q (physs h))) h).
Proof.
  intros Hw Hp Hl Hq Hc. assert (Hsole : forall x, child (physs h) q x -> x = p).
  { intros x Hx. eapply count_sole; [done|done|by exists ph]. }
  pose proof (merge_rank _ _ _ _ _ Hw Hp Hl) as Hr. pose proof (merge_at h p q ph phq) as Hat.
  assert (Hqb : branch phq = true).
  { pose proof (wf_link _ _ Hw _ _ Hp) as Hk. unfold link_ok in Hk. rewrite Hl in Hk. destruct Hk as (_ & _ & _ & ? & ? & ?). congruence. }
  constructor.
  - by apply merge_wf.
  - done.
  - intros x Hx Hne. rewrite Hat, !decide_False; [done|intros ->; lia|done].
  - intros x xph Hx Hb Hne. rewrite Hat, !decide_False; [done|intros ->; congruence|done].
  - intros x Hne Hx. rewrite Hat in *. rewrite decide_False in Hx |- * by done. destruct (decide (x = q)); [by destruct Hx|done].
  - intros ph0 Hp0. simplify_eq. exists (merged ph phq). split; [by rewrite Hat, decide_True|]. split_and!; try done.
    intros i fi Hf. erewrite merged_frames; [|done|done]. by rewrite Hf.
  - intros x j bs Hx Hs. eapply merge_sees; try done. intros ->. rewrite Hat in Hx. rewrite decide_False in Hx by (intros ->; lia).
    rewrite decide_True in Hx by done. by destruct Hx.
Qed.

Lemma take_sole_eq h p ph (Q : option (Phys * Z * option Z) -> heap T -> Prop) :
  physs h !! p = Some ph ->
  ((match parent ph with Some (PPhys q _ _) => count h q <> 1%nat | _ => True end) -> Q None h) ->
  (forall q start end_, parent ph = Some (PPhys q start end_) -> count h q = 1%nat -> forall phq, physs h !! q = Some phq ->
    Q (Some (phq, start, end_)) (set_physs (<[p := set_parent None ph]> (delete q (physs h))) h)) ->
  (forall q start end_, parent ph = Some (PPhys q start end_) -> is_Some (physs h !! q)) ->
  exists r h', take_sole p h = Some (Ok r, h') /\ Q r h'.
Proof.
  intros Hp Hn Hy Hq. unfold take_sole, get_phys, hget, hput, pt_opt, pt_res, mbind, PT_bind. rewrite Hp. cbn.
  destruct (parent ph) as [[q s e|b]|] eqn:E; [|by eexists _, _; split; [done|auto]..].
  destruct (Nat.eqb_spec (count h q) 1) as [Ec|Ec]; [|by eexists _, _; split; [done|auto]].
  destruct (Hq q s e eq_refl) as [phq Hphq]. rewrite Hphq. cbn. eexists _, _. split; [done|]. by eapply Hy.
Qed.

Definition merge_fuel (rank : nat -> nat) (n : nat) (h : heap T) (p : nat) : Prop :=
  match n with O => False | S n => forall ph q s e, physs h !! p = Some ph -> parent ph = Some (PPhys q s e) -> (rank q < n)%nat end.

(** The loop ends, and is what its function does on a merged heap. *)
Lemma merge_loop {R} rank n p (f : PT (heap T) Error (option R)) h ph :
  (forall h1 h2, f h1 = Some (Ok None, h2) -> h2 = h1) ->
  wf rank h -> physs h !! p = Some ph -> merge_fuel rank n h p ->
  exists h1, merges rank p h h1 /\ merge_sole_parent n p f h = f h1.
Proof.
  intros Hf. revert h ph. induction n as [|n IH]; intros h ph Hw Hp Hn; [done|]. cbn [merge_sole_parent].
  pose proof (wf_link _ _ Hw _ _ Hp) as Hl. unfold link_ok in Hl.
  destruct (take_sole_eq h p ph (fun r h' => match r with
    | None => h' = h
    | Some (phq, s, e) => exists q, parent ph = Some (PPhys q 0 None) /\ s = 0 /\ e = None /\ physs h !! q = Some phq /\ count h q = 1%nat /\
        h' = set_physs (<[p := set_parent None ph]> (delete q (physs h))) h end) Hp) as (r & h' & Hts & Hr).
  - done.
  - intros q s e Hpar Hc phq Hq. rewrite Hpar in Hl. destruct Hl as (-> & -> & _). exists q. by split_and!.
  - intros q s e Hpar. rewrite Hpar in Hl. destruct Hl as (_ & _ & _ & phq & Hq & _). by exists phq.
  - rewrite (PT_bind_Ok _ _ _ _ _ Hts). destruct r as [[[phq s] e]|]; [|subst h'; exists h; split; [by apply merges_refl|done]].
    destruct Hr as (q & Hpar & -> & -> & Hq & Hc & ->).
    set (h1 := set_physs (<[p := merged ph phq]> (delete q (physs h))) h).
    pose proof (merges_step _ _ _ _ _ _ Hw Hp Hpar Hq Hc) as Hm. fold h1 in Hm.
    assert (Hmi : merge_into p phq 0 None (set_physs (<[p := set_parent None ph]> (delete q (physs h))) h) = Some (Ok tt, h1)).
    { unfold merge_into, get_phys, put_phys, hget, hput, pt_opt, pt_res, mbind, PT_bind. cbn. rewrite lookup_insert_eq. cbn.
      rewrite insert_insert_eq. done. }
    rewrite (PT_bind_Ok _ _ _ _ _ Hmi).
    assert (Hp1 : physs h1 !! p = Some (merged ph phq)) by (unfold h1; cbn; apply lookup_insert_eq).
    destruct (f h1) as [[[[x|]|e|] h2]|] eqn:Ef.
    + rewrite (PT_bind_Ok _ _ _ _ _ Ef). exists h1. by rewrite Ef.
    + rewrite (PT_bind_Ok _ _ _ _ _ Ef). apply Hf in Ef as ->.
      destruct (IH h1 _ (m_wf _ _ _ _ Hm) Hp1) as (h2 & Hm2 & Heq).
      { destruct n as [|n]; [specialize (Hn ph q 0 None Hp Hpar); lia|]. intros ph' r s e Hp' Hpar'. simplify_eq.
        erewrite merged_link in Hpar' by done. specialize (Hn ph q 0 None Hp Hpar). pose proof (wf_link _ _ Hw _ _ Hq) as Hlq.
        unfold link_ok in Hlq. rewrite Hpar' in Hlq. destruct Hlq as (_ & _ & ? & _). lia. }
      exists h2. split; [by eapply merges_trans|done].
    + exists h1. split; [done|]. unfold mbind, PT_bind. by rewrite Ef.
    + exists h1. split; [done|]. unfold mbind, PT_bind. by rewrite Ef.
    + exists h1. split; [done|]. unfold mbind, PT_bind. by rewrite Ef.
Qed.
End Merge.

(** * kmem: committing a page

    [commit_impl] on an object and on the branches above it, by the steps of
    [PhysInv.v]: everybody sees the bytes they saw, whatever is shared, moved and
    copied on the way; for an object that copies on write, the frame to be written
    is in an entry of its own. *)
Import Errno Umio Ph.

Section PhysCommit.
Context {T : Type} `{IoT : Io T} `{BT : !Backing T}.

(** ** What an operation leaves to the objects in use *)
Definition pres (h h' : heap T) : Prop := dom (backs h') = dom (backs h) /\ forall x xph, physs h !! x = Some xph -> branch xph = false ->
  exists xph', physs h' !! x = Some xph' /\ branch xph' = false /\ cow xph' = cow xph /\ flusher xph' = flusher xph /\
    position xph' = position xph /\ forall j bs, sees h x j bs -> sees h' x j bs.
Lemma pres_refl h : pres h h.
Proof. split; [done|]. intros x xph Hx Hb. exists xph. by split_and!. Qed.
Lemma pres_trans h1 h2 h3 : pres h1 h2 -> pres h2 h3 -> pres h1 h3.
Proof.
  intros [D1 H1] [D2 H2]. split; [congruence|]. intros x xph Hx Hb. destruct (H1 x xph Hx Hb) as (x1 & Hx1 & Hb1 & ? & ? & ? & Hs1).
  destruct (H2 x x1 Hx1 Hb1) as (x2 & Hx2 & Hb2 & ? & ? & ? & Hs2). exists x2. split_and!; try congruence. auto.
Qed.
Lemma pres_merges rank p h h1 ph : physs h !! p = Some ph -> merges rank p h h1 -> pres h h1.
Proof.
  intros Hp Hm. split; [by rewrite (m_rest _ _ _ _ Hm)|]. intros x xph Hx Hb. destruct (decide (x = p)) as [->|Hne].
  - simplify_eq. destruct (m_self _ _ _ _ Hm _ Hp) as (ph1 & Hp1 & ? & ? & ? & ? & _). exists ph1. split_and!; try congruence.
    intros j bs. apply (m_sees _ _ _ _ Hm). by eexists.
  - pose proof (m_leaf _ _ _ _ Hm _ _ Hx Hb Hne) as Hx1. exists xph. split_and!; try done. intros j bs. apply (m_sees _ _ _ _ Hm). by eexists.
Qed.
(** An entry put where it keeps what is seen. *)
Lemma pres_put h p ph i fi :
  physs h !! p = Some ph -> (forall x j bs, sees h x j bs -> sees (set_physs (put (physs h) p ph i fi) h) x j bs) ->
  pres h (set_physs (put (physs h) p ph i fi) h).
Proof.
  intros Hp Hs. split; [done|]. intros x xph Hx Hb. unfold put. cbn. destruct (decide (x = p)) as [->|Hne].
  - simplify_eq. eexists. split; [apply lookup_insert_eq|]. split_and!; try done. intros; by apply Hs.
  - exists xph. rewrite lookup_insert_ne by done. split_and!; try done. intros; by apply Hs.
Qed.

Lemma pres_outside h h' :
  physs h' = physs h -> dom (backs h') = dom (backs h) -> (forall x j bs, sees h x j bs -> sees h' x j bs) -> pres h h'.
Proof. intros Hp Hd Hs. split; [done|]. intros x xph Hx Hb. exists xph. rewrite Hp. split_and!; try done. intros; by apply Hs. Qed.

(** ** Copies *)
Lemma copy_page bs l : length bs = Z.to_nat PAGE_SIZE -> 0 <= l <= PAGE_SIZE -> Forall (eq 0) (drop (Z.to_nat l) bs) ->
  splice zeros 0 (take (Z.to_nat l) bs) = bs.
Proof.
  intros Hlen Hl Hz. unfold splice. rewrite length_take. change (Z.to_nat 0 + ?n)%nat with n.
  transitivity (take (Z.to_nat l) bs ++ drop (Z.to_nat l) bs); [|apply take_drop].
  change (take (Z.to_nat 0) zeros) with (@nil Z). cbn [app]. f_equal.
  apply list_eq_same_length with (n := length (drop (Z.to_nat l) bs)); [done| |].
  - unfold zeros. rewrite !length_drop, length_replicate. lia.
  - intros k x y Hk Hx Hy. rewrite lookup_drop in Hx. unfold zeros in Hx. apply lookup_replicate in Hx as [-> _].
    by pose proof (proj1 (Forall_lookup _ _) Hz k y Hy).
Qed.

Definition new_frame (h : heap T) : nat := fresh (dom (pages h)).
Definition with_frame (bs : list Z) (n : nat) (h : heap T) : heap T := set_pages (<[new_frame h := bs]> (pages h)) n h.
Lemma new_frame_free (h : heap T) : pages h !! new_frame h = None.
Proof. unfold new_frame. apply (not_elem_of_dom (D := gset nat)). apply is_fresh. Qed.
Lemma frame_new_eq (h : heap T) :
  frame_new h = match nfree h with O => Some (Err ENOMEM, h) | S n => Some (Ok (new_frame h), with_frame zeros n h) end.
Proof. unfold frame_new, hget, hput, mbind, PT_bind. destruct (nfree h); done. Qed.
Lemma frame_copy_eq (h : heap T) f l bs : pages h !! f = Some bs -> l <= PAGE_SIZE ->
  frame_copy f l h = match nfree h with
    | O => Some (Err ENOMEM, h)
    | S n => Some (Ok (new_frame h), with_frame (splice zeros 0 (take (Z.to_nat l) bs)) n h)
    end.
Proof.
  intros Hf Hl. unfold frame_copy, mbind, PT_bind. rewrite frame_new_eq. destruct (nfree h) as [|n]; [done|].
  assert (Hne : new_frame h <> f) by (intros E; pose proof (new_frame_free h); congruence).
  unfold get_page, put_page, hget, hput, pt_opt, pt_res, mbind, PT_bind. cbn. rewrite lookup_insert_ne, Hf by done. cbn.
  rewrite lookup_insert_eq. cbn. rewrite (proj2 (Z.ltb_ge _ _)) by lia. cbn. unfold with_frame, set_pages. cbn. by rewrite insert_insert_eq.
Qed.
Lemma with_frame_old (h : heap T) bs n f cs : pages h !! f = Some cs -> pages (with_frame bs n h) !! f = Some cs.
Proof. intros Hf. cbn. rewrite lookup_insert_ne; [done|]. intros E. pose proof (new_frame_free h). congruence. Qed.
Lemma with_frame_wf rank (h : heap T) bs n : wf rank h -> wf rank (with_frame bs n h).
Proof. intros Hw. eapply outside_wf; [exact Hw|done|intros; by apply with_frame_old|]. intros b o Ho. by exists o. Qed.
Lemma with_frame_pres (h : heap T) bs n : pres h (with_frame bs n h).
Proof.
  apply pres_outside; [done|done|]. intros x j cs. apply outside_sees; [done|intros; by apply with_frame_old|]. intros b o Ho. by exists o.
Qed.
(** No entry has the new frame. *)
Lemma new_frame_fresh rank (h : heap T) x j fj : wf rank h -> entry (physs h) x j fj -> frame_of fj <> Some (new_frame h).
Proof.
  intros Hw (xph & Hx & Hf). destruct (wf_state _ _ Hw _ _ _ _ Hx Hf) as (s & Hs & (_ & _ & bs & Hb & _) & _).
  unfold frame_of. rewrite Hs. cbn. intros [= E]. rewrite E in Hb. pose proof (new_frame_free h). congruence.
Qed.
Lemma new_frame_nonzero rank (h : heap T) : wf rank h -> new_frame h <> ZERO.
Proof. intros Hw E. pose proof (wf_zero _ _ Hw). pose proof (new_frame_free h). congruence. Qed.

(** ** Needs, above and below *)
Lemma child_rank rank (h : heap T) q d : wf rank h -> child (physs h) q d -> (rank q < rank d)%nat.
Proof.
  intros Hw (dph & Hd & Hl). pose proof (wf_link _ _ Hw _ _ Hd) as Hk. unfold link_ok in Hk. rewrite Hl in Hk. by destruct Hk as (_ & _ & ? & _).
Qed.
Lemma child_branch rank (h : heap T) q d : wf rank h -> child (physs h) q d -> exists qph, physs h !! q = Some qph /\ branch qph = true.
Proof.
  intros Hw (dph & Hd & Hl). pose proof (wf_link _ _ Hw _ _ Hd) as Hk. unfold link_ok in Hk. rewrite Hl in Hk. by destruct Hk as (_ & _ & _ & ?).
Qed.
Lemma needs_same rank (h : heap T) (ps' : gmap nat Phys) i d :
  wf rank h -> needs (physs h) i d -> (forall x, (rank d <= rank x)%nat -> ps' !! x = physs h !! x) -> needs ps' i d.
Proof.
  intros Hw. induction 1 as [d dph Hd Hb Hf|d dph e Hd Hf Hc Hn IH]; intros Hs.
  - eapply needs_leaf; [by rewrite Hs|done|done].
  - pose proof (child_rank _ _ _ _ Hw Hc). eapply needs_up; [by rewrite Hs|done| |apply IH; intros; apply Hs; lia].
    destruct Hc as (eph & He & Hl). exists eph. rewrite Hs by lia. done.
Qed.
Lemma needs_lacks (ps : gmap nat Phys) i d : needs ps i d -> exists dph, ps !! d = Some dph /\ frames dph !! i = None.
Proof. inversion 1; eauto. Qed.

(** ** The outcome of a commit at an object *)
Definition shown (h : heap T) (r : nat) (i : Z) (f : nat) (l : Z) (w : option Z) : Prop :=
  looks (physs h) r i (SFrame f l) /\ (forall nl, w = Some nl -> nl <= l) \/ w = None /\ f = ZERO /\ l = 0 /\ looks (physs h) r i SZero.
Definition own (h : heap T) (r : nat) (i : Z) (f : nat) : Prop :=
  exists ph fi, physs h !! r = Some ph /\ branch ph = false /\ frames ph !! i = Some fi /\ frame_of fi = Some f.
Definition post (rank : nat -> nat) (r : nat) (i : Z) (w : option Z) (c : bool) (h h' : heap T) (com : Commit) : Prop :=
  (forall x, (rank r < rank x)%nat -> physs h' !! x = physs h !! x) /\
  match com with
  | CShared f l => wf rank h' /\ pres h h' /\ shown h' r i f l w /\ (w <> None -> c = true -> own h' r i f)
  | CUnique fi => (forall ph, physs h !! r = Some ph -> branch ph = true) /\ (exists f l, state fi = Some (Shared f l)) /\
      forall d, child (physs h) r d -> needs (physs h) i d ->
        exists dph, physs h' !! d = Some dph /\ frames dph !! i = None /\
          wf rank (set_physs (put (physs h') d dph i fi) h') /\ pres h (set_physs (put (physs h') d dph i fi) h')
  end.

Lemma put_put ps p ph i a b : put (put ps p ph i a) p (set_frames (<[i := a]> (frames ph)) ph) i b = put ps p ph i b.
Proof. unfold put. rewrite insert_insert_eq. cbn. by rewrite insert_insert_eq. Qed.
Lemma put_id (ps : gmap nat Phys) p ph i fi : ps !! p = Some ph -> frames ph !! i = Some fi -> put ps p ph i fi = ps.
Proof. intros Hp Hf. unfold put. rewrite insert_id; [done|]. rewrite Hp. f_equal. rewrite insert_id by done. by destruct ph. Qed.
Lemma put_comm ps p q ph qph i a b : p <> q -> put (put ps p ph i a) q qph i b = put (put ps q qph i b) p ph i a.
Proof. intros Hne. unfold put. by rewrite insert_insert_ne. Qed.

(** ** An entry that is there, or is as good as there

    [fi] is the entry of [r] at [i], or is about to become it; [H] is the heap with
    it. *)
Section EntryPost.
Variables (rank : nat -> nat) (h : heap T) (r : nat) (rph : Phys) (i : Z) (fi : FrameInfo) (new : option FrameInfo) (w : option Z) (c : bool).
Hypothesis Hr : physs h !! r = Some rph.
Hypothesis Hnew : match frames rph !! i with Some x => x = fi | None => new = Some fi /\ exists f l, state fi = Some (Shared f l) end.
Hypothesis Hwr : forall nl, w = Some nl -> 0 <= nl <= PAGE_SIZE.
Notation H := (set_physs (put (physs h) r rph i fi) h).
Notation rphH := (set_frames (<[i := fi]> (frames rph)) rph).
Hypothesis Hw : wf rank H.

Lemma entry_at : physs H !! r = Some rphH /\ frames rphH !! i = Some fi.
Proof. unfold put. cbn. by rewrite !lookup_insert_eq. Qed.
Lemma entry_fi : (match frames rph !! i with Some fi => Some fi | None => new end) = Some fi.
Proof. clear Hw. destruct (frames rph !! i); [by rewrite Hnew|by destruct Hnew]. Qed.
Lemma entry_page : exists s, state fi = Some s /\ page_ok H (state_frame s).1 (state_frame s).2 /\
  (branch rph = false -> s = Shared (state_frame s).1 (state_frame s).2).
Proof. destruct entry_at as [H1 H2]. exact (wf_state _ _ Hw _ _ _ _ H1 H2). Qed.
Lemma widen_ok l : 0 <= l <= PAGE_SIZE -> l <= widen w l <= PAGE_SIZE /\ forall nl, w = Some nl -> nl <= widen w l.
Proof. intros Hl. destruct w as [nl|]; cbn; [specialize (Hwr nl eq_refl)|]; split; try lia; intros ? [= <-]; lia. Qed.

(** The entry stays, shared, with a new length. *)
Lemma entry_stays f l d :
  state fi = Some (Shared f l) -> (w <> None -> c = true -> branch rph = false) ->
  let fi' := mk_fi (Some (Shared f (widen w l))) d in
  post rank r i w c H (set_physs (put (physs h) r rph i fi') h) (CShared f (widen w l)).
Proof.
  intros Hs Hc fi'. destruct entry_at as [H1 H2].
  destruct entry_page as (s & Hs2 & (Hz & Hl & bs & Hb & _) & _). simplify_eq. cbn in Hl, Hb, Hz.
  destruct (widen_ok l Hl) as [Hl' Hnl].
  assert (Heq : set_physs (put (physs h) r rph i fi') h = set_physs (put (physs H) r rphH i fi') H) by (cbn; by rewrite put_put).
  rewrite Heq. assert (Hr' : physs (set_physs (put (physs H) r rphH i fi') H) !! r = Some (set_frames (<[i := fi']> (frames rphH)) rphH))
    by (unfold put; cbn; apply lookup_insert_eq).
  split; [|split_and!].
  - intros x Hx. unfold put. cbn. rewrite !lookup_insert_ne; [done|intros ->; lia|intros ->; lia].
  - eapply (restate_wf rank H r rphH i fi fi' _ _ f l (widen w l)); try done.
  - apply pres_put; [done|]. intros x j cs. eapply (restate_sees H r rphH i fi fi' _ _ f l (widen w l)); try done.
  - left. split; [|done]. change (SFrame f (widen w l)) with (SFrame (state_frame (Shared f (widen w l))).1 (state_frame (Shared f (widen w l))).2).
    eapply looks_own; [exact Hr'|cbn; apply lookup_insert_eq|done].
  - intros Hwn Hct. exists (set_frames (<[i := fi']> (frames rphH)) rphH), fi'. split_and!; [done|by apply Hc|cbn; apply lookup_insert_eq|done].
Qed.

Lemma leaf_post :
  branch rph = false ->
  exists com h', entry_get r i new false w c h = Some (Ok com, h') /\ post rank r i w c H h' com.
Proof.
  intros Hb. destruct entry_page as (s & Hs & Hpg & Hsh). specialize (Hsh Hb). destruct (state_frame s) as [f l] eqn:Es. cbn in Hsh. subst s.
  eexists _, _. split; [|apply (entry_stays f l (dirty fi || match w with Some _ => true | None => false end)); [done|done]].
  unfold entry_get, get_phys, put_phys, hget, hput, pt_opt, pt_res, mbind, PT_bind. rewrite Hr. cbn. rewrite entry_fi. cbn.
  unfold fi_leaf. rewrite Hs. cbn. done.
Qed.
Lemma branch_keep_post f l :
  branch rph = true -> state fi = Some (Shared f l) -> (w = None \/ c = false) ->
  exists com h', entry_get r i new true w c h = Some (Ok com, h') /\ post rank r i w c H h' com.
Proof.
  intros Hb Hs Hwc.
  assert (Hd : (w <> None -> c = true -> branch rph = false)) by (destruct Hwc; congruence).
  pose proof (entry_stays f l true Hs Hd) as P1. pose proof (entry_stays f l (dirty fi) Hs Hd) as P2. pose proof entry_fi as Hef.
  cbv zeta in P1, P2. clear Hwr. destruct w as [nl|] eqn:Ew.
  - destruct Hwc as [?|Hcf]; [done|]. eexists _, _. split; [|exact P1].
    unfold entry_get, get_phys, put_phys, hget, hput, pt_opt, pt_res, mbind, PT_bind. rewrite Hr. cbn. rewrite Hef. cbn.
    unfold fi_branch. rewrite Hs, Hcf. done.
  - eexists _, _. split; [|exact P2].
    unfold entry_get, get_phys, put_phys, hget, hput, pt_opt, pt_res, mbind, PT_bind. rewrite Hr. cbn. rewrite Hef. cbn.
    unfold fi_branch. rewrite Hs. cbn. repeat f_equal. clear -Hs. destruct fi as [st d]. cbn in *. by rewrite Hs.
Qed.

(** A unique page is given away. *)
Lemma branch_take_post f l :
  branch rph = true -> state fi = Some (Unique f l) ->
  exists com h', entry_get r i new true w c h = Some (Ok com, h') /\ post rank r i w c H h' com.
Proof.
  intros Hb Hs. pose proof entry_fi as Hef.
  assert (Hold : frames rph !! i = Some fi).
  { destruct (frames rph !! i) as [x|]; [by rewrite Hnew|]. destruct Hnew as (_ & f' & l' & Hn). congruence. }
  assert (HH : H = h) by (rewrite put_id by done; by destruct h).
  set (fi' := mk_fi (Some (Shared f l)) (dirty fi)).
  exists (CUnique fi'), (set_physs (<[r := set_frames (delete i (frames rph)) rph]> (physs h)) h). split.
  { unfold entry_get, get_phys, put_phys, hget, hput, pt_opt, pt_res, mbind, PT_bind. rewrite Hr. cbn. rewrite Hef. cbn.
    unfold fi_branch. rewrite Hs. cbn. by rewrite Hold. }
  rewrite HH in Hw |- *. split.
  { intros x Hx. cbn. rewrite lookup_insert_ne; [done|intros ->; lia]. }
  split; [intros ph Hph; congruence|]. split; [by exists f, l|]. intros d (dph & Hd & Hl) Hn.
  destruct (needs_lacks _ _ _ Hn) as (d0 & Hd0 & Hnone). simplify_eq. exists dph.
  assert (Hdr : d <> r) by (by eapply move_ne).
  split; [cbn; by rewrite lookup_insert_ne|]. split; [done|].
  change (physs (set_physs (<[r := set_frames (delete i (frames rph)) rph]> (physs h)) h)) with (taken h r rph i).
  split; [by eapply (move_wf rank h r d rph dph i fi fi' f l)|].
  split; [done|]. intros x xph Hx Hxb. assert (x <> r) by (intros ->; congruence).
  assert (Hsees : forall j bs, sees h x j bs -> sees (set_physs (put (taken h r rph i) d dph i fi') h) x j bs)
    by (intros j bs; by eapply (move_sees rank h r d rph dph i fi fi' f l)).
  unfold put, taken in *. cbn in *. destruct (decide (x = d)) as [->|Hne].
  - simplify_eq. eexists. split; [apply lookup_insert_eq|]. by split_and!.
  - exists xph. rewrite !lookup_insert_ne by done. by split_and!.
Qed.

(** A shared page is copied for the child, and left to the other one. *)
Lemma branch_copy_post f l nl :
  branch rph = true -> state fi = Some (Shared f l) -> w = Some nl -> c = true ->
  exists res h', entry_get r i new true w c h = Some (res, h') /\
    match res with Ok com => post rank r i w c H h' com | Err e => e = ENOMEM /\ nfree h' = O | Panic => False end.
Proof.
  intros Hb Hs Ew Hc. pose proof entry_fi as Hef. destruct entry_at as [H1 H2].
  destruct entry_page as (s & Hs2 & (Hz & Hl & bs & Hbs & Hlen & Htail) & _). assert (s = Shared f l) as -> by congruence. cbn in Hz, Hl, Hbs, Htail.
  set (l' := Z.max l nl). assert (Hl' : l <= l' <= PAGE_SIZE) by (specialize (Hwr nl Ew); lia).
  set (u := mk_fi (Some (Unique f l')) (dirty fi)).
  assert (Hrun : entry_get r i new true w c h = match nfree h with
    | O => Some (Err ENOMEM, if frames rph !! i then set_physs (put (physs h) r rph i (mk_fi None (dirty fi))) h else h)
    | S n => Some (Ok (CUnique (fi_new (new_frame h) l')), set_physs (put (physs h) r rph i u) (with_frame bs n h))
    end).
  { unfold entry_get, get_phys, put_phys, hget, hput, pt_throw, pt_opt, pt_res, mbind, PT_bind. rewrite Hr. cbn. rewrite Hef. cbn.
    unfold fi_branch. rewrite Hs, Ew, Hc. cbn. fold l'. rewrite (frame_copy_eq h f l' bs Hbs) by lia.
    destruct (nfree h) as [|n]; cbn; [by destruct (frames rph !! i)|]. rewrite copy_page; [done|done|lia|].
    replace (Z.to_nat l') with (Z.to_nat l + (Z.to_nat l' - Z.to_nat l))%nat by lia. rewrite <- drop_drop. by apply Forall_drop. }
  rewrite Hrun. destruct (nfree h) as [|n] eqn:En; [eexists _, _; split; [done|]; split; [done|]; by destruct (frames rph !! i)|].
  eexists _, _. split; [done|]. split.
  { intros x Hx. unfold put. cbn. rewrite !lookup_insert_ne; [done|intros ->; lia|intros ->; lia]. }
  split; [intros ph Hph; rewrite H1 in Hph; by injection Hph as <-|]. split; [by exists (new_frame h), l'|]. intros d Hd Hn. destruct (needs_lacks _ _ _ Hn) as (dph & Hdp & Hnone).
  assert (Hdr : d <> r) by (intros ->; pose proof (child_rank _ _ _ _ Hw Hd); lia).
  exists dph. split; [unfold put in *; cbn in *; by rewrite lookup_insert_ne in Hdp |- *|]. split; [done|].
  set (fn := fi_new (new_frame h) l'). set (G2 := with_frame bs n H).
  assert (HwG2 : wf rank G2) by (by apply with_frame_wf).
  assert (Hsee : sees G2 d i bs).
  { exists (SFrame f l). split; [|by apply with_frame_old]. destruct Hd as (d0 & Hd0 & Hlink). assert (d0 = dph) as -> by congruence.
    eapply looks_up; [exact Hdp|done|exact Hlink|]. change (SFrame f l) with (SFrame (state_frame (Shared f l)).1 (state_frame (Shared f l)).2).
    by eapply looks_own. }
  assert (Hnew' : pages G2 !! new_frame h = Some bs) by (cbn; apply lookup_insert_eq).
  assert (Hpg : page_ok G2 (new_frame h) l').
  { split; [exact (new_frame_nonzero _ _ Hw)|]. split; [lia|]. exists bs. split_and!; [done|done|].
    replace (Z.to_nat l') with (Z.to_nat l + (Z.to_nat l' - Z.to_nat l))%nat by lia. rewrite <- drop_drop. by apply Forall_drop. }
  assert (Hi : 0 <= i) by (eapply (wf_index _ _ Hw r i fi); by exists rphH).
  set (G3 := set_physs (put (physs G2) d dph i fn) G2).
  assert (HwG3 : wf rank G3).
  { eapply (enter_wf rank G2 d dph i fn (new_frame h) l'); try done. intros x j fj He. by eapply (new_frame_fresh rank H). }
  assert (Hp3 : pres G2 G3).
  { apply pres_put; [done|]. intros x j cs. by eapply (enter_sees G2 d dph i fn (new_frame h) l' bs). }
  assert (Hr3 : physs G3 !! r = Some rphH) by (unfold G3, put; cbn; rewrite lookup_insert_ne by done; exact H1).
  assert (Hu : forall a b, child (physs G3) r a -> child (physs G3) r b -> needs (physs G3) i a -> needs (physs G3) i b -> a = b).
  { assert (Hnd : ~ needs (physs G3) i d).
    { intros Hnd. destruct (needs_lacks _ _ _ Hnd) as (d1 & Hd1 & Hf1). unfold G3, put in Hd1. cbn in Hd1. rewrite lookup_insert_eq in Hd1.
      injection Hd1 as <-. cbn in Hf1. by rewrite lookup_insert_eq in Hf1. }
    assert (Hcd : child (physs G3) r d) by (by apply put_child).
    intros a b Ha Hb' Hna Hnb. destruct (wf_two _ _ HwG3 r d a b Hcd Ha Hb') as [E|[E|E]]; [congruence|congruence|done]. }
  assert (Heq : set_physs (put (physs (set_physs (put (physs h) r rph i u) (with_frame bs n h))) d dph i fn) (set_physs (put (physs h) r rph i u) (with_frame bs n h))
    = set_physs (put (physs G3) r rphH i u) G3).
  { unfold G3, G2. cbn [physs set_physs with_frame set_pages]. rewrite (put_comm _ d r) by done. by rewrite put_put. }
  rewrite Heq. split.
  - eapply (restate_wf rank G3 r rphH i fi u (Shared f l) (Unique f l') f l l'); try done; cbn; congruence.
  - eapply pres_trans; [apply (with_frame_pres H bs n)|]. eapply pres_trans; [exact Hp3|]. apply pres_put; [done|].
    intros x j cs. by eapply (restate_sees G3 r rphH i fi u (Shared f l) (Unique f l') f l l').
Qed.

Lemma entry_post :
  exists res h', entry_get r i new (branch rph) w c h = Some (res, h') /\
    match res with Ok com => post rank r i w c H h' com | Err e => e = ENOMEM /\ nfree h' = O | Panic => False end.
Proof.
  destruct (branch rph) eqn:Eb.
  - destruct entry_page as (s & Hs & _). destruct s as [f l|f l].
    + destruct (decide (w = None \/ c = false)) as [Hwc|Hwc].
      * destruct (branch_keep_post f l Eb Hs Hwc) as (com & h' & E & Hp). by exists (Ok com), h'.
      * assert (Hwn : exists nl, w = Some nl) by (destruct w; [by eexists|exfalso; tauto]). destruct Hwn as [nl Hwn].
        apply (branch_copy_post f l nl); [done|done|done|]. destruct c; [done|exfalso; tauto].
    + destruct (branch_take_post f l Eb Hs) as (com & h' & E & Hp). by exists (Ok com), h'.
  - destruct (leaf_post Eb) as (com & h' & E & Hp). by exists (Ok com), h'.
Qed.
End EntryPost.

(** ** A page of a backend *)
Definition read_only (h h' : heap T) : Prop :=
  physs h' = physs h /\ pages h' = pages h /\ nfree h' = nfree h /\ dom (backs h') = dom (backs h) /\
  forall b o, backs h !! b = Some o -> exists o', backs h' !! b = Some o' /\ file o' = file o.
Lemma read_only_trans h1 h2 h3 : read_only h1 h2 -> read_only h2 h3 -> read_only h1 h3.
Proof.
  intros (? & ? & ? & ? & HA) (? & ? & ? & ? & HB). split_and!; [congruence..|]. intros b o Ho.
  destruct (HA b o Ho) as (o1 & Ho1 & ?). destruct (HB b o1 Ho1) as (o2 & Ho2 & ?). exists o2. split; [done|congruence].
Qed.
Lemma take_rest {A} (D : list A) (m n : nat) : (m <= n)%nat -> take n D = take m D ++ take (n - m) (drop m D).
Proof. intros Hm. rewrite <- (take_drop m (take n D)), take_take, Nat.min_l, skipn_firstn_comm by done. done. Qed.

Lemma take_own {A} (D : list A) (k : nat) : take (length (take k D)) D = take k D.
Proof.
  rewrite length_take. destruct (Nat.le_gt_cases k (length D)); [by rewrite Nat.min_l by done|].
  by rewrite Nat.min_r, !take_ge by lia.
Qed.

Lemma load_page_ok n b off left_ acc (h : heap T) o :
  backs h !! b = Some o -> 0 <= off -> 0 <= left_ -> off + left_ < 2 ^ 64 -> (Z.to_nat left_ < n)%nat ->
  exists res h', load_page n b off left_ acc h = Some (res, h') /\ read_only h h' /\
    match res with Ok bs => bs = acc ++ take (Z.to_nat left_) (drop (Z.to_nat off) (file o)) | Err _ => True | Panic => False end.
Proof.
  revert off left_ acc h o. induction n as [|n IH]; intros off left_ acc h o Ho Hoff Hleft Hsum Hn; [lia|]. cbn [load_page].
  assert (Hsame : read_only h h) by (split_and!; [done..|]; intros b0 o0 ?; by exists o0).
  destruct (Z.eqb_spec left_ 0) as [->|Hne].
  { eexists _, _. split; [done|]. split; [done|]. by rewrite app_nil_r. }
  pose proof (backing_read o off left_ Hoff ltac:(lia)) as Hread.
  unfold on_back, hget, hput, pt_opt, pt_res, mbind, PT_bind. rewrite Ho. cbn [unwrap].
  destruct (read_at off [room left_] o) as [[bs|e|] o'] eqn:Er; [| |done]; cbn.
  2: { eexists _, _. split; [done|]. split; [|done]. split_and!; [done..|cbn; by apply dom_insert_lookup_L; eexists|]. intros b0 o0 Hb0. cbn.
       destruct (decide (b = b0)) as [->|]; [rewrite lookup_insert_eq; exists o'; naive_solver|rewrite lookup_insert_ne by done; by exists o0]. }
  destruct Hread as (Hfile & k & Hbs & Hlen & Hend).
  set (h1 := set_back b o' h).
  assert (Hro : read_only h h1).
  { split_and!; [done..|cbn; by apply dom_insert_lookup_L; eexists|]. intros b0 o0 Hb0. cbn. destruct (decide (b = b0)) as [->|];
      [rewrite lookup_insert_eq; exists o'; naive_solver|rewrite lookup_insert_ne by done; by exists o0]. }
  destruct (Z.eqb_spec (len bs) 0) as [Hz|Hz].
  { eexists _, _. split; [done|]. split; [done|]. assert (bs = []) as Hnil by (unfold len in Hz; destruct bs; [done|cbn in Hz; lia]).
    specialize (Hend Hnil). rewrite drop_ge by done. by rewrite take_nil, app_nil_r. }
  rewrite (proj2 (Z.ltb_ge _ _)) by lia.
  assert (Hpos : 0 < len bs) by (unfold len in *; lia). rewrite wadd_small by (unfold fits; lia).
  destruct (IH (off + len bs) (left_ - len bs) (acc ++ bs) h1 o') as (res & h2 & E & Hro2 & Hres); [cbn; apply lookup_insert_eq|lia|lia|lia|lia|].
  eexists _, _. split; [exact E|]. split; [by eapply read_only_trans|]. destruct res as [bs'| |]; [|done|done]. rewrite Hres, Hfile, <- app_assoc. f_equal.
  assert (Hm : bs = take (length bs) (drop (Z.to_nat off) (file o))) by (rewrite Hbs at 2; rewrite take_own; done).
  rewrite (take_rest (drop (Z.to_nat off) (file o)) (length bs) (Z.to_nat left_)) by (unfold len in *; lia). rewrite <- Hm. f_equal.
  rewrite drop_drop. f_equal; [unfold len; lia|f_equal; unfold len; lia].
Qed.
End PhysCommit.
