(* ===== verification/PhysClone.v ===== *)
(** * kmem: copying on write

    [commit] gives a frame for a page of an object: all objects in use see the bytes
    they saw before; and for writing to an object that copies on write, nobody else
    sees the frame.  A clone sees what its original sees. *)

From S2P Require Import Prelude Ksc Bytes Paging Umio Phys PhysInv PhysCommit.

Import Errno Umio Ph.

Section PhysSpec.
Context {T : Type} `{IoT : Io T} `{BT : !Backing T}.

Lemma post_pre rank r i w c (h1 G h' : heap T) com :
  wf rank h1 -> pres h1 G -> (forall x, (rank r < rank x)%nat -> physs G !! x = physs h1 !! x) ->
  post rank r i w c G h' com -> post rank r i w c h1 h' com.
Proof.
  intros Hw Hp Hs [Hf Hc]. split; [intros x Hx; rewrite Hf by done; by apply Hs|]. destruct com as [f l|fi].
  - destruct Hc as (? & ? & ? & ?). split_and!; [done|by eapply pres_trans|done|done].
  - destruct Hc as (Hbr & Hst & Hd). split_and!; [|done|].
    { intros ph Hph. destruct (branch ph) eqn:E; [done|]. destruct (proj2 Hp r ph Hph E) as (ph' & Hph' & ? & _). rewrite (Hbr ph' Hph') in *. done. }
    intros d Hcd Hn. pose proof (child_rank _ _ _ _ Hw Hcd) as Hr.
    destruct (Hd d) as (dph & ? & ? & ? & ?).
    + destruct Hcd as (dph & Hdp & Hl). exists dph. by rewrite Hs.
    + eapply needs_same; [exact Hw|done|]. intros x Hx. apply Hs. lia.
    + exists dph. split_and!; [done|done|done|by eapply pres_trans].
Qed.

(** A new frame with the bytes seen at a place, entered there. *)
Lemma new_page_post rank (h1 : heap T) r rph i w c bs l n :
  wf rank h1 -> physs h1 !! r = Some rph -> frames rph !! i = None -> 0 <= i ->
  (forall nl, w = Some nl -> 0 <= nl <= PAGE_SIZE) ->
  sees h1 r i bs -> length bs = Z.to_nat PAGE_SIZE -> 0 <= l <= PAGE_SIZE -> Forall (eq 0) (drop (Z.to_nat l) bs) ->
  exists res h', entry_get r i (Some (fi_new (new_frame h1) l)) (branch rph) w c (with_frame bs n h1) = Some (res, h') /\
    match res with Ok com => post rank r i w c h1 h' com | Err e => e = ENOMEM /\ nfree h' = O | Panic => False end.
Proof.
  intros Hw Hr Hnone Hi Hwr Hsee Hlen Hl Hz. set (g := with_frame bs n h1). set (fi := fi_new (new_frame h1) l).
  assert (Hwg : wf rank g) by (by apply with_frame_wf).
  assert (Hbs : pages g !! new_frame h1 = Some bs) by (cbn; apply lookup_insert_eq).
  assert (Hpg : page_ok g (new_frame h1) l) by (split; [by eapply new_frame_nonzero|]; split; [done|]; by exists bs).
  assert (Hseeg : sees g r i bs) by (destruct Hsee as (y & Hy & Hb); exists y; split; [done|]; destruct y; [by apply with_frame_old|done|done]).
  assert (Hfresh : forall x j fj, entry (physs g) x j fj -> frame_of fj <> Some (new_frame h1)) by (intros x j fj He; by eapply (new_frame_fresh rank h1)).
  assert (HwG : wf rank (set_physs (put (physs g) r rph i fi) g)) by (by eapply (enter_wf rank g r rph i fi (new_frame h1) l)).
  destruct (entry_post rank g r rph i fi (Some fi) w c Hr) as (res & h' & E & Hres); [by rewrite Hnone; eauto|done|done|].
  exists res, h'. split; [exact E|]. destruct res as [com|e|]; [|done|done].
  eapply post_pre; [exact Hw| | |exact Hres].
  - eapply pres_trans; [apply (with_frame_pres h1 bs n)|]. apply pres_put; [done|]. intros x j cs.
    by eapply (enter_sees g r rph i fi (new_frame h1) l bs).
  - intros x Hx. unfold put. cbn. rewrite lookup_insert_ne; [done|intros ->; lia].
Qed.

(** The function of the loop: whether there is an entry. *)
Definition own_entry (p : nat) (i : Z) (w : option Z) (c : bool) : PT (heap T) Error (option Commit) :=
  self ← get_phys p;
  match frames self !! i with
  | Some _ => com ← entry_get p i None (branch self) w c; mret (Some com)
  | None => mret None
  end.
Lemma own_entry_none p i w c (h : heap T) ph : physs h !! p = Some ph -> frames ph !! i = None -> own_entry p i w c h = Some (Ok None, h).
Proof. intros Hp Hf. unfold own_entry, get_phys, hget, pt_opt, pt_res, mbind, PT_bind. rewrite Hp. cbn. by rewrite Hf. Qed.
Lemma own_entry_some p i w c (h : heap T) ph fi : physs h !! p = Some ph -> frames ph !! i = Some fi ->
  own_entry p i w c h = (com ← entry_get p i None (branch ph) w c; mret (Some com)) h.
Proof. intros Hp Hf. unfold own_entry, get_phys, hget, pt_opt, pt_res, mbind, PT_bind at 1 2 3. rewrite Hp. cbn. by rewrite Hf. Qed.
Lemma own_entry_pure p i w c (h1 h2 : heap T) : own_entry p i w c h1 = Some (Ok None, h2) -> h2 = h1.
Proof.
  unfold own_entry, get_phys, hget, pt_opt, pt_res, mbind, PT_bind at 1 2 3. destruct (physs h1 !! p) as [ph|]; cbn; [|done].
  destruct (frames ph !! i); [|by intros [= <-]]. unfold mbind, PT_bind. destruct (entry_get _ _ _ _ _ _ _) as [[[com|e|] h]|]; done.
Qed.

Lemma needs_self rank (h : heap T) r rph i d :
  wf rank h -> physs h !! r = Some rph -> frames rph !! i = None -> (branch rph = true -> child (physs h) r d /\ needs (physs h) i d) -> needs (physs h) i r.
Proof.
  intros Hw Hr Hn Hb. destruct (branch rph) eqn:E; [|by eapply needs_leaf]. destruct (Hb eq_refl). by eapply needs_up.
Qed.

(** What may go wrong: no frames are left, or a backend fails. *)
Definition may_fail (h h' : heap T) (e : Error) : Prop := e = ENOMEM /\ nfree h' = O \/ backs h <> ∅.
Definition committed (rank : nat -> nat) (r : nat) (i : Z) (w : option Z) (c : bool) (h : heap T) (o : option (res Error Commit * heap T)) : Prop :=
  exists r' h', o = Some (r', h') /\ match r' with Ok com => post rank r i w c h h' com | Err e => may_fail h h' e | Panic => False end.

Lemma zeros_len : length zeros = Z.to_nat PAGE_SIZE.
Proof. apply length_replicate. Qed.
Lemma zeros_all k : Forall (eq 0) (drop k zeros).
Proof. apply Forall_drop. by apply Forall_replicate. Qed.

Definition blank (r : nat) (i : Z) (br : bool) (w : option Z) (c : bool) : PT (heap T) Error Commit :=
  match w with
  | None => mret (CShared ZERO 0)
  | Some new_len => f ← frame_new; entry_get r i (Some (fi_new f new_len)) br w c
  end.
Lemma blank_post rank (h1 : heap T) r rph i w c :
  wf rank h1 -> physs h1 !! r = Some rph -> frames rph !! i = None -> 0 <= i -> parent rph = None ->
  (forall nl, w = Some nl -> 0 <= nl <= PAGE_SIZE) -> committed rank r i w c h1 (blank r i (branch rph) w c h1).
Proof.
  intros Hw Hr Hn Hi Hp Hwr. unfold blank. assert (Hz : looks (physs h1) r i SZero) by (by eapply looks_zero).
  destruct w as [nl|].
  - unfold mbind, PT_bind. rewrite frame_new_eq. destruct (nfree h1) as [|n] eqn:En; [by eexists _, _; split; [done|]; left|].
    destruct (new_page_post rank h1 r rph i (Some nl) c zeros nl n) as (res & h' & E & Hres); try done.
    + by exists SZero.
    + by apply Hwr.
    + apply zeros_all.
    + exists res, h'. split; [exact E|]. destruct res; [done|by left|done].
  - eexists _, _. split; [done|]. split; [done|]. split_and!; [done|apply pres_refl|by right|done].
Qed.

Lemma pad_page D :
  length (pad D) = Z.to_nat PAGE_SIZE /\ 0 <= len (take (Z.to_nat PAGE_SIZE) D) <= PAGE_SIZE /\
  Forall (eq 0) (drop (Z.to_nat (len (take (Z.to_nat PAGE_SIZE) D))) (pad D)).
Proof.
  unfold pad, splice. set (B := take (Z.to_nat PAGE_SIZE) D).
  assert (HB : (length B <= Z.to_nat PAGE_SIZE)%nat) by (unfold B; rewrite length_take; lia).
  change (take (Z.to_nat 0) zeros) with (@nil Z). change (Z.to_nat 0 + ?n)%nat with n. cbn [app]. unfold len. split_and!.
  - rewrite length_app, length_drop, zeros_len. lia.
  - lia.
  - apply Nat2Z.inj_le in HB. by rewrite Z2Nat.id in HB.
  - rewrite Nat2Z.id, drop_app_length. apply zeros_all.
Qed.

Definition load (r : nat) (i : Z) (br : bool) (w : option Z) (c : bool) (b : nat) : PT (heap T) Error Commit :=
  f ← frame_new;
  bs ← load_page (S (Z.to_nat PAGE_SIZE)) b (wshl 64 i PAGE_SHIFT) PAGE_SIZE [];
  page ← get_page f;
  _ ← put_page f (splice page 0 bs);
  entry_get r i (Some (fi_new f (len bs))) br w c.
Lemma load_post rank (h1 : heap T) r rph i w c b :
  wf rank h1 -> physs h1 !! r = Some rph -> frames rph !! i = None -> 0 <= i < 2 ^ 51 -> parent rph = Some (PBackend b) ->
  (forall nl, w = Some nl -> 0 <= nl <= PAGE_SIZE) -> committed rank r i w c h1 (load r i (branch rph) w c b h1).
Proof.
  intros Hw Hr Hn Hi Hp Hwr. unfold load. pose proof (wf_link _ _ Hw _ _ Hr) as Hl. unfold link_ok in Hl. rewrite Hp in Hl. destruct Hl as [o Ho].
  assert (Hne : backs h1 <> ∅) by (intros E; rewrite E in Ho; set_solver).
  unfold mbind, PT_bind at 1. rewrite frame_new_eq. destruct (nfree h1) as [|n] eqn:En; [by eexists _, _; split; [done|]; left|].
  assert (HPS : PAGE_SIZE = 4096) by done.
  assert (Hsh : wshl 64 i PAGE_SHIFT = i * PAGE_SIZE).
  { unfold wshl, PAGE_SHIFT. rewrite Z.shiftl_mul_pow2 by lia. rewrite wrap_small; [done|unfold fits; lia]. }
  destruct (load_page_ok (S (Z.to_nat PAGE_SIZE)) b (i * PAGE_SIZE) PAGE_SIZE [] (with_frame zeros n h1) o Ho) as (res & g & E & (Hg1 & Hg2 & Hg3 & Hdom & Hg4) & Hres);
    [rewrite HPS; lia|done|rewrite HPS; lia|lia|].
  unfold PT_bind at 1. rewrite Hsh, E. destruct res as [bs|e|]; [|by eexists _, _; split; [done|]; right|done]. cbn [app] in Hres.
  set (D := drop (Z.to_nat (i * PAGE_SIZE)) (file o)) in *.
  set (h2 := set_pages (pages h1) (nfree h1) g).
  assert (Hback : forall b0 o0, backs h1 !! b0 = Some o0 -> exists o', backs h2 !! b0 = Some o' /\ file o' = file o0) by exact Hg4.
  assert (Hgp : pages g !! new_frame h1 = Some zeros) by (rewrite Hg2; cbn; apply lookup_insert_eq).
  assert (Hput : set_pages (<[new_frame h1 := pad D]> (pages g)) (nfree g) g = with_frame (pad D) n h2).
  { unfold with_frame, set_pages. f_equal; [|exact Hg3]. rewrite Hg2. cbn. unfold new_frame. by rewrite insert_insert_eq. }
  unfold get_page, put_page, hget, hput, pt_opt, pt_res, mbind, PT_bind. rewrite Hgp. cbn [unwrap].
  rewrite Hres. fold (pad D). rewrite Hput. destruct (pad_page D) as (HD1 & HD2 & HD3).
  assert (Hs2 : forall x j cs, sees h1 x j cs -> sees h2 x j cs) by (intros x j cs; apply outside_sees; [exact Hg1|done|done]).
  destruct (new_page_post rank h2 r rph i w c (pad D) (len (take (Z.to_nat PAGE_SIZE) D)) n) as (res' & h' & E' & Hres'); try done.
  - eapply outside_wf; [exact Hw|exact Hg1|done|done].
  - cbn. by rewrite Hg1.
  - lia.
  - apply Hs2. exists (SBack b i). split; [by eapply looks_back|]. cbn. by rewrite Ho.
  - exists res', h'. split; [exact E'|]. destruct res' as [com|e|]; [|by right|done].
    eapply post_pre; [exact Hw| | |exact Hres']; [by apply pres_outside|]. intros. cbn. by rewrite Hg1.
Qed.

(** A page that comes from the object above. *)
Lemma inherit_post rank (h1 : heap T) r rph i w c q cq o :
  wf rank h1 -> physs h1 !! r = Some rph -> frames rph !! i = None -> parent rph = Some (PPhys q 0 None) -> needs (physs h1) i r ->
  (forall nl, w = Some nl -> 0 <= nl <= PAGE_SIZE) -> (c = true -> cq = true) -> committed rank q i w cq h1 (o h1) ->
  committed rank r i w c h1 ((com ← o; match com with CShared f l => mret (CShared f l) | CUnique fi => entry_get r i (Some fi) (branch rph) w c end) h1).
Proof.
  intros Hw Hr Hn Hp Hneed Hwr Hcq (res & h' & E & Hres). assert (Hc : child (physs h1) q r) by (by exists rph).
  pose proof (child_rank _ _ _ _ Hw Hc) as Hrk. unfold mbind, PT_bind. rewrite E.
  destruct res as [com|e|]; [|by eexists _, _|done]. destruct Hres as [Hfr Hcom]. destruct com as [f l|fi].
  - eexists _, _. split; [done|]. split; [intros x Hx; apply Hfr; lia|]. destruct Hcom as (Hw' & Hpr & Hsh & Hown).
    assert (Hr' : physs h' !! r = Some rph) by (by rewrite Hfr).
    split_and!; [done|done| |].
    + destruct Hsh as [[Hlk Hnl]|(? & ? & ? & Hlk)]; [left; split; [|done]|right; split_and!; try done]; by eapply looks_up.
    + intros Hwn Hct. destruct (child_branch rank h' q r Hw') as (qph & Hq & Hb); [by exists rph|].
      destruct (Hown Hwn (Hcq Hct)) as (qph' & fi & Hq' & Hb' & _). congruence.
  - destruct Hcom as (_ & Hst & Hd). destruct (Hd r Hc Hneed) as (dph & Hdp & Hdn & Hw' & Hpr).
    assert (dph = rph) as -> by (rewrite Hfr in Hdp by done; congruence).
    destruct (entry_post rank h' r rph i fi (Some fi) w c Hdp) as (res & h2 & E2 & Hres); [by rewrite Hdn|done|done|].
    exists res, h2. split; [exact E2|]. destruct res as [com|e|]; [|by left|done].
    eapply post_pre; [exact Hw|exact Hpr| |exact Hres]. intros x Hx. unfold put. cbn. rewrite lookup_insert_ne by (intros ->; lia). apply Hfr. lia.
Qed.

(** A commit, on an object or on a branch that somebody looks through. *)
Lemma commit_impl_ok rank n : forall (h : heap T) r rph i w c,
  wf rank h -> physs h !! r = Some rph -> 0 <= i < 2 ^ 51 -> (forall nl, w = Some nl -> 0 <= nl <= PAGE_SIZE) -> (rank r + 2 <= n)%nat ->
  (branch rph = true -> exists d, child (physs h) r d /\ needs (physs h) i d) ->
  committed rank r i w (cow rph || c) h (commit_impl n r i w c h).
Proof.
  induction n as [|n IH]; intros h r rph i w c Hw Hr Hi Hwr Hn Hb; [lia|]. cbn [commit_impl].
  assert (Hg : get_phys r h = Some (Ok rph, h)) by (unfold get_phys, hget, pt_opt, pt_res, mbind, PT_bind; by rewrite Hr).
  rewrite (PT_bind_Ok _ _ _ _ _ Hg). set (C := cow rph || c). fold (own_entry r i w C).
  destruct (merge_loop rank n r (own_entry r i w C) h rph (own_entry_pure r i w C) Hw Hr) as (h1 & Hm & Heq).
  { destruct n as [|n]; [lia|]. intros ph q s e Hp Hpar. pose proof (wf_link _ _ Hw _ _ Hp) as Hl. unfold link_ok in Hl.
    rewrite Hpar in Hl. destruct Hl as (_ & _ & ? & _). lia. }
  pose proof (m_wf _ _ _ _ Hm) as Hw1. destruct (m_self _ _ _ _ Hm _ Hr) as (rph1 & Hr1 & Hbr & Hcow & _).
  assert (Habove : forall x, (rank r < rank x)%nat -> physs h1 !! x = physs h !! x) by (intros; apply (m_above _ _ _ _ Hm); [lia|intros ->; lia]).
  assert (Hpre : forall o, committed rank r i w C h1 o -> committed rank r i w C h o).
  { intros o (res & h' & E & Hres). exists res, h'. split; [done|]. destruct res as [com|e|]; [|by rewrite (m_rest _ _ _ _ Hm) in Hres|done].
    eapply post_pre; [exact Hw|by eapply pres_merges|done|done]. }
  apply Hpre. clear Hpre. destruct (frames rph1 !! i) as [fi|] eqn:Efi.
  - pose proof (own_entry_some r i w C h1 rph1 fi Hr1 Efi) as Eo. rewrite <- Heq in Eo.
    destruct (entry_post rank h1 r rph1 i fi None w C Hr1) as (res & h' & E & Hres); [by rewrite Efi|done| |].
    { rewrite (put_id _ _ _ _ _ Hr1 Efi). by destruct h1. }
    rewrite (put_id _ _ _ _ _ Hr1 Efi) in Hres. replace (set_physs (physs h1) h1) with h1 in Hres by (by destruct h1).
    exists res, h'. unfold mbind, PT_bind in *. rewrite Eo, E. destruct res; [done|split; [done|by left]|done].
  - pose proof (own_entry_none r i w C h1 rph1 Hr1 Efi) as Eo. rewrite <- Heq in Eo. rewrite (PT_bind_Ok _ _ _ _ _ Eo).
    assert (Hg1 : get_phys r h1 = Some (Ok rph1, h1)) by (unfold get_phys, hget, pt_opt, pt_res, mbind, PT_bind; by rewrite Hr1).
    rewrite (PT_bind_Ok _ _ _ _ _ Hg1). fold (blank r i (branch rph1) w C). pose proof (wf_link _ _ Hw1 _ _ Hr1) as Hl. unfold link_ok in Hl.
    destruct (parent rph1) as [[q s e|b]|] eqn:Epar; [|apply load_post; try done; lia|apply blank_post; try done; lia].
    destruct Hl as (-> & -> & Hrk & qph & Hq & Hqb). rewrite wadd_small by (unfold fits; lia). rewrite Z.add_0_l.
    assert (Hneed : needs (physs h1) i r).
    { destruct (branch rph1) eqn:E1; [|by eapply needs_leaf]. destruct Hb as (d & Hc & Hd); [congruence|].
      pose proof (child_rank _ _ _ _ Hw Hc). eapply needs_up; [done|done| |eapply needs_same; [exact Hw|done|]; intros; apply Habove; lia].
      destruct Hc as (dph & Hdp & Hdl). exists dph. by rewrite Habove. }
    eapply (inherit_post rank h1 r rph1 i w C q (cow qph || C)); try done.
    + intros ->. by destruct (cow qph).
    + apply IH; try done; [lia|]. intros _. exists r. split; [by exists rph1|done].
Qed.

Lemma commit_ok rank n (h : heap T) p ph i w :
  wf rank h -> physs h !! p = Some ph -> branch ph = false -> 0 <= i < 2 ^ 51 -> (forall nl, w = Some nl -> 0 <= nl <= PAGE_SIZE) ->
  (rank p + 2 <= n)%nat ->
  exists r h', commit n p i w h = Some (r, h') /\
    match r with
    | Ok (f, l) => wf rank h' /\ pres h h' /\ shown h' p i f l w /\ (w <> None -> cow ph = true -> own h' p i f)
    | Err e => may_fail h h' e
    | Panic => False
    end.
Proof.
  intros Hw Hp Hb Hi Hwr Hn. destruct (commit_impl_ok rank n h p ph i w (cow ph) Hw Hp Hi Hwr Hn) as (r & h' & E & Hr); [congruence|].
  assert (Hrun : commit n p i w h = match r with Ok (CShared f l) => Some (Ok (f, l), h') | Ok _ | Panic => Some (Panic, h') | Err e => Some (Err e, h') end).
  { unfold commit, get_phys, hget, pt_opt, pt_res, mbind, PT_bind. rewrite Hp. cbn [unwrap]. rewrite Hb, E. by destruct r as [[]| |]. }
  rewrite orb_diag in Hr. destruct r as [[f l|fi]|e|]; [| | |done].
  - destruct Hr as [_ Hr]. by exists (Ok (f, l)), h'.
  - destruct Hr as (_ & Hbr & _). by rewrite (Hbr ph Hp) in Hb.
  - by exists (Err e), h'.
Qed.
End PhysSpec.

(** * kmem: copies of memory objects

    [clone_as(cow, 0, None)] puts a branch with the pages between the object, its
    copy and what was above it. *)
Import Errno Umio Ph.

Section Fork.
Context {T : Type} `{IoT : Io T} `{BT : !Backing T}.
Variables (rank : nat -> nat) (h : heap T) (p b c : nat) (ph cph : Phys).
Hypothesis Hw : wf rank h.
Hypothesis Hp : physs h !! p = Some ph.
Hypothesis Hleaf : branch ph = false.
Hypothesis Hb : physs h !! b = None.
Hypothesis Hc : physs h !! c = None.
Hypothesis Hbc : b <> c.
Hypothesis Hcp : branch cph = false /\ parent cph = Some (PPhys b 0 None) /\ frames cph = ∅.

Definition stem : Phys := mk_phys true (parent ph) (frames ph) 0 (cow ph || cow cph) None.
Definition trunk : Phys := set_frames ∅ (set_parent (Some (PPhys b 0 None)) ph).
Notation h' := (set_physs (<[c := cph]> (<[p := trunk]> (<[b := stem]> (physs h)))) h).
(** The branch takes the height of the object; the two are one above it. *)
Definition fork_rank (x : nat) : nat := if decide (x = b) then rank p else if decide (x = p \/ x = c) then S (rank p) else rank x.

Lemma fork_ne : b <> p /\ c <> p.
Proof. split; intros ->; congruence. Qed.
Lemma fork_at x : physs h' !! x =
  if decide (x = c) then Some cph else if decide (x = p) then Some trunk else if decide (x = b) then Some stem else physs h !! x.
Proof. cbn. rewrite !lookup_insert. repeat case_decide; congruence. Qed.
Lemma fork_cases x xph : physs h' !! x = Some xph ->
  (x = c /\ xph = cph) \/ (x = p /\ xph = trunk) \/ (x = b /\ xph = stem) \/ (x <> c /\ x <> p /\ x <> b /\ physs h !! x = Some xph).
Proof. rewrite fork_at. repeat case_decide; naive_solver. Qed.
Lemma fork_no_child d : ~ child (physs h) p d /\ ~ child (physs h) b d /\ ~ child (physs h) c d.
Proof.
  split_and!; intros Hd; destruct (child_branch _ _ _ _ Hw Hd) as (q & Hq & Hqb); congruence.
Qed.

(** The branch stands where the object stood. *)
Definition fork_origin (x : nat) : nat := if decide (x = b) then p else x.
Lemma fork_child q d : child (physs h') q d -> q <> b -> child (physs h) q (fork_origin d) /\ d <> p /\ d <> c.
Proof.
  intros (dph & Hd & Hl) Hq. unfold fork_origin. destruct fork_ne as [N1 N2]. destruct Hcp as (_ & Hcl & _).
  apply fork_cases in Hd as [(-> & ->)|[(-> & ->)|[(-> & ->)|(? & ? & ? & Hd)]]].
  - rewrite Hcl in Hl. congruence.
  - cbn in Hl. congruence.
  - rewrite decide_True by done. split; [by exists ph|]. naive_solver.
  - rewrite decide_False by done. split; [by exists dph|done].
Qed.
Lemma fork_stem_child d : child (physs h') b d -> d = p \/ d = c.
Proof.
  intros (dph & Hd & Hl). apply fork_cases in Hd as [(-> & ->)|[(-> & ->)|[(-> & ->)|(? & ? & ? & Hd)]]]; [by right|by left| |].
  - cbn in Hl. pose proof (proj1 (proj2 (fork_no_child p))) as Hn. destruct Hn. by exists ph.
  - pose proof (proj1 (proj2 (fork_no_child d))) as Hn. destruct Hn. by exists dph.
Qed.
Lemma fork_entry x i fi : entry (physs h') x i fi -> entry (physs h) (fork_origin x) i fi /\ x <> p /\ x <> c.
Proof.
  intros (xph & Hx & Hf). unfold fork_origin. destruct fork_ne as [N1 N2]. destruct Hcp as (_ & _ & Hcf).
  apply fork_cases in Hx as [(-> & ->)|[(-> & ->)|[(-> & ->)|(? & ? & ? & Hx)]]].
  - by rewrite Hcf, lookup_empty in Hf.
  - by cbn in Hf.
  - rewrite decide_True by done. split; [by exists ph|]. naive_solver.
  - rewrite decide_False by done. split; [by exists xph|done].
Qed.
Lemma fork_origin_inj x y : x <> p -> y <> p -> fork_origin x = fork_origin y -> x = y.
Proof. unfold fork_origin. repeat case_decide; congruence. Qed.
Lemma fork_needs i x : needs (physs h') i x -> x <> p -> x <> c -> needs (physs h) i (fork_origin x).
Proof.
  induction 1 as [d dph Hd Hbr Hf|d dph e Hd Hf He Hn IH]; intros N1 N2; unfold fork_origin;
    apply fork_cases in Hd as [(-> & ->)|[(-> & ->)|[(-> & ->)|(? & ? & ? & Hd)]]]; try done.
  - rewrite decide_False by done. by eapply needs_leaf.
  - rewrite decide_True by done. by eapply needs_leaf.
  - rewrite decide_False by done. destruct (fork_child _ _ He) as (Hce & ? & ?); [done|]. eapply needs_up; [done|done|exact Hce|]. by apply IH.
Qed.

Lemma fork_looks x j y : looks (physs h) x j y ->
  looks (physs h') x j y /\ (x = p -> looks (physs h') b j y /\ looks (physs h') c j y).
Proof.
  destruct fork_ne as [N1 N2]. destruct Hcp as (_ & Hcl & Hcf).
  assert (Hat_b : physs h' !! b = Some stem) by (rewrite fork_at; repeat case_decide; congruence).
  assert (Hat_p : physs h' !! p = Some trunk) by (rewrite fork_at; repeat case_decide; congruence).
  assert (Hat_c : physs h' !! c = Some cph) by (rewrite fork_at; repeat case_decide; congruence).
  assert (Hb_all : forall k z, looks (physs h') b k z -> looks (physs h') p k z /\ looks (physs h') c k z).
  { intros k z Hz. split; eapply looks_up; [exact Hat_p|done|done|done|exact Hat_c|by rewrite Hcf|done|done]. }
  assert (Hat : forall x xph, x <> p -> physs h !! x = Some xph -> physs h' !! x = Some xph).
  { intros z zph Hz Hzp. rewrite fork_at. repeat case_decide; congruence. }
  enough (Hgoal : looks (physs h) x j y -> (x <> p -> looks (physs h') x j y) /\ (x = p -> looks (physs h') b j y)).
  { intros Hl. destruct (Hgoal Hl) as [G1 G2]. destruct (decide (x = p)) as [->|Hne]; [|naive_solver].
    destruct (Hb_all _ _ (G2 eq_refl)). naive_solver. }
  induction 1 as [x xph j fj t Hx Hf Ht|x xph j q y Hx Hf Hpar Hq [IH1 _]|x xph j k Hx Hf Hpar|x xph j Hx Hf Hpar];
    (split; [intros Hne|intros ->; assert (xph = ph) as -> by congruence]).
  - eapply looks_own; [by apply Hat|done|done].
  - eapply looks_own; [exact Hat_b|done|done].
  - eapply looks_up; [by apply Hat|done|done|]. apply IH1. intros ->. by eapply (proj1 (fork_no_child x)); exists xph.
  - eapply looks_up; [exact Hat_b|done|done|]. apply IH1. intros ->. by eapply (proj1 (fork_no_child p)); exists ph.
  - eapply looks_back; [by apply Hat|done|done].
  - eapply looks_back; [exact Hat_b|done|done].
  - eapply looks_zero; [by apply Hat|done|done].
  - eapply looks_zero; [exact Hat_b|done|done].
Qed.

Lemma fork_sees x j bs : sees h x j bs -> sees h' x j bs /\ (x = p -> sees h' c j bs).
Proof.
  intros (y & Hy & Hbs). destruct (fork_looks _ _ _ Hy) as [H1 H2]. split; [by exists y|]. intros E. destruct (H2 E). by exists y.
Qed.

Lemma fork_link x xph : physs h' !! x = Some xph -> link_ok fork_rank h' x xph.
Proof.
  destruct fork_ne as [N1 N2]. assert (Hat_b : physs h' !! b = Some stem) by (rewrite fork_at; repeat case_decide; congruence).
  assert (Hold : forall x xph k, physs h !! x = Some xph -> (rank x <= k)%nat -> (forall q s e, parent xph = Some (PPhys q s e) ->
    s = 0 /\ e = None /\ (fork_rank q < k)%nat /\ exists phq, physs h' !! q = Some phq /\ branch phq = true)).
  { intros z zph k Hz Hk q s e Hpar. pose proof (wf_link _ _ Hw _ _ Hz) as Hl. unfold link_ok in Hl. rewrite Hpar in Hl.
    destruct Hl as (-> & -> & Hr & qph & Hq & Hqb). assert (q <> p) by congruence. assert (q <> b /\ q <> c) by (split; congruence).
    split_and!; [done|done| |].
    - unfold fork_rank. rewrite !decide_False by naive_solver. lia.
    - exists qph. split; [|done]. rewrite fork_at. repeat case_decide; naive_solver. }
  assert (Hback : forall x xph k, physs h !! x = Some xph -> parent xph = Some (PBackend k) -> is_Some (backs h !! k)).
  { intros z zph k Hz Hpar. pose proof (wf_link _ _ Hw _ _ Hz) as Hl. unfold link_ok in Hl. by rewrite Hpar in Hl. }
  assert (Rb : fork_rank b = rank p) by (unfold fork_rank; by rewrite decide_True).
  assert (Rp : fork_rank p = S (rank p)) by (unfold fork_rank; rewrite decide_False, decide_True by naive_solver; done).
  assert (Rc : fork_rank c = S (rank p)) by (unfold fork_rank; rewrite decide_False, decide_True by naive_solver; done).
  destruct Hcp as (_ & Hcl & _). unfold link_ok. intros Hx. apply fork_cases in Hx as [(-> & ->)|[(-> & ->)|[(-> & ->)|(? & ? & ? & Hx)]]].
  - rewrite Hcl. split_and!; [done|done|lia|by exists stem].
  - cbn [parent trunk set_frames set_parent]. split_and!; [done|done|lia|by exists stem].
  - cbn [parent stem]. rewrite Rb. destruct (parent ph) as [[q s e|k]|] eqn:E; [by eapply (Hold p)|by eapply (Hback p)|done].
  - assert (Rx : fork_rank x = rank x) by (unfold fork_rank; rewrite !decide_False by naive_solver; done).
    rewrite Rx. destruct (parent xph) as [[q s e|k]|] eqn:E; [by eapply (Hold x)|by eapply (Hback x)|done].
Qed.

Lemma fork_wf : wf fork_rank h'.
Proof.
  destruct fork_ne as [N1 N2]. constructor.
  - exact fork_link.
  - intros x xph i fi Hx Hf. destruct (fork_entry x i fi) as ((x0 & Hx0 & Hf0) & ? & ?); [by exists xph|].
    destruct (wf_state _ _ Hw _ _ _ _ Hx0 Hf0) as (s & Hs & Hpg & Hsh). exists s. split_and!; [done|done|].
    intros Hbr. apply Hsh. unfold fork_origin in Hx0. case_decide as E; [congruence|].
    apply fork_cases in Hx as [(? & ?)|[(? & ?)|[(? & ?)|(_ & _ & _ & Hx)]]]; try done. congruence.
  - intros x i fi x' i' fi' f Hx Hx' Hf Hf'. apply fork_entry in Hx as (Hx & ? & _). apply fork_entry in Hx' as (Hx' & ? & _).
    destruct (wf_linear _ _ Hw _ _ _ _ _ _ _ Hx Hx' Hf Hf') as [? ?]. split; [by apply fork_origin_inj|done].
  - intros q d1 d2 d3 H1 H2 H3. destruct (decide (q = b)) as [->|Hq].
    + apply fork_stem_child in H1, H2, H3. naive_solver.
    + apply fork_child in H1 as (H1 & ? & _), H2 as (H2 & ? & _), H3 as (H3 & ? & _); try done.
      destruct (wf_two _ _ Hw _ _ _ _ H1 H2 H3) as [E|[E|E]]; apply fork_origin_inj in E; auto.
  - intros q i fi f l d1 d2 He Hu H1 H2 Hn1 Hn2. apply fork_entry in He as ((q0 & Hq0 & Hf0) & ? & ?).
    unfold fork_origin in Hq0. case_decide as E.
    + destruct (wf_state _ _ Hw _ _ _ _ Hq0 Hf0) as (s & Hs & _ & Hsh). assert (q0 = ph) as -> by congruence. specialize (Hsh Hleaf). congruence.
    + apply fork_child in H1 as (H1 & ? & ?), H2 as (H2 & ? & ?); try done.
      apply fork_origin_inj; [done|done|]. eapply (wf_unique _ _ Hw q i fi f l); [by exists q0|done|done|done|by apply fork_needs|by apply fork_needs].
  - apply (wf_zero _ _ Hw).
  - intros x i fi He. apply fork_entry in He as (He & _). by eapply (wf_index _ _ Hw).
Qed.

Lemma fork_pres : pres h h'.
Proof.
  split; [done|]. intros x xph Hx Hxb. destruct fork_ne as [N1 N2]. destruct (decide (x = p)) as [->|Hne].
  - exists trunk. split; [rewrite fork_at; repeat case_decide; congruence|]. assert (xph = ph) as -> by congruence. split_and!; try done.
    intros j bs Hs. by apply fork_sees.
  - exists xph. split; [rewrite fork_at; repeat case_decide; congruence|]. split_and!; try done. intros j bs Hs. by apply fork_sees.
Qed.
End Fork.

Section Clone.
Context {T : Type} `{IoT : Io T} `{BT : !Backing T}.

Lemma merge_fuel_ok rank n (h : heap T) p : wf rank h -> (rank p < n)%nat -> merge_fuel rank n h p.
Proof.
  intros Hw Hn. destruct n as [|n]; [lia|]. intros ph q s e Hp Hpar. pose proof (wf_link _ _ Hw _ _ Hp) as Hl. unfold link_ok in Hl.
  rewrite Hpar in Hl. destruct Hl as (_ & _ & ? & _). lia.
Qed.

(** What [clone_as] has made. *)
Record cloned (rank : nat -> nat) (p : nat) (cow' : bool) (h : heap T) (c : nat) (h' : heap T) (rank' : nat -> nat) : Prop := mk_cloned {
  c_wf : wf rank' h';
  c_pres : pres h h';
  c_rank : rank' c = S (rank p) /\ forall x xph, physs h !! x = Some xph -> branch xph = false -> x <> p -> rank' x = rank x;
  c_rank_p : rank' p = S (rank p);
  c_bound k : (forall x, (rank x <= k)%nat) -> forall x, (rank' x <= S k)%nat;
  c_new xph : physs h !! c = Some xph -> branch xph = true;
  c_obj : exists cph, physs h' !! c = Some cph /\ branch cph = false /\ cow cph = cow' /\ position cph = 0;
  c_sees j bs : sees h p j bs -> sees h' c j bs;
}.
Lemma clone_ok rank n (h : heap T) p ph cow' :
  wf rank h -> physs h !! p = Some ph -> branch ph = false -> (rank p < n)%nat ->
  exists c h' rank', clone_as n p cow' 0 None h = Some (Ok c, h') /\ cloned rank p cow' h c h' rank'.
Proof.
  intros Hw Hp Hleaf Hn.
  assert (Hf : forall g1 g2, (mret (Some tt) : PT (heap T) Error (option unit)) g1 = Some (Ok None, g2) -> g2 = g1) by (intros g1 g2 E; discriminate E).
  destruct (merge_loop rank n p (mret (Some tt)) h ph Hf Hw Hp (merge_fuel_ok _ _ _ _ Hw Hn)) as (h1 & Hm & Heq).
  pose proof (m_wf _ _ _ _ Hm) as Hw1. destruct (m_self _ _ _ _ Hm _ Hp) as (ph1 & Hp1 & Hbr & Hcow & Hfl & Hpos & _).
  pose proof (pres_merges _ _ _ _ _ Hp Hm) as Hpm.
  set (b := new_id h1). assert (Hb : physs h1 !! b = None) by (apply (not_elem_of_dom (D := gset nat)); apply is_fresh).
  set (ps2 := <[p := trunk b ph1]> (<[b := mk_phys true (parent ph1) (frames ph1) 0 (cow ph1 || cow') None]> (physs h1))).
  set (c := new_id (set_physs ps2 h1)). assert (Hc2 : ps2 !! c = None) by (apply (not_elem_of_dom (D := gset nat)); apply is_fresh).
  unfold ps2 in Hc2. rewrite !lookup_insert_None in Hc2. destruct Hc2 as ((Hc1 & Hcb) & Hcp).
  set (cph := mk_phys false (Some (PPhys b 0 None)) ∅ 0 cow' (match flusher ph1 with
     | Some fl => if negb cow' then Some (mk_flusher (sender fl) (wadd 64 (offset fl) 0)) else None | None => None end)).
  set (h' := set_physs (<[c := cph]> ps2) h1). assert (Hleaf1 : branch ph1 = false) by congruence.
  assert (Hcph : branch cph = false /\ parent cph = Some (PPhys b 0 None) /\ frames cph = ∅) by done.
  exists c, h', (fork_rank rank p b c). split.
  { unfold clone_as. unfold mbind at 1, PT_bind at 1. rewrite Heq.
    unfold alloc_phys, get_phys, put_phys, hget, hput, pt_opt, pt_res, mbind, PT_bind. cbn. rewrite Hp1. cbn. fold b.
    done. }
  constructor.
  - exact (fork_wf rank h1 p b c ph1 cph Hw1 Hp1 Hleaf1 Hb Hc1 Hcb Hcph).
  - eapply pres_trans; [exact Hpm|]. exact (fork_pres rank h1 p b c ph1 cph Hw1 Hp1 Hleaf1 Hb Hc1 Hcb Hcph).
  - unfold fork_rank. split; [rewrite decide_False, decide_True by naive_solver; done|]. intros x xph Hx Hxb Hne.
    pose proof (m_leaf _ _ _ _ Hm x xph Hx Hxb Hne). rewrite !decide_False; [done|naive_solver congruence|congruence].
  - unfold fork_rank. rewrite decide_False, decide_True by naive_solver congruence. done.
  - intros k Hk x. unfold fork_rank. pose proof (Hk p). pose proof (Hk x). repeat case_decide; lia.
  - intros xph Hx. destruct (branch xph) eqn:E; [done|]. destruct (decide (c = p)) as [->|Hne]; [congruence|].
    pose proof (m_leaf _ _ _ _ Hm c xph Hx E Hne). congruence.
  - exists cph. split; [apply lookup_insert_eq|done].
  - intros j bs Hs. apply (m_sees _ _ _ _ Hm) in Hs; [|by eexists].
    exact (proj2 (fork_sees rank h1 p b c ph1 cph Hw1 Hp1 Hleaf1 Hb Hc1 Hcb Hcph p j bs Hs) eq_refl).
Qed.
End Clone.
