(* ===== verification/PhysWrite.v ===== *)
(** * kmem: writing to and reading from a memory object

    A write to an object that copies on write changes the bytes it is given, of that
    object, and nothing that any other object shows. *)

From S2P Require Import Prelude Ksc Bytes Paging Umio Phys PhysInv PhysCommit PhysClone.

Import Errno Umio Ph.

Section PhysWrite.
Context {T : Type} `{IoT : Io T} `{BT : !Backing T}.

(** ** Who sees a frame *)
Lemma alone rank (h : heap T) p i f x j y :
  wf rank h -> own h p i f -> looks (physs h) x j y -> (exists l, y = SFrame f l) -> x = p /\ j = i.
Proof.
  intros Hw (ph & fi & Hp & Hb & Hf & Hfr). induction 1 as [x xph j fj t Hx Hfj Ht|x xph j q y Hx Hn Hpar Hq IH|x xph j b Hx Hn Hpar|x xph j Hx Hn Hpar];
    intros [l E]; try done.
  - injection E as E1 _. eapply (wf_linear _ _ Hw x j fj p i fi f); [by exists xph|by exists ph| |done]. unfold frame_of. rewrite Ht. cbn. by rewrite E1.
  - destruct IH as [-> ->]; [by exists l|]. destruct (child_branch rank h p x Hw) as (q & Hq' & Hqb); [by exists xph|]. congruence.
Qed.
Lemma looks_page rank (h : heap T) x j f l : wf rank h -> looks (physs h) x j (SFrame f l) -> page_ok h f l.
Proof.
  intros Hw Hl. remember (SFrame f l) as y eqn:E. revert E. induction Hl as [x xph j fj t Hx Hfj Ht|x xph j q y Hx Hn Hpar Hq IH| |]; intros E; try done; [|auto].
  injection E as <- <-. destruct (wf_state _ _ Hw _ _ _ _ Hx Hfj) as (s & Hs & Hpg & _). assert (s = t) as -> by congruence. done.
Qed.
Lemma sees_len rank (h : heap T) x j bs : wf rank h -> sees h x j bs -> length bs = Z.to_nat PAGE_SIZE.
Proof.
  intros Hw (y & Hy & Hb). destruct y as [f l|b k|]; cbn in Hb.
  - destruct (looks_page _ _ _ _ _ _ Hw Hy) as (_ & _ & cs & Hcs & Hlen & _). congruence.
  - destruct (backs h !! b) as [o|]; [|done]. injection Hb as <-. apply pad_page.
  - injection Hb as <-. apply zeros_len.
Qed.

(** ** The bytes of an object change *)
Definition wrote (rank : nat -> nat) (p : nat) (u : Z -> list Z -> list Z) (h h' : heap T) : Prop :=
  wf rank h' /\ dom (backs h') = dom (backs h) /\ forall x xph, physs h !! x = Some xph -> branch xph = false ->
  exists xph', physs h' !! x = Some xph' /\ branch xph' = false /\ cow xph' = cow xph /\ flusher xph' = flusher xph /\
    position xph' = position xph /\ forall j bs, sees h x j bs -> sees h' x j (if decide (x = p) then u j bs else bs).
Lemma wrote_trans rank p u v h1 h2 h3 : wrote rank p u h1 h2 -> wrote rank p v h2 h3 -> wrote rank p (fun j bs => v j (u j bs)) h1 h3.
Proof.
  intros (W1 & D1 & H1) (W2 & D2 & H2). split_and!; [done|congruence|]. intros x xph Hx Hb.
  destruct (H1 x xph Hx Hb) as (x1 & Hx1 & Hb1 & ? & ? & ? & Hs1). destruct (H2 x x1 Hx1 Hb1) as (x2 & Hx2 & Hb2 & ? & ? & ? & Hs2).
  exists x2. split_and!; try congruence. intros j bs Hs. apply Hs1, Hs2 in Hs. by destruct (decide (x = p)).
Qed.
Lemma wrote_pres rank p h h' : wf rank h' -> pres h h' -> wrote rank p (fun _ bs => bs) h h'.
Proof.
  intros Hw [Hd Hp]. split_and!; [done|done|]. intros x xph Hx Hb. destruct (Hp x xph Hx Hb) as (x' & ? & ? & ? & ? & ? & Hs).
  exists x'. split_and!; try done. intros j bs Hj. destruct (decide _); by apply Hs.
Qed.
(** Only what it does to pages matters. *)
Lemma wrote_ext rank p u v h h' : wf rank h -> (forall j bs, length bs = Z.to_nat PAGE_SIZE -> u j bs = v j bs) -> wrote rank p u h h' -> wrote rank p v h h'.
Proof.
  intros Hw Hu (W & D & H). split_and!; [done|done|]. intros x xph Hx Hb. destruct (H x xph Hx Hb) as (x' & ? & ? & ? & ? & ? & Hs).
  exists x'. split_and!; try done. intros j bs Hj. rewrite <- (Hu j bs (sees_len rank h x j bs Hw Hj)). by apply Hs.
Qed.

(** The frame of an entry of the object itself is written. *)
Lemma scribble rank (h : heap T) p i f l bs' :
  wf rank h -> own h p i f -> looks (physs h) p i (SFrame f l) -> length bs' = Z.to_nat PAGE_SIZE -> Forall (eq 0) (drop (Z.to_nat l) bs') ->
  wrote rank p (fun j bs => if decide (j = i) then bs' else bs) h (set_pages (<[f := bs']> (pages h)) (nfree h) h).
Proof.
  intros Hw Hown Hl Hlen Hz. set (h' := set_pages _ _ _). pose proof Hown as (ph & fi & Hp & Hb & Hf & Hfr).
  assert (Hstate : exists s, state fi = Some s /\ state_frame s = (f, l)).
  { inversion Hl as [? ? ? fi' s Hp' Hf' Hs E1 E2 E3| | |]; [|congruence..]. assert (fi' = fi) as -> by congruence. exists s. by destruct (state_frame s). }
  destruct Hstate as (s & Hs & Hsf).
  assert (Hother : forall x j fj, entry (physs h) x j fj -> frame_of fj = Some f -> x = p /\ j = i) by (intros x j fj He Hfj; eapply (wf_linear _ _ Hw x j fj p i fi f); [done|by exists ph|done|done]).
  assert (Hwf : wf rank h').
  { constructor; try apply Hw.
    - intros x xph j fj Hx Hfj. change (physs h !! x = Some xph) in Hx. destruct (wf_state _ _ Hw _ _ _ _ Hx Hfj) as (t & Ht & (Hnz & Hlt & cs & Hcs & Hcl & Hcz) & Hsh).
      exists t. split_and!; [done| |done]. split_and!; [done|lia|lia|]. cbn. destruct (decide ((state_frame t).1 = f)) as [E|E].
      + destruct (Hother x j fj) as [-> ->]; [by exists xph|unfold frame_of; rewrite Ht; cbn; by rewrite E|].
        assert (t = s) as -> by congruence. rewrite Hsf in *. cbn in *. exists bs'. by rewrite lookup_insert_eq.
      + exists cs. by rewrite lookup_insert_ne.
    - cbn. rewrite lookup_insert_ne; [apply (wf_zero _ _ Hw)|]. intros ->. destruct (looks_page _ _ _ _ _ _ Hw Hl) as [? _]. done. }
  split_and!; [done|done|]. intros x xph Hx Hxb. exists xph. split_and!; try done. intros j cs (y & Hy & Hcs).
  destruct (decide (x = p /\ j = i)) as [[-> ->]|Hne].
  - rewrite !decide_True by done. exists (SFrame f l). split; [done|]. cbn. apply lookup_insert_eq.
  - assert (sees h' x j cs) as Hsame.
    { exists y. split; [done|]. destruct y as [g k| |]; [|done|done]. cbn. rewrite lookup_insert_ne; [done|]. intros <-.
      destruct Hne. eapply (alone rank h p i f x j); eauto. }
    destruct (decide (x = p)); [|done]. destruct (decide (j = i)); [naive_solver|done].
Qed.

(** ** Copying into a frame *)
Lemma advance_shorter {B} `{IoSliceExt B} (buf : B) rest n bufs' :
  0 <= n -> 0 <= slice_len buf < 2 ^ 64 -> advance_slices (buf :: rest) n = Ok bufs' ->
  (length bufs' <= S (length rest))%nat /\ (slice_len buf <= n -> (length bufs' <= length rest)%nat).
Proof.
  intros Hn Hl.
  assert (Hgen : forall (l : list B) x acc, (match l with [] => if n =? acc then Ok [] else Panic | b :: bs => y ← advance b x; Ok (y :: bs) end) = Ok bufs' ->
    (length bufs' = length l)%nat).
  { intros [|b bs] x acc; [destruct (n =? acc); intros [= <-]; done|]. unfold mbind, res_bind. destruct (advance b x); [|done|done]. intros [= <-]. done. }
  unfold advance_slices. cbn [removed]. rewrite !(wadd_small 64 0) by (unfold fits; lia).
  destruct (Z.ltb_spec n (0 + slice_len buf)).
  - intros E. apply Hgen in E. rewrite E. cbn. lia.
  - destruct (removed rest n (0 + slice_len buf)) as [k acc]. intros E. apply Hgen in E. cbn [drop] in E. rewrite E, length_drop. lia.
Qed.

Lemma splice_nil (l : list Z) s : 0 <= s -> splice l s [] = l.
Proof. intros Hs. unfold splice. cbn. rewrite Nat.add_0_r. apply take_drop. Qed.
Lemma set_page_id (h : heap T) f page : pages h !! f = Some page -> set_pages (<[f := page]> (pages h)) (nfree h) h = h.
Proof. intros Hf. unfold set_pages. rewrite insert_id by done. by destruct h. Qed.

Lemma copy_to_frame_done n (buffer : list (list Z)) (h : heap T) f s e written :
  (0 < n)%nat -> s = e -> copy_to_frame n buffer f s e written h = Some (Ok (written, buffer), h).
Proof. intros Hn ->. destruct n; [lia|]. cbn. destruct buffer; [done|]. by rewrite Z.eqb_refl. Qed.
Lemma copy_to_frame_ok n : forall (buffer : list (list Z)) (h : heap T) f s e written page,
  (length buffer < n)%nat -> stotal buffer < 2 ^ 64 -> pages h !! f = Some page -> length page = Z.to_nat PAGE_SIZE -> 0 <= s <= e -> e <= PAGE_SIZE ->
  let W := mjoin buffer in let k := Z.min (e - s) (len W) in
  exists buffer', copy_to_frame n buffer f s e written h = Some (Ok (written + k, buffer'),
      set_pages (<[f := splice page s (take (Z.to_nat (e - s)) W)]> (pages h)) (nfree h) h)
    /\ mjoin buffer' = drop (Z.to_nat k) W /\ (length buffer' <= length buffer)%nat.
Proof.
  induction n as [|n IH]; intros buffer h f s e written page Hn Ht Hf Hlen Hs He; [lia|]. cbv zeta. cbn [copy_to_frame].
  assert (HPS : PAGE_SIZE = 4096) by done.
  destruct buffer as [|buf rest].
  { change (mjoin (@nil (list Z))) with (@nil Z). exists []. rewrite take_nil, splice_nil, set_page_id by (done || lia). split_and!; [|by rewrite drop_nil|done]. change (len (@nil Z)) with 0. by rewrite Z.min_r, Z.add_0_r by lia. }
  destruct (Z.eqb_spec e s) as [->|Hne].
  { exists (buf :: rest). rewrite Z.sub_diag, Z.min_l by (unfold len; lia). cbn [take Z.to_nat]. rewrite splice_nil, set_page_id, Z.add_0_r by (done || lia). done. }
  destruct (bool_decide_reflect (buf = [])) as [->|Hbuf].
  { destruct (IH rest h f s e written page) as (buffer' & E & Hj & Hl); [cbn in Hn; lia|done|done|done|done|done|].
    exists buffer'. split_and!; [exact E|exact Hj|cbn; lia]. }
  assert (Hpos : 0 < len buf) by (destruct buf; [done|unfold len; cbn; lia]).
  pose proof (total_nonneg _ (slices_nonneg rest)) as Hrest. pose proof (total_join (buf :: rest)) as Htj.
  rewrite wsub_small by (unfold fits; lia). set (l := Z.min (len buf) (e - s)). rewrite (proj2 (Z.ltb_ge PAGE_SIZE (s + l))) by lia.
  pose proof (advance_slices_spec (buf :: rest) l ltac:(lia) Ht) as Hadv. cbn [stotal slice_len IoSlice_ext] in *.
  rewrite (proj2 (Z.leb_le _ _)) in Hadv by lia. destruct Hadv as (bufs1 & Eadv & Hj1 & _).
  pose proof (advance_shorter buf rest l bufs1) as Hsh. cbn [slice_len IoSlice_ext] in Hsh. destruct Hsh as [Hs1 Hs2]; [lia|lia|done|].
  change (mjoin (buf :: rest)) with (buf ++ mjoin rest) in *. set (W := buf ++ mjoin rest) in *.
  set (data := take (Z.to_nat l) buf). assert (Hdata : len data = l) by (unfold data, len; rewrite length_take; unfold len in *; lia).
  assert (HdW : data = take (Z.to_nat l) W) by (unfold data, W; rewrite take_app_le by (unfold len in *; lia); done).
  set (h1 := set_pages (<[f := splice page s data]> (pages h)) (nfree h) h).
  assert (Htot1 : stotal bufs1 = len W - l) by (rewrite total_join, Hj1; unfold len in *; rewrite length_drop; lia).
  assert (Hstep : exists buffer', copy_to_frame n bufs1 f (s + l) e (written + l) h1 = Some (Ok (written + Z.min (e - s) (len W), buffer'),
      set_pages (<[f := splice page s (take (Z.to_nat (e - s)) W)]> (pages h)) (nfree h) h)
    /\ mjoin buffer' = drop (Z.to_nat (Z.min (e - s) (len W))) W /\ (length buffer' <= length bufs1)%nat).
  { destruct (decide (len buf <= l)) as [Hfull|Hpart].
    - destruct (IH bufs1 h1 f (s + l) e (written + l) (splice page s data)) as (buffer' & E & Hj & Hl);
        [specialize (Hs2 Hfull); cbn in Hn; lia|lia|apply lookup_insert_eq|rewrite length_splice; [done|lia|unfold len in Hdata; lia]|lia|lia|].
      rewrite Hj1 in E, Hj. assert (Hdl : len (drop (Z.to_nat l) W) = len W - l) by (unfold len in *; rewrite length_drop; lia).
      rewrite Hdl in E, Hj. replace (written + l + _) with (written + Z.min (e - s) (len W)) in E by lia.
      assert (Hsp : splice (splice page s data) (s + l) (take (Z.to_nat (e - (s + l))) (drop (Z.to_nat l) W)) = splice page s (take (Z.to_nat (e - s)) W)).
      { rewrite (take_rest W (Z.to_nat l) (Z.to_nat (e - s))), <- HdW by lia. rewrite <- Hdata at 1. rewrite splice_splice; [repeat f_equal; lia|lia|].
        unfold len in *. rewrite length_app, length_take. lia. }
      rewrite Hsp in E. exists buffer'. split_and!; [|rewrite Hj, drop_drop; f_equal; lia|done].
      rewrite E. unfold h1, set_pages. cbn [pages nfree physs backs queues]. by rewrite insert_insert_eq.
    - rewrite copy_to_frame_done by (cbn in Hn; lia || lia). exists bufs1. split_and!; [|rewrite Hj1; do 2 f_equal; lia|done].
      unfold h1. rewrite HdW, Z.min_l by lia. by replace (e - s) with l by lia. }
  destruct Hstep as (buffer' & E & Hj & Hl). exists buffer'. split_and!; [|done|cbn; lia].
  unfold get_page, put_page, hget, hput, pt_opt, mbind, PT_bind. rewrite Hf. cbn [pt_res unwrap]. fold data h1. rewrite Eadv. exact E.
Qed.

(** ** One page of a write *)
Lemma sees_det (h : heap T) x j a b : sees h x j a -> sees h x j b -> a = b.
Proof. intros (y & Hy & Ha) (z & Hz & Hb). assert (y = z) as -> by (by eapply looks_det). congruence. Qed.
Lemma splice_tail (page data : list Z) s l : 0 <= s -> s + len data <= l -> (Z.to_nat l <= length page)%nat -> drop (Z.to_nat l) (splice page s data) = drop (Z.to_nat l) page.
Proof.
  intros Hs Hd Hl. unfold len in Hd. apply list_eq. intros k. rewrite !lookup_drop, lookup_splice by lia.
  rewrite (proj2 (Z.ltb_ge (Z.of_nat _) (s + _))) by lia. by rewrite andb_false_r.
Qed.

Definition on_page (i : Z) (g : list Z -> list Z) (j : Z) (bs : list Z) : list Z := if decide (j = i) then g bs else bs.

Lemma page_write rank n (h : heap T) p ph i s e buffer :
  wf rank h -> physs h !! p = Some ph -> branch ph = false -> cow ph = true -> 0 <= i < 2 ^ 51 -> 0 <= s <= e -> e <= PAGE_SIZE ->
  (rank p + 2 <= n)%nat -> (length buffer < n)%nat -> stotal buffer < 2 ^ 64 ->
  let W := mjoin buffer in let k := Z.min (e - s) (len W) in
  exists r h', (forall B (K : Z * list (list Z) -> PT (heap T) Error B),
      (x ← commit n p i (Some e); let '(f, _) := x in y ← copy_to_frame n buffer f s e 0; K y) h
      = match r with Ok y => K y h' | Err e => Some (Err e, h') | Panic => Some (Panic, h') end) /\
    match r with
    | Ok (l, buffer') => l = k /\ mjoin buffer' = drop (Z.to_nat k) W /\ (length buffer' <= length buffer)%nat /\
        wrote rank p (on_page i (fun bs => splice bs s (take (Z.to_nat (e - s)) W))) h h'
    | Err e => may_fail h h' e
    | Panic => False
    end.
Proof.
  intros Hw Hp Hb Hc Hi Hs He Hn Hln Ht W k.
  destruct (commit_ok rank n h p ph i (Some e) Hw Hp Hb Hi) as (r & h1 & E & Hr); [intros nl [= <-]; lia|done|].
  destruct r as [[f l]|er|]; [|by exists (Err er), h1; split; [intros; unfold mbind, PT_bind; by rewrite E|]|done].
  destruct Hr as (Hw1 & Hp1 & [[Hlk Hel]|[? _]] & Hown); [|done]. specialize (Hown ltac:(done) Hc). specialize (Hel e eq_refl).
  destruct (looks_page _ _ _ _ _ _ Hw1 Hlk) as (_ & Hl & page & Hpg & Hlen & Hz).
  destruct (copy_to_frame_ok n buffer h1 f s e 0 page Hln Ht Hpg Hlen Hs He) as (buffer' & Ec & Hj & Hl').
  set (data := take (Z.to_nat (e - s)) W) in *. assert (Hdl : len data <= e - s) by (unfold data, len; rewrite length_take; lia).
  assert (HPS : Z.of_nat (length page) = PAGE_SIZE) by (rewrite Hlen; done).
  set (h2 := set_pages (<[f := splice page s data]> (pages h1)) (nfree h1) h1).
  exists (Ok (0 + k, buffer')), h2. split.
  { intros B K. unfold mbind, PT_bind. rewrite E. unfold mbind, PT_bind. rewrite Ec. done. }
  split_and!; [lia|done|done|].
  assert (Hsee1 : sees h1 p i page) by (by exists (SFrame f l)).
  pose proof (scribble rank h1 p i f l (splice page s data) Hw1 Hown Hlk) as Hscr.
  destruct Hscr as (Hw2 & Hd2 & H2); [rewrite length_splice; [done|lia|unfold len in Hdl; lia]|rewrite splice_tail by (lia || (rewrite Hlen; lia)); done|].
  destruct Hp1 as [Hd1 H1]. split_and!; [done|rewrite <- Hd1; exact Hd2|]. intros x xph Hx Hxb.
  destruct (H1 x xph Hx Hxb) as (x1 & Hx1 & Hb1 & ? & ? & ? & Hs1). destruct (H2 x x1 Hx1 Hb1) as (x2 & Hx2 & Hb2 & ? & ? & ? & Hs2).
  exists x2. split; [exact Hx2|]. split_and!; try congruence. intros j bs Hj0. apply Hs1 in Hj0. pose proof (Hs2 _ _ Hj0) as Hfin. unfold on_page.
  destruct (decide (x = p)) as [->|]; [|done]. destruct (decide (j = i)) as [->|]; [|done]. by rewrite (sees_det _ _ _ _ _ Hj0 Hsee1).
Qed.

(** ** Whole writes *)
(** The page [j] of an object after the bytes [W] have been written at [off]. *)
Definition overlay (off : Z) (W : list Z) (j : Z) (bs : list Z) : list Z :=
  imap (fun k b => let a := j * PAGE_SIZE + Z.of_nat k - off in if (0 <=? a) && (a <? len W) then nth (Z.to_nat a) W 0 else b) bs.
Lemma overlay_len off W j bs : length (overlay off W j bs) = length bs.
Proof. apply length_imap. Qed.
Lemma overlay_nil off j bs : overlay off [] j bs = bs.
Proof.
  unfold overlay. apply list_eq. intros k. rewrite list_lookup_imap. destruct (bs !! k); [|done]. cbn [fmap option_fmap option_map]. cbv zeta.
  by destruct (Z.leb_spec 0 (j * PAGE_SIZE + Z.of_nat k - off)), (Z.ltb_spec (j * PAGE_SIZE + Z.of_nat k - off) (len (@nil Z))); try (change (len (@nil Z)) with 0 in *; lia).
Qed.
Lemma overlay_step off W acc i s e j bs :
  length bs = Z.to_nat PAGE_SIZE -> off + acc = i * PAGE_SIZE + s -> 0 <= acc <= len W -> 0 <= s <= e -> e <= PAGE_SIZE ->
  on_page i (fun bs => splice bs s (take (Z.to_nat (e - s)) (drop (Z.to_nat acc) W))) j (overlay off (take (Z.to_nat acc) W) j bs)
  = overlay off (take (Z.to_nat (acc + Z.min (e - s) (len W - acc))) W) j bs.
Proof.
  intros Hlen Hoff Hacc Hs He. set (d := Z.min (e - s) (len W - acc)). assert (HPS : PAGE_SIZE = 4096) by done.
  assert (Hd : Z.of_nat (length (take (Z.to_nat (e - s)) (drop (Z.to_nat acc) W))) = d) by (rewrite length_take, length_drop; unfold len in *; lia).
  assert (Hta : forall z, 0 <= z <= len W -> len (take (Z.to_nat z) W) = z) by (intros z Hz; unfold len in *; rewrite length_take; lia).
  assert (Hnth : forall z a, 0 <= a < z -> nth (Z.to_nat a) (take (Z.to_nat z) W) 0 = nth (Z.to_nat a) W 0).
  { intros z a Ha. rewrite <- (firstn_skipn (Z.to_nat z) W) at 2. destruct (Nat.lt_ge_cases (Z.to_nat a) (length (take (Z.to_nat z) W))) as [Hlt|Hge].
    - by rewrite app_nth1.
    - rewrite length_take in Hge. rewrite (drop_ge W) by lia. by rewrite app_nil_r. }
  assert (Hlk : forall z k, 0 <= z <= len W -> overlay off (take (Z.to_nat z) W) j bs !! k =
    (fun b => let a := j * PAGE_SIZE + Z.of_nat k - off in if (0 <=? a) && (a <? z) then nth (Z.to_nat a) W 0 else b) <$> bs !! k).
  { intros z k Hz. unfold overlay. rewrite list_lookup_imap, Hta by done. destruct (bs !! k); [|done]. cbn. f_equal.
    destruct (Z.leb_spec 0 (j * PAGE_SIZE + Z.of_nat k - off)), (Z.ltb_spec (j * PAGE_SIZE + Z.of_nat k - off) z); cbn; [|done..]. by apply Hnth. }
  apply list_eq. intros k. unfold on_page. destruct (bs !! k) as [b|] eqn:Eb.
  2: { apply lookup_ge_None in Eb. rewrite !lookup_ge_None_2; [done|by rewrite overlay_len|].
       destruct (decide (j = i)); [rewrite length_splice; rewrite ?overlay_len; lia|by rewrite overlay_len]. }
  assert (Hk : (k < 4096)%nat) by (apply lookup_lt_Some in Eb; lia).
  rewrite (Hlk (acc + d)), Eb by lia. cbn [fmap option_fmap option_map]. destruct (decide (j = i)) as [->|Hne].
  - rewrite lookup_splice by (rewrite ?overlay_len; lia). rewrite Hd, (Hlk acc), Eb by lia. cbn [fmap option_fmap option_map].
    destruct (Z.leb_spec s (Z.of_nat k)), (Z.ltb_spec (Z.of_nat k) (s + d)), (Z.leb_spec 0 (i * PAGE_SIZE + Z.of_nat k - off)),
      (Z.ltb_spec (i * PAGE_SIZE + Z.of_nat k - off) acc), (Z.ltb_spec (i * PAGE_SIZE + Z.of_nat k - off) (acc + d)); cbn; try lia; try done.
    rewrite lookup_take_lt, lookup_drop by lia. replace (Z.to_nat acc + (k - Z.to_nat s))%nat with (Z.to_nat (i * PAGE_SIZE + Z.of_nat k - off)) by lia.
    destruct (nth_lookup_or_length W (Z.to_nat (i * PAGE_SIZE + Z.of_nat k - off)) 0) as [E|E]; [exact E|unfold len in *; lia].
  - rewrite (Hlk acc), Eb by lia. cbn [fmap option_fmap option_map]. f_equal.
    destruct (Z.leb_spec 0 (j * PAGE_SIZE + Z.of_nat k - off)), (Z.ltb_spec (j * PAGE_SIZE + Z.of_nat k - off) acc),
      (Z.ltb_spec (j * PAGE_SIZE + Z.of_nat k - off) (acc + d)); cbn; try lia; try done.
Qed.

Lemma may_fail_pre h0 h h' e : dom (backs h) = dom (backs h0) -> may_fail (T := T) h h' e -> may_fail h0 h' e.
Proof.
  intros Hd [?|Hb]; [by left|right]. intros E. apply Hb. apply (dom_empty_inv_L (D := gset nat)). by rewrite Hd, E, dom_empty_L.
Qed.
Lemma offsets_spec start end_ : 0 <= start < end_ -> end_ <= 2 ^ 63 ->
  exists sp so ep eo, offsets start end_ = ((sp, so), (ep, eo)) /\ start = sp * PAGE_SIZE + so /\ 0 <= so < PAGE_SIZE /\
    end_ = ep * PAGE_SIZE + eo /\ 0 < eo <= PAGE_SIZE /\ 0 <= sp <= ep.
Proof.
  intros Hs He. assert (HPS : PAGE_SIZE = 4096) by done. unfold offsets, wshl, PAGE_SHIFT.
  rewrite !Z.shiftr_div_pow2, !Z.shiftl_mul_pow2 by lia. change (2 ^ 12) with 4096.
  pose proof (Z.div_mod start 4096 ltac:(lia)) as D1. pose proof (Z.mod_pos_bound start 4096 ltac:(lia)) as M1.
  pose proof (Z.div_mod end_ 4096 ltac:(lia)) as D2. pose proof (Z.mod_pos_bound end_ 4096 ltac:(lia)) as M2.
  assert (0 <= start / 4096 < 2 ^ 52) by lia. assert (0 <= end_ / 4096 < 2 ^ 52) by lia.
  rewrite !wrap_small by (unfold fits; lia). rewrite !wsub_small by (unfold fits; lia).
  destruct (Z.eqb_spec (end_ - end_ / 4096 * 4096) 0); do 4 eexists; (split; [reflexivity|]); rewrite HPS; lia.
Qed.

Section Loop.
Variables (rank : nat -> nat) (n p : nat) (h0 : heap T) (ph : Phys) (off : Z) (W : list Z) (ep eo : Z) (len0 : nat).
Hypothesis Hw : wf rank h0.
Hypothesis Hp : physs h0 !! p = Some ph.
Hypothesis Hleaf : branch ph = false.
Hypothesis Hcow : cow ph = true.
Hypothesis Hn : (rank p + 2 <= n)%nat /\ (len0 < n)%nat.
Hypothesis Hoff : 0 <= off /\ off + len W = ep * PAGE_SIZE + eo /\ off + len W <= 2 ^ 63 /\ 0 < eo <= PAGE_SIZE.

(** After [acc] bytes. *)
Definition so_far (acc : Z) (buffer : list (list Z)) (h : heap T) : Prop :=
  wrote rank p (overlay off (take (Z.to_nat acc) W)) h0 h /\ mjoin buffer = drop (Z.to_nat acc) W /\ (length buffer <= len0)%nat.
Definition finished (r : res Error Z) (h' : heap T) : Prop :=
  match r with Ok m => m = len W /\ wrote rank p (overlay off W) h0 h' | Err e => may_fail h0 h' e | Panic => False end.

Lemma so_far_end acc buffer h : acc = len W -> so_far acc buffer h -> wrote rank p (overlay off W) h0 h.
Proof. intros -> [Hwr _]. unfold len in Hwr. rewrite Nat2Z.id, take_ge in Hwr by done. done. Qed.
Lemma so_far_step acc buffer h i s e :
  so_far acc buffer h -> 0 <= acc <= len W -> off + acc = i * PAGE_SIZE + s -> 0 <= s <= e -> e <= PAGE_SIZE -> 0 <= i <= ep ->
  exists r h', (forall B (K : Z * list (list Z) -> PT (heap T) Error B),
      (x ← commit n p i (Some e); let '(f, _) := x in y ← copy_to_frame n buffer f s e 0; K y) h
      = match r with Ok y => K y h' | Err e => Some (Err e, h') | Panic => Some (Panic, h') end) /\
    match r with
    | Ok (l, buffer') => l = Z.min (e - s) (len W - acc) /\ so_far (acc + l) buffer' h'
    | Err e => may_fail h0 h' e
    | Panic => False
    end.
Proof.
  intros (Hwr & Hj & Hl) Hacc Ho Hs He Hi. pose proof Hwr as (Hwh & Hd & Hx). destruct (Hx p ph Hp Hleaf) as (ph1 & Hp1 & Hb1 & Hc1 & _).
  assert (HPS : PAGE_SIZE = 4096) by done. destruct Hoff as (H1 & H2 & H3 & H4), Hn as [N1 N2].
  assert (Hrest : len (mjoin buffer) = len W - acc) by (rewrite Hj; unfold len in *; rewrite length_drop; lia).
  destruct (page_write rank n h p ph1 i s e buffer) as (r & h' & E & Hr); [done|done|done|congruence|lia|lia|done|lia|lia|rewrite total_join; lia|].
  exists r, h'. split; [exact E|]. destruct r as [[l buffer']|er|]; [|by eapply may_fail_pre|done].
  destruct Hr as (El & Hj' & Hl' & Hwr'). rewrite Hrest in El, Hj'. rewrite Hj in Hwr', Hj'. split; [done|]. subst l. split_and!.
  - eapply wrote_ext; [exact Hw| |exact (wrote_trans _ _ _ _ _ _ _ Hwr Hwr')]. intros j bs Hbs. cbn beta. by apply overlay_step.
  - rewrite Hj', drop_drop. f_equal. lia.
  - lia.
Qed.

Lemma write_pages_ok k : forall index acc buffer h,
  so_far acc buffer h -> off + acc = index * PAGE_SIZE -> ep = index + Z.of_nat k -> 0 <= acc ->
  exists r h', write_pages n k p index buffer acc (fun buffer acc =>
      '(f, _) ← commit n p ep (Some eo); '(l, _) ← copy_to_frame n buffer f 0 eo 0; mret (acc + l)) h = Some (r, h') /\ finished r h'.
Proof.
  assert (HPS : PAGE_SIZE = 4096) by done. destruct Hoff as (H1 & H2 & H3 & H4).
  induction k as [|k IH]; intros index acc buffer h Hsf Ho Hep Hacc; cbn [write_pages].
  - destruct (so_far_step acc buffer h ep 0 eo Hsf) as (r & h' & E & Hr); [lia|lia|lia|lia|lia|]. rewrite E.
    destruct r as [[l b]|e|]; [|by eexists _, _|done]. destruct Hr as [-> Hr]. eexists _, _. split; [done|]. cbn. split; [lia|].
    eapply so_far_end; [|exact Hr]. lia.
  - destruct (so_far_step acc buffer h index 0 PAGE_SIZE Hsf) as (r & h' & E & Hr); [lia|lia|lia|lia|lia|]. rewrite E.
    destruct r as [[l b]|e|]; [|by eexists _, _|done]. destruct Hr as [El Hr]. assert (l = PAGE_SIZE) as -> by lia. rewrite bool_decide_false.
    + apply IH; [done|lia|lia|lia].
    + intros ->. destruct Hr as (_ & Hj & _). apply (f_equal (fun l => Z.of_nat (length l))) in Hj. rewrite length_drop in Hj. cbn in Hj. unfold len in *. lia.
Qed.
End Loop.

Lemma write_at_ok rank n (h : heap T) p ph off buffer :
  wf rank h -> physs h !! p = Some ph -> branch ph = false -> cow ph = true -> 0 <= off -> off + len (mjoin buffer) <= 2 ^ 63 ->
  (rank p + 2 <= n)%nat -> (length buffer < n)%nat ->
  exists r h', phys_write_at n p off buffer h = Some (r, h') /\
    match r with
    | Ok m => m = len (mjoin buffer) /\ wrote rank p (overlay off (mjoin buffer)) h h'
    | Err e => may_fail h h' e
    | Panic => False
    end.
Proof.
  intros Hw Hp Hb Hc Ho He Hn Hln. set (W := mjoin buffer) in *. assert (HPS : PAGE_SIZE = 4096) by done.
  assert (Htot : ioslice_len buffer = len W) by (rewrite ioslice_len_eq; rewrite ?total_join; [done|apply slices_nonneg|fold W; lia]).
  unfold phys_write_at. rewrite Htot. unfold checked_add. assert (Hfit : off + len W < 2 ^ 64) by lia. assert (0 <= len W) by (unfold len; lia).
  assert (Hz : wrote rank p (overlay off (take (Z.to_nat 0) W)) h h).
  { eapply wrote_ext; [exact Hw| |apply wrote_pres; [exact Hw|apply pres_refl]]. intros j bs _. by rewrite overlay_nil. }
  rewrite (proj2 (Z.ltb_lt _ _)) by lia.
  rewrite (PT_bind_Ok (mret (off + len W)) _ h (off + len W) h eq_refl). destruct (Z.eqb_spec off (off + len W)) as [E0|E0].
  { eexists _, _. split; [done|]. assert (len W = 0) by lia. split; [lia|]. assert (W = []) as HW by (destruct W; [done|unfold len in *; cbn in *; lia]).
    rewrite HW in Hz |- *. done. }
  destruct (offsets_spec off (off + len W)) as (sp & so & ep & eo & Eo & H1 & H2 & H3 & H4 & H5); [lia|lia|]. rewrite Eo.
  pose proof (so_far_step rank n p h ph off W ep eo (length buffer) Hw Hp Hb Hc ltac:(lia) ltac:(lia) 0 buffer h sp so) as Hstep.
  assert (Hsf : so_far rank p h off W (length buffer) 0 buffer h) by (split_and!; [exact Hz|done|done]).
  destruct (Z.eqb_spec sp ep) as [->|Hne].
  - destruct (Hstep eo Hsf) as (r & h' & E & Hr); [lia|lia|lia|lia|lia|]. rewrite E.
    destruct r as [[l b]|e|]; [|by eexists _, _|done]. destruct Hr as [El Hr]. eexists _, _. split; [done|]. split; [lia|].
    eapply so_far_end; [|exact Hr]. lia.
  - destruct (Hstep PAGE_SIZE Hsf) as (r & h' & E & Hr); [lia|lia|lia|lia|lia|]. rewrite E.
    destruct r as [[l b]|e|]; [|by eexists _, _|done]. destruct Hr as [El Hr]. rewrite Z.add_0_l in Hr. rewrite bool_decide_false.
    + destruct (write_pages_ok rank n p h ph off W ep eo (length buffer) Hw Hp Hb Hc ltac:(lia) ltac:(lia) (Z.to_nat (ep - (sp + 1))) (sp + 1) l b h' Hr) as (r & h2 & E2 & Hr2);
        [lia|lia|lia|]. by exists r, h2.
    + intros ->. destruct Hr as (_ & Hj & _). apply (f_equal (fun l => Z.of_nat (length l))) in Hj. rewrite length_drop in Hj. cbn in Hj. unfold len in *. lia.
Qed.
End PhysWrite.

(** * kmem: reading a memory object

    What a read returns is what the object shows at the offset. *)
Import Errno Umio Ph.

Section PhysRead.
Context {T : Type} `{IoT : Io T} `{BT : !Backing T}.

(** ** Copying out of a frame *)
(** With [d] bytes from [s] to the end as [usize] has it: a frame that ends before
    [s] gives what there is room for. *)
Lemma copy_from_frame_ok n : forall buffer (h : heap T) page s e d acc,
  (length buffer < n)%nat -> rooms_ok buffer -> stotal buffer < 2 ^ 64 -> length page = Z.to_nat PAGE_SIZE -> 0 <= s <= PAGE_SIZE -> 0 <= e <= PAGE_SIZE ->
  wsub 64 e s = d -> 0 <= d < 2 ^ 64 ->
  let k := Z.min d (stotal buffer) in
  if s + k <=? PAGE_SIZE then
    exists buffer', copy_from_frame n buffer page s e acc h = Some (Ok (acc ++ take (Z.to_nat k) (drop (Z.to_nat s) page), buffer'), h)
      /\ rooms_ok buffer' /\ stotal buffer' = stotal buffer - k /\ (length buffer' <= length buffer)%nat
  else copy_from_frame n buffer page s e acc h = Some (Panic, h).
Proof.
  assert (HPS : PAGE_SIZE = 4096) by done.
  induction n as [|n IH]; intros buffer h page s e d acc Hn Hr Ht Hlen Hs He Hd Hdr; [lia|]. cbv zeta. cbn [copy_from_frame].
  destruct buffer as [|buf rest].
  { cbn [stotal]. rewrite Z.min_r, Z.add_0_r, (proj2 (Z.leb_le _ _)) by lia. exists []. cbn [take Z.to_nat stotal]. rewrite app_nil_r. by split_and!. }
  apply Forall_cons in Hr as [Hb Hr]. pose proof (total_nonneg rest Hr) as Hrest. cbn [stotal] in *. change (slice_len buf) with (room_len buf) in *.
  assert (Hds : d = if s <=? e then e - s else 2 ^ 64 + e - s).
  { rewrite <- Hd. unfold wsub, wrap. destruct (Z.leb_spec s e); [by rewrite Z.mod_small by lia|]. symmetry. apply (Z.mod_unique _ _ (-1)); lia. }
  destruct (Z.eqb_spec e s) as [->|Hne].
  { assert (d = 0) as -> by (destruct (Z.leb_spec s s); lia). rewrite Z.min_l, Z.add_0_r, (proj2 (Z.leb_le _ _)) by lia. exists (buf :: rest).
    cbn [take Z.to_nat]. rewrite app_nil_r. split_and!; [done|by apply Forall_cons_2|cbn [stotal]; change (slice_len buf) with (room_len buf); lia|done]. }
  assert (Hdpos : 0 < d) by (destruct (Z.leb_spec s e); lia).
  destruct (Z.eqb_spec (room_len buf) 0) as [Hz|Hz].
  { rewrite Hz, Z.add_0_l in *. pose proof (IH rest h page s e d acc) as H. cbv zeta in H. cbn [length] in Hn.
    specialize (H ltac:(lia) Hr Ht Hlen Hs He Hd Hdr). destruct (s + Z.min d (stotal rest) <=? PAGE_SIZE); [|exact H]. destruct H as (b & E & ? & ? & ?). exists b. split_and!; try done. cbn; lia. }
  rewrite Hd. set (l := Z.min (room_len buf) d).
  destruct (Z.ltb_spec PAGE_SIZE (s + l)) as [Hover|Hfit].
  { rewrite (proj2 (Z.leb_gt _ _)) by lia. done. }
  destruct (advance_rooms (buf :: rest) l) as (bufs1 & Eadv & Hr1 & Ht1); [cbn [stotal]; change (slice_len buf) with (room_len buf); lia|by apply Forall_cons_2|done|].
  cbn [stotal] in Ht1. change (slice_len buf) with (room_len buf) in Ht1.
  pose proof (advance_shorter buf rest l bufs1) as Hsh. cbn [slice_len IoSliceMut_ext] in Hsh. destruct Hsh as [Hs1 Hs2]; [lia|lia|done|].
  assert (Hgo : forall X, copy_from_frame n bufs1 page (s + l) e (acc ++ take (Z.to_nat l) (drop (Z.to_nat s) page)) h = X ->
    (buffer ← pt_res (advance_slices (buf :: rest) l); copy_from_frame n buffer page (s + l) e (acc ++ take (Z.to_nat l) (drop (Z.to_nat s) page))) h = X).
  { intros X E. unfold mbind, PT_bind. rewrite Eadv. exact E. }
  assert (Hd1 : wsub 64 e (s + l) = d - l).
  { rewrite Hds. unfold wsub, wrap. destruct (Z.leb_spec s e); [rewrite Z.mod_small by lia; lia|]. symmetry. apply (Z.mod_unique _ _ (-1)); lia. }
  assert (Hl : 0 < l /\ l <= d /\ l <= room_len buf) by (unfold l; lia).
  destruct (decide (room_len buf <= l)) as [Hfull|Hpart].
  - pose proof (IH bufs1 h page (s + l) e (d - l) (acc ++ take (Z.to_nat l) (drop (Z.to_nat s) page))) as H. cbv zeta in H. cbn [length] in Hn.
    assert (Htl : stotal bufs1 < 2 ^ 64) by (rewrite Ht1; lia). assert (Hsl : 0 <= s + l <= PAGE_SIZE) by lia.
    specialize (H ltac:(specialize (Hs2 Hfull); lia) Hr1 Htl Hlen Hsl He Hd1 ltac:(lia)). rewrite Ht1 in H.
    replace (s + l + Z.min (d - l) (room_len buf + stotal rest - l)) with (s + Z.min d (room_len buf + stotal rest)) in H by lia.
    destruct (s + Z.min d (room_len buf + stotal rest) <=? PAGE_SIZE); [|by apply Hgo]. destruct H as (b & E & ? & ? & ?). exists b. split_and!; [|done|lia|cbn [length]; lia]. apply Hgo. rewrite E.
    do 3 f_equal. rewrite <- app_assoc. f_equal. replace (Z.to_nat (s + l)) with (Z.to_nat s + Z.to_nat l)%nat by lia. rewrite <- drop_drop.
    rewrite (take_rest _ (Z.to_nat l) (Z.to_nat (Z.min d (room_len buf + stotal rest)))) by lia. do 3 f_equal. lia.
  - assert (l = d) as -> by lia. rewrite Z.min_l in * by lia. rewrite (proj2 (Z.leb_le _ _)) by lia. exists bufs1.
    split_and!; [|done|lia|cbn [length]; lia]. apply Hgo. destruct n as [|n]; [cbn [length] in Hn; lia|]. cbn [copy_from_frame].
    destruct bufs1; [done|]. rewrite (proj2 (Z.eqb_eq _ _)); [done|]. destruct (Z.leb_spec s e); lia.
Qed.

(** ** One page of a read *)
Lemma page_read rank n (h : heap T) p ph i :
  wf rank h -> physs h !! p = Some ph -> branch ph = false -> 0 <= i < 2 ^ 51 -> (rank p + 2 <= n)%nat ->
  exists r h', (forall B (K : Z -> list Z -> PT (heap T) Error B),
      (x ← commit n p i None; let '(f, e) := x in page ← get_page f; K e page) h
      = match r with Ok (e, page) => K e page h' | Err e => Some (Err e, h') | Panic => Some (Panic, h') end) /\
    match r with
    | Ok (e, page) => wf rank h' /\ pres h h' /\ 0 <= e <= PAGE_SIZE /\ sees h p i page /\ length page = Z.to_nat PAGE_SIZE
    | Err e => may_fail h h' e
    | Panic => False
    end.
Proof.
  intros Hw Hp Hb Hi Hn. destruct (commit_ok rank n h p ph i None Hw Hp Hb Hi) as (r & h1 & E & Hr); [done|done|].
  destruct r as [[f l]|er|]; [|by exists (Err er), h1; split; [intros; unfold mbind, PT_bind; by rewrite E|]|done].
  destruct Hr as (Hw1 & Hp1 & Hsh & _).
  assert (Hpage : exists page, pages h1 !! f = Some page /\ 0 <= l <= PAGE_SIZE /\ sees h1 p i page).
  { destruct Hsh as [[Hlk _]|(_ & -> & -> & Hlk)].
    - destruct (looks_page _ _ _ _ _ _ Hw1 Hlk) as (_ & Hl & page & Hpg & _). exists page. split_and!; try done; try lia. by exists (SFrame f l).
    - exists zeros. split_and!; [apply (wf_zero _ _ Hw1)|done|done|by exists SZero]. }
  destruct Hpage as (page & Hpg & Hl & Hsee). exists (Ok (l, page)), h1. split.
  { intros B K. unfold mbind, PT_bind. rewrite E. unfold get_page, hget, pt_opt, mbind, PT_bind. rewrite Hpg. done. }
  destruct (sees_total rank h p ph i Hw Hp) as [cs Hcs]. destruct (proj2 Hp1 p ph Hp Hb) as (ph1 & _ & _ & _ & _ & _ & Hpr).
  assert (cs = page) as -> by (eapply sees_det; [by apply Hpr|done]). split_and!; try done; try lia. by eapply sees_len.
Qed.

(** ** Whole reads *)
(** The byte [b] at the address [a] of the object. *)
Definition shows (h : heap T) (p : nat) (a b : Z) : Prop := exists bs, sees h p (a / PAGE_SIZE) bs /\ bs !! Z.to_nat (a mod PAGE_SIZE) = Some b.
Definition reads (h : heap T) (p : nat) (off : Z) (bs : list Z) : Prop := forall k b, bs !! k = Some b -> shows h p (off + Z.of_nat k) b.
Lemma reads_app h p off a b : reads h p off a -> reads h p (off + len a) b -> reads h p off (a ++ b).
Proof.
  intros Ha Hb k x Hk. apply lookup_app_Some in Hk as [Hk|[Hge Hk]]; [by apply Ha|]. apply Hb in Hk. unfold len in Hk. by replace (off + Z.of_nat k) with (off + Z.of_nat (length a) + Z.of_nat (k - length a)) by lia.
Qed.
Lemma reads_page h p i page s m : sees h p i page -> length page = Z.to_nat PAGE_SIZE -> 0 <= s -> reads h p (i * PAGE_SIZE + s) (take m (drop (Z.to_nat s) page)).
Proof.
  intros Hs Hl H0 k b Hk. assert (HPS : PAGE_SIZE = 4096) by done. apply lookup_take_Some in Hk as [Hk _]. rewrite lookup_drop in Hk.
  pose proof (lookup_lt_Some _ _ _ Hk) as Hlt. exists page.
  replace (i * PAGE_SIZE + s + Z.of_nat k) with (s + Z.of_nat k + i * PAGE_SIZE) by lia.
  rewrite Z.div_add, Z.mod_add, Z.div_small, Z.mod_small by lia. split; [done|]. rewrite <- Hk. f_equal. lia.
Qed.

Section Loop.
Variables (rank : nat -> nat) (n p : nat) (h0 : heap T) (ph : Phys) (off total ep eo : Z) (len0 : nat).
Hypothesis Hw0 : wf rank h0.
Hypothesis Hp : physs h0 !! p = Some ph.
Hypothesis Hleaf : branch ph = false.
Hypothesis Hn : (rank p + 2 <= n)%nat /\ (len0 < n)%nat.
Hypothesis Hoff : 0 <= off /\ off + total = ep * PAGE_SIZE + eo /\ off + total <= 2 ^ 63 /\ 0 < eo <= PAGE_SIZE.

Definition got (acc : list Z) (h : heap T) : Prop := wf rank h /\ pres h0 h /\ reads h0 p off acc /\ len acc <= total.
Definition got_part (acc : list Z) (buffer : list IoSliceMut) (h : heap T) : Prop :=
  got acc h /\ rooms_ok buffer /\ stotal buffer = total - len acc /\ (length buffer <= len0)%nat.
Definition read_done (r : res Error (list Z)) (h' : heap T) : Prop :=
  match r with Ok bs => got bs h' | Err e => may_fail h0 h' e | Panic => False end.

(** A page from [s], of which [e0] bytes at most are asked for. *)
Lemma got_step acc buffer h i s :
  got_part acc buffer h -> off + len acc = i * PAGE_SIZE + s -> 0 <= s < PAGE_SIZE -> 0 <= i <= ep ->
  exists r h', (forall B (K : Z -> list Z -> PT (heap T) Error B),
      (x ← commit n p i None; let '(f, e) := x in page ← get_page f; K e page) h
      = match r with Ok (e, page) => K e page h' | Err e => Some (Err e, h') | Panic => Some (Panic, h') end) /\
    match r with
    | Ok (e, page) => 0 <= e <= PAGE_SIZE /\ forall e' d c0, 0 <= e' <= PAGE_SIZE -> wsub 64 e' s = d -> 0 <= d < 2 ^ 64 ->
        let k := Z.min d (stotal buffer) in
        if s + k <=? PAGE_SIZE then exists bs buffer', copy_from_frame n buffer page s e' c0 h' = Some (Ok (c0 ++ bs, buffer'), h') /\ len bs = k /\ got_part (acc ++ bs) buffer' h'
        else copy_from_frame n buffer page s e' c0 h' = Some (Panic, h')
    | Err e => may_fail h0 h' e
    | Panic => False
    end.
Proof.
  intros ((Hw & Hpr & Hrd & Hla) & Hr & Ht & Hl) Ho Hs Hi. assert (HPS : PAGE_SIZE = 4096) by done. destruct Hn as [N1 N2].
  destruct (proj2 Hpr p ph Hp Hleaf) as (ph1 & Hp1 & Hb1 & _ & _ & _ & Hsees).
  destruct (page_read rank n h p ph1 i Hw Hp1 Hb1) as (r & h' & E & Hres); [lia|done|].
  exists r, h'. split; [exact E|]. destruct r as [[e page]|er|]; [|eapply may_fail_pre; [exact (proj1 Hpr)|done]|done].
  destruct Hres as (Hw' & Hpr' & He & Hsee & Hlen). split; [done|]. intros e' d c0 He' Hd Hdr k. assert (0 <= len acc) by (unfold len; lia).
  pose proof (copy_from_frame_ok n buffer h' page s e' d c0 ltac:(lia) Hr ltac:(lia) Hlen ltac:(lia) He' Hd Hdr) as Hc. cbv zeta in Hc. fold k in Hc.
  destruct (Z.leb_spec (s + k) PAGE_SIZE) as [Hk|Hk]; [|done]. destruct Hc as (buffer' & Ec & Hr' & Ht' & Hl').
  pose proof (total_nonneg buffer Hr) as Hpos. set (bs := take (Z.to_nat k) (drop (Z.to_nat s) page)) in *.
  assert (Hbs : len bs = k) by (unfold bs, len; rewrite length_take, length_drop, Hlen; lia).
  exists bs, buffer'. split_and!; [exact Ec|done|]. assert (Hlab : len (acc ++ bs) = len acc + k) by (unfold len in *; rewrite length_app; lia).
  unfold got_part, got. split_and!; [done|by eapply pres_trans| |lia|done|lia|lia]. apply reads_app; [done|]. rewrite Ho. apply reads_page; [|done|lia].
  destruct (sees_total rank h0 p ph i Hw0 Hp) as [cs Hcs]. by rewrite <- (sees_det _ _ _ _ _ (Hsees _ _ Hcs) Hsee).
Qed.

Lemma wsub_0_r e : 0 <= e <= PAGE_SIZE -> wsub 64 e 0 = e.
Proof. intros He. assert (HPS : PAGE_SIZE = 4096) by done. rewrite wsub_small by (unfold fits; lia). lia. Qed.

Lemma read_pages_ok k : forall index acc buffer h,
  got_part acc buffer h -> off + len acc = index * PAGE_SIZE -> ep = index + Z.of_nat k ->
  exists r h', read_pages n k p index buffer acc (fun buffer acc =>
      '(f, e) ← commit n p ep None; page ← get_page f; '(bs, _) ← copy_from_frame n buffer page 0 (Z.min eo e) []; mret (acc ++ bs)) h
    = Some (r, h') /\ read_done r h'.
Proof.
  assert (HPS : PAGE_SIZE = 4096) by done. destruct Hoff as (H1 & H2 & H3 & H4).
  induction k as [|k IH]; intros index acc buffer h Hg Ho Hep; cbn [read_pages]; pose proof Hg as (Hg0 & Hrm & Htot & _);
    pose proof (total_nonneg buffer Hrm) as Hpos; assert (0 <= len acc) by (unfold len; lia).
  - destruct (got_step acc buffer h ep 0 Hg) as (r & h' & E & Hr); [lia|lia|lia|]. rewrite E.
    destruct r as [[e page]|er|]; [|by eexists _, _|done]. destruct Hr as [He Hr].
    specialize (Hr (Z.min eo e) (Z.min eo e) [] ltac:(lia) (wsub_0_r (Z.min eo e) ltac:(lia)) ltac:(lia)). cbv zeta in Hr.
    rewrite (proj2 (Z.leb_le _ _)) in Hr by lia. destruct Hr as (bs & b' & Ec & _ & Hgp). rewrite (PT_bind_Ok _ _ _ _ _ Ec).
    eexists _, _. split; [done|]. exact (proj1 Hgp).
  - destruct (got_step acc buffer h index 0 Hg) as (r & h' & E & Hr); [lia|lia|lia|]. rewrite E.
    destruct r as [[e page]|er|]; [|by eexists _, _|done]. destruct Hr as [He Hr].
    specialize (Hr e e [] ltac:(lia) (wsub_0_r e ltac:(lia)) ltac:(lia)). cbv zeta in Hr.
    rewrite (proj2 (Z.leb_le _ _)) in Hr by lia. destruct Hr as (bs & b' & Ec & Hbs & Hgp). rewrite (PT_bind_Ok _ _ _ _ _ Ec). cbn beta iota zeta. cbn [app].
    destruct ((e <? PAGE_SIZE) || bool_decide (b' = [])) eqn:Eend; [by eexists _, _; split; [done|]; exact (proj1 Hgp)|].
    apply orb_false_iff in Eend as [Ee _]. apply Z.ltb_ge in Ee. apply IH; [done| |lia]. unfold len in *. rewrite length_app. lia.
Qed.
End Loop.

Lemma read_at_ok rank n (h : heap T) p ph off buffer :
  wf rank h -> physs h !! p = Some ph -> branch ph = false -> 0 <= off -> rooms_ok buffer -> off + stotal buffer <= 2 ^ 63 ->
  (rank p + 2 <= n)%nat -> (length buffer < n)%nat ->
  exists r h', phys_read_at n p off buffer h = Some (r, h') /\
    match r with
    | Ok bs => wf rank h' /\ pres h h' /\ reads h p off bs /\ len bs <= stotal buffer
    | Err e => may_fail h h' e
    | Panic => PAGE_SIZE < off mod PAGE_SIZE + stotal buffer
    end.
Proof.
  intros Hw Hp Hb Ho Hr He Hn Hln. set (total := stotal buffer) in *. assert (HPS : PAGE_SIZE = 4096) by done.
  pose proof (total_nonneg buffer Hr) as Hpos. fold total in Hpos.
  assert (Htot : ioslice_len buffer = total) by (apply ioslice_len_eq; [done|fold total; lia]).
  unfold phys_read_at. rewrite Htot. unfold checked_add. rewrite (proj2 (Z.ltb_lt _ _)) by lia.
  rewrite (PT_bind_Ok (mret (off + total)) _ h (off + total) h eq_refl). destruct (Z.eqb_spec off (off + total)) as [E0|E0].
  { eexists _, _. split; [done|]. split_and!; [done|apply pres_refl|intros k b Hk; done|unfold len; cbn [length]; lia]. }
  destruct (offsets_spec off (off + total)) as (sp & so & ep & eo & Eo & H1 & H2 & H3 & H4 & H5); [lia|lia|]. rewrite Eo.
  assert (Hmod : off mod PAGE_SIZE = so) by (rewrite H1; rewrite Z.add_comm, Z.mod_add, Z.mod_small by lia; done).
  assert (Hg : got_part rank p h off total (length buffer) [] buffer h).
  { split; [|by split_and!; try done; unfold len; cbn [length]; lia]. split_and!; [done|apply pres_refl|intros k b Hk; done|unfold len; cbn [length]; lia]. }
  destruct (got_step rank n p h ph off total ep eo (length buffer) Hw Hp Hb ltac:(lia) ltac:(lia) [] buffer h sp so Hg) as (r & h' & E & Hr'); [unfold len; cbn [length]; lia|lia|lia|].
  destruct (Z.eqb_spec sp ep) as [->|Hne]; rewrite E; (destruct r as [[e page]|er|]; [|by eexists _, _|done]); destruct Hr' as [He' Hr'].
  - specialize (Hr' (Z.min eo e) (wsub 64 (Z.min eo e) so) [] ltac:(lia) eq_refl (wrap_fits 64 _ ltac:(lia))). cbv zeta in Hr'. fold total in Hr'.
    rewrite (proj2 (Z.leb_le _ _)) in Hr' by lia. destruct Hr' as (bs & b' & Ec & _ & Hgp). rewrite (PT_bind_Ok _ _ _ _ _ Ec).
    eexists _, _. split; [done|]. exact (proj1 Hgp).
  - specialize (Hr' e (wsub 64 e so) [] ltac:(lia) eq_refl (wrap_fits 64 _ ltac:(lia))). cbv zeta in Hr'. fold total in Hr'.
    destruct (Z.leb_spec (so + Z.min (wsub 64 e so) total) PAGE_SIZE) as [Hk|Hk].
    2: { eexists _, _. split; [unfold mbind, PT_bind; by rewrite Hr'|]. cbn. lia. }
    destruct Hr' as (bs & b' & Ec & Hbs & Hgp). rewrite (PT_bind_Ok _ _ _ _ _ Ec). cbn [app] in *. cbn beta iota zeta.
    destruct ((e <? PAGE_SIZE) || bool_decide (b' = [])) eqn:Eend; [by eexists _, _; split; [done|]; exact (proj1 Hgp)|].
    apply orb_false_iff in Eend as [Ee _]. apply Z.ltb_ge in Ee. assert (e = PAGE_SIZE) as -> by lia. rewrite wsub_small in Hbs by (unfold fits; lia).
    destruct (read_pages_ok rank n p h ph off total ep eo (length buffer) Hw Hp Hb ltac:(lia) ltac:(lia) (Z.to_nat (ep - (sp + 1))) (sp + 1) bs b' h' Hgp)
      as (r & h2 & E2 & Hr2); [lia|lia|]. exists r, h2. split; [exact E2|]. destruct r; done.
Qed.
End PhysRead.
