(* ===== verification/PhysDrop.v ===== *)
(** * kmem: memory objects come and go *)

From S2P Require Import Prelude Ksc Bytes Paging Umio Phys PhysInv PhysCommit PhysClone.
Import Errno Umio Ph.

(** ** An object nobody links to goes *)
Section Delete.
Context {T : Type} `{IoT : Io T} `{BT : !Backing T}.
Variables (rank : nat -> nat) (h : heap T) (x : nat).
Hypothesis Hw : wf rank h.
Hypothesis Hno : forall d, ~ child (physs h) x d.
Notation h' := (set_physs (delete x (physs h)) h).

Lemma delete_at y yph : physs h' !! y = Some yph <-> y <> x /\ physs h !! y = Some yph.
Proof. cbn. rewrite lookup_delete_Some. naive_solver. Qed.
Lemma delete_child q d : child (physs h') q d -> child (physs h) q d.
Proof. intros (dph & Hd & Hl). apply delete_at in Hd as [_ Hd]. by exists dph. Qed.
Lemma delete_needs i d : needs (physs h') i d -> needs (physs h) i d.
Proof.
  induction 1 as [d dph Hd Hb Hf|d dph e Hd Hf Hc Hn IH]; apply delete_at in Hd as [_ Hd]; [by eapply needs_leaf|].
  eapply needs_up; [done|done|by apply delete_child|done].
Qed.
Lemma delete_entry y i fi : entry (physs h') y i fi -> entry (physs h) y i fi.
Proof. intros (yph & Hy & Hf). apply delete_at in Hy as [_ Hy]. by exists yph. Qed.
Lemma delete_looks y j s : looks (physs h) y j s -> y <> x -> looks (physs h') y j s.
Proof.
  induction 1 as [y yph j fj t Hy Hf Ht|y yph j q s Hy Hf Hpar Hq IH|y yph j b Hy Hf Hpar|y yph j Hy Hf Hpar]; intros Hne.
  - eapply looks_own; [by apply delete_at|done|done].
  - eapply looks_up; [by apply delete_at|done|done|]. apply IH. intros ->. destruct (Hno y). by exists yph.
  - eapply looks_back; [by apply delete_at|done|done].
  - eapply looks_zero; [by apply delete_at|done|done].
Qed.
Lemma delete_sees y j bs : y <> x -> sees h y j bs -> sees h' y j bs.
Proof. intros Hne (s & Hs & Hb). exists s. split; [by apply delete_looks|done]. Qed.
Lemma delete_wf : wf rank h'.
Proof.
  constructor.
  - intros y yph Hy. apply delete_at in Hy as [Hne Hy]. pose proof (wf_link _ _ Hw _ _ Hy) as Hl. unfold link_ok in *.
    destruct (parent yph) as [[q s e|b]|] eqn:E; [|done|done]. destruct Hl as (-> & -> & Hr & qph & Hq & Hb). split_and!; try done.
    exists qph. split; [|done]. apply delete_at. split; [|done]. intros ->. destruct (Hno y). by exists yph.
  - intros y yph i fi Hy Hf. apply delete_at in Hy as [_ Hy]. exact (wf_state _ _ Hw _ _ _ _ Hy Hf).
  - intros y i fi y' i' fi' f H1 H2. apply (wf_linear _ _ Hw); by apply delete_entry.
  - intros q a b c H1 H2 H3. apply (wf_two _ _ Hw q); by apply delete_child.
  - intros q i fi f l a b He Hu H1 H2 N1 N2. eapply (wf_unique _ _ Hw q i fi f l); [by apply delete_entry|done|by apply delete_child|by apply delete_child|by apply delete_needs|by apply delete_needs].
  - apply (wf_zero _ _ Hw).
  - intros y i fi He. eapply (wf_index _ _ Hw). by apply delete_entry.
Qed.
End Delete.

Section Drop.
Context {T : Type} `{IoT : Io T} `{BT : !Backing T}.

Lemma count_none (h : heap T) q d : count h q = O -> ~ child (physs h) q d.
Proof.
  intros Hc (dph & Hd & Hl). apply elem_of_map_to_list in Hd. unfold count in Hc. apply nil_length_inv in Hc.
  assert (Hin : In (d, dph) (List.filter (fun x => links_to q x.2) (map_to_list (physs h)))).
  { apply filter_In. split; [by apply list_elem_of_In|]. unfold links_to. cbn. rewrite Hl. apply Nat.eqb_refl. }
  by rewrite Hc in Hin.
Qed.

(** Without [p], and perhaps without some branches. *)
Definition without (p : nat) (h h' : heap T) : Prop :=
  physs h' !! p = None /\ h' = set_physs (physs h') h /\
  forall x xph, physs h !! x = Some xph -> branch xph = false -> x <> p ->
    physs h' !! x = Some xph /\ forall j bs, sees h x j bs -> sees h' x j bs.

Lemma release_ok rank n p (h0 : heap T) : forall h pr,
  wf rank h -> without p h0 h -> (match pr with Some (PPhys q _ _) => (rank q + 1 < n)%nat /\ q <> p /\ exists qph, physs h !! q = Some qph /\ branch qph = true | _ => (0 < n)%nat end) ->
  exists h', release n pr h = Some (Ok tt, h') /\ wf rank h' /\ without p h0 h'.
Proof.
  induction n as [|n IH]; intros h pr Hw Hwo Hpr; [destruct pr as [[]|]; lia|].
  destruct pr as [[q s e|b]|]; [|by exists h..]. destruct Hpr as (Hr & Hqp & qph & Hq & Hqb). cbn [release].
  unfold mbind, PT_bind at 1, hget. destruct (Nat.eqb_spec (count h q) 0) as [Hc|Hc]; [|by exists h].
  unfold get_phys, hget, hput, pt_opt, mbind, PT_bind. rewrite Hq. cbn [pt_res unwrap].
  assert (Hno : forall d, ~ child (physs h) q d) by (intros d; by apply count_none).
  set (h1 := set_physs (delete q (physs h)) h). assert (Hw1 : wf rank h1) by (by apply delete_wf).
  apply IH; [done| |].
  - destruct Hwo as (Hp & Hrest & Hx). split_and!.
    + cbn. rewrite lookup_delete_None. by right.
    + unfold h1. by rewrite Hrest.
    + intros x xph Hx0 Hb Hne. destruct (Hx x xph Hx0 Hb Hne) as [Hx1 Hs]. assert (x <> q) by congruence.
      split; [cbn; by rewrite lookup_delete_ne|]. intros j bs Hj. apply delete_sees; [done|done|by apply Hs].
  - pose proof (wf_link _ _ Hw _ _ Hq) as Hl. unfold link_ok in Hl. destruct (parent qph) as [[r s' e'|b]|] eqn:E; [|lia|lia].
    destruct Hl as (-> & -> & Hrk & rph & Hrp & Hrb). split_and!; [lia|intros ->; destruct Hwo; congruence|].
    exists rph. split; [|done]. cbn. rewrite lookup_delete_ne; [done|intros ->; lia].
Qed.

Lemma drop_ok rank n p (h : heap T) ph :
  wf rank h -> physs h !! p = Some ph -> branch ph = false -> flusher ph = None -> (rank p < n)%nat ->
  exists h', drop_phys n p h = Some (Ok tt, h') /\ wf rank h' /\ without p h h'.
Proof.
  intros Hw Hp Hb Hfl Hn. set (h1 := set_physs (delete p (physs h)) h).
  assert (Hno : forall d, ~ child (physs h) p d) by (intros d Hd; destruct (child_branch _ _ _ _ Hw Hd) as (q & Hq & ?); congruence).
  destruct (release_ok rank n p h h1 (parent ph)) as (h' & E & Hw' & Hwo).
  - by apply delete_wf.
  - split_and!; [cbn; apply lookup_delete_eq|done|]. intros x xph Hx Hxb Hne. split; [cbn; by rewrite lookup_delete_ne|].
    intros j bs. by apply delete_sees.
  - pose proof (wf_link _ _ Hw _ _ Hp) as Hl. unfold link_ok in Hl. destruct (parent ph) as [[q s e|b]|]; [|lia|lia].
    destruct Hl as (-> & -> & Hrk & qph & Hq & Hqb). split_and!; [lia|intros ->; lia|]. exists qph. split; [|done].
    cbn. rewrite lookup_delete_ne; [done|intros ->; lia].
  - exists h'. split; [|done]. unfold drop_phys, get_phys, hget, hput, pt_opt, mbind, PT_bind. rewrite Hp. cbn [pt_res unwrap]. rewrite Hfl. cbn.
    rewrite Hp. cbn. exact E.
Qed.
End Drop.

(** ** A new object *)
Section Add.
Context {T : Type} `{IoT : Io T} `{BT : !Backing T}.
Variables (rank : nat -> nat) (h : heap T) (c : nat) (cph : Phys).
Hypothesis Hw : wf rank h.
Hypothesis Hc : physs h !! c = None.
Hypothesis Hnew : branch cph = false /\ frames cph = ∅ /\ match parent cph with Some (PPhys _ _ _) => False | Some (PBackend b) => is_Some (backs h !! b) | None => True end.
Notation h' := (set_physs (<[c := cph]> (physs h)) h).

Lemma add_at y yph : physs h' !! y = Some yph <-> (y = c /\ yph = cph) \/ (y <> c /\ physs h !! y = Some yph).
Proof. cbn. rewrite lookup_insert_Some. naive_solver. Qed.
Lemma add_old y yph : physs h !! y = Some yph -> physs h' !! y = Some yph.
Proof. intros Hy. apply add_at. right. split; [congruence|done]. Qed.
Lemma add_child q d : child (physs h') q d -> child (physs h) q d.
Proof.
  intros (dph & Hd & Hl). apply add_at in Hd as [[-> ->]|[_ Hd]]; [|by exists dph]. destruct Hnew as (_ & _ & Hp). by rewrite Hl in Hp.
Qed.
Lemma add_entry y i fi : entry (physs h') y i fi -> entry (physs h) y i fi.
Proof.
  intros (yph & Hy & Hf). apply add_at in Hy as [[-> ->]|[_ Hy]]; [|by exists yph]. destruct Hnew as (_ & Hfs & _). by rewrite Hfs in Hf.
Qed.
Lemma add_needs i d : needs (physs h') i d -> d <> c -> needs (physs h) i d.
Proof.
  induction 1 as [d dph Hd Hb Hf|d dph e Hd Hf He Hn IH]; intros Hne; apply add_at in Hd as [[? _]|[_ Hd]]; try done; [by eapply needs_leaf|].
  apply add_child in He. eapply needs_up; [done|done|exact He|]. apply IH. intros ->. destruct He as (? & ? & _). congruence.
Qed.
Lemma add_sees y j bs : sees h y j bs -> sees h' y j bs.
Proof.
  intros (s & Hs & Hb). exists s. split; [|done]. clear Hb. induction Hs; [eapply looks_own|eapply looks_up|eapply looks_back|eapply looks_zero]; eauto using add_old.
Qed.
Lemma add_wf : wf rank h'.
Proof.
  assert (Hcc : forall q d, child (physs h) q d -> d <> c) by (intros q d (dph & Hd & _) ->; congruence).
  constructor.
  - intros y yph Hy. unfold link_ok. apply add_at in Hy as [[-> ->]|[Hne Hy]].
    + destruct Hnew as (_ & _ & Hp). by destruct (parent cph) as [[]|].
    + pose proof (wf_link _ _ Hw _ _ Hy) as Hl. unfold link_ok in Hl. destruct (parent yph) as [[q s e|b]|]; [|done|done].
      destruct Hl as (-> & -> & Hr & qph & Hq & Hb). split_and!; try done. exists qph. split; [by apply add_old|done].
  - intros y yph i fi Hy Hf. apply add_at in Hy as [[-> ->]|[_ Hy]]; [|exact (wf_state _ _ Hw _ _ _ _ Hy Hf)].
    destruct Hnew as (_ & Hfs & _). by rewrite Hfs in Hf.
  - intros y i fi y' i' fi' f H1 H2. apply (wf_linear _ _ Hw); by apply add_entry.
  - intros q a b d H1 H2 H3. apply (wf_two _ _ Hw q); by apply add_child.
  - intros q i fi f l a b He Hu H1 H2 N1 N2. apply add_child in H1, H2.
    eapply (wf_unique _ _ Hw q i fi f l); [by apply add_entry|done|done|done|apply add_needs; [done|by eapply Hcc]|apply add_needs; [done|by eapply Hcc]].
  - apply (wf_zero _ _ Hw).
  - intros y i fi He. eapply (wf_index _ _ Hw). by apply add_entry.
Qed.
Lemma add_pres : pres h h'.
Proof. split; [done|]. intros x xph Hx Hb. exists xph. split; [by apply add_old|]. split_and!; try done. intros j bs. apply add_sees. Qed.
End Add.

Section New.
Context {T : Type} `{IoT : Io T} `{BT : !Backing T}.
Lemma new_id_none (h : heap T) : physs h !! new_id h = None.
Proof. apply (not_elem_of_dom (D := gset nat)). apply is_fresh. Qed.
Lemma phys_new_ok rank (h : heap T) c : wf rank h ->
  exists p h', new c h = Some (Ok p, h') /\ wf rank h' /\ pres h h' /\ physs h !! p = None /\ forall j, sees h' p j zeros.
Proof.
  intros Hw. set (ph := mk_phys false None ∅ 0 c None). pose proof (new_id_none h) as Hn.
  assert (Hph : branch ph = false /\ frames ph = ∅ /\ match parent ph with Some (PPhys _ _ _) => False | Some (PBackend b) => is_Some (backs h !! b) | None => True end) by done.
  exists (new_id h), (set_physs (<[new_id h := ph]> (physs h)) h). split; [done|].
  split_and!; [by eapply add_wf, Hph|by eapply add_pres|done|].
  intros j. exists SZero. split; [|done]. eapply looks_zero; [apply lookup_insert_eq|done|done].
Qed.
Lemma with_backend_ok rank (h : heap T) b o pos c : wf rank h -> backs h !! b = Some o ->
  exists p h', with_backend b pos c h = Some (Ok p, h') /\ wf rank h' /\ pres h h' /\ physs h !! p = None /\
    forall j, sees h' p j (pad (drop (Z.to_nat (j * PAGE_SIZE)) (file o))).
Proof.
  intros Hw Hb. set (ph := mk_phys false (Some (PBackend b)) ∅ pos c (if negb c then Some (mk_flusher b 0) else None)). set (h1 := set_queue b [] h).
  assert (Hw1 : wf rank h1) by (eapply outside_wf; [exact Hw|done|done|]; intros k x Hk; by exists x).
  assert (Hn : physs h1 !! new_id h1 = None) by apply new_id_none.
  assert (Hph : branch ph = false /\ frames ph = ∅ /\ match parent ph with Some (PPhys _ _ _) => False | Some (PBackend b) => is_Some (backs h1 !! b) | None => True end) by (split_and!; [done|done|by exists o]).
  exists (new_id h1), (set_physs (<[new_id h1 := ph]> (physs h1)) h1). split; [done|].
  split_and!; [by eapply add_wf| |done|].
  - eapply pres_trans; [|by eapply add_pres]. apply pres_outside; [done|done|]. intros x j bs. apply outside_sees; [done|done|]. intros k y Hk. by exists y.
  - intros j. exists (SBack b j). split; [eapply looks_back; [apply lookup_insert_eq|done|done]|]. cbn. by rewrite Hb.
Qed.
End New.
