(* ===== verification/PhysUse.v ===== *)
(** * kmem: memory objects in use

    The operations together: every state they reach satisfies the invariant, and an
    object and its copy are independent of each other.  Then evaluated runs, among
    them the test of mizu/kernel/src/mem.rs and what the code does not do. *)

From S2P Require Import Prelude Ksc Bytes Paging Umio Phys PhysInv PhysCommit PhysClone PhysWrite PhysDrop.
Import Errno Umio Ph.

Section PhysUse.
Context {T : Type} `{IoT : Io T} `{BT : !Backing T}.

(** ** What can be reached *)
Definition boot (frames_left : nat) (bs : gmap nat T) : heap T := mk_heap {[ZERO := zeros]} frames_left ∅ bs ∅.
Lemma boot_wf rank nf bs : wf rank (boot nf bs).
Proof.
  assert (He : physs (boot nf bs) = ∅) by done. constructor.
  - intros p ph Hp. by rewrite He, lookup_empty in Hp.
  - intros p ph i fi Hp. by rewrite He, lookup_empty in Hp.
  - intros p i fi p' i' fi' f (ph & Hp & _). by rewrite He, lookup_empty in Hp.
  - intros q a b c (ph & Hp & _). by rewrite He, lookup_empty in Hp.
  - intros q i fi f l a b (ph & Hp & _). by rewrite He, lookup_empty in Hp.
  - apply lookup_singleton_eq.
  - intros p i fi (ph & Hp & _). by rewrite He, lookup_empty in Hp.
Qed.

(** An operation on an object in use, with fuel [n], that succeeds. *)
Definition in_use (h : heap T) (p : nat) (ph : Phys) : Prop := physs h !! p = Some ph /\ branch ph = false.
Inductive phys_step (n : nat) (h : heap T) : heap T -> Prop :=
| do_new c p h' : new c h = Some (Ok p, h') -> phys_step n h h'
| do_with_backend b pos c p h' : is_Some (backs h !! b) -> with_backend b pos c h = Some (Ok p, h') -> phys_step n h h'
| do_clone p ph cow' c h' : in_use h p ph -> clone_as n p cow' 0 None h = Some (Ok c, h') -> phys_step n h h'
| do_commit p ph i w x h' : in_use h p ph -> 0 <= i < 2 ^ 51 -> (forall nl, w = Some nl -> 0 <= nl <= PAGE_SIZE) ->
    commit n p i w h = Some (Ok x, h') -> phys_step n h h'
| do_read p ph off buffer bs h' : in_use h p ph -> 0 <= off -> rooms_ok buffer -> off + stotal buffer <= 2 ^ 63 -> (length buffer < n)%nat ->
    phys_read_at n p off buffer h = Some (Ok bs, h') -> phys_step n h h'
| do_write p ph off buffer m h' : in_use h p ph -> cow ph = true -> 0 <= off -> off + len (mjoin buffer) <= 2 ^ 63 -> (length buffer < n)%nat ->
    phys_write_at n p off buffer h = Some (Ok m, h') -> phys_step n h h'
| do_drop p ph h' : in_use h p ph -> flusher ph = None -> drop_phys n p h = Some (Ok tt, h') -> phys_step n h h'.
Inductive phys_reach (n : nat) : nat -> heap T -> Prop :=
| reach_boot nf bs : phys_reach n 0 (boot nf bs)
| reach_step k h h' : phys_reach n k h -> phys_step n h h' -> phys_reach n (S k) h'.

Lemma step_wf rank n k (h h' : heap T) :
  wf rank h -> (forall x, (rank x <= k)%nat) -> (k + 2 <= n)%nat -> phys_step n h h' -> exists rank', wf rank' h' /\ forall x, (rank' x <= S k)%nat.
Proof.
  intros Hw Hk Hn Hstep. assert (Hsame : wf rank h' -> exists rank', wf rank' h' /\ forall x, (rank' x <= S k)%nat).
  { intros Hw'. exists rank. split; [done|]. intros x. specialize (Hk x). lia. }
  assert (Hf : forall p, (rank p + 2 <= n)%nat) by (intros p; specialize (Hk p); lia).
  destruct Hstep as [c p h' E|b pos c p h' [o Ho] E|p ph cow' c h' [Hp Hb] E|p ph i w [f l] h' [Hp Hb] Hi Hwr E|p ph off buffer bs h' [Hp Hb] Ho Hr Ht Hl E
    |p ph off buffer m h' [Hp Hb] Hc Ho Ht Hl E|p ph h' [Hp Hb] Hfl E].
  - destruct (phys_new_ok rank h c Hw) as (p' & h2 & E2 & Hw2 & _). apply Hsame. congruence.
  - destruct (with_backend_ok rank h b o pos c Hw Ho) as (p' & h2 & E2 & Hw2 & _). apply Hsame. congruence.
  - destruct (clone_ok rank n h p ph cow' Hw Hp Hb) as (c' & h2 & rank' & E2 & Hcl); [specialize (Hf p); lia|].
    assert (h2 = h') as -> by congruence. exists rank'. split; [apply Hcl|]. by apply (c_bound _ _ _ _ _ _ _ Hcl).
  - destruct (commit_ok rank n h p ph i w Hw Hp Hb Hi Hwr (Hf p)) as (r & h2 & E2 & Hr). rewrite E in E2. injection E2 as <- <-. apply Hsame. apply Hr.
  - destruct (read_at_ok rank n h p ph off buffer Hw Hp Hb Ho Hr Ht (Hf p) Hl) as (r & h2 & E2 & Hr2). rewrite E in E2. injection E2 as <- <-. apply Hsame. apply Hr2.
  - destruct (write_at_ok rank n h p ph off buffer Hw Hp Hb Hc Ho Ht (Hf p) Hl) as (r & h2 & E2 & Hr2). rewrite E in E2. injection E2 as <- <-. apply Hsame. apply Hr2.
  - destruct (drop_ok rank n p h ph Hw Hp Hb Hfl) as (h2 & E2 & Hw2 & _); [specialize (Hf p); lia|]. apply Hsame. congruence.
Qed.

(** C5: the memory objects are well formed after every sequence of operations that all
    succeed: creations, forks, commits, reads, writes to objects that copy on write, and
    drops of objects without a flusher.  The links have no cycles and go to branches,
    every frame is in one entry, a page left to one child of a branch is needed by one of
    them only.  After [k] operations a chain of links has at most [k] objects.  It is not
    stated of sequences in which an operation fails: a commit that finds no memory for its
    copy can lose a page ([page_lost]). *)
Theorem phys_reach_wf (n k : nat) (h : heap T) :
  phys_reach n k h -> (k + 2 <= n)%nat -> exists rank, wf rank h /\ forall x, (rank x <= k)%nat.
Proof.
  induction 1 as [nf bs|k h h' Hr IH Hs]; intros Hn; [exists (fun _ => O); split; [apply boot_wf|done]|].
  destruct IH as (rank & Hw & Hk); [lia|]. eapply step_wf; [exact Hw|exact Hk| |exact Hs]. lia.
Qed.

(** What a commit that succeeds gives, by the bytes. *)
Lemma commit_bytes rank (h h' : heap T) p ph i f l w : wf rank h -> in_use h p ph -> wf rank h' -> pres h h' -> shown h' p i f l w -> exists bs, sees h p i bs /\ pages h' !! f = Some bs.
Proof.
  intros Hw [Hp Hb] Hw' Hpr Hsh. destruct (sees_total rank h p ph i Hw Hp) as [bs Hbs]. exists bs. split; [done|]. destruct (proj2 Hpr p ph Hp Hb) as (_ & _ & _ & _ & _ & _ & Hs).
  apply Hs in Hbs as (y & Hy & Hyb). destruct Hsh as [[Hlk _]|(_ & -> & -> & Hlk)]; rewrite (looks_det _ _ _ _ _ Hy Hlk) in Hyb; [done|].
  injection Hyb as <-. apply (wf_zero _ _ Hw').
Qed.



(** What a read of an object returns, at most as much as the buffers hold, is
    what the object shows at the offset; a read changes nothing that is shown.  It
    fails only if memory is used up or a backend fails, and panics only if it goes
    over the end of a page. *)
Theorem phys_read_at_spec rank n (h : heap T) p ph off buffer :
  wf rank h -> in_use h p ph -> 0 <= off -> rooms_ok buffer -> off + stotal buffer <= 2 ^ 63 -> (rank p + 2 <= n)%nat -> (length buffer < n)%nat ->
  exists r h', phys_read_at n p off buffer h = Some (r, h') /\
    match r with
    | Ok bs => wf rank h' /\ pres h h' /\ len bs <= stotal buffer /\ forall k b, bs !! k = Some b -> shows h p (off + Z.of_nat k) b
    | Err e => may_fail h h' e
    | Panic => PAGE_SIZE < off mod PAGE_SIZE + stotal buffer
    end.
Proof.
  intros Hw [Hp Hb] Ho Hr Ht Hn Hl. destruct (read_at_ok rank n h p ph off buffer Hw Hp Hb Ho Hr Ht Hn Hl) as (r & h' & E & Hres).
  exists r, h'. split; [done|]. destruct r as [bs|e|]; [|done|done]. naive_solver.
Qed.

End PhysUse.

(** ** A disk in memory as a backend *)
#[export] Program Instance RamDisk_backing : Backing RamDisk := { file := disk_bytes }.
Next Obligation.
  intros d off n Ho Hn. cbn. unfold ram_read. split; [done|]. change (stotal [room n]) with (n + 0).
  set (k := Z.min (n + 0) (len (disk_bytes d) - off)). exists (Z.to_nat k). split_and!; [done| |].
  - unfold slice_at, len. rewrite length_take, length_drop. lia.
  - intros E. apply (f_equal length) in E. unfold slice_at in E. rewrite length_take, length_drop in E. cbn in E. unfold k, len in *. lia.
Qed.

(** ** Witnesses: one object without pages *)
Definition start : heap RamDisk := boot 8 ∅.
Definition one : heap RamDisk := set_physs (<[0%nat := mk_phys false None ∅ 0 true None]> (physs start)) start.
Lemma one_wf : wf (fun _ => O) one.
Proof. apply add_wf; [apply boot_wf|done|done]. Qed.

Lemma phys_reach_wf_witness : exists rank : nat -> nat, wf rank one /\ forall x, (rank x <= 1)%nat.
Proof.
  apply (phys_reach_wf 8 1 one); [|lia]. eapply reach_step; [apply (reach_boot 8 8 ∅)|]. apply (do_new 8 _ true O). vm_compute. reflexivity.
Defined.
Lemma phys_read_at_spec_witness : exists r h', phys_read_at 8 0 10 [room 5; room 3] one = Some (r, h') /\ match r with Ok bs => len bs <= 8 | Err e => may_fail one h' e | Panic => 4096 < 10 + 8 end.
Proof.
  destruct (phys_read_at_spec (fun _ => O) 8 one 0 (mk_phys false None ∅ 0 true None) 10 [room 5; room 3] one_wf) as (r & h' & E & Hr);
    [done|lia|repeat constructor; cbn; lia|vm_compute; discriminate|lia|cbn; lia|].
  exists r, h'. split; [exact E|]. destruct r as [bs|e|]; [exact (proj1 (proj2 (proj2 Hr)))|exact Hr|exact Hr].
Defined.

(** ** Runs *)
Module Runs.
#[local] Notation M := (PT (heap RamDisk) Error).
Definition attempt {A} (m : M A) : M (res Error A) := fun h =>
  match m h with Some (r, h') => Some (Ok r, h') | None => None end.
Definition outcome {A} (m : M A) (frames_left : nat) (bs : gmap nat RamDisk) : option (res Error A) := fst <$> m (boot frames_left bs).
Definition rd (p : nat) (off n : Z) : M (list Z) := phys_read_at 20 p off [room n].
Definition wr (p : nat) (off : Z) (bs : list Z) : M Z := phys_write_at 20 p off [bs].
Lemma three_ok : Forall byte (replicate 4096 1 ++ replicate 4096 2 ++ replicate 4096 3).
Proof. rewrite !Forall_app. split_and!; apply Forall_replicate; unfold byte; lia. Qed.
(** A page of ones, one of twos, one of threes. *)
Definition three : RamDisk := mk_disk _ three_ok.
Definition head_of (b : nat) : M (list Z) := h ← hget; o ← pt_opt (backs h !! b); mret (take 3 (disk_bytes o)).

(** [test_phys] of mizu/kernel/src/mem.rs, with what it asserts. *)
Definition test_phys : M (list (list Z)) :=
  p ← new false; _ ← wr p 0 [1; 2; 3; 4; 5];
  p1 ← clone_as 20 p true 0 None; a ← rd p1 0 5;
  p2 ← clone_as 20 p false 0 None; _ ← wr p PAGE_SIZE [6; 7; 8; 9; 10];
  b ← rd p2 0 5; c ← rd p2 PAGE_SIZE 5; d ← rd p1 PAGE_SIZE 5;
  mret [a; b; c; d].
Example test_phys_ok : outcome test_phys 20 ∅ = Some (Ok [[1; 2; 3; 4; 5]; [1; 2; 3; 4; 5]; [6; 7; 8; 9; 10]; [0; 0; 0; 0; 0]]).
Proof. vm_compute. reflexivity. Qed.

(** A write that finds no memory takes the page of the other object with it. *)
Example page_lost :
  outcome (p ← new true; _ ← wr p 0 [1; 2; 3]; c ← clone_as 20 p true 0 None;
    a ← attempt (rd p 0 3); x ← attempt (wr c 0 [9]); b ← attempt (rd p 0 3); mret (a, x, b)) 1 ∅
  = Some (Ok (Ok [1; 2; 3], Err ENOMEM, Err ENOENT)).
Proof. vm_compute. reflexivity. Qed.
(** A copy from page 1 on shows page 1 as its page 1 once the original is gone. *)
Example offset_lost :
  outcome (p ← with_backend 0 0 true; c ← clone_as 20 p true 1 None; a ← rd c 0 2; _ ← drop_phys 20 p; b ← rd c PAGE_SIZE 2; mret (a, b)) 20 {[0%nat := three]}
  = Some (Ok ([2; 2], [2; 2])).
Proof. vm_compute. reflexivity. Qed.
(** A copy of one page shows the next one after a copy of it has come and gone. *)
Example window_lost :
  outcome (p ← new true; _ ← wr p 0 [1; 1]; _ ← wr p PAGE_SIZE [2; 2]; c ← clone_as 20 p true 0 (Some 1); a ← rd c PAGE_SIZE 2;
    d ← clone_as 20 c true 0 None; _ ← drop_phys 20 d; b ← rd c PAGE_SIZE 2; mret (a, b)) 20 ∅
  = Some (Ok ([], [2; 2])).
Proof. vm_compute. reflexivity. Qed.
(** Behind ten bytes a read finds zeros, and a long one panics. *)
Example read_behind :
  outcome (p ← new true; _ ← wr p 0 (replicate 10 7); a ← attempt (rd p 100 3); b ← attempt (rd p 100 8192); mret (a, b)) 20 ∅
  = Some (Ok (Ok [0; 0; 0], Panic)).
Proof. vm_compute. reflexivity. Qed.
(** A dirty page two links up is not flushed, even when it is forced; [flush_all]
    finds it. *)
Example flush_skips :
  outcome (p ← with_backend 0 0 false; _ ← wr p 0 [9; 9]; c ← clone_as 20 p true 0 None; d ← clone_as 20 p true 0 None;
    _ ← drop_phys 20 d; _ ← drop_phys 20 c; _ ← flush 100 p 0 (Some true); a ← head_of 0; _ ← flush_all 100 p; b ← head_of 0; mret (a, b)) 20 {[0%nat := three]}
  = Some (Ok ([1; 1; 1], [9; 9; 1])).
Proof. vm_compute. reflexivity. Qed.
(** A copy cut to ten bytes shows the bytes behind them. *)
Example resize_keeps :
  outcome (p ← new true; _ ← wr p 0 (replicate 20 7); c ← clone_as 20 p true 0 None; _ ← resize c 10; rd c 0 20) 20 ∅
  = Some (Ok (replicate 20 7)).
Proof. vm_compute. reflexivity. Qed.
End Runs.
