(* ===== verification/Lru.v ===== *)
(** * kmem: the LRU cache

    mizu/lib/kmem/src/lru.rs: a hash map from keys to the nodes of a doubly linked
    list between two sigils, most recently used first.  Nodes are boxes: a heap from
    addresses to nodes, where [None] is a null pointer or an uninitialised field.  The
    hash map holds, as the code does, pointers to the keys inside the nodes
    ([KeyRef]), compared by what they point to; its order is of no account.  The use
    of a box that is not there, or of a field that is not initialised, is a [Panic].
    A [&mut V] that is returned is what the caller does with it, a function. *)

From S2P Require Import Prelude Ksc.

Import Errno.

Module Lru.
Section Lru.
Context {K V : Type} `{EqDecision K}.

Record LruEntry := mk_entry { key : option K; val : option V; prev : option nat; next : option nat }.
(** [map]: the address of the key and the node. *)
Record LruCache := mk_lru { nodes : gmap nat LruEntry; map : list (nat * nat); cap : Z; head : nat; tail : nat }.
Notation M := (PT LruCache Error).

Definition lget : M LruCache := fun s => Some (Ok s, s).
Definition lput (s : LruCache) : M unit := fun _ => Some (Ok tt, s).
Definition set_nodes (ns : gmap nat LruEntry) (s : LruCache) : LruCache := mk_lru ns (map s) (cap s) (head s) (tail s).
Definition set_map (m : list (nat * nat)) (s : LruCache) : LruCache := mk_lru (nodes s) m (cap s) (head s) (tail s).
Definition set_cap (c : Z) (s : LruCache) : LruCache := mk_lru (nodes s) (map s) c (head s) (tail s).

(** ** Nodes *)
Definition entry_new (k : K) (v : V) : LruEntry := mk_entry (Some k) (Some v) None None.
Definition new_sigil : LruEntry := mk_entry None None None None.
(** [*n] *)
Definition node (n : nat) : M LruEntry := s ← lget; pt_opt (nodes s !! n).
(** [*n = e] *)
Definition set_node (n : nat) (e : LruEntry) : M unit := _ ← node n; s ← lget; lput (set_nodes (<[n := e]> (nodes s)) s).
Definition set_next (n : nat) (x : option nat) : M unit := e ← node n; set_node n (mk_entry (key e) (val e) (prev e) x).
Definition set_prev (n : nat) (x : option nat) : M unit := e ← node n; set_node n (mk_entry (key e) (val e) x (next e)).
Definition set_val (n : nat) (v : V) : M unit := e ← node n; set_node n (mk_entry (key e) (Some v) (prev e) (next e)).
(** [Box::into_raw(Box::new(e))], [*Box::from_raw(n)] *)
Definition box_new (e : LruEntry) : M nat :=
  s ← lget; let n := fresh (dom (nodes s)) in _ ← lput (set_nodes (<[n := e]> (nodes s)) s); mret n.
Definition box_take (n : nat) : M LruEntry :=
  e ← node n; s ← lget; _ ← lput (set_nodes (delete n (nodes s)) s); mret e.

(** ** The hash map *)
Definition key_at (s : LruCache) (r : nat) : option K := nodes s !! r ≫= key.
(** Every [KeyRef] can be read. *)
Definition keys_live (s : LruCache) : bool := forallb (fun e => if key_at s e.1 then true else false) (map s).
Definition is_key (s : LruCache) (k : K) (e : nat * nat) : bool := bool_decide (key_at s e.1 = Some k).
Definition map_get (k : K) : M (option nat) :=
  s ← lget; if keys_live s then mret (snd <$> List.find (is_key s k) (map s)) else pt_res Panic.
Definition map_remove (k : K) : M (option nat) :=
  n ← map_get k; s ← lget; _ ← lput (set_map (List.filter (fun e => negb (is_key s k e)) (map s)) s); mret n.
(** An equal key stays, with the new value. *)
Definition map_insert (r n : nat) : M unit :=
  s ← lget;
  if keys_live s then
    k ← pt_opt (key_at s r);
    if existsb (is_key s k) (map s)
    then lput (set_map ((fun e => if is_key s k e then (e.1, n) else e) <$> map s) s)
    else lput (set_map ((r, n) :: map s) s)
  else pt_res Panic.

(** ** The list *)
(** What [detach] does with the links of a node. *)
Definition unlink (e : LruEntry) : M unit :=
  p ← pt_opt (prev e); _ ← set_next p (next e);
  n ← pt_opt (next e); set_prev n (prev e).
Definition detach (n : nat) : M unit := e ← node n; unlink e.
Definition attach (n : nat) : M unit :=
  s ← lget;
  h ← node (head s); _ ← set_next n (next h);
  _ ← set_prev n (Some (head s));
  _ ← set_next (head s) (Some n);
  e ← node n; nx ← pt_opt (next e); set_prev nx (Some n).
Definition attach_last (n : nat) : M unit :=
  s ← lget;
  _ ← set_next n (Some (tail s));
  t ← node (tail s); _ ← set_prev n (prev t);
  _ ← set_prev (tail s) (Some n);
  e ← node n; pv ← pt_opt (prev e); set_next pv (Some n).

Definition to_front (n : nat) : M unit := _ ← detach n; attach n.

(** ** Construction *)
Definition construct (c : Z) : M unit :=
  _ ← lput (mk_lru ∅ [] c 0 0);
  h ← box_new new_sigil; t ← box_new new_sigil;
  s ← lget; _ ← lput (mk_lru (nodes s) (map s) c h t);
  _ ← set_next h (Some t); set_prev t (Some h).
Definition new : Z -> M unit := construct.
Definition usize_MAX : Z := 2 ^ 64 - 1.
Definition unbounded : M unit := construct usize_MAX.

Definition len : M Z := s ← lget; mret (Z.of_nat (length (map s))).
Definition is_empty : M bool := l ← len; mret (l =? 0).

(** ** Putting *)
Definition replace_or_create_node (k : K) (v : V) : M (option (K * V) * nat) :=
  l ← len; s ← lget;
  if l =? cap s then
    t ← node (tail s); last ← pt_opt (prev t); le ← node last;
    old_key ← pt_opt (key le);
    o ← map_remove old_key; n ← pt_opt o;
    e ← node n; ok ← pt_opt (key e); ov ← pt_opt (val e);
    _ ← set_node n (mk_entry (Some k) (Some v) (prev e) (next e));
    _ ← detach n;
    mret (Some (ok, ov), n)
  else n ← box_new (entry_new k v); mret (None, n).

(** The node is new at the front and in the map. *)
Definition enter (n : nat) : M unit := _ ← attach n; map_insert n n.
Definition capturing_put (k : K) (v : V) (capture : bool) : M (option (K * V)) :=
  node_ref ← map_get k;
  match node_ref with
  | Some n =>
      e ← node n; old ← pt_opt (val e); _ ← set_val n v;
      _ ← to_front n;
      mret (Some (k, old))
  | None =>
      '(replaced, n) ← replace_or_create_node k v;
      _ ← enter n;
      mret (if capture then replaced else None)
  end.
Definition put (k : K) (v : V) : M (option V) := r ← capturing_put k v false; mret (snd <$> r).
Definition push (k : K) (v : V) : M (option (K * V)) := capturing_put k v true.

(** ** Getting *)
Definition node_val (n : nat) : M V := e ← node n; pt_opt (val e).
Definition get (k : K) : M (option V) :=
  o ← map_get k;
  match o with Some n => _ ← to_front n; v ← node_val n; mret (Some v) | None => mret None end.
(** What the caller does through the reference; the value before. *)
Definition through (n : nat) (f : V -> V) : M V := v ← node_val n; _ ← set_val n (f v); mret v.
Definition get_mut (k : K) (f : V -> V) : M (option V) :=
  o ← map_get k;
  match o with Some n => _ ← to_front n; v ← through n f; mret (Some v) | None => mret None end.
Definition get_or_insert (k : K) (d : V) : M V :=
  o ← map_get k;
  match o with
  | Some n => _ ← to_front n; node_val n
  | None => '(_, n) ← replace_or_create_node k d; _ ← enter n; node_val n
  end.
Definition get_or_insert_mut (k : K) (d : V) (f : V -> V) : M V :=
  o ← map_get k;
  match o with
  | Some n => _ ← to_front n; through n f
  | None => '(_, n) ← replace_or_create_node k d; _ ← enter n; through n f
  end.
Definition peek (k : K) : M (option V) :=
  o ← map_get k; match o with Some n => v ← node_val n; mret (Some v) | None => mret None end.
Definition peek_mut (k : K) (f : V -> V) : M (option V) :=
  o ← map_get k; match o with Some n => v ← through n f; mret (Some v) | None => mret None end.
Definition contains (k : K) : M bool := o ← map_get k; mret (match o with Some _ => true | None => false end).
Definition peek_lru : M (option (K * V)) :=
  b ← is_empty;
  if b : bool then mret None
  else
    s ← lget; t ← node (tail s); n ← pt_opt (prev t);
    e ← node n; k ← pt_opt (key e); v ← pt_opt (val e); mret (Some (k, v)).

(** ** Removing *)
Definition remove_last : M (option LruEntry) :=
  s ← lget; t ← node (tail s);
  if bool_decide (prev t = Some (head s)) then mret None
  else
    last ← pt_opt (prev t); le ← node last; old_key ← pt_opt (key le);
    o ← map_remove old_key; n ← pt_opt o;
    _ ← detach n; e ← box_take n; mret (Some e).
Definition pop_lru : M (option (K * V)) :=
  o ← remove_last;
  match o with
  | Some e => k ← pt_opt (key e); v ← pt_opt (val e); mret (Some (k, v))
  | None => mret None
  end.
Definition pop_entry (k : K) : M (option (K * V)) :=
  o ← map_remove k;
  match o with
  | None => mret None
  | Some n => e ← box_take n; _ ← unlink e; k ← pt_opt (key e); v ← pt_opt (val e); mret (Some (k, v))
  end.
(** The key is dropped first. *)
Definition pop (k : K) : M (option V) :=
  o ← map_remove k;
  match o with
  | None => mret None
  | Some n => e ← box_take n; _ ← pt_opt (key e); _ ← unlink e; v ← pt_opt (val e); mret (Some v)
  end.
Definition promote (k : K) : M unit :=
  o ← map_get k; match o with Some n => to_front n | None => mret tt end.
Definition demote (k : K) : M unit :=
  o ← map_get k; match o with Some n => _ ← detach n; attach_last n | None => mret tt end.

Fixpoint shrink_loop (n : nat) (c : Z) : M unit :=
  l ← len;
  if c <? l then match n with O => pt_none | S n => _ ← pop_lru; shrink_loop n c end else mret tt.
Definition resize (n : nat) (c : Z) : M unit :=
  s ← lget;
  if c =? cap s then mret tt
  else _ ← shrink_loop n c; s ← lget; lput (set_cap c s).
Fixpoint clear (n : nat) : M unit :=
  o ← pop_lru;
  match o with Some _ => match n with O => pt_none | S n => clear n end | None => mret tt end.

(** ** Iterating *)
Record Iter := mk_iter { it_len : Z; ptr : option nat; end_ : option nat }.
Definition iter : M Iter := l ← len; s ← lget; h ← node (head s); t ← node (tail s); mret (mk_iter l (next h) (prev t)).
Definition item (p : option nat) : M (K * V * LruEntry) :=
  n ← pt_opt p; e ← node n; k ← pt_opt (key e); v ← pt_opt (val e); mret (k, v, e).
Definition iter_next (i : Iter) : M (option (K * V) * Iter) :=
  if it_len i =? 0 then mret (None, i)
  else '(k, v, e) ← item (ptr i); mret (Some (k, v), mk_iter (it_len i - 1) (next e) (end_ i)).
Definition iter_next_back (i : Iter) : M (option (K * V) * Iter) :=
  if it_len i =? 0 then mret (None, i)
  else '(k, v, e) ← item (end_ i); mret (Some (k, v), mk_iter (it_len i - 1) (ptr i) (prev e)).
(** [IterMut]: with what the caller does to the value. *)
Definition iter_mut_next (f : K -> V -> V) (i : Iter) : M (option (K * V) * Iter) :=
  if it_len i =? 0 then mret (None, i)
  else
    '(k, v, e) ← item (ptr i); n ← pt_opt (ptr i); _ ← set_val n (f k v);
    mret (Some (k, v), mk_iter (it_len i - 1) (next e) (end_ i)).
Definition iter_mut_next_back (f : K -> V -> V) (i : Iter) : M (option (K * V) * Iter) :=
  if it_len i =? 0 then mret (None, i)
  else
    '(k, v, e) ← item (end_ i); n ← pt_opt (end_ i); _ ← set_val n (f k v);
    mret (Some (k, v), mk_iter (it_len i - 1) (ptr i) (prev e)).

(** ** Dropping *)
Fixpoint drop_nodes (m : list (nat * nat)) : M unit :=
  match m with
  | [] => mret tt
  | (_, n) :: m => e ← box_take n; _ ← pt_opt (key e); _ ← pt_opt (val e); drop_nodes m
  end.
Definition drop : M unit :=
  s ← lget; _ ← lput (set_map [] s); _ ← drop_nodes (map s);
  _ ← box_take (head s); _ ← box_take (tail s); mret tt.
End Lru.
Arguments LruCache : clear implicits.
Arguments LruEntry : clear implicits.
End Lru.

(** * kmem: the LRU cache is a list

    The nodes between the sigils, the hash map and the capacity are those of a list
    of entries, most recently used first: the reference.  Every operation does on the
    nodes what it does on the list, frees what it removes and nothing else. *)
Import Errno Lru.

(** ** Chains of nodes *)
Section Chains.
Fixpoint linked (nx pv : nat -> option nat) (p : list nat) : Prop :=
  match p with
  | u :: ((v :: _) as p') => nx u = Some v /\ pv v = Some u /\ linked nx pv p'
  | _ => True
  end.
Lemma linked_split nx pv l u v r : linked nx pv (l ++ u :: v :: r) <-> linked nx pv (l ++ [u]) /\ nx u = Some v /\ pv v = Some u /\ linked nx pv (v :: r).
Proof.
  induction l as [|x l IH]; [cbn; tauto|]. destruct l as [|y l]; cbn in *; tauto.
Qed.
(** Only the links inside matter. *)
Lemma linked_frame nx pv nx' pv' p :
  (forall l u r, p = l ++ u :: r -> r <> [] -> nx' u = nx u) -> (forall l u r, p = l ++ u :: r -> l <> [] -> pv' u = pv u) ->
  linked nx pv p -> linked nx' pv' p.
Proof.
  induction p as [|u p IH]; [done|]. destruct p as [|v p]; [done|]. intros Hn Hp (H1 & H2 & H3). cbn. split_and!.
  - rewrite (Hn [] u (v :: p)); done.
  - rewrite (Hp [u] v p); done.
  - apply IH; [intros l x r E; by apply (Hn (u :: l) x r); rewrite E|intros l x r E Hl; by apply (Hp (u :: l) x r); [rewrite E|]|done].
Qed.
Lemma linked_frame_notin nx pv nx' pv' p :
  (forall u, u ∈ p -> nx' u = nx u) -> (forall u, u ∈ p -> pv' u = pv u) -> linked nx pv p -> linked nx' pv' p.
Proof. intros Hn Hp. apply linked_frame; intros l u r -> _; [apply Hn|apply Hp]; set_solver. Qed.

(** A node is taken out. *)
Lemma linked_remove nx pv l a n b r :
  NoDup (l ++ a :: n :: b :: r) -> linked nx pv (l ++ a :: n :: b :: r) ->
  linked (fun m => if decide (m = a) then Some b else nx m) (fun m => if decide (m = b) then Some a else pv m) (l ++ a :: b :: r).
Proof.
  intros Hnd Hl. apply linked_split in Hl as (H1 & _ & _ & H2).
  change (linked nx pv ([] ++ n :: b :: r)) in H2. apply linked_split in H2 as (_ & _ & _ & H2).
  rewrite NoDup_app, !NoDup_cons in Hnd. destruct Hnd as (_ & Hla & Ha & Hn & Hb & _). apply linked_split. split_and!.
  - eapply linked_frame; [| |exact H1].
    + intros l' u r' E Hr. rewrite decide_False; [done|]. intros Eu. rewrite Eu in E. destruct r' as [|x r'] using rev_ind; [done|].
      change (l' ++ a :: r' ++ [x]) with (l' ++ (a :: r') ++ [x]) in E. rewrite app_assoc in E. apply app_inj_tail in E as [El _].
      apply (Hla a); [rewrite El|]; set_solver.
    + intros l' u r' E Hl'. rewrite decide_False; [done|]. intros Eu. rewrite Eu in E. assert (b ∈ l ++ [a]) as Hin by (rewrite E; set_solver).
      apply elem_of_app in Hin as [Hin|Hin]; [apply (Hla b); set_solver|set_solver].
  - by rewrite decide_True.
  - by rewrite decide_True.
  - eapply linked_frame; [| |exact H2].
    + intros l' u r' E Hr. rewrite decide_False; [done|]. intros Eu. rewrite Eu in E. apply Ha. assert (a ∈ b :: r) by (rewrite E; set_solver). set_solver.
    + intros l' u r' E Hl'. rewrite decide_False; [done|]. intros Eu. rewrite Eu in E. destruct l' as [|x l']; [done|]. injection E as _ E. apply Hb. rewrite E. set_solver.
Qed.
(** A node is put between two. *)
Lemma linked_insert nx pv l a n b r :
  NoDup (l ++ a :: b :: r) -> n ∉ l ++ a :: b :: r -> linked nx pv (l ++ a :: b :: r) ->
  linked (fun m => if decide (m = a) then Some n else if decide (m = n) then Some b else nx m)
    (fun m => if decide (m = b) then Some n else if decide (m = n) then Some a else pv m) (l ++ a :: n :: b :: r).
Proof.
  intros Hnd Hn Hl. apply linked_split in Hl as (H1 & _ & _ & H2). rewrite NoDup_app, !NoDup_cons in Hnd. destruct Hnd as (_ & Hla & Ha & Hb & _).
  assert (n <> a /\ n <> b) as [Hna Hnb] by set_solver.
  apply linked_split. split_and!.
  - eapply linked_frame; [| |exact H1].
    + intros l' u r' E Hr. assert (u ∈ l ++ [a]) by (rewrite E; set_solver). rewrite !decide_False; [done|set_solver|]. intros Eu. rewrite Eu in E. destruct r' as [|x r'] using rev_ind; [done|].
      change (l' ++ a :: r' ++ [x]) with (l' ++ (a :: r') ++ [x]) in E. rewrite app_assoc in E. apply app_inj_tail in E as [El _].
      apply (Hla a); [rewrite El|]; set_solver.
    + intros l' u r' E Hl'. assert (u ∈ l ++ [a]) as Hin by (rewrite E; set_solver). rewrite !decide_False; [done|set_solver|]. intros Eu. rewrite Eu in *.
      apply elem_of_app in Hin as [Hin|Hin]; [apply (Hla b); set_solver|set_solver].
  - by rewrite decide_True.
  - by rewrite decide_False, decide_True.
  - change (n :: b :: r) with ([] ++ n :: b :: r). apply linked_split. split_and!; [done|by rewrite decide_False, decide_True|by rewrite decide_True|].
    eapply linked_frame; [| |exact H2].
    + intros l' u r' E Hr. assert (u ∈ b :: r) by (rewrite E; set_solver). rewrite !decide_False; [done|set_solver|set_solver].
    + intros l' u r' E Hl'. assert (u ∈ b :: r) by (rewrite E; set_solver). rewrite !decide_False; [done|set_solver|]. intros Eu. rewrite Eu in *.
      destruct l' as [|x l']; [done|]. injection E as _ E. apply Hb. rewrite E. set_solver.
Qed.
End Chains.

(** ** Nodes by their fields *)
Section Views.
Context {K V : Type} `{EqDecision K}.
Notation cache := (LruCache K V).

Definition ct (s : cache) (n : nat) : option (option K * option V) := (fun e => (key e, val e)) <$> nodes s !! n.
Definition nx (s : cache) (n : nat) : option nat := nodes s !! n ≫= next.
Definition pv (s : cache) (n : nat) : option nat := nodes s !! n ≫= prev.
Definition live (s : cache) (n : nat) : Prop := is_Some (nodes s !! n).
Lemma ct_live s n x : ct s n = Some x -> live s n.
Proof. unfold ct. intros E. destruct (nodes s !! n) as [e|] eqn:En; [by exists e|done]. Qed.
Lemma nx_live s n x : nx s n = Some x -> live s n.
Proof. unfold nx. intros E. destruct (nodes s !! n) as [e|] eqn:En; [by exists e|done]. Qed.
Lemma pv_live s n x : pv s n = Some x -> live s n.
Proof. unfold pv. intros E. destruct (nodes s !! n) as [e|] eqn:En; [by exists e|done]. Qed.

(** [s'] is [s] with other links. *)
Definition moves (s s' : cache) (nx' pv' : nat -> option nat) : Prop :=
  (map s' = map s /\ cap s' = cap s /\ head s' = head s /\ tail s' = tail s) /\
  (forall m, ct s' m = ct s m) /\ (forall m, nx s' m = nx' m) /\ (forall m, pv s' m = pv' m).
Lemma moves_live s s' a b m : moves s s' a b -> live s' m <-> live s m.
Proof.
  intros (_ & Hc & _). unfold live. specialize (Hc m). unfold ct in Hc.
  destruct (nodes s' !! m), (nodes s !! m); cbn in Hc; try done; split; intros [? ?]; eauto; done.
Qed.
Lemma moves_trans s1 s2 s3 a b a' b' : moves s1 s2 a b -> moves s2 s3 a' b' -> moves s1 s3 a' b'.
Proof.
  intros (S1 & C1 & _) (S2 & C2 & N2 & P2). split_and!; try done; try (destruct S1 as (? & ? & ? & ?), S2 as (? & ? & ? & ?); congruence).
Qed.
Lemma moves_ext s s' a b a' b' : (forall m, a m = a' m) -> (forall m, b m = b' m) -> moves s s' a b -> moves s s' a' b'.
Proof. intros Ha Hb (S & C & N & P). split_and!; try apply S; try done; intros m; [rewrite N|rewrite P]; done. Qed.

Lemma set_next_ok (s : cache) n x : live s n ->
  exists s', set_next n x s = Some (Ok tt, s') /\ moves s s' (fun m => if decide (m = n) then x else nx s m) (pv s).
Proof.
  intros [e He]. unfold set_next, set_node, node, lget, lput, pt_opt, pt_res, mbind, PT_bind. rewrite He. cbn. eexists. split; [done|].
  split_and!; try done; intros m; unfold ct, nx, pv; cbn; rewrite lookup_insert; repeat case_decide; subst; rewrite ?He; try done; congruence.
Qed.
Lemma set_prev_ok (s : cache) n x : live s n ->
  exists s', set_prev n x s = Some (Ok tt, s') /\ moves s s' (nx s) (fun m => if decide (m = n) then x else pv s m).
Proof.
  intros [e He]. unfold set_prev, set_node, node, lget, lput, pt_opt, pt_res, mbind, PT_bind. rewrite He. cbn. eexists. split; [done|].
  split_and!; try done; intros m; unfold ct, nx, pv; cbn; rewrite lookup_insert; repeat case_decide; subst; rewrite ?He; try done; congruence.
Qed.
Lemma node_ok (s : cache) n : live s n -> exists e, node n s = Some (Ok e, s) /\ next e = nx s n /\ prev e = pv s n /\ ct s n = Some (key e, val e) /\ nodes s !! n = Some e.
Proof.
  intros [e He]. exists e. unfold node, lget, pt_opt, pt_res, mbind, PT_bind, nx, pv, ct. rewrite He. done.
Qed.

(** ** Links *)
Lemma unlink_ok (s : cache) e a b : prev e = Some a -> next e = Some b -> live s a -> live s b ->
  exists s', unlink e s = Some (Ok tt, s') /\
    moves s s' (fun m => if decide (m = a) then Some b else nx s m) (fun m => if decide (m = b) then Some a else pv s m).
Proof.
  intros Ha Hb La Lb. unfold unlink. rewrite Ha, Hb. destruct (set_next_ok s a (Some b) La) as (s1 & E1 & M1).
  rewrite (PT_bind_Ok _ _ _ a s) by done. rewrite (PT_bind_Ok _ _ _ _ _ E1), (PT_bind_Ok _ _ _ b s1) by done.
  destruct (set_prev_ok s1 b (Some a)) as (s2 & E2 & M2); [by apply (moves_live _ _ _ _ _ M1)|]. exists s2. split; [done|].
  eapply moves_ext; [| |exact (moves_trans _ _ _ _ _ _ _ M1 M2)]; intros m; [apply M1|]; cbn beta. case_decide; [done|]. apply M1.
Qed.
Lemma detach_ok (s : cache) n a b : pv s n = Some a -> nx s n = Some b -> live s a -> live s b ->
  exists s', detach n s = Some (Ok tt, s') /\
    moves s s' (fun m => if decide (m = a) then Some b else nx s m) (fun m => if decide (m = b) then Some a else pv s m).
Proof.
  intros Ha Hb La Lb. destruct (node_ok s n (nx_live _ _ _ Hb)) as (e & E & Hn & Hp & _). unfold detach. rewrite (PT_bind_Ok _ _ _ _ _ E).
  apply unlink_ok; congruence.
Qed.
Lemma attach_ok (s : cache) n z : live s n -> n <> head s -> nx s (head s) = Some z -> live s z -> z <> n ->
  exists s', attach n s = Some (Ok tt, s') /\
    moves s s' (fun m => if decide (m = head s) then Some n else if decide (m = n) then Some z else nx s m)
      (fun m => if decide (m = z) then Some n else if decide (m = n) then Some (head s) else pv s m).
Proof.
  intros Ln Hne Hz Lz Hzn. unfold attach. rewrite (PT_bind_Ok lget _ s s s) by done.
  destruct (node_ok s (head s) (nx_live _ _ _ Hz)) as (h & E & Hh & _). rewrite (PT_bind_Ok _ _ _ _ _ E). rewrite Hh, Hz.
  destruct (set_next_ok s n (Some z) Ln) as (s1 & E1 & M1). rewrite (PT_bind_Ok _ _ _ _ _ E1).
  destruct (set_prev_ok s1 n (Some (head s))) as (s2 & E2 & M2); [by apply (moves_live _ _ _ _ _ M1)|]. rewrite (PT_bind_Ok _ _ _ _ _ E2).
  pose proof (moves_trans _ _ _ _ _ _ _ M1 M2) as M12. assert (Lh : live s (head s)) by (by eapply nx_live).
  destruct (set_next_ok s2 (head s) (Some n)) as (s3 & E3 & M3); [by apply (moves_live _ _ _ _ _ M12)|]. rewrite (PT_bind_Ok _ _ _ _ _ E3).
  pose proof (moves_trans _ _ _ _ _ _ _ M12 M3) as M13.
  destruct (node_ok s3 n) as (e & E4 & Hen & _); [by apply (moves_live _ _ _ _ _ M13)|]. rewrite (PT_bind_Ok _ _ _ _ _ E4).
  assert (Hnx3 : forall m, nx s3 m = if decide (m = head s) then Some n else if decide (m = n) then Some z else nx s m).
  { intros m. rewrite (proj1 (proj2 (proj2 M3)) m). case_decide; [done|]. rewrite (proj1 (proj2 (proj2 M2)) m). apply M1. }
  rewrite Hen, Hnx3, decide_False, decide_True by done. rewrite (PT_bind_Ok (pt_opt (Some z)) _ s3 z s3) by done.
  destruct (set_prev_ok s3 z (Some n)) as (s4 & E5 & M4); [by apply (moves_live _ _ _ _ _ M13)|]. exists s4. split; [done|].
  eapply moves_ext; [| |exact (moves_trans _ _ _ _ _ _ _ M13 M4)]; intros m; [apply Hnx3|]. cbn beta. case_decide; [done|].
  rewrite (proj2 (proj2 (proj2 M3)) m), (proj2 (proj2 (proj2 M2)) m). case_decide; [done|]. apply M1.
Qed.
Lemma attach_last_ok (s : cache) n z : live s n -> n <> tail s -> pv s (tail s) = Some z -> live s z -> z <> n ->
  exists s', attach_last n s = Some (Ok tt, s') /\
    moves s s' (fun m => if decide (m = z) then Some n else if decide (m = n) then Some (tail s) else nx s m)
      (fun m => if decide (m = tail s) then Some n else if decide (m = n) then Some z else pv s m).
Proof.
  intros Ln Hne Hz Lz Hzn. unfold attach_last. rewrite (PT_bind_Ok lget _ s s s) by done.
  destruct (set_next_ok s n (Some (tail s)) Ln) as (s1 & E1 & M1). rewrite (PT_bind_Ok _ _ _ _ _ E1).
  assert (Lt : live s (tail s)) by (by eapply pv_live).
  destruct (node_ok s1 (tail s)) as (t & E & _ & Ht & _); [by apply (moves_live _ _ _ _ _ M1)|]. rewrite (PT_bind_Ok _ _ _ _ _ E).
  rewrite (proj2 (proj2 (proj2 M1)) (tail s)), Hz in Ht. rewrite Ht.
  destruct (set_prev_ok s1 n (Some z)) as (s2 & E2 & M2); [by apply (moves_live _ _ _ _ _ M1)|]. rewrite (PT_bind_Ok _ _ _ _ _ E2).
  pose proof (moves_trans _ _ _ _ _ _ _ M1 M2) as M12.
  destruct (set_prev_ok s2 (tail s) (Some n)) as (s3 & E3 & M3); [by apply (moves_live _ _ _ _ _ M12)|]. rewrite (PT_bind_Ok _ _ _ _ _ E3).
  pose proof (moves_trans _ _ _ _ _ _ _ M12 M3) as M13.
  destruct (node_ok s3 n) as (e & E4 & _ & Hep & _); [by apply (moves_live _ _ _ _ _ M13)|]. rewrite (PT_bind_Ok _ _ _ _ _ E4).
  assert (Hpv3 : forall m, pv s3 m = if decide (m = tail s) then Some n else if decide (m = n) then Some z else pv s m).
  { intros m. rewrite (proj2 (proj2 (proj2 M3)) m). case_decide; [done|]. rewrite (proj2 (proj2 (proj2 M2)) m). case_decide; [done|]. apply M1. }
  rewrite Hep, Hpv3, decide_False, decide_True by done. rewrite (PT_bind_Ok (pt_opt (Some z)) _ s3 z s3) by done.
  destruct (set_next_ok s3 z (Some n)) as (s4 & E5 & M4); [by apply (moves_live _ _ _ _ _ M13)|]. exists s4. split; [done|].
  eapply moves_ext; [| |exact (moves_trans _ _ _ _ _ _ _ M13 M4)]; intros m; [|apply Hpv3]. cbn beta. case_decide; [done|].
  rewrite (proj1 (proj2 (proj2 M3)) m), (proj1 (proj2 (proj2 M2)) m). apply M1.
Qed.
End Views.

(** ** Representation *)
Section Rep.
Context {K V : Type} `{EqDecision K}.
Notation cache := (LruCache K V).

Definition path (s : cache) (ids : list nat) : list nat := head s :: ids ++ [tail s].
Record chain (s : cache) (ids : list nat) : Prop := mk_chain {
  ch_linked : linked (nx s) (pv s) (path s ids);
  ch_nodup : NoDup (path s ids);
}.
(** The contents of nodes. *)
Definition holds (s : cache) : list nat -> list (K * V) -> Prop := Forall2 (fun n kv => ct s n = Some (Some kv.1, Some kv.2)).
Definition index (ids : list nat) : list (nat * nat) := (fun n => (n, n)) <$> ids.

(** The cache represents the list [l], in the nodes [ids]; nothing else is allocated. *)
Record rep (s : cache) (ids : list nat) (l : list (K * V)) : Prop := mk_rep {
  r_chain : chain s ids;
  r_live n : live s n <-> n ∈ path s ids;
  r_holds : holds s ids l;
  r_map : map s ≡ₚ index ids;
  r_keys : NoDup l.*1;
  r_cap : 0 < cap s /\ Z.of_nat (length l) <= cap s;
}.

Definition kept (s s' : cache) : Prop :=
  (map s' = map s /\ cap s' = cap s /\ head s' = head s /\ tail s' = tail s) /\ (forall m, ct s' m = ct s m).
Lemma lru_kept_trans s1 s2 s3 : kept s1 s2 -> kept s2 s3 -> kept s1 s3.
Proof. intros [(? & ? & ? & ?) C1] [(? & ? & ? & ?) C2]. split; [split_and!; congruence|]. intros m. by rewrite C2. Qed.
Lemma kept_moves s s' a b : moves s s' a b -> kept s s'.
Proof. intros (S & C & _). done. Qed.
Lemma kept_live s s' m : kept s s' -> live s' m <-> live s m.
Proof.
  intros [_ Hc]. unfold live. specialize (Hc m). unfold ct in Hc.
  destruct (nodes s' !! m), (nodes s !! m); cbn in Hc; try done; split; intros [? ?]; eauto; done.
Qed.
Lemma kept_path s s' ids : kept s s' -> path s' ids = path s ids.
Proof. intros [(_ & _ & Hh & Ht) _]. unfold path. by rewrite Hh, Ht. Qed.
Lemma kept_holds s s' ids l : kept s s' -> holds s ids l -> holds s' ids l.
Proof. intros [_ Hc] H. eapply Forall2_impl; [exact H|]. intros n kv E. cbn beta. by rewrite Hc. Qed.

(** The neighbours of a node of the chain. *)
Lemma path_around s a n b : exists l y z r,
  path s (a ++ n :: b) = l ++ y :: n :: z :: r /\ path s (a ++ b) = l ++ y :: z :: r.
Proof.
  unfold path. destruct (exists_last (l := head s :: a)) as (l & y & E); [done|]. destruct (b ++ [tail s]) as [|z r] eqn:Eb; [by destruct b|].
  exists l, y, z, r. rewrite <- !app_assoc. cbn [app]. rewrite Eb.
  split; [change (head s :: a ++ n :: z :: r) with ((head s :: a) ++ n :: z :: r)|change (head s :: a ++ z :: r) with ((head s :: a) ++ z :: r)];
    rewrite E, <- app_assoc; done.
Qed.
Lemma around_nodup (l : list nat) y n z r : NoDup (l ++ y :: n :: z :: r) -> NoDup (l ++ y :: z :: r) /\ n ∉ l ++ y :: z :: r.
Proof.
  assert (Hp : l ++ y :: n :: z :: r ≡ₚ n :: l ++ y :: z :: r).
  { change (l ++ y :: n :: z :: r) with (l ++ [y] ++ n :: z :: r). rewrite app_assoc, <- Permutation_middle, <- app_assoc. done. }
  rewrite Hp, NoDup_cons. tauto.
Qed.

Lemma chain_detach s a n b : chain s (a ++ n :: b) -> (forall m, m ∈ path s (a ++ n :: b) -> live s m) ->
  exists s', detach n s = Some (Ok tt, s') /\ kept s s' /\ chain s' (a ++ b) /\ n ∉ path s (a ++ b).
Proof.
  intros [Hl Hnd] Hlive. destruct (path_around s a n b) as (l & y & z & r & E1 & E2). rewrite E1 in Hl, Hnd, Hlive.
  pose proof (proj1 (linked_split _ _ _ _ _ _) Hl) as (_ & Hy & Hyp & Hr). cbn in Hr. destruct Hr as (Hz & Hzp & _).
  destruct (detach_ok s n y z Hyp Hz) as (s' & E & M); [apply Hlive; set_solver|apply Hlive; set_solver|].
  exists s'. pose proof (kept_moves _ _ _ _ M) as Hk. split_and!; [done|done| |rewrite E2; exact (proj2 (around_nodup _ _ _ _ _ Hnd))].
  split; rewrite (kept_path _ _ _ Hk), E2; [|exact (proj1 (around_nodup _ _ _ _ _ Hnd))].
  eapply linked_frame_notin; [| |exact (linked_remove _ _ _ _ _ _ _ Hnd Hl)]; intros u _; apply M.
Qed.
Lemma chain_attach s ids n : chain s ids -> (forall m, m ∈ path s ids -> live s m) -> live s n -> n ∉ path s ids ->
  exists s', attach n s = Some (Ok tt, s') /\ kept s s' /\ chain s' (n :: ids).
Proof.
  intros [Hl Hnd] Hlive Ln Hn. unfold path in *. destruct (ids ++ [tail s]) as [|z r] eqn:Eb; [by destruct ids|].
  cbn in Hl. destruct Hl as (Hz & Hzp & Hl).
  destruct (attach_ok s n z Ln) as (s' & E & M); [set_solver|done|apply Hlive; set_solver|set_solver|].
  exists s'. pose proof (kept_moves _ _ _ _ M) as Hk. split_and!; [done|done|].
  split; rewrite (kept_path _ _ _ Hk); unfold path; cbn [app]; rewrite Eb.
  - eapply linked_frame_notin; [| |apply (linked_insert (nx s) (pv s) [] (head s) n z r); [done|done|by split_and!]]; intros u _; apply M.
  - apply not_elem_of_cons in Hn as [Hnh Hnr]. apply NoDup_cons in Hnd as [Hh Hr]. apply NoDup_cons. split; [|by apply NoDup_cons].
    apply not_elem_of_cons. done.
Qed.
Lemma chain_attach_last s ids n : chain s ids -> (forall m, m ∈ path s ids -> live s m) -> live s n -> n ∉ path s ids ->
  exists s', attach_last n s = Some (Ok tt, s') /\ kept s s' /\ chain s' (ids ++ [n]).
Proof.
  intros [Hl Hnd] Hlive Ln Hn. destruct (exists_last (l := head s :: ids)) as (l & z & E); [done|].
  assert (Ep : path s ids = l ++ z :: [tail s]) by (unfold path; rewrite app_comm_cons, E, <- app_assoc; done). rewrite Ep in *.
  pose proof (proj1 (linked_split _ _ _ _ _ _) Hl) as (_ & Hz & Hzp & _).
  destruct (attach_last_ok s n z Ln) as (s' & E' & M); [set_solver|done|apply Hlive; set_solver|set_solver|].
  exists s'. pose proof (kept_moves _ _ _ _ M) as Hk. split_and!; [done|done|].
  assert (Ep' : path s' (ids ++ [n]) = l ++ z :: n :: [tail s]).
  { rewrite (kept_path _ _ _ Hk). unfold path. rewrite <- app_assoc, app_comm_cons, E, <- app_assoc. done. }
  split; rewrite Ep'.
  - pose proof (linked_insert (nx s) (pv s) l z n (tail s) [] Hnd Hn Hl) as Hi. eapply linked_frame_notin; [| |exact Hi]; intros u _; apply M.
  - assert (Hp : l ++ z :: n :: [tail s] ≡ₚ n :: l ++ z :: [tail s]).
    { change (l ++ z :: n :: [tail s]) with (l ++ [z] ++ n :: [tail s]). rewrite app_assoc, <- Permutation_middle, <- app_assoc. done. }
    rewrite Hp, NoDup_cons. done.
Qed.
End Rep.
