(* ===== verification/LruUse.v ===== *)
(** * kmem: the operations of the LRU cache

    Each operation against the list it represents, and all of them together: the
    cache cannot be told from the list. *)

From S2P Require Import Prelude Ksc Lru.
Import Errno Lru.

Section Map.
Context {K V : Type} `{EqDecision K}.
Notation cache := (LruCache K V).

Lemma key_at_ct (s : cache) n : key_at s n = ct s n ≫= fst.
Proof. unfold key_at, ct. by destruct (nodes s !! n). Qed.
Lemma holds_split (s : cache) ids l k : holds s ids l -> k ∈ l.*1 ->
  exists a n b la v lb, ids = a ++ n :: b /\ l = la ++ (k, v) :: lb /\ holds s a la /\ holds s b lb /\ ct s n = Some (Some k, Some v).
Proof.
  intros Hh Hk. apply list_elem_of_fmap in Hk as ((k', v) & -> & Hkv). apply list_elem_of_split in Hkv as (la & lb & ->).
  apply Forall2_app_inv_r in Hh as (a & b' & Ha & Hb & ->). inversion Hb as [|n kv b lb' Hn Hb']; subst. exists a, n, b, la, v, lb. done.
Qed.
Lemma holds_key (s : cache) ids l n : holds s ids l -> n ∈ ids -> exists k v, ct s n = Some (Some k, Some v) /\ k ∈ l.*1.
Proof.
  intros Hh Hn. apply list_elem_of_lookup in Hn as [i Hi]. destruct (Forall2_lookup_l _ _ _ _ _ Hh Hi) as ([k v] & Hl & Hc).
  exists k, v. split; [done|]. apply list_elem_of_fmap. exists (k, v). split; [done|]. by eapply list_elem_of_lookup_2.
Qed.
Lemma holds_len (s : cache) ids l : holds s ids l -> length ids = length l.
Proof. apply Forall2_length. Qed.
(** Equal keys are in the same node. *)
Lemma holds_inj (s : cache) ids l n m k v w : holds s ids l -> NoDup l.*1 -> n ∈ ids -> m ∈ ids ->
  ct s n = Some (Some k, v) -> ct s m = Some (Some k, w) -> n = m.
Proof.
  intros Hh Hnd Hn Hm Cn Cm. apply list_elem_of_lookup in Hn as [i Hi]. apply list_elem_of_lookup in Hm as [j Hj].
  destruct (Forall2_lookup_l _ _ _ _ _ Hh Hi) as ([k1 v1] & Hl1 & Hc1). destruct (Forall2_lookup_l _ _ _ _ _ Hh Hj) as ([k2 v2] & Hl2 & Hc2).
  cbn in *. assert (k1 = k /\ k2 = k) as [-> ->] by (split; congruence).
  assert (i = j) as -> by (eapply NoDup_lookup; [exact Hnd|rewrite list_lookup_fmap, Hl1; done|rewrite list_lookup_fmap, Hl2; done]). congruence.
Qed.

Lemma holds_except (s s' : cache) ids l n : n ∉ ids -> (forall m, m <> n -> ct s' m = ct s m) -> holds s ids l -> holds s' ids l.
Proof.
  intros Hnot Hct H. induction H as [|m kv ids l Hm' H IH]; [constructor|]. apply not_elem_of_cons in Hnot as [? ?].
  constructor; [rewrite Hct by congruence; done|by apply IH].
Qed.

Lemma keys_live_ok (s : cache) ids l : map s ≡ₚ index ids -> holds s ids l -> keys_live s = true.
Proof.
  intros Hm Hh. unfold keys_live. apply forallb_forall. intros [r n] Hin. apply list_elem_of_In in Hin. rewrite Hm in Hin.
  apply list_elem_of_fmap in Hin as (n' & [= -> ->] & Hin). destruct (holds_key _ _ _ _ Hh Hin) as (k & v & Hc & _). cbn. by rewrite key_at_ct, Hc.
Qed.
Lemma is_key_ct (s : cache) k r n : is_key s k (r, n) = true <-> exists v, ct s r = Some (Some k, v).
Proof.
  unfold is_key. cbn. rewrite bool_decide_eq_true, key_at_ct. destruct (ct s r) as [[k' v]|]; cbn; [|split; [done|intros [? [=]]]].
  split; [intros ->; by exists v|intros [w [= -> _]]; done].
Qed.
Lemma in_index (s : cache) ids r n : map s ≡ₚ index ids -> In (r, n) (map s) <-> r = n /\ n ∈ ids.
Proof. intros Hm. rewrite <- list_elem_of_In, Hm. unfold index. rewrite list_elem_of_fmap. naive_solver. Qed.

Lemma map_get_some (s : cache) ids l n k v : map s ≡ₚ index ids -> holds s ids l -> NoDup l.*1 -> n ∈ ids -> ct s n = Some (Some k, v) ->
  map_get k s = Some (Ok (Some n), s).
Proof.
  intros Hm Hh Hnd Hn Hc. unfold map_get, lget, mbind, PT_bind. rewrite (keys_live_ok s ids l Hm Hh).
  destruct (List.find (is_key s k) (map s)) as [[r m]|] eqn:E.
  - apply List.find_some in E as [Hin Hk]. apply (in_index s ids) in Hin as [-> Hin]; [|done]. apply is_key_ct in Hk as [w Hw].
    cbn. by rewrite (holds_inj s ids l n m k v w).
  - eapply List.find_none in E; [|apply (in_index s ids n n Hm); done]. rewrite (proj2 (is_key_ct s k n n)) in E; [done|by exists v].
Qed.
Lemma map_get_none (s : cache) ids l k : map s ≡ₚ index ids -> holds s ids l -> k ∉ l.*1 -> map_get k s = Some (Ok None, s).
Proof.
  intros Hm Hh Hk. unfold map_get, lget, mbind, PT_bind. rewrite (keys_live_ok s ids l Hm Hh).
  destruct (List.find (is_key s k) (map s)) as [[r m]|] eqn:E; [|done]. exfalso.
  apply List.find_some in E as [Hin Hkey]. apply (in_index s ids) in Hin as [-> Hin]; [|done]. apply is_key_ct in Hkey as [w Hw].
  destruct (holds_key _ _ _ _ Hh Hin) as (k' & v & Hc & Hk'). congruence.
Qed.
(** What [map_get] finds. *)
Lemma map_get_ok (s : cache) ids l k : rep s ids l ->
  (exists a n b la v lb, ids = a ++ n :: b /\ l = la ++ (k, v) :: lb /\ holds s a la /\ holds s b lb /\ ct s n = Some (Some k, Some v) /\
    map_get k s = Some (Ok (Some n), s)) \/ (k ∉ l.*1 /\ map_get k s = Some (Ok None, s)).
Proof.
  intros [Hc Hl Hh Hm Hk Hcap]. destruct (decide (k ∈ l.*1)) as [Hin|Hin]; [left|right; split; [done|by eapply map_get_none]].
  destruct (holds_split s ids l k Hh Hin) as (a & n & b & la & v & lb & E1 & E2 & Ha & Hb & Hn). exists a, n, b, la, v, lb. split_and!; try done.
  eapply map_get_some; try done. rewrite E1. set_solver.
Qed.

(** An entry is gone from the map. *)
Lemma map_remove_ok (s : cache) a n b l k v : map s ≡ₚ index (a ++ n :: b) -> holds s (a ++ n :: b) l -> NoDup l.*1 -> NoDup (a ++ n :: b) ->
  ct s n = Some (Some k, v) ->
  exists m', map_remove k s = Some (Ok (Some n), set_map m' s) /\ m' ≡ₚ index (a ++ b).
Proof.
  intros Hm Hh Hnd Hids Hc. assert (Hn : n ∈ a ++ n :: b) by set_solver.
  unfold map_remove. rewrite (PT_bind_Ok _ _ _ _ _ (map_get_some s _ l n k v Hm Hh Hnd Hn Hc)). eexists. split; [done|].
  assert (Hndi : forall x, NoDup x -> NoDup (index x)) by (intros x Hx; apply NoDup_fmap_2; [intros ? ? [=]; done|done]).
  assert (Hab : NoDup (a ++ b) /\ n ∉ a ++ b).
  { rewrite <- (Permutation_middle a b n) in Hids. apply NoDup_cons in Hids as [? ?]. done. }
  destruct Hab as [Hab Hnab].
  apply NoDup_Permutation.
  - apply NoDup_ListNoDup, List.NoDup_filter, NoDup_ListNoDup. rewrite Hm. by apply Hndi.
  - by apply Hndi.
  - intros [r m]. rewrite list_elem_of_In, List.filter_In, (in_index s _ r m Hm). unfold index. rewrite list_elem_of_fmap. split.
    + intros [[-> Hin] Hk]. exists m. split; [done|]. assert (m <> n).
      { intros ->. rewrite (proj2 (is_key_ct s k n n)) in Hk; [done|by exists v]. }
      set_solver.
    + intros (m' & [= -> ->] & Hin). split; [set_solver|]. destruct (is_key s k (m', m')) eqn:E; [|done].
      apply is_key_ct in E as [w Hw]. assert (m' = n) as -> by (eapply (holds_inj s (a ++ n :: b)); try done; set_solver). tauto.
Qed.
End Map.

(** ** Nodes that are there *)
Section Found.
Context {K V : Type} `{EqDecision K}.
Notation cache := (LruCache K V).

Lemma rep_path_live (s : cache) ids l m : rep s ids l -> m ∈ path s ids -> live s m.
Proof. intros Hr. apply (r_live _ _ _ Hr). Qed.
(** Other links between the same nodes. *)
Lemma rep_reorder (s s' : cache) ids ids' l l' :
  rep s ids l -> kept s s' -> chain s' ids' -> ids' ≡ₚ ids -> holds s ids' l' -> l' ≡ₚ l -> rep s' ids' l'.
Proof.
  intros [Hc Hl Hh Hm Hk Hcap] Hkept Hc' Hids Hh' Hll. pose proof Hkept as [(Em & Ec & Eh & Et) _]. constructor; [done| | | | |].
  - intros n. rewrite (kept_live _ _ _ Hkept), Hl, (kept_path _ _ _ Hkept). unfold path. by rewrite Hids.
  - by eapply kept_holds.
  - rewrite Em, Hm. unfold index. by rewrite Hids.
  - by rewrite Hll.
  - rewrite Ec, Hll. done.
Qed.
Lemma mid_perm {A} (a b : list A) x : a ++ x :: b ≡ₚ x :: a ++ b.
Proof. by rewrite Permutation_middle. Qed.

Section At.
Variables (s : cache) (a b : list nat) (n : nat) (la lb : list (K * V)) (k : K) (v : V).
Hypothesis Hr : rep s (a ++ n :: b) (la ++ (k, v) :: lb).
Hypothesis Ha : holds s a la.
Hypothesis Hb : holds s b lb.
Hypothesis Hn : ct s n = Some (Some k, Some v).

Lemma to_front_ok : exists s', to_front n s = Some (Ok tt, s') /\ kept s s' /\ rep s' (n :: a ++ b) ((k, v) :: la ++ lb).
Proof.
  destruct (chain_detach s a n b (r_chain _ _ _ Hr)) as (s1 & E1 & K1 & C1 & N1); [intros m; by apply (rep_path_live _ _ _ _ Hr)|].
  rewrite <- (kept_path _ _ (a ++ b) K1) in N1.
  assert (Hlive : forall m, m ∈ path s1 (a ++ b) -> live s1 m).
  { intros m Hm. apply (kept_live _ _ _ K1), (rep_path_live _ _ _ _ Hr). rewrite (kept_path _ _ _ K1) in Hm. unfold path in *. set_solver. }
  destruct (chain_attach s1 (a ++ b) n C1 Hlive) as (s2 & E2 & K2 & C2); [apply (kept_live _ _ _ K1); by eapply ct_live|done|].
  exists s2. unfold to_front. rewrite (PT_bind_Ok _ _ _ _ _ E1). pose proof (lru_kept_trans _ _ _ K1 K2) as K12. split_and!; [done|done|].
  eapply rep_reorder; [exact Hr|done|done|by rewrite mid_perm| |by rewrite mid_perm]. constructor; [done|]. by apply Forall2_app.
Qed.
Lemma to_back_ok : exists s', (_ ← detach n; attach_last n) s = Some (Ok tt, s') /\ rep s' (a ++ b ++ [n]) (la ++ lb ++ [(k, v)]).
Proof.
  destruct (chain_detach s a n b (r_chain _ _ _ Hr)) as (s1 & E1 & K1 & C1 & N1); [intros m; by apply (rep_path_live _ _ _ _ Hr)|].
  rewrite <- (kept_path _ _ (a ++ b) K1) in N1.
  assert (Hlive : forall m, m ∈ path s1 (a ++ b) -> live s1 m).
  { intros m Hm. apply (kept_live _ _ _ K1), (rep_path_live _ _ _ _ Hr). rewrite (kept_path _ _ _ K1) in Hm. unfold path in *. set_solver. }
  destruct (chain_attach_last s1 (a ++ b) n C1 Hlive) as (s2 & E2 & K2 & C2); [apply (kept_live _ _ _ K1); by eapply ct_live|done|].
  exists s2. rewrite (PT_bind_Ok _ _ _ _ _ E1). pose proof (lru_kept_trans _ _ _ K1 K2) as K12. split; [done|]. rewrite !app_assoc.
  eapply rep_reorder; [exact Hr|done|done| | |].
  - by rewrite Permutation_app_comm, mid_perm.
  - apply Forall2_app; [by apply Forall2_app|by repeat constructor].
  - by rewrite Permutation_app_comm, mid_perm.
Qed.

Lemma node_val_ok : node_val n s = Some (Ok v, s).
Proof.
  destruct (node_ok s n (ct_live _ _ _ Hn)) as (e & E & _ & _ & Hc & _). unfold node_val. rewrite (PT_bind_Ok _ _ _ _ _ E).
  assert (val e = Some v) as -> by congruence. done.
Qed.
Lemma set_val_ok v' : exists s', set_val n v' s = Some (Ok tt, s') /\ rep s' (a ++ n :: b) (la ++ (k, v') :: lb) /\
  holds s' a la /\ holds s' b lb /\ ct s' n = Some (Some k, Some v').
Proof.
  destruct (node_ok s n (ct_live _ _ _ Hn)) as (e & E & Hnx & Hpv & Hc & He). unfold set_val. rewrite (PT_bind_Ok _ _ _ _ _ E).
  unfold set_node. rewrite (PT_bind_Ok _ _ _ _ _ E). unfold lget, lput, mbind, PT_bind. eexists. split; [done|].
  set (s' := set_nodes _ _).
  assert (Hct : forall m, ct s' m = if decide (m = n) then Some (Some k, Some v') else ct s m).
  { intros m. unfold ct, s'. cbn. rewrite lookup_insert. repeat case_decide; subst; try done. cbn. assert (key e = Some k) as -> by congruence. done. }
  assert (Hnx' : forall m, nx s' m = nx s m) by (intros m; unfold nx, s'; cbn; rewrite lookup_insert; case_decide; subst; [by rewrite He|done]).
  assert (Hpv' : forall m, pv s' m = pv s m) by (intros m; unfold pv, s'; cbn; rewrite lookup_insert; case_decide; subst; [by rewrite He|done]).
  destruct Hr as [[Hl Hnd] Hlive Hh Hm Hk Hcap].
  assert (Hnab : n ∉ a ++ b).
  { unfold path in Hnd. apply NoDup_cons in Hnd as [_ Hnd]. rewrite <- app_assoc in Hnd. cbn [app] in Hnd. rewrite mid_perm in Hnd. apply NoDup_cons in Hnd as [Hnd _]. intros Hin. apply Hnd. rewrite app_assoc. apply elem_of_app. by left. }
  apply not_elem_of_app in Hnab as [Hna Hnb].
  assert (Hsame : forall m, m <> n -> ct s' m = ct s m) by (intros m Hne; by rewrite Hct, decide_False).
  assert (Ha' : holds s' a la) by (by eapply holds_except). assert (Hb' : holds s' b lb) by (by eapply holds_except).
  assert (Hn' : ct s' n = Some (Some k, Some v')) by (by rewrite Hct, decide_True).
  split_and!; [|done|done|done]. constructor.
  - split; [|done]. eapply linked_frame_notin; [| |exact Hl]; intros u _; [apply Hnx'|apply Hpv'].
  - intros m. transitivity (live s m); [|apply Hlive]. unfold live, s'. cbn. rewrite lookup_insert_is_Some. split; [intros [<-|[_ ?]]; [by exists e|done]|].
    intros [x Hx]. destruct (decide (n = m)); [by left|right; split; [done|by exists x]].
  - apply Forall2_app; [done|by constructor].
  - done.
  - by rewrite fmap_app in Hk |- *.
  - cbn. rewrite length_app in Hcap |- *. cbn in *. done.
Qed.
End At.
End Found.

(** ** A node that waits to be entered *)
Section Enter.
Context {K V : Type} `{EqDecision K}.
Notation cache := (LruCache K V).

Record pending (s : cache) (ids : list nat) (l : list (K * V)) (n : nat) (k : K) (v : V) : Prop := mk_pending {
  p_chain : chain s ids;
  p_live m : live s m <-> m ∈ path s ids \/ m = n;
  p_out : n ∉ path s ids;
  p_holds : holds s ids l;
  p_node : ct s n = Some (Some k, Some v);
  p_map : map s ≡ₚ index ids;
  p_keys : NoDup l.*1;
  p_cap : 0 < cap s /\ Z.of_nat (length l) < cap s;
}.

Lemma lru_enter_ok (s : cache) ids l n k v : pending s ids l n k v -> k ∉ l.*1 ->
  exists s', enter n s = Some (Ok tt, s') /\ rep s' (n :: ids) ((k, v) :: l) /\ ct s' n = Some (Some k, Some v).
Proof.
  intros [Hc Hl Hout Hh Hn Hm Hk Hcap] Hnew.
  destruct (chain_attach s ids n Hc) as (s1 & E1 & K1 & C1); [intros m Hp; apply Hl; by left|apply Hl; by right|done|].
  pose proof K1 as [(Em & Ec & Eh & Et) Hct]. assert (Hh1 : holds s1 ids l) by (by eapply kept_holds).
  assert (Hm1 : map s1 ≡ₚ index ids) by (by rewrite Em). assert (Hn1 : ct s1 n = Some (Some k, Some v)) by (by rewrite Hct).
  exists (set_map ((n, n) :: map s1) s1). unfold enter. rewrite (PT_bind_Ok _ _ _ _ _ E1). split_and!.
  - unfold map_insert, lget, lput, mbind, PT_bind. rewrite (keys_live_ok s1 ids l Hm1 Hh1), key_at_ct, Hn1. cbn.
    destruct (existsb (is_key s1 k) (map s1)) eqn:Ex; [|done]. exfalso. apply existsb_exists in Ex as ([r m] & Hin & Hkey).
    apply (in_index s1 ids) in Hin as [-> Hin]; [|done]. apply is_key_ct in Hkey as [w Hw]. destruct (holds_key _ _ _ _ Hh1 Hin) as (k' & v' & Hc' & Hk'). congruence.
  - constructor.
    + by destruct C1.
    + intros m. transitivity (live s1 m); [done|]. rewrite (kept_live _ _ _ K1), Hl. change (m ∈ path (set_map ((n, n) :: map s1) s1) (n :: ids)) with (m ∈ path s1 (n :: ids)).
      rewrite (kept_path _ _ _ K1). unfold path. rewrite <- app_comm_cons, !elem_of_cons. tauto.
    + constructor; [exact Hn1|exact Hh1].
    + cbn. by rewrite Hm1.
    + cbn. by apply NoDup_cons.
    + cbn. rewrite Ec. lia.
  - exact Hn1.
Qed.

Lemma rep_len (s : cache) ids l : rep s ids l -> len s = Some (Ok (Z.of_nat (length l)), s).
Proof.
  intros Hr. unfold len, lget, mbind, PT_bind. rewrite (Permutation_length (r_map _ _ _ Hr)). unfold index.
  rewrite length_fmap, (holds_len _ _ _ (r_holds _ _ _ Hr)). done.
Qed.
(** The last node. *)
Lemma rep_last (s : cache) ids l kv : rep s ids (l ++ [kv]) ->
  exists a n, ids = a ++ [n] /\ holds s a l /\ ct s n = Some (Some kv.1, Some kv.2) /\ pv s (tail s) = Some n /\ n <> head s.
Proof.
  intros [[Hl Hnd] _ Hh _ _ _]. apply Forall2_app_inv_r in Hh as (a & b & Ha & Hb & ->). inversion Hb as [|n ? b' ? Hn Hb']; subst. inversion Hb'; subst.
  exists a, n. split_and!; try done.
  - unfold path in Hl. rewrite <- app_assoc, app_comm_cons in Hl. apply (linked_split _ _ (head s :: a) n (tail s) []) in Hl. tauto.
  - unfold path in Hnd. apply NoDup_cons in Hnd as [Hnd _]. intros ->. apply Hnd. set_solver.
Qed.
Lemma rep_ids_nodup (s : cache) ids l : rep s ids l -> NoDup ids.
Proof. intros [[_ Hnd] _ _ _ _ _]. unfold path in Hnd. apply NoDup_cons in Hnd as [_ Hnd]. by apply NoDup_app in Hnd as [? _]. Qed.

Lemma set_map_nodes (s : cache) m : ct (set_map m s) = ct s /\ nx (set_map m s) = nx s /\ pv (set_map m s) = pv s.
Proof. done. Qed.

(** The node at the end is taken over. *)
Lemma replace_ok (s : cache) ids l ok ov k v :
  rep s ids (l ++ [(ok, ov)]) -> Z.of_nat (S (length l)) = cap s ->
  exists a n s', ids = a ++ [n] /\ replace_or_create_node k v s = Some (Ok (Some (ok, ov), n), s') /\ pending s' a l n k v.
Proof.
  intros Hr Hfull. destruct (rep_last _ _ _ _ Hr) as (a & n & -> & Ha & Hn & Htail & Hnh). cbn in Hn. exists a, n.
  pose proof (rep_ids_nodup _ _ _ Hr) as Hids. pose proof Hr as [Hc Hlive Hh Hm Hk Hcap].
  destruct (map_remove_ok s a n [] _ ok (Some ov) Hm Hh Hk Hids Hn) as (m' & Em & Hm'). rewrite app_nil_r in Hm'.
  set (s1 := set_map m' s). destruct (node_ok s n (ct_live _ _ _ Hn)) as (e & Ee & Hnx & Hpv & Hce & He).
  assert (key e = Some ok /\ val e = Some ov) as [Hek Hev] by (split; congruence).
  destruct (node_ok s (tail s) (pv_live _ _ _ Htail)) as (t & Et & _ & Htp & _).
  set (s2 := set_nodes (<[n := mk_entry (Some k) (Some v) (prev e) (next e)]> (nodes s1)) s1).
  assert (Hct : forall m, ct s2 m = if decide (m = n) then Some (Some k, Some v) else ct s m).
  { intros m. unfold ct, s2. cbn. rewrite lookup_insert. repeat case_decide; subst; done. }
  assert (Hnx2 : forall m, nx s2 m = nx s m) by (intros m; unfold nx, s2; cbn; rewrite lookup_insert; case_decide; subst; [by rewrite He|done]).
  assert (Hpv2 : forall m, pv s2 m = pv s m) by (intros m; unfold pv, s2; cbn; rewrite lookup_insert; case_decide; subst; [by rewrite He|done]).
  assert (Hl2 : forall m, live s2 m <-> live s m).
  { intros m. unfold live, s2. cbn. rewrite lookup_insert_is_Some. split; [intros [<-|[_ ?]]; [by exists e|done]|].
    intros [x Hx]. destruct (decide (n = m)); [by left|right; split; [done|by exists x]]. }
  assert (Hc2 : chain s2 (a ++ n :: [])).
  { split; [|apply Hc]. eapply linked_frame_notin; [| |apply Hc]; intros u _; [apply Hnx2|apply Hpv2]. }
  destruct (chain_detach s2 a n [] Hc2) as (s3 & E3 & K3 & C3 & N3); [intros m Hp; by apply Hl2, Hlive|]. rewrite app_nil_r in C3, N3.
  exists s3. split_and!; [done| |].
  - unfold replace_or_create_node. rewrite (PT_bind_Ok _ _ _ _ _ (rep_len _ _ _ Hr)), (PT_bind_Ok lget _ s s s) by done.
    rewrite length_app, Nat.add_comm. cbn [length Nat.add]. rewrite (proj2 (Z.eqb_eq _ _)) by done.
    rewrite (PT_bind_Ok _ _ _ _ _ Et), Htp, Htail, (PT_bind_Ok (pt_opt (Some n)) _ s n s) by done.
    rewrite (PT_bind_Ok _ _ _ _ _ Ee), Hek, (PT_bind_Ok (pt_opt (Some ok)) _ s ok s) by done.
    rewrite (PT_bind_Ok _ _ _ _ _ Em), (PT_bind_Ok (pt_opt (Some n)) _ (set_map m' s) n (set_map m' s)) by done. fold s1.
    assert (Ee1 : node n s1 = Some (Ok e, s1)) by (unfold node, lget, pt_opt, pt_res, mbind, PT_bind; cbn; by rewrite He).
    rewrite (PT_bind_Ok _ _ _ _ _ Ee1), Hek, (PT_bind_Ok (pt_opt (Some ok)) _ s1 ok s1), Hev, (PT_bind_Ok (pt_opt (Some ov)) _ s1 ov s1) by done.
    assert (Es : set_node n (mk_entry (Some k) (Some v) (prev e) (next e)) s1 = Some (Ok tt, s2)) by (unfold set_node; rewrite (PT_bind_Ok _ _ _ _ _ Ee1); done).
    rewrite (PT_bind_Ok _ _ _ _ _ Es), (PT_bind_Ok _ _ _ _ _ E3). done.
  - pose proof K3 as [(Em3 & Ec3 & Eh3 & Et3) Hct3].
    assert (Hna : n ∉ a) by (apply NoDup_app in Hids as (_ & Hd & _); intros Hin; apply (Hd n Hin); set_solver).
    constructor.
    + done.
    + intros m. rewrite (kept_live _ _ _ K3), Hl2, Hlive, (kept_path _ _ _ K3). change (path s2 a) with (path s a). unfold path. rewrite !elem_of_cons, !elem_of_app, !list_elem_of_singleton. tauto.
    + rewrite (kept_path _ _ _ K3). exact N3.
    + eapply kept_holds; [exact K3|]. eapply holds_except; [exact Hna| |exact Ha]. intros m Hne. by rewrite Hct, decide_False.
    + rewrite Hct3, Hct, decide_True by done. done.
    + by rewrite Em3.
    + rewrite fmap_app in Hk. by apply NoDup_app in Hk as [? _].
    + rewrite Ec3. cbn. lia.
Qed.

Lemma create_ok (s : cache) ids l k v : rep s ids l -> Z.of_nat (length l) <> cap s ->
  exists n s', replace_or_create_node k v s = Some (Ok (None, n), s') /\ pending s' ids l n k v.
Proof.
  intros Hr Hne. pose proof Hr as [Hc Hlive Hh Hm Hk Hcap]. set (n := fresh (dom (nodes s))).
  assert (Hn : nodes s !! n = None) by (apply (not_elem_of_dom (D := gset nat)), is_fresh).
  assert (Hout : n ∉ path s ids) by (intros Hin; apply Hlive in Hin as [e He]; congruence).
  exists n, (set_nodes (<[n := entry_new k v]> (nodes s)) s). split.
  - unfold replace_or_create_node. rewrite (PT_bind_Ok _ _ _ _ _ (rep_len _ _ _ Hr)), (PT_bind_Ok lget _ s s s) by done.
    rewrite (proj2 (Z.eqb_neq _ _)) by done. done.
  - set (s' := set_nodes _ _).
    assert (Hct : forall m, m <> n -> ct s' m = ct s m) by (intros m Hm'; unfold ct, s'; cbn; by rewrite lookup_insert_ne).
    constructor.
    + split; [|apply Hc]. eapply linked_frame_notin; [| |apply Hc]; intros u Hu; assert (u <> n) by (intros ->; done); unfold nx, pv, s'; cbn; by rewrite lookup_insert_ne.
    + intros m. unfold live, s'. cbn. rewrite lookup_insert_is_Some. split.
      * intros [->|[_ Hl]]; [by right|left; by apply Hlive].
      * intros [Hp| ->]; [|by left]. right. split; [intros <-; done|by apply Hlive].
    + exact Hout.
    + eapply holds_except; [|exact Hct|exact Hh]. unfold path in Hout. set_solver.
    + unfold ct, s'. cbn. by rewrite lookup_insert_eq.
    + done.
    + done.
    + cbn. lia.
Qed.
End Enter.

(** ** Removing *)
Section Remove.
Context {K V : Type} `{EqDecision K}.
Notation cache := (LruCache K V).

Lemma box_take_ok (s : cache) n e : nodes s !! n = Some e ->
  box_take n s = Some (Ok e, set_nodes (delete n (nodes s)) s) /\
  (forall m, m <> n -> ct (set_nodes (delete n (nodes s)) s) m = ct s m /\ nx (set_nodes (delete n (nodes s)) s) m = nx s m /\ pv (set_nodes (delete n (nodes s)) s) m = pv s m) /\
  (forall m, live (set_nodes (delete n (nodes s)) s) m <-> live s m /\ m <> n).
Proof.
  intros He. split_and!.
  - unfold box_take, node, lget, lput, pt_opt, mbind, PT_bind. rewrite He. done.
  - intros m Hm. unfold ct, nx, pv. cbn. rewrite lookup_delete_ne by done. done.
  - intros m. unfold live. cbn. rewrite lookup_delete_is_Some. naive_solver.
Qed.
(** What is left represents what is left. *)
Lemma rep_removed (s s' : cache) a n b la kv lb :
  rep s (a ++ n :: b) (la ++ kv :: lb) -> holds s a la -> holds s b lb ->
  chain s' (a ++ b) -> (forall m, live s' m <-> live s m /\ m <> n) -> (forall m, m <> n -> ct s' m = ct s m) ->
  map s' ≡ₚ index (a ++ b) -> cap s' = cap s -> head s' = head s -> tail s' = tail s -> rep s' (a ++ b) (la ++ lb).
Proof.
  intros Hr Ha Hb Hc Hl Hct Hm Ec Eh Et. pose proof Hr as [Hc0 Hlive Hh Hm0 Hk Hcap].
  assert (Hnd : n ∉ path s (a ++ b)).
  { pose proof (ch_nodup _ _ Hc0) as Hnd. destruct (path_around s a n b) as (l & y & z & r & E1 & E2). rewrite E2. rewrite E1 in Hnd.
    exact (proj2 (around_nodup _ _ _ _ _ Hnd)). }
  constructor; [done| | |done| |].
  - intros m. rewrite Hl, Hlive. assert (path s' (a ++ b) = path s (a ++ b)) as -> by (unfold path; by rewrite Eh, Et).
    assert (path s (a ++ n :: b) ≡ₚ n :: path s (a ++ b)) as ->.
    { unfold path. rewrite <- !app_assoc. cbn [app]. rewrite (mid_perm a (b ++ [tail s]) n). apply Permutation_swap. }
    rewrite elem_of_cons. split; [intuition congruence|]. intros Hin. split; [by right|]. by intros ->.
  - eapply holds_except; [|exact Hct|by apply Forall2_app]. unfold path in Hnd. set_solver.
  - rewrite mid_perm in Hk. cbn in Hk. by apply NoDup_cons in Hk as [_ ?].
  - rewrite Ec. rewrite mid_perm in Hcap. cbn in Hcap. lia.
Qed.

Lemma remove_ok (s : cache) a b n la lb k v :
  rep s (a ++ n :: b) (la ++ (k, v) :: lb) -> holds s a la -> holds s b lb -> ct s n = Some (Some k, Some v) ->
  exists e s1 s2 s', map_remove k s = Some (Ok (Some n), s1) /\ box_take n s1 = Some (Ok e, s2) /\ unlink e s2 = Some (Ok tt, s') /\
    key e = Some k /\ val e = Some v /\ rep s' (a ++ b) (la ++ lb).
Proof.
  intros Hr Ha Hb Hn. pose proof (rep_ids_nodup _ _ _ Hr) as Hids. pose proof Hr as [Hc Hlive Hh Hm Hk Hcap].
  destruct (map_remove_ok s a n b _ k (Some v) Hm Hh Hk Hids Hn) as (m' & Em & Hm').
  destruct (node_ok s n (ct_live _ _ _ Hn)) as (e & Ee & Hnx & Hpv & Hce & He). set (s1 := set_map m' s).
  destruct (box_take_ok s1 n e He) as (Et & Hv & Hl2). set (s2 := set_nodes (delete n (nodes s1)) s1) in *.
  destruct (path_around s a n b) as (l & y & z & r & E1 & E2). pose proof Hc as [Hlk Hnd]. rewrite E1 in Hlk, Hnd.
  pose proof (proj1 (linked_split _ _ _ _ _ _) Hlk) as (_ & Hy & Hyp & Hrr). cbn in Hrr. destruct Hrr as (Hz & Hzp & _).
  destruct (around_nodup _ _ _ _ _ Hnd) as [Hnd' Hnot].
  assert (Hlv : forall m, m ∈ path s (a ++ b) -> live s2 m).
  { intros m Hin. apply Hl2. split; [|intros ->; by rewrite E2 in Hin]. apply Hlive. rewrite E1. rewrite E2 in Hin. clear -Hin. set_solver. }
  destruct (unlink_ok s2 e y z) as (s3 & E3 & M3); [congruence|congruence|apply Hlv; rewrite E2; clear; set_solver|apply Hlv; rewrite E2; clear; set_solver|].
  exists e, s1, s2, s3. split_and!; try done; [congruence|congruence|].
  pose proof (kept_moves _ _ _ _ M3) as K3. pose proof K3 as [(Em3 & Ec3 & Eh3 & Et3) Hct3].
  eapply rep_removed; try done.
  - split; rewrite (kept_path _ _ _ K3); change (path s2 (a ++ b)) with (path s (a ++ b)); rewrite E2; [|done].
    eapply linked_frame_notin; [| |exact (linked_remove _ _ _ _ _ _ _ Hnd Hlk)]; intros u Hu; (assert (u <> n) by (intros ->; done));
      destruct M3 as (_ & _ & Mn & Mp); [rewrite Mn|rewrite Mp]; case_decide; try done; by apply Hv.
  - intros m. rewrite (kept_live _ _ _ K3). apply Hl2.
  - intros m Hne. rewrite Hct3. by apply Hv.
  - by rewrite Em3.
Qed.

Lemma remove_last_ok (s : cache) ids l k v : rep s ids (l ++ [(k, v)]) ->
  exists a e s', remove_last s = Some (Ok (Some e), s') /\ key e = Some k /\ val e = Some v /\ rep s' a l.
Proof.
  intros Hr. destruct (rep_last _ _ _ _ Hr) as (a & n & -> & Ha & Hn & Htail & Hnh). cbn in Hn.
  pose proof (rep_ids_nodup _ _ _ Hr) as Hids. pose proof Hr as [Hc Hlive Hh Hm Hk Hcap].
  destruct (map_remove_ok s a n [] _ k (Some v) Hm Hh Hk Hids Hn) as (m' & Em & Hm'). set (s1 := set_map m' s).
  destruct (node_ok s n (ct_live _ _ _ Hn)) as (e0 & Ee & _ & _ & Hce & _). destruct (node_ok s (tail s) (pv_live _ _ _ Htail)) as (t & Et & _ & Htp & _).
  assert (Hc1 : chain s1 (a ++ n :: [])) by (by destruct Hc).
  destruct (chain_detach s1 a n [] Hc1) as (s2 & E2 & K2 & C2 & N2); [intros m Hp; by apply Hlive|].
  pose proof K2 as [(Em2 & Ec2 & Eh2 & Et2) Hct2].
  destruct (node_ok s2 n) as (e & Ee2 & _ & _ & Hce2 & He2); [apply (kept_live _ _ _ K2); by eapply ct_live|].
  destruct (box_take_ok s2 n e He2) as (Et3 & Hv & Hl3). set (s3 := set_nodes (delete n (nodes s2)) s2) in *.
  assert (Hc3 : ct s2 n = Some (Some k, Some v)) by (by rewrite Hct2).
  exists a, e, s3. split_and!; [|congruence|congruence|].
  - unfold remove_last. rewrite (PT_bind_Ok lget _ s s s), (PT_bind_Ok _ _ _ _ _ Et), Htp, Htail by done. rewrite bool_decide_false by congruence.
    rewrite (PT_bind_Ok (pt_opt (Some n)) _ s n s), (PT_bind_Ok _ _ _ _ _ Ee) by done. assert (key e0 = Some k) as -> by congruence.
    rewrite (PT_bind_Ok (pt_opt (Some k)) _ s k s), (PT_bind_Ok _ _ _ _ _ Em) by done.
    rewrite (PT_bind_Ok (pt_opt (Some n)) _ (set_map m' s) n (set_map m' s)) by done. fold s1.
    rewrite (PT_bind_Ok _ _ _ _ _ E2), (PT_bind_Ok _ _ _ _ _ Et3). done.
  - rewrite <- (kept_path _ _ _ K2) in N2. pose proof (rep_removed s s3 a n [] l (k, v) [] Hr Ha (List.Forall2_nil _)) as Hrem.
    rewrite !app_nil_r in *. apply Hrem; try done.
    + split; [|apply C2]. eapply linked_frame_notin; [| |apply C2]; intros u Hu; (assert (u <> n) by (intros ->; done)); by apply Hv.
    + intros m. rewrite Hl3, (kept_live _ _ _ K2). done.
    + intros m Hne. destruct (Hv m Hne) as [-> _]. apply Hct2.
    + cbn. by rewrite Em2.
Qed.
Lemma remove_last_none (s : cache) ids : rep s ids [] -> remove_last s = Some (Ok None, s).
Proof.
  intros [[Hl Hnd] _ Hh _ _ _]. inversion Hh; subst. unfold path in *. cbn in Hl. destruct Hl as (_ & Ht & _).
  destruct (node_ok s (tail s) (pv_live _ _ _ Ht)) as (t & Et & _ & Htp & _). unfold remove_last.
  rewrite (PT_bind_Ok lget _ s s s), (PT_bind_Ok _ _ _ _ _ Et), Htp, Ht by done. by rewrite bool_decide_true.
Qed.
End Remove.
