(* ===== verification/LruRef.v ===== *)
(** * kmem: the LRU cache against its reference

    The reference is a capacity and a list of entries.  A program of operations has
    the same results on both, and a cache that is dropped leaves nothing allocated. *)

From S2P Require Import Prelude Ksc Lru LruUse.
Import Errno Lru.

(** ** The capacity stays *)
Section Steady.
Context {K V : Type} `{EqDecision K}.
Notation M := (PT (LruCache K V) Error).

Definition steady {A} (m : M A) : Prop := forall s r s', m s = Some (r, s') -> cap s' = cap s.
Lemma steady_bind {A B} (m : M A) (f : A -> M B) : steady m -> (forall a, steady (f a)) -> steady (m ≫= f).
Proof.
  intros Hm Hf s r s'. unfold mbind, PT_bind. destruct (m s) as [[[a|e|] s1]|] eqn:E; try (intros [= <- <-]; by eapply Hm); try done.
  intros E2. rewrite (Hf a s1 r s' E2). by eapply Hm.
Qed.
Lemma steady_ret {A} (a : A) : steady (mret a).
Proof. intros s r s' [= <- <-]. done. Qed.
Lemma steady_res {A} (x : res Error A) : steady (pt_res x).
Proof. intros s r s' [= <- <-]. done. Qed.
Lemma steady_opt {A} (x : option A) : steady (pt_opt x).
Proof. apply steady_res. Qed.
Lemma steady_get : steady lget.
Proof. intros s r s' [= <- <-]. done. Qed.
(** A state that is stored is the one that was read, changed in other places. *)
Lemma steady_put {A} (f : LruCache K V -> LruCache K V) (g : LruCache K V -> M A) :
  (forall s, cap (f s) = cap s) -> (forall s, steady (g s)) -> steady (s ← lget; _ ← lput (f s); g s).
Proof. intros Hf Hg s r s' E. unfold lget, lput, mbind, PT_bind in E. apply Hg in E. by rewrite Hf in E. Qed.
Lemma steady_put_end (f : LruCache K V -> LruCache K V) : (forall s, cap (f s) = cap s) -> steady (s ← lget; lput (f s)).
Proof. intros Hf s r s' E. unfold lget, lput, mbind, PT_bind in E. injection E as <- <-. by rewrite Hf. Qed.
End Steady.

Create HintDb steady discriminated.
#[export] Hint Resolve steady_ret steady_res steady_opt steady_get : steady.
Ltac steady :=
  repeat first
    [ solve [auto with steady nocore]
    | lazymatch goal with
      | |- steady (match ?x with _ => _ end) => destruct x
      | |- steady (mbind _ _) => first [ apply steady_put; [done|intros ?] | apply steady_put_end; done | apply steady_bind; [|intros ?] ]
      end ].

Section SteadyOps.
Context {K V : Type} `{EqDecision K}.
Lemma steady_node n : steady (node (K := K) (V := V) n).
Proof. unfold node. steady. Qed.
Hint Resolve steady_node : steady.
Lemma steady_set_node n e : steady (set_node (K := K) (V := V) n e).
Proof. unfold set_node. steady. Qed.
Hint Resolve steady_set_node : steady.
Lemma steady_set_next n x : steady (set_next (K := K) (V := V) n x).
Proof. unfold set_next. steady. Qed.
Lemma steady_set_prev n x : steady (set_prev (K := K) (V := V) n x).
Proof. unfold set_prev. steady. Qed.
Lemma steady_set_val n x : steady (set_val (K := K) (V := V) n x).
Proof. unfold set_val. steady. Qed.
Lemma steady_box_new e : steady (box_new (K := K) (V := V) e).
Proof. unfold box_new. steady. Qed.
Lemma steady_box_take n : steady (box_take (K := K) (V := V) n).
Proof. unfold box_take. steady. Qed.
Lemma steady_map_get k : steady (map_get (K := K) (V := V) k).
Proof. unfold map_get. steady. Qed.
Hint Resolve steady_set_next steady_set_prev steady_set_val steady_box_new steady_box_take steady_map_get : steady.
Lemma steady_map_remove k : steady (map_remove (K := K) (V := V) k).
Proof. unfold map_remove. steady. Qed.
Lemma steady_map_insert r n : steady (map_insert (K := K) (V := V) r n).
Proof.
  intros s x s' E. unfold map_insert, lget, lput, pt_opt, pt_res, mbind, PT_bind in E. destruct (keys_live s); [|by injection E as <- <-].
  destruct (key_at s r); cbn in E; [|by injection E as <- <-]. destruct (existsb _ _); by injection E as <- <-.
Qed.
Lemma steady_unlink e : steady (unlink (K := K) (V := V) e).
Proof. unfold unlink. steady. Qed.
Hint Resolve steady_map_remove steady_map_insert steady_unlink : steady.
Lemma steady_detach n : steady (detach (K := K) (V := V) n).
Proof. unfold detach. steady. Qed.
Lemma steady_attach n : steady (attach (K := K) (V := V) n).
Proof. unfold attach. steady. Qed.
Lemma steady_attach_last n : steady (attach_last (K := K) (V := V) n).
Proof. unfold attach_last. steady. Qed.
Lemma steady_len : steady (len (K := K) (V := V)).
Proof. unfold len. steady. Qed.
Hint Resolve steady_detach steady_attach steady_attach_last steady_len : steady.
Lemma steady_replace k v : steady (replace_or_create_node (K := K) (V := V) k v).
Proof. unfold replace_or_create_node. steady. Qed.
Lemma steady_enter n : steady (enter (K := K) (V := V) n).
Proof. unfold enter. steady. Qed.
Lemma steady_to_front n : steady (to_front (K := K) (V := V) n).
Proof. unfold to_front. steady. Qed.
Lemma steady_node_val n : steady (node_val (K := K) (V := V) n).
Proof. unfold node_val. steady. Qed.
Lemma steady_remove_last : steady (remove_last (K := K) (V := V)).
Proof. unfold remove_last. steady. Qed.
End SteadyOps.
#[export] Hint Resolve steady_node steady_set_node steady_set_next steady_set_prev steady_set_val steady_box_new steady_box_take steady_map_get
  steady_map_remove steady_map_insert steady_unlink steady_detach steady_attach steady_attach_last steady_len
  steady_replace steady_enter steady_to_front steady_node_val steady_remove_last : steady.

(** ** The reference *)
Section Ref.
Context {K V : Type} `{EqDecision K}.
Notation M := (PT (LruCache K V) Error).

Inductive lru_op :=
| Put (k : K) (v : V) | Push (k : K) (v : V) | Get (k : K) | GetMut (k : K) (f : V -> V)
| GetOrInsert (k : K) (d : V) | GetOrInsertMut (k : K) (d : V) (f : V -> V)
| Peek (k : K) | PeekMut (k : K) (f : V -> V) | PeekLru | Contains (k : K)
| Pop (k : K) | PopEntry (k : K) | PopLru | Promote (k : K) | Demote (k : K)
| Len | IsEmpty | Resize (c : Z) | Clear
| Walk (fronts : list bool) | WalkMut (fronts : list bool) (f : K -> V -> V).
Inductive lru_out :=
| OUnit | OVal (v : option V) | OEntry (e : option (K * V)) | OBool (b : bool) | ONum (z : Z) | OItems (l : list (option (K * V))).

Definition find_key (k : K) (l : list (K * V)) : option V := snd <$> List.find (fun e => bool_decide (e.1 = k)) l.
Definition del_key (k : K) (l : list (K * V)) : list (K * V) := List.filter (fun e => negb (bool_decide (e.1 = k))) l.
Definition set_key (k : K) (v : V) (l : list (K * V)) : list (K * V) := (fun e => if bool_decide (e.1 = k) then (k, v) else e) <$> l.
(** Room for one more: what goes, and what stays. *)
Definition make_room (c : Z) (l : list (K * V)) : option (K * V) * list (K * V) :=
  if Z.of_nat (length l) =? c then (last l, removelast l) else (None, l).
(** From the front ([true]) and from the back, with what the caller makes of the values. *)
Fixpoint walk (f : K -> V -> V) (fronts : list bool) (l : list (K * V)) : list (option (K * V)) * list (K * V) :=
  match fronts with
  | [] => ([], l)
  | true :: fronts =>
      match l with
      | [] => let '(os, l) := walk f fronts l in (None :: os, l)
      | (k, v) :: l => let '(os, l) := walk f fronts l in (Some (k, v) :: os, (k, f k v) :: l)
      end
  | false :: fronts =>
      match last l with
      | None => let '(os, l) := walk f fronts l in (None :: os, l)
      | Some (k, v) => let '(os, l) := walk f fronts (removelast l) in (Some (k, v) :: os, l ++ [(k, f k v)])
      end
  end.

Definition ref_op (o : lru_op) (c : Z) (l : list (K * V)) : lru_out * Z * list (K * V) :=
  match o with
  | Put k v => match find_key k l with Some old => (OVal (Some old), c, (k, v) :: del_key k l) | None => (OVal None, c, (k, v) :: (make_room c l).2) end
  | Push k v => match find_key k l with Some old => (OEntry (Some (k, old)), c, (k, v) :: del_key k l) | None => (OEntry (make_room c l).1, c, (k, v) :: (make_room c l).2) end
  | Get k => match find_key k l with Some v => (OVal (Some v), c, (k, v) :: del_key k l) | None => (OVal None, c, l) end
  | GetMut k f => match find_key k l with Some v => (OVal (Some v), c, (k, f v) :: del_key k l) | None => (OVal None, c, l) end
  | GetOrInsert k d => match find_key k l with Some v => (OVal (Some v), c, (k, v) :: del_key k l) | None => (OVal (Some d), c, (k, d) :: (make_room c l).2) end
  | GetOrInsertMut k d f => match find_key k l with Some v => (OVal (Some v), c, (k, f v) :: del_key k l) | None => (OVal (Some d), c, (k, f d) :: (make_room c l).2) end
  | Peek k => (OVal (find_key k l), c, l)
  | PeekMut k f => match find_key k l with Some v => (OVal (Some v), c, set_key k (f v) l) | None => (OVal None, c, l) end
  | PeekLru => (OEntry (last l), c, l)
  | Contains k => (OBool (bool_decide (k ∈ l.*1)), c, l)
  | Pop k => (OVal (find_key k l), c, del_key k l)
  | PopEntry k => (OEntry ((fun v => (k, v)) <$> find_key k l), c, del_key k l)
  | PopLru => (OEntry (last l), c, removelast l)
  | Promote k => match find_key k l with Some v => (OUnit, c, (k, v) :: del_key k l) | None => (OUnit, c, l) end
  | Demote k => match find_key k l with Some v => (OUnit, c, del_key k l ++ [(k, v)]) | None => (OUnit, c, l) end
  | Len => (ONum (Z.of_nat (length l)), c, l)
  | IsEmpty => (OBool (bool_decide (l = [])), c, l)
  | Resize c' => (OUnit, c', take (Z.to_nat c') l)
  | Clear => (OUnit, c, [])
  | Walk fronts => (OItems (walk (fun _ v => v) fronts l).1, c, l)
  | WalkMut fronts f => let '(os, l) := walk f fronts l in (OItems os, c, l)
  end.

(** ** The cache *)
Fixpoint walk_iter (fronts : list bool) (i : Iter) : M (list (option (K * V))) :=
  match fronts with
  | [] => mret []
  | b :: fronts => '(o, i) ← (if b : bool then iter_next i else iter_next_back i); os ← walk_iter fronts i; mret (o :: os)
  end.
Fixpoint walk_iter_mut (f : K -> V -> V) (fronts : list bool) (i : Iter) : M (list (option (K * V))) :=
  match fronts with
  | [] => mret []
  | b :: fronts => '(o, i) ← (if b : bool then iter_mut_next f i else iter_mut_next_back f i); os ← walk_iter_mut f fronts i; mret (o :: os)
  end.
Definition exec_op (n : nat) (o : lru_op) : M lru_out :=
  match o with
  | Put k v => r ← put k v; mret (OVal r)
  | Push k v => r ← push k v; mret (OEntry r)
  | Get k => r ← get k; mret (OVal r)
  | GetMut k f => r ← get_mut k f; mret (OVal r)
  | GetOrInsert k d => r ← get_or_insert k d; mret (OVal (Some r))
  | GetOrInsertMut k d f => r ← get_or_insert_mut k d f; mret (OVal (Some r))
  | Peek k => r ← peek k; mret (OVal r)
  | PeekMut k f => r ← peek_mut k f; mret (OVal r)
  | PeekLru => r ← peek_lru; mret (OEntry r)
  | Contains k => r ← contains k; mret (OBool r)
  | Pop k => r ← pop k; mret (OVal r)
  | PopEntry k => r ← pop_entry k; mret (OEntry r)
  | PopLru => r ← pop_lru; mret (OEntry r)
  | Promote k => _ ← promote k; mret OUnit
  | Demote k => _ ← demote k; mret OUnit
  | Len => r ← len; mret (ONum r)
  | IsEmpty => r ← is_empty; mret (OBool r)
  | Resize c => _ ← resize n c; mret OUnit
  | Clear => _ ← clear n; mret OUnit
  | Walk fronts => i ← iter; r ← walk_iter fronts i; mret (OItems r)
  | WalkMut fronts f => i ← iter; r ← walk_iter_mut f fronts i; mret (OItems r)
  end.
(** [NonZeroUsize] *)
Definition op_ok (o : lru_op) : Prop := match o with Resize c => 0 < c | _ => True end.

(** ** Keys in the list *)
Lemma keys_split k v (la lb : list (K * V)) : NoDup (la ++ (k, v) :: lb).*1 -> k ∉ la.*1 /\ k ∉ lb.*1.
Proof.
  rewrite fmap_app. cbn. intros Hnd. rewrite NoDup_app, NoDup_cons in Hnd. destruct Hnd as (_ & H1 & H2 & _). split; [|done]. intros Hin. apply (H1 k Hin). by left.
Qed.
Lemma find_key_none k (l : list (K * V)) : k ∉ l.*1 -> find_key k l = None.
Proof.
  intros Hk. unfold find_key. destruct (List.find _ _) as [[k' v]|] eqn:E; [|done]. apply List.find_some in E as [Hin E]. apply bool_decide_eq_true in E. cbn in E. subst k'.
  exfalso. apply Hk, list_elem_of_fmap. exists (k, v). split; [done|]. by apply list_elem_of_In.
Qed.
Lemma find_key_some k v (la lb : list (K * V)) : k ∉ la.*1 -> find_key k (la ++ (k, v) :: lb) = Some v.
Proof.
  unfold find_key. induction la as [|[k' v'] la IH]; cbn; intros Hk; [by rewrite bool_decide_true|].
  apply not_elem_of_cons in Hk as [Hne Hk]. rewrite bool_decide_false by congruence. by apply IH.
Qed.
Lemma del_key_none k (l : list (K * V)) : k ∉ l.*1 -> del_key k l = l.
Proof.
  unfold del_key. induction l as [|[k' v'] l IH]; cbn; intros Hk; [done|]. apply not_elem_of_cons in Hk as [Hne Hk].
  rewrite bool_decide_false by congruence. cbn. by rewrite IH.
Qed.
Lemma del_key_some k v (la lb : list (K * V)) : k ∉ la.*1 -> k ∉ lb.*1 -> del_key k (la ++ (k, v) :: lb) = la ++ lb.
Proof.
  intros Ha Hb. unfold del_key. rewrite List.filter_app. cbn. rewrite bool_decide_true by done. cbn.
  fold (del_key k la) (del_key k lb). by rewrite !del_key_none.
Qed.
Lemma set_key_none k v (l : list (K * V)) : k ∉ l.*1 -> set_key k v l = l.
Proof.
  unfold set_key. induction l as [|[k' v'] l IH]; cbn; intros Hk; [done|]. apply not_elem_of_cons in Hk as [Hne Hk].
  rewrite bool_decide_false by congruence. by rewrite IH.
Qed.
Lemma set_key_some k v w (la lb : list (K * V)) : k ∉ la.*1 -> k ∉ lb.*1 -> set_key k w (la ++ (k, v) :: lb) = la ++ (k, w) :: lb.
Proof.
  intros Ha Hb. unfold set_key. rewrite fmap_app. cbn. rewrite bool_decide_true by done.
  fold (set_key k w la) (set_key k w lb). by rewrite !set_key_none.
Qed.

(** ** One operation *)
Lemma insert_ok (s : LruCache K V) ids l k v : rep s ids l -> k ∉ l.*1 ->
  exists n s1 s2 ids', replace_or_create_node k v s = Some (Ok ((make_room (cap s) l).1, n), s1) /\ enter n s1 = Some (Ok tt, s2) /\
    rep s2 (n :: ids') ((k, v) :: (make_room (cap s) l).2) /\ holds s2 ids' (make_room (cap s) l).2 /\ ct s2 n = Some (Some k, Some v).
Proof.
  intros Hr Hk. pose proof (r_cap _ _ _ Hr) as Hcap. unfold make_room. destruct (Z.eqb_spec (Z.of_nat (length l)) (cap s)) as [Hfull|Hfull].
  - destruct (exists_last (l := l)) as (l' & [ok ov] & ->); [intros ->; cbn in *; lia|]. rewrite last_snoc, removelast_last.
    rewrite length_app in Hfull. cbn in Hfull. destruct (replace_ok s ids l' ok ov k v Hr) as (a & n & s1 & _ & E1 & Hp); [lia|].
    rewrite fmap_app in Hk. destruct (lru_enter_ok s1 a l' n k v Hp) as (s2 & E2 & Hr2 & Hn2); [set_solver|].
    exists n, s1, s2, a. pose proof (r_holds _ _ _ Hr2) as Hh. inversion Hh; subst. done.
  - destruct (create_ok s ids l k v Hr Hfull) as (n & s1 & E1 & Hp). destruct (lru_enter_ok s1 ids l n k v Hp Hk) as (s2 & E2 & Hr2 & Hn2).
    exists n, s1, s2, ids. pose proof (r_holds _ _ _ Hr2) as Hh. inversion Hh; subst. done.
Qed.
Lemma through_ok (s : LruCache K V) a n b la k v lb f :
  rep s (a ++ n :: b) (la ++ (k, v) :: lb) -> holds s a la -> holds s b lb -> ct s n = Some (Some k, Some v) ->
  exists s', through n f s = Some (Ok v, s') /\ rep s' (a ++ n :: b) (la ++ (k, f v) :: lb).
Proof.
  intros Hr Ha Hb Hn. destruct (set_val_ok s a b n la lb k v Hr Ha Hb Hn (f v)) as (s' & E & Hr' & _). exists s'.
  unfold through. rewrite (PT_bind_Ok _ _ _ _ _ (node_val_ok s n k v Hn)), (PT_bind_Ok _ _ _ _ _ E). done.
Qed.
Lemma front_at (s : LruCache K V) a n b la k v lb :
  rep s (a ++ n :: b) (la ++ (k, v) :: lb) -> holds s a la -> holds s b lb -> ct s n = Some (Some k, Some v) ->
  exists s', to_front n s = Some (Ok tt, s') /\ rep s' ([] ++ n :: a ++ b) ([] ++ (k, v) :: la ++ lb) /\ holds s' [] [] /\ holds s' (a ++ b) (la ++ lb) /\
    ct s' n = Some (Some k, Some v).
Proof.
  intros Hr Ha Hb Hn. destruct (to_front_ok s a b n la lb k v Hr Ha Hb Hn) as (s' & E & Hk & Hr'). exists s'. split_and!; try done; [constructor| |].
  - pose proof (r_holds _ _ _ Hr') as Hh. by inversion Hh.
  - destruct Hk as [_ Hc]. by rewrite Hc.
Qed.

(** The key is there, or it is not. *)
Ltac by_key Hr k :=
  let a := fresh "a" in let n := fresh "n" in let b := fresh "b" in let la := fresh "la" in let v := fresh "v" in let lb := fresh "lb" in
  destruct (map_get_ok _ _ _ k Hr) as [(a & n & b & la & v & lb & -> & -> & Ha & Hb & Hn & Emap)|[Hk Emap]];
  [ destruct (keys_split _ _ _ _ (r_keys _ _ _ Hr)) as [Hka Hkb]; rewrite ?(find_key_some _ _ _ _ Hka), ?(del_key_some _ _ _ _ Hka Hkb)
  | rewrite ?(find_key_none _ _ Hk), ?(del_key_none _ _ Hk) ];
  rewrite ?(PT_bind_Ok _ _ _ _ _ Emap).

Lemma capturing_put_ok (s : LruCache K V) ids l k v capture : rep s ids l ->
  exists s' ids', capturing_put k v capture s = Some (Ok (match find_key k l with Some old => Some (k, old) | None => if capture then (make_room (cap s) l).1 else None end), s') /\
    rep s' ids' (match find_key k l with Some _ => (k, v) :: del_key k l | None => (k, v) :: (make_room (cap s) l).2 end).
Proof.
  intros Hr. unfold capturing_put. by_key Hr k.
  - destruct (node_ok s n (ct_live _ _ _ Hn)) as (e & Ee & _ & _ & Hc & _). rewrite (PT_bind_Ok _ _ _ _ _ Ee).
    assert (val e = Some v0) as -> by congruence. rewrite (PT_bind_Ok (pt_opt (Some v0)) _ s v0 s) by done.
    destruct (set_val_ok s a b n la lb k v0 Hr Ha Hb Hn v) as (s1 & E1 & Hr1 & Ha1 & Hb1 & Hn1). rewrite (PT_bind_Ok _ _ _ _ _ E1).
    destruct (front_at s1 a n b la k v lb Hr1 Ha1 Hb1 Hn1) as (s2 & E2 & Hr2 & _). rewrite (PT_bind_Ok _ _ _ _ _ E2). by exists s2, (n :: a ++ b).
  - destruct (insert_ok s ids l k v Hr Hk) as (n & s1 & s2 & ids' & E1 & E2 & Hr2 & _). rewrite (PT_bind_Ok _ _ _ _ _ E1). cbn beta iota.
    rewrite (PT_bind_Ok _ _ _ _ _ E2). by exists s2, (n :: ids').
Qed.
End Ref.
