(* ===== verification/LruEquiv.v ===== *)
(** * kmem: the LRU cache is its reference

    Every operation of the cache returns what the reference returns and leaves the
    cache in a state that represents the reference's list; from this, the equivalence
    of whole programs, from the constructor to [drop]. *)

From S2P Require Import Prelude Ksc Lru LruUse LruRef.
Import Errno Lru.

Section Equiv.
Context {K V : Type} `{EqDecision K}.
Notation M := (PT (LruCache K V) Error).
Notation cache := (LruCache K V).

(** ** Keys *)
Ltac by_key Hr k :=
  let a := fresh "a" in let n := fresh "n" in let b := fresh "b" in let la := fresh "la" in let v := fresh "v" in let lb := fresh "lb" in
  destruct (map_get_ok _ _ _ k Hr) as [(a & n & b & la & v & lb & -> & -> & Ha & Hb & Hn & Emap)|[Hk Emap]];
  [ destruct (keys_split _ _ _ _ (r_keys _ _ _ Hr)) as [Hka Hkb]; rewrite ?(find_key_some _ _ _ _ Hka), ?(del_key_some _ _ _ _ Hka Hkb)
  | rewrite ?(find_key_none _ _ Hk), ?(del_key_none _ _ Hk) ];
  rewrite ?(PT_bind_Ok _ _ _ _ _ Emap).

(** [m] returns [o] and leaves a cache with the entries [l]. *)
Definition gives {A} (m : M A) (s : cache) (o : A) (l : list (K * V)) : Prop :=
  exists s' ids, m s = Some (Ok o, s') /\ rep s' ids l.
Lemma gives_ret {A} s ids l (o : A) : rep s ids l -> gives (mret o) s o l.
Proof. intros Hr. by exists s, ids. Qed.
Lemma gives_map {A B} (m : M A) s o l (f : A -> B) : gives m s o l -> gives (r ← m; mret (f r)) s (f o) l.
Proof. intros (s' & ids & E & Hr). exists s', ids. by rewrite (PT_bind_Ok _ _ _ _ _ E). Qed.
Lemma gives_bind {A B} (m : M A) (f : A -> M B) s a s1 o l : m s = Some (Ok a, s1) -> gives (f a) s1 o l -> gives (m ≫= f) s o l.
Proof. intros E (s' & ids & E' & Hr). exists s', ids. by rewrite (PT_bind_Ok _ _ _ _ _ E). Qed.

Lemma gives_eq {A} (m : M A) s o o' l l' : gives m s o l -> o = o' -> l = l' -> gives m s o' l'.
Proof. by intros H -> ->. Qed.
Lemma exists_last_or {A} (l : list A) : l = [] \/ exists l' x, l = l' ++ [x].
Proof. destruct l as [|x l] using rev_ind; [by left|]. right. by exists l, x. Qed.

(** ** The operations *)
Section Op.
Variables (s : cache) (ids : list nat) (l : list (K * V)).
Hypothesis Hr : rep s ids l.

Lemma put_gives k v : gives (put k v) s (find_key k l) (match find_key k l with Some _ => (k, v) :: del_key k l | None => (k, v) :: (make_room (cap s) l).2 end).
Proof.
  destruct (capturing_put_ok s ids l k v false Hr) as (s' & ids' & E & Hr'). exists s', ids'. unfold put.
  rewrite (PT_bind_Ok _ _ _ _ _ E). split; [|done]. by destruct (find_key k l).
Qed.
Lemma push_gives k v : gives (push k v) s (match find_key k l with Some old => Some (k, old) | None => (make_room (cap s) l).1 end)
  (match find_key k l with Some _ => (k, v) :: del_key k l | None => (k, v) :: (make_room (cap s) l).2 end).
Proof. destruct (capturing_put_ok s ids l k v true Hr) as (s' & ids' & E & Hr'). by exists s', ids'. Qed.
Lemma get_gives k : gives (get k) s (find_key k l) (match find_key k l with Some v => (k, v) :: del_key k l | None => l end).
Proof.
  unfold get. by_key Hr k; (eapply gives_bind; [done|]); [|by exists s, ids]. destruct (front_at s a n b la k v lb Hr Ha Hb Hn) as (s2 & E2 & Hr2 & _ & _ & Hn2).
  eapply gives_bind; [done|]. exists s2, (n :: a ++ b). by rewrite (PT_bind_Ok _ _ _ _ _ (node_val_ok _ _ _ _ Hn2)).
Qed.
Lemma get_mut_gives k f : gives (get_mut k f) s (find_key k l) (match find_key k l with Some v => (k, f v) :: del_key k l | None => l end).
Proof.
  unfold get_mut. by_key Hr k; (eapply gives_bind; [done|]); [|by exists s, ids]. destruct (front_at s a n b la k v lb Hr Ha Hb Hn) as (s2 & E2 & Hr2 & Ha2 & Hb2 & Hn2).
  destruct (through_ok s2 _ _ _ _ k v _ f Hr2 Ha2 Hb2 Hn2) as (s3 & E3 & Hr3). do 2 (eapply gives_bind; [done|]). by exists s3, (n :: a ++ b).
Qed.
Lemma get_or_insert_gives k d : gives (get_or_insert k d) s (default d (find_key k l))
  (match find_key k l with Some v => (k, v) :: del_key k l | None => (k, d) :: (make_room (cap s) l).2 end).
Proof.
  unfold get_or_insert. by_key Hr k.
  - destruct (front_at s a n b la k v lb Hr Ha Hb Hn) as (s2 & E2 & Hr2 & _ & _ & Hn2).
    eapply gives_bind; [done|]. eapply gives_bind; [done|]. exists s2, (n :: a ++ b). by rewrite (node_val_ok _ _ _ _ Hn2).
  - destruct (insert_ok s ids l k d Hr Hk) as (n & s1 & s2 & ids' & E1 & E2 & Hr2 & _ & Hn2).
    eapply gives_bind; [done|]. eapply gives_bind; [done|]. cbn beta iota. eapply gives_bind; [done|].
    exists s2, (n :: ids'). by rewrite (node_val_ok _ _ _ _ Hn2).
Qed.
Lemma get_or_insert_mut_gives k d f : gives (get_or_insert_mut k d f) s (default d (find_key k l))
  (match find_key k l with Some v => (k, f v) :: del_key k l | None => (k, f d) :: (make_room (cap s) l).2 end).
Proof.
  unfold get_or_insert_mut. by_key Hr k.
  - destruct (front_at s a n b la k v lb Hr Ha Hb Hn) as (s2 & E2 & Hr2 & Ha2 & Hb2 & Hn2).
    destruct (through_ok s2 _ _ _ _ k v _ f Hr2 Ha2 Hb2 Hn2) as (s3 & E3 & Hr3).
    do 2 (eapply gives_bind; [done|]). by exists s3, (n :: a ++ b).
  - destruct (insert_ok s ids l k d Hr Hk) as (n & s1 & s2 & ids' & E1 & E2 & Hr2 & Hh2 & Hn2).
    destruct (through_ok s2 [] n ids' [] k d _ f Hr2 (Forall2_nil_2 _ _ _) Hh2 Hn2) as (s3 & E3 & Hr3).
    do 2 (eapply gives_bind; [done|]). cbn beta iota. eapply gives_bind; [done|]. by exists s3, (n :: ids').
Qed.
Lemma peek_gives k : gives (peek k) s (find_key k l) l.
Proof.
  unfold peek. by_key Hr k; eapply gives_bind; try done; [|by exists s, ids].
  eexists _, _. rewrite (PT_bind_Ok _ _ _ _ _ (node_val_ok _ _ _ _ Hn)). done.
Qed.
Lemma peek_mut_gives k f : gives (peek_mut k f) s (find_key k l) (match find_key k l with Some v => set_key k (f v) l | None => l end).
Proof.
  unfold peek_mut. by_key Hr k; eapply gives_bind; try done; [|by exists s, ids].
  destruct (through_ok s _ _ _ _ k v _ f Hr Ha Hb Hn) as (s3 & E3 & Hr3). rewrite (set_key_some _ _ _ _ _ Hka Hkb).
  eapply gives_bind; [done|]. by exists s3, (a ++ n :: b).
Qed.
Lemma contains_gives k : gives (contains k) s (bool_decide (k ∈ l.*1)) l.
Proof.
  unfold contains. by_key Hr k; (eapply gives_bind; [done|]); [rewrite bool_decide_true|rewrite bool_decide_false; [|done]; by exists s, ids].
  - by exists s, (a ++ n :: b).
  - rewrite fmap_app. cbn. clear. set_solver.
Qed.
Lemma promote_gives k : gives (promote k) s tt (match find_key k l with Some v => (k, v) :: del_key k l | None => l end).
Proof.
  unfold promote. by_key Hr k; (eapply gives_bind; [done|]); [|by exists s, ids].
  destruct (front_at s a n b la k v lb Hr Ha Hb Hn) as (s2 & E2 & Hr2 & _). by exists s2, (n :: a ++ b).
Qed.
Lemma demote_gives k : gives (demote k) s tt (match find_key k l with Some v => del_key k l ++ [(k, v)] | None => l end).
Proof.
  unfold demote. by_key Hr k; (eapply gives_bind; [done|]); [|by exists s, ids].
  destruct (to_back_ok s a b n la lb k v Hr Ha Hb Hn) as (s2 & E2 & Hr2). exists s2, (a ++ b ++ [n]). by rewrite <- app_assoc.
Qed.
Lemma map_remove_absent k : k ∉ l.*1 -> map_remove k s = Some (Ok None, s).
Proof.
  intros Hk. pose proof Hr as [Hc Hlive Hh Hm Hkeys Hcap]. unfold map_remove. rewrite (PT_bind_Ok _ _ _ _ _ (map_get_none s ids l k Hm Hh Hk)).
  unfold lget, lput, mbind, PT_bind. rewrite forallb_filter_id; [by destruct s|]. apply forallb_forall. intros [r n] Hin.
  apply (in_index s ids) in Hin as [-> Hin]; [|done]. destruct (is_key s k (n, n)) eqn:E; [|done]. exfalso. apply is_key_ct in E as [w Hw].
  destruct (holds_key _ _ _ _ Hh Hin) as (k' & v & Hc' & Hk'). congruence.
Qed.
Lemma pop_gives k : gives (pop k) s (find_key k l) (del_key k l).
Proof.
  unfold pop. by_key Hr k.
  - destruct (remove_ok s a b n la lb k v Hr Ha Hb Hn) as (e & s1 & s2 & s3 & E1 & E2 & E3 & Ek & Ev & Hr3).
    do 2 (eapply gives_bind; [done|]). rewrite Ek, Ev. eapply gives_bind; [done|]. eapply gives_bind; [exact E3|]. by exists s3, (a ++ b).
  - eapply gives_bind; [by apply map_remove_absent|]. by exists s, ids.
Qed.
Lemma pop_entry_gives k : gives (pop_entry k) s ((fun v => (k, v)) <$> find_key k l) (del_key k l).
Proof.
  unfold pop_entry. by_key Hr k.
  - destruct (remove_ok s a b n la lb k v Hr Ha Hb Hn) as (e & s1 & s2 & s3 & E1 & E2 & E3 & Ek & Ev & Hr3).
    do 3 (eapply gives_bind; [done|]). cbn iota. rewrite Ek, Ev. by exists s3, (a ++ b).
  - eapply gives_bind; [by apply map_remove_absent|]. by exists s, ids.
Qed.
Lemma pop_lru_gives : gives pop_lru s (last l) (removelast l).
Proof.
  unfold pop_lru. destruct (exists_last_or l) as [El|(l' & [k v] & El)].
  - pose proof Hr as Hr0. rewrite El in Hr0 |- *. eapply gives_bind; [by eapply remove_last_none|]. by exists s, ids.
  - pose proof Hr as Hr0. rewrite El in Hr0. destruct (remove_last_ok s ids l' k v Hr0) as (a & e & s1 & E1 & Ek & Ev & Hr1).
    eapply gives_bind; [done|]. cbn iota. rewrite Ek, Ev, El, last_snoc, removelast_last. by exists s1, a.
Qed.
Lemma peek_lru_gives : gives peek_lru s (last l) l.
Proof.
  unfold peek_lru, is_empty. eapply gives_bind; [by rewrite (PT_bind_Ok _ _ _ _ _ (rep_len s ids l Hr))|].
  destruct (exists_last_or l) as [El|(l' & [k v] & El)].
  - pose proof Hr as Hr0. rewrite El in Hr0 |- *. by exists s, ids.
  - destruct (Z.eqb_spec (Z.of_nat (length l)) 0) as [E|_]; [rewrite El, length_app in E; cbn in E; lia|].
    pose proof Hr as Hr0. rewrite El in Hr0. destruct (rep_last _ _ _ _ Hr0) as (a & n & -> & Ha & Hn & Htail & Hnh).
    destruct (node_ok s (tail s) (pv_live _ _ _ Htail)) as (t & Et & _ & Htp & _). destruct (node_ok s n (ct_live _ _ _ Hn)) as (e & Ee & _ & _ & Hc & _).
    eapply gives_bind; [done|]. eapply gives_bind; [done|]. rewrite Htp, Htail. eapply gives_bind; [done|]. eapply gives_bind; [done|].
    assert (key e = Some k /\ val e = Some v) as [-> ->] by (cbn in *; split; congruence). exists s, (a ++ [n]). rewrite El, last_snoc. done.
Qed.
Lemma len_gives : gives len s (Z.of_nat (length l)) l.
Proof. exists s, ids. by rewrite (rep_len s ids l Hr). Qed.
Lemma is_empty_gives : gives is_empty s (bool_decide (l = [])) l.
Proof.
  unfold is_empty. exists s, ids. rewrite (PT_bind_Ok _ _ _ _ _ (rep_len s ids l Hr)). split; [|done].
  destruct l; [done|]. by rewrite bool_decide_false.
Qed.
End Op.

(** ** Loops *)
Lemma steady_pop_lru : steady (pop_lru (K := K) (V := V)).
Proof. unfold pop_lru. steady. Qed.
Lemma clear_gives n (s : cache) ids l : rep s ids l -> (length l <= n)%nat -> gives (clear n) s tt [] .
Proof.
  revert s ids l. induction n as [|n IH]; intros s ids l Hr Hn; cbn [clear]; destruct (pop_lru_gives s ids l Hr) as (s1 & ids1 & E & Hr1);
    (eapply gives_bind; [exact E|]); destruct (exists_last_or l) as [El|(l' & x & El)]; subst l; rewrite ?length_app in Hn; cbn in Hn.
  - by exists s1, ids1.
  - lia.
  - by exists s1, ids1.
  - rewrite last_snoc. rewrite removelast_last in Hr1. apply (IH s1 ids1 l' Hr1). lia.
Qed.
Lemma shrink_gives n (s : cache) ids l c : rep s ids l -> 0 <= c -> (length l <= n)%nat ->
  exists s' ids', shrink_loop n c s = Some (Ok tt, s') /\ rep s' ids' (take (Z.to_nat c) l) /\ cap s' = cap s.
Proof.
  revert s ids l. induction n as [|n IH]; intros s ids l Hr Hc Hn; cbn [shrink_loop]; rewrite (PT_bind_Ok _ _ _ _ _ (rep_len s ids l Hr));
    destruct (Z.ltb_spec c (Z.of_nat (length l))); try lia.
  1,3: exists s, ids; rewrite take_ge by lia; done.
  destruct (pop_lru_gives s ids l Hr) as (s1 & ids1 & E & Hr1). rewrite (PT_bind_Ok _ _ _ _ _ E).
  destruct (exists_last_or l) as [El|(l' & x & El)]; subst l; [cbn in *; lia|]. rewrite removelast_last in Hr1. rewrite length_app in *. cbn in *.
  destruct (IH s1 ids1 l' Hr1) as (s' & ids' & E' & Hr' & Ec); [lia|lia|]. exists s', ids'. rewrite take_app_le by lia.
  rewrite Ec. by rewrite (steady_pop_lru s _ _ E).
Qed.
Lemma resize_gives n (s : cache) ids l c : rep s ids l -> 0 < c -> (length l <= n)%nat ->
  exists s' ids', resize n c s = Some (Ok tt, s') /\ rep s' ids' (take (Z.to_nat c) l) /\ cap s' = c.
Proof.
  intros Hr Hc Hn. unfold resize. rewrite (PT_bind_Ok lget _ s s s) by done. destruct (Z.eqb_spec c (cap s)) as [E|_].
  - exists s, ids. pose proof (r_cap _ _ _ Hr). by rewrite take_ge by lia.
  - destruct (shrink_gives n s ids l c Hr) as (s1 & ids1 & E1 & Hr1 & _); [lia|done|]. rewrite (PT_bind_Ok _ _ _ _ _ E1).
    unfold lget, lput, mbind, PT_bind. exists (set_cap c s1), ids1. split_and!; try done. destruct Hr1 as [[? ?] ? ? ? ? ?].
    constructor; try done; try by split. cbn. rewrite length_take. lia.
Qed.

(** ** Walks *)
Lemma rep_holds_app (s : cache) A B lA lB : rep s (A ++ B) (lA ++ lB) -> length A = length lA -> holds s A lA /\ holds s B lB.
Proof. intros Hr E. apply r_holds in Hr. by apply Forall2_app_inv in Hr. Qed.
Lemma rep_link (s : cache) a n m b l : rep s (a ++ n :: m :: b) l -> nx s n = Some m /\ pv s m = Some n.
Proof.
  intros [[Hl _] _ _ _ _ _]. unfold path in Hl. rewrite <- app_assoc, app_comm_cons in Hl. cbn in Hl.
  change (linked (nx s) (pv s) ((head s :: a) ++ n :: m :: b ++ [tail s])) in Hl. apply linked_split in Hl. tauto.
Qed.
(** The iterator is at the two ends of what is left. *)
Definition at_iter (mid : list nat) (i : Iter) : Prop :=
  it_len i = Z.of_nat (length mid) /\ (mid <> [] -> ptr i = list.head mid /\ end_ i = last mid).
Lemma iter_ok (s : cache) ids l : rep s ids l -> exists i, iter s = Some (Ok i, s) /\ at_iter ids i.
Proof.
  intros Hr. pose proof Hr as [[Hl _] _ Hh _ _ _]. unfold iter. rewrite (PT_bind_Ok _ _ _ _ _ (rep_len s ids l Hr)), (PT_bind_Ok lget _ s s s) by done.
  destruct (node_ok s (head s)) as (h & Eh & Hnh & _ & _ & _); [apply (rep_path_live _ _ _ _ Hr); unfold path; set_solver|].
  destruct (node_ok s (tail s)) as (t & Et & _ & Htp & _ & _); [apply (rep_path_live _ _ _ _ Hr); unfold path; set_solver|].
  rewrite (PT_bind_Ok _ _ _ _ _ Eh), (PT_bind_Ok _ _ _ _ _ Et). eexists. split; [done|]. split; cbn; [by rewrite (holds_len _ _ _ Hh)|].
  intros Hne. unfold path in Hl. split.
  - destruct ids as [|x ids]; [done|]. cbn in Hl. rewrite Hnh. cbn. tauto.
  - destruct (exists_last_or ids) as [->|(ids' & x & ->)]; [done|]. rewrite Htp, last_snoc. rewrite <- app_assoc, app_comm_cons in Hl.
    apply (linked_split _ _ (head s :: ids') x (tail s) []) in Hl. tauto.
Qed.
Lemma item_ok (s : cache) n k v : ct s n = Some (Some k, Some v) -> exists e, item (Some n) s = Some (Ok (k, v, e), s) /\ next e = nx s n /\ prev e = pv s n.
Proof.
  intros Hn. destruct (node_ok s n (ct_live _ _ _ Hn)) as (e & Ee & Hnx & Hpv & Hc & _). exists e. split_and!; try done.
  unfold item. rewrite (PT_bind_Ok (pt_opt (Some n)) _ s n s), (PT_bind_Ok _ _ _ _ _ Ee) by done.
  assert (key e = Some k /\ val e = Some v) as [-> ->] by (split; congruence). done.
Qed.
(** What one step finds, at the front and at the back. *)
Lemma iter_front (s : cache) A n mid B lA k v lm lB i :
  rep s (A ++ n :: mid ++ B) (lA ++ (k, v) :: lm ++ lB) -> length A = length lA -> at_iter (n :: mid) i ->
  exists e, item (ptr i) s = Some (Ok (k, v, e), s) /\ ptr i = Some n /\ (it_len i =? 0) = false /\ at_iter mid (mk_iter (it_len i - 1) (next e) (end_ i)) /\
    holds s A lA /\ holds s (mid ++ B) (lm ++ lB) /\ ct s n = Some (Some k, Some v).
Proof.
  intros Hr Hlen [El Hends]. destruct Hends as [Ep Ee]; [done|]. cbn in Ep, El. destruct (rep_holds_app _ _ _ _ _ Hr Hlen) as [HA Hn].
  inversion Hn as [|? ? ? ? Hct Hrest]; subst. cbn in Hct. destruct (item_ok s n k v Hct) as (e & E & Hnx & Hpv). exists e. rewrite Ep.
  split_and!; try done; [lia|]. split; cbn; [lia|]. intros Hne. rewrite Ee, Hnx. destruct mid as [|m mid]; [done|]. split; [|done].
  by apply (rep_link s A n m (mid ++ B) _) in Hr as [-> _].
Qed.
Lemma iter_back (s : cache) A mid n B lA lm k v lB i :
  rep s ((A ++ mid) ++ n :: B) ((lA ++ lm) ++ (k, v) :: lB) -> length A = length lA -> length mid = length lm -> at_iter (mid ++ [n]) i ->
  exists e, item (end_ i) s = Some (Ok (k, v, e), s) /\ end_ i = Some n /\ (it_len i =? 0) = false /\ at_iter mid (mk_iter (it_len i - 1) (ptr i) (prev e)) /\
    holds s (A ++ mid) (lA ++ lm) /\ holds s B lB /\ ct s n = Some (Some k, Some v).
Proof.
  intros Hr HlA Hlm [El Hends]. destruct Hends as [Ep Ee]; [by destruct mid|]. rewrite last_snoc in Ee. rewrite length_app in El. cbn in El.
  destruct (rep_holds_app _ _ _ _ _ Hr) as [HA Hn]; [rewrite !length_app; lia|]. inversion Hn as [|? ? ? ? Hct Hrest]; subst. cbn in Hct.
  destruct (item_ok s n k v Hct) as (e & E & Hnx & Hpv). exists e. rewrite Ee. split_and!; try done; [lia|]. split; cbn; [lia|]. intros Hne. rewrite Ep, Hpv.
  destruct (exists_last_or mid) as [->|(mid' & m & ->)]; [done|]. rewrite last_snoc. split; [by destruct mid'|].
  rewrite app_assoc, <- app_assoc in Hr. cbn in Hr. by apply (rep_link s (A ++ mid') m n B _) in Hr as [_ ->].
Qed.
Lemma iter_end f i (s : cache) : at_iter [] i ->
  iter_next i s = Some (Ok (None, i), s) /\ iter_next_back i s = Some (Ok (None, i), s) /\
  iter_mut_next f i s = Some (Ok (None, i), s) /\ iter_mut_next_back f i s = Some (Ok (None, i), s).
Proof. intros [E _]. unfold iter_next, iter_next_back, iter_mut_next, iter_mut_next_back. by rewrite E. Qed.
Lemma iter_mut_front f (s : cache) A n mid B lA k v lm lB i :
  rep s (A ++ n :: mid ++ B) (lA ++ (k, v) :: lm ++ lB) -> length A = length lA -> at_iter (n :: mid) i ->
  exists i' s1, iter_mut_next f i s = Some (Ok (Some (k, v), i'), s1) /\ at_iter mid i' /\ rep s1 ((A ++ [n]) ++ mid ++ B) ((lA ++ [(k, f k v)]) ++ lm ++ lB).
Proof.
  intros Hr HlA Hi. destruct (iter_front s A n mid B lA k v lm lB i Hr HlA Hi) as (e & E1 & Ep & E0 & Hi' & HA & HB & Hn).
  destruct (set_val_ok s A (mid ++ B) n lA (lm ++ lB) k v Hr HA HB Hn (f k v)) as (s1 & E2 & Hr1 & _). eexists _, s1. split_and!; [|exact Hi'|].
  - unfold iter_mut_next. rewrite E0, (PT_bind_Ok _ _ _ _ _ E1). cbn beta iota.
    rewrite Ep, (PT_bind_Ok (pt_opt (Some n)) _ s n s), (PT_bind_Ok _ _ _ _ _ E2) by done. done.
  - by rewrite <- !app_assoc.
Qed.
Lemma iter_mut_back f (s : cache) A mid n B lA lm k v lB i :
  rep s ((A ++ mid) ++ n :: B) ((lA ++ lm) ++ (k, v) :: lB) -> length A = length lA -> length mid = length lm -> at_iter (mid ++ [n]) i ->
  exists i' s1, iter_mut_next_back f i s = Some (Ok (Some (k, v), i'), s1) /\ at_iter mid i' /\ rep s1 (A ++ mid ++ n :: B) (lA ++ lm ++ (k, f k v) :: lB).
Proof.
  intros Hr HlA Hlm Hi. destruct (iter_back s A mid n B lA lm k v lB i Hr HlA Hlm Hi) as (e & E1 & Ep & E0 & Hi' & HA & HB & Hn).
  destruct (set_val_ok s (A ++ mid) B n (lA ++ lm) lB k v Hr HA HB Hn (f k v)) as (s1 & E2 & Hr1 & _). eexists _, s1. split_and!; [|exact Hi'|].
  - unfold iter_mut_next_back. rewrite E0, (PT_bind_Ok _ _ _ _ _ E1). cbn beta iota.
    rewrite Ep, (PT_bind_Ok (pt_opt (Some n)) _ s n s), (PT_bind_Ok _ _ _ _ _ E2) by done. done.
  - by rewrite <- !app_assoc in Hr1.
Qed.

Lemma walk_mut_ok f fronts : forall (s : cache) A mid B lA lm lB i, rep s (A ++ mid ++ B) (lA ++ lm ++ lB) -> length A = length lA -> length mid = length lm ->
  at_iter mid i -> exists s', walk_iter_mut f fronts i s = Some (Ok (walk f fronts lm).1, s') /\ rep s' (A ++ mid ++ B) (lA ++ (walk f fronts lm).2 ++ lB).
Proof.
  induction fronts as [|[] fronts IH]; intros s A mid B lA lm lB i Hr HlA Hlm Hi; cbn [walk_iter_mut walk]; [by exists s| |].
  - destruct lm as [|[k v] lm]; destruct mid as [|n mid]; try done.
    + destruct (iter_end f i s Hi) as (_ & _ & E1 & _). destruct (IH s A [] B lA [] lB i Hr HlA Hlm Hi) as (s' & E & Hr').
      rewrite (PT_bind_Ok _ _ _ _ _ E1). cbn beta iota. rewrite (PT_bind_Ok _ _ _ _ _ E). exists s'. by destruct (walk f fronts []).
    + destruct (iter_mut_front f s A n mid B lA k v lm lB i Hr HlA Hi) as (i' & s1 & E1 & Hi' & Hr1). rewrite (PT_bind_Ok _ _ _ _ _ E1).
      destruct (IH s1 _ mid B _ lm lB i' Hr1) as (s' & E & Hr'); [rewrite !length_app; cbn; lia|cbn in Hlm; lia|done|].
      cbn beta iota. rewrite (PT_bind_Ok _ _ _ _ _ E). exists s'. destruct (walk f fronts lm) as [os l']. split; [done|]. by rewrite <- !app_assoc in Hr'.
  - destruct (exists_last_or lm) as [->|(lm' & [k v] & ->)].
    + destruct mid; [|done]. destruct (iter_end f i s Hi) as (_ & _ & _ & E1). destruct (IH s A [] B lA [] lB i Hr HlA Hlm Hi) as (s' & E & Hr').
      rewrite (PT_bind_Ok _ _ _ _ _ E1). cbn beta iota. rewrite (PT_bind_Ok _ _ _ _ _ E). exists s'. cbn [last]. by destruct (walk f fronts []).
    + destruct (exists_last_or mid) as [->|(mid' & n & ->)]; rewrite ?length_app in Hlm; cbn in Hlm; [lia|].
      rewrite <- !app_assoc, (app_assoc A), (app_assoc lA) in Hr. cbn [app] in Hr. rewrite last_snoc, removelast_last.
      destruct (iter_mut_back f s A mid' n B lA lm' k v lB i Hr HlA) as (i' & s1 & E1 & Hi' & Hr1); [lia|done|]. rewrite (PT_bind_Ok _ _ _ _ _ E1).
      destruct (IH s1 A mid' (n :: B) lA lm' _ i' Hr1) as (s' & E & Hr'); [done|lia|done|].
      cbn beta iota. rewrite (PT_bind_Ok _ _ _ _ _ E). exists s'. destruct (walk f fronts lm') as [os l']. split; [done|]. cbn [snd]. by rewrite <- !app_assoc.
Qed.
Lemma iter_next_ok (s : cache) A n mid B lA k v lm lB i :
  rep s (A ++ n :: mid ++ B) (lA ++ (k, v) :: lm ++ lB) -> length A = length lA -> at_iter (n :: mid) i ->
  exists i', iter_next i s = Some (Ok (Some (k, v), i'), s) /\ at_iter mid i' /\ rep s ((A ++ [n]) ++ mid ++ B) ((lA ++ [(k, v)]) ++ lm ++ lB).
Proof.
  intros Hr HlA Hi. destruct (iter_front s A n mid B lA k v lm lB i Hr HlA Hi) as (e & E1 & Ep & E0 & Hi' & _).
  eexists. split_and!; [|exact Hi'|by rewrite <- !app_assoc]. unfold iter_next. by rewrite E0, (PT_bind_Ok _ _ _ _ _ E1).
Qed.
Lemma iter_next_back_ok (s : cache) A mid n B lA lm k v lB i :
  rep s ((A ++ mid) ++ n :: B) ((lA ++ lm) ++ (k, v) :: lB) -> length A = length lA -> length mid = length lm -> at_iter (mid ++ [n]) i ->
  exists i', iter_next_back i s = Some (Ok (Some (k, v), i'), s) /\ at_iter mid i' /\ rep s (A ++ mid ++ n :: B) (lA ++ lm ++ (k, v) :: lB).
Proof.
  intros Hr HlA Hlm Hi. destruct (iter_back s A mid n B lA lm k v lB i Hr HlA Hlm Hi) as (e & E1 & Ep & E0 & Hi' & _).
  eexists. split_and!; [|exact Hi'|by rewrite <- !app_assoc in Hr]. unfold iter_next_back. by rewrite E0, (PT_bind_Ok _ _ _ _ _ E1).
Qed.
Lemma walk_ok fronts : forall (s : cache) A mid B lA lm lB i, rep s (A ++ mid ++ B) (lA ++ lm ++ lB) -> length A = length lA -> length mid = length lm ->
  at_iter mid i -> walk_iter fronts i s = Some (Ok (walk (fun _ v => v) fronts lm).1, s).
Proof.
  induction fronts as [|[] fronts IH]; intros s A mid B lA lm lB i Hr HlA Hlm Hi; cbn [walk_iter walk]; [done| |].
  - destruct lm as [|[k v] lm]; destruct mid as [|n mid]; try done.
    + destruct (iter_end (fun _ v => v) i s Hi) as (E1 & _). rewrite (PT_bind_Ok _ _ _ _ _ E1). cbn beta iota.
      rewrite (PT_bind_Ok _ _ _ _ _ (IH s A [] B lA [] lB i Hr HlA Hlm Hi)). by destruct (walk _ fronts []).
    + destruct (iter_next_ok s A n mid B lA k v lm lB i Hr HlA Hi) as (i' & E1 & Hi' & Hr1). rewrite (PT_bind_Ok _ _ _ _ _ E1). cbn beta iota.
      rewrite (PT_bind_Ok _ _ _ _ _ (IH s _ mid B _ lm lB i' Hr1 ltac:(rewrite !length_app; cbn; lia) ltac:(cbn in Hlm; lia) Hi')). by destruct (walk _ fronts lm).
  - destruct (exists_last_or lm) as [->|(lm' & [k v] & ->)].
    + destruct mid; [|done]. destruct (iter_end (fun _ v => v) i s Hi) as (_ & E1 & _). rewrite (PT_bind_Ok _ _ _ _ _ E1). cbn beta iota.
      rewrite (PT_bind_Ok _ _ _ _ _ (IH s A [] B lA [] lB i Hr HlA Hlm Hi)). cbn [last]. by destruct (walk _ fronts []).
    + destruct (exists_last_or mid) as [->|(mid' & n & ->)]; rewrite ?length_app in Hlm; cbn in Hlm; [lia|].
      rewrite <- !app_assoc, (app_assoc A), (app_assoc lA) in Hr. cbn [app] in Hr. rewrite last_snoc, removelast_last.
      destruct (iter_next_back_ok s A mid' n B lA lm' k v lB i Hr HlA) as (i' & E1 & Hi' & Hr1); [lia|done|]. rewrite (PT_bind_Ok _ _ _ _ _ E1). cbn beta iota.
      rewrite (PT_bind_Ok _ _ _ _ _ (IH s A mid' (n :: B) lA lm' _ i' Hr1 HlA ltac:(lia) Hi')). by destruct (walk _ fronts lm').
Qed.

(** ** Construction and the end *)
Lemma construct_ok c (s0 : cache) : 0 < c -> exists s ids, construct c s0 = Some (Ok tt, s) /\ rep s ids [] /\ cap s = c.
Proof.
  intros Hc. unfold construct, set_next, set_prev, set_node, node, box_new, lget, lput, pt_opt, mbind, PT_bind. cbn.
  set (h := fresh (dom ∅)). set (t := fresh _). assert (Hht : h <> t).
  { intros E. apply (is_fresh (dom (<[h := new_sigil]> (∅ : gmap nat (LruEntry K V))))). fold t. rewrite <- E. apply elem_of_dom. rewrite lookup_insert_eq. by eexists. }
  assert (Hth : t <> h) by congruence. do 5 (repeat first [rewrite lookup_insert_eq | rewrite lookup_insert_ne by done]; cbn).
  eexists _, []. split_and!; [done| |done]. constructor; cbn; try lia; try (by constructor).
  - split; unfold path; cbn.
    + unfold nx, pv. cbn. repeat first [rewrite lookup_insert_eq | rewrite lookup_insert_ne by done]. done.
    + repeat constructor; set_solver.
  - intros n. unfold live, path. cbn. rewrite !lookup_insert, lookup_empty. rewrite !elem_of_cons. split.
    + repeat case_decide; subst; eauto; by intros [? [=]].
    + intros [->|[->|Hin]]; [|by rewrite decide_True|by apply not_elem_of_nil in Hin]. repeat case_decide; done.
Qed.
Lemma drop_nodes_ok (m : list (nat * nat)) : forall s : cache, NoDup m.*2 -> (forall n, n ∈ m.*2 -> exists k v, ct s n = Some (Some k, Some v)) ->
  exists s', drop_nodes m s = Some (Ok tt, s') /\ forall n, live s' n <-> live s n /\ n ∉ m.*2.
Proof.
  induction m as [|[r n] m IH]; intros s Hnd Hct; cbn [drop_nodes]; [exists s; set_solver|]. cbn in Hnd, Hct. apply NoDup_cons in Hnd as [Hn Hnd].
  destruct (Hct n) as (k & v & Hc); [by left|]. destruct (node_ok s n (ct_live _ _ _ Hc)) as (e & _ & _ & _ & He & Hlook).
  destruct (box_take_ok s n e Hlook) as (E1 & Hs1 & Hl1). set (s1 := set_nodes (delete n (nodes s)) s) in *.
  rewrite (PT_bind_Ok _ _ _ _ _ E1). assert (key e = Some k /\ val e = Some v) as [-> ->] by (split; congruence).
  destruct (IH s1 Hnd) as (s' & E' & Hl').
  { intros x Hx. destruct (Hs1 x) as (-> & _); [by intros ->|]. apply Hct. by right. }
  exists s'. split; [exact E'|]. intros x. rewrite Hl', Hl1. cbn. rewrite not_elem_of_cons. tauto.
Qed.
Lemma lru_drop_ok (s : cache) ids l : rep s ids l -> exists s', drop s = Some (Ok tt, s') /\ nodes s' = ∅.
Proof.
  intros Hr. pose proof Hr as [[_ Hnd] Hlive Hh Hm _ _]. unfold path in Hlive, Hnd. apply NoDup_cons in Hnd as [Hh1 Hnd]. apply NoDup_app in Hnd as (Hids & Hdisj & _).
  assert (Hsnd : (map s).*2 ≡ₚ ids) by (rewrite Hm; unfold index; rewrite <- list_fmap_compose; cbn; by rewrite list_fmap_id).
  destruct (drop_nodes_ok (map s) (set_map [] s)) as (s1 & E1 & Hl1).
  { by rewrite Hsnd. }
  { intros n Hn. rewrite Hsnd in Hn. destruct (holds_key _ _ _ _ Hh Hn) as (k & v & Hc & _). by exists k, v. }
  assert (Hl : forall n, live s1 n <-> n = head s \/ n = tail s).
  { intros n. rewrite Hl1, Hsnd. change (live (set_map [] s) n) with (live s n). rewrite Hlive. rewrite elem_of_cons, elem_of_app, list_elem_of_singleton.
    rewrite not_elem_of_app in Hh1. destruct Hh1 as [? _]. specialize (Hdisj n). rewrite list_elem_of_singleton in Hdisj. split; [tauto|]. intros [-> | ->]; tauto. }
  assert (Hne : tail s <> head s) by (intros E; apply Hh1; rewrite E; set_solver).
  destruct (proj2 (Hl (head s)) (or_introl eq_refl)) as [eh Eh]. destruct (box_take_ok s1 _ _ Eh) as (E2 & _ & Hl2).
  set (s2 := set_nodes (delete (head s) (nodes s1)) s1) in *.
  destruct (proj2 (Hl2 (tail s)) (conj (proj2 (Hl _) (or_intror eq_refl)) Hne)) as [et Et]. destruct (box_take_ok s2 _ _ Et) as (E3 & _ & Hl3).
  eexists. split.
  - unfold drop. rewrite (PT_bind_Ok lget _ s s s), (PT_bind_Ok (lput (set_map [] s)) _ s tt (set_map [] s)) by done.
    rewrite (PT_bind_Ok _ _ _ _ _ E1), (PT_bind_Ok _ _ _ _ _ E2), (PT_bind_Ok _ _ _ _ _ E3). done.
  - apply map_eq. intros n. rewrite lookup_empty. apply eq_None_not_Some. intros Hn. apply Hl3 in Hn as [Hn ?]. apply Hl2 in Hn as [Hn ?]. apply Hl in Hn. tauto.
Qed.

(** ** Programs *)
Lemma steady_clear n : steady (clear (K := K) (V := V) n).
Proof. induction n as [|n IH]; cbn [clear]; (apply steady_bind; [apply steady_pop_lru|intros [x|]]); try done; by intros s r s' [= <- <-]. Qed.
Lemma steady_walk fronts : forall i, steady (walk_iter (K := K) (V := V) fronts i).
Proof.
  induction fronts as [|b fronts IH]; intros i; cbn [walk_iter]; [steady|]. apply steady_bind; [unfold iter_next, iter_next_back, item; destruct b; steady|].
  intros [o i']. apply steady_bind; [apply IH|intros ?; steady].
Qed.
Lemma steady_walk_mut f fronts : forall i, steady (walk_iter_mut (K := K) (V := V) f fronts i).
Proof.
  induction fronts as [|b fronts IH]; intros i; cbn [walk_iter_mut]; [steady|].
  apply steady_bind; [unfold iter_mut_next, iter_mut_next_back, item; destruct b; steady|].
  intros [o i']. apply steady_bind; [apply IH|intros ?; steady].
Qed.
Hint Resolve steady_clear steady_walk steady_walk_mut : steady.
Lemma steady_op n o : match o with Resize _ => True | _ => steady (exec_op (K := K) (V := V) n o) end.
Proof.
  destruct o; cbn [exec_op]; try exact I;
    unfold put, push, capturing_put, get, get_mut, get_or_insert, get_or_insert_mut, peek, peek_mut, peek_lru, contains, pop, pop_entry, pop_lru,
      promote, demote, is_empty, through, iter; steady.
Qed.
Lemma op_gives n o (s : cache) ids l : rep s ids l -> match o with Resize _ => False | _ => True end -> (length l <= n)%nat ->
  gives (exec_op n o) s (ref_op o (cap s) l).1.1 (ref_op o (cap s) l).2.
Proof.
  intros Hr Hno Hn. destruct o; cbn [exec_op ref_op]; try done.
  1-17: eapply gives_eq; [eapply gives_map| |];
    [first [ eapply put_gives | eapply push_gives | eapply get_gives | eapply get_mut_gives | eapply get_or_insert_gives | eapply get_or_insert_mut_gives
      | eapply peek_gives | eapply peek_mut_gives | eapply peek_lru_gives | eapply contains_gives | eapply pop_gives | eapply pop_entry_gives | eapply pop_lru_gives
      | eapply promote_gives | eapply demote_gives | eapply len_gives | eapply is_empty_gives ]; exact Hr| |];
    try (by destruct (find_key k l)); done.
  - apply (gives_map _ _ tt _ (fun _ => OUnit)). by eapply clear_gives.
  - destruct (iter_ok s ids l Hr) as (i & E & Hi). eapply gives_bind; [exact E|]. exists s, ids.
    rewrite (PT_bind_Ok _ _ _ _ _ (walk_ok fronts s [] ids [] [] l [] i ltac:(by rewrite !app_nil_r) eq_refl (holds_len _ _ _ (r_holds _ _ _ Hr)) Hi)). done.
  - destruct (iter_ok s ids l Hr) as (i & E & Hi). eapply gives_bind; [exact E|].
    destruct (walk_mut_ok f fronts s [] ids [] [] l [] i ltac:(by rewrite !app_nil_r) eq_refl (holds_len _ _ _ (r_holds _ _ _ Hr)) Hi) as (s' & E' & Hr').
    exists s', ids. rewrite (PT_bind_Ok _ _ _ _ _ E'). rewrite !app_nil_r in Hr'. by destruct (walk f fronts l).
Qed.
(** One operation, on both sides. *)
Lemma op_step n o (s : cache) ids l : rep s ids l -> op_ok o -> (length l <= n)%nat ->
  exists s' ids', exec_op n o s = Some (Ok (ref_op o (cap s) l).1.1, s') /\ rep s' ids' (ref_op o (cap s) l).2 /\ cap s' = (ref_op o (cap s) l).1.2.
Proof.
  intros Hr Hok Hn. assert (match o with Resize _ => False | _ => True end \/ exists c, o = Resize c) as [Hno|[c ->]] by (destruct o; eauto).
  - destruct (op_gives n o s ids l Hr Hno Hn) as (s' & ids' & E & Hr'). exists s', ids'. split_and!; try done.
    pose proof (steady_op n o) as Hs. assert (cap s' = cap s) as -> by (destruct o; try done; by eapply Hs).
    destruct o; cbn; try destruct (find_key k l); try destruct (walk f fronts l); done.
  - destruct (resize_gives n s ids l c Hr Hok Hn) as (s' & ids' & E & Hr' & Ec). exists s', ids'. cbn [exec_op].
    by rewrite (PT_bind_Ok _ _ _ _ _ E).
Qed.

Lemma walk_length f fronts : forall l : list (K * V), length (walk f fronts l).2 = length l.
Proof.
  induction fronts as [|[] fronts IH]; intros l; cbn; [done| |].
  - destruct l as [|[k v] l]; [specialize (IH [])|specialize (IH l)]; destruct (walk f fronts _); cbn in *; lia.
  - destruct (exists_last_or l) as [->|(l' & [k v] & ->)]; [cbn; specialize (IH [])|rewrite last_snoc, removelast_last; specialize (IH l')];
      destruct (walk f fronts _); cbn in *; rewrite ?length_app; cbn; lia.
Qed.
Lemma del_key_length k (l : list (K * V)) : (length (del_key k l) <= length l)%nat.
Proof. apply List.filter_length_le. Qed.
Lemma make_room_length c (l : list (K * V)) : (length (make_room c l).2 <= length l)%nat.
Proof.
  unfold make_room. destruct (_ =? _); cbn; [|done]. destruct (exists_last_or l) as [->|(l' & x & ->)]; [done|]. rewrite removelast_last, length_app. lia.
Qed.
(** An operation adds one entry at most. *)
Lemma ref_op_length o c (l : list (K * V)) : (length (ref_op o c l).2 <= S (length l))%nat.
Proof.
  destruct o; cbn [ref_op]; try (pose proof (del_key_length k l)); pose proof (make_room_length c l); try destruct (find_key k l); cbn;
    rewrite ?length_app, ?length_take; unfold set_key; rewrite ?length_fmap; cbn; try lia.
  - destruct (exists_last_or l) as [->|(l' & x & ->)]; [cbn; lia|]. rewrite removelast_last, length_app. lia.
  - pose proof (walk_length f fronts l). destruct (walk f fronts l); cbn in *. lia.
Qed.

Fixpoint run_ops (n : nat) (ops : list lru_op) : M (list lru_out) :=
  match ops with [] => mret [] | o :: ops => r ← exec_op n o; rs ← run_ops n ops; mret (r :: rs) end.
Fixpoint ref_run (ops : list lru_op) (c : Z) (l : list (K * V)) : list lru_out :=
  match ops with [] => [] | o :: ops => let '(r, c, l) := ref_op o c l in r :: ref_run ops c l end.
Definition lifetime (n : nat) (c : Z) (ops : list lru_op) : M (list lru_out) := _ ← new c; rs ← run_ops n ops; _ ← drop; mret rs.

Lemma run_ops_ok n ops : forall (s : cache) ids l, rep s ids l -> Forall op_ok ops -> (length l + length ops <= n)%nat ->
  exists s' ids' l', run_ops n ops s = Some (Ok (ref_run ops (cap s) l), s') /\ rep s' ids' l'.
Proof.
  induction ops as [|o ops IH]; intros s ids l Hr Hok Hn; cbn in *; [by exists s, ids, l|]. inversion Hok as [|? ? Ho Hops]; subst.
  destruct (op_step n o s ids l Hr Ho) as (s1 & ids1 & E1 & Hr1 & Ec); [lia|]. rewrite (PT_bind_Ok _ _ _ _ _ E1). pose proof (ref_op_length o (cap s) l) as Hlen.
  destruct (ref_op o (cap s) l) as [[r c] l1]. cbn in *. destruct (IH s1 ids1 l1 Hr1 Hops) as (s2 & ids2 & l2 & E2 & Hr2); [lia|].
  rewrite (PT_bind_Ok _ _ _ _ _ E2), Ec. by exists s2, ids2, l2.
Qed.

(** C13: the pointer-based LRU cache is equivalent to its reference, a capacity and a list of entries. A cache of any positive capacity is
    made, goes through any program of its operations (putting, getting, mutating through references, popping, promoting and demoting,
    resizing, clearing, and iterators walked from both ends in any order), and is dropped: no pointer is followed that is null or
    freed, every operation returns what the reference returns, and when it is dropped no node is left allocated. *)
Theorem lru_equivalence n c ops (s0 : cache) : 0 < c -> Forall op_ok ops -> (length ops <= n)%nat ->
  exists s, lifetime n c ops s0 = Some (Ok (ref_run ops c []), s) /\ nodes s = ∅.
Proof.
  intros Hc Hok Hn. destruct (construct_ok c s0 Hc) as (s1 & ids1 & E1 & Hr1 & Ec). unfold lifetime, new. rewrite (PT_bind_Ok _ _ _ _ _ E1).
  destruct (run_ops_ok n ops s1 ids1 [] Hr1 Hok Hn) as (s2 & ids2 & l2 & E2 & Hr2). rewrite (PT_bind_Ok _ _ _ _ _ E2), Ec.
  destruct (lru_drop_ok s2 ids2 l2 Hr2) as (s3 & E3 & H3). rewrite (PT_bind_Ok _ _ _ _ _ E3). by exists s3.
Qed.
End Equiv.

(** A cache of two entries that evicts, is walked from both ends, and shrinks. *)
Lemma lru_equivalence_witness :
  let ops := [Put 1 10; Push 2 20; Get 1; Push 3 30; GetMut 1 (Z.add 5); WalkMut [false; true; true] (fun k v => k + v); Put 4 40; PopLru; Demote 4; Resize 1; Peek 4; Len] in
  exists s, lifetime 12 2 ops (mk_lru (K := Z) (V := Z) ∅ [] 0 0 0) =
    Some (Ok [OVal None; OEntry None; OVal (Some 10); OEntry (Some (2, 20)); OVal (Some 10); OItems [Some (3, 30); Some (1, 15); None]; OVal None;
      OEntry (Some (1, 16)); OUnit; OUnit; OVal (Some 40); ONum 1], s) /\ nodes s = ∅.
Proof.
  intros ops. destruct (lru_equivalence 12 2 ops (mk_lru (K := Z) (V := Z) ∅ [] 0 0 0)) as (s & E & H); [lia|repeat constructor; lia|cbn; lia|].
  exists s. split; [|exact H]. rewrite E. reflexivity.
Defined.
