(* ===== verification/Virt.v ===== *)
(** * kmem: address spaces

    mizu/lib/kmem/src/virt.rs and virt/tlb.rs: a range map of mappings, a page table
    that is filled when a page is touched, and the shootdown of the TLBs.  An address
    space is the field [self] of the world: the memory objects, the memory of the page
    tables, the fences the harts have been told to make and the hart that runs are the
    others.  An operation holds the locks of the map and of the table to its end, so it
    is one run.  [base] is the physical address of a frame. *)

From S2P Require Import Prelude BTree RangeMap Ksc Bytes Paging Umio Phys.
Import Errno.

Module Virt.
Notation PAGE_SIZE := PG.PAGE_SIZE.
Notation PAGE_SHIFT := PG.PAGE_SHIFT.
Notation PAGE_MASK := PG.PAGE_MASK.
Notation ID_OFFSET := PG.ID_OFFSET.
Definition ASLR_BIT : Z := 30.

(** [phys] is an [Arsc<Phys>]: the mappings that have the same number share it. *)
Record Mapping := mk_mapping { phys : nat; start_index : Z; attr : Z }.
Record Virt := mk_virt { root : Z; vmap : RM.RangeMap Mapping; cpu_mask : Z }.
Inductive fence := Remote (mask addr size : Z) | Local (addr : Z) | LocalAll.

Section Virt.
Context {T : Type} `{Umio.Io T} {A : Type} `{PG.PageAlloc A} (base : nat -> Z).
Record world := mk_world { self : Virt; hp : Ph.heap T; pt : PG.St A; fences : list fence; hart : Z }.
Notation M := (PT world Error).

Definition get : M world := fun w => Some (Ok w, w).
Definition put (w : world) : M unit := fun _ => Some (Ok tt, w).
Definition set_self (v : Virt) (w : world) : world := mk_world v (hp w) (pt w) (fences w) (hart w).
Definition set_vmap (m : RM.RangeMap Mapping) (w : world) : world := set_self (mk_virt (root (self w)) m (cpu_mask (self w))) w.
Definition get_map : M (RM.RangeMap Mapping) := w ← get; mret (vmap (self w)).
Definition put_map (m : RM.RangeMap Mapping) : M unit := w ← get; put (set_vmap m w).
(** On the memory objects. *)
Definition on_heap {X} (m : PT (Ph.heap T) Error X) : M X := fun w =>
  match m (hp w) with Some (r, h) => Some (r, mk_world (self w) h (pt w) (fences w) (hart w)) | None => None end.
(** On the page tables: what comes out, and with [?]. *)
Definition try_pt {X} (m : ST (PG.St A) PG.Error X) : M (res PG.Error X) := fun w =>
  let '(r, s) := m (pt w) in Some (Ok r, mk_world (self w) (hp w) s (fences w) (hart w)).
Definition on_pt {X} (m : ST (PG.St A) PG.Error X) : M X :=
  r ← try_pt m; match r with Ok x => mret x | Err e => pt_throw (from_paging e) | Panic => pt_res Panic end.
(** [m], with what is dropped when it fails. *)
Definition on_err {X} (d : M unit) (m : M X) : M X := fun w =>
  match m w with
  | Some (Err e, w) => (_ ← d; pt_throw e) w
  | x => x
  end.

(** What [m] returns, as a value; a panic is none. *)
Definition attempt {X} (m : M X) : M (res Error X) := fun w =>
  match m w with
  | Some (Panic, w) => Some (Panic, w)
  | Some (r, w) => Some (Ok r, w)
  | None => None
  end.

(** ** tlb.rs *)
Definition tlb_flush (mask addr count : Z) : M unit :=
  if count =? 0 then mret tt
  else
    w ← get;
    let others := Z.land mask (wnot 64 (wshl 64 1 (hart w))) in
    let remote := if others =? 0 then [] else [Remote others addr (wshl 64 count PAGE_SHIFT)] in
    let local := if mask =? others then [] else [if count =? 1 then Local addr else LocalAll] in
    put (mk_world (self w) (hp w) (pt w) (fences w ++ remote ++ local) (hart w)).

(** ** Mapping *)
Definition page_at (addr c : Z) : Z := PG.addr_add addr (wshl 64 c PAGE_SHIFT).
Definition index_at (m : Mapping) (offset c : Z) : Z := wadd 64 (wadd 64 c (start_index m)) offset.

(** [la2pte]: where the entry is, and the entry. *)
Definition look_pte (rt addr : Z) : M (res PG.Error (Z * Z * Z)) :=
  try_pt (p ← PG.la2pte rt addr ID_OFFSET; e ← PG.read_entry p.1 p.2; mret (p, e)).
Definition look_alloc (rt addr : Z) : M (Z * Z * Z) :=
  on_pt (p ← PG.la2pte_alloc rt addr ID_OFFSET; e ← PG.read_entry p.1 p.2; mret (p, e)).
Definition write_pte (p : Z * Z) (e : Z) : M unit := on_pt (PG.write_entry p.1 p.2 e).

Fixpoint is_committed_loop (k : nat) (c : Z) (m : Mapping) (rt addr expect_attr : Z) : M bool :=
  match k with
  | O => mret true
  | S k =>
      if negb (PG.contains (attr m) (Z.lor expect_attr PG.USER_ACCESS)) then pt_throw EPERM
      else
        r ← look_pte rt (page_at addr c);
        match r with
        | Panic => pt_res Panic
        | Ok (_, e) => if PG.is_set e then is_committed_loop k (c + 1) m rt addr expect_attr else mret false
        | Err _ => mret false
        end
  end.
Definition is_committed (m : Mapping) (rt addr count expect_attr : Z) : M bool :=
  is_committed_loop (Z.to_nat count) 0 m rt addr expect_attr.

(** One page; [flushed] is the count of the guard that flushes when it is dropped. *)
Definition commit_page (n : nat) (m : Mapping) (rt a index flushed expect_attr : Z) : M Z :=
  if negb (PG.contains (attr m) (Z.lor expect_attr PG.USER_ACCESS)) then pt_throw EPERM
  else
    '(p, e) ← look_alloc rt a;
    if PG.is_set e then mret flushed
    else
      '(f, _) ← on_heap (Ph.commit n (phys m) index (if PG.contains (attr m) PG.WRITABLE then Some PAGE_SIZE else None));
      _ ← write_pte p (PG.Entry_new (base f) (attr m) PG.pt);
      mret (flushed + 1).
Fixpoint commit_loop (n k : nat) (c flushed : Z) (m : Mapping) (rt addr offset mask expect_attr : Z) : M unit :=
  let drop := tlb_flush mask addr flushed in
  match k with
  | O => drop
  | S k =>
      flushed' ← on_err drop (commit_page n m rt (page_at addr c) (index_at m offset c) flushed expect_attr);
      commit_loop n k (c + 1) flushed' m rt addr offset mask expect_attr
  end.
Definition mapping_commit (n : nat) (m : Mapping) (rt addr offset count mask expect_attr : Z) : M unit :=
  commit_loop n (Z.to_nat count) 0 0 m rt addr offset mask expect_attr.

(** [from] and [flushed] are the guard. *)
Fixpoint decommit_loop (n k : nat) (c from flushed : Z) (m : Mapping) (rt addr offset mask : Z) : M unit :=
  match k with
  | O => tlb_flush mask from flushed
  | S k =>
      r ← look_pte rt (page_at addr c);
      match r with
      | Panic => pt_res Panic
      | Ok (p, e) =>
          let dirty := PG.contains (PG.Entry_get e PG.pt).2 PG.DIRTY in
          _ ← on_err (tlb_flush mask from flushed) (on_heap (Ph.flush n (phys m) (index_at m offset c) (Some dirty)));
          _ ← write_pte p PG.UNSET;
          decommit_loop n k (c + 1) from (flushed + 1) m rt addr offset mask
      | Err _ =>
          _ ← tlb_flush mask from flushed;
          decommit_loop n k (c + 1) (PG.addr_add (page_at addr c) PAGE_SIZE) 0 m rt addr offset mask
      end
  end.
Definition decommit (n : nat) (m : Mapping) (rt addr offset count mask : Z) : M unit :=
  decommit_loop n (Z.to_nat count) 0 addr 0 m rt addr offset mask.
(** [if let Some(count) = NonZeroUsize::new(count)], with the mask as it is. *)
Definition decommit_some (n : nat) (m : Mapping) (addr offset count : Z) : M unit :=
  w ← get; if count =? 0 then mret tt else decommit n m (root (self w)) addr offset count (cpu_mask (self w)).

Definition mapping_deep_fork (n : nat) (m : Mapping) : M Mapping :=
  ph ← on_heap (Ph.get_phys (phys m));
  p ← on_heap (Ph.clone_as n (phys m) (Ph.cow ph) 0 None);
  mret (mk_mapping p (start_index m) (attr m)).

(** A mapping is dropped: its object goes if neither [others] nor the map have it. *)
Definition shares (p : nat) (m : Mapping) : bool := Nat.eqb (phys m) p.
Definition drop_mapping (n : nat) (others : list Mapping) (m : Mapping) : M unit :=
  mp ← get_map;
  if existsb (shares (phys m)) (others ++ (RM.iter mp).*2) then mret tt else on_heap (Ph.drop_phys n (phys m)).
Fixpoint drop_mappings (n : nat) (ms : list Mapping) : M unit :=
  match ms with [] => mret tt | m :: ms => _ ← drop_mapping n ms m; drop_mappings n ms end.

(** ** Virt *)
(** [Frame::from(Table)] *)
Definition frame_from (init_root : list Z) : M Z :=
  r ← try_pt (p ← PG.alloc_table; _ ← PG.write_table p init_root; mret p);
  match r with Ok p => mret p | _ => pt_res Panic end.
Definition new (lo hi : Z) (init_root : list Z) : M Virt :=
  rt ← frame_from init_root; mret (mk_virt rt (RM.new (RM.mk_range lo hi)) 0).

(** [PAGE_LAYOUT.repeat(count)] *)
Definition page_layout (count : Z) : M RM.Layout :=
  if count * PAGE_SIZE <=? 2 ^ 63 - PAGE_SIZE then mret (RM.mk_layout (count * PAGE_SIZE) PAGE_SIZE) else pt_throw from_layout.

Section Rng.
Context {R : Type} (next_u64 : R -> Z * R).
Definition map (n : nat) (g : R) (addr : option Z) (p : nat) (start_index count attr : Z) : M Z :=
  mp ← get_map;
  let m := mk_mapping p start_index (Z.lor attr PG.VALID) in
  (* the object is dropped with the call *)
  let fail e := _ ← on_heap (Ph.drop_phys n p); pt_throw e in
  match addr with
  | Some start =>
      if negb (Z.land start PAGE_MASK =? 0) then fail EINVAL
      else
        let len := wshl 64 count PAGE_SHIFT in
        if len =? 0 then fail EINVAL
        else match checked_add 64 start len with
             | None => fail EINVAL
             | Some end_ =>
                 match RM.try_insert mp (RM.mk_range start end_) m with
                 | Ok mp => _ ← put_map mp; mret start
                 | Err _ => fail ENOSPC
                 | Panic => pt_res Panic
                 end
             end
  | None =>
      layout ← on_err (on_heap (Ph.drop_phys n p)) (page_layout count);
      match RM.allocate_with_aslr next_u64 n mp (RM.AslrKey_new next_u64 ASLR_BIT g layout) with
      | None => pt_none
      | Some (Ok None) => fail ENOSPC
      | Some (Ok (Some ent)) => _ ← put_map (RM.Entry_insert mp ent m); mret (RM.entry_key ent)
      | Some _ => pt_res Panic
      end
  end.
Definition find_free (n : nat) (g : R) (start : option Z) (count : Z) : M RM.Range :=
  layout ← page_layout count;
  mp ← get_map;
  match start with
  | None =>
      match RM.find_free_with_aslr next_u64 n mp (RM.AslrKey_new next_u64 ASLR_BIT g layout) with
      | None => pt_none
      | Some (Some r) => mret r
      | Some None => pt_throw ENOSPC
      end
  | Some start =>
      let r := RM.mk_range start (PG.addr_add start (wshl 64 count PAGE_SHIFT)) in
      if RM.intersects mp r then pt_throw ENOSPC else mret r
  end.
End Rng.

(** The part of a mapping that is in a range: where it starts, how many pages are
    before it, how many are in it. *)
Definition clip (lo hi : Z) (k : RM.Range) : Z * Z * Z :=
  let start := Z.max lo (RM.rstart k) in
  let end_ := Z.min hi (RM.rend k) in
  (start, Z.shiftr (wsub 64 start (RM.rstart k)) PAGE_SHIFT, Z.shiftr (wsub 64 end_ start) PAGE_SHIFT).

Definition commit_some (n : nat) (m : Mapping) (addr offset count expect_attr : Z) : M unit :=
  w ← get; if count =? 0 then mret tt else mapping_commit n m (root (self w)) addr offset count (cpu_mask (self w)) expect_attr.
Definition commit (n : nat) (addr expect_attr : Z) : M unit :=
  let lo := Z.land addr (wnot 64 PAGE_MASK) in
  let hi := Z.land (wadd 64 addr PAGE_SIZE) (wnot 64 PAGE_MASK) in
  mp ← get_map;
  match RM.intersection mp (RM.mk_range lo hi) with
  | (k, m) :: _ => let '(start, offset, count) := clip lo hi k in commit_some n m start offset count expect_attr
  | [] => pt_throw EFAULT
  end.

(** [VirtCommitGuard]: [held] is its lock of the map. *)
Record VirtCommitGuard := mk_guard { held : bool; gattr : Z; granges : list (Z * Z) }.
Definition start_commit (expect_attr : Z) : VirtCommitGuard := mk_guard true expect_attr [].
Fixpoint all_committed (lo hi expect_attr : Z) (acc : bool) (l : list (RM.Range * Mapping)) : M bool :=
  match l with
  | [] => mret acc
  | (k, m) :: l =>
      let '(start, _, count) := clip lo hi k in
      w ← get; b ← is_committed m (root (self w)) start count expect_attr;
      all_committed lo hi expect_attr (acc && b) l
  end.
Fixpoint commit_all (n : nat) (lo hi expect_attr : Z) (l : list (RM.Range * Mapping)) : M unit :=
  match l with
  | [] => mret tt
  | (k, m) :: l =>
      let '(start, offset, count) := clip lo hi k in
      _ ← commit_some n m start offset count expect_attr; commit_all n lo hi expect_attr l
  end.
(** What [push] returns, and the guard. *)
Definition push (n : nat) (lo hi : Z) (g : VirtCommitGuard) : M (res Error unit * VirtCommitGuard) :=
  let alo := Z.land lo (wnot 64 PAGE_MASK) in
  let ahi := Z.land (wadd 64 hi PAGE_MASK) (wnot 64 PAGE_MASK) in
  let lost := mk_guard false (gattr g) (granges g) in
  let pushed := mk_guard true (gattr g) (granges g ++ [(lo, wsub 64 hi lo)]) in
  if held g then
    mp ← get_map;
    let l := RM.intersection mp (RM.mk_range alo ahi) in
    r ← attempt (all_committed alo ahi (gattr g) true l);
    match r with
    | Err e => mret (Err e, lost)
    | Ok true => mret (Ok tt, pushed)
    | _ =>
        r ← attempt (commit_all n alo ahi (gattr g) l);
        mret (r, match r with Ok _ => pushed | _ => g end)
    end
  else pt_res Panic.

Definition unaligned (lo hi : Z) : bool := negb (Z.land lo PAGE_MASK =? 0) || negb (Z.land hi PAGE_MASK =? 0).
Fixpoint decommit_all (n : nat) (lo hi : Z) (l : list (RM.Range * Mapping)) : M unit :=
  match l with
  | [] => mret tt
  | (k, m) :: l =>
      let '(start, offset, count) := clip lo hi k in
      _ ← decommit_some n m start offset count; decommit_all n lo hi l
  end.
Definition decommit_range (n : nat) (lo hi : Z) : M unit :=
  if unaligned lo hi then pt_throw EINVAL
  else mp ← get_map; decommit_all n lo hi (RM.intersection mp (RM.mk_range lo hi)).

(** The pages of a whole entry. *)
Definition pages_of (k : RM.Range) : Z := Z.shiftr (wsub 64 (RM.rend k) (RM.rstart k)) PAGE_SHIFT.
Fixpoint reprotect_all (n : nat) (at_ : Z) (l : list (RM.Range * Mapping)) : M unit :=
  match l with
  | [] => mret tt
  | (k, m) :: l =>
      _ ← decommit_some n m (RM.rstart k) 0 (pages_of k);
      mp ← get_map; _ ← put_map (RM.write_value mp (RM.rstart k) (mk_mapping (phys m) (start_index m) at_));
      reprotect_all n at_ l
  end.
(** A split entry is dropped: the values it was given go in.  Before that [mapping]
    is dropped if [f] fails, and what is left of it otherwise. *)
Definition split_with (n : nat) (key : Z) (f : RM.Range -> Mapping -> M (option Mapping * option Mapping)) : M unit :=
  mp ← get_map;
  let '(o, mp) := RM.split_entry mp key in
  _ ← put_map mp;
  match o with
  | None => mret tt
  | Some (m, e) =>
      '(former, latter) ← on_err (drop_mapping n [] m) (f (RM.old_key e) m);
      let e := match former with Some x => RM.set_former e x | None => e end in
      let e := match latter with Some x => RM.set_latter e x | None => e end in
      mp ← get_map; put_map (RM.split_drop mp e)
  end.
Definition reprotect (n : nat) (lo hi at_ : Z) : M unit :=
  if unaligned lo hi then pt_throw EINVAL
  else
    let at_ := Z.lor at_ PG.VALID in
    mp ← get_map;
    _ ← reprotect_all n at_ (RM.range_iter mp (RM.mk_range lo hi));
    _ ← split_with n lo (fun k m =>
      let offset := Z.shiftr (wsub 64 lo (RM.rstart k)) PAGE_SHIFT in
      _ ← decommit_some n m lo offset (Z.shiftr (wsub 64 (RM.rend k) lo) PAGE_SHIFT);
      mret (Some m, Some (mk_mapping (phys m) (wadd 64 (start_index m) offset) at_)));
    split_with n hi (fun k m =>
      let count := Z.shiftr (wsub 64 hi (RM.rstart k)) PAGE_SHIFT in
      _ ← decommit_some n m hi 0 count;
      mret (Some (mk_mapping (phys m) (start_index m) at_), Some (mk_mapping (phys m) (wadd 64 (start_index m) count) (attr m)))).

(** The mappings that [drain] gives out are dropped one by one, or together when
    the loop fails. *)
Fixpoint unmap_all (n : nat) (l : list (RM.Range * Mapping)) : M unit :=
  match l with
  | [] => mret tt
  | (k, m) :: l =>
      _ ← on_err (drop_mappings n (m :: l.*2)) (decommit_some n m (RM.rstart k) 0 (pages_of k));
      _ ← drop_mapping n l.*2 m; unmap_all n l
  end.
Definition unmap (n : nat) (lo hi : Z) : M unit :=
  if unaligned lo hi then pt_throw EINVAL
  else
    mp ← get_map;
    let '(l, mp) := RM.drain mp (RM.mk_range lo hi) in
    _ ← put_map mp;
    _ ← unmap_all n l;
    _ ← split_with n lo (fun k m =>
      let offset := Z.shiftr (wsub 64 lo (RM.rstart k)) PAGE_SHIFT in
      _ ← decommit_some n m lo offset (Z.shiftr (wsub 64 (RM.rend k) lo) PAGE_SHIFT);
      mret (Some m, None));
    split_with n hi (fun k m =>
      let count := Z.shiftr (wsub 64 hi (RM.rstart k)) PAGE_SHIFT in
      _ ← decommit_some n m hi 0 count;
      mret (None, Some (mk_mapping (phys m) (wadd 64 (start_index m) count) (attr m)))).

(** The errors of the flushes are dropped. *)
Fixpoint flush_pages (n k : nat) (index : Z) (m : Mapping) : M unit :=
  match k with
  | O => mret tt
  | S k =>
      _ ← attempt (on_heap (Ph.flush n (phys m) index (Some (PG.contains (attr m) PG.DIRTY))));
      flush_pages n k (index + 1) m
  end.
Fixpoint flush_old (n : nat) (l : list (RM.Range * Mapping)) : M unit :=
  match l with
  | [] => mret tt
  | (k, m) :: l =>
      _ ← flush_pages n (Z.to_nat (pages_of k)) 0 m; _ ← drop_mapping n l.*2 m; flush_old n l
  end.
(** The table without the pages of the root range, and the TLBs. *)
Definition unmap_root : M unit :=
  w ← get;
  let r := RM.root_range (vmap (self w)) in
  _ ← on_pt (PG.unmap (root (self w)) (RM.rstart r, RM.rend r) ID_OFFSET);
  tlb_flush (cpu_mask (self w)) (RM.rstart r) (pages_of r).
Definition clear (n : nat) : M unit :=
  mp ← get_map;
  _ ← put_map (RM.new (RM.root_range mp));
  _ ← unmap_root;
  flush_old n (RM.into_iter mp).

Fixpoint fork_all (n : nat) (l : list (RM.Range * Mapping)) (acc : RM.RangeMap Mapping) : M (RM.RangeMap Mapping) :=
  match l with
  | [] => mret acc
  | (k, m) :: l =>
      let drop_acc := drop_mappings n (RM.iter acc).*2 in
      _ ← on_err drop_acc (if PG.contains (attr m) PG.WRITABLE then decommit_some n m (RM.rstart k) 0 (pages_of k) else mret tt);
      m' ← mapping_deep_fork n m;
      match RM.try_insert acc k m' with
      | Ok acc => fork_all n l acc
      | _ => _ ← on_heap (Ph.drop_phys n (phys m')); fork_all n l acc
      end
  end.
Definition deep_fork (n : nat) (init_root : list Z) : M Virt :=
  mp ← get_map;
  new_map ← fork_all n (RM.iter mp) (RM.new (RM.root_range mp));
  rt ← frame_from init_root;
  mret (mk_virt rt new_map 0).

(** [Drop for Virt], with its fields: the root table, the mappings. *)
Definition drop_virt (n : nat) : M unit :=
  _ ← unmap_root;
  w ← get;
  _ ← on_pt (PG.dealloc_table (root (self w)));
  let ms := (RM.iter (vmap (self w))).*2 in
  _ ← put_map (RM.new (RM.root_range (vmap (self w))));
  drop_mappings n ms.
End Virt.
End Virt.
