(* ===== verification/VirtSpec.v ===== *)
(** * kmem: address spaces, page by page

    What the loops over the pages of a mapping do to the translation of an address, and
    which harts they fence. *)

From S2P Require Import Prelude BTree RangeMap Ksc Bytes Paging PageTree Umio Phys Virt.
Import Errno Virt.

Notation UEND := (2 ^ 38).
Definition user (x : Z) : Prop := 0 <= x < UEND.

(** ** What cannot fail *)
Section NoErr.
Context {S : Type}.
Definition no_err {X} (m : PT S Error X) : Prop := forall s e s', m s <> Some (Err e, s').
Lemma no_err_bind {X Y} (m : PT S Error X) (f : X -> PT S Error Y) : no_err m -> (forall x, no_err (f x)) -> no_err (m ≫= f).
Proof.
  intros Hm Hf s e s'. unfold mbind, PT_bind. destruct (m s) as [[[x|e'|] s1]|] eqn:E; try done; [apply Hf|].
  intros [= -> ->]. by eapply Hm.
Qed.
Lemma no_err_ret {X} (x : X) : no_err (mret x).
Proof. by intros s e s' [=]. Qed.
Lemma no_err_none {X} : no_err (pt_none (A := X)).
Proof. done. Qed.
Lemma no_err_opt {X} (o : option X) : no_err (pt_opt o).
Proof. intros s e s' [= E]. by destruct o. Qed.
Lemma no_err_panic {X} : no_err (pt_res (A := X) Panic).
Proof. by intros s e s' [=]. Qed.
End NoErr.
Create HintDb no_err discriminated.
#[export] Hint Resolve no_err_ret no_err_none no_err_opt no_err_panic : no_err.
Ltac no_err :=
  repeat first
    [ solve [auto with no_err nocore]
    | lazymatch goal with
      | |- no_err (match ?x with _ => _ end) => destruct x
      | |- no_err (mbind _ _) => apply no_err_bind; [|intros ?]
      end ].
Section PhysNoErr.
Context {T : Type} `{IoT : Umio.Io T}.
Notation M := (PT (Ph.heap T) Error).
Lemma no_err_hget : no_err (Ph.hget (T := T)).
Proof. by intros s e s' [=]. Qed.
Lemma no_err_hput h : no_err (Ph.hput (T := T) h).
Proof. by intros s e s' [=]. Qed.
Hint Resolve no_err_hget no_err_hput : no_err.
Lemma no_err_get_phys p : no_err (Ph.get_phys (T := T) p).
Proof. unfold Ph.get_phys. no_err. Qed.
Lemma no_err_put_phys p ph : no_err (Ph.put_phys (T := T) p ph).
Proof. unfold Ph.put_phys. no_err. Qed.
Lemma no_err_enqueue b d : no_err (Ph.enqueue (T := T) b d).
Proof. unfold Ph.enqueue. no_err. Qed.
Hint Resolve no_err_get_phys no_err_put_phys no_err_enqueue : no_err.
Lemma no_err_flush_page n b d : no_err (Ph.flush_page (T := T) n b d).
Proof. destruct d as [[i f] l]. unfold Ph.flush_page, Ph.get_page, Ph.hpanic. no_err. Qed.
Lemma no_err_flush_pages n b ds : no_err (Ph.flush_pages (T := T) n b ds).
Proof. induction ds as [|d ds IH]; cbn [Ph.flush_pages]; [no_err|]. apply no_err_bind; [apply no_err_flush_page|done]. Qed.
Lemma no_err_serve_all n b ds : no_err (Ph.serve_all (T := T) n b ds).
Proof.
  induction ds as [|d ds IH]; cbn [Ph.serve_all]; [no_err|]. apply no_err_bind; [|done].
  destruct d; [apply no_err_flush_page|apply no_err_flush_pages].
Qed.
Hint Resolve no_err_serve_all : no_err.
Lemma no_err_merge {R} n p (f : M (option R)) : no_err f -> no_err (Ph.merge_sole_parent n p f).
Proof. intros Hf. induction n as [|n IH]; cbn [Ph.merge_sole_parent]; [no_err|]. unfold Ph.take_sole, Ph.merge_into. no_err. Qed.
Hint Resolve no_err_merge : no_err.
Lemma no_err_flush_loop n : forall p fl i d, no_err (Ph.flush_loop (T := T) n p fl i d).
Proof.
  induction n as [|n IH]; intros p fl i d; cbn [Ph.flush_loop]; [no_err|].
  unfold Ph.clean_entry, Ph.flush_and_wait, Ph.serve. no_err.
Qed.
Hint Resolve no_err_flush_loop : no_err.
Lemma no_err_flush n p i d : no_err (Ph.flush (T := T) n p i d).
Proof. unfold Ph.flush. no_err. Qed.
Lemma no_err_release n : forall pr, no_err (Ph.release (T := T) n pr).
Proof. induction n as [|n IH]; intros pr; cbn [Ph.release]; no_err. Qed.
Hint Resolve no_err_release : no_err.
Lemma no_err_drop_loop n : forall p fl i e, no_err (Ph.drop_loop (T := T) n p fl i e).
Proof. induction n as [|n IH]; intros p fl i e; cbn [Ph.drop_loop]; [no_err|]. unfold Ph.take_dirty. no_err. Qed.
Hint Resolve no_err_drop_loop : no_err.
Lemma no_err_drop_phys n p : no_err (Ph.drop_phys (T := T) n p).
Proof. unfold Ph.drop_phys. no_err. Qed.
End PhysNoErr.
#[export] Hint Resolve no_err_flush no_err_drop_phys : no_err.

Section VirtSpec.
Context {T : Type} `{IoT : Umio.Io T} {A : Type} `{PAS : PageAllocSpec A} (base : nat -> Z).
Notation world := (world (T := T) (A := A)).
Notation M := (PT world Error).
Implicit Types (w : world) (m : Mapping).

(** ** The translation *)
Definition um w (x : Z) : option (nat * (Z * Z)) := mapped (root (self w)) (PG.mem (pt w)) x.
Definition tree w : Prop := exists own live, inv (root (self w)) own live (pt w).
(** [p] is the entry for the page of [x]. *)
Definition pte w (x : Z) (p : Z * Z) (e : Z) : Prop := exists own live, inv (root (self w)) own live (pt w) /\
  p.2 = PG.addr_idx PG.pt x false /\ own !! p.1 = Some (O, vpn_at 1 x) /\ entry (PG.mem (pt w)) p.1 p.2 = Some e.
(** Nothing but the page tables and the fences. *)
Definition quiet w w' : Prop := self w' = self w /\ hart w' = hart w.
Lemma quiet_refl w : quiet w w.
Proof. done. Qed.
Lemma quiet_trans w1 w2 w3 : quiet w1 w2 -> quiet w2 w3 -> quiet w1 w3.
Proof. unfold quiet. intuition congruence. Qed.

Lemma user_vpn x : user x -> vpn_at 0 x = x / 4096.
Proof. unfold user. intros Hx. unfold vpn_at. rewrite page_shift_eq. rewrite Z.mod_small by lia. done. Qed.
Lemma user_fits x : user x -> fits 64 x.
Proof. unfold user, fits. lia. Qed.
Lemma pte_um w x p e : user x -> pte w x p e -> um w x = leaf_view (Some (O, e)).
Proof.
  intros Hx (own & live & [Ht _] & Hi & Ho & He). unfold um, mapped. rewrite Hi in He.
  by rewrite (walk_leaf _ _ _ _ _ _ Ht (user_fits _ Hx) Ho He).
Qed.
(** The translation is one for a page. *)
Lemma idx_page (n : nat) x y : (n <= 2)%nat -> user x -> user y -> x / 4096 = y / 4096 -> PG.addr_idx (Z.of_nat n) x false = PG.addr_idx (Z.of_nat n) y false.
Proof.
  intros Hn Hx Hy E. rewrite !addr_idx_eq by (try lia; by apply user_fits). rewrite page_shift_eq, Z.pow_add_r by lia. change (2 ^ 12) with 4096.
  pose proof (Z.pow_pos_nonneg 2 (9 * Z.of_nat n)). rewrite <- !Z.div_div by lia. by rewrite E.
Qed.
Lemma walk_page (n : nat) mm t x y : (n <= 2)%nat -> user x -> user y -> x / 4096 = y / 4096 -> walk n mm t x = walk n mm t y.
Proof.
  intros Hn Hx Hy E. revert t. induction n as [|n IH]; intros t; cbn [walk]; rewrite (idx_page _ x y Hn Hx Hy E); [done|].
  destruct (entry mm t _) as [e|]; [|done]. cbn [mbind option_bind]. case_match; [|done]. apply IH. lia.
Qed.
Lemma um_page w x y : user x -> user y -> x / 4096 = y / 4096 -> um w x = um w y.
Proof. intros Hx Hy E. unfold um, mapped. by rewrite (walk_page 2 _ _ x y). Qed.
(** [la2pte] and a look at the entry. *)
Lemma look_pte_ok w x : tree w -> user x ->
  (exists p e, look_pte (root (self w)) x w = Some (Ok (Ok (p, e)), w) /\ pte w x p e) \/
  (exists err, look_pte (root (self w)) x w = Some (Ok (Err err), w) /\ forall v, um w x <> Some (O, v)).
Proof.
  intros (own & live & Hinv) Hx. pose proof Hinv as [Ht _]. unfold look_pte, try_pt, mbind, ST_bind.
  destruct (la2pte_cases (root (self w)) own (pt w) x Ht (user_fits _ Hx)) as [(t & e & E & Ho & He & Hw)|(E & l & e & Hw)]; rewrite E.
  - left. exists (t, PG.addr_idx PG.pt x false), e. split; [|by exists own, live]. rewrite read_entry_eq. cbn [fst snd]. rewrite He. by destruct w.
  - right. eexists. split; [by destruct w|]. intros v. unfold um, mapped. rewrite Hw. cbn. by destruct (PG.is_set e).
Qed.
(** The world with other page tables. *)
Definition with_pt s w : world := mk_world (self w) (hp w) s (fences w) (hart w).
Lemma write_pte_ok w x p e e' : user x -> pte w x p e ->
  exists s', write_pte p e' w = Some (Ok tt, with_pt s' w) /\ tree (with_pt s' w) /\
    forall y, user y -> um (with_pt s' w) y = if y / 4096 =? x / 4096 then leaf_view (Some (O, e')) else um w y.
Proof.
  intros Hx (own & live & Hinv & Hi & Ho & He). rewrite Hi in *.
  destruct (write_leaf (root (self w)) own live (pt w) p.1 x e' Hinv (user_fits _ Hx) Ho) as (s' & E & Hinv' & Hm).
  exists s'. split; [unfold write_pte, on_pt, try_pt, mbind, PT_bind; by rewrite Hi, E|]. split; [by exists own, live|].
  intros y Hy. unfold um. cbn. rewrite Hm by (by apply user_fits). by rewrite !user_vpn.
Qed.
(** [la2pte_alloc] leaves every translation. *)
Lemma look_alloc_ok w x : tree w -> user x ->
  exists r s', look_alloc (root (self w)) x w = Some (r, with_pt s' w) /\ tree (with_pt s' w) /\ (forall y, user y -> um (with_pt s' w) y = um w y) /\
    match r with Ok (p, e) => pte (with_pt s' w) x p e | Err e => e = ENOMEM \/ e = EEXIST | Panic => False end.
Proof.
  intros (own & live & Hinv) Hx. unfold look_alloc, on_pt, try_pt, mbind, ST_bind, PT_bind.
  destruct (la2pte_alloc_cases (root (self w)) own live (pt w) x Hinv (user_fits _ Hx)) as (own' & live' & s' & Hinv' & Hm & Hr).
  assert (Hu : forall y, user y -> um (with_pt s' w) y = um w y) by (intros y Hy; unfold um; cbn; apply Hm; by apply user_fits).
  destruct Hr as [(t & E & Ho)|(e & E & He)]; rewrite E.
  - destruct (own_entry _ _ _ _ _ _ (PG.addr_idx PG.pt x false) (proj1 Hinv') Ho (idx_ok 0 x ltac:(lia) (user_fits _ Hx))) as [e He].
    rewrite read_entry_eq. cbn [fst snd]. rewrite He. exists (Ok ((t, PG.addr_idx PG.pt x false), e)), s'.
    split; [done|]. split; [by exists own', live'|]. split; [done|]. by exists own', live'.
  - exists (Err (from_paging e)), s'. split; [done|]. split; [by exists own', live'|]. split; [done|]. destruct He as [-> | ->]; [by left|by right].
Qed.

(** ** Fences *)
Definition fenced (evs : list fence) (me h x : Z) : Prop :=
  if h =? me then In LocalAll evs \/ exists a, In (Local a) evs /\ a <= x < a + 4096
  else exists mask a s, In (Remote mask a s) evs /\ Z.testbit mask h = true /\ a <= x < a + s.
(** Every hart of the mask has been fenced for [x]. *)
Definition covered (mask me : Z) (evs : list fence) (x : Z) : Prop := forall h, 0 <= h < 64 -> Z.testbit mask h = true -> fenced evs me h x.
Lemma covered_app mask me evs1 evs2 x : covered mask me evs1 x \/ covered mask me evs2 x -> covered mask me (evs1 ++ evs2) x.
Proof.
  intros [Hc|Hc] h Hh Ht; specialize (Hc h Hh Ht); unfold fenced in *; destruct (h =? me).
  - destruct Hc as [Hc|(a & Hin & Ha)]; [left; apply in_or_app; by left|right; exists a; split; [apply in_or_app; by left|done]].
  - destruct Hc as (k & a & s & Hin & Hk & Ha). exists k, a, s. split; [apply in_or_app; by left|done].
  - destruct Hc as [Hc|(a & Hin & Ha)]; [left; apply in_or_app; by right|right; exists a; split; [apply in_or_app; by right|done]].
  - destruct Hc as (k & a & s & Hin & Hk & Ha). exists k, a, s. split; [apply in_or_app; by right|done].
Qed.
Definition hart_ok w : Prop := 0 <= hart w < 64 /\ fits 64 (cpu_mask (self w)).
Lemma tlb_flush_ok w mask addr count : 0 <= hart w < 64 -> fits 64 mask -> 0 <= count -> count * 4096 < 2 ^ 64 ->
  exists evs, tlb_flush mask addr count w = Some (Ok tt, mk_world (self w) (hp w) (pt w) (fences w ++ evs) (hart w)) /\
    forall x, addr <= x < addr + count * 4096 -> covered mask (hart w) evs x.
Proof.
  intros Hh Hm Hc Hc64. unfold tlb_flush. destruct (Z.eqb_spec count 0) as [->|Hne].
  - exists []. split; [rewrite app_nil_r; by destruct w|]. intros x Hx. lia.
  - unfold get, put, mbind, PT_bind. set (bit := wshl 64 1 (hart w)). set (others := Z.land mask (wnot 64 bit)). eexists. split; [done|]. intros x Hx h Hh' Ht.
    assert (Hb : bit = 2 ^ hart w) by (unfold bit; rewrite wshl_small; [lia|lia|rewrite Z.mul_1_l; apply fits_pow2; lia]).
    assert (Ho : Z.testbit others h = negb (h =? hart w)).
    { unfold others. rewrite Z.land_spec, Ht, testbit_wnot, Hb, testbit_pow2 by (try lia; rewrite Hb; apply fits_pow2; lia).
      rewrite (proj2 (Z.leb_le _ _)), (proj2 (Z.ltb_lt _ _)) by lia. done. }
    unfold fenced. destruct (Z.eqb_spec h (hart w)) as [->|Hne'].
    + assert (mask <> others) by (intros E; rewrite E in Ht; by rewrite Ho in Ht). rewrite (proj2 (Z.eqb_neq mask others)) by done.
      destruct (Z.eqb_spec count 1) as [->|Hne1].
      * right. exists addr. split; [apply in_or_app; right; by left|lia].
      * left. apply in_or_app. right. by left.
    + assert (others <> 0) by (intros E; rewrite E, Z.bits_0 in Ho; done). rewrite (proj2 (Z.eqb_neq others 0)) by done.
      exists others, addr, (wshl 64 count PAGE_SHIFT). split; [by left|]. split; [done|].
      rewrite wshl_small; [change (2 ^ PAGE_SHIFT) with 4096; lia|done|change (2 ^ PAGE_SHIFT) with 4096; unfold fits; lia].
Qed.

(** ** Taking pages out *)
Lemma page_at_eq addr c : 0 <= c -> 0 <= addr -> addr + c * 4096 < 2 ^ 64 -> page_at addr c = addr + c * 4096.
Proof.
  intros Hc Ha Hb. unfold page_at, PG.addr_add. rewrite wshl_small; change (2 ^ PAGE_SHIFT) with 4096; [|done|unfold fits; lia].
  apply wadd_small. unfold fits. lia.
Qed.
Lemma same_page x a : a mod 4096 = 0 -> (x / 4096 =? a / 4096) = true <-> a <= x < a + 4096.
Proof. intros Ha. rewrite Z.eqb_eq. Z.div_mod_to_equations. lia. Qed.
Lemma on_heap_Some {X} (f : PT (Ph.heap T) Error X) w r w' : on_heap f w = Some (r, w') ->
  exists h, f (hp w) = Some (r, h) /\ w' = mk_world (self w) h (pt w) (fences w) (hart w).
Proof. unfold on_heap. destruct (f (hp w)) as [[r0 h]|]; [|done]. intros [= <- <-]. by exists h. Qed.
Lemma bind_Some_inv {X Y} (c : M X) (f : X -> M Y) w y w' : (c ≫= f) w = Some (Ok y, w') -> exists x w1, c w = Some (Ok x, w1) /\ f x w1 = Some (Ok y, w').
Proof. unfold mbind, PT_bind. destruct (c w) as [[[x|e|] w1]|]; try done. intros E. by exists x, w1. Qed.
Lemma on_err_Ok {X} d (c : M X) w x w' : on_err d c w = Some (Ok x, w') -> c w = Some (Ok x, w').
Proof. unfold on_err. destruct (c w) as [[[y|e|] w1]|]; try done. unfold mbind, PT_bind. destruct (d w1) as [[[?|?|] ?]|]; done. Qed.
Lemma pte_heap w h x p e : pte w x p e -> pte (mk_world (self w) h (pt w) (fences w) (hart w)) x p e.
Proof. done. Qed.

(** The pages from [lo] to [hi] are out of the table, and fenced. *)
Record cleared (lo hi : Z) (evs : list fence) w w' : Prop := mk_cleared {
  cl_tree : tree w';
  cl_quiet : quiet w w';
  cl_fences : fences w' = fences w ++ evs;
  cl_out x : user x -> ~ (lo <= x < hi) -> um w' x = um w x;
  cl_in x : lo <= x < hi -> (um w' x = None /\ covered (cpu_mask (self w)) (hart w) evs x) \/ (um w' x = um w x /\ forall v, um w x <> Some (O, v));
}.
(** One page more before them. *)
Lemma cleared_page a hi evs evs1 w w1 w' : a mod 4096 = 0 -> 0 <= a -> a + 4096 <= hi -> hi <= UEND -> quiet w w1 -> fences w1 = fences w ++ evs1 ->
  (forall y, user y -> ~ (a <= y < a + 4096) -> um w1 y = um w y) ->
  (forall y, a <= y < a + 4096 -> (um w1 y = None /\ covered (cpu_mask (self w)) (hart w) (evs1 ++ evs) y) \/ (um w1 y = um w y /\ forall v, um w y <> Some (O, v))) ->
  cleared (a + 4096) hi evs w1 w' -> cleared a hi (evs1 ++ evs) w w'.
Proof.
  intros Hal Ha Hhi Hend [Hs Hh] Hf Hout Hin [Ct Cq Cf Co Ci]. split; [done|by eapply quiet_trans|by rewrite Cf, Hf, app_assoc| |].
  - intros x Hx Hn. rewrite Co by (try done; lia). apply Hout; [done|lia].
  - intros x Hx. assert (Hux : user x) by (unfold user; lia). destruct (decide (x < a + 4096)).
    + rewrite Co by (try done; lia). apply Hin. lia.
    + rewrite <- (Hout x) by (try done; lia). destruct (Ci x) as [[E Hc]|[E Hc]]; [lia| |by right].
      left. split; [done|]. rewrite Hs, Hh in Hc. apply covered_app. by right.
Qed.

Lemma decommit_loop_sound n k m offset : forall c from flushed addr w w',
  tree w -> hart_ok w -> 0 <= c -> 0 <= addr -> addr mod 4096 = 0 -> addr + (c + Z.of_nat k) * 4096 <= UEND ->
  0 <= from -> 0 <= flushed -> from + flushed * 4096 = addr + c * 4096 ->
  decommit_loop n k c from flushed m (root (self w)) addr offset (cpu_mask (self w)) w = Some (Ok tt, w') ->
  exists evs, cleared (addr + c * 4096) (addr + (c + Z.of_nat k) * 4096) evs w w' /\
    forall x, from <= x < from + flushed * 4096 -> covered (cpu_mask (self w)) (hart w) evs x.
Proof.
  induction k as [|k IH]; intros c from flushed addr w w' Ht Hh Hc Ha Hal Hend Hf Hfl Hg E; cbn [decommit_loop] in E.
  - destruct (tlb_flush_ok w (cpu_mask (self w)) from flushed) as (evs & E' & Hev); [apply Hh|apply Hh|done|lia|].
    rewrite E in E'. injection E' as ->. exists evs. split; [|done]. split; try done. intros x Hx. lia.
  - rewrite (page_at_eq addr c) in E by lia. set (a := addr + c * 4096) in *. assert (Haa : a mod 4096 = 0) by (unfold a; Z.div_mod_to_equations; lia).
    assert (Hua : user a) by (unfold user; lia). apply bind_Some_inv in E as (r & w1 & E1 & E).
    replace (addr + (c + Z.of_nat (S k)) * 4096) with (addr + (c + 1 + Z.of_nat k) * 4096) by lia.
    assert (Ea : a + 4096 = addr + (c + 1) * 4096) by lia.
    destruct (look_pte_ok w a Ht Hua) as [(p & e & El & Hp)|(err & El & Hno)]; rewrite El in E1; injection E1 as <- <-.
    + apply bind_Some_inv in E as (u1 & w1 & E1 & E). apply on_err_Ok, on_heap_Some in E1 as (h & _ & ->).
      apply bind_Some_inv in E as (u2 & w2 & E2 & E). destruct (write_pte_ok _ a p e PG.UNSET Hua (pte_heap _ h _ _ _ Hp)) as (s' & Ew & Ht' & Hum).
      rewrite Ew in E2. injection E2 as _ <-. set (w2 := with_pt s' _) in *.
      destruct (IH (c + 1) from (flushed + 1) addr w2 w') as (evs & Hcl & Hev); try done; try lia. exists evs. split.
      * rewrite <- Ea in Hcl. apply (cleared_page a _ evs [] w w2 w'); try done; try lia; [by rewrite app_nil_r| |].
        -- intros y Hy Hn. rewrite Hum by done. destruct (y / 4096 =? a / 4096) eqn:Ey; [|done]. apply same_page in Ey; [lia|done].
        -- intros y Hy. left. rewrite Hum by (unfold user; lia). rewrite (proj2 (same_page y a Haa)) by lia. split; [done|]. apply Hev. lia.
      * intros x Hx. apply Hev. lia.
    + apply bind_Some_inv in E as (u1 & w1 & E1 & E). destruct (tlb_flush_ok w (cpu_mask (self w)) from flushed) as (evs1 & E' & Hev); [apply Hh|apply Hh|done|lia|].
      rewrite E' in E1. injection E1 as _ <-. set (w1 := mk_world _ _ _ _ _) in *.
      assert (Eadd : PG.addr_add a PAGE_SIZE = a + 4096) by (unfold PG.addr_add; apply wadd_small; change PAGE_SIZE with 4096; unfold fits; lia). rewrite Eadd in E.
      destruct (IH (c + 1) (a + 4096) 0 addr w1 w') as (evs & Hcl & _); try done; try lia. exists (evs1 ++ evs). split.
      * rewrite <- Ea in Hcl. apply (cleared_page a _ evs evs1 w w1 w'); try done; try lia.
        intros y Hy. right. split; [done|]. assert (um w y = um w a) as -> by (apply um_page; [unfold user; lia|done|Z.div_mod_to_equations; lia]). done.
      * intros x Hx. apply covered_app. left. by apply Hev.
Qed.
Lemma no_err_on_heap {X} (f : PT (Ph.heap T) Error X) : no_err f -> no_err (on_heap (A := A) f).
Proof. intros Hf w e w' E. apply on_heap_Some in E as (h & E & _). by eapply Hf. Qed.
Lemma no_err_on_err {X} d (f : M X) : no_err f -> no_err (on_err d f).
Proof. intros Hf w e w'. unfold on_err. destruct (f w) as [[[x|e'|] w1]|] eqn:E; try done. exfalso. by eapply Hf. Qed.
Lemma no_err_tlb mask addr count : no_err (tlb_flush (T := T) (A := A) mask addr count).
Proof. unfold tlb_flush. destruct (count =? 0); [no_err|]. by intros w e w' [=]. Qed.
Lemma no_err_write_pte p e : no_err (write_pte (T := T) (A := A) p e).
Proof.
  intros w e' w'. unfold write_pte, on_pt, try_pt, PG.write_entry, mbind, PT_bind. intros E. repeat case_match; simplify_eq.
Qed.
Lemma no_err_look_pte rt x : no_err (look_pte (T := T) (A := A) rt x).
Proof. intros w e w'. unfold look_pte, try_pt. intros E. by case_match. Qed.
Hint Resolve no_err_on_heap no_err_on_err no_err_tlb no_err_write_pte no_err_look_pte : no_err.
(** Taking pages out does not fail. *)
Lemma no_err_decommit_loop n k m rt addr offset mask : forall c from flushed, no_err (decommit_loop (T := T) (A := A) n k c from flushed m rt addr offset mask).
Proof. induction k as [|k IH]; intros c from flushed; cbn [decommit_loop]; no_err. Qed.
Hint Resolve no_err_decommit_loop : no_err.
Lemma no_err_get : no_err (get (T := T) (A := A)).
Proof. by intros w e w' [=]. Qed.
Hint Resolve no_err_get : no_err.
Lemma no_err_decommit_some n m addr offset count : no_err (decommit_some (T := T) (A := A) n m addr offset count).
Proof. unfold decommit_some, decommit. no_err. Qed.

(** ** Putting pages in *)
Definition attr_ok (at_ : Z) : Prop := fits 8 at_ /\ PG.contains at_ PG.VALID = true.
Hypothesis base_ok : forall f, fits 56 (base f) /\ base f mod 4096 = 0.
Lemma new_entry_view f at_ : attr_ok at_ -> leaf_view (Some (O, PG.Entry_new (base f) at_ PG.pt)) = Some (O, (base f, at_)).
Proof.
  intros [Ha Hv]. destruct (base_ok f) as [Hf Hal]. assert (E : PG.Entry_get (PG.Entry_new (base f) at_ PG.pt) PG.pt = (base f, at_)).
  { by apply Entry_get_new. }
  cbn [leaf_view]. unfold PG.is_set. rewrite E. cbn [snd]. by rewrite Hv.
Qed.
Record filled (lo hi : Z) m (r : res Error unit) w w' : Prop := mk_filled {
  fi_tree : tree w';
  fi_quiet : quiet w w';
  fi_out x : user x -> ~ (lo <= x < hi) -> um w' x = um w x;
  fi_in x : lo <= x < hi -> um w' x = um w x \/ (um w x = None /\ exists f, um w' x = Some (O, (base f, attr m)));
  fi_done : r = Ok tt -> forall x, lo <= x < hi -> um w' x <> None;
}.
Lemma filled_page a hi m r w w1 w' : a mod 4096 = 0 -> 0 <= a -> a + 4096 <= hi -> hi <= UEND -> quiet w w1 ->
  (forall y, user y -> ~ (a <= y < a + 4096) -> um w1 y = um w y) ->
  (forall y, a <= y < a + 4096 -> (um w1 y = um w y \/ (um w y = None /\ exists f, um w1 y = Some (O, (base f, attr m)))) /\ um w1 y <> None) ->
  filled (a + 4096) hi m r w1 w' -> filled a hi m r w w'.
Proof.
  intros Hal Ha Hhi Hend Hq Hout Hin [Ct Cq Co Ci Cd]. split; [done|by eapply quiet_trans| | |].
  - intros x Hx Hn. rewrite Co by (try done; lia). apply Hout; [done|lia].
  - intros x Hx. assert (Hux : user x) by (unfold user; lia). destruct (decide (x < a + 4096)).
    + rewrite Co by (try done; lia). apply Hin. lia.
    + rewrite <- (Hout x) by (try done; lia). apply Ci. lia.
  - intros Er x Hx. assert (Hux : user x) by (unfold user; lia). destruct (decide (x < a + 4096)).
    + rewrite Co by (try done; lia). apply Hin. lia.
    + apply Cd; [done|lia].
Qed.
Lemma filled_stop lo hi m r w w' : tree w' -> quiet w w' -> (forall y, user y -> um w' y = um w y) -> hi <= UEND -> 0 <= lo -> r <> Ok tt -> filled lo hi m r w w'.
Proof. intros Ht Hq Hu Hhi Hlo Hr. split; try done; [intros x Hx _; by apply Hu|]. intros x Hx. left. apply Hu. unfold user. lia. Qed.
(** The guard, when the loop stops. *)
Lemma stop_flush {X} w w1 (e : Error) addr flushed (c : M X) : 0 <= hart w1 < 64 -> fits 64 (cpu_mask (self w)) -> 0 <= flushed -> flushed * 4096 < 2 ^ 64 ->
  c w = Some (Err e, w1) -> exists evs,
  on_err (tlb_flush (cpu_mask (self w)) addr flushed) c w = Some (Err e, mk_world (self w1) (hp w1) (pt w1) (fences w1 ++ evs) (hart w1)).
Proof.
  intros Hh Hm Hf Hf64 E. destruct (tlb_flush_ok w1 (cpu_mask (self w)) addr flushed) as (evs & E' & _); try done. exists evs.
  unfold on_err. rewrite E. by rewrite (PT_bind_Ok _ _ _ _ _ E').
Qed.
Record page_done (a : Z) m (r : res Error Z) (flushed : Z) w w1 : Prop := mk_page_done {
  pd_tree : tree w1;
  pd_quiet : quiet w w1;
  pd_out y : user y -> ~ (a <= y < a + 4096) -> um w1 y = um w y;
  pd_in y : a <= y < a + 4096 -> um w1 y = um w y \/ (um w y = None /\ exists f, um w1 y = Some (O, (base f, attr m)));
  pd_ok fl : r = Ok fl -> flushed <= fl <= flushed + 1 /\ forall y, a <= y < a + 4096 -> um w1 y <> None;
}.
Lemma page_done_same a m r flushed w w1 : tree w1 -> quiet w w1 -> a mod 4096 = 0 -> user a -> (forall y, user y -> um w1 y = um w y) ->
  (forall fl, r = Ok fl -> fl = flushed /\ um w a <> None) -> page_done a m r flushed w w1.
Proof.
  intros Ht Hq Hal Ha Hu Hr. unfold user in Ha. assert (Hy : forall y, a <= y < a + 4096 -> user y) by (intros y Hy; unfold user; Z.div_mod_to_equations; lia).
  split; try done; [intros y Huy _; by apply Hu|intros y Hya; left; by apply Hu, Hy|].
  intros fl Ef. destruct (Hr fl Ef) as [-> Hne]. split; [lia|]. intros y Hya. rewrite Hu by (by apply Hy).
  by rewrite (um_page w y a (Hy _ Hya) Ha) by (Z.div_mod_to_equations; lia).
Qed.
Lemma commit_page_sound n m a index flushed expect_attr w r w1 : tree w -> user a -> a mod 4096 = 0 -> attr_ok (attr m) ->
  commit_page base n m (root (self w)) a index flushed expect_attr w = Some (r, w1) -> page_done a m r flushed w w1.
Proof.
  intros Ht Ha Hal Hat E. unfold commit_page in E. destruct (PG.contains (attr m) _); cbn in E; [|by injection E as <- <-; apply page_done_same].
  destruct (look_alloc_ok w a Ht Ha) as (r1 & s' & El & Ht1 & Hu1 & Hr1). unfold mbind, PT_bind in E. rewrite El in E.
  destruct r1 as [[p e]|e|]; [|injection E as <- <-; by apply page_done_same|done].
  pose proof (pte_um _ _ _ _ Ha Hr1) as He. rewrite Hu1 in He by done. cbn [leaf_view] in He.
  destruct (PG.is_set e) eqn:Es.
  { injection E as <- <-. apply page_done_same; try done. intros fl [= <-]. split; [done|]. by rewrite He. }
  destruct (on_heap _ _) as [[r2 w2]|] eqn:E2; [|done]. apply on_heap_Some in E2 as (h & _ & ->).
  destruct r2 as [[f l]|e2|]; [|injection E as <- <-; by apply page_done_same..].
  destruct (write_pte_ok _ a p e (PG.Entry_new (base f) (attr m) PG.pt) Ha (pte_heap _ h _ _ _ Hr1)) as (s2 & Ew & Ht2 & Hu2).
  rewrite Ew in E. injection E as <- <-.
  assert (Hin : forall y, a <= y < a + 4096 -> user y) by (intros y Hy; unfold user in *; Z.div_mod_to_equations; lia).
  assert (Hview : forall y, a <= y < a + 4096 -> um (with_pt s2 (mk_world (self w) h s' (fences w) (hart w))) y = Some (O, (base f, attr m))).
  { intros y Hy. rewrite <- (new_entry_view f (attr m) Hat). etransitivity; [apply Hu2; by apply Hin|]. by rewrite (proj2 (same_page y a Hal)). }
  split; try done.
  - intros y Hy Hn. etransitivity; [apply Hu2; done|]. destruct (y / 4096 =? a / 4096) eqn:Ey; [apply same_page in Ey; [lia|done]|]. by apply Hu1.
  - intros y Hy. right. split; [|exists f; by apply Hview]. rewrite (um_page w y a (Hin _ Hy) Ha) by (Z.div_mod_to_equations; lia). done.
  - intros fl [= <-]. split; [lia|]. intros y Hy. by rewrite Hview.
Qed.
Lemma commit_loop_sound n m offset expect_attr k : forall c flushed addr w r w',
  tree w -> hart_ok w -> attr_ok (attr m) -> 0 <= c -> 0 <= addr -> addr mod 4096 = 0 -> addr + (c + Z.of_nat k) * 4096 <= UEND -> 0 <= flushed <= c ->
  commit_loop base n k c flushed m (root (self w)) addr offset (cpu_mask (self w)) expect_attr w = Some (r, w') ->
  r <> Panic -> filled (addr + c * 4096) (addr + (c + Z.of_nat k) * 4096) m r w w'.
Proof.
  induction k as [|k IH]; intros c flushed addr w r w' Ht Hh Hat Hc Ha Hal Hend Hfl E Hr; cbn [commit_loop] in E.
  - destruct (tlb_flush_ok w (cpu_mask (self w)) addr flushed) as (evs & E' & _); [apply Hh|apply Hh|lia|lia|].
    rewrite E in E'. injection E' as -> ->. split; try done; intros; lia.
  - rewrite (page_at_eq addr c) in E by lia. set (a := addr + c * 4096) in *. assert (Haa : a mod 4096 = 0) by (unfold a; Z.div_mod_to_equations; lia).
    assert (Hua : user a) by (unfold user; lia). replace (addr + (c + Z.of_nat (S k)) * 4096) with (addr + (c + 1 + Z.of_nat k) * 4096) by lia.
    assert (Ea : a + 4096 = addr + (c + 1) * 4096) by lia.
    destruct (commit_page base n m (root (self w)) a (index_at m offset c) flushed expect_attr w) as [[r1 w1]|] eqn:E1; unfold mbind, PT_bind in E.
    2: { unfold on_err in E. by rewrite E1 in E. }
    destruct (commit_page_sound _ _ _ _ _ _ _ _ _ Ht Hua Haa Hat E1) as [Ht1 [Hq1 Hq2] Ho1 Hi1 Hk1]. destruct r1 as [fl|e|].
    + unfold on_err in E. rewrite E1 in E. destruct (Hk1 fl eq_refl) as [Hfl1 Hne]. rewrite <- Hq1 in E.
      apply IH in E; try done; try lia; [|by split; rewrite ?Hq1, ?Hq2; apply Hh]. rewrite <- Ea in E. eapply filled_page; [done|lia|lia|lia|by split|done| |done].
      intros y Hy. split; [by apply Hi1|by apply Hne].
    + destruct (stop_flush w w1 e addr flushed _ ltac:(rewrite Hq2; apply Hh) ltac:(apply Hh) ltac:(lia) ltac:(lia) E1) as [evs E2]. rewrite E2 in E. injection E as <- <-.
      split; try done.
      * intros x Hx Hn. apply Ho1; [done|lia].
      * intros x Hx. destruct (decide (x < a + 4096)); [apply Hi1; lia|left; apply Ho1; [unfold user|]; lia].
    + unfold on_err in E. rewrite E1 in E. by injection E as <- _.
Qed.
End VirtSpec.
