(* ===== verification/VirtOps.v ===== *)
(** * kmem: the invariant of an address space

    Every page in the table of an address space is in a mapping and has its rights: no
    translation outlives its mapping.  The operations keep this, unless a range cuts a
    mapping in two.  The operations on one page, and what a commit puts into the table,
    are in the later sections. *)

From S2P Require Import Prelude BTree RangeMap Aslr Ksc Bytes Paging PageTree PageUnmap Umio Phys Virt VirtSpec PhysInv PhysCommit PhysClone PhysWrite PhysUse.

Import Errno Virt.

(** The bits that the hardware does not set. *)
Definition rights (at_ : Z) : Z := Z.land at_ 0x3f.

(** ** The map *)
Definition item_good (p : Z * (Z * Mapping)) : Prop := p.1 mod 4096 = 0 /\ p.2.1 mod 4096 = 0 /\ attr_ok (attr p.2.2).
Record space (rm : RM.RangeMap Mapping) : Prop := mk_space {
  sp_wf : RM.wf rm;
  sp_range : 0 <= RM.rstart (RM.range rm) < RM.rend (RM.range rm) /\ RM.rend (RM.range rm) <= UEND;
  sp_root : RM.rstart (RM.range rm) mod 4096 = 0 /\ RM.rend (RM.range rm) mod 2 ^ 30 = 0;
  sp_items p : In p (RM.map rm) -> item_good p;
}.
Lemma space_bounds rm p : space rm -> In p (RM.map rm) -> 0 <= p.1 < p.2.1 /\ p.2.1 <= UEND.
Proof. intros [Hwf Hr _ _] Hp. destruct (RM.seg_wf_item _ _ _ Hwf Hp) as (? & ? & ?). lia. Qed.
Lemma space_new lo hi : 0 <= lo < hi -> hi <= UEND -> lo mod 4096 = 0 -> hi mod 2 ^ 30 = 0 -> space (RM.new (RM.mk_range lo hi)).
Proof. intros. split; try done. split; constructor. Qed.
Lemma space_at rm p x : space rm -> In p (RM.map rm) -> p.1 <= x < p.2.1 -> RM.at_ rm x = Some p.2.2.
Proof. intros Hs Hp Hx. apply RM.at_Some; [apply Hs|]. exists p. split_and!; [done| |done]. unfold RM.covers. lia. Qed.
Lemma space_insert rm lo hi m : space rm -> RM.key_vacant rm (RM.mk_range lo hi) = true -> lo mod 4096 = 0 -> hi mod 4096 = 0 -> attr_ok (attr m) ->
  let rm' := RM.mk_rm (RM.range rm) (bt_insert (RM.map rm) lo (hi, m)) in
  space rm' /\ (forall x, RM.at_ rm' x = if in_range (RM.mk_range lo hi) x then Some m else RM.at_ rm x) /\ (forall x v, RM.at_ rm x = Some v -> RM.at_ rm' x = Some v).
Proof.
  intros [Hwf Hr Hro Hit] Hv Hlo Hhi Ha. pose proof (insert_vacant_at rm (RM.mk_range lo hi) m) as Hat. cbn in *.
  split; [split; try done|split; [intros x; by apply Hat|]].
  - by apply (insert_vacant_wf rm (RM.mk_range lo hi) m).
  - cbn. intros p Hp. apply In_bt_insert in Hp as [->|Hp]; [by split|by apply Hit|by eapply RM.seg_wf_bt|by apply (vacant_get_None rm (RM.mk_range lo hi))].
  - intros x v Hx. rewrite Hat by done. destruct (in_range _ x) eqn:Ex; [|done].
    apply free_range_iff in Hv as (_ & _ & _ & Hfree); [|done]. by rewrite Hfree in Hx.
Qed.
(** Some of the entries. *)
Lemma space_filter rm f : space rm -> let rm' := RM.mk_rm (RM.range rm) (List.filter f (RM.map rm)) in
  space rm' /\ forall x, RM.at_ rm' x = match List.find (RM.covers x) (RM.map rm) with Some p => if f p then Some p.2.2 else None | None => None end.
Proof.
  intros [Hwf Hr Hro Hit]. assert (Hs : space (RM.mk_rm (RM.range rm) (List.filter f (RM.map rm)))).
  { split; try done; [by apply RM.seg_wf_filter|]. cbn. intros p [Hp _]%filter_In. by apply Hit. }
  split; [done|]. intros x. destruct (List.find (RM.covers x) (RM.map rm)) as [p|] eqn:E.
  - apply find_some in E as [Hp Hc]. destruct (f p) eqn:Ef.
    + apply RM.at_Some; [apply Hs|]. exists p. split_and!; [|done|done]. cbn. by apply filter_In.
    + apply RM.at_None. cbn. intros q [Hq Hfq]%filter_In. destruct (RM.covers x q) eqn:Eq; [|done].
      assert (q = p) as -> by (by eapply RM.seg_wf_disjoint). congruence.
  - apply RM.at_None. cbn. intros q [Hq _]%filter_In. by eapply find_none in E.
Qed.
(** Another value for an entry. *)
Lemma bt_nodup {V} (l : list (Z * V)) : bt_wf l -> NoDup l.
Proof.
  induction l as [|p l IH]; [constructor|]. intros [Hw HF]%bt_wf_inv. constructor; [|by apply IH]. intros Hin. rewrite Forall_forall in HF.
  specialize (HF p Hin). unfold key_lt in HF. by rewrite kltb_irrefl in HF.
Qed.
Lemma bt_insert_over {V} (l1 l2 : list (Z * V)) k v v' : bt_wf (l1 ++ (k, v) :: l2) -> bt_insert (l1 ++ (k, v) :: l2) k v' = l1 ++ (k, v') :: l2.
Proof.
  induction l1 as [|[k1 v1] l1 IH]; cbn [app bt_insert].
  - intros _. by rewrite !kltb_irrefl.
  - intros [Hw HF]%bt_wf_inv. rewrite Forall_app, Forall_cons in HF. destruct HF as (_ & Hlt & _). unfold key_lt in Hlt. cbn [fst] in Hlt.
    rewrite (kltb_asym _ _ Hlt), Hlt. by rewrite IH.
Qed.
Lemma seg_wf_over {V} r (l1 l2 : list (Z * (Z * V))) s t v v' : RM.seg_wf r (l1 ++ (s, (t, v)) :: l2) -> RM.seg_wf r (l1 ++ (s, (t, v')) :: l2).
Proof.
  intros (H1 & (Hp & HF & H2)%RM.seg_wf_cons & H3)%RM.seg_wf_app. apply RM.seg_wf_app. split_and!; [done| |].
  - apply RM.seg_wf_cons. done.
  - eapply Forall_impl; [exact H3|]. cbn. intros q Hq. inversion Hq; subst. by constructor.
Qed.
Lemma space_write rm p m : space rm -> In p (RM.map rm) -> attr_ok (attr m) -> let rm' := RM.write_value rm p.1 m in
  space rm' /\ RM.range rm' = RM.range rm /\ (forall x, RM.at_ rm' x = if RM.covers x p then Some m else RM.at_ rm x) /\
  forall q, In q (RM.map rm') <-> q = (p.1, (p.2.1, m)) \/ (In q (RM.map rm) /\ q <> p).
Proof.
  intros [Hwf Hr Hro Hit] Hp Ha. destruct p as [s [t v]]. pose proof (RM.seg_wf_bt _ _ Hwf) as Hbt. unfold RM.write_value. cbn [fst snd].
  rewrite (proj2 (bt_get_In _ _ _ Hbt) Hp). pose proof (in_split _ _ Hp) as (l1 & l2 & El).
  assert (Eb : bt_insert (RM.map rm) s (t, m) = l1 ++ (s, (t, m)) :: l2) by (rewrite El in Hbt |- *; by eapply bt_insert_over). rewrite Eb.
  assert (Hwf' : RM.wf (RM.mk_rm (RM.range rm) (l1 ++ (s, (t, m)) :: l2))).
  { unfold RM.wf in *. cbn. rewrite El in Hwf. by eapply seg_wf_over. }
  assert (Hnd : NoDup (RM.map rm)) by (eapply bt_nodup; exact Hbt). rewrite El in Hnd. apply NoDup_app in Hnd as (_ & Hd & Hnd). apply NoDup_cons in Hnd as [Hn2 _].
  assert (Hin : forall q, In q (l1 ++ (s, (t, m)) :: l2) <-> q = (s, (t, m)) \/ (In q (RM.map rm) /\ q <> (s, (t, v)))).
  { intros q. rewrite El, !in_app_iff. cbn. rewrite <- !list_elem_of_In. split.
    - intros [Hq|[<-|Hq]]; [right|by left|right]; (split; [tauto|]); intros ->; [apply (Hd _ Hq); by left|done].
    - intros [->|[[Hq|[<-|Hq]] Hne]]; tauto. }
  split_and!; [split; try done| |intros x|done]; [..|done|].
  - cbn. intros q Hq. apply Hin in Hq as [->|[Hq _]]; [|by apply Hit]. destruct (Hit _ Hp) as (? & ? & _). by split.
  - destruct (RM.covers x (s, (t, v))) eqn:Ex.
    + apply RM.at_Some; [done|]. exists (s, (t, m)). split_and!; [|done|done]. cbn. apply Hin. by left.
    + destruct (RM.at_ rm x) as [m0|] eqn:E0.
      * apply RM.at_Some in E0 as (q & Hq & Hc & <-); [|done]. apply RM.at_Some; [done|]. exists q. split_and!; [|done|done]. cbn. apply Hin. right. split; [done|].
        intros ->. congruence.
      * apply RM.at_None. cbn. intros q Hq. rewrite RM.at_None in E0. apply Hin in Hq as [->|[Hq _]]; [done|by apply E0].
Qed.

(** ** The invariant *)
Section Good.
Context {T : Type} `{IoT : Umio.Io T} {A : Type} `{PAS : PageAllocSpec A} (base : nat -> Z).
Hypothesis base_ok : forall f, fits 56 (base f) /\ base f mod 4096 = 0.
Notation world := (world (T := T) (A := A)).
Notation M := (PT world Error).
Implicit Types (w : world) (m : Mapping).
Notation um := (um (T := T) (A := A)).

(** The translation [t] of [x] is one of the mapping there. *)
Definition backed w (x : Z) (t : nat * (Z * Z)) : Prop :=
  exists m f, RM.at_ (vmap (self w)) x = Some m /\ t.1 = O /\ t.2.1 = base f /\ rights t.2.2 = rights (attr m).
Record good w : Prop := mk_good {
  g_tree : tree w;
  g_hart : hart_ok w;
  g_space : space (vmap (self w));
  g_coh x t : user x -> um w x = Some t -> backed w x t;
}.
Lemma backed_quiet w w' x t : quiet w w' -> backed w x t -> backed w' x t.
Proof. unfold backed. intros [-> _]. done. Qed.
Lemma hart_quiet w w' : quiet w w' -> hart_ok w -> hart_ok w'.
Proof. unfold hart_ok. intros [-> ->]. done. Qed.
Lemma good_filled w w' lo hi m r : good w -> 0 <= lo -> hi <= UEND -> (forall x, lo <= x < hi -> RM.at_ (vmap (self w)) x = Some m) -> filled base lo hi m r w w' -> good w'.
Proof.
  intros [Ht Hh Hs Hc] Hlo Hhi Hm [Ft Fq Fo Fi _]. split; [done|by eapply hart_quiet|by rewrite (proj1 Fq)|].
  intros x t Hx Hu. destruct (decide (lo <= x < hi)) as [Hin|Hout].
  - destruct (Fi x Hin) as [E|(_ & f & E)]; rewrite E in Hu; [by eapply backed_quiet, Hc|]. injection Hu as <-.
    exists m, f. rewrite (proj1 Fq). split_and!; try done. by apply Hm.
  - rewrite Fo in Hu by done. by eapply backed_quiet, Hc.
Qed.
Lemma good_cleared w w' lo hi evs : good w -> 0 <= lo -> hi <= UEND -> cleared lo hi evs w w' -> good w'.
Proof.
  intros [Ht Hh Hs Hc] Hlo Hhi [Ft Fq Ff Fo Fi]. split; [done|by eapply hart_quiet|by rewrite (proj1 Fq)|].
  intros x t Hx Hu. destruct (decide (lo <= x < hi)) as [Hin|Hout].
  - destruct (Fi x Hin) as [[E _]|[E _]]; rewrite E in Hu; [done|by eapply backed_quiet, Hc].
  - rewrite Fo in Hu by done. by eapply backed_quiet, Hc.
Qed.
(** Where the table has 4 KiB pages only, nothing is left. *)
Lemma cleared_none w w' lo hi evs x : good w -> 0 <= lo -> hi <= UEND -> cleared lo hi evs w w' -> lo <= x < hi -> um w' x = None.
Proof.
  intros Hg Hlo Hhi [Ft Fq Ff Fo Fi] Hx. destruct (Fi x Hx) as [[E _]|[E Hno]]; [done|]. rewrite E.
  destruct (um w x) as [[l v]|] eqn:Eu; [|done]. destruct (g_coh w Hg x (l, v)) as (m & f & _ & El & _); [unfold user; lia|done|]. cbn in El. subst l. by destruct (Hno v).
Qed.
End Good.

(** * kmem: the operations of an address space keep its invariant *)
Import Errno Virt.

Lemma and_page_mask x : Z.land x PAGE_MASK = x mod 4096.
Proof. change PAGE_MASK with (2 ^ 12 - 1). by rewrite land_mask. Qed.
Lemma and_not_page_mask x : fits 64 x -> Z.land x (wnot 64 PAGE_MASK) = x / 4096 * 4096.
Proof. intros Hx. change PAGE_MASK with (2 ^ 12 - 1). by rewrite (land_not_mask 64) by (try done; lia). Qed.

Section Ops.
Context {T : Type} `{IoT : Umio.Io T} {A : Type} `{PAS : PageAllocSpec A} (base : nat -> Z).
Hypothesis base_ok : forall f, fits 56 (base f) /\ base f mod 4096 = 0.
Notation world := (world (T := T) (A := A)).
Notation M := (PT world Error).
Implicit Types (w : world) (m : Mapping).
Notation um := (um (T := T) (A := A)).
Notation good := (good (T := T) (A := A) base).

Lemma get_map_ok w : get_map w = Some (Ok (vmap (self w)), w).
Proof. done. Qed.

(** ** The part of a mapping in a range *)
Lemma clip_ok rm p lo hi : space rm -> In p (RM.map rm) -> RM.overlaps (RM.mk_range lo hi) p = true -> 0 <= lo < hi -> lo mod 4096 = 0 -> hi mod 4096 = 0 ->
  exists start offset count, clip lo hi (RM.mk_range p.1 p.2.1) = (start, offset, count) /\ 0 <= count /\ start = Z.max lo p.1 /\ start mod 4096 = 0 /\
    offset = (start - p.1) / 4096 /\ start + count * 4096 = Z.min hi p.2.1 /\ p.1 <= start /\ start + count * 4096 <= p.2.1 /\ p.2.1 <= UEND.
Proof.
  intros Hs Hp Ho Hlo Hl4 Hh4. destruct (space_bounds rm p Hs Hp) as [? ?]. destruct (sp_items _ Hs p Hp) as (Ha & Hb & _).
  unfold RM.overlaps in Ho. cbn in Ho. unfold clip. cbn. rewrite !Z.shiftr_div_pow2 by done. change (2 ^ PAGE_SHIFT) with 4096.
  rewrite !wsub_small by (unfold fits; lia).
  assert (Hst : Z.max lo p.1 mod 4096 = 0) by (destruct (Z.max_spec lo p.1) as [[_ ->]|[_ ->]]; done).
  assert (Hen : Z.min hi p.2.1 mod 4096 = 0) by (destruct (Z.min_spec hi p.2.1) as [[_ ->]|[_ ->]]; done).
  eexists _, _, _. split; [done|]. assert ((Z.min hi p.2.1 - Z.max lo p.1) mod 4096 = 0) by (Z.div_mod_to_equations; lia).
  assert (Hc : (Z.min hi p.2.1 - Z.max lo p.1) / 4096 * 4096 = Z.min hi p.2.1 - Z.max lo p.1) by (Z.div_mod_to_equations; lia).
  split_and!; try done; try lia.
Qed.

(** ** Committing *)
Lemma commit_some_sound n w m addr offset count expect_attr r w' : tree w -> hart_ok w -> attr_ok (attr m) -> 0 <= count -> 0 <= addr -> addr mod 4096 = 0 ->
  addr + count * 4096 <= UEND -> commit_some base n m addr offset count expect_attr w = Some (r, w') -> r <> Panic ->
  filled base addr (addr + count * 4096) m r w w'.
Proof.
  intros Ht Hh Hat Hc Ha Hal Hend E Hr. unfold commit_some in E. rewrite (PT_bind_Ok get _ w w w) in E by done.
  destruct (Z.eqb_spec count 0) as [->|Hne].
  - injection E as <- <-. split; try done; intros; lia.
  - unfold mapping_commit in E. apply (commit_loop_sound base base_ok) in E; try done; try lia. rewrite Z2Nat.id in E by lia.
    by rewrite Z.mul_0_l, Z.add_0_r, Z.add_0_l in E.
Qed.
(** A part of a mapping of the address space. *)
Lemma commit_part n w p start offset count expect_attr r w' : good w -> In p (RM.map (vmap (self w))) -> 0 <= count -> p.1 <= start -> start mod 4096 = 0 ->
  start + count * 4096 <= p.2.1 -> commit_some base n p.2.2 start offset count expect_attr w = Some (r, w') -> r <> Panic ->
  good w' /\ filled base start (start + count * 4096) p.2.2 r w w'.
Proof.
  intros Hg Hp Hc Hs Hal He E Hr. pose proof (g_space _ _ Hg) as Hsp. destruct (space_bounds _ _ Hsp Hp) as [? ?]. destruct (sp_items _ Hsp p Hp) as (_ & _ & Hat).
  assert (Hf : filled base start (start + count * 4096) p.2.2 r w w') by (eapply commit_some_sound; try done; try apply Hg; lia).
  split; [|done]. eapply good_filled; [exact Hg| | | |exact Hf]; [lia|lia|]. intros x Hx. apply space_at; [done|done|lia].
Qed.
Lemma In_intersection rm lo hi k m l1 l2 : space rm -> RM.intersection rm (RM.mk_range lo hi) = l1 ++ (k, m) :: l2 ->
  exists p, In p (RM.map rm) /\ RM.overlaps (RM.mk_range lo hi) p = true /\ k = RM.mk_range p.1 p.2.1 /\ m = p.2.2.
Proof.
  intros Hs E. rewrite intersection_spec in E by apply Hs. assert (Hin : In (k, m) (List.map RM.entry_view (rev (List.filter (RM.overlaps (RM.mk_range lo hi)) (RM.map rm))))).
  { rewrite E. apply in_or_app. right. by left. }
  apply in_map_iff in Hin as (p & Ep & Hin). rewrite <- in_rev in Hin. apply filter_In in Hin as [Hp Ho]. exists p. unfold RM.entry_view in Ep. by injection Ep as <- <-.
Qed.
(** The page of an address, and the one mapping it can be in. *)
Lemma commit_form n addr expect_attr w : good w -> fits 64 addr ->
  (commit base n addr expect_attr w = Some (Err EFAULT, w) /\ RM.at_ (vmap (self w)) addr = None) \/
  exists p, In p (RM.map (vmap (self w))) /\ let lo := addr / 4096 * 4096 in p.1 <= lo /\ lo + 4096 <= p.2.1 /\
    commit base n addr expect_attr w = commit_some base n p.2.2 lo ((lo - p.1) / 4096) 1 expect_attr w.
Proof.
  intros Hg Ha. unfold commit. rewrite (PT_bind_Ok _ _ _ _ _ (get_map_ok w)). rewrite !and_not_page_mask; [|by apply wrap_fits|done].
  pose proof (g_space _ _ Hg) as Hs. set (lo := addr / 4096 * 4096). set (hi := wadd 64 addr PAGE_SIZE / 4096 * 4096).
  assert (Hlo : lo mod 4096 = 0 /\ 0 <= lo /\ lo <= addr < lo + 4096) by (unfold lo, fits in *; Z.div_mod_to_equations; lia).
  assert (Ehi : hi = lo + 4096 \/ hi = 0 /\ 2 ^ 63 <= lo).
  { unfold hi, lo. change PAGE_SIZE with 4096. unfold wadd, wrap. unfold fits in Ha.
    destruct (decide (addr + 4096 < 2 ^ 64)); [left; rewrite Z.mod_small by lia|right; replace ((addr + 4096) mod 2 ^ 64) with (addr + 4096 - 2 ^ 64) by (Z.div_mod_to_equations; lia)];
      Z.div_mod_to_equations; lia. }
  clearbody lo hi. destruct Hlo as (Hl4 & Hlo0 & Hlo).
  assert (Hcut : forall p, In p (RM.map (vmap (self w))) -> p.1 < lo + 4096 -> lo < p.2.1 -> p.1 <= lo /\ lo + 4096 <= p.2.1).
  { intros p Hp ? ?. destruct (sp_items _ Hs p Hp) as (Hp4 & Hq4 & _). Z.div_mod_to_equations; lia. }
  destruct (RM.intersection _ _) as [|[k m] l] eqn:Ei.
  - left. split; [done|]. destruct (RM.at_ _ addr) as [v|] eqn:Ea; [exfalso|done]. apply RM.at_Some in Ea as (p & Hp & Hc & _); [|apply Hs].
    destruct (space_bounds _ _ Hs Hp). unfold RM.covers in Hc. rewrite intersection_spec in Ei by apply Hs. apply map_eq_nil in Ei.
    assert (Hin : In p (rev (List.filter (RM.overlaps (RM.mk_range lo hi)) (RM.map (vmap (self w)))))); [|by rewrite Ei in Hin].
    rewrite <- in_rev. apply filter_In. split; [done|]. unfold RM.overlaps. cbn. destruct Ehi as [-> | ?]; lia.
  - right. destruct (In_intersection _ _ _ _ _ [] l Hs Ei) as (p & Hp & Ho & -> & ->). destruct (space_bounds _ _ Hs Hp). pose proof Ho as Ho'. unfold RM.overlaps in Ho'. cbn in Ho'.
    destruct Ehi as [-> | ?]; [|lia]. destruct (Hcut p Hp) as [Hc1 Hc2]; [lia|lia|].
    destruct (clip_ok _ p lo (lo + 4096) Hs Hp Ho) as (start & offset & count & Ec & Hc & Hst & Hs4 & Hof & Hmin & _); [lia|done|Z.div_mod_to_equations; lia|].
    exists p. split_and!; try done. rewrite Ec. rewrite Z.max_l in Hst by done. rewrite Z.min_l in Hmin by lia. rewrite Hof, Hst. assert (count = 1) as -> by lia. done.
Qed.
Lemma commit_good n addr expect_attr w r w' : good w -> fits 64 addr -> commit base n addr expect_attr w = Some (r, w') -> r <> Panic ->
  good w' /\ quiet w w' /\ (forall x, user x -> x / 4096 <> addr / 4096 -> um w' x = um w x) /\ (r = Ok tt -> um w' addr <> None).
Proof.
  intros Hg Ha E Hr. destruct (commit_form n addr expect_attr w Hg Ha) as [[E' _]|(p & Hp & Hlo & Hhi & E')]; rewrite E' in E; [by injection E as <- <-|].
  set (lo := addr / 4096 * 4096) in *. destruct (commit_part n w p lo ((lo - p.1) / 4096) 1 expect_attr r w' Hg Hp) as [Hg' Hf]; try done; try (unfold lo; Z.div_mod_to_equations; lia).
  split_and!; [done|apply Hf| |].
  - intros x Hx Hne. apply (fi_out _ _ _ _ _ _ _ Hf); [done|]. unfold lo. Z.div_mod_to_equations; lia.
  - intros ->. apply (fi_done _ _ _ _ _ _ _ Hf); [done|]. unfold lo. Z.div_mod_to_equations; lia.
Qed.

(** ** Committing a range *)
(** The entries of the map that a range meets. *)
Definition meets (lo hi : Z) w (e : RM.Range * Mapping) : Prop :=
  exists p, In p (RM.map (vmap (self w))) /\ RM.overlaps (RM.mk_range lo hi) p = true /\ e = (RM.mk_range p.1 p.2.1, p.2.2).
Lemma meets_intersection w lo hi : space (vmap (self w)) -> Forall (meets lo hi w) (RM.intersection (vmap (self w)) (RM.mk_range lo hi)).
Proof.
  intros Hs. apply List.Forall_forall. intros [k m] Hin. apply in_split in Hin as (l1 & l2 & E).
  destruct (In_intersection _ _ _ _ _ _ _ Hs E) as (p & Hp & Ho & -> & ->). by exists p.
Qed.
Lemma meets_quiet lo hi w w' l : quiet w w' -> Forall (meets lo hi w) l -> Forall (meets lo hi w') l.
Proof. intros [E _]. unfold meets. by rewrite E. Qed.
Lemma is_committed_same k : forall c m addr expect_attr w, tree w -> 0 <= c -> 0 <= addr -> addr + (c + Z.of_nat k) * 4096 <= UEND ->
  exists r, is_committed_loop k c m (root (self w)) addr expect_attr w = Some (r, w) /\ r <> Panic.
Proof.
  induction k as [|k IH]; intros c m addr expect_attr w Ht Hc Ha He; cbn [is_committed_loop]; [by eexists|].
  destruct (PG.contains _ _); [|by eexists]. cbn. rewrite page_at_eq by lia.
  destruct (look_pte_ok w (addr + c * 4096) Ht) as [(p & e & E & _)|(err & E & _)]; [unfold user; lia| |]; rewrite (PT_bind_Ok _ _ _ _ _ E); [|by eexists].
  destruct (PG.is_set e); [|by eexists]. apply IH; try done; lia.
Qed.
Lemma all_committed_same lo hi expect_attr l : forall acc w, good w -> 0 <= lo < hi -> lo mod 4096 = 0 -> hi mod 4096 = 0 -> Forall (meets lo hi w) l ->
  exists r, all_committed lo hi expect_attr acc l w = Some (r, w) /\ r <> Panic.
Proof.
  induction l as [|e l IH]; intros acc w Hg Hlo Hl4 Hh4 Hm; cbn [all_committed]; [by eexists|]. inversion Hm as [|? ? (p & Hp & Ho & ->) Hm']; subst.
  destruct (clip_ok _ p lo hi (g_space _ _ Hg) Hp Ho) as (start & offset & count & Ec & Hc & Hst & Hs4 & _ & Hmin & Hps & Hpe & Hu); try done.
  rewrite Ec. rewrite (PT_bind_Ok get _ w w w) by done. destruct (space_bounds _ _ (g_space _ _ Hg) Hp).
  destruct (is_committed_same (Z.to_nat count) 0 p.2.2 start expect_attr w (g_tree _ _ Hg)) as (r & E & Hr); [lia|lia|lia|].
  unfold is_committed, mbind, PT_bind. rewrite E. destruct r as [b|e|]; [by apply IH|by eexists|done].
Qed.
Lemma commit_all_good n lo hi expect_attr l : forall w r w', good w -> 0 <= lo < hi -> lo mod 4096 = 0 -> hi mod 4096 = 0 -> Forall (meets lo hi w) l ->
  commit_all base n lo hi expect_attr l w = Some (r, w') -> r <> Panic -> good w' /\ quiet w w'.
Proof.
  induction l as [|e l IH]; intros w r w' Hg Hlo Hl4 Hh4 Hm E Hr; cbn [commit_all] in E; [by injection E as <- <-|]. inversion Hm as [|? ? (p & Hp & Ho & ->) Hm']; subst.
  destruct (clip_ok _ p lo hi (g_space _ _ Hg) Hp Ho) as (start & offset & count & Ec & Hc & Hst & Hs4 & _ & Hmin & Hps & Hpe & Hu); try done.
  rewrite Ec in E. unfold mbind, PT_bind in E. destruct (commit_some _ _ _ _ _ _ _ w) as [[r1 w1]|] eqn:E1; [|done].
  destruct r1 as [[]|e|]; [| |by injection E as <- <-].
  - destruct (commit_part n w p start offset count expect_attr _ w1 Hg Hp Hc Hps Hs4 Hpe E1) as [Hg1 Hf]; [done|].
    destruct (IH w1 r w') as [Hg' Hq]; try done; [eapply meets_quiet; [apply Hf|done]|]. split; [done|]. eapply quiet_trans; [apply Hf|done].
  - injection E as <- <-. destruct (commit_part n w p start offset count expect_attr _ w1 Hg Hp Hc Hps Hs4 Hpe E1) as [Hg1 Hf]; [done|]. split; [done|apply Hf].
Qed.
Lemma attempt_Some {X} (f : M X) w r w' : attempt f w = Some (r, w') -> r = Panic \/ exists r0, r = Ok r0 /\ r0 <> Panic /\ f w = Some (r0, w').
Proof. unfold attempt. destruct (f w) as [[[x|e|] w1]|]; intros [= <- <-]; [right; by eexists..|by left]. Qed.
Lemma push_good n lo hi g w r w' : good w -> fits 64 lo -> lo < hi -> hi + 4096 <= 2 ^ 64 -> push base n lo hi g w = Some (r, w') -> r <> Panic -> good w'.
Proof.
  intros Hg Hlo Hhi Hh E Hr. unfold push in E. destruct (held g); [|by injection E as <- <-]. unfold fits in Hlo.
  rewrite !and_not_page_mask in E by (try (apply wrap_fits; lia); unfold fits; lia). rewrite wadd_small in E by (change PAGE_MASK with 4095; unfold fits; lia).
  change PAGE_MASK with 4095 in E. set (alo := lo / 4096 * 4096) in *. set (ahi := (hi + 4095) / 4096 * 4096) in *.
  assert (Ha : 0 <= alo < ahi /\ alo mod 4096 = 0 /\ ahi mod 4096 = 0) by (unfold alo, ahi; Z.div_mod_to_equations; lia). destruct Ha as (Ha & Hl4 & Hh4).
  rewrite (PT_bind_Ok _ _ _ _ _ (get_map_ok w)) in E. pose proof (meets_intersection w alo ahi (g_space _ _ Hg)) as Hm.
  destruct (all_committed_same alo ahi (gattr g) _ true w Hg Ha Hl4 Hh4 Hm) as (r1 & E1 & Hr1).
  unfold mbind, PT_bind, attempt in E. rewrite E1 in E. destruct r1 as [[]|e|]; [by injection E as <- <-| |by injection E as <- <-|done].
  destruct (commit_all _ _ _ _ _ _ w) as [[r2 w2]|] eqn:E2; [|done].
  destruct r2 as [[]|e|]; [| |by injection E as <- <-]; injection E as <- <-; by eapply commit_all_good in E2 as [? _].
Qed.
End Ops.

(** * kmem: address spaces, what a fault brings in

    A commit of one page to its end: it returns, the page table then has the frame
    that shows the bytes of the memory object, and what it fails with. *)
Import Errno Virt.

Section Commit.
Context {T : Type} `{IoT : Umio.Io T} `{BT : !Backing T} {A : Type} `{PAS : PageAllocSpec A} (base : nat -> Z).
Hypothesis base_ok : forall f, fits 56 (base f) /\ base f mod 4096 = 0.
Notation world := (world (T := T) (A := A)).
Implicit Types (w : world) (m : Mapping).
Notation um := (um (T := T) (A := A)).
Notation good := (good base).

Definition allows m (expect_attr : Z) : bool := PG.contains (attr m) (Z.lor expect_attr PG.USER_ACCESS).
(** The frame that is put in for page [i] of the object of [m]. *)
Definition shows_page m (i x : Z) w w' : Prop := exists f bs,
  um w' x = Some (O, (base f, attr m)) /\ sees (hp w) (phys m) i bs /\ Ph.pages (hp w') !! f = Some bs /\
  (PG.contains (attr m) PG.WRITABLE = true -> forall ph, in_use (hp w) (phys m) ph -> Ph.cow ph = true ->
    forall y j l, looks (Ph.physs (hp w')) y j (SFrame f l) -> y = phys m /\ j = i).

Lemma commit_page_ok rank n m ph a index flushed expect_attr w : tree w -> user a -> a mod 4096 = 0 -> attr_ok (attr m) ->
  wf rank (hp w) -> in_use (hp w) (phys m) ph -> 0 <= index < 2 ^ 51 -> (rank (phys m) + 2 <= n)%nat ->
  exists r w1, commit_page base n m (root (self w)) a index flushed expect_attr w = Some (r, w1) /\ match r with
    | Ok fl => allows m expect_attr = true /\ wf rank (hp w1) /\ pres (hp w) (hp w1) /\
        ((um w a <> None /\ fl = flushed /\ um w1 a = um w a) \/ (um w a = None /\ fl = flushed + 1 /\ shows_page m index a w w1))
    | Err e => if allows m expect_attr then e = ENOMEM \/ e = EEXIST \/ Ph.backs (hp w) <> ∅ else e = EPERM
    | Panic => False
    end.
Proof.
  intros Ht Ha Hal Hat Hw Hin Hi Hn. unfold commit_page. fold (allows m expect_attr). destruct (allows m expect_attr) eqn:Eal; cbn [negb]; [|by eexists _, _].
  destruct (look_alloc_ok w a Ht Ha) as (r1 & s' & El & Ht1 & Hu1 & Hr1). unfold mbind, PT_bind. rewrite El.
  destruct r1 as [[p e]|e|]; [|eexists _, _; split; [done|]; cbn; tauto|done].
  pose proof (pte_um _ _ _ _ Ha Hr1) as He. rewrite Hu1 in He by done. cbn [leaf_view] in He.
  destruct (PG.is_set e) eqn:Es.
  { eexists _, _. split; [done|]. split_and!; [done|done|apply pres_refl|]. left. rewrite Hu1 by done. by rewrite He. }
  set (wr := if PG.contains (attr m) PG.WRITABLE then Some PAGE_SIZE else None). destruct Hin as [Hp Hb].
  destruct (commit_ok rank n (hp w) (phys m) ph index wr Hw Hp Hb Hi) as (r2 & h & Ec & Hr2); [|done|].
  { intros nl. unfold wr. destruct (PG.contains _ _); intros [= <-]. by split. }
  unfold on_heap. cbn [hp with_pt]. rewrite Ec. destruct r2 as [[f l]|e2|]; [| |done].
  2: { eexists _, _. split; [done|]. cbn. destruct Hr2 as [[-> _]|?]; tauto. }
  destruct Hr2 as (Hw' & Hpr & Hsh & Hown).
  destruct (write_pte_ok _ a p e (PG.Entry_new (base f) (attr m) PG.pt) Ha (pte_heap _ h _ _ _ Hr1)) as (s2 & Ew & Ht2 & Hu2).
  rewrite Ew. eexists _, _. split; [done|]. split_and!; [done|done|done|]. right. split_and!; [done|done|].
  destruct (commit_bytes rank (hp w) h (phys m) ph index f l wr Hw (conj Hp Hb) Hw' Hpr Hsh) as (bs & Hbs & Hpg). exists f, bs. split_and!; [|done|done|].
  - rewrite <- (new_entry_view base base_ok f (attr m) Hat). etransitivity; [by apply Hu2|]. by rewrite Z.eqb_refl.
  - intros Hwr ph' [Hp' _] Hc y j l' Hlk. assert (ph' = ph) as -> by congruence. unfold wr in Hown. rewrite Hwr in Hown.
    eapply alone; [exact Hw'|by apply Hown|exact Hlk|by exists l'].
Qed.

(** The guard when the one page has been dealt with. *)
Lemma commit_one_ok rank n m ph a offset expect_attr w : tree w -> hart_ok w -> user a -> a mod 4096 = 0 -> attr_ok (attr m) ->
  wf rank (hp w) -> in_use (hp w) (phys m) ph -> 0 <= index_at m offset 0 < 2 ^ 51 -> (rank (phys m) + 2 <= n)%nat ->
  exists r w1, commit_some base n m a offset 1 expect_attr w = Some (r, w1) /\ match r with
    | Ok _ => allows m expect_attr = true /\ wf rank (hp w1) /\ pres (hp w) (hp w1) /\
        ((um w a <> None /\ um w1 a = um w a) \/ (um w a = None /\ shows_page m (index_at m offset 0) a w w1))
    | Err e => if allows m expect_attr then e = ENOMEM \/ e = EEXIST \/ Ph.backs (hp w) <> ∅ else e = EPERM
    | Panic => False
    end.
Proof.
  intros Ht Hh Ha Hal Hat Hw Hin Hi Hn. unfold commit_some, mapping_commit. rewrite (PT_bind_Ok get _ w w w) by done. cbn [Z.eqb].
  change (Z.to_nat 1) with 1%nat. cbn [commit_loop]. unfold user in Ha. assert (page_at a 0 = a) as -> by (rewrite page_at_eq by lia; lia).
  destruct (commit_page_ok rank n m ph a (index_at m offset 0) 0 expect_attr w Ht Ha Hal Hat Hw Hin Hi Hn) as (r & w1 & E & Hr).
  pose proof (commit_page_sound base base_ok _ _ _ _ _ _ _ _ _ Ht Ha Hal Hat E) as [_ [Hq1 Hq2] _ _ Hfl]. destruct Hh as [Hh1 Hh2].
  destruct r as [fl|e|]; [| |done].
  - unfold mbind, PT_bind, on_err. rewrite E. destruct (Hfl fl eq_refl) as [Hf _].
    destruct (tlb_flush_ok w1 (cpu_mask (self w)) a fl) as (evs & E' & _); [by rewrite Hq2|done|lia|lia|]. rewrite E'. eexists _, _. split; [done|].
    destruct Hr as (? & ? & ? & Hor). split_and!; try done. destruct Hor as [(? & _ & ?)|(? & _ & ?)]; [by left|by right].
  - destruct (stop_flush w w1 e a 0 _ ltac:(by rewrite Hq2) Hh2 ltac:(lia) ltac:(lia) E) as [evs E2]. unfold mbind, PT_bind. rewrite E2. by eexists _, _.
Qed.
End Commit.
