(* ===== verification/VirtUnmap.v ===== *)
(** * kmem: taking mappings out of an address space *)

From S2P Require Import Prelude BTree RangeMap Aslr Ksc Bytes Paging PageTree PageUnmap Umio Phys Virt VirtSpec VirtOps.
Import Errno Virt.

Section Unmap.
Context {T : Type} `{IoT : Umio.Io T} {A : Type} `{PAS : PageAllocSpec A} (base : nat -> Z).
Hypothesis base_ok : forall f, fits 56 (base f) /\ base f mod 4096 = 0.
Notation world := (world (T := T) (A := A)).
Notation M := (PT world Error).
Implicit Types (w : world) (m : Mapping).
Notation um := (um (T := T) (A := A)).
Notation good := (good (T := T) (A := A) base).

(** ** A set of pages is taken out *)
Definition same_hw w w' : Prop := root (self w') = root (self w) /\ cpu_mask (self w') = cpu_mask (self w) /\ hart w' = hart w.
Record shed (S : Z -> Prop) (evs : list fence) w w' : Prop := mk_shed {
  sh_hw : same_hw w w';
  sh_fences : fences w' = fences w ++ evs;
  sh_out x : user x -> ~ S x -> um w' x = um w x;
  sh_in x : user x -> S x -> (um w' x = None /\ covered (cpu_mask (self w)) (hart w) evs x) \/ (um w' x = um w x /\ forall v, um w x <> Some (O, v));
}.
Lemma same_hw_trans w1 w2 w3 : same_hw w1 w2 -> same_hw w2 w3 -> same_hw w1 w3.
Proof. unfold same_hw. intuition congruence. Qed.
Lemma quiet_hw w w' : quiet w w' -> same_hw w w'.
Proof. unfold same_hw. by intros [-> ->]. Qed.
Lemma shed_same w w' : same_hw w w' -> fences w' = fences w -> pt w' = pt w -> shed (fun _ => False) [] w w'.
Proof. intros Hh Hf Hp. split; try done; [by rewrite app_nil_r|]. intros x _ _. unfold um. by rewrite Hp, (proj1 Hh). Qed.
Lemma shed_cleared lo hi evs w w' : cleared lo hi evs w w' -> shed (fun x => lo <= x < hi) evs w w'.
Proof. intros [_ Hq Hf Ho Hi]. split; [by apply quiet_hw|done|done|]. intros x _ Hx. by apply Hi. Qed.
Lemma shed_trans S1 S2 evs1 evs2 w1 w2 w3 : (forall x, Decision (S1 x)) -> (forall x, Decision (S2 x)) ->
  shed S1 evs1 w1 w2 -> shed S2 evs2 w2 w3 -> shed (fun x => S1 x \/ S2 x) (evs1 ++ evs2) w1 w3.
Proof.
  intros D1 D2 [(R1 & C1 & H1) F1 O1 I1] [(R2 & C2 & H2) F2 O2 I2]. split; [split_and!; congruence|by rewrite F2, F1, app_assoc| |].
  - intros x Hx Hn. rewrite O2, O1 by tauto. done.
  - intros x Hx Hs. destruct (decide (S2 x)) as [HS2|HS2].
    + destruct (I2 x Hx HS2) as [[E Hc]|[E Hno]].
      * left. split; [done|]. rewrite C1, H1 in Hc. apply covered_app. by right.
      * rewrite E. destruct (decide (S1 x)) as [HS1|HS1]; [|right; rewrite <- (O1 x) by done; done].
        destruct (I1 x Hx HS1) as [[E1 Hc]|[E1 Hno1]]; [left; split; [done|apply covered_app; by left]|by right].
    + rewrite (O2 x Hx HS2). destruct (I1 x Hx) as [[E1 Hc]|[E1 Hno1]]; [tauto|left; split; [done|apply covered_app; by left]|by right].
Qed.
Lemma shed_iff S S' evs w w' : (forall x, user x -> S x <-> S' x) -> shed S evs w w' -> shed S' evs w w'.
Proof. intros HS [Hh Hf Ho Hi]. split; try done; intros x Hx Hs; [apply Ho; [done|by rewrite HS]|apply Hi; [done|by apply HS]]. Qed.

(** ** Decommitting *)
Lemma decommit_some_sound n w m addr offset count r w' : tree w -> hart_ok w -> 0 <= count -> 0 <= addr -> addr mod 4096 = 0 -> addr + count * 4096 <= UEND ->
  decommit_some n m addr offset count w = Some (r, w') -> r <> Panic -> r = Ok tt /\ exists evs, cleared addr (addr + count * 4096) evs w w'.
Proof.
  intros Ht Hh Hc Ha Hal He E Hr. destruct r as [[]|e|]; [|by apply no_err_decommit_some in E|done]. split; [done|].
  unfold decommit_some in E. rewrite (PT_bind_Ok get _ w w w) in E by done. destruct (Z.eqb_spec count 0) as [->|Hne].
  - injection E as <-. exists []. split; try done; [by rewrite app_nil_r|]. intros. lia.
  - unfold decommit in E. apply decommit_loop_sound in E as (evs & Hcl & _); try done; try lia. exists evs. rewrite Z2Nat.id in Hcl by lia.
    by rewrite Z.mul_0_l, Z.add_0_r, Z.add_0_l in Hcl.
Qed.
Lemma decommit_part n w p start offset count r w' : good w -> In p (RM.map (vmap (self w))) -> 0 <= count -> p.1 <= start -> start mod 4096 = 0 ->
  start + count * 4096 <= p.2.1 -> decommit_some n p.2.2 start offset count w = Some (r, w') -> r <> Panic ->
  r = Ok tt /\ good w' /\ exists evs, cleared start (start + count * 4096) evs w w'.
Proof.
  intros Hg Hp Hc Hs Hal He E Hr. pose proof (g_space _ _ Hg) as Hsp. destruct (space_bounds _ _ Hsp Hp) as [? ?].
  eapply decommit_some_sound in E as [-> [evs Hcl]]; try done; try apply Hg; try lia. split; [done|]. split; [|by exists evs].
  eapply good_cleared; [exact Hg| | |exact Hcl]; lia.
Qed.
Lemma decommit_all_good n lo hi l : forall w r w', good w -> 0 <= lo < hi -> lo mod 4096 = 0 -> hi mod 4096 = 0 -> Forall (meets lo hi w) l ->
  decommit_all n lo hi l w = Some (r, w') -> r <> Panic ->
  r = Ok tt /\ good w' /\ quiet w w' /\ exists evs, shed (fun x => lo <= x < hi /\ Exists (fun e => RM.rstart e.1 <= x < RM.rend e.1) l) evs w w'.
Proof.
  induction l as [|e l IH]; intros w r w' Hg Hlo Hl4 Hh4 Hm E Hr; cbn [decommit_all] in E.
  { injection E as <- <-. split_and!; try done. exists []. eapply shed_iff; [|by apply shed_same]. intros x _. split; [done|]. intros [_ H']. inversion H'. }
  inversion Hm as [|? ? (p & Hp & Ho & ->) Hm']; subst.
  destruct (clip_ok _ p lo hi (g_space _ _ Hg) Hp Ho) as (start & offset & count & Ec & Hc & Hst & Hs4 & _ & Hmin & Hps & Hpe & Hu); try done.
  rewrite Ec in E. unfold mbind, PT_bind in E. destruct (decommit_some _ _ _ _ _ w) as [[r1 w1]|] eqn:E1; [|done].
  assert (Hr1 : r1 <> Panic) by (intros ->; by injection E as <- _).
  destruct (decommit_part n w p start offset count r1 w1 Hg Hp Hc Hps Hs4 Hpe E1 Hr1) as (-> & Hg1 & evs1 & Hcl).
  destruct (IH w1 r w') as (-> & Hg' & Hq & evs2 & Hsh); try done; [eapply meets_quiet; [apply Hcl|done]|]. split_and!; try done; [eapply quiet_trans; [apply Hcl|done]|].
  exists (evs1 ++ evs2). eapply shed_iff; [|eapply shed_trans; [| |by apply shed_cleared|exact Hsh]]; try (intros; apply _).
  intros x Hx. rewrite Exists_cons. cbn. split; [intros [H1|[H1 H2]]|intros [H1 [H2|H2]]]; [split; [lia|left; lia]|tauto|left; lia|by right].
Qed.
Lemma unaligned_false lo hi : unaligned lo hi = false -> lo mod 4096 = 0 /\ hi mod 4096 = 0.
Proof. unfold unaligned. rewrite !and_page_mask. lia. Qed.
Lemma decommit_range_good n lo hi w r w' : good w -> 0 <= lo < hi -> decommit_range n lo hi w = Some (r, w') -> r <> Panic -> good w'.
Proof.
  intros Hg Hlo E Hr. unfold decommit_range in E. destruct (unaligned lo hi) eqn:Eu; [by injection E as <- <-|]. apply unaligned_false in Eu as [Hl4 Hh4].
  rewrite (PT_bind_Ok _ _ _ _ _ (get_map_ok w)) in E. by eapply decommit_all_good in E as (_ & ? & _); try apply meets_intersection; try done; try apply Hg.
Qed.

(** ** Unmapping *)
(** [good], but for pages that are still in the table without a mapping. *)
Record good_ex (S : Z -> Prop) w : Prop := mk_good_ex {
  ge_tree : tree w;
  ge_hart : hart_ok w;
  ge_space : space (vmap (self w));
  ge_coh x t : user x -> um w x = Some t -> backed base w x t \/ (S x /\ t.1 = O);
}.
Lemma good_ex_good S w : (forall x, user x -> ~ S x) -> good_ex S w -> good w.
Proof. intros HS [Ht Hh Hs Hc]. split; try done. intros x t Hx Hu. destruct (Hc x t Hx Hu) as [?|[? _]]; [done|]. by apply HS in Hx. Qed.
Lemma good_ex_shed S w w' S' evs : (forall x, Decision (S' x)) -> good_ex S w -> tree w' -> vmap (self w') = vmap (self w) -> shed S' evs w w' ->
  good_ex (fun x => S x /\ ~ S' x) w' /\ forall x, user x -> S' x -> um w' x = None.
Proof.
  intros D [Ht Hh Hs Hc] Ht' Hv [Hq Hf Ho Hi].
  assert (Hnone : forall x, user x -> S' x -> um w' x = None).
  { intros x Hx HS'. destruct (Hi x Hx HS') as [[E _]|[E Hno]]; [done|]. rewrite E. destruct (um w x) as [[l v]|] eqn:Eu; [|done].
    destruct (Hc x (l, v) Hx Eu) as [(m & f & _ & El & _)|[_ El]]; cbn in El; subst l; by destruct (Hno v). }
  split; [|done]. split; [done| |by rewrite Hv|].
  - destruct Hq as (_ & Hm & Hha). unfold hart_ok. by rewrite Hm, Hha.
  - intros x t Hx Hu. destruct (decide (S' x)) as [HS'|HS']; [by rewrite Hnone in Hu|]. rewrite Ho in Hu by done.
    destruct (Hc x t Hx Hu) as [Hb|[? ?]]; [left; unfold backed in *; by rewrite Hv|right; tauto].
Qed.
Lemma good_ex_heap S w h : good_ex S w -> good_ex S (mk_world (self w) h (pt w) (fences w) (hart w)).
Proof. intros [? ? ? ?]. by split. Qed.
(** A mapping is dropped: only the memory objects change. *)
Lemma drop_mapping_quiet n others m w r w' : drop_mapping n others m w = Some (r, w') -> exists h, w' = mk_world (self w) h (pt w) (fences w) (hart w).
Proof.
  unfold drop_mapping. rewrite (PT_bind_Ok _ _ _ _ _ (get_map_ok w)). destruct (existsb _ _).
  - intros [= _ <-]. exists (hp w). by destruct w.
  - intros (h & _ & ->)%on_heap_Some. by exists h.
Qed.
Lemma no_err_drop_mapping n others m : no_err (drop_mapping (T := T) (A := A) n others m).
Proof. intros w e w'. unfold drop_mapping. rewrite (PT_bind_Ok _ _ _ _ _ (get_map_ok w)). destruct (existsb _ _); [done|]. apply no_err_on_heap. auto with no_err. Qed.
Lemma pages_of_ok rm p : space rm -> In p (RM.map rm) -> 0 <= pages_of (RM.mk_range p.1 p.2.1) /\ p.1 + pages_of (RM.mk_range p.1 p.2.1) * 4096 = p.2.1.
Proof.
  intros Hs Hp. destruct (space_bounds rm p Hs Hp). destruct (sp_items _ Hs p Hp) as (Ha & Hb & _). unfold pages_of. cbn.
  rewrite wsub_small by (unfold fits; lia). rewrite Z.shiftr_div_pow2 by done. change (2 ^ PAGE_SHIFT) with 4096. Z.div_mod_to_equations. lia.
Qed.

Definition in_some (ps : list (Z * (Z * Mapping))) (x : Z) : Prop := Exists (fun p => p.1 <= x < p.2.1) ps.
#[local] Instance in_some_dec ps x : Decision (in_some ps x).
Proof. unfold in_some. apply _. Qed.
Lemma unmap_all_sound n rm ps : space rm -> forall S w r w', (forall p, In p ps -> In p (RM.map rm)) -> good_ex S w ->
  unmap_all n (List.map RM.entry_view ps) w = Some (r, w') -> r <> Panic ->
  r = Ok tt /\ good_ex (fun x => S x /\ ~ in_some ps x) w' /\ self w' = self w /\ exists evs, shed (in_some ps) evs w w'.
Proof.
  intros Hrm. induction ps as [|p ps IH]; intros S w r w' Hin Hg E Hr; cbn [List.map unmap_all] in E.
  { injection E as <- <-. split_and!; try done.
    - destruct Hg as [? ? ? Hc]. split; try done. intros x t Hx Hu. destruct (Hc x t Hx Hu) as [?|[? ?]]; [by left|]. right. split_and!; try done. intros H'. inversion H'.
    - exists []. eapply shed_iff; [|by apply shed_same]. intros x _. split; [done|]. intros H'. inversion H'. }
  assert (Hp : In p (RM.map rm)) by (apply Hin; by left). destruct (space_bounds rm p Hrm Hp). destruct (pages_of_ok rm p Hrm Hp) as [Hc Hpe].
  destruct (sp_items _ Hrm p Hp) as (Ha & _ & _). unfold RM.entry_view in E at 1. cbn [RM.rstart] in E.
  unfold mbind, PT_bind in E. destruct (on_err _ _ w) as [[r1 w1]|] eqn:E1; [|done].
  assert (Hr1 : r1 <> Panic) by (intros ->; by injection E as <- _).
  assert (E1' : decommit_some n p.2.2 p.1 0 (pages_of (RM.mk_range p.1 p.2.1)) w = Some (r1, w1)).
  { unfold on_err in E1. destruct (decommit_some _ _ _ _ _ w) as [[[?|e|] ?]|] eqn:Ed; try done. by apply no_err_decommit_some in Ed. }
  apply decommit_some_sound in E1' as [-> [evs1 Hcl]]; try done; try apply Hg; try lia. rewrite Hpe in Hcl.
  destruct (good_ex_shed S w w1 (fun x => p.1 <= x < p.2.1) evs1 ltac:(intros; apply _) Hg (cl_tree _ _ _ _ _ Hcl) ltac:(by rewrite (proj1 (cl_quiet _ _ _ _ _ Hcl))) (shed_cleared _ _ _ _ _ Hcl)) as [Hg1 _].
  destruct (drop_mapping n _ p.2.2 w1) as [[r2 w2]|] eqn:E2; [|done]. pose proof E2 as E2'. apply drop_mapping_quiet in E2 as [h ->]. set (w2 := mk_world _ _ _ _ _) in *.
  destruct r2 as [[]|e|]; [|by apply no_err_drop_mapping in E2'|by injection E as <- _].
  destruct (IH _ w2 r w' (fun q Hq => Hin q (or_intror Hq)) (good_ex_heap _ _ h Hg1) E Hr) as (-> & Hg2 & Hs2 & evs2 & Hsh). split; [done|]. split_and!.
  - destruct Hg2 as [? ? ? Hc2]. split; try done. intros x t Hx Hu. destruct (Hc2 x t Hx Hu) as [?|[[[HS Hnp] Hn] ?]]; [by left|right; split; [|done]].
    split; [done|]. unfold in_some in *. rewrite Exists_cons. tauto.
  - rewrite Hs2. apply (cl_quiet _ _ _ _ _ Hcl).
  - exists (evs1 ++ evs2). eapply shed_iff; [|eapply shed_trans; [| |by apply shed_cleared|]]; cycle 3.
    { destruct Hsh as [A1 A2 A3 A4]. exact (mk_shed (in_some ps) evs2 w1 w' A1 A2 A3 A4). }
    { intros x Hx. unfold in_some. by rewrite Exists_cons. }
    all: intros; apply _.
Qed.

(** No mapping is cut by the range. *)
Definition uncut (rm : RM.RangeMap Mapping) (lo hi : Z) : Prop := forall p, In p (RM.map rm) -> strictly_inside lo p = false /\ strictly_inside hi p = false.
Lemma put_map_same w : put_map (vmap (self w)) w = Some (Ok tt, w).
Proof. unfold put_map, get, put, mbind, PT_bind. by destruct w as [[? ? ?] ? ? ? ?]. Qed.
Lemma split_with_none n key f w : space (vmap (self w)) -> (forall p, In p (RM.map (vmap (self w))) -> strictly_inside key p = false) ->
  split_with n key f w = Some (Ok tt, w).
Proof.
  intros Hs Hn. unfold split_with. rewrite (PT_bind_Ok _ _ _ _ _ (get_map_ok w)). pose proof (split_entry_cases (vmap (self w)) key (sp_wf _ Hs)) as Hc.
  destruct (RM.split_entry _ _) as [[[v e]|] rm'].
  - destruct Hc as (l1 & l2 & a & b & E & Hk & _). exfalso. specialize (Hn (a, (b, v))). rewrite E in Hn.
    specialize (Hn ltac:(apply in_or_app; right; by left)). unfold strictly_inside in Hn. cbn in Hn. lia.
  - destruct Hc as [-> _]. by rewrite (PT_bind_Ok _ _ _ _ _ (put_map_same w)).
Qed.
Lemma uncut_contained rm lo hi p x : uncut rm lo hi -> In p (RM.map rm) -> p.1 <= x < p.2.1 -> lo <= x < hi <-> RM.contained (RM.mk_range lo hi) p = true.
Proof. intros Hu Hp Hx. destruct (Hu p Hp) as [H1 H2]. unfold strictly_inside, RM.contained in *. cbn. lia. Qed.

(** What [drain] takes out. *)
Lemma drained rm lo hi : space rm -> uncut rm lo hi -> exists ps rm', RM.drain rm (RM.mk_range lo hi) = (List.map RM.entry_view ps, rm') /\
  space rm' /\ uncut rm' lo hi /\ (forall p, In p ps -> In p (RM.map rm)) /\
  (forall x, RM.at_ rm' x = if (lo <=? x) && (x <? hi) then None else RM.at_ rm x) /\ (forall x, in_some ps x <-> lo <= x < hi /\ RM.at_ rm x <> None).
Proof.
  intros Hs Hu. rewrite drain_spec by apply Hs. set (c := RM.contained (RM.mk_range lo hi)). set (ps := List.filter c (RM.map rm)). set (rm' := RM.mk_rm _ _).
  destruct (space_filter rm (fun p => negb (c p)) Hs) as [Hs' Hat']. fold rm' in Hs', Hat'. exists ps, rm'.
  assert (Hps : forall p, In p ps <-> In p (RM.map rm) /\ c p = true) by (intros p; apply filter_In).
  split_and!; [done|done| |intros p Hp; by apply Hps| |].
  - intros p [Hp _]%filter_In. by apply Hu.
  - intros x. rewrite Hat'. unfold RM.at_. destruct (List.find _ _) as [p|] eqn:Ef; [|by destruct (_ && _)]. apply find_some in Ef as [Hp Hc].
    unfold RM.covers in Hc. pose proof (uncut_contained _ lo hi p x Hu Hp ltac:(lia)) as Hcc. fold c in Hcc. cbn.
    destruct (c p); cbn; [rewrite (proj2 (andb_true_iff _ _)); [done|lia]|]. destruct ((lo <=? x) && (x <? hi)) eqn:Ex; [exfalso; apply diff_false_true, Hcc; lia|done].
  - intros x. unfold in_some. rewrite List.Exists_exists. split.
    + intros (p & [Hp Hc]%Hps & Hx). split; [by eapply uncut_contained|]. by rewrite (space_at _ p x Hs Hp Hx).
    + intros [Hx Hne]. destruct (RM.at_ rm x) as [m|] eqn:Ea; [|done]. apply RM.at_Some in Ea as (p & Hp & Hc & _); [|apply Hs].
      unfold RM.covers in Hc. assert (Hpx : p.1 <= x < p.2.1) by lia. exists p. split; [apply Hps; split; [done|by apply (uncut_contained rm lo hi p x)]|done].
Qed.
(** The map without the drained entries; the pages are still in the table. *)
Lemma good_drained w rm' ps lo hi : good w -> space rm' -> (forall x, RM.at_ rm' x = if (lo <=? x) && (x <? hi) then None else RM.at_ (vmap (self w)) x) ->
  (forall x, in_some ps x <-> lo <= x < hi /\ RM.at_ (vmap (self w)) x <> None) -> good_ex (in_some ps) (set_vmap rm' w).
Proof.
  intros [Ht Hh _ Hc] Hs' Hat Hsome. split; try done. intros x t Hx Hut. destruct (Hc x t Hx Hut) as (m & f & Hm & Ht0 & Hf & Hri).
  destruct ((lo <=? x) && (x <? hi)) eqn:Ex; [right; split; [apply Hsome; rewrite Hm; split; [lia|done]|done]|].
  left. exists m, f. split_and!; try done. change (RM.at_ rm' x = Some m). by rewrite Hat, Ex.
Qed.
(** All pages of a range are out. *)
Lemma shed_range w w' ps evs lo hi : good w -> (forall x, in_some ps x <-> lo <= x < hi /\ RM.at_ (vmap (self w)) x <> None) -> shed (in_some ps) evs w w' ->
  (forall x, user x -> um w' x = if (lo <=? x) && (x <? hi) then None else um w x) /\
  exists evs, fences w' = fences w ++ evs /\ forall x, user x -> lo <= x < hi -> um w x <> None -> covered (cpu_mask (self w)) (hart w) evs x.
Proof.
  intros Hg Hsome [Hhw Hf Ho Hi]. split.
  - intros x Hx. destruct (decide (in_some ps x)) as [Hin|Hout].
    + rewrite (proj2 (andb_true_iff _ _)) by (apply Hsome in Hin; lia). destruct (Hi x Hx Hin) as [[E' _]|[E' Hno]]; [done|]. rewrite E'.
      destruct (um w x) as [[l v]|] eqn:Et; [|done]. destruct (g_coh _ _ Hg x (l, v) Hx Et) as (m & f & _ & Hl & _). cbn in Hl. subst l. by destruct (Hno v).
    + rewrite Ho by done. destruct ((lo <=? x) && (x <? hi)) eqn:Ex; [|done].
      destruct (um w x) as [t|] eqn:Et; [|done]. exfalso. apply Hout, Hsome. destruct (g_coh _ _ Hg x t Hx Et) as (m & f & -> & _). split; [lia|done].
  - exists evs. split; [exact Hf|]. intros x Hx Hin Hne. destruct (um w x) as [t|] eqn:Et; [|done]. destruct (g_coh _ _ Hg x t Hx Et) as (m & f & Hm & Ht0 & _).
    destruct (Hi x Hx) as [[_ Hc]|[_ Hno]]; [apply Hsome; by rewrite Hm|done|]. exfalso. destruct t as [l v]. cbn in Ht0. subst l. by apply (Hno v).
Qed.
(** What an operation does that takes out a range. *)
Record taken_out (lo hi : Z) w w' : Prop := mk_taken_out {
  to_good : good w';
  to_hw : same_hw w w';
  to_at x : RM.at_ (vmap (self w')) x = if (lo <=? x) && (x <? hi) then None else RM.at_ (vmap (self w)) x;
  to_um x : user x -> um w' x = if (lo <=? x) && (x <? hi) then None else um w x;
  to_fenced : exists evs, fences w' = fences w ++ evs /\ forall x, user x -> lo <= x < hi -> um w x <> None -> covered (cpu_mask (self w)) (hart w) evs x;
}.
Lemma unmap_sound n lo hi w r w' : good w -> 0 <= lo < hi -> lo mod 4096 = 0 -> hi mod 4096 = 0 -> uncut (vmap (self w)) lo hi ->
  unmap n lo hi w = Some (r, w') -> r <> Panic -> r = Ok tt /\ taken_out lo hi w w'.
Proof.
  intros Hg Hlo Hl4 Hh4 Hu E Hr. unfold unmap in E.
  assert (Eu : unaligned lo hi = false) by (unfold unaligned; rewrite !and_page_mask, Hl4, Hh4; done). rewrite Eu in E.
  destruct (drained (vmap (self w)) lo hi (g_space _ _ Hg) Hu) as (ps & rm' & Ed & Hs' & Hu' & Hps & Hat & Hsome).
  rewrite (PT_bind_Ok _ _ _ _ _ (get_map_ok w)), Ed in E. set (w0 := set_vmap rm' w). rewrite (PT_bind_Ok (put_map rm') _ w tt w0) in E by done.
  pose proof (good_drained w rm' ps lo hi Hg Hs' Hat Hsome) as Hg0. fold w0 in Hg0.
  unfold mbind, PT_bind in E. destruct (unmap_all _ _ w0) as [[r1 w1]|] eqn:E1; [|done]. assert (Hr1 : r1 <> Panic) by (intros ->; by injection E as <- _).
  destruct (unmap_all_sound n (vmap (self w)) ps (g_space _ _ Hg) _ w0 r1 w1 Hps Hg0 E1 Hr1) as (-> & Hg1 & Hself & evs & Hsh).
  assert (Hv1 : vmap (self w1) = rm') by (by rewrite Hself).
  assert (Esp : forall key f, (key = lo \/ key = hi) -> split_with n key f w1 = Some (Ok tt, w1)).
  { intros key f Hk. apply split_with_none; rewrite Hv1; [done|]. intros p Hp. destruct (Hu' p Hp), Hk as [-> | ->]; done. }
  rewrite Esp in E by (by left). rewrite Esp in E by (by right). injection E as <- <-. split; [done|].
  assert (Hshw : shed (in_some ps) evs w w1) by (destruct Hsh as [A1 A2 A3 A4]; exact (mk_shed (in_some ps) evs w w1 A1 A2 A3 A4)).
  destruct (shed_range w w1 ps evs lo hi Hg Hsome Hshw) as [Hum Hfe]. split; [|apply Hshw|by rewrite Hv1|done|done].
  eapply good_ex_good; [|exact Hg1]. cbn. tauto.
Qed.

(** ** Other rights *)
Definition re_attr (at_ : Z) m : Mapping := mk_mapping (phys m) (start_index m) at_.
Lemma good_write w p m' : good w -> In p (RM.map (vmap (self w))) -> attr_ok (attr m') -> (forall x, p.1 <= x < p.2.1 -> um w x = None) ->
  good (set_vmap (RM.write_value (vmap (self w)) p.1 m') w).
Proof.
  intros [Ht Hh Hs Hc] Hp Ha Hn. destruct (space_write (vmap (self w)) p m' Hs Hp Ha) as (Hs' & _ & Hat & _). split; try done.
  intros x t Hx Hu. change (um w x = Some t) in Hu. destruct (Hc x t Hx Hu) as (m & f & Hm & Hrest). exists m, f. split; [|done].
  change (RM.at_ (RM.write_value (vmap (self w)) p.1 m') x = Some m). rewrite Hat. destruct (RM.covers x p) eqn:Ec; [|done].
  unfold RM.covers in Ec. by rewrite Hn in Hu by lia.
Qed.
Lemma reprotect_all_sound n at_ ps : attr_ok at_ -> NoDup ps -> forall w r w', good w -> (forall p, In p ps -> In p (RM.map (vmap (self w)))) ->
  reprotect_all n at_ (List.map RM.entry_view ps) w = Some (r, w') -> r <> Panic ->
  r = Ok tt /\ good w' /\ (exists evs, shed (in_some ps) evs w w') /\
  (forall x, RM.at_ (vmap (self w')) x = if decide (in_some ps x) then re_attr at_ <$> RM.at_ (vmap (self w)) x else RM.at_ (vmap (self w)) x) /\
  (forall q, In q (RM.map (vmap (self w'))) -> exists q0, In q0 (RM.map (vmap (self w))) /\ q.1 = q0.1 /\ q.2.1 = q0.2.1).
Proof.
  intros Ha. induction ps as [|p ps IH]; intros Hnd w r w' Hg Hin E Hr; cbn [List.map reprotect_all] in E.
  { injection E as <- <-. split_and!; try done.
    - exists []. eapply shed_iff; [|by apply shed_same]. intros x _. split; [done|]. intros H'. inversion H'.
    - intros x. by rewrite decide_False by (intros H'; inversion H').
    - intros q Hq. by exists q. }
  apply NoDup_cons in Hnd as [Hnp Hnd]. assert (Hp : In p (RM.map (vmap (self w)))) by (apply Hin; by left). pose proof (g_space _ _ Hg) as Hs.
  destruct (pages_of_ok _ p Hs Hp) as [Hc Hpe]. destruct (sp_items _ Hs p Hp) as (Hp4 & _ & _). destruct (space_bounds _ _ Hs Hp).
  unfold RM.entry_view in E at 1. cbn [RM.rstart] in E. unfold mbind at 1, PT_bind in E. destruct (decommit_some _ _ _ _ _ w) as [[r1 w1]|] eqn:E1; [|done].
  assert (Hr1 : r1 <> Panic) by (intros ->; by injection E as <- _).
  destruct (decommit_part n w p p.1 0 _ r1 w1 Hg Hp Hc ltac:(lia) Hp4 ltac:(lia) E1 Hr1) as (-> & Hg1 & evs1 & Hcl). rewrite Hpe in Hcl.
  rewrite (PT_bind_Ok _ _ _ _ _ (get_map_ok w1)) in E. pose proof (proj1 (cl_quiet _ _ _ _ _ Hcl)) as Hself. rewrite Hself in E.
  set (rm1 := RM.write_value _ _ _) in E. set (w2 := set_vmap rm1 w1). rewrite (PT_bind_Ok (put_map rm1) _ w1 tt w2) in E by done.
  destruct (space_write (vmap (self w)) p (re_attr at_ p.2.2) Hs Hp Ha) as (_ & _ & Hat1 & Hin1). fold rm1 in Hat1, Hin1.
  assert (Hg2 : good w2). { unfold w2, rm1. rewrite <- Hself. apply (good_write w1 p); [done|by rewrite Hself|done|]. intros x Hx. eapply (cleared_none base w w1); [done| | |exact Hcl|done]; lia. }
  destruct (IH Hnd w2 r w') as (-> & Hg' & [evs2 Hsh] & Hat & Hent); [done| |exact E|done|].
  { intros q Hq. apply Hin1. right. split; [by apply Hin; right|]. intros ->. apply Hnp. by apply list_elem_of_In. }
  split; [done|]. split_and!; [done| | |].
  - exists (evs1 ++ evs2). eapply shed_iff; [|eapply shed_trans; [| |apply shed_cleared; exact Hcl|]]; cycle 3.
    { destruct Hsh as [A1 A2 A3 A4]. exact (mk_shed (in_some ps) evs2 w1 w' A1 A2 A3 A4). }
    { intros x Hx. unfold in_some. by rewrite Exists_cons. }
    all: intros; apply _.
  - intros x. rewrite Hat. change (vmap (self w2)) with rm1. rewrite Hat1. unfold in_some in *. assert (Hcov : RM.covers x p = true <-> p.1 <= x < p.2.1) by (unfold RM.covers; lia).
    destruct (RM.covers x p) eqn:Ecov.
    + rewrite (decide_True (P := Exists _ (p :: ps))) by (left; by apply Hcov). rewrite (space_at _ p x Hs Hp) by (by apply Hcov).
      assert (~ in_some ps x) as Hnot.
      { intros (q & Hq & Hqx)%List.Exists_exists. apply Hnp. apply list_elem_of_In. replace p with q; [done|]. eapply (RM.seg_wf_disjoint _ _ q p x (sp_wf _ Hs)); [by apply Hin; right|done| |done].
        unfold RM.covers. lia. }
      by rewrite decide_False by done.
    + assert (Hiff : Exists (fun p => p.1 <= x < p.2.1) (p :: ps) <-> Exists (fun p => p.1 <= x < p.2.1) ps) by (rewrite Exists_cons, <- Hcov; naive_solver).
      by rewrite (decide_ext _ _ _ _ Hiff).
  - intros q Hq. destruct (Hent q Hq) as (q0 & Hq0 & H1' & H2'). change (vmap (self w2)) with rm1 in Hq0. apply Hin1 in Hq0 as [->|[Hq0 _]]; [by exists p|by exists q0].
Qed.
Lemma contained_entries rm lo hi : space rm -> uncut rm lo hi -> exists ps, RM.range_iter rm (RM.mk_range lo hi) = List.map RM.entry_view ps /\ NoDup ps /\
  (forall p, In p ps -> In p (RM.map rm)) /\ (forall x, in_some ps x <-> lo <= x < hi /\ RM.at_ rm x <> None).
Proof.
  intros Hs Hu. exists (List.filter (RM.contained (RM.mk_range lo hi)) (RM.map rm)). destruct (drained rm lo hi Hs Hu) as (ps & rm' & Ed & _ & _ & _ & _ & Hsome).
  rewrite drain_spec in Ed by apply Hs. injection Ed as Ed _. split_and!.
  - apply range_iter_filter, Hs.
  - apply bt_nodup, bt_filter_wf. eapply RM.seg_wf_bt. apply Hs.
  - intros p [Hp _]%filter_In. done.
  - assert (ps = List.filter (RM.contained (RM.mk_range lo hi)) (RM.map rm)) as ->; [|done].
    apply (f_equal (List.map (fun e : RM.Range * Mapping => (RM.rstart e.1, (RM.rend e.1, e.2))))) in Ed. rewrite !List.map_map in Ed.
    assert (Hid : forall l : list (Z * (Z * Mapping)), List.map (fun x => (RM.rstart (RM.entry_view x).1, (RM.rend (RM.entry_view x).1, (RM.entry_view x).2))) l = l).
    { intros l. rewrite <- (List.map_id l) at 2. apply List.map_ext. by intros [? [? ?]]. }
    by rewrite !Hid in Ed.
Qed.
Lemma uncut_ends rm rm' lo hi : uncut rm lo hi -> (forall q, In q (RM.map rm') -> exists q0, In q0 (RM.map rm) /\ q.1 = q0.1 /\ q.2.1 = q0.2.1) -> uncut rm' lo hi.
Proof. intros Hu Hq q Hin. destruct (Hq q Hin) as (q0 & Hq0 & E1 & E2). unfold strictly_inside. rewrite E1, E2. by apply Hu. Qed.
Lemma attr_ok_valid at_ : fits 8 at_ -> attr_ok (Z.lor at_ PG.VALID).
Proof.
  intros Ha. split; [apply fits_lor; [lia|done|done]|]. unfold PG.contains. apply Z.eqb_eq. apply Z.bits_inj'. intros i Hi. rewrite Z.land_spec, Z.lor_spec.
  destruct (Z.testbit PG.VALID i); [by rewrite orb_true_r|by rewrite andb_false_r].
Qed.
Record re_protected (lo hi at_ : Z) w w' : Prop := mk_re_protected {
  rp_good : good w';
  rp_hw : same_hw w w';
  rp_at x : RM.at_ (vmap (self w')) x = if (lo <=? x) && (x <? hi) then re_attr at_ <$> RM.at_ (vmap (self w)) x else RM.at_ (vmap (self w)) x;
  rp_um x : user x -> um w' x = if (lo <=? x) && (x <? hi) then None else um w x;
  rp_fenced : exists evs, fences w' = fences w ++ evs /\ forall x, user x -> lo <= x < hi -> um w x <> None -> covered (cpu_mask (self w)) (hart w) evs x;
}.
Lemma reprotect_sound n lo hi at_ w r w' : good w -> 0 <= lo < hi -> lo mod 4096 = 0 -> hi mod 4096 = 0 -> uncut (vmap (self w)) lo hi -> fits 8 at_ ->
  reprotect n lo hi at_ w = Some (r, w') -> r <> Panic -> r = Ok tt /\ re_protected lo hi (Z.lor at_ PG.VALID) w w'.
Proof.
  intros Hg Hlo Hl4 Hh4 Hu Ha E Hr. unfold reprotect in E.
  assert (Eu : unaligned lo hi = false) by (unfold unaligned; rewrite !and_page_mask, Hl4, Hh4; done). rewrite Eu in E.
  destruct (contained_entries (vmap (self w)) lo hi (g_space _ _ Hg) Hu) as (ps & Ed & Hnd & Hps & Hsome).
  rewrite (PT_bind_Ok _ _ _ _ _ (get_map_ok w)), Ed in E. unfold mbind, PT_bind in E.
  destruct (reprotect_all _ _ _ w) as [[r1 w1]|] eqn:E1; [|done]. assert (Hr1 : r1 <> Panic) by (intros ->; by injection E as <- _).
  destruct (reprotect_all_sound n _ ps (attr_ok_valid at_ Ha) Hnd w r1 w1 Hg Hps E1 Hr1) as (-> & Hg1 & [evs Hsh] & Hat & Hent).
  pose proof (uncut_ends _ _ _ _ Hu Hent) as Hu1.
  assert (Esp : forall key f, (key = lo \/ key = hi) -> split_with n key f w1 = Some (Ok tt, w1)).
  { intros key f Hk. apply split_with_none; [apply Hg1|]. intros p Hp. destruct (Hu1 p Hp), Hk as [-> | ->]; done. }
  rewrite Esp in E by (by left). rewrite Esp in E by (by right). injection E as <- <-. split; [done|].
  destruct (shed_range w w1 ps evs lo hi Hg Hsome Hsh) as [Hum Hfe]. split; [done|apply Hsh| |done|done].
  intros x. rewrite Hat. destruct (decide (in_some ps x)) as [Hin|Hout].
  - rewrite (proj2 (andb_true_iff _ _)); [done|]. apply Hsome in Hin. lia.
  - destruct ((lo <=? x) && (x <? hi)) eqn:Ex; [|done]. destruct (RM.at_ (vmap (self w)) x) eqn:Ea; [|done]. exfalso. apply Hout, Hsome. rewrite Ea. split; [lia|done].
Qed.
End Unmap.
