(* ===== verification/VirtMap.v ===== *)
(** * kmem: new mappings, and an address space made empty *)

From S2P Require Import Prelude BTree RangeMap Aslr Ksc Bytes Paging PageTree PageUnmap Umio Phys Virt VirtSpec VirtOps VirtUnmap.
Import Errno Virt.

Lemma find_free_fuel {V S} (pred : S -> option RM.Range -> RM.FindResult * S) (rm : RM.RangeMap V) fuel fuel' st x :
  RM.find_free pred fuel rm st = Some x -> (fuel <= fuel')%nat -> RM.find_free pred fuel' rm st = Some x.
Proof.
  revert fuel' st. induction fuel as [|fuel IH]; intros fuel' st E Hf; [done|]. destruct fuel' as [|fuel']; [lia|]. cbn [RM.find_free] in *.
  destruct (RM.find_gap pred rm st) as [[k| |] st']; [done|apply IH; [done|lia]|done].
Qed.

Section Map.
Context {T : Type} `{IoT : Umio.Io T} {A : Type} `{PAS : PageAllocSpec A} (base : nat -> Z).
Context {R : Type} (next_u64 : R -> Z * R).
Hypothesis base_ok : forall f, fits 56 (base f) /\ base f mod 4096 = 0.
Notation world := (world (T := T) (A := A)).
Notation M := (PT world Error).
Implicit Types (w : world) (m : Mapping).
Notation um := (um (T := T) (A := A)).
Notation good := (good (T := T) (A := A) base).

Lemma good_heap w h : good w -> good (mk_world (self w) h (pt w) (fences w) (hart w)).
Proof. intros [? ? ? ?]. by split. Qed.
(** More mappings. *)
Lemma good_more w rm' : good w -> space rm' -> (forall x v, RM.at_ (vmap (self w)) x = Some v -> RM.at_ rm' x = Some v) -> good (set_vmap rm' w).
Proof.
  intros [Ht Hh Hs Hc] Hs' Hat. split; try done. intros x t Hx Hu. destruct (Hc x t Hx Hu) as (m & f & Hm & Hrest). exists m, f. split; [|done]. by apply Hat.
Qed.
(** A search with enough fuel. *)
Lemma search_ok n rm g count : space rm -> 0 < count -> (2 <= n)%nat ->
  exists o, RM.find_free_with_aslr next_u64 n rm (RM.AslrKey_new next_u64 ASLR_BIT g (RM.mk_layout (count * PAGE_SIZE) PAGE_SIZE)) = Some o /\
  match o with
  | Some r => RM.rstart r mod 4096 = 0 /\ RM.rend r = RM.rstart r + count * 4096 /\ free_range rm r
  | None => forall b, b mod 4096 = 0 -> ~ free_range rm (RM.mk_range b (b + count * 4096))
  end.
Proof.
  intros [Hwf Hr _ _] Hc Hn. set (a := RM.AslrKey_new _ _ _ _).
  destruct (AslrKey_new_fields next_u64 ASLR_BIT g (RM.mk_layout (count * 2 ^ 12) (2 ^ 12))) as (Hl & Hre & Hco).
  pose proof (find_free_units next_u64 rm 12 count _ Hwf ltac:(lia) Hc ltac:(lia) ltac:(lia) Hl Hre Hco (AslrKey_new_entropy next_u64 ASLR_BIT g _ ltac:(unfold ASLR_BIT; lia))) as Hf.
  change (RM.AslrKey_new next_u64 ASLR_BIT g (RM.mk_layout (count * 2 ^ 12) (2 ^ 12))) with a in Hf.
  destruct (RM.find_free_with_aslr next_u64 2 rm a) as [o|] eqn:E; [|done]. exists o. split; [|by destruct o].
  unfold RM.find_free_with_aslr in *. destruct (RM.find_free _ 2 rm a) as [[o' a']|] eqn:E2; [|done]. by rewrite (find_free_fuel _ _ 2 n _ _ E2 Hn).
Qed.
Lemma allocate_of_find n rm (a : RM.AslrKey R) : RM.allocate_with_aslr next_u64 (V := Mapping) n rm a =
  match RM.find_free_with_aslr next_u64 n rm a with None => None | Some None => Some (Ok None) | Some (Some key) => Some (Some <$> RM.vacant_entry rm key) end.
Proof. unfold RM.allocate_with_aslr, RM.allocate_with, RM.find_free_with_aslr. by destruct (RM.find_free _ n rm a) as [[[r|] a']|]. Qed.

(** What [map] has done when it has succeeded. *)
Record mapped_in (a len : Z) m w w' : Prop := mk_mapped_in {
  mi_good : good w';
  mi_quiet : root (self w') = root (self w) /\ pt w' = pt w /\ hp w' = hp w;
  mi_page : a mod 4096 = 0;
  mi_free : free_range (vmap (self w)) (RM.mk_range a (a + len));
  mi_at x : RM.at_ (vmap (self w')) x = if in_range (RM.mk_range a (a + len)) x then Some m else RM.at_ (vmap (self w)) x;
}.
Lemma insert_mapped w a len m : good w -> RM.key_vacant (vmap (self w)) (RM.mk_range a (a + len)) = true -> a mod 4096 = 0 -> (a + len) mod 4096 = 0 -> attr_ok (attr m) ->
  mapped_in a len m w (set_vmap (RM.mk_rm (RM.range (vmap (self w))) (bt_insert (RM.map (vmap (self w))) a (a + len, m))) w).
Proof.
  intros Hg Hv Ha He Hat. destruct (space_insert (vmap (self w)) a (a + len) m (g_space _ _ Hg) Hv Ha He Hat) as (Hs & Hx & Hmore).
  split; [by apply good_more|done|done|by apply free_range_iff; [apply Hg|]|done].
Qed.
Lemma no_room_drop n p w (e : Error) r w' : good w -> (_ ← on_heap (A := A) (Ph.drop_phys (T := T) n p); pt_throw (A := Z) e) w = Some (r, w') -> r <> Panic -> good w' /\ r = Err e.
Proof.
  intros Hg E Hr. unfold mbind, PT_bind in E. destruct (on_heap _ w) as [[r1 w1]|] eqn:E1; [|done]. pose proof E1 as E1'. apply on_heap_Some in E1 as (h & _ & ->).
  destruct r1 as [[]|e1|]; [|by apply no_err_on_heap in E1'; [|auto with no_err]|by injection E as <- _]. injection E as <- <-. split; [by apply good_heap|done].
Qed.
Lemma map_sound n g addr p si count at_ w r w' : good w -> (2 <= n)%nat -> fits 8 at_ -> fits 64 count -> (forall a, addr = Some a -> fits 64 a) -> (addr = None -> 0 < count) ->
  map next_u64 n g addr p si count at_ w = Some (r, w') -> r <> Panic ->
  match r with
  | Ok a => mapped_in a (match addr with Some _ => wshl 64 count PAGE_SHIFT | None => count * 4096 end) (mk_mapping p si (Z.lor at_ PG.VALID)) w w' /\ (forall a0, addr = Some a0 -> a = a0)
  | Err e => good w' /\ (e = EINVAL \/ e = ENOSPC \/ e = ENOMEM)
  | Panic => False
  end.
Proof.
  intros Hg Hn Hat Hc Ha Hpos E Hr. unfold map in E. rewrite (PT_bind_Ok _ _ _ _ _ (get_map_ok w)) in E. pose proof (attr_ok_valid at_ Hat) as Hok. pose proof (g_space _ _ Hg) as Hs.
  assert (Hfail : forall e, (e = EINVAL \/ e = ENOSPC \/ e = ENOMEM) -> (_ ← on_heap (A := A) (Ph.drop_phys (T := T) n p); pt_throw (A := Z) e) w = Some (r, w') ->
    match r with Ok _ => False | Err e => good w' /\ (e = EINVAL \/ e = ENOSPC \/ e = ENOMEM) | Panic => False end).
  { intros e He Ef. by destruct (no_room_drop n p w e r w' Hg Ef Hr) as [Hg' ->]. }
  destruct addr as [a|].
  - destruct (Z.eqb_spec (Z.land a PAGE_MASK) 0) as [Hal|Hal]; cbn [negb] in E; [|apply Hfail in E; [by destruct r|by left]]. rewrite and_page_mask in Hal.
    destruct (Z.eqb_spec (wshl 64 count PAGE_SHIFT) 0) as [Hl|Hl]; [apply Hfail in E; [by destruct r|by left]|]. unfold checked_add in E.
    destruct (_ <? _) eqn:Hfit in E; [|apply Hfail in E; [by destruct r|by left]]. unfold RM.try_insert in E.
    destruct (RM.key_vacant _ _) eqn:Ev; [|apply Hfail in E; [by destruct r|right; by left]]. injection E as <- <-. split; [|by intros a0 [= ->]].
    apply insert_mapped; try done. unfold wshl, wrap. rewrite Z.shiftl_mul_pow2 by done. change (2 ^ PAGE_SHIFT) with 4096. clear - Hal. Z.div_mod_to_equations. lia.
  - specialize (Hpos eq_refl). unfold page_layout in E. destruct (_ <=? _) eqn:El.
    2: { assert (Ef : (_ ← on_heap (A := A) (Ph.drop_phys (T := T) n p); pt_throw (A := Z) ENOMEM) w = Some (r, w')).
      { unfold on_err, pt_throw, pt_res, mbind, PT_bind in E |- *. by destruct (on_heap _ w) as [[[?|?|] ?]|]. }
      apply Hfail in Ef; [by destruct r|tauto]. }
    rewrite (PT_bind_Ok _ _ w (RM.mk_layout (count * PAGE_SIZE) PAGE_SIZE) w) in E by done. rewrite allocate_of_find in E.
    destruct (search_ok n (vmap (self w)) g count Hs Hpos Hn) as (o & Eo & Ho). rewrite Eo in E.
    destruct o as [[s t]|]; [|apply Hfail in E; [by destruct r|tauto]]. cbn in Ho. destruct Ho as (Hal & -> & Hfree).
    apply free_range_iff in Hfree; [|apply Hs]. unfold RM.vacant_entry in E. rewrite (vacant_get_None _ _ (sp_wf _ Hs) Hfree) in E. cbn in E. injection E as <- <-.
    split; [|done]. apply insert_mapped; try done. clear - Hal. Z.div_mod_to_equations. lia.
Qed.

(** ** Everything is unmapped *)
Lemma unmap_root_ok w : tree w -> hart_ok w -> space (vmap (self w)) ->
  (forall x t, user x -> um w x = Some t -> t.1 = O /\ RM.rstart (RM.range (vmap (self w))) <= x < RM.rend (RM.range (vmap (self w)))) ->
  exists s' evs, unmap_root w = Some (Ok tt, mk_world (self w) (hp w) s' (fences w ++ evs) (hart w)) /\
    tree (with_pt s' w) /\ (forall x, user x -> um (with_pt s' w) x = None) /\
    forall x, RM.rstart (RM.range (vmap (self w))) <= x < RM.rend (RM.range (vmap (self w))) -> covered (cpu_mask (self w)) (hart w) evs x.
Proof.
  intros (own & live & Hinv) Hh [_ Hr [Hlo Hhi] _] Hc. set (r := RM.range (vmap (self w))) in *. unfold unmap_root. rewrite (PT_bind_Ok get _ w w w) by done. unfold RM.root_range.
  destruct (unmap_gone (root (self w)) own live (pt w) (RM.rstart r, RM.rend r) Hinv) as (own' & live' & s' & E & Hinv' & _ & Hm).
  assert (Ep : on_pt (PG.unmap (root (self w)) (RM.rstart r, RM.rend r) ID_OFFSET) w = Some (Ok tt, with_pt s' w)) by (unfold on_pt, try_pt, mbind, PT_bind; by rewrite E).
  fold r. rewrite (PT_bind_Ok _ _ _ _ _ Ep). assert (Hpo : 0 <= pages_of r /\ RM.rstart r + pages_of r * 4096 = RM.rend r).
  { unfold pages_of. rewrite wsub_small by (unfold fits; lia). rewrite Z.shiftr_div_pow2 by done. change (2 ^ PAGE_SHIFT) with 4096.
    assert (RM.rend r mod 4096 = 0) by (Z.div_mod_to_equations; lia). Z.div_mod_to_equations. lia. }
  destruct (tlb_flush_ok (with_pt s' w) (cpu_mask (self w)) (RM.rstart r) (pages_of r)) as (evs & Ef & Hev); [apply Hh|apply Hh|lia|lia|].
  exists s', evs. split; [exact Ef|]. split; [by exists own', live'|]. split.
  - intros x Hx. unfold um. cbn. rewrite Hm by (by apply user_fits). change (mapped (root (self w)) (PG.mem (pt w)) x) with (um w x).
    destruct (um w x) as [[l v]|] eqn:Eu; [|done]. destruct (Hc x (l, v) Hx Eu) as [El Hin]. cbn in El. subst l. cbn [cut]. unfold user in Hx.
    rewrite gone_range by lia. unfold overlaps_leaf. replace (12 + 9 * Z.of_nat 0) with 12 by lia. change (2 ^ 12) with 4096.
    rewrite (proj2 (Z.leb_le _ _)), (proj2 (Z.ltb_lt _ _)) by (try apply Z.div_le_mono; lia). done.
  - intros x Hx. apply Hev. lia.
Qed.
Lemma good_in_range w x t : good w -> user x -> um w x = Some t -> t.1 = O /\ RM.rstart (RM.range (vmap (self w))) <= x < RM.rend (RM.range (vmap (self w))).
Proof.
  intros Hg Hx Hu. destruct (g_coh _ _ Hg x t Hx Hu) as (m & f & Hm & Ht & _). split; [done|]. apply RM.at_Some in Hm as (p & Hp & Hc & _); [|apply Hg].
  destruct (RM.seg_wf_item _ _ _ (sp_wf _ (g_space _ _ Hg)) Hp) as (? & ? & ?). unfold RM.covers in Hc. lia.
Qed.
Lemma flush_pages_heap n m k : forall i w r w', flush_pages n k i m w = Some (r, w') -> exists h, w' = mk_world (self w) h (pt w) (fences w) (hart w).
Proof.
  induction k as [|k IH]; intros i w r w' E; cbn [flush_pages] in E; [injection E as _ <-; exists (hp w); by destruct w|].
  unfold mbind, PT_bind in E. destruct (attempt _ w) as [[r1 w1]|] eqn:E1; [|done].
  assert (Hw1 : exists h, w1 = mk_world (self w) h (pt w) (fences w) (hart w)).
  { unfold attempt in E1. destruct (on_heap _ w) as [[r0 w0]|] eqn:E0; [|done]. apply on_heap_Some in E0 as (h & _ & ->). exists h. by destruct r0; injection E1 as _ <-. }
  destruct Hw1 as [h ->]. destruct r1 as [x|e|]; [by apply IH in E|by injection E as _ <-; exists h..].
Qed.
Lemma flush_old_heap n l : forall w r w', flush_old n l w = Some (r, w') -> exists h, w' = mk_world (self w) h (pt w) (fences w) (hart w).
Proof.
  induction l as [|[k m] l IH]; intros w r w' E; cbn [flush_old] in E; [injection E as _ <-; exists (hp w); by destruct w|].
  unfold mbind, PT_bind in E. destruct (flush_pages _ _ _ _ w) as [[r1 w1]|] eqn:E1; [|done]. apply flush_pages_heap in E1 as [h ->].
  destruct r1 as [x|e|]; [|by injection E as _ <-; exists h..]. destruct (drop_mapping _ _ _ _) as [[r2 w2]|] eqn:E2; [|done]. apply drop_mapping_quiet in E2 as [h2 ->].
  destruct r2 as [y|e|]; [by apply IH in E|by injection E as _ <-; exists h2..].
Qed.
Lemma clear_sound n w r w' : good w -> clear n w = Some (r, w') -> good w' /\ same_hw w w' /\ (forall x, user x -> um w' x = None) /\ (forall x, RM.at_ (vmap (self w')) x = None) /\
  exists evs, fences w' = fences w ++ evs /\ forall x, user x -> um w x <> None -> covered (cpu_mask (self w)) (hart w) evs x.
Proof.
  intros Hg E. unfold clear in E. rewrite (PT_bind_Ok _ _ _ _ _ (get_map_ok w)) in E. set (rm0 := RM.new _) in E. set (w0 := set_vmap rm0 w).
  rewrite (PT_bind_Ok (put_map rm0) _ w tt w0) in E by done. pose proof (g_space _ _ Hg) as [_ Hr [Hlo Hhi] _].
  assert (Hs0 : space (vmap (self w0))). { change (space (RM.new (RM.range (vmap (self w))))). destruct (RM.range (vmap (self w))) as [lo hi]. cbn in *. destruct Hr. by apply space_new. }
  destruct (unmap_root_ok w0 (g_tree _ _ Hg) (g_hart _ _ Hg) Hs0) as (s' & evs & Eu & Ht & Hnone & Hev); [intros x t; apply (good_in_range w x t Hg)|].
  unfold mbind, PT_bind in E. rewrite Eu in E. apply flush_old_heap in E as [h ->]. cbn.
  split_and!; [split; [exact Ht|apply Hg|exact Hs0|]|done|exact Hnone|done|].
  - intros x t Hx Hu. specialize (Hnone x Hx). unfold um in Hu, Hnone. cbn in Hu, Hnone. congruence.
  - exists evs. split; [done|]. intros x Hx Hne. destruct (um w x) as [t|] eqn:Et; [|done]. apply Hev. by apply (good_in_range w x t).
Qed.
End Map.
