(* ===== verification/VirtFork.v ===== *)
(** * kmem: a copy of an address space *)

From S2P Require Import Prelude BTree RangeMap Aslr Ksc Bytes Paging PageTree PageUnmap Umio Phys PhysInv PhysCommit PhysClone PhysUse.
From S2P Require Import Virt VirtSpec VirtOps VirtUnmap VirtMap.
Import Errno Virt.

(** A root table without user pages: leaves of 1 GiB in the upper half. *)
Definition root_ok (init : list Z) : Prop :=
  length init = 512%nat /\ (forall i e, init !! i = Some e -> PG.table e 2 ID_OFFSET = None) /\ forall i, (i < 256)%nat -> init !! i = Some 0.

Section Fork.
Context {T : Type} `{IoT : Umio.Io T} `{BT : !Backing T} {A : Type} `{PAS : PageAllocSpec A} (base : nat -> Z).
Hypothesis base_ok : forall f, fits 56 (base f) /\ base f mod 4096 = 0.
Notation world := (world (T := T) (A := A)).
Notation M := (PT world Error).
Implicit Types (w : world) (m : Mapping).
Notation um := (um (T := T) (A := A)).
Notation good := (good (T := T) (A := A) base).

(** ** A new root table *)
Lemma new_root_tree p init (mm : gmap Z (list Z)) : root_ok init -> tree_ok p {[p := (2%nat, 0)]} (<[p := init]> mm).
Proof.
  intros (Hlen & Htab & _). split.
  - apply lookup_singleton_eq.
  - intros t n q [_ [= <- <-]]%lookup_singleton_Some. done.
  - intros t n q [<- [= <- <-]]%lookup_singleton_Some. exists init. by rewrite lookup_insert_eq.
  - intros t n q i e t' [<- [= <- <-]]%lookup_singleton_Some Hi He. unfold PageTree.entry in He. rewrite lookup_insert_eq in He. cbn in He.
    rewrite (Htab _ _ He : PG.table e (Z.of_nat 2) ID_OFFSET = None). done.
  - intros t' n q [_ [= <- <-]]%lookup_singleton_Some. lia.
  - intros t1 t2 np [<- _]%lookup_singleton_Some [<- _]%lookup_singleton_Some. done.
Qed.
Lemma new_root_empty p init (mm : gmap Z (list Z)) x : root_ok init -> user x -> mapped p (<[p := init]> mm) x = None.
Proof.
  intros (Hlen & _ & Hlow) Hx. unfold mapped. rewrite (walk_no_table _ _ _ _ 0); [done| |by right]. unfold PageTree.entry. rewrite lookup_insert_eq.
  change (init !! Z.to_nat (PG.addr_idx (Z.of_nat 2) x false) = Some 0). apply Hlow. rewrite addr_idx_eq by (try lia; by apply user_fits).
  rewrite page_shift_eq. change (2 ^ (12 + 9 * Z.of_nat 2)) with (2 ^ 30). unfold user in Hx.
  assert (0 <= x / 2 ^ 30 < 256) by (split; [apply Z.div_pos; lia|apply Z.div_lt_upper_bound; lia]). rewrite Z.mod_small by lia. lia.
Qed.
Lemma frame_from_ok init w : tree w -> root_ok init ->
  (PG.pa_alloc (PG.alloc (pt w)) = None /\ frame_from init w = Some (Panic, w)) \/
  exists p s', frame_from init w = Some (Ok p, with_pt s' w) /\ tree (with_pt s' w) /\ (forall x, user x -> um (with_pt s' w) x = um w x) /\
    (exists own live, inv p own live s') /\ forall x, user x -> mapped p (PG.mem s') x = None.
Proof.
  intros (own & live & Ht & Ha & Hl) Hi. unfold frame_from, try_pt, PG.alloc_table, mbind, ST_bind, PT_bind.
  destruct (PG.pa_alloc (PG.alloc (pt w))) as [[p a]|] eqn:E; [right|left; split; [done|by destruct w]].
  destruct (pa_alloc_spec _ _ _ _ Ha E) as (Hp & Hok & Ha'). cbn. rewrite insert_insert_eq.
  assert (Hop : own !! p = None) by (apply (not_elem_of_dom (D := gset Z)); set_solver).
  eexists p, _. split; [done|]. split_and!.
  - exists own, ({[p]} ∪ live). split_and!; [by apply tree_ok_insert_fresh|done|set_solver].
  - intros x Hx. unfold um, mapped. cbn [self pt with_pt PG.mem]. f_equal. eapply walk_insert_fresh; [exact Ht|by apply user_fits|by apply (root_digits (root (self w)) own (PG.mem (pt w)))|done].
  - exists {[p := (2%nat, 0)]}, ({[p]} ∪ live). split_and!; [by apply new_root_tree|done|rewrite dom_singleton_L; set_solver].
  - intros x Hx. by apply new_root_empty.
Qed.

(** ** Memory without a backend to flush to *)
Definition anon (h : Ph.heap T) (p : nat) : Prop := exists ph, in_use h p ph /\ Ph.flusher ph = None.
Lemma flush_anon n p i d h : anon h p -> Ph.flush n p i d h = Some (Ok tt, h).
Proof. intros (ph & [Hp _] & Hf). unfold Ph.flush, Ph.get_phys, Ph.hget, pt_opt, pt_res, mbind, PT_bind. rewrite Hp. cbn. by rewrite Hf. Qed.
Lemma decommit_loop_total n m offset k : forall c from flushed addr w, tree w -> hart_ok w -> anon (hp w) (phys m) -> 0 <= c -> 0 <= addr -> addr + (c + Z.of_nat k) * 4096 <= UEND ->
  0 <= flushed <= c -> exists w', decommit_loop n k c from flushed m (root (self w)) addr offset (cpu_mask (self w)) w = Some (Ok tt, w') /\ hp w' = hp w.
Proof.
  induction k as [|k IH]; intros c from flushed addr w Ht Hh Ha Hc Had Hend Hfl; cbn [decommit_loop].
  - destruct (tlb_flush_ok w (cpu_mask (self w)) from flushed) as (evs & -> & _); [apply Hh|apply Hh|lia|lia|]. by eexists.
  - rewrite page_at_eq by lia. assert (Hu : user (addr + c * 4096)) by (unfold user; lia).
    destruct (look_pte_ok w (addr + c * 4096) Ht Hu) as [(p & e & El & Hp)|(err & El & _)]; rewrite (PT_bind_Ok _ _ _ _ _ El).
    + assert (Ef : on_err (tlb_flush (cpu_mask (self w)) from flushed) (on_heap (Ph.flush n (phys m) (index_at m offset c) (Some (PG.contains (PG.Entry_get e PG.pt).2 PG.DIRTY)))) w = Some (Ok tt, w)).
      { unfold on_err, on_heap. rewrite flush_anon by done. by destruct w. }
      rewrite (PT_bind_Ok _ _ _ _ _ Ef). destruct (write_pte_ok w (addr + c * 4096) p e PG.UNSET Hu Hp) as (s' & Ew & Ht' & _). rewrite (PT_bind_Ok _ _ _ _ _ Ew).
      apply (IH (c + 1) from (flushed + 1) addr (with_pt s' w)); try done; lia.
    + destruct (tlb_flush_ok w (cpu_mask (self w)) from flushed) as (evs & Et & _); [apply Hh|apply Hh|lia|lia|]. rewrite (PT_bind_Ok _ _ _ _ _ Et).
      apply (IH (c + 1) _ 0 addr (mk_world (self w) (hp w) (pt w) (fences w ++ evs) (hart w))); try done; lia.
Qed.
Lemma decommit_total n m addr offset count w : tree w -> hart_ok w -> anon (hp w) (phys m) -> 0 <= count -> 0 <= addr -> addr + count * 4096 <= UEND ->
  exists w', decommit_some n m addr offset count w = Some (Ok tt, w') /\ hp w' = hp w.
Proof.
  intros Ht Hh Ha Hc Had Hend. unfold decommit_some. rewrite (PT_bind_Ok get _ w w w) by done. destruct (count =? 0); [by exists w|].
  apply decommit_loop_total; try done; lia.
Qed.

(** ** The mappings of the copy *)
(** [q] is to [p] what a mapping of the copy is to the original: [h0] is the heap before, [h] the one after. *)
Record mirror (h0 h : Ph.heap T) (p q : Z * (Z * Mapping)) : Prop := mk_mirror {
  mr_lo : q.1 = p.1;
  mr_hi : q.2.1 = p.2.1;
  mr_index : start_index q.2.2 = start_index p.2.2;
  mr_attr : attr q.2.2 = attr p.2.2;
  mr_use : exists ph, in_use h (phys q.2.2) ph;
  mr_new : phys q.2.2 <> phys p.2.2;
  mr_sees j bs : sees h0 (phys p.2.2) j bs -> sees h (phys q.2.2) j bs;
}.
Lemma mirror_pres h0 h h' p q : pres h h' -> mirror h0 h p q -> mirror h0 h' p q.
Proof.
  intros [_ Hp] [? ? ? ? (ph & Hph & Hb) ? Hs]. destruct (Hp _ _ Hph Hb) as (ph' & Hph' & Hb' & _ & _ & _ & Hs'). split; try done; [by exists ph'|]. auto.
Qed.
Lemma anon_pres h h' p : pres h h' -> anon h p -> anon h' p.
Proof. intros [_ Hp] (ph & [Hph Hb] & Hf). destruct (Hp _ _ Hph Hb) as (ph' & Hph' & Hb' & _ & Hf' & _). exists ph'. split; [by split|congruence]. Qed.
Definition writable (p : Z * (Z * Mapping)) : bool := PG.contains (attr p.2.2) PG.WRITABLE.

(** The insertion behind all entries. *)
Lemma insert_last (rm : RM.RangeMap Mapping) (p : Z * (Z * Mapping)) m : RM.wf rm -> RM.item_ok (RM.range rm) p -> Forall (fun q => q.2.1 <= p.1) (RM.map rm) ->
  let rm' := RM.mk_rm (RM.range rm) (RM.map rm ++ [(p.1, (p.2.1, m))]) in RM.try_insert rm (RM.mk_range p.1 p.2.1) m = Ok rm' /\ RM.wf rm'.
Proof.
  intros Hwf (Hlo & Hne & Hhi) HF. assert (Hv : RM.key_vacant rm (RM.mk_range p.1 p.2.1) = true).
  { apply key_vacant_spec; [done|]. cbn. split_and!; try lia. intros q Hq. rewrite Forall_forall in HF. apply list_elem_of_In, HF in Hq. unfold RM.overlaps. cbn. lia. }
  assert (Eb : bt_insert (RM.map rm) p.1 (p.2.1, m) = RM.map rm ++ [(p.1, (p.2.1, m))]).
  { rewrite bt_insert_snoc; [done|]. rewrite Forall_forall in HF |- *. intros q Hq. pose proof (HF q Hq) as Hqe. apply list_elem_of_In in Hq.
    destruct (RM.seg_wf_item _ _ _ Hwf Hq) as (_ & Hqq & _). apply Z.ltb_lt. lia. }
  pose proof (insert_vacant_wf rm (RM.mk_range p.1 p.2.1) m Hwf Hv) as Hw'. cbn in *. rewrite Eb in Hw'. split; [|done]. unfold RM.try_insert. rewrite Hv. cbn. by rewrite Eb.
Qed.
Lemma pres_sees h h' p j bs : pres h h' -> anon h p -> sees h p j bs -> sees h' p j bs.
Proof. intros [_ Hp] (ph & [Hph Hb] & _). destruct (Hp _ _ Hph Hb) as (_ & _ & _ & _ & _ & _ & Hs). apply Hs. Qed.
(** Writable pages leave the table. *)
Lemma fork_decommit n p w : good w -> In p (RM.map (vmap (self w))) -> anon (hp w) (phys p.2.2) ->
  exists w1 evs, (if writable p then decommit_some n p.2.2 p.1 0 (pages_of (RM.mk_range p.1 p.2.1)) else mret tt) w = Some (Ok tt, w1) /\
    good w1 /\ hp w1 = hp w /\ quiet w w1 /\ shed (fun x => writable p = true /\ p.1 <= x < p.2.1) evs w w1.
Proof.
  intros Hg Hp Ha. destruct (writable p).
  - pose proof (g_space _ _ Hg) as Hs. destruct (pages_of_ok _ p Hs Hp) as [Hc Hpe]. destruct (space_bounds _ _ Hs Hp). destruct (sp_items _ Hs p Hp) as (Hp4 & _ & _).
    destruct (decommit_total n p.2.2 p.1 0 (pages_of (RM.mk_range p.1 p.2.1)) w (g_tree _ _ Hg) (g_hart _ _ Hg) Ha) as (w1 & E & Hh); [lia|lia|lia|].
    destruct (decommit_part base n w p p.1 0 _ _ w1 Hg Hp Hc ltac:(lia) Hp4 ltac:(lia) E ltac:(done)) as (_ & Hg1 & evs & Hcl). rewrite Hpe in Hcl.
    exists w1, evs. split_and!; try done; [apply Hcl..|]. eapply shed_iff; [|by apply shed_cleared]. cbn. intros x _. tauto.
  - exists w, []. split_and!; try done. eapply shed_iff; [|by apply shed_same]. intros x _. split; [done|]. by intros [? _].
Qed.
(** One mapping is copied. *)
Lemma fork_mapping rank n p w : wf rank (hp w) -> anon (hp w) (phys p.2.2) -> (rank (phys p.2.2) < n)%nat ->
  exists m' h1 rank', mapping_deep_fork n p.2.2 w = Some (Ok m', mk_world (self w) h1 (pt w) (fences w) (hart w)) /\ wf rank' h1 /\
    (forall k, (forall x, (rank x <= k)%nat) -> forall x, (rank' x <= S k)%nat) /\ pres (hp w) h1 /\ mirror (hp w) h1 p (p.1, (p.2.1, m')).
Proof.
  intros Hw (ph & [Hp Hb] & Hf) Hn. destruct (clone_ok rank n (hp w) (phys p.2.2) ph (Ph.cow ph) Hw Hp Hb Hn) as (c & h1 & rank' & E & Hcl).
  exists (mk_mapping c (start_index p.2.2) (attr p.2.2)), h1, rank'. split_and!.
  - unfold mapping_deep_fork. assert (Eg : on_heap (Ph.get_phys (phys p.2.2)) w = Some (Ok ph, w)).
    { unfold on_heap, Ph.get_phys, Ph.hget, pt_opt, pt_res, mbind, PT_bind. rewrite Hp. by destruct w. }
    rewrite (PT_bind_Ok _ _ _ _ _ Eg). unfold on_heap at 1, mbind, PT_bind. by rewrite E.
  - apply Hcl.
  - apply Hcl.
  - apply Hcl.
  - destruct (c_obj _ _ _ _ _ _ _ Hcl) as (cph & Hc1 & Hc2 & _). split; try done; cbn.
    + exists cph. by split.
    + intros ->. pose proof (c_new _ _ _ _ _ _ _ Hcl ph Hp). congruence.
    + apply Hcl.
Qed.
(** One round of the loop. *)
Lemma fork_round n p l l1 h0 rank k w acc : good w -> In p (RM.map (vmap (self w))) -> wf rank (hp w) -> (forall x, (rank x <= k)%nat) -> (k < n)%nat ->
  pres h0 (hp w) -> anon h0 (phys p.2.2) ->
  RM.range acc = RM.range (vmap (self w)) -> RM.wf acc -> Forall2 (mirror h0 (hp w)) l1 (RM.map acc) -> Forall (fun q => q.2.1 <= p.1) l1 ->
  exists w2 acc1 rank2 evs, fork_all n (RM.entry_view p :: l) acc w = fork_all n l acc1 w2 /\ good w2 /\ quiet w w2 /\ wf rank2 (hp w2) /\ (forall x, (rank2 x <= S k)%nat) /\
    pres h0 (hp w2) /\ RM.range acc1 = RM.range acc /\ RM.wf acc1 /\ Forall2 (mirror h0 (hp w2)) (l1 ++ [p]) (RM.map acc1) /\
    shed (fun x => writable p = true /\ p.1 <= x < p.2.1) evs w w2.
Proof.
  intros Hg Hp Hw Hk Hn Hpr Hanon Hra Hwa Hmi Hbef. pose proof (anon_pres _ _ _ Hpr Hanon) as Ha.
  destruct (fork_decommit n p w Hg Hp Ha) as (w1 & evs1 & E1 & Hg1 & Hh1 & Hq1 & Hsh1).
  destruct (fork_mapping rank n p w1) as (m' & h2 & rank2 & E2 & Hw2 & Hk2 & Hpr2 & Hmi2); [by rewrite Hh1|by rewrite Hh1|specialize (Hk (phys p.2.2)); lia|].
  set (w2 := mk_world (self w1) h2 (pt w1) (fences w1) (hart w1)) in *. rewrite Hh1 in Hpr2, Hmi2. assert (Hpr02 : pres h0 h2) by (by eapply pres_trans).
  destruct (insert_last acc p m' Hwa) as [Ei Hwi].
  { rewrite Hra. by eapply RM.seg_wf_item; [apply Hg|]. }
  { clear - Hmi Hbef. induction Hmi as [|a b la lb Hab Hmi IH]; [constructor|]. inversion Hbef; subst. constructor; [|by apply IH]. by rewrite (mr_hi _ _ _ _ Hab). }
  exists w2, (RM.mk_rm (RM.range acc) (RM.map acc ++ [(p.1, (p.2.1, m'))])), rank2, evs1. split_and!; try done.
  - cbn [fork_all]. unfold RM.entry_view at 1. unfold mbind at 1, PT_bind at 1. unfold on_err at 1. change (PG.contains (attr p.2.2) PG.WRITABLE) with (writable p). cbn [RM.rstart].
    rewrite E1, (PT_bind_Ok _ _ _ _ _ E2), Ei. done.
  - by apply good_heap.
  - by apply Hk2.
  - cbn [RM.map]. apply Forall2_app; [|constructor; [|constructor]].
    + eapply Forall2_impl; [exact Hmi|]. intros a b. by apply mirror_pres.
    + destruct Hmi2 as [M1 M2 M3 M4 M5 M6 M7]. split; try done. intros j bs Hs. apply M7. by eapply pres_sees.
  - destruct Hsh1 as [A1 A2 A3 A4]. exact (mk_shed _ evs1 w w2 A1 A2 A3 A4).
Qed.
Lemma fork_all_ok n ps : forall l1 h0 rank k w acc, good w -> RM.map (vmap (self w)) = l1 ++ ps -> wf rank (hp w) -> (forall x, (rank x <= k)%nat) -> (k + length ps <= n)%nat ->
  pres h0 (hp w) -> (forall p, In p ps -> anon h0 (phys p.2.2)) ->
  RM.range acc = RM.range (vmap (self w)) -> RM.wf acc -> Forall2 (mirror h0 (hp w)) l1 (RM.map acc) ->
  exists w' acc', fork_all n (List.map RM.entry_view ps) acc w = Some (Ok acc', w') /\ good w' /\ quiet w w' /\ pres h0 (hp w') /\
    (exists rank', wf rank' (hp w') /\ forall x, (rank' x <= k + length ps)%nat) /\
    RM.range acc' = RM.range acc /\ RM.wf acc' /\ Forall2 (mirror h0 (hp w')) (l1 ++ ps) (RM.map acc') /\
    exists evs, shed (in_some (List.filter writable ps)) evs w w'.
Proof.
  induction ps as [|p ps IH]; intros l1 h0 rank k w acc Hg Hmap Hw Hk Hn Hpr Hanon Hra Hwa Hmi; cbn [List.map length] in *.
  - exists w, acc. rewrite app_nil_r in *. split_and!; try done.
    + exists rank. split; [done|]. intros x. specialize (Hk x). lia.
    + exists []. eapply shed_iff; [|by apply shed_same]. intros x _. split; [done|]. intros H'. inversion H'.
  - pose proof (sp_wf _ (g_space _ _ Hg)) as Hwf. unfold RM.wf in Hwf. rewrite Hmap in Hwf. apply RM.seg_wf_app in Hwf as (_ & _ & Hbef).
    destruct (fork_round n p (List.map RM.entry_view ps) l1 h0 rank k w acc) as (w2 & acc1 & rank2 & evs1 & E1 & Hg2 & Hq2 & Hw2 & Hk2 & Hpr2 & Hra1 & Hwa1 & Hmi1 & Hsh1);
      try done; [rewrite Hmap; apply in_or_app; right; by left|lia|apply Hanon; by left|eapply Forall_impl; [exact Hbef|]; intros q Hq; by inversion Hq|].
    destruct (IH (l1 ++ [p]) h0 rank2 (S k) w2 acc1) as (w' & acc' & E & Hg' & Hq' & Hpr' & (rank' & Hw' & Hk') & Hra' & Hwa' & Hmi' & evs2 & Hsh2); try done;
      [by rewrite (proj1 Hq2), Hmap, <- app_assoc|lia|intros q Hq; apply Hanon; by right|by rewrite Hra1, (proj1 Hq2)|].
    exists w', acc'. rewrite <- app_assoc in Hmi'. split_and!; try done; [by rewrite E1|by eapply quiet_trans| |congruence|].
    + exists rank'. split; [done|]. intros x. specialize (Hk' x). lia.
    + exists (evs1 ++ evs2). eapply shed_iff; [|eapply shed_trans; [| |exact Hsh1|exact Hsh2]]; [|intros; apply _..].
      intros x Hx. cbn [List.filter]. unfold in_some. destruct (writable p); [rewrite Exists_cons|]; naive_solver.
Qed.

Lemma mirror_find h0 h l l' x : Forall2 (mirror h0 h) l l' ->
  match List.find (RM.covers x) l, List.find (RM.covers x) l' with Some p, Some q => In p l /\ mirror h0 h p q | None, None => True | _, _ => False end.
Proof.
  induction 1 as [|p q l l' Hpq Hl IH]; [done|]. cbn [List.find]. assert (RM.covers x q = RM.covers x p) as -> by (unfold RM.covers; by rewrite (mr_lo _ _ _ _ Hpq), (mr_hi _ _ _ _ Hpq)).
  destruct (RM.covers x p); [split; [by left|done]|]. destruct (List.find _ l), (List.find _ l'); try done. destruct IH. split; [by right|done].
Qed.
(** ** Whatever the objects are: a fork that does not panic leaves both spaces in order *)
Lemma deep_fork_heap n m w r w' : mapping_deep_fork n m w = Some (r, w') -> (exists h, w' = mk_world (self w) h (pt w) (fences w) (hart w)) /\ forall m', r = Ok m' -> attr m' = attr m.
Proof.
  unfold mapping_deep_fork, mbind, PT_bind. destruct (on_heap (Ph.get_phys (phys m)) w) as [[r1 w1]|] eqn:E1; [|done]. apply on_heap_Some in E1 as (h1 & _ & ->).
  destruct r1 as [ph|e|]; [|intros [= <- <-]; split; [by exists h1|by intros ? [=]]..].
  destruct (on_heap (Ph.clone_as _ _ _ _ _) _) as [[r2 w2]|] eqn:E2; [|done]. apply on_heap_Some in E2 as (h2 & _ & ->). cbn [self pt fences hart].
  destruct r2; intros [= <- <-]; (split; [by exists h2|by intros ? [= <-] || intros ? [=]]).
Qed.
Lemma fork_all_sound n ps : forall w acc r w', good w -> (forall p, In p ps -> In p (RM.map (vmap (self w)))) -> space acc ->
  fork_all n (List.map RM.entry_view ps) acc w = Some (r, w') -> r <> Panic -> good w' /\ forall acc', r = Ok acc' -> space acc'.
Proof.
  induction ps as [|p ps IH]; intros w acc r w' Hg Hin Hsp E Hr; cbn [List.map fork_all] in E.
  { injection E as <- <-. split; [done|]. by intros acc' [= <-]. }
  unfold RM.entry_view at 1 in E. cbn [RM.rstart] in E. assert (Hp : In p (RM.map (vmap (self w)))) by (apply Hin; by left).
  pose proof (g_space _ _ Hg) as Hs. destruct (sp_items _ Hs p Hp) as (H1 & H2 & H3). destruct (pages_of_ok _ p Hs Hp) as [Hc Hpe].
  unfold mbind at 1, PT_bind at 1 in E. unfold on_err in E.
  destruct ((if PG.contains (attr p.2.2) PG.WRITABLE then decommit_some n p.2.2 p.1 0 (pages_of (RM.mk_range p.1 p.2.1)) else mret tt) w) as [[r1 w1]|] eqn:E1; [|done].
  assert (Hd : r1 = Panic \/ r1 = Ok tt /\ good w1 /\ vmap (self w1) = vmap (self w)).
  { destruct (PG.contains _ _); [|right; by injection E1 as <- <-]. assert (Hn1 : r1 = Panic \/ r1 <> Panic) by (destruct r1; [by right..|by left]). destruct Hn1 as [->|Hn1]; [by left|right].
    destruct (decommit_part base n w p p.1 0 _ r1 w1 Hg Hp Hc ltac:(lia) H1 ltac:(lia) E1 Hn1) as (-> & Hg1 & evs & Hcl).
    split_and!; try done. destruct (cl_quiet _ _ _ _ _ Hcl) as [Hq _]. by rewrite Hq. }
  destruct Hd as [->|(-> & Hg1 & Hv)]; [injection E as <- <-; done|].
  unfold mbind at 1, PT_bind at 1 in E. destruct (mapping_deep_fork n p.2.2 w1) as [[r2 w2]|] eqn:E2; [|done].
  apply deep_fork_heap in E2 as ((h2 & ->) & Ha). pose proof (good_heap base w1 h2 Hg1) as Hg2.
  destruct r2 as [m'|e|]; [|injection E as <- <-; split; [done|by intros acc' [=]]|injection E as <- <-; done].
  specialize (Ha m' eq_refl).
  unfold RM.try_insert in E. destruct (RM.key_vacant acc _) eqn:Ev.
  - apply (IH _ _ r w' Hg2) in E; [done|intros q Hq; cbn; rewrite Hv; apply Hin; by right| |done].
    destruct (space_insert acc p.1 p.2.1 m' Hsp Ev H1 H2) as (Hs' & _); [by rewrite Ha|exact Hs'].
  - unfold mbind, PT_bind in E. destruct (on_heap (Ph.drop_phys n (phys m')) _) as [[r3 w3]|] eqn:E3; [|done]. apply on_heap_Some in E3 as (h3 & _ & ->).
    pose proof (good_heap base _ h3 Hg2) as Hg3.
    destruct r3 as [[]|e|]; [|injection E as <- <-; split; [done|by intros acc' [=]]|injection E as <- <-; done].
    apply (IH _ _ r w' Hg3) in E; [done|intros q Hq; cbn; rewrite Hv; apply Hin; by right|done|done].
Qed.

Lemma fork_sound n init w r w' : good w -> root_ok init -> deep_fork n init w = Some (r, w') -> r <> Panic ->
  good w' /\ forall v, r = Ok v -> good (set_self v w').
Proof.
  intros Hg Hi E Hr. unfold deep_fork in E. rewrite (PT_bind_Ok _ _ _ _ _ (get_map_ok w)) in E. unfold mbind at 1, PT_bind at 1, RM.iter in E.
  destruct (fork_all n _ _ w) as [[r1 w1]|] eqn:E1; [|done]. pose proof (g_space _ _ Hg) as [_ Hra Hro _].
  assert (Hn1 : r1 <> Panic) by (intros ->; by injection E as <- <-).
  apply fork_all_sound in E1 as [Hg1 Hacc]; [|done|done|split; try done; split; constructor|done].
  destruct r1 as [acc|e|]; [|injection E as <- <-; split; [done|by intros v [=]]|done]. specialize (Hacc acc eq_refl).
  destruct (frame_from_ok init w1 (g_tree _ _ Hg1) Hi) as [[_ Ef]|(p & s' & Ef & Ht & Hum & (own & live & Hin) & Hnone)].
  { unfold mbind, PT_bind in E. rewrite Ef in E. by injection E as <- <-. }
  rewrite (PT_bind_Ok _ _ _ _ _ Ef) in E. injection E as <- <-. destruct Hg1 as [_ Hh1 Hs1 Hc1]. split.
  - split; try done. intros x t Hx Hu. rewrite Hum in Hu by done. by apply Hc1.
  - intros v [= <-]. split; [by exists own, live|by destruct Hh1; split|done|].
    intros x t Hx. unfold VirtSpec.um. cbn. by rewrite Hnone.
Qed.

(** What a fork has made: [w0] is the world before, [w'] the one after, [v] the copy. *)
Record forked (v : Virt) w0 w' : Prop := mk_forked {
  fk_parent : good w';
  fk_child : good (set_self v w');
  fk_quiet : quiet w0 w';
  fk_pres : pres (hp w0) (hp w');
  fk_same x : RM.at_ (vmap v) x = None <-> RM.at_ (vmap (self w0)) x = None;
  fk_at x m : RM.at_ (vmap (self w0)) x = Some m -> exists m', RM.at_ (vmap v) x = Some m' /\ start_index m' = start_index m /\ attr m' = attr m /\ phys m' <> phys m /\
    forall j bs, sees (hp w0) (phys m) j bs -> sees (hp w') (phys m) j bs /\ sees (hp w') (phys m') j bs;
  fk_cow x t m : user x -> um w' x = Some t -> RM.at_ (vmap (self w0)) x = Some m -> PG.contains (attr m) PG.WRITABLE = false;
  fk_empty x : user x -> um (set_self v w') x = None;
}.
Lemma virt_fork_ok n init rank k w : good w -> root_ok init -> wf rank (hp w) -> (forall x, (rank x <= k)%nat) -> (k + length (RM.map (vmap (self w))) <= n)%nat ->
  (forall p, In p (RM.map (vmap (self w))) -> anon (hp w) (phys p.2.2)) ->
  exists r w', deep_fork n init w = Some (r, w') /\
    match r with Ok v => forked v w w' | Err _ => False | Panic => PG.pa_alloc (PG.alloc (pt w')) = None end.
Proof.
  intros Hg Hi Hw Hk Hn Hanon. unfold deep_fork. rewrite (PT_bind_Ok _ _ _ _ _ (get_map_ok w)).
  destruct (fork_all_ok n (RM.map (vmap (self w))) [] (hp w) rank k w (RM.new (RM.root_range (vmap (self w))))) as
    (w1 & acc & E & Hg1 & Hq1 & Hpr & _ & Hra & Hwa & Hmi & evs & Hsh); try done; try apply pres_refl; try constructor; try constructor.
  unfold RM.iter. rewrite (PT_bind_Ok _ _ _ _ _ E). destruct (frame_from_ok init w1 (g_tree _ _ Hg1) Hi) as [[Hno Ef]|(p & s' & Ef & Ht' & Hum & Hchild & Hnone)].
  { exists Panic, w1. unfold mbind, PT_bind. by rewrite Ef. }
  rewrite (PT_bind_Ok _ _ _ _ _ Ef). eexists (Ok (mk_virt p acc 0)), _. split; [done|]. pose proof (g_space _ _ Hg) as [_ Hr Hro Hit].
  assert (Hcov : forall x, match List.find (RM.covers x) (RM.map (vmap (self w))), List.find (RM.covers x) (RM.map acc) with
     Some a, Some b => In a (RM.map (vmap (self w))) /\ mirror (hp w) (hp w1) a b | None, None => True | _, _ => False end) by (intros x; by apply mirror_find).
  split.
  - destruct Hg1 as [_ Hh1 Hs1 Hc1]. split; try done. intros x t Hx Hu. rewrite Hum in Hu by done. by apply Hc1.
  - split; [by destruct Hchild as (own & live & Hinv); exists own, live|destruct (g_hart _ _ Hg1); by split| |].
    + split; cbn; [done|by rewrite Hra|by rewrite Hra|]. intros q Hq. apply list_elem_of_In, list_elem_of_lookup in Hq as [j Hj].
      destruct (Forall2_lookup_r _ _ _ _ _ Hmi Hj) as (p0 & Hp0 & [M1 M2 _ M4 _ _ _]). unfold item_good. rewrite M1, M2, M4. apply Hit, list_elem_of_In. by eapply list_elem_of_lookup_2.
    + intros x t Hx Hu. unfold um in Hu. cbn in Hu. by rewrite Hnone in Hu.
  - done.
  - done.
  - intros x. specialize (Hcov x). cbn. unfold RM.at_. by destruct (List.find _ (RM.map (vmap (self w)))), (List.find _ (RM.map acc)).
  - intros x m Hm. specialize (Hcov x). cbn. unfold RM.at_ in *. destruct (List.find _ (RM.map (vmap (self w)))) as [a|], (List.find _ (RM.map acc)) as [b|]; try done.
    cbn in Hm. injection Hm as <-. destruct Hcov as [Ha [_ _ M3 M4 _ M6 M7]]. exists b.2.2. split_and!; try done. intros j bs Hs. split; [|by apply M7].
    eapply pres_sees; [exact Hpr|by apply Hanon|done].
  - intros x t m Hx Hu Hm. rewrite Hum in Hu by done. destruct (PG.contains (attr m) PG.WRITABLE) eqn:Ew; [|done]. exfalso.
    apply RM.at_Some in Hm as (a & Ha & Hc & <-); [|apply Hg]. unfold RM.covers in Hc.
    destruct (sh_in _ _ _ _ Hsh x Hx) as [[E' _]|[E' Hno]]; [|congruence|].
    + apply List.Exists_exists. exists a. split; [by apply filter_In|lia].
    + rewrite E' in Hu. destruct (g_coh _ _ Hg x t Hx Hu) as (m0 & f & _ & Hl & _). destruct t as [l v]. cbn in Hl. subst l. by apply (Hno v).
  - intros x Hx. unfold um. cbn. by apply Hnone.
Qed.
End Fork.
