(* ===== verification/Tlb.v ===== *)
(** * kmem: which harts have an address space loaded

    mizu/lib/kmem/src/virt/tlb.rs, [set_virt] and [unset_virt], and the order in which
    mizu/lib/kmem/src/virt.rs loads the mask, changes the table and sends the fences.
    Every hart is between two atomic accesses; what it can have in its TLB is kept for
    one page of every address space.  All spaces have the identifier 0, so a stale
    translation can be used in any of them. *)

From S2P Require Import Prelude.

Module Tlb.
(** Where a hart is: a step per access to what the harts share. *)
Inductive pc :=
| Idle
| SetReplace (v : nat)
| SetSatp (v : nat) (old : option nat)
| SetFence (old : option nat)
| SetClear (old : option nat)
| UnsetSatp (old : option nat)
| UnsetFence (old : option nat)
| UnsetClear (old : option nat).
(** Where the holder of the table is: in [decommit], or in [clear] and [drop]. *)
Inductive stage :=
| Free
| Masked (m : Z)
| Reset (m : Z)
| Unmapped
| UnmappedMask (m : Z)
| Cleared.

Record st := mk_st {
  mask : nat -> Z;               (* cpu_mask *)
  cur : Z -> option nat;         (* CUR_VIRT *)
  satp : Z -> option nat;        (* the space of the root table, none for the kernel's *)
  at_ : Z -> pc;
  page : nat -> bool;            (* the page is in the table *)
  holder : nat -> stage;
  tlb : Z -> nat -> bool;        (* the hart can have a translation of the page *)
}.
Definition init : st := mk_st (fun _ => 0) (fun _ => None) (fun _ => None) (fun _ => Idle) (fun _ => false) (fun _ => Free) (fun _ _ => false).

Section Upd.
Context {K V : Type} `{EqDecision K}.
Definition upd (k : K) (x : V) (f : K -> V) : K -> V := fun y => if decide (y = k) then x else f y.
Lemma upd_eq k x f : upd k x f k = x.
Proof. unfold upd. by destruct (decide _). Qed.
Lemma upd_ne k x f y : y <> k -> upd k x f y = f y.
Proof. intros. unfold upd. by destruct (decide _). Qed.
End Upd.
Definition set_mask v m s := mk_st (upd v m (mask s)) (cur s) (satp s) (at_ s) (page s) (holder s) (tlb s).
Definition set_cur h c s := mk_st (mask s) (upd h c (cur s)) (satp s) (at_ s) (page s) (holder s) (tlb s).
Definition set_satp h t s := mk_st (mask s) (cur s) (upd h t (satp s)) (at_ s) (page s) (holder s) (tlb s).
Definition set_at h p s := mk_st (mask s) (cur s) (satp s) (upd h p (at_ s)) (page s) (holder s) (tlb s).
Definition set_page v b s := mk_st (mask s) (cur s) (satp s) (at_ s) (upd v b (page s)) (holder s) (tlb s).
Definition set_holder v g s := mk_st (mask s) (cur s) (satp s) (at_ s) (page s) (upd v g (holder s)) (tlb s).
Definition set_tlb f s := mk_st (mask s) (cur s) (satp s) (at_ s) (page s) (holder s) f.
Definition fetch_or v h s : st := set_mask v (Z.lor (mask s v) (wshl 64 1 h)) s.
Definition fetch_and_not v h s : st := set_mask v (Z.land (mask s v) (wnot 64 (wshl 64 1 h))) s.
(** [sfence_vma_all] on a hart; the fence of the page of [v] on the harts of a mask. *)
Definition sfence_vma_all h s : st := set_tlb (upd h (fun _ => false) (tlb s)) s.
Definition fence_page (v : nat) (m : Z) s : st :=
  set_tlb (fun h u => if Nat.eqb u v && Z.testbit m h then false else tlb s h u) s.

(** The next access of a hart that is in [set_virt] or [unset_virt]. *)
Definition hart_step (h : Z) (s : st) : option st :=
  match at_ s h with
  | Idle => None
  | SetReplace v => Some (set_at h (SetSatp v (cur s h)) (set_cur h (Some v) s))
  | SetSatp v old => Some (if decide (old = Some v) then set_at h Idle s else set_at h (SetFence old) (set_satp h (Some v) s))
  | SetFence old => Some (set_at h (SetClear old) (sfence_vma_all h s))
  | SetClear old => Some (set_at h Idle (match old with Some v => fetch_and_not v h s | None => s end))
  | UnsetSatp old => Some (set_at h (UnsetFence old) (set_satp h None s))
  | UnsetFence old => Some (set_at h (UnsetClear old) (sfence_vma_all h s))
  | UnsetClear old => Some (set_at h Idle (match old with Some v => fetch_and_not v h s | None => s end))
  end.
(** The next access of the holder of the table of [v]. *)
Definition holder_step (v : nat) (s : st) : option st :=
  match holder s v with
  | Free => None
  | Masked m => Some (set_holder v (Reset m) (set_page v false s))
  | Reset m => Some (set_holder v Free (fence_page v m s))
  | Unmapped => Some (set_holder v (UnmappedMask (mask s v)) s)
  | UnmappedMask m => Some (set_holder v Cleared (fence_page v m s))
  | Cleared => Some (set_holder v Free s)
  end.
Definition idle h s : bool := match at_ s h with Idle => true | _ => false end.
Definition free v s : bool := match holder s v with Free => true | _ => false end.
Inductive action :=
| SetVirt (h : Z) (v : nat)
| UnsetVirt (h : Z)
| Hart (h : Z)
| Walk (h : Z)         (* the hart fills its TLB from the table it has *)
| Commit (v : nat)
| Decommit (v : nat)
| Clear (v : nat)
| Holder (v : nat).
Definition hart_ok (h : Z) : bool := (0 <=? h) && (h <? 64).
Definition act (a : action) (s : st) : option st :=
  match a with
  | SetVirt h v => if hart_ok h && idle h s then Some (set_at h (SetReplace v) (fetch_or v h s)) else None
  | UnsetVirt h => if hart_ok h && idle h s then Some (set_at h (UnsetSatp (cur s h)) (set_cur h None s)) else None
  | Hart h => if hart_ok h then hart_step h s else None
  | Walk h =>
      match satp s h with
      | Some v => if hart_ok h && page s v then Some (set_tlb (upd h (upd v true (tlb s h)) (tlb s)) s) else None
      | None => None
      end
  | Commit v => if free v s then Some (set_page v true s) else None
  | Decommit v => if free v s then Some (set_holder v (Masked (mask s v)) s) else None
  | Clear v => if free v s then Some (set_holder v Unmapped (set_page v false s)) else None
  | Holder v => holder_step v s
  end.
Fixpoint run (l : list action) (s : st) : option st :=
  match l with [] => Some s | a :: l => s ← act a s; run l s end.
End Tlb.

(** * kmem: the shootdown reaches every hart

    The mask of an address space against what the harts can have in their TLBs, in
    every interleaving of [set_virt], [unset_virt] and the changes of the tables. *)
Import Tlb.

(** What the place of a hart says: the masks it is in, what its TLB can hold, the
    table it has. *)
Definition in_mask (p : pc) (c : option nat) (u : nat) : Prop :=
  match p with
  | Idle => c = Some u
  | SetReplace v => c = Some u \/ u = v
  | SetSatp v old => old = Some u \/ u = v
  | SetFence old | SetClear old => old = Some u \/ c = Some u
  | UnsetSatp old | UnsetFence old | UnsetClear old => old = Some u
  end.
Definition may_hold (p : pc) (c : option nat) (u : nat) : Prop :=
  match p with
  | Idle | SetReplace _ | SetClear _ => c = Some u
  | SetSatp _ old | UnsetSatp old | UnsetFence old => old = Some u
  | SetFence old => old = Some u \/ c = Some u
  | UnsetClear _ => False
  end.
Definition loaded (p : pc) (c : option nat) : option nat :=
  match p with
  | Idle | SetReplace _ | SetFence _ | SetClear _ => c
  | SetSatp _ old | UnsetSatp old => old
  | UnsetFence _ | UnsetClear _ => None
  end.
Definition shape (p : pc) (c : option nat) : Prop :=
  match p with
  | Idle | SetReplace _ => True
  | SetSatp v _ => c = Some v
  | SetFence old | SetClear old => exists v, c = Some v /\ old <> Some v
  | UnsetSatp _ | UnsetFence _ | UnsetClear _ => c = None
  end.
Record hart_inv (h : Z) (s : st) : Prop := mk_hart_inv {
  hi_shape : shape (at_ s h) (cur s h);
  hi_satp : satp s h = loaded (at_ s h) (cur s h);
  hi_mask v : Z.testbit (mask s v) h = true <-> in_mask (at_ s h) (cur s h) v;
  hi_tlb v : tlb s h v = true -> may_hold (at_ s h) (cur s h) v;
}.
Definition held_inv (v : nat) (s : st) : Prop :=
  match holder s v with
  | Unmapped => page s v = false
  | UnmappedMask m => page s v = false /\ forall h, 0 <= h < 64 -> tlb s h v = true -> Z.testbit m h = true
  | Cleared => page s v = false /\ forall h, 0 <= h < 64 -> tlb s h v = false
  | _ => True
  end.
Record tlb_inv (s : st) : Prop := mk_tlb_inv {
  ti_fits v : fits 64 (mask s v);
  ti_hart h : 0 <= h < 64 -> hart_inv h s;
  ti_held v : held_inv v s;
}.

Lemma may_in_mask p c u : shape p c -> may_hold p c u -> in_mask p c u.
Proof. destruct p; cbn; intuition (subst; auto). Qed.
Lemma loaded_may p c u : shape p c -> loaded p c = Some u -> may_hold p c u.
Proof. destruct p; cbn; intuition (subst; auto; try done). Qed.
Lemma hart_bit h : 0 <= h < 64 -> wshl 64 1 h = 2 ^ h.
Proof. intros. rewrite wshl_small; [lia|lia|rewrite Z.mul_1_l; by apply fits_pow2]. Qed.
Lemma or_bit m h k : 0 <= h < 64 -> Z.testbit (Z.lor m (wshl 64 1 h)) k = Z.testbit m k || (k =? h).
Proof. intros Hh. by rewrite Z.lor_spec, hart_bit, testbit_pow2 by lia. Qed.
Lemma and_bit m h k : 0 <= h < 64 -> 0 <= k < 64 -> Z.testbit (Z.land m (wnot 64 (wshl 64 1 h))) k = Z.testbit m k && negb (k =? h).
Proof.
  intros Hh Hk. rewrite Z.land_spec, hart_bit, testbit_wnot, testbit_pow2 by (try lia; by apply fits_pow2).
  rewrite (proj2 (Z.leb_le _ _)), (proj2 (Z.ltb_lt _ _)) by lia. done.
Qed.
Lemma fits_or m h : 0 <= h < 64 -> fits 64 m -> fits 64 (Z.lor m (wshl 64 1 h)).
Proof. intros Hh Hm. rewrite hart_bit by done. apply fits_lor; [done|done|by apply fits_pow2]. Qed.
Lemma fits_and m x : fits 64 m -> fits 64 (Z.land m x).
Proof. by apply fits_land. Qed.

(** A hart whose own state is as it was. *)
Lemma hart_inv_same h s s' : at_ s' h = at_ s h -> cur s' h = cur s h -> satp s' h = satp s h ->
  (forall v, Z.testbit (mask s' v) h = Z.testbit (mask s v) h) -> (forall v, tlb s' h v = true -> tlb s h v = true) -> hart_inv h s -> hart_inv h s'.
Proof. intros E1 E2 E3 E4 E5 [H1 H2 H3 H4]. split; rewrite ?E1, ?E2, ?E3; try done; intros v; [by rewrite E4|auto]. Qed.
(** A holder, when no TLB gets the page. *)
Lemma held_inv_same v s s' : holder s' v = holder s v -> page s' v = page s v -> (forall h, 0 <= h < 64 -> tlb s' h v = true -> tlb s h v = true) -> held_inv v s -> held_inv v s'.
Proof.
  unfold held_inv. intros -> -> Ht. destruct (holder s v); try done.
  - intros [Hp Hm]. split; [done|]. intros h Hh Htl. by apply Hm, Ht.
  - intros [Hp Hm]. split; [done|]. intros h Hh. specialize (Hm h Hh). specialize (Ht h Hh). destruct (tlb s' h v); [rewrite Hm in Ht; by specialize (Ht eq_refl)|done].
Qed.

(** Only hart [h] has moved, and its TLB has no page more. *)
Record moved (h : Z) (s s' : st) : Prop := mk_moved {
  mv_fits v : fits 64 (mask s' v);
  mv_mask k v : 0 <= k < 64 -> k <> h -> Z.testbit (mask s' v) k = Z.testbit (mask s v) k;
  mv_rest k : k <> h -> cur s' k = cur s k /\ satp s' k = satp s k /\ at_ s' k = at_ s k /\ tlb s' k = tlb s k;
  mv_tlb v : tlb s' h v = true -> tlb s h v = true;
  mv_page : page s' = page s;
  mv_holder : holder s' = holder s;
}.
Lemma moved_inv h s s' : tlb_inv s -> moved h s s' -> hart_inv h s' -> tlb_inv s'.
Proof.
  intros [Hf Hh Hd] [M1 M2 M3 M4 M5 M6] Hme. split; [done| |].
  - intros k Hk. destruct (decide (k = h)) as [->|Hne]; [done|]. destruct (M3 k Hne) as (E1 & E2 & E3 & E4).
    apply (hart_inv_same k s); try done; [intros v; by apply M2|by rewrite E4|by apply Hh].
  - intros v. apply (held_inv_same v s); try done; [by rewrite M6|by rewrite M5|]. intros k Hk. destruct (decide (k = h)) as [->|Hne]; [apply M4|].
    destruct (M3 k Hne) as (_ & _ & _ & ->). done.
Qed.
(** The accesses, one after the other. *)
Lemma moved_trans h s1 s2 s3 : moved h s1 s2 -> moved h s2 s3 -> moved h s1 s3.
Proof.
  intros [A1 A2 A3 A4 A5 A6] [B1 B2 B3 B4 B5 B6]. split; try congruence; auto.
  - intros k v Hk Hne. by rewrite B2, A2.
  - intros k Hne. destruct (A3 k Hne) as (E1 & E2 & E3 & E4), (B3 k Hne) as (F1 & F2 & F3 & F4). split_and!; congruence.
Qed.
Ltac moved := intros; split; cbn; intros; rewrite ?upd_ne by done; auto.
Lemma moved_at h p s : (forall v, fits 64 (mask s v)) -> moved h s (set_at h p s).
Proof. moved. Qed.
Lemma moved_cur h c s : (forall v, fits 64 (mask s v)) -> moved h s (set_cur h c s).
Proof. moved. Qed.
Lemma moved_satp h t s : (forall v, fits 64 (mask s v)) -> moved h s (set_satp h t s).
Proof. moved. Qed.
Lemma moved_fence h s : (forall v, fits 64 (mask s v)) -> moved h s (sfence_vma_all h s).
Proof. moved. by rewrite upd_eq in *. Qed.
Lemma moved_or h v s : 0 <= h < 64 -> (forall v, fits 64 (mask s v)) -> moved h s (fetch_or v h s).
Proof.
  intros Hh Hf. split; cbn; intros; auto.
  - unfold upd. case_decide; [by apply fits_or|done].
  - unfold upd. case_decide; [|done]. subst. rewrite or_bit by done. rewrite (proj2 (Z.eqb_neq _ _)) by done. apply orb_false_r.
Qed.
Lemma moved_and h o s : 0 <= h < 64 -> (forall v, fits 64 (mask s v)) -> moved h s (match o with Some v => fetch_and_not v h s | None => s end).
Proof.
  intros Hh Hf. destruct o as [v|]; [|by split; auto]. split; cbn; intros; auto.
  - unfold upd. case_decide; [by apply fits_and|done].
  - unfold upd. case_decide; [|done]. subst. rewrite and_bit by done. rewrite (proj2 (Z.eqb_neq _ _)) by done. apply andb_true_r.
Qed.

(** Where the hart is afterwards, given what the access has changed. *)
Lemma hart_at h p s : shape p (cur s h) -> satp s h = loaded p (cur s h) -> (forall v, Z.testbit (mask s v) h = true <-> in_mask p (cur s h) v) ->
  (forall v, tlb s h v = true -> may_hold p (cur s h) v) -> hart_inv h (set_at h p s).
Proof. intros H1 H2 H3 H4. by split; cbn; rewrite upd_eq. Qed.
Lemma bit_and h (s : st) o c : 0 <= h < 64 -> (forall v, Z.testbit (mask s v) h = true <-> o = Some v \/ c = Some v) -> (forall v, o = Some v -> c <> Some v) ->
  forall v, Z.testbit (mask (match o with Some v => fetch_and_not v h s | None => s end) v) h = true <-> c = Some v.
Proof.
  intros Hh Hb Hoc v. destruct o as [u|]; [|rewrite Hb; naive_solver]. cbn. unfold upd. case_decide as Hd.
  - subst u. rewrite and_bit by done. rewrite Z.eqb_refl, andb_false_r. specialize (Hoc v eq_refl). naive_solver.
  - rewrite Hb. naive_solver.
Qed.
Lemma hart_step_inv h s s' : 0 <= h < 64 -> tlb_inv s -> hart_step h s = Some s' -> tlb_inv s'.
Proof.
  intros Hh Hinv E. pose proof Hinv as [Hf Hi _]. destruct (Hi h Hh) as [H1 H2 H3 H4]. unfold hart_step in E.
  assert (Hm : moved h s s').
  { destruct (at_ s h) as [|v|v old|old|old|old|old|old]; try done; [| |injection E as <-; eapply moved_trans; [|apply moved_at]..];
      [injection E as <-; eapply moved_trans; [by apply moved_cur|by apply moved_at]| |by apply moved_fence|done|by apply moved_and| |by apply moved_satp|done|by apply moved_fence|done|by apply moved_and|].
    - case_decide; injection E as <-; [by apply moved_at|]. eapply moved_trans; [by apply moved_satp|by apply moved_at].
    - intros v. apply (moved_and h old s Hh Hf).
    - intros v. apply (moved_and h old s Hh Hf). }
  apply (moved_inv h s s' Hinv Hm). destruct (at_ s h) as [|v|v old|old|old|old|old|old]; cbn in *; [done|..].
  - injection E as <-. apply hart_at; cbn; rewrite ?upd_eq; try done.
  - case_decide as Hd; injection E as <-; apply hart_at; cbn; rewrite ?upd_eq; try done; try (by rewrite H2, H1; subst).
    + intros u. rewrite H3, H1, Hd. naive_solver.
    + intros u Hu. rewrite H1. apply H4 in Hu. congruence.
    + by exists v.
    + intros u. rewrite H3, H1. naive_solver.
    + intros u Hu. left. by apply H4.
  - injection E as <-. apply hart_at; cbn; rewrite ?upd_eq; done.
  - injection E as <-. destruct H1 as (v & Hc & Hne). apply hart_at; [done|by destruct old|cbn|by destruct old].
    replace (cur (match old with Some v => fetch_and_not v h s | None => s end) h) with (cur s h) by (by destruct old). apply bit_and; try done. naive_solver.
  - injection E as <-. apply hart_at; cbn; rewrite ?upd_eq; done.
  - injection E as <-. apply hart_at; cbn; rewrite ?upd_eq; done.
  - injection E as <-. apply hart_at; [done|destruct old; cbn; congruence| |].
    + cbn. replace (cur (match old with Some v => fetch_and_not v h s | None => s end) h) with (cur s h) by (by destruct old). apply bit_and; try done; [|naive_solver].
      intros v. rewrite H3. rewrite H1. naive_solver.
    + intros v Hv. exfalso. eapply H4. by destruct old.
Qed.

Lemma hart_ok_iff h : Tlb.hart_ok h = true -> 0 <= h < 64.
Proof. unfold Tlb.hart_ok. lia. Qed.
Lemma set_virt_inv h v s : 0 <= h < 64 -> at_ s h = Idle -> tlb_inv s -> tlb_inv (set_at h (SetReplace v) (fetch_or v h s)).
Proof.
  intros Hh Hp Hinv. pose proof Hinv as [Hf Hi _]. destruct (Hi h Hh) as [H1 H2 H3 H4]. rewrite Hp in *. pose proof (moved_or h v s Hh Hf) as Hm.
  eapply moved_inv; [done|eapply moved_trans; [exact Hm|apply moved_at, Hm]|]. apply hart_at; try done. intros u. cbn. unfold upd. case_decide as Hd.
  - subst u. rewrite or_bit by done. rewrite Z.eqb_refl, orb_true_r. naive_solver.
  - rewrite H3. cbn. naive_solver.
Qed.
Lemma unset_virt_inv h s : 0 <= h < 64 -> at_ s h = Idle -> tlb_inv s -> tlb_inv (set_at h (UnsetSatp (cur s h)) (set_cur h None s)).
Proof.
  intros Hh Hp Hinv. pose proof Hinv as [Hf Hi _]. destruct (Hi h Hh) as [H1 H2 H3 H4]. rewrite Hp in *.
  eapply moved_inv; [done|eapply moved_trans; [by apply moved_cur|by apply moved_at]|]. apply hart_at; cbn; rewrite ?upd_eq; done.
Qed.
(** A hart walks the table it has: the page is in it, so nobody is clearing it. *)
Lemma walk_inv h v s : 0 <= h < 64 -> satp s h = Some v -> page s v = true -> tlb_inv s -> tlb_inv (set_tlb (upd h (upd v true (tlb s h)) (tlb s)) s).
Proof.
  intros Hh Hs Hpg [Hf Hi Hd]. split; [done| |].
  - intros k Hk. destruct (Hi k Hk) as [H1 H2 H3 H4]. split; cbn; try done. intros u. unfold upd. case_decide as E1; [|apply H4]. subst k.
    case_decide as E2; [subst u|apply H4]. intros _. apply loaded_may; [done|congruence].
  - intros u. specialize (Hd u). unfold held_inv in *. cbn. destruct (decide (u = v)) as [->|Hne].
    + destruct (holder s v); try done; try congruence; destruct Hd; congruence.
    + assert (Hsame : forall k, upd h (upd v true (tlb s h)) (tlb s) k u = tlb s k u) by (intros k; unfold upd; case_decide; [subst; by case_decide|done]).
      destruct (holder s u); try done; (split; [apply Hd|]); intros k Hk; rewrite Hsame; by apply Hd.
Qed.
(** The holder of a table moves on. *)
Lemma holder_inv v s s' : tlb_inv s -> mask s' = mask s -> cur s' = cur s -> satp s' = satp s -> at_ s' = at_ s -> (forall u, u <> v -> page s' u = page s u /\ holder s' u = holder s u) ->
  (forall h u, tlb s' h u = true -> tlb s h u = true) -> held_inv v s' -> tlb_inv s'.
Proof.
  intros [Hf Hi Hd] E1 E2 E3 E4 E5 Ht Hv. split; [by rewrite E1| |].
  - intros h Hh. apply (hart_inv_same h s); rewrite ?E1, ?E2, ?E3, ?E4; auto.
  - intros u. destruct (decide (u = v)) as [->|Hne]; [done|]. destruct (E5 u Hne). apply (held_inv_same u s); auto.
Qed.
Lemma fence_page_less v m s h u : tlb (fence_page v m s) h u = true -> tlb s h u = true.
Proof. cbn. by destruct (_ && _). Qed.
Ltac holder v := eapply (holder_inv v); [done|done|done|done|done|intros; cbn; rewrite ?upd_ne by done; done| |].
Lemma holder_step_inv v s s' : tlb_inv s -> holder_step v s = Some s' -> tlb_inv s'.
Proof.
  intros Hinv E. pose proof Hinv as [_ Hi Hd]. specialize (Hd v). unfold holder_step, held_inv in *. destruct (holder s v) as [|m|m| |m|]; [done|injection E as <-..].
  - holder v; [done|]. unfold held_inv. cbn. by rewrite upd_eq.
  - holder v; [apply fence_page_less|]. unfold held_inv. cbn. by rewrite upd_eq.
  - holder v; [done|]. unfold held_inv. cbn. rewrite upd_eq. split; [done|]. intros h Hh Ht. destruct (Hi h Hh) as [H1 _ H3 H4]. apply H3, may_in_mask; [done|by apply H4].
  - holder v; [apply fence_page_less|]. unfold held_inv. cbn. rewrite upd_eq. destruct Hd as [Hp Hm]. split; [done|]. intros h Hh. rewrite Nat.eqb_refl. cbn.
    destruct (Z.testbit m h) eqn:Eb; [done|]. destruct (tlb s h v) eqn:Et; [|done]. by rewrite (Hm h Hh Et) in Eb.
  - holder v; [done|]. unfold held_inv. cbn. by rewrite upd_eq.
Qed.
Lemma act_inv a s s' : tlb_inv s -> act a s = Some s' -> tlb_inv s'.
Proof.
  intros Hinv E. destruct a as [h v|h|h|h|v|v|v|v]; cbn in E.
  - destruct (Tlb.hart_ok h) eqn:Eh; [|done]. unfold idle in E. destruct (at_ s h) eqn:Ea; try done. injection E as <-. by apply set_virt_inv; [apply hart_ok_iff|..].
  - destruct (Tlb.hart_ok h) eqn:Eh; [|done]. unfold idle in E. destruct (at_ s h) eqn:Ea; try done. injection E as <-. by apply unset_virt_inv; [apply hart_ok_iff|..].
  - destruct (Tlb.hart_ok h) eqn:Eh; [|done]. by eapply hart_step_inv; [apply hart_ok_iff|..].
  - destruct (satp s h) as [v|] eqn:Es; [|done]. destruct (Tlb.hart_ok h) eqn:Eh; [|done]. destruct (page s v) eqn:Ep; [|done]. injection E as <-.
    by apply walk_inv; [apply hart_ok_iff|..].
  - unfold free in E. destruct (holder s v) eqn:Eg; try done. injection E as <-. holder v; [done|]. unfold held_inv. cbn. by rewrite Eg.
  - unfold free in E. destruct (holder s v) eqn:Eg; try done. injection E as <-. holder v; [done|]. unfold held_inv. cbn. by rewrite upd_eq.
  - unfold free in E. destruct (holder s v) eqn:Eg; try done. injection E as <-. holder v; [done|]. unfold held_inv. cbn. by rewrite !upd_eq.
  - by eapply holder_step_inv.
Qed.
Lemma init_inv : tlb_inv init.
Proof. split; [done| |done]. intros h Hh. split; try done. intros v. cbn. by rewrite Z.bits_0. Qed.
Lemma run_inv l : forall s s', tlb_inv s -> run l s = Some s' -> tlb_inv s'.
Proof.
  induction l as [|a l IH]; intros s s' Hinv E; cbn in E; [by injection E as <-|]. destruct (act a s) as [s1|] eqn:Ea; [|done].
  eapply IH; [|exact E]. by eapply act_inv.
Qed.

(** C19: in every interleaving of the harts that load and leave address spaces with
    each other, with the table walks and with the changes of the tables: a hart whose
    TLB can have a page of a space is in the mask of the space; outside [set_virt] and
    [unset_virt] it is in the mask of the space it has loaded and in no other, its TLB
    has no page of another space and its page table is that of the space; and when
    [clear] or [drop], which load the mask after they have changed the table, have sent
    the fences, no TLB has the page. *)
Theorem tlb_shootdown l s : run l init = Some s -> forall v h, 0 <= h < 64 ->
  (tlb s h v = true -> Z.testbit (mask s v) h = true) /\
  (at_ s h = Idle -> (Z.testbit (mask s v) h = true <-> cur s h = Some v) /\ (tlb s h v = true -> cur s h = Some v) /\ satp s h = cur s h) /\
  (holder s v = Cleared -> tlb s h v = false).
Proof.
  intros E v h Hh. destruct (run_inv l init s init_inv E) as [_ Hi Hd]. destruct (Hi h Hh) as [H1 H2 H3 H4]. split_and!.
  - intros Ht. apply H3, may_in_mask; [done|by apply H4].
  - intros Ep. rewrite Ep in *. split_and!; [apply H3|apply H4|done].
  - intros Eg. specialize (Hd v). unfold held_inv in Hd. rewrite Eg in Hd. by apply Hd.
Qed.
(** Hart 0 goes from space 1 to space 2, which hart 3 clears a page of. *)
Definition shootdown_run : list action :=
  [Commit 1; Commit 2; SetVirt 0 1; Hart 0; Hart 0; Hart 0; Hart 0; Walk 0; SetVirt 3 2; Hart 3; Hart 3; Hart 3; Hart 3; Walk 3;
   SetVirt 0 2; Hart 0; Hart 0; Walk 0; Clear 2; Hart 0; Holder 2; Hart 0; Holder 2].
Lemma tlb_shootdown_witness : exists s, run shootdown_run init = Some s /\ at_ s 0 = Idle /\ holder s 2%nat = Cleared /\ Z.testbit (mask s 2%nat) 0 = true /\ tlb s 0 2%nat = false.
Proof.
  destruct (run shootdown_run init) as [s|] eqn:E; [|vm_compute in E; discriminate E]. exists s. destruct (tlb_shootdown shootdown_run s E 2%nat 0 ltac:(lia)) as (_ & Hi & Hc).
  assert (H0 : (fun s => (at_ s 0, holder s 2%nat, cur s 0)) <$> run shootdown_run init = Some (Idle, Cleared, Some 2%nat)) by reflexivity.
  rewrite E in H0. injection H0 as H0 H1 H2. split_and!; [done|done|done| |by apply Hc]. by apply Hi.
Defined.

(** What does not hold: [decommit] is given the mask before it resets the page.  A hart
    that loads the space in between, while the page is written back for example, keeps
    the translation. *)
Example decommit_race : (fun s => (holder s 1%nat, page s 1%nat, tlb s 2 1%nat)) <$>
  run [Commit 1; Decommit 1; SetVirt 2 1; Hart 2; Hart 2; Hart 2; Hart 2; Walk 2; Holder 1; Holder 1] init = Some (Free, false, true).
Proof. reflexivity. Qed.
