(* ===== verification/Mem.v ===== *)
(** * kernel: the memory of a task

    mizu/kernel/src/mem.rs, mem/shm.rs and the system calls of mem/syscall.rs that
    work on the address space.  [task] is the part of the state of a task they use.
    The file table is a parameter: what [files.get(fd)] returns and what [to_io] makes
    of it.  [spawned] are the ranges that tasks of their own have been started for and
    [barriers] the harts that [membarrier] has interrupted. *)

From S2P Require Import Prelude BTree RangeMap Ksc Bytes Paging Umio Phys Virt.
Import Errno Virt.

Module Mem.
(** ** rxx.rs *)
Definition KERNEL_MEM : Z := PG.KERNEL_RWX.
Definition KERNEL_DEV : Z := PG.KERNEL_RWX.
Definition KERNEL_PAGES : list Z :=
  let delta := PG.page_size PG.max_level in
  let item i attr := (PG.ID_OFFSET + delta * i, delta * i, attr) in
  PG.table_1g [item 0 KERNEL_DEV; item 1 KERNEL_DEV; item 2 KERNEL_MEM; item 3 KERNEL_MEM].
Definition boot_pages (kernel_start_phys : Z) : list Z :=
  let low_start := PG.round_down kernel_start_phys PG.max_level in
  let delta := PG.page_size PG.max_level in
  let item i attr := (PG.ID_OFFSET + delta * i, delta * i, attr) in
  PG.table_1g [(low_start, low_start, KERNEL_MEM); item 0 KERNEL_DEV; item 1 KERNEL_DEV; item 2 KERNEL_MEM; item 3 KERNEL_MEM].
Definition USER_START : Z := 0x1000.
Definition USER_END : Z := wnot 64 PG.CANONICAL_PREFIX + 1.

(** ** mmap.h *)
Definition PROT_READ : Z := 0x1.
Definition PROT_WRITE : Z := 0x2.
Definition PROT_EXEC : Z := 0x4.
Definition PROT_ALL : Z := 0x7.
Definition MAP_PRIVATE : Z := 0x02.
Definition MAP_FIXED : Z := 0x10.
Definition MAP_ANONYMOUS : Z := 0x20.
Definition MAP_POPULATE : Z := 0x8000.
Definition prot_from_bits (prot : Z) : option Z := if Z.land prot PROT_ALL =? prot then Some prot else None.
Definition prot_attr (prot : Z) : Z :=
  PG.executable (PG.writable (PG.readable (PG.user_access PG.builder true)
    (PG.contains prot PROT_READ)) (PG.contains prot PROT_WRITE)) (PG.contains prot PROT_EXEC).
Definition page_down (x : Z) : Z := Z.land x (wnot 64 PAGE_MASK).
Definition page_up (x : Z) : Z := page_down (wadd 64 x PAGE_MASK).

(** ** shm.rs *)
Record Shm := mk_shm { id_alloc : Z; smap : gmap Z (nat * Z); mapping : gmap Z Z }.
Definition shm_default : Shm := mk_shm 2 ∅ ∅.
Definition IPC_CREAT : Z := 512.
Definition IPC_EXCL : Z := 1024.
Definition SHM_RDONLY : Z := 4096.
Definition SHM_RND : Z := 8192.
Definition SHM_REMAP : Z := 16384.
Definition SHM_EXEC : Z := 32768.
Definition BRK_START : Z := 0x12345000.
Definition BRK_END : Z := 0x56789000.
(** What an open file is to [new_phys]: a memory object itself, or a backend. *)
Inductive io := IoPhys (p : nat) | IoBackend (b : nat).

Section Mem.
Context {T : Type} `{Umio.Io T} {A : Type} `{PG.PageAlloc A} {R : Type} (base : nat -> Z) (next_u64 : R -> Z * R) (files : Z -> res Error (option io)) (hart_ids : Z).
Notation world := (world (T := T) (A := A)).
Notation V := (PT world Error).
Record task := mk_task { tw : world; tbrk : Z; tshm : Shm; spawned : list (Z * Z); barriers : list Z }.
Notation M := (PT task Error).
Definition get_task : M task := fun t => Some (Ok t, t).
Definition on_virt {X} (m : V X) : M X := fun t =>
  match m (tw t) with Some (r, w) => Some (r, mk_task w (tbrk t) (tshm t) (spawned t) (barriers t)) | None => None end.
Definition set_brk (b : Z) : M unit := fun t => Some (Ok tt, mk_task (tw t) b (tshm t) (spawned t) (barriers t)).
Definition set_shm (s : Shm) : M unit := fun t => Some (Ok tt, mk_task (tw t) (tbrk t) s (spawned t) (barriers t)).
Definition spawn (r : Z * Z) : M unit := fun t => Some (Ok tt, mk_task (tw t) (tbrk t) (tshm t) (spawned t ++ [r]) (barriers t)).
Definition remote_fence (mask : Z) : M unit := fun t => Some (Ok tt, mk_task (tw t) (tbrk t) (tshm t) (spawned t) (barriers t ++ [mask])).
Definition on_phys {X} (m : PT (Ph.heap T) Error X) : M X := on_virt (on_heap m).
Definition or_err {X} (d : M unit) (m : M X) : M X := fun t => match m t with Some (Err e, t) => (_ ← d; pt_throw e) t | x => x end.

(** ** mem.rs *)
Definition new_virt : V Virt := Virt.new USER_START USER_END KERNEL_PAGES.
Definition new_phys (n : nat) (from : io) (cow : bool) : PT (Ph.heap T) Error nat :=
  match from with IoPhys p => Ph.clone_as n p cow 0 None | IoBackend b => Ph.with_backend b 0 cow end.
Definition deep_fork (n : nat) : V Virt := Virt.deep_fork n KERNEL_PAGES.

(** ** syscall.rs *)
Definition brk (n : nat) (g : R) (addr : Z) : M Z :=
  t ← get_task;
  _ ← (if tbrk t =? 0 then set_brk BRK_START else mret tt);
  t ← get_task;
  if negb ((BRK_START <=? addr) && (addr <? BRK_END)) then mret (tbrk t)
  else
    _ ← (if tbrk t <? addr then
           let old_page := page_up (tbrk t) in
           let new_page := page_up addr in
           let count := Z.shiftr (wsub 64 new_page old_page) PAGE_SHIFT in
           if 0 <? count then
             phys ← on_phys (Ph.new true);
             let attr := PG.writable (PG.readable (PG.user_access PG.builder true) true) true in
             _ ← on_virt (Virt.map next_u64 n g (Some old_page) phys 0 count attr); mret tt
           else mret tt
         else mret tt);
    _ ← set_brk addr;
    mret addr.

Definition mmap (n : nat) (g : R) (addr len prot flags fd offset : Z) : M Z :=
  prot ← match prot_from_bits prot with Some p => mret p | None => pt_throw ENOSYS end;
  let cow := PG.contains flags MAP_PRIVATE in
  phys ← (if PG.contains flags MAP_ANONYMOUS then on_phys (Ph.new cow)
          else
            entry ← pt_res (files fd);
            match entry with Some i => on_phys (new_phys n i cow) | None => pt_throw EISDIR end);
  let drop_phys := on_phys (Ph.drop_phys n phys) in
  let fixed := PG.contains flags MAP_FIXED in
  let addr := if fixed || negb (addr =? 0) then Some addr else None in
  offset ← or_err drop_phys (if negb (Z.land offset PAGE_MASK =? 0) then pt_throw EINVAL else mret (Z.shiftr offset PAGE_SHIFT));
  let attr := prot_attr prot in
  _ ← or_err drop_phys
        (if fixed then
           a ← pt_opt addr;
           let a := page_down a in
           let len := page_up len in
           on_virt (Virt.unmap n a (PG.addr_add a len))
         else mret tt);
  let count := Z.shiftr (wadd 64 len PAGE_MASK) PAGE_SHIFT in
  addr ← on_virt (Virt.map next_u64 n g addr phys offset count attr);
  _ ← (if PG.contains flags MAP_POPULATE then on_virt (Virt.commit base n addr 0) else mret tt);
  mret addr.

Definition MS_ASYNC : Z := 1.
Definition MS_INVALIDATE : Z := 2.
Definition MS_SYNC : Z := 4.
Definition checked_range (addr len : Z) : M (Z * Z) :=
  match checked_add 64 addr len with Some e => mret (addr, e) | None => pt_throw EINVAL end.
Definition msync (n : nat) (addr len flags : Z) : M unit :=
  '(lo, hi) ← checked_range addr len;
  let flags := Z.land flags (wnot 32 MS_INVALIDATE) in
  if flags =? MS_ASYNC then spawn (lo, hi)
  else if (flags =? MS_SYNC) || (flags =? 0) then on_virt (Virt.decommit_range n lo hi)
  else pt_throw EINVAL.

Definition MADV_WILLNEED : Z := 3.
Definition MADV_DONTNEED : Z := 4.
Definition madvise (n : nat) (addr len advice : Z) : M unit :=
  '(lo, hi) ← checked_range addr len;
  if advice =? MADV_WILLNEED then
    '(r, _) ← on_virt (Virt.push base n lo hi (Virt.start_commit 0)); pt_res r
  else if advice =? MADV_DONTNEED then on_virt (Virt.decommit_range n lo hi)
  else mret tt.

Definition mprotect (n : nat) (addr len prot : Z) : M unit :=
  prot ← match prot_from_bits prot with Some p => mret p | None => pt_throw ENOSYS end;
  let attr := prot_attr prot in
  let len := page_up len in
  on_virt (Virt.reprotect n addr (PG.addr_add addr len) attr).
Definition munmap (n : nat) (addr len : Z) : M unit :=
  let len := page_up len in
  on_virt (Virt.unmap n addr (PG.addr_add addr len)).

Definition membarrier (cmd flags hid : Z) : M Z :=
  if cmd =? 0 then mret (2 ^ 31 - 1)
  else _ ← (if flags =? 1 then remote_fence (wshl 64 1 hid) else remote_fence hart_ids); mret 0.

(** [Shm::get] and [Shm::insert] *)
Definition shm_get (n : nat) (key : Z) : M (option (nat * Z)) :=
  t ← get_task;
  match smap (tshm t) !! key with
  | Some (p, len) => q ← on_phys (Ph.clone_as n p false 0 None); mret (Some (q, len))
  | None => mret None
  end.
Definition shm_put (key : Z) (x : nat * Z) : M unit :=
  t ← get_task; set_shm (mk_shm (id_alloc (tshm t)) (<[key := x]> (smap (tshm t))) (mapping (tshm t))).
Definition shm_insert (n : nat) (key len flags : Z) : M Z :=
  t ← get_task;
  let s := tshm t in
  if key =? 0 then
    _ ← set_shm (mk_shm (to_signed 32 (wrap 32 (id_alloc s + 1))) (smap s) (mapping s));
    p ← on_phys (Ph.new false);
    _ ← shm_put (id_alloc s) (p, len);
    _ ← match smap s !! id_alloc s with Some (q, _) => on_phys (Ph.drop_phys n q) | None => mret tt end;
    mret (id_alloc s)
  else if Z.land flags IPC_CREAT =? 0 then
    match smap s !! key with Some _ => mret key | None => pt_throw ENOENT end
  else if Z.land flags IPC_EXCL =? 0 then
    match smap s !! key with
    | Some _ => mret key
    | None => p ← on_phys (Ph.new false); _ ← shm_put key (p, len); mret key
    end
  else
    p ← on_phys (Ph.new false);
    match smap s !! key with
    | Some _ => _ ← on_phys (Ph.drop_phys n p); pt_throw EEXIST
    | None => _ ← shm_put key (p, len); mret key
    end.
Definition shmget (n : nat) (key len flags : Z) : M Z := shm_insert n key (page_up len) flags.
Definition shmat (n : nat) (g : R) (shmid shmaddr flags : Z) : M Z :=
  addr ← (if shmaddr =? 0 then mret None
          else if negb (Z.land flags SHM_RND =? 0) then mret (Some (page_down shmaddr))
          else if negb (Z.land shmaddr PAGE_MASK =? 0) then pt_throw EINVAL
          else mret (Some shmaddr));
  let attr := PG.executable (PG.writable (PG.readable (PG.user_access PG.builder true) true)
    (Z.land flags SHM_RDONLY =? 0)) (negb (Z.land flags SHM_EXEC =? 0)) in
  o ← shm_get n shmid;
  match o with
  | None => pt_throw ENOENT
  | Some (phys, len) =>
      let drop_phys := on_phys (Ph.drop_phys n phys) in
      _ ← or_err drop_phys
            match addr with
            | Some a => if negb (Z.land flags SHM_REMAP =? 0) then on_virt (Virt.unmap n a (PG.addr_add a len)) else mret tt
            | None => mret tt
            end;
      a ← on_virt (Virt.map next_u64 n g addr phys 0 (Z.shiftr (wadd 64 len PAGE_MASK) PAGE_SHIFT) attr);
      t ← get_task;
      _ ← set_shm (mk_shm (id_alloc (tshm t)) (smap (tshm t)) (<[a := PG.addr_add a len]> (mapping (tshm t))));
      mret a
  end.
Definition shmdt (n : nat) (start : Z) : M unit :=
  t ← get_task;
  match mapping (tshm t) !! start with
  | Some end_ =>
      _ ← set_shm (mk_shm (id_alloc (tshm t)) (smap (tshm t)) (delete start (mapping (tshm t))));
      on_virt (Virt.unmap n start end_)
  | None => pt_throw EINVAL
  end.
End Mem.
End Mem.
