(* ===== verification/VirtUse.v ===== *)
(** * kmem: address spaces in use

    The operations together: in every state they reach the page table gives an address
    what the range map says.  Then the operations for whole programs of anonymous
    memory, where they always return, and evaluated runs that show what the code does
    not do. *)

From S2P Require Import Prelude BTree RangeMap Aslr Ksc Bytes Paging PageTree PageUnmap Umio Phys PhysInv PhysCommit PhysClone PhysDrop PhysUse.
From S2P Require Import Virt VirtSpec VirtOps VirtUnmap VirtMap VirtFork Mem.
Import Errno Virt.

(** The root table of a new address space. *)
Lemma kernel_pages_ok : root_ok Mem.KERNEL_PAGES.
Proof.
  split_and!; [reflexivity| |].
  - assert (Ha : forallb (fun e => match PG.table e 2 ID_OFFSET with None => true | Some _ => false end) Mem.KERNEL_PAGES = true) by (vm_compute; reflexivity).
    intros i e He. rewrite List.forallb_forall in Ha. specialize (Ha e ltac:(apply list_elem_of_In; by eapply list_elem_of_lookup_2)). by destruct (PG.table _ _ _).
  - assert (Ha : forallb (fun i => match Mem.KERNEL_PAGES !! i with Some e => e =? 0 | None => false end) (seq 0 256) = true) by (vm_compute; reflexivity).
    intros i Hi. rewrite List.forallb_forall in Ha. specialize (Ha i ltac:(apply in_seq; lia)). destruct (Mem.KERNEL_PAGES !! i); [f_equal; lia|done].
Qed.

(** The hardware sets the bits ACCESSED and DIRTY. *)
Definition AD : Z := Z.lor PG.ACCESSED PG.DIRTY.
Lemma touch_view e d : Z.land d AD = d -> PG.is_set e = true ->
  exists at_, leaf_view (Some (O, Z.lor e d)) = Some (O, ((PG.Entry_get e PG.pt).1, at_)) /\ rights at_ = rights (PG.Entry_get e PG.pt).2.
Proof.
  intros Hd Hs. assert (Hb : forall i, i <> 6 -> i <> 7 -> 0 <= i -> Z.testbit d i = false).
  { intros i H6 H7 Hi. rewrite <- Hd, Z.land_spec. change AD with (Z.lor (2 ^ 6) (2 ^ 7)). rewrite Z.lor_spec, !testbit_pow2 by lia.
    rewrite (proj2 (Z.eqb_neq i 6)), (proj2 (Z.eqb_neq i 7)) by done. apply andb_false_r. }
  assert (Ea : (PG.Entry_get (Z.lor e d) PG.pt).1 = (PG.Entry_get e PG.pt).1).
  { cbn [PG.Entry_get fst]. change (PG.paddr_mask PG.pt) with 0xfffffffffff000. apply Z.bits_inj'. intros i Hi. rewrite !Z.land_spec.
    destruct (decide (12 <= i)); [|replace (Z.testbit 0xfffffffffff000 i) with false; [by rewrite !andb_false_r|]].
    - f_equal. unfold wshl, wrap. destruct (decide (i < 64)); [|by rewrite !Z.mod_pow2_bits_high by lia].
      rewrite !Z.mod_pow2_bits_low by lia. change (2 mod 64) with 2. rewrite !Z.shiftl_spec by lia. rewrite Z.lor_spec, (Hb (i - 2)) by lia. apply orb_false_r.
    - assert (i = 0 \/ i = 1 \/ i = 2 \/ i = 3 \/ i = 4 \/ i = 5 \/ i = 6 \/ i = 7 \/ i = 8 \/ i = 9 \/ i = 10 \/ i = 11) as Hc by lia.
      repeat (destruct Hc as [-> | Hc]; [done|]). by subst i. }
  assert (Er : rights (PG.Entry_get (Z.lor e d) PG.pt).2 = rights (PG.Entry_get e PG.pt).2).
  { cbn [PG.Entry_get snd]. unfold rights, PG.from_bits_truncate. apply Z.bits_inj'. intros i Hi. rewrite !Z.land_spec, Z.lor_spec.
    destruct (decide (i = 6)) as [->|]; [by rewrite !andb_false_r|]. destruct (decide (i = 7)) as [->|]; [by rewrite !andb_false_r|]. by rewrite Hb, orb_false_r. }
  exists (PG.Entry_get (Z.lor e d) PG.pt).2. split; [|done]. cbn [leaf_view].
  assert (PG.is_set (Z.lor e d) = true) as ->; [|by rewrite <- Ea; destruct (PG.Entry_get _ _)].
  unfold PG.is_set, PG.contains, PG.Entry_get, PG.from_bits_truncate in *. cbn [snd] in *. apply Z.eqb_eq in Hs. apply Z.eqb_eq. rewrite Z.land_lor_distr_l, Z.land_lor_distr_l, Hs.
  apply Z.bits_inj'. intros i Hi. rewrite Z.lor_spec. change PG.VALID with (2 ^ 0). rewrite !Z.land_spec, testbit_pow2 by lia. destruct (Z.eqb_spec i 0) as [->|]; [done|]. by rewrite andb_false_r.
Qed.

Section Use.
Context {T : Type} `{IoT : Umio.Io T} `{BT : !Backing T} {A : Type} `{PAS : PageAllocSpec A} (base : nat -> Z).
Hypothesis base_ok : forall f, fits 56 (base f) /\ base f mod 4096 = 0.
Context {R : Type} (next_u64 : R -> Z * R).
Notation world := (world (T := T) (A := A)).
Implicit Types (w : world) (m : Mapping).
Notation um := (um (T := T) (A := A)).
Notation good := (good (T := T) (A := A) base).

(** ** Unmapping returns *)
Lemma drop_mapping_total rank n others m w : wf rank (hp w) -> (forall x, (rank x < n)%nat) -> anon (hp w) (phys m) ->
  exists h, drop_mapping n others m w = Some (Ok tt, mk_world (self w) h (pt w) (fences w) (hart w)) /\ wf rank h /\
    forall m', In m' others -> anon (hp w) (phys m') -> anon h (phys m').
Proof.
  intros Hw Hn (ph & [Hp Hb] & Hf). unfold drop_mapping. rewrite (PT_bind_Ok _ _ _ _ _ (get_map_ok w)). destruct (existsb _ _) eqn:E; [exists (hp w); by destruct w|].
  destruct (drop_ok rank n (phys m) (hp w) ph Hw Hp Hb Hf (Hn _)) as (h & Ed & Hw' & _ & _ & Hrest). exists h. split; [unfold on_heap; by rewrite Ed|]. split; [done|].
  intros m' Hin (ph' & [Hp' Hb'] & Hf'). destruct (Hrest _ _ Hp' Hb') as [Hx _]; [|by exists ph'].
  intros Heq. assert (Hs : existsb (shares (phys m)) (others ++ (RM.iter (vmap (self w))).*2) = true); [|congruence].
  apply existsb_exists. exists m'. split; [apply in_or_app; by left|]. unfold shares. by apply Nat.eqb_eq.
Qed.
Lemma unmap_all_total rank n rm ps : space rm -> forall w, (forall p, In p ps -> In p (RM.map rm)) -> tree w -> hart_ok w -> wf rank (hp w) -> (forall x, (rank x < n)%nat) ->
  (forall p, In p ps -> anon (hp w) (phys p.2.2)) -> exists w', unmap_all n (List.map RM.entry_view ps) w = Some (Ok tt, w') /\ wf rank (hp w') /\ self w' = self w.
Proof.
  intros Hrm. induction ps as [|p ps IH]; intros w Hin Ht Hh Hw Hn Han; cbn [List.map unmap_all]; [by exists w|].
  assert (Hp : In p (RM.map rm)) by (apply Hin; by left). destruct (space_bounds rm p Hrm Hp). destruct (pages_of_ok rm p Hrm Hp) as [Hc Hpe].
  destruct (sp_items _ Hrm p Hp) as (Ha & _ & _). unfold RM.entry_view at 1. cbn [RM.rstart].
  destruct (decommit_total n p.2.2 p.1 0 (pages_of (RM.mk_range p.1 p.2.1)) w Ht Hh (Han p (or_introl eq_refl))) as (w1 & E1 & Eh); [lia|lia|lia|].
  pose proof E1 as E1'. apply decommit_some_sound in E1' as [_ [evs Hcl]]; try done; try lia.
  unfold mbind, PT_bind, on_err. rewrite E1.
  destruct (drop_mapping_total rank n (List.map RM.entry_view ps).*2 p.2.2 w1) as (h & E2 & Hw2 & Hrest); [by rewrite Eh|done|rewrite Eh; apply Han; by left|].
  rewrite E2. destruct (cl_quiet _ _ _ _ _ Hcl) as [Hq1 Hq2]. set (w2 := mk_world _ _ _ _ _).
  destruct (IH w2) as (w' & E' & Hw' & Hs'); try done.
  - intros q Hq. apply Hin. by right.
  - apply Hcl.
  - destruct Hh. split; cbn; by rewrite ?Hq1, ?Hq2.
  - intros q Hq. apply Hrest; [|rewrite Eh; apply Han; by right]. apply in_map_iff. exists (RM.entry_view q). split; [done|]. apply in_map. done.
  - exists w'. split_and!; [done|done|by rewrite Hs'].
Qed.
Lemma unmap_total rank n lo hi w : good w -> 0 <= lo < hi -> lo mod 4096 = 0 -> hi mod 4096 = 0 -> uncut (vmap (self w)) lo hi -> wf rank (hp w) -> (forall x, (rank x < n)%nat) ->
  (forall p, In p (RM.map (vmap (self w))) -> anon (hp w) (phys p.2.2)) -> exists w', unmap n lo hi w = Some (Ok tt, w') /\ wf rank (hp w').
Proof.
  intros Hg Hlo Hl4 Hh4 Hu Hw Hn Han. unfold unmap. assert (unaligned lo hi = false) as -> by (unfold unaligned; rewrite !and_page_mask, Hl4, Hh4; done).
  destruct (drained (vmap (self w)) lo hi (g_space _ _ Hg) Hu) as (ps & rm' & Ed & Hs' & Hu' & Hps & _ & _).
  rewrite (PT_bind_Ok _ _ _ _ _ (get_map_ok w)), Ed. set (w0 := set_vmap rm' w). rewrite (PT_bind_Ok (put_map rm') _ w tt w0) by done.
  destruct (unmap_all_total rank n (vmap (self w)) ps (g_space _ _ Hg) w0 Hps) as (w1 & E1 & Hw1 & Hs1); try done; [apply Hg|apply Hg|intros p Hp; by apply Han, Hps|].
  rewrite (PT_bind_Ok _ _ _ _ _ E1). assert (Hv1 : vmap (self w1) = rm') by (by rewrite Hs1).
  assert (Esp : forall key f, (key = lo \/ key = hi) -> split_with n key f w1 = Some (Ok tt, w1)).
  { intros key f Hk. apply split_with_none; rewrite Hv1; [done|]. intros p Hp. destruct (Hu' p Hp), Hk as [-> | ->]; done. }
  rewrite (PT_bind_Ok _ _ _ _ _ (Esp lo _ (or_introl eq_refl))). rewrite (Esp hi) by (by right). by exists w1.
Qed.

(** ** What can be reached *)
Lemma new_virt_ok w live v w' : pa_inv (PG.alloc (pt w)) live -> 0 <= hart w < 64 -> Mem.new_virt w = Some (Ok v, w') -> good (set_self v w').
Proof.
  intros Ha Hh E. unfold Mem.new_virt, Virt.new, frame_from, try_pt, PG.alloc_table, mbind, ST_bind, PT_bind in E.
  destruct (PG.pa_alloc (PG.alloc (pt w))) as [[p a]|] eqn:Ep; [|done]. destruct (pa_alloc_spec _ _ _ _ Ha Ep) as (Hp & Hok & Ha'). cbn in E. rewrite insert_insert_eq in E.
  injection E as <- <-. split.
  - exists {[p := (2%nat, 0)]}, ({[p]} ∪ live). split_and!; [apply new_root_tree, kernel_pages_ok|done|rewrite dom_singleton_L; set_solver].
  - by split.
  - by apply space_new.
  - intros x t Hx. unfold VirtSpec.um. cbn. by rewrite new_root_empty by (done || apply kernel_pages_ok).
Qed.
Lemma good_touch w x p e d s' : good w -> user x -> pte w x p e -> PG.is_set e = true -> Z.land d AD = d ->
  tree (with_pt s' w) -> (forall y, user y -> um (with_pt s' w) y = if y / 4096 =? x / 4096 then leaf_view (Some (O, Z.lor e d)) else um w y) -> good (with_pt s' w).
Proof.
  intros [Ht Hh Hs Hc] Hx Hp He Hd Ht' Hum. split; try done. intros y t Hy Hu. rewrite Hum in Hu by done. destruct (Z.eqb_spec (y / 4096) (x / 4096)) as [Ey|_]; [|by apply Hc].
  destruct (touch_view e d Hd He) as (at_ & Ev & Er). rewrite Ev in Hu. injection Hu as <-.
  destruct (Hc y (O, PG.Entry_get e PG.pt) Hy) as (m & f & Hm & _ & Hb & Hr).
  { rewrite (um_page w y x Hy Hx Ey), (pte_um w x p e Hx Hp). cbn [leaf_view]. by rewrite He. }
  exists m, f. split_and!; try done. cbn in Hr |- *. by rewrite Er.
Qed.

(** What is done with an address space: the calls of the kernel; then a hart that uses
    a page, harts that load and leave the space and the task that goes to another one, and
    what others do to the memory objects. *)
Inductive call : Type :=
| Map (g : R) (addr : option Z) (p : nat) (si count at_ : Z)
| Commit (addr expect_attr : Z)
| Push (lo hi : Z) (g : VirtCommitGuard)
| Decommit (lo hi : Z)
| Unmap (lo hi : Z)
| Reprotect (lo hi at_ : Z)
| Clear
| Fork (child : bool)
| Touch (x : Z) (p : Z * Z) (e d : Z)
| Switch (mask h : Z)
| Objects (h : Ph.heap T).
(** A call that returns, with arguments of the widths they have.  A panic is the end of
    the kernel.  After a fork the state is that of the parent or of the child. *)
Inductive virt_step (n : nat) w : call -> world -> Prop :=
| do_map g addr p si count at_ r w' : fits 8 at_ -> fits 64 count -> (forall a, addr = Some a -> fits 64 a) ->
    map next_u64 n g addr p si count at_ w = Some (r, w') -> r <> Panic -> virt_step n w (Map g addr p si count at_) w'
| do_commit addr expect_attr r w' : fits 64 addr -> commit base n addr expect_attr w = Some (r, w') -> r <> Panic -> virt_step n w (Commit addr expect_attr) w'
| do_push lo hi g r w' : fits 64 lo -> fits 64 hi -> push base n lo hi g w = Some (r, w') -> r <> Panic -> virt_step n w (Push lo hi g) w'
| do_decommit lo hi r w' : fits 64 lo -> fits 64 hi -> decommit_range n lo hi w = Some (r, w') -> r <> Panic -> virt_step n w (Decommit lo hi) w'
| do_unmap lo hi r w' : fits 64 lo -> fits 64 hi -> unmap n lo hi w = Some (r, w') -> r <> Panic -> virt_step n w (Unmap lo hi) w'
| do_reprotect lo hi at_ r w' : fits 64 lo -> fits 64 hi -> fits 8 at_ -> reprotect n lo hi at_ w = Some (r, w') -> r <> Panic -> virt_step n w (Reprotect lo hi at_) w'
| do_clear r w' : clear n w = Some (r, w') -> r <> Panic -> virt_step n w Clear w'
| do_fork r w' : Mem.deep_fork n w = Some (r, w') -> r <> Panic -> virt_step n w (Fork false) w'
| do_child v w' : Mem.deep_fork n w = Some (Ok v, w') -> virt_step n w (Fork true) (set_self v w')
| do_touch x p e d w' : user x -> pte w x p e -> PG.is_set e = true -> Z.land d AD = d -> write_pte p (Z.lor e d) w = Some (Ok tt, w') -> virt_step n w (Touch x p e d) w'
| do_switch mask h : fits 64 mask -> 0 <= h < 64 -> virt_step n w (Switch mask h) (mk_world (mk_virt (root (self w)) (vmap (self w)) mask) (hp w) (pt w) (fences w) h)
| do_objects h : virt_step n w (Objects h) (mk_world (self w) h (pt w) (fences w) (hart w)).
(** A new address space and the calls made on it since, the last one first, each with
    the state it was made in. *)
Inductive virt_run (n : nat) : list (world * call) -> world -> Prop :=
| virt_new w0 live v w : pa_inv (PG.alloc (pt w0)) live -> 0 <= hart w0 < 64 -> Mem.new_virt w0 = Some (Ok v, w) -> virt_run n [] (set_self v w)
| virt_next tr w c w' : virt_run n tr w -> virt_step n w c w' -> virt_run n ((w, c) :: tr) w'.
(** The calls that keep the map and the table in step: not one that maps no pages at an
    address of the kernel's choice ([map_nothing] below); ranges that are not empty, do
    not reach into the last page of the 64-bit space if they are prefaulted, and cut no
    mapping if they are unmapped or get other rights ([unmap_to_the_end],
    [unmap_keeps_page], [reprotect_to_the_end]). *)
Definition regular (wc : world * call) : Prop :=
  match wc.2 with
  | Map _ None _ _ count _ => 0 < count
  | Push lo hi _ => lo < hi /\ hi + 4096 <= 2 ^ 64
  | Decommit lo hi => lo < hi
  | Unmap lo hi | Reprotect lo hi _ => lo < hi /\ uncut (vmap (self wc.1)) lo hi
  | _ => True
  end.

Lemma virt_step_good n w c w' : (2 <= n)%nat -> good w -> regular (w, c) -> virt_step n w c w' -> good w'.
Proof.
  intros Hn Hg Hc Hs. destruct Hs as [g addr p si count at_ r w' H1 H2 H3 E Hr|addr ea r w' Ha E Hr|lo hi g r w' H1 H2 E Hr|lo hi r w' H1 H2 E Hr|lo hi r w' H1 H2 E Hr
    |lo hi at_ r w' H1 H2 Ha E Hr|r w' E Hr|r w' E Hr|v w' E|x p e d w' Hx Hp He Hd E|mask h Hm Hh|h]; cbn in Hc; unfold fits in *.
  - assert (H4 : addr = None -> 0 < count) by (by intros ->).
    pose proof (map_sound base next_u64 n g addr p si count at_ w r w' Hg Hn H1 H2 H3 H4 E Hr) as Hm. destruct r; [apply Hm|apply Hm|done].
  - by apply (commit_good base base_ok) in E as [? _].
  - destruct Hc. by apply (push_good base base_ok) in E.
  - apply (decommit_range_good base) in E; try done. lia.
  - destruct Hc as [Hlo Hu]. destruct (unaligned lo hi) eqn:Eu; [unfold unmap in E; rewrite Eu in E; by injection E as _ <-|]. apply unaligned_false in Eu as [Hl Hh].
    apply (unmap_sound base) in E as [_ Ht]; try done; [apply Ht|lia].
  - destruct Hc as [Hlo Hu]. destruct (unaligned lo hi) eqn:Eu; [unfold reprotect in E; rewrite Eu in E; by injection E as _ <-|]. apply unaligned_false in Eu as [Hl Hh].
    apply (reprotect_sound base) in E as [_ Ht]; try done; [apply Ht|lia].
  - by apply (clear_sound base) in E as [? _].
  - by apply (fork_sound base base_ok) in E as [? _]; [| |apply kernel_pages_ok|].
  - apply (fork_sound base base_ok) in E as [_ Hv]; [by apply Hv|done|apply kernel_pages_ok|done].
  - destruct (write_pte_ok w x p e (Z.lor e d) Hx Hp) as (s' & Ew & Ht & Hum). rewrite Ew in E. injection E as <-. by eapply good_touch.
  - destruct Hg as [? ? ? ?]. split; try done.
  - by apply good_heap.
Qed.

(** C6: in every state that an address space reaches, or a copy of it, from its
    creation on by calls that do not panic, its range map is in order and its page table
    is a tree; every page the table gives a user address is a page of 4 KiB, is there
    because a mapping has the address, is a frame of memory and has the rights of that
    mapping.  Mapping, page faults, prefaulting, decommitting, clearing, forking (of
    spaces with mappings of any kind), the bits the hardware sets and the moves between
    harts keep that.  The calls are the [regular] ones: no mapping of 0 pages at an
    address of the kernel's choice, which puts an empty range into the map
    ([map_nothing]); no empty ranges, and no prefault of the last page of the 64-bit
    space; unmapping and changing rights only of ranges that do not cut a mapping. *)
Theorem virt_coherent n tr w : (2 <= n)%nat -> virt_run n tr w -> Forall regular tr ->
  RM.wf (vmap (self w)) /\ tree w /\ forall x l pa a, user x -> um w x = Some (l, (pa, a)) ->
    l = O /\ exists m f, RM.at_ (vmap (self w)) x = Some m /\ pa = base f /\ rights a = rights (attr m).
Proof.
  intros Hn Hr Hf. assert (Hg : good w).
  { induction Hr as [w0 live v w Ha Hh E|tr w c w' _ IH Hs]; [by eapply new_virt_ok|]. inversion Hf; subst. eapply virt_step_good; [done| |done|done]. by apply IH. }
  split_and!; [apply Hg|apply Hg|]. intros x l pa a Hx Hu. destruct (g_coh _ _ Hg x _ Hx Hu) as (m & f & Hm & Hl & Hb & Ha). split; [done|]. by exists m, f.
Qed.


(** C18: in a space whose mappings are all of anonymous memory, so that no call waits for
    a flusher, unmapping a range of whole pages that cuts no mapping returns and succeeds.
    No address of the range has a mapping or a page any more, every other address has
    those it had, and every hart that is in the mask of the space when the call is made
    has been told to drop each of the pages that were in the table.  The call is one
    step here; a hart that enters the mask while it runs is missed ([decommit_race] of
    Tlb.v). *)
Theorem virt_unmap_spec rank n w lo hi : good w -> 0 <= lo < hi -> lo mod 4096 = 0 -> hi mod 4096 = 0 -> uncut (vmap (self w)) lo hi ->
  wf rank (hp w) -> (forall x, (rank x < n)%nat) -> (forall p, In p (RM.map (vmap (self w))) -> anon (hp w) (phys p.2.2)) ->
  exists w', unmap n lo hi w = Some (Ok tt, w') /\ wf rank (hp w') /\ good w' /\
    (forall x, RM.at_ (vmap (self w')) x = if (lo <=? x) && (x <? hi) then None else RM.at_ (vmap (self w)) x) /\
    (forall x, user x -> um w' x = if (lo <=? x) && (x <? hi) then None else um w x) /\
    exists evs, fences w' = fences w ++ evs /\ forall x, user x -> lo <= x < hi -> um w x <> None -> covered (cpu_mask (self w)) (hart w) evs x.
Proof.
  intros Hg Hlo Hl4 Hh4 Hu Hw Hn Han. destruct (unmap_total rank n lo hi w Hg Hlo Hl4 Hh4 Hu Hw Hn Han) as (w' & E & Hw').
  exists w'. destruct (unmap_sound base n lo hi w _ w' Hg Hlo Hl4 Hh4 Hu E) as [_ [Hg' _ Hat Hum Hf]]; [done|]. done.
Qed.

(** C15: a fork of an address space whose mappings are all of anonymous memory, none of
    an object with a flusher, returns; it panics only if there is no frame for the root
    table.  Otherwise both spaces are coherent; the copy
    has a mapping where the original has one, with the same rights and the same pages
    of a memory object of its own that shows the same bytes; the copy has no pages in
    its table yet, and in the table of the original no page of a writable mapping is
    left, so the next write of either is a fault. *)
Theorem virt_fork_spec rank k n w : good w -> wf rank (hp w) -> (forall x, (rank x <= k)%nat) -> (k + length (RM.map (vmap (self w))) <= n)%nat ->
  (forall p, In p (RM.map (vmap (self w))) -> anon (hp w) (phys p.2.2)) ->
  exists r w', Mem.deep_fork n w = Some (r, w') /\ match r with
    | Ok v => good w' /\ good (set_self v w') /\ self w' = self w /\
        (forall x, match RM.at_ (vmap (self w)) x, RM.at_ (vmap v) x with
         | Some m, Some m' => start_index m' = start_index m /\ attr m' = attr m /\ phys m' <> phys m /\
             (forall j bs, sees (hp w) (phys m) j bs -> sees (hp w') (phys m) j bs /\ sees (hp w') (phys m') j bs) /\
             (user x -> PG.contains (attr m) PG.WRITABLE = true -> um w' x = None)
         | None, None => True
         | _, _ => False
         end) /\ forall x, user x -> um (set_self v w') x = None
    | Err _ => False
    | Panic => PG.pa_alloc (PG.alloc (pt w')) = None
    end.
Proof.
  intros Hg Hw Hk Hkn Han. destruct (virt_fork_ok base base_ok n Mem.KERNEL_PAGES rank k w Hg kernel_pages_ok Hw Hk Hkn Han) as (r & w' & E & Hr).
  exists r, w'. split; [exact E|]. destruct r as [v|e|]; [|done|done]. destruct Hr as [F1 F2 [F3 _] _ F5 F6 F7 F8]. split_and!; try done. intros x. specialize (F5 x).
  destruct (RM.at_ (vmap (self w)) x) as [m|] eqn:Em; [|by rewrite (proj2 F5)]. destruct (F6 x m Em) as (m' & -> & H1 & H2 & H3 & H4). split_and!; try done.
  intros Hx Hwr. destruct (um w' x) as [t|] eqn:Et; [|done]. by rewrite (F7 x t m Hx Et Em) in Hwr.
Qed.
End Use.

(** ** Runs *)
Definition frame_base (f : nat) : Z := 0x80000000 + (Z.of_nat f mod 2 ^ 30) * 4096.
Lemma frame_base_ok f : fits 56 (frame_base f) /\ frame_base f mod 4096 = 0.
Proof. unfold frame_base, fits. pose proof (Z.mod_pos_bound (Z.of_nat f) (2 ^ 30) ltac:(lia)). split; [lia|]. Z.div_mod_to_equations. lia. Qed.
Notation W := (world (T := RamDisk) (A := Bump)).
Definition bare : W := mk_world (mk_virt 0 (RM.new (RM.mk_range 0 0)) 0) (boot 20 ∅) empty_space [] 0.
Definition after {X} (m : PT W Error X) (w : W) : W := match m w with Some (_, w') => w' | None => w end.
Definition outcome {X} (m : PT W Error X) (w : W) : option (res Error X) := fst <$> m w.
(** A new address space, loaded on the harts 0 and 1. *)
Definition fresh_space : W := match Mem.new_virt bare with Some (Ok v, w) => set_self v w | _ => bare end.
Definition load_on (mask : Z) (w : W) : W := mk_world (mk_virt (root (self w)) (vmap (self w)) mask) (hp w) (pt w) (fences w) (hart w).
Definition anon_map (addr : option Z) (count attr : Z) : PT W Error Z := p ← on_heap (Ph.new true); map (const_rng 5) 20 tt addr p 0 count attr.
Definition touch_page (a : Z) : PT W Error unit := commit frame_base 20 a PG.READABLE.
Definition space0 : W := load_on 3 fresh_space.
Definition space1 : W := after (anon_map (Some 0x10000) 2 PG.USER_RW) space0.
Definition space2 : W := after (touch_page 0x10000) space1.
Definition ram0 : nat := Ph.new_id (hp space0).
Lemma space0_good : good frame_base space0.
Proof.
  assert (Hf : good frame_base fresh_space).
  { unfold fresh_space. destruct (Mem.new_virt bare) as [[[v|e|] w]|] eqn:E; [|vm_compute in E; discriminate E..]. eapply (new_virt_ok frame_base frame_base_ok bare {[ID_OFFSET]}); [|done|exact E].
    apply empty_space_inv. }
  destruct Hf as [H1 _ H3 H4]. split; try done.
Qed.
Lemma space1_good : good frame_base space1.
Proof.
  eapply (virt_step_good frame_base frame_base_ok (const_rng 5) 20 (after (on_heap (Ph.new true)) space0) (Map tt (Some 0x10000) ram0 0 2 PG.USER_RW)); [lia| |done|].
  - unfold after. destruct (on_heap _ space0) as [[r w]|] eqn:E; [|vm_compute in E; discriminate E]. apply on_heap_Some in E as (h & _ & ->). apply good_heap, space0_good.
  - apply (do_map _ _ 20 _ tt (Some 0x10000) ram0 0 2 PG.USER_RW (Ok 0x10000)); [done|done|by intros a [= <-]|vm_compute; reflexivity|done].
Qed.
Lemma space2_good : good frame_base space2.
Proof.
  apply (virt_step_good frame_base frame_base_ok (const_rng 5) 20 space1 (Commit 0x10000 PG.READABLE)); [lia|apply space1_good|done|].
  apply (do_commit _ _ 20 _ 0x10000 PG.READABLE (Ok tt)); [done|vm_compute; reflexivity|done].
Qed.
Lemma space1_wf : wf (fun _ => O) (hp space1).
Proof.
  destruct (phys_new_ok (fun _ => O) (boot 20 ∅) true (boot_wf _ 20 (∅ : gmap nat RamDisk))) as (p & h & E & Hw & _).
  assert (Hh : Ph.new true (boot 20 (∅ : gmap nat RamDisk)) = Some (Ok ram0, hp space1)) by (vm_compute; reflexivity). rewrite Hh in E. by injection E as _ <-.
Qed.
Lemma space2_wf : exists rank, wf rank (hp space2) /\ forall x, (rank x <= 1)%nat.
Proof.
  apply (step_wf (fun _ => O) 20 0 (hp space1)); [apply space1_wf|done|lia|].
  apply (PhysUse.do_commit 20 (hp space1) ram0 (Ph.mk_phys false None ∅ 0 true None) 0 (Some 4096) (1%nat, 4096)); [split; vm_compute; reflexivity|lia|intros nl [= <-]; change PAGE_SIZE with 4096; lia|vm_compute; reflexivity].
Qed.

Lemma space2_reach : exists tr, virt_run frame_base (const_rng 5) 20 tr space2 /\ Forall regular tr.
Proof.
  eexists. split; [eapply virt_next; [eapply virt_next; [eapply virt_next; [eapply virt_next|]|]|]|].
  - eapply (virt_new _ _ 20 bare {[ID_OFFSET]}); [apply empty_space_inv|done|]. vm_compute. reflexivity.
  - apply (do_switch _ _ 20 _ 3 0); done.
  - apply (do_objects _ _ 20 _ (hp space1)).
  - apply (do_map _ _ 20 _ tt (Some 0x10000) ram0 0 2 PG.USER_RW (Ok 0x10000) space1); [done|done|by intros a [= <-]|vm_compute; reflexivity|done].
  - apply (do_commit _ _ 20 _ 0x10000 PG.READABLE (Ok tt)); [done|vm_compute; reflexivity|done].
  - by repeat constructor.
Qed.
Lemma virt_coherent_witness : um space2 0x10000 = Some (O, (0x80001000, PG.USER_RW)) /\ RM.wf (vmap (self space2)) /\
  exists m, RM.at_ (vmap (self space2)) 0x10000 = Some m /\ rights PG.USER_RW = rights (attr m).
Proof.
  assert (E : um space2 0x10000 = Some (O, (0x80001000, PG.USER_RW))) by (vm_compute; reflexivity). split; [exact E|].
  destruct space2_reach as (tr & Ht & Hf). destruct (virt_coherent frame_base frame_base_ok (const_rng 5) 20 tr space2 ltac:(lia) Ht Hf) as (Hw & _ & Hc). split; [exact Hw|].
  destruct (Hc 0x10000 O 0x80001000 PG.USER_RW ltac:(unfold user; lia) E) as (_ & m & f & Hm & _ & Hr). exists m. split; [exact Hm|exact Hr].
Defined.
Lemma space1_entries p : In p (RM.map (vmap (self space1))) -> p = (0x10000, (0x12000, mk_mapping ram0 0 PG.USER_RW)).
Proof.
  assert (E : RM.map (vmap (self space1)) = [(0x10000, (0x12000, mk_mapping ram0 0 PG.USER_RW))]) by (vm_compute; reflexivity).
  rewrite E. intros [<- | []]. reflexivity.
Qed.
Lemma space2_entries p : In p (RM.map (vmap (self space2))) -> p = (0x10000, (0x12000, mk_mapping ram0 0 PG.USER_RW)).
Proof.
  assert (E : RM.map (vmap (self space2)) = [(0x10000, (0x12000, mk_mapping ram0 0 PG.USER_RW))]) by (vm_compute; reflexivity).
  rewrite E. intros [<- | []]. reflexivity.
Qed.
Lemma space2_anon p : In p (RM.map (vmap (self space2))) -> anon (hp space2) (phys p.2.2).
Proof.
  intros ->%space2_entries. cbn [phys snd]. destruct (Ph.physs (hp space2) !! ram0) as [ph|] eqn:E; [|vm_compute in E; discriminate E].
  assert (Hb : (fun ph => (Ph.branch ph, Ph.flusher ph)) <$> Ph.physs (hp space2) !! ram0 = Some (false, None)) by (vm_compute; reflexivity).
  rewrite E in Hb. injection Hb as Hb Hf. exists ph. split; [split; [exact E|exact Hb]|exact Hf].
Qed.
Lemma virt_unmap_spec_witness : um space2 0x10000 <> None /\ exists w', unmap 20 0xf000 0x12000 space2 = Some (Ok tt, w') /\ um w' 0x10000 = None /\
  exists evs, fences w' = fences space2 ++ evs /\ covered 3 0 evs 0x10000.
Proof.
  assert (Hne : um space2 0x10000 <> None) by (vm_compute; discriminate). split; [exact Hne|]. destruct space2_wf as (rank & Hw & Hk).
  destruct (virt_unmap_spec frame_base rank 20 space2 0xf000 0x12000 space2_good) as (w' & E & _ & _ & _ & Hu & evs & Hf & Hc); [lia|reflexivity|reflexivity| |exact Hw|intros x; specialize (Hk x); lia|apply space2_anon|].
  - intros p ->%space2_entries. split; reflexivity.
  - exists w'. split; [exact E|]. split; [rewrite Hu by (unfold user; lia); reflexivity|]. exists evs. split; [exact Hf|]. apply (Hc 0x10000); [unfold user; lia|lia|exact Hne].
Defined.
Lemma virt_fork_spec_witness : exists r w', Mem.deep_fork 20 space2 = Some (r, w') /\ exists v, r = Ok v /\ good frame_base (set_self v w') /\ um w' 0x10000 = None.
Proof.
  destruct space2_wf as (rank & Hw & Hk). destruct (virt_fork_spec frame_base frame_base_ok rank 1 20 space2 space2_good Hw Hk) as (r & w' & E & Hr); [vm_compute; lia|apply space2_anon|].
  exists r, w'. split; [exact E|]. destruct r as [v|e|]; [|destruct Hr|].
  - exists v. destruct Hr as (_ & Hg & _ & Hx & _). split; [reflexivity|]. split; [exact Hg|]. specialize (Hx 0x10000).
    assert (Em : RM.at_ (vmap (self space2)) 0x10000 = Some (mk_mapping ram0 0 PG.USER_RW)) by (vm_compute; reflexivity). rewrite Em in Hx.
    destruct (RM.at_ (vmap v) 0x10000) as [m'|]; [|destruct Hx]. apply Hx; [unfold user; lia|reflexivity].
  - assert (Er : (fun x => match x.1 with Panic => true | _ => false end) <$> Mem.deep_fork 20 space2 = Some false) by (vm_compute; reflexivity). rewrite E in Er. discriminate Er.
Defined.

(** ** What does not hold *)
Definition page_of (a : Z) : PT W Error bool := w ← get; mret (match um w a with Some _ => true | None => false end).
Definition maps_to (a : Z) : PT W Error (option Z) := mp ← get_map; mret (attr <$> RM.at_ mp a).
(** The first of four pages is unmapped: its page stays in the table, the second one's
    goes, because the pages behind the end of the range are decommitted. *)
Example unmap_keeps_page : outcome (_ ← anon_map (Some 0x10000) 4 PG.USER_RW; _ ← touch_page 0x10000; _ ← touch_page 0x11000; _ ← unmap 20 0x10000 0x11000;
  m ← maps_to 0x10000; x ← page_of 0x10000; y ← page_of 0x11000; mret (m, x, y)) space0 = Some (Ok (None, true, false)).
Proof. vm_compute. reflexivity. Qed.
(** The second of four pages is unmapped: all pages behind it lose their mapping. *)
Example unmap_to_the_end : outcome (_ ← anon_map (Some 0x10000) 4 PG.USER_RW; _ ← unmap 20 0x11000 0x12000;
  a ← maps_to 0x10000; b ← maps_to 0x11000; c ← maps_to 0x12000; mret (a, b, c)) space0 = Some (Ok (Some PG.USER_RW, None, None)).
Proof. vm_compute. reflexivity. Qed.
(** The second of four pages is made read-only: so are all pages behind it. *)
Example reprotect_to_the_end : outcome (_ ← anon_map (Some 0x10000) 4 PG.USER_RW; _ ← reprotect 20 0x11000 0x12000 PG.USER_R;
  a ← maps_to 0x10000; b ← maps_to 0x11000; c ← maps_to 0x13000; mret (a, b, c)) space0 = Some (Ok (Some PG.USER_RW, Some PG.USER_R, Some PG.USER_R)).
Proof. vm_compute. reflexivity. Qed.
(** A count of pages whose size is not a [usize] maps one page: [checked_shl] looks at
    the shift only. *)
Example map_count_wraps : outcome (a ← anon_map (Some 0x10000) (2 ^ 52 + 1) PG.USER_RW; b ← maps_to 0x10000; c ← maps_to 0x11000; mret (a, b, c)) space0 =
  Some (Ok (0x10000, Some PG.USER_RW, None)).
Proof. vm_compute. reflexivity. Qed.
(** No pages anywhere: an empty range goes into the map. *)
Example map_nothing : outcome (_ ← anon_map None 0 PG.USER_RW; mp ← get_map; mret ((fun x => RM.rend x.1 - RM.rstart x.1) <$> RM.iter mp)) space0 = Some (Ok [0]).
Proof. vm_compute. reflexivity. Qed.
(** A page that is committed behind another one in one go: the fence is for the first. *)
Example commit_fence : outcome (_ ← anon_map (Some 0x10000) 2 PG.USER_RW; _ ← touch_page 0x10000; w ← get; let k := length (fences w) in
  _ ← push frame_base 20 0x10000 0x12000 (start_commit PG.READABLE); w ← get; mret (drop k (fences w))) space0 = Some (Ok [Remote 2 0x10000 4096; Local 0x10000]).
Proof. vm_compute. reflexivity. Qed.
(** A range that is refused makes the next one panic: the lock has been taken out. *)
Example push_twice : outcome (_ ← anon_map (Some 0x10000) 1 PG.USER_R; '(r, g) ← push frame_base 20 0x10000 0x10010 (start_commit PG.WRITABLE);
  _ ← push frame_base 20 0x10000 0x10010 g; mret r) space0 = Some Panic.
Proof. vm_compute. reflexivity. Qed.
