(* ===== verification/MemSpec.v ===== *)
(** * kernel: the break and the mappings of a task *)

From S2P Require Import Prelude BTree RangeMap Aslr Ksc Bytes Paging PageTree Umio Phys PhysInv PhysCommit PhysClone PhysDrop PhysUse.
From S2P Require Import Virt VirtSpec VirtOps VirtUnmap VirtMap VirtFork Mem VirtUse.
Import Errno Virt Mem.

Section MemSpec.
Context {T : Type} `{IoT : Umio.Io T} `{BT : !Backing T} {A : Type} `{PAS : PageAllocSpec A} (base : nat -> Z).
Context {R : Type} (next_u64 : R -> Z * R).
Notation world := (world (T := T) (A := A)).
Notation task := (task (T := T) (A := A)).
Implicit Types (w : world) (t : task).
Notation good := (good (T := T) (A := A) base).

Lemma page_up_eq x : 0 <= x -> x + 4096 < 2 ^ 64 -> page_up x = (x + 4095) / 4096 * 4096.
Proof.
  intros H0 H1. unfold page_up, page_down. rewrite and_not_page_mask by (by apply wrap_fits). by rewrite wadd_small by (change PAGE_MASK with 4095; unfold fits; lia).
Qed.
(** [map] at an address, of a new object. *)
Lemma map_at_ok rank n g w a p count at_ : good w -> wf rank (hp w) -> anon (hp w) p -> (rank p < n)%nat -> fits 8 at_ -> a mod 4096 = 0 -> 0 <= a -> 0 < count -> a + count * 4096 < 2 ^ 64 ->
  let key := RM.mk_range a (a + count * 4096) in
  (free_range (vmap (self w)) key /\ exists w', map next_u64 n g (Some a) p 0 count at_ w = Some (Ok a, w') /\ good w' /\ hp w' = hp w /\
    forall x, RM.at_ (vmap (self w')) x = if in_range key x then Some (mk_mapping p 0 (Z.lor at_ PG.VALID)) else RM.at_ (vmap (self w)) x) \/
  (~ free_range (vmap (self w)) key /\ exists h, map next_u64 n g (Some a) p 0 count at_ w = Some (Err ENOSPC, mk_world (self w) h (pt w) (fences w) (hart w)) /\ without p (hp w) h /\ wf rank h).
Proof.
  intros Hg Hw (ph & [Hp Hb] & Hf) Hn Hat Ha4 Ha Hc Hend key. unfold map. rewrite (PT_bind_Ok _ _ _ _ _ (get_map_ok w)). rewrite and_page_mask, Ha4. cbn [negb Z.eqb].
  rewrite wshl_small by (done || (change (2 ^ PAGE_SHIFT) with 4096; unfold fits; lia)). change (2 ^ PAGE_SHIFT) with 4096. rewrite (proj2 (Z.eqb_neq _ 0)) by lia.
  unfold checked_add. rewrite (proj2 (Z.ltb_lt _ _)) by lia. unfold RM.try_insert. fold key. pose proof (g_space _ _ Hg) as Hs. destruct (RM.key_vacant _ key) eqn:Ev.
  - left. split; [by apply free_range_iff; [apply Hs|]|]. destruct (insert_mapped base w a (count * 4096) (mk_mapping p 0 (Z.lor at_ PG.VALID)) Hg Ev Ha4) as [I1 I2 _ _ I5].
    { clear - Ha4. Z.div_mod_to_equations. lia. } { by apply attr_ok_valid. }
    eexists. split; [done|]. done.
  - right. split; [intros Hfr; apply free_range_iff in Hfr; [congruence|apply Hs]|].
    destruct (drop_ok rank n p (hp w) ph Hw Hp Hb Hf Hn) as (h & Ed & Hw' & Hwo). exists h. split; [|done]. unfold on_heap, mbind, PT_bind. by rewrite Ed.
Qed.
(** The end of the data segment that the task has. *)
Definition brk_of t : Z := if tbrk t =? 0 then BRK_START else tbrk t.
Definition brk_ok t : Prop := BRK_START <= brk_of t < BRK_END.
Definition RW : Z := Z.lor (PG.writable (PG.readable (PG.user_access PG.builder true) true) true) PG.VALID.
(** What a new break has made of the addresses between the old one and [addr]. *)
Definition grown (addr : Z) t t' : Prop :=
  let lo := page_up (brk_of t) in let hi := page_up addr in
  if lo <? hi then free_range (vmap (self (tw t))) (RM.mk_range lo hi) /\ exists p, Ph.physs (hp (tw t)) !! p = None /\ (forall j, sees (hp (tw t')) p j Ph.zeros) /\
    pres (hp (tw t)) (hp (tw t')) /\
    forall x, RM.at_ (vmap (self (tw t'))) x = if in_range (RM.mk_range lo hi) x then Some (mk_mapping p 0 RW) else RM.at_ (vmap (self (tw t))) x
  else tw t' = tw t.

(** The pages for a new break: a new object at their address. *)
Definition grow (n : nat) (g : R) (lo count : Z) : PT task Error unit :=
  phys ← on_phys (Ph.new true);
  _ ← on_virt (map next_u64 n g (Some lo) phys 0 count (PG.writable (PG.readable (PG.user_access PG.builder true) true) true)); mret tt.
Lemma brk_grow_ok rank n g lo count t : good (tw t) -> wf rank (hp (tw t)) -> (forall x, (rank x < n)%nat) -> lo mod 4096 = 0 -> 0 <= lo -> 0 < count -> lo + count * 4096 < 2 ^ 64 ->
  let key := RM.mk_range lo (lo + count * 4096) in
  (exists w', grow n g lo count t = Some (Ok tt, mk_task w' (tbrk t) (tshm t) (spawned t) (barriers t)) /\ good w' /\ free_range (vmap (self (tw t))) key /\
    exists p, Ph.physs (hp (tw t)) !! p = None /\ (forall j, sees (hp w') p j Ph.zeros) /\ pres (hp (tw t)) (hp w') /\
      forall x, RM.at_ (vmap (self w')) x = if in_range key x then Some (mk_mapping p 0 RW) else RM.at_ (vmap (self (tw t))) x) \/
  (exists w', grow n g lo count t = Some (Err ENOSPC, mk_task w' (tbrk t) (tshm t) (spawned t) (barriers t)) /\ good w' /\ self w' = self (tw t) /\ ~ free_range (vmap (self (tw t))) key).
Proof.
  intros Hg Hw Hn Hl4 Hl Hc Hend key. destruct (phys_new_ok rank (hp (tw t)) true Hw) as (p & h & Ep & Hwh & Hpr & Hno & Hz).
  set (w1 := mk_world (self (tw t)) h (pt (tw t)) (fences (tw t)) (hart (tw t))).
  assert (Hanon : anon h p).
  { unfold Ph.new, Ph.alloc_phys, Ph.hget, Ph.hput, mbind, PT_bind in Ep. injection Ep as <- <-. eexists. split; [split; [apply lookup_insert_eq|done]|done]. }
  set (at_ := PG.writable (PG.readable (PG.user_access PG.builder true) true) true).
  destruct (map_at_ok rank n g w1 lo p count at_) as [(Hfr & w' & Em & Hg' & Eh & Hat)|(Hfr & h' & Em & Hwo & Hw')]; try done; [by apply good_heap|left|right];
    (eexists; split; [unfold grow, on_phys, on_virt, on_heap, mbind, PT_bind; rewrite Ep; cbn [tw]; fold w1 at_; by rewrite Em|]).
  - split; [done|]. split; [exact Hfr|]. exists p. by rewrite Eh.
  - split_and!; [exact (good_heap base (tw t) h' Hg)|done|done].
Qed.

(** C34: the system call [brk].  It returns and does not panic.  An address outside the
    data segment asks for the break, which is answered and nothing changes.  Another
    one becomes the break; if it is in a later page than the break was, the pages in
    between were free and are now one mapping, readable and writable, of a new object
    that shows zeros, and every other address has the mapping it had.  The call fails
    only with ENOSPC, when one of those pages is taken; the break and the mappings are
    then what they were. *)
Theorem brk_spec rank n g addr t : good (tw t) -> wf rank (hp (tw t)) -> (forall x, (rank x < n)%nat) -> fits 64 addr -> brk_ok t ->
  exists r t', brk next_u64 n g addr t = Some (r, t') /\ good (tw t') /\ brk_ok t' /\ match r with
    | Ok b => b = brk_of t' /\ if (BRK_START <=? addr) && (addr <? BRK_END) then b = addr /\ (if brk_of t <? addr then grown addr t t' else tw t' = tw t)
                            else b = brk_of t /\ tw t' = tw t
    | Err e => e = ENOSPC /\ brk_of t' = brk_of t /\ self (tw t') = self (tw t) /\ brk_of t < addr /\
        ~ free_range (vmap (self (tw t))) (RM.mk_range (page_up (brk_of t)) (page_up addr))
    | Panic => False
    end.
Proof.
  intros Hg Hw Hn Ha Hok. pose proof Hok as Hb. unfold brk_ok in Hb. set (b := brk_of t) in *.
  set (t1 := mk_task (tw t) b (tshm t) (spawned t) (barriers t)).
  assert (E1 : (if tbrk t =? 0 then set_brk BRK_START else mret tt) t = Some (Ok tt, t1)) by (unfold t1, b, brk_of; destruct (tbrk t =? 0); [done|by destruct t]).
  assert (Hb1 : forall w' s l l', brk_of (mk_task w' b s l l') = b) by (intros; unfold brk_of; cbn; destruct (Z.eqb_spec b 0); [unfold BRK_START in *; lia|done]).
  unfold brk. rewrite (PT_bind_Ok get_task _ t t t) by done. rewrite (PT_bind_Ok _ _ _ _ _ E1). rewrite (PT_bind_Ok get_task _ t1 t1 t1) by done. cbn [tbrk t1].
  destruct ((BRK_START <=? addr) && (addr <? BRK_END)) eqn:Er; cbn [negb].
  2: { exists (Ok b), t1. unfold brk_ok. change (brk_of t1) with (brk_of (mk_task (tw t) b (tshm t) (spawned t) (barriers t))). by rewrite Hb1. }
  assert (Hr : BRK_START <= addr < BRK_END) by lia. unfold BRK_START, BRK_END in Hr, Hb.
  assert (Hset : forall t2, brk_of (mk_task (tw t2) addr (tshm t2) (spawned t2) (barriers t2)) = addr) by (intros; unfold brk_of; cbn; destruct (Z.eqb_spec addr 0); [lia|done]).
  destruct (b <? addr) eqn:Elt.
  2: { rewrite (PT_bind_Ok _ _ t1 tt t1) by done. eexists (Ok addr), _. split; [done|]. unfold brk_ok. rewrite Hset. done. }
  unfold grown. fold b. rewrite !page_up_eq by lia. set (lo := (b + 4095) / 4096 * 4096). set (hi := (addr + 4095) / 4096 * 4096).
  assert (Hlh : lo mod 4096 = 0 /\ hi mod 4096 = 0 /\ 0 <= lo <= hi /\ hi < 2 ^ 38 /\ (hi - lo) mod 4096 = 0) by (unfold lo, hi; clear - Hr Hb Elt; Z.div_mod_to_equations; lia).
  clearbody lo hi. destruct Hlh as (Hl4 & Hh4 & Hlo & Hhi & Hd4). rewrite wsub_small by (unfold fits; lia). rewrite Z.shiftr_div_pow2 by done. change (2 ^ PAGE_SHIFT) with 4096.
  set (count := (hi - lo) / 4096). assert (Ec : hi = lo + count * 4096) by (unfold count; clear - Hd4; Z.div_mod_to_equations; lia).
  destruct (Z.ltb_spec 0 count) as [Hc|Hc].
  2: { rewrite (PT_bind_Ok _ _ t1 tt t1) by done. eexists (Ok addr), _. split; [done|]. unfold brk_ok. rewrite Hset. rewrite (proj2 (Z.ltb_ge lo hi)) by lia. done. }
  rewrite (proj2 (Z.ltb_lt lo hi)) by lia.
  fold (grow n g lo count). destruct (brk_grow_ok rank n g lo count t1) as [(w' & E & Hg' & Hfr & p & Hp)|(w' & E & Hg' & Hs & Hfr)]; try done; try lia.
  - rewrite (PT_bind_Ok _ _ _ _ _ E). eexists (Ok addr), _. split; [done|]. unfold brk_ok. rewrite Hset, Ec. split_and!; try done; try (unfold BRK_START, BRK_END; lia). by exists p.
  - eexists (Err ENOSPC), _. split; [unfold mbind, PT_bind; by rewrite E|]. unfold brk_ok. rewrite Hb1, Ec. split_and!; try done; unfold BRK_START, BRK_END; lia.
Qed.
End MemSpec.

(** ** Runs *)
Notation TK := (task (T := RamDisk) (A := Bump)).
Definition no_files (fd : Z) : res Error (option io) := Err EBADF.
Definition task0 : TK := mk_task space0 0 shm_default [] [].
Definition ran {X} (m : PT TK Error X) : option (res Error X) := fst <$> m task0.
Lemma brk_spec_witness : exists t', brk (const_rng 5) 20 tt 0x12346001 task0 = Some (Ok 0x12346001, t') /\ good frame_base (tw t') /\ brk_of t' = 0x12346001 /\
  exists p, RM.at_ (vmap (self (tw t'))) 0x12345000 = Some (mk_mapping p 0 RW).
Proof.
  destruct (brk_spec frame_base (const_rng 5) (fun _ => O) 20 tt 0x12346001 task0 space0_good) as (r & t' & E & Hg & _ & Hr); [apply (boot_wf _ 20 ∅)|lia|done|by split|].
  assert (Er : fst <$> brk (const_rng 5) 20 tt 0x12346001 task0 = Some (Ok 0x12346001)) by (vm_compute; reflexivity). rewrite E in Er. injection Er as ->.
  exists t'. split; [exact E|]. split; [exact Hg|]. destruct Hr as (Hb & _ & Hgr). split; [by rewrite <- Hb|].
  destruct Hgr as (_ & p & _ & _ & _ & Hx). exists p. rewrite Hx. reflexivity.
Defined.
(** A program that gives memory back and wants it again gets an error: the pages were
    never unmapped. *)
Example brk_again : ran (_ ← brk (const_rng 5) 20 tt 0x12348000; _ ← brk (const_rng 5) 20 tt 0x12346000; brk (const_rng 5) 20 tt 0x12348000) = Some (Err ENOSPC).
Proof. vm_compute. reflexivity. Qed.
Notation mmap0 := (mmap (T := RamDisk) (A := Bump) frame_base (const_rng 5) no_files 20 tt).
Definition FIXED : Z := 0x32.
Definition tried {X} (m : PT TK Error X) : PT TK Error (res Error X) := fun t => match m t with Some (r, t) => Some (Ok r, t) | None => None end.
Definition mapped_at (a : Z) : PT TK Error bool := on_virt (mp ← get_map; mret (match RM.at_ mp a with Some _ => true | None => false end)).
(** A fixed address that is not that of a page is an error, after what was there is gone. *)
Example mmap_unaligned : ran (_ ← mmap0 0x10000 4096 3 FIXED (-1) 0; r ← tried (mmap0 0x10010 4096 3 FIXED (-1) 0);
  m ← mapped_at 0x10000; mret (r, m)) = Some (Ok (Err EINVAL, false)).
Proof. vm_compute. reflexivity. Qed.
(** A fixed mapping of one page inside of another one takes the rest of that away. *)
Example mmap_fixed_inside : ran (_ ← mmap0 0x10000 0x4000 3 FIXED (-1) 0; _ ← mmap0 0x11000 0x1000 3 FIXED (-1) 0;
  a ← mapped_at 0x10000; b ← mapped_at 0x11000; c ← mapped_at 0x12000; mret (a, b, c)) = Some (Ok (true, true, false)).
Proof. vm_compute. reflexivity. Qed.
(** A length of zero is not an error. *)
Example mmap_zero : ran (mmap0 0 0 3 0x22 (-1) 0) = Some (Ok 24576).
Proof. vm_compute. reflexivity. Qed.
(** Only writable: an entry that the hardware reserves. *)
Example mmap_write_only : PG.contains (prot_attr PROT_WRITE) PG.READABLE = false /\ PG.contains (prot_attr PROT_WRITE) PG.WRITABLE = true.
Proof. by vm_compute. Qed.
(** A private segment is given the number of one that a program has named itself, whose
    memory it replaces. *)
Example shm_taken : ran (a ← shmget 20 2 0x3000 IPC_CREAT; x ← get_task; b ← shmget 20 0 0x1000 0; y ← get_task;
  mret (a, b, snd <$> smap (tshm x) !! 2, snd <$> smap (tshm y) !! 2)) = Some (Ok (2, 2, Some 0x3000, Some 0x1000)).
Proof. vm_compute. reflexivity. Qed.
