(* ===== verification/Arena.v ===== *)
(** * kmem: the frame arena

    mizu/lib/kmem/src/frame.rs: the allocator of page frames, a stack of free blocks
    whose links are in the free pages, and a bump pointer for the pages never used.
    [nodes] is the memory of the links; [wiped] are the pages [allocate] has cleared. *)

From S2P Require Import Prelude Paging PageTree.

Import PG.

Module Arena.
Definition COUNT_SHIFT : Z := 5.
Definition MAX_COUNT : Z := Z.shiftl 1 (PAGE_SHIFT - COUNT_SHIFT).
Definition COUNT_MASK : Z := Z.shiftl (MAX_COUNT - 1) COUNT_SHIFT.
Definition ID_MASK : Z := Z.shiftl 1 COUNT_SHIFT - 1.
Definition compose (addr count id : Z) : Z :=
  Z.lor (Z.lor (Z.land addr (wnot 64 PAGE_MASK)) (wshl 64 count COUNT_SHIFT)) (Z.land id ID_MASK).
Definition decompose (head : Z) : Z * Z * Z :=
  (Z.land head (wnot 64 PAGE_MASK), Z.shiftr (Z.land head COUNT_MASK) COUNT_SHIFT, Z.land head ID_MASK).

Record Node := mk_node { next : Z; ncount : Z }.
Record arena := mk_arena { head : Z; top : Z; abase : Z; aend : Z; count : Z; nodes : gmap Z Node; wiped : list Z }.
Definition new (lo hi : Z) : arena := mk_arena 0 lo lo hi 0 ∅ [].
Definition set_head (h : Z) a := mk_arena h (top a) (abase a) (aend a) (count a) (nodes a) (wiped a).
Definition set_top (t : Z) a := mk_arena (head a) t (abase a) (aend a) (count a) (nodes a) (wiped a).
Definition set_node (p : Z) (n : Node) a := mk_arena (head a) (top a) (abase a) (aend a) (count a) (<[p := n]> (nodes a)) (wiped a).

(** ** Alone: every exchange succeeds at once *)
Definition allocate_fresh (n : Z) (a : arena) : option Z * arena :=
  let last := wadd 64 (top a) (wmul 64 (n - 1) PAGE_SIZE) in
  if (abase a <=? last) && (last <? aend a) then (Some (top a), set_top (wadd 64 (top a) (wmul 64 n PAGE_SIZE)) a) else (None, a).
Definition deallocate_list (addr n : Z) (a : arena) : arena :=
  let '(next_addr, _, id) := decompose (head a) in
  let a := set_node addr (mk_node next_addr n) a in
  set_head (compose addr 0 (wadd 16 id 1)) a.
Definition allocate_list (n : Z) (a : arena) : option Z * arena :=
  let '(addr, _, id) := decompose (head a) in
  match as_non_zero addr with
  | None => (None, a)
  | Some p =>
      match nodes a !! p with
      | None => (None, a)
      | Some nd =>
          match checked_sub (ncount nd) n with
          | None => (None, a)
          | Some rest =>
              let nn := addr_add addr (wmul 64 n PAGE_SIZE) in
              let a := set_head (compose (next nd) 0 (wadd 16 id 1)) a in
              (Some addr, if rest =? 0 then a else deallocate_list nn rest a)
          end
      end
  end.
Definition allocate (n : Z) (a : arena) : option Z * arena :=
  let '(r, a) := match allocate_list n a with (Some p, a) => (Some p, a) | (None, a) => allocate_fresh n a end in
  match r with
  | Some p => (Some p, mk_arena (head a) (top a) (abase a) (aend a) (wadd 64 (count a) n) (nodes a) (wiped a ++ [p]))
  | None => (None, a)
  end.
Definition deallocate (addr n : Z) (a : arena) : arena :=
  let a := deallocate_list addr n a in
  mk_arena (head a) (top a) (abase a) (aend a) (wsub 64 (count a) n) (nodes a) (wiped a).
Definition used_count (a : arena) : Z := count a.
Definition total_count (a : arena) : Z := Z.shiftr (wsub 64 (aend a) (abase a)) PAGE_SHIFT.
(** [PageAlloc] *)
#[export] Instance arena_alloc : PageAlloc arena := {
  pa_alloc a := match allocate 1 a with (Some p, a) => Some (p, a) | (None, _) => None end;
  pa_dealloc a p := deallocate p 1 a;
}.

(** ** Harts: [allocate_list] and [deallocate_list] between their accesses, for one page *)
Inductive at_ :=
| Out
| PopLoad
| PopRead (h : Z)
| PopCas (h nx : Z)
| Got (p : option Z)
| PushLoad (p : Z)
| PushWrite (p h : Z)
| PushCas (p h : Z).
Record sys := mk_sys { mem : arena; thr : nat -> at_ }.
Definition goto (t : nat) (x : at_) (s : sys) : sys := mk_sys (mem s) (fun u => if Nat.eqb u t then x else thr s u).
Definition set_mem (a : arena) (s : sys) : sys := mk_sys a (thr s).
Definition step (t : nat) (s : sys) : option sys :=
  let a := mem s in
  match thr s t with
  | Out | Got _ => None
  | PopLoad => Some (goto t (PopRead (head a)) s)
  | PopRead h =>
      let '(addr, _, _) := decompose h in
      match as_non_zero addr with
      | None => Some (goto t (Got None) s)
      | Some p => match nodes a !! p with
                  | Some nd => Some (goto t (if ncount nd <? 1 then Got None else PopCas h (next nd)) s)
                  | None => None
                  end
      end
  | PopCas h nx =>
      let '(addr, _, id) := decompose h in
      if head a =? h then Some (goto t (Got (Some addr)) (set_mem (set_head (compose nx 0 (wadd 16 id 1)) a) s))
      else Some (goto t (PopRead (head a)) s)
  | PushLoad p => Some (goto t (PushWrite p (head a)) s)
  | PushWrite p h => let '(addr, _, _) := decompose h in Some (goto t (PushCas p h) (set_mem (set_node p (mk_node addr 1) a) s))
  | PushCas p h =>
      let '(_, _, id) := decompose h in
      if head a =? h then Some (goto t Out (set_mem (set_head (compose p 0 (wadd 16 id 1)) a) s))
      else Some (goto t (PushWrite p (head a)) s)
  end.
Inductive call := Alloc (t : nat) | Free (t : nat) (p : Z) | Go (t : nat).
Definition act (c : call) (s : sys) : option sys :=
  match c with
  | Alloc t => match thr s t with Out | Got _ => Some (goto t PopLoad s) | _ => None end
  | Free t p => match thr s t with Out | Got _ => Some (goto t (PushLoad p) s) | _ => None end
  | Go t => step t s
  end.
Fixpoint run (l : list call) (s : sys) : option sys :=
  match l with [] => Some s | c :: l => s ← act c s; run l s end.
End Arena.

(** * kmem: the frame arena hands out pages once

    With nobody else at work the arena meets the contract that the page tables have
    with their allocator.  With several harts it need not: the tag of the head has
    five bits. *)
Import PG Arena.

(** ** The head *)
Lemma compose_eq addr id : fits 64 addr -> addr mod 4096 = 0 -> compose addr 0 id = addr + id mod 32.
Proof.
  intros Hf Ha. unfold compose. change PAGE_MASK with (2 ^ 12 - 1). rewrite (land_not_mask 64) by (try done; lia). change (wshl 64 0 COUNT_SHIFT) with 0. rewrite Z.lor_0_r.
  change ID_MASK with (2 ^ 5 - 1). rewrite land_mask by lia. change (2 ^ 12) with 4096. change (2 ^ 5) with 32. pose proof (Z.mod_pos_bound id 32 ltac:(lia)).
  rewrite (lor_low _ _ 12) by (try lia; rewrite Z.mod_mul; lia). f_equal. Z.div_mod_to_equations. lia.
Qed.
Lemma decompose_eq addr id : fits 64 addr -> addr mod 4096 = 0 -> decompose (addr + id mod 32) = (addr, 0, id mod 32).
Proof.
  intros Hf Ha. pose proof (Z.mod_pos_bound id 32 ltac:(lia)) as Hb. unfold fits in Hf.
  assert (Hf' : fits 64 (addr + id mod 32)) by (unfold fits; Z.div_mod_to_equations; lia).
  assert (E1 : Z.land (addr + id mod 32) (wnot 64 PAGE_MASK) = addr).
  { change PAGE_MASK with (2 ^ 12 - 1). rewrite (land_not_mask 64) by (try done; lia). change (2 ^ 12) with 4096. clear - Ha Hb. Z.div_mod_to_equations. lia. }
  assert (E2 : Z.land (addr + id mod 32) ID_MASK = id mod 32).
  { change ID_MASK with (2 ^ 5 - 1). rewrite land_mask by lia. change (2 ^ 5) with 32. rewrite Z.add_mod, (Z.mod_mod id) by lia.
    replace (addr mod 32) with 0 by (clear - Ha; Z.div_mod_to_equations; lia). rewrite Z.add_0_l. by apply Z.mod_mod. }
  unfold decompose. rewrite E1, E2. f_equal. f_equal. apply Z.bits_inj'. intros i Hi. rewrite Z.shiftr_spec, Z.land_spec, Z.bits_0 by done.
  change COUNT_SHIFT with 5. change COUNT_MASK with (Z.shiftl (2 ^ 7 - 1) 5). rewrite Z.shiftl_spec by lia. destruct (decide (i < 7)) as [Hl|Hl].
  - rewrite <- (lor_low addr (id mod 32) 12) by (lia || exact Ha). rewrite Z.lor_spec.
    replace (Z.testbit addr (i + 5)) with false; [replace (Z.testbit (id mod 32) (i + 5)) with false; [done|]|].
    + symmetry. rewrite Z.mod_pow2_bits_high with (n := 5); [done|lia].
    + symmetry. replace addr with (addr / 2 ^ 12 * 2 ^ 12) by (clear - Ha; Z.div_mod_to_equations; lia). apply Z.mul_pow2_bits_low. lia.
  - replace (Z.testbit (2 ^ 7 - 1) (i + 5 - 5)) with false; [apply andb_false_r|]. symmetry. replace (2 ^ 7 - 1) with (Z.ones 7) by done.
    apply Z.ones_spec_high. lia.
Qed.

(** ** The free blocks *)
Inductive chain (ns : gmap Z Node) : Z -> list (Z * Z) -> Prop :=
| chain_nil : chain ns 0 []
| chain_cons a n nx l : a <> 0 -> ns !! a = Some (mk_node nx n) -> chain ns nx l -> chain ns a ((a, n) :: l).
Definition block_in (a : arena) (b : Z * Z) : Prop := b.1 mod 4096 = 0 /\ 0 < b.2 /\ abase a <= b.1 /\ b.1 + b.2 * 4096 <= top a.
Definition in_block (x : Z) (b : Z * Z) : Prop := b.1 <= x < b.1 + b.2 * 4096.
Definition apart (b c : Z * Z) : Prop := b.1 + b.2 * 4096 <= c.1 \/ c.1 + c.2 * 4096 <= b.1.
Record arena_inv (a : arena) (l : list (Z * Z)) : Prop := mk_arena_inv {
  ai_range : ID_OFFSET <= abase a /\ abase a <= top a /\ top a <= aend a /\ aend a < 2 ^ 64;
  ai_align : abase a mod 4096 = 0 /\ top a mod 4096 = 0 /\ aend a mod 4096 = 0;
  ai_head : exists h id, head a = h + id mod 32 /\ fits 64 h /\ h mod 4096 = 0 /\ chain (nodes a) h l;
  ai_blocks : Forall (block_in a) l;
  ai_apart : ForallOrdPairs apart l;
}.
(** The pages in use: none is free. *)
Definition live_ok (a : arena) (l : list (Z * Z)) (live : Z -> Prop) : Prop :=
  forall x, live x -> x mod 4096 = 0 /\ abase a <= x < top a /\ Forall (fun b => ~ in_block x b) l.

Lemma chain_frame ns p nd h l : chain ns h l -> (forall n, ~ In (p, n) l) -> chain (<[p := nd]> ns) h l.
Proof.
  induction 1 as [|a n nx l Ha Hn Hc IH]; intros Hp; [constructor|]. apply chain_cons with (nx := nx); [done| |apply IH; intros k Hk; apply (Hp k); by right].
  rewrite lookup_insert_ne; [done|]. intros ->. apply (Hp n). by left.
Qed.
(** Another head for blocks of the arena. *)
Lemma arena_inv_head a l l' h id ns : arena_inv a l -> fits 64 h -> h mod 4096 = 0 -> chain ns h l' -> Forall (block_in a) l' -> ForallOrdPairs apart l' ->
  arena_inv (mk_arena (compose h 0 id) (top a) (abase a) (aend a) (count a) ns (wiped a)) l'.
Proof. intros [A1 A2 _ _ _] Hf Hm Hc Hb Ha. split; try done. exists h, id. by rewrite compose_eq. Qed.
Lemma block_bounds a l b : arena_inv a l -> block_in a b -> fits 64 b.1 /\ b.1 <> 0 /\ b.1 + b.2 * 4096 < 2 ^ 64.
Proof. intros [(A1 & A2 & A3 & A4) _ _ _ _] (B1 & B2 & B3 & B4). unfold fits. change ID_OFFSET with 0xffffffc000000000 in A1. lia. Qed.
Lemma deallocate_list_ok a l addr n : arena_inv a l -> block_in a (addr, n) -> Forall (apart (addr, n)) l -> arena_inv (deallocate_list addr n a) ((addr, n) :: l).
Proof.
  intros Hi Hb Hap. pose proof Hi as [_ _ (h & id & Eh & Hf & Hm & Hc) Hbl Hpa]. destruct (block_bounds a l _ Hi Hb) as (Hf1 & Hne & _). cbn in Hf1, Hne.
  unfold deallocate_list. rewrite Eh, decompose_eq by done. apply (arena_inv_head a l); try done; [apply Hb| |by constructor|by constructor].
  apply chain_cons with (nx := h); [done|apply lookup_insert_eq|]. apply chain_frame; [done|]. intros k Hk. rewrite Forall_forall in Hap. apply list_elem_of_In in Hk.
  destruct (Hap _ Hk) as [H1|H1]; cbn in H1; [|rewrite Forall_forall in Hbl; destruct (Hbl _ Hk) as (_ & ? & _); cbn in *; lia]. destruct Hb as (_ & ? & _). cbn in *. lia.
Qed.
Lemma chain_head ns h l a0 l0 : arena_inv a0 l0 -> chain ns h l -> Forall (block_in a0) l -> fits 64 h /\ h mod 4096 = 0.
Proof. intros Hi Hc Hb. destruct Hc as [|a n nx l Ha Hn Hc]; [done|]. inversion Hb as [|? ? Hb1 _]; subst. split; [by apply (block_bounds a0 l0 (a, n))|apply Hb1]. Qed.
(** The first free block, or what is left of it. *)
Definition cut (n : Z) (b : Z * Z) (l : list (Z * Z)) : list (Z * Z) := if b.2 =? n then l else (b.1 + n * 4096, b.2 - n) :: l.
Lemma allocate_list_ok a l n : arena_inv a l -> 0 < n ->
  (allocate_list n a = (None, a)) \/
  exists p k l' a', l = (p, k) :: l' /\ n <= k /\ allocate_list n a = (Some p, a') /\ arena_inv a' (cut n (p, k) l') /\ abase a' = abase a /\ top a' = top a /\ aend a' = aend a.
Proof.
  intros Hi Hn. pose proof Hi as [_ _ (h & id & Eh & Hf & Hm & Hc) Hbl Hpa]. unfold allocate_list. rewrite Eh, decompose_eq by done.
  destruct Hc as [|p k nx l Hp Hnd Hc]; [by left|]. unfold as_non_zero. rewrite (proj2 (Z.eqb_neq p 0)) by done. rewrite Hnd. cbn [next ncount]. unfold checked_sub.
  destruct (Z.leb_spec n k) as [Hnk|Hnk]; [|by left]. right. exists p, k, l. inversion Hbl as [|? ? Hb Hbl']; subst. inversion Hpa as [|? ? Hap Hpa']; subst.
  destruct (chain_head _ _ _ a _ Hi Hc Hbl') as [Hfn Hmn].
  pose proof (arena_inv_head a _ l nx (wadd 16 (id mod 32) 1) (nodes a) Hi Hfn Hmn Hc Hbl' Hpa') as Hi1. set (a1 := mk_arena _ _ _ _ _ _ _) in Hi1. unfold cut. cbn [fst snd].
  destruct (Z.eqb_spec (k - n) 0) as [Hz|Hz].
  - exists a1. rewrite (proj2 (Z.eqb_eq k n)) by lia. done.
  - rewrite (proj2 (Z.eqb_neq k n)) by lia. destruct (block_bounds a _ _ Hi Hb) as (Hf1 & _ & Hlt). cbn in Hf1, Hlt. unfold fits in Hf1.
    assert (En : addr_add p (wmul 64 n PAGE_SIZE) = p + n * 4096) by (unfold addr_add, wmul, wadd; change PAGE_SIZE with 4096; unfold wrap; rewrite !Z.mod_small by (try rewrite Z.mod_small; lia); done).
    rewrite En. eexists. split_and!; [done|done|done| |done|done|done]. apply deallocate_list_ok; [done| |].
    + destruct Hb as (B1 & B2 & B3 & B4). cbn in *. split_and!; cbn; try lia. clear - B1. Z.div_mod_to_equations. lia.
    + eapply Forall_impl; [exact Hap|]. intros c [Hc1|Hc1]; [left|right]; cbn in *; lia.
Qed.
Lemma allocate_fresh_ok a l n : arena_inv a l -> 0 < n <= 2 ^ 51 ->
  (allocate_fresh n a = (None, a)) \/
  (allocate_fresh n a = (Some (top a), set_top (top a + n * 4096) a) /\ top a + n * 4096 <= aend a).
Proof.
  intros [(A1 & A2 & A3 & A4) (L1 & L2 & L3) _ _ _] Hn. unfold allocate_fresh. change ID_OFFSET with 0xffffffc000000000 in A1. change PAGE_SIZE with 4096.
  unfold wmul, wadd. rewrite (wrap_small _ ((n - 1) * 4096)), (wrap_small _ (n * 4096)) by (unfold fits; lia).
  destruct (decide (top a + (n - 1) * 4096 < 2 ^ 64)) as [Hs|Hs].
  - rewrite (wrap_small _ (top a + (n - 1) * 4096)) by (unfold fits; lia). destruct (_ && _) eqn:E; [right|by left].
    assert (Hle : top a + n * 4096 <= aend a) by (clear - E L2 L3; Z.div_mod_to_equations; lia). rewrite wrap_small by (unfold fits; lia). done.
  - left. assert (Ew : wrap 64 (top a + (n - 1) * 4096) = top a + (n - 1) * 4096 - 2 ^ 64) by (unfold wrap; Z.div_mod_to_equations; lia). rewrite Ew.
    rewrite (proj2 (Z.leb_gt _ _)) by lia. done.
Qed.

(** ** The contract *)
Definition pages_in (p n x : Z) : Prop := x mod 4096 = 0 /\ p <= x < p + n * 4096.
Definition serves (a : arena) (live : Z -> Prop) : Prop := exists l, arena_inv a l /\ live_ok a l live.
Lemma live_ok_less a l a' l' live live' : live_ok a l live -> abase a' = abase a -> top a <= top a' -> (forall x, live' x -> live x) ->
  (forall x b, In b l' -> in_block x b -> exists c, In c l /\ in_block x c) -> live_ok a' l' live'.
Proof.
  intros Hl Eb Ht Hlv Hbl x Hx. destruct (Hl x (Hlv x Hx)) as (H1 & H2 & H3). split; [done|]. split; [lia|]. apply List.Forall_forall. intros b Hb Hin.
  destruct (Hbl x b Hb Hin) as (c & Hc & Hxc). rewrite List.Forall_forall in H3. by apply (H3 c).
Qed.
Lemma cut_in n p k l x b : 0 < n -> In b (cut n (p, k) l) -> in_block x b -> exists c, In c ((p, k) :: l) /\ in_block x c.
Proof.
  intros Hn. unfold cut, in_block. cbn [fst snd]. destruct (Z.eqb_spec k n) as [->|Hne]; [intros Hb Hx; exists b; split; [by right|done]|].
  intros [<-|Hb] Hx; [exists (p, k); cbn in *; split; [by left|lia]|]. exists b. split; [by right|done].
Qed.
Lemma cut_apart n p k l b : 0 < n <= k -> ForallOrdPairs apart ((p, k) :: l) -> In b (cut n (p, k) l) -> apart (p, n) b.
Proof.
  intros Hn Hf Hb. inversion Hf as [|? ? Hap _]; subst. rewrite List.Forall_forall in Hap. unfold cut in Hb. cbn [fst snd] in Hb. destruct (Z.eqb_spec k n) as [->|Hne]; [by apply Hap|].
  destruct Hb as [<-|Hb]; [left; cbn; lia|]. specialize (Hap b Hb). unfold apart in *. cbn in *. lia.
Qed.
(** A block that is in use now, apart from the free ones. *)
Lemma live_add a l live p n : live_ok a l live -> (forall x, pages_in p n x -> abase a <= x < top a) -> (forall b, In b l -> apart (p, n) b) -> live_ok a l (fun x => live x \/ pages_in p n x).
Proof.
  intros Hl Hr Hap x [Hx|Hx]; [by apply Hl|]. split; [apply Hx|]. split; [by apply Hr|]. apply List.Forall_forall. intros b Hb Hin. specialize (Hap b Hb). unfold apart, in_block, pages_in in *. cbn in *. lia.
Qed.
Lemma serves_count a live c z : serves a live -> serves (mk_arena (head a) (top a) (abase a) (aend a) c (nodes a) z) live.
Proof. intros (l & [A1 A2 A3 A4 A5] & Hl). exists l. split; [by split|done]. Qed.
Definition handed_out (a : arena) (live : Z -> Prop) (n : Z) (p : Z) (a' : arena) : Prop :=
  p mod 4096 = 0 /\ abase a <= p /\ p + n * 4096 <= aend a /\ (forall x, pages_in p n x -> ~ live x) /\ serves a' (fun x => live x \/ pages_in p n x).
Lemma allocate_ok a live n : serves a live -> 0 < n <= 2 ^ 51 ->
  match allocate n a with (Some p, a') => handed_out a live n p a' | (None, a') => a' = a end.
Proof.
  intros (l & Hi & Hl) Hn. unfold allocate. destruct (allocate_list_ok a l n Hi ltac:(lia)) as [E|(p & k & l' & a' & -> & Hk & E & Hi' & Eb & Et & Ee)]; rewrite E.
  - destruct (allocate_fresh_ok a l n Hi Hn) as [E2|[E2 Hle]]; rewrite E2; [done|]. pose proof Hi as [(A1 & A2 & A3 & A4) (L1 & L2 & L3) A6 A7 A8]. unfold handed_out. split_and!; [done|lia|lia| |].
    + intros x [Hx1 Hx2] Hx. destruct (Hl x Hx) as (_ & ? & _). lia.
    + apply (serves_count (set_top (top a + n * 4096) a)). exists l. split; [split; cbn; try done; [split_and!; try done; lia|split_and!; try done; clear - L2; Z.div_mod_to_equations; lia|]|].
      * eapply Forall_impl; [exact A7|]. intros b (B1 & B2 & B3 & B4). split_and!; cbn; try done. lia.
      * apply live_add; [eapply live_ok_less; [exact Hl|done|cbn; lia|done|by eauto]|intros x [_ ?]; cbn; lia|].
        intros b Hb. rewrite List.Forall_forall in A7. destruct (A7 b Hb) as (_ & _ & _ & ?). right. cbn. lia.
  - pose proof Hi as [(A1 & A2 & A3 & A4) _ _ A7 A8]. inversion A7 as [|? ? (B1 & B2 & B3 & B4) _]; subst. cbn in B1, B2, B3, B4. unfold handed_out. split_and!; [done|done|lia| |].
    + intros x [Hx1 Hx2] Hx. destruct (Hl x Hx) as (_ & _ & Hf). inversion Hf as [|? ? Hno _]; subst. apply Hno. unfold in_block. cbn. lia.
    + apply serves_count. exists (cut n (p, k) l'). split; [done|]. apply live_add.
      * eapply live_ok_less; [exact Hl|done|lia|done|]. intros x b Hb Hx. eapply cut_in; [|exact Hb|exact Hx]. lia.
      * intros x [_ ?]. rewrite Eb, Et. lia.
      * intros b Hb. eapply cut_apart; [|exact A8|exact Hb]. lia.
Qed.
Lemma deallocate_ok a live p n : serves a live -> 0 < n -> p mod 4096 = 0 -> (forall x, pages_in p n x -> live x) -> serves (deallocate p n a) (fun x => live x /\ ~ pages_in p n x).
Proof.
  intros (l & Hi & Hl) Hn Hp Hlive. unfold deallocate. apply serves_count. pose proof Hi as [(A1 & A2 & A3 & A4) (L1 & L2 & L3) _ A7 A8].
  assert (Hfirst : pages_in p n p) by (split; [done|lia]). assert (Hlast : pages_in p n (p + (n - 1) * 4096)) by (split; [clear - Hp; Z.div_mod_to_equations; lia|lia]).
  destruct (Hl _ (Hlive _ Hfirst)) as (_ & Hf & _). destruct (Hl _ (Hlive _ Hlast)) as (_ & Hla & _).
  assert (Hb : block_in a (p, n)) by (split_and!; cbn; try done; [lia|clear - Hla L2 Hp; Z.div_mod_to_equations; lia]).
  assert (Hap : Forall (apart (p, n)) l).
  { apply List.Forall_forall. intros b Hin. unfold apart. cbn. rewrite List.Forall_forall in A7. destruct (A7 b Hin) as (B1 & B2 & _).
    destruct (decide (p + n * 4096 <= b.1)); [by left|]. destruct (decide (b.1 + b.2 * 4096 <= p)); [by right|]. exfalso.
    assert (Hx : pages_in p n (Z.max p b.1)) by (split; [destruct (Z.max_spec p b.1) as [[_ ->]|[_ ->]]; done|lia]).
    destruct (Hl _ (Hlive _ Hx)) as (_ & _ & Hno). rewrite List.Forall_forall in Hno. apply (Hno b Hin). unfold in_block. lia. }
  exists ((p, n) :: l). split; [by apply deallocate_list_ok|]. intros x [Hx Hnx]. destruct (Hl x Hx) as (H1 & H2 & H3).
  unfold deallocate_list. destruct (decompose (head a)) as [[? ?] ?]. cbn. split_and!; [done|lia|lia|]. constructor; [|done]. unfold in_block, pages_in in *. cbn. intros ?. apply Hnx. done.
Qed.
#[export] Program Instance arena_spec_inst : PageAllocSpec arena := { pa_inv a live := serves a (fun x => x ∈ live) }.
Next Obligation.
  intros a live p a' Hs E. unfold pa_alloc, arena_alloc in E. pose proof (allocate_ok a _ 1 Hs ltac:(lia)) as Ha. destruct (allocate 1 a) as [[q|] a1]; [|done]. injection E as <- <-.
  destruct Ha as (H1 & H2 & H3 & H4 & H5). destruct Hs as (l & [(A1 & A2 & A3 & A4) _ _ _ _] & _). split_and!.
  - apply H4. split; [done|lia].
  - unfold frame_ok. change (2 ^ 12) with 4096. lia.
  - destruct H5 as (l' & Hi' & Hl'). exists l'. split; [done|]. intros x [->%elem_of_singleton|Hx]%elem_of_union; apply Hl'; [right; split; [done|lia]|by left].
Qed.
Next Obligation.
  intros a live p Hs Hp. unfold pa_dealloc, arena_alloc. pose proof Hs as (l & _ & Hl). destruct (Hl p Hp) as (Hp4 & _).
  destruct (deallocate_ok a _ p 1 Hs ltac:(lia) Hp4) as (l' & Hi' & Hl').
  - intros x [Hx1 Hx2]. assert (x = p) as -> by (clear - Hx1 Hx2 Hp4; Z.div_mod_to_equations; lia). done.
  - exists l'. split; [done|]. intros x [Hx Hne]%elem_of_difference. apply Hl'. split; [done|]. intros [Hx1 Hx2]. apply Hne. assert (x = p) as -> by (clear - Hx1 Hx2 Hp4; Z.div_mod_to_equations; lia).
    set_solver.
Qed.

(** ** Users of the arena *)
Inductive use := Take (n : Z) | Give (b : Z * Z).
(** The arena and the blocks in use.  The count is a [NonZeroUsize], and a block is given
    back as it was taken. *)
Definition use_step (u : use) (s : arena * gset (Z * Z)) : option (arena * gset (Z * Z)) :=
  match u with
  | Take n => if (0 <? n) && (n <? 2 ^ 64) then match allocate n s.1 with (Some p, a) => Some (a, {[(p, n)]} ∪ s.2) | (None, a) => Some (a, s.2) end else None
  | Give b => if decide (b ∈ s.2) then Some (deallocate b.1 b.2 s.1, s.2 ∖ {[b]}) else None
  end.
Fixpoint use_all (l : list use) (s : arena * gset (Z * Z)) : option (arena * gset (Z * Z)) :=
  match l with [] => Some s | u :: l => s ← use_step u s; use_all l s end.
Record used (lo hi : Z) (s : arena * gset (Z * Z)) : Prop := mk_used {
  us_serves : serves s.1 (fun x => exists b, b ∈ s.2 /\ pages_in b.1 b.2 x);
  us_range : abase s.1 = lo /\ aend s.1 = hi;
  us_block b : b ∈ s.2 -> b.1 mod 4096 = 0 /\ 0 < b.2 /\ lo <= b.1 /\ b.1 + b.2 * 4096 <= hi;
  us_apart b c : b ∈ s.2 -> c ∈ s.2 -> b <> c -> apart b c;
}.
Lemma serves_iff a (P Q : Z -> Prop) : (forall x, Q x -> P x) -> serves a P -> serves a Q.
Proof. intros HPQ (l & Hi & Hl). exists l. split; [done|]. intros x Hx. by apply Hl, HPQ. Qed.
Lemma apart_pages p n q m : p mod 4096 = 0 -> q mod 4096 = 0 -> 0 < n -> 0 < m -> (forall x, pages_in p n x -> ~ pages_in q m x) -> apart (p, n) (q, m).
Proof.
  intros Hp Hq Hn Hm Hno. unfold apart. cbn. destruct (decide (p + n * 4096 <= q)); [by left|]. destruct (decide (q + m * 4096 <= p)); [by right|]. exfalso.
  assert (Hx : Z.max p q mod 4096 = 0) by (destruct (Z.max_spec p q) as [[_ ->]|[_ ->]]; done). apply (Hno (Z.max p q)); split; (done || lia).
Qed.
Lemma deallocate_ends p n a : abase (deallocate_list p n a) = abase a /\ aend (deallocate_list p n a) = aend a.
Proof. unfold deallocate_list. by destruct (decompose _) as [[? ?] ?]. Qed.
Lemma allocate_list_ends n a : abase (allocate_list n a).2 = abase a /\ aend (allocate_list n a).2 = aend a.
Proof.
  unfold allocate_list. destruct (decompose _) as [[addr ?] id]. destruct (as_non_zero addr) as [p|]; [|done]. destruct (nodes a !! p) as [nd|]; [|done].
  destruct (checked_sub _ _) as [rest|]; [|done]. cbn [snd]. destruct (rest =? 0); [done|]. apply (deallocate_ends _ _ (set_head _ a)).
Qed.
Lemma allocate_ends n a : abase (allocate n a).2 = abase a /\ aend (allocate n a).2 = aend a.
Proof.
  unfold allocate. pose proof (allocate_list_ends n a) as [E1 E2]. destruct (allocate_list n a) as [[p|] a1]; cbn in *; [done|]. unfold allocate_fresh. by destruct (_ && _).
Qed.
(** A block whose size is well inside the 64 bits of its count of bytes. *)
Definition sized (u : use) : Prop := match u with Take n => n <= 2 ^ 51 | Give _ => True end.
Lemma use_step_ok lo hi u s s' : used lo hi s -> sized u -> use_step u s = Some s' -> used lo hi s'.
Proof.
  intros [Hs [<- <-] Hb Ha] Hz E. destruct u as [n|b]; cbn in E, Hz.
  - destruct (_ && _) eqn:En; [|done]. pose proof (allocate_ok s.1 _ n Hs ltac:(lia)) as Hal. destruct (allocate_ends n s.1) as [E1 E2].
    destruct (allocate n s.1) as [[p|] a']; injection E as <-; cbn in E1, E2; [|by subst a'; destruct s]. destruct Hal as (H1 & H2 & H3 & H4 & H5). split; cbn; try done.
    + eapply serves_iff; [|exact H5]. cbn. intros x (b & [->%elem_of_singleton|Hin]%elem_of_union & Hx); [by right|left; by exists b].
    + intros b [->%elem_of_singleton|Hin]%elem_of_union; [cbn; lia|by apply Hb].
    + assert (Hnew : forall c, c ∈ s.2 -> apart (p, n) c).
      { intros [q m] Hc. destruct (Hb _ Hc) as (C1 & C2 & _). apply apart_pages; try done; [lia|]. intros x Hx Hx'. apply (H4 x Hx). by exists (q, m). }
      intros b c [->%elem_of_singleton|Hb']%elem_of_union [->%elem_of_singleton|Hc']%elem_of_union Hne; [done|by apply Hnew|destruct (Hnew b Hb'); [by right|by left]|by apply Ha].
  - case_decide as Hin; [|done]. injection E as <-. destruct (Hb b Hin) as (B1 & B2 & B3 & B4). split; cbn.
    + eapply serves_iff; [|apply (deallocate_ok s.1 _ b.1 b.2 Hs B2 B1)]; [|intros x Hx; by exists b].
      cbn. intros x (c & [Hc Hne]%elem_of_difference & Hx). split; [by exists c|]. intros Hx'. rewrite elem_of_singleton in Hne. specialize (Ha b c Hin Hc ltac:(congruence)).
      unfold apart, pages_in in *. lia.
    + apply (deallocate_ends b.1 b.2 s.1).
    + intros c [Hc _]%elem_of_difference. by apply Hb.
    + intros c d [Hc _]%elem_of_difference [Hd _]%elem_of_difference. by apply Ha.
Qed.
(** C27: from a new arena on, whatever blocks of at most 2^51 pages are taken and given
    back one after the other, the blocks in use are blocks of whole pages of the memory of
    the arena and no two of them overlap.  The size of a larger block can wrap, and the
    block is then not what was asked for ([allocate_wraps]). *)
Theorem arena_blocks lo hi l a B : ID_OFFSET <= lo <= hi -> hi < 2 ^ 64 -> lo mod 4096 = 0 -> hi mod 4096 = 0 ->
  Forall sized l -> use_all l (new lo hi, ∅) = Some (a, B) ->
  forall b, b ∈ B -> b.1 mod 4096 = 0 /\ 0 < b.2 /\ lo <= b.1 /\ b.1 + b.2 * 4096 <= hi /\ forall c, c ∈ B -> b <> c -> apart b c.
Proof.
  intros Hlo Hhi Hl4 Hh4 Hz E. assert (Hu : used lo hi (new lo hi, ∅)).
  { split; cbn; try set_solver. exists []. split; [|intros x (b & Hb & _); set_solver]. split; cbn; try done; try lia; try constructor. exists 0, 0. split_and!; try done. constructor. }
  revert E Hu. generalize (new lo hi, ∅ : gset (Z * Z)) as s. induction Hz as [|u l Hz Hzs IH]; intros s E Hu; cbn in E.
  - injection E as ->. destruct Hu as [_ _ H3 H4]. cbn in *. intros b Hb. destruct (H3 b Hb) as (? & ? & ? & ?). split_and!; try done. intros c Hc Hne. by apply H4.
  - destruct (use_step u s) as [s'|] eqn:Es; [|done]. apply (IH s' E). by eapply use_step_ok.
Qed.
Definition M0 : Z := 0xffffffc080000000.
Lemma arena_blocks_witness : exists a, use_all [Take 2; Take 1; Give (M0, 2); Take 1] (new M0 (M0 + 0x10000), ∅) = Some (a, {[(M0, 1)]} ∪ ({[(M0 + 0x2000, 1)]} ∪ ({[(M0, 2)]} ∪ ∅)) ∖ {[(M0, 2)]}) /\
  apart (M0, 1) (M0 + 0x2000, 1).
Proof.
  eexists. split; [vm_compute; reflexivity|].
  destruct (arena_blocks M0 (M0 + 0x10000) [Take 2; Take 1; Give (M0, 2); Take 1] _ _ ltac:(done) ltac:(done) ltac:(done) ltac:(done) ltac:(repeat constructor; done) ltac:(vm_compute; reflexivity) (M0, 1)) as (_ & _ & _ & _ & Hap).
  - set_solver.
  - apply Hap; [|done]. vm_compute. set_solver.
Defined.

(** ** What does not hold *)
(** A count of pages whose size is not a [usize] is granted: one page is taken. *)
Example allocate_wraps : (fun x => (fst x, top (snd x))) (allocate (2 ^ 52 + 1) (new M0 (M0 + 0x10000))) = (Some M0, M0 + 4096).
Proof. reflexivity. Qed.
(** Of a block, only the first page is cleared. *)
Example allocate_clears_one : wiped (allocate 4 (new M0 (M0 + 0x10000))).2 = [M0].
Proof. reflexivity. Qed.
(** Three free pages, X on top.  Hart 0 has read the head, with X, and the link to Y; hart 1
    takes all three and gives X back, takes it and gives it back 14 times.  The tag is
    what it was, the exchange of hart 0 succeeds and makes Y the head, which hart 1 has. *)
Definition X : Z := M0.
Definition Y : Z := M0 + 4096.
Definition start : sys := mk_sys (deallocate X 1 (deallocate Y 1 (deallocate (M0 + 8192) 1 (allocate 3 (new M0 (M0 + 0x10000))).2))) (fun _ => Out).
Definition pop (t : nat) : list call := [Alloc t; Go t; Go t; Go t].
Definition push (t : nat) (p : Z) : list call := [Free t p; Go t; Go t; Go t].
Definition others : list call := pop 1 ++ pop 2 ++ pop 3 ++ push 1 X ++ mjoin (replicate 14 (pop 1 ++ push 1 X)).
Example twice_given : (fun s => (thr s 2%nat, thr s 4%nat)) <$> run ([Alloc 0; Go 0; Go 0] ++ others ++ [Go 0%nat] ++ pop 4) start = Some (Got (Some Y), Got (Some Y)).
Proof. vm_compute. reflexivity. Qed.
