(* ===== verification/Fd.v ===== *)
(** * kernel: the file descriptors of a task

    mizu/kernel/src/task/fd.rs and the system calls of task/fd/syscall.rs that work on
    the table.  The open files are an abstract type: what is one as a byte stream and
    as a socket, opening a directory, and the path type are parameters.  The tables and
    the working directories are counted references, which forks share: they are in the
    store [hp].  [done] are the flushes and the socket closings, in order. *)

From S2P Require Import Prelude Ksc Umifs.

Import Errno.

Module Fd.
Definition MAX_FDS : Z := 65536.
Definition CWD : Z := -100.
Definition LIMIT_DEFAULT : Z := 256.

Section Fd.
Context {E P D : Type} (to_io : E -> bool) (is_socket : E -> bool) (open_dir : P -> res Error E).
Inductive SavedNextDirent := Start | Next (d : D) | End_.
Definition take (s : SavedNextDirent) : SavedNextDirent * SavedNextDirent := (s, End_).
Record FdInfo := mk_fi { entry : E; close_on_exec : bool; nonblock : bool; perm : Z; saved_next_dirent : SavedNextDirent }.

(** ** IdAlloc; the numbers are [i32] *)
Record IdAlloc := mk_ids { reuse : list Z; next : Z }.
Definition ids_alloc (a : IdAlloc) : Z * IdAlloc :=
  match reuse a with
  | i :: r => (i, mk_ids r (next a))
  | [] => (next a, mk_ids [] (to_signed 32 (wrap 32 (next a + 1))))
  end.
Definition ids_dealloc (i : Z) (a : IdAlloc) : IdAlloc := mk_ids (i :: reuse a) (next a).

Record Fds := mk_fds { map : gmap Z FdInfo; ids : IdAlloc; limit : Z }.
Record Files := mk_files { fds : nat; cwd : nat }.
Inductive effect := Flush (e : E) | CloseSocket (e : E).
Record store := mk_store { tables : gmap nat Fds; cwds : gmap nat P; done : list effect }.
Notation M := (PT store Error).

Definition get_fds (f : Files) : M Fds := fun h => match tables h !! fds f with Some t => Some (Ok t, h) | None => Some (Panic, h) end.
Definition put_fds (f : Files) (t : Fds) : M unit := fun h => Some (Ok tt, mk_store (<[fds f := t]> (tables h)) (cwds h) (done h)).
Definition get_cwd (f : Files) : M P := fun h => match cwds h !! cwd f with Some p => Some (Ok p, h) | None => Some (Panic, h) end.
Definition effects (l : list effect) : M unit := fun h => Some (Ok tt, mk_store (tables h) (cwds h) (done h ++ l)).
Definition flush (e : E) : list effect := if to_io e then [Flush e] else [].

(** ** Files *)
Definition Files_new (stdio : list E) (dir : P) : M Files := fun h =>
  let fd_info (i : nat) e := (Z.of_nat i, mk_fi e false false (if (i <? 2)%nat then Ufs.SELF_W else Ufs.SELF_R) Start) in
  let t := mk_fds (list_to_map (imap fd_info stdio)) (mk_ids [] 3) LIMIT_DEFAULT in
  let k := fresh (dom (tables h)) in
  let c := fresh (dom (cwds h)) in
  Some (Ok (mk_files k c), mk_store (<[k := t]> (tables h)) (<[c := dir]> (cwds h)) (done h)).
Definition set_limit (f : Files) (max : Z) : M Z :=
  t ← get_fds f; _ ← put_fds f (mk_fds (map t) (ids t) (Z.min max MAX_FDS)); mret (limit t).
Definition get_limit (f : Files) : M Z := t ← get_fds f; mret (limit t).
Definition reopen (f : Files) (fd : Z) (fi : FdInfo) : M unit :=
  t ← get_fds f;
  _ ← put_fds f (mk_fds (<[fd := fi]> (map t)) (ids t) (limit t));
  match map t !! fd with Some old => effects (flush (entry old)) | None => mret tt end.
Definition Files_chdir (f : Files) (p : P) : M unit := fun h => Some (Ok tt, mk_store (tables h) (<[cwd f := p]> (cwds h)) (done h)).
(** [insert_unique_unchecked] of a key that is in the map: unspecified. *)
Definition insert_unique_unchecked (fd : Z) (fi : FdInfo) (m : gmap Z FdInfo) : option (gmap Z FdInfo) :=
  match m !! fd with None => Some (<[fd := fi]> m) | Some _ => None end.
Definition open (f : Files) (fi : FdInfo) : M Z :=
  t ← get_fds f;
  if limit t <=? Z.of_nat (size (map t)) then pt_throw EMFILE
  else
    let '(fd, a) := ids_alloc (ids t) in
    match insert_unique_unchecked fd fi (map t) with
    | Some m => _ ← put_fds f (mk_fds m a (limit t)); mret fd
    | None => pt_none
    end.
Definition get_fi (f : Files) (fd : Z) : M FdInfo :=
  if fd =? CWD then
    p ← get_cwd f; e ← pt_res (open_dir p); mret (mk_fi e false false Ufs.SELF_R Start)
  else t ← get_fds f; match map t !! fd with Some fi => mret fi | None => pt_throw EBADF end.
Definition set_fi (f : Files) (fd : Z) (g : FdInfo -> FdInfo) : M unit :=
  if fd =? CWD then mret tt
  else
    t ← get_fds f;
    match map t !! fd with Some fi => put_fds f (mk_fds (<[fd := g fi]> (map t)) (ids t) (limit t)) | None => pt_throw EBADF end.
Definition with_cloexec (b : bool) (fi : FdInfo) : FdInfo := mk_fi (entry fi) b (nonblock fi) (perm fi) (saved_next_dirent fi).
Definition with_nonblock (b : bool) (fi : FdInfo) : FdInfo := mk_fi (entry fi) (close_on_exec fi) b (perm fi) (saved_next_dirent fi).
Definition Files_dup (f : Files) (fd : Z) (cloexec : option bool) : M Z :=
  fi ← get_fi f fd; open f (with_cloexec (default (close_on_exec fi) cloexec) fi).
Definition get (f : Files) (fd : Z) : M E := fi ← get_fi f fd; mret (entry fi).
(** [sole e]: the count of the socket was one. *)
Definition close_socket (sole : E -> bool) (e : E) : list effect := if is_socket e && sole e then [CloseSocket e] else [].
Definition Files_close (f : Files) (sole : E -> bool) (fd : Z) : M unit :=
  t ← get_fds f;
  match map t !! fd with
  | Some fi => _ ← put_fds f (mk_fds (delete fd (map t)) (ids_dealloc fd (ids t)) (limit t)); effects (close_socket sole (entry fi))
  | None => pt_throw EBADF
  end.
Definition flush_all (f : Files) : M unit :=
  t ← get_fds f; effects (mjoin ((fun x => flush (entry x.2)) <$> map_to_list (map t))).
Definition deep_fork (f : Files) (share_cwd share_fd : bool) : M Files := fun h =>
  match tables h !! fds f, cwds h !! cwd f with
  | Some t, Some p =>
      let c := if share_cwd then cwd f else fresh (dom (cwds h)) in
      let k := if share_fd then fds f else fresh (dom (tables h)) in
      let cs := if share_cwd then cwds h else <[c := p]> (cwds h) in
      let ts := if share_fd then tables h else <[k := mk_fds (map t) (ids t) LIMIT_DEFAULT]> (tables h) in
      Some (Ok (mk_files k c), mk_store ts cs (done h))
  | _, _ => Some (Panic, h)
  end.
(** [close_on_exec]: the files that go, in the order of the map. *)
Definition exec_close (f : Files) (sole : E -> bool) : M unit :=
  t ← get_fds f;
  let gone := List.filter (fun x => close_on_exec x.2) (map_to_list (map t)) in
  let a := fold_left (fun a x => ids_dealloc x.1 a) gone (ids t) in
  let m := filter (fun x => close_on_exec x.2 = false) (map t) in
  _ ← put_fds f (mk_fds m a (limit t));
  effects (mjoin ((fun x => flush (entry x.2) ++ close_socket sole (entry x.2)) <$> gone)).

(** ** syscall.rs *)
Definition dup (f : Files) (fd : Z) : M Z := Files_dup f fd None.
Definition dup3 (f : Files) (old new flags : Z) : M Z :=
  fi ← get_fi f old; _ ← reopen f new (with_cloexec (negb (flags =? 0)) fi); mret new.
Definition fcntl (f : Files) (fd cmd arg : Z) : M Z :=
  if cmd =? 0 then Files_dup f fd None
  else if cmd =? 1030 then Files_dup f fd (Some (negb (arg =? 0)))
  else if cmd =? 1 then fi ← get_fi f fd; mret (if close_on_exec fi then 1 else 0)
  else if cmd =? 2 then _ ← set_fi f fd (with_cloexec (negb (arg =? 0))); mret 0
  else if cmd =? 3 then fi ← get_fi f fd; mret (if nonblock fi then Ufs.NONBLOCK else 0)
  else if cmd =? 4 then _ ← set_fi f fd (with_nonblock (negb (arg =? 0))); mret 0
  else pt_throw EINVAL.
Definition close (f : Files) (sole : E -> bool) (fd : Z) : M unit := Files_close f sole fd.
(** [tx] and [rx] are the ends of a new pipe, [put] writes the numbers to the program. *)
Definition pipe_inner (f : Files) (tx rx : E) (put : Z -> Z -> res Error unit) : M unit :=
  t ← open f (mk_fi tx false false Ufs.SELF_W Start);
  r ← open f (mk_fi rx false false Ufs.SELF_R Start);
  pt_res (put r t).
(** [join] is [PathBuf::join]; the path has been read from the program. *)
Definition chdir (f : Files) (join : P -> P -> P) (path : P) (root : bool) : M unit :=
  if root then _ ← pt_res (open_dir path); Files_chdir f path
  else c ← get_cwd f; let p := join c path in _ ← pt_res (open_dir p); Files_chdir f p.
End Fd.
End Fd.

(** * kernel: a descriptor is given to one file *)
Import Errno Fd.

Section FdSpec.
Context {E P D : Type} (to_io : E -> bool) (is_socket : E -> bool) (open_dir : P -> res Error E).
Notation Fds := (Fds (E := E) (D := D)).
Notation FdInfo := (FdInfo (E := E) (D := D)).
Notation store := (store (E := E) (P := P) (D := D)).
Implicit Types (t : Fds) (h : store) (fi : FdInfo).

(** The numbers below [next] are in use or waiting, none is both. *)
Record fds_ok t : Prop := mk_fds_ok {
  fo_all i : (i ∈ dom (map t) \/ i ∈ reuse (ids t)) <-> 0 <= i < next (ids t);
  fo_once i : i ∈ reuse (ids t) -> i ∉ dom (map t);
  fo_nodup : NoDup (reuse (ids t));
  fo_next : 0 <= next (ids t) <= MAX_FDS;
  fo_limit : limit t <= MAX_FDS;
}.
Lemma dom_size (m : gmap Z FdInfo) n : 0 <= n -> (forall i, i ∈ dom m <-> 0 <= i < n) -> Z.of_nat (size m) = n.
Proof.
  intros Hn Hd. assert (Hs : dom m ≡ list_to_set (C := gset Z) (seqZ 0 n)) by (intros i; rewrite Hd, elem_of_list_to_set, elem_of_seqZ; lia).
  rewrite <- (size_dom (D := gset Z)), Hs. rewrite size_list_to_set by apply NoDup_seqZ. rewrite length_seqZ. lia.
Qed.
(** A new number. *)
Lemma ids_alloc_ok t fd a fi : fds_ok t -> Z.of_nat (size (map t)) < limit t -> ids_alloc (ids t) = (fd, a) ->
  map t !! fd = None /\ 0 <= fd < MAX_FDS /\ fds_ok (mk_fds (<[fd := fi]> (map t)) a (limit t)).
Proof.
  intros [O1 O2 O3 O4 O5] Hl E0. unfold ids_alloc in E0. destruct (reuse (ids t)) as [|i r] eqn:Er.
  - injection E0 as <- <-. assert (Hs : Z.of_nat (size (map t)) = next (ids t)).
    { apply dom_size; [lia|]. intros i. rewrite <- O1. split; [by left|]. intros [?|Hi]; [done|]. by apply elem_of_nil in Hi. }
    assert (Hn : next (ids t) ∉ dom (map t)) by (intros Hn; assert (0 <= next (ids t) < next (ids t)) by (apply O1; by left); lia).
    assert (Hw : to_signed 32 (wrap 32 (next (ids t) + 1)) = next (ids t) + 1).
    { rewrite wrap_small by (unfold fits, MAX_FDS in *; lia). unfold to_signed. destruct (_ <? _) eqn:Eq; [done|]. unfold MAX_FDS in *. change (2 ^ (32 - 1)) with 2147483648 in Eq. lia. }
    split; [by apply not_elem_of_dom|]. split; [lia|]. split; cbn; rewrite ?Hw.
    + intros i. rewrite dom_insert_L, elem_of_union, elem_of_singleton. specialize (O1 i). split.
      * intros [[->|Hi]|Hi]; [lia| |by apply elem_of_nil in Hi]. assert (0 <= i < next (ids t)) by (apply O1; by left). lia.
      * intros Hi. left. destruct (decide (i = next (ids t))); [by left|right]. destruct (proj2 O1 ltac:(lia)) as [?|Hi']; [done|by apply elem_of_nil in Hi'].
    + intros i Hi. by apply elem_of_nil in Hi.
    + constructor.
    + lia.
    + done.
  - injection E0 as <- <-. assert (Hi : i ∉ dom (map t)) by (apply O2; by left). assert (0 <= i < next (ids t)) by (apply O1; right; by left).
    apply NoDup_cons in O3 as [Hir O3]. split; [by apply not_elem_of_dom|]. split; [lia|]. split; cbn; [|intros j Hj|done|done|done].
    + intros j. rewrite dom_insert_L, elem_of_union, elem_of_singleton, <- O1, elem_of_cons. tauto.
    + rewrite dom_insert_L, elem_of_union, elem_of_singleton. intros [->|Hj']; [done|]. apply (O2 j); [by right|done].
Qed.
(** A number that is given back. *)
Lemma ids_dealloc_ok t fd l : fds_ok t -> fd ∈ dom (map t) -> l <= MAX_FDS -> fds_ok (mk_fds (delete fd (map t)) (ids_dealloc fd (ids t)) l).
Proof.
  intros [O1 O2 O3 O4 O5] Hin Hl. split; cbn; [| | |done|done].
  - intros i. rewrite dom_delete_L, elem_of_difference, elem_of_singleton, <- O1, elem_of_cons. destruct (decide (i = fd)) as [->|]; tauto.
  - intros i [->|Hi]%elem_of_cons; rewrite dom_delete_L, elem_of_difference, elem_of_singleton; [tauto|]. intros [Hi' _]. by apply (O2 i).
  - constructor; [|done]. intros Hr. by apply (O2 fd).
Qed.
(** The table with other files behind the same numbers. *)
Lemma fds_ok_same t m l : fds_ok t -> dom m = dom (map t) -> l <= MAX_FDS -> fds_ok (mk_fds m (ids t) l).
Proof. intros [O1 O2 O3 O4 O5] Hd Hl. split; cbn; rewrite ?Hd; done. Qed.

Lemma NoDup_filter_fst {K V} (p : K * V -> bool) (l : list (K * V)) : NoDup l.*1 -> NoDup (List.filter p l).*1.
Proof.
  induction l as [|x l IH]; [done|]. cbn. intros [Hx Hn]%NoDup_cons. destruct (p x); [|by apply IH]. cbn. apply NoDup_cons. split; [|by apply IH].
  intros (y & Ey & Hy)%list_elem_of_fmap. apply Hx. apply list_elem_of_fmap. exists y. split; [done|]. apply list_elem_of_In, filter_In in Hy as [Hy _]. by apply list_elem_of_In.
Qed.
(** [exec] takes out those that are marked. *)
Lemma exec_ok t : fds_ok t ->
  let gone := List.filter (fun x => close_on_exec x.2) (map_to_list (map t)) in
  fds_ok (mk_fds (filter (fun x => close_on_exec x.2 = false) (map t)) (fold_left (fun a x => ids_dealloc x.1 a) gone (ids t)) (limit t)).
Proof.
  intros Hok gone. set (m := filter _ (map t)).
  assert (Hdom : forall i, i ∈ dom m <-> i ∈ dom (map t) /\ i ∉ gone.*1).
  { intros i. rewrite !elem_of_dom. split.
    - intros [fi Hfi]. apply map_lookup_filter_Some in Hfi as [Hfi Hc]. split; [by exists fi|]. intros ([j fj] & -> & Hj)%list_elem_of_fmap.
      apply list_elem_of_In, filter_In in Hj as [Hj Hcj]. apply list_elem_of_In, elem_of_map_to_list in Hj. cbn in *. congruence.
    - intros [[fi Hfi] Hn]. exists fi. apply map_lookup_filter_Some. split; [done|]. cbn. destruct (close_on_exec fi) eqn:Ec; [|done]. exfalso. apply Hn.
      apply list_elem_of_fmap. exists (i, fi). split; [done|]. apply list_elem_of_In, filter_In. split; [apply list_elem_of_In; by apply elem_of_map_to_list|done]. }
  assert (Hnd : NoDup gone.*1) by apply NoDup_filter_fst, NoDup_fst_map_to_list.
  assert (Hin : forall i, i ∈ gone.*1 -> i ∈ dom (map t)).
  { intros i ([j fj] & -> & Hj)%list_elem_of_fmap. apply list_elem_of_In, filter_In in Hj as [Hj _]. apply list_elem_of_In, elem_of_map_to_list in Hj. by apply elem_of_dom_2 in Hj. }
  clearbody m gone. destruct Hok as [O1 O2 O3 O4 O5].
  assert (Hr : forall a, next (fold_left (fun a x => ids_dealloc x.1 a) gone a) = next a /\ reuse (fold_left (fun a x => ids_dealloc x.1 a) gone a) = reverse gone.*1 ++ reuse a).
  { clear. induction gone as [|x l IH]; intros a; [done|]. cbn [fold_left]. destruct (IH (ids_dealloc x.1 a)) as [-> ->]. split; [done|]. rewrite fmap_cons, reverse_cons. by rewrite <- app_assoc. }
  destruct (Hr (ids t)) as [E1 E2]. split; cbn; rewrite ?E1, ?E2; try done.
  - intros i. rewrite Hdom, elem_of_app, elem_of_reverse, <- O1. destruct (decide (i ∈ gone.*1)) as [Hg|]; [specialize (Hin i Hg)|]; tauto.
  - intros i. rewrite elem_of_app, elem_of_reverse, Hdom. intros [Hi|Hi]; [tauto|]. intros [Hd _]. by apply (O2 i).
  - apply NoDup_app. split_and!; [by rewrite reverse_Permutation|intros i Hi Hi'; rewrite elem_of_reverse in Hi; apply (O2 i Hi'); by apply Hin|done].
Qed.

(** ** What a task does to its table *)
Inductive fd_step (f : Files) h : store -> Prop :=
| do_open fi r h' : open f fi h = Some (r, h') -> fd_step f h h'
| do_dup fd b r h' : Files_dup open_dir f fd b h = Some (r, h') -> fd_step f h h'
| do_close sole fd r h' : Files_close is_socket f sole fd h = Some (r, h') -> fd_step f h h'
| do_dup3 old new flags t r h' : tables h !! fds f = Some t -> new ∈ dom (map t) -> dup3 to_io open_dir f old new flags h = Some (r, h') -> fd_step f h h'
| do_set fd g r h' : set_fi f fd g h = Some (r, h') -> fd_step f h h'
| do_limit max r h' : set_limit f max h = Some (r, h') -> fd_step f h h'
| do_exec sole r h' : exec_close to_io is_socket f sole h = Some (r, h') -> fd_step f h h'.
Inductive fd_reach (f : Files) : store -> Prop :=
| fd_new stdio dir h h' : length stdio = 3%nat -> Files_new stdio dir h = Some (Ok f, h') -> fd_reach f h'
| fd_fork f0 sc sf h h' : fd_reach f0 h -> deep_fork f0 sc sf h = Some (Ok f, h') -> fd_reach f h'
| fd_next f' h h' : fd_reach f h -> fds f' = fds f -> fd_step f' h h' -> fd_reach f h'
| fd_other h h' : fd_reach f h -> tables h' !! fds f = tables h !! fds f -> fd_reach f h'.
Definition table_ok (f : Files) h : Prop := exists t, tables h !! fds f = Some t /\ fds_ok t.

Lemma open_ok f fi h t : tables h !! fds f = Some t -> fds_ok t ->
  if limit t <=? Z.of_nat (size (map t)) then open f fi h = Some (Err EMFILE, h)
  else exists fd t', open f fi h = Some (Ok fd, mk_store (<[fds f := t']> (tables h)) (cwds h) (done h)) /\ map t !! fd = None /\ 0 <= fd < MAX_FDS /\
    map t' = <[fd := fi]> (map t) /\ fds_ok t'.
Proof.
  intros Ht Hok. unfold open, get_fds, put_fds, mbind, PT_bind. rewrite Ht. destruct (Z.leb_spec (limit t) (Z.of_nat (size (map t)))) as [Hl|Hl]; [done|].
  destruct (ids_alloc (ids t)) as [fd a] eqn:Ea. destruct (ids_alloc_ok t fd a fi Hok Hl Ea) as (Hn & Hb & Hok'). unfold insert_unique_unchecked. rewrite Hn. by eexists fd, _.
Qed.
Lemma open_table f fi h r h' : table_ok f h -> open f fi h = Some (r, h') -> table_ok f h'.
Proof.
  intros (t & Ht & Hok) E0. pose proof (open_ok f fi h t Ht Hok) as Ho. destruct (_ <=? _); [rewrite Ho in E0; injection E0 as _ <-; by exists t|].
  destruct Ho as (fd & t' & Ho & _ & _ & _ & Hok'). rewrite Ho in E0. injection E0 as _ <-. exists t'. split; [apply lookup_insert_eq|done].
Qed.
Lemma get_fi_same f fd h r h' : get_fi open_dir f fd h = Some (r, h') -> h' = h.
Proof.
  unfold get_fi, get_cwd, get_fds, pt_res, mbind, PT_bind. intros E0. destruct (fd =? CWD).
  - destruct (cwds h !! cwd f) as [p|]; [|by injection E0 as _ <-]. by destruct (open_dir p); injection E0 as _ <-.
  - destruct (tables h !! fds f) as [t|]; [|by injection E0 as _ <-]. by destruct (map t !! fd); injection E0 as _ <-.
Qed.
Lemma table_put f h t : fds_ok t -> table_ok f (mk_store (<[fds f := t]> (tables h)) (cwds h) (done h)).
Proof. intros Hok. exists t. split; [apply lookup_insert_eq|done]. Qed.
Lemma table_effects f h l : table_ok f h -> table_ok f (mk_store (tables h) (cwds h) (done h ++ l)).
Proof. done. Qed.
Lemma fd_step_ok f h h' : table_ok f h -> fd_step f h h' -> table_ok f h'.
Proof.
  intros Htab Hs. pose proof Htab as (t & Ht & Hok). assert (Eg : get_fds f h = Some (Ok t, h)) by (unfold get_fds; by rewrite Ht).
  destruct Hs as [fi r h' E0|fd b r h' E0|sole fd r h' E0|old new flags t' r h' Ht' Hin E0|fd g r h' E0|max r h' E0|sole r h' E0].
  - by eapply open_table.
  - unfold Files_dup, mbind, PT_bind in E0. destruct (get_fi _ _ _ _) as [[r0 h0]|] eqn:Ef; [|done]. pose proof (get_fi_same _ _ _ _ _ Ef) as ->.
    destruct r0; [by eapply open_table|by injection E0 as _ <-..].
  - unfold Files_close in E0. rewrite (PT_bind_Ok _ _ _ _ _ Eg) in E0. destruct (map t !! fd) as [fi|] eqn:Em; injection E0 as _ <-; [|done].
    apply table_put, ids_dealloc_ok; [done|by eapply elem_of_dom_2|apply Hok].
  - assert (t' = t) as -> by congruence. unfold dup3, mbind, PT_bind in E0. destruct (get_fi _ _ _ _) as [[r0 h0]|] eqn:Ef; [|done]. pose proof (get_fi_same _ _ _ _ _ Ef) as ->.
    destruct r0 as [fi|e|]; [|by injection E0 as _ <-..]. unfold reopen in E0. rewrite (PT_bind_Ok _ _ _ _ _ Eg) in E0. apply elem_of_dom in Hin as [old' Ho]. rewrite Ho in E0. injection E0 as _ <-.
    apply (table_put f h), fds_ok_same; [done|by rewrite dom_insert_lookup_L|apply Hok].
  - unfold set_fi in E0. destruct (fd =? CWD); [by injection E0 as _ <-|]. rewrite (PT_bind_Ok _ _ _ _ _ Eg) in E0. destruct (map t !! fd) as [fi|] eqn:Em; injection E0 as _ <-; [|done].
    apply table_put, fds_ok_same; [done|by rewrite dom_insert_lookup_L|apply Hok].
  - unfold set_limit in E0. rewrite (PT_bind_Ok _ _ _ _ _ Eg) in E0. injection E0 as _ <-. apply table_put, fds_ok_same; [done|done|lia].
  - unfold exec_close in E0. rewrite (PT_bind_Ok _ _ _ _ _ Eg) in E0. injection E0 as _ <-. apply (table_put f h). by apply exec_ok.
Qed.
Lemma files_new_ok stdio dir h f h' : length stdio = 3%nat -> Files_new stdio dir h = Some (Ok f, h') -> table_ok f h'.
Proof.
  intros Hl E0. destruct stdio as [|a [|b [|c [|]]]]; try done. injection E0 as <- <-. eexists. split; [apply lookup_insert_eq|]. split; cbn; try done.
  - intros i. rewrite !dom_insert_L, dom_empty_L. rewrite !elem_of_union, !elem_of_singleton, elem_of_empty, elem_of_nil. lia.
  - intros i Hi. by apply elem_of_nil in Hi.
  - constructor.
Qed.
Lemma fd_reach_ok f h : fd_reach f h -> table_ok f h.
Proof.
  induction 1 as [f stdio dir h h' Hl E0|f f0 sc sf h h' _ IH E0|f f' h h' _ IH Ef Hs|f h h' _ IH Ht].
  - by eapply files_new_ok.
  - destruct IH as (t & Ht & Hok). unfold deep_fork in E0. rewrite Ht in E0. destruct (cwds h !! cwd f0); [|done]. injection E0 as <- <-. destruct sf; [by exists t|].
    eexists. split; [apply lookup_insert_eq|]. by apply fds_ok_same.
  - assert (Hf' : table_ok f' h) by (destruct IH as (t & ? & ?); exists t; by rewrite Ef). destruct (fd_step_ok f' h h' Hf' Hs) as (t & ? & ?). exists t. by rewrite <- Ef.
  - destruct IH as (t & ? & ?). exists t. by rewrite Ht.
Qed.
(** C32: the descriptors of a task, from its three first ones on, through opening,
    duplicating, closing, forking and [exec], and through [dup3] to descriptors that
    are open.  Opening a file fails with EMFILE exactly if there are as many files as
    the limit allows; otherwise the file is given a number of its own, that no open
    file has, below 65536, and all other numbers mean what they meant. *)
Theorem fd_open_spec f fi h : fd_reach f h -> exists t, tables h !! fds f = Some t /\
  if limit t <=? Z.of_nat (size (map t)) then open f fi h = Some (Err EMFILE, h)
  else exists fd t', open f fi h = Some (Ok fd, mk_store (<[fds f := t']> (tables h)) (cwds h) (done h)) /\ map t !! fd = None /\ 0 <= fd < MAX_FDS /\ map t' = <[fd := fi]> (map t).
Proof.
  intros Hr. destruct (fd_reach_ok f h Hr) as (t & Ht & Hok). exists t. split; [done|]. pose proof (open_ok f fi h t Ht Hok) as Ho. destruct (_ <=? _); [done|].
  destruct Ho as (fd & t' & E0 & H1 & H2 & H3 & _). by exists fd, t'.
Qed.
End FdSpec.

(** ** Runs *)
Definition dir0 (p : nat) : res Error Z := Ok 99.
Notation fi0 e := (mk_fi (D := unit) e false false Ufs.SELF_R Start).
Definition f0 : Files := mk_files 0 0.
Definition h0 : store (E := Z) (P := nat) (D := unit) := mk_store ∅ ∅ [].
Definition boot : store (E := Z) (P := nat) (D := unit) := match Files_new [10; 11; 12] O h0 with Some (_, h) => h | None => h0 end.
Lemma fd_open_spec_witness : exists h', Files_close (fun _ => false) f0 (fun _ => true) 1 boot = Some (Ok tt, h') /\ exists t, tables h' !! 0%nat = Some t /\ limit t = 256 /\
  exists fd t', open f0 (fi0 20) h' = Some (Ok fd, t') /\ 0 <= fd < MAX_FDS.
Proof.
  destruct (Files_close (fun _ => false) f0 (fun _ => true) 1 boot) as [[r h']|] eqn:E0; [|vm_compute in E0; discriminate E0].
  assert (Hr : fd_reach (fun _ => true) (fun _ => false) dir0 f0 h').
  { eapply fd_next; [|reflexivity|eapply do_close; exact E0]. eapply (fd_new _ _ _ f0 [10; 11; 12] O h0); reflexivity. }
  assert (Hf : fst <$> Files_close (fun _ => false) f0 (fun _ => true) 1 boot = Some (Ok tt)) by (vm_compute; reflexivity).
  assert (Hl : (fun x => (fun t => (limit t, Z.of_nat (size (map t)))) <$> tables x.2 !! 0%nat) <$> Files_close (fun _ => false) f0 (fun _ => true) 1 boot = Some (Some (256, 2))) by (vm_compute; reflexivity).
  rewrite E0 in Hf, Hl. cbn in Hf, Hl. injection Hf as ->. exists h'. split; [reflexivity|]. destruct (fd_open_spec _ _ _ f0 (fi0 20) h' Hr) as (t & Ht & Ho).
  cbn in Ht. rewrite Ht in Hl. injection Hl as Hl Hs. exists t. split; [exact Ht|]. split; [exact Hl|]. rewrite Hl, Hs in Ho. destruct Ho as (fd & t' & E1 & _ & H2 & _). by exists fd, (mk_store (<[fds f0 := t']> (tables h')) (cwds h') (done h')).
Defined.
(** What does not hold.  Redirection of the standard output: 1 is closed and becomes a
    copy of 0; the next file is given 1 as well. *)
Definition then_ {X Y} (m : PT (store (E := Z) (P := nat) (D := unit)) Error X) (k : PT (store (E := Z) (P := nat) (D := unit)) Error Y) : PT (store (E := Z) (P := nat) (D := unit)) Error Y := m ≫= fun _ => k.
Example redirect : then_ (Files_close (fun _ => false) f0 (fun _ => true) 1) (then_ (dup3 (fun _ => true) dir0 f0 0 1 0) (open f0 (fi0 20))) boot = None.
Proof. vm_compute. reflexivity. Qed.
(** A copy at a number not given yet, which then is given. *)
Example dup_ahead : then_ (dup3 (fun _ => true) dir0 f0 0 3 0) (open f0 (fi0 20)) boot = None.
Proof. vm_compute. reflexivity. Qed.
(** The standard input can be written and not read, the standard error the other way round. *)
Example stdio_perms : (fun t => (fun fi => perm fi) <$> [default (fi0 0) (map t !! 0); default (fi0 0) (map t !! 1); default (fi0 0) (map t !! 2)]) <$> tables boot !! 0%nat =
  Some [Ufs.SELF_W; Ufs.SELF_W; Ufs.SELF_R].
Proof. vm_compute. reflexivity. Qed.
(** F_DUPFD_CLOEXEC with the lowest number 0 does not mark the copy. *)
Example dup_cloexec : fst <$> (fcntl dir0 f0 0 1030 0 ≫= fun fd => fcntl dir0 f0 fd 1 0) boot = Some (Ok 0).
Proof. vm_compute. reflexivity. Qed.
(** A forked task has the default limit again. *)
Example fork_limit : fst <$> (set_limit f0 1000 ≫= fun _ => deep_fork f0 false false ≫= fun f => get_limit f) boot = Some (Ok 256).
Proof. vm_compute. reflexivity. Qed.
(** A pipe that cannot be told to the program stays open. *)
Example pipe_leak : (fun x => (fst x, (fun t => size (map t)) <$> tables (snd x) !! 0%nat)) <$> pipe_inner f0 20 21 (fun _ _ => Err EFAULT) boot = Some (Err EFAULT, Some 5%nat).
Proof. vm_compute. reflexivity. Qed.
