(* ===== verification/Pipe.v ===== *)
(** * kernel: pipes

    mizu/kernel/src/fs/pipe.rs.  A pipe is a queue of full pages between the page that
    is read and the page that is written.  A reader first has the lock of the read end
    only and then both, a writer has that of the write end: [thread] is where a task is
    between those sections.  Waiting for the events is any number of further rounds.
    [frames] is what [Frame::new] can still give; [written] and [got] are the bytes
    that writers have been told to be accepted and readers have been given. *)

From S2P Require Import Prelude Ksc Paging Bytes.

Import PG Errno.

Module Pipe.
Record End := mk_end { frame : list Z; start : Z; end_ : Z }.
Definition is_buffer_full (e : End) : bool := end_ e =? PAGE_SIZE.
Definition should_discard (e : End) : bool := start e =? PAGE_SIZE.
Definition is_empty (e : End) : bool := start e =? end_ e.
(** The rooms of the slices; the bytes that are put in them, one after the other. *)
Fixpoint End_read (e : End) (buf : list Z) : list Z * End :=
  match buf with
  | [] => ([], e)
  | first :: next =>
      let len := Z.min first (end_ e - start e) in
      let bs := slice_at (frame e) (start e) len in
      let e := mk_end (frame e) (start e + len) (end_ e) in
      if len <? first then (bs, e) else let '(bs', e) := End_read e next in (bs ++ bs', e)
  end.
Fixpoint End_write (e : End) (buf : list (list Z)) : Z * End :=
  match buf with
  | [] => (0, e)
  | first :: next =>
      let len := Z.min (Z.of_nat (length first)) (PAGE_SIZE - end_ e) in
      let e := mk_end (splice (frame e) (end_ e) (take (Z.to_nat len) first)) (start e) (end_ e + len) in
      if len <? Z.of_nat (length first) then (len, e) else let '(n, e) := End_write e next in (len + n, e)
  end.

Record Pipe := mk_pipe { buffer : list End; read_end : option End; write_end : option End; max_buffers : Z; frames : nat }.
Definition DEFAULT_MAX_BUFFERS : Z := 16.
Definition pipe (n : nat) : Pipe := mk_pipe [] None None DEFAULT_MAX_BUFFERS n.
Definition blank : list Z := replicate (Z.to_nat PAGE_SIZE) 0.
Definition set_read_end (o : option End) (p : Pipe) : Pipe := mk_pipe (buffer p) o (write_end p) (max_buffers p) (frames p).
Definition set_write_end (o : option End) (p : Pipe) : Pipe := mk_pipe (buffer p) (read_end p) o (max_buffers p) (frames p).
Definition set_buffer (b : list End) (p : Pipe) : Pipe := mk_pipe b (read_end p) (write_end p) (max_buffers p) (frames p).
(** [buffer.pop()] *)
Definition pop (p : Pipe) : option (End * Pipe) :=
  match buffer p with e :: b => Some (e, set_buffer b p) | [] => None end.
(** A page that is full is read, and kept if there is more in it.  None is a failed assertion. *)
Definition take_full (e : End) (buf : list Z) (p : Pipe) : option (list Z * Pipe) :=
  if is_buffer_full e then
    let '(bs, e) := End_read e buf in Some (bs, set_read_end (if should_discard e then None else Some e) p)
  else None.
(** The first attempt, with the read end; the others, with both.  [Ok None]: no data. *)
Definition first_attempt (buf : list Z) (p : Pipe) : option (option (list Z) * Pipe) :=
  match (match read_end p with Some e => Some (e, set_read_end None p) | None => pop p end) with
  | Some (e, p) => '(bs, p) ← take_full e buf p; Some (Some bs, p)
  | None => Some (None, p)
  end.
Definition other_attempts (buf : list Z) (p : Pipe) : option (option (list Z) * Pipe) :=
  match pop p with
  | Some (e, p) => '(bs, p) ← take_full e buf p; Some (Some bs, p)
  | None =>
      match write_end p with
      | Some e =>
          let p := set_write_end None p in
          if negb (is_empty e) then
            let '(bs, e) := End_read e buf in Some (Some bs, if should_discard e then p else set_write_end (Some e) p)
          else Some (None, p)
      | None => Some (None, p)
      end
  end.
Definition alloc_new (p : Pipe) : option (End * Pipe) :=
  if Z.of_nat (length (buffer p)) <? max_buffers p then
    match frames p with S n => Some (mk_end blank 0 0, mk_pipe (buffer p) (read_end p) (write_end p) (max_buffers p) n) | O => None end
  else None.
(** The section of [write]; the outer none is a failed assertion. *)
Definition write_attempt (buf : list (list Z)) (p : Pipe) : option (option Z * Pipe) :=
  match (match write_end p with Some e => Some (e, set_write_end None p) | None => alloc_new p end) with
  | Some (e, p) =>
      let '(len, e) := End_write e buf in
      if is_buffer_full e then if is_empty e then None else Some (Some len, set_buffer (buffer p ++ [e]) p)
      else Some (Some len, set_write_end (Some e) p)
  | None => Some (None, p)
  end.

(** ** Tasks *)
Inductive thread :=
| Out
| Read1 (buf : list Z)
| Read2 (buf : list Z)
| ReadCount (buf : list Z)
| ReadDone (bs : list Z)
| Write1 (buf : list (list Z))
| WriteCount (buf : list (list Z))
| WriteDone (r : res Error Z).
(** [tx] and [rx]: the ends that are there; [lock] has the lock of the read end. *)
Record sys := mk_sys { pip : Pipe; tx : bool; rx : bool; lock : option nat; thr : nat -> thread; written : list Z; got : list Z }.
Definition init (n : nat) : sys := mk_sys (pipe n) true true None (fun _ => Out) [] [].
Definition goto (t : nat) (x : thread) (s : sys) : sys := mk_sys (pip s) (tx s) (rx s) (lock s) (fun u => if Nat.eqb u t then x else thr s u) (written s) (got s).
Definition set_pip (p : Pipe) (s : sys) : sys := mk_sys p (tx s) (rx s) (lock s) (thr s) (written s) (got s).
Definition set_lock (o : option nat) (s : sys) : sys := mk_sys (pip s) (tx s) (rx s) o (thr s) (written s) (got s).
Definition log_got (bs : list Z) (s : sys) : sys := mk_sys (pip s) (tx s) (rx s) (lock s) (thr s) (written s) (got s ++ bs).
Definition log_written (bs : list Z) (s : sys) : sys := mk_sys (pip s) (tx s) (rx s) (lock s) (thr s) (written s ++ bs) (got s).
(** [Arsc::count(&self.0) == 1] *)
Definition alone (s : sys) : bool := negb (tx s && rx s).
(** The next section of a task: what happens, or a panic, or that it has to wait. *)
Inductive outcome := To (s : sys) | Panics | Blocked.
Definition step (t : nat) (s : sys) : outcome :=
  match thr s t with
  | Out | ReadDone _ | WriteDone _ => Blocked
  | Read1 buf =>
      match lock s with
      | Some _ => Blocked
      | None =>
          match first_attempt buf (pip s) with
          | Some (Some bs, p) => To (goto t (ReadDone bs) (log_got bs (set_pip p s)))
          | Some (None, p) => To (goto t (Read2 buf) (set_lock (Some t) (set_pip p s)))
          | None => Panics
          end
      end
  | Read2 buf =>
      match other_attempts buf (pip s) with
      | Some (Some bs, p) => To (goto t (ReadDone bs) (set_lock None (log_got bs (set_pip p s))))
      | Some (None, p) => To (goto t (ReadCount buf) (set_lock None (set_pip p s)))
      | None => Panics
      end
  | ReadCount buf => To (goto t (if alone s then ReadDone [] else Read1 buf) s)
  | Write1 buf =>
      match write_attempt buf (pip s) with
      | Some (Some n, p) => To (goto t (WriteDone (Ok n)) (log_written (take (Z.to_nat n) (mjoin buf)) (set_pip p s)))
      | Some (None, p) => To (goto t (WriteCount buf) (set_pip p s))
      | None => Panics
      end
  | WriteCount buf => To (goto t (if alone s then WriteDone (Err EPIPE) else Write1 buf) s)
  end.
Inductive action := StartRead (t : nat) (buf : list Z) | StartWrite (t : nat) (buf : list (list Z)) | Go (t : nat) | DropTx | DropRx.
Definition at_rest (t : nat) (s : sys) : bool := match thr s t with Out | ReadDone _ | WriteDone _ => true | _ => false end.
Definition act (a : action) (s : sys) : outcome :=
  match a with
  | StartRead t buf => if at_rest t s && rx s then To (goto t (Read1 buf) s) else Blocked
  | StartWrite t buf => if at_rest t s && tx s then To (goto t (Write1 buf) s) else Blocked
  | Go t => step t s
  | DropTx => To (mk_sys (pip s) false (rx s) (lock s) (thr s) (written s) (got s))
  | DropRx => To (mk_sys (pip s) (tx s) false (lock s) (thr s) (written s) (got s))
  end.
Fixpoint run (l : list action) (s : sys) : outcome :=
  match l with [] => To s | a :: l => match act a s with To s => run l s | x => x end end.
End Pipe.

(** * kernel: a pipe is a queue of bytes *)
Import PG Errno Pipe.

(** ** A page *)
Definition end_ok (e : End) : Prop := length (frame e) = Z.to_nat 4096 /\ 0 <= start e <= end_ e /\ end_ e <= 4096.
Definition content (e : End) : list Z := slice_at (frame e) (start e) (end_ e - start e).
Lemma slice_split (l : list Z) off a b : 0 <= off -> 0 <= a -> 0 <= b -> slice_at l off (a + b) = slice_at l off a ++ slice_at l (off + a) b.
Proof. intros. unfold slice_at. rewrite !Z2Nat.inj_add by lia. rewrite <- drop_drop. symmetry. apply take_take_drop. Qed.
Lemma content_len e : end_ok e -> Z.of_nat (length (content e)) = end_ e - start e.
Proof. intros (Hf & Hs & He). unfold content. apply length_slice_at; [lia|lia|rewrite Hf; lia]. Qed.
Definition total (buf : list Z) : Z := fold_right Z.add 0 buf.
Lemma sizes_nonneg buf : Forall (Z.le 0) buf -> 0 <= total buf.
Proof. induction 1 as [|x l Hx Hl IH]; [done|]. change (total (x :: l)) with (x + total l). lia. Qed.
Lemma End_read_ok buf : Forall (Z.le 0) buf -> forall e, end_ok e -> exists bs e', End_read e buf = (bs, e') /\ content e = bs ++ content e' /\ end_ok e' /\ end_ e' = end_ e /\
  Z.of_nat (length bs) = Z.min (total buf) (end_ e - start e).
Proof.
  induction 1 as [|first next Hf Hn IH]; intros e Hok; cbn [End_read].
  - exists [], e. destruct Hok as (? & ? & ?). split_and!; try done. cbn. lia.
  - set (n := Z.min first (end_ e - start e)). set (e1 := mk_end (frame e) (start e + n) (end_ e)). pose proof Hok as (Hl & Hs & He). pose proof (sizes_nonneg next Hn).
    assert (Hok1 : end_ok e1) by (split_and!; cbn; [done|lia|lia|lia]).
    assert (Ec : content e = slice_at (frame e) (start e) n ++ content e1) by (unfold content, e1; cbn; rewrite <- slice_split by lia; f_equal; lia).
    assert (Eb : Z.of_nat (length (slice_at (frame e) (start e) n)) = n) by (apply length_slice_at; lia).
    destruct (Z.ltb_spec n first) as [Hlt|Hge].
    + eexists _, e1. split_and!; try done. rewrite Eb. change (total (first :: next)) with (first + total next). lia.
    + destruct (IH e1 Hok1) as (bs & e' & E & Hc & Ho & Hend & Hlen). rewrite E. eexists _, e'. split_and!; try done; [by rewrite Ec, Hc, app_assoc|].
      rewrite length_app, Nat2Z.inj_add, Eb, Hlen. cbn [start end_ e1]. change (total (first :: next)) with (first + total next). lia.
Qed.
Lemma End_write_ok buf : forall e, end_ok e -> exists n e', End_write e buf = (n, e') /\ content e' = content e ++ take (Z.to_nat n) (mjoin buf) /\ end_ok e' /\
  start e' = start e /\ end_ e' = end_ e + n /\ n = Z.min (Z.of_nat (length (mjoin buf))) (4096 - end_ e).
Proof.
  induction buf as [|first next IH]; intros e Hok; cbn [End_write].
  - exists 0, e. destruct Hok as (? & ? & ?). rewrite app_nil_r. split_and!; try done; cbn; lia.
  - change PAGE_SIZE with 4096. set (n := Z.min (Z.of_nat (length first)) (4096 - end_ e)). pose proof Hok as (Hl & Hs & He).
    set (e1 := mk_end (splice (frame e) (end_ e) (take (Z.to_nat n) first)) (start e) (end_ e + n)).
    assert (Hlt : Z.of_nat (length (take (Z.to_nat n) first)) = n) by (rewrite length_take; lia).
    assert (Hok1 : end_ok e1) by (split_and!; cbn; [rewrite length_splice by lia; done|lia|lia|lia]).
    assert (Ec : content e1 = content e ++ take (Z.to_nat n) first).
    { unfold content, e1. cbn. replace (end_ e + n - start e) with ((end_ e - start e) + n) by lia. rewrite slice_split by lia. f_equal.
      - apply slice_splice_other; lia.
      - replace (start e + (end_ e - start e)) with (end_ e) by lia. rewrite <- Hlt at 2. apply slice_splice_same; lia. }
    change (mjoin (first :: next)) with (first ++ mjoin next).
    destruct (Z.ltb_spec n (Z.of_nat (length first))) as [Hsh|Hfull].
    + exists n, e1. split_and!; try done; [|rewrite length_app; lia]. rewrite Ec, take_app_le by lia. done.
    + destruct (IH e1 Hok1) as (m & e' & E & Hc & Ho & Hst & Hend & Hm). rewrite E. exists (n + m), e'. cbn in Hst, Hend, Hm. split_and!; try done; [|lia|rewrite length_app; lia].
      rewrite Hc, Ec, <- app_assoc. f_equal. rewrite (take_ge first) by lia. rewrite Z2Nat.inj_add by lia. rewrite take_app_ge by lia. f_equal. f_equal. lia.
Qed.

(** ** The pipe *)
Definition full_ok (e : End) : Prop := end_ok e /\ end_ e = 4096 /\ start e < 4096.
Record pipe_ok (p : Pipe) : Prop := mk_pipe_ok {
  po_read e : read_end p = Some e -> full_ok e;
  po_buffer : Forall full_ok (buffer p);
  po_write e : write_end p = Some e -> end_ok e /\ end_ e < 4096;
}.
Definition end_bytes (o : option End) : list Z := match o with Some e => content e | None => [] end.
Definition bytes (p : Pipe) : list Z := end_bytes (read_end p) ++ mjoin (content <$> buffer p) ++ end_bytes (write_end p).

(** An attempt to read takes the first bytes, as many as there is room for in a page. *)
Definition read_from (buf : list Z) (p : Pipe) (r : option (option (list Z) * Pipe)) : Prop :=
  exists o p', r = Some (o, p') /\ pipe_ok p' /\ match o with Some bs => bytes p = bs ++ bytes p' /\ (0 < total buf -> bs <> []) | None => bytes p' = bytes p end.
Lemma take_full_ok buf e p : Forall (Z.le 0) buf -> full_ok e -> pipe_ok p -> read_end p = None ->
  exists bs p', take_full e buf p = Some (bs, p') /\ pipe_ok p' /\ content e ++ bytes p = bs ++ bytes p' /\ (0 < total buf -> bs <> []).
Proof.
  intros Hb (Hok & He & Hs) [P1 P2 P3] Hr. unfold take_full, is_buffer_full. rewrite He. cbn [Z.eqb]. change (4096 =? PAGE_SIZE) with true. cbn iota.
  destruct (End_read_ok buf Hb e Hok) as (bs & e' & E & Hc & Hok' & He' & Hlen). rewrite E. eexists _, _. split; [done|].
  assert (Hne : 0 < total buf -> bs <> []) by (intros Ht ->; cbn in Hlen; lia).
  pose proof Hok' as (Hl' & Hs' & _). unfold should_discard. destruct (Z.eqb_spec (start e') PAGE_SIZE) as [Hd|Hd]; change PAGE_SIZE with 4096 in Hd.
  - split_and!; [by split|rewrite Hc; unfold bytes; cbn; rewrite Hr|done]. assert (content e' = []) as -> by (unfold content, slice_at; rewrite Hd, He', He; reflexivity). by rewrite app_nil_r.
  - split_and!; [split; cbn; [|done|done]|rewrite Hc; unfold bytes; cbn; rewrite Hr; by rewrite <- !app_assoc|done]. intros e0 [= <-]. split_and!; [done|by rewrite He', He|lia].
Qed.
Lemma pop_ok p e p' : pipe_ok p -> pop p = Some (e, p') -> full_ok e /\ pipe_ok p' /\ read_end p' = read_end p /\ (read_end p = None -> bytes p = content e ++ bytes p').
Proof.
  intros [P1 P2 P3] E. unfold pop in E. destruct (buffer p) as [|e0 b] eqn:Eb; [done|]. injection E as <- <-. inversion P2; subst. split_and!; [done|by split|done|].
  intros Hr. unfold bytes. cbn. rewrite Eb, Hr. cbn. by rewrite <- !app_assoc.
Qed.
Lemma first_attempt_ok buf p : Forall (Z.le 0) buf -> pipe_ok p -> read_from buf p (first_attempt buf p) /\ forall p', first_attempt buf p = Some (None, p') -> read_end p' = None.
Proof.
  intros Hb Hok. pose proof Hok as [P1 P2 P3]. unfold first_attempt. destruct (read_end p) as [e|] eqn:Er.
  - destruct (take_full_ok buf e (set_read_end None p) Hb (P1 e eq_refl)) as (bs & p' & E & Hok' & Hby & Hne); [by split|done|]. rewrite E. split; [|done].
    exists (Some bs), p'. split_and!; try done. rewrite <- Hby. unfold bytes. cbn. by rewrite Er.
  - destruct (pop p) as [[e p1]|] eqn:Ep; [|split; [by exists None, p|by intros p' [= <-]]]. destruct (pop_ok p e p1 Hok Ep) as (Hf & Hok1 & Hr1 & Hby1).
    destruct (take_full_ok buf e p1 Hb Hf Hok1) as (bs & p' & E & Hok' & Hby & Hne); [by rewrite Hr1|]. rewrite E. split; [|done]. exists (Some bs), p'. split_and!; try done. by rewrite <- Hby, Hby1.
Qed.
Lemma other_attempts_ok buf p : Forall (Z.le 0) buf -> pipe_ok p -> read_end p = None -> read_from buf p (other_attempts buf p).
Proof.
  intros Hb Hok Hr. pose proof Hok as [P1 P2 P3]. unfold other_attempts. destruct (pop p) as [[e p1]|] eqn:Ep.
  - destruct (pop_ok p e p1 Hok Ep) as (Hf & Hok1 & Hr1 & Hby1).
    destruct (take_full_ok buf e p1 Hb Hf Hok1) as (bs & p' & E & Hok' & Hby & Hne); [by rewrite Hr1|]. rewrite E. exists (Some bs), p'. split_and!; try done. by rewrite <- Hby, <- Hby1.
  - assert (Hbuf : buffer p = []) by (unfold pop in Ep; by destruct (buffer p)). destruct (write_end p) as [e|] eqn:Ew; [|by exists None, p].
    destruct (P3 e eq_refl) as [Hoke Hend]. pose proof Hoke as (Hl & Hs & _). unfold is_empty. destruct (Z.eqb_spec (start e) (end_ e)) as [He|He]; cbn [negb].
    + exists None, (set_write_end None p). split_and!; [done|split; cbn; done|]. unfold bytes. cbn. rewrite Hr, Hbuf, Ew. cbn. unfold content, slice_at. rewrite He, Z.sub_diag. done.
    + destruct (End_read_ok buf Hb e Hoke) as (bs & e' & E & Hc & Hok' & He' & Hlen). rewrite E. exists (Some bs). pose proof Hok' as (Hl' & Hs' & _).
      assert (should_discard e' = false) as -> by (unfold should_discard; apply Z.eqb_neq; change PAGE_SIZE with 4096; lia).
      exists (set_write_end (Some e') (set_write_end None p)). split_and!; [done|split; cbn; try done; intros e0 [= <-]; split; [done|lia]| |intros Ht ->; cbn in Hlen; lia].
      unfold bytes. cbn. rewrite Hr, Hbuf, Ew. cbn. done.
Qed.
Lemma bytes_write p o : bytes (set_write_end o p) = end_bytes (read_end p) ++ mjoin (content <$> buffer p) ++ end_bytes o.
Proof. done. Qed.
Lemma write_attempt_ok buf p : pipe_ok p -> exists o p', write_attempt buf p = Some (o, p') /\ pipe_ok p' /\ read_end p' = read_end p /\
  match o with Some n => bytes p' = bytes p ++ take (Z.to_nat n) (mjoin buf) /\ 0 <= n <= Z.of_nat (length (mjoin buf)) | None => p' = p end.
Proof.
  intros Hok. pose proof Hok as [P1 P2 P3]. unfold write_attempt.
  assert (Hst : match (match write_end p with Some e => Some (e, set_write_end None p) | None => alloc_new p end) with
    | Some (e, p1) => end_ok e /\ end_ e < 4096 /\ pipe_ok p1 /\ read_end p1 = read_end p /\ buffer p1 = buffer p /\ end_bytes (write_end p) = content e /\ write_end p1 = None | None => True end).
  { destruct (write_end p) as [e|] eqn:Ew; [destruct (P3 e eq_refl); split_and!; try done; by split|]. unfold alloc_new. destruct (_ <? _); [|done]. destruct (frames p) as [|k]; [done|].
    split_and!; try done. split; cbn; try done. by rewrite Ew. }
  destruct (match write_end p with Some e => Some (e, set_write_end None p) | None => alloc_new p end) as [[e p1]|]; [|by exists None, p].
  destruct Hst as (Hoke & Hend & [Q1 Q2 Q3] & Hr & Hb & Hw & Hw1). pose proof Hoke as (_ & Hs & _). destruct (End_write_ok buf e Hoke) as (n & e' & E & Hc & Hok' & Hst & He' & Hn). rewrite E.
  unfold is_buffer_full. destruct (Z.eqb_spec (end_ e') PAGE_SIZE) as [Hf|Hf]; change PAGE_SIZE with 4096 in Hf.
  - assert (is_empty e' = false) as -> by (unfold is_empty; apply Z.eqb_neq; lia). exists (Some n), (set_buffer (buffer p1 ++ [e']) p1). split_and!; try done; [split; cbn; try done| |lia|lia].
    + apply Forall_app. split; [done|]. constructor; [|done]. split_and!; [done|done|lia].
    + unfold bytes. cbn. rewrite Hr, Hb, Hw, Hw1. cbn. rewrite fmap_app, join_app. cbn. rewrite Hc, !app_nil_r, <- !app_assoc. done.
  - exists (Some n), (set_write_end (Some e') p1). split_and!; try done; [split; cbn; try done; intros e0 [= <-]| |lia|lia].
    + split; [done|]. destruct Hok' as (_ & _ & ?). lia.
    + unfold bytes. cbn. rewrite Hr, Hb, Hw, Hc. by rewrite <- !app_assoc.
Qed.

(** ** All tasks *)
Definition rooms (x : thread) : Prop := match x with Read1 buf | Read2 buf | ReadCount buf => Forall (Z.le 0) buf | _ => True end.
Record sys_inv (s : sys) : Prop := mk_sys_inv {
  si_pipe : pipe_ok (pip s);
  si_fifo : written s = got s ++ bytes (pip s);
  si_lock t : lock s = Some t <-> exists buf, thr s t = Read2 buf;
  si_held t : lock s = Some t -> read_end (pip s) = None;
  si_rooms t : rooms (thr s t);
}.
Lemma inv_goto t x s : sys_inv s -> (forall buf, thr s t <> Read2 buf) -> (forall buf, x <> Read2 buf) -> rooms x -> sys_inv (goto t x s).
Proof.
  intros [I1 I2 I3 I4 I5] Ht Hx Hr. split; cbn; try done.
  - intros u. rewrite I3. destruct (Nat.eqb_spec u t) as [->|]; [|done]. split; intros [buf E]; [by apply Ht in E|by apply Hx in E].
  - intros u. by destruct (Nat.eqb_spec u t).
Qed.
(** A task leaves a section that had changed the pipe and the records of the bytes. *)
Lemma inv_leave t x s p w g l : sys_inv s -> pipe_ok p -> w = g ++ bytes p -> (l = None \/ (l = lock s /\ forall buf, thr s t <> Read2 buf)) ->
  (forall u, l = Some u -> read_end p = None) -> (lock s = None \/ lock s = Some t \/ l = lock s) -> (forall buf, x <> Read2 buf) -> rooms x ->
  sys_inv (mk_sys p (tx s) (rx s) l (fun u => if Nat.eqb u t then x else thr s u) w g).
Proof.
  intros [I1 I2 I3 I4 I5] Hp Hw Hl Hh Hk Hx Hr. split; cbn; try done.
  - intros u. destruct (Nat.eqb_spec u t) as [->|Hne].
    + split; [|intros [buf E]; by apply Hx in E]. intros E. destruct Hl as [->|[-> Ht]]; [done|]. apply I3 in E as [buf E]. by apply Ht in E.
    + rewrite <- I3. destruct Hl as [->|[-> Ht]]; [|done]. split; [done|]. destruct Hk as [Hk|[Hk|Hk]]; congruence.
  - intros u. by destruct (Nat.eqb_spec u t).
Qed.
Lemma step_inv t s : sys_inv s -> match step t s with To s' => sys_inv s' | Panics => False | Blocked => True end.
Proof.
  intros Hi. pose proof Hi as [I1 I2 I3 I4 I5]. pose proof (I5 t) as Hr. unfold step. destruct (thr s t) as [|buf|buf|buf|bs|buf|buf|r] eqn:Et; cbn in Hr; try done.
  - destruct (lock s) as [u|] eqn:El; [done|]. destruct (first_attempt_ok buf (pip s) Hr I1) as [(o & p' & E & Hok & Ho) Hnone]. rewrite E. destruct o as [bs|].
    + refine (inv_leave t (ReadDone bs) s p' _ _ _ Hi Hok _ (or_introl El) _ (or_introl El) _ _); cbn; try done; [by rewrite I2, (proj1 Ho), app_assoc|by rewrite El].
    + split; cbn; try done; [by rewrite Ho|..].
      * intros u. destruct (Nat.eqb_spec u t) as [->|Hne]; [split; [intros _; by exists buf|done]|]. rewrite <- I3. split; [intros [= ->]; done|done].
      * intros _ _. by apply Hnone.
      * intros u. by destruct (Nat.eqb_spec u t).
  - assert (El : lock s = Some t) by (apply I3; by exists buf). destruct (other_attempts_ok buf (pip s) Hr I1 (I4 t El)) as (o & p' & E & Hok & Ho). rewrite E. destruct o as [bs|].
    + refine (inv_leave t (ReadDone bs) s p' _ _ _ Hi Hok _ (or_introl eq_refl) _ (or_intror (or_introl El)) _ _); cbn; try done. by rewrite I2, (proj1 Ho), app_assoc.
    + refine (inv_leave t (ReadCount buf) s p' _ _ _ Hi Hok _ (or_introl eq_refl) _ (or_intror (or_introl El)) _ _); cbn; try done. by rewrite Ho.
  - apply inv_goto; try done; [by rewrite Et|by destruct (alone s)|by destruct (alone s)].
  - destruct (write_attempt_ok buf (pip s) I1) as (o & p' & E & Hok & Hre & Ho). rewrite E. destruct o as [n|].
    + refine (inv_leave t (WriteDone (Ok n)) s p' _ _ _ Hi Hok _ (or_intror (conj eq_refl _)) _ (or_intror (or_intror eq_refl)) _ _); cbn; try done; [by rewrite (proj1 Ho), I2, app_assoc|by rewrite Et|].
      intros u Hu. rewrite Hre. by eapply I4.
    + subst p'. refine (inv_leave t (WriteCount buf) s _ _ _ _ Hi Hok _ (or_intror (conj eq_refl _)) _ (or_intror (or_intror eq_refl)) _ _); cbn; try done. by rewrite Et.
  - apply inv_goto; try done; [by rewrite Et|by destruct (alone s)|by destruct (alone s)].
Qed.
Definition sizes_ok (a : action) : Prop := match a with StartRead _ buf => Forall (Z.le 0) buf | _ => True end.
Lemma act_ok a s : sys_inv s -> sizes_ok a -> match act a s with To s' => sys_inv s' | Panics => False | Blocked => True end.
Proof.
  intros Hi Ha. destruct a as [t buf|t buf|t| |]; cbn.
  - destruct (at_rest t s && rx s) eqn:E; [|done]. apply inv_goto; try done. intros b Eb. unfold at_rest in E. by rewrite Eb in E.
  - destruct (at_rest t s && tx s) eqn:E; [|done]. apply inv_goto; try done. intros b Eb. unfold at_rest in E. by rewrite Eb in E.
  - by apply step_inv.
  - destruct Hi. by split.
  - destruct Hi. by split.
Qed.
Lemma run_ok l : Forall sizes_ok l -> forall s, sys_inv s -> match run l s with To s' => sys_inv s' | Panics => False | Blocked => True end.
Proof.
  induction 1 as [|a l Ha Hl IH]; intros s Hi; cbn [run]; [done|]. pose proof (act_ok a s Hi Ha) as Hact. destruct (act a s); [by apply IH|done|done].
Qed.
Lemma init_ok n : sys_inv (init n).
Proof. split; cbn; try done. intros t. split; [done|by intros [buf ?]]. Qed.
(** C30: whatever tasks read and write a pipe, and however their sections interleave,
    none of the assertions fails, and the bytes that writers were told to be accepted
    are the bytes that readers have been given, followed by those in the pipe: no byte
    is lost, repeated or overtaken. *)
Theorem pipe_fifo l n : Forall sizes_ok l -> run l (init n) <> Panics /\ forall s, run l (init n) = To s -> written s = got s ++ bytes (pip s).
Proof.
  intros Hl. pose proof (run_ok l Hl (init n) (init_ok n)) as Hr. split; [by intros E; rewrite E in Hr|]. intros s E. rewrite E in Hr. apply Hr.
Qed.
Definition two_writers : list action := [StartWrite 1 [[1; 2]; [3]]; StartRead 3 [2]; Go 3; StartWrite 2 [[4]]; Go 1; Go 3; Go 2].
Lemma pipe_fifo_witness : exists s, run two_writers (init 20) = To s /\ got s = [1; 2] /\ [1; 2; 3; 4] = [1; 2] ++ bytes (pip s).
Proof.
  destruct (run two_writers (init 20)) as [s| |] eqn:E; [|vm_compute in E; discriminate E..]. exists s. split; [reflexivity|].
  assert (Hg : match run two_writers (init 20) with To s => (got s, written s) | _ => ([], []) end = ([1; 2], [1; 2; 3; 4])) by (vm_compute; reflexivity).
  rewrite E in Hg. injection Hg as Hg Hw. split; [exact Hg|]. rewrite <- Hg, <- Hw. apply (pipe_fifo two_writers 20); [|exact E]. repeat constructor; lia.
Defined.
(** What does not hold.  A reader that has found nothing sees the end of the file when
    the writer writes and leaves before the reader counts the ends: the data are there. *)
Example early_eof : match run [StartRead 1 [4]; Go 1; Go 1; StartWrite 2 [[7]]; Go 2; DropTx; Go 1] (init 20) with
  To s => (thr s 1%nat, bytes (pip s)) | _ => (Out, []) end = (ReadDone [], [7]).
Proof. vm_compute. reflexivity. Qed.
(** A write to a pipe without a reader succeeds as long as there is room. *)
Example no_sigpipe : match run [DropRx; StartWrite 2 [[7]]; Go 2] (init 20) with To s => thr s 2%nat | _ => Out end = WriteDone (Ok 1).
Proof. vm_compute. reflexivity. Qed.
