(* ===== verification/Futex.v ===== *)
(** * kernel: futexes

    mizu/kernel/src/mem/futex.rs.  A queue is a number, because requeued waiters refer
    to it; its map of waiters is a list in the order the hash map is gone through in.
    [woken] are the wakers that have been called.  Every operation has the locks it
    needs from beginning to end, so each is one step. *)

From S2P Require Import Prelude Ksc.

Import Errno.

Module Futex.
Inductive FutexState := Waiting (w : nat) | Notified | Requed (q : nat).
Record FutexQueue := mk_queue { key : Z; prewoken : Z; wakers : list (nat * FutexState) }.
Record Futexes := mk_futexes { map : gmap Z nat; queues : gmap nat FutexQueue; next_id : nat; woken : list nat; robust_list : Z }.
Definition new : Futexes := mk_futexes ∅ ∅ 1 [] 0.
Definition set_queue (q : nat) (x : FutexQueue) (s : Futexes) : Futexes := mk_futexes (map s) (<[q := x]> (queues s)) (next_id s) (woken s) (robust_list s).
Definition log_woken (l : list nat) (s : Futexes) : Futexes := mk_futexes (map s) (queues s) (next_id s) (woken s ++ l) (robust_list s).

Fixpoint get {A} (id : nat) (l : list (nat * A)) : option A :=
  match l with [] => None | (i, x) :: l => if Nat.eqb i id then Some x else get id l end.
Definition remove {A} (id : nat) (l : list (nat * A)) : list (nat * A) := List.filter (fun x => negb (Nat.eqb x.1 id)) l.
Fixpoint put {A} (id : nat) (a : A) (l : list (nat * A)) : list (nat * A) :=
  match l with [] => [(id, a)] | (i, x) :: l => if Nat.eqb i id then (id, a) :: l else (i, x) :: put id a l end.

(** [Futexes::queue] *)
Definition queue (k : Z) (s : Futexes) : nat * Futexes :=
  match map s !! k with
  | Some q => (q, s)
  | None => let q := fresh (dom (queues s)) in (q, mk_futexes (<[k := q]> (map s)) (<[q := mk_queue k 0 []]> (queues s)) (next_id s) (woken s) (robust_list s))
  end.

(** ** FutexQueue *)
Inductive polled := Ready | Pending | Moved (q : nat).
Definition queue_poll (id waker : nat) (x : FutexQueue) : polled * FutexQueue :=
  match get id (wakers x) with
  | Some (Waiting _) => (Pending, mk_queue (key x) (prewoken x) (put id (Waiting waker) (wakers x)))
  | Some Notified => (Ready, mk_queue (key x) (prewoken x) (remove id (wakers x)))
  | Some (Requed q) => (Moved q, mk_queue (key x) (prewoken x) (remove id (wakers x)))
  | None =>
      let x' := mk_queue (key x) (prewoken x - 1) (wakers x) in
      if 0 <=? prewoken x then (Ready, x') else (Pending, mk_queue (key x) (prewoken x - 1) (put id (Waiting waker) (wakers x)))
  end.
Definition discard (id : nat) (x : FutexQueue) : option nat * FutexQueue :=
  (match get id (wakers x) with Some (Requed q) => Some q | _ => None end, mk_queue (key x) (prewoken x) (remove id (wakers x))).
(** The loop of [wake]: [count] have been woken; every state it passes is replaced. *)
Fixpoint wake_loop (count n : Z) (l : list (nat * FutexState)) : list nat * list (nat * FutexState) :=
  match l with
  | [] => ([], [])
  | (id, Waiting w) :: l =>
      if count + 1 =? n then ([w], (id, Notified) :: l)
      else let '(ws, l') := wake_loop (count + 1) n l in (w :: ws, (id, Notified) :: l')
  | (id, _) :: l => let '(ws, l') := wake_loop count n l in (ws, (id, Notified) :: l')
  end.
Definition wake (n : Z) (x : FutexQueue) : Z * list nat * FutexQueue :=
  let '(ws, l) := wake_loop 0 n (wakers x) in
  let count := Z.of_nat (length ws) in
  (count, ws, mk_queue (key x) (prewoken x + count) l).
(** The first loop of [requeue], and what [retain] makes of the rest. *)
Fixpoint notify_loop (notified notify : Z) (l : list (nat * FutexState)) : list nat * list (nat * FutexState) :=
  match l with
  | [] => ([], [])
  | (id, st) :: l0 =>
      if notified =? notify then ([], l)
      else match st with
           | Waiting w => let '(ws, l') := notify_loop (notified + 1) notify l0 in (w :: ws, (id, Notified) :: l')
           | _ => let '(ws, l') := notify_loop notified notify l0 in (ws, (id, Notified) :: l')
           end
  end.
Fixpoint retain_loop (other : nat) (requed reque : Z) (l dst : list (nat * FutexState)) : Z * list (nat * FutexState) * list (nat * FutexState) :=
  match l with
  | [] => (requed, [], dst)
  | (id, st) :: l =>
      if reque <=? requed then retain_loop other requed reque l dst
      else match st with
           | Waiting w => let '(r, l', dst') := retain_loop other (requed + 1) reque l (put id (Waiting w) dst) in (r, (id, Requed other) :: l', dst')
           | _ => retain_loop other requed reque l dst
           end
  end.
Definition requeue_queues (other : nat) (notify reque : Z) (src dst : FutexQueue) : Z * list nat * FutexQueue * FutexQueue :=
  let '(ws, l) := notify_loop 0 notify (wakers src) in
  let notified := Z.of_nat (length ws) in
  let '(requed, l, d) := retain_loop other 0 reque l (wakers dst) in
  (notified + requed, ws, mk_queue (key src) (prewoken src + notified) l, mk_queue (key dst) (prewoken dst) d).

(** ** Futexes; none is a number that is no queue *)
Definition notify (k n : Z) (s : Futexes) : option (Z * Futexes) :=
  let '(q, s) := queue k s in
  x ← queues s !! q; let '(count, ws, x) := wake n x in Some (count, log_woken ws (set_queue q x s)).
Definition requeue (from to notify reque : Z) (s : Futexes) : option (Z * Futexes) :=
  let '(qf, s) := queue from s in
  let '(qt, s) := queue to s in
  src ← queues s !! qf; dst ← queues s !! qt;
  if key src =? key dst then Some (0, s)
  else let '(r, ws, src, dst) := requeue_queues qt notify reque src dst in Some (r, log_woken ws (set_queue qt dst (set_queue qf src s))).
Definition set_robust_list (p : Z) (s : Futexes) : Futexes := mk_futexes (map s) (queues s) (next_id s) (woken s) p.

(** [deep_fork]: the map of the copy, whose queues have the states and wakers of those
    they are copied from, and [Drop] of a queue. *)
Definition deep_fork (s : Futexes) : gmap Z nat * Futexes :=
  foldr (fun (kq : Z * nat) '(m, s) =>
    match queues s !! kq.2 with
    | Some x => let q := fresh (dom (queues s)) in (<[kq.1 := q]> m, set_queue q x s)
    | None => (m, s)
    end) (∅, s) (map_to_list (map s)).
Definition as_child (m : gmap Z nat) (s : Futexes) : Futexes := mk_futexes m (queues s) (next_id s) (woken s) (robust_list s).
Definition queue_drop (x : FutexQueue) : list nat := omap (fun w : nat * FutexState => match w.2 with Waiting w => Some w | _ => None end) (wakers x).

(** ** FutexWait *)
Record FutexWait := mk_wait { wqueue : nat; wid : option nat }.
Definition wait (k : Z) (s : Futexes) : FutexWait * Futexes := let '(q, s) := queue k s in (mk_wait q None, s).
(** [poll]; [n] bounds the queues it is sent on to. *)
Fixpoint wait_poll (n : nat) (waker : nat) (f : FutexWait) (s : Futexes) : option (bool * FutexWait * Futexes) :=
  match n with
  | O => None
  | S n =>
      let '(id, s) := match wid f with Some id => (id, s) | None => (next_id s, mk_futexes (map s) (queues s) (S (next_id s)) (woken s) (robust_list s)) end in
      x ← queues s !! wqueue f;
      let '(r, x) := queue_poll id waker x in
      let s := set_queue (wqueue f) x s in
      match r with
      | Ready => Some (true, mk_wait (wqueue f) (Some id), s)
      | Pending => Some (false, mk_wait (wqueue f) (Some id), s)
      | Moved q => wait_poll n waker (mk_wait q (Some id)) s
      end
  end.
Fixpoint wait_drop (n : nat) (f : FutexWait) (s : Futexes) : option Futexes :=
  match n, wid f with
  | O, _ => None
  | S n, None => Some s
  | S n, Some id =>
      x ← queues s !! wqueue f;
      let '(o, x) := discard id x in
      let s := set_queue (wqueue f) x s in
      match o with Some q => wait_drop n (mk_wait q (Some id)) s | None => Some s end
  end.
End Futex.

(** * kernel: waking waiters, and what goes wrong when they are moved *)
Import Errno Futex.

Definition waiting (l : list (nat * FutexState)) : list (nat * nat) :=
  omap (fun x => match x.2 with Waiting w => Some (x.1, w) | _ => None end) l.
Lemma get_none {A} id (l : list (nat * A)) : id ∉ l.*1 -> get id l = None.
Proof.
  induction l as [|[i a] l IH]; [done|]. cbn. rewrite not_elem_of_cons. intros [Hne Hl]. destruct (Nat.eqb_spec i id) as [->|]; [done|]. by apply IH.
Qed.
Lemma get_in {A} id (a : A) l : NoDup l.*1 -> (id, a) ∈ l -> get id l = Some a.
Proof.
  induction l as [|[i b] l IH]; cbn; [intros _ H; by apply elem_of_nil in H|]. intros [Hi Hn]%NoDup_cons [[= <- <-]|Hin]%elem_of_cons; [by rewrite Nat.eqb_refl|].
  destruct (Nat.eqb_spec i id) as [->|]; [|by apply IH]. exfalso. apply Hi. apply list_elem_of_fmap. by exists (id, a).
Qed.
Lemma waiting_in id w l : (id, w) ∈ waiting l <-> (id, Waiting w) ∈ l.
Proof.
  unfold waiting. rewrite list_elem_of_omap. split.
  - intros ([i st] & Hin & E). cbn in E. destruct st; try done. by injection E as -> ->.
  - intros Hin. by exists (id, Waiting w).
Qed.
(** What the loop does to each waiter. *)
Lemma wake_loop_ok n l : forall count, count < n ->
  let '(ws, l') := wake_loop count n l in ws = (take (Z.to_nat (n - count)) (waiting l)).*2 /\ l'.*1 = l.*1 /\
    (forall id w, (id, w) ∈ take (Z.to_nat (n - count)) (waiting l) -> (id, Notified) ∈ l') /\
    (forall id w, (id, w) ∈ drop (Z.to_nat (n - count)) (waiting l) -> (id, Waiting w) ∈ l').
Proof.
  induction l as [|[i st] l IH]; intros count Hc; cbn [wake_loop].
  { cbn. rewrite take_nil, drop_nil. split_and!; try done; intros id w H; by apply elem_of_nil in H. }
  destruct st as [w0| |q].
  - change (waiting ((i, Waiting w0) :: l)) with ((i, w0) :: waiting l). destruct (Z.eqb_spec (count + 1) n) as [<-|Hne].
    + replace (Z.to_nat (count + 1 - count)) with 1%nat by lia. cbn. split_and!; try done.
      * intros id w [[= -> ->]|H]%elem_of_cons; [by left|by apply elem_of_nil in H].
      * intros id w Hd. right. apply waiting_in. by rewrite drop_0 in Hd.
    + specialize (IH (count + 1) ltac:(lia)). destruct (wake_loop (count + 1) n l) as [ws l']. destruct IH as (-> & Hk & H1 & H2).
      replace (Z.to_nat (n - count)) with (S (Z.to_nat (n - (count + 1)))) by lia. cbn [take drop firstn skipn fmap list_fmap]. split_and!; [done|cbn; by rewrite Hk| |].
      * intros id w [[= -> ->]|H]%elem_of_cons; [by left|right; by eapply H1].
      * intros id w H. right. by apply H2.
  - specialize (IH count Hc). destruct (wake_loop count n l) as [ws l']. destruct IH as (-> & Hk & H1 & H2). change (waiting ((i, Notified) :: l)) with (waiting l).
    split_and!; [done|cbn; by rewrite Hk|intros id w H; right; by eapply H1|intros id w H; right; by apply H2].
  - specialize (IH count Hc). destruct (wake_loop count n l) as [ws l']. destruct IH as (-> & Hk & H1 & H2). change (waiting ((i, Requed q) :: l)) with (waiting l).
    split_and!; [done|cbn; by rewrite Hk|intros id w H; right; by eapply H1|intros id w H; right; by apply H2].
Qed.
(** A number that is not above the count is never met. *)
Lemma wake_loop_all n m l : forall count, n <= count -> count + Z.of_nat (length l) < m -> wake_loop count n l = wake_loop count m l.
Proof.
  induction l as [|[i st] l IH]; intros count Hn Hm; [done|]. cbn [wake_loop length] in *.
  destruct st; [rewrite !(proj2 (Z.eqb_neq _ _)) by lia|..]; (rewrite IH by lia; done).
Qed.
Lemma waiting_length l : (length (waiting l) <= length l)%nat.
Proof. unfold waiting. induction l as [|[i st] l IH]; [done|]. destruct st; simpl; (by apply le_n_S) || (by apply Nat.le_le_succ_r). Qed.
(** How many of the waiters are woken at most. *)
Definition to_wake (n : Z) (x : FutexQueue) : nat := if n =? 0 then length (waiting (wakers x)) else Z.to_nat n.
Lemma wake_ok n x : 0 <= n -> let '(ws, l') := wake_loop 0 n (wakers x) in ws = (take (to_wake n x) (waiting (wakers x))).*2 /\ l'.*1 = (wakers x).*1 /\
    (forall id w, (id, w) ∈ take (to_wake n x) (waiting (wakers x)) -> (id, Notified) ∈ l') /\
    (forall id w, (id, w) ∈ drop (to_wake n x) (waiting (wakers x)) -> (id, Waiting w) ∈ l').
Proof.
  intros Hn. unfold to_wake. destruct (Z.eqb_spec n 0) as [->|Hne]; [|pose proof (wake_loop_ok n (wakers x) 0 ltac:(lia)) as H; by rewrite Z.sub_0_r in H].
  set (m := Z.of_nat (length (wakers x)) + 1). rewrite (wake_loop_all 0 m) by lia. pose proof (wake_loop_ok m (wakers x) 0 ltac:(lia)) as H.
  pose proof (waiting_length (wakers x)). rewrite firstn_all, skipn_all. by rewrite firstn_all2, skipn_all2 in H by lia.
Qed.

(** C35: waking [n] waiters of a queue.  The first ones that wait, as many as asked for or
    all of them, have their wakers called and are ready when they are polled next; those
    behind them keep waiting, with the wakers they had; the number returned is that of the
    wakers called.  With 0 for [n] it is all that wait: the loop counts first and compares
    then. *)
Theorem futex_wake_spec n x : NoDup (wakers x).*1 -> 0 <= n ->
  let '(count, ws, x') := wake n x in
  ws = (take (to_wake n x) (waiting (wakers x))).*2 /\ count = Z.of_nat (to_wake n x `min` length (waiting (wakers x))) /\
  (forall id w v, (id, w) ∈ take (to_wake n x) (waiting (wakers x)) -> (queue_poll id v x').1 = Ready) /\
  (forall id w v, (id, w) ∈ drop (to_wake n x) (waiting (wakers x)) -> (queue_poll id v x').1 = Pending /\ get id (wakers x') = Some (Waiting w)).
Proof.
  intros Hnd Hn. unfold wake. pose proof (wake_ok n x Hn) as Hl. destruct (wake_loop 0 n (wakers x)) as [ws l']. destruct Hl as (-> & Hk & H1 & H2).
  assert (Hnd' : NoDup l'.*1) by (by rewrite Hk). split_and!; [done|rewrite length_fmap, length_take; lia| |].
  - intros id w v Hin. unfold queue_poll. cbn. by rewrite (get_in id Notified l' Hnd' (H1 id w Hin)).
  - intros id w v Hin. pose proof (get_in id (Waiting w) l' Hnd' (H2 id w Hin)) as Hg. unfold queue_poll. cbn. by rewrite Hg.
Qed.
Definition three : FutexQueue := mk_queue 0x1000 (-4) [(1%nat, Waiting 11); (2%nat, Notified); (3%nat, Waiting 13)].
Lemma futex_wake_spec_witness : (wake 1 three).1 = (1, [11%nat]) /\ (queue_poll 1 0 (wake 1 three).2).1 = Ready /\ (queue_poll 3 0 (wake 1 three).2).1 = Pending.
Proof.
  assert (Hnd : NoDup (wakers three).*1) by (cbn; repeat (apply NoDup_cons; split; [set_solver|]); apply NoDup_nil_2).
  pose proof (futex_wake_spec 1 three Hnd ltac:(lia)) as H. destruct (wake 1 three) as [[count ws] x'] eqn:E. cbn [fst snd]. destruct H as (-> & -> & H1 & H2). split; [reflexivity|]. split.
  - apply (H1 1%nat 11%nat). by left.
  - apply (H2 3%nat 13%nat). by left.
Defined.

(** ** What does not hold *)
(** The first one to wait on a futex does not wait. *)
Example first_wait : (fun x => x.1.1) <$> (let '(f, s) := wait 0x1000 new in wait_poll 5 7 f s) = Some true.
Proof. vm_compute. reflexivity. Qed.
(** Nobody is to be woken: all are. *)
Example wake_nobody : (wake 0 (mk_queue 0x1000 (-3) [(1%nat, Waiting 11); (2%nat, Waiting 12)])).1 = (2, [11%nat; 12%nat]).
Proof. reflexivity. Qed.
(** Three wait; one is to be woken and one to be moved.  The one that is woken is taken
    out of the queue, and waits again when it is polled; the third is taken out without
    being woken or moved. *)
Definition busy : Futexes := mk_futexes {[0x1000 := 0%nat; 0x2000 := 1%nat]} {[0%nat := mk_queue 0x1000 (-4) [(1%nat, Waiting 11); (2%nat, Waiting 12); (3%nat, Waiting 13)]; 1%nat := mk_queue 0x2000 0 []]} 4 [] 0.
Definition moved : Futexes := match requeue 0x1000 0x2000 1 1 busy with Some (_, s) => s | None => busy end.
Example requeue_loses : (woken moved, wakers <$> queues moved !! 0%nat, wakers <$> queues moved !! 1%nat, (fun x => x.1.1) <$> wait_poll 5 11 (mk_wait 0 (Some 1%nat)) moved) =
  ([11%nat], Some [(2%nat, Requed 1)], Some [(2%nat, Waiting 12)], Some false).
Proof. vm_compute. reflexivity. Qed.
(** A copy has the waiters of the original: a wake in the child is spent on one of them
    and the waiter of the child goes on waiting. *)
Definition parent : Futexes := mk_futexes {[0x1000 := 0%nat]} {[0%nat := mk_queue 0x1000 (-2) [(1%nat, Waiting 11)]]} 2 [] 0.
Example fork_ghost : (let '(m, s) := deep_fork parent in let '(f, s) := wait 0x1000 (as_child m s) in
  r ← wait_poll 5 12 f s; n ← notify 0x1000 1 r.2; again ← wait_poll 5 12 r.1.2 n.2;
  Some (r.1.1, n.1, woken n.2, again.1.1)) = Some (false, 1, [11%nat], false).
Proof. vm_compute. reflexivity. Qed.
