(* ===== verification/User.v ===== *)
(** * kernel: pointers of a program

    mizu/kernel/src/mem/user.rs.  The memory of the program is a parameter of the
    functions: what a load of a byte gives and what a store makes of it in a state of the
    address space, or none where the access is a page fault; and [commit], which is
    [Virt::commit] with the rights it is asked for, with its errors.  The copies are the
    loops of trap.S; a fault ends one of them with its address ([ktrap_handler]).  Kernel
    addresses are addresses like the others: nothing here compares an address with
    [USER_RANGE].  [utf8] is [CStr::to_str]. *)

From S2P Require Import Prelude Ksc Bytes Paging.

Import PG Errno.

Module User.
(** [checked_op]: [op] is tried; it returns the address of the fault it meets, or 0.  The
    page of the fault is committed, and the same address twice is the end. *)
Fixpoint checked_op {X} (n : nat) (op : X -> Z * X) (commit : Z -> X -> res Error unit * X) (last_addr : option Z) (x : X) : option (res Error unit * X) :=
  match n with
  | O => None
  | S n =>
      let '(addr, x) := op x in
      if addr =? 0 then Some (Ok tt, x)
      else if bool_decide (last_addr = Some addr) then Some (Err EFAULT, x)
      else match commit addr x with
           | (Ok _, x) => checked_op n op commit (Some addr) x
           | (Err e, x) => Some (Err e, x)
           | (Panic, x) => Some (Panic, x)
           end
  end.

Section User.
Context {W : Type} (load : W -> Z -> option Z) (store : W -> Z -> Z -> option W).
Context (commit : Z -> Z -> W -> res Error unit * W) (utf8 : list Z -> bool).
Notation M := (PT W Error).

(** [_checked_copy] from the program to the buffer [dst]. *)
Fixpoint copy_in (w : W) (src : Z) (count : nat) (dst : list Z) : Z * list Z :=
  match count, dst with
  | S count, d :: dst =>
      match load w src with
      | Some b => let '(addr, dst) := copy_in w (wadd 64 src 1) count dst in (addr, b :: dst)
      | None => (src, d :: dst)
      end
  | _, _ => (0, dst)
  end.
(** [checked_copy] from the program: the buffer as it is left. *)
Definition checked_copy (n : nat) (src count : Z) (dst : list Z) : M (list Z) := fun w =>
  match checked_op n (fun '(w, dst) => let '(addr, dst) := copy_in w src (Z.to_nat count) dst in (addr, (w, dst)))
          (fun addr '(w, dst) => let '(r, w) := commit addr READABLE w in (r, (w, dst))) None (w, dst) with
  | Some (Ok _, (w, dst)) => Some (Ok dst, w)
  | Some (Err e, (w, _)) => Some (Err e, w)
  | Some (Panic, (w, _)) => Some (Panic, w)
  | None => None
  end.
(** [_checked_copy] to the program; with a list of zeros it is [_checked_zero]. *)
Fixpoint copy_out (dst : Z) (src : list Z) (w : W) : Z * W :=
  match src with
  | [] => (0, w)
  | b :: src => match store w dst b with Some w => copy_out (wadd 64 dst 1) src w | None => (dst, w) end
  end.
Definition checked_store (n : nat) (dst : Z) (src : list Z) : M unit := checked_op n (copy_out dst src) (fun addr => commit addr WRITABLE) None.

(** [paged_op]: [f] gets a range that is in one page and what it gave before. *)
Section Paged.
Context {U : Type} (f : Z -> Z -> U -> M (U * bool)).
Fixpoint paged_loop (n : nat) (start end_ len : Z) (arg : U) : M U :=
  match n with
  | O => fun _ => None
  | S n =>
      '(arg, cont) ← f start end_ arg;
      if negb cont then mret arg
      else
        let len := wsub 64 len (wsub 64 end_ start) in
        if len =? 0 then pt_throw ERANGE
        else paged_loop n end_ (Z.min (wadd 64 end_ PAGE_SIZE) (wadd 64 end_ len)) len arg
  end.
Definition paged_op (n : nat) (addr size len : Z) (arg : U) : M U :=
  let end_ := Z.land (wadd 64 addr PAGE_MASK) (wnot 64 PAGE_MASK) in
  let len := wmul 64 len size in
  match checked_add 64 addr len with
  | None => pt_throw EINVAL
  | Some e =>
      if e <=? end_ then
        '(ret, cont) ← f addr (wadd 64 addr len) arg;
        if negb cont then mret ret else pt_throw ERANGE
      else paged_loop n addr end_ len arg
  end.
End Paged.

(** [read_str]: the part of the buffer that has been read and the rest of it. *)
Definition str_inner (n : nat) (start end_ : Z) (buf : list Z * list Z) : M ((list Z * list Z) * bool) :=
  let count := wsub 64 end_ start in
  rest ← checked_copy n start count buf.2;
  if Z.of_nat (length rest) <? count then pt_res Panic
  else
    let got := take (Z.to_nat count) rest in
    mret ((buf.1 ++ got, drop (Z.to_nat count) rest), negb (existsb (Z.eqb 0) got)).
Fixpoint until_nul (bs : list Z) : option (list Z) :=
  match bs with [] => None | b :: bs => if b =? 0 then Some [] else cons b <$> until_nul bs end.
Definition to_str (buf : list Z) : res Error (list Z) :=
  match until_nul buf with Some s => if utf8 s then Ok s else Err EINVAL | None => Err ENAMETOOLONG end.
Definition read_str (n : nat) (addr : Z) (buf : list Z) : M (list Z) :=
  '(got, rest) ← paged_op (str_inner n) n addr 1 (Z.of_nat (length buf)) ([], buf);
  pt_res (to_str (got ++ rest)).
Definition DOT : Z := 46.
Definition SLASH : Z := 47.
Definition strip_prefix (c : Z) (s : list Z) : option (list Z) := match s with b :: s => if b =? c then Some s else None | [] => None end.
(** The path and whether it starts at the root. *)
Definition path_of (s : list Z) : list Z * bool :=
  match strip_prefix DOT s with
  | Some rel => (default rel (strip_prefix SLASH rel), false)
  | None => match strip_prefix SLASH s with Some p => (p, true) | None => (s, false) end
  end.
Definition read_path (n : nat) (addr : Z) (buf : list Z) : M (list Z * bool) := s ← read_str n addr buf; mret (path_of s).
(** [read] and [read_slice] of the values whose bytes are [data]. *)
Definition read_slice (n : nat) (addr align : Z) (data : list Z) : M (list Z) :=
  if negb (addr mod align =? 0) || (addr =? 0) then pt_throw EFAULT else checked_copy n addr (Z.of_nat (length data)) data.
(** [write] and [write_slice] of values of [size] bytes. *)
Definition write_slice (n : nat) (addr align size : Z) (data : list Z) (add_tail_zero : bool) : M unit :=
  if negb (addr mod align =? 0) || (addr =? 0) then pt_throw EFAULT
  else
    _ ← checked_store n addr data;
    if add_tail_zero then checked_store n (wadd 64 addr (Z.of_nat (length data))) (replicate (Z.to_nat size) 0) else mret tt.
End User.
End User.

(** * kernel: strings of a program are read page by page *)
Import PG Errno User.

Lemma until_nul_zero bs : existsb (Z.eqb 0) bs = match until_nul bs with Some _ => true | None => false end.
Proof. induction bs as [|b bs IH]; [done|]. cbn [existsb until_nul]. rewrite (Z.eqb_sym 0 b). destruct (b =? 0); [done|]. cbn [orb]. rewrite IH. by destruct (until_nul bs). Qed.
Lemma until_nul_app got bs s pad : until_nul got = None -> until_nul bs = Some s -> until_nul (got ++ bs ++ pad) = Some (got ++ s).
Proof.
  intros Hg Hb. induction got as [|g got IH]; cbn in *.
  - clear Hg. revert s Hb. induction bs as [|b bs IH]; intros s Hb; [done|]. cbn in *. destruct (b =? 0); [done|]. destruct (until_nul bs) as [s'|]; [|done]. injection Hb as <-. by rewrite (IH s').
  - destruct (g =? 0); [done|]. destruct (until_nul got); [done|]. by rewrite IH.
Qed.
Lemma until_nul_none a b : until_nul a = None -> until_nul b = None -> until_nul (a ++ b) = None.
Proof. intros Ha Hb. induction a as [|x a IH]; [done|]. cbn in *. destruct (x =? 0); [done|]. destruct (until_nul a); [done|]. by rewrite IH. Qed.

Section UserSpec.
Context {W : Type} (load : W -> Z -> option Z) (commit : Z -> Z -> W -> res Error unit * W) (utf8 : list Z -> bool).
(** A page can be read as a whole or not at all. *)
Hypothesis load_paged : forall w x y, x / 4096 = y / 4096 -> load w x <> None -> load w y <> None.

(** A byte, with the fault that it may take, and the string byte by byte, at most [n] with its end. *)
Definition byte_at (a : Z) : PT W Error Z := fun w =>
  match load w a with
  | Some b => Some (Ok b, w)
  | None => match commit a READABLE w with
            | (Ok _, w) => Some (match load w a with Some b => Ok b | None => Err EFAULT end, w)
            | (Err e, w) => Some (Err e, w)
            | (Panic, w) => Some (Panic, w)
            end
  end.
Fixpoint string_at (n : nat) (a : Z) : PT W Error (list Z) :=
  match n with
  | O => pt_throw ERANGE
  | S n => b ← byte_at a; if b =? 0 then mret [] else s ← string_at n (a + 1); mret (b :: s)
  end.

(** ** One copy *)
Fixpoint bytes_at (w : W) (k : nat) (a : Z) : option (list Z) :=
  match k with O => Some [] | S k => b ← load w a; bs ← bytes_at w k (a + 1); Some (b :: bs) end.
Lemma bytes_length w k : forall a bs, bytes_at w k a = Some bs -> length bs = k.
Proof.
  induction k as [|k IH]; intros a bs E; cbn in E; [by injection E as <-|]. destruct (load w a); [|done]. cbn in E.
  destruct (bytes_at w k (a + 1)) as [bs'|] eqn:E'; [|done]. injection E as <-. cbn. by rewrite (IH _ _ E').
Qed.
Lemma bytes_page w k : forall a, load w a <> None -> (a + Z.of_nat k - 1) / 4096 <= a / 4096 -> is_Some (bytes_at w k a).
Proof.
  induction k as [|k IH]; intros a Ha Hp; [by exists []|]. cbn [bytes_at]. destruct (load w a) as [b|] eqn:E; [|done]. cbn.
  destruct k as [|k]; [by exists [b]|]. assert (Hs : (a + 1) / 4096 = a / 4096) by (Z.div_mod_to_equations; lia).
  destruct (IH (a + 1)) as (bs & El); [apply (load_paged w a); [done|by rewrite E]|rewrite Hs; etransitivity; [|exact Hp]; apply Z.div_le_mono; lia|].
  rewrite El. by exists (b :: bs).
Qed.
Lemma copy_in_all w k : forall a bs dst, bytes_at w k a = Some bs -> 0 <= a -> a + Z.of_nat k < 2 ^ 64 -> (k <= length dst)%nat -> copy_in load w a k dst = (0, bs ++ drop k dst).
Proof.
  induction k as [|k IH]; intros a bs dst E Ha Hb Hl; cbn in E; [by injection E as <-|]. destruct dst as [|d dst]; [cbn in Hl; lia|]. cbn [copy_in].
  destruct (load w a) as [b|]; [|done]. cbn in E. destruct (bytes_at w k (a + 1)) as [bs'|] eqn:E'; [|done]. injection E as <-.
  rewrite wadd_small by (unfold fits; lia). cbn in Hl. by rewrite (IH _ _ dst E') by lia.
Qed.
Lemma copy_in_fault w k a dst : load w a = None -> (0 < k <= length dst)%nat -> copy_in load w a k dst = (a, dst).
Proof. intros E Hk. destruct k; [lia|]. destruct dst; cbn in *; [lia|]. by rewrite E. Qed.
(** A copy of bytes of one page is that of its first byte and of the rest without a fault. *)
Lemma checked_copy_page n a k dst w : (2 <= n)%nat -> 0 < a -> (0 < k <= length dst)%nat -> a + Z.of_nat k < 2 ^ 64 -> (a + Z.of_nat k - 1) / 4096 <= a / 4096 ->
  match byte_at a w with
  | Some (Ok b, w') => load w' a = Some b /\ exists bs, bytes_at w' k a = Some bs /\ checked_copy load commit n a (Z.of_nat k) dst w = Some (Ok (bs ++ drop k dst), w')
  | Some (Err e, w') => checked_copy load commit n a (Z.of_nat k) dst w = Some (Err e, w')
  | Some (Panic, w') => checked_copy load commit n a (Z.of_nat k) dst w = Some (Panic, w')
  | None => False
  end.
Proof.
  intros Hn Ha Hk Hb Hp. destruct n as [|[|n]]; [lia..|]. unfold byte_at, checked_copy. rewrite Nat2Z.id. cbn [checked_op].
  destruct (load w a) as [b|] eqn:E.
  - destruct (bytes_page w k a) as [bs Eb]; [by rewrite E|done|]. rewrite (copy_in_all _ _ _ _ _ Eb) by lia. split; [done|]. by exists bs.
  - rewrite (copy_in_fault w k a dst E Hk), (proj2 (Z.eqb_neq a 0)) by lia. rewrite bool_decide_false by done.
    destruct (commit a READABLE w) as [[[]|e|] w']; [|done|done]. destruct (load w' a) as [b|] eqn:E'.
    + destruct (bytes_page w' k a) as [bs Eb]; [by rewrite E'|done|]. rewrite (copy_in_all _ _ _ _ _ Eb) by lia. split; [done|]. by exists bs.
    + rewrite (copy_in_fault w' k a dst E' Hk), (proj2 (Z.eqb_neq a 0)) by lia. by rewrite bool_decide_true.
Qed.

(** ** The string *)
(** Bytes that have been loaded, and the string that starts with them. *)
Lemma string_load w k : forall n a bs, bytes_at w k a = Some bs -> (k <= n)%nat ->
  string_at n a w = match until_nul bs with Some s => Some (Ok s, w) | None => (s ← string_at (n - k) (a + Z.of_nat k); mret (bs ++ s)) w end.
Proof.
  induction k as [|k IH]; intros n a bs E Hn; cbn [bytes_at] in E.
  - injection E as <-. cbn. rewrite Nat.sub_0_r, Z.add_0_r. unfold mbind, PT_bind. by destruct (string_at n a w) as [[[] ?]|].
  - destruct (load w a) as [b|] eqn:Eb; [|done]. cbn in E. destruct (bytes_at w k (a + 1)) as [bs'|] eqn:El; [|done]. injection E as <-.
    destruct n as [|n]; [lia|]. cbn [string_at until_nul Nat.sub]. rewrite (PT_bind_Ok _ _ _ b w) by (unfold byte_at; by rewrite Eb). destruct (b =? 0); [done|].
    unfold mbind, PT_bind. rewrite (IH n (a + 1) bs' El) by lia. replace (a + 1 + Z.of_nat k) with (a + Z.of_nat (S k)) by lia.
    destruct (until_nul bs') as [s|]; cbn [fmap option_fmap option_map]; [done|]. unfold mbind, PT_bind. by destruct (string_at (n - k) _ w) as [[[] ?]|].
Qed.
Lemma string_fault n a w : match byte_at a w with
  | Some (Ok b, w') => string_at (S n) a w = string_at (S n) a w'
  | Some (Err e, w') => string_at (S n) a w = Some (Err e, w')
  | Some (Panic, w') => string_at (S n) a w = Some (Panic, w')
  | None => False
  end.
Proof.
  cbn [string_at]. unfold mbind, PT_bind. destruct (byte_at a w) as [[[b|e|] w']|] eqn:E; [|done|done|].
  - assert (byte_at a w' = Some (Ok b, w')) as ->; [|done]. revert E. unfold byte_at. destruct (load w a) as [c|] eqn:E1; [intros [= <- <-]; by rewrite E1|].
    destruct (commit a READABLE w) as [[[]|e|] w1]; try done. destruct (load w1 a) as [c|] eqn:E2; [|done]. intros [= <- <-]. by rewrite E2.
  - revert E. unfold byte_at. destruct (load w a); [done|]. by destruct (commit a READABLE w) as [[[]|e|] w1].
Qed.
(** What has been read decides the string. *)
Definition agrees (got : list Z) (r : option (res Error (list Z) * W)) (o : option (res Error (list Z * list Z) * W)) : Prop :=
  match r, o with
  | Some (Ok s, w), Some (Ok (g, rest), w') => w = w' /\ until_nul (g ++ rest) = Some (got ++ s)
  | Some (Err e, w), Some (Err e', w') => e = e' /\ w = w'
  | Some (Panic, w), Some (Panic, w') => w = w'
  | _, _ => False
  end.
Lemma agrees_after got bs (r : PT W Error (list Z)) w o : agrees (got ++ bs) (r w) o -> agrees got ((s ← r; mret (bs ++ s)) w) o.
Proof. unfold mbind, PT_bind. destruct (r w) as [[[s|e|] w1]|]; [|done..]. destruct o as [[[[g rest]|e|] w2]|]; try done. cbn. by rewrite app_assoc. Qed.
(** One range in a page. *)
Lemma chunk_ok n start end_ got rest w : (2 <= n)%nat -> 0 < start -> start <= end_ -> end_ - start <= Z.of_nat (length rest) -> start + Z.of_nat (length rest) < 2 ^ 64 ->
  (end_ - 1) / 4096 <= start / 4096 -> until_nul got = None ->
  match str_inner load commit n start end_ (got, rest) w with
  | Some (Ok (g, rest', false), w') => agrees got (string_at (length rest) start w) (Some (Ok (g, rest'), w'))
  | Some (Ok (g, rest', true), w') => until_nul g = None /\ Z.of_nat (length rest') = Z.of_nat (length rest) - (end_ - start) /\
      forall o, agrees g (string_at (length rest') end_ w') o -> agrees got (string_at (length rest) start w) o
  | Some (Err e, w') => string_at (length rest) start w = Some (Err e, w')
  | Some (Panic, w') => string_at (length rest) start w = Some (Panic, w')
  | None => False
  end.
Proof.
  intros Hn H0 Hse Hel Hb Hp Hg. unfold str_inner. rewrite wsub_small by (unfold fits; lia). cbn [fst snd].
  destruct (Z.eq_dec (end_ - start) 0) as [Hz|Hz].
  { rewrite (PT_bind_Ok _ _ _ rest w) by (rewrite Hz; unfold checked_copy; destruct n; [lia|]; done). rewrite Hz, (proj2 (Z.ltb_ge _ _)) by lia.
    change (Z.to_nat 0) with 0%nat. rewrite take_0, drop_0, app_nil_r. cbn. split; [done|]. split; [lia|]. by replace end_ with start by lia. }
  set (k := Z.to_nat (end_ - start)). replace (end_ - start) with (Z.of_nat k) by lia.
  pose proof (checked_copy_page n start k rest w Hn H0 ltac:(lia) ltac:(lia) ltac:(etransitivity; [|exact Hp]; apply Z.div_le_mono; lia)) as Hc.
  destruct (length rest) as [|m] eqn:El; [lia|]. pose proof (string_fault m start w) as Hs. unfold mbind at 1, PT_bind at 1.
  destruct (byte_at start w) as [[[b|e|] w']|]; [|by rewrite Hc|by rewrite Hc|done]. destruct Hc as (_ & bs & Eb & Ec). pose proof (bytes_length _ _ _ _ Eb) as Hk.
  rewrite Ec. rewrite (proj2 (Z.ltb_ge _ _)) by (rewrite length_app, length_drop; lia). rewrite ?Nat2Z.id, take_app_length', drop_app_length' by done. cbn [mret PT_ret].
  rewrite Hs, (string_load w' k (S m) start bs Eb) by lia. rewrite until_nul_zero. destruct (until_nul bs) as [s|] eqn:Eu; cbn [negb].
  - cbn. split; [done|]. rewrite <- app_assoc. by apply until_nul_app.
  - split; [by apply until_nul_none|]. rewrite length_drop, El. split; [lia|]. intros o Ho. apply agrees_after. by replace (start + Z.of_nat k) with end_ by lia.
Qed.
Lemma paged_loop_ok fuel n : (2 <= fuel)%nat -> forall start end_ len got rest w, len = Z.of_nat (length rest) -> 0 < start -> start <= end_ -> end_ <= start + len -> start + len + 4096 < 2 ^ 64 -> 0 < len ->
  (end_ - 1) / 4096 <= start / 4096 -> (end_ mod 4096 = 0 \/ end_ = start + len) -> until_nul got = None -> (len - (end_ - start) + 4095) / 4096 < Z.of_nat n ->
  agrees got (string_at (length rest) start w) (paged_loop (str_inner load commit fuel) n start end_ len (got, rest) w).
Proof.
  intros Hf. induction n as [|n IH]; intros start end_ len got rest w Hr H0 Hse Hel Hb Hlen Hp He Hg Hn; [Z.div_mod_to_equations; lia|]. cbn [paged_loop].
  pose proof (chunk_ok fuel start end_ got rest w Hf H0 Hse ltac:(lia) ltac:(lia) Hp Hg) as Hc. unfold mbind, PT_bind.
  destruct (str_inner load commit fuel start end_ (got, rest) w) as [[[[[g rest'] [|]]|e|] w']|]; cbn [negb]; [|done|by rewrite Hc|by rewrite Hc|done].
  destruct Hc as (Hg' & Hr' & Hc). apply Hc. rewrite !wsub_small by (try rewrite wsub_small; unfold fits; lia). destruct (Z.eqb_spec (len - (end_ - start)) 0) as [Hz|Hz].
  - by replace (length rest') with 0%nat by lia.
  - rewrite !wadd_small by (change PAGE_SIZE with 4096; unfold fits; lia). change PAGE_SIZE with 4096. set (len' := len - (end_ - start)) in *. destruct He as [He|He]; [|lia].
    apply IH; try done; try lia.
    + destruct (Z.min_spec (end_ + 4096) (end_ + len')) as [[_ ->]|[? ->]]; Z.div_mod_to_equations; lia.
    + destruct (Z.min_spec (end_ + 4096) (end_ + len')) as [[_ ->]|[? ->]]; [left; Z.div_mod_to_equations; lia|by right].
    + destruct (Z.min_spec (end_ + 4096) (end_ + len')) as [[_ ->]|[? ->]]; Z.div_mod_to_equations; lia.
Qed.
Lemma paged_op_ok n addr buf w : (2 <= n)%nat -> 0 < addr -> addr + Z.of_nat (length buf) + 8192 < 2 ^ 64 -> (Z.of_nat (length buf) + 4095) / 4096 < Z.of_nat n ->
  agrees [] (string_at (length buf) addr w) (paged_op (str_inner load commit n) n addr 1 (Z.of_nat (length buf)) ([], buf) w).
Proof.
  intros Hf Ha Hb Hn. unfold paged_op. set (len := Z.of_nat (length buf)) in *. assert (0 <= len) by lia.
  rewrite wmul_small by (unfold fits; lia). rewrite Z.mul_1_r. unfold checked_add. rewrite (proj2 (Z.ltb_lt _ _)) by lia. rewrite !wadd_small by (change PAGE_MASK with 4095; unfold fits; lia).
  change PAGE_MASK with (2 ^ 12 - 1). rewrite (land_not_mask 64) by (try lia; unfold fits; lia). change (2 ^ 12) with 4096. set (e := (addr + (4096 - 1)) / 4096 * 4096).
  assert (He : addr <= e < addr + 4096 /\ e mod 4096 = 0 /\ (e - 1) / 4096 <= addr / 4096) by (unfold e; Z.div_mod_to_equations; lia). clearbody e.
  destruct (Z.leb_spec (addr + len) e) as [Hd|Hd].
  - pose proof (chunk_ok n addr (addr + len) [] buf w Hf Ha ltac:(lia) ltac:(lia) ltac:(lia) ltac:(etransitivity; [|apply He]; apply Z.div_le_mono; lia) eq_refl) as Hc.
    unfold mbind, PT_bind. destruct (str_inner load commit n addr (addr + len) ([], buf) w) as [[[[[g rest'] [|]]|er|] w']|]; cbn [negb]; [|done|by rewrite Hc|by rewrite Hc|done].
    destruct Hc as (_ & Hr & Hc). apply Hc. by replace (length rest') with 0%nat by lia.
  - apply paged_loop_ok; try done; try lia; try tauto. eapply Z.le_lt_trans; [|exact Hn]. apply Z.div_le_mono; lia.
Qed.

(** C33: a string of a program at an address other than 0 that is read page by page, into
    a buffer, is the string that is found byte by byte, and the address space is left in
    the same state: the same faults are served.  It is the bytes up to the first zero if
    that is among as many bytes as the buffer has and they can be read, whatever is in the
    pages behind it; the error of the fault if a byte before it takes one that cannot be
    served, and EFAULT if the byte cannot be read after it has been; ERANGE if there is no
    zero.  A string that is not UTF-8 is EINVAL.  The loop ends after one round for each
    page.  At the address 0 a fault is not noticed ([null_string]). *)
Theorem read_str_equiv n addr buf w : (2 <= n)%nat -> 0 < addr -> addr + Z.of_nat (length buf) + 8192 < 2 ^ 64 -> (Z.of_nat (length buf) + 4095) / 4096 < Z.of_nat n ->
  read_str load commit utf8 n addr buf w = (s ← string_at (length buf) addr; pt_res (if utf8 s then Ok s else Err EINVAL)) w.
Proof.
  intros Hf Ha Hb Hn. pose proof (paged_op_ok n addr buf w Hf Ha Hb Hn) as Hp. unfold read_str, mbind, PT_bind.
  destruct (string_at (length buf) addr w) as [[[s|e|] w1]|], (paged_op _ n addr 1 _ ([], buf) w) as [[[[g rest]|e'|] w2]|]; cbn in Hp; try done.
  - destruct Hp as [<- Hu]. unfold to_str. by rewrite Hu.
  - by destruct Hp as [-> ->].
  - by subst.
Qed.
End UserSpec.

(** ** Runs *)
(** Four pages.  The first has the end of a string at its end; the second cannot be read,
    the third is not allowed, the fourth is not there before a fault. *)
Definition load0 (w : bool) (a : Z) : option Z :=
  if a / 4096 =? 1 then Some (if a =? 0x1fff then 0 else 97) else if (a / 4096 =? 4) && w then Some (if a =? 0x4002 then 0 else 98) else None.
Definition commit0 (a _ : Z) (w : bool) : res Error unit * bool :=
  if a / 4096 =? 4 then (Ok tt, true) else if a / 4096 =? 3 then (Err EPERM, w) else (Err EFAULT, w).
Lemma load0_paged w x y : x / 4096 = y / 4096 -> load0 w x <> None -> load0 w y <> None.
Proof. unfold load0. intros <- Hx. by repeat case_match. Qed.
Definition read0 (addr : Z) : PT bool Error (list Z) := read_str load0 commit0 (fun _ => true) 3 addr (replicate 256 0).
Lemma read_str_equiv_witness : read0 0x1ffd false = Some (Ok [97; 97], false) /\ read0 0x4000 false = Some (Ok [98; 98], true) /\ read0 0x3000 false = Some (Err EPERM, false).
Proof.
  unfold read0. rewrite !(read_str_equiv load0 commit0 (fun _ => true) load0_paged) by (vm_compute; (reflexivity || discriminate || lia)).
  split; [vm_compute; reflexivity|]. split; vm_compute; reflexivity.
Defined.
(** The fault at the address 0 is taken for a copy without a fault: the string is what the
    buffer had before. *)
Example null_string : read0 0 false = Some (Ok [], false) /\ read_str load0 commit0 (fun _ => true) 3 0 [120; 121; 0; 0] false = Some (Ok [120; 121], false).
Proof. by vm_compute. Qed.
(** The file with a dot in front is another one, and the directory above is the directory
    itself. *)
Example dot_file : path_of [46; 97] = ([97], false) /\ path_of [46; 46] = ([46], false) /\ path_of [46; 46; 47; 97] = ([46; 47; 97], false).
Proof. by vm_compute. Qed.

(** What a program is given is what it reads. *)
Section WriteRead.
Context {W : Type} (load : W -> Z -> option Z) (store : W -> Z -> Z -> option W) (commit : Z -> Z -> W -> res Error unit * W).
Hypothesis store_load : forall w a b w' x, store w a b = Some w' -> load w' x = if x =? a then Some b else load w x.
Lemma copy_out_other bs : forall a w x, x < a -> 0 <= a -> a + Z.of_nat (length bs) < 2 ^ 64 -> load (copy_out store a bs w).2 x = load w x.
Proof.
  induction bs as [|b bs IH]; intros a w x Hx Ha Hb; [done|]. cbn [copy_out]. destruct (store w a b) as [w'|] eqn:E; [|done]. cbn [length] in Hb.
  rewrite wadd_small by (unfold fits; lia). rewrite IH by lia. rewrite (store_load _ _ _ _ x E). by destruct (Z.eqb_spec x a); [lia|].
Qed.
Lemma copy_out_bytes bs : forall a w w', copy_out store a bs w = (0, w') -> 0 < a -> a + Z.of_nat (length bs) < 2 ^ 64 -> bytes_at load w' (length bs) a = Some bs.
Proof.
  induction bs as [|b bs IH]; intros a w w' E Ha Hb; [done|]. cbn [copy_out] in E. destruct (store w a b) as [w1|] eqn:Es; [|injection E as ? _; lia].
  cbn [length] in *. rewrite wadd_small in E by (unfold fits; lia). cbn [bytes_at].
  pose proof (copy_out_other bs (a + 1) w1 a ltac:(lia) ltac:(lia) ltac:(lia)) as Ho. rewrite E, (store_load _ _ _ _ a Es), Z.eqb_refl in Ho. cbn in Ho.
  rewrite Ho. cbn. by rewrite (IH (a + 1) w1 w' E) by lia.
Qed.
Lemma checked_op_Ok {X} n (op : X -> Z * X) com : forall last x x', checked_op n op com last x = Some (Ok tt, x') -> exists y, op y = (0, x').
Proof.
  induction n as [|n IH]; intros last x x' E; [done|]. cbn [checked_op] in E. destruct (op x) as [addr x1] eqn:Eo. destruct (Z.eqb_spec addr 0) as [->|]; [injection E as <-; by exists x|].
  case_bool_decide; [done|]. destruct (com addr x1) as [[[]|e|] x2]; [by eapply IH|done|done].
Qed.
Lemma write_read n addr align size bs data w w' : (0 < n)%nat -> 0 < addr -> addr + Z.of_nat (length bs) < 2 ^ 64 -> length data = length bs ->
  write_slice store commit n addr align size bs false w = Some (Ok tt, w') -> read_slice load commit n addr align data w' = Some (Ok bs, w').
Proof.
  intros Hn Ha Hb Hl E. unfold write_slice in E. unfold read_slice. destruct (negb _ || _); [done|]. unfold mbind, PT_bind in E.
  destruct (checked_store store commit n addr bs w) as [[[[]|e|] w1]|] eqn:Es; [|done..]. injection E as <-. apply checked_op_Ok in Es as (y & Ey).
  apply copy_out_bytes in Ey; [|done|done]. unfold checked_copy. destruct n as [|n]; [lia|]. cbn [checked_op]. rewrite Nat2Z.id, Hl, (copy_in_all load _ _ _ _ _ Ey) by lia.
  cbn. by rewrite <- Hl, drop_all, app_nil_r.
Qed.
End WriteRead.
