(* ===== verification/WorkQueue.v ===== *)
(** * art: the work-stealing queues and the scheduler

    mizu/lib/art/src/queue.rs and sched.rs.  Every worker has a queue: it alone pushes to
    it, it pops from it, and the workers steal from each other's into their own.  [head]
    is two counters of 32 bits in one word: up to where values have been taken out,
    [real], and up to where their slots are free again, [steal].  The counters of the
    model are those that do not wrap; the words and indices the code uses are made from
    them, and all that a step does depends on the words alone.  A worker is between two
    atomic accesses, which are taken in one order for all.  The injector, a queue of
    crossbeam, is a list.
    [pushed] and [taken] are all the tasks that were scheduled and that were handed out
    to be run; [lost] are those no one has any more.  *)

From S2P Require Import Prelude.
From stdpp Require Import gmultiset.

Local Open Scope Z_scope.
Module WorkQueue.
(** [pack] and [unpack] *)
Definition pack (lower upper : Z) : Z := Z.lor lower (wshl 64 upper 32).
Definition unpack (num : Z) : Z * Z := (Z.land num (2 ^ 32 - 1), Z.shiftr num 32).

Section Queue.
Context {T : Type} `{Countable T} (K : Z).
Definition N : Z := 2 ^ K.
Definition MASK : Z := N - 1.
Definition BATCH_TO_BACKUP : Z := N / 2.
Record Inner := mk_inner { steal : Z; real : Z; tail : Z; buffer : Z -> T }.
Definition word (s r : Z) : Z := pack (wrap 32 s) (wrap 32 r).
Definition head (q : Inner) : Z := word (steal q) (real q).
(** Differences and slots of the counters of 32 bits. *)
Definition sub32 (a b : Z) : Z := wsub 32 (wrap 32 a) (wrap 32 b).
Definition index (x : Z) : Z := Z.land (wrap 32 x) MASK.
Definition len (q : Inner) : Z := sub32 (tail q) (real q).
Definition write (x : Z) (v : T) (q : Inner) : Inner := mk_inner (steal q) (real q) (tail q) (fun i => if i =? index x then v else buffer q i).
Definition set_head (s r : Z) (q : Inner) : Inner := mk_inner s r (tail q) (buffer q).
Definition set_tail (t : Z) (q : Inner) : Inner := mk_inner (steal q) (real q) t (buffer q).
(** The values in [n] slots from [a] on. *)
Definition vals (q : Inner) (a n : Z) : list T := (fun j => buffer q (index (a + j))) <$> seqZ 0 n.

(** Where a worker is; [s] and [r] are the head it has loaded.  [k] is what follows a
    steal: the stealers [steal_task] still has to try, or nothing for [steal_into]. *)
Inductive pc :=
| Idle
| Push1 (v : T)
| Push2 (v : T)
| Push3 (v : T)
| PushCas (v : T) (h : Z)
| Pop1 (inj : bool)
| Pop2 (inj : bool) (s r : Z)
| InjPop
| Steal0 (q : nat) (k : option (list nat))
| Steal1 (q : nat) (k : option (list nat))
| Steal2 (q : nat) (k : option (list nat)) (s r : Z)
| Steal3 (q : nat) (k : option (list nat)) (s r n : Z)
| Copy (q : nat) (k : option (list nat)) (first n i : Z)
| Release (q : nat) (k : option (list nat)) (n s r : Z)
| Finish (pop : bool) (n : Z).
Record sys := mk_sys { qs : nat -> Inner; pcs : nat -> pc; slots : nat -> option T; injector : list T;
  pushed : gmultiset T; taken : gmultiset T; lost : gmultiset T }.
Definition upd {A} (i : nat) (x : A) (f : nat -> A) : nat -> A := fun j => if Nat.eqb j i then x else f j.
Definition goto (i : nat) (p : pc) (s : sys) : sys := mk_sys (qs s) (upd i p (pcs s)) (slots s) (injector s) (pushed s) (taken s) (lost s).
Definition set_q (i : nat) (q : Inner) (s : sys) : sys := mk_sys (upd i q (qs s)) (pcs s) (slots s) (injector s) (pushed s) (taken s) (lost s).
Definition set_slot (i : nat) (o : option T) (s : sys) : sys := mk_sys (qs s) (pcs s) (upd i o (slots s)) (injector s) (pushed s) (taken s) (lost s).
Definition set_injector (l : list T) (s : sys) : sys := mk_sys (qs s) (pcs s) (slots s) l (pushed s) (taken s) (lost s).
Definition inject (l : list T) (s : sys) : sys := set_injector (injector s ++ l) s.
Definition give (v : T) (s : sys) : sys := mk_sys (qs s) (pcs s) (slots s) (injector s) (pushed s) (taken s ⊎ {[+ v +]}) (lost s).
Definition lose (l : list T) (s : sys) : sys := mk_sys (qs s) (pcs s) (slots s) (injector s) (pushed s) (taken s) (lost s ⊎ list_to_set_disj l).
Definition submit (v : T) (s : sys) : sys := mk_sys (qs s) (pcs s) (slots s) (injector s) (pushed s ⊎ {[+ v +]}) (taken s) (lost s).

Inductive outcome := To (s : sys) | Panics | Blocked.
(** [compare_exchange] of the head of [q] from the loaded one. *)
Definition same (q : Inner) (s r : Z) : bool := head q =? word s r.
Definition differ (s r : Z) : bool := negb (wrap 32 s =? wrap 32 r).

(** [push], from the load of the head, the write and the store of the tail on, and the
    exchange in [push_contended]: the values are read over the range of the wrapped
    counters, which has none when the upper one has gone round. *)
Definition push_load (i : nat) (v : T) (st : sys) : outcome :=
  let me := qs st i in
  if sub32 (tail me) (steal me) <? N then To (goto i (Push2 v) st)
  else if differ (steal me) (real me) then To (goto i Idle (inject [v] st))
  else if negb (sub32 (tail me) (real me) =? N) then Panics
  else To (goto i (PushCas v (real me)) st).
Definition push_write (i : nat) (v : T) (st : sys) : outcome :=
  let me := qs st i in To (goto i (Push3 v) (set_q i (write (tail me) v me) st)).
Definition push_store (i : nat) (st : sys) : outcome :=
  let me := qs st i in To (goto i Idle (set_q i (set_tail (tail me + 1) me) st)).
Definition push_contended (i : nat) (v : T) (h : Z) (st : sys) : outcome :=
  let me := qs st i in
  if same me h h then
    let h' := h + BATCH_TO_BACKUP in
    let batch := vals me h (wrap 32 h' - wrap 32 h) in
    To (goto i Idle (lose (drop (length batch) (vals me h BATCH_TO_BACKUP)) (inject (v :: batch) (set_q i (set_head h' h' me) st))))
  else To (goto i (Push1 v) st).

(** [pop]; [inj] says that the injector is tried next. *)
Definition pop_load (i : nat) (inj : bool) (st : sys) : outcome :=
  let me := qs st i in To (goto i (Pop2 inj (steal me) (real me)) st).
Definition pop_cas (i : nat) (inj : bool) (s r : Z) (st : sys) : outcome :=
  let me := qs st i in
  if wrap 32 r =? wrap 32 (tail me) then To (goto i (if inj then InjPop else Idle) st)
  else if differ s r && (wrap 32 s =? wrap 32 (r + 1)) then Panics
  else if same me s r then
    To (goto i Idle (give (buffer me (index r)) (set_q i (set_head (if differ s r then s else r + 1) (r + 1) me) st)))
  else To (goto i (Pop2 inj (steal me) (real me)) st).
Definition inj_pop (i : nat) (st : sys) : outcome :=
  match injector st with [] => To (goto i Idle st) | v :: l => To (goto i Idle (give v (set_injector l st))) end.

(** [steal_into_and_pop], [steal_into] and [steal_n] *)
Definition next_stealer (k : option (list nat)) : pc :=
  match k with Some (q :: k) => Steal0 q (Some k) | Some [] => InjPop | None => Idle end.
Definition steal_room (i q : nat) (k : option (list nat)) (st : sys) : outcome :=
  let me := qs st i in
  if N / 2 <? sub32 (tail me) (steal me) then To (goto i (next_stealer k) st) else To (goto i (Steal1 q k) st).
Definition steal_load (i q : nat) (k : option (list nat)) (st : sys) : outcome :=
  let src := qs st q in To (goto i (Steal2 q k (steal src) (real src)) st).
Definition steal_tail (i q : nat) (k : option (list nat)) (s r : Z) (st : sys) : outcome :=
  if differ s r then To (goto i (next_stealer k) st)
  else
    let n := sub32 (tail (qs st q)) r in
    let n := n - n / 2 in
    if n =? 0 then To (goto i (next_stealer k) st)
    else if wrap 32 s =? wrap 32 (r + n) then Panics
    else To (goto i (Steal3 q k s r n) st).
Definition steal_cas (i q : nat) (k : option (list nat)) (s r n : Z) (st : sys) : outcome :=
  let src := qs st q in
  if same src s r then
    if N / 2 <? n then Panics else To (goto i (Copy q k s n 0) (set_q q (set_head s (r + n) src) st))
  else To (goto i (Steal2 q k (steal src) (real src)) st).
Definition steal_copy (i q : nat) (k : option (list nat)) (first n j : Z) (st : sys) : outcome :=
  let me := qs st i in
  if j <? n then
    To (goto i (Copy q k first n (j + 1)) (set_q i (write (tail me + j) (buffer (qs st q) (index (first + j))) me) st))
  else To (goto i (Release q k n first (first + n)) st).
Definition steal_release (i q : nat) (k : option (list nat)) (n s r : Z) (st : sys) : outcome :=
  let src := qs st q in
  if same src s r then To (goto i (Finish (bool_decide (is_Some k)) n) (set_q q (set_head r r src) st))
  else if negb (differ (steal src) (real src)) then Panics
  else To (goto i (Release q k n (steal src) (real src)) st).
Definition steal_finish (i : nat) (pop : bool) (n : Z) (st : sys) : outcome :=
  let me := qs st i in
  if pop then
    let n := n - 1 in To (goto i Idle (give (buffer me (index (tail me + n))) (set_q i (set_tail (tail me + n) me) st)))
  else To (goto i Idle (set_q i (set_tail (tail me + n) me) st)).
Definition step (i : nat) (st : sys) : outcome :=
  match pcs st i with
  | Idle => Blocked
  | Push1 v => push_load i v st
  | Push2 v => push_write i v st
  | Push3 v => push_store i st
  | PushCas v h => push_contended i v h st
  | Pop1 inj => pop_load i inj st
  | Pop2 inj s r => pop_cas i inj s r st
  | InjPop => inj_pop i st
  | Steal0 q k => steal_room i q k st
  | Steal1 q k => steal_load i q k st
  | Steal2 q k s r => steal_tail i q k s r st
  | Steal3 q k s r n => steal_cas i q k s r n st
  | Copy q k first n j => steal_copy i q k first n j st
  | Release q k n s r => steal_release i q k n s r st
  | Finish pop n => steal_finish i pop n st
  end.

(** The scheduler, sched.rs.  [Worker::push] and [Worker::pop] *)
Definition worker_push (i : nat) (v : T) (yielded : bool) (st : sys) : sys :=
  if negb yielded then
    match slots st i with
    | Some last => goto i (Push1 last) (set_slot i (Some v) st)
    | None => set_slot i (Some v) st
    end
  else goto i (Push1 v) st.
Definition worker_pop (i : nat) (inj : bool) (st : sys) : sys :=
  match slots st i with
  | Some v => goto i Idle (give v (set_slot i None st))
  | None => goto i (Pop1 inj) st
  end.
Definition idle (i : nat) (st : sys) : bool := match pcs st i with Idle => true | _ => false end.
(** [Context::enqueue], [next_task] and [steal_task]; a worker that is not [Idle] has
    its cell borrowed. *)
Definition enqueue (i : nat) (v : T) (woken_while_running : bool) (st : sys) : sys :=
  if idle i st then worker_push i v woken_while_running st else inject [v] st.
Definition WORKER_TICK_INTERVAL : Z := 17.
Definition next_task (i : nat) (tick : Z) (st : sys) : sys :=
  if tick mod WORKER_TICK_INTERVAL =? 0 then
    match injector st with
    | v :: l => give v (set_injector l st)
    | [] => worker_pop i false st
    end
  else worker_pop i true st.
Definition stealers (W : nat) (rand : Z) : list nat :=
  let offset := Z.to_nat (rand mod Z.of_nat W) in drop offset (seq 0 W) ++ take offset (seq 0 W).
Definition steal_task (W i : nat) (rand : Z) (st : sys) : sys := goto i (next_stealer (Some (stealers W rand))) st.
Inductive action :=
| Inject (v : T)
| Enqueue (i : nat) (v : T) (woken_while_running : bool)
| Next (i : nat) (tick : Z)
| StealTask (i : nat) (rand : Z)
| StealInto (i q : nat)
| Go (i : nat).
(** There are [W] workers. *)
Definition act (W : nat) (a : action) (st : sys) : outcome :=
  match a with
  | Inject v => To (inject [v] (submit v st))
  | Enqueue i v y => if (i <? W)%nat then To (enqueue i v y (submit v st)) else Blocked
  | Next i tick => if (i <? W)%nat && idle i st then To (next_task i tick st) else Blocked
  | StealTask i rand => if (i <? W)%nat && idle i st then To (steal_task W i rand st) else Blocked
  | StealInto i q => if (i <? W)%nat && (q <? W)%nat && idle i st then To (goto i (Steal0 q None) st) else Blocked
  | Go i => if (i <? W)%nat then step i st else Blocked
  end.
Fixpoint run (W : nat) (l : list action) (st : sys) : outcome :=
  match l with [] => To st | a :: l => match act W a st with To st => run W l st | x => x end end.
(** [Executor::start]; the slots of a new queue hold nothing in particular. *)
Definition init (d : T) : sys := mk_sys (fun _ => mk_inner 0 0 0 (fun _ => d)) (fun _ => Idle) (fun _ => None) [] ∅ ∅ ∅.
End Queue.
End WorkQueue.
