(* ===== verification/WorkQueueSpec.v ===== *)
(** * art: no task of the work-stealing queues is run twice or forgotten

    The invariant of the queues and of the workers between two atomic accesses, and the
    balance: what was scheduled is what was handed out, with what is in the injector, the
    queues, the preemption slots and the hands of the workers.  *)

From S2P Require Import Prelude.
From S2P Require Import WorkQueue.
From Stdlib Require Import Znumtheory.
From stdpp Require Import gmultiset.

Import WorkQueue.
Local Open Scope Z_scope.

Lemma wrap32_range x : 0 <= wrap 32 x < 2 ^ 32.
Proof. unfold wrap. apply Z.mod_pos_bound. lia. Qed.
(** Counters that are less than 2^32 apart are told apart by their words. *)
Lemma wrap32_inj x y : wrap 32 x = wrap 32 y -> Z.abs (x - y) < 2 ^ 32 -> x = y.
Proof.
  unfold wrap. intros E A.
  pose proof (Z.div_mod x (2 ^ 32) ltac:(lia)). pose proof (Z.div_mod y (2 ^ 32) ltac:(lia)). nia.
Qed.
Lemma sub32_mod a b : sub32 a b = (a - b) mod 2 ^ 32.
Proof. unfold sub32, wsub, wrap. by rewrite <- Zminus_mod. Qed.
Lemma sub32_eq a b : 0 <= a - b < 2 ^ 32 -> sub32 a b = a - b.
Proof. intros. rewrite sub32_mod. by apply Z.mod_small. Qed.
Lemma pack_eq l u : 0 <= l < 2 ^ 32 -> 0 <= u < 2 ^ 32 -> pack l u = u * 2 ^ 32 + l.
Proof.
  intros Hl Hu. unfold pack. rewrite wshl_small by (unfold fits; lia). rewrite Z.lor_comm.
  apply (lor_low _ _ 32); [lia|apply Z.mod_mul; lia|done].
Qed.
(** What is packed is unpacked. *)
Lemma unpack_pack l u : 0 <= l < 2 ^ 32 -> 0 <= u < 2 ^ 32 -> unpack (pack l u) = (l, u).
Proof.
  intros Hl Hu. unfold unpack. rewrite land_mask, Z.shiftr_div_pow2, pack_eq by lia.
  f_equal; [rewrite Z.add_comm, Z.mod_add by lia; by apply Z.mod_small|].
  rewrite Z.div_add_l by lia. rewrite (Z.div_small l) by lia. lia.
Qed.
Lemma word_eq s r s' r' : word s r = word s' r' -> wrap 32 s = wrap 32 s' /\ wrap 32 r = wrap 32 r'.
Proof.
  intros E. pose proof (f_equal unpack E) as E'. unfold word in E'.
  rewrite !unpack_pack in E' by apply wrap32_range. by injection E' as -> ->.
Qed.

Section Proofs.
Context {T : Type} `{Countable T} (K : Z) (HK : 1 <= K <= 8).
Local Notation Inner := (@Inner T).
Local Notation sys := (@sys T _ _).
Local Notation N := (N K).

Lemma N_range : 2 <= N <= 256 /\ N = 2 * (N / 2).
Proof.
  unfold WorkQueue.N. replace (2 ^ K) with (2 * 2 ^ (K - 1)) by (rewrite <- Z.pow_succ_r by lia; f_equal; lia).
  pose proof (Z.pow_le_mono_r 2 (K - 1) 7). pose proof (pow2_pos (K - 1)). change (2 ^ 7) with 128 in *.
  rewrite (Z.mul_comm 2), Z.div_mul by lia. lia.
Qed.
Lemma index_mod x : index K x = x mod N.
Proof.
  unfold index, MASK, WorkQueue.N, wrap. rewrite land_mask by lia.
  symmetry. apply Znumtheory.Zmod_div_mod; [apply pow2_pos; lia|lia|]. exists (2 ^ (32 - K)).
  rewrite <- Z.pow_add_r by lia. f_equal. lia.
Qed.
Lemma index_inj x y : index K x = index K y -> Z.abs (x - y) < N -> x = y.
Proof.
  rewrite !index_mod. intros E A. pose proof N_range as [HN _].
  pose proof (Z.div_mod x N ltac:(lia)) as Hx. pose proof (Z.div_mod y N ltac:(lia)) as Hy. rewrite E in Hx.
  destruct (Z.lt_trichotomy (x / N) (y / N)) as [D|[D|D]]; [nia|congruence|nia].
Qed.

Lemma vals_ext (q q' : Inner) a n :
  (forall x, a <= x < a + n -> buffer q' (index K x) = buffer q (index K x)) -> vals K q' a n = vals K q a n.
Proof.
  intros E. unfold vals. apply list_fmap_ext. intros k x Hx. apply lookup_seqZ in Hx. apply E. lia.
Qed.
Lemma vals_move (q q' : Inner) a b n :
  (forall j, 0 <= j < n -> buffer q' (index K (b + j)) = buffer q (index K (a + j))) -> vals K q' b n = vals K q a n.
Proof.
  intros E. unfold vals. apply list_fmap_ext. intros k x Hx. apply lookup_seqZ in Hx. apply E. lia.
Qed.
Lemma vals_app (q : Inner) a n m : 0 <= n -> 0 <= m -> vals K q a (n + m) = vals K q a n ++ vals K q (a + n) m.
Proof.
  intros Hn Hm. unfold vals. rewrite seqZ_app by done. rewrite fmap_app. f_equal.
  rewrite (Z.add_comm 0 n). rewrite <- (fmap_add_seqZ n 0 m), <- list_fmap_compose.
  apply list_fmap_ext. intros k x _. cbn. do 2 f_equal. lia.
Qed.
Lemma vals_one (q : Inner) a : vals K q a 1 = [buffer q (index K a)].
Proof. transitivity [buffer q (index K (a + 0))]; [done|]. by rewrite Z.add_0_r. Qed.
Lemma vals_length (q : Inner) a n : length (vals K q a n) = Z.to_nat n.
Proof. unfold vals. by rewrite length_fmap, length_seqZ. Qed.
(** A write behind the tail, at most [N] slots after the first one in use. *)
Lemma write_other (q : Inner) x v y : y <= x -> x - y < N -> y <> x -> buffer (write K x v q) (index K y) = buffer q (index K y).
Proof.
  intros. cbn. destruct (Z.eqb_spec (index K y) (index K x)) as [E|]; [|done].
  apply index_inj in E; lia.
Qed.
Lemma write_at (q : Inner) x v : buffer (write K x v q) (index K x) = v.
Proof. cbn. by rewrite Z.eqb_refl. Qed.

(** The counters of a queue are in order, and no slot is used twice. *)
Definition qinv (q : Inner) : Prop := 0 <= steal q <= real q /\ real q <= tail q /\ tail q - steal q <= N.
Definition room (q : Inner) : Prop := tail q - steal q <= N / 2.
Definition kinv (W : nat) (k : option (list nat)) : Prop := match k with Some l => Forall (fun q => (q < W)%nat) l | None => True end.
(** The slots of another queue a thief has taken and not given back. *)
Definition holds (p : @pc T) : option (nat * Z * Z) :=
  match p with
  | Copy q _ f n _ => Some (q, f, n)
  | Release q _ n s _ => Some (q, s, n)
  | _ => None
  end.
Definition winv (W : nat) (st : sys) (i : nat) : Prop :=
  let me := qs st i in
  match pcs st i with
  | Idle | Push1 _ | Pop1 _ | InjPop => True
  | Push2 v => tail me - steal me < N
  | Push3 v => tail me - steal me < N /\ buffer me (index K (tail me)) = v
  | PushCas v h => tail me - h = N /\ h <= steal me /\ h <= real me
  | Pop2 _ s r => s <= r <= s + N /\ s <= steal me /\ r <= real me /\ tail me <= s + N
  | Steal0 q k => (q < W)%nat /\ kinv W k
  | Steal1 q k => (q < W)%nat /\ kinv W k /\ room me
  | Steal2 q k s r => (q < W)%nat /\ kinv W k /\ room me /\ s <= steal (qs st q) /\ r <= real (qs st q)
  | Steal3 q k s r n => (q < W)%nat /\ kinv W k /\ room me /\ s <= steal (qs st q) /\ r <= real (qs st q) /\ wrap 32 s = wrap 32 r
      /\ n <> 0 /\ exists tl, r <= tl <= tail (qs st q) /\ n = sub32 tl r - sub32 tl r / 2
  | Copy q k f n j => (q < W)%nat /\ kinv W k /\ room me /\ f = steal (qs st q) /\ 0 < n <= N / 2 /\ f + n <= real (qs st q) /\ 0 <= j <= n
      /\ forall x, 0 <= x < j -> buffer me (index K (tail me + x)) = buffer (qs st q) (index K (f + x))
  | Release q k n s r => (q < W)%nat /\ kinv W k /\ room me /\ s = steal (qs st q) /\ 0 < n <= N / 2 /\ s + n <= r <= real (qs st q)
      /\ forall x, 0 <= x < n -> buffer me (index K (tail me + x)) = buffer (qs st q) (index K (s + x))
  | Finish pop n => room me /\ 0 < n <= N / 2
  end.
(** What a worker has in its hands. *)
Definition held (st : sys) (i : nat) : list T :=
  match pcs st i with
  | Push1 v | Push2 v | Push3 v | PushCas v _ => [v]
  | Copy q _ f n _ => vals K (qs st q) f n
  | Release q _ n s _ => vals K (qs st q) s n
  | Finish _ n => vals K (qs st i) (tail (qs st i)) n
  | _ => []
  end.
Definition content (q : Inner) : list T := vals K q (real q) (tail q - real q).
Definition slot (st : sys) (i : nat) : list T := option_list (slots st i).
Fixpoint sum (f : nat -> list T) (W : nat) : gmultiset T := match W with O => ∅ | S W => list_to_set_disj (f W) ⊎ sum f W end.
Definition total (W : nat) (st : sys) : gmultiset T :=
  taken st ⊎ lost st ⊎ list_to_set_disj (injector st) ⊎ sum (fun i => content (qs st i)) W ⊎ sum (held st) W ⊎ sum (slot st) W.
Record inv (W : nat) (st : sys) : Prop := mk_inv {
  i_q : forall i, qinv (qs st i);
  i_w : forall i, winv W st i;
  i_one : forall i j q f n f' n', holds (pcs st i) = Some (q, f, n) -> holds (pcs st j) = Some (q, f', n') -> i = j;
  i_total : pushed st = total W st }.

Lemma sum_ext f g W : (forall i, f i = g i) -> sum f W = sum g W.
Proof. intros E. induction W as [|W IH]; [done|]. cbn. by rewrite E, IH. Qed.
Lemma sum_one f g W i : (i < W)%nat -> (forall j, j <> i -> g j = f j) ->
  sum g W ⊎ list_to_set_disj (f i) = sum f W ⊎ list_to_set_disj (g i).
Proof.
  intros Hi E. induction W as [|W IH]; [lia|]. cbn. destruct (decide (i = W)) as [->|].
  - assert (S : sum g W = sum f W).
    { clear IH Hi. assert (Hw : forall j, (j < W)%nat -> g j = f j) by (intros; apply E; lia). clear E.
      induction W as [|W IH]; [done|]. cbn. rewrite Hw by lia. f_equal. apply IH. intros. apply Hw. lia. }
    rewrite S. multiset_solver.
  - specialize (IH ltac:(lia)). rewrite E by lia. multiset_solver.
Qed.

(** A step of worker [i] that changes queue [q]. *)
Definition keeps (q q' : Inner) : Prop :=
  steal q' = steal q /\ forall x, steal q <= x < real q -> buffer q' (index K x) = buffer q (index K x).
Definition mine (st : sys) (q i : nat) : gmultiset T :=
  taken st ⊎ lost st ⊎ list_to_set_disj (injector st) ⊎ list_to_set_disj (content (qs st q))
  ⊎ list_to_set_disj (held st i) ⊎ list_to_set_disj (slot st i).
Record change (W i q : nat) (st st' : sys) : Prop := mk_change {
  c_W : (i < W)%nat /\ (q < W)%nat;
  c_qs : forall j, j <> q -> qs st' j = qs st j;
  c_pcs : forall j, j <> i -> pcs st' j = pcs st j /\ slots st' j = slots st j;
  c_inv : qinv (qs st' q);
  c_mono : steal (qs st q) <= steal (qs st' q) /\ real (qs st q) <= real (qs st' q) /\ tail (qs st q) <= tail (qs st' q);
  c_thief : q <> i -> tail (qs st' q) = tail (qs st q) /\ buffer (qs st' q) = buffer (qs st q);
  c_keep : forall j f n, j <> i -> holds (pcs st j) = Some (q, f, n) -> keeps (qs st q) (qs st' q);
  c_w : winv W st' i;
  c_one : forall t f n j f' n', j <> i -> holds (pcs st' i) = Some (t, f, n) -> holds (pcs st j) <> Some (t, f', n');
  c_mine : pushed st' ⊎ mine st q i = pushed st ⊎ mine st' q i }.

Section Frame.
Context (W i q : nat) (st st' : sys) (Hc : change W i q st st') (Hi : inv W st).
Lemma frame_mono t : steal (qs st t) <= steal (qs st' t) /\ real (qs st t) <= real (qs st' t) /\ tail (qs st t) <= tail (qs st' t).
Proof. destruct (decide (t = q)) as [->|Ht]; [apply (c_mono _ _ _ _ _ Hc)|]. rewrite (c_qs _ _ _ _ _ Hc t Ht). lia. Qed.
Lemma frame_own j : j <> i -> tail (qs st' j) = tail (qs st j) /\ buffer (qs st' j) = buffer (qs st j).
Proof.
  intros Hj. destruct (decide (j = q)) as [->|Ht]; [by apply (c_thief _ _ _ _ _ Hc)|]. by rewrite (c_qs _ _ _ _ _ Hc j Ht).
Qed.
Lemma frame_keep j t f n : j <> i -> holds (pcs st j) = Some (t, f, n) -> keeps (qs st t) (qs st' t).
Proof.
  intros Hj Hh. destruct (decide (t = q)) as [->|Ht]; [by apply (c_keep _ _ _ _ _ Hc j f n)|].
  rewrite (c_qs _ _ _ _ _ Hc t Ht). by split.
Qed.
Lemma frame_w j : j <> i -> winv W st' j.
Proof.
  intros Hj. pose proof (i_w _ _ Hi j) as Hw. pose proof (frame_mono j) as (M1 & M2 & M3). destruct (frame_own j Hj) as [O1 O2].
  pose proof (frame_keep j) as Hk. unfold winv, room in *. rewrite (proj1 (c_pcs _ _ _ _ _ Hc j Hj)).
  destruct (pcs st j) as [| | | | | | | |t k|t k|t k s r|t k s r n|t k f n x|t k n s r|pop n]; cbn in Hk;
    rewrite ?O1, ?O2; try done; try lia.
  - destruct Hw as [? <-]. split; [lia|done].
  - destruct Hw as (? & ? & ?). split_and!; try done; lia.
  - destruct Hw as (? & ? & ? & ? & ?). destruct (frame_mono t). split_and!; try done; lia.
  - destruct Hw as (? & ? & ? & ? & ? & ? & ? & tl & ? & ?). destruct (frame_mono t). split_and!; try done; try lia.
    exists tl. split; [lia|done].
  - destruct Hw as (? & ? & ? & -> & ? & ? & ? & Hb). destruct (frame_mono t). destruct (Hk t _ n Hj eq_refl) as [E Eb].
    split_and!; try done; try lia. intros y Hy. rewrite Hb by done. symmetry. apply Eb. lia.
  - destruct Hw as (? & ? & ? & -> & ? & ? & Hb). destruct (frame_mono t). destruct (Hk t _ n Hj eq_refl) as [E Eb].
    split_and!; try done; try lia. intros y Hy. rewrite Hb by done. symmetry. apply Eb. lia.
Qed.
Lemma frame_held j : j <> i -> held st' j = held st j.
Proof.
  intros Hj. pose proof (i_w _ _ Hi j) as Hw. destruct (frame_own j Hj) as [O1 O2].
  pose proof (frame_keep j) as Hk. unfold winv, held in *. rewrite (proj1 (c_pcs _ _ _ _ _ Hc j Hj)).
  destruct (pcs st j) as [| | | | | | | |t k|t k|t k s r|t k s r n|t k f n x|t k n s r|pop n]; cbn in Hk; try done.
  - destruct Hw as (? & ? & ? & -> & ? & ? & ? & Hb). destruct (Hk t _ n Hj eq_refl) as [E Eb].
    apply vals_ext. intros y Hy. apply Eb. lia.
  - destruct Hw as (? & ? & ? & -> & ? & ? & Hb). destruct (Hk t _ n Hj eq_refl) as [E Eb].
    apply vals_ext. intros y Hy. apply Eb. lia.
  - rewrite O1. apply vals_ext. intros. by rewrite O2.
Qed.
Lemma change_total : pushed st' = total W st'.
Proof.
  pose proof (i_total _ _ Hi) as Ht. pose proof (c_mine _ _ _ _ _ Hc) as Hm. destruct (c_W _ _ _ _ _ Hc) as [Wi Wq].
  pose proof (sum_one (fun j => content (qs st j)) (fun j => content (qs st' j)) W q Wq) as S1.
  pose proof (sum_one (held st) (held st') W i Wi) as S2. pose proof (sum_one (slot st) (slot st') W i Wi) as S3.
  specialize (S1 ltac:(intros j Hj; cbn; by rewrite (c_qs _ _ _ _ _ Hc j Hj))).
  specialize (S2 frame_held). specialize (S3 ltac:(intros j Hj; unfold slot; by rewrite (proj2 (c_pcs _ _ _ _ _ Hc j Hj)))).
  cbn in S1. unfold total, mine in *. revert Ht Hm S1 S2 S3.
  generalize (sum (fun j => content (qs st' j)) W), (sum (fun j => content (qs st j)) W), (sum (held st') W), (sum (held st) W).
  generalize (sum (slot st') W), (sum (slot st) W). generalize (content (qs st q)), (content (qs st' q)).
  generalize (held st i), (held st' i), (slot st i), (slot st' i), (injector st), (injector st').
  generalize (taken st), (taken st'), (lost st), (lost st'), (pushed st), (pushed st').
  intros. multiset_solver.
Qed.
Lemma change_inv : inv W st'.
Proof.
  split.
  - intros j. destruct (decide (j = q)) as [->|Hj]; [apply (c_inv _ _ _ _ _ Hc)|]. rewrite (c_qs _ _ _ _ _ Hc j Hj). apply (i_q _ _ Hi).
  - intros j. destruct (decide (j = i)) as [->|Hj]; [apply (c_w _ _ _ _ _ Hc)|by apply frame_w].
  - intros a b t f n f' n' Ha Hb. destruct (decide (a = i)) as [->|Na], (decide (b = i)) as [->|Nb]; [done|..].
    + rewrite (proj1 (c_pcs _ _ _ _ _ Hc b Nb)) in Hb. by destruct (c_one _ _ _ _ _ Hc t f n b f' n' Nb Ha).
    + rewrite (proj1 (c_pcs _ _ _ _ _ Hc a Na)) in Ha. by destruct (c_one _ _ _ _ _ Hc t f' n' a f n Na Hb).
    + rewrite (proj1 (c_pcs _ _ _ _ _ Hc b Nb)) in Hb. rewrite (proj1 (c_pcs _ _ _ _ _ Hc a Na)) in Ha.
      by apply (i_one _ _ Hi a b t f n f' n').
  - apply change_total.
Qed.
End Frame.

Lemma at_upd {A} i (x : A) f : upd i x f i = x.
Proof. unfold upd. by rewrite Nat.eqb_refl. Qed.
Lemma at_upd_ne {A} i j (x : A) f : j <> i -> upd i x f j = f j.
Proof. intros. unfold upd. by rewrite (proj2 (Nat.eqb_neq j i)). Qed.
(** An exchange that succeeds finds the head that was loaded, if it has not gone round since. *)
Lemma cas_ok (q : Inner) s r : s <= steal q < s + 2 ^ 32 -> r <= real q < r + 2 ^ 32 -> same q s r = true -> steal q = s /\ real q = r.
Proof.
  intros Hs Hr HS. unfold same, head in HS. apply Z.eqb_eq, word_eq in HS as [E1 E2]. apply wrap32_inj in E1, E2; lia.
Qed.
Lemma differ_true s r : s <= r <= s + N -> differ s r = true <-> s <> r.
Proof.
  intros Hr. pose proof N_range. unfold differ. rewrite negb_true_iff, Z.eqb_neq. split; [congruence|].
  intros Hn E. apply wrap32_inj in E; lia.
Qed.
Lemma differ_false s r : differ s r = false <-> wrap 32 s = wrap 32 r.
Proof. unfold differ. by rewrite negb_false_iff, Z.eqb_eq. Qed.

Lemma batch_split (q : Inner) h : let batch := vals K q h (wrap 32 (h + N / 2) - wrap 32 h) in
  batch ++ drop (length batch) (vals K q h (N / 2)) = vals K q h (N / 2)
  /\ (h + N / 2 < 2 ^ 32 -> 0 <= h -> drop (length batch) (vals K q h (N / 2)) = []).
Proof.
  pose proof N_range as [HN HN2]. assert (E : wrap 32 (h + N / 2) - wrap 32 h = N / 2 \/ wrap 32 (h + N / 2) - wrap 32 h = N / 2 - 2 ^ 32).
  { unfold wrap. rewrite Z.add_mod by lia. rewrite (Z.mod_small (N / 2)) by lia. pose proof (Z.mod_pos_bound h (2 ^ 32) ltac:(lia)).
    destruct (Z.ltb_spec (h mod 2 ^ 32 + N / 2) (2 ^ 32)); [left; rewrite Z.mod_small; lia|right].
    rewrite <- (Z.mod_add _ (-1)) by lia. rewrite Z.mod_small; lia. }
  cbv zeta. split.
  - destruct E as [-> | E]; [by rewrite drop_all, app_nil_r|]. rewrite E. unfold vals at 1 2. rewrite seqZ_nil by lia. done.
  - intros Hh H0. assert (E' : wrap 32 (h + N / 2) - wrap 32 h = N / 2) by (rewrite !wrap_small by (unfold fits; lia); lia).
    by rewrite E', drop_all.
Qed.

Definition ok (W i : nat) (st : sys) (o : outcome) : Prop :=
  match o with To st' => exists q, change W i q st st' | Panics => False | Blocked => True end.
(** The exchange of a thief takes a head for the one it has loaded only if it is that one:
    the head has not gone round, by a multiple of 2^32, in between. *)
Definition same_head (i : nat) (st : sys) : bool :=
  match pcs st i with
  | Steal3 q _ s r _ => implb (same (qs st q) s r) ((steal (qs st q) =? s) && (real (qs st q) =? r))
  | _ => true
  end.
Definition fresh (a : @action T) (st : sys) : bool := match a with Go i => same_head i st | _ => true end.
Fixpoint fresh_run (W : nat) (l : list (@action T)) (st : sys) : bool :=
  match l with [] => true | a :: l => fresh a st && match act K W a st with To st => fresh_run W l st | _ => true end end.
Section Steps.
Context (W : nat) (st : sys) (Hi : inv W st) (i : nat) (Hw : (i < W)%nat).

(** A step that only moves a worker on. *)
Lemma ok_goto p : winv W (goto i p st) i -> held (goto i p st) i = held st i ->
  holds p = None \/ holds p = holds (pcs st i) -> ok W i st (To (goto i p st)).
Proof.
  intros Hp Hh Ho. exists i. split; cbn; try done.
  - intros j Hj. by rewrite at_upd_ne.
  - apply (i_q _ _ Hi).
  - intros t f n j f' n' Hj. rewrite at_upd. intros E F. destruct Ho as [Ho|Ho]; [congruence|].
    rewrite Ho in E. apply Hj. by apply (i_one _ _ Hi j i t f' n' f n).
  - unfold mine. by rewrite Hh.
Qed.
Lemma ok_push_load v : pcs st i = Push1 v -> ok W i st (push_load K i v st).
Proof.
  intros Hp. pose proof (i_q _ _ Hi i) as (Q1 & Q2 & Q3). pose proof N_range as [HN _]. unfold push_load.
  rewrite !sub32_eq by lia. destruct (Z.ltb_spec (tail (qs st i) - steal (qs st i)) N).
  { apply ok_goto; [|unfold held; cbn; by rewrite at_upd, Hp|by left]. unfold winv. cbn. rewrite at_upd. done. }
  destruct (differ _ _) eqn:D.
  - exists i. split; cbn; try done; try (intros j Hj; by rewrite at_upd_ne).
    + unfold winv. cbn. by rewrite at_upd.
    + intros t f n j f' n' Hj. by rewrite at_upd.
    + unfold mine, held, slot. cbn. rewrite at_upd, Hp, list_to_set_disj_app. cbn. multiset_solver.
  - apply differ_false, wrap32_inj in D; [|lia]. rewrite (proj2 (Z.eqb_eq _ _)) by lia. cbn.
    apply ok_goto; [|unfold held; cbn; by rewrite at_upd, Hp|by left]. unfold winv. cbn. rewrite at_upd. lia.
Qed.
(** A step that changes a queue as well. *)
Lemma ok_change q Q p st' :
  (q < W)%nat -> qs st' = upd q Q (qs st) -> pcs st' = upd i p (pcs st) -> slots st' = slots st -> pushed st' = pushed st ->
  qinv Q -> steal (qs st q) <= steal Q /\ real (qs st q) <= real Q /\ tail (qs st q) <= tail Q ->
  (q <> i -> tail Q = tail (qs st q) /\ buffer Q = buffer (qs st q)) ->
  (steal (qs st q) < real (qs st q) -> (forall f n, holds (pcs st i) <> Some (q, f, n)) -> keeps (qs st q) Q) ->
  winv W st' i ->
  holds p = None \/ holds p = holds (pcs st i) \/ (exists f n, holds p = Some (q, f, n) /\ steal (qs st q) = real (qs st q)) ->
  mine st q i = mine st' q i -> ok W i st (To st').
Proof.
  intros Wq Eq Ep Es Eu HQ Hm Ht Hk Hw' Ho Hb.
  assert (Hlt : forall j t f n, holds (pcs st j) = Some (t, f, n) -> steal (qs st t) < real (qs st t)).
  { intros j t f n Hj. pose proof (i_w _ _ Hi j) as Hwj. unfold winv in Hwj. unfold holds in Hj.
    destruct (pcs st j); simplify_eq; destruct Hwj as (_ & _ & _ & -> & ? & ? & _); lia. }
  exists q. split; rewrite ?Eq, ?at_upd; try done.
  - intros j Hj. by rewrite at_upd_ne.
  - intros j Hj. rewrite Ep, Es, at_upd_ne by done. done.
  - intros j f n Hj Hh. apply Hk; [by apply (Hlt j q f n)|]. intros f' n' E.
    apply Hj. by apply (i_one _ _ Hi j i q f n f' n').
  - intros t f n j f' n' Hj. rewrite Ep, at_upd. intros E F. destruct Ho as [Ho|[Ho|(a & b & Ho & Hs)]].
    + congruence.
    + rewrite Ho in E. apply Hj. by apply (i_one _ _ Hi j i t f' n' f n).
    + rewrite Ho in E. simplify_eq. apply Hlt in F. lia.
  - by rewrite Hb, Eu.
Qed.
Lemma content_write x v : tail (qs st i) <= x -> x - real (qs st i) < N ->
  content (write K x v (qs st i)) = content (qs st i).
Proof.
  intros H1 H2. unfold content. cbn [real tail write]. apply vals_ext. intros y Hy. apply write_other; lia.
Qed.
Lemma ok_push_write v : pcs st i = Push2 v -> ok W i st (push_write K i v st).
Proof.
  intros Hp. pose proof (i_q _ _ Hi i) as Q. pose proof (i_w _ _ Hi i) as Hr. unfold winv in Hr. rewrite Hp in Hr.
  pose proof Q as (Q1 & Q2 & Q3).
  apply (ok_change i (write K (tail (qs st i)) v (qs st i)) (Push3 v)); try done.
  - intros _ _. split; [done|]. intros x Hx. apply write_other; lia.
  - unfold winv. cbn [pcs qs goto set_q]. rewrite !at_upd. split; [done|apply write_at].
  - by left.
  - unfold mine, held, slot. cbn [pcs qs goto set_q taken lost injector slots]. rewrite !at_upd, Hp, content_write by lia. done.
Qed.
Lemma ok_push_store v : pcs st i = Push3 v -> ok W i st (push_store i st).
Proof.
  intros Hp. pose proof (i_q _ _ Hi i) as (Q1 & Q2 & Q3). pose proof (i_w _ _ Hi i) as Hr. unfold winv in Hr. rewrite Hp in Hr.
  destruct Hr as [Hr Hv]. apply (ok_change i (set_tail (tail (qs st i) + 1) (qs st i)) Idle); try done.
  - unfold qinv. cbn. lia.
  - cbn. lia.
  - unfold winv. cbn. by rewrite !at_upd.
  - by left.
  - unfold mine, held, slot, content. cbn [pcs qs goto set_q taken lost injector slots]. rewrite !at_upd, Hp. cbn [set_tail real tail].
    replace (tail (qs st i) + 1 - real (qs st i)) with (tail (qs st i) - real (qs st i) + 1) by lia.
    rewrite vals_app, list_to_set_disj_app by lia. replace (real (qs st i) + (tail (qs st i) - real (qs st i))) with (tail (qs st i)) by lia.
    change (vals K (set_tail (tail (qs st i) + 1) (qs st i))) with (vals K (qs st i)). rewrite vals_one, Hv. cbn. multiset_solver.
Qed.
Lemma ok_push_contended v h : pcs st i = PushCas v h -> ok W i st (push_contended K i v h st).
Proof.
  intros Hp. pose proof (i_q _ _ Hi i) as (Q1 & Q2 & Q3). pose proof (i_w _ _ Hi i) as Hr. unfold winv in Hr. rewrite Hp in Hr.
  destruct Hr as (Ht & H1 & H2). pose proof N_range as [HN HN2]. unfold push_contended, BATCH_TO_BACKUP.
  destruct (same _ _ _) eqn:ES; cbv zeta.
  2:{ apply ok_goto; [|unfold held; cbn; by rewrite at_upd, Hp|by left]. unfold winv. cbn. by rewrite at_upd. }
  destruct (cas_ok (qs st i) h h ltac:(lia) ltac:(lia) ES) as [E1 E2].
  apply (ok_change i (set_head (h + N / 2) (h + N / 2) (qs st i)) Idle); try done.
  - unfold qinv. cbn. lia.
  - cbn. lia.
  - lia.
  - unfold winv. cbn. by rewrite !at_upd.
  - by left.
  - unfold mine, held, slot, content. cbn [pcs qs goto set_q taken lost injector slots lose inject set_injector]. rewrite !at_upd, Hp.
    cbn [set_head real tail]. rewrite E2. change (vals K (set_head (h + N / 2) (h + N / 2) (qs st i))) with (vals K (qs st i)).
    replace (tail (qs st i) - h) with (N / 2 + N / 2) by lia. rewrite vals_app by lia.
    replace (tail (qs st i) - (h + N / 2)) with (N / 2) by lia.
    destruct (batch_split (qs st i) h) as [B _]. apply (f_equal (list_to_set_disj (C := gmultiset T))) in B. rewrite list_to_set_disj_app in B.
    rewrite !list_to_set_disj_app. rewrite <- B. cbn [list_to_set_disj]. multiset_solver.
Qed.
Lemma ok_pop_cas inj s r : pcs st i = Pop2 inj s r -> ok W i st (pop_cas K i inj s r st).
Proof.
  intros Hp. pose proof (i_q _ _ Hi i) as (Q1 & Q2 & Q3). pose proof (i_w _ _ Hi i) as Hr. unfold winv in Hr. rewrite Hp in Hr.
  destruct Hr as (Hs & H1 & H2 & H3). pose proof N_range as [HN HN2]. unfold pop_cas.
  destruct (Z.eqb_spec (wrap 32 r) (wrap 32 (tail (qs st i)))) as [|Ne].
  { apply ok_goto; [|unfold held; cbn; rewrite at_upd, Hp|left]; [|by destruct inj..]. unfold winv. cbn. rewrite at_upd. by destruct inj. }
  destruct (differ s r && _) eqn:EP.
  { apply andb_prop in EP as [_ EP]. apply Z.eqb_eq, wrap32_inj in EP; lia. }
  destruct (same _ _ _) eqn:ES.
  2:{ apply ok_goto; [|unfold held; cbn; by rewrite at_upd, Hp|by left]. unfold winv. cbn. rewrite at_upd. lia. }
  destruct (cas_ok (qs st i) s r ltac:(lia) ltac:(lia) ES) as [E1 E2]. assert (r < tail (qs st i)) by (destruct (decide (r = tail (qs st i))); [congruence|lia]).
  assert (D : s <> r -> differ s r = true) by (apply differ_true; lia).
  assert (D' : s = r -> differ s r = false) by (intros ->; by apply differ_false).
  apply (ok_change i (set_head (if differ s r then s else r + 1) (r + 1) (qs st i)) Idle); try done.
  - unfold qinv. cbn. destruct (differ s r); lia.
  - cbn. destruct (differ s r); lia.
  - intros Hlt _. rewrite D by lia. split; cbn; [lia|done].
  - unfold winv. cbn. by rewrite !at_upd.
  - by left.
  - unfold mine, held, slot, content. cbn [pcs qs goto set_q taken lost injector slots give]. rewrite !at_upd, Hp.
    cbn [set_head real tail]. rewrite E2. change (vals K (set_head ?a ?b (qs st i))) with (vals K (qs st i)).
    replace (tail (qs st i) - r) with (1 + (tail (qs st i) - (r + 1))) by lia. rewrite vals_app, vals_one by lia.
    rewrite list_to_set_disj_app. cbn [list_to_set_disj app]. multiset_solver.
Qed.
Lemma ok_pop_load inj : pcs st i = Pop1 inj -> ok W i st (pop_load i inj st).
Proof.
  intros Hp. pose proof (i_q _ _ Hi i) as (Q1 & Q2 & Q3).
  apply ok_goto; [|unfold held; cbn; by rewrite at_upd, Hp|by left]. unfold winv. cbn. rewrite at_upd. lia.
Qed.
Lemma ok_inj_pop : pcs st i = InjPop -> ok W i st (inj_pop i st).
Proof.
  intros Hp. unfold inj_pop. destruct (injector st) as [|v l] eqn:E.
  { apply ok_goto; [|unfold held; cbn; by rewrite at_upd, Hp|by left]. unfold winv. cbn. by rewrite at_upd. }
  exists i. split; cbn; try done; try (intros j Hj; by rewrite at_upd_ne).
  - apply (i_q _ _ Hi).
  - unfold winv. cbn. by rewrite at_upd.
  - intros t f n j f' n' Hj. by rewrite at_upd.
  - unfold mine, held, slot. cbn [pcs qs goto give set_injector taken lost injector slots]. rewrite at_upd, Hp, E.
    cbn [list_to_set_disj]. multiset_solver.
Qed.
Lemma ok_next k : kinv W k -> held st i = [] -> ok W i st (To (goto i (next_stealer k) st)).
Proof.
  intros Hk Hh. apply ok_goto; [unfold winv|rewrite Hh; unfold held|left]; cbn [pcs goto]; rewrite ?at_upd; destruct k as [[|q k]|]; try done.
  by apply Forall_cons_1 in Hk.
Qed.
Lemma ok_steal_room q k : pcs st i = Steal0 q k -> ok W i st (steal_room K i q k st).
Proof.
  intros Hp. pose proof (i_q _ _ Hi i) as (Q1 & Q2 & Q3). pose proof (i_w _ _ Hi i) as Hr. unfold winv in Hr. rewrite Hp in Hr.
  destruct Hr as [Hq Hk]. pose proof N_range as [HN HN2]. unfold steal_room. rewrite sub32_eq by lia.
  destruct (Z.ltb_spec (N / 2) (tail (qs st i) - steal (qs st i))).
  { apply ok_next; [done|]. unfold held. by rewrite Hp. }
  apply ok_goto; [|unfold held; cbn; by rewrite at_upd, Hp|by left]. unfold winv. cbn. rewrite at_upd. done.
Qed.
Lemma ok_steal_load q k : pcs st i = Steal1 q k -> ok W i st (steal_load i q k st).
Proof.
  intros Hp. pose proof (i_w _ _ Hi i) as Hr. unfold winv in Hr. rewrite Hp in Hr. destruct Hr as (Hq & Hk & Hr).
  apply ok_goto; [|unfold held; cbn; by rewrite at_upd, Hp|by left]. unfold winv. cbn. rewrite at_upd. split_and!; done.
Qed.
Lemma ok_steal_tail q k s r : pcs st i = Steal2 q k s r -> ok W i st (steal_tail i q k s r st).
Proof.
  intros Hp. pose proof (i_q _ _ Hi q) as (Q1 & Q2 & Q3). pose proof (i_w _ _ Hi i) as Hr. unfold winv in Hr. rewrite Hp in Hr.
  destruct Hr as (Hq & Hk & Hr & H1 & H2). assert (Hh : held st i = []) by (unfold held; by rewrite Hp).
  unfold steal_tail. destruct (differ s r) eqn:D; [by apply ok_next|]. apply differ_false in D. cbv zeta.
  pose proof (sub32_mod (tail (qs st q)) r) as En. pose proof (Z.mod_pos_bound (tail (qs st q) - r) (2 ^ 32) ltac:(lia)) as Bn.
  rewrite <- En in Bn. set (n := sub32 (tail (qs st q)) r) in *. pose proof (Z.div_mod n 2 ltac:(lia)). pose proof (Z.mod_pos_bound n 2 ltac:(lia)).
  destruct (Z.eqb_spec (n - n / 2) 0); [by apply ok_next|].
  destruct (Z.eqb_spec (wrap 32 s) (wrap 32 (r + (n - n / 2)))) as [E|].
  { rewrite D in E. apply wrap32_inj in E; lia. }
  apply ok_goto; [|unfold held; cbn; by rewrite at_upd, Hp|by left]. unfold winv. cbn. rewrite at_upd. split_and!; try done.
  exists (tail (qs st q)). split; [lia|done].
Qed.
Lemma ok_steal_cas q k s r n : same_head i st = true -> pcs st i = Steal3 q k s r n -> ok W i st (steal_cas K i q k s r n st).
Proof.
  intros Hsh Hp. pose proof (i_q _ _ Hi q) as (Q1 & Q2 & Q3). pose proof (i_w _ _ Hi i) as Hr. unfold winv in Hr. unfold same_head in Hsh. rewrite Hp in Hr, Hsh.
  destruct Hr as (Hq & Hk & Hr & H1 & H2 & Hsr & Hn & tl & Htl & En). pose proof N_range as [HN HN2].
  unfold steal_cas. destruct (same _ _ _) eqn:ES.
  2:{ apply ok_goto; [|unfold held; cbn; by rewrite at_upd, Hp|by left]. unfold winv. cbn. rewrite at_upd. split_and!; done. }
  cbn [implb] in Hsh. apply andb_prop in Hsh as [E1%Z.eqb_eq E2%Z.eqb_eq]. apply wrap32_inj in Hsr; [|lia]. revert E1. subst s. intros E1.
  rewrite sub32_eq in En by lia. pose proof (Z.div_mod (tl - r) 2 ltac:(lia)). pose proof (Z.mod_pos_bound (tl - r) 2 ltac:(lia)).
  destruct (Z.ltb_spec (N / 2) n); [lia|].
  apply (ok_change q (set_head r (r + n) (qs st q)) (Copy q k r n 0)); try done.
  - unfold qinv. cbn. lia.
  - cbn. lia.
  - unfold winv, room. cbn. rewrite !at_upd. cbn. split_and!; try done; try lia.
    destruct (decide (i = q)) as [->|]; [rewrite at_upd; cbn; unfold room in Hr; lia|by rewrite at_upd_ne].
  - right. right. exists r, n. split; [done|lia].
  - unfold mine, held, slot, content. cbn [pcs qs goto set_q taken lost injector slots]. rewrite !at_upd, Hp. cbn [set_head real tail].
    rewrite E2. change (vals K (set_head ?a ?b (qs st q))) with (vals K (qs st q)).
    replace (tail (qs st q) - r) with (n + (tail (qs st q) - (r + n))) by lia. rewrite vals_app, list_to_set_disj_app by lia.
    cbn [list_to_set_disj]. multiset_solver.
Qed.
Lemma ok_steal_copy q k f n x : pcs st i = Copy q k f n x -> ok W i st (steal_copy K i q k f n x st).
Proof.
  intros Hp. pose proof (i_q _ _ Hi i) as Q. pose proof Q as (Q1 & Q2 & Q3). pose proof (i_q _ _ Hi q) as (Q4 & Q5 & Q6).
  pose proof (i_w _ _ Hi i) as Hr. unfold winv in Hr. rewrite Hp in Hr.
  destruct Hr as (Hq & Hk & Hr & -> & Hn & Hf & Hx & Hb). pose proof N_range as [HN HN2]. unfold room in Hr.
  set (me := qs st i) in *. unfold steal_copy. fold me. destruct (Z.ltb_spec x n).
  2:{ assert (x = n) as -> by lia. apply ok_goto; [|unfold held; cbn; by rewrite at_upd, Hp|right; by rewrite Hp].
      unfold winv. cbn. rewrite at_upd. split_and!; try done; lia. }
  set (v := buffer (qs st q) _).
  assert (Hsrc : forall y, steal (qs st q) <= y < real (qs st q) ->
    buffer (upd i (write K (tail me + x) v me) (qs st) q) (index K y) = buffer (qs st q) (index K y)).
  { intros y Hy. destruct (decide (q = i)) as [->|]; [|by rewrite at_upd_ne]. rewrite at_upd. apply write_other; fold me in Hy; lia. }
  apply (ok_change i (write K (tail me + x) v me) (Copy q k (steal (qs st q)) n (x + 1))); try done.
  - intros _ _. split; [done|]. intros y Hy. apply write_other; fold me in Hy; lia.
  - unfold winv. cbn [pcs qs goto set_q]. rewrite !at_upd.
    assert (Es : steal (upd i (write K (tail me + x) v me) (qs st) q) = steal (qs st q)
      /\ real (upd i (write K (tail me + x) v me) (qs st) q) = real (qs st q)).
    { destruct (decide (q = i)) as [->|]; [by rewrite at_upd|by rewrite at_upd_ne]. }
    destruct Es as [-> ->]. split_and!; try done; try lia.
    intros y Hy. cbn [tail write]. fold me. rewrite Hsrc by lia. destruct (decide (y = x)) as [->|]; [apply write_at|].
    rewrite <- Hb by lia. apply write_other; lia.
  - right. left. by rewrite Hp.
  - unfold mine, held, slot. cbn [pcs qs goto set_q taken lost injector slots]. rewrite !at_upd, Hp. unfold me.
    rewrite content_write by (fold me; lia). fold me. do 2 f_equal. f_equal. symmetry. apply vals_ext. intros y Hy. apply Hsrc. lia.
Qed.
Lemma ok_steal_release q k n s r : pcs st i = Release q k n s r -> ok W i st (steal_release i q k n s r st).
Proof.
  intros Hp. pose proof (i_q _ _ Hi q) as (Q1 & Q2 & Q3). pose proof (i_w _ _ Hi i) as Hr. unfold winv in Hr. rewrite Hp in Hr.
  destruct Hr as (Hq & Hk & Hr & Hs & Hn & Hf & Hb). pose proof N_range as [HN HN2].
  unfold steal_release. destruct (same _ _ _) eqn:ES.
  2:{ destruct (differ (steal (qs st q)) (real (qs st q))) eqn:D; cbn [negb].
      - apply ok_goto; [|unfold held; cbn; by rewrite at_upd, Hp, Hs|right; by rewrite Hp, Hs].
        unfold winv. cbn. rewrite at_upd. rewrite <- Hs. split_and!; try done; lia.
      - apply differ_false, wrap32_inj in D; lia. }
  destruct (cas_ok (qs st q) s r ltac:(lia) ltac:(lia) ES) as [E1 E2].
  assert (Et : tail (upd q (set_head r r (qs st q)) (qs st) i) = tail (qs st i) /\ buffer (upd q (set_head r r (qs st q)) (qs st) i) = buffer (qs st i)
    /\ steal (qs st i) <= steal (upd q (set_head r r (qs st q)) (qs st) i)).
  { destruct (decide (i = q)) as [->|]; [rewrite at_upd; cbn; split_and!; try done; lia|by rewrite at_upd_ne]. }
  destruct Et as (Et & Eb & El).
  apply (ok_change q (set_head r r (qs st q)) (Finish (bool_decide (is_Some k)) n)); try done.
  - unfold qinv. cbn. lia.
  - cbn. lia.
  - intros _ Hno. by destruct (Hno s n); rewrite Hp.
  - unfold winv, room in *. cbn [pcs qs goto set_q]. rewrite at_upd, Et. lia.
  - by left.
  - unfold mine, held, slot, content. cbn [pcs qs goto set_q taken lost injector slots]. rewrite !at_upd, Hp. cbn [set_head real tail].
    rewrite E2. change (vals K (set_head ?a ?b (qs st q))) with (vals K (qs st q)). rewrite Et.
    rewrite (vals_move (qs st q) (upd q (set_head r r (qs st q)) (qs st) i) s); [done|]. intros y Hy. rewrite Eb. by apply Hb.
Qed.
Lemma ok_steal_finish pop n : pcs st i = Finish pop n -> ok W i st (steal_finish K i pop n st).
Proof.
  intros Hp. pose proof (i_q _ _ Hi i) as (Q1 & Q2 & Q3). pose proof (i_w _ _ Hi i) as Hr. unfold winv in Hr. rewrite Hp in Hr.
  destruct Hr as [Hr Hn]. unfold room in Hr. pose proof N_range as [HN HN2]. unfold steal_finish.
  assert (Hc : forall m, 0 <= m -> content (set_tail (tail (qs st i) + m) (qs st i)) = content (qs st i) ++ vals K (qs st i) (tail (qs st i)) m).
  { intros m Hm. unfold content. cbn [set_tail real tail]. change (vals K (set_tail ?a (qs st i))) with (vals K (qs st i)).
    replace (tail (qs st i) + m - real (qs st i)) with (tail (qs st i) - real (qs st i) + m) by lia. rewrite vals_app by lia. do 2 f_equal. lia. }
  destruct pop; [apply (ok_change i (set_tail (tail (qs st i) + (n - 1)) (qs st i)) Idle)|
    apply (ok_change i (set_tail (tail (qs st i) + n) (qs st i)) Idle)]; try done; try (by left);
    try (unfold qinv; cbn; lia); try (cbn; lia); try (unfold winv; cbn; by rewrite !at_upd).
  - unfold mine, held, slot. cbn [pcs qs goto set_q taken lost injector slots give]. rewrite !at_upd, Hp, Hc by lia.
    replace n with (n - 1 + 1) at 1 by lia. rewrite vals_app, vals_one, !list_to_set_disj_app by lia. cbn [list_to_set_disj]. multiset_solver.
  - unfold mine, held, slot. cbn [pcs qs goto set_q taken lost injector slots give]. rewrite !at_upd, Hp, Hc by lia.
    rewrite !list_to_set_disj_app by lia. cbn [list_to_set_disj]. multiset_solver.
Qed.
Lemma ok_step : same_head i st = true -> ok W i st (step K i st).
Proof.
  intros Hsh. unfold step. destruct (pcs st i) eqn:E; [done|..].
  - by apply ok_push_load.
  - by apply ok_push_write.
  - by apply (ok_push_store v).
  - by apply ok_push_contended.
  - by apply ok_pop_load.
  - by apply ok_pop_cas.
  - by apply ok_inj_pop.
  - by apply ok_steal_room.
  - by apply ok_steal_load.
  - by apply ok_steal_tail.
  - by apply ok_steal_cas.
  - by apply ok_steal_copy.
  - by apply ok_steal_release.
  - by apply ok_steal_finish.
Qed.
End Steps.
Lemma inv_inject W v st : inv W st -> inv W (inject [v] (submit v st)).
Proof.
  intros [Hq Hw Ho Ht]. split; try done. unfold total in *. cbn [inject submit set_injector pushed taken lost injector qs slots].
  change (sum (held (inject [v] (submit v st))) W) with (sum (held st) W).
  change (sum (slot (inject [v] (submit v st))) W) with (sum (slot st) W).
  rewrite list_to_set_disj_app, Ht. cbn [list_to_set_disj]. multiset_solver.
Qed.
(** A worker that is idle takes up something else; the queues stay as they are. *)
Lemma inv_turn W i (st st' : sys) : inv W st -> (i < W)%nat ->
  qs st' = qs st -> (forall j, j <> i -> pcs st' j = pcs st j /\ slots st' j = slots st j) -> holds (pcs st' i) = None -> winv W st' i ->
  pushed st' ⊎ mine st i i = pushed st ⊎ mine st' i i -> inv W st'.
Proof.
  intros Hi Hw Eq Ep Ho Hw' Hm. apply (change_inv W i i st); [|done]. split; rewrite ?Eq; try done.
  - apply (i_q _ _ Hi).
  - intros t f n j f' n' Hj. by rewrite Ho.
Qed.
Lemma idle_pc i (st : sys) : idle i st = true -> pcs st i = Idle.
Proof. unfold idle. by destruct (pcs st i). Qed.
Ltac moved := try done; try (intros ? ?; cbn; rewrite !at_upd_ne by done; done); try (intros ? ?; cbn; rewrite at_upd_ne by done; done);
  try (cbn; by rewrite at_upd); try (unfold winv; cbn; by rewrite at_upd).
Ltac turn Hp E := unfold mine, held, slot;
  cbn [qs pcs slots injector pushed taken lost goto give set_slot set_injector inject submit];
  rewrite ?at_upd, ?Hp, ?E, ?list_to_set_disj_app; cbn [list_to_set_disj option_list]; multiset_solver.
Lemma inv_enqueue W i v y st : inv W st -> (i < W)%nat -> inv W (enqueue i v y (submit v st)).
Proof.
  intros Hi Hw. unfold enqueue. destruct (idle i _) eqn:Hp; [|by apply inv_inject]. apply idle_pc in Hp. cbn in Hp.
  unfold worker_push. cbn [slots submit]. destruct y; cbn [negb]; [|destruct (slots st i) as [last|] eqn:E].
  - apply (inv_turn W i st); moved. turn Hp Hp.
  - apply (inv_turn W i st); moved. turn Hp E.
  - apply (inv_turn W i st); moved; [cbn; by rewrite Hp|unfold winv; cbn; by rewrite Hp|turn Hp E].
Qed.
Lemma inv_worker_pop W i inj st : inv W st -> (i < W)%nat -> pcs st i = Idle -> inv W (worker_pop i inj st).
Proof.
  intros Hi Hw Hp. unfold worker_pop. destruct (slots st i) as [v|] eqn:E; apply (inv_turn W i st); moved; turn Hp E.
Qed.
Lemma inv_next_task W i tick st : inv W st -> (i < W)%nat -> pcs st i = Idle -> inv W (next_task i tick st).
Proof.
  intros Hi Hw Hp. unfold next_task. destruct (_ =? _); [|by apply inv_worker_pop].
  destruct (injector st) as [|v l] eqn:E; [by apply inv_worker_pop|].
  apply (inv_turn W i st); moved; [cbn; by rewrite Hp|unfold winv; cbn; by rewrite Hp|turn Hp E].
Qed.
Lemma stealers_lt W rand : Forall (fun q => (q < W)%nat) (stealers W rand).
Proof.
  unfold stealers. apply Forall_app; split; [apply Forall_drop|apply Forall_take]; apply Forall_forall; intros x Hx; apply in_seq in Hx; lia.
Qed.
Lemma inv_steal W i p st : inv W st -> (i < W)%nat -> pcs st i = Idle -> holds p = None -> winv W (goto i p st) i -> held (goto i p st) i = [] ->
  inv W (goto i p st).
Proof.
  intros Hi Hw Hp Ho Hw' Hh. apply (inv_turn W i st); moved. unfold mine. rewrite Hh. unfold held. by rewrite Hp.
Qed.
(** Every action keeps the invariant, and no assertion fails. *)
Lemma inv_act W a st : inv W st -> fresh a st = true -> match act K W a st with To st' => inv W st' | Panics => False | Blocked => True end.
Proof.
  intros Hi Hf. destruct a as [v|i v y|i tick|i rand|i q|i]; cbn [act].
  - by apply inv_inject.
  - destruct (Nat.ltb_spec i W); [by apply inv_enqueue|done].
  - destruct (Nat.ltb_spec i W), (idle i st) eqn:Hp; cbn; try done. by apply inv_next_task, idle_pc.
  - destruct (Nat.ltb_spec i W), (idle i st) eqn:Hp; cbn; try done. pose proof (stealers_lt W rand) as Hs. apply idle_pc in Hp.
    unfold steal_task. apply inv_steal; try done; cbn; unfold next_stealer; destruct (stealers W rand) eqn:E;
      try done; unfold winv, held; cbn; rewrite at_upd; try done. by apply Forall_cons_1 in Hs.
  - destruct (Nat.ltb_spec i W), (Nat.ltb_spec q W), (idle i st) eqn:Hp; cbn; try done. apply idle_pc in Hp.
    apply inv_steal; try done; unfold winv, held; cbn; by rewrite at_upd.
  - destruct (Nat.ltb_spec i W) as [Hw|]; [|done]. pose proof (ok_step W st Hi i Hw Hf) as Ho.
    destruct (step K i st); try done. destruct Ho as [q Hc]. by apply (change_inv W i q st).
Qed.
Lemma inv_run W l st : inv W st -> fresh_run W l st = true -> match run K W l st with To st' => inv W st' | Panics => False | Blocked => True end.
Proof.
  revert st. induction l as [|a l IH]; intros st Hi Hf; cbn [run]; [done|]. cbn [fresh_run] in Hf. apply andb_prop in Hf as [Hf1 Hf2].
  pose proof (inv_act W a st Hi Hf1) as Ha. destruct (act K W a st); try done. by apply IH.
Qed.
Lemma sum_nil f W : (forall i, f i = []) -> sum f W = ∅.
Proof. intros E. induction W as [|W IH]; [done|]. cbn. rewrite E, IH. multiset_solver. Qed.
Lemma inv_init W d : inv W (init d).
Proof.
  pose proof N_range as [HN _]. split; cbn; try done.
  - intros i. unfold qinv. cbn. lia.
  - unfold total. rewrite !sum_nil by done. cbn. multiset_solver.
Qed.
(** Nothing is lost before a head has gone round. *)
Definition whole (st : sys) : Prop := lost st = ∅ \/ exists i, 2 ^ 32 <= real (qs st i).
Lemma step_lost i (st st' : sys) : step K i st = To st' ->
  lost st' = lost st \/ exists v h, pcs st i = PushCas v h /\ push_contended K i v h st = To st' /\ same (qs st i) h h = true.
Proof.
  unfold step. destruct (pcs st i) as [|v|v|v|v h|inj|inj s r| |q k|q k|q k s r|q k s r n|q k f n j|q k n s r|pop n] eqn:E; [done|..].
  4:{ intros Hc. pose proof Hc as Hc2. unfold push_contended in Hc2. destruct (same _ _ _) eqn:ES; [|simplify_eq; by left].
      right. by exists v, h. }
  all: unfold push_load, push_write, push_store, pop_load, pop_cas, inj_pop, steal_room, steal_load, steal_tail, steal_cas, steal_copy, steal_release, steal_finish;
    intros Hs; repeat case_match; simplify_eq; by left.
Qed.
Lemma whole_act W a (st st' : sys) : inv W st -> fresh a st = true -> whole st -> act K W a st = To st' -> whole st'.
Proof.
  intros Hi Hf Hl Ha.
  assert (Hsame : lost st' = lost st -> qs st' = qs st -> whole st') by (unfold whole; intros -> ->; done).
  destruct a as [v|i v y|i tick|i rand|i q|i]; cbn [act] in Ha.
  1-5: unfold enqueue, worker_push, next_task, worker_pop, steal_task in Ha; repeat case_match; simplify_eq; by apply Hsame.
  destruct (Nat.ltb_spec i W) as [Hw|]; [|done]. pose proof (ok_step W st Hi i Hw Hf) as Ho. rewrite Ha in Ho. destruct Ho as [q Hc].
  destruct (step_lost i st st' Ha) as [E|(v & h & Hp & Hs & ES)].
  - unfold whole. rewrite E. destruct Hl as [Hl|[t Ht]]; [by left|right]. exists t. pose proof (frame_mono W i q st st' Hc t). lia.
  - pose proof (i_q _ _ Hi i) as (Q1 & Q2 & Q3). pose proof (i_w _ _ Hi i) as Hr. unfold winv in Hr. rewrite Hp in Hr. destruct Hr as (H0 & H1 & H2).
    pose proof N_range as [HN _]. destruct (cas_ok (qs st i) h h ltac:(lia) ltac:(lia) ES) as [E1 E2]. unfold push_contended in Hs. rewrite ES in Hs. injection Hs as <-.
    destruct Hl as [Hl|[t Ht]].
    + unfold whole. cbn [lost qs goto lose inject set_injector set_q]. unfold BATCH_TO_BACKUP.
      destruct (Z.ltb_spec (h + N / 2) (2 ^ 32)) as [L|L]; [left|right; exists i; rewrite at_upd; exact L].
      destruct (batch_split (qs st i) h) as [_ B]. rewrite B, Hl by lia. cbn. multiset_solver.
    + right. exists t. pose proof (frame_mono W i q st _ Hc t). lia.
Qed.
Lemma whole_run W l (st st' : sys) : inv W st -> fresh_run W l st = true -> whole st -> run K W l st = To st' -> whole st'.
Proof.
  revert st. induction l as [|a l IH]; intros st Hi Hf Hl; cbn [run]; [by intros [= <-]|]. cbn [fresh_run] in Hf. apply andb_prop in Hf as [Hf1 Hf2].
  pose proof (inv_act W a st Hi Hf1) as Ha. pose proof (whole_act W a st) as Hw. destruct (act K W a st) as [s1| |]; try done.
  apply IH; [done|done|]. by apply Hw.
Qed.
(** All is done: nothing is in a queue, a slot, the injector or a worker's hands. *)
Definition drained (W : nat) (st : sys) : Prop :=
  injector st = [] /\ forall i, (i < W)%nat -> pcs st i = Idle /\ slots st i = None /\ real (qs st i) = tail (qs st i).
Lemma sum_drained f W : (forall i, (i < W)%nat -> f i = []) -> sum f W = ∅.
Proof.
  intros E. induction W as [|W IH]; [done|]. cbn. rewrite E by lia. rewrite IH by (intros; apply E; lia). multiset_solver.
Qed.
Lemma drained_total W st : drained W st -> total W st = taken st ⊎ lost st.
Proof.
  intros [Hi Hd]. unfold total. rewrite Hi. rewrite !sum_drained; [cbn; multiset_solver|..]; intros i Hw; destruct (Hd i Hw) as (E1 & E2 & E3).
  - unfold slot. by rewrite E2.
  - unfold held. by rewrite E1.
  - unfold content. by rewrite E3, Z.sub_diag.
Qed.

(** C7: the work-stealing executor: in every interleaving of the atomic accesses of any
    number of workers that enqueue, pop and steal from each other, in which no thief takes
    a head that has gone round 2^32 since its load for the one it has loaded
    ([fresh_run]; such an exchange hands a task out again, [stale_steal]), no assertion of
    queue.rs fails and a task is handed out at most as often as it was scheduled; as
    long as no head has gone round 2^32, none is lost: when the queues, slots and the
    injector have been drained, what was run is exactly what was scheduled. *)
Theorem tasks_once (d : T) (W : nat) (l : list action) : fresh_run W l (init d) = true ->
  match run K W l (init d) with
  | To st => pushed st = total W st /\ taken st ⊆ pushed st
      /\ ((forall i, real (qs st i) < 2 ^ 32) -> lost st = ∅ /\ (drained W st -> taken st = pushed st))
  | Panics => False
  | Blocked => True
  end.
Proof.
  intros Hf. pose proof (inv_run W l _ (inv_init W d) Hf) as Hr. pose proof (whole_run W l (init d)) as Hw.
  destruct (run K W l (init d)) as [st| |]; [|done|done]. pose proof (i_total _ _ Hr) as Ht. split_and!; [done|rewrite Ht; unfold total; multiset_solver|].
  intros Hsmall. destruct (Hw st (inv_init W d) Hf) as [Hl|[i Hl]]; [by left|done| |specialize (Hsmall i); lia].
  split; [done|]. intros Hd. rewrite Ht, drained_total, Hl by done. multiset_solver.
Qed.
End Proofs.
(** Two workers, two slots: worker 1 finds nothing and steals one of the two tasks of
    worker 0, which pops the other one. *)
Definition demo : list (@action nat) :=
  [Enqueue 0 10%nat true; Go 0; Go 0; Go 0; Enqueue 0 11%nat true; Go 0; Go 0; Go 0; Next 1 1; Go 1; Go 1; Go 1; StealTask 1 4]
  ++ replicate 5 (Go 1) ++ [Next 0 1; Go 0; Go 0] ++ replicate 4 (Go 1).
Definition after {A} (f : @sys nat _ _ -> A) (o : outcome) : option A := match o with To st => Some (f st) | _ => None end.
Lemma tasks_once_witness : exists st, run 1 2 demo (init 0%nat) = To st /\ taken st ⊆ pushed st
  /\ elements (taken st) = [10; 11]%nat /\ elements (pushed st) = [10; 11]%nat.
Proof.
  pose proof (tasks_once 1 ltac:(lia) 0%nat 2 demo ltac:(vm_compute; reflexivity)) as Hr.
  assert (E : after (fun st => (elements (taken st), elements (pushed st))) (run 1 2 demo (init 0%nat)) = Some ([10; 11], [10; 11])%nat)
    by (vm_compute; reflexivity).
  destruct (run 1 2 demo (init 0%nat)) as [st| |]; [|done|done]. exists st. cbn in E. injection E as E1 E2.
  split_and!; [done|apply Hr|done|done].
Defined.

(** The owner pops while a thief copies: the head is apart until the thief is done. *)
Example pop_during_steal : after (fun st => (elements (taken st), head (qs st 0%nat) =? word 0 2, injector st))
  (run 2 2 (concat ((fun v => [Enqueue 0 v true; Go 0; Go 0; Go 0]) <$> [1; 2; 3; 4]%nat) ++ [StealTask 1 0] ++ replicate 5 (Go 1)
    ++ [Enqueue 0 5%nat true; Go 0]) (init 0%nat)) = Some ([], true, [5%nat]).
Proof. vm_compute. reflexivity. Qed.

(** A thief has loaded the head of a queue and its tail when there was one task in it, and
    goes on when the head has gone round, with the queue empty and the task run: the
    exchange succeeds, and the task is handed out again. *)
Definition gone_round : @sys nat _ _ := mk_sys (upd 0%nat (mk_inner (2 ^ 32) (2 ^ 32) (2 ^ 32) (fun _ => 21%nat)) (fun _ => mk_inner 0 0 0 (fun _ => 0%nat)))
  (upd 1%nat (Steal3 0 (Some []) 0 0 1) (fun _ => Idle)) (fun _ => None) [] {[+ 21%nat +]} {[+ 21%nat +]} ∅.
Example stale_steal : after (fun st => (elements (taken st), elements (pushed st))) (run 1 2 (replicate 5 (Go 1)) gone_round) = Some ([21; 21], [21])%nat
  /\ fresh_run 1 2 (replicate 5 (Go 1)) gone_round = false.
Proof. by vm_compute. Qed.

(** When the head of a full queue goes round, the range over its wrapped bounds is
    empty: the half of the queue that was to be moved to the injector is lost. *)
Definition full_round : Inner := mk_inner (2 ^ 32 - 1) (2 ^ 32 - 1) (2 ^ 32 + 1) (fun i => if i =? 1 then 21%nat else 22%nat).
Example batch_lost : after (fun st => (elements (lost st), injector st))
  (run 1 1 [Enqueue 0 23%nat true; Go 0; Go 0] (set_q 0 full_round (init 0%nat))) = Some ([21], [23])%nat.
Proof. vm_compute. reflexivity. Qed.
Example batch_kept : after (fun st => (elements (lost st), injector st))
  (run 1 1 [Enqueue 0 23%nat true; Go 0; Go 0] (set_q 0 (mk_inner (2 ^ 32 - 3) (2 ^ 32 - 3) (2 ^ 32 - 1) (buffer full_round)) (init 0%nat)))
  = Some ([], [23; 21])%nat.
Proof. vm_compute. reflexivity. Qed.
